(* ===== verification/_CoqProject ===== *)
-Q . S2P
Prelude.v
Proto.v
Float.v
Signing.v
Entry.v
Storage.v
Ledger.v
LedgerSpec.v
ChainAudit.v
Rollup.v
Session.v
Registry.v
Relay.v
TLog.v
Heap.v
Credit.v
CreditSpec.v
AdmQueue.v
Replay.v
ReplaySpec.v
Broker.v
BrokerSpec.v
Queue.v
Settlement.v
SettlementSpec.v
Api.v
ApiSpec.v
FedProto.v
Transfer.v
TransferSpec.v
Gossip.v
Handshake.v
Federation.v
FederationSpec.v
WatchSpec.v
Reputation.v
ReputationSpec.v
EvaluatorSpec.v
FreezeSpec.v
Config.v
Wiring.v
Settings.v
RateGate.v
Builders.v
Consumer.v
Seeder.v
ClientSpec.v
Frame.v
Server.v
TrackerClient.v
RpcSpec.v
Supervisor.v
Sse.v
Bridge.v
KnownPeers.v
Tunnel.v
Proxy.v
AuditLog.v
PluginConfig.v
Enrol.v
Http.v
BrokerAdmin.v
AdmAdmin.v
Admin.v
