(* ===== verification/Prelude.v ===== *)
(** * Verification of token-bay: the tracker and its clients

    token-bay lets Claude users lend each other unused capacity. A region's tracker places
    a consumer's request with a seeder, and settles the usage the seeder reports against a
    ledger of credits that only the tracker writes. Trackers of different regions form a
    federation. This development models the tracker, from its configuration and the bytes that
    are signed to the interleaving of settlements and the messages between trackers, and the
    consumer's and the seeder's side of the plugin up to Claude Code's requests and claude's output,
    and proves what makes them correct. The
    program is the Go code under src/shared, src/tracker and src/plugin/internal.

    ** The parts and how they interact

    A plugin keeps one connection to a tracker, authenticated by the keys of both ends; the
    tracker's server keeps a directory of its connections, pushes offers and settlements to
    them, and hands each request, a method and a payload, to the api. A broker request
    carries an envelope: the api checks its signatures, admission admits, queues or rejects
    it, and the broker ([Submit]) reserves the most the request can cost against the
    consumer's credit snapshot (session), picks a seeder of the registry and offers it the
    request. A request that is queued waits until the broker's drain pops it. The seeder
    reports usage, signed; settlement checks the report ([HandleUsageReport]), asks the
    consumer to counter-sign, and a goroutine per request waits for that signature or a
    timeout and appends a USAGE entry to the ledger ([awaitSettle]), which moves the credits.
    The reaper expires reservations. The ledger is a hash chain in SQLite; hourly Merkle
    roots over it are published to other regions, and an audit re-reads the chain. Consumer
    and seeder talk through the STUN/TURN relay. Admission and reputation observe the ledger
    and the broker: admission keeps a credit score per consumer, with a log that survives a
    restart; reputation looks for outliers and freezes them, and a frozen identity is
    announced to the federation. The federation also moves credits between regions and expels
    trackers that equivocate.

    On the client side, the plugin turns a rate limit of the consumer's Claude Code into a
    network session: the hook's report is cross-checked against a usage probe (ccproxy's gate,
    ratelimit), a proof and an envelope are built and signed, the tracker's answer is stored
    with an ephemeral key, and the settings of Claude Code are redirected to a local proxy
    until the session is left. The proxy sends a request of such a session to the seeder, through
    a tunnel pinned to the key the tracker assigned. When the tracker pushes a settlement, the
    consumer counter-signs it. The seeder's plugin advertises whether it serves, decides on offers, serves one
    tunnelled request at a time through a bridge, which runs claude and reads its output, while a
    translator turns that output into the events Claude Code expects, and reports the usage.

    ** Files

    Shared:
    - Prelude.v: bytes, 64-bit and 32-bit integers, results, the state-and-error monad
      [GoM] with its reasoning rules and classes ([ReadOnly], [ErrKeeps]), sums over maps,
      stable sorting, time. Float.v: float64. Heap.v: container/heap.
    - Proto.v: the messages of shared/proto and shared/exhaustionproof and every validator
      of shared/proto/validate.go; strings are checked to be UTF-8 where protobuf does.
      FedProto.v: the same for shared/federation, with its envelope.
    - Signing.v: shared/signing and the transfer preimage of shared/federation. SHA-256,
      Ed25519 and the protobuf encoder are not in the repository: they are the classes
      [Crypto] and [Wire], with the facts used about them as the classes [CryptoLaws]
      (lengths; a signature made with a key verifies under its public key) and [WireLaws]
      (decoding undoes encoding). Collision freedom is never assumed: theorems that need
      it conclude "or here is a collision". [ToyCrypto] and [ToyWire] are computable
      instances of both classes, on which the witnesses run.

    Ledger (internal/ledger):
    - Entry.v: kinds, the entry hash, builders, verification.
    - Storage.v: ledger/storage. [Store] is the database: one field per table with its
      constraints. [Faults] says which database call fails; every operation is proved with
      arbitrary faults.
    - Ledger.v, LedgerSpec.v: the ledger's operations; the state machine [ledger_step]; its
      invariant [ledger_inv] and the properties of settlement, transfers and grants.
    - ChainAudit.v, Rollup.v: AssertChainIntegrity, and the Merkle tree and hourly rollup.

    Placing and settling requests:
    - Session.v: the in-flight table (objects behind pointers, kept in a heap, since one
      request is indexed twice and goroutines hold it), the reservations, the expiry sweep.
    - Registry.v: the sharded seeder registry and its refinement of one map.
    - Relay.v: the TURN session table of internal/stunturn.
    - Broker.v, BrokerSpec.v: prices, selection, the offer loop, [Submit] and the reaper.
    - Queue.v: requests that wait for capacity and the drain.
    - Settlement.v, SettlementSpec.v: usage reports, counter-signatures, the settlement
      goroutines and their interleaving ([settle_step]).
    - Api.v, ApiSpec.v: the request handlers and the dispatch, over all of the above.

    Admission (internal/admission):
    - Credit.v, CreditSpec.v: rolling windows, scores, attestations and their rate limit.
    - AdmQueue.v: the waiting heap, the decision, the supply snapshot.
    - TLog.v: the write-ahead log; Replay.v, ReplaySpec.v: snapshots and start-up.

    Reputation (internal/reputation):
    - Reputation.v: tables, scores, the evaluator's cycle, the cache, freeze and unfreeze.
    - ReputationSpec.v (the audit trail), EvaluatorSpec.v (what a cycle decides).

    Federation (internal/federation):
    - Gossip.v: seen set, rate limiter, peer registry, health. Handshake.v: the handshake.
    - Transfer.v, TransferSpec.v: cross-region transfers and the ledger's adapter.
    - Federation.v, FederationSpec.v, WatchSpec.v: the subsystem with its dispatcher, root
      attestations, equivocation, revocations, peer exchange and tickers.
    - FreezeSpec.v: reputation, federation and broker of two trackers together.

    Configuration and composition (tracker/internal/config, tracker/cmd):
    - Config.v: the sections, their defaults, validation. Wiring.v: what the composition root
      derives from a configuration for the components above, and the server's rules.

    The connection between a plugin and its tracker:
    - Frame.v: the framing of both sides. Server.v: internal/server, certificates, the directory
      of connections and its state machine, request streams, pushes.
    - TrackerClient.v: plugin/internal/trackerclient, its calls, push handlers, balance cache and
      bootstrap lists. Supervisor.v: pinned dialling, the rotation of trackers, back-off, and
      the goroutine that keeps the connection, as a state machine.
    - RpcSpec.v: a call and a push, with both ends.
    - Http.v: what the operator's interface uses of net/http. BrokerAdmin.v: the broker's
      operator handlers, force-failing step by step. AdmAdmin.v: admission's. Admin.v:
      internal/admin, the guard, the routes and the core handlers, and how the composition root
      connects them to the broker, admission, reputation and the ledger.

    Plugin (plugin/internal):
    - Settings.v: entering and leaving network mode in Claude Code's settings.json.
    - RateGate.v: the usage probe's parser, the verdict matrix, the gate.
    - Builders.v: proof and envelope builders, the identity signer, the preimage parser.
    - Consumer.v: the consumer's coordinator and session store. Seeder.v: the seeder's.
    - ClientSpec.v: both plugins and the tracker's settlement together.
    - Sse.v: ssetranslate. Bridge.v: ccbridge, the command line, session files, the stream, the
      conformance gate, the janitor. Tunnel.v: frames and the pinned handshake.
    - KnownPeers.v: the store of known trackers and the signed list to start from.
    - Proxy.v: where a request goes, the network route, the hooks, and one turn from Claude Code
      to the seeder's claude and back.
    - AuditLog.v: the audit log and its reader. PluginConfig.v: the configuration and what is
      built from it. Enrol.v: the identity's files, enrolling, transferring.

    A file named *Spec.v holds the properties of the files before it; the others hold both.
    Operations keep the Go names; a method of one type whose name another type of the
    package has is prefixed ([Inflight_Snapshot], [Reservations_Snapshot], [Rep_Score]).

    ** Conventions

    An integer is a [Z]; every place where Go's uint64, int64 or uint32 can wrap or is
    converted applies [u64], [i64] or [u32]. An operation that changes state and can fail is a
    [GoM S E A]: it returns the state it leaves behind also when it fails. The clock, random
    ids, the network and other goroutines are arguments: [Submit] and the append loop take, for
    each attempt, an arbitrary change of the shared state while they block, and theorems
    say what they assume of it ([interferes], [keeps_settleable]); the reputation tables carry
    an oracle that says, for every statement, what others wrote before it and whether it fails.
    float64 is [SpecFloat] at 53 bits, each operation rounded (no fused multiply-add);
    math.Exp, math.Log and math.Log2 are parameters. Go's map iteration order is that of
    [map_to_list]; no theorem depends on it. Codecs of messages are classes with the law that
    decoding undoes encoding; fields a decoder does not know are not modelled.

    ** Fuel

    [AssertChainIntegrity] takes fuel for its page loop; one more than the number of rows
    is proved enough ([AssertChainIntegrity_exact]). [readTLogFile] takes the length of the
    file, since every frame has at least one byte ([readTLogFile_total]). The heap's up and down
    take the length of the array; the escape stripper and the token scanner of RateGate.v that of
    the text, TrimSpace in Seeder.v that of the string. A stream of heartbeats is read with one more
    than its length, since a frame has a header, and the translator's buffer with its length,
    since a line has its newline. [merkleHash] recurses on the length of
    the level (Equations, well-founded). The offer loop and the append loop run the numbers
    of attempts the configuration gives. Everything else is structural.

    ** What the theorems show

    - Ledger: in every reachable database, whatever calls failed, the rows are a hash chain
      signed by the tracker and the credits are those the entries account for
      ([ledger_integrity]); operations are atomic; a settlement between two identities
      conserves credit, is accepted exactly when it should be, and is never replayed; a
      transfer out is authorised by the identity it debits.
    - Audit and rollup: the audit accepts exactly the intact chains; the tip hash and the
      Merkle root commit to the history, up to a collision that is exhibited.
    - Session: reservations never overspend a snapshot, transitions are compare-and-swap,
      the sweep does what its caller relies on.
    - Registry and relay: sharding and the three indexes are invisible ([registry_refines_map],
      [relay_refines_sessions]); load is accounted for.
    - Broker: whatever runs during the offers, an admitted request is assigned, reserved
      and counted in the load of its seeder once, and any other leaves nothing behind. A
      queued request is answered at most once.
    - Settlement: one goroutine per request; what a report is accepted on; what each end of
      a settlement leaves behind; a refused signature never reaches the ledger; a moving
      tip does not lose a settlement.
    - Api: no request breaks the tracker's invariants ([Dispatch_safe]); what backs an
      assignment.
    - Admission: the windows hold what a reference computes from the history; an attestation
      that is issued is accepted; the decision and the queue's accounting; a crash loses
      nothing that was acknowledged, and a restart rebuilds the state.
    - Federation: who is at the other end of a handshake; a payload is handled once in the
      dedupe window; no sequence of messages between two trackers mints credit, and a transfer
      with nothing in its way completes; revocations are authentic; who equivocates is
      expelled; the health watcher is patient.
    - Operators: an assigned request gives its seeder's load back once, however operators, the
      reaper and reports interleave ([load_given_back_once]); nobody without the token
      changes anything ([operators_only]); a freeze is refused by the broker from then on
      ([operator_freezes]); an override is answered once it is on record ([operator_drains]).
    - Reputation: the audit trail only grows and FROZEN is left only by the operator
      ([audit_trail]); a cycle decides as a reference says and the cache is what it decided
      ([cycle_decides]). A freeze at one tracker makes its own broker and the one of a peer
      refuse the identity ([freeze_refused_everywhere]).
    - Configuration: validation accepts exactly what its table says, and a configuration that
      is accepted is one every component starts with ([Validate_exact], [loaded_config_starts]).
    - Connections: what the server's directory has of a peer is a live connection of who its
      certificate names, and every registered peer is connected ([server_directory_sound]); every stream is opened on a connection to an
      endpoint that was configured or verified, with its pin ([calls_are_trusted]); a call has
      its effect at most once, and what the client reports of it is what the handler did
      ([call_at_most_once]); an offer that the tracker counts as accepted is a reservation at the
      seeder under the key it answers ([offer_means_reservation]).
    - A turn: the translator writes, however its input is cut, the events a reference gives for
      the conversation ([translation_correct]); the last result is billed ([served_and_billed]);
      what Claude Code gets for a request and what is billed for it ([network_turn]).
    - The plugin's files: what the log reported as written is read back ([acked_records_read_back]);
      what is on disk after an enrolment is what the tracker granted to ([enrolment_binds]); a
      configuration that loads is one both coordinators start with ([loaded_config_builds]).
    - Consumer: a fallback is entered only on a confirmed rate limit and undone when it fails
      ([fallback_gated], [fallback_undone]); what is counter-signed ([consumer_countersigns]).
    - Seeder: when it is available, and that each session is accounted for once
      ([seeder_available], [seeder_accountable], [active_iff_serving]).
    - End to end: what the seeder's plugin reports and the consumer's plugin counter-signs is
      what the tracker's ledger appends ([settlement_end_to_end]).
    - Wire formats: the validators accept exactly what their tables say; the signed
      preimages are injective and do not overlap.
    - Theorems named after a defect ([AppendUsage_self_dealing_mints], [Reserve_wraps],
      [AssertChainIntegrity_skips_high_seq], [SweepTerminal_stale_hash],
      [merkleHash_duplicate_last], [restart_from_snapshot_forgets], [torn_tail_hides],
      [attestation_stops_after_one_hop], [handshake_relayed], [old_audit_sticks],
      [freeze_lost_from_cache], [reentry_leaves_redirect], [keyless_envelope_declined],
      [acceptOne_stuck], [sidecar_seeder_never_picked], [early_lookup_leaks],
      [load_given_back_twice], [no_identity_is_unknown] and others) state behaviour of the code
      that its comments or its purpose contradict.

    ** Not modelled

    Of the tracker: the QUIC and TLS transports, opening and migrating SQLite files, the STUN
    packet codec (a third-party library's), net/http's server and the decoding of JSON, the goroutines
    that only call a modelled step on a timer, process start and stop, metrics, logging, and
    decoding YAML (a third-party library's). Of the plugin: QUIC, UDP sockets and the parsing of
    relay coordinates, net/http's server and reverse proxy, process groups and credentials of the
    bridge's subprocess, the PTY of the usage probe, the JSON of the hooks, the parsing of the
    command line, the start and stop of the sidecar, and the actor of the end-to-end tests. *)
From stdpp Require Export prelude gmap strings list_numbers sorting.
From Stdlib Require Export ZArith.
From Stdlib Require Import Strings.Byte Floats.SpecFloat.

#[global] Open Scope Z_scope.

(** ** Bytes *)

Abbreviation byte := Byte.byte.
Abbreviation bytes := (list Byte.byte).

#[global] Instance byte_eq_dec : EqDecision Byte.byte := Byte.byte_eq_dec.

#[global] Program Instance byte_countable : Countable Byte.byte :=
  inj_countable Byte.to_N Byte.of_N _.
Next Obligation. intros x. apply Byte.of_to_N. Qed.

(** [make([]byte, n)]. *)
Definition zero_bytes (n : nat) : bytes := replicate n Byte.x00.

(** [copy(arr[:], b)] into a zero [32]byte. *)
Definition copy32 (b : bytes) : bytes := take 32 (b ++ zero_bytes 32).

Lemma copy32_id b : length b = 32%nat → copy32 b = b.
Proof. intros Hl. unfold copy32. by rewrite take_app_le, take_ge by lia. Qed.

(** [len(b)], a Go [int]. *)
Definition blen {A} (b : list A) : Z := Z.of_nat (length b).

(** The proto package's [allZero]. *)
Fixpoint allZero (b : bytes) : bool :=
  match b with
  | [] => true
  | x :: b' => if bool_decide (x = Byte.x00) then allZero b' else false
  end.

(** One byte of a non-negative integer ([byte(v)] in Go: reduction modulo 256). *)
Definition byte_of_Z (z : Z) : byte :=
  default Byte.x00 (Byte.of_N (Z.to_N (z mod 256))).

Definition Z_of_byte (b : byte) : Z := Z.of_N (Byte.to_N b).

(** [binary.BigEndian.PutUint64]: [n] big-endian bytes, most significant first. *)
Fixpoint be_bytes (n : nat) (v : Z) : bytes :=
  match n with
  | O => []
  | S n' => byte_of_Z (Z.shiftr v (8 * Z.of_nat n')) :: be_bytes n' v
  end.

Definition PutUint64 (v : Z) : bytes := be_bytes 8 v.

(** [binary.BigEndian.Uint64]. *)
Definition be_val (b : bytes) : Z :=
  foldl (λ acc x, 256 * acc + Z_of_byte x) 0 b.

(** The bytes of a Go string. *)
Definition string_bytes (s : string) : bytes := String.list_byte_of_string s.

(** ** Machine integers *)

Definition two64 : Z := 2 ^ 64.
Definition MaxInt64 : Z := 2 ^ 63 - 1.
Definition MinInt64 : Z := - 2 ^ 63.

(** Conversion to [uint64] and the two's-complement reading of [int64]. *)
Definition u64 (z : Z) : Z := z mod 2 ^ 64.
Definition u32 (z : Z) : Z := z mod 2 ^ 32.
Definition i64 (z : Z) : Z := (z + 2 ^ 63) mod 2 ^ 64 - 2 ^ 63.

Definition is_u64 (z : Z) : Prop := 0 <= z < 2 ^ 64.
Definition is_u32 (z : Z) : Prop := 0 <= z < 2 ^ 32.
Definition is_i64 (z : Z) : Prop := - 2 ^ 63 <= z < 2 ^ 63.

(** ** Results and the state monad of the Go handlers *)

Inductive res (E A : Type) : Type :=
| Ok (a : A)
| Err (e : E).
Arguments Ok {E A} a.
Arguments Err {E A} e.

#[global] Instance Ok_inj {E A} : Inj (=) (=) (@Ok E A).
Proof. congruence. Qed.
#[global] Instance Err_inj {E A} : Inj (=) (=) (@Err E A).
Proof. congruence. Qed.

Definition is_ok {E A} (r : res E A) : bool :=
  match r with Ok _ => true | Err _ => false end.

(** A function that reads and writes a state and may return an error: the state is
    threaded through even when an error is returned, so that "an error leaves the
    state alone" is a statement and not a consequence of the type. *)
Definition GoM (S E A : Type) : Type := S → res E A * S.

Section monad.
Context {S E : Type}.

Definition gret {A} (a : A) : GoM S E A := λ s, (Ok a, s).
Definition gfail {A} (e : E) : GoM S E A := λ s, (Err e, s).
Definition gbind {A B} (m : GoM S E A) (k : A → GoM S E B) : GoM S E B := λ s,
  match m s with
  | (Ok a, s') => k a s'
  | (Err e, s') => (Err e, s')
  end.
(** A call that only reads the state. *)
Definition gread {A} (f : S → res E A) : GoM S E A := λ s, (f s, s).
(** A call that needs no state. *)
Definition glift {A} (r : res E A) : GoM S E A := λ s, (r, s).
(** [if c { return err }]. *)
Definition gguard (c : bool) (e : E) : GoM S E unit :=
  if c then gfail e else gret tt.
(** [fmt.Errorf("...: %w", err)]. *)
Definition gwrap {E' A} (f : E' → E) (m : GoM S E' A) : GoM S E A := λ s,
  match m s with
  | (Ok a, s') => (Ok a, s')
  | (Err e, s') => (Err (f e), s')
  end.
End monad.

Declare Scope go_scope.
Delimit Scope go_scope with go.

Notation "'let!' x := m 'in' k" := (gbind m (λ x, k))
  (at level 10, x pattern, m at level 200, k at level 200) : go_scope.
Notation "'do!' m 'in' k" := (gbind m (λ _, k))
  (at level 10, m at level 200, k at level 200) : go_scope.

(** Validators return a Go [error]: [None] is [nil]. *)
Notation "'return_if' c , e ;; k" := (if c then Some e else k)
  (at level 10, c at level 99, e at level 99, k at level 200, only parsing) : go_scope.

#[global] Open Scope go_scope.

(** ** Sums over a Go map *)

Definition msum `{Countable K} {V} (f : V → Z) (m : gmap K V) : Z :=
  map_fold (λ _ v acc, f v + acc) 0 m.

Definition lsum {A} (f : A → Z) (l : list A) : Z :=
  foldr (λ x acc, f x + acc) 0 l.

(** ** Ordering *)

(** [bytes.Compare(a, b) < 0]: also the order of BLOB keys. *)
Fixpoint bytes_ltb (a b : bytes) : bool :=
  match a, b with
  | _, [] => false
  | [], _ :: _ => true
  | x :: a', y :: b' =>
      if Z_of_byte x <? Z_of_byte y then true
      else if Z_of_byte y <? Z_of_byte x then false
      else bytes_ltb a' b'
  end.

(** A stable sort by a strict order given as a boolean ([sort.SliceStable], and
    [ORDER BY] with a total order of the key). *)
Fixpoint sinsert {A} (lt : A → A → bool) (x : A) (l : list A) : list A :=
  match l with
  | [] => [x]
  | y :: l' => if lt y x then y :: sinsert lt x l' else x :: y :: l'
  end.

Definition stable_sort {A} (lt : A → A → bool) (l : list A) : list A :=
  foldr (sinsert lt) [] l.

(** ** Time *)

(** [time.Time] is an integer count of nanoseconds since the Unix epoch; the zero
    [time.Time] is January 1 of year 1. [Duration] is an [int64] of nanoseconds and
    [Time.Sub] saturates. *)
Definition Second : Z := 1000000000.
Definition zeroTime : Z := - 62135596800 * Second.
Definition Unix (t : Z) : Z := t / Second.
Definition time_Unix (s : Z) : Z := s * Second.
Definition time_Sub (t u : Z) : Z := Z.max MinInt64 (Z.min MaxInt64 (t - u)).

(** ** float64 *)

(** IEEE 754 binary64 with the rounding Go uses. *)
Definition f64_mul : spec_float → spec_float → spec_float := SFmul 53 1024.
Definition f64_add : spec_float → spec_float → spec_float := SFadd 53 1024.
Definition f64_sub : spec_float → spec_float → spec_float := SFsub 53 1024.
Definition f64_div : spec_float → spec_float → spec_float := SFdiv 53 1024.
(** [float64(n)] *)
Definition f64_of_int (n : Z) : spec_float := binary_normalize 53 1024 n 0 false.

(** ** Addresses *)

(** [netip.AddrPort]; the zero value has no address. *)
Record AddrPort := { ap_Addr : bytes; ap_Port : Z }.

#[global] Instance AddrPort_eq_dec : EqDecision AddrPort.
Proof. solve_decision. Defined.

#[global] Program Instance AddrPort_countable : Countable AddrPort :=
  inj_countable (λ a, (ap_Addr a, ap_Port a)) (λ p, Some (Build_AddrPort p.1 p.2)) _.
Next Obligation. by intros []. Qed.

Definition zeroAddrPort : AddrPort := {| ap_Addr := []; ap_Port := 0 |}.

(** ** Tactics *)

(** Case analysis on the discriminee of the innermost match of a hypothesis, or of
    the goal, closing the branches that contradict it. *)
Ltac go_step H :=
  match type of H with
  | context [match ?x with _ => _ end] =>
      lazymatch x with
      | context [match _ with _ => _ end] => fail
      | _ => let E := fresh "E" in destruct x eqn:E
      end
  end; simplify_eq/=.

Ltac go_inv H := simplify_eq/=; repeat (go_step H).

Ltac bool_to_prop :=
  repeat match goal with
  | H : negb _ = true |- _ => apply negb_true_iff in H
  | H : negb _ = false |- _ => apply negb_false_iff in H
  | H : _ && _ = true |- _ => apply andb_true_iff in H as [? ?]
  | H : _ || _ = false |- _ => apply orb_false_iff in H as [? ?]
  | H : (_ =? _) = true |- _ => apply Z.eqb_eq in H
  | H : (_ =? _) = false |- _ => apply Z.eqb_neq in H
  | H : (_ <? _) = true |- _ => apply Z.ltb_lt in H
  | H : (_ <? _) = false |- _ => apply Z.ltb_ge in H
  | H : (_ <=? _) = true |- _ => apply Z.leb_le in H
  | H : (_ <=? _) = false |- _ => apply Z.leb_gt in H
  | H : bool_decide _ = true |- _ => apply bool_decide_eq_true in H
  | H : bool_decide _ = false |- _ => apply bool_decide_eq_false in H
  end.

Create HintDb go discriminated.
#[export] Hint Constants Transparent : go.
#[export] Hint Variables Transparent : go.

(** ** Lemmas on machine integers *)

Lemma u64_range z : is_u64 (u64 z).
Proof. unfold is_u64, u64. apply Z.mod_pos_bound. lia. Qed.

Lemma u64_id z : is_u64 z → u64 z = z.
Proof. apply Z.mod_small. Qed.

Lemma u32_range z : is_u32 (u32 z).
Proof. unfold is_u32, u32. apply Z.mod_pos_bound. lia. Qed.

Lemma i64_range z : is_i64 (i64 z).
Proof.
  unfold is_i64, i64.
  pose proof (Z.mod_pos_bound (z + 2 ^ 63) (2 ^ 64) ltac:(lia)). lia.
Qed.

Lemma i64_id z : is_i64 z → i64 z = z.
Proof. unfold is_i64, i64. intros H. rewrite Z.mod_small; lia. Qed.

(** Adding two non-negative [int64] values either is exact or wraps to a negative. *)
Lemma i64_add_nonneg a b :
  0 <= a <= MaxInt64 → 0 <= b <= MaxInt64 →
  i64 (a + b) = a + b ∨ i64 (a + b) < 0.
Proof.
  unfold MaxInt64, i64. intros Ha Hb.
  destruct (Z_lt_le_dec (a + b) (2 ^ 63)).
  - left. rewrite Z.mod_small; lia.
  - right. replace (a + b + 2 ^ 63) with (a + b - 2 ^ 63 + 1 * 2 ^ 64) by lia.
    rewrite Z_mod_plus_full, Z.mod_small; lia.
Qed.

Lemma u64_add_wrap a b : is_u64 a → is_u64 b → u64 (a + b) < a → a + b >= 2 ^ 64.
Proof.
  unfold is_u64, u64. intros Ha Hb Hlt.
  destruct (Z_lt_le_dec (a + b) (2 ^ 64)); [|lia].
  rewrite Z.mod_small in Hlt; lia.
Qed.

#[export] Hint Resolve u64_range i64_range u32_range : go.

(** ** Lemmas on bytes *)

Lemma Z_of_byte_range b : 0 <= Z_of_byte b < 256.
Proof. unfold Z_of_byte. pose proof (Byte.to_N_bounded b). lia. Qed.

Lemma Z_of_byte_of_Z z : Z_of_byte (byte_of_Z z) = z mod 256.
Proof.
  unfold Z_of_byte, byte_of_Z.
  pose proof (Z.mod_pos_bound z 256 ltac:(lia)) as Hb.
  destruct (Byte.of_N (Z.to_N (z mod 256))) as [b|] eqn:E; simpl.
  - apply Byte.to_of_N in E. rewrite E. lia.
  - exfalso. apply Byte.of_N_None_iff in E. lia.
Qed.

Lemma length_be_bytes n v : length (be_bytes n v) = n.
Proof. induction n; simpl; congruence. Qed.

Lemma be_val_app_fold l acc :
  foldl (λ acc x, 256 * acc + Z_of_byte x) acc l = acc * 256 ^ blen l + be_val l.
Proof.
  unfold be_val. revert acc. induction l as [|x l IH]; intros acc.
  - unfold blen. simpl. lia.
  - simpl. rewrite IH. rewrite (IH (256 * 0 + Z_of_byte x)).
    unfold blen. simpl length. rewrite Nat2Z.inj_succ, Z.pow_succ_r by lia. ring.
Qed.

(** [binary.BigEndian.Uint64] reads back what [PutUint64] wrote. *)
Lemma be_val_be_bytes n v : 0 <= v → be_val (be_bytes n v) = v mod 256 ^ Z.of_nat n.
Proof.
  intros Hv. induction n as [|n IH].
  - simpl. rewrite Z.mod_1_r. reflexivity.
  - simpl be_bytes. unfold be_val. simpl foldl.
    rewrite be_val_app_fold, IH. unfold blen. rewrite length_be_bytes, Z_of_byte_of_Z.
    rewrite Z.shiftr_div_pow2 by lia.
    replace (2 ^ (8 * Z.of_nat n)) with (256 ^ Z.of_nat n)
      by (rewrite Z.pow_mul_r by lia; reflexivity).
    rewrite Nat2Z.inj_succ, Z.pow_succ_r by lia.
    rewrite (Z.mul_comm 256 (256 ^ _)), Z.rem_mul_r by lia. lia.
Qed.

Lemma PutUint64_inj v w : is_u64 v → is_u64 w → PutUint64 v = PutUint64 w → v = w.
Proof.
  unfold PutUint64, is_u64. intros Hv Hw H.
  apply (f_equal be_val) in H.
  rewrite !be_val_be_bytes in H by lia.
  change (256 ^ Z.of_nat 8) with (2 ^ 64) in H.
  rewrite !Z.mod_small in H by lia. exact H.
Qed.

Lemma length_PutUint64 v : length (PutUint64 v) = 8%nat.
Proof. apply length_be_bytes. Qed.

Lemma allZero_spec b : allZero b = true ↔ b = zero_bytes (length b).
Proof.
  induction b as [|x b IH]; simpl; [done|].
  case_bool_decide as Hx; [subst; rewrite IH; unfold zero_bytes; simpl|].
  - split; [intros ->; rewrite length_replicate; done | intros [=]; done].
  - split; [done|]. unfold zero_bytes; simpl. congruence.
Qed.

Lemma allZero_zero_bytes n : allZero (zero_bytes n) = true.
Proof. apply allZero_spec. unfold zero_bytes. by rewrite length_replicate. Qed.

Lemma blen_zero_bytes n : blen (zero_bytes n) = Z.of_nat n.
Proof. unfold blen, zero_bytes. by rewrite length_replicate. Qed.

Lemma string_bytes_inj s t : string_bytes s = string_bytes t → s = t.
Proof.
  unfold string_bytes. intros H.
  rewrite <- (String.string_of_list_byte_of_string s), H.
  apply String.string_of_list_byte_of_string.
Qed.

Lemma app_inj_len {A} (a b c d : list A) :
  length a = length c → a ++ b = c ++ d → a = c ∧ b = d.
Proof. intros Hl H. apply app_inj_1; done. Qed.

Create Rewrite HintDb go_rw.
#[export] Hint Rewrite @length_replicate length_PutUint64 length_be_bytes
  blen_zero_bytes allZero_zero_bytes : go_rw.

(** Induction two elements at a time. *)
Lemma list_ind2 {A} (P : list A → Prop) :
  P [] → (∀ x, P [x]) → (∀ x y l, P l → P (x :: y :: l)) → ∀ l, P l.
Proof.
  intros H0 H1 H2. fix IH 1. intros [|x [|y l]]; [done|apply H1|apply H2, IH].
Qed.

Lemma blen_cons {A} (x : A) l : blen (x :: l) = blen l + 1.
Proof. unfold blen. simpl. lia. Qed.

Lemma blen_snoc {A} (x : A) l : blen (l ++ [x]) = blen l + 1.
Proof. unfold blen. rewrite length_app. simpl. lia. Qed.

(** The byte order is a strict weak order. *)
Lemma bytes_ltb_irrefl a : bytes_ltb a a = false.
Proof. induction a as [|x a IH]; simpl; [done|]. by rewrite Z.ltb_irrefl. Qed.

Lemma bytes_ltb_asym a b : bytes_ltb a b = true → bytes_ltb b a = false.
Proof.
  revert b. induction a as [|x a IH]; intros [|y b]; simpl; try done.
  destruct (Z_of_byte x <? Z_of_byte y) eqn:E1, (Z_of_byte y <? Z_of_byte x) eqn:E2;
    bool_to_prop; try done; try lia. apply IH.
Qed.

Lemma bytes_ltb_ntrans a b c :
  bytes_ltb b a = false → bytes_ltb c b = false → bytes_ltb c a = false.
Proof.
  revert a c. induction b as [|y b IH]; intros [|x a] [|z c]; simpl; try done.
  destruct (Z_of_byte y <? Z_of_byte x) eqn:E1, (Z_of_byte x <? Z_of_byte y) eqn:E2,
    (Z_of_byte z <? Z_of_byte y) eqn:E3, (Z_of_byte y <? Z_of_byte z) eqn:E4,
    (Z_of_byte z <? Z_of_byte x) eqn:E5, (Z_of_byte x <? Z_of_byte z) eqn:E6;
    bool_to_prop; try done; try lia. apply IH.
Qed.

(** ** Lemmas on sums *)

Section sums.
Context `{Countable K} {V : Type}.
Implicit Types (m : gmap K V) (f : V → Z).

Lemma msum_empty f : msum f (∅ : gmap K V) = 0.
Proof. unfold msum. by rewrite map_fold_empty. Qed.

Lemma msum_insert_None f m i x :
  m !! i = None → msum f (<[i:=x]> m) = f x + msum f m.
Proof.
  intros Hi. unfold msum. rewrite map_fold_insert_L; [done| |done].
  intros; lia.
Qed.

Lemma msum_delete f m i x :
  m !! i = Some x → msum f m = f x + msum f (delete i m).
Proof.
  intros Hi. unfold msum. rewrite (map_fold_delete_L _ _ i x); [done| |done].
  intros; lia.
Qed.

Lemma msum_delete_None f m i : m !! i = None → msum f (delete i m) = msum f m.
Proof. intros Hi. by rewrite delete_id. Qed.

Lemma msum_insert f m i x :
  msum f (<[i:=x]> m) = f x + msum f (delete i m).
Proof.
  rewrite <- insert_delete_eq. apply msum_insert_None, lookup_delete_eq.
Qed.

Lemma msum_ext f g m :
  (∀ i x, m !! i = Some x → f x = g x) → msum f m = msum g m.
Proof.
  induction m as [|i x m Hi IH] using map_ind; intros Hfg.
  - by rewrite !msum_empty.
  - rewrite !msum_insert_None by done. rewrite (Hfg i x) by (by rewrite lookup_insert_eq).
    rewrite IH; [done|]. intros j y Hj. apply (Hfg j y).
    rewrite lookup_insert_ne; [done|]. intros ->. congruence.
Qed.

Lemma msum_nonneg f m :
  (∀ i x, m !! i = Some x → 0 <= f x) → 0 <= msum f m.
Proof.
  induction m as [|i x m Hi IH] using map_ind; intros Hf.
  - rewrite msum_empty. lia.
  - rewrite msum_insert_None by done.
    assert (0 <= f x) by (apply (Hf i); by rewrite lookup_insert_eq).
    assert (0 <= msum f m); [|lia].
    apply IH. intros j y Hj. apply (Hf j y).
    rewrite lookup_insert_ne; [done|]. intros ->. congruence.
Qed.

Lemma msum_elem_le f m i x :
  (∀ j y, m !! j = Some y → 0 <= f y) → m !! i = Some x → f x <= msum f m.
Proof.
  intros Hf Hi. rewrite (msum_delete _ _ _ _ Hi).
  assert (0 <= msum f (delete i m)); [|lia].
  apply msum_nonneg. intros j y [_ Hj]%lookup_delete_Some. eauto.
Qed.
End sums.

Lemma sinsert_perm {A} (lt : A → A → bool) x l : sinsert lt x l ≡ₚ x :: l.
Proof.
  induction l as [|y l IH]; simpl; [done|].
  destruct (lt y x); [|done]. rewrite IH. apply Permutation_swap.
Qed.

Lemma stable_sort_perm {A} (lt : A → A → bool) l : stable_sort lt l ≡ₚ l.
Proof.
  induction l as [|x l IH]; simpl; [done|]. rewrite sinsert_perm. by rewrite IH.
Qed.

Lemma elem_of_stable_sort {A} (lt : A → A → bool) l x : x ∈ stable_sort lt l ↔ x ∈ l.
Proof. by rewrite stable_sort_perm. Qed.

(** When the test is asymmetric and negatively transitive on the elements of the list, the
    result is ordered: no element is strictly below an earlier one. *)
Lemma stable_sort_sorted {A} (P : A → Prop) (lt : A → A → bool) l :
  (∀ x y, P x → P y → lt x y = true → lt y x = false) →
  (∀ x y z, P x → P y → P z → lt y x = false → lt z y = false → lt z x = false) →
  Forall P l → StronglySorted (λ x y, lt y x = false) (stable_sort lt l).
Proof.
  intros Has Htr Hl. induction Hl as [|x l Hx HPl IH]; simpl; [constructor|].
  assert (Forall P (stable_sort lt l)) as HP.
  { rewrite Forall_forall in *. intros y Hy. rewrite stable_sort_perm in Hy. auto. }
  clear HPl. induction IH as [|y l' Hl IH' Hy]; simpl; [repeat constructor|].
  apply Forall_cons in HP as [HPy HP]. rewrite Forall_forall in Hy.
  destruct (lt y x) eqn:E.
  - constructor; [auto|]. apply Forall_forall. intros z Hz.
    rewrite sinsert_perm in Hz. apply elem_of_cons in Hz as [->|Hz]; auto.
  - rewrite Forall_forall in HP. constructor; [constructor; [done|by apply Forall_forall]|].
    constructor; [done|]. apply Forall_forall. intros z Hz.
    eapply (Htr x y z); auto.
Qed.

Lemma lsum_app {A} (f : A → Z) l k : lsum f (l ++ k) = lsum f l + lsum f k.
Proof. induction l; simpl; [done|]. lia. Qed.

Lemma lsum_nonneg {A} (f : A → Z) l : (∀ x, x ∈ l → 0 <= f x) → 0 <= lsum f l.
Proof.
  induction l as [|x l IH]; simpl; intros Hf; [lia|].
  pose proof (Hf x (list_elem_of_here _ _)).
  assert (0 <= lsum f l); [|lia]. apply IH. intros y Hy. apply Hf. by right.
Qed.

Lemma lsum_perm {A} (f : A → Z) l k : l ≡ₚ k → lsum f l = lsum f k.
Proof. induction 1; simpl; lia. Qed.

(** If every element of [l] has a partner of the same weight in [k], and the partners are
    told apart by their keys, [l] weighs no more than [k]. *)
Lemma lsum_matched {A K} (key : A → K) (f : A → Z) l k :
  NoDup (key <$> l) → (∀ y, y ∈ k → 0 <= f y) →
  (∀ x, x ∈ l → ∃ y, y ∈ k ∧ key y = key x ∧ f y = f x) →
  lsum f l <= lsum f k.
Proof.
  revert k. induction l as [|x l IH]; intros k Hnd Hpos Hm; [by apply lsum_nonneg|].
  apply NoDup_cons in Hnd as [Hx Hnd]. destruct (Hm x (list_elem_of_here _ _)) as (y & Hy & Hk & Hf).
  apply elem_of_Permutation in Hy as [k' Hp]. rewrite (lsum_perm f _ _ Hp). simpl.
  assert (lsum f l <= lsum f k'); [|lia]. apply IH; [done| |].
  - intros z Hz. apply Hpos. rewrite Hp. by right.
  - intros z Hz. destruct (Hm z (list_elem_of_further _ _ _ Hz)) as (w & Hw & Hkw & Hfw).
    rewrite Hp in Hw. apply elem_of_cons in Hw as [->|Hw]; [|by exists w].
    destruct Hx. rewrite <- Hk, Hkw. apply list_elem_of_fmap. by exists z.
Qed.

(** ** Reasoning about the monad *)

(** A call that leaves the state alone, and a call that does when it fails. Both are
    closed under the monad's operations, by instance resolution. *)
Class ReadOnly {S E A} (m : GoM S E A) : Prop := read_only s : snd (m s) = s.
Class ErrKeeps {S E A} (m : GoM S E A) : Prop :=
  err_keeps s e s' : m s = (Err e, s') → s' = s.

#[global] Hint Mode ReadOnly - - - ! : typeclass_instances.
#[global] Hint Mode ErrKeeps - - - ! : typeclass_instances.

Section monad_lemmas.
Context {S E : Type}.

#[global] Instance ReadOnly_ErrKeeps {A} (m : GoM S E A) : ReadOnly m → ErrKeeps m | 10.
Proof. intros Hm s e s' Hs. specialize (Hm s). by rewrite Hs in Hm. Qed.

#[global] Instance gret_ReadOnly {A} (a : A) : ReadOnly (gret (S:=S) (E:=E) a).
Proof. done. Qed.
#[global] Instance gfail_ReadOnly {A} (e : E) : ReadOnly (gfail (S:=S) (A:=A) e).
Proof. done. Qed.
#[global] Instance gread_ReadOnly {A} (f : S → res E A) : ReadOnly (gread f).
Proof. done. Qed.
#[global] Instance glift_ReadOnly {A} (r : res E A) : ReadOnly (glift (S:=S) r).
Proof. done. Qed.
#[global] Instance gguard_ReadOnly (c : bool) (e : E) : ReadOnly (gguard (S:=S) c e).
Proof. intros s. by destruct c. Qed.
#[global] Instance gwrap_ReadOnly {E' A} (f : E' → E) (m : GoM S E' A) :
  ReadOnly m → ReadOnly (gwrap f m).
Proof. intros Hm s. unfold gwrap. specialize (Hm s). by destruct (m s) as [[] ?]. Qed.
#[global] Instance gwrap_ErrKeeps {E' A} (f : E' → E) (m : GoM S E' A) :
  ErrKeeps m → ErrKeeps (gwrap f m).
Proof.
  intros Hm s e s'. unfold gwrap. destruct (m s) as [[] ?] eqn:Em; intros; simplify_eq.
  by eapply Hm.
Qed.
#[global] Instance gbind_ReadOnly {A B} (m : GoM S E A) (k : A → GoM S E B) :
  ReadOnly m → (∀ a, ReadOnly (k a)) → ReadOnly (gbind m k).
Proof.
  intros Hm Hk s. unfold gbind. specialize (Hm s). destruct (m s) as [[a|e] s1]; simpl in *.
  - subst. apply Hk.
  - done.
Qed.
(** Reads may come before a call that undoes its own failures. *)
#[global] Instance gbind_ErrKeeps {A B} (m : GoM S E A) (k : A → GoM S E B) :
  ReadOnly m → (∀ a, ErrKeeps (k a)) → ErrKeeps (gbind m k).
Proof.
  intros Hm Hk s e s'. unfold gbind. specialize (Hm s).
  destruct (m s) as [[a|e'] s1]; simpl in *; subst; intros; [by eapply Hk|by simplify_eq].
Qed.
(** Nothing fails after the last write. *)
#[global] Instance gbind_gret_ErrKeeps {A B} (m : GoM S E A) (f : A → B) :
  ErrKeeps m → ErrKeeps (gbind m (λ a, gret (f a))).
Proof.
  intros Hm s e s'. unfold gbind. destruct (m s) as [[a|e'] s1] eqn:Em; [done|].
  intros; simplify_eq. by eapply Hm.
Qed.

Lemma gbind_Ok {A B} (m : GoM S E A) (k : A → GoM S E B) s b s' :
  gbind m k s = (Ok b, s') ↔ ∃ a s1, m s = (Ok a, s1) ∧ k a s1 = (Ok b, s').
Proof. unfold gbind. destruct (m s) as [[a|e] s1]; naive_solver. Qed.

Lemma gbind_eq {A B} (m : GoM S E A) (k : A → GoM S E B) s a s1 :
  m s = (Ok a, s1) → gbind m k s = k a s1.
Proof. unfold gbind. by intros ->. Qed.

Lemma gguard_pass (c : bool) (e : E) (s : S) : c = false → gguard c e s = (Ok tt, s).
Proof. by intros ->. Qed.

Lemma gwrap_eq {E' A} (f : E' → E) (m : GoM S E' A) s a s1 :
  m s = (Ok a, s1) → gwrap f m s = (Ok a, s1).
Proof. unfold gwrap. by intros ->. Qed.

Lemma gguard_Ok (c : bool) (e : E) (s : S) x s' :
  gguard c e s = (Ok x, s') ↔ c = false ∧ s' = s.
Proof. destruct c, x; unfold gguard, gfail, gret; naive_solver. Qed.

Lemma gread_Ok {A} (f : S → res E A) s a s' : gread f s = (Ok a, s') ↔ f s = Ok a ∧ s' = s.
Proof. unfold gread. split; [intros [= ? ?]|intros [? ?]]; subst; auto; congruence. Qed.

Lemma glift_Ok {A} (r : res E A) (s : S) a s' : glift r s = (Ok a, s') ↔ r = Ok a ∧ s' = s.
Proof. unfold glift. split; [intros [= ? ?]|intros [? ?]]; subst; auto; congruence. Qed.

Lemma gret_Ok {A} (x : A) (s : S) a s' : gret (E:=E) x s = (Ok a, s') ↔ a = x ∧ s' = s.
Proof. unfold gret. split; [intros [= ? ?]|intros [? ?]]; subst; auto; congruence. Qed.

Lemma gwrap_Ok {E' A} (f : E' → E) (m : GoM S E' A) s a s' :
  gwrap f m s = (Ok a, s') ↔ m s = (Ok a, s').
Proof. unfold gwrap. destruct (m s) as [[] ?]; naive_solver. Qed.
End monad_lemmas.

(** Unfold one successful monadic step of a hypothesis into its equations. *)
Ltac go_ok H :=
  first
    [ apply gguard_Ok in H as [H ->]
    | apply gread_Ok in H as [H ->]
    | apply glift_Ok in H as [H ->]
    | apply gret_Ok in H as [H ->]
    | apply gwrap_Ok in H; go_ok H
    | idtac ].

(** Run a monadic definition that is known to succeed, one bind at a time. *)
Ltac go_run H :=
  lazymatch type of H with
  | gbind _ _ _ = _ =>
      let a := fresh "a" in let s1 := fresh "s" in let E := fresh "E" in
      apply gbind_Ok in H as (a & s1 & E & H); go_ok E
  | _ => go_ok H
  end.

#[global] Arguments be_bytes : simpl never.
#[global] Arguments PutUint64 : simpl never.
#[global] Arguments zero_bytes : simpl never.
#[global] Arguments string_bytes : simpl never.
#[global] Arguments u64 : simpl never.
#[global] Arguments u32 : simpl never.
#[global] Arguments i64 : simpl never.
