(* ===== verification/Proto.v ===== *)
(** Wire messages of shared/proto (and the exhaustion proof they embed) and their
    structural validators. A protobuf message pointer is an [option]; a Go [error] is
    an [option string] whose text is the constant part of the message. Open protobuf
    enums are inductive types with a constructor for the values the schema does not
    name. *)
From S2P Require Import Prelude.
From Stdlib Require Import Floats.SpecFloat.

Abbreviation error := (option string).

(** ** shared/exhaustionproof *)

Record StopFailure := { sf_Matcher : string; sf_At : Z; sf_ErrorShape : bytes }.

Record UsageProbe := { up_At : Z; up_Output : bytes }.

Record ExhaustionProofV1 := {
  ep_StopFailure : option StopFailure;
  ep_UsageProbe : option UsageProbe;
  ep_CapturedAt : Z;
  ep_Nonce : bytes
}.

Definition proofFreshnessWindow : Z := 60.

Definition proofNonceLen : Z := 16.

(** [ValidateProofV1]; the gap is computed with [uint64] subtraction. *)
Definition ValidateProofV1 (p : option ExhaustionProofV1) : error :=
  match p with
  | None => Some "exhaustionproof: nil ExhaustionProofV1"
  | Some p =>
  match ep_StopFailure p with
  | None => Some "exhaustionproof: missing stop_failure"
  | Some sf =>
  match ep_UsageProbe p with
  | None => Some "exhaustionproof: missing usage_probe"
  | Some up =>
    return_if negb (bool_decide (sf_Matcher sf = "rate_limit")),
      "exhaustionproof: stop_failure.matcher" ;;
    return_if sf_At sf =? 0, "exhaustionproof: stop_failure.at is zero" ;;
    return_if up_At up =? 0, "exhaustionproof: usage_probe.at is zero" ;;
    let gap :=
      if up_At up <? sf_At sf then u64 (sf_At sf - up_At up)
      else u64 (up_At up - sf_At sf) in
    return_if proofFreshnessWindow <? gap, "exhaustionproof: signals apart" ;;
    return_if ep_CapturedAt p =? 0, "exhaustionproof: captured_at is zero" ;;
    return_if negb (blen (ep_Nonce p) =? proofNonceLen), "exhaustionproof: nonce length" ;;
    None
  end end end.

(** ** Balance snapshots and broker envelopes *)

Record BalanceSnapshotBody := {
  bs_IdentityId : bytes;
  bs_Credits : Z;
  bs_ChainTipHash : bytes;
  bs_ChainTipSeq : Z;
  bs_IssuedAt : Z;
  bs_ExpiresAt : Z
}.

Record SignedBalanceSnapshot := {
  sbs_Body : option BalanceSnapshotBody;
  sbs_TrackerSig : bytes
}.

Inductive PrivacyTier :=
| PRIVACY_TIER_UNSPECIFIED
| PRIVACY_TIER_STANDARD
| PRIVACY_TIER_TEE
| PRIVACY_TIER_OTHER (v : Z).

#[global] Instance PrivacyTier_eq_dec : EqDecision PrivacyTier.
Proof. solve_decision. Defined.

Record EnvelopeBody := {
  env_ProtocolVersion : Z;
  env_ConsumerId : bytes;
  env_Model : string;
  env_MaxInputTokens : Z;
  env_MaxOutputTokens : Z;
  env_Tier : PrivacyTier;
  env_BodyHash : bytes;
  env_ExhaustionProof : option ExhaustionProofV1;
  env_BalanceProof : option SignedBalanceSnapshot;
  env_CapturedAt : Z;
  env_Nonce : bytes;
  env_ConsumerEphemeralPub : bytes
}.

Record EnvelopeSigned := {
  es_Body : option EnvelopeBody;
  es_ConsumerSig : bytes
}.

Definition ProtocolVersion : Z := 1.

Definition envelopeIDLen : Z := 32.
Definition envelopeBodyHashLen : Z := 32.
Definition envelopeNonceLen : Z := 16.

Definition ValidateEnvelopeBody (b : option EnvelopeBody) : error :=
  match b with
  | None => Some "proto: nil EnvelopeBody"
  | Some b =>
    return_if negb (env_ProtocolVersion b =? ProtocolVersion), "proto: protocol_version" ;;
    return_if negb (blen (env_ConsumerId b) =? envelopeIDLen), "proto: consumer_id length" ;;
    return_if bool_decide (env_Model b = ""), "proto: model is empty" ;;
    return_if negb (blen (env_BodyHash b) =? envelopeBodyHashLen), "proto: body_hash length" ;;
    return_if (match env_Tier b with
               | PRIVACY_TIER_STANDARD | PRIVACY_TIER_TEE => false
               | _ => true
               end), "proto: tier must be STANDARD or TEE" ;;
    return_if (match env_ExhaustionProof b with None => true | _ => false end),
      "proto: missing exhaustion_proof" ;;
    match ValidateProofV1 (env_ExhaustionProof b) with
    | Some e => Some (String.append "proto: exhaustion_proof: " e)
    | None =>
    return_if (match env_BalanceProof b with None => true | _ => false end),
      "proto: missing balance_proof" ;;
    return_if env_CapturedAt b =? 0, "proto: captured_at is zero" ;;
    return_if negb (blen (env_Nonce b) =? envelopeNonceLen), "proto: nonce length" ;;
    return_if negb (blen (env_ConsumerEphemeralPub b) =? 0)
              && negb (blen (env_ConsumerEphemeralPub b) =? 32),
      "proto: consumer_ephemeral_pub length" ;;
    None
    end
  end.

(** ** Ledger entries *)

Inductive EntryKind :=
| ENTRY_KIND_UNSPECIFIED
| ENTRY_KIND_USAGE
| ENTRY_KIND_TRANSFER_OUT
| ENTRY_KIND_TRANSFER_IN
| ENTRY_KIND_STARTER_GRANT
| ENTRY_KIND_OTHER (v : Z).

#[global] Instance EntryKind_eq_dec : EqDecision EntryKind.
Proof. solve_decision. Defined.

Record EntryBody := {
  eb_PrevHash : bytes;
  eb_Seq : Z;
  eb_Kind : EntryKind;
  eb_ConsumerId : bytes;
  eb_SeederId : bytes;
  eb_Model : string;
  eb_InputTokens : Z;
  eb_OutputTokens : Z;
  eb_CostCredits : Z;
  eb_Timestamp : Z;
  eb_RequestId : bytes;
  eb_Flags : Z;
  eb_Ref : bytes
}.

#[global] Instance EntryBody_eq_dec : EqDecision EntryBody.
Proof. solve_decision. Defined.

Record Entry := {
  ent_Body : option EntryBody;
  ent_ConsumerSig : bytes;
  ent_SeederSig : bytes;
  ent_TrackerSig : bytes
}.

Definition entryHashLen : Z := 32.
Definition entryRequestIDLen : Z := 16.
Definition entryModelMaxLen : Z := 32.
Definition entryFlagsMask : Z := 1.

(** Go's [b.Flags & ^entryFlagsMask] on [uint32]. *)
Definition unknown_flags (flags : Z) : Z := Z.land flags (2 ^ 32 - 1 - entryFlagsMask).

Definition strlen (s : string) : Z := Z.of_nat (String.length s).

Definition ValidateEntryBody (b : option EntryBody) : error :=
  match b with
  | None => Some "proto: nil EntryBody"
  | Some b =>
    return_if negb (blen (eb_PrevHash b) =? entryHashLen), "proto: prev_hash length" ;;
    return_if negb (blen (eb_Ref b) =? entryHashLen), "proto: ref length" ;;
    return_if negb (unknown_flags (eb_Flags b) =? 0), "proto: flags, unknown bits set" ;;
    match eb_Kind b with
    | ENTRY_KIND_USAGE =>
      return_if negb (blen (eb_ConsumerId b) =? entryHashLen), "proto: usage consumer_id length" ;;
      return_if negb (blen (eb_SeederId b) =? entryHashLen), "proto: usage seeder_id length" ;;
      return_if bool_decide (eb_Model b = ""), "proto: usage entry has empty model" ;;
      return_if entryModelMaxLen <? strlen (eb_Model b), "proto: model length" ;;
      return_if negb (blen (eb_RequestId b) =? entryRequestIDLen), "proto: usage request_id length" ;;
      None
    | ENTRY_KIND_TRANSFER_OUT =>
      return_if negb (blen (eb_ConsumerId b) =? entryHashLen), "proto: transfer_out consumer_id length" ;;
      return_if negb (blen (eb_SeederId b) =? entryHashLen) || negb (allZero (eb_SeederId b)),
        "proto: transfer_out seeder_id must be 32 zero bytes" ;;
      return_if negb (bool_decide (eb_Model b = "")), "proto: transfer_out model must be empty" ;;
      return_if negb (blen (eb_RequestId b) =? entryRequestIDLen) || negb (allZero (eb_RequestId b)),
        "proto: transfer_out request_id must be 16 zero bytes" ;;
      return_if negb (eb_InputTokens b =? 0) || negb (eb_OutputTokens b =? 0),
        "proto: transfer_out tokens must be zero" ;;
      return_if negb (eb_Flags b =? 0), "proto: transfer_out flags must be 0" ;;
      None
    | ENTRY_KIND_TRANSFER_IN =>
      return_if negb (blen (eb_ConsumerId b) =? entryHashLen) || negb (allZero (eb_ConsumerId b)),
        "proto: transfer_in consumer_id must be 32 zero bytes" ;;
      return_if negb (blen (eb_SeederId b) =? entryHashLen) || negb (allZero (eb_SeederId b)),
        "proto: transfer_in seeder_id must be 32 zero bytes" ;;
      return_if negb (bool_decide (eb_Model b = "")), "proto: transfer_in model must be empty" ;;
      return_if negb (blen (eb_RequestId b) =? entryRequestIDLen) || negb (allZero (eb_RequestId b)),
        "proto: transfer_in request_id must be 16 zero bytes" ;;
      return_if negb (eb_InputTokens b =? 0) || negb (eb_OutputTokens b =? 0),
        "proto: transfer_in tokens must be zero" ;;
      return_if negb (eb_Flags b =? 0), "proto: transfer_in flags must be 0" ;;
      None
    | ENTRY_KIND_STARTER_GRANT =>
      return_if negb (blen (eb_ConsumerId b) =? entryHashLen), "proto: starter_grant consumer_id length" ;;
      return_if negb (blen (eb_SeederId b) =? entryHashLen) || negb (allZero (eb_SeederId b)),
        "proto: starter_grant seeder_id must be 32 zero bytes" ;;
      return_if negb (bool_decide (eb_Model b = "")), "proto: starter_grant model must be empty" ;;
      return_if negb (blen (eb_RequestId b) =? entryRequestIDLen) || negb (allZero (eb_RequestId b)),
        "proto: starter_grant request_id must be 16 zero bytes" ;;
      return_if negb (allZero (eb_Ref b)), "proto: starter_grant ref must be 32 zero bytes" ;;
      return_if negb (eb_InputTokens b =? 0) || negb (eb_OutputTokens b =? 0),
        "proto: starter_grant tokens must be zero" ;;
      return_if negb (eb_Flags b =? 0), "proto: starter_grant flags must be 0" ;;
      None
    | _ => Some "proto: kind must be USAGE, TRANSFER_OUT, TRANSFER_IN, or STARTER_GRANT"
    end
  end.

(** ** RPC frames *)

Inductive RpcMethod :=
| RPC_METHOD_UNSPECIFIED | RPC_METHOD_ENROLL | RPC_METHOD_BROKER_REQUEST
| RPC_METHOD_BALANCE | RPC_METHOD_SETTLE | RPC_METHOD_USAGE_REPORT
| RPC_METHOD_ADVERTISE | RPC_METHOD_TRANSFER_REQUEST | RPC_METHOD_STUN_ALLOCATE
| RPC_METHOD_TURN_RELAY_OPEN | RPC_METHOD_BOOTSTRAP_PEERS
| RPC_METHOD_OTHER (v : Z).

Inductive RpcStatus :=
| RPC_STATUS_UNSPECIFIED | RPC_STATUS_OK | RPC_STATUS_INVALID
| RPC_STATUS_NO_CAPACITY | RPC_STATUS_FROZEN | RPC_STATUS_INTERNAL
| RPC_STATUS_UNAUTHENTICATED | RPC_STATUS_NOT_FOUND
| RPC_STATUS_OTHER (v : Z).

Record RpcError := { re_Code : string; re_Message : string }.

Record RpcRequest := { rq_Method : RpcMethod; rq_Payload : bytes }.

Record RpcResponse := {
  rs_Status : RpcStatus;
  rs_Payload : bytes;
  rs_Error : option RpcError
}.

Definition MaxRPCPayloadSize : Z := Z.shiftl 1 20.

Definition ValidateRPCRequest (r : option RpcRequest) : error :=
  match r with
  | None => Some "proto: RpcRequest is nil"
  | Some r =>
    return_if (match rq_Method r with
               | RPC_METHOD_UNSPECIFIED | RPC_METHOD_OTHER _ => true
               | _ => false
               end), "proto: RpcRequest.Method invalid" ;;
    return_if MaxRPCPayloadSize <? blen (rq_Payload r), "proto: RpcRequest.Payload" ;;
    None
  end.

Definition ValidateRPCResponse (r : option RpcResponse) : error :=
  match r with
  | None => Some "proto: RpcResponse is nil"
  | Some r =>
    return_if (match rs_Status r with
               | RPC_STATUS_UNSPECIFIED | RPC_STATUS_OTHER _ => true
               | _ => false
               end), "proto: RpcResponse.Status invalid" ;;
    return_if (match rs_Status r with
               | RPC_STATUS_OK => false
               | _ => match rs_Error r with
                      | None => true
                      | Some e => bool_decide (re_Code e = "")
                      end
               end), "proto: RpcResponse.Error required when Status != OK" ;;
    return_if MaxRPCPayloadSize <? blen (rs_Payload r), "proto: RpcResponse.Payload" ;;
    None
  end.

(** ** Broker responses and pushes *)

Record SeederAssignment := {
  sa_SeederAddr : bytes;
  sa_SeederPubkey : bytes;
  sa_ReservationToken : bytes
}.

Record NoCapacity := { nc_Reason : string }.

(** The band and reason enums are open: only their zero value is refused. *)
Record Queued := { qd_RequestId : bytes; qd_PositionBand : Z; qd_EtaBand : Z }.

Record Rejected := { rj_Reason : Z; rj_RetryAfterS : Z }.

Inductive BrokerOutcome :=
| BrokerRequestResponse_SeederAssignment (a : option SeederAssignment)
| BrokerRequestResponse_NoCapacity (n : option NoCapacity)
| BrokerRequestResponse_Queued (q : option Queued)
| BrokerRequestResponse_Rejected (r : option Rejected).

Record OfferPush := {
  op_ConsumerId : bytes;
  op_EnvelopeHash : bytes;
  op_Model : string;
  op_MaxInputTokens : Z;
  op_MaxOutputTokens : Z;
  op_ConsumerEphemeralPub : bytes;
  op_RequestId : bytes
}.

Record SettlementPush := { sp_PreimageHash : bytes; sp_PreimageBody : bytes }.

Definition ValidateSeederAssignment (a : option SeederAssignment) : error :=
  match a with
  | None => Some "proto: SeederAssignment is nil"
  | Some a =>
    return_if blen (sa_SeederAddr a) =? 0, "proto: SeederAssignment.SeederAddr empty" ;;
    return_if negb (blen (sa_SeederPubkey a) =? 32), "proto: SeederAssignment.SeederPubkey" ;;
    return_if negb (blen (sa_ReservationToken a) =? 16), "proto: SeederAssignment.ReservationToken" ;;
    None
  end.

Definition ValidateQueued (q : option Queued) : error :=
  match q with
  | None => Some "proto: Queued is nil"
  | Some q =>
    return_if negb (blen (qd_RequestId q) =? 16), "proto: Queued.RequestId" ;;
    return_if qd_PositionBand q =? 0, "proto: Queued.PositionBand UNSPECIFIED" ;;
    return_if qd_EtaBand q =? 0, "proto: Queued.EtaBand UNSPECIFIED" ;;
    None
  end.

Definition ValidateRejected (r : option Rejected) : error :=
  match r with
  | None => Some "proto: Rejected is nil"
  | Some r =>
    return_if rj_Reason r =? 0, "proto: Rejected.Reason UNSPECIFIED" ;;
    return_if (rj_RetryAfterS r <? 60) || (600 <? rj_RetryAfterS r),
      "proto: Rejected.RetryAfterS outside [60, 600]" ;;
    None
  end.

(** The response is [option (option BrokerOutcome)]: a nil message, or one whose
    oneof may be unset. *)
Definition ValidateBrokerRequestResponse (r : option (option BrokerOutcome)) : error :=
  match r with
  | None => Some "proto: BrokerRequestResponse is nil"
  | Some o =>
    match o with
    | Some (BrokerRequestResponse_SeederAssignment a) => ValidateSeederAssignment a
    | Some (BrokerRequestResponse_NoCapacity n) =>
        return_if (match n with None => true | _ => false end),
          "proto: BrokerRequestResponse.NoCapacity is nil" ;; None
    | Some (BrokerRequestResponse_Queued q) => ValidateQueued q
    | Some (BrokerRequestResponse_Rejected r) => ValidateRejected r
    | None => Some "proto: BrokerRequestResponse.Outcome unset"
    end
  end.

Definition ValidateOfferPush (o : option OfferPush) : error :=
  match o with
  | None => Some "proto: OfferPush is nil"
  | Some o =>
    return_if negb (blen (op_ConsumerId o) =? 32), "proto: OfferPush.ConsumerId" ;;
    return_if negb (blen (op_EnvelopeHash o) =? 32), "proto: OfferPush.EnvelopeHash" ;;
    return_if bool_decide (op_Model o = ""), "proto: OfferPush.Model empty" ;;
    return_if negb (blen (op_ConsumerEphemeralPub o) =? 0)
              && negb (blen (op_ConsumerEphemeralPub o) =? 32),
      "proto: OfferPush.ConsumerEphemeralPub" ;;
    return_if negb (blen (op_RequestId o) =? 0) && negb (blen (op_RequestId o) =? 16),
      "proto: OfferPush.RequestId" ;;
    None
  end.

Definition ValidateSettlementPush (s : option SettlementPush) : error :=
  match s with
  | None => Some "proto: SettlementPush is nil"
  | Some s =>
    return_if negb (blen (sp_PreimageHash s) =? 32), "proto: SettlementPush.PreimageHash" ;;
    return_if blen (sp_PreimageBody s) =? 0, "proto: SettlementPush.PreimageBody empty" ;;
    None
  end.

(** ** Bootstrap peer lists *)

Definition MaxBootstrapPeers : Z := 256.
Definition MaxBootstrapPeerAddrLen : Z := 256.
Definition MaxBootstrapPeerRegionHintLen : Z := 64.
Definition MaxBootstrapPeerListLifetimeS : Z := 60 * 60.

(** [float64] is IEEE 754 binary64, as [spec_float]. *)
Record BootstrapPeer := {
  bp_TrackerId : bytes;
  bp_Addr : string;
  bp_LastSeen : Z;
  bp_RegionHint : string;
  bp_HealthScore : spec_float
}.

Record BootstrapPeerList := {
  bl_IssuerId : bytes;
  bl_SignedAt : Z;
  bl_ExpiresAt : Z;
  bl_Peers : list (option BootstrapPeer);
  bl_Sig : bytes
}.

(** [utf8.ValidString], by the accept ranges of unicode/utf8. *)
Definition in_range (lo hi : Z) (b : Z) : bool := (lo <=? b) && (b <=? hi).

Fixpoint utf8_valid (s : list Z) : bool :=
  match s with
  | [] => true
  | b0 :: s1 =>
    if b0 <? 128 then utf8_valid s1
    else match s1 with
    | [] => false
    | b1 :: s2 =>
      if in_range 194 223 b0 then in_range 128 191 b1 && utf8_valid s2
      else match s2 with
      | [] => false
      | b2 :: s3 =>
        let tail3 := in_range 128 191 b2 && utf8_valid s3 in
        if b0 =? 224 then in_range 160 191 b1 && tail3
        else if b0 =? 237 then in_range 128 159 b1 && tail3
        else if in_range 225 239 b0 then in_range 128 191 b1 && tail3
        else match s3 with
        | [] => false
        | b3 :: s4 =>
          let tail4 := in_range 128 191 b2 && in_range 128 191 b3 && utf8_valid s4 in
          if b0 =? 240 then in_range 144 191 b1 && tail4
          else if b0 =? 244 then in_range 128 143 b1 && tail4
          else if in_range 241 243 b0 then in_range 128 191 b1 && tail4
          else false
        end
      end
    end
  end.

Definition ValidString (s : string) : bool := utf8_valid (Z_of_byte <$> string_bytes s).

Definition f64_zero : spec_float := S754_zero false.
Definition f64_one : spec_float := S754_finite false 4503599627370496 (-52).
Definition is_NaN (x : spec_float) : bool :=
  match x with S754_nan => true | _ => false end.

Definition ValidateBootstrapPeer (p : option BootstrapPeer) : error :=
  match p with
  | None => Some "proto: BootstrapPeerList.peers is nil"
  | Some p =>
    return_if negb (blen (bp_TrackerId p) =? 32), "proto: BootstrapPeerList.peers.tracker_id len" ;;
    return_if strlen (bp_Addr p) =? 0, "proto: BootstrapPeerList.peers.addr empty" ;;
    return_if MaxBootstrapPeerAddrLen <? strlen (bp_Addr p), "proto: BootstrapPeerList.peers.addr len" ;;
    return_if negb (ValidString (bp_Addr p)), "proto: BootstrapPeerList.peers.addr invalid utf-8" ;;
    return_if MaxBootstrapPeerRegionHintLen <? strlen (bp_RegionHint p),
      "proto: BootstrapPeerList.peers.region_hint len" ;;
    return_if negb (ValidString (bp_RegionHint p)),
      "proto: BootstrapPeerList.peers.region_hint invalid utf-8" ;;
    return_if is_NaN (bp_HealthScore p) || SFltb (bp_HealthScore p) f64_zero
              || SFltb f64_one (bp_HealthScore p),
      "proto: BootstrapPeerList.peers.health_score out of [0,1]" ;;
    None
  end.

(** The loop over [l.Peers]: the first failing peer decides. *)
Fixpoint ValidateBootstrapPeers (ps : list (option BootstrapPeer)) : error :=
  match ps with
  | [] => None
  | p :: ps' =>
    match ValidateBootstrapPeer p with
    | Some e => Some e
    | None => ValidateBootstrapPeers ps'
    end
  end.

Definition ValidateBootstrapPeerList (l : option BootstrapPeerList) : error :=
  match l with
  | None => Some "proto: nil BootstrapPeerList"
  | Some l =>
    return_if negb (blen (bl_IssuerId l) =? 32), "proto: BootstrapPeerList.issuer_id len" ;;
    return_if negb (blen (bl_Sig l) =? 64), "proto: BootstrapPeerList.sig len" ;;
    return_if bl_SignedAt l =? 0, "proto: BootstrapPeerList.signed_at zero" ;;
    return_if bl_ExpiresAt l <=? bl_SignedAt l, "proto: BootstrapPeerList.expires_at not > signed_at" ;;
    return_if MaxBootstrapPeerListLifetimeS <? u64 (bl_ExpiresAt l - bl_SignedAt l),
      "proto: BootstrapPeerList lifetime" ;;
    return_if MaxBootstrapPeers <? blen (bl_Peers l), "proto: BootstrapPeerList.peers len" ;;
    ValidateBootstrapPeers (bl_Peers l)
  end.

(** ** The per-kind field matrix, as a table *)

Inductive slot := AnyBytes | ZeroBytes.

Definition slot_ok (n : nat) (s : slot) (b : bytes) : Prop :=
  match s with
  | AnyBytes => length b = n
  | ZeroBytes => b = zero_bytes n
  end.

(** One row of the ledger specification's per-kind matrix. *)
Record KindShape := {
  ks_consumer : slot;
  ks_seeder : slot;
  ks_request : slot;
  ks_ref : slot;
  ks_usage : bool
}.

Definition kind_shape (k : EntryKind) : option KindShape :=
  match k with
  | ENTRY_KIND_USAGE => Some (Build_KindShape AnyBytes AnyBytes AnyBytes AnyBytes true)
  | ENTRY_KIND_TRANSFER_OUT => Some (Build_KindShape AnyBytes ZeroBytes ZeroBytes AnyBytes false)
  | ENTRY_KIND_TRANSFER_IN => Some (Build_KindShape ZeroBytes ZeroBytes ZeroBytes AnyBytes false)
  | ENTRY_KIND_STARTER_GRANT => Some (Build_KindShape AnyBytes ZeroBytes ZeroBytes ZeroBytes false)
  | ENTRY_KIND_UNSPECIFIED | ENTRY_KIND_OTHER _ => None
  end.

Definition body_matches (b : EntryBody) : Prop :=
  ∃ sh, kind_shape (eb_Kind b) = Some sh ∧
    length (eb_PrevHash b) = 32%nat ∧
    slot_ok 32 (ks_consumer sh) (eb_ConsumerId b) ∧
    slot_ok 32 (ks_seeder sh) (eb_SeederId b) ∧
    slot_ok 16 (ks_request sh) (eb_RequestId b) ∧
    slot_ok 32 (ks_ref sh) (eb_Ref b) ∧
    (if ks_usage sh then
       eb_Model b ≠ "" ∧ strlen (eb_Model b) <= 32 ∧ (eb_Flags b = 0 ∨ eb_Flags b = 1)
     else
       eb_Model b = "" ∧ eb_InputTokens b = 0 ∧ eb_OutputTokens b = 0 ∧ eb_Flags b = 0).

(** ** Lemmas *)

Lemma unknown_flags_spec f : is_u32 f → unknown_flags f = 0 ↔ f = 0 ∨ f = 1.
Proof.
  intros Hf. unfold unknown_flags, entryFlagsMask. split.
  - intros H. assert (f / 2 = 0) as Hd.
    { apply Z.bits_inj'. intros n Hn. rewrite Z.bits_0, Z.div2_bits by done.
      assert (Z.testbit (Z.land f (2 ^ 32 - 1 - 1)) (Z.succ n) = false) as Hb
        by (rewrite H; apply Z.bits_0).
      rewrite Z.land_spec in Hb.
      destruct (Z_lt_le_dec (Z.succ n) 32) as [Hlt|Hge].
      - replace (2 ^ 32 - 1 - 1) with (2 * Z.ones 31) in Hb by reflexivity.
        rewrite Z.double_bits_succ, Z.ones_spec_low, andb_true_r in Hb by lia. done.
      - destruct (Z.eq_dec f 0) as [->|]; [by rewrite Z.bits_0|].
        apply Z.bits_above_log2; [unfold is_u32 in Hf; lia|].
        apply Z.log2_lt_pow2; [unfold is_u32 in Hf; lia|].
        unfold is_u32 in Hf. assert (2 ^ 32 <= 2 ^ Z.succ n) by (apply Z.pow_le_mono_r; lia).
        lia. }
    unfold is_u32 in Hf. pose proof (Z.div_mod f 2 ltac:(lia)).
    pose proof (Z.mod_pos_bound f 2 ltac:(lia)). lia.
  - intros [-> | ->]; reflexivity.
Qed.

Lemma slot_any n b z : z = Z.of_nat n → negb (blen b =? z) = false ↔ slot_ok n AnyBytes b.
Proof. intros ->. rewrite negb_false_iff, Z.eqb_eq. unfold blen, slot_ok. lia. Qed.

Lemma slot_zero n b z : z = Z.of_nat n →
  negb (blen b =? z) || negb (allZero b) = false ↔ slot_ok n ZeroBytes b.
Proof.
  intros ->. rewrite orb_false_iff, !negb_false_iff, Z.eqb_eq, allZero_spec.
  unfold blen, slot_ok. split.
  - intros [Hl Hz]. rewrite Hz. f_equal. lia.
  - intros ->. unfold zero_bytes. rewrite length_replicate. done.
Qed.

(** A sequence of early returns is [nil] exactly when every guard is false. *)
Lemma return_if_None (c : bool) (e : string) (k : error) :
  (if c then Some e else k) = None ↔ c = false ∧ k = None.
Proof. destruct c; naive_solver. Qed.

Lemma zero_or (a b : Z) : negb (a =? 0) || negb (b =? 0) = false ↔ a = 0 ∧ b = 0.
Proof. rewrite orb_false_iff, !negb_false_iff, !Z.eqb_eq. done. Qed.

Lemma not_allZero_ref b : length b = 32%nat →
  negb (allZero b) = false ↔ b = zero_bytes 32.
Proof. intros Hl. rewrite negb_false_iff, allZero_spec, Hl. done. Qed.

Lemma ltb_strlen n s : (n <? strlen s) = false ↔ strlen s <= n.
Proof. apply Z.ltb_ge. Qed.

Lemma neqb_zero a : negb (a =? 0) = false ↔ a = 0.
Proof. rewrite negb_false_iff. apply Z.eqb_eq. Qed.

Lemma bd_false `{Decision P} : bool_decide P = false ↔ ¬ P.
Proof. apply bool_decide_eq_false. Qed.

Lemma nbd_false `{Decision P} : negb (bool_decide P) = false ↔ P.
Proof. rewrite negb_false_iff. apply bool_decide_eq_true. Qed.

Lemma ValidateEntryBody_spec b :
  is_u32 (eb_Flags b) → ValidateEntryBody (Some b) = None ↔ body_matches b.
Proof.
  intros Hf. unfold ValidateEntryBody, body_matches.
  rewrite !return_if_None, (slot_any 32), (slot_any 32), neqb_zero, unknown_flags_spec by done.
  destruct (eb_Kind b); simpl; rewrite ?return_if_None, ?(slot_any 32), ?(slot_any 16),
    ?(slot_zero 32), ?(slot_zero 16), ?bd_false, ?nbd_false, ?zero_or, ?neqb_zero,
    ?ltb_strlen by done; simpl.
  all: try (split; [naive_solver | intros (? & ? & _); done]).
  - split; [naive_solver|]. intros (sh & [= <-] & ?); simpl in *; naive_solver.
  - split; [naive_solver|]. intros (sh & [= <-] & ?); simpl in *; naive_solver.
  - split; [naive_solver|]. intros (sh & [= <-] & ?); simpl in *; naive_solver.
  - split.
    + intros (? & Hr & ?). rewrite (not_allZero_ref _ Hr) in *. naive_solver.
    + intros (sh & [= <-] & ? & ? & ? & ? & Hr & ?); simpl in *.
      assert (length (eb_Ref b) = 32%nat) as Hl by (rewrite Hr; reflexivity).
      rewrite (not_allZero_ref _ Hl). naive_solver.
Qed.

Lemma ValidateBootstrapPeers_None ps :
  ValidateBootstrapPeers ps = None ↔ ∀ p, p ∈ ps → ValidateBootstrapPeer p = None.
Proof.
  induction ps as [|p ps IH]; simpl.
  - split; [|done]. intros _ p Hp. by apply not_elem_of_nil in Hp.
  - destruct (ValidateBootstrapPeer p) eqn:Ep.
    + split; [done|]. intros H. specialize (H p (list_elem_of_here _ _)). congruence.
    + rewrite IH. split.
      * intros H q [->|Hq]%elem_of_cons; auto.
      * intros H q Hq. apply H. by right.
Qed.

(** What a receiver may rely on once [ValidateBootstrapPeerList] returned nil. *)
Record bootstrap_list_sound (l : BootstrapPeerList) : Prop := {
  bls_issuer : length (bl_IssuerId l) = 32%nat;
  bls_sig : length (bl_Sig l) = 64%nat;
  bls_signed : 0 < bl_SignedAt l;
  bls_lifetime : 0 < bl_ExpiresAt l - bl_SignedAt l <= 3600;
  bls_count : (length (bl_Peers l) <= 256)%nat;
  bls_peers : ∀ p, p ∈ bl_Peers l → ∃ q, p = Some q ∧
    length (bp_TrackerId q) = 32%nat ∧
    (0 < String.length (bp_Addr q) <= 256)%nat ∧
    (String.length (bp_RegionHint q) <= 64)%nat ∧
    ValidString (bp_Addr q) = true ∧ ValidString (bp_RegionHint q) = true ∧
    (∃ c, SFcompare f64_zero (bp_HealthScore q) = Some c ∧ c ≠ Gt) ∧
    (∃ c, SFcompare (bp_HealthScore q) f64_one = Some c ∧ c ≠ Gt)
}.

Lemma SFcompare_antisym x y c :
  SFcompare x y = Some c → SFcompare y x = Some (CompOpp c).
Proof.
  destruct x as [[]|[]| |[] m e], y as [[]|[]| |[] n f]; simpl;
    try (intros [= <-]; reflexivity); try discriminate.
  - intros [= <-]. rewrite (Z.compare_antisym e f). destruct (e ?= f); simpl;
      [|reflexivity..].
    pose proof (Pos.compare_cont_antisym m n Eq) as Ha. simpl in Ha.
    congruence.
  - intros [= <-]. rewrite (Z.compare_antisym e f). destruct (e ?= f); simpl;
      [|reflexivity..].
    pose proof (Pos.compare_cont_antisym m n Eq) as Ha. simpl in Ha.
    congruence.
Qed.

Lemma SFcompare_total x y :
  is_NaN x = false → is_NaN y = false → ∃ c, SFcompare x y = Some c.
Proof.
  destruct x as [[]|[]| |[] m e], y as [[]|[]| |[] n f]; simpl; try discriminate; eauto.
Qed.

(** A float that is neither NaN, nor below 0, nor above 1 compares within [0, 1]. *)
Lemma SFltb_false_le x y :
  is_NaN x = false → is_NaN y = false → SFltb y x = false →
  ∃ c, SFcompare x y = Some c ∧ c ≠ Gt.
Proof.
  intros Hx Hy Hlt. destruct (SFcompare_total x y Hx Hy) as [c Hc].
  exists c. split; [done|]. intros ->. apply SFcompare_antisym in Hc.
  unfold SFltb in Hlt. rewrite Hc in Hlt. discriminate.
Qed.

Lemma ValidateBootstrapPeer_ok q :
  ValidateBootstrapPeer (Some q) = None →
    length (bp_TrackerId q) = 32%nat ∧
    (0 < String.length (bp_Addr q) <= 256)%nat ∧
    (String.length (bp_RegionHint q) <= 64)%nat ∧
    ValidString (bp_Addr q) = true ∧ ValidString (bp_RegionHint q) = true ∧
    (∃ c, SFcompare f64_zero (bp_HealthScore q) = Some c ∧ c ≠ Gt) ∧
    (∃ c, SFcompare (bp_HealthScore q) f64_one = Some c ∧ c ≠ Gt).
Proof.
  unfold ValidateBootstrapPeer. rewrite !return_if_None.
  intros (H1 & H2 & H3 & H4 & H5 & H6 & H7 & _).
  apply orb_false_iff in H7 as [H7 Hhi]. apply orb_false_iff in H7 as [Hn Hlo].
  bool_to_prop.
  unfold MaxBootstrapPeerAddrLen, MaxBootstrapPeerRegionHintLen, strlen, blen in *.
  split_and!; try lia; try done.
  - by apply SFltb_false_le.
  - by apply SFltb_false_le.
Qed.

Lemma ValidateBootstrapPeerList_ok l :
  is_u64 (bl_SignedAt l) → is_u64 (bl_ExpiresAt l) →
  ValidateBootstrapPeerList (Some l) = None → bootstrap_list_sound l.
Proof.
  unfold is_u64, ValidateBootstrapPeerList. rewrite !return_if_None.
  intros Hs He (H1 & H2 & H3 & H4 & H5 & H6 & H7). bool_to_prop.
  unfold MaxBootstrapPeers, MaxBootstrapPeerListLifetimeS, blen in *.
  rewrite u64_id in H5 by (unfold is_u64; lia).
  constructor; try lia.
  intros p Hp. apply (proj1 (ValidateBootstrapPeers_None _) H7) in Hp.
  destruct p as [q|]; [|discriminate]. exists q. split; [done|].
  by apply ValidateBootstrapPeer_ok.
Qed.

(** Entry bodies. [ValidateEntryBody] returns nil on exactly the bodies of the
    ledger's per-kind field matrix ([kind_shape]): which identity, request and
    reference slots are free and which must be zero-filled, the model length bound,
    the token and flag slots. *)
Lemma ValidateEntryBody_matrix b :
  is_u32 (eb_Flags b) → ValidateEntryBody (Some b) = None ↔ body_matches b.
Proof. apply ValidateEntryBody_spec. Qed.

Definition witness_usage_body : EntryBody :=
  {| eb_PrevHash := zero_bytes 32; eb_Seq := 1; eb_Kind := ENTRY_KIND_USAGE;
     eb_ConsumerId := replicate 32 Byte.x11; eb_SeederId := replicate 32 Byte.x22;
     eb_Model := "claude-sonnet-4-6"; eb_InputTokens := 10; eb_OutputTokens := 20;
     eb_CostCredits := 330; eb_Timestamp := 1714000100;
     eb_RequestId := replicate 16 Byte.x33; eb_Flags := 1; eb_Ref := zero_bytes 32 |}.

Lemma ValidateEntryBody_matrix_witness :
  is_u32 (eb_Flags witness_usage_body) ∧ body_matches witness_usage_body ∧
  ¬ body_matches (Build_EntryBody (zero_bytes 32) 1 ENTRY_KIND_TRANSFER_IN
      (replicate 32 Byte.x11) (zero_bytes 32) "" 0 0 5 7 (zero_bytes 16) 0 (zero_bytes 32)).
Proof.
  assert (is_u32 1) as H1 by (unfold is_u32; lia).
  assert (is_u32 0) as H0 by (unfold is_u32; lia).
  split; [exact H1|]. split.
  - apply (ValidateEntryBody_matrix witness_usage_body H1). reflexivity.
  - intros H. apply ValidateEntryBody_matrix in H; [discriminate H | exact H0].
Defined.

(** Bootstrap lists. A peer list [ValidateBootstrapPeerList] accepts has a 32-byte
    issuer, a 64-byte signature, a lifetime of at most an hour (the [uint64]
    subtraction does not wrap), at most 256 peers, and every peer is non-nil with a
    32-byte id, a non-empty bounded UTF-8 address, a bounded region hint and a health
    score that is a number in [0, 1]. *)
Lemma ValidateBootstrapPeerList_sound l :
  is_u64 (bl_SignedAt l) → is_u64 (bl_ExpiresAt l) →
  ValidateBootstrapPeerList (Some l) = None → bootstrap_list_sound l.
Proof. apply ValidateBootstrapPeerList_ok. Qed.

Definition witness_peer_list : BootstrapPeerList :=
  {| bl_IssuerId := replicate 32 Byte.x01; bl_SignedAt := 1000; bl_ExpiresAt := 4600;
     bl_Peers := [Some {| bp_TrackerId := replicate 32 Byte.x02; bp_Addr := "tracker.example:443";
                          bp_LastSeen := 999; bp_RegionHint := "eu"; bp_HealthScore := f64_one |}];
     bl_Sig := replicate 64 Byte.x03 |}.

Lemma ValidateBootstrapPeerList_sound_witness :
  bootstrap_list_sound witness_peer_list ∧
  ValidateBootstrapPeerList (Some {| bl_IssuerId := replicate 32 Byte.x01; bl_SignedAt := 1000;
    bl_ExpiresAt := 999; bl_Peers := []; bl_Sig := replicate 64 Byte.x03 |}) ≠ None.
Proof.
  split; [|vm_compute; discriminate].
  apply ValidateBootstrapPeerList_sound; [unfold is_u64; simpl; lia..|].
  vm_compute. reflexivity.
Defined.
