(* ===== verification/Float.v ===== *)
(** float64 as the Go code uses it: the order of numbers that are not NaN, which sorting
    and heaps rely on, durations as floats, and the conversions between floats and
    integers. *)
From S2P Require Import Prelude Proto.
From Stdlib Require Import Floats.SpecFloat.

(** ** Durations and conversions *)

(** [Duration.Seconds] *)
Definition Seconds (d : Z) : spec_float :=
  f64_add (f64_of_int (Z.quot d Second)) (f64_div (f64_of_int (Z.rem d Second)) (f64_of_int Second)).

(** [Duration.Minutes] *)
Definition Minutes (d : Z) : spec_float :=
  f64_add (f64_of_int (Z.quot d (60 * Second)))
          (f64_div (f64_of_int (Z.rem d (60 * Second))) (f64_of_int (60 * Second))).

(** The integer part and [math.Floor], of a finite number. *)
Definition f64_trunc (f : spec_float) : option Z :=
  match f with
  | S754_zero _ => Some 0
  | S754_finite s m e =>
      let a := if 0 <=? e then Zpos m * 2 ^ e else Zpos m / 2 ^ (- e) in
      Some (if s then - a else a)
  | _ => None
  end.

Definition f64_floor (f : spec_float) : option Z :=
  match f with
  | S754_zero _ => Some 0
  | S754_finite s m e =>
      let a := if s then - Zpos m else Zpos m in
      Some (if 0 <=? e then a * 2 ^ e else a / 2 ^ (- e))
  | _ => None
  end.

(** [math.Round]: half away from zero. *)
Definition f64_round (f : spec_float) : option Z :=
  match f with
  | S754_zero _ => Some 0
  | S754_finite s m e =>
      let a := if 0 <=? e then Zpos m * 2 ^ e else (Zpos m + 2 ^ (- e - 1)) / 2 ^ (- e) in
      Some (if s then - a else a)
  | _ => None
  end.

Definition f64_neg (f : spec_float) : spec_float := SFopp f.

(** [math.Min] of numbers that are not NaN. *)
Definition f64_min (x y : spec_float) : spec_float :=
  if is_NaN x || is_NaN y then S754_nan else if SFltb y x then y else x.

(** ** The order of numbers *)

(** The comparison of two numbers that are not NaN is that of these keys. *)
Definition f64_key (x : spec_float) : Z * Z * Z :=
  match x with
  | S754_zero _ | S754_nan => (0, 0, 0)
  | S754_infinity s => (if s then -2 else 2, 0, 0)
  | S754_finite true m e => (-1, - e, - Zpos m)
  | S754_finite false m e => (1, e, Zpos m)
  end.

Definition key_lt (a b : Z * Z * Z) : Prop :=
  let '(a1, a2, a3) := a in let '(b1, b2, b3) := b in
  a1 < b1 ∨ a1 = b1 ∧ (a2 < b2 ∨ a2 = b2 ∧ a3 < b3).

Lemma SFcompare_key x y :
  is_NaN x = false → is_NaN y = false →
  match SFcompare x y with
  | Some Lt => key_lt (f64_key x) (f64_key y)
  | Some Gt => key_lt (f64_key y) (f64_key x)
  | Some Eq => f64_key x = f64_key y
  | None => False
  end.
Proof.
  intros Hx Hy. destruct x as [s|s| |s m e]; try done; destruct y as [t|t| |t n f]; try done;
    destruct s, t; simpl; try lia; try done.
  - destruct (Z.compare_spec e f) as [->|?|?]; try lia.
    change (Pos.compare_cont Eq m n) with (Pos.compare m n).
    destruct (Pos.compare_spec m n) as [->|?|?]; simpl; try done; lia.
  - destruct (Z.compare_spec e f) as [->|?|?]; try lia.
    change (Pos.compare_cont Eq m n) with (Pos.compare m n).
    destruct (Pos.compare_spec m n) as [->|?|?]; simpl; try done; lia.
Qed.

Lemma key_lt_irrefl a : ¬ key_lt a a.
Proof. destruct a as [[??]?]. simpl. lia. Qed.

Lemma SFltb_key x y :
  is_NaN x = false → is_NaN y = false →
  SFltb x y = true ↔ key_lt (f64_key x) (f64_key y).
Proof.
  intros Hx Hy. pose proof (SFcompare_key x y Hx Hy) as Hc. unfold SFltb.
  destruct (SFcompare x y) as [[]|]; try done.
  - rewrite Hc. split; [done|]. intros Hl. by apply key_lt_irrefl in Hl.
  - split; [done|]. intros Hl. destruct (f64_key x) as [[??]?], (f64_key y) as [[??]?]. simpl in *. lia.
Qed.

Lemma SFeqb_key x y :
  is_NaN x = false → is_NaN y = false →
  SFeqb x y = true ↔ f64_key x = f64_key y.
Proof.
  intros Hx Hy. pose proof (SFcompare_key x y Hx Hy) as Hc. unfold SFeqb.
  destruct (SFcompare x y) as [[]|]; try done; (split; [done|]); intros He; rewrite He in Hc;
    by apply key_lt_irrefl in Hc.
Qed.

Lemma key_lt_ntrans a b c : ¬ key_lt a b → ¬ key_lt b c → ¬ key_lt a c.
Proof. destruct a as [[??]?], b as [[??]?], c as [[??]?]. simpl. lia. Qed.

Lemma key_lt_total a b : ¬ key_lt a b → ¬ key_lt b a → a = b.
Proof. destruct a as [[??]?], b as [[??]?]. simpl. intros. f_equal; [f_equal|]; lia. Qed.

Lemma key_lt_trans a b c : key_lt a b → key_lt b c → key_lt a c.
Proof. destruct a as [[??]?], b as [[??]?], c as [[??]?]. simpl. lia. Qed.

Lemma SFltb_asym x y : is_NaN x = false → is_NaN y = false → SFltb x y = true → SFltb y x = false.
Proof.
  intros Hx Hy Hlt. apply not_true_iff_false. rewrite SFltb_key in Hlt |- * by done.
  intros Hgt. eapply key_lt_irrefl, key_lt_trans; eauto.
Qed.

Lemma SFltb_ntrans x y z :
  is_NaN x = false → is_NaN y = false → is_NaN z = false →
  SFltb x y = false → SFltb y z = false → SFltb x z = false.
Proof.
  intros Hx Hy Hz. rewrite <- !not_true_iff_false, !SFltb_key by done. apply key_lt_ntrans.
Qed.

Lemma SFltb_irrefl x : SFltb x x = false.
Proof.
  destruct (is_NaN x) eqn:Hx; [by destruct x|]. apply not_true_iff_false.
  rewrite SFltb_key by done. apply key_lt_irrefl.
Qed.

Lemma SFltb_below x y z :
  is_NaN x = false → is_NaN y = false → is_NaN z = false → SFltb x y = false → SFltb x z = true → SFltb y z = true.
Proof.
  intros Hx Hy Hz. rewrite <- not_true_iff_false, !SFltb_key by done.
  destruct (f64_key x) as [[??]?], (f64_key y) as [[??]?], (f64_key z) as [[??]?]. simpl. lia.
Qed.
