(* ===== verification/Signing.v ===== *)
(** The cryptographic interface the tracker is written against, the canonical
    preimages of shared/signing and shared/federation, and the sign/verify helpers.

    SHA-256, Ed25519 and the protobuf encoder are not defined here: they are the
    operations of the classes [Crypto] and [Wire], and [CryptoLaws]/[WireLaws] state
    the documented behaviour the tracker relies on (digest and signature lengths, a
    signature made with a key verifies under its public half, decoding inverts
    encoding). [ToyCrypto]/[ToyWire] are computable instances that satisfy the laws;
    the witnesses of the development are evaluated with them. *)
From S2P Require Import Prelude Proto.

(** ** Interfaces *)

Class Crypto := {
  sha256 : bytes → bytes;
  ed25519_Sign : bytes → bytes → bytes;
  ed25519_Verify : bytes → bytes → bytes → bool;
  ed25519_Public : bytes → bytes
}.

Definition PublicKeySize : Z := 32.
Definition PrivateKeySize : Z := 64.
Definition SignatureSize : Z := 64.

Class CryptoLaws `{Crypto} : Prop := {
  sha256_length m : length (sha256 m) = 32%nat;
  Sign_length k m : length k = 64%nat → length (ed25519_Sign k m) = 64%nat;
  Public_length k : length k = 64%nat → length (ed25519_Public k) = 32%nat;
  Verify_Sign k m : length k = 64%nat →
    ed25519_Verify (ed25519_Public k) m (ed25519_Sign k m) = true
}.

(** shared/federation's [TransferProofRequest]. *)
Record TransferProofRequest := {
  tpr_SourceTrackerId : bytes;
  tpr_DestTrackerId : bytes;
  tpr_IdentityId : bytes;
  tpr_Amount : Z;
  tpr_Nonce : bytes;
  tpr_ConsumerSig : bytes;
  tpr_ConsumerPub : bytes;
  tpr_Timestamp : Z
}.

(** [DeterministicMarshal] per message type ([None] is an encoding error, such as a
    string that is not UTF-8), and the decoder of entry bodies. *)
Class Wire := {
  marshal_EntryBody : EntryBody → option bytes;
  unmarshal_EntryBody : bytes → option EntryBody;
  marshal_BalanceSnapshotBody : BalanceSnapshotBody → option bytes;
  marshal_TransferProofRequest : TransferProofRequest → option bytes;
  marshal_EnvelopeBody : EnvelopeBody → option bytes
}.

Class WireLaws `{Wire} : Prop := {
  unmarshal_marshal_EntryBody b x :
    marshal_EntryBody b = Some x → unmarshal_EntryBody x = Some b
}.

(** ** Sign and verify helpers of shared/signing *)

Section signing.
Context `{Crypto} `{Wire}.

Definition Verify (pub msg sig : bytes) : bool :=
  if negb (blen pub =? PublicKeySize) || negb (blen sig =? SignatureSize) then false
  else ed25519_Verify pub msg sig.

Definition SignEnvelope (priv : bytes) (body : option EnvelopeBody) : res string bytes :=
  if negb (blen priv =? PrivateKeySize) then Err "signing: private key length" else
  match body with
  | None => Err "signing: SignEnvelope on nil body"
  | Some b =>
    match marshal_EnvelopeBody b with
    | None => Err "signing: marshal envelope body"
    | Some buf => Ok (ed25519_Sign priv buf)
    end
  end.

Definition VerifyEnvelope (pub : bytes) (signed : option EnvelopeSigned) : bool :=
  match signed with
  | None => false
  | Some s =>
    match es_Body s with
    | None => false
    | Some b =>
      match marshal_EnvelopeBody b with
      | None => false
      | Some buf => Verify pub buf (es_ConsumerSig s)
      end
    end
  end.

Definition SignEntry (priv : bytes) (body : option EntryBody) : res string bytes :=
  if negb (blen priv =? PrivateKeySize) then Err "signing: private key length" else
  match body with
  | None => Err "signing: SignEntry on nil body"
  | Some b =>
    match marshal_EntryBody b with
    | None => Err "signing: marshal entry body"
    | Some buf => Ok (ed25519_Sign priv buf)
    end
  end.

Definition VerifyEntry (pub : bytes) (body : option EntryBody) (sig : bytes) : bool :=
  match body with
  | None => false
  | Some b =>
    match marshal_EntryBody b with
    | None => false
    | Some buf => Verify pub buf sig
    end
  end.

Definition SignBalanceSnapshot (priv : bytes) (body : option BalanceSnapshotBody) : res string bytes :=
  if negb (blen priv =? PrivateKeySize) then Err "signing: private key length" else
  match body with
  | None => Err "signing: SignBalanceSnapshot on nil body"
  | Some b =>
    match marshal_BalanceSnapshotBody b with
    | None => Err "signing: marshal balance snapshot body"
    | Some buf => Ok (ed25519_Sign priv buf)
    end
  end.

Definition VerifyBalanceSnapshot (pub : bytes) (signed : option SignedBalanceSnapshot) : bool :=
  match signed with
  | None => false
  | Some s =>
    match sbs_Body s with
    | None => false
    | Some b =>
      match marshal_BalanceSnapshotBody b with
      | None => false
      | Some buf => Verify pub buf (sbs_TrackerSig s)
      end
    end
  end.
End signing.

(** ** The usage assertion *)

Record UsageAssertion := {
  ua_RequestID : bytes;
  ua_ConsumerID : bytes;
  ua_SeederID : bytes;
  ua_Model : string;
  ua_InputTokens : Z;
  ua_OutputTokens : Z;
  ua_CostCredits : Z
}.

Definition usageAssertionDomain : bytes := string_bytes "token-bay/usage-assertion:v1".

#[global] Arguments usageAssertionDomain : simpl never.

Definition CanonicalUsageAssertionPreSig (a : UsageAssertion) : res string bytes :=
  if negb (blen (ua_RequestID a) =? 16) then
    Err "signing: usage assertion request_id must be 16 bytes"
  else if negb (blen (ua_ConsumerID a) =? 32) || negb (blen (ua_SeederID a) =? 32) then
    Err "signing: usage assertion consumer_id/seeder_id must be 32 bytes"
  else if bool_decide (ua_Model a = "") then
    Err "signing: usage assertion model empty"
  else
    let z := [Byte.x00] in
    Ok (usageAssertionDomain ++ z ++ ua_RequestID a ++ z ++ ua_ConsumerID a ++ z ++
        ua_SeederID a ++ z ++ string_bytes (ua_Model a) ++ z ++
        PutUint64 (ua_InputTokens a) ++ PutUint64 (ua_OutputTokens a) ++
        PutUint64 (ua_CostCredits a)).

Definition ua_wf (a : UsageAssertion) : Prop :=
  is_u32 (ua_InputTokens a) ∧ is_u32 (ua_OutputTokens a) ∧ is_u64 (ua_CostCredits a).

Section usage_assertion.
Context `{Crypto}.

Definition SignUsageAssertion (priv : bytes) (a : UsageAssertion) : res string bytes :=
  if negb (blen priv =? PrivateKeySize) then Err "signing: bad private key size" else
  match CanonicalUsageAssertionPreSig a with
  | Err e => Err e
  | Ok msg => Ok (ed25519_Sign priv msg)
  end.

Definition VerifyUsageAssertion (pub : bytes) (a : UsageAssertion) (sig : bytes) : bool :=
  if negb (blen pub =? PublicKeySize) || negb (blen sig =? SignatureSize) then false
  else match CanonicalUsageAssertionPreSig a with
       | Err _ => false
       | Ok msg => ed25519_Verify pub msg sig
       end.
End usage_assertion.

(** ** Transfer intents and identities *)

Definition clear_ConsumerSig (m : TransferProofRequest) : TransferProofRequest :=
  {| tpr_SourceTrackerId := tpr_SourceTrackerId m; tpr_DestTrackerId := tpr_DestTrackerId m;
     tpr_IdentityId := tpr_IdentityId m; tpr_Amount := tpr_Amount m; tpr_Nonce := tpr_Nonce m;
     tpr_ConsumerSig := []; tpr_ConsumerPub := tpr_ConsumerPub m;
     tpr_Timestamp := tpr_Timestamp m |}.

Definition CanonicalTransferProofRequestPreSig `{Wire}
    (m : option TransferProofRequest) : res string bytes :=
  match m with
  | None => Err "federation: nil TransferProofRequest"
  | Some m =>
    match marshal_TransferProofRequest (clear_ConsumerSig m) with
    | None => Err "federation: marshal"
    | Some buf => Ok buf
    end
  end.

(** [x509.MarshalPKIXPublicKey] of an Ed25519 key: the fixed DER prefix of RFC 8410
    followed by the 32 key bytes. *)
Definition MarshalPKIXPublicKey (pub : bytes) : bytes :=
  [Byte.x30; Byte.x2a; Byte.x30; Byte.x05; Byte.x06; Byte.x03; Byte.x2b; Byte.x65;
   Byte.x70; Byte.x03; Byte.x21; Byte.x00] ++ pub.

(** ** Computable instances for the witnesses *)

(** A 64-bit rolling checksum, repeated to the length of a SHA-256 digest. *)
Definition toy_sum (m : bytes) : Z :=
  foldl (λ acc x, Z.land (5 * acc + Z_of_byte x + 1) 18446744073709551615) 7 m.

Definition toy_hash (m : bytes) : bytes :=
  let h := PutUint64 (toy_sum m) in h ++ h ++ h ++ h.

#[global] Arguments toy_hash : simpl never.

Lemma length_toy_hash m : length (toy_hash m) = 32%nat.
Proof. unfold toy_hash. by rewrite !length_app, length_PutUint64. Qed.

Definition ToyCrypto : Crypto := {|
  sha256 := toy_hash;
  ed25519_Public k := take 32 k;
  ed25519_Sign k m := toy_hash (take 32 k ++ m) ++ zero_bytes 32;
  ed25519_Verify p m s := bool_decide (s = toy_hash (p ++ m) ++ zero_bytes 32)
|}.

Lemma ToyCryptoLaws : @CryptoLaws ToyCrypto.
Proof.
  constructor.
  - intros m. exact (length_toy_hash m).
  - intros k m _. unfold ed25519_Sign, ToyCrypto.
    rewrite length_app, length_toy_hash. reflexivity.
  - intros k Hk. unfold ed25519_Public, ToyCrypto. rewrite length_take, Hk. reflexivity.
  - intros k m _. unfold ed25519_Verify, ed25519_Public, ed25519_Sign, ToyCrypto.
    by apply bool_decide_eq_true_2.
Qed.

Definition kind_to_Z (k : EntryKind) : list Z :=
  match k with
  | ENTRY_KIND_UNSPECIFIED => [0] | ENTRY_KIND_USAGE => [1]
  | ENTRY_KIND_TRANSFER_OUT => [2] | ENTRY_KIND_TRANSFER_IN => [3]
  | ENTRY_KIND_STARTER_GRANT => [4] | ENTRY_KIND_OTHER v => [5; v]
  end.

Definition kind_of_Z (z : list Z) : EntryKind :=
  match z with
  | [1] => ENTRY_KIND_USAGE | [2] => ENTRY_KIND_TRANSFER_OUT
  | [3] => ENTRY_KIND_TRANSFER_IN | [4] => ENTRY_KIND_STARTER_GRANT
  | [5; v] => ENTRY_KIND_OTHER v | _ => ENTRY_KIND_UNSPECIFIED
  end.

Definition bytes_to_Z (b : bytes) : list Z := Z_of_byte <$> b.
Definition bytes_of_Z (l : list Z) : bytes := byte_of_Z <$> l.

(** An entry body as a list of rows of integers, and back. *)
Definition body_rows (b : EntryBody) : list (list Z) :=
  [bytes_to_Z (eb_PrevHash b); kind_to_Z (eb_Kind b); bytes_to_Z (eb_ConsumerId b);
   bytes_to_Z (eb_SeederId b); bytes_to_Z (string_bytes (eb_Model b));
   [eb_Seq b; eb_InputTokens b; eb_OutputTokens b; eb_CostCredits b; eb_Timestamp b;
    eb_Flags b]; bytes_to_Z (eb_RequestId b); bytes_to_Z (eb_Ref b)].

Definition rows_body (r : list (list Z)) : option EntryBody :=
  match r with
  | [p; k; c; s; m; [q; i; o; cc; t; f]; rq; rf] =>
      Some (Build_EntryBody (bytes_of_Z p) q (kind_of_Z k) (bytes_of_Z c) (bytes_of_Z s)
              (String.string_of_list_byte (bytes_of_Z m)) i o cc t (bytes_of_Z rq) f
              (bytes_of_Z rf))
  | _ => None
  end.

Lemma bytes_of_to_Z b : bytes_of_Z (bytes_to_Z b) = b.
Proof.
  unfold bytes_of_Z, bytes_to_Z. rewrite <- list_fmap_compose.
  rewrite (list_fmap_ext _ id); [apply list_fmap_id|].
  intros _ x _. unfold compose, byte_of_Z, Z_of_byte. simpl.
  pose proof (Byte.to_N_bounded x). rewrite Z.mod_small, N2Z.id by lia.
  by rewrite Byte.of_to_N.
Qed.

Lemma rows_body_rows b : rows_body (body_rows b) = Some b.
Proof.
  unfold rows_body, body_rows. rewrite !bytes_of_to_Z.
  unfold string_bytes. rewrite String.string_of_list_byte_of_string.
  by destruct b as [? ? []].
Qed.

Fixpoint pos_bytes (p : positive) : bytes :=
  match p with
  | xH => []
  | xO p => Byte.x00 :: pos_bytes p
  | xI p => Byte.x01 :: pos_bytes p
  end.

Fixpoint bytes_pos (b : bytes) : positive :=
  match b with
  | [] => xH
  | x :: b => if bool_decide (x = Byte.x00) then xO (bytes_pos b) else xI (bytes_pos b)
  end.

Definition ToyWire : Wire := {|
  marshal_EntryBody b := Some (pos_bytes (encode (body_rows b)));
  unmarshal_EntryBody x := decode (bytes_pos x) ≫= rows_body;
  marshal_BalanceSnapshotBody b :=
    Some (bs_IdentityId b ++ be_bytes 8 (bs_Credits b) ++ bs_ChainTipHash b ++
          be_bytes 8 (bs_ChainTipSeq b) ++ be_bytes 8 (bs_IssuedAt b) ++
          be_bytes 8 (bs_ExpiresAt b));
  marshal_TransferProofRequest m :=
    Some (tpr_SourceTrackerId m ++ tpr_DestTrackerId m ++ tpr_IdentityId m ++
          be_bytes 8 (tpr_Amount m) ++ tpr_Nonce m ++ tpr_ConsumerSig m ++
          tpr_ConsumerPub m ++ be_bytes 8 (tpr_Timestamp m));
  marshal_EnvelopeBody e := Some (env_ConsumerId e ++ env_Nonce e ++ env_BodyHash e)
|}.

Lemma bytes_pos_bytes p : bytes_pos (pos_bytes p) = p.
Proof. induction p; simpl; congruence. Qed.

Lemma ToyWireLaws : @WireLaws ToyWire.
Proof.
  split. simpl. intros b x [= <-]. rewrite bytes_pos_bytes, decode_encode. apply rows_body_rows.
Qed.

(** ** Lemmas *)

Section lemmas.
Context `{CryptoLaws} `{Wire}.

Lemma Verify_length pub msg sig :
  Verify pub msg sig = true → length pub = 32%nat ∧ length sig = 64%nat.
Proof.
  unfold Verify, PublicKeySize, SignatureSize, blen.
  intros Hv. case_match eqn:E; [discriminate|]. bool_to_prop. lia.
Qed.

Lemma SignEntry_ok priv b sig :
  SignEntry priv (Some b) = Ok sig → length sig = 64%nat.
Proof.
  unfold SignEntry, PrivateKeySize, blen. intros Hs. go_inv Hs. bool_to_prop.
  apply Sign_length. lia.
Qed.

Lemma VerifyEntry_SignEntry priv b sig :
  SignEntry priv (Some b) = Ok sig →
  VerifyEntry (ed25519_Public priv) (Some b) sig = true.
Proof.
  intros Hs. pose proof (SignEntry_ok _ _ _ Hs) as Hl.
  unfold SignEntry, PrivateKeySize in Hs. unfold VerifyEntry.
  go_inv Hs. bool_to_prop.
  assert (length priv = 64%nat) as Hk by (unfold blen in *; lia).
  unfold Verify, PublicKeySize, SignatureSize, blen.
  rewrite Public_length, Hl by done. simpl. by apply Verify_Sign.
Qed.

Lemma VerifyBalanceSnapshot_signed priv b sig :
  SignBalanceSnapshot priv (Some b) = Ok sig →
  VerifyBalanceSnapshot (ed25519_Public priv) (Some {| sbs_Body := Some b; sbs_TrackerSig := sig |}) = true.
Proof.
  unfold SignBalanceSnapshot, VerifyBalanceSnapshot. cbn [sbs_Body sbs_TrackerSig].
  destruct (negb _) eqn:El; [done|]. destruct (marshal_BalanceSnapshotBody b) as [buf|]; [|done].
  intros [= <-]. unfold PrivateKeySize, blen in El. bool_to_prop.
  unfold Verify, PublicKeySize, SignatureSize, blen.
  rewrite Public_length, Sign_length by lia. apply Verify_Sign. lia.
Qed.

Lemma VerifyEnvelope_signed priv b sig :
  SignEnvelope priv (Some b) = Ok sig →
  VerifyEnvelope (ed25519_Public priv) (Some {| es_Body := Some b; es_ConsumerSig := sig |}) = true.
Proof.
  unfold SignEnvelope, VerifyEnvelope. cbn [es_Body es_ConsumerSig].
  destruct (negb _) eqn:El; [done|]. destruct (marshal_EnvelopeBody b) as [buf|]; [|done].
  intros [= <-]. unfold PrivateKeySize, blen in El. bool_to_prop.
  unfold Verify, PublicKeySize, SignatureSize, blen.
  rewrite Public_length, Sign_length by lia. apply Verify_Sign. lia.
Qed.
End lemmas.

Lemma CanonicalUsageAssertionPreSig_ok a x :
  CanonicalUsageAssertionPreSig a = Ok x →
  length (ua_RequestID a) = 16%nat ∧ length (ua_ConsumerID a) = 32%nat ∧
  length (ua_SeederID a) = 32%nat ∧ ua_Model a ≠ "" ∧
  x = usageAssertionDomain ++ [Byte.x00] ++ ua_RequestID a ++ [Byte.x00] ++
      ua_ConsumerID a ++ [Byte.x00] ++ ua_SeederID a ++ [Byte.x00] ++
      string_bytes (ua_Model a) ++ [Byte.x00] ++
      PutUint64 (ua_InputTokens a) ++ PutUint64 (ua_OutputTokens a) ++
      PutUint64 (ua_CostCredits a).
Proof.
  unfold CanonicalUsageAssertionPreSig, blen. intros Hx.
  destruct (negb (_ =? 16)) eqn:E1; [discriminate Hx|].
  destruct (_ || _) eqn:E2; [discriminate Hx|].
  destruct (bool_decide _) eqn:E3; [discriminate Hx|].
  bool_to_prop. assert (∀ A (y z : A), @Ok string A y = Ok z → z = y) as Hinj by congruence.
  apply Hinj in Hx. split_and!; [lia..|done|exact Hx].
Qed.

Lemma CanonicalUsageAssertionPreSig_inj a b x :
  ua_wf a → ua_wf b →
  CanonicalUsageAssertionPreSig a = Ok x → CanonicalUsageAssertionPreSig b = Ok x → a = b.
Proof.
  unfold ua_wf, is_u32, is_u64. intros Ha Hb Hxa Hxb.
  apply CanonicalUsageAssertionPreSig_ok in Hxa as (Ha1 & Ha2 & Ha3 & _ & ->).
  apply CanonicalUsageAssertionPreSig_ok in Hxb as (Hb1 & Hb2 & Hb3 & _ & Hx).
  destruct a as [ra ca sa ma ia oa ka], b as [rb cb sb mb ib ob kb].
  cbn [ua_RequestID ua_ConsumerID ua_SeederID ua_Model ua_InputTokens ua_OutputTokens
       ua_CostCredits] in *.
  do 2 (apply app_inj_len in Hx as [_ Hx]; [|done]).
  apply app_inj_len in Hx as [-> Hx]; [|congruence].
  apply app_inj_len in Hx as [_ Hx]; [|done].
  apply app_inj_len in Hx as [-> Hx]; [|congruence].
  apply app_inj_len in Hx as [_ Hx]; [|done].
  apply app_inj_len in Hx as [-> Hx]; [|congruence].
  apply app_inj_len in Hx as [_ Hx]; [|done].
  apply app_inj_2 in Hx as [Hm Hx]; [|by rewrite !length_app, !length_PutUint64].
  apply string_bytes_inj in Hm as ->.
  apply app_inj_len in Hx as [_ Hx]; [|done].
  apply app_inj_len in Hx as [Hi Hx]; [|by rewrite !length_PutUint64].
  apply app_inj_len in Hx as [Ho Hk]; [|by rewrite !length_PutUint64].
  apply PutUint64_inj in Hi, Ho, Hk; [|unfold is_u64; lia..]. by subst.
Qed.

Lemma usage_domain_prefix a x :
  CanonicalUsageAssertionPreSig a = Ok x → take 28 x = usageAssertionDomain.
Proof.
  intros (_ & _ & _ & _ & ->)%CanonicalUsageAssertionPreSig_ok.
  apply take_app_length'. reflexivity.
Qed.

Lemma VerifyUsageAssertion_length `{Crypto} pub a sig :
  VerifyUsageAssertion pub a sig = true →
  length pub = 32%nat ∧ length sig = 64%nat ∧ is_ok (CanonicalUsageAssertionPreSig a) = true.
Proof.
  unfold VerifyUsageAssertion, PublicKeySize, SignatureSize, blen. intros Hv.
  destruct (_ || _) eqn:E; [discriminate|]. bool_to_prop.
  destruct (CanonicalUsageAssertionPreSig a); [|discriminate]. repeat split; lia.
Qed.

(** Usage assertions. The preimage the seeder and the consumer both sign determines
    the settlement: two well-formed assertions with the same canonical bytes are equal,
    although the model name in the middle has no length prefix, and every preimage
    starts with the usage-assertion domain. *)
Lemma CanonicalUsageAssertion_injective a b x :
  ua_wf a → ua_wf b →
  CanonicalUsageAssertionPreSig a = Ok x → CanonicalUsageAssertionPreSig b = Ok x →
  a = b ∧ take 28 x = usageAssertionDomain.
Proof.
  intros Ha Hb Hxa Hxb. split.
  - eapply CanonicalUsageAssertionPreSig_inj; eauto.
  - eapply usage_domain_prefix; eauto.
Qed.

Definition witness_assertion : UsageAssertion :=
  {| ua_RequestID := replicate 16 Byte.x33; ua_ConsumerID := replicate 32 Byte.x11;
     ua_SeederID := replicate 32 Byte.x22; ua_Model := "claude-sonnet-4-6";
     ua_InputTokens := 10; ua_OutputTokens := 20; ua_CostCredits := 330 |}.

Lemma CanonicalUsageAssertion_injective_witness :
  ∃ x, CanonicalUsageAssertionPreSig witness_assertion = Ok x ∧
       length x = 154%nat ∧ take 28 x = usageAssertionDomain.
Proof.
  eexists. split; [reflexivity|]. split; [vm_compute; reflexivity|].
  eapply (CanonicalUsageAssertion_injective witness_assertion witness_assertion);
    [unfold ua_wf, is_u32, is_u64; simpl; lia..|reflexivity|reflexivity].
Defined.
