(* ===== verification/Entry.v ===== *)
(** tracker/internal/ledger/entry: entry kinds, the body hash, the four typed builders
    and the per-kind signature matrix. *)
From S2P Require Import Prelude Proto Signing.

(** ** Kinds *)

Inductive Kind := KindUsage | KindTransferOut | KindTransferIn | KindStarterGrant.

#[global] Instance Kind_eq_dec : EqDecision Kind.
Proof. solve_decision. Defined.

Definition Kind_String (k : Kind) : string :=
  match k with
  | KindUsage => "usage"
  | KindTransferOut => "transfer_out"
  | KindTransferIn => "transfer_in"
  | KindStarterGrant => "starter_grant"
  end.

Definition Kind_Proto (k : Kind) : EntryKind :=
  match k with
  | KindUsage => ENTRY_KIND_USAGE
  | KindTransferOut => ENTRY_KIND_TRANSFER_OUT
  | KindTransferIn => ENTRY_KIND_TRANSFER_IN
  | KindStarterGrant => ENTRY_KIND_STARTER_GRANT
  end.

Definition KindFromProto (p : EntryKind) : option Kind :=
  match p with
  | ENTRY_KIND_USAGE => Some KindUsage
  | ENTRY_KIND_TRANSFER_OUT => Some KindTransferOut
  | ENTRY_KIND_TRANSFER_IN => Some KindTransferIn
  | ENTRY_KIND_STARTER_GRANT => Some KindStarterGrant
  | ENTRY_KIND_UNSPECIFIED | ENTRY_KIND_OTHER _ => None
  end.

(** ** The body hash *)

Definition Hash `{Crypto} `{Wire} (body : option EntryBody) : res string bytes :=
  match body with
  | None => Err "entry: Hash on nil body"
  | Some b =>
    match marshal_EntryBody b with
    | None => Err "entry: marshal body"
    | Some buf => Ok (sha256 buf)
    end
  end.

(** ** Builders *)

Definition flagConsumerSigMissing : Z := Z.shiftl 1 0.

Record UsageInput := {
  ui_PrevHash : bytes; ui_Seq : Z; ui_ConsumerID : bytes; ui_SeederID : bytes;
  ui_Model : string; ui_InputTokens : Z; ui_OutputTokens : Z; ui_CostCredits : Z;
  ui_Timestamp : Z; ui_RequestID : bytes; ui_ConsumerSigMissing : bool
}.

(** [ValidateEntryBody] then [return body, nil]. *)
Definition validated (body : EntryBody) : res string EntryBody :=
  match ValidateEntryBody (Some body) with
  | Some e => Err e
  | None => Ok body
  end.

Definition BuildUsageEntry (i : UsageInput) : res string EntryBody :=
  if bool_decide (ui_Model i = "") then Err "entry: BuildUsageEntry: model is empty" else
  validated {|
    eb_PrevHash := ui_PrevHash i; eb_Seq := ui_Seq i; eb_Kind := ENTRY_KIND_USAGE;
    eb_ConsumerId := ui_ConsumerID i; eb_SeederId := ui_SeederID i;
    eb_Model := ui_Model i; eb_InputTokens := ui_InputTokens i;
    eb_OutputTokens := ui_OutputTokens i; eb_CostCredits := ui_CostCredits i;
    eb_Timestamp := ui_Timestamp i; eb_RequestId := ui_RequestID i;
    eb_Flags := if ui_ConsumerSigMissing i then Z.lor 0 flagConsumerSigMissing else 0;
    eb_Ref := zero_bytes 32 |}.

Record TransferOutInput := {
  toi_PrevHash : bytes; toi_Seq : Z; toi_ConsumerID : bytes; toi_Amount : Z;
  toi_Timestamp : Z; toi_TransferRef : bytes
}.

Definition BuildTransferOutEntry (i : TransferOutInput) : res string EntryBody :=
  validated {|
    eb_PrevHash := toi_PrevHash i; eb_Seq := toi_Seq i; eb_Kind := ENTRY_KIND_TRANSFER_OUT;
    eb_ConsumerId := toi_ConsumerID i; eb_SeederId := zero_bytes 32;
    eb_Model := ""; eb_InputTokens := 0; eb_OutputTokens := 0;
    eb_CostCredits := toi_Amount i; eb_Timestamp := toi_Timestamp i;
    eb_RequestId := zero_bytes 16; eb_Flags := 0; eb_Ref := toi_TransferRef i |}.

Record TransferInInput := {
  tii_PrevHash : bytes; tii_Seq : Z; tii_Amount : Z; tii_Timestamp : Z;
  tii_TransferRef : bytes
}.

Definition BuildTransferInEntry (i : TransferInInput) : res string EntryBody :=
  validated {|
    eb_PrevHash := tii_PrevHash i; eb_Seq := tii_Seq i; eb_Kind := ENTRY_KIND_TRANSFER_IN;
    eb_ConsumerId := zero_bytes 32; eb_SeederId := zero_bytes 32;
    eb_Model := ""; eb_InputTokens := 0; eb_OutputTokens := 0;
    eb_CostCredits := tii_Amount i; eb_Timestamp := tii_Timestamp i;
    eb_RequestId := zero_bytes 16; eb_Flags := 0; eb_Ref := tii_TransferRef i |}.

Record StarterGrantInput := {
  sgi_PrevHash : bytes; sgi_Seq : Z; sgi_ConsumerID : bytes; sgi_Amount : Z;
  sgi_Timestamp : Z
}.

Definition BuildStarterGrantEntry (i : StarterGrantInput) : res string EntryBody :=
  validated {|
    eb_PrevHash := sgi_PrevHash i; eb_Seq := sgi_Seq i; eb_Kind := ENTRY_KIND_STARTER_GRANT;
    eb_ConsumerId := sgi_ConsumerID i; eb_SeederId := zero_bytes 32;
    eb_Model := ""; eb_InputTokens := 0; eb_OutputTokens := 0;
    eb_CostCredits := sgi_Amount i; eb_Timestamp := sgi_Timestamp i;
    eb_RequestId := zero_bytes 16; eb_Flags := 0; eb_Ref := zero_bytes 32 |}.

(** ** Signatures *)

Record Pubkeys := { pk_Consumer : bytes; pk_Seeder : bytes; pk_Tracker : bytes }.

Definition VerifyAll `{Crypto} `{Wire} (e : option Entry) (keys : Pubkeys) : error :=
  match e with
  | None => Some "entry: VerifyAll on nil entry"
  | Some e =>
  match ent_Body e with
  | None => Some "entry: VerifyAll on nil entry"
  | Some body =>
    let cs := ent_ConsumerSig e in
    let ss := ent_SeederSig e in
    return_if blen (ent_TrackerSig e) =? 0, "entry: tracker_sig is required" ;;
    return_if negb (blen (pk_Tracker keys) =? PublicKeySize), "entry: tracker pubkey missing" ;;
    return_if negb (VerifyEntry (pk_Tracker keys) (Some body) (ent_TrackerSig e)),
      "entry: tracker_sig invalid" ;;
    let flagSigMissing := negb (Z.land (eb_Flags body) flagConsumerSigMissing =? 0) in
    match eb_Kind body with
    | ENTRY_KIND_USAGE =>
      return_if blen ss =? 0, "entry: usage seeder_sig is required" ;;
      return_if negb (blen (pk_Seeder keys) =? PublicKeySize), "entry: seeder pubkey missing" ;;
      return_if negb (VerifyEntry (pk_Seeder keys) (Some body) ss), "entry: seeder_sig invalid" ;;
      if flagSigMissing then
        return_if negb (blen cs =? 0),
          "entry: usage consumer_sig must be empty when consumer_sig_missing flag set" ;;
        None
      else
        return_if blen cs =? 0, "entry: usage consumer_sig required" ;;
        return_if negb (blen (pk_Consumer keys) =? PublicKeySize), "entry: consumer pubkey missing" ;;
        return_if negb (VerifyEntry (pk_Consumer keys) (Some body) cs), "entry: consumer_sig invalid" ;;
        None
    | ENTRY_KIND_TRANSFER_OUT =>
      return_if flagSigMissing, "entry: transfer_out cannot set consumer_sig_missing" ;;
      return_if blen cs =? 0, "entry: transfer_out consumer_sig required" ;;
      return_if negb (blen (pk_Consumer keys) =? PublicKeySize), "entry: consumer pubkey missing" ;;
      return_if negb (VerifyEntry (pk_Consumer keys) (Some body) cs), "entry: consumer_sig invalid" ;;
      return_if negb (blen ss =? 0), "entry: transfer_out seeder_sig must be empty" ;;
      None
    | ENTRY_KIND_TRANSFER_IN | ENTRY_KIND_STARTER_GRANT =>
      return_if negb (blen cs =? 0), "entry: consumer_sig must be empty for this kind" ;;
      return_if negb (blen ss =? 0), "entry: seeder_sig must be empty for this kind" ;;
      None
    | _ => Some "entry: unknown kind"
    end
  end end.

(** The signature matrix as a table: whose signatures a kind carries. *)
Inductive sig_slot := Required | Forbidden.

Definition sig_shape (body : EntryBody) : option (sig_slot * sig_slot) :=
  match eb_Kind body with
  | ENTRY_KIND_USAGE =>
      Some (if Z.testbit (eb_Flags body) 0 then Forbidden else Required, Required)
  | ENTRY_KIND_TRANSFER_OUT =>
      if Z.testbit (eb_Flags body) 0 then None else Some (Required, Forbidden)
  | ENTRY_KIND_TRANSFER_IN | ENTRY_KIND_STARTER_GRANT => Some (Forbidden, Forbidden)
  | ENTRY_KIND_UNSPECIFIED | ENTRY_KIND_OTHER _ => None
  end.

Definition sig_slot_ok `{Crypto} `{Wire} (s : sig_slot) (body : EntryBody) (pub sig : bytes) : Prop :=
  match s with
  | Required => VerifyEntry pub (Some body) sig = true
  | Forbidden => sig = []
  end.

(** ** Lemmas *)

Lemma validated_Ok b b' : validated b = Ok b' ↔ b' = b ∧ ValidateEntryBody (Some b) = None.
Proof. unfold validated. destruct (ValidateEntryBody (Some b)); naive_solver. Qed.

Lemma KindFromProto_Proto k : KindFromProto (Kind_Proto k) = Some k.
Proof. by destruct k. Qed.

Lemma flag_bit f : (Z.land f flagConsumerSigMissing =? 0) = negb (Z.testbit f 0).
Proof.
  unfold flagConsumerSigMissing. change (Z.shiftl 1 0) with (Z.ones 1).
  rewrite Z.land_ones, Z.pow_1_r, <- Z.bit0_mod by lia.
  by destruct (Z.testbit f 0).
Qed.

Lemma and3_iff (A B C V R S : Prop) :
  (A ∧ B ∧ C ↔ V) → (R ↔ S) → (A ∧ B ∧ C ∧ R ↔ V ∧ S).
Proof. tauto. Qed.

Lemma exists_row {A B} (P : A → B → Prop) a b :
  (∃ c s, Some (a, b) = Some (c, s) ∧ P c s) ↔ P a b.
Proof. split; [intros (? & ? & [= <- <-] & ?); done | eauto]. Qed.

Lemma exists_no_row {A B} (P : A → B → Prop) :
  (∃ c s, None = Some (c, s) ∧ P c s) ↔ False.
Proof. naive_solver. Qed.

Section lemmas.
Context `{CryptoLaws} `{Wire}.

Lemma blen_zero {A} (l : list A) : (blen l =? 0) = false ↔ l ≠ [].
Proof. unfold blen. rewrite Z.eqb_neq. destruct l; simpl; [naive_solver|]. split; [done|lia]. Qed.

Lemma nblen_zero {A} (l : list A) : negb (blen l =? 0) = false ↔ l = [].
Proof. unfold blen. rewrite negb_false_iff, Z.eqb_eq. destruct l; simpl; [naive_solver|]. split; [lia|done]. Qed.

Lemma VerifyEntry_true pub b sig :
  VerifyEntry pub (Some b) sig = true → blen pub = PublicKeySize ∧ sig ≠ [].
Proof.
  unfold VerifyEntry. intros Hv. destruct (marshal_EntryBody b); [|discriminate].
  apply Verify_length in Hv as [Hp Hs]. unfold blen, PublicKeySize. split; [lia|].
  intros ->. discriminate.
Qed.

(** The three checks made for a required signature come to its verification. *)
Lemma required_checks pub b sig :
  (blen sig =? 0) = false ∧ negb (blen pub =? PublicKeySize) = false ∧
  negb (VerifyEntry pub (Some b) sig) = false ↔ VerifyEntry pub (Some b) sig = true.
Proof.
  rewrite blen_zero, !negb_false_iff, Z.eqb_eq. split; [naive_solver|].
  intros Hv. pose proof (VerifyEntry_true _ _ _ Hv). naive_solver.
Qed.

Lemma VerifyAll_spec b cs ss ts keys :
  VerifyAll (Some (Build_Entry (Some b) cs ss ts)) keys = None ↔
  VerifyEntry (pk_Tracker keys) (Some b) ts = true ∧
  ∃ c s, sig_shape b = Some (c, s) ∧
    sig_slot_ok c b (pk_Consumer keys) cs ∧ sig_slot_ok s b (pk_Seeder keys) ss.
Proof.
  unfold VerifyAll, sig_shape.
  cbn [ent_Body ent_ConsumerSig ent_SeederSig ent_TrackerSig].
  rewrite !return_if_None, flag_bit, negb_involutive.
  pose proof (required_checks (pk_Tracker keys) b ts) as Ht.
  pose proof (required_checks (pk_Consumer keys) b cs) as Hc.
  pose proof (required_checks (pk_Seeder keys) b ss) as Hs.
  apply and3_iff; [exact Ht|]. clear Ht.
  destruct (eb_Kind b), (Z.testbit (eb_Flags b) 0);
    rewrite ?exists_row, ?exists_no_row, ?return_if_None, ?nblen_zero;
    cbn [sig_slot_ok]; try tauto; split; try tauto; try discriminate.
Qed.
End lemmas.

(** Signature matrix. [VerifyAll] accepts an entry exactly when the tracker's
    signature over the body verifies and the participant signatures follow the kind's
    row of the matrix: present and valid where required, absent where the kind (or the
    consumer_sig_missing flag) forbids them. *)
Lemma VerifyAll_matrix `{CryptoLaws} `{Wire} b cs ss ts keys :
  VerifyAll (Some (Build_Entry (Some b) cs ss ts)) keys = None ↔
  VerifyEntry (pk_Tracker keys) (Some b) ts = true ∧
  ∃ c s, sig_shape b = Some (c, s) ∧
    sig_slot_ok c b (pk_Consumer keys) cs ∧ sig_slot_ok s b (pk_Seeder keys) ss.
Proof. apply VerifyAll_spec. Qed.

Definition witness_key (x : byte) : bytes := replicate 64 x.

Definition witness_sig (k : bytes) (b : EntryBody) : bytes :=
  match @SignEntry ToyCrypto ToyWire k (Some b) with Ok s => s | Err _ => [] end.

Lemma VerifyAll_matrix_witness :
  ∃ c s, sig_shape witness_usage_body = Some (c, s) ∧
    @sig_slot_ok ToyCrypto ToyWire c witness_usage_body [] [] ∧
    @sig_slot_ok ToyCrypto ToyWire s witness_usage_body (replicate 32 Byte.x22)
      (witness_sig (witness_key Byte.x22) witness_usage_body).
Proof.
  apply (proj1 (@VerifyAll_matrix ToyCrypto ToyCryptoLaws ToyWire witness_usage_body []
    (witness_sig (witness_key Byte.x22) witness_usage_body)
    (witness_sig (witness_key Byte.x07) witness_usage_body)
    {| pk_Consumer := []; pk_Seeder := replicate 32 Byte.x22;
       pk_Tracker := replicate 32 Byte.x07 |})).
  vm_compute. reflexivity.
Defined.
