(* ===== verification/Storage.v ===== *)
(** tracker/internal/ledger/storage: the SQLite tables of the tracker and the typed
    operations over them.

    The tables of schema_v1.sql are the fields of [Store]. [entries] is kept in the
    order of its INTEGER PRIMARY KEY, so [ORDER BY seq] reads the list as it is. The
    database is outside the repository: every statement takes an oracle
    [io : DbOp → bool] that decides whether that call reports an I/O or cancellation
    error, so that a theorem about all [io] covers every failure of the database at
    every call (the calls made in a loop are told apart by their argument). What the code relies on is SQLite's documented behaviour: constraint
    violations, upserts, 64-bit signed integers ([sql_uint]: database/sql refuses a
    uint64 with the high bit set), and transactions, which are run on a working copy
    that a failing call discards. *)
From S2P Require Import Prelude Proto Signing.
From Stdlib Require Import Floats.SpecFloat.

(** ** Tables *)

Record EntryRow := {
  row_seq : Z; row_prev_hash : bytes; row_hash : bytes; row_kind : EntryKind;
  row_consumer_id : bytes; row_seeder_id : bytes; row_model : string;
  row_input_tokens : Z; row_output_tokens : Z; row_cost_credits : Z;
  row_timestamp : Z; row_request_id : bytes; row_flags : Z; row_ref : bytes;
  row_consumer_sig : option bytes; row_seeder_sig : option bytes;
  row_tracker_sig : bytes; row_canonical : bytes
}.

Record BalanceRow := {
  br_IdentityID : bytes; br_Credits : Z; br_LastSeq : Z; br_UpdatedAt : Z
}.

Record PeerRoot := {
  pr_TrackerID : bytes; pr_Hour : Z; pr_Root : bytes; pr_Sig : bytes; pr_ReceivedAt : Z
}.

Record PeerRevocation := {
  rv_TrackerID : bytes; rv_IdentityID : bytes; rv_Reason : Z; rv_RevokedAt : Z;
  rv_TrackerSig : bytes; rv_ReceivedAt : Z
}.

Record KnownPeer := {
  kp_TrackerID : bytes; kp_Addr : string; kp_LastSeen : Z; kp_RegionHint : string;
  kp_HealthScore : spec_float; kp_Source : string
}.

Record Store := {
  entries : list EntryRow;
  balances : gmap bytes BalanceRow;
  merkle_roots : gmap Z (bytes * bytes);
  peer_root_archive : gmap (bytes * Z) PeerRoot;
  peer_revocations : gmap (bytes * bytes) PeerRevocation;
  known_peers : gmap bytes KnownPeer
}.

Definition empty_store : Store :=
  {| entries := []; balances := ∅; merkle_roots := ∅; peer_root_archive := ∅;
     peer_revocations := ∅; known_peers := ∅ |}.

Definition set_entries (f : list EntryRow → list EntryRow) (s : Store) : Store :=
  {| entries := f (entries s); balances := balances s; merkle_roots := merkle_roots s;
     peer_root_archive := peer_root_archive s; peer_revocations := peer_revocations s;
     known_peers := known_peers s |}.

Definition set_balances f (s : Store) : Store :=
  {| entries := entries s; balances := f (balances s); merkle_roots := merkle_roots s;
     peer_root_archive := peer_root_archive s; peer_revocations := peer_revocations s;
     known_peers := known_peers s |}.

Definition set_merkle_roots f (s : Store) : Store :=
  {| entries := entries s; balances := balances s; merkle_roots := f (merkle_roots s);
     peer_root_archive := peer_root_archive s; peer_revocations := peer_revocations s;
     known_peers := known_peers s |}.

Definition set_peer_roots f (s : Store) : Store :=
  {| entries := entries s; balances := balances s; merkle_roots := merkle_roots s;
     peer_root_archive := f (peer_root_archive s); peer_revocations := peer_revocations s;
     known_peers := known_peers s |}.

Definition set_revocations f (s : Store) : Store :=
  {| entries := entries s; balances := balances s; merkle_roots := merkle_roots s;
     peer_root_archive := peer_root_archive s; peer_revocations := f (peer_revocations s);
     known_peers := known_peers s |}.

Definition set_known_peers f (s : Store) : Store :=
  {| entries := entries s; balances := balances s; merkle_roots := merkle_roots s;
     peer_root_archive := peer_root_archive s; peer_revocations := peer_revocations s;
     known_peers := f (known_peers s) |}.

(** ** Calls and errors *)

Inductive DbOp :=
| DbTip | DbEntryBySeq | DbEntryByHash | DbHasUsageRequestID | DbHasTransferRef
| DbBalance (identityID : bytes) | DbBalanceWithTip | DbEntriesSince
| DbEntriesWithHashSince (sinceSeq : Z)
| DbBegin | DbInsertEntry | DbUpsertBalance (identityID : bytes) | DbCommit
| DbLeavesForHour | DbGetMerkleRoot | DbPutMerkleRoot
| DbPeerRootCheck | DbPutPeerRoot | DbGetPeerRoot | DbListPeerRoots
| DbPutPeerRevocation | DbIsIdentityRevoked | DbListRevocations | DbGetPeerRevocation
| DbUpsertKnownPeer | DbUpdateKnownPeerHealth | DbDeleteStaleKnownPeers
| DbGetKnownPeer | DbListKnownPeers.

Inductive SErr :=
| ErrAlreadyExists
| ErrDuplicateMerkleRoot
| ErrPeerRootConflict
| ErrDb (op : DbOp)
| ErrStorage (msg : string).

Abbreviation Faults := (DbOp → bool).

(** The database with no failing call. *)
Definition no_faults : Faults := λ _, false.

(** An unsigned argument or column value the driver accepts. *)
Definition sql_uint (z : Z) : bool := z <? 2 ^ 63.

Definition is_some {A} (o : option A) : bool := match o with Some _ => true | None => false end.

(** ** Tip and lookups *)

(** [SELECT seq, hash FROM entries ORDER BY seq DESC LIMIT 1]; [None] is ok=false. *)
Definition Tip (io : Faults) (s : Store) : res SErr (option (Z * bytes)) :=
  if io DbTip then Err (ErrDb DbTip) else
  Ok ((λ r, (row_seq r, row_hash r)) <$> last (entries s)).

Definition scanEntry `{Wire} (r : EntryRow) : res SErr Entry :=
  match unmarshal_EntryBody (row_canonical r) with
  | None => Err (ErrStorage "storage: unmarshal canonical")
  | Some body => Ok {|
      ent_Body := Some body;
      ent_ConsumerSig := default [] (row_consumer_sig r);
      ent_SeederSig := default [] (row_seeder_sig r);
      ent_TrackerSig := row_tracker_sig r |}
  end.

Definition scan_opt `{Wire} (r : option EntryRow) : res SErr (option Entry) :=
  match r with
  | None => Ok None
  | Some r => match scanEntry r with Ok e => Ok (Some e) | Err e => Err e end
  end.

Definition EntryBySeq `{Wire} (io : Faults) (seq : Z) (s : Store) : res SErr (option Entry) :=
  if io DbEntryBySeq || negb (sql_uint seq) then Err (ErrDb DbEntryBySeq) else
  scan_opt (List.find (λ r, row_seq r =? seq) (entries s)).

Definition EntryByHash `{Wire} (io : Faults) (hash : bytes) (s : Store) : res SErr (option Entry) :=
  if io DbEntryByHash then Err (ErrDb DbEntryByHash) else
  scan_opt (List.find (λ r, bool_decide (row_hash r = hash)) (entries s)).

Definition HasUsageRequestID (io : Faults) (requestID : bytes) (s : Store) : res SErr bool :=
  if io DbHasUsageRequestID then Err (ErrDb DbHasUsageRequestID) else
  Ok (existsb (λ r, bool_decide (row_kind r = ENTRY_KIND_USAGE)
                    && bool_decide (row_request_id r = requestID)) (entries s)).

Definition HasTransferRef (io : Faults) (kind : EntryKind) (ref : bytes) (s : Store) : res SErr bool :=
  if io DbHasTransferRef then Err (ErrDb DbHasTransferRef) else
  Ok (existsb (λ r, bool_decide (row_kind r = kind) && bool_decide (row_ref r = ref)) (entries s)).

Definition BalanceRow_zero : BalanceRow :=
  {| br_IdentityID := []; br_Credits := 0; br_LastSeq := 0; br_UpdatedAt := 0 |}.

Definition Balance (io : Faults) (identityID : bytes) (s : Store) : res SErr (BalanceRow * bool) :=
  if io (DbBalance identityID) then Err (ErrDb (DbBalance identityID)) else
  Ok (match balances s !! identityID with
      | Some b => (b, true)
      | None => (BalanceRow_zero, false)
      end).

Record BalanceTipSnapshot := {
  bts_Balance : BalanceRow; bts_BalanceFound : bool;
  bts_TipSeq : Z; bts_TipHash : bytes; bts_TipFound : bool
}.

(** One read transaction: both rows come from the same state. *)
Definition BalanceWithTip (io : Faults) (identityID : bytes) (s : Store) : res SErr BalanceTipSnapshot :=
  if io DbBalanceWithTip then Err (ErrDb DbBalanceWithTip) else
  let b := balances s !! identityID in
  let t := last (entries s) in
  Ok {| bts_Balance := default BalanceRow_zero b; bts_BalanceFound := is_some b;
        bts_TipSeq := default 0 (row_seq <$> t); bts_TipHash := default [] (row_hash <$> t);
        bts_TipFound := is_some t |}.

(** ** Streams *)

Definition select_since (sinceSeq limit : Z) (s : Store) : list EntryRow :=
  let rows := List.filter (λ r, sinceSeq <? row_seq r) (entries s) in
  if 0 <? limit then take (Z.to_nat limit) rows else rows.

Fixpoint scan_rows `{Wire} (rows : list EntryRow) : res SErr (list Entry) :=
  match rows with
  | [] => Ok []
  | r :: rows' =>
    match scanEntry r with
    | Err e => Err e
    | Ok e => match scan_rows rows' with Ok es => Ok (e :: es) | Err e => Err e end
    end
  end.

Definition EntriesSince `{Wire} (io : Faults) (sinceSeq limit : Z) (s : Store) : res SErr (list Entry) :=
  if io DbEntriesSince || negb (sql_uint sinceSeq) then Err (ErrDb DbEntriesSince) else
  scan_rows (select_since sinceSeq limit s).

Record EntryWithHash := { ewh_Entry : Entry; ewh_StoredHash : bytes }.

Fixpoint scan_rows_hash `{Wire} (rows : list EntryRow) : res SErr (list EntryWithHash) :=
  match rows with
  | [] => Ok []
  | r :: rows' =>
    match scanEntry r with
    | Err e => Err e
    | Ok e =>
      match scan_rows_hash rows' with
      | Ok es => Ok ({| ewh_Entry := e; ewh_StoredHash := row_hash r |} :: es)
      | Err e => Err e
      end
    end
  end.

Definition EntriesWithHashSince `{Wire} (io : Faults) (sinceSeq limit : Z) (s : Store)
    : res SErr (list EntryWithHash) :=
  if io (DbEntriesWithHashSince sinceSeq) || negb (sql_uint sinceSeq)
  then Err (ErrDb (DbEntriesWithHashSince sinceSeq)) else
  scan_rows_hash (select_since sinceSeq limit s).

(** ** Append *)

Record BalanceUpdate := {
  bu_IdentityID : bytes; bu_Credits : Z; bu_LastSeq : Z; bu_UpdatedAt : Z
}.

Record AppendInput := {
  ai_Entry : option Entry; ai_Hash : bytes; ai_Balances : list BalanceUpdate
}.

(** An empty slice is stored as NULL. *)
Definition nullableBytes (b : bytes) : option bytes :=
  match b with [] => None | _ => Some b end.

Definition row_of (e : Entry) (body : EntryBody) (hash canonical : bytes) : EntryRow := {|
  row_seq := eb_Seq body; row_prev_hash := eb_PrevHash body; row_hash := hash;
  row_kind := eb_Kind body; row_consumer_id := eb_ConsumerId body;
  row_seeder_id := eb_SeederId body; row_model := eb_Model body;
  row_input_tokens := eb_InputTokens body; row_output_tokens := eb_OutputTokens body;
  row_cost_credits := eb_CostCredits body; row_timestamp := eb_Timestamp body;
  row_request_id := eb_RequestId body; row_flags := eb_Flags body; row_ref := eb_Ref body;
  row_consumer_sig := nullableBytes (ent_ConsumerSig e);
  row_seeder_sig := nullableBytes (ent_SeederSig e);
  row_tracker_sig := ent_TrackerSig e; row_canonical := canonical |}.

(** The B-tree of the table is ordered by its INTEGER PRIMARY KEY. *)
Fixpoint insert_row (r : EntryRow) (rows : list EntryRow) : list EntryRow :=
  match rows with
  | [] => [r]
  | x :: rows' => if row_seq r <? row_seq x then r :: x :: rows' else x :: insert_row r rows'
  end.

(** A PRIMARY KEY or UNIQUE violation of [entries]; [classifyAppendError] maps both to
    [ErrAlreadyExists]. *)
Definition violates_unique (r : EntryRow) (rows : list EntryRow) : bool :=
  existsb (λ x, (row_seq x =? row_seq r) || bool_decide (row_hash x = row_hash r)) rows.

Definition insert_entry (io : Faults) (r : EntryRow) (tx : Store) : res SErr Store :=
  if io DbInsertEntry || negb (sql_uint (row_seq r)) || negb (sql_uint (row_cost_credits r))
     || negb (sql_uint (row_timestamp r))
  then Err (ErrDb DbInsertEntry)
  else if violates_unique r (entries tx) then Err ErrAlreadyExists
  else Ok (set_entries (insert_row r) tx).

Definition upsert_balance (b : BalanceUpdate) (tx : Store) : Store :=
  set_balances <[bu_IdentityID b :=
    {| br_IdentityID := bu_IdentityID b; br_Credits := bu_Credits b;
       br_LastSeq := bu_LastSeq b; br_UpdatedAt := bu_UpdatedAt b |}]> tx.

Fixpoint upsert_balances (io : Faults) (bs : list BalanceUpdate) (tx : Store) : res SErr Store :=
  match bs with
  | [] => Ok tx
  | b :: bs' =>
    if negb (blen (bu_IdentityID b) =? 32) then Err (ErrStorage "storage: balance identity_id length")
    else if io (DbUpsertBalance (bu_IdentityID b)) || negb (sql_uint (bu_LastSeq b))
            || negb (sql_uint (bu_UpdatedAt b))
    then Err (ErrDb (DbUpsertBalance (bu_IdentityID b)))
    else upsert_balances io bs' (upsert_balance b tx)
  end.

(** [defer tx.Rollback()]: an error anywhere leaves the committed state [s]. *)
Definition AppendEntry `{Wire} (io : Faults) (i : AppendInput) : GoM Store SErr Z := λ s,
  match ai_Entry i with
  | None => (Err (ErrStorage "storage: AppendEntry requires non-nil entry + body"), s)
  | Some e =>
  match ent_Body e with
  | None => (Err (ErrStorage "storage: AppendEntry requires non-nil entry + body"), s)
  | Some body =>
    if blen (ent_TrackerSig e) =? 0
    then (Err (ErrStorage "storage: AppendEntry requires non-empty tracker_sig"), s) else
    match marshal_EntryBody body with
    | None => (Err (ErrStorage "storage: marshal canonical"), s)
    | Some canonical =>
      if io DbBegin then (Err (ErrDb DbBegin), s) else
      match insert_entry io (row_of e body (ai_Hash i) canonical) s with
      | Err er => (Err er, s)
      | Ok tx =>
        match upsert_balances io (ai_Balances i) tx with
        | Err er => (Err er, s)
        | Ok tx' => if io DbCommit then (Err (ErrDb DbCommit), s) else (Ok (eb_Seq body), tx')
        end
      end
    end
  end end.

(** ** Hourly Merkle roots *)

Definition hourSeconds : Z := 3600.

(** [start] and [end] are computed on [uint64]. *)
Definition LeavesForHour (io : Faults) (hour : Z) (s : Store) : res SErr (list bytes) :=
  let start := u64 (hour * hourSeconds) in
  let end_ := u64 (start + hourSeconds) in
  if io DbLeavesForHour || negb (sql_uint start) || negb (sql_uint end_)
  then Err (ErrDb DbLeavesForHour) else
  Ok (row_hash <$> List.filter (λ r, (start <=? row_timestamp r) && (row_timestamp r <? end_)) (entries s)).

Definition PutMerkleRoot (io : Faults) (hour : Z) (root trackerSig : bytes) : GoM Store SErr unit := λ s,
  if (blen root =? 0) || (blen trackerSig =? 0)
  then (Err (ErrStorage "storage: PutMerkleRoot requires non-empty root and trackerSig"), s) else
  if io DbPutMerkleRoot || negb (sql_uint hour) then (Err (ErrDb DbPutMerkleRoot), s) else
  match merkle_roots s !! hour with
  | Some _ => (Err ErrDuplicateMerkleRoot, s)
  | None => (Ok tt, set_merkle_roots <[hour := (root, trackerSig)]> s)
  end.

Definition GetMerkleRoot (io : Faults) (hour : Z) (s : Store) : res SErr (option (bytes * bytes)) :=
  if io DbGetMerkleRoot || negb (sql_uint hour) then Err (ErrDb DbGetMerkleRoot) else
  Ok (merkle_roots s !! hour).

(** ** Peer root archive *)

Definition PutPeerRoot (io : Faults) (p : PeerRoot) : GoM Store SErr unit := λ s,
  if (blen (pr_TrackerID p) =? 0) || (blen (pr_Root p) =? 0) || (blen (pr_Sig p) =? 0)
  then (Err (ErrStorage "storage: PutPeerRoot requires non-empty tracker_id, root, sig"), s) else
  if io DbPeerRootCheck || negb (sql_uint (pr_Hour p)) then (Err (ErrDb DbPeerRootCheck), s) else
  match peer_root_archive s !! (pr_TrackerID p, pr_Hour p) with
  | Some x =>
      if bool_decide (pr_Root x = pr_Root p) && bool_decide (pr_Sig x = pr_Sig p)
      then (Ok tt, s) else (Err ErrPeerRootConflict, s)
  | None =>
      if io DbPutPeerRoot || negb (sql_uint (pr_ReceivedAt p)) then (Err (ErrDb DbPutPeerRoot), s) else
      (Ok tt, set_peer_roots <[(pr_TrackerID p, pr_Hour p) := p]> s)
  end.

Definition GetPeerRoot (io : Faults) (trackerID : bytes) (hour : Z) (s : Store) : res SErr (option PeerRoot) :=
  if io DbGetPeerRoot || negb (sql_uint hour) then Err (ErrDb DbGetPeerRoot) else
  Ok (peer_root_archive s !! (trackerID, hour)).

Definition ListPeerRootsForHour (io : Faults) (hour : Z) (s : Store) : res SErr (list PeerRoot) :=
  if io DbListPeerRoots || negb (sql_uint hour) then Err (ErrDb DbListPeerRoots) else
  Ok (stable_sort (λ a b, bytes_ltb (pr_TrackerID a) (pr_TrackerID b))
       (List.filter (λ p, pr_Hour p =? hour) (map_to_list (peer_root_archive s)).*2)).

(** ** Peer revocations *)

(** [INSERT OR IGNORE] on (tracker_id, identity_id). *)
Definition PutPeerRevocation (io : Faults) (r : PeerRevocation) : GoM Store SErr unit := λ s,
  if (blen (rv_TrackerID r) =? 0) || (blen (rv_IdentityID r) =? 0) || (blen (rv_TrackerSig r) =? 0)
  then (Err (ErrStorage "storage: PutPeerRevocation requires non-empty fields"), s) else
  if io DbPutPeerRevocation || negb (sql_uint (rv_RevokedAt r)) || negb (sql_uint (rv_ReceivedAt r))
  then (Err (ErrDb DbPutPeerRevocation), s) else
  match peer_revocations s !! (rv_TrackerID r, rv_IdentityID r) with
  | Some _ => (Ok tt, s)
  | None => (Ok tt, set_revocations <[(rv_TrackerID r, rv_IdentityID r) := r]> s)
  end.

Definition IsIdentityRevoked (io : Faults) (identityID : bytes) (s : Store) : res SErr bool :=
  if io DbIsIdentityRevoked then Err (ErrDb DbIsIdentityRevoked) else
  Ok (existsb (λ r, bool_decide (rv_IdentityID r = identityID)) (map_to_list (peer_revocations s)).*2).

(** [ORDER BY received_at ASC, tracker_id ASC]. *)
Definition ListRevocationsForIdentity (io : Faults) (identityID : bytes) (s : Store)
    : res SErr (list PeerRevocation) :=
  if io DbListRevocations then Err (ErrDb DbListRevocations) else
  Ok (stable_sort (λ a b, (rv_ReceivedAt a <? rv_ReceivedAt b)
        || ((rv_ReceivedAt a =? rv_ReceivedAt b) && bytes_ltb (rv_TrackerID a) (rv_TrackerID b)))
       (List.filter (λ r, bool_decide (rv_IdentityID r = identityID))
          (map_to_list (peer_revocations s)).*2)).

Definition GetPeerRevocation (io : Faults) (trackerID identityID : bytes) (s : Store)
    : res SErr (option PeerRevocation) :=
  if io DbGetPeerRevocation then Err (ErrDb DbGetPeerRevocation) else
  Ok (peer_revocations s !! (trackerID, identityID)).

(** ** Known peers *)

(** The [ON CONFLICT DO UPDATE ... WHERE] clause, on the stored row [old]. *)
Definition merge_known_peer (old new : KnownPeer) : KnownPeer :=
  let pinned := bool_decide (kp_Source old = "allowlist") && bool_decide (kp_Source new = "gossip") in
  if (kp_LastSeen old <=? kp_LastSeen new) || bool_decide (kp_Source old = "allowlist") then {|
    kp_TrackerID := kp_TrackerID old;
    kp_Addr := if pinned then kp_Addr old else kp_Addr new;
    kp_LastSeen := Z.max (kp_LastSeen old) (kp_LastSeen new);
    kp_RegionHint := if pinned then kp_RegionHint old else kp_RegionHint new;
    kp_HealthScore := if kp_LastSeen old <=? kp_LastSeen new
                      then kp_HealthScore new else kp_HealthScore old;
    kp_Source := kp_Source old |}
  else old.

(** [kp_LastSeen] is the Unix-seconds value the statement stores; SQLite keeps a NaN as
    NULL, which the NOT NULL column refuses. *)
Definition UpsertKnownPeer (io : Faults) (p : KnownPeer) : GoM Store SErr unit := λ s,
  if blen (kp_TrackerID p) =? 0
  then (Err (ErrStorage "storage: UpsertKnownPeer requires non-empty tracker_id"), s) else
  if bool_decide (kp_Addr p = "")
  then (Err (ErrStorage "storage: UpsertKnownPeer requires non-empty addr"), s) else
  if negb (bool_decide (kp_Source p = "allowlist")) && negb (bool_decide (kp_Source p = "gossip"))
  then (Err (ErrStorage "storage: UpsertKnownPeer invalid source"), s) else
  if io DbUpsertKnownPeer || is_NaN (kp_HealthScore p) then (Err (ErrDb DbUpsertKnownPeer), s) else
  (Ok tt, set_known_peers (λ m,
    <[kp_TrackerID p := match m !! kp_TrackerID p with
                        | None => p
                        | Some old => merge_known_peer old p
                        end]> m) s).

Definition set_health (score : spec_float) (p : KnownPeer) : KnownPeer :=
  {| kp_TrackerID := kp_TrackerID p; kp_Addr := kp_Addr p; kp_LastSeen := kp_LastSeen p;
     kp_RegionHint := kp_RegionHint p; kp_HealthScore := score; kp_Source := kp_Source p |}.

Definition UpdateKnownPeerHealth (io : Faults) (trackerID : bytes) (score : spec_float)
    : GoM Store SErr unit := λ s,
  if blen trackerID =? 0
  then (Err (ErrStorage "storage: UpdateKnownPeerHealth requires non-empty tracker_id"), s) else
  if io DbUpdateKnownPeerHealth || (is_NaN score && is_some (known_peers s !! trackerID))
  then (Err (ErrDb DbUpdateKnownPeerHealth), s) else
  (Ok tt, set_known_peers (alter (set_health score) trackerID) s).

Definition stale_gossip (cutoff : Z) (p : KnownPeer) : bool :=
  bool_decide (kp_Source p = "gossip") && (kp_LastSeen p <? cutoff).

(** [cutoff] in Unix seconds; returns the number of rows deleted. *)
Definition DeleteStaleKnownPeers (io : Faults) (cutoff : Z) : GoM Store SErr Z := λ s,
  if io DbDeleteStaleKnownPeers then (Err (ErrDb DbDeleteStaleKnownPeers), s) else
  let kept := filter (λ kv, stale_gossip cutoff kv.2 = false) (known_peers s) in
  (Ok (Z.of_nat (size (known_peers s)) - Z.of_nat (size kept)), set_known_peers (λ _, kept) s).

Definition GetKnownPeer (io : Faults) (trackerID : bytes) (s : Store) : res SErr (option KnownPeer) :=
  if io DbGetKnownPeer then Err (ErrDb DbGetKnownPeer) else
  Ok (known_peers s !! trackerID).

Definition ListKnownPeers (io : Faults) (limit : Z) (byHealthDesc : bool) (s : Store)
    : res SErr (list KnownPeer) :=
  if limit <=? 0 then Ok [] else
  if io DbListKnownPeers then Err (ErrDb DbListKnownPeers) else
  let by_id a b := bytes_ltb (kp_TrackerID a) (kp_TrackerID b) in
  let by_health a b :=
    SFltb (kp_HealthScore b) (kp_HealthScore a)
    || (SFeqb (kp_HealthScore b) (kp_HealthScore a) && by_id a b) in
  Ok (take (Z.to_nat limit)
        (stable_sort (if byHealthDesc then by_health else by_id) (map_to_list (known_peers s)).*2)).

(** ** Lemmas *)

#[global] Arguments sql_uint : simpl never.
#[global] Arguments row_of : simpl never.

Lemma sql_uint_spec z : sql_uint z = true ↔ z < 2 ^ 63.
Proof. apply Z.ltb_lt. Qed.

Lemma entries_set_entries f s : entries (set_entries f s) = f (entries s).
Proof. done. Qed.

Lemma upsert_balances_entries io bs tx tx' :
  upsert_balances io bs tx = Ok tx' → entries tx' = entries tx.
Proof.
  revert tx. induction bs as [|b bs IH]; simpl; intros tx Hu; [by simplify_eq|].
  destruct (negb _); [done|]. destruct (_ || _); [done|].
  by rewrite (IH _ Hu).
Qed.

Definition all_upserts (bs : list BalanceUpdate) (tx : Store) : Store :=
  foldl (λ s b, upsert_balance b s) tx bs.

Lemma upsert_balances_Ok io bs tx tx' :
  upsert_balances io bs tx = Ok tx' →
  tx' = all_upserts bs tx ∧
  Forall (λ b, length (bu_IdentityID b) = 32%nat ∧ bu_LastSeq b < 2 ^ 63 ∧
               bu_UpdatedAt b < 2 ^ 63) bs.
Proof.
  revert tx. induction bs as [|b bs IH]; simpl; intros tx Hu; [by simplify_eq|].
  destruct (negb _) eqn:E1; [done|]. destruct (_ || _) eqn:E2; [done|].
  apply IH in Hu as [-> Hf]. split; [done|]. constructor; [|done].
  unfold sql_uint, blen in *. bool_to_prop. lia.
Qed.

Lemma upsert_balances_no_faults bs tx :
  Forall (λ b, length (bu_IdentityID b) = 32%nat ∧ bu_LastSeq b < 2 ^ 63 ∧
               bu_UpdatedAt b < 2 ^ 63) bs →
  upsert_balances no_faults bs tx = Ok (all_upserts bs tx).
Proof.
  intros Hf. revert tx. induction Hf as [|b bs (H1 & H2 & H3) _ IH]; simpl; intros tx; [done|].
  apply sql_uint_spec in H2, H3. unfold blen. rewrite H1, H2, H3. apply IH.
Qed.

(** What a successful [AppendEntry] did, on every field of the store. *)
Lemma AppendEntry_Ok `{Wire} io i s seq s' :
  AppendEntry io i s = (Ok seq, s') →
  ∃ e body canonical,
    ai_Entry i = Some e ∧ ent_Body e = Some body ∧ seq = eb_Seq body ∧
    marshal_EntryBody body = Some canonical ∧ ent_TrackerSig e ≠ [] ∧
    eb_Seq body < 2 ^ 63 ∧ eb_CostCredits body < 2 ^ 63 ∧ eb_Timestamp body < 2 ^ 63 ∧
    violates_unique (row_of e body (ai_Hash i) canonical) (entries s) = false ∧
    Forall (λ b, length (bu_IdentityID b) = 32%nat ∧ bu_LastSeq b < 2 ^ 63 ∧
                 bu_UpdatedAt b < 2 ^ 63) (ai_Balances i) ∧
    s' = all_upserts (ai_Balances i)
           (set_entries (insert_row (row_of e body (ai_Hash i) canonical)) s).
Proof.
  unfold AppendEntry. intros Ha.
  destruct (ai_Entry i) as [e|] eqn:Ei; [|done].
  destruct (ent_Body e) as [body|] eqn:Eb; [|done].
  destruct (blen _ =? 0) eqn:Et; [done|].
  destruct (marshal_EntryBody body) as [c|] eqn:Em; [|done].
  destruct (io DbBegin); [done|].
  unfold insert_entry in Ha.
  destruct (_ || _) eqn:E1 in Ha; [done|].
  destruct (violates_unique _ _) eqn:Ev; [done|].
  destruct (upsert_balances _ _ _) as [tx|] eqn:Eu; [|done].
  destruct (io DbCommit); [done|]. simplify_eq.
  apply upsert_balances_Ok in Eu as [-> Hf]. bool_to_prop.
  repeat match goal with H : sql_uint _ = true |- _ => apply sql_uint_spec in H end.
  exists e, body, c. split_and!; auto.
  intros Hn. rewrite Hn in Et. done.
Qed.

(** The converse: with a database that does not fail, these conditions are enough. *)
Lemma AppendEntry_no_faults `{Wire} i s e body canonical :
  ai_Entry i = Some e → ent_Body e = Some body →
  marshal_EntryBody body = Some canonical → ent_TrackerSig e ≠ [] →
  eb_Seq body < 2 ^ 63 → eb_CostCredits body < 2 ^ 63 → eb_Timestamp body < 2 ^ 63 →
  violates_unique (row_of e body (ai_Hash i) canonical) (entries s) = false →
  Forall (λ b, length (bu_IdentityID b) = 32%nat ∧ bu_LastSeq b < 2 ^ 63 ∧
               bu_UpdatedAt b < 2 ^ 63) (ai_Balances i) →
  AppendEntry no_faults i s =
    (Ok (eb_Seq body), all_upserts (ai_Balances i)
           (set_entries (insert_row (row_of e body (ai_Hash i) canonical)) s)).
Proof.
  intros Ei Eb Em Ht Hs Hc Hts Hv Hf. unfold AppendEntry. rewrite Ei, Eb.
  assert ((blen (ent_TrackerSig e) =? 0) = false) as ->.
  { unfold blen. apply Z.eqb_neq. destruct (ent_TrackerSig e); [done|]. simpl. lia. }
  rewrite Em. unfold no_faults at 1, insert_entry, no_faults at 1.
  apply sql_uint_spec in Hs, Hc, Hts. unfold row_of at 1 2 3. cbn [row_seq row_cost_credits row_timestamp].
  rewrite Hs, Hc, Hts, Hv. cbn [negb orb]. rewrite upsert_balances_no_faults by done. done.
Qed.

Lemma AppendEntry_Err `{Wire} io i s e s' : AppendEntry io i s = (Err e, s') → s' = s.
Proof.
  unfold AppendEntry. intros Ha. repeat case_match; naive_solver.
Qed.

Lemma all_upserts_frame bs s :
  entries (all_upserts bs s) = entries s ∧ merkle_roots (all_upserts bs s) = merkle_roots s ∧
  peer_root_archive (all_upserts bs s) = peer_root_archive s ∧
  peer_revocations (all_upserts bs s) = peer_revocations s ∧
  known_peers (all_upserts bs s) = known_peers s.
Proof. revert s. induction bs as [|b bs IH]; intros s; [done|]. exact (IH (upsert_balance b s)). Qed.

Lemma elem_of_insert_row r rows x : x ∈ insert_row r rows ↔ x = r ∨ x ∈ rows.
Proof. induction rows as [|y rows IH]; simpl; [set_solver|]. case_match; set_solver. Qed.

Lemma insert_row_snoc r rows :
  Forall (λ x, row_seq x < row_seq r) rows → insert_row r rows = rows ++ [r].
Proof.
  induction 1 as [|x rows Hx _ IH]; simpl; [done|].
  assert ((row_seq r <? row_seq x) = false) as -> by (apply Z.ltb_ge; lia). by rewrite IH.
Qed.

Lemma violates_unique_false r rows :
  violates_unique r rows = false ↔
  ∀ x, x ∈ rows → row_seq x ≠ row_seq r ∧ row_hash x ≠ row_hash r.
Proof.
  unfold violates_unique. rewrite <- not_true_iff_false, existsb_exists. split.
  - intros Hn x Hx. apply list_elem_of_In in Hx.
    split; intros He; apply Hn; exists x; (split; [done|]); apply orb_true_iff.
    + left. by apply Z.eqb_eq.
    + right. by apply bool_decide_eq_true.
  - intros Hall [x [Hx He]]. apply list_elem_of_In in Hx. apply orb_true_iff in He as [He|He];
      bool_to_prop; naive_solver.
Qed.

(** ** The append transaction *)

Definition strictly_sorted (rows : list EntryRow) : Prop :=
  StronglySorted (λ x y, row_seq x < row_seq y) rows.

Lemma insert_row_sorted r rows :
  strictly_sorted rows → (∀ x, x ∈ rows → row_seq x ≠ row_seq r) →
  strictly_sorted (insert_row r rows).
Proof.
  intros Hs. induction Hs as [|x rows Hr IH Hx]; intros Hne; simpl; [repeat constructor|].
  rewrite Forall_forall in Hx.
  destruct (row_seq r <? row_seq x) eqn:E; bool_to_prop.
  - constructor; [constructor; [done|by apply Forall_forall]|].
    constructor; [done|]. apply Forall_forall. intros y Hy. specialize (Hx y Hy). lia.
  - constructor; [apply IH; set_solver|].
    apply Forall_forall. intros y Hy. apply elem_of_insert_row in Hy as [->|Hy]; [|auto].
    assert (row_seq x ≠ row_seq r) by (apply Hne; set_solver). lia.
Qed.

(** A search by a key that only one row carries finds that row. *)
Lemma find_unique {A} (f : A → bool) (l : list A) x :
  x ∈ l → f x = true → (∀ y, y ∈ l → f y = true → y = x) → List.find f l = Some x.
Proof.
  intros Hx Hfx Hu. destruct (List.find f l) as [y|] eqn:E.
  - apply List.find_some in E as [Hy Hfy]. apply list_elem_of_In in Hy. f_equal. auto.
  - apply list_elem_of_In in Hx. pose proof (List.find_none _ _ E x Hx). congruence.
Qed.

Lemma scanEntry_row_of `{WireLaws} e body hash canonical :
  ent_Body e = Some body → marshal_EntryBody body = Some canonical →
  scanEntry (row_of e body hash canonical) = Ok e.
Proof.
  intros Hb Hm. unfold scanEntry, row_of.
  cbn [row_canonical row_consumer_sig row_seeder_sig row_tracker_sig].
  rewrite (unmarshal_marshal_EntryBody _ _ Hm). f_equal.
  destruct e as [b [|] [|] ts]; simpl in *; subst; done.
Qed.

Lemma find_inserted (f : EntryRow → bool) r rows :
  f r = true → (∀ y, y ∈ rows → f y = false) → List.find f (insert_row r rows) = Some r.
Proof.
  intros Hr Hn. apply find_unique; [apply elem_of_insert_row; by left|done|].
  intros y [->|Hy]%elem_of_insert_row Hfy; [done|]. specialize (Hn y Hy). congruence.
Qed.

(** [AppendEntry] is one atomic, durable step: an error of any kind, at any statement
    of the transaction, leaves every table as it was; on success the table stays strictly
    ordered by seq, nothing already stored is lost, and both lookups read back exactly
    the entry that was passed in, signatures included. *)
Lemma AppendEntry_atomic_roundtrip `{WireLaws} io i s :
  strictly_sorted (entries s) →
  match AppendEntry io i s with
  | (Err _, s') => s' = s
  | (Ok seq, s') =>
      ∃ e, ai_Entry i = Some e ∧
        EntryBySeq no_faults seq s' = Ok (Some e) ∧
        EntryByHash no_faults (ai_Hash i) s' = Ok (Some e) ∧
        strictly_sorted (entries s') ∧ length (entries s') = S (length (entries s)) ∧
        ∀ r, r ∈ entries s → r ∈ entries s'
  end.
Proof.
  intros Hs. destruct (AppendEntry io i s) as [[seq|er] s'] eqn:E;
    [|by eapply AppendEntry_Err].
  apply AppendEntry_Ok in E as
    (e & body & c & He & Hb & -> & Hm & _ & Hseq & _ & _ & Hv & _ & ->).
  rewrite violates_unique_false in Hv.
  set (r := row_of e body (ai_Hash i) c) in *.
  destruct (all_upserts_frame (ai_Balances i) (set_entries (insert_row r) s)) as [Hf _].
  exists e. apply sql_uint_spec in Hseq.
  unfold EntryBySeq, EntryByHash, no_faults. rewrite Hf, entries_set_entries, Hseq.
  cbn [orb negb].
  rewrite !find_inserted.
  - unfold scan_opt, r. rewrite scanEntry_row_of by done.
    split_and!; try done.
    + apply insert_row_sorted; [done|]. intros x Hx. by apply Hv.
    + clear. induction (entries s) as [|x l IH]; simpl; [done|].
      destruct (_ <? _); simpl; [done|]. by rewrite IH.
    + intros x Hx. apply elem_of_insert_row. by right.
  - by apply bool_decide_eq_true.
  - intros y Hy. apply bool_decide_eq_false. by apply Hv.
  - by apply Z.eqb_eq.
  - intros y Hy. apply Z.eqb_neq. by apply Hv.
Qed.

Definition witness_append : AppendInput :=
  {| ai_Entry := Some (Build_Entry (Some witness_usage_body) [] [Byte.x02] [Byte.x01]);
     ai_Hash := replicate 32 Byte.x44;
     ai_Balances := [Build_BalanceUpdate (replicate 32 Byte.x11) 5 1 9] |}.

Lemma AppendEntry_atomic_roundtrip_witness :
  is_ok (fst (@AppendEntry ToyWire no_faults witness_append empty_store)) = true ∧
  match @AppendEntry ToyWire no_faults witness_append empty_store with
  | (Err _, s') => s' = empty_store
  | (Ok seq, s') =>
      ∃ e, ai_Entry witness_append = Some e ∧
        @EntryBySeq ToyWire no_faults seq s' = Ok (Some e) ∧
        @EntryByHash ToyWire no_faults (ai_Hash witness_append) s' = Ok (Some e) ∧
        strictly_sorted (entries s') ∧ length (entries s') = 1%nat ∧
        ∀ r, r ∈ entries empty_store → r ∈ entries s'
  end.
Proof.
  split; [vm_compute; reflexivity|].
  exact (@AppendEntry_atomic_roundtrip ToyWire ToyWireLaws no_faults witness_append
           empty_store (SSorted_nil _)).
Defined.

(** ** Archives of other trackers' statements *)

Definition peer_root_ok (p : PeerRoot) : Prop :=
  (blen (pr_TrackerID p) =? 0) || (blen (pr_Root p) =? 0) || (blen (pr_Sig p) =? 0) = false ∧
  negb (sql_uint (pr_Hour p)) = false.

Lemma PutPeerRoot_replay p s v :
  peer_root_ok p → peer_root_archive s !! (pr_TrackerID p, pr_Hour p) = Some v →
  pr_Root v = pr_Root p → pr_Sig v = pr_Sig p → PutPeerRoot no_faults p s = (Ok tt, s).
Proof.
  intros [E0 Hu] Hv Hr Hs. unfold PutPeerRoot. rewrite E0, Hu, Hv.
  unfold no_faults. simpl. by rewrite !bool_decide_eq_true_2 by done.
Qed.

Lemma PutPeerRoot_cases io p s r s' :
  PutPeerRoot io p s = (r, s') →
  let stored := peer_root_archive s !! (pr_TrackerID p, pr_Hour p) in
  (∃ e, r = Err e ∧ s' = s ∧ (e = ErrPeerRootConflict →
     ∃ v, stored = Some v ∧ (pr_Root v ≠ pr_Root p ∨ pr_Sig v ≠ pr_Sig p))) ∨
  (r = Ok tt ∧ peer_root_ok p ∧
   ((∃ v, stored = Some v ∧ pr_Root v = pr_Root p ∧ pr_Sig v = pr_Sig p ∧ s' = s) ∨
    (stored = None ∧ s' = set_peer_roots <[(pr_TrackerID p, pr_Hour p) := p]> s))).
Proof.
  unfold PutPeerRoot, peer_root_ok. intros Hp. cbv zeta.
  set (stored := peer_root_archive s !! _) in *.
  destruct ((_ || _) || _) eqn:E0 in Hp;
    [simplify_eq; left; eexists; split_and!; [done..|discriminate]|].
  destruct (io DbPeerRootCheck || _) eqn:E1 in Hp;
    [simplify_eq; left; eexists; split_and!; [done..|discriminate]|].
  apply orb_false_iff in E1 as [_ Hu].
  destruct stored as [v|].
  - destruct (_ && _) eqn:Ec in Hp; simplify_eq.
    + apply andb_true_iff in Ec as [H1%bool_decide_eq_true H2%bool_decide_eq_true].
      right. split_and!; [done..|]. left. eauto 10.
    + left. eexists. split_and!; [done..|]. intros _. exists v. split; [done|].
      apply andb_false_iff in Ec as [Ec|Ec]; bool_to_prop; tauto.
  - destruct (io DbPutPeerRoot || _) in Hp; simplify_eq; [left; eexists; split_and!; [done..|discriminate]|].
    right. split_and!; [done..|]. by right.
Qed.

Lemma IsIdentityRevoked_stored s k v :
  peer_revocations s !! k = Some v → IsIdentityRevoked no_faults (rv_IdentityID v) s = Ok true.
Proof.
  intros Hv. unfold IsIdentityRevoked. simpl. f_equal. apply existsb_exists.
  exists v. split; [|by apply bool_decide_eq_true]. apply list_elem_of_In, list_elem_of_fmap.
  eexists (_, v). split; [done|]. by apply elem_of_map_to_list.
Qed.

(** The archives are write-once. [PutPeerRoot] keeps every archived root for ever,
    reports success only when the archive holds this root and signature for the hour
    (so a replay is idempotent), and reports a conflict exactly when the archive holds a
    different pair, which is the evidence of equivocation. [PutPeerRevocation] keeps the
    first revocation of an issuer and identity. *)
Lemma archives_write_once io p rv s
  (Hwf : ∀ k v, peer_revocations s !! k = Some v → k = (rv_TrackerID v, rv_IdentityID v)) :
  (let '(r, s') := PutPeerRoot io p s in
    (∀ k v, peer_root_archive s !! k = Some v → peer_root_archive s' !! k = Some v) ∧
    (is_ok r = true → ∃ v, peer_root_archive s' !! (pr_TrackerID p, pr_Hour p) = Some v ∧
       pr_Root v = pr_Root p ∧ pr_Sig v = pr_Sig p ∧ PutPeerRoot no_faults p s' = (Ok tt, s')) ∧
    (r = Err ErrPeerRootConflict → s' = s ∧
       ∃ v, peer_root_archive s !! (pr_TrackerID p, pr_Hour p) = Some v ∧
         (pr_Root v ≠ pr_Root p ∨ pr_Sig v ≠ pr_Sig p))) ∧
  (let '(r, s') := PutPeerRevocation io rv s in
    (∀ k v, peer_revocations s !! k = Some v → peer_revocations s' !! k = Some v) ∧
    (is_ok r = true → IsIdentityRevoked no_faults (rv_IdentityID rv) s' = Ok true)).
Proof.
  split.
  - destruct (PutPeerRoot io p s) as [r s'] eqn:E. apply PutPeerRoot_cases in E.
    destruct E as [(e & -> & -> & Hc)|(-> & Hok & [(v & Hv & Hr & Hs & ->)|[Hn ->]])].
    + split_and!; [done..|]. intros [= ->]. auto.
    + split_and!; [done| |done]. intros _. exists v. split_and!; [done..|].
      by eapply PutPeerRoot_replay.
    + split_and!; [|intros _; exists p|done].
      * intros k v Hk. cbn [set_peer_roots peer_root_archive].
        rewrite lookup_insert_ne; [done|]. intros <-. congruence.
      * split_and!; [apply lookup_insert_eq|done..|].
        eapply PutPeerRoot_replay; [done|apply lookup_insert_eq|done..].
  - unfold PutPeerRevocation. destruct (_ || (blen (rv_TrackerSig rv) =? 0)); [done|].
    destruct (_ || negb (sql_uint (rv_ReceivedAt rv))); [done|].
    destruct (peer_revocations s !! _) as [v|] eqn:Ev.
    + split; [done|]. intros _. pose proof (Hwf _ _ Ev) as Hk.
      replace (rv_IdentityID rv) with (rv_IdentityID v) by congruence.
      by eapply IsIdentityRevoked_stored.
    + split; [|intros _; eapply IsIdentityRevoked_stored, lookup_insert_eq].
      intros k v Hk. cbn [set_revocations peer_revocations].
      rewrite lookup_insert_ne; [done|]. intros <-. congruence.
Qed.

Definition witness_root (root : byte) : PeerRoot :=
  {| pr_TrackerID := replicate 32 Byte.x0a; pr_Hour := 7; pr_Root := replicate 32 root;
     pr_Sig := replicate 64 Byte.x01; pr_ReceivedAt := 99 |}.

Definition witness_revocation : PeerRevocation :=
  {| rv_TrackerID := replicate 32 Byte.x0a; rv_IdentityID := replicate 32 Byte.x0b;
     rv_Reason := 1; rv_RevokedAt := 5; rv_TrackerSig := replicate 64 Byte.x01;
     rv_ReceivedAt := 6 |}.

(** A second, different root for an archived hour is a conflict; a revocation is effective. *)
Lemma archives_write_once_witness :
  let s1 := snd (PutPeerRoot no_faults (witness_root Byte.x01) empty_store) in
  fst (PutPeerRoot no_faults (witness_root Byte.x02) s1) = Err ErrPeerRootConflict ∧
  (∃ v, peer_root_archive s1 !! (replicate 32 Byte.x0a, 7) = Some v ∧
     (pr_Root v ≠ replicate 32 Byte.x02 ∨ pr_Sig v ≠ replicate 64 Byte.x01)) ∧
  IsIdentityRevoked no_faults (replicate 32 Byte.x0b)
    (snd (PutPeerRevocation no_faults witness_revocation s1)) = Ok true.
Proof.
  intros s1.
  assert (Hwf : ∀ k v, peer_revocations s1 !! k = Some v → k = (rv_TrackerID v, rv_IdentityID v))
    by (intros k v; vm_compute; discriminate).
  pose proof (archives_write_once no_faults (witness_root Byte.x02) witness_revocation s1 Hwf)
    as [H1 H2].
  assert (fst (PutPeerRoot no_faults (witness_root Byte.x02) s1) = Err ErrPeerRootConflict) as E
    by (vm_compute; reflexivity).
  split; [exact E|].
  destruct (PutPeerRoot no_faults (witness_root Byte.x02) s1) as [r s'].
  destruct (PutPeerRevocation no_faults witness_revocation s1) as [r2 s2] eqn:E2.
  split; [exact (proj2 (proj2 (proj2 H1) E))|].
  assert (r2 = fst (PutPeerRevocation no_faults witness_revocation s1)) as Hr2 by (rewrite E2; reflexivity).
  apply H2. rewrite Hr2. vm_compute. reflexivity.
Defined.

(** ** The known-peers table *)

Inductive peer_op :=
| OpUpsertKnownPeer (p : KnownPeer)
| OpUpdateHealth (trackerID : bytes) (score : spec_float)
| OpDeleteStale (cutoff : Z).

Definition run_peer_op (io : Faults) (op : peer_op) (s : Store) : Store :=
  match op with
  | OpUpsertKnownPeer p => snd (UpsertKnownPeer io p s)
  | OpUpdateHealth id score => snd (UpdateKnownPeerHealth io id score s)
  | OpDeleteStale cutoff => snd (DeleteStaleKnownPeers io cutoff s)
  end.

Definition run_peer_ops (ops : list (Faults * peer_op)) (s : Store) : Store :=
  foldl (λ s o, run_peer_op o.1 o.2 s) s ops.

Definition operator_upsert (id : bytes) (op : peer_op) : Prop :=
  match op with
  | OpUpsertKnownPeer p => kp_TrackerID p = id ∧ kp_Source p = "allowlist"
  | _ => False
  end.

(** What gossip may not change of an operator's row [p]. *)
Definition pinned_row (p p' : KnownPeer) : Prop :=
  kp_Source p' = "allowlist" ∧ kp_Addr p' = kp_Addr p ∧
  kp_RegionHint p' = kp_RegionHint p ∧ kp_LastSeen p <= kp_LastSeen p'.

Lemma merge_known_peer_pinned old new :
  kp_Source old = "allowlist" → kp_Source new = "gossip" →
  pinned_row old (merge_known_peer old new).
Proof.
  intros Ho Hn. unfold merge_known_peer, pinned_row. rewrite Ho, Hn.
  rewrite !bool_decide_eq_true_2 by done. rewrite orb_true_r. simpl. split_and!; auto; lia.
Qed.

Lemma run_peer_op_pinned io op s id p :
  known_peers s !! id = Some p → kp_Source p = "allowlist" → ¬ operator_upsert id op →
  ∃ p', known_peers (run_peer_op io op s) !! id = Some p' ∧ pinned_row p p'.
Proof.
  intros Hp Hsrc Hop.
  assert (pinned_row p p) as Hrefl by (unfold pinned_row; split_and!; auto; lia).
  destruct op as [q|id' sc|cutoff]; cbn [run_peer_op operator_upsert] in *.
  - unfold UpsertKnownPeer. do 2 (case_match; [eauto|]).
    destruct (negb _ && negb _) eqn:Esrc; [eauto|]. case_match; [eauto|].
    cbn [snd set_known_peers known_peers].
    destruct (decide (kp_TrackerID q = id)) as [<-|Hne];
      [|rewrite lookup_insert_ne by done; eauto].
    rewrite lookup_insert_eq, Hp. eexists; split; [done|].
    apply merge_known_peer_pinned; [done|].
    apply andb_false_iff in Esrc as [Hs|Hs]; bool_to_prop; [tauto|done].
  - unfold UpdateKnownPeerHealth. do 2 (case_match; [eauto|]).
    cbn [snd set_known_peers known_peers].
    destruct (decide (id' = id)) as [->|Hne]; [|rewrite lookup_alter_ne by done; eauto].
    rewrite lookup_alter_eq, Hp. eexists; split; [done|]. done.
  - unfold DeleteStaleKnownPeers. case_match; [eauto|].
    cbn [snd set_known_peers known_peers]. exists p. split; [|done].
    apply map_lookup_filter_Some. split; [done|]. unfold stale_gossip. simpl.
    by rewrite bool_decide_eq_false_2 by (rewrite Hsrc; done).
Qed.

(** Gossip cannot take over or evict an operator-configured peer. Whatever sequence of
    upserts, health updates and prunes follows, with any database failures, a row whose
    source is the allowlist stays in the table with its source, address and region, and
    its last_seen never goes back, until the operator upserts that peer again. *)
Lemma allowlist_pinned ops s id p :
  known_peers s !! id = Some p → kp_Source p = "allowlist" →
  Forall (λ o, ¬ operator_upsert id o.2) ops →
  ∃ p', known_peers (run_peer_ops ops s) !! id = Some p' ∧ pinned_row p p'.
Proof.
  intros Hp Hsrc Hops. revert s p Hp Hsrc.
  induction Hops as [|[io op] ops Hop _ IH]; intros s p Hp Hsrc; simpl.
  - exists p. unfold pinned_row. split_and!; auto; lia.
  - destruct (run_peer_op_pinned io op s id p Hp Hsrc Hop) as (q & Hq & Hq1 & Hq2 & Hq3 & Hq4).
    destruct (IH _ _ Hq Hq1) as (q' & Hq' & ? & ? & ? & ?).
    exists q'. unfold pinned_row. split_and!; [done..|congruence|congruence|lia].
Qed.

Definition witness_peer (src addr : string) (seen : Z) : KnownPeer :=
  {| kp_TrackerID := replicate 32 Byte.x0a; kp_Addr := addr; kp_LastSeen := seen;
     kp_RegionHint := "eu"; kp_HealthScore := S754_zero false; kp_Source := src |}.

Lemma allowlist_pinned_witness :
  ∃ p', known_peers (run_peer_ops
           [(no_faults, OpUpsertKnownPeer (witness_peer "gossip" "evil:1" 50));
            (no_faults, OpDeleteStale 1000)]
           (snd (UpsertKnownPeer no_faults (witness_peer "allowlist" "a:1" 10) empty_store)))
         !! replicate 32 Byte.x0a = Some p' ∧ pinned_row (witness_peer "allowlist" "a:1" 10) p'.
Proof.
  apply allowlist_pinned; [vm_compute; reflexivity|reflexivity|].
  repeat constructor; simpl; [intros [_ H]; discriminate H|tauto].
Defined.
