(* ===== verification/Ledger.v ===== *)
(** tracker/internal/ledger: the chain orchestrator.

    [Ledger.mu] serialises every append, so an operation is one atomic step on the
    store. The store is threaded through [GoM]: an operation that returns an error also
    returns the store it leaves behind, and that it is the store it was given is a
    theorem. [trackerKey] is the tracker's signing key and [now] the value [nowFn]
    returns during the call. *)
From S2P Require Import Prelude Proto Signing Entry Storage.

(** ** Errors *)

Inductive LErr :=
| ErrStaleTip
| ErrInsufficientBalance
| ErrUsageRequestExists
| ErrTransferRefExists
| ErrTransferIdentityMismatch
| ErrStore (op : string) (e : SErr)
| ErrLedger (msg : string).

(** ** Helpers *)

Definition unixSecondsU (now : Z) : Z :=
  let s := Unix now in if s <? 0 then 0 else s.

Definition signedAmount (amount : Z) : res LErr Z :=
  if MaxInt64 <? amount then Err (ErrLedger "ledger: amount exceeds int64 range")
  else Ok (i64 amount).

Record balanceDelta := { bd_identityID : bytes; bd_delta : Z }.

Record appendInput := {
  in_body : option EntryBody;
  in_consumerSig : bytes; in_consumerPub : bytes;
  in_seederSig : bytes; in_seederPub : bytes;
  in_deltas : list balanceDelta;
  in_participantSigsPreVerified : bool
}.

(** The [(prev_hash, seq)] the next entry must carry. *)
Definition nextTip (t : option (Z * bytes)) : bytes * Z :=
  match t with
  | Some (tipSeq, tipHash) => (tipHash, u64 (tipSeq + 1))
  | None => (zero_bytes 32, 1)
  end.

Section ledger.
Context `{Crypto} `{Wire}.
Variable trackerKey : bytes.

Abbreviation LM := (GoM Store LErr).

(** Every balance is read from the store, also when two deltas name one identity. *)
Fixpoint applyDeltas (io : Faults) (seq timestamp : Z) (deltas : list balanceDelta) (s : Store)
    : res LErr (list BalanceUpdate) :=
  match deltas with
  | [] => Ok []
  | d :: ds =>
    match Balance io (bd_identityID d) s with
    | Err e => Err (ErrStore "ledger: read balance" e)
    | Ok (cur, _) =>
      let next := i64 (br_Credits cur + bd_delta d) in
      if next <? 0 then Err ErrInsufficientBalance else
      match applyDeltas io seq timestamp ds s with
      | Err e => Err e
      | Ok out => Ok ({| bu_IdentityID := bd_identityID d; bu_Credits := next;
                         bu_LastSeq := seq; bu_UpdatedAt := timestamp |} :: out)
      end
    end
  end.

Definition storeRead {A} (what : string) (f : Store → res SErr A) : LM A :=
  gwrap (ErrStore what) (gread f).

Definition checkPreFilled (io : Faults) (body : EntryBody) : LM unit :=
  let! t := storeRead "ledger: read tip" (Tip io) in
  let '(expectedPrev, expectedSeq) := nextTip t in
  gguard (negb (bool_decide (eb_PrevHash body = expectedPrev))
          || negb (eb_Seq body =? expectedSeq)) ErrStaleTip.

Definition checkSingleUse (io : Faults) (body : EntryBody) : LM unit :=
  match eb_Kind body with
  | ENTRY_KIND_USAGE =>
      let! ex := storeRead "ledger: usage request_id lookup"
                   (HasUsageRequestID io (eb_RequestId body)) in
      gguard ex ErrUsageRequestExists
  | ENTRY_KIND_TRANSFER_OUT | ENTRY_KIND_TRANSFER_IN =>
      let! ex := storeRead "ledger: transfer ref lookup"
                   (HasTransferRef io (eb_Kind body) (eb_Ref body)) in
      gguard ex ErrTransferRefExists
  | _ => gret tt
  end.

Definition checkParticipants (i : appendInput) (body : EntryBody) : LM unit :=
  if in_participantSigsPreVerified i then gret tt else
  do! gguard (negb (blen (in_consumerSig i) =? 0)
              && negb (VerifyEntry (in_consumerPub i) (Some body) (in_consumerSig i)))
             (ErrLedger "ledger: consumer_sig invalid") in
  gguard (negb (blen (in_seederSig i) =? 0)
          && negb (VerifyEntry (in_seederPub i) (Some body) (in_seederSig i)))
         (ErrLedger "ledger: seeder_sig invalid").

Definition appendLocked (io : Faults) (i : appendInput) (verifyPreFilled : bool) : LM Entry :=
  match in_body i with
  | None => gfail (ErrLedger "ledger: appendEntry requires non-nil body")
  | Some body =>
    do! (if verifyPreFilled then checkPreFilled io body else gret tt) in
    do! (match ValidateEntryBody (Some body) with
         | Some e => gfail (ErrLedger e) | None => gret tt end) in
    do! checkSingleUse io body in
    do! checkParticipants i body in
    let! trackerSig := gwrap ErrLedger (glift (SignEntry trackerKey (Some body))) in
    let! bals := gread (applyDeltas io (eb_Seq body) (eb_Timestamp body) (in_deltas i)) in
    let! hash := gwrap ErrLedger (glift (Hash (Some body))) in
    let e := {| ent_Body := Some body; ent_ConsumerSig := in_consumerSig i;
                ent_SeederSig := in_seederSig i; ent_TrackerSig := trackerSig |} in
    do! gwrap (ErrStore "ledger: append")
          (AppendEntry io {| ai_Entry := Some e; ai_Hash := hash; ai_Balances := bals |}) in
    gret e
  end.

Definition appendEntry (io : Faults) (i : appendInput) : LM Entry := appendLocked io i true.

Definition appendEntryWithBuilder (io : Faults) (now : Z)
    (build : bytes → Z → Z → res LErr appendInput) : LM Entry :=
  let! t := storeRead "ledger: read tip" (Tip io) in
  let '(prev, nextSeq) := nextTip t in
  let! i := glift (build prev nextSeq (unixSecondsU now)) in
  appendLocked io i false.

(** ** Usage settlement *)

Record UsageRecord := {
  ur_PrevHash : bytes; ur_Seq : Z; ur_ConsumerID : bytes; ur_SeederID : bytes;
  ur_Model : string; ur_InputTokens : Z; ur_OutputTokens : Z; ur_CostCredits : Z;
  ur_Timestamp : Z; ur_RequestID : bytes; ur_ConsumerSigMissing : bool;
  ur_ConsumerSig : bytes; ur_ConsumerPub : bytes; ur_SeederSig : bytes; ur_SeederPub : bytes
}.

Definition usage_assertion (r : UsageRecord) : UsageAssertion := {|
  ua_RequestID := ur_RequestID r; ua_ConsumerID := ur_ConsumerID r;
  ua_SeederID := ur_SeederID r; ua_Model := ur_Model r;
  ua_InputTokens := ur_InputTokens r; ua_OutputTokens := ur_OutputTokens r;
  ua_CostCredits := ur_CostCredits r |}.

Definition usage_input (r : UsageRecord) : UsageInput := {|
  ui_PrevHash := ur_PrevHash r; ui_Seq := ur_Seq r; ui_ConsumerID := ur_ConsumerID r;
  ui_SeederID := ur_SeederID r; ui_Model := ur_Model r; ui_InputTokens := ur_InputTokens r;
  ui_OutputTokens := ur_OutputTokens r; ui_CostCredits := ur_CostCredits r;
  ui_Timestamp := ur_Timestamp r; ui_RequestID := ur_RequestID r;
  ui_ConsumerSigMissing := ur_ConsumerSigMissing r |}.

(** What [AppendUsage] hands to [appendEntry]. *)
Definition usage_append (r : UsageRecord) (cost : Z) (body : EntryBody) : appendInput := {|
  in_body := Some body;
  in_consumerSig := if ur_ConsumerSigMissing r then [] else ur_ConsumerSig r;
  in_consumerPub := if ur_ConsumerSigMissing r then [] else ur_ConsumerPub r;
  in_seederSig := ur_SeederSig r; in_seederPub := ur_SeederPub r;
  in_deltas := [{| bd_identityID := ur_ConsumerID r; bd_delta := i64 (- cost) |};
                {| bd_identityID := ur_SeederID r; bd_delta := cost |}];
  in_participantSigsPreVerified := true |}.

Definition AppendUsage (io : Faults) (r : UsageRecord) : LM Entry :=
  do! gguard ((blen (ur_SeederSig r) =? 0) || negb (blen (ur_SeederPub r) =? PublicKeySize))
        (ErrLedger "ledger: AppendUsage requires seeder sig + pubkey") in
  do! gguard (negb (ur_ConsumerSigMissing r) &&
              ((blen (ur_ConsumerSig r) =? 0) || negb (blen (ur_ConsumerPub r) =? PublicKeySize)))
        (ErrLedger "ledger: AppendUsage requires consumer sig + pubkey (or set ConsumerSigMissing)") in
  do! gguard (negb (VerifyUsageAssertion (ur_SeederPub r) (usage_assertion r) (ur_SeederSig r)))
        (ErrLedger "ledger: seeder_sig invalid over usage-assertion") in
  do! gguard (negb (ur_ConsumerSigMissing r) &&
              negb (VerifyUsageAssertion (ur_ConsumerPub r) (usage_assertion r) (ur_ConsumerSig r)))
        (ErrLedger "ledger: consumer_sig invalid over usage-assertion") in
  let! cost := glift (signedAmount (ur_CostCredits r)) in
  let! body := gwrap ErrLedger (glift (BuildUsageEntry (usage_input r))) in
  appendEntry io (usage_append r cost body).

(** ** Transfers *)

Record TransferOutRecord := {
  tor_PrevHash : bytes; tor_Seq : Z; tor_ConsumerID : bytes; tor_Amount : Z;
  tor_Timestamp : Z; tor_TransferRef : bytes; tor_SourceTrackerID : bytes;
  tor_DestTrackerID : bytes; tor_ConsumerSig : bytes; tor_ConsumerPub : bytes
}.

Definition transfer_intent (r : TransferOutRecord) : TransferProofRequest := {|
  tpr_SourceTrackerId := tor_SourceTrackerID r; tpr_DestTrackerId := tor_DestTrackerID r;
  tpr_IdentityId := tor_ConsumerID r; tpr_Amount := tor_Amount r;
  tpr_Nonce := tor_TransferRef r; tpr_ConsumerSig := [];
  tpr_ConsumerPub := tor_ConsumerPub r; tpr_Timestamp := tor_Timestamp r |}.

Definition AppendTransferOut (io : Faults) (r : TransferOutRecord) : LM Entry :=
  do! gguard ((blen (tor_ConsumerSig r) =? 0) || negb (blen (tor_ConsumerPub r) =? PublicKeySize))
        (ErrLedger "ledger: AppendTransferOut requires consumer sig + pubkey") in
  do! gguard (tor_Amount r =? 0) (ErrLedger "ledger: transfer_out amount must be > 0") in
  let! delta := glift (signedAmount (tor_Amount r)) in
  let pubID := sha256 (MarshalPKIXPublicKey (tor_ConsumerPub r)) in
  do! gguard (negb (bool_decide (pubID = tor_ConsumerID r))) ErrTransferIdentityMismatch in
  let! canonical := gwrap ErrLedger
                      (glift (CanonicalTransferProofRequestPreSig (Some (transfer_intent r)))) in
  do! gguard (negb (Verify (tor_ConsumerPub r) canonical (tor_ConsumerSig r)))
        (ErrLedger "ledger: consumer_sig invalid over transfer-proof-request intent") in
  let! body := gwrap ErrLedger (glift (BuildTransferOutEntry {|
      toi_PrevHash := tor_PrevHash r; toi_Seq := tor_Seq r; toi_ConsumerID := tor_ConsumerID r;
      toi_Amount := tor_Amount r; toi_Timestamp := tor_Timestamp r;
      toi_TransferRef := tor_TransferRef r |})) in
  appendEntry io {|
    in_body := Some body; in_consumerSig := tor_ConsumerSig r;
    in_consumerPub := tor_ConsumerPub r; in_seederSig := []; in_seederPub := [];
    in_deltas := [{| bd_identityID := tor_ConsumerID r; bd_delta := i64 (- delta) |}];
    in_participantSigsPreVerified := true |}.

Record TransferInRecord := {
  tir_PrevHash : bytes; tir_Seq : Z; tir_IdentityID : bytes; tir_Amount : Z;
  tir_Timestamp : Z; tir_TransferRef : bytes
}.

Definition AppendTransferIn (io : Faults) (r : TransferInRecord) : LM Entry :=
  do! gguard (tir_Amount r =? 0) (ErrLedger "ledger: transfer_in amount must be > 0") in
  let! delta := glift (signedAmount (tir_Amount r)) in
  let! body := gwrap ErrLedger (glift (BuildTransferInEntry {|
      tii_PrevHash := tir_PrevHash r; tii_Seq := tir_Seq r; tii_Amount := tir_Amount r;
      tii_Timestamp := tir_Timestamp r; tii_TransferRef := tir_TransferRef r |})) in
  appendEntry io {|
    in_body := Some body; in_consumerSig := []; in_consumerPub := [];
    in_seederSig := []; in_seederPub := [];
    in_deltas := [{| bd_identityID := tir_IdentityID r; bd_delta := delta |}];
    in_participantSigsPreVerified := false |}.

(** ** Starter grants *)

Definition buildStarterGrant (identityID : bytes) (amount delta : Z) (prev : bytes) (seq now : Z)
    : res LErr appendInput :=
  match BuildStarterGrantEntry {| sgi_PrevHash := prev; sgi_Seq := seq;
          sgi_ConsumerID := identityID; sgi_Amount := amount; sgi_Timestamp := now |} with
  | Err e => Err (ErrLedger e)
  | Ok body => Ok {|
      in_body := Some body; in_consumerSig := []; in_consumerPub := [];
      in_seederSig := []; in_seederPub := [];
      in_deltas := [{| bd_identityID := identityID; bd_delta := delta |}];
      in_participantSigsPreVerified := false |}
  end.

Definition IssueStarterGrant (io : Faults) (now : Z) (identityID : bytes) (amount : Z) : LM Entry :=
  do! gguard (amount =? 0) (ErrLedger "ledger: starter grant amount must be > 0") in
  do! gguard (negb (blen identityID =? 32)) (ErrLedger "ledger: identity_id length") in
  let! delta := glift (signedAmount amount) in
  appendEntryWithBuilder io now (buildStarterGrant identityID amount delta).

(** ** Signed balance snapshots *)

Definition balanceSnapshotTTLSeconds : Z := 600.

Definition SignedBalance (io : Faults) (now : Z) (identityID : bytes) (s : Store)
    : res LErr SignedBalanceSnapshot :=
  if negb (blen identityID =? 32) then Err (ErrLedger "ledger: identity_id length") else
  match BalanceWithTip io identityID s with
  | Err e => Err (ErrStore "ledger: BalanceWithTip" e)
  | Ok snap =>
    let tipHash := if bts_TipFound snap then bts_TipHash snap else zero_bytes 32 in
    let issued := unixSecondsU now in
    let body := {| bs_IdentityId := identityID; bs_Credits := br_Credits (bts_Balance snap);
                   bs_ChainTipHash := tipHash; bs_ChainTipSeq := bts_TipSeq snap;
                   bs_IssuedAt := issued;
                   bs_ExpiresAt := u64 (issued + balanceSnapshotTTLSeconds) |} in
    match SignBalanceSnapshot trackerKey (Some body) with
    | Err e => Err (ErrLedger e)
    | Ok sig => Ok {| sbs_Body := Some body; sbs_TrackerSig := sig |}
    end
  end.
End ledger.

(** ** The ledger as a state machine *)

(** One public operation, with the record the caller passes. *)
Inductive LedgerOp :=
| OpAppendUsage (r : UsageRecord)
| OpAppendTransferOut (r : TransferOutRecord)
| OpAppendTransferIn (r : TransferInRecord)
| OpIssueStarterGrant (now : Z) (identityID : bytes) (amount : Z).

Definition runLedgerOp `{Crypto} `{Wire} (key : bytes) (io : Faults) (op : LedgerOp)
    : GoM Store LErr Entry :=
  match op with
  | OpAppendUsage r => AppendUsage key io r
  | OpAppendTransferOut r => AppendTransferOut key io r
  | OpAppendTransferIn r => AppendTransferIn key io r
  | OpIssueStarterGrant now id amount => IssueStarterGrant key io now id amount
  end.

(** Unsigned amounts as the record types hold them. *)
Definition op_typed (op : LedgerOp) : Prop :=
  match op with
  | OpAppendUsage r => is_u64 (ur_CostCredits r) ∧ is_u32 (ur_InputTokens r) ∧ is_u32 (ur_OutputTokens r)
  | OpAppendTransferOut r => is_u64 (tor_Amount r)
  | OpAppendTransferIn r => is_u64 (tir_Amount r)
  | OpIssueStarterGrant _ _ amount => is_u64 amount
  end.

(** What a step of the running tracker does to its database: an operation of the ledger,
    whatever its outcome and whatever database call fails, or a write to the tables the
    ledger does not own. *)
Inductive ledger_step `{Crypto} `{Wire} (key : bytes) : Store → Store → Prop :=
| step_op io op s :
    op_typed op → ledger_step key s (snd (runLedgerOp key io op s))
| step_other s s' :
    entries s' = entries s → balances s' = balances s → ledger_step key s s'.

Definition ledger_reachable `{Crypto} `{Wire} (key : bytes) : Store → Prop :=
  rtc (ledger_step key) empty_store.

(** ** Reference notions *)

Definition tip_of (s : Store) : option (Z * bytes) :=
  (λ r, (row_seq r, row_hash r)) <$> last (entries s).

(** The credits an identity holds; an identity with no row holds none. *)
Definition credits (s : Store) (id : bytes) : Z := from_option br_Credits 0 (balances s !! id).

Definition total_credits (s : Store) : Z := msum br_Credits (balances s).

(** The change of the total that an entry stands for. A usage entry moves credits between
    two identities; when it names one identity twice, the second update of the balance
    row replaces the first and the cost is created. *)
Definition row_supply (r : EntryRow) : Z :=
  match row_kind r with
  | ENTRY_KIND_USAGE =>
      if bool_decide (row_consumer_id r = row_seeder_id r) then row_cost_credits r else 0
  | ENTRY_KIND_TRANSFER_OUT => - row_cost_credits r
  | ENTRY_KIND_TRANSFER_IN | ENTRY_KIND_STARTER_GRANT => row_cost_credits r
  | _ => 0
  end.

Fixpoint chain_from (prev : bytes) (seq : Z) (rows : list EntryRow) : Prop :=
  match rows with
  | [] => True
  | r :: rows' => row_prev_hash r = prev ∧ row_seq r = seq ∧ chain_from (row_hash r) (seq + 1) rows'
  end.

(** A row stores an entry: the hash and the canonical bytes are those of its body, the
    body is valid for its kind and carries the tracker's signature. *)
Definition row_of_entry `{Crypto} `{Wire} (key : bytes) (e : Entry) (r : EntryRow) : Prop :=
  ∃ body c, ent_Body e = Some body ∧ marshal_EntryBody body = Some c ∧
    r = row_of e body (sha256 c) c ∧ ValidateEntryBody (Some body) = None ∧
    VerifyEntry (ed25519_Public key) (Some body) (ent_TrackerSig e) = true.

Definition usage_ids (rows : list EntryRow) : list bytes :=
  row_request_id <$> filter (λ r, row_kind r = ENTRY_KIND_USAGE) rows.

Definition transfer_refs (k : EntryKind) (rows : list EntryRow) : list bytes :=
  row_ref <$> filter (λ r, row_kind r = k) rows.

Definition balance_ok (n : Z) (id : bytes) (b : BalanceRow) : Prop :=
  br_IdentityID b = id ∧ length id = 32%nat ∧ 0 <= br_Credits b <= MaxInt64 ∧
  1 <= br_LastSeq b <= n.

Record ledger_inv `{Crypto} `{Wire} (key : bytes) (s : Store) : Prop := {
  inv_chain : chain_from (zero_bytes 32) 1 (entries s);
  inv_rows : Forall (λ r, ∃ e, row_of_entry key e r) (entries s);
  inv_seq : blen (entries s) < 2 ^ 63;
  inv_usage_ids : NoDup (usage_ids (entries s));
  inv_out_refs : NoDup (transfer_refs ENTRY_KIND_TRANSFER_OUT (entries s));
  inv_in_refs : NoDup (transfer_refs ENTRY_KIND_TRANSFER_IN (entries s));
  inv_balances : ∀ id b, balances s !! id = Some b → balance_ok (blen (entries s)) id b;
  inv_supply : total_credits s = lsum row_supply (entries s)
}.

#[global] Arguments inv_chain {_ _ _ _} _.
#[global] Arguments inv_rows {_ _ _ _} _.
#[global] Arguments inv_seq {_ _ _ _} _.
#[global] Arguments inv_usage_ids {_ _ _ _} _.
#[global] Arguments inv_out_refs {_ _ _ _} _.
#[global] Arguments inv_in_refs {_ _ _ _} _.
#[global] Arguments inv_balances {_ _ _ _} _.
#[global] Arguments inv_supply {_ _ _ _} _.

(** The balance changes an entry of each kind is appended with. *)
Definition deltas_for (body : EntryBody) (ds : list balanceDelta) : Prop :=
  let c := eb_CostCredits body in
  0 <= c <= MaxInt64 ∧
  match eb_Kind body with
  | ENTRY_KIND_USAGE =>
      ds = [Build_balanceDelta (eb_ConsumerId body) (- c); Build_balanceDelta (eb_SeederId body) c]
  | ENTRY_KIND_TRANSFER_OUT => ds = [Build_balanceDelta (eb_ConsumerId body) (- c)]
  | ENTRY_KIND_TRANSFER_IN => ∃ id, ds = [Build_balanceDelta id c]
  | ENTRY_KIND_STARTER_GRANT => ds = [Build_balanceDelta (eb_ConsumerId body) c]
  | _ => False
  end.

(** The entry body an operation appends to the chain of [s], and its balance changes. *)
Definition usage_body (r : UsageRecord) : EntryBody := {|
  eb_PrevHash := ur_PrevHash r; eb_Seq := ur_Seq r; eb_Kind := ENTRY_KIND_USAGE;
  eb_ConsumerId := ur_ConsumerID r; eb_SeederId := ur_SeederID r; eb_Model := ur_Model r;
  eb_InputTokens := ur_InputTokens r; eb_OutputTokens := ur_OutputTokens r;
  eb_CostCredits := ur_CostCredits r; eb_Timestamp := ur_Timestamp r;
  eb_RequestId := ur_RequestID r;
  eb_Flags := if ur_ConsumerSigMissing r then 1 else 0; eb_Ref := zero_bytes 32 |}.

(** The three kinds with no usage data. *)
Definition plain_body (k : EntryKind) (prev : bytes) (seq : Z) (id : bytes) (amount ts : Z)
    (ref : bytes) : EntryBody := {|
  eb_PrevHash := prev; eb_Seq := seq; eb_Kind := k; eb_ConsumerId := id;
  eb_SeederId := zero_bytes 32; eb_Model := ""; eb_InputTokens := 0; eb_OutputTokens := 0;
  eb_CostCredits := amount; eb_Timestamp := ts; eb_RequestId := zero_bytes 16;
  eb_Flags := 0; eb_Ref := ref |}.

Definition op_body (op : LedgerOp) (s : Store) : EntryBody :=
  match op with
  | OpAppendUsage r => usage_body r
  | OpAppendTransferOut r =>
      plain_body ENTRY_KIND_TRANSFER_OUT (tor_PrevHash r) (tor_Seq r) (tor_ConsumerID r)
        (tor_Amount r) (tor_Timestamp r) (tor_TransferRef r)
  | OpAppendTransferIn r =>
      plain_body ENTRY_KIND_TRANSFER_IN (tir_PrevHash r) (tir_Seq r) (zero_bytes 32)
        (tir_Amount r) (tir_Timestamp r) (tir_TransferRef r)
  | OpIssueStarterGrant now id amount =>
      let '(prev, seq) := nextTip (tip_of s) in
      plain_body ENTRY_KIND_STARTER_GRANT prev seq id amount (unixSecondsU now) (zero_bytes 32)
  end.

Definition op_deltas (op : LedgerOp) : list balanceDelta :=
  match op with
  | OpAppendUsage r => [Build_balanceDelta (ur_ConsumerID r) (- ur_CostCredits r);
                        Build_balanceDelta (ur_SeederID r) (ur_CostCredits r)]
  | OpAppendTransferOut r => [Build_balanceDelta (tor_ConsumerID r) (- tor_Amount r)]
  | OpAppendTransferIn r => [Build_balanceDelta (tir_IdentityID r) (tir_Amount r)]
  | OpIssueStarterGrant _ id amount => [Build_balanceDelta id amount]
  end.

(** ** Atomicity *)

Section atomicity.
Context `{Crypto} `{Wire}.
Variable key : bytes.

#[global] Instance AppendEntry_ErrKeeps io i : ErrKeeps (AppendEntry io i).
Proof. intros s e s'. apply AppendEntry_Err. Qed.

#[global] Instance checkPreFilled_ReadOnly io body : ReadOnly (checkPreFilled io body).
Proof. apply gbind_ReadOnly; [apply _|]. intros a. destruct (nextTip a). apply _. Qed.

#[global] Instance checkSingleUse_ReadOnly io body : ReadOnly (checkSingleUse io body).
Proof. unfold checkSingleUse. destruct (eb_Kind body); apply _. Qed.

#[global] Instance checkParticipants_ReadOnly i body : ReadOnly (checkParticipants i body).
Proof. unfold checkParticipants. destruct (in_participantSigsPreVerified i); apply _. Qed.

#[global] Instance appendLocked_ErrKeeps io i vpf : ErrKeeps (appendLocked key io i vpf).
Proof.
  unfold appendLocked. destruct (in_body i) as [body|]; [|apply _].
  apply gbind_ErrKeeps; [destruct vpf; apply _|intros _].
  apply gbind_ErrKeeps; [destruct (ValidateEntryBody _); apply _|apply _].
Qed.

#[global] Instance appendEntry_ErrKeeps io i : ErrKeeps (appendEntry key io i).
Proof. apply _. Qed.

#[global] Instance appendEntryWithBuilder_ErrKeeps io now build :
  ErrKeeps (appendEntryWithBuilder key io now build).
Proof.
  unfold appendEntryWithBuilder. apply gbind_ErrKeeps; [apply _|].
  intros t. destruct (nextTip t). apply _.
Qed.

#[global] Instance runLedgerOp_ErrKeeps io op : ErrKeeps (runLedgerOp key io op).
Proof. destruct op; apply _. Qed.
End atomicity.
