(* ===== verification/LedgerSpec.v ===== *)
(** The correctness of the ledger orchestrator (Ledger.v): what a successful append did,
    the invariant of every reachable database, and the properties of the four public
    operations. *)
From S2P Require Import Prelude Proto Signing Entry Storage Ledger.

(** ** What a successful append did *)

Definition single_use (body : EntryBody) (rows : list EntryRow) : Prop :=
  (eb_Kind body = ENTRY_KIND_USAGE → eb_RequestId body ∉ usage_ids rows) ∧
  (eb_Kind body = ENTRY_KIND_TRANSFER_OUT ∨ eb_Kind body = ENTRY_KIND_TRANSFER_IN →
   eb_Ref body ∉ transfer_refs (eb_Kind body) rows).

Definition update_ok (b : BalanceUpdate) : Prop :=
  length (bu_IdentityID b) = 32%nat ∧ bu_LastSeq b < 2 ^ 63 ∧ bu_UpdatedAt b < 2 ^ 63.

(** One successful append: the entry [e] of [body] becomes the row [row] and the balance
    rows [bals] replace the old ones. *)
Record appended `{Crypto} `{Wire} (key : bytes) (io : Faults) (i : appendInput)
    (body : EntryBody) (c ts : bytes) (bals : list BalanceUpdate) (e : Entry) (s s' : Store)
    : Prop := {
  app_body : in_body i = Some body;
  app_entry : e = Build_Entry (Some body) (in_consumerSig i) (in_seederSig i) ts;
  app_valid : ValidateEntryBody (Some body) = None;
  app_single : single_use body (entries s);
  app_marshal : marshal_EntryBody body = Some c;
  app_sig : SignEntry key (Some body) = Ok ts;
  app_deltas : applyDeltas io (eb_Seq body) (eb_Timestamp body) (in_deltas i) s = Ok bals;
  app_bounds : eb_Seq body < 2 ^ 63 ∧ eb_CostCredits body < 2 ^ 63 ∧ eb_Timestamp body < 2 ^ 63;
  app_fresh : ∀ x, x ∈ entries s → row_seq x ≠ eb_Seq body ∧ row_hash x ≠ sha256 c;
  app_updates : Forall update_ok bals;
  app_effect : s' = all_upserts bals (set_entries (insert_row (row_of e body (sha256 c) c)) s)
}.

#[global] Arguments app_body {_ _ _ _ _ _ _ _ _ _ _ _} _.
#[global] Arguments app_entry {_ _ _ _ _ _ _ _ _ _ _ _} _.
#[global] Arguments app_valid {_ _ _ _ _ _ _ _ _ _ _ _} _.
#[global] Arguments app_single {_ _ _ _ _ _ _ _ _ _ _ _} _.
#[global] Arguments app_marshal {_ _ _ _ _ _ _ _ _ _ _ _} _.
#[global] Arguments app_sig {_ _ _ _ _ _ _ _ _ _ _ _} _.
#[global] Arguments app_deltas {_ _ _ _ _ _ _ _ _ _ _ _} _.
#[global] Arguments app_bounds {_ _ _ _ _ _ _ _ _ _ _ _} _.
#[global] Arguments app_fresh {_ _ _ _ _ _ _ _ _ _ _ _} _.
#[global] Arguments app_updates {_ _ _ _ _ _ _ _ _ _ _ _} _.
#[global] Arguments app_effect {_ _ _ _ _ _ _ _ _ _ _ _} _.

Lemma existsb_row {A} (P : A → Prop) `{∀ x, Decision (P x)} (h : A → bytes) l b :
  existsb (λ r, bool_decide (P r) && bool_decide (h r = b)) l = false →
  b ∉ h <$> filter P l.
Proof.
  intros He Hin. apply list_elem_of_fmap in Hin as (r & -> & Hr).
  apply list_elem_of_filter in Hr as [Hp Hr].
  apply not_true_iff_false in He. apply He, existsb_exists. exists r.
  split; [by apply list_elem_of_In|]. by rewrite !bool_decide_eq_true_2.
Qed.

Section append.
Context `{CryptoLaws} `{Wire}.
Variable key : bytes.

Lemma checkSingleUse_Ok io body s u s1 :
  checkSingleUse io body s = (Ok u, s1) → s1 = s ∧ single_use body (entries s).
Proof.
  unfold checkSingleUse, single_use, storeRead, HasUsageRequestID, HasTransferRef.
  intros Hc. destruct (eb_Kind body) eqn:Ek; try (go_run Hc; naive_solver);
    go_run Hc; go_run Hc; go_inv E; (split; [done|]); split; try naive_solver;
    intros _; by eapply existsb_row.
Qed.

Lemma checkPreFilled_Ok io body s u s1 :
  checkPreFilled io body s = (Ok u, s1) →
  s1 = s ∧ nextTip (tip_of s) = (eb_PrevHash body, eb_Seq body).
Proof.
  unfold checkPreFilled, storeRead, Tip. intros Hc. go_run Hc. go_inv E.
  fold (tip_of s) in *. destruct (nextTip (tip_of s)) as [p q].
  go_run Hc. bool_to_prop. split; [done|]. congruence.
Qed.

Lemma appendLocked_Ok io i vpf s e s' :
  appendLocked key io i vpf s = (Ok e, s') →
  ∃ body c ts bals, appended key io i body c ts bals e s s' ∧
    (vpf = true → nextTip (tip_of s) = (eb_PrevHash body, eb_Seq body)).
Proof.
  unfold appendLocked. intros Ha. destruct (in_body i) as [body|] eqn:Eb; [|done].
  apply gbind_Ok in Ha as (u & s1 & Hpre & Ha).
  assert (s1 = s ∧ (vpf = true → nextTip (tip_of s) = (eb_PrevHash body, eb_Seq body)))
    as [-> Htip].
  { destruct vpf; [apply checkPreFilled_Ok in Hpre as [-> ?]; done|].
    by apply gret_Ok in Hpre as [_ ->]. }
  apply gbind_Ok in Ha as (u1 & s1 & Hval & Ha).
  destruct (ValidateEntryBody (Some body)) as [|] eqn:Ev; [done|].
  apply gret_Ok in Hval as [_ ->].
  apply gbind_Ok in Ha as (u2 & s1 & [-> Hsu]%checkSingleUse_Ok & Ha).
  apply gbind_Ok in Ha as (u3 & s1 & Hp & Ha).
  pose proof (read_only (m:=checkParticipants i body) s) as Hro. rewrite Hp in Hro.
  simpl in Hro. subst s1.
  go_run Ha. go_run Ha. go_run Ha. go_run Ha. apply gret_Ok in Ha as [-> ->].
  apply AppendEntry_Ok in E2 as (e' & body' & c & He & Hb & _ & Hm & _ & Hs1 & Hs2 & Hs3 & Hv & Hf & ->).
  cbn [ai_Entry ai_Hash ai_Balances ent_Body] in *. simplify_eq. cbn [ent_Body] in *. simplify_eq.
  assert (a1 = sha256 c) as -> by (unfold Hash in E1; rewrite Hm in E1; congruence).
  rewrite violates_unique_false in Hv.
  exists body', c, a, a0. split; [|done]. by constructor.
Qed.

Lemma signedAmount_Ok z a : 0 <= z → signedAmount z = Ok a → a = z ∧ 0 <= z <= MaxInt64.
Proof.
  unfold signedAmount. intros Hz Ha. destruct (MaxInt64 <? z) eqn:E; [done|].
  bool_to_prop. assert (a = i64 z) as -> by congruence.
  rewrite i64_id by (unfold is_i64, MaxInt64 in *; lia). lia.
Qed.

Lemma i64_opp z : 0 <= z <= MaxInt64 → i64 (- z) = - z.
Proof. intros Hz. apply i64_id. unfold is_i64, MaxInt64 in *. lia. Qed.

(** Every public operation is one locked append, on a body at the tip, with the balance
    changes of its kind. *)
Lemma runLedgerOp_append io op s e s' :
  op_typed op → runLedgerOp key io op s = (Ok e, s') →
  deltas_for (op_body op s) (op_deltas op) ∧
  ∃ i vpf, in_body i = Some (op_body op s) ∧ in_deltas i = op_deltas op ∧
    appendLocked key io i vpf s = (Ok e, s') ∧
    (vpf = false → nextTip (tip_of s) = (eb_PrevHash (op_body op s), eb_Seq (op_body op s))).
Proof.
  destruct op as [r|r|r|now id amount]; cbn [runLedgerOp op_body op_deltas op_typed]; intros Ht Ho.
  - unfold AppendUsage in Ho. do 6 go_run Ho.
    unfold BuildUsageEntry in E4. destruct (bool_decide _); [done|].
    apply validated_Ok in E4 as [-> _].
    apply signedAmount_Ok in E3 as [-> Hc]; [|unfold is_u64 in Ht; lia].
    split; [done|]. eexists _, true. split; [|split; [|split; [exact Ho|done]]]; [done|].
    simpl. by rewrite i64_opp.
  - unfold AppendTransferOut in Ho. do 3 go_run Ho. cbv zeta in Ho. do 4 go_run Ho.
    apply validated_Ok in E5 as [-> _].
    apply signedAmount_Ok in E1 as [-> Hc]; [|unfold is_u64 in Ht; lia].
    split; [done|]. eexists _, true. split; [|split; [|split; [exact Ho|done]]]; [done|].
    simpl. by rewrite i64_opp.
  - unfold AppendTransferIn in Ho. do 3 go_run Ho.
    apply validated_Ok in E1 as [-> _].
    apply signedAmount_Ok in E0 as [-> Hc]; [|unfold is_u64 in Ht; lia].
    split; [split; simpl; eauto|].
    eexists _, true. split; [|split; [|split; [exact Ho|done]]]; done.
  - unfold IssueStarterGrant, appendEntryWithBuilder in Ho. do 4 go_run Ho.
    unfold storeRead, Tip in E2. go_inv E2. fold (tip_of s) in *.
    destruct (nextTip (tip_of s)) as [p q] eqn:Et. go_run Ho.
    unfold buildStarterGrant in E2. destruct (BuildStarterGrantEntry _) as [b|] eqn:Eb; [|done].
    apply validated_Ok in Eb as [-> _].
    apply signedAmount_Ok in E1 as [-> Hc]; [|unfold is_u64 in Ht; lia].
    simplify_eq. split; [done|]. eexists _, false.
    split; [|split; [|split; [exact Ho|done]]]; done.
Qed.
End append.

(** ** Balance arithmetic *)

Lemma msum_insert_total `{Countable K} {V} (f : V → Z) (m : gmap K V) k v :
  msum f (<[k := v]> m) = msum f m - from_option f 0 (m !! k) + f v.
Proof.
  rewrite msum_insert. destruct (m !! k) as [w|] eqn:Ew; simpl.
  - rewrite (msum_delete f m k w Ew). lia.
  - rewrite msum_delete_None by done. lia.
Qed.

Lemma total_upsert b s :
  total_credits (upsert_balance b s) =
  total_credits s - credits s (bu_IdentityID b) + bu_Credits b.
Proof. exact (msum_insert_total br_Credits (balances s) _ _). Qed.

Lemma credits_upsert b s id :
  credits (upsert_balance b s) id =
  if decide (bu_IdentityID b = id) then bu_Credits b else credits s id.
Proof.
  unfold credits. simpl. destruct (decide _) as [->|Hne].
  - by rewrite lookup_insert_eq.
  - by rewrite lookup_insert_ne.
Qed.

Lemma Balance_credits io id s b f : Balance io id s = Ok (b, f) → br_Credits b = credits s id.
Proof.
  unfold Balance, credits. destruct (io _); [done|]. intros Hb.
  destruct (balances s !! id) as [x|]; by simplify_eq.
Qed.

(** An update that is not refused is exact: an [int64] sum that wraps is negative. *)
Lemma i64_credit_exact cur d :
  0 <= cur <= MaxInt64 → - MaxInt64 <= d <= MaxInt64 → 0 <= i64 (cur + d) →
  i64 (cur + d) = cur + d.
Proof.
  intros Hc Hd Hi. destruct (Z_lt_le_dec d 0) as [Hn|Hp].
  - apply i64_id. unfold is_i64, MaxInt64 in *. lia.
  - destruct (i64_add_nonneg cur d); lia.
Qed.

Definition new_update (seq ts : Z) (s : Store) (d : balanceDelta) : BalanceUpdate :=
  {| bu_IdentityID := bd_identityID d; bu_Credits := credits s (bd_identityID d) + bd_delta d;
     bu_LastSeq := seq; bu_UpdatedAt := ts |}.

Definition balances_bounded (s : Store) : Prop := ∀ id, 0 <= credits s id <= MaxInt64.

Lemma applyDeltas_Ok io seq ts ds s bals :
  balances_bounded s → Forall (λ d, - MaxInt64 <= bd_delta d <= MaxInt64) ds →
  applyDeltas io seq ts ds s = Ok bals →
  bals = new_update seq ts s <$> ds ∧
  Forall (λ d, 0 <= credits s (bd_identityID d) + bd_delta d <= MaxInt64) ds.
Proof.
  intros Hb Hd. revert bals. induction Hd as [|d ds Hd _ IH]; simpl; intros bals Ha.
  - by simplify_eq.
  - destruct (Balance _ _ _) as [[cur f]|] eqn:Ebal; [|done].
    apply Balance_credits in Ebal. rewrite Ebal in Ha.
    destruct (_ <? 0) eqn:En; [done|]. bool_to_prop.
    destruct (applyDeltas _ _ _ ds s) as [out|]; [|done].
    assert (i64 (credits s (bd_identityID d) + bd_delta d)
            = credits s (bd_identityID d) + bd_delta d) as Hi
      by (apply i64_credit_exact; auto).
    rewrite Hi in Ha. destruct (IH out eq_refl) as [-> Hf].
    assert (bals = new_update seq ts s d :: (new_update seq ts s <$> ds)) as ->
      by (unfold new_update at 1; congruence).
    split; [done|]. constructor; [|done].
    pose proof (i64_range (credits s (bd_identityID d) + bd_delta d)). rewrite Hi in *.
    unfold is_i64, MaxInt64 in *. lia.
Qed.

Lemma deltas_for_bounded body ds :
  deltas_for body ds → Forall (λ d, - MaxInt64 <= bd_delta d <= MaxInt64) ds.
Proof.
  unfold deltas_for. intros [Hc Hk].
  destruct (eb_Kind body); try done; [subst|subst|destruct Hk as [id ->]|subst];
    repeat constructor; simpl; lia.
Qed.

Lemma ledger_inv_bounded `{Crypto} `{Wire} key s : ledger_inv key s → balances_bounded s.
Proof.
  intros Hi id. unfold credits. destruct (balances s !! id) as [b|] eqn:Eb; simpl.
  - by destruct (inv_balances Hi _ _ Eb) as (_ & _ & ? & _).
  - unfold MaxInt64. lia.
Qed.

(** The effect of the balance rows of one append on the total. *)
Lemma total_after_deltas body ds seq ts s s1 row :
  balances s1 = balances s → deltas_for body ds →
  row_kind row = eb_Kind body → row_cost_credits row = eb_CostCredits body →
  row_consumer_id row = eb_ConsumerId body → row_seeder_id row = eb_SeederId body →
  total_credits (all_upserts (new_update seq ts s <$> ds) s1) = total_credits s + row_supply row.
Proof.
  intros Hb [_ Hd] Hk Hc Hci Hsi.
  assert (total_credits s1 = total_credits s) as Ht by (unfold total_credits; by rewrite Hb).
  assert (∀ id, credits s1 id = credits s id) as Hcr by (intros; unfold credits; by rewrite Hb).
  unfold row_supply. rewrite Hk, Hc, Hci, Hsi.
  destruct (eb_Kind body); try done; [|subst|destruct Hd as [id ->]|subst];
    [subst ds| | |]; unfold all_upserts; simpl; rewrite !total_upsert, ?credits_upsert; simpl;
    rewrite !Hcr, Ht; try lia.
  rewrite decide_bool_decide. case_bool_decide as He; [rewrite He|]; lia.
Qed.

(** ** The chain *)

Definition chain_last (prev : bytes) (rows : list EntryRow) : bytes :=
  default prev (row_hash <$> last rows).

Lemma chain_last_cons prev r rows : chain_last prev (r :: rows) = chain_last (row_hash r) rows.
Proof.
  unfold chain_last. destruct rows as [|x rows _] using rev_ind; [done|].
  by rewrite app_comm_cons, !last_snoc.
Qed.

Lemma chain_from_snoc prev seq rows r :
  chain_from prev seq (rows ++ [r]) ↔
  chain_from prev seq rows ∧ row_prev_hash r = chain_last prev rows ∧ row_seq r = seq + blen rows.
Proof.
  revert prev seq. induction rows as [|x rows IH]; intros prev seq; simpl.
  - unfold chain_last, blen. simpl. rewrite Z.add_0_r. tauto.
  - rewrite IH, chain_last_cons, blen_cons.
    replace (seq + 1 + blen rows) with (seq + (blen rows + 1)) by lia. tauto.
Qed.

Lemma chain_from_seq prev seq rows r :
  chain_from prev seq rows → r ∈ rows → seq <= row_seq r < seq + blen rows.
Proof.
  revert prev seq. induction rows as [|x rows IH]; intros prev seq Hc Hr.
  - by apply not_elem_of_nil in Hr.
  - destruct Hc as (_ & Hs & Hc). rewrite blen_cons.
    assert (0 <= blen rows) by (unfold blen; lia).
    apply elem_of_cons in Hr as [->|Hr]; [lia|]. specialize (IH _ _ Hc Hr). lia.
Qed.

(** The next [(prev_hash, seq)] the ledger hands out for a chain that is intact. *)
Lemma nextTip_chain s :
  chain_from (zero_bytes 32) 1 (entries s) → blen (entries s) < 2 ^ 63 →
  nextTip (tip_of s) = (chain_last (zero_bytes 32) (entries s), blen (entries s) + 1).
Proof.
  intros Hc Hl. unfold tip_of, chain_last.
  destruct (entries s) as [|r rows _] using rev_ind; [done|].
  rewrite last_snoc. simpl. apply chain_from_snoc in Hc as (_ & _ & Hs).
  rewrite blen_snoc in *. rewrite Hs, u64_id; [f_equal; lia|].
  unfold is_u64. assert (0 <= blen rows) by (unfold blen; lia). lia.
Qed.

Lemma usage_ids_snoc rows r :
  usage_ids (rows ++ [r]) =
  usage_ids rows ++ (if decide (row_kind r = ENTRY_KIND_USAGE) then [row_request_id r] else []).
Proof.
  unfold usage_ids. rewrite filter_app, fmap_app. f_equal.
  rewrite filter_cons. by destruct (decide _).
Qed.

Lemma transfer_refs_snoc k rows r :
  transfer_refs k (rows ++ [r]) =
  transfer_refs k rows ++ (if decide (row_kind r = k) then [row_ref r] else []).
Proof.
  unfold transfer_refs. rewrite filter_app, fmap_app. f_equal.
  rewrite filter_cons. by destruct (decide _).
Qed.

Lemma NoDup_snoc_if {A} (P : Prop) `{Decision P} (l : list A) x :
  NoDup l → (P → x ∉ l) → NoDup (l ++ (if decide P then [x] else [])).
Proof.
  intros Hl Hx. destruct (decide P) as [HP|]; [|by rewrite app_nil_r].
  apply NoDup_app. split_and!; [done| |apply NoDup_singleton].
  intros y Hy ->%list_elem_of_singleton. by apply (Hx HP).
Qed.

Lemma all_upserts_lookup bs s id b :
  balances (all_upserts bs s) !! id = Some b →
  balances s !! id = Some b ∨
  ∃ u, u ∈ bs ∧ b = Build_BalanceRow (bu_IdentityID u) (bu_Credits u) (bu_LastSeq u) (bu_UpdatedAt u)
     ∧ id = bu_IdentityID u.
Proof.
  revert s. induction bs as [|u bs IH]; intros s Hb; [by left|].
  apply (IH (upsert_balance u s)) in Hb as [Hb|(v & Hv & Hr)].
  - simpl in Hb. apply lookup_insert_Some in Hb as [[<- <-]|[_ Hb]]; [|by left].
    right. exists u. split_and!; [left|done..].
  - right. exists v. split; [by right|done].
Qed.

Section invariant.
Context `{CryptoLaws} `{Wire}.
Variable key : bytes.

(** One append on a chain that is intact, with the balance changes of its kind. *)
(** The row an append adds is the tracker's, and fits the columns' uniqueness. *)
Lemma appended_row io i body c ts bals e s s' :
  appended key io i body c ts bals e s s' →
  row_of_entry key e (row_of e body (sha256 c) c).
Proof.
  intros Ha. exists body, c. rewrite (app_entry Ha). split_and!; try done; try apply Ha.
  eapply VerifyEntry_SignEntry, Ha.
Qed.

(** The balance rows after an append are old rows or the updates just computed. *)
Lemma appended_balances io i body c ts bals e s s' :
  ledger_inv key s → appended key io i body c ts bals e s s' → eb_Seq body = blen (entries s) + 1 →
  bals = new_update (eb_Seq body) (eb_Timestamp body) s <$> in_deltas i →
  Forall (λ d, 0 <= credits s (bd_identityID d) + bd_delta d <= MaxInt64) (in_deltas i) →
  ∀ id b, balances s' !! id = Some b → balance_ok (blen (entries s) + 1) id b.
Proof.
  intros Hi Ha Hseq Hbals Hnew id b Hb. rewrite (app_effect Ha) in Hb.
  apply all_upserts_lookup in Hb as [Hb|(u & Hin & -> & ->)].
  - destruct (inv_balances Hi _ _ Hb) as (? & ? & ? & ?). unfold balance_ok. split_and!; try done; lia.
  - pose proof (app_updates Ha) as Hup.
    rewrite Forall_forall in Hup. destruct (Hup _ Hin) as (Hl & _ & _).
    rewrite Hbals in Hin. apply list_elem_of_fmap in Hin as (d & -> & Hin).
    rewrite Forall_forall in Hnew. specialize (Hnew _ Hin).
    assert (0 <= blen (entries s)) by (unfold blen; lia).
    unfold balance_ok, new_update in *. simpl in *. split_and!; try done; lia.
Qed.

Lemma appended_inv io i body c ts bals e s s' :
  ledger_inv key s → deltas_for body (in_deltas i) →
  nextTip (tip_of s) = (eb_PrevHash body, eb_Seq body) →
  appended key io i body c ts bals e s s' →
  ledger_inv key s' ∧
  entries s' = entries s ++ [row_of e body (sha256 c) c] ∧
  bals = new_update (eb_Seq body) (eb_Timestamp body) s <$> in_deltas i.
Proof.
  intros Hi Hd Htip Ha.
  assert (balances_bounded s) as Hbd by by eapply ledger_inv_bounded.
  destruct (applyDeltas_Ok _ _ _ _ _ _ Hbd (deltas_for_bounded _ _ Hd) (app_deltas Ha))
    as [Hbals Hnew].
  rewrite (nextTip_chain _ (inv_chain Hi) (inv_seq Hi)) in Htip.
  injection Htip as Hprev Hseq.
  pose proof (app_bounds Ha) as (Hb1 & Hb2 & Hb3).
  set (row := row_of e body (sha256 c) c).
  assert (entries s' = entries s ++ [row]) as Hent.
  { rewrite (app_effect Ha).
    rewrite (proj1 (all_upserts_frame _ _)), entries_set_entries. fold row.
    apply insert_row_snoc, Forall_forall. intros x Hx.
    apply (chain_from_seq _ _ _ _ (inv_chain Hi)) in Hx.
    change (row_seq row) with (eb_Seq body). lia. }
  split; [|done].
  assert (0 <= blen (entries s)) as Hpos by (unfold blen; lia).
  pose proof (app_single Ha) as [Hu Hr].
  constructor; rewrite ?Hent.
  - apply chain_from_snoc. split_and!; [apply Hi|done|]. change (row_seq row) with (eb_Seq body). lia.
  - apply Forall_app. split; [apply Hi|]. repeat constructor. exists e. by eapply appended_row.
  - rewrite blen_snoc. lia.
  - rewrite usage_ids_snoc. apply NoDup_snoc_if; [apply Hi|exact Hu].
  - rewrite transfer_refs_snoc. apply NoDup_snoc_if; [apply Hi|].
    intros Hk. change (eb_Kind body = ENTRY_KIND_TRANSFER_OUT) in Hk.
    rewrite Hk in Hr. apply Hr. by left.
  - rewrite transfer_refs_snoc. apply NoDup_snoc_if; [apply Hi|].
    intros Hk. change (eb_Kind body = ENTRY_KIND_TRANSFER_IN) in Hk.
    rewrite Hk in Hr. apply Hr. by right.
  - intros id b. rewrite blen_snoc. eapply appended_balances; [done|exact Ha|lia|done|done].
  - rewrite lsum_app, (app_effect Ha), Hbals.
    rewrite (total_after_deltas body _ _ _ s _ row) by done.
    rewrite (inv_supply Hi). simpl. lia.
Qed.
End invariant.

(** The balance of each identity after the rows of one append are written: the last
  delta that names it counts. *)
Lemma credits_after_deltas seq ts s s1 ds id :
  balances s1 = balances s →
  credits (all_upserts (new_update seq ts s <$> ds) s1) id =
  match List.find (λ d, bool_decide (bd_identityID d = id)) (rev ds) with
  | Some d => credits s id + bd_delta d
  | None => credits s id
  end.
Proof.
  intros Hb. induction ds as [|d ds IH] using rev_ind.
  - simpl. unfold credits. by rewrite Hb.
  - rewrite fmap_app, rev_app_distr. unfold all_upserts. rewrite foldl_app. simpl.
    rewrite credits_upsert. simpl. rewrite decide_bool_decide.
    case_bool_decide as Hd; [by rewrite Hd|]. exact IH.
Qed.

(** ** Reachable databases *)

Section reachable.
Context `{CryptoLaws} `{Wire}.
Variable key : bytes.

Lemma ledger_inv_empty : ledger_inv key empty_store.
Proof. constructor; simpl; try done; try constructor. Qed.

Lemma ledger_inv_frame s s' :
  entries s' = entries s → balances s' = balances s → ledger_inv key s → ledger_inv key s'.
Proof. intros He Hb [? ? ? ? ? ? ? Hs]. constructor; unfold total_credits in *; by rewrite ?He, ?Hb. Qed.

(** An operation that succeeds appends one entry at the tip, with the balance changes
    of its kind, and keeps the invariant. *)
Lemma runLedgerOp_Ok io op s e s' :
  ledger_inv key s → op_typed op → runLedgerOp key io op s = (Ok e, s') →
  let body := op_body op s in
  deltas_for body (op_deltas op) ∧
  nextTip (tip_of s) = (eb_PrevHash body, eb_Seq body) ∧
  ∃ i c ts, in_deltas i = op_deltas op ∧
    appended key io i body c ts
      (new_update (eb_Seq body) (eb_Timestamp body) s <$> op_deltas op) e s s' ∧
    entries s' = entries s ++ [row_of e body (sha256 c) c] ∧ ledger_inv key s'.
Proof.
  intros Hi Ht Ho body.
  apply runLedgerOp_append in Ho as (Hd & i & vpf & Hb & Hid & Ha & Htip); [|done].
  apply appendLocked_Ok in Ha as (body' & c & ts & bals & Ha & Htip').
  fold body in Hb, Htip. rewrite (app_body Ha) in Hb. apply (inj Some) in Hb as ->.
  assert (nextTip (tip_of s) = (eb_PrevHash body, eb_Seq body)) as Hn by (destruct vpf; auto).
  split; [done|]. split; [done|]. rewrite <- Hid in Hd.
  destruct (appended_inv key _ _ _ _ _ _ _ _ _ Hi Hd Hn Ha) as (Hi' & He & ->).
  exists i, c, ts. rewrite Hid in *. done.
Qed.

(** The parts of the above that the properties use. *)
Lemma runLedgerOp_effect io op s e s' :
  ledger_inv key s → op_typed op → runLedgerOp key io op s = (Ok e, s') →
  (∀ id, credits s' id =
     match List.find (λ d, bool_decide (bd_identityID d = id)) (rev (op_deltas op)) with
     | Some d => credits s id + bd_delta d
     | None => credits s id
     end) ∧
  Forall (λ d, 0 <= credits s (bd_identityID d) + bd_delta d <= MaxInt64) (op_deltas op) ∧
  (∃ c, marshal_EntryBody (op_body op s) = Some c ∧
     total_credits s' = total_credits s + row_supply (row_of e (op_body op s) (sha256 c) c)).
Proof.
  intros Hi Ht Ho. apply runLedgerOp_Ok in Ho as (Hd & _ & i & c & ts & Hid & Ha & _ & _); [|done..].
  rewrite (app_effect Ha). split_and!.
  - intros id. by apply credits_after_deltas.
  - pose proof (app_deltas Ha) as Hap. rewrite Hid in Hap.
    apply applyDeltas_Ok in Hap as [_ ?]; [done|by eapply ledger_inv_bounded|].
    by eapply deltas_for_bounded.
  - exists c. split; [apply Ha|]. by apply (total_after_deltas (op_body op s)).
Qed.

Lemma ledger_step_inv s s' : ledger_inv key s → ledger_step key s s' → ledger_inv key s'.
Proof.
  intros Hi Hs. destruct Hs as [io op s Ht|s s' He Hb]; [|by eapply ledger_inv_frame].
  destruct (runLedgerOp key io op s) as [[e|er] s'] eqn:Ho; simpl.
  - by apply runLedgerOp_Ok in Ho as (_ & _ & ? & ? & ? & _ & _ & _ & ?).
  - by rewrite (err_keeps _ _ _ Ho).
Qed.

Lemma ledger_steps_inv s s' :
  ledger_inv key s → rtc (ledger_step key) s s' → ledger_inv key s'.
Proof. intros Hi Hs. induction Hs; eauto using ledger_step_inv. Qed.

Lemma reachable_inv s : ledger_reachable key s → ledger_inv key s.
Proof. apply ledger_steps_inv, ledger_inv_empty. Qed.

(** The chain is append-only. *)
Lemma ledger_step_prefix s s' :
  ledger_inv key s → ledger_step key s s' → entries s `prefix_of` entries s'.
Proof.
  intros Hi Hs. destruct Hs as [io op s Ht|s s' He Hb]; [|by rewrite He].
  destruct (runLedgerOp key io op s) as [[e|er] s'] eqn:Ho; simpl.
  - apply runLedgerOp_Ok in Ho as (_ & _ & ? & ? & ? & _ & _ & He & _); [|done..].
    rewrite He. by eexists.
  - by rewrite (err_keeps _ _ _ Ho).
Qed.

Lemma ledger_steps_prefix s s' :
  ledger_inv key s → rtc (ledger_step key) s s' → entries s `prefix_of` entries s'.
Proof.
  intros Hi Hs. induction Hs as [|s s1 s2 Hs _ IH]; [done|].
  etrans; [by eapply ledger_step_prefix|]. apply IH. by eapply ledger_step_inv.
Qed.

End reachable.

Lemma usage_ids_app l k : usage_ids (l ++ k) = usage_ids l ++ usage_ids k.
Proof. unfold usage_ids. by rewrite filter_app, fmap_app. Qed.

Lemma usage_ids_prefix rows rows' x :
  rows `prefix_of` rows' → x ∈ usage_ids rows → x ∈ usage_ids rows'.
Proof. intros [k ->] Hx. rewrite usage_ids_app. set_solver. Qed.

Lemma transfer_refs_prefix k rows rows' x :
  rows `prefix_of` rows' → x ∈ transfer_refs k rows → x ∈ transfer_refs k rows'.
Proof.
  intros [l ->] Hx. unfold transfer_refs in *. rewrite filter_app, fmap_app. set_solver.
Qed.

Section operations.
Context `{CryptoLaws} `{Wire}.
Variable key : bytes.

Lemma AppendUsage_verified io r s e s' :
  AppendUsage key io r s = (Ok e, s') →
  VerifyUsageAssertion (ur_SeederPub r) (usage_assertion r) (ur_SeederSig r) = true ∧
  (ur_ConsumerSigMissing r = false →
   VerifyUsageAssertion (ur_ConsumerPub r) (usage_assertion r) (ur_ConsumerSig r) = true).
Proof.
  unfold AppendUsage. intros Ho. do 4 go_run Ho.
  split; [by apply negb_false_iff|]. intros Hm. rewrite Hm in E2. by apply negb_false_iff.
Qed.
End operations.

(** ** Witnesses *)

(** A tracker, two participants, and a database after a starter grant to the first. *)
Definition wkey : bytes := witness_key Byte.x07.
Definition wconsumer : bytes := replicate 32 Byte.x11.
Definition wseeder : bytes := replicate 32 Byte.x22.

Definition w_exec (io : Faults) (op : LedgerOp) (s : Store) : res LErr Entry * Store :=
  @runLedgerOp ToyCrypto ToyWire wkey io op s.

Definition w_state : Store :=
  snd (w_exec no_faults (OpIssueStarterGrant (1714000000 * Second) wconsumer 1000) empty_store).

Definition w_usage (id : byte) (consumer seeder : bytes) (cost : Z) (s : Store) : UsageRecord :=
  let '(prev, seq) := nextTip (tip_of s) in
  let r := {| ur_PrevHash := prev; ur_Seq := seq; ur_ConsumerID := consumer;
     ur_SeederID := seeder; ur_Model := "m"; ur_InputTokens := 1; ur_OutputTokens := 2;
     ur_CostCredits := cost; ur_Timestamp := 1714000100; ur_RequestID := replicate 16 id;
     ur_ConsumerSigMissing := true; ur_ConsumerSig := []; ur_ConsumerPub := [];
     ur_SeederSig := []; ur_SeederPub := [] |} in
  let sig := match @SignUsageAssertion ToyCrypto (witness_key Byte.x22) (usage_assertion r) with
             | Ok sg => sg | Err _ => [] end in
  {| ur_PrevHash := prev; ur_Seq := seq; ur_ConsumerID := consumer; ur_SeederID := seeder;
     ur_Model := "m"; ur_InputTokens := 1; ur_OutputTokens := 2; ur_CostCredits := cost;
     ur_Timestamp := 1714000100; ur_RequestID := replicate 16 id; ur_ConsumerSigMissing := true;
     ur_ConsumerSig := []; ur_ConsumerPub := []; ur_SeederSig := sig;
     ur_SeederPub := replicate 32 Byte.x22 |}.

Lemma w_state_reachable : @ledger_reachable ToyCrypto ToyWire wkey w_state.
Proof.
  apply rtc_once. apply (@step_op ToyCrypto ToyWire wkey no_faults
    (OpIssueStarterGrant (1714000000 * Second) wconsumer 1000) empty_store).
  vm_compute. split; [discriminate|reflexivity].
Qed.

(** ** Properties *)

(** C1: chain integrity. In every database the tracker can reach, through any sequence of
    ledger operations with any arguments and any database failures, the entries are
    numbered 1, 2, 3, ..., each one's prev_hash is the hash of the one before (zeros at
    the start), every stored hash and canonical form is that of the stored body, every
    body is valid for its kind and carries a tracker signature that verifies, USAGE
    request ids and the transfer refs of each direction are unique, every balance is
    between 0 and 2^63-1, and the total credit is the sum of what the entries stand for. *)
Theorem ledger_integrity `{CryptoLaws} `{Wire} key s :
  ledger_reachable key s → ledger_inv key s.
Proof. apply reachable_inv. Qed.

Lemma ledger_integrity_witness :
  @ledger_inv ToyCrypto ToyWire wkey w_state ∧ blen (entries w_state) = 1.
Proof.
  split; [|vm_compute; reflexivity].
  apply (@ledger_integrity ToyCrypto ToyCryptoLaws ToyWire wkey w_state w_state_reachable).
Defined.

(** C33: an operation that returns an error, whatever the error and whichever database call
    failed, leaves the whole database as it was: no entry without its balance changes and
    no balance change without its entry. *)
Theorem ledger_op_atomic `{Crypto} `{Wire} key io op s e s' :
  runLedgerOp key io op s = (Err e, s') → s' = s.
Proof. apply runLedgerOp_ErrKeeps. Qed.

(** The commit of a grant fails after both tables were written. *)
Lemma ledger_op_atomic_witness :
  let io op := match op with DbCommit => true | _ => false end in
  fst (w_exec io (OpIssueStarterGrant (1714000000 * Second) wconsumer 1000) empty_store)
    = Err (ErrStore "ledger: append" (ErrDb DbCommit)) ∧
  snd (w_exec io (OpIssueStarterGrant (1714000000 * Second) wconsumer 1000) empty_store) = empty_store.
Proof.
  intros io. split; [vm_compute; reflexivity|].
  apply (@ledger_op_atomic ToyCrypto ToyWire wkey io
    (OpIssueStarterGrant (1714000000 * Second) wconsumer 1000) empty_store
    (ErrStore "ledger: append" (ErrDb DbCommit))).
  vm_compute. reflexivity.
Defined.

(** C2: settlement conserves credit. A USAGE entry between two identities that [AppendUsage]
    accepts debits the consumer and credits the seeder by the cost, changes no other
    balance and leaves the total; the debit was covered; the seeder's signature over the
    usage assertion verifies, and the consumer's does unless the entry is flagged. *)
Theorem AppendUsage_conserves `{CryptoLaws} `{Wire} key io r s e s' :
  ledger_reachable key s → op_typed (OpAppendUsage r) → ur_ConsumerID r ≠ ur_SeederID r →
  AppendUsage key io r s = (Ok e, s') →
  (∀ id, credits s' id = credits s id
     + (if decide (id = ur_SeederID r) then ur_CostCredits r
        else if decide (id = ur_ConsumerID r) then - ur_CostCredits r else 0)) ∧
  total_credits s' = total_credits s ∧
  ur_CostCredits r <= credits s (ur_ConsumerID r) ∧
  VerifyUsageAssertion (ur_SeederPub r) (usage_assertion r) (ur_SeederSig r) = true ∧
  (ur_ConsumerSigMissing r = false →
   VerifyUsageAssertion (ur_ConsumerPub r) (usage_assertion r) (ur_ConsumerSig r) = true).
Proof.
  intros Hr Ht Hne Ho. apply reachable_inv in Hr.
  apply AppendUsage_verified in Ho as Hv.
  destruct (runLedgerOp_effect key io (OpAppendUsage r) _ _ _ Hr Ht Ho) as (Hc & Hf & m & _ & Htot).
  split_and!; [| | |apply Hv..].
  - intros id. rewrite Hc. simpl.
    repeat case_bool_decide; repeat case_decide; simplify_eq/=; lia.
  - rewrite Htot. unfold row_supply. simpl. rewrite bool_decide_eq_false_2 by done. lia.
  - apply Forall_cons in Hf as [Hf _]. simpl in Hf. lia.
Qed.

Lemma AppendUsage_conserves_witness :
  let r := w_usage Byte.x33 wconsumer wseeder 30 w_state in
  ∃ e s', @AppendUsage ToyCrypto ToyWire wkey no_faults r w_state = (Ok e, s') ∧
    credits s' wseeder = credits w_state wseeder + 30 ∧
    total_credits s' = total_credits w_state.
Proof.
  intros r.
  assert (Ht : op_typed (OpAppendUsage r)).
  { unfold r, w_usage. destruct (nextTip (tip_of w_state)). vm_compute. repeat split; discriminate. }
  assert (Hne : ur_ConsumerID r ≠ ur_SeederID r).
  { unfold r, w_usage. destruct (nextTip (tip_of w_state)). vm_compute. discriminate. }
  destruct (@AppendUsage ToyCrypto ToyWire wkey no_faults r w_state) as [[e|e] s'] eqn:E.
  - exists e, s'. split; [reflexivity|].
    destruct (@AppendUsage_conserves ToyCrypto ToyCryptoLaws ToyWire wkey no_faults r w_state
                e s' w_state_reachable Ht Hne E) as (Hc & Htot & _).
    split; [|exact Htot]. rewrite (Hc wseeder). unfold r, w_usage.
    destruct (nextTip (tip_of w_state)). vm_compute. reflexivity.
  - exfalso. assert (is_ok (fst (@AppendUsage ToyCrypto ToyWire wkey no_faults r w_state)) = true)
      as Hok by (vm_compute; reflexivity).
    rewrite E in Hok. discriminate Hok.
Defined.

(** A settlement whose consumer and seeder are one identity creates credit: the two
    balance updates are computed from the same stored row, the second replaces the first,
    and the total of the region grows by the cost. (The code does not refuse it.) *)
Lemma AppendUsage_self_dealing_mints `{CryptoLaws} `{Wire} key io r s e s' :
  ledger_reachable key s → op_typed (OpAppendUsage r) → ur_ConsumerID r = ur_SeederID r →
  AppendUsage key io r s = (Ok e, s') →
  credits s' (ur_ConsumerID r) = credits s (ur_ConsumerID r) + ur_CostCredits r ∧
  total_credits s' = total_credits s + ur_CostCredits r.
Proof.
  intros Hr Ht Heq Ho. apply reachable_inv in Hr.
  destruct (runLedgerOp_effect key io (OpAppendUsage r) _ _ _ Hr Ht Ho) as (Hc & _ & m & _ & Htot).
  split.
  - rewrite Hc. simpl. by rewrite bool_decide_eq_true_2.
  - rewrite Htot. unfold row_supply. simpl. by rewrite bool_decide_eq_true_2.
Qed.

Lemma AppendUsage_self_dealing_mints_witness :
  let r := w_usage Byte.x33 wconsumer wconsumer 30 w_state in
  ∃ e s', @AppendUsage ToyCrypto ToyWire wkey no_faults r w_state = (Ok e, s') ∧
    credits s' wconsumer = 1030.
Proof.
  intros r.
  assert (Ht : op_typed (OpAppendUsage r)) by (vm_compute; repeat split; discriminate).
  assert (Heq : ur_ConsumerID r = ur_SeederID r) by (vm_compute; reflexivity).
  destruct (@AppendUsage ToyCrypto ToyWire wkey no_faults r w_state) as [[e|e] s'] eqn:E.
  - exists e, s'. split; [reflexivity|].
    destruct (@AppendUsage_self_dealing_mints ToyCrypto ToyCryptoLaws ToyWire wkey no_faults r
                w_state e s' w_state_reachable Ht Heq E) as [Hc _].
    transitivity (credits s' (ur_ConsumerID r)); [f_equal; vm_compute; reflexivity|].
    rewrite Hc. vm_compute. reflexivity.
  - exfalso. assert (is_ok (fst (@AppendUsage ToyCrypto ToyWire wkey no_faults r w_state)) = true)
      as Hok by (vm_compute; reflexivity).
    rewrite E in Hok. discriminate Hok.
Defined.

(** A transfer out of the region is authorised by the identity it debits. When
    [AppendTransferOut] succeeds the debited identity is the SHA-256 of the presented
    key's SPKI, that key signed the transfer intent rebuilt from the record, the identity
    held the amount, and exactly that amount left its balance and the region. *)
Lemma AppendTransferOut_authorised `{CryptoLaws} `{Wire} key io r s e s' :
  ledger_reachable key s → op_typed (OpAppendTransferOut r) →
  AppendTransferOut key io r s = (Ok e, s') →
  tor_ConsumerID r = sha256 (MarshalPKIXPublicKey (tor_ConsumerPub r)) ∧
  (∃ intent, CanonicalTransferProofRequestPreSig (Some (transfer_intent r)) = Ok intent ∧
     Verify (tor_ConsumerPub r) intent (tor_ConsumerSig r) = true) ∧
  0 < tor_Amount r <= credits s (tor_ConsumerID r) ∧
  (∀ id, credits s' id = credits s id - (if decide (id = tor_ConsumerID r) then tor_Amount r else 0)) ∧
  total_credits s' = total_credits s - tor_Amount r.
Proof.
  intros Hr Ht Ho. apply reachable_inv in Hr.
  destruct (runLedgerOp_effect key io (OpAppendTransferOut r) _ _ _ Hr Ht Ho)
    as (Hc & Hf & m & _ & Htot).
  unfold AppendTransferOut in Ho. do 3 go_run Ho. cbv zeta in Ho. do 3 go_run Ho.
  bool_to_prop. apply Forall_cons in Hf as [Hf _]. simpl in Hf, Ht. unfold is_u64 in Ht.
  split_and!; [done|by eauto|lia|lia| |].
  - intros id. rewrite Hc. simpl. case_bool_decide; case_decide; simplify_eq/=; lia.
  - rewrite Htot. unfold row_supply. simpl. lia.
Qed.

Definition w_transfer_out (s : Store) : TransferOutRecord :=
  let '(prev, seq) := nextTip (tip_of s) in
  let pub := replicate 32 Byte.x33 in
  let r sig := {| tor_PrevHash := prev; tor_Seq := seq;
     tor_ConsumerID := toy_hash (MarshalPKIXPublicKey pub); tor_Amount := 40;
     tor_Timestamp := 1714000200; tor_TransferRef := replicate 32 Byte.x66;
     tor_SourceTrackerID := replicate 32 Byte.x01; tor_DestTrackerID := replicate 32 Byte.x02;
     tor_ConsumerSig := sig; tor_ConsumerPub := pub |} in
  match @CanonicalTransferProofRequestPreSig ToyWire (Some (transfer_intent (r []))) with
  | Ok m => r (@ed25519_Sign ToyCrypto (witness_key Byte.x33) m)
  | Err _ => r []
  end.

(** The database after a grant to the identity of the key that signs the transfer. *)
Definition w_grant_op : LedgerOp :=
  OpIssueStarterGrant (1714000000 * Second) (toy_hash (MarshalPKIXPublicKey (replicate 32 Byte.x33))) 100.

Definition w_state2 : Store := snd (w_exec no_faults w_grant_op w_state).

Lemma w_state2_reachable : @ledger_reachable ToyCrypto ToyWire wkey w_state2.
Proof.
  eapply rtc_r; [exact w_state_reachable|].
  apply (@step_op ToyCrypto ToyWire wkey no_faults w_grant_op w_state).
  vm_compute. split; [discriminate|reflexivity].
Qed.

Lemma AppendTransferOut_authorised_witness :
  let r := w_transfer_out w_state2 in
  ∃ e s', @AppendTransferOut ToyCrypto ToyWire wkey no_faults r w_state2 = (Ok e, s') ∧
    total_credits s' = total_credits w_state2 - 40.
Proof.
  intros r.
  assert (Ht : op_typed (OpAppendTransferOut r)) by (vm_compute; split; [discriminate|reflexivity]).
  destruct (@AppendTransferOut ToyCrypto ToyWire wkey no_faults r w_state2) as [[e|e] s'] eqn:E.
  - exists e, s'. split; [reflexivity|].
    destruct (@AppendTransferOut_authorised ToyCrypto ToyCryptoLaws ToyWire wkey no_faults r
                w_state2 e s' w_state2_reachable Ht E) as (_ & _ & _ & _ & Htot).
    rewrite Htot. f_equal.
  - exfalso.
    assert (is_ok (fst (@AppendTransferOut ToyCrypto ToyWire wkey no_faults r w_state2)) = true)
      as Hok by (vm_compute; reflexivity).
    rewrite E in Hok. discriminate Hok.
Defined.

(** The single-use key an operation consumes: the request id of a settlement, the
    reference of a transfer in one direction. *)
Inductive use_key := UseRequest (id : bytes) | UseOutRef (ref : bytes) | UseInRef (ref : bytes).

Definition op_use (op : LedgerOp) : option use_key :=
  match op with
  | OpAppendUsage r => Some (UseRequest (ur_RequestID r))
  | OpAppendTransferOut r => Some (UseOutRef (tor_TransferRef r))
  | OpAppendTransferIn r => Some (UseInRef (tir_TransferRef r))
  | OpIssueStarterGrant _ _ _ => None
  end.

Definition key_used (k : use_key) (rows : list EntryRow) : Prop :=
  match k with
  | UseRequest id => id ∈ usage_ids rows
  | UseOutRef ref => ref ∈ transfer_refs ENTRY_KIND_TRANSFER_OUT rows
  | UseInRef ref => ref ∈ transfer_refs ENTRY_KIND_TRANSFER_IN rows
  end.

Section single_use.
Context `{CryptoLaws} `{Wire}.
Variable key : bytes.

Lemma op_uses io op s e s' k :
  ledger_inv key s → op_typed op → runLedgerOp key io op s = (Ok e, s') →
  op_use op = Some k → ¬ key_used k (entries s) ∧ key_used k (entries s').
Proof.
  intros Hi Ht Ho Hk.
  apply runLedgerOp_Ok in Ho as (_ & _ & i & c & ts & _ & Ha & He & _); [|done..].
  destruct (app_single Ha) as [Hu Hr]. rewrite He.
  destruct op as [r|r|r|now id amount]; simplify_eq/=.
  - split; [by apply Hu|]. rewrite usage_ids_snoc. set_solver.
  - split; [apply Hr; by left|]. rewrite transfer_refs_snoc. set_solver.
  - split; [apply Hr; by right|]. rewrite transfer_refs_snoc. set_solver.
Qed.

Lemma key_used_prefix k rows rows' :
  rows `prefix_of` rows' → key_used k rows → key_used k rows'.
Proof. destruct k; simpl; eauto using usage_ids_prefix, transfer_refs_prefix. Qed.

Lemma no_second_use s io op e s1 k io' op' s2 :
  ledger_inv key s → op_typed op → op_typed op' →
  runLedgerOp key io op s = (Ok e, s1) → op_use op = Some k →
  rtc (ledger_step key) s1 s2 → op_use op' = Some k →
  is_ok (fst (runLedgerOp key io' op' s2)) = false.
Proof.
  intros Hi Ht Ht' Ho Hk Hs Hk'.
  destruct (op_uses _ _ _ _ _ _ Hi Ht Ho Hk) as [_ Hused].
  apply runLedgerOp_Ok in Ho as (_ & _ & _ & _ & _ & _ & _ & _ & Hi1); [|done..].
  destruct (runLedgerOp key io' op' s2) as [[e2|] s3] eqn:Ho2; [|done].
  assert (ledger_inv key s2) as Hi2 by by eapply ledger_steps_inv.
  destruct (op_uses _ _ _ _ _ _ Hi2 Ht' Ho2 Hk') as [Hno _].
  destruct Hno. eapply key_used_prefix; [|done]. by eapply ledger_steps_prefix.
Qed.
End single_use.

(** C5: no replay. Once a settlement with a request id, or a transfer with a reference in
    one direction, has been appended, no later operation carrying the same id or reference
    in that direction ever succeeds, whatever happens in between and whatever else the
    record says. *)
Theorem ledger_no_replay `{CryptoLaws} `{Wire} key s io op e s1 k s2 io' op' :
  ledger_reachable key s → op_typed op → op_typed op' →
  runLedgerOp key io op s = (Ok e, s1) → op_use op = Some k →
  rtc (ledger_step key) s1 s2 → op_use op' = Some k →
  is_ok (fst (runLedgerOp key io' op' s2)) = false.
Proof. intros Hr%reachable_inv. by apply no_second_use. Qed.

(** The first settlement in [w_state], replayed at the new tip with a lower cost. *)
Lemma ledger_no_replay_witness :
  let op := OpAppendUsage (w_usage Byte.x33 wconsumer wseeder 30 w_state) in
  let s1 := snd (w_exec no_faults op w_state) in
  let op' := OpAppendUsage (w_usage Byte.x33 wconsumer wseeder 7 s1) in
  is_ok (fst (w_exec no_faults op w_state)) = true ∧
  is_ok (fst (w_exec no_faults op' s1)) = false.
Proof.
  intros op s1 op'. split; [vm_compute; reflexivity|].
  assert (Ht : op_typed op) by (vm_compute; repeat split; discriminate).
  assert (Ht' : op_typed op') by (vm_compute; repeat split; discriminate).
  assert (Hok : is_ok (fst (w_exec no_faults op w_state)) = true) by (vm_compute; reflexivity).
  destruct (w_exec no_faults op w_state) as [[e|e] s'] eqn:E; [|discriminate Hok].
  assert (Hu : op_use op = Some (UseRequest (replicate 16 Byte.x33))) by (vm_compute; reflexivity).
  assert (Hu' : op_use op' = Some (UseRequest (replicate 16 Byte.x33))).
  { clear. unfold op', w_usage. destruct (nextTip _). reflexivity. }
  exact (@ledger_no_replay ToyCrypto ToyCryptoLaws ToyWire wkey w_state no_faults op e s'
           (UseRequest (replicate 16 Byte.x33)) s' no_faults op' w_state_reachable Ht Ht' E Hu
           (rtc_refl _ s') Hu').
Defined.

(** The chain position a caller of an append has pre-filled. *)
Definition op_position (op : LedgerOp) : option (bytes * Z) :=
  match op with
  | OpAppendUsage r => Some (ur_PrevHash r, ur_Seq r)
  | OpAppendTransferOut r => Some (tor_PrevHash r, tor_Seq r)
  | OpAppendTransferIn r => Some (tir_PrevHash r, tir_Seq r)
  | OpIssueStarterGrant _ _ _ => None
  end.

Section position.
Context `{CryptoLaws} `{Wire}.
Variable key : bytes.

Lemma op_at_tip io op s e s' p :
  ledger_inv key s → op_typed op → runLedgerOp key io op s = (Ok e, s') →
  op_position op = Some p →
  nextTip (tip_of s) = p ∧ p.2 = blen (entries s) + 1 ∧ blen (entries s') = blen (entries s) + 1.
Proof.
  intros Hi Ht Ho Hp.
  apply runLedgerOp_Ok in Ho as (_ & Hn & i & c & ts & _ & _ & He & _); [|done..].
  assert (p = (eb_PrevHash (op_body op s), eb_Seq (op_body op s))) as ->
    by (destruct op; simplify_eq/=; done).
  rewrite He, blen_snoc. rewrite (nextTip_chain _ (inv_chain Hi) (inv_seq Hi)) in Hn |- *.
  split_and!; [done| |done]. simpl. congruence.
Qed.

Lemma ledger_steps_length s s' :
  ledger_inv key s → rtc (ledger_step key) s s' → blen (entries s) <= blen (entries s').
Proof.
  intros Hi Hs. destruct (ledger_steps_prefix key s s' Hi Hs) as [k ->].
  unfold blen. rewrite length_app. lia.
Qed.
End position.

(** Optimistic concurrency. Of all the appends that were prepared for one chain
    position at most one succeeds: after an append at a position has committed, every
    append that carries the same sequence number fails, and an accepted append is always
    at the tip. *)
Lemma ledger_one_append_per_position `{CryptoLaws} `{Wire} key s io op e s1 p s2 io' op' q :
  ledger_reachable key s → op_typed op → op_typed op' →
  op_position op = Some p → op_position op' = Some q → q.2 = p.2 →
  runLedgerOp key io op s = (Ok e, s1) → rtc (ledger_step key) s1 s2 →
  nextTip (tip_of s) = p ∧ is_ok (fst (runLedgerOp key io' op' s2)) = false.
Proof.
  intros Hr Ht Ht' Hp Hq Hpq Ho Hs. apply reachable_inv in Hr.
  destruct (op_at_tip key _ _ _ _ _ _ Hr Ht Ho Hp) as (Hn & Hl & Hl1). split; [done|].
  apply runLedgerOp_Ok in Ho as (_ & _ & _ & _ & _ & _ & _ & _ & Hi1); [|done..].
  pose proof (ledger_steps_length key _ _ Hi1 Hs) as Hlen.
  assert (ledger_inv key s2) as Hi2 by by eapply ledger_steps_inv.
  destruct (runLedgerOp key io' op' s2) as [[e2|] s3] eqn:Ho2; [|done].
  destruct (op_at_tip key _ _ _ _ _ _ Hi2 Ht' Ho2 Hq) as (_ & Hl2 & _). lia.
Qed.

(** Two settlements prepared at the same tip with different request ids. *)
Lemma ledger_one_append_per_position_witness :
  let op := OpAppendUsage (w_usage Byte.x33 wconsumer wseeder 30 w_state) in
  let op' := OpAppendUsage (w_usage Byte.x34 wconsumer wseeder 7 w_state) in
  is_ok (fst (w_exec no_faults op' w_state)) = true ∧
  is_ok (fst (w_exec no_faults op' (snd (w_exec no_faults op w_state)))) = false.
Proof.
  intros op op'. split; [vm_compute; reflexivity|].
  assert (Ht : op_typed op) by (vm_compute; repeat split; discriminate).
  assert (Ht' : op_typed op') by (vm_compute; repeat split; discriminate).
  assert (Hok : is_ok (fst (w_exec no_faults op w_state)) = true) by (vm_compute; reflexivity).
  assert (Hp : ∃ p, op_position op = Some p ∧ op_position op' = Some p)
    by (eexists; split; vm_compute; reflexivity).
  destruct Hp as (p & Hp & Hp').
  destruct (w_exec no_faults op w_state) as [[e|e] s'] eqn:E; [|discriminate Hok].
  apply (proj2 (@ledger_one_append_per_position ToyCrypto ToyCryptoLaws ToyWire wkey w_state
           no_faults op e s' p s' no_faults op' p w_state_reachable Ht Ht' Hp Hp' eq_refl E
           (rtc_refl _ _))).
Defined.

(** Signed snapshots. For a 32-byte identity, and a key of the right size, a snapshot
    taken in a reachable state with no database failure carries the identity's credits
    and the tip of the same state, expires 600 seconds after it was issued, and verifies
    under the tracker's public key. *)
Lemma SignedBalance_faithful `{CryptoLaws} `{Wire} key now id s :
  ledger_reachable key s → length key = 64%nat → length id = 32%nat →
  unixSecondsU now < 2 ^ 64 - 600 →
  (∀ b, ∃ x, marshal_BalanceSnapshotBody b = Some x) →
  ∃ snap body, SignedBalance key no_faults now id s = Ok snap ∧
    sbs_Body snap = Some body ∧ bs_IdentityId body = id ∧ bs_Credits body = credits s id ∧
    bs_ChainTipSeq body = blen (entries s) ∧
    bs_ChainTipHash body = chain_last (zero_bytes 32) (entries s) ∧
    bs_ExpiresAt body = bs_IssuedAt body + 600 ∧
    VerifyBalanceSnapshot (ed25519_Public key) (Some snap) = true.
Proof.
  intros Hr Hk Hid Hnow Hm. apply reachable_inv in Hr as [Hc _ _ _ _ _ _ _].
  unfold SignedBalance, BalanceWithTip. unfold blen at 1. rewrite Hid.
  cbn [Z.of_nat Z.eqb negb no_faults].
  set (body := Build_BalanceSnapshotBody _ _ _ _ _ _).
  destruct (Hm body) as [x Hx].
  assert (SignBalanceSnapshot key (Some body) = Ok (ed25519_Sign key x)) as Hs.
  { unfold SignBalanceSnapshot, PrivateKeySize, blen. by rewrite Hk, Hx. }
  simpl. rewrite Hs. eexists _, body. split; [done|]. simpl. split_and!; try done.
  - unfold credits. by destruct (balances s !! id).
  - destruct (entries s) as [|r rows _] using rev_ind; [done|].
    rewrite last_snoc, blen_snoc. simpl. apply chain_from_snoc in Hc. lia.
  - unfold chain_last. by destruct (last (entries s)).
  - unfold balanceSnapshotTTLSeconds. apply u64_id. unfold is_u64, unixSecondsU in *.
    destruct (Unix now <? 0) eqn:E; bool_to_prop; lia.
  - unfold VerifyBalanceSnapshot. cbn [sbs_Body sbs_TrackerSig]. rewrite Hx.
    unfold Verify, PublicKeySize, SignatureSize, blen.
    rewrite Public_length, Sign_length by done. simpl. by apply Verify_Sign.
Qed.

Lemma SignedBalance_faithful_witness :
  ∃ snap body, @SignedBalance ToyCrypto ToyWire wkey no_faults (1714000000 * Second) wconsumer w_state
      = Ok snap ∧ sbs_Body snap = Some body ∧ bs_Credits body = 1000 ∧ bs_ChainTipSeq body = 1.
Proof.
  destruct (@SignedBalance_faithful ToyCrypto ToyCryptoLaws ToyWire wkey (1714000000 * Second)
              wconsumer w_state w_state_reachable eq_refl eq_refl)
    as (snap & body & H1 & H2 & _ & H3 & H4 & _).
  - vm_compute. reflexivity.
  - intros b. eexists. reflexivity.
  - exists snap, body. split; [exact H1|]. split; [exact H2|].
    rewrite H3, H4. split; vm_compute; reflexivity.
Defined.

(** ** Acceptance *)

Definition op_updates (op : LedgerOp) (s : Store) : list BalanceUpdate :=
  let body := op_body op s in new_update (eb_Seq body) (eb_Timestamp body) s <$> op_deltas op.

Section acceptance.
Context `{CryptoLaws} `{Wire}.
Variable key : bytes.

Lemma applyDeltas_accepts seq ts ds s :
  Forall (λ d, 0 <= credits s (bd_identityID d) + bd_delta d <= MaxInt64) ds →
  applyDeltas no_faults seq ts ds s = Ok (new_update seq ts s <$> ds).
Proof.
  induction 1 as [|d ds Hd _ IH]; [done|]. cbn [applyDeltas].
  destruct (Balance no_faults (bd_identityID d) s) as [[cur f]|] eqn:Eb; [|done].
  apply Balance_credits in Eb. rewrite Eb, i64_id by (unfold is_i64, MaxInt64 in *; lia).
  assert ((credits s (bd_identityID d) + bd_delta d <? 0) = false) as ->
    by (apply Z.ltb_ge; lia). by rewrite IH.
Qed.

Lemma existsb_row_fresh {A} (P : A → Prop) `{∀ x, Decision (P x)} (h : A → bytes) l b :
  b ∉ h <$> filter P l → existsb (λ r, bool_decide (P r) && bool_decide (h r = b)) l = false.
Proof.
  intros Hn. apply not_true_iff_false. intros (r & Hr & Hb)%existsb_exists. bool_to_prop.
  apply Hn, list_elem_of_fmap. exists r. split; [done|].
  apply list_elem_of_filter. split; [done|]. by apply list_elem_of_In.
Qed.

Lemma checkSingleUse_accepts body s :
  single_use body (entries s) → checkSingleUse no_faults body s = (Ok tt, s).
Proof.
  unfold checkSingleUse, single_use, storeRead, HasUsageRequestID, HasTransferRef, no_faults.
  intros [Hu Hr]. destruct (eb_Kind body) eqn:Ek; try done;
    unfold gbind, gwrap, gread; rewrite existsb_row_fresh; auto.
Qed.

Lemma checkPreFilled_accepts body s :
  nextTip (tip_of s) = (eb_PrevHash body, eb_Seq body) →
  checkPreFilled no_faults body s = (Ok tt, s).
Proof.
  intros Hn. unfold checkPreFilled, storeRead, Tip, no_faults, gbind, gwrap, gread.
  fold (tip_of s). rewrite Hn, bool_decide_eq_true_2, Z.eqb_refl by done. done.
Qed.

Lemma appendLocked_accepts i vpf body c s :
  length key = 64%nat → in_body i = Some body → marshal_EntryBody body = Some c →
  (vpf = true → nextTip (tip_of s) = (eb_PrevHash body, eb_Seq body)) →
  ValidateEntryBody (Some body) = None → single_use body (entries s) →
  in_participantSigsPreVerified i = true ∨ in_consumerSig i = [] ∧ in_seederSig i = [] →
  Forall (λ d, 0 <= credits s (bd_identityID d) + bd_delta d <= MaxInt64) (in_deltas i) →
  Forall (λ d, length (bd_identityID d) = 32%nat) (in_deltas i) →
  eb_Seq body < 2 ^ 63 → eb_CostCredits body < 2 ^ 63 → eb_Timestamp body < 2 ^ 63 →
  (∀ x, x ∈ entries s → row_seq x ≠ eb_Seq body ∧ row_hash x ≠ sha256 c) →
  is_ok (fst (appendLocked key no_faults i vpf s)) = true.
Proof.
  intros Hk Hb Hm Hn Hv Hu Hp Hd Hid H1' H2' H3' Hf. unfold appendLocked. rewrite Hb.
  rewrite (gbind_eq _ _ _ tt s) by (destruct vpf; [by apply checkPreFilled_accepts; auto|done]).
  rewrite Hv, (gbind_eq _ _ _ tt s) by done.
  rewrite (gbind_eq _ _ _ tt s) by by apply checkSingleUse_accepts.
  rewrite (gbind_eq _ _ _ tt s).
  2:{ unfold checkParticipants. destruct Hp as [->|[-> ->]]; [done|].
      by destruct (in_participantSigsPreVerified i). }
  assert (SignEntry key (Some body) = Ok (ed25519_Sign key c)) as Hs.
  { unfold SignEntry, PrivateKeySize, blen. by rewrite Hk, Hm. }
  rewrite (gbind_eq _ _ _ (ed25519_Sign key c) s) by (unfold gwrap, glift; by rewrite Hs).
  rewrite (gbind_eq _ _ _ (new_update (eb_Seq body) (eb_Timestamp body) s <$> in_deltas i) s)
    by (unfold gread; by rewrite applyDeltas_accepts).
  rewrite (gbind_eq _ _ _ (sha256 c) s) by (unfold gwrap, glift, Hash; by rewrite Hm).
  cbv zeta. erewrite gbind_eq; [done|]. apply gwrap_eq.
  eapply AppendEntry_no_faults; [done|done|exact Hm| | | | | |]; cbn [ent_TrackerSig]; try done.
  - intros Hn0. pose proof (Sign_length key c Hk) as Hl. by rewrite Hn0 in Hl.
  - apply violates_unique_false. exact Hf.
  - cbn [ai_Balances]. rewrite Forall_fmap. eapply Forall_impl; [exact Hid|].
    intros d Hl. unfold compose, new_update. simpl. done.
Qed.
End acceptance.

(** When a settlement is accepted. *)
Definition usage_acceptable `{Crypto} `{Wire} (r : UsageRecord) (s : Store) : Prop :=
  nextTip (tip_of s) = (ur_PrevHash r, ur_Seq r) ∧
  VerifyUsageAssertion (ur_SeederPub r) (usage_assertion r) (ur_SeederSig r) = true ∧
  (ur_ConsumerSigMissing r = false →
   VerifyUsageAssertion (ur_ConsumerPub r) (usage_assertion r) (ur_ConsumerSig r) = true) ∧
  ur_CostCredits r <= credits s (ur_ConsumerID r) ∧
  credits s (ur_SeederID r) + ur_CostCredits r <= MaxInt64 ∧
  ur_RequestID r ∉ usage_ids (entries s) ∧
  ValidateEntryBody (Some (usage_body r)) = None ∧
  ur_Seq r < 2 ^ 63 ∧ ur_Timestamp r < 2 ^ 63 ∧
  ∃ c, marshal_EntryBody (usage_body r) = Some c ∧ sha256 c ∉ row_hash <$> entries s.

Section usage_acceptance.
Context `{CryptoLaws} `{Wire}.
Variable key : bytes.

Lemma BuildUsageEntry_accepts r :
  ur_Model r ≠ "" → ValidateEntryBody (Some (usage_body r)) = None →
  BuildUsageEntry (usage_input r) = Ok (usage_body r).
Proof.
  intros Hm Hv. unfold BuildUsageEntry. rewrite bool_decide_eq_false_2 by done.
  by apply validated_Ok.
Qed.

Lemma VerifyUsageAssertion_fields pub a sig :
  VerifyUsageAssertion pub a sig = true →
  blen pub = 32 ∧ (blen sig =? 0) = false ∧
  length (ua_ConsumerID a) = 32%nat ∧ length (ua_SeederID a) = 32%nat ∧ ua_Model a ≠ "".
Proof.
  unfold VerifyUsageAssertion, PublicKeySize, SignatureSize. intros Hv.
  destruct (_ || _) eqn:E; [done|]. bool_to_prop.
  destruct (CanonicalUsageAssertionPreSig a) as [x|] eqn:Ec; [|done].
  apply CanonicalUsageAssertionPreSig_ok in Ec as (_ & ? & ? & ? & _).
  split_and!; try done; apply Z.eqb_neq; lia.
Qed.

(** A record with good signatures, a cost in range and a valid body reaches the append. *)
Lemma AppendUsage_reaches io r s :
  VerifyUsageAssertion (ur_SeederPub r) (usage_assertion r) (ur_SeederSig r) = true →
  (ur_ConsumerSigMissing r = false →
   VerifyUsageAssertion (ur_ConsumerPub r) (usage_assertion r) (ur_ConsumerSig r) = true) →
  0 <= ur_CostCredits r <= MaxInt64 → ValidateEntryBody (Some (usage_body r)) = None →
  AppendUsage key io r s = appendEntry key io (usage_append r (ur_CostCredits r) (usage_body r)) s.
Proof.
  intros Hss Hcs Hc Hv.
  destruct (VerifyUsageAssertion_fields _ _ _ Hss) as (Hp1 & Hp2 & _ & _ & Hmod). simpl in Hmod.
  unfold AppendUsage. rewrite (gbind_eq _ _ _ tt s)
    by (apply gguard_pass; unfold PublicKeySize; by rewrite Hp1, Hp2).
  rewrite (gbind_eq _ _ _ tt s).
  2:{ apply gguard_pass. destruct (ur_ConsumerSigMissing r); [done|].
      destruct (VerifyUsageAssertion_fields _ _ _ (Hcs eq_refl)) as (Hq1 & Hq2 & _).
      unfold PublicKeySize. by rewrite Hq1, Hq2. }
  rewrite (gbind_eq _ _ _ tt s) by (apply gguard_pass; by rewrite Hss).
  rewrite (gbind_eq _ _ _ tt s)
    by (apply gguard_pass; destruct (ur_ConsumerSigMissing r); [done|by rewrite Hcs]).
  rewrite (gbind_eq _ _ _ (ur_CostCredits r) s).
  2:{ unfold glift, signedAmount.
      assert ((MaxInt64 <? ur_CostCredits r) = false) as -> by (apply Z.ltb_ge; lia).
      rewrite i64_id; [done|]. unfold is_i64, MaxInt64 in *. lia. }
  by rewrite (gbind_eq _ _ _ (usage_body r) s)
    by (unfold gwrap, glift; by rewrite BuildUsageEntry_accepts).
Qed.

Lemma usage_acceptable_Ok r s :
  ledger_inv key s → length key = 64%nat → is_u64 (ur_CostCredits r) →
  usage_acceptable r s → is_ok (fst (AppendUsage key no_faults r s)) = true.
Proof.
  intros Hi Hk Ht (Hn & Hss & Hcs & Hc1 & Hc2 & Hu & Hv & Hq & Hts & c & Hm & Hf).
  destruct (VerifyUsageAssertion_fields _ _ _ Hss) as (_ & _ & Hl1 & Hl2 & _).
  pose proof (ledger_inv_bounded key s Hi) as Hb.
  pose proof (Hb (ur_ConsumerID r)). pose proof (Hb (ur_SeederID r)).
  unfold is_u64 in Ht. simpl in Hl1, Hl2. rewrite AppendUsage_reaches by (done || lia).
  eapply (appendLocked_accepts key _ _ (usage_body r) c); try done; simpl.
  - split; [done|]. intros [?|?]; done.
  - by left.
  - rewrite i64_opp by (unfold MaxInt64 in *; lia). repeat constructor; simpl; lia.
  - repeat constructor; done.
  - unfold MaxInt64 in *. lia.
  - intros x Hx. split.
    + apply (chain_from_seq _ _ _ _ (inv_chain Hi)) in Hx.
      rewrite (nextTip_chain _ (inv_chain Hi) (inv_seq Hi)) in Hn. injection Hn. lia.
    + intros Hh. apply Hf. rewrite <- Hh. by apply list_elem_of_fmap_2.
Qed.

Lemma AppendUsage_Ok_acceptable io r s e s' :
  ledger_inv key s → op_typed (OpAppendUsage r) → AppendUsage key io r s = (Ok e, s') →
  usage_acceptable r s.
Proof.
  intros Hi Ht Ho. destruct (AppendUsage_verified key _ _ _ _ _ Ho) as [Hs Hc].
  destruct (runLedgerOp_effect key io (OpAppendUsage r) _ _ _ Hi Ht Ho) as (_ & Hf & _).
  apply (runLedgerOp_Ok key io (OpAppendUsage r)) in Ho
    as (_ & Hn & i & c & ts & _ & Ha & _); [|done..].
  apply Forall_cons in Hf as [Hf1 Hf]. apply Forall_cons in Hf as [Hf2 _].
  simpl in Hf1, Hf2. pose proof (app_single Ha) as [Hu _].
  pose proof (app_bounds Ha) as (? & ? & ?).
  unfold usage_acceptable. split_and!; try done; try lia; try apply Ha; auto.
  exists c. split; [apply Ha|]. intros (x & Hx & Hin)%list_elem_of_fmap.
  by destruct (app_fresh Ha _ Hin).
Qed.
Lemma grant_accepts now id amount s c :
  ledger_inv key s → length key = 64%nat → length id = 32%nat →
  0 < amount → credits s id + amount <= MaxInt64 →
  unixSecondsU now < 2 ^ 63 → blen (entries s) + 1 < 2 ^ 63 →
  ValidateEntryBody (Some (op_body (OpIssueStarterGrant now id amount) s)) = None →
  marshal_EntryBody (op_body (OpIssueStarterGrant now id amount) s) = Some c →
  sha256 c ∉ row_hash <$> entries s →
  is_ok (fst (runLedgerOp key no_faults (OpIssueStarterGrant now id amount) s)) = true.
Proof.
  intros Hr Hk Hid Ha Hmax Hnow Hlen Hv Hm Hf.
  pose proof (ledger_inv_bounded key s Hr id) as Hb.
  unfold runLedgerOp, IssueStarterGrant.
  rewrite (gbind_eq _ _ _ tt s) by (apply gguard_pass, Z.eqb_neq; lia).
  rewrite (gbind_eq _ _ _ tt s) by (apply gguard_pass; unfold blen; by rewrite Hid).
  rewrite (gbind_eq _ _ _ amount s).
  2:{ unfold glift, signedAmount.
      assert ((MaxInt64 <? amount) = false) as -> by (apply Z.ltb_ge; lia).
      rewrite i64_id; [done|]. unfold is_i64, MaxInt64 in *. lia. }
  unfold appendEntryWithBuilder, storeRead.
  rewrite (gbind_eq _ _ _ (tip_of s) s) by done.
  unfold op_body in Hv, Hm. pose proof (nextTip_chain s (inv_chain Hr) (inv_seq Hr)) as Hn.
  destruct (nextTip (tip_of s)) as [prev seq]. injection Hn as Hprev Hseq.
  unfold buildStarterGrant, BuildStarterGrantEntry. cbn [sgi_PrevHash sgi_Seq sgi_ConsumerID sgi_Amount sgi_Timestamp].
  rewrite (proj2 (validated_Ok _ _)) by (split; [reflexivity|exact Hv]).
  erewrite gbind_eq by reflexivity.
  eapply (appendLocked_accepts key _ _ _ c); [done|reflexivity|exact Hm|done|exact Hv|..]; simpl; try done.
  - split; [done|]. intros [?|?]; done.
  - by right.
  - repeat constructor; simpl; lia.
  - by repeat constructor.
  - lia.
  - unfold MaxInt64 in *. lia.
  - intros x Hx. split.
    + apply (chain_from_seq _ _ _ _ (inv_chain Hr)) in Hx. lia.
    + intros Hh. apply Hf. rewrite <- Hh. by apply list_elem_of_fmap_2.
Qed.
End usage_acceptance.

(** What settles. With a database that does not fail, [AppendUsage] accepts exactly
    the records that are at the tip, carry the signatures their flag asks for, whose cost
    the consumer can pay and the seeder's balance can hold, whose request id is unused,
    and whose body is valid, encodable and not in the chain; every other record is
    refused. So a settlement that should go through does. *)
Lemma AppendUsage_accepts_exactly `{CryptoLaws} `{Wire} key r s :
  ledger_reachable key s → length key = 64%nat → op_typed (OpAppendUsage r) →
  is_ok (fst (AppendUsage key no_faults r s)) = true ↔ usage_acceptable r s.
Proof.
  intros Hr%reachable_inv Hk Ht. split.
  - destruct (AppendUsage key no_faults r s) as [[e|] s'] eqn:E; [|done]. intros _.
    by eapply AppendUsage_Ok_acceptable.
  - apply (usage_acceptable_Ok key); [done|done|apply Ht].
Qed.

Lemma AppendUsage_accepts_exactly_witness :
  @usage_acceptable ToyCrypto ToyWire (w_usage Byte.x33 wconsumer wseeder 1000 w_state) w_state ∧
  ¬ @usage_acceptable ToyCrypto ToyWire (w_usage Byte.x33 wconsumer wseeder 1001 w_state) w_state.
Proof.
  split.
  - apply (@AppendUsage_accepts_exactly ToyCrypto ToyCryptoLaws ToyWire wkey
             (w_usage Byte.x33 wconsumer wseeder 1000 w_state) w_state w_state_reachable eq_refl).
    + vm_compute. repeat split; discriminate.
    + vm_compute. reflexivity.
  - intros Ha.
    apply (@AppendUsage_accepts_exactly ToyCrypto ToyCryptoLaws ToyWire wkey
             (w_usage Byte.x33 wconsumer wseeder 1001 w_state) w_state w_state_reachable eq_refl) in Ha.
    + vm_compute in Ha. discriminate Ha.
    + vm_compute. repeat split; discriminate.
Defined.

(** Starter grants have no stale-tip window. In every reachable state, with a database
    that does not fail, a grant of a positive amount that fits the identity's balance is
    appended at the tip it finds and credits exactly that amount to that identity alone. *)
Lemma IssueStarterGrant_credits `{CryptoLaws} `{Wire} key now id amount s c :
  let op := OpIssueStarterGrant now id amount in
  ledger_reachable key s → length key = 64%nat → length id = 32%nat →
  0 < amount → credits s id + amount <= MaxInt64 →
  unixSecondsU now < 2 ^ 63 → blen (entries s) + 1 < 2 ^ 63 →
  ValidateEntryBody (Some (op_body op s)) = None →
  marshal_EntryBody (op_body op s) = Some c → sha256 c ∉ row_hash <$> entries s →
  ∃ e s', IssueStarterGrant key no_faults now id amount s = (Ok e, s') ∧
    (∀ id', credits s' id' = credits s id' + (if decide (id' = id) then amount else 0)) ∧
    total_credits s' = total_credits s + amount ∧
    blen (entries s') = blen (entries s) + 1.
Proof.
  intros op Hr Hk Hid Ha Hmax Hnow Hlen Hv Hm Hf. apply reachable_inv in Hr.
  pose proof (ledger_inv_bounded key s Hr id) as Hb.
  assert (op_typed op) as Ht by (unfold op_typed, op, is_u64, MaxInt64 in *; lia).
  pose proof (grant_accepts key now id amount s c Hr Hk Hid Ha Hmax Hnow Hlen Hv Hm Hf) as Hok.
  fold op in Hok.
  destruct (runLedgerOp key no_faults op s) as [[e|] s'] eqn:Ho; [|done].
  exists e, s'. split; [exact Ho|].
  destruct (runLedgerOp_effect key _ op _ _ _ Hr Ht Ho) as (Hc & _ & m & _ & Htot).
  apply (runLedgerOp_Ok key) in Ho as (_ & _ & ? & ? & ? & _ & _ & He & _); [|done..].
  split_and!.
  - intros id'. rewrite Hc. simpl. case_bool_decide; case_decide; try congruence; simpl; lia.
  - rewrite Htot. unfold op, op_body, row_supply. by destruct (nextTip (tip_of s)).
  - rewrite He. apply blen_snoc.
Qed.

Lemma IssueStarterGrant_credits_witness :
  ∃ e s', @IssueStarterGrant ToyCrypto ToyWire wkey no_faults (1714000000 * Second) wseeder 250 w_state
            = (Ok e, s') ∧ credits s' wseeder = 250 ∧ total_credits s' = 1250.
Proof.
  destruct (@marshal_EntryBody ToyWire
    (op_body (OpIssueStarterGrant (1714000000 * Second) wseeder 250) w_state)) as [c|] eqn:Hc;
    [|discriminate Hc].
  destruct (@IssueStarterGrant_credits ToyCrypto ToyCryptoLaws ToyWire wkey (1714000000 * Second)
              wseeder 250 w_state c w_state_reachable eq_refl eq_refl)
    as (e & s' & H1 & H2 & H3 & _).
  - reflexivity.
  - vm_compute. discriminate.
  - vm_compute. reflexivity.
  - vm_compute. reflexivity.
  - vm_compute. reflexivity.
  - exact Hc.
  - apply (bool_decide_unpack _). vm_compute in Hc. injection Hc as <-. vm_compute. exact I.
  - exists e, s'. split; [exact H1|]. rewrite H3, (H2 wseeder). split; vm_compute; reflexivity.
Defined.
