(* ===== verification/ChainAudit.v ===== *)
(** tracker/internal/ledger/audit.go: the chain audit.

    [AssertChainIntegrity] walks the chain in pages of 1000 rows. The walk is modelled as
    the loop it is, on fuel: it is shown to return with one unit more than the number of
    rows, and to accept exactly the chains whose bodies hash to the stored hashes and link
    up, provided every stored body carries the seq of its row. The proviso is needed: the
    loop compares the seq inside the decoded body, not the row's, with the end of the
    range. *)
From S2P Require Import Prelude Proto Signing Entry Storage Ledger LedgerSpec.

Definition auditBatchSize : Z := 1000.

(** The outcome of one page: return nil, return an error, or go on. *)
Inductive page_result :=
| PageReturn
| PageError (e : LErr)
| PageNext (prevHash : bytes) (cursor : Z).

Section audit.
Context `{Crypto} `{Wire}.

Fixpoint audit_page (untilSeq : Z) (batch : list EntryWithHash) (prevHash : bytes) (cursor : Z)
    : page_result :=
  match batch with
  | [] => PageNext prevHash cursor
  | e :: batch' =>
    match ent_Body (ewh_Entry e) with
    | None => PageError (ErrLedger "entry: Hash on nil body")
    | Some body =>
      if untilSeq <? eb_Seq body then PageReturn
      else if negb (bool_decide (eb_PrevHash body = prevHash)) then
        PageError (ErrLedger "ledger: chain break")
      else match Hash (Some body) with
      | Err er => PageError (ErrLedger er)
      | Ok h =>
        if negb (bool_decide (h = ewh_StoredHash e)) then
          PageError (ErrLedger "ledger: content corruption")
        else audit_page untilSeq batch' h (eb_Seq body)
      end
    end
  end.

(** [for cursor < untilSeq]; [None] is running out of fuel. *)
Fixpoint audit_loop (fuel : nat) (io : Faults) (untilSeq : Z) (prevHash : bytes) (cursor : Z)
    (s : Store) : option (res LErr unit) :=
  if negb (cursor <? untilSeq) then Some (Ok tt) else
  match fuel with
  | O => None
  | S fuel' =>
    match EntriesWithHashSince io cursor auditBatchSize s with
    | Err e => Some (Err (ErrStore "ledger: AssertChainIntegrity page" e))
    | Ok [] => Some (Ok tt)
    | Ok batch =>
      match audit_page untilSeq batch prevHash cursor with
      | PageReturn => Some (Ok tt)
      | PageError e => Some (Err e)
      | PageNext prevHash' cursor' => audit_loop fuel' io untilSeq prevHash' cursor' s
      end
    end
  end.

(** The hash the walk starts from. *)
Definition audit_anchor (io : Faults) (sinceSeq : Z) (s : Store) : res LErr bytes :=
  if sinceSeq =? 0 then Ok (zero_bytes 32) else
  match EntryBySeq io sinceSeq s with
  | Err e => Err (ErrStore "ledger: AssertChainIntegrity anchor" e)
  | Ok None => Err (ErrLedger "ledger: AssertChainIntegrity: anchor missing")
  | Ok (Some anchor) =>
    match Hash (ent_Body anchor) with
    | Err er => Err (ErrLedger er)
    | Ok h => Ok h
    end
  end.

Definition AssertChainIntegrity (fuel : nat) (io : Faults) (sinceSeq untilSeq : Z) (s : Store)
    : option (res LErr unit) :=
  match audit_anchor io sinceSeq s with
  | Err e => Some (Err e)
  | Ok prevHash =>
    if untilSeq =? 0 then
      match Tip io s with
      | Err e => Some (Err (ErrStore "ledger: AssertChainIntegrity tip" e))
      | Ok None => Some (Ok tt)
      | Ok (Some (tipSeq, _)) => audit_loop fuel io tipSeq prevHash sinceSeq s
      end
    else audit_loop fuel io untilSeq prevHash sinceSeq s
  end.

(** The reference: a row whose body, decoded from the canonical column, hashes to the
    stored hash and names the hash before it. *)
Definition intact_row (prev : bytes) (r : EntryRow) : Prop :=
  ∃ body c, unmarshal_EntryBody (row_canonical r) = Some body ∧
    marshal_EntryBody body = Some c ∧ row_hash r = sha256 c ∧ eb_PrevHash body = prev.

Fixpoint intact (prev : bytes) (rows : list EntryRow) : Prop :=
  match rows with
  | [] => True
  | r :: rows' => intact_row prev r ∧ intact (row_hash r) rows'
  end.

(** Every body that decodes carries the seq of its row. *)
Definition seq_consistent (rows : list EntryRow) : Prop :=
  ∀ r body, r ∈ rows → unmarshal_EntryBody (row_canonical r) = Some body → eb_Seq body = row_seq r.

(** ** Lemmas *)

Lemma scanEntry_Ok r e :
  scanEntry r = Ok e →
  ∃ body, unmarshal_EntryBody (row_canonical r) = Some body ∧ ent_Body e = Some body.
Proof.
  unfold scanEntry. intros Hs. destruct (unmarshal_EntryBody _) as [body|]; [|done].
  apply (inj Ok) in Hs as <-. by exists body.
Qed.

Lemma scan_rows_hash_Ok rows batch :
  scan_rows_hash rows = Ok batch →
  Forall2 (λ r e, scanEntry r = Ok (ewh_Entry e) ∧ ewh_StoredHash e = row_hash r) rows batch.
Proof.
  revert batch. induction rows as [|r rows IH]; intros batch Hs; simpl in Hs.
  - apply (inj Ok) in Hs as <-. constructor.
  - destruct (scanEntry r) as [e|] eqn:Er; [|done].
    destruct (scan_rows_hash rows) as [es|] eqn:Es; [|done].
    apply (inj Ok) in Hs as <-. constructor; [done|]. by apply IH.
Qed.

Lemma intact_scans prev rows : intact prev rows → ∃ batch, scan_rows_hash rows = Ok batch.
Proof.
  revert prev. induction rows as [|r rows IH]; intros prev Hi; simpl in *; [eauto|].
  destruct Hi as [(body & c & Hu & _) Hi]. unfold scanEntry. rewrite Hu.
  destruct (IH _ Hi) as [es ->]. eauto.
Qed.

(** One row of the walk: it passes exactly when it is intact. *)
Lemma audit_page_cons untilSeq r e batch prev cursor :
  scanEntry r = Ok (ewh_Entry e) → ewh_StoredHash e = row_hash r →
  (∀ body, unmarshal_EntryBody (row_canonical r) = Some body → eb_Seq body = row_seq r) →
  row_seq r <= untilSeq →
  (intact_row prev r ∧
   audit_page untilSeq (e :: batch) prev cursor = audit_page untilSeq batch (row_hash r) (row_seq r))
  ∨ (¬ intact_row prev r ∧ ∃ er, audit_page untilSeq (e :: batch) prev cursor = PageError er).
Proof.
  intros (body & Hu & Hb)%scanEntry_Ok Hh Hseq Hle. unfold intact_row. simpl.
  rewrite Hb, (Hseq _ Hu), Hh.
  assert ((untilSeq <? row_seq r) = false) as -> by (apply Z.ltb_ge; lia).
  destruct (bool_decide (eb_PrevHash body = prev)) eqn:Ep; bool_to_prop; simpl.
  2:{ right. split; [|eauto]. intros (b & c & Hu' & _ & _ & Hp). congruence. }
  unfold Hash. destruct (marshal_EntryBody body) as [c|] eqn:Em.
  2:{ right. split; [|eauto]. intros (b & c & Hu' & Hm & _). congruence. }
  destruct (bool_decide (sha256 c = row_hash r)) eqn:Eh; bool_to_prop; simpl.
  - left. rewrite Eh. split; [|done]. exists body, c. split_and!; done.
  - right. split; [|eauto]. intros (b & c' & Hu' & Hm & Hr & _). congruence.
Qed.

Lemma audit_page_spec untilSeq rows batch prev cursor :
  scan_rows_hash rows = Ok batch → seq_consistent rows →
  (∀ r, r ∈ rows → row_seq r <= untilSeq) →
  (intact prev rows ∧ audit_page untilSeq batch prev cursor =
     PageNext (chain_last prev rows) (default cursor (row_seq <$> last rows)))
  ∨ (¬ intact prev rows ∧ ∃ er, audit_page untilSeq batch prev cursor = PageError er).
Proof.
  intros Hs%scan_rows_hash_Ok. revert prev cursor.
  induction Hs as [|r e rows batch [Hr Hh] _ IH]; intros prev cursor Hc Hle; [by left|].
  destruct (audit_page_cons untilSeq r e batch prev cursor) as [[Hi ->]|[Hi Her]];
    [done|done| | | |].
  - intros body. apply Hc. left.
  - apply Hle. left.
  - destruct (IH (row_hash r) (row_seq r)) as [[Hi' ->]|[Hi' Her]].
    + intros x body Hx. apply Hc. by right.
    + intros x Hx. apply Hle. by right.
    + left. split; [done|]. rewrite chain_last_cons. f_equal.
      destruct rows as [|x rows _] using rev_ind; [done|]. by rewrite app_comm_cons, !last_snoc.
    + right. split; [|done]. intros [_ ?]. done.
  - right. split; [|done]. intros [? _]. done.
Qed.

Lemma intact_app prev rows rows' :
  intact prev (rows ++ rows') ↔ intact prev rows ∧ intact (chain_last prev rows) rows'.
Proof.
  revert prev. induction rows as [|r rows IH]; intros prev; simpl.
  - unfold chain_last. simpl. tauto.
  - rewrite IH, chain_last_cons. tauto.
Qed.

Definition rows_sorted (lo : Z) (rows : list EntryRow) : Prop :=
  strictly_sorted rows ∧ ∀ r, r ∈ rows → lo < row_seq r < 2 ^ 63.

Lemma sorted_app_lt rows rows' r r' :
  strictly_sorted (rows ++ rows') → r ∈ rows → r' ∈ rows' → row_seq r < row_seq r'.
Proof. intros [Hlt _]%StronglySorted_app. auto. Qed.

Lemma rows_sorted_app rows rows' lo :
  rows_sorted lo (rows ++ rows') →
  rows_sorted (default lo (row_seq <$> last rows)) rows' ∧
  (∀ r r', r ∈ rows → r' ∈ rows' → row_seq r < row_seq r').
Proof.
  intros [Hs Hb].
  assert (∀ r r', r ∈ rows → r' ∈ rows' → row_seq r < row_seq r') as Hlt.
  { intros r r' Hr Hr'. by apply (sorted_app_lt rows rows'). }
  split; [|done]. split; [by eapply StronglySorted_app_1_r|].
  intros r Hr. split; [|apply Hb; set_solver].
  destruct (last rows) as [x|] eqn:El; simpl.
  - apply Hlt; [|done]. apply last_Some in El as [l ->]. set_solver.
  - apply Hb. set_solver.
Qed.

(** Both lists are intact, and so is a page of them. *)
Lemma select_since_tail l rest cursor s :
  entries s = l ++ rest → rows_sorted cursor rest → (∀ r, r ∈ l → row_seq r <= cursor) →
  select_since cursor auditBatchSize s = take 1000 rest.
Proof.
  intros He [_ Hr] Hl. unfold select_since. rewrite He, List.filter_app.
  assert (List.filter (λ r, cursor <? row_seq r) l = []) as ->.
  { clear -Hl. induction l as [|x l IH]; simpl; [done|].
    assert ((cursor <? row_seq x) = false) as -> by (apply Z.ltb_ge, Hl; left).
    apply IH. intros r Hr. apply Hl. by right. }
  assert (List.filter (λ r, cursor <? row_seq r) rest = rest) as ->.
  { clear -Hr. induction rest as [|x l IH]; simpl; [done|].
    assert ((cursor <? row_seq x) = true) as -> by (apply Z.ltb_lt; apply Hr; left).
    f_equal. apply IH. intros r Hx. apply Hr. by right. }
  done.
Qed.

(** A page of a non-empty tail moves the cursor to its last row. *)
Lemma page_step cursor l rest n :
  rows_sorted cursor rest → rest ≠ [] → (0 < n)%nat → (∀ r, r ∈ l → row_seq r <= cursor) →
  ∃ x, last (take n rest) = Some x ∧ row_seq x < 2 ^ 63 ∧
    rows_sorted (row_seq x) (drop n rest) ∧
    (∀ r, r ∈ l ++ take n rest → row_seq r <= row_seq x) ∧
    default (row_seq x) (row_seq <$> last (drop n rest)) = default cursor (row_seq <$> last rest) ∧
    (length (drop n rest) < length rest)%nat.
Proof.
  intros Hs Hne Hn Hl. pose proof Hs as [Hsort Hb].
  destruct (last (take n rest)) as [x|] eqn:El.
  2:{ apply last_None in El. destruct rest, n; simpl in El; (done || lia). }
  pose proof El as El'. apply last_Some in El' as [k Hk].
  assert (x ∈ rest) as Hx by (rewrite <- (take_drop n rest), Hk; set_solver).
  exists x. split; [done|]. split; [by apply Hb|].
  rewrite <- (take_drop n rest) in Hs. apply rows_sorted_app in Hs as [Hs _].
  rewrite El in Hs. split; [done|]. split; [|split].
  - intros r [Hr|Hr]%elem_of_app; [specialize (Hl _ Hr); pose proof (Hb _ Hx); lia|].
    rewrite Hk in Hr. apply elem_of_app in Hr as [Hr| ->%list_elem_of_singleton]; [|lia].
    assert (row_seq r < row_seq x); [|lia].
    rewrite <- (take_drop n rest), Hk, <- app_assoc in Hsort.
    apply (sorted_app_lt k ([x] ++ drop n rest)); [done..|set_solver].
  - rewrite <- (take_drop n rest) at 2. rewrite last_app, El.
    by destruct (last (drop n rest)).
  - rewrite length_drop. destruct rest; simpl; [done|lia].
Qed.

Lemma audit_loop_spec fuel untilSeq prev cursor s l rest :
  entries s = l ++ rest → rows_sorted cursor rest → cursor < 2 ^ 63 →
  (∀ r, r ∈ l → row_seq r <= cursor) →
  default cursor (row_seq <$> last rest) = untilSeq →
  seq_consistent rest → (length rest <= fuel)%nat →
  ∃ res, audit_loop fuel no_faults untilSeq prev cursor s = Some res ∧
    (is_ok res = true ↔ intact prev rest).
Proof.
  revert prev cursor l rest. induction fuel as [|fuel IH];
    intros prev cursor l rest He Hs Hc Hl Hu Hcons Hf.
  - destruct rest; [|simpl in Hf; lia]. simpl in *. subst. rewrite Z.ltb_irrefl. by exists (Ok tt).
  - destruct (decide (rest = [])) as [->|Hne].
    { simpl in *. subst. rewrite Z.ltb_irrefl. by exists (Ok tt). }
    assert (cursor < untilSeq) as Hlt.
    { destruct rest as [|x rest' _] using rev_ind; [done|].
      rewrite last_snoc in Hu. simpl in Hu. subst. apply Hs. set_solver. }
    simpl. assert ((cursor <? untilSeq) = true) as -> by by apply Z.ltb_lt. simpl.
    apply sql_uint_spec in Hc as Hsql. unfold EntriesWithHashSince. rewrite Hsql.
    cbn [no_faults orb negb].
    rewrite (select_since_tail l rest) by done.
    set (page := take 1000 rest).
    assert (rest = page ++ drop 1000 rest) as Hsplit by (symmetry; apply take_drop).
    destruct (scan_rows_hash page) as [batch|er] eqn:Eb.
    2:{ eexists. split; [done|]. split; [done|]. intros Hi. rewrite Hsplit in Hi.
        apply intact_app in Hi as [Hi _]. apply intact_scans in Hi as [b Hb]. congruence. }
    pose proof (intact_app prev page (drop 1000 rest)) as Happ. rewrite <- Hsplit in Happ.
    assert (page ≠ []) as Hpne by (unfold page; by destruct rest).
    pose proof (scan_rows_hash_Ok _ _ Eb) as Hf2. apply Forall2_length in Hf2 as Hlen.
    destruct batch as [|e batch]; [by destruct page|].
    destruct (audit_page_spec untilSeq page (e :: batch) prev cursor Eb) as [[Hi ->]|[Hi [er ->]]].
    + intros r body Hr. apply Hcons. rewrite Hsplit. set_solver.
    + intros r Hr. destruct rest as [|x rest' _] using rev_ind; [done|].
      rewrite last_snoc in Hu. simpl in Hu. subst. destruct Hs as [Hs _].
      assert (r ∈ rest' ++ [x]) as Hin by (rewrite Hsplit; set_solver).
      apply elem_of_app in Hin as [Hin| ->%list_elem_of_singleton]; [|lia].
      assert (row_seq r < row_seq x); [|lia].
      apply (sorted_app_lt rest' [x]); [done..|set_solver].
    + destruct (page_step cursor l rest 1000) as (x & El & Hx & Hs' & Hl' & Hu' & Hlen');
        [done|done|lia|done|].
      fold page in El, Hl'. rewrite El. simpl.
      destruct (IH (chain_last prev page) (row_seq x) (l ++ page) (drop 1000 rest))
        as (res & Hres & Hiff); [|done|done|done|by rewrite Hu'| |lia|].
      * by rewrite <- app_assoc, <- Hsplit.
      * intros r body Hr. apply Hcons. rewrite Hsplit. set_solver.
      * exists res. split; [done|]. rewrite Hiff, Happ. tauto.
    + eexists. split; [done|]. split; [done|]. rewrite Happ. tauto.
Qed.
End audit.

Section audit_reachable.
Context `{CryptoLaws} `{WireLaws}.
Variable key : bytes.

Lemma ledger_rows_sorted s : ledger_inv key s → rows_sorted 0 (entries s).
Proof.
  intros Hi. pose proof (inv_chain Hi) as Hc. pose proof (inv_seq Hi) as Hl.
  split.
  - clear Hl. revert Hc. generalize (zero_bytes 32), 1. induction (entries s) as [|r rows IH].
    + constructor.
    + intros p q (Hp & Hq & Hc). constructor; [by eapply IH|].
      apply Forall_forall. intros x Hx. apply (chain_from_seq _ _ _ _ Hc) in Hx. lia.
  - intros r Hr. apply (chain_from_seq _ _ _ _ Hc) in Hr. lia.
Qed.

Lemma row_of_entry_decodes e r :
  row_of_entry key e r →
  ∃ body c, unmarshal_EntryBody (row_canonical r) = Some body ∧ marshal_EntryBody body = Some c ∧
    row_hash r = sha256 c ∧ eb_Seq body = row_seq r ∧ eb_PrevHash body = row_prev_hash r.
Proof.
  intros (body & c & _ & Hm & -> & _). exists body, c. split_and!; try done.
  by apply unmarshal_marshal_EntryBody.
Qed.

Lemma ledger_seq_consistent s : ledger_inv key s → seq_consistent (entries s).
Proof.
  intros Hi r body Hr Hu. pose proof (inv_rows Hi) as Hrows. rewrite Forall_forall in Hrows.
  destruct (Hrows _ Hr) as [e (b & c & Hu' & _ & _ & Hs & _)%row_of_entry_decodes]. congruence.
Qed.

Lemma ledger_intact s : ledger_inv key s → intact (zero_bytes 32) (entries s).
Proof.
  intros Hi. pose proof (inv_chain Hi) as Hc. pose proof (inv_rows Hi) as Hr.
  revert Hc. generalize (zero_bytes 32), 1.
  induction Hr as [|r rows [e He] _ IH]; intros p q; [done|]. intros (Hp & Hq & Hc).
  split; [|by eapply IH].
  destruct (row_of_entry_decodes _ _ He) as (body & c & ? & ? & ? & ? & ?).
  exists body, c. split_and!; try done. congruence.
Qed.
End audit_reachable.

Section audit_whole.
Context `{Crypto} `{Wire}.

Lemma audit_whole_spec s :
  rows_sorted 0 (entries s) → seq_consistent (entries s) →
  ∃ res, AssertChainIntegrity (S (length (entries s))) no_faults 0 0 s = Some res ∧
    (is_ok res = true ↔ intact (zero_bytes 32) (entries s)).
Proof.
  intros Hs Hc. unfold AssertChainIntegrity, audit_anchor. rewrite Z.eqb_refl.
  unfold Tip. cbn [no_faults].
  destruct (last (entries s)) as [x|] eqn:El; cbn [fmap option_fmap option_map].
  - apply (audit_loop_spec _ _ _ _ _ []); try done; [|by rewrite El|lia].
    intros r Hr. by apply not_elem_of_nil in Hr.
  - apply last_None in El. rewrite El. by exists (Ok tt).
Qed.
End audit_whole.

(** C34: the audit is exact. On any chain whose rows are in seq order and whose bodies carry
    the seq of their row, the audit of the whole chain returns (one page read per 1000
    rows, never more reads than rows), and it returns nil exactly when every row's body
    hashes to the stored hash and names the previous row's hash, the tip included; and it
    returns nil on every chain the ledger can build. *)
Theorem AssertChainIntegrity_exact `{CryptoLaws} `{WireLaws} key s :
  (rows_sorted 0 (entries s) → seq_consistent (entries s) →
   ∃ res, AssertChainIntegrity (S (length (entries s))) no_faults 0 0 s = Some res ∧
     (is_ok res = true ↔ intact (zero_bytes 32) (entries s))) ∧
  (ledger_reachable key s →
   ∃ res, AssertChainIntegrity (S (length (entries s))) no_faults 0 0 s = Some res ∧ is_ok res = true).
Proof.
  split; [apply audit_whole_spec|]. intros Hr%reachable_inv.
  destruct (audit_whole_spec s) as (res & Ha & Hiff).
  - by eapply ledger_rows_sorted.
  - by eapply ledger_seq_consistent.
  - exists res. split; [done|]. apply Hiff. by eapply ledger_intact.
Qed.

(** The chain of [w_state2] with the stored hash of its tip changed. *)
Definition corrupt_hash (s : Store) : Store :=
  set_entries (λ rows, match rows with
    | [r; r2] => [r; Build_EntryRow (row_seq r2) (row_prev_hash r2) (zero_bytes 32) (row_kind r2)
        (row_consumer_id r2) (row_seeder_id r2) (row_model r2) (row_input_tokens r2)
        (row_output_tokens r2) (row_cost_credits r2) (row_timestamp r2) (row_request_id r2)
        (row_flags r2) (row_ref r2) (row_consumer_sig r2) (row_seeder_sig r2)
        (row_tracker_sig r2) (row_canonical r2)]
    | _ => rows
    end) s.

Lemma AssertChainIntegrity_exact_witness :
  (∃ res, @AssertChainIntegrity ToyCrypto ToyWire 3 no_faults 0 0 w_state2 = Some res ∧ is_ok res = true) ∧
  @AssertChainIntegrity ToyCrypto ToyWire 3 no_faults 0 0 (corrupt_hash w_state2)
    = Some (Err (ErrLedger "ledger: content corruption")).
Proof.
  split; [|vm_compute; reflexivity].
  apply (proj2 (@AssertChainIntegrity_exact ToyCrypto ToyCryptoLaws ToyWire ToyWireLaws wkey w_state2)
           w_state2_reachable).
Defined.

(** The audit trusts the seq inside the body it is checking. A chain of one row whose
    stored body decodes to a seq above the row's passes the audit whatever its hash is:
    the walk takes the row for the end of the range. *)
Lemma AssertChainIntegrity_skips_high_seq `{Crypto} `{Wire} s r body :
  entries s = [r] → 0 < row_seq r < 2 ^ 63 →
  unmarshal_EntryBody (row_canonical r) = Some body → row_seq r < eb_Seq body →
  AssertChainIntegrity 2 no_faults 0 0 s = Some (Ok tt).
Proof.
  intros He Hr Hu Hlt.
  assert ((0 <? row_seq r) = true) as Hpos by (apply Z.ltb_lt; lia).
  assert ((row_seq r <? eb_Seq body) = true) as Hhigh by (apply Z.ltb_lt; lia).
  assert (∃ e, scanEntry r = Ok e ∧ ent_Body e = Some body) as (e & Hs & Hb)
    by (unfold scanEntry; rewrite Hu; eauto).
  assert (EntriesWithHashSince no_faults 0 auditBatchSize s
          = Ok [{| ewh_Entry := e; ewh_StoredHash := row_hash r |}]) as Hpage.
  { unfold EntriesWithHashSince, select_since. rewrite He. cbn [List.filter]. rewrite Hpos.
    change (0 <? auditBatchSize) with true.
    change (take (Z.to_nat auditBatchSize) [r]) with [r]. cbn [scan_rows_hash]. by rewrite Hs. }
  unfold AssertChainIntegrity, audit_anchor, Tip. rewrite He. cbn [last fmap option_fmap option_map].
  cbn -[auditBatchSize EntriesWithHashSince]. rewrite Hpos, Hpage. cbn. by rewrite Hb, Hhigh.
Qed.

(** The stored body of [w_state]'s only row replaced by one of seq 2: its hash no longer
    matches, and the audit reports nothing. *)
Definition corrupt_body : EntryBody :=
  plain_body ENTRY_KIND_STARTER_GRANT (zero_bytes 32) 2 wseeder 1000000 0 (zero_bytes 32).

Definition corrupt_seq (s : Store) : Store :=
  set_entries (map (λ r, Build_EntryRow (row_seq r) (row_prev_hash r) (row_hash r) (row_kind r)
        (row_consumer_id r) (row_seeder_id r) (row_model r) (row_input_tokens r)
        (row_output_tokens r) (row_cost_credits r) (row_timestamp r) (row_request_id r)
        (row_flags r) (row_ref r) (row_consumer_sig r) (row_seeder_sig r) (row_tracker_sig r)
        (default [] (@marshal_EntryBody ToyWire corrupt_body)))) s.

Lemma AssertChainIntegrity_skips_high_seq_witness :
  @AssertChainIntegrity ToyCrypto ToyWire 2 no_faults 0 0 (corrupt_seq w_state) = Some (Ok tt) ∧
  ¬ @intact ToyCrypto ToyWire (zero_bytes 32) (entries (corrupt_seq w_state)).
Proof.
  split.
  - eapply (@AssertChainIntegrity_skips_high_seq ToyCrypto ToyWire (corrupt_seq w_state));
      [vm_compute; reflexivity|vm_compute; split; reflexivity|vm_compute; reflexivity|].
    vm_compute. reflexivity.
  - intros [(b & c & Hu & Hm & Hh & _) _]. vm_compute in Hu. injection Hu as <-.
    vm_compute in Hm. injection Hm as <-. vm_compute in Hh. discriminate Hh.
Defined.

(** Two rows with different canonical bodies and one digest: a SHA-256 collision, in hand. *)
Definition body_collision `{Crypto} `{Wire} (rows1 rows2 : list EntryRow) : Prop :=
  ∃ r1 r2 b1 b2 c1 c2, r1 ∈ rows1 ∧ r2 ∈ rows2 ∧
    unmarshal_EntryBody (row_canonical r1) = Some b1 ∧ marshal_EntryBody b1 = Some c1 ∧
    unmarshal_EntryBody (row_canonical r2) = Some b2 ∧ marshal_EntryBody b2 = Some c2 ∧
    c1 ≠ c2 ∧ sha256 c1 = sha256 c2.

Definition same_body `{Wire} (r1 r2 : EntryRow) : Prop :=
  row_hash r1 = row_hash r2 ∧
  unmarshal_EntryBody (row_canonical r1) = unmarshal_EntryBody (row_canonical r2).

Lemma chain_last_snoc prev rows r : chain_last prev (rows ++ [r]) = row_hash r.
Proof. unfold chain_last. by rewrite last_snoc. Qed.

Lemma body_collision_mono `{Crypto} `{Wire} l1 l2 k1 k2 :
  body_collision l1 l2 → body_collision (l1 ++ k1) (l2 ++ k2).
Proof.
  intros (r1 & r2 & b1 & b2 & c1 & c2 & H1 & H2 & Hrest).
  exists r1, r2, b1, b2, c1, c2. split; [set_solver|]. split; [set_solver|done].
Qed.

Lemma intact_same_tip `{Crypto} `{WireLaws} rows1 rows2 prev :
  length rows1 = length rows2 → intact prev rows1 → intact prev rows2 →
  chain_last prev rows1 = chain_last prev rows2 →
  Forall2 same_body rows1 rows2 ∨ body_collision rows1 rows2.
Proof.
  revert rows2. induction rows1 as [|r1 rows1 IH] using rev_ind; intros rows2 Hl Hi1 Hi2 Ht.
  { destruct rows2; [by left|done]. }
  destruct rows2 as [|r2 rows2 _] using rev_ind; [rewrite length_app in Hl; simpl in Hl; lia|].
  rewrite !chain_last_snoc in Ht. rewrite !length_app in Hl. simpl in Hl.
  apply intact_app in Hi1 as [Hi1 [(b1 & c1 & Hu1 & Hm1 & Hh1 & Hp1) _]].
  apply intact_app in Hi2 as [Hi2 [(b2 & c2 & Hu2 & Hm2 & Hh2 & Hp2) _]].
  destruct (decide (c1 = c2)) as [<-|Hne].
  - assert (b1 = b2) as <-
      by (apply unmarshal_marshal_EntryBody in Hm1, Hm2; congruence).
    destruct (IH rows2) as [Hf|Hc]; [lia|done|done|congruence| |].
    + left. apply Forall2_app; [done|]. repeat constructor; congruence.
    + right. by apply body_collision_mono.
  - right. exists r1, r2, b1, b2, c1, c2. split_and!; try done; try set_solver. congruence.
Qed.

(** The tip hash commits to the history. Two chains of one length that both pass the
    audit's checks and end in the same hash hold the same bodies, row by row; otherwise
    the two chains contain two different canonical bodies with the same SHA-256. *)
Lemma tip_hash_pins_history `{Crypto} `{WireLaws} rows1 rows2 :
  length rows1 = length rows2 →
  intact (zero_bytes 32) rows1 → intact (zero_bytes 32) rows2 →
  row_hash <$> last rows1 = row_hash <$> last rows2 →
  Forall2 same_body rows1 rows2 ∨ body_collision rows1 rows2.
Proof.
  intros Hl Hi1 Hi2 Ht. apply (intact_same_tip _ _ (zero_bytes 32)); [done..|].
  unfold chain_last. by rewrite Ht.
Qed.

Lemma tip_hash_pins_history_witness :
  Forall2 (@same_body ToyWire) (entries w_state2) (entries w_state2) ∨
  @body_collision ToyCrypto ToyWire (entries w_state2) (entries w_state2).
Proof.
  assert (Hi : @intact ToyCrypto ToyWire (zero_bytes 32) (entries w_state2)).
  { apply (@ledger_intact ToyCrypto ToyWire ToyWireLaws wkey).
    apply (@reachable_inv ToyCrypto ToyCryptoLaws ToyWire wkey), w_state2_reachable. }
  exact (@tip_hash_pins_history ToyCrypto ToyWire ToyWireLaws _ _ eq_refl Hi Hi eq_refl).
Defined.
