(* ===== verification/Rollup.v ===== *)
(** tracker/internal/ledger/rollup.go: the hourly Merkle root.

    [merkleHash] loops on the number of nodes of a level; it is defined by well-founded
    recursion on it. The results about roots are stated with the collision in hand: two
    different preimages hashed by the two trees, never "SHA-256 is injective". *)
From S2P Require Import Prelude Proto Signing Entry Storage Ledger LedgerSpec.
From Equations Require Import Equations.

Definition merkleRootSignDomain : bytes := string_bytes "token-bay/merkle-root" ++ [Byte.x00].

#[global] Arguments merkleRootSignDomain : simpl never.

(** [append(level, level[len(level)-1])] when the count is odd. *)
Definition pad_level (level : list bytes) : list bytes :=
  if Nat.odd (length level)
  then match last level with Some x => level ++ [x] | None => level end
  else level.

(** One level of parents: the preimages [left || right], in order. *)
Fixpoint pair_up (level : list bytes) : list bytes :=
  match level with
  | l :: r :: level' => (l ++ r) :: pair_up level'
  | _ => []
  end.

Lemma length_pair_up l : length (pair_up l) = Nat.div2 (length l).
Proof. induction l as [|x|x y l IH] using list_ind2; simpl; congruence. Qed.

Lemma length_pad_level l : length (pad_level l) = (Nat.div2 (S (length l)) * 2)%nat.
Proof.
  unfold pad_level. pose proof (Nat.div2_odd (length l)) as Hd.
  pose proof (Nat.div2_odd (S (length l))) as Hs. rewrite Nat.odd_succ in Hs.
  rewrite <- Nat.negb_odd in Hs.
  destruct (Nat.odd (length l)) eqn:E; simpl Nat.b2n in *.
  - destruct (last l) as [x|] eqn:El; [rewrite length_app; simpl length|apply last_None in El; subst; done].
    lia.
  - lia.
Qed.

Lemma length_level l : length (pair_up (pad_level l)) = Nat.div2 (S (length l)).
Proof. rewrite length_pair_up, length_pad_level, Nat.mul_comm. apply Nat.div2_double. Qed.

Equations merkleHash `{Crypto} (level : list bytes) : bytes by wf (length level) lt :=
  merkleHash [] := [];
  merkleHash [x] := x;
  merkleHash (x :: y :: l) := merkleHash (sha256 <$> pair_up (pad_level (x :: y :: l))).
Next Obligation.
  rewrite length_fmap, length_level. cbn [length Nat.div2].
  pose proof (Nat.lt_div2 (S (length l)) ltac:(lia)) as Hd. cbn [Nat.div2] in *. lia.
Qed.

(** The preimages hashed on the way to the root, level by level. *)
Equations merkle_inputs `{Crypto} (level : list bytes) : list bytes by wf (length level) lt :=
  merkle_inputs [] := [];
  merkle_inputs [x] := [];
  merkle_inputs (x :: y :: l) :=
    pair_up (pad_level (x :: y :: l)) ++ merkle_inputs (sha256 <$> pair_up (pad_level (x :: y :: l))).
Next Obligation.
  rewrite length_fmap, length_level. cbn [length Nat.div2].
  pose proof (Nat.lt_div2 (S (length l)) ltac:(lia)) as Hd. cbn [Nat.div2] in *. lia.
Qed.

Section rollup.
Context `{Crypto} `{Wire}.
Variable trackerKey : bytes.

Definition merkleRootSignPreimage (hour : Z) (root : bytes) : bytes :=
  merkleRootSignDomain ++ PutUint64 hour ++ root.

(** Losing the race for the hour is a no-op. *)
Definition putRoot (io : Faults) (hour : Z) (root sig : bytes) : GoM Store LErr unit := λ s,
  match PutMerkleRoot io hour root sig s with
  | (Ok _, s') => (Ok tt, s')
  | (Err ErrDuplicateMerkleRoot, s') => (Ok tt, s')
  | (Err e, s') => (Err (ErrStore "ledger: rollup put root" e), s')
  end.

Definition RunRollupOnce (io : Faults) (hour : Z) : GoM Store LErr unit :=
  let! existing := storeRead "ledger: rollup check existing root" (GetMerkleRoot io hour) in
  match existing with
  | Some _ => gret tt
  | None =>
    let! leaves := storeRead "ledger: rollup read leaves" (LeavesForHour io hour) in
    match leaves with
    | [] => gret tt
    | _ =>
      let root := merkleHash leaves in
      if negb (blen root =? 32) then gfail (ErrLedger "ledger: rollup unexpected root length") else
      let sig := ed25519_Sign trackerKey (merkleRootSignPreimage hour root) in
      putRoot io hour root sig
    end
  end.
End rollup.

(** [None] for clocks before 1970-01-01 02:00 UTC. *)
Definition prevHourFromTime (now : Z) : option Z :=
  let s := Unix now in
  if s <? 7200 then None else Some (s / 3600 - 1).

(** ** Lemmas *)

(** The hashes of the entries of one hour, in chain order. *)
Definition hour_leaves (hour : Z) (s : Store) : list bytes :=
  row_hash <$> List.filter (λ r, (hour * 3600 <=? row_timestamp r)
                                 && (row_timestamp r <? hour * 3600 + 3600)) (entries s).

Lemma pair_up_inj n l1 l2 :
  Forall (λ x, length x = n) l1 → Forall (λ x, length x = n) l2 →
  length l1 = length l2 → Nat.odd (length l1) = false →
  pair_up l1 = pair_up l2 → l1 = l2.
Proof.
  revert l2. induction l1 as [|x|x y l1 IH] using list_ind2; intros [|a [|b l2]] H1 H2 Hl Ho Hp;
    try done.
  apply Forall_cons in H1 as [Hx [Hy H1]%Forall_cons].
  apply Forall_cons in H2 as [Ha [Hb H2]%Forall_cons].
  injection Hp as Hxy Hp. apply app_inj_len in Hxy as [-> ->]; [|congruence].
  f_equal. f_equal. apply IH; try done. simpl in Hl. lia.
Qed.

Lemma odd_pad l : Nat.odd (length (pad_level l)) = false.
Proof. rewrite length_pad_level, Nat.odd_mul. apply andb_false_r. Qed.

Lemma pad_level_inj l1 l2 : length l1 = length l2 → pad_level l1 = pad_level l2 → l1 = l2.
Proof.
  unfold pad_level. intros Hl. rewrite Hl. destruct (Nat.odd (length l2)) eqn:Eo; [|done].
  destruct (last l1) as [x|] eqn:E1; [|apply last_None in E1; subst; by destruct l2].
  destruct (last l2) as [y|] eqn:E2; [|apply last_None in E2; by subst].
  by intros [-> _]%app_inj_len.
Qed.

Lemma Forall_pad_level (P : bytes → Prop) l : Forall P l → Forall P (pad_level l).
Proof.
  intros Hf. unfold pad_level. destruct (Nat.odd _); [|done].
  destruct (last l) as [x|] eqn:El; [|done]. apply Forall_app. split; [done|].
  repeat constructor. rewrite Forall_forall in Hf. apply Hf.
  apply last_Some in El as [k ->]. set_solver.
Qed.

Section merkle.
Context `{CryptoLaws}.

Definition input_collision (in1 in2 : list bytes) : Prop :=
  ∃ x y, x ∈ in1 ∧ y ∈ in2 ∧ x ≠ y ∧ sha256 x = sha256 y.

Lemma fmap_sha256_inj l1 l2 :
  length l1 = length l2 → sha256 <$> l1 = sha256 <$> l2 → l1 = l2 ∨ input_collision l1 l2.
Proof.
  revert l2. induction l1 as [|x l1 IH]; intros [|y l2] Hl Hs; try done; [by left|].
  injection Hs as Hxy Hs. destruct (decide (x = y)) as [->|Hne].
  - destruct (IH l2) as [->|(a & b & ? & ? & ? & ?)]; [simpl in Hl; lia|done|by left|].
    right. exists a, b. split_and!; try done; by right.
  - right. exists x, y. split_and!; try done; left.
Qed.

Lemma sha256_level l : Forall (λ x, length x = 32%nat) (sha256 <$> l).
Proof. apply Forall_fmap, Forall_forall. intros x _. apply sha256_length. Qed.

Lemma merkleHash_length l :
  Forall (λ x, length x = 32%nat) l → l ≠ [] → length (merkleHash l) = 32%nat.
Proof.
  intros Hf Hne. funelim (merkleHash l); simp merkleHash.
  - done.
  - by apply Forall_cons in Hf as [? _].
  - rename select (_ → _ → length _ = _) into IH. apply IH; [apply sha256_level|].
    intros He. apply (f_equal length) in He. rewrite length_fmap, length_level in He. done.
Qed.

Lemma merkleHash_inj l1 l2 :
  Forall (λ x, length x = 32%nat) l1 → Forall (λ x, length x = 32%nat) l2 →
  length l1 = length l2 → merkleHash l1 = merkleHash l2 →
  l1 = l2 ∨ input_collision (merkle_inputs l1) (merkle_inputs l2).
Proof.
  revert l2. funelim (merkleHash l1); intros l2 Hf1 Hf2 Hl Hr.
  - by destruct l2; [left|].
  - destruct l2 as [|b [|]]; [done| |done]. simp merkleHash in Hr. subst. by left.
  - rename x into a, y into b, l into k. rename select (∀ l2 : list bytes, _ → _) into IH.
    destruct l2 as [|c [|d l2]]; [done|done|].
    simp merkle_inputs. simp merkleHash in Hr.
    set (p1 := pair_up (pad_level (a :: b :: k))) in *.
    set (p2 := pair_up (pad_level (c :: d :: l2))) in *.
    assert (length p1 = length p2) as Hlp by (unfold p1, p2; by rewrite !length_level, Hl).
    destruct (IH (sha256 <$> p2)) as [He|(u & v & Hu & Hv & Huv)];
      [apply sha256_level..|by rewrite !length_fmap|done| |].
    + apply fmap_sha256_inj in He as [He|(u & v & Hu & Hv & Huv)]; [| |done].
      * left. apply pad_level_inj; [done|].
        apply (pair_up_inj 32); [by apply Forall_pad_level..| |apply odd_pad|exact He].
        by rewrite !length_pad_level, Hl.
      * right. exists u, v. split; [set_solver|]. split; [set_solver|done].
    + right. exists u, v. split; [set_solver|]. split; [set_solver|done].
Qed.

(** An odd level and the level with its last node repeated have the same parents. *)
Lemma merkleHash_repeat l x :
  Nat.odd (length (l ++ [x])) = true → l ≠ [] →
  merkleHash (l ++ [x; x]) = merkleHash (l ++ [x]).
Proof.
  intros Ho Hne. destruct l as [|a l]; [done|].
  destruct l as [|b l]; [done|]. rewrite <- !app_comm_cons. simp merkleHash.
  do 3 f_equal. rewrite !app_comm_cons. unfold pad_level. rewrite Ho, last_snoc.
  replace (Nat.odd (length ((a :: b :: l) ++ [x; x]))) with false; [by rewrite <- app_assoc|].
  rewrite length_app in *. simpl length in *. rewrite Nat.add_1_r in Ho.
  replace (S (S (length l)) + 2)%nat with (S (S (S (S (length l))))) by lia.
  rewrite Nat.odd_succ, <- Nat.negb_odd. by rewrite Ho.
Qed.
End merkle.

Section rollup_lemmas.
Context `{CryptoLaws} `{Wire}.
Variable key : bytes.

#[global] Instance RunRollupOnce_ErrKeeps io hour : ErrKeeps (RunRollupOnce key io hour).
Proof.
  apply gbind_ErrKeeps; [apply _|intros [?|]; [apply _|]].
  apply gbind_ErrKeeps; [apply _|intros [|x l]; [apply _|]]. cbv zeta.
  destruct (negb _); [apply _|]. intros s e s'. unfold putRoot, PutMerkleRoot.
  repeat case_match; naive_solver.
Qed.

Lemma reachable_hash_length s :
  ledger_inv key s → Forall (λ x, length x = 32%nat) (row_hash <$> entries s).
Proof.
  intros Hi. apply Forall_fmap. eapply Forall_impl; [apply Hi|].
  intros r (e & body & c & _ & _ & -> & _). apply sha256_length.
Qed.

Lemma hour_leaves_length hour s :
  ledger_inv key s → Forall (λ x, length x = 32%nat) (hour_leaves hour s).
Proof.
  intros Hi. apply Forall_forall. intros x (r & -> & Hr)%list_elem_of_fmap.
  apply list_elem_of_In, List.filter_In in Hr as [Hr _].
  pose proof (reachable_hash_length s Hi) as Hf. rewrite Forall_forall in Hf. apply Hf.
  apply list_elem_of_fmap_2. by apply list_elem_of_In.
Qed.

Lemma LeavesForHour_spec hour s :
  0 <= hour → hour * 3600 + 3600 < 2 ^ 63 →
  LeavesForHour no_faults hour s = Ok (hour_leaves hour s).
Proof.
  intros H0' H1'. unfold LeavesForHour, hourSeconds, hour_leaves.
  rewrite !u64_id by (rewrite ?u64_id; unfold is_u64; lia).
  rewrite (proj2 (sql_uint_spec (hour * 3600))), (proj2 (sql_uint_spec (hour * 3600 + 3600))) by lia.
  done.
Qed.

Lemma putRoot_ok hour root sig s :
  length root = 32%nat → length sig = 64%nat → 0 <= hour < 2 ^ 63 →
  merkle_roots s !! hour = None →
  putRoot no_faults hour root sig s = (Ok tt, set_merkle_roots <[hour := (root, sig)]> s).
Proof.
  intros Hr Hs Hh Hn. unfold putRoot, PutMerkleRoot, blen. rewrite Hr, Hs, Hn.
  by rewrite (proj2 (sql_uint_spec hour)) by lia.
Qed.
(** The whole run, when no call fails. *)
Lemma RunRollupOnce_no_faults hour s :
  ledger_inv key s → length key = 64%nat → 0 <= hour → hour * 3600 + 3600 < 2 ^ 63 →
  RunRollupOnce key no_faults hour s =
    (Ok tt, match merkle_roots s !! hour with
            | Some _ => s
            | None => if decide (hour_leaves hour s = []) then s else
                set_merkle_roots <[hour := (merkleHash (hour_leaves hour s),
                  ed25519_Sign key (merkleRootSignPreimage hour (merkleHash (hour_leaves hour s))))]> s
            end).
Proof.
  intros Hi Hk H0' H1'. unfold RunRollupOnce, storeRead.
  rewrite (gbind_eq _ _ _ (merkle_roots s !! hour) s).
  2:{ unfold gwrap, gread, GetMerkleRoot. by rewrite (proj2 (sql_uint_spec hour)) by lia. }
  destruct (merkle_roots s !! hour) as [v|] eqn:Em; [done|].
  rewrite (gbind_eq _ _ _ (hour_leaves hour s) s)
    by (unfold gwrap, gread; by rewrite LeavesForHour_spec).
  pose proof (hour_leaves_length hour s Hi) as Hl.
  destruct (hour_leaves hour s) as [|x l] eqn:El; [done|].
  rewrite decide_False by done. cbv zeta.
  pose proof (merkleHash_length _ Hl ltac:(done)) as Hlen.
  assert ((blen (merkleHash (x :: l)) =? 32) = true) as -> by (unfold blen; by rewrite Hlen).
  cbn [negb].
  rewrite putRoot_ok; [done|done|by apply Sign_length|lia|done].
Qed.
End rollup_lemmas.

(** ** Properties *)

(** A root binds its leaves. Two lists of the same number of 32-byte leaves with the
    same Merkle root are equal, or the two trees hash two different preimages to one
    digest; and the root of a non-empty list has 32 bytes. *)
Lemma merkleHash_binding `{CryptoLaws} l1 l2 :
  Forall (λ x, length x = 32%nat) l1 → Forall (λ x, length x = 32%nat) l2 → l1 ≠ [] →
  length (merkleHash l1) = 32%nat ∧
  (length l1 = length l2 → merkleHash l1 = merkleHash l2 →
   l1 = l2 ∨ input_collision (merkle_inputs l1) (merkle_inputs l2)).
Proof. intros Hf1 Hf2 Hne. split; [by apply merkleHash_length|]. by apply merkleHash_inj. Qed.

Lemma merkleHash_binding_witness :
  length (@merkleHash ToyCrypto [replicate 32 Byte.x01; replicate 32 Byte.x02; replicate 32 Byte.x03])
    = 32%nat.
Proof.
  apply (@merkleHash_binding ToyCrypto ToyCryptoLaws
           [replicate 32 Byte.x01; replicate 32 Byte.x02; replicate 32 Byte.x03]
           [replicate 32 Byte.x01]); [repeat constructor|repeat constructor|discriminate].
Defined.

(** But a root does not bind the number of leaves: an hour with an odd number of entries
    and the hour with its last entry listed twice have the same root. *)
Lemma merkleHash_duplicate_last `{CryptoLaws} l x :
  Nat.odd (length (l ++ [x])) = true → l ≠ [] →
  merkleHash (l ++ [x; x]) = merkleHash (l ++ [x]).
Proof. apply merkleHash_repeat. Qed.

Lemma merkleHash_duplicate_last_witness :
  let a := replicate 32 Byte.x01 in let b := replicate 32 Byte.x02 in let c := replicate 32 Byte.x03 in
  @merkleHash ToyCrypto [a; b; c; c] = @merkleHash ToyCrypto [a; b; c].
Proof.
  intros a b c.
  apply (@merkleHash_duplicate_last ToyCrypto ToyCryptoLaws [a; b] c); [reflexivity|discriminate].
Defined.

(** The signed preimage is injective in the hour and the root, and no preimage of a root
    signature is the preimage of a usage assertion, although one key could sign both. *)
Lemma merkleRootSignPreimage_separates h1 h2 r1 r2 a :
  is_u64 h1 → is_u64 h2 →
  (merkleRootSignPreimage h1 r1 = merkleRootSignPreimage h2 r2 → h1 = h2 ∧ r1 = r2) ∧
  CanonicalUsageAssertionPreSig a ≠ Ok (merkleRootSignPreimage h1 r1).
Proof.
  intros Hh1 Hh2. unfold merkleRootSignPreimage. split.
  - intros [_ He]%app_inj_len; [|done].
    apply app_inj_len in He as [He ->]; [|by rewrite !length_PutUint64].
    by apply PutUint64_inj in He.
  - intros Ha%usage_domain_prefix. apply (f_equal (take 11)) in Ha. discriminate Ha.
Qed.

Lemma merkleRootSignPreimage_separates_witness :
  CanonicalUsageAssertionPreSig witness_assertion ≠ Ok (merkleRootSignPreimage 7 (zero_bytes 32)).
Proof.
  apply (merkleRootSignPreimage_separates 7 7 (zero_bytes 32) (zero_bytes 32)); unfold is_u64; lia.
Defined.

(** The hourly rollup publishes once and truthfully. A run on a reachable database with
    no failing call succeeds; it touches nothing but the hour's root; a root that is there
    is kept; otherwise an hour with entries gets the root of exactly its entries' hashes in
    chain order, under a signature of the tracker that verifies, and an hour without gets
    none. A second run changes nothing. A run that fails, at whichever database call,
    leaves the database as it was. *)
Lemma RunRollupOnce_publishes `{CryptoLaws} `{Wire} key hour s :
  ledger_reachable key s → length key = 64%nat → 0 <= hour → hour * 3600 + 3600 < 2 ^ 63 →
  (∀ io e s', RunRollupOnce key io hour s = (Err e, s') → s' = s) ∧
  ∃ s', RunRollupOnce key no_faults hour s = (Ok tt, s') ∧
    RunRollupOnce key no_faults hour s' = (Ok tt, s') ∧
    entries s' = entries s ∧ balances s' = balances s ∧
    (∀ h, h ≠ hour → merkle_roots s' !! h = merkle_roots s !! h) ∧
    match merkle_roots s !! hour with
    | Some v => s' = s
    | None =>
        if decide (hour_leaves hour s = []) then s' = s else
        ∃ sig, merkle_roots s' !! hour = Some (merkleHash (hour_leaves hour s), sig) ∧
          Verify (ed25519_Public key)
            (merkleRootSignPreimage hour (merkleHash (hour_leaves hour s))) sig = true
    end.
Proof.
  intros Hr%reachable_inv Hk H0' H1'.
  split; [intros io; apply RunRollupOnce_ErrKeeps|].
  pose proof (RunRollupOnce_no_faults key hour s Hr Hk H0' H1') as Hrun.
  eexists. split; [exact Hrun|].
  destruct (merkle_roots s !! hour) as [v|] eqn:Em; [split_and!; done|].
  destruct (decide (hour_leaves hour s = [])) as [He|He]; [split_and!; done|].
  set (root := merkleHash (hour_leaves hour s)) in *. set (sig := ed25519_Sign _ _) in *.
  split_and!; try done.
  - rewrite RunRollupOnce_no_faults; try done.
    + f_equal. cbn [set_merkle_roots merkle_roots]. by rewrite lookup_insert_eq.
    + by apply (ledger_inv_frame key s).
  - intros h Hne. cbn [set_merkle_roots merkle_roots]. by rewrite lookup_insert_ne.
  - exists sig. cbn [set_merkle_roots merkle_roots]. rewrite lookup_insert_eq. split; [done|].
    unfold Verify, PublicKeySize, SignatureSize, blen, sig.
    rewrite Public_length, Sign_length by done. by apply Verify_Sign.
Qed.

Lemma RunRollupOnce_publishes_witness :
  ∃ s' v, @RunRollupOnce ToyCrypto wkey no_faults 476111 w_state = (Ok tt, s') ∧
    merkle_roots s' !! 476111 = Some v ∧ v.1 ∈ row_hash <$> entries w_state.
Proof.
  destruct (@RunRollupOnce_publishes ToyCrypto ToyCryptoLaws ToyWire wkey 476111 w_state
              w_state_reachable eq_refl) as (_ & s' & Hr & _ & _ & _ & _ & Hm).
  - vm_compute. discriminate.
  - vm_compute. reflexivity.
  - assert (Hn : merkle_roots w_state !! 476111 = None) by (vm_compute; reflexivity).
    rewrite Hn in Hm.
    assert (Hl : ∃ x, hour_leaves 476111 w_state = [x] ∧ row_hash <$> entries w_state = [x])
      by (eexists; split; vm_compute; reflexivity).
    destruct Hl as (x & Hl & He). rewrite Hl in Hm.
    destruct Hm as (sig & Hm & _).
    exists s', (@merkleHash ToyCrypto [x], sig). split; [exact Hr|]. split; [exact Hm|].
    rewrite He. cbn [fst]. rewrite (@merkleHash_equation_2 ToyCrypto x). apply list_elem_of_here.
Defined.
