(* ===== verification/Session.v ===== *)
(** tracker/internal/session: the in-flight request table, the credit reservations and the
    manager that sweeps both.

    Each method holds the mutex of its store for its whole body, so a method is one atomic
    step. The request table hands out pointers and indexes one object twice, by id and by
    preimage hash; the objects are therefore kept in a heap, and [byID] and [byHash] hold
    locations. A settlement channel has capacity one and belongs to its request: [None] is
    the nil channel, [Some None] an empty one. Go's map iteration order is that of
    [map_to_list]. *)
From S2P Require Import Prelude Proto.

(** ** Requests *)

Inductive State :=
| StateUnspecified | StateSelecting | StateAssigned | StateServing | StateCompleted | StateFailed.

#[global] Instance State_eq_dec : EqDecision State.
Proof. solve_decision. Defined.

Definition State_String (s : State) : string :=
  match s with
  | StateSelecting => "selecting"
  | StateAssigned => "assigned"
  | StateServing => "serving"
  | StateCompleted => "completed"
  | StateFailed => "failed"
  | StateUnspecified => "unspecified"
  end.

Definition IsAllowedTransition (from to : State) : bool :=
  match from with
  | StateSelecting => bool_decide (to = StateAssigned) || bool_decide (to = StateFailed)
  | StateAssigned => bool_decide (to = StateServing) || bool_decide (to = StateFailed)
  | StateServing => bool_decide (to = StateCompleted) || bool_decide (to = StateFailed)
  | _ => false
  end.

Record Request := {
  RequestID : bytes; ConsumerID : bytes; rq_EnvelopeBody : option EnvelopeBody;
  EnvelopeHash : bytes; MaxCostReserved : Z; AssignedSeeder : bytes; SeederPubkey : bytes;
  OfferAttempts : list bytes; StartedAt : Z; rq_State : State;
  PreimageHash : bytes; SettleSig : option (option bytes); TerminatedAt : Z
}.

Definition zeroID : bytes := zero_bytes 32.

Definition set_state (st : State) (terminated : Z) (r : Request) : Request := {|
  RequestID := RequestID r; ConsumerID := ConsumerID r; rq_EnvelopeBody := rq_EnvelopeBody r;
  EnvelopeHash := EnvelopeHash r; MaxCostReserved := MaxCostReserved r;
  AssignedSeeder := AssignedSeeder r; SeederPubkey := SeederPubkey r;
  OfferAttempts := OfferAttempts r; StartedAt := StartedAt r; rq_State := st;
  PreimageHash := PreimageHash r; SettleSig := SettleSig r; TerminatedAt := terminated |}.

Definition set_seeder (seeder pub : bytes) (r : Request) : Request := {|
  RequestID := RequestID r; ConsumerID := ConsumerID r; rq_EnvelopeBody := rq_EnvelopeBody r;
  EnvelopeHash := EnvelopeHash r; MaxCostReserved := MaxCostReserved r;
  AssignedSeeder := seeder; SeederPubkey := pub;
  OfferAttempts := OfferAttempts r; StartedAt := StartedAt r; rq_State := rq_State r;
  PreimageHash := PreimageHash r; SettleSig := SettleSig r; TerminatedAt := TerminatedAt r |}.

Definition set_hash (hash : bytes) (r : Request) : Request := {|
  RequestID := RequestID r; ConsumerID := ConsumerID r; rq_EnvelopeBody := rq_EnvelopeBody r;
  EnvelopeHash := EnvelopeHash r; MaxCostReserved := MaxCostReserved r;
  AssignedSeeder := AssignedSeeder r; SeederPubkey := SeederPubkey r;
  OfferAttempts := OfferAttempts r; StartedAt := StartedAt r; rq_State := rq_State r;
  PreimageHash := hash; SettleSig := SettleSig r; TerminatedAt := TerminatedAt r |}.

Definition set_sig (c : option (option bytes)) (r : Request) : Request := {|
  RequestID := RequestID r; ConsumerID := ConsumerID r; rq_EnvelopeBody := rq_EnvelopeBody r;
  EnvelopeHash := EnvelopeHash r; MaxCostReserved := MaxCostReserved r;
  AssignedSeeder := AssignedSeeder r; SeederPubkey := SeederPubkey r;
  OfferAttempts := OfferAttempts r; StartedAt := StartedAt r; rq_State := rq_State r;
  PreimageHash := PreimageHash r; SettleSig := c; TerminatedAt := TerminatedAt r |}.

Definition terminal (st : State) : bool :=
  bool_decide (st = StateCompleted) || bool_decide (st = StateFailed).

(** ** The request table *)

Record Inflight := {
  if_heap : gmap nat Request;
  if_next : nat;
  if_byID : gmap bytes nat;
  if_byHash : gmap bytes nat
}.

Inductive SessErr :=
| ErrUnknownRequest | ErrIllegalTransition | ErrInsufficientCredits | ErrDuplicateReservation.

Definition NewInflight : Inflight :=
  {| if_heap := ∅; if_next := 0; if_byID := ∅; if_byHash := ∅ |}.

(** The caller's object gets a location of its own. *)
Definition Insert (r : Request) (f : Inflight) : Inflight := {|
  if_heap := <[if_next f := r]> (if_heap f); if_next := S (if_next f);
  if_byID := <[RequestID r := if_next f]> (if_byID f); if_byHash := if_byHash f |}.

Definition lookup_loc (f : Inflight) (l : option nat) : option Request :=
  l ≫= λ l, if_heap f !! l.

Definition Get (id : bytes) (f : Inflight) : option Request := lookup_loc f (if_byID f !! id).

Definition LookupByHash (hash : bytes) (f : Inflight) : option Request :=
  lookup_loc f (if_byHash f !! hash).

(** [r.Field = ...] through the pointer [byID] holds. *)
Definition update_at (l : nat) (g : Request → Request) (f : Inflight) : Inflight := {|
  if_heap := alter g l (if_heap f); if_next := if_next f;
  if_byID := if_byID f; if_byHash := if_byHash f |}.

Definition with_request {A} (id : bytes) (k : nat → Request → GoM Inflight SessErr A)
    : GoM Inflight SessErr A := λ f,
  match if_byID f !! id with
  | None => (Err ErrUnknownRequest, f)
  | Some l =>
    match if_heap f !! l with
    | None => (Err ErrUnknownRequest, f)
    | Some r => k l r f
    end
  end.

Definition gmodify {S E} (g : S → S) : GoM S E unit := λ s, (Ok tt, g s).

Definition Transition (id : bytes) (from to : State) (now : Z) : GoM Inflight SessErr unit :=
  with_request id (λ l r,
    do! gguard (negb (bool_decide (rq_State r = from))) ErrIllegalTransition in
    gmodify (update_at l (set_state to (if terminal to then now else TerminatedAt r)))).

Definition MarkSeeder (id seeder pub : bytes) : GoM Inflight SessErr unit :=
  with_request id (λ l r, gmodify (update_at l (set_seeder seeder pub))).

Definition IndexByHash (reqID hash : bytes) : GoM Inflight SessErr unit :=
  with_request reqID (λ l r, gmodify (λ f,
    let f := update_at l (set_hash hash) f in
    {| if_heap := if_heap f; if_next := if_next f; if_byID := if_byID f;
       if_byHash := <[hash := l]> (if_byHash f) |})).

Definition LookupAssignment (reqID : bytes) (f : Inflight) : option (bytes * bytes) :=
  match Get reqID f with
  | None => None
  | Some r => if bool_decide (AssignedSeeder r = zeroID) then None
              else Some (ConsumerID r, AssignedSeeder r)
  end.

Definition EnsureSettleSig (reqID : bytes) : GoM Inflight SessErr unit :=
  with_request reqID (λ l r,
    match SettleSig r with
    | Some _ => gret tt
    | None => gmodify (update_at l (set_sig (Some None)))
    end).

Definition ForceFail (reqID : bytes) (now : Z) (f : Inflight) : option State * Inflight :=
  match if_byID f !! reqID with
  | None => (None, f)
  | Some l =>
    match if_heap f !! l with
    | None => (None, f)
    | Some r =>
      (Some (rq_State r),
       update_at l (set_state StateFailed (if TerminatedAt r =? zeroTime then now else TerminatedAt r)) f)
    end
  end.

(** One entry of the [for id, r := range f.byID] loop. *)
Definition sweep_one (cutoff : Z) (acc : list Request * Inflight) (idl : bytes * nat)
    : list Request * Inflight :=
  let '(swept, f) := acc in
  match if_heap f !! idl.2 with
  | None => (swept, f)
  | Some r =>
    if terminal (rq_State r) && (TerminatedAt r <=? cutoff) then
      (swept ++ [r],
       {| if_heap := if_heap f; if_next := if_next f; if_byID := delete idl.1 (if_byID f);
          if_byHash := if bool_decide (PreimageHash r = zeroID) then if_byHash f
                       else delete (PreimageHash r) (if_byHash f) |})
    else (swept, f)
  end.

Definition SweepTerminal (now terminalTTL : Z) (f : Inflight) : list Request * Inflight :=
  foldl (sweep_one (now - terminalTTL)) ([], f) (map_to_list (if_byID f)).

Record InflightSummary := {
  is_RequestID : bytes; is_ConsumerID : bytes; is_State : State; is_StartedAt : Z;
  is_AssignedSeeder : bytes; is_PreimageHash : bytes
}.

Definition summary (r : Request) : InflightSummary := {|
  is_RequestID := RequestID r; is_ConsumerID := ConsumerID r; is_State := rq_State r;
  is_StartedAt := StartedAt r; is_AssignedSeeder := AssignedSeeder r;
  is_PreimageHash := PreimageHash r |}.

Definition Inflight_Snapshot (f : Inflight) : list InflightSummary :=
  summary <$> omap (λ idl, if_heap f !! idl.2) (map_to_list (if_byID f)).

(** ** Reservations *)

Record Reservation := { rs_ReqID : bytes; rs_ConsumerID : bytes; rs_Amount : Z; rs_ExpiresAt : Z }.

Record Reservations := { res_byID : gmap bytes Z; res_byReq : gmap bytes Reservation }.

Definition NewReservations : Reservations := {| res_byID := ∅; res_byReq := ∅ |}.

(** [r.byID[consumer]]: the zero value when absent. *)
Definition Reserved (consumer : bytes) (r : Reservations) : Z := default 0 (res_byID r !! consumer).

Definition Reservations_Get (reqID : bytes) (r : Reservations) : option Reservation :=
  res_byReq r !! reqID.

Definition Reservations_Snapshot (r : Reservations) : list Reservation :=
  (map_to_list (res_byReq r)).*2.

Definition Reserve (reqID consumer : bytes) (amount snapshotCredits expiresAt : Z)
    : GoM Reservations SessErr unit := λ r,
  match res_byReq r !! reqID with
  | Some _ => (Err ErrDuplicateReservation, r)
  | None =>
    if snapshotCredits <? u64 (Reserved consumer r + amount) then (Err ErrInsufficientCredits, r) else
    (Ok tt, {| res_byID := <[consumer := u64 (Reserved consumer r + amount)]> (res_byID r);
               res_byReq := <[reqID := {| rs_ReqID := reqID; rs_ConsumerID := consumer;
                                          rs_Amount := amount; rs_ExpiresAt := expiresAt |}]> (res_byReq r) |})
  end.

(** [delete(byReq, id); byID[c] -= amount; if byID[c] == 0 { delete(byID, c) }]. *)
Definition drop_slot (reqID : bytes) (slot : Reservation) (r : Reservations) : Reservations :=
  let left := u64 (Reserved (rs_ConsumerID slot) r - rs_Amount slot) in
  {| res_byID := if left =? 0 then delete (rs_ConsumerID slot) (res_byID r)
                 else <[rs_ConsumerID slot := left]> (res_byID r);
     res_byReq := delete reqID (res_byReq r) |}.

Definition Release (reqID : bytes) (r : Reservations) : option (bytes * Z) * Reservations :=
  match res_byReq r !! reqID with
  | None => (None, r)
  | Some slot => (Some (rs_ConsumerID slot, rs_Amount slot), drop_slot reqID slot r)
  end.

Definition slot_expired (now : Z) (slot : Reservation) : bool := rs_ExpiresAt slot <=? now.

(** The loop deletes each entry it visits and no other. *)
Definition SweepExpired (now : Z) (r : Reservations) : list Reservation * Reservations :=
  let hit := List.filter (λ kv, slot_expired now kv.2) (map_to_list (res_byReq r)) in
  (hit.*2, foldl (λ r kv, drop_slot kv.1 kv.2 r) r hit).

(** ** The manager *)

Record Manager := { mgr_Inflight : Inflight; mgr_Reservations : Reservations }.

Definition New : Manager :=
  {| mgr_Inflight := NewInflight; mgr_Reservations := NewReservations |}.

Record Expiry := {
  ex_ReqID : bytes; ex_ConsumerID : bytes; ex_Amount : Z; ex_PriorState : State;
  ex_AssignedSeeder : bytes
}.

(** The state is read, then transitioned by compare-and-swap. *)
Definition expire_one (now : Z) (slot : Reservation) (f : Inflight) : Expiry * Inflight :=
  let e st seeder := {| ex_ReqID := rs_ReqID slot; ex_ConsumerID := rs_ConsumerID slot;
                        ex_Amount := rs_Amount slot; ex_PriorState := st; ex_AssignedSeeder := seeder |} in
  match Get (rs_ReqID slot) f with
  | None => (e StateUnspecified zeroID, f)
  | Some req =>
    match rq_State req with
    | StateSelecting =>
        (e StateSelecting zeroID, snd (Transition (rs_ReqID slot) StateSelecting StateFailed now f))
    | StateAssigned =>
        (e StateAssigned (AssignedSeeder req),
         snd (Transition (rs_ReqID slot) StateAssigned StateFailed now f))
    | st => (e st zeroID, f)
    end
  end.

Fixpoint expire_all (now : Z) (slots : list Reservation) (f : Inflight) : list Expiry * Inflight :=
  match slots with
  | [] => ([], f)
  | slot :: slots' =>
    let '(e, f1) := expire_one now slot f in
    let '(es, f2) := expire_all now slots' f1 in
    (e :: es, f2)
  end.

Definition SweepExpiredAndFail (now : Z) (m : Manager) : list Expiry * Manager :=
  let '(expired, res) := SweepExpired now (mgr_Reservations m) in
  let '(out, f) := expire_all now expired (mgr_Inflight m) in
  (out, {| mgr_Inflight := f; mgr_Reservations := res |}).

(** ** Reference notions *)

Inductive res_op :=
| OpReserve (reqID consumer : bytes) (amount snapshotCredits expiresAt : Z)
| OpRelease (reqID : bytes)
| OpSweepExpired (now : Z).

Definition run_res_op (op : res_op) (r : Reservations) : Reservations :=
  match op with
  | OpReserve id c a snap ex => snd (Reserve id c a snap ex r)
  | OpRelease id => snd (Release id r)
  | OpSweepExpired now => snd (SweepExpired now r)
  end.

Definition run_res_ops (ops : list res_op) : Reservations :=
  foldl (λ r op, run_res_op op r) NewReservations ops.

(** Amounts that the ledger can hold: a consumer's credits are an [int64]. *)
Definition op_small (op : res_op) : Prop :=
  match op with
  | OpReserve _ _ a snap _ => 0 <= a <= MaxInt64 ∧ 0 <= snap <= MaxInt64
  | _ => True
  end.

(** What a slot holds for consumer [c], and the true sum of the slots. *)
Definition slot_amount (c : bytes) (slot : Reservation) : Z :=
  if decide (rs_ConsumerID slot = c) then rs_Amount slot else 0.

Definition slots_sum (c : bytes) (r : Reservations) : Z := msum (slot_amount c) (res_byReq r).

Record res_inv (r : Reservations) : Prop := {
  ri_sum c : Reserved c r = u64 (slots_sum c r);
  ri_key id slot : res_byReq r !! id = Some slot → rs_ReqID slot = id
}.

(** The stronger form that holds while amounts stay in the [int64] range. *)
Record res_exact (r : Reservations) : Prop := {
  re_inv : res_inv r;
  re_pos id slot : res_byReq r !! id = Some slot → 0 <= rs_Amount slot;
  re_bound c : slots_sum c r <= MaxInt64
}.

Record inflight_wf (f : Inflight) : Prop := {
  wf_heap l r : if_heap f !! l = Some r → (l < if_next f)%nat;
  wf_byID id l : if_byID f !! id = Some l → ∃ r, if_heap f !! l = Some r ∧ RequestID r = id;
  wf_byHash h l : if_byHash f !! h = Some l → is_Some (if_heap f !! l)
}.

(** ** Lemmas on reservations *)

Lemma u64_add_l a b : u64 (u64 a + b) = u64 (a + b).
Proof. unfold u64. by rewrite Z.add_mod_idemp_l. Qed.

Lemma u64_sub_l a b : u64 (u64 a - b) = u64 (a - b).
Proof. unfold u64. by rewrite Zminus_mod_idemp_l. Qed.

Lemma Reserved_insert c v r m c' :
  Reserved c' {| res_byID := <[c := v]> (res_byID r); res_byReq := m |} =
  if decide (c = c') then v else Reserved c' r.
Proof.
  unfold Reserved. simpl. destruct (decide _) as [->|Hne];
    [by rewrite lookup_insert_eq|by rewrite lookup_insert_ne].
Qed.

Lemma Reserved_drop id slot r c :
  Reserved c (drop_slot id slot r) =
  if decide (rs_ConsumerID slot = c) then u64 (Reserved c r - rs_Amount slot) else Reserved c r.
Proof.
  unfold drop_slot, Reserved at 1. simpl. destruct (decide _) as [->|Hne].
  - destruct (_ =? 0) eqn:E; [rewrite lookup_delete_eq|rewrite lookup_insert_eq; done].
    bool_to_prop. simpl. by rewrite E.
  - destruct (_ =? 0); [by rewrite lookup_delete_ne|by rewrite lookup_insert_ne].
Qed.

Lemma slots_sum_insert c id slot m b :
  m !! id = None →
  slots_sum c {| res_byID := b; res_byReq := <[id := slot]> m |} =
  slot_amount c slot + msum (slot_amount c) m.
Proof. intros Hn. unfold slots_sum. simpl. by rewrite msum_insert_None. Qed.

Lemma slots_sum_drop c id slot r :
  res_byReq r !! id = Some slot →
  slots_sum c (drop_slot id slot r) = slots_sum c r - slot_amount c slot.
Proof.
  intros Hs. unfold slots_sum at 2. rewrite (msum_delete _ _ _ _ Hs).
  unfold slots_sum, drop_slot. simpl. lia.
Qed.

Lemma res_inv_new : res_inv NewReservations.
Proof. constructor; simpl; [intros c; reflexivity|intros id slot Hs; by rewrite lookup_empty in Hs]. Qed.

Lemma drop_slot_inv id slot r :
  res_inv r → res_byReq r !! id = Some slot → res_inv (drop_slot id slot r).
Proof.
  intros [Hs Hk] Hid. constructor.
  - intros c. rewrite Reserved_drop, (slots_sum_drop _ _ _ _ Hid), Hs. unfold slot_amount.
    destruct (decide _); [apply u64_sub_l|by rewrite Z.sub_0_r].
  - intros id' slot' Hl. apply Hk. unfold drop_slot in Hl. simpl in Hl.
    by apply lookup_delete_Some in Hl as [_ ?].
Qed.

Lemma Reserve_Ok id c a snap ex r u r' :
  Reserve id c a snap ex r = (Ok u, r') →
  res_byReq r !! id = None ∧ u64 (Reserved c r + a) <= snap ∧
  r' = {| res_byID := <[c := u64 (Reserved c r + a)]> (res_byID r);
          res_byReq := <[id := Build_Reservation id c a ex]> (res_byReq r) |}.
Proof.
  unfold Reserve. intros Hr. destruct (res_byReq r !! id); [done|].
  destruct (_ <? _) eqn:E; [done|]. bool_to_prop. by simplify_eq.
Qed.

Lemma Reserve_Err id c a snap ex r e r' : Reserve id c a snap ex r = (Err e, r') → r' = r.
Proof. unfold Reserve. intros Hr. repeat case_match; by simplify_eq. Qed.

Lemma Reserve_inv id c a snap ex r : res_inv r → res_inv (snd (Reserve id c a snap ex r)).
Proof.
  intros Hi. destruct (Reserve id c a snap ex r) as [[u|e] r'] eqn:E; simpl;
    [|by rewrite (Reserve_Err _ _ _ _ _ _ _ _ E)].
  apply Reserve_Ok in E as (Hn & _ & ->). destruct Hi as [Hs Hk]. constructor.
  - intros c'. rewrite Reserved_insert, slots_sum_insert by done. fold (slots_sum c' r).
    unfold slot_amount. simpl. rewrite !Hs.
    destruct (decide (c = c')) as [<-|Hne]; [rewrite u64_add_l; f_equal; lia|f_equal; lia].
  - intros id' slot Hl. simpl in Hl. apply lookup_insert_Some in Hl as [[<- <-]|[_ Hl]]; [done|eauto].
Qed.

(** The sweep visits distinct keys, each still present when it is visited. *)
Lemma foldl_drop_slot (P : Reservations → Prop) l r :
  (∀ r id slot, P r → res_byReq r !! id = Some slot → P (drop_slot id slot r)) →
  NoDup l.*1 → (∀ id slot, (id, slot) ∈ l → res_byReq r !! id = Some slot) → P r →
  let r' := foldl (λ r kv, drop_slot kv.1 kv.2 r) r l in
  P r' ∧ ∀ id, res_byReq r' !! id = if decide (id ∈ l.*1) then None else res_byReq r !! id.
Proof.
  intros Hstep. revert r. induction l as [|[id slot] l IH]; intros r Hnd Hin HP; cbn [foldl].
  - split; [done|]. intros id. rewrite decide_False; [done|]. apply not_elem_of_nil.
  - apply NoDup_cons in Hnd as [Hni Hnd]. simpl.
    assert (res_byReq r !! id = Some slot) as Hid by (apply Hin; left).
    destruct (IH (drop_slot id slot r)) as [HP' Hl]; [done| |by apply Hstep|].
    + intros id' slot' Hin'. unfold drop_slot. simpl. rewrite lookup_delete_ne.
      * apply Hin. by right.
      * intros <-. apply Hni. apply list_elem_of_fmap. by exists (id, slot').
    + split; [done|]. intros id'. rewrite Hl. unfold drop_slot. simpl.
      destruct (decide (id' ∈ l.*1)) as [Hi|Hi].
      * rewrite decide_True; [done|]. by right.
      * destruct (decide (id = id')) as [<-|Hne].
        -- rewrite lookup_delete_eq, decide_True; [done|left].
        -- rewrite lookup_delete_ne, decide_False; [done| |done].
           intros [?|?]%elem_of_cons; [congruence|done].
Qed.

Definition expired_slots (now : Z) (r : Reservations) : list (bytes * Reservation) :=
  List.filter (λ kv, slot_expired now kv.2) (map_to_list (res_byReq r)).

Lemma elem_of_expired now r id slot :
  (id, slot) ∈ expired_slots now r ↔ res_byReq r !! id = Some slot ∧ slot_expired now slot = true.
Proof.
  unfold expired_slots. rewrite list_elem_of_In, List.filter_In, <- list_elem_of_In.
  by rewrite elem_of_map_to_list.
Qed.

Lemma NoDup_expired now r : NoDup (expired_slots now r).*1.
Proof.
  unfold expired_slots. pose proof (NoDup_fst_map_to_list (res_byReq r)) as Hnd.
  induction (map_to_list (res_byReq r)) as [|[k v] l IH]; simpl in *; [constructor|].
  apply NoDup_cons in Hnd as [Hk Hnd]. destruct (slot_expired now v); [|auto].
  simpl. apply NoDup_cons. split; [|auto]. intros Hin. apply Hk.
  apply list_elem_of_fmap in Hin as ([k' v'] & Hkk & Hin). simpl in Hkk. subst k'.
  apply list_elem_of_In, List.filter_In in Hin as [Hin _].
  apply list_elem_of_fmap. exists (k, v'). split; [done|]. by apply list_elem_of_In.
Qed.

Lemma SweepExpired_spec (P : Reservations → Prop) now r :
  (∀ r id slot, P r → res_byReq r !! id = Some slot → P (drop_slot id slot r)) → P r →
  P (snd (SweepExpired now r)) ∧
  ∀ id, res_byReq (snd (SweepExpired now r)) !! id =
    match res_byReq r !! id with
    | Some slot => if slot_expired now slot then None else Some slot
    | None => None
    end.
Proof.
  intros Hstep HP.
  destruct (foldl_drop_slot P (expired_slots now r) r Hstep (NoDup_expired now r)) as [HP' Hl];
    [intros id slot Hin; by apply elem_of_expired in Hin as [? _]|done|].
  split; [exact HP'|]. intros id. change (snd (SweepExpired now r)) with
    (foldl (λ r kv, drop_slot kv.1 kv.2 r) r (expired_slots now r)). rewrite Hl.
  destruct (res_byReq r !! id) as [slot|] eqn:Es; [|by destruct (decide _)].
  destruct (slot_expired now slot) eqn:Ex.
  - rewrite decide_True; [done|]. apply list_elem_of_fmap. exists (id, slot). split; [done|].
    by apply elem_of_expired.
  - rewrite decide_False; [done|]. intros ([k v] & Hk & [Hv Hx]%elem_of_expired)%list_elem_of_fmap.
    simpl in Hk. subst. congruence.
Qed.

Lemma run_res_op_inv op r : res_inv r → res_inv (run_res_op op r).
Proof.
  intros Hi. destruct op as [id c a snap ex|id|now]; simpl.
  - by apply Reserve_inv.
  - unfold Release. destruct (res_byReq r !! id) as [slot|] eqn:E; [|done]. by apply drop_slot_inv.
  - apply (SweepExpired_spec res_inv); [|done]. intros. by apply drop_slot_inv.
Qed.

Lemma slot_amount_nonneg c slot : 0 <= rs_Amount slot → 0 <= slot_amount c slot.
Proof. unfold slot_amount. destruct (decide _); lia. Qed.

Lemma slots_sum_nonneg c r :
  (∀ id slot, res_byReq r !! id = Some slot → 0 <= rs_Amount slot) → 0 <= slots_sum c r.
Proof. intros Hp. apply msum_nonneg. intros id slot Hs. eauto using slot_amount_nonneg. Qed.

Lemma res_exact_Reserved c r : res_exact r → Reserved c r = slots_sum c r.
Proof.
  intros [[Hs _] Hp Hb]. rewrite Hs. apply u64_id. specialize (Hb c).
  pose proof (slots_sum_nonneg c r Hp). unfold is_u64, MaxInt64 in *. lia.
Qed.

Lemma drop_slot_exact id slot r :
  res_exact r → res_byReq r !! id = Some slot → res_exact (drop_slot id slot r).
Proof.
  intros [Hi Hp Hb] Hs. constructor.
  - by apply drop_slot_inv.
  - intros id' slot' Hl. unfold drop_slot in Hl. simpl in Hl.
    apply lookup_delete_Some in Hl as [_ Hl]. eauto.
  - intros c. rewrite (slots_sum_drop _ _ _ _ Hs). specialize (Hb c).
    pose proof (slot_amount_nonneg c slot (Hp _ _ Hs)). lia.
Qed.

Lemma Reserve_exact id c a snap ex r u r' :
  res_exact r → 0 <= a <= MaxInt64 → 0 <= snap <= MaxInt64 →
  Reserve id c a snap ex r = (Ok u, r') →
  res_exact r' ∧ slots_sum c r' = slots_sum c r + a ∧ slots_sum c r' <= snap.
Proof.
  intros He Ha Hsnap Hr. pose proof (res_exact_Reserved c r He) as HR.
  pose proof (Reserve_inv id c a snap ex r (re_inv _ He)) as Hi. rewrite Hr in Hi. simpl in Hi.
  apply Reserve_Ok in Hr as (Hn & Hle & ->). destruct He as [_ Hp Hb].
  pose proof (slots_sum_nonneg c r Hp) as Hnn. pose proof (Hb c) as Hbc.
  rewrite HR, u64_id in Hle by (unfold is_u64, MaxInt64 in *; lia).
  assert (∀ c', slots_sum c' {| res_byID := <[c:=u64 (Reserved c r + a)]> (res_byID r);
      res_byReq := <[id:=Build_Reservation id c a ex]> (res_byReq r) |}
    = slots_sum c' r + (if decide (c = c') then a else 0)) as Hsum.
  { intros c'. rewrite slots_sum_insert by done. fold (slots_sum c' r).
    unfold slot_amount. simpl. lia. }
  rewrite Hsum, decide_True by done. split; [|lia]. constructor; [done| |].
  - intros id' slot Hl. simpl in Hl. apply lookup_insert_Some in Hl as [[<- <-]|[_ Hl]]; [simpl; lia|eauto].
  - intros c'. rewrite Hsum. destruct (decide (c = c')) as [<-|]; [lia|]. specialize (Hb c'). lia.
Qed.

Lemma res_exact_new : res_exact NewReservations.
Proof.
  constructor; [apply res_inv_new| |].
  - intros id slot Hl. simpl in Hl. by rewrite lookup_empty in Hl.
  - intros c. unfold MaxInt64. vm_compute. discriminate.
Qed.

Lemma run_res_op_exact op r : op_small op → res_exact r → res_exact (run_res_op op r).
Proof.
  intros Hop He. destruct op as [id c a snap ex|id|now]; simpl in *.
  - destruct Hop as [Ha Hsn]. destruct (Reserve id c a snap ex r) as [[u|e] r'] eqn:E; simpl.
    + apply (Reserve_exact _ _ _ _ _ _ _ _ He Ha Hsn E).
    + by rewrite (Reserve_Err _ _ _ _ _ _ _ _ E).
  - unfold Release. destruct (res_byReq r !! id) as [slot|] eqn:E; [|done]. by apply drop_slot_exact.
  - apply (SweepExpired_spec res_exact); [|done]. intros. by apply drop_slot_exact.
Qed.

Lemma run_res_ops_ind (P : Reservations → Prop) (Q : res_op → Prop) ops :
  P NewReservations → (∀ op r, Q op → P r → P (run_res_op op r)) → Forall Q ops →
  P (run_res_ops ops).
Proof.
  intros H0 Hstep Hops. unfold run_res_ops. revert H0. generalize NewReservations.
  induction Hops as [|op ops Hop _ IH]; intros r Hr; simpl; [done|]. auto.
Qed.

(** ** Reservation properties *)

(** C35: reservation accounting. After any sequence of reserve, release and sweep calls, with
    any arguments, the running total kept for a consumer is the sum of the amounts of its
    open slots modulo 2^64. While amounts and snapshots are [int64] amounts, as the
    ledger's are, it is the exact sum, and a reservation that is granted adds exactly its
    amount and keeps the consumer's open slots within the credit snapshot it was checked
    against: reserved credit is never overspent. *)
Theorem Reservations_no_overspend ops :
  let r := run_res_ops ops in
  (∀ c, Reserved c r = u64 (slots_sum c r)) ∧
  (Forall op_small ops →
   (∀ c, Reserved c r = slots_sum c r) ∧
   ∀ id c a snap ex u r', op_small (OpReserve id c a snap ex) →
     Reserve id c a snap ex r = (Ok u, r') →
     slots_sum c r' = slots_sum c r + a ∧ slots_sum c r' <= snap).
Proof.
  split.
  - apply ri_sum, (run_res_ops_ind res_inv (λ _, True)); [apply res_inv_new| |].
    + intros op r _. apply run_res_op_inv.
    + by apply Forall_forall.
  - intros Hops.
    pose proof (run_res_ops_ind res_exact op_small ops res_exact_new run_res_op_exact Hops) as He.
    split; [intros c; by apply res_exact_Reserved|].
    intros id c a snap ex u r' [Ha Hsnap] Hr. by eapply Reserve_exact.
Qed.

(** Two slots of 60 and 40 against 100 credits; a third of 1 is refused. *)
Lemma Reservations_no_overspend_witness :
  let c := [Byte.x0c] in
  let ops := [OpReserve [Byte.x01] c 60 100 50; OpReserve [Byte.x02] c 40 100 50] in
  slots_sum c (run_res_ops ops) = 100 ∧ Reserved c (run_res_ops ops) = 100 ∧
  fst (Reserve [Byte.x03] c 1 100 50 (run_res_ops ops)) = Err ErrInsufficientCredits.
Proof.
  intros c ops. split; [vm_compute; reflexivity|]. split; [|vm_compute; reflexivity].
  destruct (proj2 (Reservations_no_overspend ops)) as [Hc _].
  - unfold ops, op_small, MaxInt64. repeat constructor; lia.
  - rewrite Hc. vm_compute. reflexivity.
Defined.

(** Beyond the [int64] range the check can be bypassed: the sum in [Reserve] is a
    [uint64] that wraps. A consumer with [x] credits reserved is granted a reservation of
    2^64 - x whatever its balance, and its running total becomes zero while both slots are
    open. *)
Lemma Reserve_wraps r id c snap ex :
  res_inv r → 0 < Reserved c r → 0 <= snap → res_byReq r !! id = None →
  ∃ r', Reserve id c (2 ^ 64 - Reserved c r) snap ex r = (Ok tt, r') ∧
    Reserved c r' = 0 ∧ slots_sum c r' = slots_sum c r + (2 ^ 64 - Reserved c r).
Proof.
  intros Hi Hpos Hsnap Hn. unfold Reserve. rewrite Hn.
  replace (Reserved c r + (2 ^ 64 - Reserved c r)) with (2 ^ 64) by lia.
  change (u64 (2 ^ 64)) with 0. assert ((snap <? 0) = false) as -> by (apply Z.ltb_ge; lia).
  eexists. split; [done|]. rewrite Reserved_insert, decide_True by done. split; [done|].
  rewrite slots_sum_insert by done. fold (slots_sum c r). unfold slot_amount. simpl.
  rewrite decide_True by done. lia.
Qed.

Lemma Reserve_wraps_witness :
  let c := [Byte.x0c] in
  let r := run_res_ops [OpReserve [Byte.x01] c 1 1 50] in
  ∃ r', Reserve [Byte.x02] c 18446744073709551615 1 50 r = (Ok tt, r') ∧ Reserved c r' = 0.
Proof.
  intros c r.
  assert (Hi : res_inv r)
    by exact (run_res_op_inv (OpReserve [Byte.x01] c 1 1 50) NewReservations res_inv_new).
  assert (Hp : Reserved c r = 1) by (vm_compute; reflexivity).
  destruct (Reserve_wraps r [Byte.x02] c 1 50 Hi) as (r' & Hr & Hz & _);
    [rewrite Hp; reflexivity|discriminate|vm_compute; reflexivity|].
  rewrite Hp in Hr. exists r'. split; [exact Hr|exact Hz].
Defined.

(** Releasing undoes reserving. A slot that was granted is released exactly once: the
    first release returns its consumer and amount and restores every running total and
    every other slot; a second finds nothing. *)
Lemma Release_undoes_Reserve r id c a snap ex r1 :
  res_inv r → Reserve id c a snap ex r = (Ok tt, r1) →
  ∃ r2, Release id r1 = (Some (c, a), r2) ∧ (∀ c', Reserved c' r2 = Reserved c' r) ∧
    res_byReq r2 = res_byReq r ∧ Release id r2 = (None, r2).
Proof.
  intros Hi Hr. pose proof (Reserve_inv id c a snap ex r Hi) as Hi1. rewrite Hr in Hi1. simpl in Hi1.
  apply Reserve_Ok in Hr as (Hn & _ & ->). unfold Release at 1. simpl.
  rewrite lookup_insert_eq. eexists. split; [done|]. split_and!.
  - intros c'. rewrite Reserved_drop, Reserved_insert. simpl.
    destruct (decide (c = c')) as [<-|]; [|done]. rewrite u64_sub_l.
    replace (Reserved c r + a - a) with (Reserved c r) by lia.
    rewrite (ri_sum _ Hi). apply u64_id, u64_range.
  - unfold drop_slot. simpl. by rewrite delete_insert_id.
  - unfold Release, drop_slot. simpl. by rewrite lookup_delete_eq.
Qed.

Lemma Release_undoes_Reserve_witness :
  let r1 := snd (Reserve [Byte.x01] [Byte.x0c] 60 100 50 NewReservations) in
  ∃ r2, Release [Byte.x01] r1 = (Some ([Byte.x0c], 60), r2) ∧ Release [Byte.x01] r2 = (None, r2).
Proof.
  intros r1.
  destruct (Release_undoes_Reserve NewReservations [Byte.x01] [Byte.x0c] 60 100 50 r1
              res_inv_new eq_refl) as (r2 & H1 & _ & _ & H2).
  exists r2. split; [exact H1|exact H2].
Defined.

(** ** Lemmas on the request table *)

(** What the sweep of an expired reservation does to its request. *)
Definition expire_req (now : Z) (r : Request) : Request :=
  match rq_State r with
  | StateSelecting | StateAssigned => set_state StateFailed now r
  | _ => r
  end.

Lemma Get_Some id f r :
  Get id f = Some r ↔ ∃ l, if_byID f !! id = Some l ∧ if_heap f !! l = Some r.
Proof.
  unfold Get, lookup_loc. destruct (if_byID f !! id) as [l|]; simpl; [|naive_solver].
  split; [eauto|]. by intros (? & [= ->] & ?).
Qed.

Lemma Get_None id f : inflight_wf f → Get id f = None ↔ if_byID f !! id = None.
Proof.
  intros Hwf. unfold Get, lookup_loc. destruct (if_byID f !! id) as [l|] eqn:E; simpl; [|done].
  destruct (wf_byID f Hwf _ _ E) as (r & -> & _). done.
Qed.

Lemma byID_inj f id id' l :
  inflight_wf f → if_byID f !! id = Some l → if_byID f !! id' = Some l → id = id'.
Proof.
  intros Hwf H1 H2. destruct (wf_byID f Hwf _ _ H1) as (r & Hr & <-).
  destruct (wf_byID f Hwf _ _ H2) as (r' & Hr' & <-). congruence.
Qed.

Lemma update_at_wf l g f :
  (∀ r, RequestID (g r) = RequestID r) → inflight_wf f → inflight_wf (update_at l g f).
Proof.
  intros Hg [Hh Hi Hx]. constructor; simpl.
  - intros l' r Hl. apply lookup_alter_Some in Hl as [(<- & r0 & Hl & _)|[_ Hl]]; eauto.
  - intros id l' Hl. destruct (Hi _ _ Hl) as (r & Hr & Hid).
    destruct (decide (l = l')) as [<-|Hne].
    + exists (g r). by rewrite lookup_alter_eq, Hr, Hg.
    + exists r. by rewrite lookup_alter_ne.
  - intros h l' Hl. destruct (Hx _ _ Hl) as [r Hr]. destruct (decide (l = l')) as [<-|Hne].
    + rewrite lookup_alter_eq, Hr. by eexists.
    + rewrite lookup_alter_ne by done. by eexists.
Qed.

Lemma Get_update_at id l g f id' :
  inflight_wf f → if_byID f !! id = Some l →
  Get id' (update_at l g f) = if decide (id' = id) then g <$> Get id f else Get id' f.
Proof.
  intros Hwf Hl. unfold Get, lookup_loc. simpl. destruct (decide (id' = id)) as [->|Hne].
  - rewrite Hl. simpl. by rewrite lookup_alter_eq.
  - destruct (if_byID f !! id') as [l'|] eqn:E; simpl; [|done].
    rewrite lookup_alter_ne; [done|]. intros <-. apply Hne. by eapply byID_inj.
Qed.

Definition terminated_at (to : State) (now : Z) (r : Request) : Z :=
  if terminal to then now else TerminatedAt r.

(** [Transition], as a function of the request it finds. *)
Lemma Transition_spec id from to now f r :
  inflight_wf f → Get id f = Some r →
  ∃ f', Transition id from to now f =
          (if decide (rq_State r = from) then Ok tt else Err ErrIllegalTransition, f') ∧
    inflight_wf f' ∧
    ∀ id', Get id' f' = if decide (id' = id ∧ rq_State r = from)
                        then Some (set_state to (terminated_at to now r) r) else Get id' f.
Proof.
  intros Hwf Hg. apply Get_Some in Hg as Hl. destruct Hl as (l & Hl & Hr).
  unfold Transition, with_request. rewrite Hl, Hr. unfold gbind, gguard, gmodify.
  destruct (decide (rq_State r = from)) as [Hs|Hs].
  - rewrite bool_decide_eq_true_2 by done. simpl. eexists. split; [done|].
    split; [by apply update_at_wf|]. intros id'. rewrite (Get_update_at id) by done.
    rewrite Hg. destruct (decide (id' = id)) as [->|Hne].
    + by rewrite decide_True.
    + rewrite decide_False; [done|]. tauto.
  - rewrite bool_decide_eq_false_2 by done. simpl. eexists. split; [done|]. split; [done|].
    intros id'. rewrite decide_False; [done|]. tauto.
Qed.

(** The report for a slot, against the request table before the sweep. *)
Definition expiry_of (f : Inflight) (slot : Reservation) (e : Expiry) : Prop :=
  ex_ReqID e = rs_ReqID slot ∧ ex_ConsumerID e = rs_ConsumerID slot ∧
  ex_Amount e = rs_Amount slot ∧
  ex_PriorState e = default StateUnspecified (rq_State <$> Get (rs_ReqID slot) f) ∧
  ex_AssignedSeeder e = match Get (rs_ReqID slot) f with
    | Some r => if decide (rq_State r = StateAssigned) then AssignedSeeder r else zeroID
    | None => zeroID end.

Lemma expire_one_spec now slot f :
  inflight_wf f →
  inflight_wf (snd (expire_one now slot f)) ∧
  (∀ id, Get id (snd (expire_one now slot f)) =
     if decide (id = rs_ReqID slot) then expire_req now <$> Get id f else Get id f) ∧
  expiry_of f slot (fst (expire_one now slot f)).
Proof.
  intros Hwf. unfold expire_one, expiry_of.
  destruct (Get (rs_ReqID slot) f) as [r|] eqn:Eg.
  2:{ simpl. split_and!; try done. intros id. destruct (decide _) as [->|]; [by rewrite Eg|done]. }
  assert (∀ st, rq_State r = st → (st = StateSelecting ∨ st = StateAssigned) →
    inflight_wf (snd (Transition (rs_ReqID slot) st StateFailed now f)) ∧
    ∀ id, Get id (snd (Transition (rs_ReqID slot) st StateFailed now f)) =
      if decide (id = rs_ReqID slot) then expire_req now <$> Get id f else Get id f) as Ht.
  { intros st Hst Hor. destruct (Transition_spec (rs_ReqID slot) st StateFailed now f r Hwf Eg)
      as (f' & -> & Hwf' & Hg). split; [done|]. intros id. simpl. rewrite Hg.
    destruct (decide (id = rs_ReqID slot)) as [->|Hne].
    - rewrite decide_True, Eg by done. simpl. unfold expire_req. rewrite Hst.
      destruct Hor as [-> | ->]; done.
    - rewrite decide_False; [done|tauto]. }
  destruct (rq_State r) eqn:Es; simpl;
    try (split; [done|]; split; [|done]; intros id;
         destruct (decide (id = rs_ReqID slot)) as [->|]; [|done];
         rewrite Eg; simpl; unfold expire_req; by rewrite Es).
  - destruct (Ht StateSelecting) as [? ?]; [done|by left|]. done.
  - destruct (Ht StateAssigned) as [? ?]; [done|by right|]. done.
Qed.

Lemma expiry_of_ext f f' slots es :
  (∀ slot, slot ∈ slots → Get (rs_ReqID slot) f' = Get (rs_ReqID slot) f) →
  Forall2 (expiry_of f') slots es → Forall2 (expiry_of f) slots es.
Proof.
  intros Hg He. induction He as [|slot e slots es He _ IH]; constructor.
  - unfold expiry_of in *. rewrite (Hg slot) in He by left. done.
  - apply IH. intros slot' Hin. apply Hg. by right.
Qed.

Lemma expire_all_spec now slots f :
  inflight_wf f → NoDup (rs_ReqID <$> slots) →
  inflight_wf (snd (expire_all now slots f)) ∧
  (∀ id, Get id (snd (expire_all now slots f)) =
     if decide (id ∈ rs_ReqID <$> slots) then expire_req now <$> Get id f else Get id f) ∧
  Forall2 (expiry_of f) slots (fst (expire_all now slots f)).
Proof.
  revert f. induction slots as [|slot slots IH]; intros f Hwf Hnd; cbn [expire_all].
  { split_and!; [done|done|constructor]. }
  rewrite fmap_cons in *. apply NoDup_cons in Hnd as [Hni Hnd].
  destruct (expire_one_spec now slot f Hwf) as (Hwf1 & Hg1 & He).
  destruct (expire_one now slot f) as [e f1]. cbn [fst snd] in *.
  destruct (IH f1 Hwf1 Hnd) as (Hwf2 & Hg2 & Hes).
  destruct (expire_all now slots f1) as [es f2]. cbn [fst snd] in *.
  split_and!; [done| |].
  - intros id. rewrite Hg2, Hg1. destruct (decide (id = rs_ReqID slot)) as [->|Hne].
    + rewrite decide_False by done. rewrite decide_True; [done|left].
    + destruct (decide (id ∈ rs_ReqID <$> slots)) as [Hin|Hin].
      * rewrite decide_True; [done|by right].
      * rewrite decide_False; [done|]. by intros [?|?]%elem_of_cons.
  - constructor; [done|]. eapply expiry_of_ext; [|done].
    intros slot' Hin. rewrite Hg1, decide_False; [done|].
    intros Heq. apply Hni. rewrite <- Heq. by apply list_elem_of_fmap_2.
Qed.

(** Every way the table is written keeps it well formed. *)
Lemma NewInflight_wf : inflight_wf NewInflight.
Proof. constructor; intros *; simpl; by rewrite lookup_empty. Qed.

Lemma Insert_wf r f : inflight_wf f → inflight_wf (Insert r f).
Proof.
  intros [Hh Hi Hx]. constructor; simpl.
  - intros l r' Hl. apply lookup_insert_Some in Hl as [[<- _]|[_ Hl]]; [lia|]. apply Hh in Hl. lia.
  - intros id l Hl. apply lookup_insert_Some in Hl as [[<- <-]|[_ Hl]].
    + exists r. by rewrite lookup_insert_eq.
    + destruct (Hi _ _ Hl) as (r' & Hr' & ?). exists r'. rewrite lookup_insert_ne; [done|].
      apply Hh in Hr'. lia.
  - intros h l Hl. destruct (Hx _ _ Hl) as [r' Hr']. rewrite lookup_insert_ne; [by eexists|].
    apply Hh in Hr'. lia.
Qed.

Lemma Get_Insert r f id :
  inflight_wf f → Get id (Insert r f) = if decide (id = RequestID r) then Some r else Get id f.
Proof.
  intros Hwf. unfold Get, lookup_loc, Insert. simpl. destruct (decide _) as [->|Hne].
  - rewrite lookup_insert_eq. simpl. by rewrite lookup_insert_eq.
  - rewrite lookup_insert_ne by done. destruct (if_byID f !! id) as [l|] eqn:E; [|done]. simpl.
    destruct (wf_byID f Hwf _ _ E) as (r' & Hr' & _). rewrite lookup_insert_ne; [done|].
    apply (wf_heap f Hwf) in Hr'. lia.
Qed.

(** ** Request table properties *)

(** A transition is a compare-and-swap. On a well-formed table, of two transitions out of
    the state a request is in, exactly the first wins, whatever their targets and clocks:
    the winner changes the state of that request alone, recording the time if the state is
    terminal, and the loser reports an illegal transition and changes nothing. *)
Lemma Transition_one_winner id from to1 to2 now1 now2 f r :
  inflight_wf f → Get id f = Some r → rq_State r = from → to1 ≠ from →
  ∃ f1, Transition id from to1 now1 f = (Ok tt, f1) ∧
    Get id f1 = Some (set_state to1 (terminated_at to1 now1 r) r) ∧
    (∀ id', id' ≠ id → Get id' f1 = Get id' f) ∧
    is_ok (fst (Transition id from to2 now2 f1)) = false ∧
    ∀ id', Get id' (snd (Transition id from to2 now2 f1)) = Get id' f1.
Proof.
  intros Hwf Hg Hs Hne.
  destruct (Transition_spec id from to1 now1 f r Hwf Hg) as (f1 & Ht & Hwf1 & Hg1).
  rewrite decide_True in Ht by done. exists f1. split; [done|].
  assert (Get id f1 = Some (set_state to1 (terminated_at to1 now1 r) r)) as Hid
    by (rewrite Hg1, decide_True; done).
  split; [done|]. split; [intros id' Hid'; rewrite Hg1, decide_False; [done|tauto]|].
  destruct (Transition_spec id from to2 now2 f1 _ Hwf1 Hid) as (f2 & Ht2 & _ & Hg2).
  rewrite decide_False in Ht2 by done. rewrite Ht2. split; [done|].
  intros id'. simpl. rewrite Hg2, decide_False; [done|]. simpl. tauto.
Qed.

Definition witness_request (id : byte) (st : State) : Request := {|
  RequestID := replicate 16 id; ConsumerID := replicate 32 Byte.x0c; rq_EnvelopeBody := None;
  EnvelopeHash := zero_bytes 32; MaxCostReserved := 60; AssignedSeeder := replicate 32 Byte.x05;
  SeederPubkey := []; OfferAttempts := []; StartedAt := 0; rq_State := st;
  PreimageHash := zero_bytes 32; SettleSig := None; TerminatedAt := zeroTime |}.

(** The offer loop assigns a request at the moment the reaper fails it. *)
Lemma Transition_one_winner_witness :
  let f := Insert (witness_request Byte.x01 StateSelecting) NewInflight in
  ∃ f1, Transition (replicate 16 Byte.x01) StateSelecting StateFailed 7 f = (Ok tt, f1) ∧
    is_ok (fst (Transition (replicate 16 Byte.x01) StateSelecting StateAssigned 7 f1)) = false.
Proof.
  intros f.
  destruct (Transition_one_winner (replicate 16 Byte.x01) StateSelecting StateFailed StateAssigned
              7 7 f (witness_request Byte.x01 StateSelecting))
    as (f1 & H1 & _ & _ & H2 & _); [|vm_compute; reflexivity|reflexivity|discriminate|].
  - apply Insert_wf, NewInflight_wf.
  - exists f1. split; [exact H1|exact H2].
Defined.

Lemma SweepExpiredAndFail_sweeps now m :
  res_inv (mgr_Reservations m) → inflight_wf (mgr_Inflight m) →
  let expired := expired_slots now (mgr_Reservations m) in
  let '(out, m') := SweepExpiredAndFail now m in
  res_inv (mgr_Reservations m') ∧ inflight_wf (mgr_Inflight m') ∧
  (∀ id, res_byReq (mgr_Reservations m') !! id =
     if decide (id ∈ expired.*1) then None else res_byReq (mgr_Reservations m) !! id) ∧
  (∀ id, Get id (mgr_Inflight m') =
     if decide (id ∈ expired.*1) then expire_req now <$> Get id (mgr_Inflight m)
     else Get id (mgr_Inflight m)) ∧
  Forall2 (expiry_of (mgr_Inflight m)) expired.*2 out.
Proof.
  intros Hi Hwf expired. unfold SweepExpiredAndFail.
  destruct (foldl_drop_slot res_inv expired (mgr_Reservations m)) as [Hi' Hl];
    [intros; by apply drop_slot_inv|apply NoDup_expired
    |intros id slot Hin; by apply elem_of_expired in Hin as [? _]|done|].
  change (SweepExpired now (mgr_Reservations m)) with
    (expired.*2, foldl (λ r kv, drop_slot kv.1 kv.2 r) (mgr_Reservations m) expired).
  assert (rs_ReqID <$> expired.*2 = expired.*1) as Hids.
  { rewrite <- list_fmap_compose. apply list_fmap_ext. intros i [id slot] Hin. simpl.
    apply list_elem_of_lookup_2, elem_of_expired in Hin as [Hin _]. by apply (ri_key _ Hi). }
  pose proof (expire_all_spec now expired.*2 (mgr_Inflight m) Hwf) as He.
  rewrite Hids in He. specialize (He (NoDup_expired _ _)) as (Hwf' & Hg & Hout).
  destruct (expire_all now expired.*2 (mgr_Inflight m)) as [out f']. simpl in *.
  split_and!; done.
Qed.

(** The expiry sweep. It drops exactly the reservation slots whose time has passed and
    keeps the accounting; a request of a dropped slot that was still SELECTING or ASSIGNED
    becomes FAILED at that time and every other request is left alone; and it reports
    exactly the dropped slots, each with the state the request was in and, when that was
    ASSIGNED, the seeder whose load the caller must give back. *)
Lemma SweepExpiredAndFail_spec now m :
  res_inv (mgr_Reservations m) → inflight_wf (mgr_Inflight m) →
  let expired := expired_slots now (mgr_Reservations m) in
  let '(out, m') := SweepExpiredAndFail now m in
  res_inv (mgr_Reservations m') ∧ inflight_wf (mgr_Inflight m') ∧
  (∀ id, res_byReq (mgr_Reservations m') !! id =
     if decide (id ∈ expired.*1) then None else res_byReq (mgr_Reservations m) !! id) ∧
  (∀ id, Get id (mgr_Inflight m') =
     if decide (id ∈ expired.*1) then expire_req now <$> Get id (mgr_Inflight m)
     else Get id (mgr_Inflight m)) ∧
  Forall2 (expiry_of (mgr_Inflight m)) expired.*2 out.
Proof. apply SweepExpiredAndFail_sweeps. Qed.

Definition witness_manager : Manager := {|
  mgr_Inflight := Insert (witness_request Byte.x02 StateServing)
                    (Insert (witness_request Byte.x01 StateAssigned) NewInflight);
  mgr_Reservations := run_res_ops
    [OpReserve (replicate 16 Byte.x01) (replicate 32 Byte.x0c) 60 100 50;
     OpReserve (replicate 16 Byte.x02) (replicate 32 Byte.x0c) 30 100 80] |}.

Lemma SweepExpiredAndFail_spec_witness :
  let '(out, m') := SweepExpiredAndFail 60 witness_manager in
  map ex_AssignedSeeder out = [replicate 32 Byte.x05] ∧
  Reserved (replicate 32 Byte.x0c) (mgr_Reservations m') = 30 ∧
  res_inv (mgr_Reservations m') ∧ inflight_wf (mgr_Inflight m').
Proof.
  assert (Hi : res_inv (mgr_Reservations witness_manager)).
  { apply (run_res_ops_ind res_inv (λ _, True)); [apply res_inv_new| |repeat constructor].
    intros op r _. apply run_res_op_inv. }
  assert (Hwf : inflight_wf (mgr_Inflight witness_manager))
    by (apply Insert_wf, Insert_wf, NewInflight_wf).
  pose proof (SweepExpiredAndFail_spec 60 witness_manager Hi Hwf) as H. cbv zeta in H.
  destruct (SweepExpiredAndFail 60 witness_manager) as [out m'] eqn:E.
  destruct H as (Hi' & Hwf' & _).
  assert (Ho : out = fst (SweepExpiredAndFail 60 witness_manager)) by (rewrite E; reflexivity).
  assert (Hm : m' = snd (SweepExpiredAndFail 60 witness_manager)) by (rewrite E; reflexivity).
  split; [rewrite Ho; vm_compute; reflexivity|].
  split; [rewrite Hm; vm_compute; reflexivity|]. split; [exact Hi'|exact Hwf'].
Defined.

(** A request that has been indexed under [h1] and then under [h2], and has failed. *)
Definition reindexed (r : Request) (h1 h2 : bytes) (now : Z) : Inflight :=
  let id := RequestID r in
  snd (ForceFail id now (snd (IndexByHash id h2 (snd (IndexByHash id h1 (Insert r NewInflight)))))).

Lemma reindexed_eq r h1 h2 now :
  TerminatedAt r = zeroTime →
  reindexed r h1 h2 now =
  {| if_heap := {[0%nat := set_state StateFailed now (set_hash h2 (set_hash h1 r))]}; if_next := 1;
     if_byID := {[RequestID r := 0%nat]}; if_byHash := <[h2 := 0%nat]> {[h1 := 0%nat]} |}.
Proof.
  intros Hz. unfold reindexed, IndexByHash, with_request, Insert, NewInflight.
  cbn [if_heap if_byID if_next if_byHash]. rewrite !lookup_insert_eq.
  unfold gmodify, update_at. cbn [snd if_heap if_byID if_next if_byHash].
  rewrite !lookup_insert_eq, !insert_empty, !alter_singleton, !decide_True by done.
  rewrite !lookup_singleton_eq, !alter_singleton, !decide_True by done. cbn [snd if_heap if_byID if_next if_byHash].
  unfold ForceFail. cbn [if_heap if_byID if_next if_byHash].
  rewrite !lookup_singleton_eq. unfold update_at. cbn [snd if_heap if_byID if_next if_byHash].
  rewrite !alter_singleton, !decide_True by done. cbn [TerminatedAt set_hash]. by rewrite Hz, Z.eqb_refl.
Qed.

(** Re-indexing a request by a second preimage hash leaves the first mapping behind.
    After the request has terminated and been swept, a lookup by the first hash still finds
    it although the table no longer holds its id. *)
Lemma SweepTerminal_stale_hash r h1 h2 now :
  h1 ≠ h2 → TerminatedAt r = zeroTime →
  let f := snd (SweepTerminal now 0 (reindexed r h1 h2 now)) in
  Get (RequestID r) f = None ∧
  ∃ r', LookupByHash h1 f = Some r' ∧ RequestID r' = RequestID r ∧ rq_State r' = StateFailed.
Proof.
  intros Hne Hz f. unfold f. rewrite reindexed_eq by done. unfold SweepTerminal.
  cbn [if_byID]. rewrite map_to_list_singleton. cbn [foldl sweep_one snd if_heap fst].
  rewrite lookup_singleton_eq. cbn [rq_State TerminatedAt set_state PreimageHash set_hash].
  rewrite Z.sub_0_r, Z.leb_refl. change (terminal StateFailed) with true.
  cbn [andb snd]. split.
  - unfold Get, lookup_loc. cbn [if_byID]. by rewrite lookup_delete_eq.
  - unfold LookupByHash, lookup_loc. cbn [if_byHash if_heap].
    exists (set_state StateFailed now (set_hash h2 (set_hash h1 r))). split; [|done].
    assert ((if bool_decide (h2 = zeroID) then <[h2:=0%nat]> {[h1:=0%nat]}
             else delete h2 (<[h2:=0%nat]> {[h1:=0%nat]})) !! h1 = Some 0%nat) as ->.
    { case_bool_decide; [rewrite lookup_insert_ne by done|rewrite lookup_delete_ne, lookup_insert_ne by done];
        apply lookup_singleton_eq. }
    cbn. by rewrite lookup_singleton_eq.
Qed.

Lemma SweepTerminal_stale_hash_witness :
  let r := witness_request Byte.x01 StateServing in
  let f := snd (SweepTerminal 9 0 (reindexed r (replicate 32 Byte.x0a) (replicate 32 Byte.x0b) 9)) in
  Get (RequestID r) f = None ∧
  ∃ r', LookupByHash (replicate 32 Byte.x0a) f = Some r' ∧ RequestID r' = RequestID r ∧
    rq_State r' = StateFailed.
Proof.
  intros r f.
  apply (SweepTerminal_stale_hash r (replicate 32 Byte.x0a) (replicate 32 Byte.x0b) 9);
    [discriminate|reflexivity].
Defined.
