(* ===== verification/Registry.v ===== *)
(** tracker/internal/registry: the sharded, in-memory table of seeders.

    Every record that enters or leaves the table is deep-copied by the code, so records
    are values here and copies are not written. An operation works on one shard under its
    lock; a snapshot or sweep visits the shards in turn. The table is specified by a plain
    map from identities to records ([reg_spec]), which the shards are shown to refine. *)
From S2P Require Import Prelude Proto.
From Stdlib Require Import Floats.SpecFloat.

Record Capabilities := {
  cap_Models : list string; cap_MaxContext : Z; cap_Tiers : list PrivacyTier; cap_Attestation : bytes
}.

Record NetCoords := { nc_ExternalAddr : AddrPort; nc_LocalCandidates : list AddrPort }.

Record SeederRecord := {
  sr_IdentityID : bytes; sr_ConnSessionID : Z; sr_Capabilities : Capabilities;
  sr_Available : bool; sr_HeadroomEstimate : spec_float; sr_ReputationScore : spec_float;
  sr_NetCoords : NetCoords; sr_Load : Z; sr_LastHeartbeat : Z
}.

Inductive RegErr := ErrUnknownSeeder | ErrInvalidShardCount | ErrInvalidHeadroom | ErrLoadUnderflow.

(** ** One shard *)

Abbreviation shard := (gmap bytes SeederRecord).

Definition put (rec : SeederRecord) (s : shard) : shard := <[sr_IdentityID rec := rec]> s.

(** [fn] works on a copy, which is stored only if it succeeds. *)
Definition update {A} (id : bytes) (fn : SeederRecord → res RegErr (A * SeederRecord)) (s : shard)
    : res RegErr A * shard :=
  match s !! id with
  | None => (Err ErrUnknownSeeder, s)
  | Some r =>
    match fn r with
    | Err e => (Err e, s)
    | Ok (a, working) => (Ok a, <[id := working]> s)
    end
  end.

Definition snapshot (s : shard) : list SeederRecord := (map_to_list s).*2.

Definition stale (staleBefore : Z) (r : SeederRecord) : bool := sr_LastHeartbeat r <=? staleBefore.

Definition sweepStale (staleBefore : Z) (s : shard) : Z * shard :=
  let kept := filter (λ kv, stale staleBefore kv.2 = false) s in
  (Z.of_nat (size s) - Z.of_nat (size kept), kept).

(** ** The registry *)

Record Registry := { shards : list shard }.

Definition DefaultShardCount : Z := 16.

Definition New (numShards : Z) : res RegErr Registry :=
  if numShards <=? 0 then Err ErrInvalidShardCount
  else Ok {| shards := replicate (Z.to_nat numShards) ∅ |}.

Definition NumShards (r : Registry) : Z := blen (shards r).

Definition shardIndex (r : Registry) (id : bytes) : nat :=
  Z.to_nat (be_val (take 8 id) mod blen (shards r)).

Definition shardFor (r : Registry) (id : bytes) : shard := default ∅ (shards r !! shardIndex r id).

(** Run an operation on the shard an identity belongs to. *)
Definition on_shard {A} (id : bytes) (f : shard → A * shard) (r : Registry) : A * Registry :=
  let '(a, s) := f (shardFor r id) in
  (a, {| shards := <[shardIndex r id := s]> (shards r) |}).

Definition Register (rec : SeederRecord) (r : Registry) : Registry :=
  snd (on_shard (sr_IdentityID rec) (λ s, (tt, put rec s)) r).

Definition Get (id : bytes) (r : Registry) : option SeederRecord := shardFor r id !! id.

Definition Deregister (id : bytes) (r : Registry) : Registry :=
  snd (on_shard id (λ s, (tt, delete id s)) r).

Definition with_heartbeat (now : Z) (r : SeederRecord) : SeederRecord := {|
  sr_IdentityID := sr_IdentityID r; sr_ConnSessionID := sr_ConnSessionID r;
  sr_Capabilities := sr_Capabilities r; sr_Available := sr_Available r;
  sr_HeadroomEstimate := sr_HeadroomEstimate r; sr_ReputationScore := sr_ReputationScore r;
  sr_NetCoords := sr_NetCoords r; sr_Load := sr_Load r; sr_LastHeartbeat := now |}.

Definition with_external_addr (a : AddrPort) (r : SeederRecord) : SeederRecord := {|
  sr_IdentityID := sr_IdentityID r; sr_ConnSessionID := sr_ConnSessionID r;
  sr_Capabilities := sr_Capabilities r; sr_Available := sr_Available r;
  sr_HeadroomEstimate := sr_HeadroomEstimate r; sr_ReputationScore := sr_ReputationScore r;
  sr_NetCoords := {| nc_ExternalAddr := a; nc_LocalCandidates := nc_LocalCandidates (sr_NetCoords r) |};
  sr_Load := sr_Load r; sr_LastHeartbeat := sr_LastHeartbeat r |}.

Definition with_advertisement (caps : Capabilities) (available : bool) (headroom : spec_float)
    (r : SeederRecord) : SeederRecord := {|
  sr_IdentityID := sr_IdentityID r; sr_ConnSessionID := sr_ConnSessionID r;
  sr_Capabilities := caps; sr_Available := available;
  sr_HeadroomEstimate := headroom; sr_ReputationScore := sr_ReputationScore r;
  sr_NetCoords := sr_NetCoords r; sr_Load := sr_Load r; sr_LastHeartbeat := sr_LastHeartbeat r |}.

Definition with_reputation (score : spec_float) (r : SeederRecord) : SeederRecord := {|
  sr_IdentityID := sr_IdentityID r; sr_ConnSessionID := sr_ConnSessionID r;
  sr_Capabilities := sr_Capabilities r; sr_Available := sr_Available r;
  sr_HeadroomEstimate := sr_HeadroomEstimate r; sr_ReputationScore := score;
  sr_NetCoords := sr_NetCoords r; sr_Load := sr_Load r; sr_LastHeartbeat := sr_LastHeartbeat r |}.

Definition with_load (load : Z) (r : SeederRecord) : SeederRecord := {|
  sr_IdentityID := sr_IdentityID r; sr_ConnSessionID := sr_ConnSessionID r;
  sr_Capabilities := sr_Capabilities r; sr_Available := sr_Available r;
  sr_HeadroomEstimate := sr_HeadroomEstimate r; sr_ReputationScore := sr_ReputationScore r;
  sr_NetCoords := sr_NetCoords r; sr_Load := load; sr_LastHeartbeat := sr_LastHeartbeat r |}.

(** The callbacks given to [update]; the value returned is the new load, or 0. *)
Definition heartbeat_fn (now : Z) (rec : SeederRecord) : res RegErr (Z * SeederRecord) :=
  Ok (0, with_heartbeat now rec).

Definition external_addr_fn (addr : AddrPort) (rec : SeederRecord) : res RegErr (Z * SeederRecord) :=
  Ok (0, with_external_addr addr rec).

Definition advertise_fn (caps : Capabilities) (available : bool) (headroom : spec_float)
    (rec : SeederRecord) : res RegErr (Z * SeederRecord) :=
  Ok (0, with_advertisement caps available headroom rec).

Definition reputation_fn (score : spec_float) (rec : SeederRecord) : res RegErr (Z * SeederRecord) :=
  Ok (0, with_reputation score rec).

Definition inc_load_fn (rec : SeederRecord) : res RegErr (Z * SeederRecord) :=
  let rec' := with_load (i64 (sr_Load rec + 1)) rec in Ok (sr_Load rec', rec').

Definition dec_load_fn (rec : SeederRecord) : res RegErr (Z * SeederRecord) :=
  if sr_Load rec <=? 0 then Err ErrLoadUnderflow else
  let rec' := with_load (i64 (sr_Load rec - 1)) rec in Ok (sr_Load rec', rec').

Definition Heartbeat (id : bytes) (now : Z) : GoM Registry RegErr Z :=
  on_shard id (update id (heartbeat_fn now)).

Definition UpdateExternalAddr (id : bytes) (addr : AddrPort) : GoM Registry RegErr Z :=
  on_shard id (update id (external_addr_fn addr)).

(** [!(headroom >= 0.0 && headroom <= 1.0)], which also refuses NaN. *)
Definition headroom_ok (headroom : spec_float) : bool :=
  SFleb f64_zero headroom && SFleb headroom f64_one.

Definition Advertise (id : bytes) (caps : Capabilities) (available : bool) (headroom : spec_float)
    : GoM Registry RegErr Z :=
  if negb (headroom_ok headroom) then gfail ErrInvalidHeadroom
  else on_shard id (update id (advertise_fn caps available headroom)).

Definition UpdateReputation (id : bytes) (score : spec_float) : GoM Registry RegErr Z :=
  on_shard id (update id (reputation_fn score)).

Definition IncLoad (id : bytes) : GoM Registry RegErr Z := on_shard id (update id inc_load_fn).

Definition DecLoad (id : bytes) : GoM Registry RegErr Z := on_shard id (update id dec_load_fn).

Definition Snapshot (r : Registry) : list SeederRecord := shards r ≫= snapshot.

Record Filter := {
  flt_RequireAvailable : bool; flt_Model : string; flt_Tier : PrivacyTier;
  flt_MinHeadroom : spec_float; flt_MaxLoad : Z
}.

Definition containsString (xs : list string) (want : string) : bool :=
  existsb (λ x, bool_decide (x = want)) xs.

Definition containsTier (xs : list PrivacyTier) (want : PrivacyTier) : bool :=
  existsb (λ x, bool_decide (x = want)) xs.

(** One record of the loop of [Match]: false is [continue]. *)
Definition matches (f : Filter) (rec : SeederRecord) : bool :=
  if flt_RequireAvailable f && negb (sr_Available rec) then false
  else if negb (bool_decide (flt_Model f = ""))
          && negb (containsString (cap_Models (sr_Capabilities rec)) (flt_Model f)) then false
  else if negb (bool_decide (flt_Tier f = PRIVACY_TIER_UNSPECIFIED))
          && negb (containsTier (cap_Tiers (sr_Capabilities rec)) (flt_Tier f)) then false
  else if SFltb (sr_HeadroomEstimate rec) (flt_MinHeadroom f) then false
  else if (0 <? flt_MaxLoad f) && (flt_MaxLoad f <=? sr_Load rec) then false
  else true.

Definition Match (f : Filter) (r : Registry) : list SeederRecord :=
  List.filter (matches f) (Snapshot r).

Fixpoint sweep_shards (staleBefore : Z) (ss : list shard) : Z * list shard :=
  match ss with
  | [] => (0, [])
  | s :: ss' =>
    let '(n, s1) := sweepStale staleBefore s in
    let '(total, ss1) := sweep_shards staleBefore ss' in
    (n + total, s1 :: ss1)
  end.

Definition Sweep (staleBefore : Z) (r : Registry) : Z * Registry :=
  let '(total, ss) := sweep_shards staleBefore (shards r) in (total, {| shards := ss |}).

(** ** The specification: one map *)

Inductive reg_op :=
| OpRegister (rec : SeederRecord)
| OpDeregister (id : bytes)
| OpHeartbeat (id : bytes) (now : Z)
| OpUpdateExternalAddr (id : bytes) (addr : AddrPort)
| OpAdvertise (id : bytes) (caps : Capabilities) (available : bool) (headroom : spec_float)
| OpUpdateReputation (id : bytes) (score : spec_float)
| OpIncLoad (id : bytes)
| OpDecLoad (id : bytes)
| OpSweep (staleBefore : Z).

Definition run_reg_op (op : reg_op) (r : Registry) : res RegErr Z * Registry :=
  match op with
  | OpRegister rec => (Ok 0, Register rec r)
  | OpDeregister id => (Ok 0, Deregister id r)
  | OpHeartbeat id now => Heartbeat id now r
  | OpUpdateExternalAddr id addr => UpdateExternalAddr id addr r
  | OpAdvertise id caps av h => Advertise id caps av h r
  | OpUpdateReputation id score => UpdateReputation id score r
  | OpIncLoad id => IncLoad id r
  | OpDecLoad id => DecLoad id r
  | OpSweep t => let '(n, r') := Sweep t r in (Ok n, r')
  end.

(** The same operations on a plain map. *)
Definition reg_spec (op : reg_op) (m : shard) : res RegErr Z * shard :=
  match op with
  | OpRegister rec => (Ok 0, <[sr_IdentityID rec := rec]> m)
  | OpDeregister id => (Ok 0, delete id m)
  | OpHeartbeat id now => update id (heartbeat_fn now) m
  | OpUpdateExternalAddr id addr => update id (external_addr_fn addr) m
  | OpAdvertise id caps av h =>
      if headroom_ok h then update id (advertise_fn caps av h) m else (Err ErrInvalidHeadroom, m)
  | OpUpdateReputation id score => update id (reputation_fn score) m
  | OpIncLoad id => update id inc_load_fn m
  | OpDecLoad id => update id dec_load_fn m
  | OpSweep t => let p := sweepStale t m in (Ok p.1, p.2)
  end.

(** Several operations, with their results. *)
Fixpoint run_all {S A} (step : reg_op → S → A * S) (ops : list reg_op) (s : S) : list A * S :=
  match ops with
  | [] => ([], s)
  | op :: ops' =>
    let '(a, s1) := step op s in
    let '(out, s2) := run_all step ops' s1 in
    (a :: out, s2)
  end.

(** The shards together hold the map [m], each record in the shard of its identity. *)
Record reg_rel (r : Registry) (m : shard) : Prop := {
  rr_nonempty : shards r ≠ [];
  rr_place i s id rec : shards r !! i = Some s → s !! id = Some rec →
    shardIndex r id = i ∧ sr_IdentityID rec = id;
  rr_get id : Get id r = m !! id
}.

(** An operation that depends on and changes one identity's entry only. *)
Record local_op {A} (id : bytes) (f : shard → A * shard) : Prop := {
  lo_same s m : s !! id = m !! id → fst (f s) = fst (f m) ∧ snd (f s) !! id = snd (f m) !! id;
  lo_frame s id' : id' ≠ id → snd (f s) !! id' = s !! id';
  lo_ident s rec : (∀ rec0, s !! id = Some rec0 → sr_IdentityID rec0 = id) →
    snd (f s) !! id = Some rec → sr_IdentityID rec = id
}.

(** ** Refinement lemmas *)

Lemma shardIndex_lt (r : Registry) (id : bytes) : shards r ≠ [] → (shardIndex r id < length (shards r))%nat.
Proof.
  intros Hne. unfold shardIndex, blen.
  assert (0 < Z.of_nat (length (shards r))) by (destruct (shards r); simpl; [done|lia]).
  pose proof (Z.mod_pos_bound (be_val (take 8 id)) (Z.of_nat (length (shards r))) ltac:(lia)). lia.
Qed.

Lemma shardFor_lookup (r : Registry) (id : bytes) :
  shards r ≠ [] → shards r !! shardIndex r id = Some (shardFor r id).
Proof.
  intros Hne. unfold shardFor. pose proof (shardIndex_lt r id Hne) as Hlt.
  apply lookup_lt_is_Some in Hlt as [s ->]. done.
Qed.

Lemma shardIndex_set r i s id :
  shardIndex {| shards := <[i := s]> (shards r) |} id = shardIndex r id.
Proof. unfold shardIndex, blen. simpl. by rewrite length_insert. Qed.

Lemma on_shard_refines {A} (id : bytes) (f : shard → A * shard) (r : Registry) (m : shard) :
  local_op id f → reg_rel r m →
  fst (on_shard id f r) = fst (f m) ∧ reg_rel (snd (on_shard id f r)) (snd (f m)).
Proof.
  intros Hlo Hrel. pose proof (rr_nonempty _ _ Hrel) as Hne.
  pose proof (shardFor_lookup r id Hne) as Hsh.
  destruct (lo_same _ _ Hlo (shardFor r id) m (rr_get _ _ Hrel id)) as [Ha Hs].
  pose proof (lo_frame _ _ Hlo (shardFor r id)) as Hfs. pose proof (lo_frame _ _ Hlo m) as Hfm.
  unfold on_shard. destruct (f (shardFor r id)) as [a s] eqn:Ef. cbn [fst snd] in *.
  split; [done|]. constructor.
  - simpl. intros He. apply (f_equal length) in He. rewrite length_insert in He. by destruct (shards r).
  - intros i s' id' rec Hi Hl. rewrite shardIndex_set. simpl in Hi.
    apply list_lookup_insert_Some in Hi as [(<- & <- & _)|[Hne' Hi]]; [|by eapply (rr_place _ _ Hrel)].
    destruct (decide (id' = id)) as [->|Hid].
    + split; [done|]. apply (lo_ident _ _ Hlo (shardFor r id)); [|by rewrite Ef].
      intros rec0 Hr0. by destruct (rr_place _ _ Hrel _ _ _ _ Hsh Hr0).
    + rewrite Hfs in Hl by done. by eapply (rr_place _ _ Hrel).
  - intros id'. unfold Get, shardFor. rewrite shardIndex_set. simpl.
    destruct (decide (shardIndex r id' = shardIndex r id)) as [He|He].
    + rewrite He, list_lookup_insert_eq by by apply shardIndex_lt. simpl.
      destruct (decide (id' = id)) as [->|Hid]; [done|].
      rewrite Hfs, Hfm, <- (rr_get _ _ Hrel id') by done. unfold Get, shardFor. by rewrite He.
    + rewrite list_lookup_insert_ne by done. fold (shardFor r id'). fold (Get id' r).
      rewrite (rr_get _ _ Hrel), Hfm; [done|]. by intros ->.
Qed.

Lemma local_put rec : local_op (sr_IdentityID rec) (λ s, (tt, put rec s)).
Proof.
  constructor; simpl; unfold put.
  - intros s m _. by rewrite !lookup_insert_eq.
  - intros s id' Hne. by rewrite lookup_insert_ne.
  - intros s rec' _. rewrite lookup_insert_eq. by intros [= ->].
Qed.

Lemma local_delete (id : bytes) : local_op id (λ s : shard, (tt, delete id s)).
Proof.
  constructor; simpl.
  - intros s m _. by rewrite !lookup_delete_eq.
  - intros s id' Hne. by rewrite lookup_delete_ne.
  - intros s rec' _. by rewrite lookup_delete_eq.
Qed.

Lemma local_update {A} (id : bytes) (fn : SeederRecord → res RegErr (A * SeederRecord)) :
  (∀ r a r', fn r = Ok (a, r') → sr_IdentityID r' = sr_IdentityID r) → local_op id (update id fn).
Proof.
  intros Hfn. constructor; unfold update.
  - intros s m Hsm. rewrite Hsm. destruct (m !! id) as [rec|] eqn:Em; simpl; [|by rewrite Hsm, Em].
    destruct (fn rec) as [[a w]|e]; simpl; [by rewrite !lookup_insert_eq|by rewrite Hsm, Em].
  - intros s id' Hne. destruct (s !! id) as [rec|]; [|done].
    destruct (fn rec) as [[a w]|e]; simpl; [by rewrite lookup_insert_ne|done].
  - intros s rec' Hid Hl. destruct (s !! id) as [rec|] eqn:Es; simpl in *; [|congruence].
    destruct (fn rec) as [[a w]|e] eqn:Ef; simpl in *; [|rewrite Es in Hl; by apply Hid].
    rewrite lookup_insert_eq in Hl. injection Hl as <-. rewrite (Hfn _ _ _ Ef). by apply Hid.
Qed.

Lemma inc_load_ident r a r' : inc_load_fn r = Ok (a, r') → sr_IdentityID r' = sr_IdentityID r.
Proof. unfold inc_load_fn. by intros [= _ <-]. Qed.

Lemma dec_load_ident r a r' : dec_load_fn r = Ok (a, r') → sr_IdentityID r' = sr_IdentityID r.
Proof. unfold dec_load_fn. destruct (_ <=? 0); [done|]. by intros [= _ <-]. Qed.

(** Distinct shards hold distinct identities, so the records of all shards are those of
    the map, each once. *)
Lemma NoDup_bind_shards (h : bytes → nat) (ss : list shard) k :
  (∀ i s id rec, ss !! i = Some s → s !! id = Some rec → h id = (k + i)%nat) →
  NoDup (ss ≫= map_to_list).
Proof.
  revert k. induction ss as [|s ss IH]; intros k Hh; [constructor|]. simpl.
  apply NoDup_app. split_and!.
  - apply NoDup_map_to_list.
  - intros [id rec] Hin (s' & Hin' & Hs')%list_elem_of_bind.
    apply elem_of_map_to_list in Hin, Hin'. apply list_elem_of_lookup in Hs' as [i Hi].
    pose proof (Hh 0%nat s id rec eq_refl Hin). pose proof (Hh (S i) s' id rec Hi Hin'). lia.
  - apply (IH (S k)). intros i s' id rec Hi Hl. rewrite (Hh (S i) s' id rec Hi Hl). lia.
Qed.

Lemma Snapshot_perm r m : reg_rel r m → Snapshot r ≡ₚ (map_to_list m).*2.
Proof.
  intros Hrel. assert (shards r ≫= map_to_list ≡ₚ map_to_list m) as Hp.
  { apply NoDup_Permutation.
    - apply (NoDup_bind_shards (shardIndex r) _ 0). intros i s id rec Hi Hl.
      by destruct (rr_place _ _ Hrel _ _ _ _ Hi Hl).
    - apply NoDup_map_to_list.
    - intros [id rec]. rewrite elem_of_map_to_list, <- (rr_get _ _ Hrel). split.
      + intros (s & Hin & Hs)%list_elem_of_bind. apply elem_of_map_to_list in Hin.
        apply list_elem_of_lookup in Hs as [i Hi].
        destruct (rr_place _ _ Hrel _ _ _ _ Hi Hin) as [Hix _].
        unfold Get, shardFor. rewrite Hix, Hi. done.
      + intros Hg. apply list_elem_of_bind. exists (shardFor r id).
        split; [by apply elem_of_map_to_list|].
        eapply list_elem_of_lookup_2, shardFor_lookup, Hrel. }
  unfold Snapshot, snapshot. rewrite <- Hp. clear.
  induction (shards r) as [|s ss IH]; simpl; [done|]. by rewrite fmap_app, IH.
Qed.

Lemma sweep_shards_spec (t : Z) (ss : list shard) :
  sweep_shards t ss = (lsum (λ s, fst (sweepStale t s)) ss, map (λ s, snd (sweepStale t s)) ss).
Proof.
  induction ss as [|s ss IH]; [done|]. cbn [sweep_shards]. rewrite IH.
  cbn [lsum foldr map]. destruct (sweepStale t s). reflexivity.
Qed.

Lemma length_Snapshot r : blen (Snapshot r) = lsum (λ s, Z.of_nat (size s)) (shards r).
Proof.
  unfold Snapshot, blen. induction (shards r) as [|s ss IH]; [done|].
  rewrite bind_cons, length_app, Nat2Z.inj_add, IH. cbn [lsum foldr]. unfold snapshot.
  by rewrite length_fmap, length_map_to_list.
Qed.

Lemma rel_size (r : Registry) (m : shard) :
  reg_rel r m → lsum (λ s, Z.of_nat (size s)) (shards r) = Z.of_nat (size m).
Proof.
  intros Hrel. rewrite <- length_Snapshot. unfold blen.
  by rewrite (Snapshot_perm r m Hrel), length_fmap, length_map_to_list.
Qed.

Lemma Sweep_refines (t : Z) (r : Registry) (m : shard) :
  reg_rel r m →
  fst (Sweep t r) = fst (sweepStale t m) ∧ reg_rel (snd (Sweep t r)) (snd (sweepStale t m)).
Proof.
  intros Hrel. unfold Sweep. rewrite sweep_shards_spec. cbn [fst snd].
  set (r' := {| shards := map (λ s, snd (sweepStale t s)) (shards r) |}).
  assert (∀ id, shardIndex r' id = shardIndex r id) as Hix
    by (intros; unfold shardIndex, blen, r'; simpl; by rewrite length_map).
  assert (∀ id, shardFor r' id = snd (sweepStale t (shardFor r id))) as Hsf.
  { intros id. unfold shardFor. rewrite Hix. unfold r'. simpl. rewrite list_lookup_fmap.
    by destruct (shards r !! shardIndex r id). }
  assert (reg_rel r' (snd (sweepStale t m))) as Hrel'.
  { constructor.
    - unfold r'. simpl. pose proof (rr_nonempty _ _ Hrel). by destruct (shards r).
    - intros i s id rec Hi Hl. rewrite Hix. unfold r' in Hi. simpl in Hi.
      apply list_lookup_fmap_Some in Hi as (s0 & -> & Hi).
      apply map_lookup_filter_Some in Hl as [Hl _]. by eapply (rr_place _ _ Hrel).
    - intros id. unfold Get. rewrite Hsf. simpl. rewrite !map_lookup_filter.
      fold (Get id r). by rewrite (rr_get _ _ Hrel). }
  split; [|done]. pose proof (rel_size _ _ Hrel) as H1. pose proof (rel_size _ _ Hrel') as H2.
  unfold sweepStale in *. cbn [fst snd] in *. rewrite <- H1, <- H2. unfold r'. cbn [shards]. clear.
  induction (shards r) as [|s ss IH]; simpl in *; [done|]. lia.
Qed.

Lemma run_reg_op_refines (op : reg_op) (r : Registry) (m : shard) :
  reg_rel r m →
  fst (run_reg_op op r) = fst (reg_spec op m) ∧ reg_rel (snd (run_reg_op op r)) (snd (reg_spec op m)).
Proof.
  intros Hrel. destruct op as [rec|id|id now|id addr|id caps av h|id score|id|id|t]; simpl.
  - split; [done|]. apply (on_shard_refines _ _ r m (local_put rec) Hrel).
  - split; [done|]. apply (on_shard_refines _ _ r m (local_delete id) Hrel).
  - apply on_shard_refines; [|done]. apply local_update. by intros ??? [= _ <-].
  - apply on_shard_refines; [|done]. apply local_update. by intros ??? [= _ <-].
  - unfold Advertise. destruct (headroom_ok h); [|done]. simpl.
    apply on_shard_refines; [|done]. apply local_update. by intros ??? [= _ <-].
  - apply on_shard_refines; [|done]. apply local_update. by intros ??? [= _ <-].
  - apply on_shard_refines; [|done]. apply local_update, inc_load_ident.
  - apply on_shard_refines; [|done]. apply local_update, dec_load_ident.
  - destruct (Sweep_refines t r m Hrel) as [H1 H2]. destruct (Sweep t r). simpl in *.
    split; [by rewrite H1|done].
Qed.

Lemma New_rel n r : New n = Ok r → reg_rel r ∅.
Proof.
  unfold New. destruct (n <=? 0) eqn:E; [done|]. bool_to_prop. intros [= <-].
  assert (∀ i (s : shard), replicate (Z.to_nat n) (∅ : shard) !! i = Some s → s = ∅) as He
    by (intros i s Hs; by apply lookup_replicate in Hs as [-> _]).
  constructor; simpl.
  - intros Hr. apply (f_equal length) in Hr. rewrite length_replicate in Hr. simpl in Hr. lia.
  - intros i s id rec Hi Hl. rewrite (He _ _ Hi) in Hl. by rewrite lookup_empty in Hl.
  - intros id. unfold Get, shardFor. simpl.
    destruct (replicate _ _ !! _) as [s|] eqn:Es; simpl; [by rewrite (He _ _ Es)|done].
Qed.

Lemma run_all_refines (ops : list reg_op) (r : Registry) (m : shard) :
  reg_rel r m →
  fst (run_all run_reg_op ops r) = fst (run_all reg_spec ops m) ∧
  reg_rel (snd (run_all run_reg_op ops r)) (snd (run_all reg_spec ops m)).
Proof.
  revert r m. induction ops as [|op ops IH]; intros r m Hrel; [done|]. cbn [run_all].
  destruct (run_reg_op_refines op r m Hrel) as [Ha Hr].
  destruct (run_reg_op op r) as [a r1], (reg_spec op m) as [b m1]. cbn [fst snd] in *.
  destruct (IH r1 m1 Hr) as [Hout Hr2].
  destruct (run_all run_reg_op ops r1), (run_all reg_spec ops m1). cbn [fst snd] in *.
  split; [congruence|done].
Qed.

(** ** Properties *)

(** Sharding is invisible. For any positive shard count and any sequence of operations,
    every result (loads, sweep counts, errors) is that of the same sequence on one plain
    map, [Get] finds exactly the map's record, and [Snapshot] and [Match] return the map's
    records, respectively those that satisfy the filter, each exactly once. *)
Lemma registry_refines_map n r ops :
  New n = Ok r →
  let '(out, r') := run_all run_reg_op ops r in
  let '(out_spec, m) := run_all reg_spec ops ∅ in
  out = out_spec ∧ (∀ id, Get id r' = m !! id) ∧ Snapshot r' ≡ₚ (map_to_list m).*2 ∧
  ∀ f, Match f r' ≡ₚ List.filter (matches f) (map_to_list m).*2.
Proof.
  intros Hn%New_rel. destruct (run_all_refines ops r ∅ Hn) as [Hout Hrel].
  destruct (run_all run_reg_op ops r) as [out r'], (run_all reg_spec ops ∅) as [out_spec m].
  cbn [fst snd] in *. split_and!; [done|apply Hrel|by apply Snapshot_perm|].
  intros f. unfold Match. apply Snapshot_perm in Hrel. induction Hrel; simpl;
    repeat case_match; eauto using Permutation, perm_trans.
Qed.

Definition witness_seeder (id : byte) (load heartbeat : Z) : SeederRecord := {|
  sr_IdentityID := replicate 32 id; sr_ConnSessionID := 1;
  sr_Capabilities := {| cap_Models := ["m"]; cap_MaxContext := 1000;
                        cap_Tiers := [PRIVACY_TIER_STANDARD]; cap_Attestation := [] |};
  sr_Available := true; sr_HeadroomEstimate := f64_one; sr_ReputationScore := f64_one;
  sr_NetCoords := {| nc_ExternalAddr := zeroAddrPort; nc_LocalCandidates := [] |};
  sr_Load := load; sr_LastHeartbeat := heartbeat |}.

Lemma registry_refines_map_witness :
  ∃ r, New 4 = Ok r ∧
    let ops := [OpRegister (witness_seeder Byte.x05 0 10); OpRegister (witness_seeder Byte.x06 0 90);
                OpIncLoad (replicate 32 Byte.x05); OpDecLoad (replicate 32 Byte.x06); OpSweep 50] in
    let '(out, r') := run_all run_reg_op ops r in
    out = [Ok 0; Ok 0; Ok 1; Err ErrLoadUnderflow; Ok 1] ∧
    Get (replicate 32 Byte.x05) r' = None.
Proof.
  eexists. split; [reflexivity|]. intros ops.
  pose proof (registry_refines_map 4 _ ops eq_refl) as H.
  destruct (run_all run_reg_op ops _) as [out r'].
  destruct (run_all reg_spec ops ∅) as [out_spec m] eqn:E.
  assert (Ho : out_spec = fst (run_all reg_spec ops ∅)) by (rewrite E; reflexivity).
  assert (Hm : m = snd (run_all reg_spec ops ∅)) by (rewrite E; reflexivity).
  destruct H as (H1 & H2 & _). rewrite H1, H2, Ho, Hm. split; vm_compute; reflexivity.
Defined.

(** Load changes of one seeder: true is [IncLoad], false [DecLoad]. *)
Definition load_ops (id : bytes) (bs : list bool) : list reg_op :=
  map (λ b, if b : bool then OpIncLoad id else OpDecLoad id) bs.

(** What the results say: an increment counts one, a decrement that succeeded minus one. *)
Fixpoint net_load (bs : list bool) (out : list (res RegErr Z)) : Z :=
  match bs, out with
  | b :: bs', a :: out' => (if b then 1 else if is_ok a then -1 else 0) + net_load bs' out'
  | _, _ => 0
  end.

Lemma load_ops_spec (id : bytes) (bs : list bool) (m : shard) rec :
  m !! id = Some rec → 0 <= sr_Load rec → sr_Load rec + blen bs < 2 ^ 63 →
  let '(out, m') := run_all reg_spec (load_ops id bs) m in
  m' = <[id := with_load (sr_Load rec + net_load bs out) rec]> m ∧
  0 <= sr_Load rec + net_load bs out.
Proof.
  revert m rec. induction bs as [|b bs IH]; intros m rec Hm Hpos Hlt; cbn [load_ops map run_all].
  - rewrite Z.add_0_r. split; [|lia]. rewrite insert_id; [done|]. rewrite Hm. by destruct rec.
  - rewrite blen_cons in Hlt. assert (0 <= blen bs) by (unfold blen; lia).
    assert (∀ l, with_load l (with_load (sr_Load rec + 1) rec) = with_load l rec ∧
                 with_load l (with_load (sr_Load rec - 1) rec) = with_load l rec) as Hw by done.
    fold (load_ops id bs).
    destruct b; cbn [reg_spec]; unfold update; rewrite Hm.
    + unfold inc_load_fn. rewrite i64_id by (unfold is_i64; lia).
      specialize (IH (<[id := with_load (sr_Load rec + 1) rec]> m) (with_load (sr_Load rec + 1) rec)).
      destruct (run_all reg_spec (load_ops id bs) _) as [out m'] eqn:E.
      destruct IH as [Hm' Hp]; [by rewrite lookup_insert_eq|simpl; lia..|].
      simpl in *. rewrite insert_insert_eq in Hm'. split; [|lia].
      rewrite Hm'. f_equal. rewrite (proj1 (Hw _)). f_equal. lia.
    + unfold dec_load_fn. destruct (sr_Load rec <=? 0) eqn:E0; bool_to_prop.
      * specialize (IH m rec Hm Hpos ltac:(lia)).
        destruct (run_all reg_spec (load_ops id bs) m) as [out m']. simpl. by rewrite Z.add_0_l.
      * rewrite i64_id by (unfold is_i64; lia).
        specialize (IH (<[id := with_load (sr_Load rec - 1) rec]> m) (with_load (sr_Load rec - 1) rec)).
        destruct (run_all reg_spec (load_ops id bs) _) as [out m'] eqn:E.
        destruct IH as [Hm' Hp]; [by rewrite lookup_insert_eq|simpl; lia..|].
        simpl in *. rewrite insert_insert_eq in Hm'. split; [|lia].
        rewrite Hm'. f_equal. rewrite (proj2 (Hw _)). f_equal. lia.
Qed.

(** Load accounting. Over any interleaving of increments and decrements of a registered
    seeder's load, the load ends at its start plus the increments minus the decrements
    that reported success; it never goes below zero, a decrement at zero being refused;
    and nothing else in the registry changes. *)
Lemma registry_load_accounting (id : bytes) (bs : list bool) (r : Registry) (m : shard) rec :
  reg_rel r m → Get id r = Some rec → 0 <= sr_Load rec → sr_Load rec + blen bs < 2 ^ 63 →
  let '(out, r') := run_all run_reg_op (load_ops id bs) r in
  Get id r' = Some (with_load (sr_Load rec + net_load bs out) rec) ∧
  0 <= sr_Load rec + net_load bs out ∧
  ∀ id', id' ≠ id → Get id' r' = Get id' r.
Proof.
  intros Hrel Hg Hpos Hlt. destruct (run_all_refines (load_ops id bs) r m Hrel) as [Hout Hrel'].
  rewrite (rr_get _ _ Hrel) in Hg. pose proof (load_ops_spec id bs m rec Hg Hpos Hlt) as Hs.
  destruct (run_all run_reg_op (load_ops id bs) r) as [out r'].
  destruct (run_all reg_spec (load_ops id bs) m) as [out' m']. cbn [fst snd] in *. subst out'.
  destruct Hs as [-> Hp]. split_and!.
  - rewrite (rr_get _ _ Hrel'). by rewrite lookup_insert_eq.
  - done.
  - intros id' Hne. rewrite (rr_get _ _ Hrel'), (rr_get _ _ Hrel). by rewrite lookup_insert_ne.
Qed.

Lemma registry_load_accounting_witness :
  ∃ r, New 4 = Ok r ∧
    let r0 := Register (witness_seeder Byte.x05 0 10) r in
    let '(out, r') := run_all run_reg_op (load_ops (replicate 32 Byte.x05) [true; false; false; true]) r0 in
    out = [Ok 1; Ok 0; Err ErrLoadUnderflow; Ok 1] ∧
    sr_Load <$> Get (replicate 32 Byte.x05) r' = Some 1.
Proof.
  eexists. split; [reflexivity|]. intros r0.
  destruct (run_reg_op_refines (OpRegister (witness_seeder Byte.x05 0 10)) _ ∅ (New_rel 4 _ eq_refl))
    as [_ Hrel].
  pose proof (registry_load_accounting (replicate 32 Byte.x05) [true; false; false; true] r0 _
                (witness_seeder Byte.x05 0 10) Hrel) as H.
  destruct (run_all run_reg_op (load_ops (replicate 32 Byte.x05) [true; false; false; true]) r0)
    as [out r'] eqn:E.
  assert (Ho : out = fst (run_all run_reg_op (load_ops (replicate 32 Byte.x05) [true; false; false; true]) r0))
    by (rewrite E; reflexivity).
  destruct H as (H1 & _ & _); [vm_compute; reflexivity|vm_compute; discriminate|vm_compute; reflexivity|].
  split; [rewrite Ho; vm_compute; reflexivity|].
  rewrite H1, Ho. vm_compute. reflexivity.
Defined.
