(* ===== verification/Relay.v ===== *)
(** tracker/internal/stunturn: the TURN session table, its per-seeder bandwidth buckets and
    its expiry.

    A session object is shared by three maps and written through the pointer; the objects
    are kept in a heap and the maps hold locations. Every method holds one mutex, so each is
    one step. The random token is an argument. The STUN packet codec is a third-party
    library's and is not modelled. *)
From S2P Require Import Prelude Float Proto.
From Stdlib Require Import Floats.SpecFloat.

Inductive RelayErr :=
| ErrInvalidConfig (msg : string) | ErrUnknownToken | ErrSessionExpired | ErrThrottled
| ErrDuplicateRequest | ErrRandFailed
| Panic (msg : string).

Record AllocatorConfig := { ac_MaxKbpsPerSeeder : Z; ac_SessionTTL : Z }.

Record TurnSession := {
  ts_Token : bytes; ts_SessionID : Z; ts_ConsumerID : bytes; ts_SeederID : bytes;
  ts_RequestID : bytes; ts_AllocatedAt : Z; ts_LastActive : Z
}.

Record tokenBucket := {
  tb_capacityBytes : spec_float; tb_refillPerSec : spec_float; tb_available : spec_float;
  tb_lastRefill : Z
}.

Record Allocator := {
  al_heap : gmap nat TurnSession; al_loc : nat; al_nextID : Z; al_byToken : gmap bytes nat;
  al_bySID : gmap Z nat; al_byReq : gmap bytes nat; al_buckets : gmap bytes tokenBucket
}.

Definition NewAllocator (cfg : AllocatorConfig) : res RelayErr Allocator :=
  if ac_MaxKbpsPerSeeder cfg <=? 0 then Err (ErrInvalidConfig "MaxKbpsPerSeeder must be > 0")
  else if ac_SessionTTL cfg <=? 0 then Err (ErrInvalidConfig "SessionTTL must be > 0")
  else Ok {| al_heap := ∅; al_loc := 0; al_nextID := 0; al_byToken := ∅; al_bySID := ∅;
             al_byReq := ∅; al_buckets := ∅ |}.

Definition set_bucket (seeder : bytes) (b : tokenBucket) (a : Allocator) : Allocator := {|
  al_heap := al_heap a; al_loc := al_loc a; al_nextID := al_nextID a; al_byToken := al_byToken a;
  al_bySID := al_bySID a; al_byReq := al_byReq a; al_buckets := <[seeder := b]> (al_buckets a) |}.

Definition with_active (now : Z) (e : TurnSession) : TurnSession := {|
  ts_Token := ts_Token e; ts_SessionID := ts_SessionID e; ts_ConsumerID := ts_ConsumerID e;
  ts_SeederID := ts_SeederID e; ts_RequestID := ts_RequestID e;
  ts_AllocatedAt := ts_AllocatedAt e; ts_LastActive := now |}.

(** [entry.session.LastActive = now], through the pointer. *)
Definition touch (l : nat) (now : Z) (a : Allocator) : Allocator := {|
  al_heap := alter (with_active now) l (al_heap a); al_loc := al_loc a; al_nextID := al_nextID a;
  al_byToken := al_byToken a; al_bySID := al_bySID a; al_byReq := al_byReq a;
  al_buckets := al_buckets a |}.

Definition deleteIndexes (e : TurnSession) (a : Allocator) : Allocator := {|
  al_heap := al_heap a; al_loc := al_loc a; al_nextID := al_nextID a;
  al_byToken := delete (ts_Token e) (al_byToken a);
  al_bySID := delete (ts_SessionID e) (al_bySID a);
  al_byReq := delete (ts_RequestID e) (al_byReq a); al_buckets := al_buckets a |}.

Definition refill (now : Z) (b : tokenBucket) : tokenBucket :=
  let elapsed := Seconds (time_Sub now (tb_lastRefill b)) in
  if SFleb elapsed f64_zero then b else
  let available := f64_add (tb_available b) (f64_mul elapsed (tb_refillPerSec b)) in
  {| tb_capacityBytes := tb_capacityBytes b; tb_refillPerSec := tb_refillPerSec b;
     tb_available := if SFltb (tb_capacityBytes b) available then tb_capacityBytes b else available;
     tb_lastRefill := now |}.

Definition debit (n : Z) (b : tokenBucket) : tokenBucket := {|
  tb_capacityBytes := tb_capacityBytes b; tb_refillPerSec := tb_refillPerSec b;
  tb_available := f64_sub (tb_available b) (f64_of_int n); tb_lastRefill := tb_lastRefill b |}.

Section allocator.
Variable cfg : AllocatorConfig.

Definition newBucket (now : Z) : tokenBucket :=
  let capBytes := f64_div (f64_mul (f64_of_int (ac_MaxKbpsPerSeeder cfg)) (f64_of_int 1024)) (f64_of_int 8) in
  {| tb_capacityBytes := capBytes; tb_refillPerSec := capBytes; tb_available := capBytes;
     tb_lastRefill := now |}.

(** The seeder's bucket, created when absent. *)
Definition ensureBucket (seeder : bytes) (now : Z) (a : Allocator) : tokenBucket * Allocator :=
  match al_buckets a !! seeder with
  | Some b => (b, a)
  | None => let b := newBucket now in (b, set_bucket seeder b a)
  end.

(** [tok] is what the random source yields, [None] its failure. *)
Definition Allocate (tok : option bytes) (consumer seeder requestID : bytes) (now : Z)
    : GoM Allocator RelayErr TurnSession := λ a,
  match al_byReq a !! requestID with
  | Some _ => (Err ErrDuplicateRequest, a)
  | None =>
    match tok with
    | None => (Err ErrRandFailed, a)
    | Some tok =>
      match al_byToken a !! tok with
      | Some _ => (Err ErrRandFailed, a)
      | None =>
        let nextID := u64 (al_nextID a + 1) in
        let e := {| ts_Token := tok; ts_SessionID := nextID; ts_ConsumerID := consumer;
                    ts_SeederID := seeder; ts_RequestID := requestID; ts_AllocatedAt := now;
                    ts_LastActive := now |} in
        let l := al_loc a in
        (Ok e, snd (ensureBucket seeder now {|
          al_heap := <[l := e]> (al_heap a); al_loc := S l; al_nextID := nextID;
          al_byToken := <[tok := l]> (al_byToken a); al_bySID := <[nextID := l]> (al_bySID a);
          al_byReq := <[requestID := l]> (al_byReq a); al_buckets := al_buckets a |}))
      end
    end
  end.

Definition Resolve (tok : bytes) (a : Allocator) : option TurnSession :=
  al_byToken a !! tok ≫= λ l, al_heap a !! l.

Definition expired (now : Z) (e : TurnSession) : bool :=
  ac_SessionTTL cfg <? time_Sub now (ts_LastActive e).

(** A location without an object cannot occur. *)
Definition ResolveAndCharge (tok : bytes) (n now : Z) : GoM Allocator RelayErr TurnSession := λ a,
  match al_byToken a !! tok with
  | None => (Err ErrUnknownToken, a)
  | Some l =>
    match al_heap a !! l with
    | None => (Err ErrUnknownToken, a)
    | Some e =>
      if expired now e then (Err ErrSessionExpired, deleteIndexes e a) else
      match al_buckets a !! ts_SeederID e with
      | None => (Err (Panic "stunturn: bucket missing for known seeder; allocator invariants violated"), a)
      | Some b =>
        let b := refill now b in
        if 0 <? n then
          if SFltb (tb_available b) (f64_of_int n)
          then (Err ErrThrottled, set_bucket (ts_SeederID e) b a)
          else (Ok (with_active now e), touch l now (set_bucket (ts_SeederID e) (debit n b) a))
        else (Ok (with_active now e), touch l now (set_bucket (ts_SeederID e) b a))
      end
    end
  end.

Definition Charge (seeder : bytes) (n now : Z) : GoM Allocator RelayErr unit := λ a,
  if n <=? 0 then (Ok tt, a) else
  let '(b, a) := ensureBucket seeder now a in
  let b := refill now b in
  if SFltb (tb_available b) (f64_of_int n) then (Err ErrThrottled, set_bucket seeder b a)
  else (Ok tt, set_bucket seeder (debit n b) a).

Definition Release (sessionID : Z) (a : Allocator) : Allocator :=
  match al_bySID a !! sessionID with
  | None => a
  | Some l => match al_heap a !! l with Some e => deleteIndexes e a | None => a end
  end.

(** One entry of the range loop. *)
Definition sweep_entry (now : Z) (st : Z * Allocator) (l : nat) : Z * Allocator :=
  match al_heap (st.2) !! l with
  | Some e => if expired now e then (st.1 + 1, deleteIndexes e st.2) else st
  | None => st
  end.

(** The loop deletes entries of the map it ranges over, but none it has not reached. *)
Definition Sweep (now : Z) (a : Allocator) : Z * Allocator :=
  foldl (sweep_entry now) (0, a) (map_to_list (al_byToken a)).*2.
End allocator.

(** ** The three indexes *)

(** Every map leads to the sessions that are in all three; a seeder of a session has a
    bucket. *)
Record relay_wf (a : Allocator) : Prop := {
  rw_heap l e : al_heap a !! l = Some e → (l < al_loc a)%nat ∧ 1 <= ts_SessionID e <= al_nextID a;
  rw_tok t l : al_byToken a !! t = Some l → ∃ e, al_heap a !! l = Some e ∧ ts_Token e = t ∧
    al_bySID a !! ts_SessionID e = Some l ∧ al_byReq a !! ts_RequestID e = Some l ∧
    is_Some (al_buckets a !! ts_SeederID e);
  rw_sid i l : al_bySID a !! i = Some l → ∃ e, al_heap a !! l = Some e ∧ ts_SessionID e = i ∧
    al_byToken a !! ts_Token e = Some l;
  rw_req r l : al_byReq a !! r = Some l → ∃ e, al_heap a !! l = Some e ∧ ts_RequestID e = r ∧
    al_byToken a !! ts_Token e = Some l;
  rw_next : 0 <= al_nextID a < 2 ^ 64
}.

(** The table as callers see it: the live sessions by token. *)
Definition live (a : Allocator) : gmap bytes TurnSession :=
  omap (λ l, al_heap a !! l) (al_byToken a).

Lemma lookup_live a t : live a !! t = Resolve t a.
Proof. apply lookup_omap. Qed.

Lemma live_Some a t e :
  live a !! t = Some e ↔ ∃ l, al_byToken a !! t = Some l ∧ al_heap a !! l = Some e.
Proof.
  rewrite lookup_live. unfold Resolve. destruct (al_byToken a !! t) as [l|]; simpl; naive_solver.
Qed.

Lemma live_unique a t1 t2 e1 e2 :
  relay_wf a → live a !! t1 = Some e1 → live a !! t2 = Some e2 →
  ts_SessionID e1 = ts_SessionID e2 ∨ ts_RequestID e1 = ts_RequestID e2 → t1 = t2.
Proof.
  intros Hwf (l1 & Ht1 & He1)%live_Some (l2 & Ht2 & He2)%live_Some Hor.
  destruct (rw_tok _ Hwf _ _ Ht1) as (? & Hh1 & <- & Hs1 & Hr1 & _).
  destruct (rw_tok _ Hwf _ _ Ht2) as (? & Hh2 & <- & Hs2 & Hr2 & _).
  simplify_eq. assert (l1 = l2) as -> by (destruct Hor as [E|E]; rewrite E in *; congruence).
  congruence.
Qed.

Lemma NewAllocator_wf cfg a : NewAllocator cfg = Ok a → relay_wf a ∧ live a = ∅.
Proof.
  unfold NewAllocator. destruct (_ <=? 0); [done|]. destruct (_ <=? 0); [done|]. intros [= <-].
  split; [|done]. constructor; simpl; try (intros ? ?; by rewrite lookup_empty). lia.
Qed.

Lemma deleteIndexes_wf e l a :
  relay_wf a → al_heap a !! l = Some e → al_byToken a !! ts_Token e = Some l →
  relay_wf (deleteIndexes e a) ∧ live (deleteIndexes e a) = delete (ts_Token e) (live a).
Proof.
  intros Hwf He Ht. destruct (rw_tok _ Hwf _ _ Ht) as (e' & He' & _ & Hs & Hr & _).
  rewrite He in He'. injection He' as <-. split.
  2:{ apply map_eq. intros t. rewrite lookup_live. unfold Resolve. cbn [deleteIndexes al_byToken al_heap].
      destruct (decide (t = ts_Token e)) as [->|Hne]; [by rewrite !lookup_delete_eq|].
      rewrite !lookup_delete_ne by done. by rewrite lookup_live. }
  constructor; cbn [deleteIndexes al_byToken al_heap al_bySID al_byReq al_buckets al_loc al_nextID].
  - apply Hwf.
  - intros t l' [Hne Hl']%lookup_delete_Some. destruct (rw_tok _ Hwf _ _ Hl') as (e' & He' & <- & Hs' & Hr' & Hb').
    assert (l' ≠ l) as Hll by (intros ->; congruence).
    exists e'. rewrite !lookup_delete_ne by congruence. done.
  - intros i l' [Hne Hl']%lookup_delete_Some. destruct (rw_sid _ Hwf _ _ Hl') as (e' & He' & <- & Ht').
    exists e'. split; [done|]. split; [done|]. rewrite lookup_delete_ne by congruence. done.
  - intros i l' [Hne Hl']%lookup_delete_Some. destruct (rw_req _ Hwf _ _ Hl') as (e' & He' & <- & Ht').
    exists e'. split; [done|]. split; [done|]. rewrite lookup_delete_ne by congruence. done.
  - apply Hwf.
Qed.

Lemma set_bucket_wf s b a : relay_wf a → relay_wf (set_bucket s b a) ∧ live (set_bucket s b a) = live a.
Proof.
  intros Hwf. split; [|done]. constructor; cbn [set_bucket al_byToken al_heap al_bySID al_byReq al_buckets al_loc al_nextID];
    try apply Hwf.
  intros t l Hl. destruct (rw_tok _ Hwf _ _ Hl) as (e & He & Ht & Hs & Hr & Hb). exists e.
  do 4 (split; [done|]). destruct (decide (s = ts_SeederID e)) as [->|Hne];
    [by rewrite lookup_insert_eq|by rewrite lookup_insert_ne].
Qed.

Lemma ensureBucket_wf cfg s now a :
  relay_wf a → let '(b, a') := ensureBucket cfg s now a in relay_wf a' ∧ live a' = live a.
Proof. intros Hwf. unfold ensureBucket. destruct (al_buckets a !! s); [done|]. by apply set_bucket_wf. Qed.

Lemma touch_wf t l now a e :
  relay_wf a → al_byToken a !! t = Some l → al_heap a !! l = Some e →
  relay_wf (touch l now a) ∧ live (touch l now a) = <[t := with_active now e]> (live a).
Proof.
  intros Hwf Ht He.
  assert (∀ l' e', al_heap a !! l' = Some e' → ∃ e2, alter (with_active now) l (al_heap a) !! l' = Some e2 ∧
    ts_Token e2 = ts_Token e' ∧ ts_SessionID e2 = ts_SessionID e' ∧ ts_RequestID e2 = ts_RequestID e' ∧
    ts_SeederID e2 = ts_SeederID e') as Halt.
  { intros l' e' He'. destruct (decide (l = l')) as [<-|Hne].
    - rewrite lookup_alter_eq, He'. by eexists.
    - rewrite lookup_alter_ne by done. by exists e'. }
  split.
  - constructor; cbn [touch al_byToken al_heap al_bySID al_byReq al_buckets al_loc al_nextID].
    + intros l' e'. destruct (decide (l = l')) as [<-|Hne].
      * rewrite lookup_alter_eq, He. intros [= <-]. by apply (rw_heap _ Hwf _ _ He).
      * rewrite lookup_alter_ne by done. apply (rw_heap _ Hwf).
    + intros t' l' Hl'. destruct (rw_tok _ Hwf _ _ Hl') as (e' & He' & <- & Hs & Hr & Hb).
      destruct (Halt _ _ He') as (e2 & ? & Et & Ei & Er & Es). exists e2. by rewrite Et, Ei, Er, Es.
    + intros i l' Hl'. destruct (rw_sid _ Hwf _ _ Hl') as (e' & He' & <- & Ht').
      destruct (Halt _ _ He') as (e2 & ? & Et & Ei & _). exists e2. by rewrite Et, Ei.
    + intros i l' Hl'. destruct (rw_req _ Hwf _ _ Hl') as (e' & He' & <- & Ht').
      destruct (Halt _ _ He') as (e2 & ? & Et & _ & Er & _). exists e2. by rewrite Et, Er.
    + apply Hwf.
  - apply map_eq. intros t'. rewrite lookup_live. unfold Resolve. cbn [touch al_byToken al_heap].
    destruct (decide (t = t')) as [<-|Hne].
    + rewrite Ht, lookup_insert_eq. simpl. by rewrite lookup_alter_eq, He.
    + rewrite lookup_insert_ne, lookup_live by done. unfold Resolve.
      destruct (al_byToken a !! t') as [l'|] eqn:Hl'; [|done]. simpl.
      rewrite lookup_alter_ne; [done|]. intros <-.
      destruct (rw_tok _ Hwf _ _ Ht) as (? & ? & <- & _). destruct (rw_tok _ Hwf _ _ Hl') as (? & ? & <- & _).
      congruence.
Qed.

Section ops.
Variable cfg : AllocatorConfig.

Lemma Allocate_spec tok consumer seeder rid now a :
  relay_wf a → al_nextID a + 1 < 2 ^ 64 →
  let '(out, a') := Allocate cfg tok consumer seeder rid now a in
  relay_wf a' ∧
  match out with
  | Ok e => tok = Some (ts_Token e) ∧ ts_ConsumerID e = consumer ∧ ts_SeederID e = seeder ∧
      ts_RequestID e = rid ∧ ts_LastActive e = now ∧ live a !! ts_Token e = None ∧
      (∀ t e', live a !! t = Some e' → ts_RequestID e' ≠ rid ∧ ts_SessionID e' ≠ ts_SessionID e) ∧
      live a' = <[ts_Token e := e]> (live a)
  | Err er => a' = a ∧
      (er = ErrDuplicateRequest ↔ ∃ t e', live a !! t = Some e' ∧ ts_RequestID e' = rid)
  end.
Proof.
  intros Hwf Hn. unfold Allocate.
  assert (∀ t e', live a !! t = Some e' → is_Some (al_byReq a !! ts_RequestID e') ∧
    1 <= ts_SessionID e' <= al_nextID a) as Hlive.
  { intros t e' (l & Ht & He)%live_Some. destruct (rw_tok _ Hwf _ _ Ht) as (? & ? & _ & _ & ? & _).
    simplify_eq. split; [by eexists|]. by apply (rw_heap _ Hwf _ _ He). }
  destruct (al_byReq a !! rid) as [l|] eqn:Er.
  { split; [done|]. split; [done|]. split; [|done]. intros _.
    destruct (rw_req _ Hwf _ _ Er) as (e & He & <- & Ht). exists (ts_Token e), e.
    split; [|done]. apply live_Some. eauto. }
  assert (∀ t e', live a !! t = Some e' → ts_RequestID e' ≠ rid) as Hnr.
  { intros t e' He' Heq. destruct (Hlive _ _ He') as [[l Hl] _]. congruence. }
  destruct tok as [tok|]; [|split; [done|]; split; [done|]; split; [done|]; intros (? & ? & ? & ?); naive_solver].
  destruct (al_byToken a !! tok) as [l|] eqn:Et;
    [split; [done|]; split; [done|]; split; [done|]; intros (? & ? & ? & ?); naive_solver|].
  assert (al_heap a !! al_loc a = None) as Hloc.
  { destruct (al_heap a !! al_loc a) as [e|] eqn:E; [|done]. apply (rw_heap _ Hwf) in E. lia. }
  pose proof (rw_next _ Hwf) as Hnx. rewrite u64_id by (unfold is_u64; lia).
  set (e := Build_TurnSession _ _ _ _ _ _ _). set (a1 := Build_Allocator _ _ _ _ _ _ _).
  assert (∀ l e', al_heap a !! l = Some e' → <[al_loc a := e]> (al_heap a) !! l = Some e' ∧ l ≠ al_loc a ∧
    1 <= ts_SessionID e' <= al_nextID a) as Hold.
  { intros l e' He'. destruct (rw_heap _ Hwf _ _ He') as [? ?].
    rewrite lookup_insert_ne by lia. split; [done|]. split; [lia|done]. }
  assert (relay_wf (snd (ensureBucket cfg seeder now a1)) ∧
          live (snd (ensureBucket cfg seeder now a1)) = <[tok := e]> (live a)) as [Hwf' Hlive'].
  2:{ cbn [fst snd]. split; [done|]. cbn [ts_Token ts_ConsumerID ts_SeederID ts_RequestID ts_LastActive ts_SessionID e].
      do 5 (split; [done|]). split; [rewrite lookup_live; unfold Resolve; by rewrite Et|].
      split; [|done]. intros t e' Ht. split; [by eapply Hnr|]. apply Hlive in Ht as [_ ?]. lia. }
  assert (∃ m, snd (ensureBucket cfg seeder now a1) = {| al_heap := al_heap a1; al_loc := al_loc a1;
      al_nextID := al_nextID a1; al_byToken := al_byToken a1; al_bySID := al_bySID a1;
      al_byReq := al_byReq a1; al_buckets := m |} ∧ is_Some (m !! seeder) ∧
      ∀ s, is_Some (al_buckets a !! s) → is_Some (m !! s)) as (m & -> & Hms & Hm).
  { unfold ensureBucket. cbn [al_buckets a1]. destruct (al_buckets a !! seeder) as [b|] eqn:Eb; eexists; (split; [done|]).
    - by split; [eexists|].
    - split; [rewrite lookup_insert_eq; by eexists|]. intros s Hs.
      destruct (decide (s = seeder)) as [->|]; [rewrite lookup_insert_eq; by eexists|by rewrite lookup_insert_ne]. }
  split.
  - constructor; cbn [al_byToken al_heap al_bySID al_byReq al_buckets al_loc al_nextID a1].
    + intros l e' [[<- <-]|[Hne He']]%lookup_insert_Some; [simpl; lia|].
      destruct (rw_heap _ Hwf _ _ He'). lia.
    + intros t l [[<- <-]|[Hne Hl]]%lookup_insert_Some.
      * exists e. by rewrite !lookup_insert_eq.
      * destruct (rw_tok _ Hwf _ _ Hl) as (e' & He' & <- & Hs & Hr & Hb).
        destruct (Hold _ _ He') as (? & ? & ?). exists e'.
        rewrite (lookup_insert_ne (al_bySID a)) by lia.
        rewrite (lookup_insert_ne (al_byReq a)) by congruence. split_and!; auto.
    + intros i l [[<- <-]|[Hne Hl]]%lookup_insert_Some.
      * exists e. by rewrite !lookup_insert_eq.
      * destruct (rw_sid _ Hwf _ _ Hl) as (e' & He' & <- & Ht). destruct (Hold _ _ He') as (? & ? & ?).
        exists e'. rewrite (lookup_insert_ne (al_byToken a)) by congruence. done.
    + intros i l [[<- <-]|[Hne Hl]]%lookup_insert_Some.
      * exists e. by rewrite !lookup_insert_eq.
      * destruct (rw_req _ Hwf _ _ Hl) as (e' & He' & <- & Ht). destruct (Hold _ _ He') as (? & ? & ?).
        exists e'. rewrite (lookup_insert_ne (al_byToken a)) by congruence. done.
    + lia.
  - apply map_eq. intros t. rewrite lookup_live. unfold Resolve. cbn [al_byToken al_heap a1].
    destruct (decide (t = tok)) as [->|Hne]; [rewrite !lookup_insert_eq; simpl; by rewrite lookup_insert_eq|].
    rewrite !lookup_insert_ne, lookup_live by done. unfold Resolve.
    destruct (al_byToken a !! t) as [l|] eqn:Hl; [|done]. simpl.
    destruct (rw_tok _ Hwf _ _ Hl) as (e' & He' & _). by rewrite (proj1 (Hold _ _ He')).
Qed.

Lemma ResolveAndCharge_spec tok n now a :
  relay_wf a →
  let '(out, a') := ResolveAndCharge cfg tok n now a in
  relay_wf a' ∧
  match live a !! tok with
  | None => out = Err ErrUnknownToken ∧ a' = a
  | Some e =>
    if expired cfg now e then out = Err ErrSessionExpired ∧ live a' = delete tok (live a)
    else out = Err ErrThrottled ∧ 0 < n ∧ live a' = live a ∨
         out = Ok (with_active now e) ∧ live a' = <[tok := with_active now e]> (live a)
  end.
Proof.
  intros Hwf. unfold ResolveAndCharge. rewrite lookup_live. unfold Resolve.
  destruct (al_byToken a !! tok) as [l|] eqn:Hl; [|done]. simpl.
  destruct (rw_tok _ Hwf _ _ Hl) as (e & He & Ht & _ & _ & [b Hb]). rewrite He.
  destruct (expired cfg now e).
  { destruct (deleteIndexes_wf e l a) as [? Hd]; [done|done|congruence|]. rewrite Hd, Ht. done. }
  rewrite Hb. cbv zeta.
  assert (∀ b', relay_wf (touch l now (set_bucket (ts_SeederID e) b' a)) ∧
    live (touch l now (set_bucket (ts_SeederID e) b' a)) = <[tok := with_active now e]> (live a)) as Htouch.
  { intros b'. destruct (set_bucket_wf (ts_SeederID e) b' a Hwf) as [Hwf' <-]. by apply touch_wf. }
  destruct (0 <? n) eqn:En; bool_to_prop.
  - destruct (SFltb _ _).
    + destruct (set_bucket_wf (ts_SeederID e) (refill now b) a Hwf) as [Hwf' Hlv]. split; [done|]. auto.
    + destruct (Htouch (debit n (refill now b))). auto.
  - destruct (Htouch (refill now b)). auto.
Qed.

Lemma Charge_spec seeder n now a :
  relay_wf a → let '(out, a') := Charge cfg seeder n now a in relay_wf a' ∧ live a' = live a.
Proof.
  intros Hwf. unfold Charge. destruct (n <=? 0); [done|].
  pose proof (ensureBucket_wf cfg seeder now a Hwf) as Hb.
  destruct (ensureBucket cfg seeder now a) as [b a1]. destruct Hb as [Hwf1 <-].
  destruct (SFltb _ _); by apply set_bucket_wf.
Qed.

Lemma Release_spec sid a :
  relay_wf a → relay_wf (Release sid a) ∧
  live (Release sid a) = filter (λ te, ts_SessionID te.2 ≠ sid) (live a).
Proof.
  intros Hwf. unfold Release.
  destruct (al_bySID a !! sid) as [l|] eqn:Hl.
  - destruct (rw_sid _ Hwf _ _ Hl) as (e & He & <- & Ht). rewrite He.
    destruct (deleteIndexes_wf e l a) as [? Hd]; [done..|]. split; [done|]. rewrite Hd.
    assert (live a !! ts_Token e = Some e) as Hlv by (apply live_Some; eauto).
    apply map_eq. intros t. apply option_eq. intros e'.
    rewrite lookup_delete_Some, map_lookup_filter_Some. simpl. split.
    + intros [Hne He']. split; [done|]. intros Hs. apply Hne.
      apply (live_unique a _ _ e e' Hwf Hlv He'). by left.
    + intros [He' Hs]. split; [|done]. intros <-. congruence.
  - split; [done|]. symmetry. apply map_filter_id. intros t e (l & Ht & He)%live_Some Hs. simpl in Hs.
    destruct (rw_tok _ Hwf _ _ Ht) as (? & ? & _ & ? & _). simplify_eq.
Qed.

Lemma sweep_all now ls c a :
  relay_wf a → NoDup ls.*1 →
  (∀ t l, (t, l) ∈ ls → al_byToken a !! t = Some l) →
  let '(n, a') := foldl (sweep_entry cfg now) (c, a) ls.*2 in
  relay_wf a' ∧
  (∀ t, live a' !! t = match live a !! t with
                       | Some e => if decide (t ∈ ls.*1) then if expired cfg now e then None else Some e
                                   else Some e
                       | None => None
                       end) ∧
  n + blen (map_to_list (live a')) = c + blen (map_to_list (live a)).
Proof.
  revert c a. induction ls as [|[t l] ls IH]; intros c a Hwf Hnd Hls; simpl.
  { split; [done|]. split; [|done]. intros t. by destruct (live a !! t). }
  rewrite fmap_cons in Hnd. simpl in Hnd. apply NoDup_cons in Hnd as [Hni Hnd].
  assert (al_byToken a !! t = Some l) as Hl by (apply Hls; left).
  destruct (rw_tok _ Hwf _ _ Hl) as (e & He & Ht & _).
  assert (live a !! t = Some e) as Hlv by (apply live_Some; eauto).
  unfold sweep_entry at 2. simpl. rewrite He. simpl.
  destruct (expired cfg now e) eqn:Ee.
  - destruct (deleteIndexes_wf e l a) as [Hwf' Hd]; [done|done|congruence|]. rewrite Ht in Hd.
    specialize (IH (c + 1) (deleteIndexes e a) Hwf' Hnd).
    destruct (foldl _ _ _) as [n a']. destruct IH as (Hwf2 & Hlk & Hn).
    { intros t' l' Hin. cbn [deleteIndexes al_byToken]. rewrite lookup_delete_ne; [by apply Hls; right|].
      rewrite Ht. intros <-. apply Hni. by apply (list_elem_of_fmap_2 fst) in Hin. }
    split; [done|]. split.
    + intros t'. rewrite Hlk, Hd. destruct (decide (t' = t)) as [->|Hne].
      * rewrite lookup_delete_eq, Hlv, decide_True, Ee by left. done.
      * rewrite lookup_delete_ne by done. destruct (live a !! t') as [e'|]; [|done].
        destruct (decide (t' ∈ ls.*1)) as [Hi|Hi].
        -- rewrite decide_True; [done|by right].
        -- rewrite decide_False; [done|]. by intros [?|?]%elem_of_cons.
    + rewrite Hd in Hn. unfold blen in *. rewrite !length_map_to_list in *.
      rewrite map_size_delete, Hlv in Hn.
      assert (size (live a) ≠ 0%nat) by (rewrite map_size_ne_0_lookup; eauto). lia.
  - specialize (IH c a Hwf Hnd ltac:(intros ? ? ?; apply Hls; by right)).
    destruct (foldl _ _ _) as [n a']. destruct IH as (Hwf2 & Hlk & Hn).
    split; [done|]. split; [|done].
    intros t'. rewrite Hlk. destruct (live a !! t') as [e'|] eqn:E'; [|done].
    destruct (decide (t' ∈ ls.*1)) as [Hi|Hi].
    + rewrite decide_True; [done|by right].
    + destruct (decide (t' = t)) as [->|Hne].
      * rewrite decide_True by left. assert (e' = e) as -> by congruence. by rewrite Ee.
      * rewrite decide_False; [done|]. by intros [?|?]%elem_of_cons.
Qed.

Lemma Sweep_spec now a :
  relay_wf a →
  let '(n, a') := Sweep cfg now a in
  relay_wf a' ∧ live a' = filter (λ te, expired cfg now te.2 = false) (live a) ∧
  n + blen (map_to_list (live a')) = blen (map_to_list (live a)).
Proof.
  intros Hwf. unfold Sweep.
  pose proof (sweep_all now (map_to_list (al_byToken a)) 0 a Hwf (NoDup_fst_map_to_list _)) as Hs.
  destruct (foldl _ _ _) as [n a']. destruct Hs as (Hwf' & Hlk & Hn).
  { intros t l. apply elem_of_map_to_list. }
  split; [done|]. split; [|done].
  apply map_eq. intros t. rewrite Hlk. apply option_eq. intros e. rewrite map_lookup_filter_Some. simpl.
  destruct (live a !! t) as [e'|] eqn:Et; [|naive_solver].
  rewrite decide_True. 2:{ apply live_Some in Et as (l & Hl & _). apply list_elem_of_fmap.
    exists (t, l). split; [done|]. by apply elem_of_map_to_list. }
  destruct (expired cfg now e') eqn:Ee; (split; [intros [= ->]|intros [[= ->] ?]]); done || congruence.
Qed.
End ops.

(** ** Reachable tables *)

(** Fewer than 2^64 sessions are ever allocated. *)
Inductive relay_step (cfg : AllocatorConfig) : Allocator → Allocator → Prop :=
| step_allocate tok consumer seeder rid now a :
    al_nextID a + 1 < 2 ^ 64 → relay_step cfg a (snd (Allocate cfg tok consumer seeder rid now a))
| step_resolve tok n now a : relay_step cfg a (snd (ResolveAndCharge cfg tok n now a))
| step_charge seeder n now a : relay_step cfg a (snd (Charge cfg seeder n now a))
| step_release sid a : relay_step cfg a (Release sid a)
| step_sweep now a : relay_step cfg a (snd (Sweep cfg now a)).

Definition relay_reachable (cfg : AllocatorConfig) (a : Allocator) : Prop :=
  ∃ a0, NewAllocator cfg = Ok a0 ∧ rtc (relay_step cfg) a0 a.

Lemma relay_step_wf cfg a a' : relay_wf a → relay_step cfg a a' → relay_wf a'.
Proof.
  intros Hwf Hs. destruct Hs as [tok c s r now a Hn|tok n now a|s n now a|sid a|now a].
  - pose proof (Allocate_spec cfg tok c s r now a Hwf Hn) as Hp. destruct (Allocate _ _ _ _ _ _ _). apply Hp.
  - pose proof (ResolveAndCharge_spec cfg tok n now a Hwf) as Hp. destruct (ResolveAndCharge _ _ _ _ _). apply Hp.
  - pose proof (Charge_spec cfg s n now a Hwf) as Hp. destruct (Charge _ _ _ _ _). apply Hp.
  - by apply Release_spec.
  - pose proof (Sweep_spec cfg now a Hwf) as Hp. destruct (Sweep _ _ _). apply Hp.
Qed.

Lemma relay_reachable_wf cfg a : relay_reachable cfg a → relay_wf a.
Proof.
  intros (a0 & Hn & Hr). apply NewAllocator_wf in Hn as [Hwf _].
  induction Hr; eauto using relay_step_wf.
Qed.

(** The relay table refines one map from tokens to sessions. In every reachable state,
    [Allocate] adds a session whose token, request and id no live session has, and refuses
    a duplicate exactly when a live session has the request; [ResolveAndCharge] serves a
    datagram only for a live session that was idle for at most the TTL, renews it alone,
    deletes it when it has expired, leaves it as it was when the seeder is throttled, and
    never panics; [Release] and [Sweep] remove exactly the session named and the expired
    ones; charging a seeder touches no session. *)
Lemma relay_refines_sessions cfg a :
  relay_reachable cfg a →
  (∀ tok consumer seeder rid now, al_nextID a + 1 < 2 ^ 64 →
     let '(out, a') := Allocate cfg tok consumer seeder rid now a in
     match out with
     | Ok e => tok = Some (ts_Token e) ∧ ts_ConsumerID e = consumer ∧ ts_SeederID e = seeder ∧
         ts_RequestID e = rid ∧ ts_LastActive e = now ∧ live a !! ts_Token e = None ∧
         (∀ t e', live a !! t = Some e' → ts_RequestID e' ≠ rid ∧ ts_SessionID e' ≠ ts_SessionID e) ∧
         live a' = <[ts_Token e := e]> (live a)
     | Err er => live a' = live a ∧
         (er = ErrDuplicateRequest ↔ ∃ t e', live a !! t = Some e' ∧ ts_RequestID e' = rid)
     end) ∧
  (∀ tok n now, let '(out, a') := ResolveAndCharge cfg tok n now a in
     match live a !! tok with
     | None => out = Err ErrUnknownToken ∧ live a' = live a
     | Some e =>
       if expired cfg now e then out = Err ErrSessionExpired ∧ live a' = delete tok (live a)
       else out = Err ErrThrottled ∧ 0 < n ∧ live a' = live a ∨
            out = Ok (with_active now e) ∧ live a' = <[tok := with_active now e]> (live a)
     end) ∧
  (∀ seeder n now, live (snd (Charge cfg seeder n now a)) = live a) ∧
  (∀ sid, live (Release sid a) = filter (λ te, ts_SessionID te.2 ≠ sid) (live a)) ∧
  (∀ now, live (snd (Sweep cfg now a)) = filter (λ te, expired cfg now te.2 = false) (live a) ∧
     fst (Sweep cfg now a) + blen (map_to_list (live (snd (Sweep cfg now a))))
       = blen (map_to_list (live a))).
Proof.
  intros Hwf%relay_reachable_wf. split_and!.
  - intros tok c s r now Hn. pose proof (Allocate_spec cfg tok c s r now a Hwf Hn) as Hp.
    destruct (Allocate _ _ _ _ _ _ _) as [[e|er] a']; [apply Hp|]. destruct Hp as (_ & -> & ?). done.
  - intros tok n now. pose proof (ResolveAndCharge_spec cfg tok n now a Hwf) as Hp.
    destruct (ResolveAndCharge _ _ _ _ _) as [out a']. destruct Hp as [_ Hp].
    destruct (live a !! tok); [done|]. by destruct Hp as [-> ->].
  - intros s n now. pose proof (Charge_spec cfg s n now a Hwf) as Hp.
    destruct (Charge _ _ _ _ _) as [out a']. apply Hp.
  - intros sid. by apply Release_spec.
  - intros now. pose proof (Sweep_spec cfg now a Hwf) as Hp.
    destruct (Sweep _ _ _) as [n a']. apply Hp.
Qed.

Definition w_relay_cfg : AllocatorConfig := {| ac_MaxKbpsPerSeeder := 8; ac_SessionTTL := 30 * Second |}.

Definition w_relay0 : Allocator := {|
  al_heap := ∅; al_loc := 0; al_nextID := 0; al_byToken := ∅; al_bySID := ∅; al_byReq := ∅;
  al_buckets := ∅ |}.

Definition w_relay1 : Allocator :=
  snd (Allocate w_relay_cfg (Some [Byte.x02]) [Byte.x0a] [Byte.x0b] [Byte.x0d] (20 * Second) w_relay0).

Definition w_relay : Allocator :=
  snd (Allocate w_relay_cfg (Some [Byte.x01]) [Byte.x0a] [Byte.x0b] [Byte.x0c] 0 w_relay1).

Lemma w_relay_reachable : relay_reachable w_relay_cfg w_relay.
Proof.
  exists w_relay0. split; [reflexivity|]. apply rtc_l with w_relay1; [by apply step_allocate|].
  apply rtc_once. by apply step_allocate.
Qed.

(** The bucket of 1024 bytes a second carries one datagram of 1000 bytes at once, not two;
    at 40 seconds the first session has expired and the sweep removes it alone. *)
Lemma relay_refines_sessions_witness :
  fst (ResolveAndCharge w_relay_cfg [Byte.x02] 1000 (20 * Second) w_relay) ≠ Err ErrThrottled ∧
  live (snd (Sweep w_relay_cfg (40 * Second) w_relay))
    = filter (λ te, expired w_relay_cfg (40 * Second) te.2 = false) (live w_relay) ∧
  fst (Sweep w_relay_cfg (40 * Second) w_relay) = 1 ∧
  fst (ResolveAndCharge w_relay_cfg [Byte.x02] 1000 (21 * Second)
    (snd (ResolveAndCharge w_relay_cfg [Byte.x02] 1000 (Z.mul 20 Second + 500000000) w_relay)))
    = Err ErrThrottled.
Proof.
  split; [vm_compute; discriminate|]. split.
  - apply (relay_refines_sessions w_relay_cfg w_relay w_relay_reachable).
  - split; vm_compute; reflexivity.
Defined.
