(* ===== verification/TLog.v ===== *)
(** tracker/internal/admission/tlog.go: the log admission writes before it changes its
    state. Frames with a CRC32C, the payloads of each kind, the reader of a file, and the
    writer with its buffer, its durable bytes and its rotation.

    [os] and [bufio] are modelled as far as the writer uses them: bytes that are synced
    survive a crash, of the buffered ones any prefix may. *)
From S2P Require Import Prelude Proto.

(** ** CRC32C, as hash/crc32 computes it with the Castagnoli table *)

Definition crc32c_poly : Z := 2197175160.

Fixpoint crc_bits (n : nat) (c : Z) : Z :=
  match n with
  | O => c
  | S n' => crc_bits n' (if Z.odd c then Z.lxor (Z.shiftr c 1) crc32c_poly else Z.shiftr c 1)
  end.

Definition crc_byte (c : Z) (b : byte) : Z := crc_bits 8 (Z.lxor c (Z_of_byte b)).

Definition crc32c (b : bytes) : Z := u32 (Z.lxor (foldl crc_byte (2 ^ 32 - 1) b) (2 ^ 32 - 1)).

(** The check value of the polynomial's catalogue entry. *)
Example crc32c_check : crc32c (string_bytes "123456789") = 0xE3069283.
Proof. vm_compute. reflexivity. Qed.

(** ** Records *)

Definition TLogKind : Type := Z.
Definition TLogKindSettlement : TLogKind := 0.
Definition TLogKindDisputeFiled : TLogKind := 1.
Definition TLogKindDisputeResolved : TLogKind := 2.
Definition TLogKindHeartbeatBucketRoll : TLogKind := 3.
Definition TLogKindSnapshotMark : TLogKind := 4.
Definition TLogKindOperatorOverride : TLogKind := 5.
Definition TLogKindTransfer : TLogKind := 6.
Definition TLogKindStarterGrant : TLogKind := 7.

Record TLogRecord := { tl_Seq : Z; tl_Ts : Z; tl_Kind : TLogKind; tl_Payload : bytes }.

Inductive TLogErr := ErrTLogCorrupt | ErrTLogTruncated | ErrShort (what : string) | ErrIO.

Definition tlogMinFrameSize : Z := 4 + 8 + 8 + 1 + 4.

(** [buf[i:j]] *)
Definition slice (b : bytes) (i j : nat) : bytes := take (j - i) (drop i b).

Definition tlog_body (rec : TLogRecord) : bytes :=
  PutUint64 (tl_Seq rec) ++ PutUint64 (tl_Ts rec) ++ [byte_of_Z (tl_Kind rec)] ++ tl_Payload rec.

Definition marshalTLogRecord (rec : TLogRecord) : bytes :=
  let bodyLen := 8 + 8 + 1 + blen (tl_Payload rec) + 4 in
  be_bytes 4 bodyLen ++ tlog_body rec ++ be_bytes 4 (crc32c (tlog_body rec)).

Definition unmarshalTLogRecord (buf : bytes) : res TLogErr (TLogRecord * Z) :=
  if blen buf <? tlogMinFrameSize then Err ErrTLogTruncated else
  let bodyLen := be_val (slice buf 0 4) in
  let frameLen := 4 + bodyLen in
  if blen buf <? frameLen then Err ErrTLogTruncated
  else if bodyLen <? tlogMinFrameSize - 4 then Err ErrTLogTruncated else
  let payloadEnd := Z.to_nat (frameLen - 4) in
  let gotCRC := be_val (slice buf payloadEnd (Z.to_nat frameLen)) in
  if negb (gotCRC =? crc32c (slice buf 4 payloadEnd)) then Err ErrTLogCorrupt
  else Ok ({| tl_Seq := be_val (slice buf 4 12); tl_Ts := be_val (slice buf 12 20);
              tl_Kind := be_val (slice buf 20 21); tl_Payload := slice buf 21 payloadEnd |}, frameLen).

(** The loop of [readTLogFile]; [None] is no fuel left. *)
Fixpoint read_records (fuel : nat) (data : bytes) (pos : Z)
    : option (list TLogRecord * Z * option TLogErr) :=
  match data with
  | [] => Some ([], pos, None)
  | _ =>
    match fuel with
    | O => None
    | S fuel' =>
      match unmarshalTLogRecord data with
      | Err ErrTLogTruncated => Some ([], pos, None)
      | Err e => Some ([], pos, Some e)
      | Ok (rec, n) =>
        match read_records fuel' (drop (Z.to_nat n) data) (pos + n) with
        | Some (recs, last, err) => Some (rec :: recs, last, err)
        | None => None
        end
      end
    end
  end.

(** The records, the offset of the last good one's end, and the error: none for a
    truncated tail. *)
Definition readTLogFile (data : bytes) : option (list TLogRecord * Z * option TLogErr) :=
  read_records (length data) data 0.

(** ** Payloads *)

Record SettlementPayload := {
  sp_ConsumerID : bytes; sp_SeederID : bytes; sp_CostCredits : Z; sp_Flags : Z
}.

Definition marshalSettlementPayload (p : SettlementPayload) : bytes :=
  sp_ConsumerID p ++ sp_SeederID p ++ PutUint64 (sp_CostCredits p) ++ be_bytes 4 (sp_Flags p).

Definition unmarshalSettlementPayload (buf : bytes) : res TLogErr SettlementPayload :=
  if blen buf <? 76 then Err (ErrShort "settlement") else
  Ok {| sp_ConsumerID := slice buf 0 32; sp_SeederID := slice buf 32 64;
        sp_CostCredits := be_val (slice buf 64 72); sp_Flags := be_val (slice buf 72 76) |}.

Record DisputePayload := { dp_ConsumerID : bytes; dp_Upheld : bool }.

Definition marshalDisputePayload (p : DisputePayload) : bytes :=
  dp_ConsumerID p ++ [if dp_Upheld p then Byte.x01 else Byte.x00].

Definition unmarshalDisputePayload (buf : bytes) : res TLogErr DisputePayload :=
  if blen buf <? 33 then Err (ErrShort "dispute") else
  Ok {| dp_ConsumerID := slice buf 0 32; dp_Upheld := negb (be_val (slice buf 32 33) =? 0) |}.

Definition appendLenPrefixed (dst val : bytes) : bytes := dst ++ be_bytes 4 (blen val) ++ val.

Definition readLenPrefixed (buf : bytes) : res TLogErr (bytes * bytes) :=
  if blen buf <? 4 then Err (ErrShort "length-prefix truncated") else
  let n := be_val (slice buf 0 4) in
  if blen buf <? 4 + n then Err (ErrShort "length-prefixed payload truncated") else
  Ok (slice buf 4 (Z.to_nat (4 + n)), drop (Z.to_nat (4 + n)) buf).

Record SnapshotMarkPayload := { sm_SnapshotSeq : Z; sm_Path : bytes }.

Definition marshalSnapshotMarkPayload (p : SnapshotMarkPayload) : bytes :=
  appendLenPrefixed (PutUint64 (sm_SnapshotSeq p)) (sm_Path p).

Definition unmarshalSnapshotMarkPayload (buf : bytes) : res TLogErr SnapshotMarkPayload :=
  if blen buf <? 8 then Err (ErrShort "snapshot_mark") else
  let seq := be_val (slice buf 0 8) in
  if 8 <? blen buf then
    match readLenPrefixed (drop 8 buf) with
    | Err e => Err e
    | Ok (path, _) => Ok {| sm_SnapshotSeq := seq; sm_Path := path |}
    end
  else Ok {| sm_SnapshotSeq := seq; sm_Path := [] |}.

Record OperatorOverridePayload := {
  oo_OperatorID : bytes; oo_Action : bytes; oo_Params : bytes; oo_Ts : Z
}.

Definition marshalOperatorOverridePayload (p : OperatorOverridePayload) : bytes :=
  appendLenPrefixed (appendLenPrefixed (appendLenPrefixed [] (oo_OperatorID p)) (oo_Action p)) (oo_Params p)
  ++ PutUint64 (u64 (oo_Ts p)).

Definition unmarshalOperatorOverridePayload (buf : bytes) : res TLogErr OperatorOverridePayload :=
  match readLenPrefixed buf with
  | Err e => Err e
  | Ok (op, rest) =>
    match readLenPrefixed rest with
    | Err e => Err e
    | Ok (action, rest) =>
      match readLenPrefixed rest with
      | Err e => Err e
      | Ok (params, rest) =>
        Ok {| oo_OperatorID := op; oo_Action := action; oo_Params := params;
              oo_Ts := if blen rest <? 8 then 0 else i64 (be_val (slice rest 0 8)) |}
      end
    end
  end.

Definition TransferIn : Z := 1.
Definition TransferOut : Z := 2.

Record TransferPayload := { tf_ConsumerID : bytes; tf_CostCredits : Z; tf_Direction : Z }.

Definition marshalTransferPayload (p : TransferPayload) : bytes :=
  tf_ConsumerID p ++ PutUint64 (tf_CostCredits p) ++ [byte_of_Z (tf_Direction p)].

Definition unmarshalTransferPayload (buf : bytes) : res TLogErr TransferPayload :=
  if blen buf <? 41 then Err (ErrShort "transfer") else
  Ok {| tf_ConsumerID := slice buf 0 32; tf_CostCredits := be_val (slice buf 32 40);
        tf_Direction := be_val (slice buf 40 41) |}.

Record StarterGrantPayload := { sg_ConsumerID : bytes; sg_CostCredits : Z }.

Definition marshalStarterGrantPayload (p : StarterGrantPayload) : bytes :=
  sg_ConsumerID p ++ PutUint64 (sg_CostCredits p).

Definition unmarshalStarterGrantPayload (buf : bytes) : res TLogErr StarterGrantPayload :=
  if blen buf <? 40 then Err (ErrShort "starter_grant") else
  Ok {| sg_ConsumerID := slice buf 0 32; sg_CostCredits := be_val (slice buf 32 40) |}.

(** ** The writer *)

(** [tw_synced] is what the active file durably holds, [tw_pending] what is buffered or
    not yet synced; [tw_rotated] holds the files renamed away, by the number in their name.
    [tw_broken]: the buffered writer has an error, which it keeps. [tw_closed]: the file
    descriptor is closed, and what is still buffered goes nowhere. [tw_stopped]: [Close] has
    run. *)
Record tlogWriter := {
  tw_synced : bytes; tw_pending : bytes; tw_bytesWritten : Z; tw_lastSeqInFile : Z;
  tw_rotated : gmap Z bytes; tw_broken : bool; tw_closed : bool; tw_stopped : bool
}.

(** Which calls on the file fail; a failing write has taken so many bytes. *)
Record TLogIO := {
  wio_write : option nat; wio_sync : bool; wio_rename : bool; wio_open : bool
}.

Definition wio_ok : TLogIO := {| wio_write := None; wio_sync := false; wio_rename := false; wio_open := false |}.

(** The file found at start-up; the last sequence number is not read back. *)
Definition newTLogWriter (active : bytes) (rotated : gmap Z bytes) : tlogWriter := {|
  tw_synced := active; tw_pending := []; tw_bytesWritten := blen active; tw_lastSeqInFile := 0;
  tw_rotated := rotated; tw_broken := false; tw_closed := false; tw_stopped := false |}.

Definition tw_break (w : tlogWriter) : tlogWriter := {|
  tw_synced := tw_synced w; tw_pending := tw_pending w; tw_bytesWritten := tw_bytesWritten w;
  tw_lastSeqInFile := tw_lastSeqInFile w; tw_rotated := tw_rotated w; tw_broken := true;
  tw_closed := tw_closed w; tw_stopped := tw_stopped w |}.

Definition tw_close (w : tlogWriter) : tlogWriter := {|
  tw_synced := tw_synced w; tw_pending := tw_pending w; tw_bytesWritten := tw_bytesWritten w;
  tw_lastSeqInFile := tw_lastSeqInFile w; tw_rotated := tw_rotated w; tw_broken := tw_broken w;
  tw_closed := true; tw_stopped := tw_stopped w |}.

Definition tw_stop (w : tlogWriter) : tlogWriter := {|
  tw_synced := tw_synced w; tw_pending := tw_pending w; tw_bytesWritten := tw_bytesWritten w;
  tw_lastSeqInFile := tw_lastSeqInFile w; tw_rotated := tw_rotated w; tw_broken := tw_broken w;
  tw_closed := tw_closed w; tw_stopped := true |}.

(** Everything buffered becomes durable. *)
Definition tw_sync (w : tlogWriter) : tlogWriter := {|
  tw_synced := tw_synced w ++ tw_pending w; tw_pending := []; tw_bytesWritten := tw_bytesWritten w;
  tw_lastSeqInFile := tw_lastSeqInFile w; tw_rotated := tw_rotated w; tw_broken := tw_broken w;
  tw_closed := tw_closed w; tw_stopped := tw_stopped w |}.

Definition tw_buffer (b : bytes) (w : tlogWriter) : tlogWriter := {|
  tw_synced := tw_synced w; tw_pending := if tw_closed w then tw_pending w else tw_pending w ++ b;
  tw_bytesWritten := tw_bytesWritten w; tw_lastSeqInFile := tw_lastSeqInFile w;
  tw_rotated := tw_rotated w; tw_broken := tw_broken w; tw_closed := tw_closed w;
  tw_stopped := tw_stopped w |}.

Definition tw_count (n seq : Z) (w : tlogWriter) : tlogWriter := {|
  tw_synced := tw_synced w; tw_pending := tw_pending w; tw_bytesWritten := tw_bytesWritten w + n;
  tw_lastSeqInFile := if tw_lastSeqInFile w <? seq then seq else tw_lastSeqInFile w;
  tw_rotated := tw_rotated w; tw_broken := tw_broken w; tw_closed := tw_closed w;
  tw_stopped := tw_stopped w |}.

(** A rename replaces a file of that name. *)
Definition tw_rename (w : tlogWriter) : tlogWriter := {|
  tw_synced := []; tw_pending := []; tw_bytesWritten := tw_bytesWritten w;
  tw_lastSeqInFile := tw_lastSeqInFile w;
  tw_rotated := <[tw_lastSeqInFile w := tw_synced w]> (tw_rotated w); tw_broken := tw_broken w;
  tw_closed := tw_closed w; tw_stopped := tw_stopped w |}.

(** The file opened by a rotation. *)
Definition tw_reopen (w : tlogWriter) : tlogWriter := {|
  tw_synced := tw_synced w; tw_pending := tw_pending w; tw_bytesWritten := 0;
  tw_lastSeqInFile := tw_lastSeqInFile w; tw_rotated := tw_rotated w; tw_broken := false;
  tw_closed := false; tw_stopped := tw_stopped w |}.

(** Flush and Sync, with something buffered. *)
Definition flushSync (io : TLogIO) : GoM tlogWriter TLogErr unit := λ w,
  if tw_broken w then (Err ErrIO, w)
  else if tw_closed w then (Err ErrIO, tw_break w)
  else if wio_sync io then (Err ErrIO, w)
  else (Ok tt, tw_sync w).

Definition rotateLocked (io : TLogIO) : GoM tlogWriter TLogErr unit :=
  do! flushSync io in
  λ w, if wio_rename io then (Err ErrIO, tw_close w)
       else if wio_open io then (Err ErrIO, tw_rename (tw_close w))
       else (Ok tt, tw_reopen (tw_rename w)).

Definition is_dispute (rec : TLogRecord) : bool :=
  (tl_Kind rec =? TLogKindDisputeFiled) || (tl_Kind rec =? TLogKindDisputeResolved).

Definition bw_Write (io : TLogIO) (frame : bytes) : GoM tlogWriter TLogErr unit := λ w,
  if tw_broken w then (Err ErrIO, w)
  else match wio_write io with
       | Some k => (Err ErrIO, tw_break (tw_buffer (take k frame) w))
       | None => (Ok tt, tw_buffer frame w)
       end.

Definition Append (rotationBytes : Z) (io : TLogIO) (rec : TLogRecord) : GoM tlogWriter TLogErr unit :=
  let frame := marshalTLogRecord rec in
  do! bw_Write io frame in
  do! (λ w, (Ok tt, tw_count (blen frame) (tl_Seq rec) w)) in
  do! (if is_dispute rec then flushSync io else gret tt) in
  λ w, if rotationBytes <=? tw_bytesWritten w then rotateLocked io w else (Ok tt, w).

(** One turn of [flushLoop]; a file a rotation failed to reopen has nothing buffered
    then. *)
Definition flushTick (io : TLogIO) (w : tlogWriter) : tlogWriter :=
  if tw_stopped w || tw_broken w || tw_closed w || wio_sync io then w else tw_sync w.

Definition Close (io : TLogIO) : GoM tlogWriter TLogErr unit := λ w,
  if tw_stopped w then (Ok tt, w) else
  gbind (flushSync io) (λ _ w, (Ok tt, tw_close w)) (tw_stop w).

Definition LastSeq (w : tlogWriter) : Z := tw_lastSeqInFile w.

(** [enumerateTLogFiles]: the rotated files by number, then the active one. *)
Definition enumerateTLogFiles (active : option bytes) (rotated : gmap Z bytes) : list bytes :=
  (stable_sort (λ a b, a.1 <? b.1) (map_to_list rotated)).*2 ++ option_list active.

(** What a crash leaves of the active file: the synced bytes and some of the others. *)
Definition survives (w : tlogWriter) (active : bytes) : Prop :=
  ∃ k, active = tw_synced w ++ take k (tw_pending w).

(** ** Slices of concatenations *)

Lemma slice_app_r x y i j :
  (length x <= i)%nat → slice (x ++ y) i j = slice y (i - length x) (j - length x).
Proof.
  intros Hi. unfold slice. rewrite drop_app_ge by done. f_equal. lia.
Qed.

Lemma slice_app_l x y i j : i = 0%nat → length x = j → slice (x ++ y) i j = x.
Proof. intros -> <-. unfold slice. rewrite drop_0, Nat.sub_0_r. apply take_app_length. Qed.

Lemma slice_all x i j : i = 0%nat → length x = j → slice x i j = x.
Proof. intros -> <-. unfold slice. rewrite drop_0, Nat.sub_0_r. by apply take_ge. Qed.

(** A slice that ends inside the first part. *)
Lemma slice_app_in x y i j : (j <= length x)%nat → slice (x ++ y) i j = slice x i j.
Proof.
  intros Hj. unfold slice. destruct (decide (i <= length x)%nat) as [Hi|Hi].
  - rewrite drop_app_le by done. apply take_app_le. rewrite length_drop. lia.
  - assert (j - i = 0)%nat as -> by lia. done.
Qed.

Lemma length_slice b i j : (i <= j <= length b)%nat → length (slice b i j) = (j - i)%nat.
Proof. intros ?. unfold slice. rewrite length_take, length_drop. lia. Qed.

#[export] Hint Rewrite length_be_bytes length_PutUint64 : lens.
#[export] Hint Rewrite @length_app @length_cons @length_nil : lens.

Ltac len := autorewrite with lens in *; lia.

(** Evaluate a slice of parts whose lengths are known. *)
Ltac slices :=
  rewrite <- ?app_assoc;
  repeat first
    [ rewrite slice_app_l by len | rewrite slice_all by len
    | rewrite slice_app_r by len; autorewrite with lens ].

Lemma be_val_u64 v : is_u64 v → be_val (PutUint64 v) = v.
Proof.
  unfold is_u64, PutUint64. intros Hv. rewrite be_val_be_bytes by lia.
  change (256 ^ Z.of_nat 8) with (2 ^ 64). apply Z.mod_small. lia.
Qed.

Lemma be_val_u32 v : is_u32 v → be_val (be_bytes 4 v) = v.
Proof.
  unfold is_u32. intros Hv. rewrite be_val_be_bytes by lia.
  change (256 ^ Z.of_nat 4) with (2 ^ 32). apply Z.mod_small. lia.
Qed.

Lemma be_val_byte z : 0 <= z < 256 → be_val [byte_of_Z z] = z.
Proof.
  intros Hz. unfold be_val. cbn [foldl]. rewrite Z_of_byte_of_Z. rewrite Z.mod_small by lia. lia.
Qed.

Lemma crc32c_u32 b : is_u32 (crc32c b).
Proof. apply u32_range. Qed.

#[global] Arguments marshalTLogRecord : simpl never.

(** ** Frames *)

(** A record that a frame can hold. *)
Definition record_ok (rec : TLogRecord) : Prop :=
  is_u64 (tl_Seq rec) ∧ is_u64 (tl_Ts rec) ∧ 0 <= tl_Kind rec < 256 ∧ blen (tl_Payload rec) + 21 < 2 ^ 32.

Lemma length_tlog_body rec : length (tlog_body rec) = (17 + length (tl_Payload rec))%nat.
Proof. unfold tlog_body. len. Qed.

Lemma length_marshalTLogRecord rec : length (marshalTLogRecord rec) = (25 + length (tl_Payload rec))%nat.
Proof. unfold marshalTLogRecord. autorewrite with lens. rewrite length_tlog_body. lia. Qed.

#[export] Hint Rewrite length_tlog_body length_marshalTLogRecord : lens.

Lemma unmarshal_marshal rec rest :
  record_ok rec →
  unmarshalTLogRecord (marshalTLogRecord rec ++ rest) = Ok (rec, blen (marshalTLogRecord rec)).
Proof.
  intros (Hs & Ht & Hk & Hp). unfold unmarshalTLogRecord, blen, tlogMinFrameSize in *.
  autorewrite with lens. set (n := length (tl_Payload rec)) in *.
  assert (be_val (slice (marshalTLogRecord rec ++ rest) 0 4) = Z.of_nat (21 + n)) as ->.
  { unfold marshalTLogRecord. slices. rewrite be_val_u32; unfold is_u32, blen; fold n; lia. }
  assert ((Z.of_nat (25 + n + length rest) <? 4 + 8 + 8 + 1 + 4) = false) as -> by (apply Z.ltb_ge; lia).
  assert ((Z.of_nat (25 + n + length rest) <? 4 + Z.of_nat (21 + n)) = false) as -> by (apply Z.ltb_ge; lia).
  assert ((Z.of_nat (21 + n) <? 4 + 8 + 8 + 1 + 4 - 4) = false) as -> by (apply Z.ltb_ge; lia).
  assert (Z.to_nat (4 + Z.of_nat (21 + n) - 4) = 21 + n)%nat as -> by lia.
  assert (Z.to_nat (4 + Z.of_nat (21 + n)) = 25 + n)%nat as -> by lia.
  assert (slice (marshalTLogRecord rec ++ rest) 4 (21 + n) = tlog_body rec) as ->.
  { unfold marshalTLogRecord. slices. done. }
  assert (slice (marshalTLogRecord rec ++ rest) (21 + n) (25 + n) = be_bytes 4 (crc32c (tlog_body rec))) as ->.
  { unfold marshalTLogRecord. slices. done. }
  rewrite (be_val_u32 _ (crc32c_u32 _)), Z.eqb_refl. cbn [negb].
  f_equal. f_equal; [|lia].
  unfold marshalTLogRecord, tlog_body. destruct rec as [seq ts kind payload].
  cbn [tl_Seq tl_Ts tl_Kind tl_Payload] in *. f_equal; slices; unfold n; cbn [tl_Payload].
  - by apply be_val_u64.
  - by apply be_val_u64.
  - by apply be_val_byte.
  - done.
Qed.

Lemma blen_marshal_pos rec : 25 <= blen (marshalTLogRecord rec).
Proof. unfold blen. autorewrite with lens. lia. Qed.

(** ** What a parse accepts *)

Lemma be_val_range b : 0 <= be_val b < 256 ^ blen b.
Proof.
  unfold be_val, blen. induction b as [|x b IH] using rev_ind; [cbn; lia|].
  rewrite foldl_app, length_app, Nat2Z.inj_add. cbn [foldl length].
  rewrite Z.pow_add_r by lia. change (256 ^ Z.of_nat 1) with 256.
  pose proof (Z_of_byte_range x). nia.
Qed.

Lemma byte_of_Z_of_byte x k : byte_of_Z (256 * k + Z_of_byte x) = x.
Proof.
  unfold byte_of_Z, Z_of_byte. pose proof (Z_of_byte_range x) as Hx. unfold Z_of_byte in Hx.
  rewrite Z.add_comm, Z.mul_comm, Z_mod_plus_full, Z.mod_small by lia.
  rewrite N2Z.id, Byte.of_to_N. done.
Qed.

Lemma be_bytes_snoc n v x :
  be_bytes (S n) (256 * v + Z_of_byte x) = be_bytes n v ++ [x].
Proof.
  pose proof (Z_of_byte_range x).
  induction n as [|n IH].
  - unfold be_bytes. change (8 * Z.of_nat 0) with 0. by rewrite Z.shiftr_0_r, byte_of_Z_of_byte.
  - change (be_bytes (S (S n)) ?w) with (byte_of_Z (Z.shiftr w (8 * Z.of_nat (S n))) :: be_bytes (S n) w).
    rewrite IH. unfold be_bytes at 2; fold be_bytes. cbn [app]. f_equal. f_equal.
    rewrite !Z.shiftr_div_pow2 by lia.
    replace (8 * Z.of_nat (S n)) with (8 + 8 * Z.of_nat n) by lia.
    rewrite Z.pow_add_r by lia. rewrite <- Z.div_div by lia. f_equal.
    change (2 ^ 8) with 256. rewrite (Z.mul_comm 256 v), Z.div_add_l, Z.div_small by lia. lia.
Qed.

(** A fixed-width field has one encoding. *)
Lemma be_bytes_be_val b : be_bytes (length b) (be_val b) = b.
Proof.
  induction b as [|x b IH] using rev_ind; [done|].
  unfold be_val in *. rewrite foldl_app, length_app, Nat.add_1_r. cbn [foldl].
  by rewrite be_bytes_snoc, IH.
Qed.

Lemma be_bytes_slice b i j n :
  (i <= j <= length b)%nat → n = (j - i)%nat → be_bytes n (be_val (slice b i j)) = slice b i j.
Proof. intros Hij ->. rewrite <- (length_slice b i j Hij) at 1. apply be_bytes_be_val. Qed.

Lemma slice_split b i j k : (i <= j <= k)%nat → slice b i j ++ slice b j k = slice b i k.
Proof.
  intros Hijk. unfold slice. replace (k - i)%nat with ((j - i) + (k - j))%nat by lia.
  rewrite <- (take_take_drop (drop i b) (j - i) (k - j)), drop_drop.
  do 3 f_equal. lia.
Qed.

Lemma slice_prefix b k : slice b 0 k = take k b.
Proof. unfold slice. rewrite drop_0. f_equal. lia. Qed.

Lemma be_val_slice_range b i j : (i <= j <= length b)%nat → 0 <= be_val (slice b i j) < 256 ^ Z.of_nat (j - i).
Proof.
  intros Hij. pose proof (be_val_range (slice b i j)) as H. unfold blen in H.
  by rewrite (length_slice b i j Hij) in H.
Qed.

Lemma unmarshal_sound buf rec n :
  unmarshalTLogRecord buf = Ok (rec, n) →
  record_ok rec ∧ n = blen (marshalTLogRecord rec) ∧ take (Z.to_nat n) buf = marshalTLogRecord rec.
Proof.
  unfold unmarshalTLogRecord, tlogMinFrameSize. intros H. go_inv H. bool_to_prop. unfold blen in *.
  set (bl := be_val (slice buf 0 4)) in *.
  set (pe := Z.to_nat (4 + bl - 4)) in *.
  assert (Z.to_nat (4 + bl) = (4 + pe)%nat) as Hfl by lia. rewrite Hfl in *.
  assert (21 <= pe)%nat as Hpe by lia. assert (4 + pe <= length buf)%nat as Hbl by lia.
  pose proof (be_val_slice_range buf 0 4 ltac:(lia)) as H4. fold bl in H4.
  change (256 ^ Z.of_nat (4 - 0)) with (2 ^ 32) in H4.
  assert (length (slice buf 21 pe) = pe - 21)%nat as Hp by (apply length_slice; lia).
  assert (tlog_body {| tl_Seq := be_val (slice buf 4 12); tl_Ts := be_val (slice buf 12 20);
            tl_Kind := be_val (slice buf 20 21); tl_Payload := slice buf 21 pe |} = slice buf 4 pe) as Hbody.
  { unfold tlog_body, PutUint64. cbn [tl_Seq tl_Ts tl_Kind tl_Payload].
    rewrite (be_bytes_slice buf 4 12 8), (be_bytes_slice buf 12 20 8) by lia.
    assert ([byte_of_Z (be_val (slice buf 20 21))] = slice buf 20 21) as ->.
    { transitivity (be_bytes 1 (be_val (slice buf 20 21))); [done|]. apply be_bytes_slice; lia. }
    rewrite (slice_split buf 20 21 pe), (slice_split buf 12 20 pe), (slice_split buf 4 12 pe) by lia. done. }
  split_and!.
  - unfold record_ok, is_u64, blen. cbn [tl_Seq tl_Ts tl_Kind tl_Payload]. rewrite Hp.
    pose proof (be_val_slice_range buf 4 12 ltac:(lia)).
    pose proof (be_val_slice_range buf 12 20 ltac:(lia)).
    pose proof (be_val_slice_range buf 20 21 ltac:(lia)).
    cbn in *. lia.
  - rewrite length_marshalTLogRecord. cbn [tl_Payload]. lia.
  - unfold marshalTLogRecord. rewrite Hbody. unfold blen. cbn [tl_Payload]. rewrite Hp.
    replace (8 + 8 + 1 + Z.of_nat (pe - 21) + 4) with bl by lia. subst bl.
    match goal with H : be_val (slice buf pe _) = _ |- _ => rewrite <- H end.
    rewrite (be_bytes_slice buf 0 4 4) by lia.
    rewrite (be_bytes_slice buf pe (4 + pe) 4) by lia.
    rewrite (slice_split buf 4 pe), (slice_split buf 0 4) by lia. rewrite slice_prefix. done.
Qed.

(** ** What the reader of a file returns *)

(** The log's parser accepts exactly the frames. A buffer parses as a record and a length
    if and only if it starts with the frame of that record, the length is the frame's, and
    the record is one a frame can hold: the CRC, the length field and the fixed fields
    leave no second encoding, and no record is lost by encoding it. *)
Lemma unmarshalTLogRecord_exact buf rec n :
  unmarshalTLogRecord buf = Ok (rec, n) ↔
  record_ok rec ∧ n = blen (marshalTLogRecord rec) ∧ ∃ rest, buf = marshalTLogRecord rec ++ rest.
Proof.
  split.
  - intros (Hok & -> & Htake)%unmarshal_sound. split_and!; [done..|].
    exists (drop (Z.to_nat (blen (marshalTLogRecord rec))) buf).
    set (k := Z.to_nat _) in *. by rewrite <- Htake, take_drop.
  - intros (Hok & -> & rest & ->). by apply unmarshal_marshal.
Qed.

Definition frames (recs : list TLogRecord) : bytes := concat (marshalTLogRecord <$> recs).

Lemma frames_cons rec recs : frames (rec :: recs) = marshalTLogRecord rec ++ frames recs.
Proof. done. Qed.

Lemma frames_app l1 l2 : frames (l1 ++ l2) = frames l1 ++ frames l2.
Proof. unfold frames. by rewrite fmap_app, concat_app. Qed.

Lemma frames_one rec : frames [rec] = marshalTLogRecord rec.
Proof. unfold frames. cbn. apply app_nil_r. Qed.

(** The unparsed rest of a file and the reader's verdict on it. *)
Definition tail_verdict (rest : bytes) (err : option TLogErr) : Prop :=
  match err with
  | None => rest = [] ∨ unmarshalTLogRecord rest = Err ErrTLogTruncated
  | Some e => e = ErrTLogCorrupt ∧ rest ≠ [] ∧ unmarshalTLogRecord rest = Err ErrTLogCorrupt
  end.

Lemma unmarshal_err buf e :
  unmarshalTLogRecord buf = Err e → e = ErrTLogTruncated ∨ e = ErrTLogCorrupt.
Proof. unfold unmarshalTLogRecord. intros H. go_inv H; auto. Qed.

Lemma read_records_spec fuel data pos :
  (length data <= fuel)%nat →
  ∃ recs rest err, read_records fuel data pos = Some (recs, pos + blen (frames recs), err)
    ∧ data = frames recs ++ rest ∧ Forall record_ok recs ∧ tail_verdict rest err.
Proof.
  revert data pos. induction fuel as [|fuel IH]; intros data pos Hf.
  { destruct data; [|cbn in Hf; lia]. exists [], [], None. unfold blen. cbn.
    rewrite Z.add_0_r. unfold tail_verdict. auto. }
  destruct data as [|b data'] eqn:Hd.
  { exists [], [], None. unfold blen. cbn. rewrite Z.add_0_r. unfold tail_verdict. auto. }
  rewrite <- Hd in *. assert (data ≠ []) as Hne by (by rewrite Hd).
  assert (read_records (S fuel) data pos =
    match unmarshalTLogRecord data with
    | Err ErrTLogTruncated => Some ([], pos, None)
    | Err e => Some ([], pos, Some e)
    | Ok (rec, n) =>
      match read_records fuel (drop (Z.to_nat n) data) (pos + n) with
      | Some (recs, last, err) => Some (rec :: recs, last, err)
      | None => None
      end
    end) as -> by (by rewrite Hd).
  clear b data' Hd. destruct (unmarshalTLogRecord data) as [[rec n]|e] eqn:Hu.
  - apply unmarshal_sound in Hu as (Hok & Hn & Htake).
    pose proof (blen_marshal_pos rec).
    destruct (IH (drop (Z.to_nat n) data) (pos + n)) as (recs & rest & err & -> & Hdrop & Hall & Hv).
    { rewrite length_drop. lia. }
    exists (rec :: recs), rest, err. split_and!; [|..|by constructor|done].
    + rewrite frames_cons. unfold blen in *. rewrite length_app. do 3 f_equal. lia.
    + rewrite frames_cons, <- app_assoc, <- Hdrop, <- Htake. clear. by rewrite take_drop.
  - assert (blen (frames []) = 0) as H0 by done.
    pose proof (unmarshal_err _ _ Hu) as [-> | ->].
    + exists [], data, None. rewrite H0, Z.add_0_r. split_and!; auto; by constructor.
    + exists [], data, (Some ErrTLogCorrupt). rewrite H0, Z.add_0_r. split_and!; auto; by constructor.
Qed.


(** ** Files that were cut short *)

Lemma unmarshal_cut rec buf more :
  record_ok rec → marshalTLogRecord rec = buf ++ more → more ≠ [] →
  unmarshalTLogRecord buf = Err ErrTLogTruncated.
Proof.
  intros Hok Heq Hmore. unfold unmarshalTLogRecord.
  destruct (blen buf <? tlogMinFrameSize) eqn:Hmin; [done|]. apply Z.ltb_ge in Hmin.
  assert (blen buf <? 4 + be_val (slice buf 0 4) = true) as ->; [|done].
  unfold tlogMinFrameSize, blen in *. destruct Hok as (_ & _ & _ & Hp). unfold blen in Hp.
  assert (slice buf 0 4 = slice (marshalTLogRecord rec) 0 4) as ->
    by (rewrite Heq; symmetry; apply slice_app_in; lia).
  apply (f_equal length) in Heq. autorewrite with lens in Heq.
  assert (length more <> 0%nat) by (by destruct more).
  unfold marshalTLogRecord. rewrite slice_app_l by len.
  rewrite be_val_u32; unfold is_u32, blen; [apply Z.ltb_lt|]; lia.
Qed.

(** Frames followed by bytes that parse as truncated. *)
Lemma readTLogFile_frames recs rest :
  Forall record_ok recs → (rest = [] ∨ unmarshalTLogRecord rest = Err ErrTLogTruncated) →
  readTLogFile (frames recs ++ rest) = Some (recs, blen (frames recs), None).
Proof.
  intros Hall Hrest. unfold readTLogFile.
  assert (∀ fuel pos, (length (frames recs ++ rest) <= fuel)%nat →
    read_records fuel (frames recs ++ rest) pos = Some (recs, pos + blen (frames recs), None)) as Hgen.
  2: { rewrite Hgen by done. done. }
  induction Hall as [|rec recs Hok Hall IH]; intros fuel pos Hf.
  - cbn [frames concat fmap list_fmap app] in *. unfold blen. cbn [length]. rewrite Z.add_0_r.
    destruct rest as [|x rest']; [by destruct fuel|]. destruct Hrest as [|Hu]; [done|].
    destruct fuel as [|fuel]; [cbn in Hf; lia|]. cbn [read_records]. by rewrite Hu.
  - rewrite frames_cons, <- app_assoc in *. pose proof (blen_marshal_pos rec) as Hpos.
    rewrite length_app in Hf. unfold blen in Hpos.
    destruct fuel as [|fuel]; [lia|].
    destruct (marshalTLogRecord rec ++ frames recs ++ rest) as [|y data'] eqn:Hd.
    { apply (f_equal length) in Hd. rewrite length_app in Hd. cbn in Hd. lia. }
    cbn [read_records]. rewrite <- Hd, unmarshal_marshal by done.
    unfold blen at 1. rewrite Nat2Z.id, drop_app_length, IH by lia.
    unfold blen. rewrite length_app. do 3 f_equal. lia.
Qed.

(** [torn]: what a failed write can leave behind the last whole frame. *)
Definition torn (b : bytes) : Prop :=
  b = [] ∨ ∃ rec more, record_ok rec ∧ marshalTLogRecord rec = b ++ more ∧ more ≠ [].

Lemma torn_verdict b : torn b → b = [] ∨ unmarshalTLogRecord b = Err ErrTLogTruncated.
Proof. intros [->|(rec & more & Hok & Heq & Hne)]; [by left|right]. by eapply unmarshal_cut. Qed.

Lemma torn_prefix b more : torn (b ++ more) → torn b.
Proof.
  intros [[-> ->]%app_eq_nil|(rec & more' & Hok & Heq & Hne)]; [by left|right].
  exists rec, (more ++ more'). split_and!; [done|by rewrite Heq, app_assoc|].
  destruct more; [done|done].
Qed.

(** A prefix of a log: whole frames, as many as fit, and a torn one. *)
Lemma cut_log recs t more b :
  Forall record_ok recs → torn t → frames recs ++ t = b ++ more →
  ∃ recs' rest, b = frames recs' ++ rest ∧ recs' `prefix_of` recs ∧ torn rest
    ∧ ∀ l1, l1 `prefix_of` recs → (length (frames l1) <= length b)%nat → l1 `prefix_of` recs'.
Proof.
  intros Hall Ht. revert b. induction Hall as [|rec recs Hok Hall IH]; intros b Heq.
  - exists [], b. cbn in Heq. subst t. split_and!; [done..|by eapply torn_prefix|].
    intros l1 Hl1 _. done.
  - rewrite frames_cons, <- app_assoc in Heq.
    destruct (decide (length (marshalTLogRecord rec) <= length b)%nat) as [Hge|Hlt].
    + assert (b = marshalTLogRecord rec ++ drop (length (marshalTLogRecord rec)) b) as Hb.
      { rewrite <- (take_drop (length (marshalTLogRecord rec)) b) at 1. f_equal.
        rewrite <- (take_app_le b more) by done. rewrite <- Heq. apply take_app_length. }
      rewrite Hb, <- app_assoc in Heq. apply app_inv_head in Heq.
      destruct (IH _ Heq) as (recs' & rest & Hd & Hpre & Hrest & Hmax).
      exists (rec :: recs'), rest. split_and!; [|by apply prefix_cons|done|].
      * by rewrite Hb, Hd at 1; rewrite frames_cons, <- app_assoc.
      * intros [|r l1] Hl1 Hlen; [apply prefix_nil|].
        pose proof (prefix_cons_inv_1 _ _ _ _ Hl1) as ->.
        apply prefix_cons, Hmax; [by eapply prefix_cons_inv_2|].
        rewrite frames_cons, length_app in Hlen. rewrite length_drop. lia.
    + exists [], b. split_and!; [done|apply prefix_nil| |].
      * right. exists rec, (drop (length b) (marshalTLogRecord rec)). split_and!; [done| |].
        -- rewrite <- (take_drop (length b) (marshalTLogRecord rec)) at 1. f_equal.
           rewrite <- (take_app_le (marshalTLogRecord rec) (frames recs ++ t)) by lia.
           rewrite Heq. apply take_app_length.
        -- intros Hd. apply (f_equal length) in Hd. rewrite length_drop in Hd. cbn in Hd. lia.
      * intros [|r l1] Hl1 Hlen; [done|].
        pose proof (prefix_cons_inv_1 _ _ _ _ Hl1) as ->.
        rewrite frames_cons, length_app in Hlen. lia.
Qed.

(** Any prefix of a log reads as a prefix of its records, and as all those it holds
    whole. *)
Lemma read_prefix_of_log recs t b more :
  Forall record_ok recs → torn t → frames recs ++ t = b ++ more →
  ∃ recs', readTLogFile b = Some (recs', blen (frames recs'), None) ∧ recs' `prefix_of` recs
    ∧ (∀ l1, l1 `prefix_of` recs → (length (frames l1) <= length b)%nat → l1 `prefix_of` recs').
Proof.
  intros Hall Ht Heq. destruct (cut_log _ _ _ _ Hall Ht Heq) as (recs' & rest & -> & Hpre & Hrest & Hmax).
  exists recs'. split_and!; [|done|done]. apply readTLogFile_frames.
  - destruct Hpre as [k ->]. by apply Forall_app in Hall as [? _].
  - by apply torn_verdict.
Qed.

(** ** The directory a writer leaves *)

Definition key_ltb (a b : Z * bytes) : bool := a.1 <? b.1.

Lemma rotated_insert (m : gmap Z bytes) k v :
  (∀ i, i ∈ dom m → i < k) →
  stable_sort key_ltb (map_to_list (<[k := v]> m)) = stable_sort key_ltb (map_to_list m) ++ [(k, v)].
Proof.
  intros Hlt. assert (m !! k = None) as Hk.
  { apply not_elem_of_dom. intros Hin. specialize (Hlt _ Hin). lia. }
  assert (∀ l : list (Z * bytes), StronglySorted (λ x y, key_ltb y x = false) (stable_sort key_ltb l)) as Hsort.
  { intros l. apply (stable_sort_sorted (λ _, True)); unfold key_ltb; [..|by apply Forall_forall];
      intros; rewrite ?Z.ltb_lt, ?Z.ltb_ge in *; lia. }
  assert (∀ x, x ∈ stable_sort key_ltb (map_to_list m) → x.1 < k) as Hbelow.
  { intros [i b]. rewrite stable_sort_perm, elem_of_map_to_list. intros Hi. apply Hlt, elem_of_dom. eauto. }
  apply (StronglySorted_unique_strong (λ x y, key_ltb y x = false)).
  - intros [i b] [j c]. rewrite stable_sort_perm, elem_of_map_to_list, elem_of_app, list_elem_of_singleton.
    unfold key_ltb. cbn. rewrite !Z.ltb_ge. intros Hi Hj ? ?. assert (i = j) as <- by lia. f_equal.
    destruct Hj as [Hj|[= -> ->]].
    + pose proof (Hbelow _ Hj) as Hik. cbn in Hik. rewrite stable_sort_perm, elem_of_map_to_list in Hj.
      rewrite lookup_insert_ne in Hi by lia. congruence.
    + rewrite lookup_insert_eq in Hi. congruence.
  - apply Hsort.
  - induction (Hsort (map_to_list m)) as [|x l Hl IH Hx]; [repeat constructor|].
    cbn. constructor; [apply IH; intros y Hy; apply Hbelow; by right|].
    apply Forall_app. split; [done|]. constructor; [|done].
    unfold key_ltb. apply Z.ltb_ge. cbn. pose proof (Hbelow x (list_elem_of_here _ _)). lia.
  - rewrite !stable_sort_perm, map_to_list_insert by done. by rewrite Permutation_cons_append.
Qed.

(** What a restart reads: every file in turn, stopping at an error. *)
Definition read_log (files : list bytes) : option (list TLogRecord) :=
  foldr (λ f acc, match readTLogFile f, acc with
                  | Some (recs, _, None), Some rest => Some (recs ++ rest)
                  | _, _ => None
                  end) (Some []) files.

(** The runs of a writer from an empty directory, with the records whose frames were
    written and, of those, the disputes whose [Append] returned no error. A write that
    fails has not taken the whole frame; and a rotation needs a number that names no
    earlier file: the records of ledger events bring one, a snapshot mark does not. *)
Definition append_ok (rotationBytes : Z) (io : TLogIO) (rec : TLogRecord) (w : tlogWriter) : Prop :=
  record_ok rec ∧ (∀ k, wio_write io = Some k → drop k (marshalTLogRecord rec) ≠ []) ∧
  (tw_lastSeqInFile w < tl_Seq rec ∨ tw_bytesWritten w + blen (marshalTLogRecord rec) < rotationBytes).

Definition wrote (io : TLogIO) (w : tlogWriter) : bool :=
  negb (tw_broken w) && negb (tw_closed w) && match wio_write io with None => true | Some _ => false end.

Inductive wrun (rotationBytes : Z) : tlogWriter → list TLogRecord → list TLogRecord → Prop :=
| wrun_new : wrun rotationBytes (newTLogWriter [] ∅) [] []
| wrun_append w logged acked io rec r w' :
    wrun rotationBytes w logged acked → append_ok rotationBytes io rec w →
    Append rotationBytes io rec w = (r, w') →
    wrun rotationBytes w' (if wrote io w then logged ++ [rec] else logged)
      (if is_dispute rec && is_ok r then acked ++ [rec] else acked)
| wrun_tick w logged acked io :
    wrun rotationBytes w logged acked → wrun rotationBytes (flushTick io w) logged acked
| wrun_close w logged acked io r w' :
    wrun rotationBytes w logged acked → Close io w = (r, w') → wrun rotationBytes w' logged acked.

(** The rotated files hold whole frames, the active one too up to a torn end; what is
    durable includes the acknowledged disputes. *)
Definition wdir (w : tlogWriter) (logged acked : list TLogRecord) : Prop :=
  ∃ rot synced pending t,
    (stable_sort key_ltb (map_to_list (tw_rotated w))).*2 = frames <$> rot
    ∧ logged = concat rot ++ synced ++ pending
    ∧ tw_synced w = frames synced ∧ tw_pending w = frames pending ++ t
    ∧ torn t ∧ (t ≠ [] → tw_broken w = true)
    ∧ (∀ i, i ∈ dom (tw_rotated w) → i <= tw_lastSeqInFile w)
    ∧ acked ⊆ concat rot ++ synced.

Lemma wdir_acked w L A A' : wdir w L A → A' ⊆ A → wdir w L A'.
Proof.
  intros (rot & sy & pe & t & H1 & H2 & H3 & H4 & H5 & H6 & H7 & H8) HA.
  exists rot, sy, pe, t. split_and!; try done. set_solver.
Qed.

(** Operations that leave the bytes alone. *)
Lemma wdir_same w w' L A :
  tw_synced w' = tw_synced w → tw_pending w' = tw_pending w → tw_rotated w' = tw_rotated w →
  (tw_broken w = true → tw_broken w' = true) → tw_lastSeqInFile w <= tw_lastSeqInFile w' →
  wdir w L A → wdir w' L A.
Proof.
  intros E1 E2 E3 E4 E5 (rot & sy & pe & t & H1 & H2 & H3 & H4 & H5 & H6 & H7 & H8).
  exists rot, sy, pe, t. rewrite E1, E2, E3. split_and!; auto. intros i Hi. specialize (H7 i Hi). lia.
Qed.

(** After a sync every logged record is durable. *)
Lemma wdir_sync w L A : tw_broken w = false → wdir w L A → wdir (tw_sync w) L L.
Proof.
  intros Hb (rot & sy & pe & t & H1 & H2 & H3 & H4 & H5 & H6 & H7 & H8).
  assert (t = []) as -> by (destruct t; [done|]; rewrite H6 in Hb by done; done).
  exists rot, (sy ++ pe), [], []. rewrite app_nil_r in *. cbn. rewrite H3, H4.
  split_and!; try done; [by rewrite frames_app|by rewrite H2].
Qed.

Lemma wdir_rename w L A A' :
  tw_pending w = [] → tw_broken w = false → (∀ i, i ∈ dom (tw_rotated w) → i < tw_lastSeqInFile w) →
  A' ⊆ A → wdir w L A → wdir (tw_rename w) L A'.
Proof.
  intros Hp Hb Hlt HA (rot & sy & pe & t & H1 & H2 & H3 & H4 & H5 & H6 & H7 & H8).
  assert (t = []) as -> by (destruct t; [done|]; rewrite H6 in Hb by done; done).
  assert (pe = []) as ->.
  { rewrite Hp, app_nil_r in H4. destruct pe as [|x pe]; [done|]. rewrite frames_cons in H4.
    apply (f_equal length) in H4. rewrite length_app in H4. autorewrite with lens in H4. cbn in H4. lia. }
  exists (rot ++ [sy]), [], [], []. cbn. rewrite rotated_insert by done. rewrite !fmap_app, H1, H3.
  rewrite concat_app, !app_nil_r in *. cbn. rewrite app_nil_r.
  split_and!; try done; [|set_solver].
  intros i. rewrite dom_insert, elem_of_union, elem_of_singleton. intros [->|Hi]; [lia|auto].
Qed.

Lemma flushSync_wdir io w r w' L A :
  flushSync io w = (r, w') → wdir w L A →
  wdir w' L (if is_ok r then L else A)
  ∧ tw_rotated w' = tw_rotated w ∧ tw_lastSeqInFile w' = tw_lastSeqInFile w
  ∧ (is_ok r = true → tw_pending w' = [] ∧ tw_broken w' = false ∧ tw_broken w = false ∧ tw_closed w = false).
Proof.
  unfold flushSync. intros H Hw.
  destruct (tw_broken w) eqn:Hb; [by simplify_eq/=; split_and!|].
  destruct (tw_closed w) eqn:Hc; [|destruct (wio_sync io); [by simplify_eq/=; split_and!|]]; simplify_eq/=.
  - split_and!; try done. by apply (wdir_same w).
  - split_and!; try done. by eapply wdir_sync.
Qed.

Lemma rotateLocked_wdir io w r w' L A :
  rotateLocked io w = (r, w') → (∀ i, i ∈ dom (tw_rotated w) → i < tw_lastSeqInFile w) →
  wdir w L A → A ⊆ L → wdir w' L A.
Proof.
  unfold rotateLocked, gbind. intros H Hlt Hw HA.
  destruct (flushSync io w) as [rf wf] eqn:Hf.
  destruct (flushSync_wdir _ _ _ _ _ _ Hf Hw) as (Hwf & Hrot & Hseq & Hok).
  destruct rf as [[]|e]; [|by simplify_eq/=]. cbn in *. destruct (Hok eq_refl) as (Hp & Hb & _).
  rewrite <- Hrot, <- Hseq in Hlt. clear Hok Hf.
  destruct (wio_rename io); [|destruct (wio_open io)]; simplify_eq/=.
  - by apply (wdir_same wf), (wdir_acked _ _ L).
  - apply (wdir_rename _ _ L); [done..|]. by apply (wdir_same wf).
  - apply (wdir_same (tw_rename wf)); try done; [by cbn; rewrite Hb|].
    by apply (wdir_rename _ _ L).
Qed.

(** The record goes to the buffer whole, or its beginning does. *)
Lemma bw_Write_wdir io rec w r w' L A :
  bw_Write io (marshalTLogRecord rec) w = (r, w') → record_ok rec →
  (∀ k, wio_write io = Some k → drop k (marshalTLogRecord rec) ≠ []) →
  wdir w L A →
  wdir w' (if wrote io w then L ++ [rec] else L) A
  ∧ tw_rotated w' = tw_rotated w ∧ tw_lastSeqInFile w' = tw_lastSeqInFile w
  ∧ (is_ok r = true → wrote io w = negb (tw_closed w) ∧ tw_closed w' = tw_closed w).
Proof.
  unfold bw_Write, wrote. intros H Hok Hk (rot & sy & pe & t & H1 & H2 & H3 & H4 & H5 & H6 & H7 & H8).
  destruct (tw_broken w) eqn:Hb.
  { simplify_eq/=. split_and!; try done. exists rot, sy, pe, t. rewrite Hb. done. }
  assert (t = []) as -> by (by destruct t; [|specialize (H6 ltac:(done))]). rewrite app_nil_r in H4.
  destruct (wio_write io) as [k|]; simplify_eq/=; rewrite ?andb_false_r, ?andb_true_r.
  - split_and!; try done. exists rot, sy, pe, (if tw_closed w then [] else take k (marshalTLogRecord rec)).
    cbn. split_and!; try done.
    + destruct (tw_closed w); by rewrite H4, ?app_nil_r.
    + destruct (tw_closed w); [by left|right]. exists rec, (drop k (marshalTLogRecord rec)).
      split_and!; [done|by rewrite take_drop|by apply Hk].
  - split_and!; try done. destruct (tw_closed w) eqn:Hc; cbn.
    + exists rot, sy, pe, []. cbn. rewrite Hc, app_nil_r. done.
    + exists rot, sy, (pe ++ [rec]), []. cbn. rewrite Hc, H4, frames_app, frames_one, app_nil_r.
      split_and!; try done. by rewrite <- !app_assoc.
Qed.

Lemma Append_wdir rotationBytes io rec w r w' L A :
  Append rotationBytes io rec w = (r, w') → append_ok rotationBytes io rec w →
  wdir w L A → A ⊆ L →
  wdir w' (if wrote io w then L ++ [rec] else L) (if is_dispute rec && is_ok r then A ++ [rec] else A).
Proof.
  intros H (Hok & Hcut & Hfresh) Hw HA. unfold Append, gbind in H.
  destruct (bw_Write io (marshalTLogRecord rec) w) as [r1 w1] eqn:H1.
  destruct (bw_Write_wdir _ _ _ _ _ _ _ H1 Hok Hcut Hw) as (Hw1 & Hrot1 & Hseq1 & Hwrote).
  assert (tw_bytesWritten w1 = tw_bytesWritten w) as Hb1.
  { unfold bw_Write in H1. clear -H1. go_inv H1; done. }
  destruct r1 as [[]|e]; [|simplify_eq/=; by rewrite andb_false_r]. cbn in Hwrote.
  destruct (Hwrote eq_refl) as [Hwr Hcl]. clear Hwrote H1.
  set (L' := if wrote io w then L ++ [rec] else L) in *.
  assert (A ⊆ L') as HA' by (unfold L'; destruct (wrote io w); set_solver).
  set (w2 := tw_count (blen (marshalTLogRecord rec)) (tl_Seq rec) w1) in *.
  assert (wdir w2 L' A) as Hw2.
  { apply (wdir_same w1); try done. cbn. destruct (tw_lastSeqInFile w1 <? tl_Seq rec) eqn:E; [|lia].
    apply Z.ltb_lt in E. lia. }
  assert (∃ r3 w3, (if is_dispute rec then flushSync io else gret tt) w2 = (r3, w3)
    ∧ tw_rotated w3 = tw_rotated w2 ∧ tw_lastSeqInFile w3 = tw_lastSeqInFile w2
    ∧ tw_bytesWritten w3 = tw_bytesWritten w2
    ∧ wdir w3 L' (if is_dispute rec && is_ok r3 then A ++ [rec] else A)) as (r3 & w3 & H3 & Hr3 & Hs3 & Hb3 & Hw3).
  { destruct (is_dispute rec); [|by exists (Ok tt), w2].
    destruct (flushSync io w2) as [r3 w3] eqn:H3. exists r3, w3.
    destruct (flushSync_wdir _ _ _ _ _ _ H3 Hw2) as (Hw3 & ? & ? & Hfl).
    split_and!; try done; [unfold flushSync in H3; clear -H3; go_inv H3; done|].
    destruct r3 as [[]|e]; [|done]. cbn. eapply wdir_acked; [done|].
    destruct (Hfl eq_refl) as (_ & _ & _ & Hc). cbn in Hc. rewrite <- Hcl, Hc in Hwr.
    unfold L'. rewrite Hwr. cbn. set_solver. }
  rewrite H3 in H. destruct r3 as [[]|e]; [|simplify_eq/=; by rewrite andb_false_r in *].
  destruct (rotationBytes <=? tw_bytesWritten w3) eqn:Hfull.
  2: { simplify_eq/=. by rewrite andb_true_r in *. }
  assert (∀ i, i ∈ dom (tw_rotated w3) → i < tw_lastSeqInFile w3) as Hlt.
  { rewrite Hr3, Hs3. cbn. rewrite Hrot1, Hseq1. intros i Hi.
    destruct Hw as (? & ? & ? & ? & _ & _ & _ & _ & _ & _ & Hle & _). specialize (Hle i Hi).
    apply Z.leb_le in Hfull. rewrite Hb3 in Hfull. cbn in Hfull. rewrite Hb1 in Hfull.
    assert (tw_lastSeqInFile w < tl_Seq rec) as Hadv by lia.
    destruct (tw_lastSeqInFile w <? tl_Seq rec) eqn:E; [lia|]. apply Z.ltb_ge in E. lia. }
  cbn [is_ok] in Hw3. rewrite andb_true_r in Hw3.
  assert ((if is_dispute rec then A ++ [rec] else A) ⊆ L') as HA''.
  { destruct Hw3 as (? & ? & ? & ? & _ & -> & _ & _ & _ & _ & _ & Hsub). set_solver. }
  pose proof (rotateLocked_wdir _ _ _ _ _ _ H Hlt Hw3 HA'') as Hw'.
  eapply wdir_acked; [done|]. destruct (is_dispute rec), (is_ok r); cbn; set_solver.
Qed.

Lemma wrun_wdir rotationBytes w L A : wrun rotationBytes w L A → wdir w L A ∧ A ⊆ L ∧ Forall record_ok L.
Proof.
  induction 1 as [|w L A io rec r w' Hrun (IH & HA & Hall) Hok HApp|w L A io Hrun (IH & HA & Hall)
                  |w L A io r w' Hrun (IH & HA & Hall) HClose].
  - split_and!; [|done|done]. exists [], [], [], []. cbn.
    split_and!; try done; try (by left); set_solver.
  - assert (wdir w' (if wrote io w then L ++ [rec] else L) (if is_dispute rec && is_ok r then A ++ [rec] else A))
      as Hw' by (eapply Append_wdir; eauto).
    split_and!; [done| |].
    + destruct Hw' as (? & ? & ? & ? & _ & -> & _ & _ & _ & _ & _ & Hsub). set_solver.
    + destruct (wrote io w); [|done]. apply Forall_app. split; [done|]. constructor; [apply Hok|done].
  - split_and!; [|done..]. unfold flushTick.
    destruct (tw_stopped w || tw_broken w || tw_closed w || wio_sync io) eqn:E; [done|].
    bool_to_prop. eapply wdir_acked; [by apply (wdir_sync _ L A)|done].
  - split_and!; [|done..]. unfold Close in HClose. destruct (tw_stopped w); [by simplify_eq/=|].
    unfold gbind in HClose. destruct (flushSync io (tw_stop w)) as [rf wf] eqn:Hf.
    apply (flushSync_wdir _ _ _ _ L A) in Hf as (Hwf & _); [|by apply (wdir_same w)].
    destruct rf as [[]|e]; simplify_eq/=; [|done].
    eapply wdir_acked; [by apply (wdir_same wf)|done].
Qed.

Lemma read_log_frames files recs :
  Forall2 (λ f l, readTLogFile f = Some (l, blen (frames l), None)) files recs →
  read_log files = Some (concat recs).
Proof. induction 1 as [|f l files recs Hf _ IH]; [done|]. cbn. rewrite Hf. unfold read_log in IH. by rewrite IH. Qed.

Lemma readTLogFile_whole recs :
  Forall record_ok recs → readTLogFile (frames recs) = Some (recs, blen (frames recs), None).
Proof. intros H. rewrite <- (app_nil_r (frames recs)) at 1. apply readTLogFile_frames; auto. Qed.

Lemma recover_dir w logged acked active :
  wdir w logged acked → Forall record_ok logged → survives w active →
  ∃ recs, read_log (enumerateTLogFiles (Some active) (tw_rotated w)) = Some recs
    ∧ recs `prefix_of` logged ∧ acked ⊆ recs ∧ (tw_pending w = [] → recs = logged).
Proof.
  intros Hdir Hall [k ->].
  destruct Hdir as (rot & sy & pe & t & Hrot & -> & Hsy & Hpe & Ht & _ & _ & Hack).
  apply Forall_app in Hall as [Hallr Halla]. rewrite Forall_concat in Hallr.
  assert (frames (sy ++ pe) ++ t = (tw_synced w ++ take k (tw_pending w)) ++ drop k (tw_pending w)) as Heq.
  { by rewrite frames_app, Hsy, <- !app_assoc, take_drop, <- Hpe. }
  destruct (read_prefix_of_log _ _ _ _ Halla Ht Heq) as (recs' & Hread & Hpre & Hmax).
  assert (sy `prefix_of` recs') as Hsyp.
  { apply Hmax; [by eexists|]. rewrite Hsy, length_app. lia. }
  exists (concat rot ++ recs'). split_and!.
  - unfold enumerateTLogFiles, key_ltb in *. rewrite Hrot. cbn [option_list].
    rewrite (read_log_frames _ (rot ++ [recs'])); [by rewrite concat_app; cbn; rewrite app_nil_r|].
    apply Forall2_app; [|by repeat constructor].
    apply Forall2_fmap_l, Forall_Forall2_diag. eapply Forall_impl; [done|]. apply readTLogFile_whole.
  - by apply prefix_app.
  - destruct Hsyp as [r' ->]. set_solver.
  - intros Hnil. f_equal. rewrite Hnil in Hpe. symmetry in Hpe. apply app_eq_nil in Hpe as [Hpe _].
    destruct pe as [|r pe]; [|exfalso; rewrite frames_cons in Hpe; apply app_eq_nil in Hpe as [Hr _];
      apply (f_equal length) in Hr; autorewrite with lens in Hr; lia].
    rewrite app_nil_r in *. by apply (anti_symm prefix).
Qed.


(** A run that logs a settlement mark and a dispute, with the sync of a later dispute
    failing half-way through its write. *)
Definition w_rec (seq kind : Z) : TLogRecord := {| tl_Seq := seq; tl_Ts := 7; tl_Kind := kind; tl_Payload := [Byte.x01] |}.

Definition w_run : list (TLogIO * TLogRecord) := [
  (wio_ok, w_rec 1 TLogKindSettlement); (wio_ok, w_rec 2 TLogKindDisputeFiled);
  ({| wio_write := Some 9%nat; wio_sync := false; wio_rename := false; wio_open := false |},
   w_rec 3 TLogKindDisputeFiled) ].

Definition w_writer : tlogWriter :=
  foldl (λ w e, (Append 1000 e.1 e.2 w).2) (newTLogWriter [] ∅) w_run.

Lemma wrun_next rotationBytes w L A io rec :
  wrun rotationBytes w L A → append_ok rotationBytes io rec w →
  wrun rotationBytes (Append rotationBytes io rec w).2 (if wrote io w then L ++ [rec] else L)
    (if is_dispute rec && is_ok (Append rotationBytes io rec w).1 then A ++ [rec] else A).
Proof. intros ? ?. eapply wrun_append; eauto. by destruct (Append _ _ _ _). Qed.

Lemma w_writer_run : wrun 1000 w_writer [w_rec 1 TLogKindSettlement; w_rec 2 TLogKindDisputeFiled]
  [w_rec 2 TLogKindDisputeFiled].
Proof.
  assert (∀ seq kind, 0 <= seq < 100 → 0 <= kind < 8 → record_ok (w_rec seq kind)) as Hok.
  { intros seq kind ? ?. unfold record_ok, is_u64, blen, w_rec. cbn. lia. }
  pose proof (wrun_new 1000) as Hrun.
  apply (wrun_next _ _ _ _ wio_ok (w_rec 1 TLogKindSettlement)) in Hrun;
    [|split_and!; [by apply Hok|done|by left]].
  apply (wrun_next _ _ _ _ wio_ok (w_rec 2 TLogKindDisputeFiled)) in Hrun;
    [|split_and!; [by apply Hok|done|by left]].
  apply (wrun_next _ _ _ _ {| wio_write := Some 9%nat; wio_sync := false; wio_rename := false; wio_open := false |}
           (w_rec 3 TLogKindDisputeFiled)) in Hrun;
    [|split_and!; [by apply Hok|by intros k [= <-]|by left]].
  vm_compute in Hrun |- *. exact Hrun.
Qed.


(** A restart appends behind a torn frame without truncating it. Until the bytes behind it
    fill the length the torn frame announces, a reader takes them for that frame, and
    drops them without an error. *)
Lemma torn_tail_hides recs rec cut rest more :
  Forall record_ok recs → record_ok rec → marshalTLogRecord rec = cut ++ rest → (4 <= length cut)%nat →
  (length more < length rest)%nat →
  readTLogFile (frames recs ++ cut ++ more) = Some (recs, blen (frames recs), None).
Proof.
  intros Hall Hok Heq Hcut Hmore. apply readTLogFile_frames; [done|]. right.
  unfold unmarshalTLogRecord. destruct (blen (cut ++ more) <? tlogMinFrameSize) eqn:E; [done|].
  assert (blen (cut ++ more) <? 4 + be_val (slice (cut ++ more) 0 4) = true) as ->; [|done].
  rewrite slice_app_in by done. rewrite <- (slice_app_in cut rest) by done. rewrite <- Heq.
  destruct Hok as (_ & _ & _ & Hp). apply (f_equal length) in Heq. autorewrite with lens in Heq.
  unfold marshalTLogRecord. rewrite slice_app_l by len. unfold blen in *.
  rewrite be_val_u32; unfold is_u32; [apply Z.ltb_lt; rewrite length_app|]; lia.
Qed.

(** A dispute acknowledged after such a restart is not in what the next restart reads. *)
Example torn_tail_loses_dispute :
  let '(r, w) := Append 1000 wio_ok (w_rec 4 TLogKindDisputeFiled)
                   (newTLogWriter (tw_synced w_writer ++ tw_pending w_writer) ∅) in
  r = Ok tt ∧ tw_pending w = [] ∧
  match readTLogFile (tw_synced w) with
  | Some (recs, _, err) =>
      recs = [w_rec 1 TLogKindSettlement; w_rec 2 TLogKindDisputeFiled] ∧ err = Some ErrTLogCorrupt
  | None => False
  end.
Proof. vm_compute. done. Qed.

(** ** Payloads *)

Lemma Settlement_roundtrip p :
  length (sp_ConsumerID p) = 32%nat → length (sp_SeederID p) = 32%nat →
  is_u64 (sp_CostCredits p) → is_u32 (sp_Flags p) →
  unmarshalSettlementPayload (marshalSettlementPayload p) = Ok p.
Proof.
  destruct p as [c s n f]. cbn [sp_ConsumerID sp_SeederID sp_CostCredits sp_Flags].
  intros Hc Hs Hn Hf. unfold unmarshalSettlementPayload, marshalSettlementPayload, blen.
  cbn [sp_ConsumerID sp_SeederID sp_CostCredits sp_Flags].
  autorewrite with lens. rewrite Hc, Hs. cbn -[slice be_val PutUint64 be_bytes].
  do 2 f_equal; slices; [done|done|by apply be_val_u64|by apply be_val_u32].
Qed.

Lemma Dispute_roundtrip p :
  length (dp_ConsumerID p) = 32%nat → unmarshalDisputePayload (marshalDisputePayload p) = Ok p.
Proof.
  destruct p as [c u]. cbn [dp_ConsumerID]. intros Hc.
  unfold unmarshalDisputePayload, marshalDisputePayload, blen. cbn [dp_ConsumerID dp_Upheld].
  autorewrite with lens. rewrite Hc. cbn -[slice be_val].
  do 2 f_equal; slices; [done|]. by destruct u.
Qed.

Lemma Transfer_roundtrip p :
  length (tf_ConsumerID p) = 32%nat → is_u64 (tf_CostCredits p) → 0 <= tf_Direction p < 256 →
  unmarshalTransferPayload (marshalTransferPayload p) = Ok p.
Proof.
  destruct p as [c n d]. cbn [tf_ConsumerID tf_CostCredits tf_Direction]. intros Hc Hn Hd.
  unfold unmarshalTransferPayload, marshalTransferPayload, blen.
  cbn [tf_ConsumerID tf_CostCredits tf_Direction].
  autorewrite with lens. rewrite Hc. cbn -[slice be_val PutUint64].
  do 2 f_equal; slices; [done|by apply be_val_u64|by apply be_val_byte].
Qed.

Lemma StarterGrant_roundtrip p :
  length (sg_ConsumerID p) = 32%nat → is_u64 (sg_CostCredits p) →
  unmarshalStarterGrantPayload (marshalStarterGrantPayload p) = Ok p.
Proof.
  destruct p as [c n]. cbn [sg_ConsumerID sg_CostCredits]. intros Hc Hn.
  unfold unmarshalStarterGrantPayload, marshalStarterGrantPayload, blen.
  cbn [sg_ConsumerID sg_CostCredits].
  autorewrite with lens. rewrite Hc. cbn -[slice be_val PutUint64].
  do 2 f_equal; slices; [done|by apply be_val_u64].
Qed.

Lemma readLenPrefixed_append val rest :
  blen val < 2 ^ 32 → readLenPrefixed (be_bytes 4 (blen val) ++ val ++ rest) = Ok (val, rest).
Proof.
  unfold blen. intros Hv. unfold readLenPrefixed, blen. autorewrite with lens.
  assert (Z.of_nat (4 + (length val + length rest)) <? 4 = false) as -> by (apply Z.ltb_ge; lia).
  rewrite slice_app_l by len. rewrite be_val_u32 by (unfold is_u32; lia).
  assert (Z.of_nat (4 + (length val + length rest)) <? 4 + Z.of_nat (length val) = false) as ->
    by (apply Z.ltb_ge; lia).
  replace (Z.to_nat (4 + Z.of_nat (length val))) with (4 + length val)%nat by lia.
  do 2 f_equal; [by slices|].
  rewrite app_assoc. by rewrite drop_app_ge, length_app, length_be_bytes, Nat.sub_diag by (rewrite length_app; len).
Qed.

Lemma SnapshotMark_roundtrip p :
  is_u64 (sm_SnapshotSeq p) → blen (sm_Path p) < 2 ^ 32 →
  unmarshalSnapshotMarkPayload (marshalSnapshotMarkPayload p) = Ok p.
Proof.
  destruct p as [n path]. cbn [sm_SnapshotSeq sm_Path]. intros Hn Hp.
  unfold unmarshalSnapshotMarkPayload, marshalSnapshotMarkPayload, appendLenPrefixed.
  cbn [sm_SnapshotSeq sm_Path]. unfold blen at 1 3. autorewrite with lens.
  assert (Z.of_nat (8 + (4 + length path)) <? 8 = false) as -> by (apply Z.ltb_ge; lia).
  assert (8 <? Z.of_nat (8 + (4 + length path)) = true) as -> by (apply Z.ltb_lt; lia).
  change 8%nat with (length (PutUint64 n)). rewrite drop_app_length.
  rewrite <- (app_nil_r path) at 2. rewrite readLenPrefixed_append by done.
  rewrite slice_app_l by done. by rewrite be_val_u64.
Qed.

Lemma i64_u64 z : is_i64 z → i64 (u64 z) = z.
Proof.
  unfold is_i64, i64, u64. intros Hz. rewrite Zplus_mod_idemp_l, Z.mod_small by lia. lia.
Qed.

(** The payloads of an operator's override survive the log: three length-prefixed
    strings in a row, and a signed time. *)
Lemma OperatorOverride_roundtrip p :
  blen (oo_OperatorID p) < 2 ^ 32 → blen (oo_Action p) < 2 ^ 32 → blen (oo_Params p) < 2 ^ 32 →
  is_i64 (oo_Ts p) →
  unmarshalOperatorOverridePayload (marshalOperatorOverridePayload p) = Ok p.
Proof.
  destruct p as [o a q ts]. cbn [oo_OperatorID oo_Action oo_Params oo_Ts]. intros Ho Ha Hq Ht.
  unfold unmarshalOperatorOverridePayload, marshalOperatorOverridePayload, appendLenPrefixed.
  cbn [oo_OperatorID oo_Action oo_Params oo_Ts app]. rewrite <- !app_assoc.
  rewrite !readLenPrefixed_append by done. unfold blen at 1. rewrite length_PutUint64.
  rewrite slice_all by done. rewrite be_val_u64 by apply u64_range. by rewrite i64_u64.
Qed.
