(* ===== verification/Heap.v ===== *)
(** container/heap of the Go library, on a list: the array is a list, [h.Less] an argument,
    and [h.Swap], [h.Push] and [h.Pop] are those of a slice. Every operation keeps the
    elements and restores the heap; the root is an element no other comes before. *)
From S2P Require Import Prelude.

#[local] Open Scope nat_scope.

Section heap.
Context {A : Type} (less : A → A → bool).
Implicit Types (l : list A) (i j k n p c : nat).

Definition swap (i j : nat) (l : list A) : list A :=
  match l !! i, l !! j with
  | Some x, Some y => <[i := y]> (<[j := x]> l)
  | _, _ => l
  end.

(** [h.Less(i, j)] *)
Definition less_at (l : list A) (i j : nat) : bool :=
  match l !! i, l !! j with Some x, Some y => less x y | _, _ => false end.

Definition parent (j : nat) : nat := (j - 1) / 2.

Fixpoint up (fuel : nat) (l : list A) (j : nat) : list A :=
  match fuel with
  | O => l
  | S fuel' =>
    let i := parent j in
    if (i =? j) || negb (less_at l j i) then l
    else up fuel' (swap i j l) i
  end.

(** Of the two children, the one to go up. *)
Definition first_child (l : list A) (j1 n : nat) : nat :=
  if (j1 + 1 <? n) && less_at l (j1 + 1) j1 then j1 + 1 else j1.

Fixpoint down (fuel : nat) (l : list A) (i n : nat) : list A :=
  match fuel with
  | O => l
  | S fuel' =>
    let j1 := 2 * i + 1 in
    if n <=? j1 then l else
    let j := first_child l j1 n in
    if negb (less_at l j i) then l
    else down fuel' (swap i j l) j n
  end.

Fixpoint heapify (k : nat) (l : list A) : list A :=
  match k with
  | O => l
  | S k' => heapify k' (down (length l) l k' (length l))
  end.

Definition heap_Init (l : list A) : list A := heapify (length l / 2) l.

Definition heap_Push (x : A) (l : list A) : list A :=
  let l := l ++ [x] in up (length l) l (length l - 1).

Definition heap_Pop (l : list A) : option (A * list A) :=
  let n := length l - 1 in
  let l := down n (swap 0 n l) 0 n in
  match last l with
  | Some x => Some (x, take n l)
  | None => None
  end.

(** ** The elements are kept *)

Lemma swap_perm i j l : swap i j l ≡ₚ l.
Proof.
  unfold swap. destruct (l !! i) as [x|] eqn:Hi; [|done]. destruct (l !! j) as [y|] eqn:Hj; [|done].
  destruct (decide (i = j)) as [->|Hij].
  { rewrite list_insert_insert_eq. simplify_eq. by rewrite list_insert_id. }
  apply Permutation_inj. split; [by rewrite !length_insert|].
  exists (λ k, if decide (k = i) then j else if decide (k = j) then i else k). split.
  - intros a b. repeat case_decide; by subst.
  - intros k. apply lookup_lt_Some in Hi as Hil. apply lookup_lt_Some in Hj as Hjl.
    destruct (decide (k = i)) as [->|Hki].
    + rewrite list_lookup_insert_eq by (by rewrite length_insert). done.
    + rewrite list_lookup_insert_ne by done. destruct (decide (k = j)) as [->|Hkj].
      * by rewrite list_lookup_insert_eq.
      * by rewrite list_lookup_insert_ne.
Qed.

Lemma length_swap i j l : length (swap i j l) = length l.
Proof. by rewrite swap_perm. Qed.

Lemma swap_lookup i j l k :
  i < length l → j < length l →
  swap i j l !! k = if decide (k = i) then l !! j else if decide (k = j) then l !! i else l !! k.
Proof.
  intros [x Hi]%lookup_lt_is_Some_2 [y Hj]%lookup_lt_is_Some_2. unfold swap. rewrite Hi, Hj.
  apply lookup_lt_Some in Hi as Hil. apply lookup_lt_Some in Hj as Hjl.
  destruct (decide (k = i)) as [->|Hki].
  - by rewrite list_lookup_insert_eq by (by rewrite length_insert).
  - rewrite list_lookup_insert_ne by done. destruct (decide (k = j)) as [->|Hkj].
    + by rewrite list_lookup_insert_eq.
    + by rewrite list_lookup_insert_ne.
Qed.

Lemma up_perm fuel l j : up fuel l j ≡ₚ l.
Proof.
  revert l j. induction fuel as [|fuel IH]; intros l j; [done|]. cbn.
  destruct (_ || _); [done|]. by rewrite IH, swap_perm.
Qed.

Lemma down_perm fuel l i n : down fuel l i n ≡ₚ l.
Proof.
  revert l i. induction fuel as [|fuel IH]; intros l i; [done|]. cbn -[Nat.mul].
  destruct (n <=? _); [done|]. destruct (negb _); [done|]. by rewrite IH, swap_perm.
Qed.

Lemma heapify_perm k l : heapify k l ≡ₚ l.
Proof. revert l. induction k as [|k IH]; intros l; [done|]. cbn. by rewrite IH, down_perm. Qed.

Lemma heap_Init_perm l : heap_Init l ≡ₚ l.
Proof. apply heapify_perm. Qed.

Lemma heap_Push_perm x l : heap_Push x l ≡ₚ x :: l.
Proof. unfold heap_Push. rewrite up_perm. symmetry. apply Permutation_cons_append. Qed.

(** ** The order *)

(** [less] is a strict weak order on the elements considered. *)
Context (P : A → Prop).
Hypothesis less_asym : ∀ x y, P x → P y → less x y = true → less y x = false.
Hypothesis less_ntrans : ∀ x y z, P x → P y → P z → less x y = false → less y z = false → less x z = false.

(** The element at [c] does not come before the one at [p]. *)
Definition ok_at (l : list A) (p c : nat) : Prop := ∀ x y, l !! p = Some x → l !! c = Some y → less y x = false.

(** The first [n] places are a heap, for the parents from [k] on. *)
Definition heap_from (k n : nat) (l : list A) : Prop :=
  ∀ c, 0 < c < n → k <= parent c → ok_at l (parent c) c.

Definition heap (l : list A) : Prop := heap_from 0 (length l) l.

Lemma parent_lt j : 0 < j → parent j < j.
Proof. intros Hj. unfold parent. apply Nat.Div0.div_lt_upper_bound. lia. Qed.

Lemma parent_child j c : parent c = j → 0 < c → c = 2 * j + 1 ∨ c = 2 * j + 2.
Proof.
  intros <- Hc. unfold parent. pose proof (Nat.div_mod_eq (c - 1) 2).
  pose proof (Nat.mod_upper_bound (c - 1) 2 ltac:(lia)). lia.
Qed.

Lemma parent_left i : parent (2 * i + 1) = i.
Proof. unfold parent. replace (2 * i + 1 - 1) with (i * 2) by lia. apply Nat.div_mul. lia. Qed.

Lemma parent_right i : parent (2 * i + 2) = i.
Proof. unfold parent. replace (2 * i + 2 - 1) with (1 + i * 2) by lia. rewrite Nat.div_add by lia. done. Qed.

Lemma less_at_true l i j x y : l !! i = Some x → l !! j = Some y → less_at l i j = less x y.
Proof. unfold less_at. by intros -> ->. Qed.

Section elements.
Variable l0 : list A.
Hypothesis Hl0 : Forall P l0.

Lemma perm_P l i x : l ≡ₚ l0 → l !! i = Some x → P x.
Proof. intros Hp Hx. rewrite Forall_forall in Hl0. apply Hl0. rewrite <- Hp. by eapply list_elem_of_lookup_2. Qed.

(** The root of a heap. *)
Lemma heap_root n l i : l ≡ₚ l0 → heap_from 0 n l → n <= length l → i < n → ok_at l 0 i.
Proof.
  intros Hp Hh Hn. induction (lt_wf i) as [i _ IH]. intros Hi.
  destruct (decide (i = 0)) as [->|Hi0].
  { intros x y Hx Hy. simplify_eq. destruct (less x x) eqn:E; [|done].
    assert (P x) by (by eapply perm_P). by rewrite less_asym in E. }
  pose proof (parent_lt i ltac:(lia)) as Hlt.
  intros x y Hx Hy. destruct (lookup_lt_is_Some_2 l (parent i) ltac:(lia)) as [z Hz].
  apply (less_ntrans y z x); try (by eapply perm_P).
  - apply (Hh i ltac:(lia) ltac:(lia)); done.
  - apply (IH _ Hlt ltac:(lia)); done.
Qed.

(** [up]: only the pair of [j] and its parent may be wrong. *)
Lemma up_heap fuel l j :
  j < fuel → j < length l → l ≡ₚ l0 →
  (∀ c, 0 < c < length l → c ≠ j → ok_at l (parent c) c) →
  (∀ c, 0 < c < length l → parent c = j → 0 < j → ok_at l (parent j) c) →
  heap (up fuel l j).
Proof.
  revert l j. induction fuel as [|fuel IH]; intros l j Hf Hj Hp Hrest Hskip; [lia|]. cbn [up].
  destruct (parent j =? j) eqn:Ej; cbn [orb].
  { apply Nat.eqb_eq in Ej. assert (j = 0) as -> by (destruct j; [done|pose proof (parent_lt (S j) ltac:(lia)); lia]).
    intros c Hc _. apply Hrest; [done|lia]. }
  apply Nat.eqb_neq in Ej. assert (0 < j) as Hj0 by (destruct j; [done|lia]).
  pose proof (parent_lt j Hj0) as Hpj.
  destruct (lookup_lt_is_Some_2 l j Hj) as [y Hy].
  destruct (lookup_lt_is_Some_2 l (parent j) ltac:(lia)) as [x Hx].
  rewrite (less_at_true _ _ _ _ _ Hy Hx). destruct (less y x) eqn:Hless; cbn [negb].
  2: { intros c Hc _. destruct (decide (c = j)) as [->|]; [|by apply Hrest].
       intros x' y' Hx' Hy'. by simplify_eq. }
  assert (P x ∧ P y) as [HPx HPy] by (split; by eapply perm_P).
  assert (∀ k, swap (parent j) j l !! k = if decide (k = parent j) then Some y else if decide (k = j) then Some x else l !! k)
    as Hsw by (intros k; rewrite swap_lookup by lia; by rewrite Hx, Hy).
  apply IH; [lia|rewrite length_swap; lia|by rewrite swap_perm|..]; rewrite length_swap.
  - intros c Hc Hcp a b. rewrite !Hsw. rewrite (decide_False (P := c = parent j)) by done.
    destruct (decide (c = j)) as [->|Hcj].
    + rewrite decide_True by done. intros [= <-] [= <-]. by apply less_asym.
    + destruct (decide (parent c = parent j)) as [E|E].
      * intros [= <-] Hb. assert (less b x = false) as Hbx by (apply (Hrest c Hc Hcj); [by rewrite E|done]).
        apply (less_ntrans b x y); try done; [by eapply perm_P|]. by apply less_asym.
      * destruct (decide (parent c = j)) as [E'|E'].
        -- intros [= <-] Hb. by apply (Hskip c Hc E' Hj0).
        -- intros Ha Hb. by apply (Hrest c Hc Hcj).
  - intros c Hc Hcp Hp0 a b. rewrite !Hsw.
    pose proof (parent_lt (parent j) Hp0) as Hpp. pose proof (parent_lt c ltac:(lia)) as Hpc.
    rewrite (decide_False (P := parent (parent j) = parent j)), (decide_False (P := parent (parent j) = j)) by lia.
    rewrite (decide_False (P := c = parent j)) by lia. intros Ha.
    assert (less x a = false) as Hxa by (apply (Hrest (parent j)); [lia|lia|done|done]).
    destruct (decide (c = j)) as [->|Hcj]; intros Hb; [by simplify_eq|].
    apply (less_ntrans b x a); try done; try (by eapply perm_P).
    apply (Hrest c Hc Hcj); [by rewrite Hcp|done].
Qed.

Lemma first_child_spec l i n :
  2 * i + 1 < n → n <= length l → l ≡ₚ l0 →
  let j := first_child l (2 * i + 1) n in
  parent j = i ∧ i < j < n ∧
  ∃ y, l !! j = Some y ∧ ∀ c z, 0 < c < n → parent c = i → l !! c = Some z → less z y = false.
Proof.
  intros Eleaf Hn Hp. cbn zeta. unfold first_child.
  set (j := if (2 * i + 1 + 1 <? n) && less_at l (2 * i + 1 + 1) (2 * i + 1) then 2 * i + 1 + 1 else 2 * i + 1).
  destruct (lookup_lt_is_Some_2 l (2 * i + 1) ltac:(lia)) as [y1 Hy1].
  assert (parent j = i ∧ i < j < n) as (Hpj & Hij & Hjn).
  { unfold j. destruct (2 * i + 1 + 1 <? n) eqn:E; cbn [andb].
  - apply Nat.ltb_lt in E. destruct (less_at _ _ _); [|rewrite parent_left; lia].
    replace (2 * i + 1 + 1) with (2 * i + 2) by lia. rewrite parent_right. lia.
  - rewrite parent_left. lia. }
  destruct (lookup_lt_is_Some_2 l j ltac:(lia)) as [y Hy].
  split_and!; [done|lia..|]. exists y. split; [done|].
  intros c z Hc Hci Hz. assert (P z ∧ P y ∧ P y1) as (HPz & HPy & HPy1) by (split_and!; by eapply perm_P).
  assert (less y y = false) as Hyy by (destruct (less y y) eqn:E; [by rewrite less_asym in E|done]).
    unfold j in Hy. destruct (parent_child _ _ Hci ltac:(lia)) as [-> | ->].
  - assert (z = y1) as -> by congruence.
    destruct (2 * i + 1 + 1 <? n) eqn:E; cbn [andb] in Hy; [|by assert (y = y1) as -> by congruence].
    apply Nat.ltb_lt in E. destruct (lookup_lt_is_Some_2 l (2 * i + 1 + 1) ltac:(lia)) as [y2 Hy2].
    rewrite (less_at_true _ _ _ _ _ Hy2 Hy1) in Hy. destruct (less y2 y1) eqn:E2.
    + assert (y = y2) as -> by congruence. by apply less_asym.
    + by assert (y = y1) as -> by congruence.
  - replace (2 * i + 2) with (2 * i + 1 + 1) in Hz, Hc by lia.
    assert (2 * i + 1 + 1 <? n = true) as E by (apply Nat.ltb_lt; lia). rewrite E in Hy. cbn [andb] in Hy.
    rewrite (less_at_true _ _ _ _ _ Hz Hy1) in Hy. destruct (less z y1) eqn:E2.
    + by assert (y = z) as -> by congruence.
    + by assert (y = y1) as -> by congruence.
Qed.

(** [down]: only the pairs of [i] and its children may be wrong. *)
Lemma down_heap fuel l i n k :
  n <= fuel + i → n <= length l → i < length l → l ≡ₚ l0 → k <= i →
  (∀ c, 0 < c < n → k <= parent c → parent c ≠ i → ok_at l (parent c) c) →
  (∀ c, 0 < c < n → parent c = i → 0 < i → k <= parent i → ok_at l (parent i) c) →
  heap_from k n (down fuel l i n) ∧ ∀ m, n <= m → m ≠ i → down fuel l i n !! m = l !! m.
Proof.
  revert l i. induction fuel as [|fuel IH]; intros l i Hf Hn Hil Hp Hk Hrest Hskip.
  { split; [|done]. intros c Hc Hkc. apply Hrest; [done|done|].
    pose proof (parent_lt c ltac:(lia)). lia. }
  cbn [down]. destruct (n <=? 2 * i + 1) eqn:Eleaf.
  { apply Nat.leb_le in Eleaf. split; [|done]. intros c Hc Hkc. apply Hrest; [done|done|].
    intros E. destruct (parent_child _ _ E ltac:(lia)); lia. }
  apply Nat.leb_gt in Eleaf.
  destruct (lookup_lt_is_Some_2 l i Hil) as [x Hx].
  destruct (first_child_spec l i n Eleaf Hn Hp) as (Hpj & Hij & y & Hy & Hmin).
  set (j := first_child l (2 * i + 1) n) in *.
  clearbody j. rewrite (less_at_true _ _ _ _ _ Hy Hx).
  assert (P x ∧ P y) as [HPx HPy] by (split; by eapply perm_P).
  destruct (less y x) eqn:Hless; cbn [negb].
  2: { split; [|done]. intros c Hc Hkc. destruct (decide (parent c = i)) as [E|E]; [|by apply Hrest].
       rewrite E. intros x' z Hx' Hz. assert (x' = x) as -> by congruence. apply (less_ntrans z y x); try done; [by eapply perm_P|].
       by apply (Hmin c). }
  assert (∀ m, swap i j l !! m = if decide (m = i) then Some y else if decide (m = j) then Some x else l !! m)
    as Hsw by (intros m; rewrite swap_lookup by lia; by rewrite Hx, Hy).
  destruct (IH (swap i j l) j) as [Hheap Hout]; [lia|rewrite length_swap; lia..|by rewrite swap_perm|lia| | |].
  - intros c Hc Hkc Hcj a b. rewrite !Hsw. rewrite (decide_False (P := parent c = j)) by done.
    destruct (decide (parent c = i)) as [E|E].
    + intros [= <-]. pose proof (parent_lt c ltac:(lia)). rewrite (decide_False (P := c = i)) by lia.
      destruct (decide (c = j)) as [->|Hc']; [intros [= <-]; by apply less_asym|].
      intros Hb. by apply (Hmin c).
    + destruct (decide (c = i)) as [->|Hci]; [|rewrite (decide_False (P := c = j)) by congruence].
      * intros Ha [= <-]. apply (Hskip j); [lia|done|lia|done|done|done].
      * intros Ha Hb. by apply (Hrest c).
  - intros c Hc Hcj Hj0 Hkp a b. rewrite !Hsw, Hpj. rewrite decide_True by done. intros [= <-].
    pose proof (parent_lt c ltac:(lia)). rewrite (decide_False (P := c = i)), (decide_False (P := c = j)) by lia.
    intros Hb. apply (Hrest c Hc); [lia|lia| |done]. by rewrite Hcj.
  - split; [done|]. intros m Hm Hmi. rewrite Hout by lia. rewrite Hsw.
    rewrite (decide_False (P := m = i)), (decide_False (P := m = j)) by lia. done.
Qed.
End elements.

Lemma heapify_heap k l :
  Forall P l → heap_from k (length l) l → k <= length l → heap (heapify k l).
Proof.
  revert l. induction k as [|k IH]; intros l Hl Hh Hk; [done|]. cbn.
  destruct (down_heap l Hl (length l) l k (length l) k) as [Hd _]; [lia|lia|lia|done|lia| | |].
  - intros c Hc Hkc Hck. apply Hh; lia.
  - intros c Hc Hck Hk0 Hkp. pose proof (parent_lt k Hk0). lia.
  - pose proof (Permutation_length (down_perm (length l) l k (length l))) as Hlen.
    apply IH; [by rewrite down_perm|by rewrite Hlen|lia].
Qed.

(** [heap.Init] makes a heap of any slice. *)
Lemma heap_Init_heap l : Forall P l → heap (heap_Init l).
Proof.
  intros Hl. apply heapify_heap; [done| |apply Nat.Div0.div_le_upper_bound; lia].
  intros c Hc Hk. exfalso. pose proof (Nat.div_mod_eq (length l) 2) as H2.
  pose proof (Nat.mod_upper_bound (length l) 2 ltac:(lia)).
  destruct (parent_child _ _ eq_refl (proj1 Hc)); lia.
Qed.

(** [heap.Push] keeps a heap. *)
Lemma heap_Push_heap x l : Forall P l → P x → heap l → heap (heap_Push x l).
Proof.
  intros Hl Hx Hh. unfold heap_Push. rewrite length_app. cbn [length].
  replace (length l + 1 - 1) with (length l) by lia.
  assert (∀ c, 0 < c < length (l ++ [x]) → c ≠ length l → ok_at (l ++ [x]) (parent c) c) as Hrest.
  { intros c Hc Hne a b. rewrite length_app in Hc. cbn in Hc. pose proof (parent_lt c ltac:(lia)).
    rewrite !lookup_app_l by lia. apply (Hh c); lia. }
  apply (up_heap (l ++ [x])); [by apply Forall_app; auto|lia|rewrite length_app; cbn; lia|done|done|].
  intros c Hc Hcp Hl0. exfalso. rewrite length_app in Hc. cbn in Hc. pose proof (parent_lt c ltac:(lia)). lia.
Qed.

(** [heap.Pop] takes an element no other comes before, and leaves a heap of the rest. *)
Lemma heap_Pop_spec l :
  Forall P l → heap l → l ≠ [] →
  ∃ x rest, heap_Pop l = Some (x, rest) ∧ l ≡ₚ x :: rest ∧ heap rest ∧ l !! 0 = Some x
    ∧ ∀ y, y ∈ l → less y x = false.
Proof.
  intros Hl Hh Hne. unfold heap_Pop. set (n := length l - 1).
  assert (0 < length l) as Hlen by (destruct l; [done|cbn; lia]).
  destruct (lookup_lt_is_Some_2 l 0 Hlen) as [x Hx].
  set (d := down n (swap 0 n l) 0 n).
  assert (d ≡ₚ l) as Hd by (unfold d; by rewrite down_perm, swap_perm).
  pose proof (Permutation_length Hd) as Hdl.
  destruct (down_heap l Hl n (swap 0 n l) 0 n 0) as [Hheap Hout];
    [lia|rewrite length_swap; lia|rewrite length_swap; lia|apply swap_perm|lia| |lia|].
  { intros c Hc _ Hp0 a b. pose proof (parent_lt c ltac:(lia)). rewrite !swap_lookup by lia.
    rewrite !decide_False by lia. apply (Hh c); lia. }
  fold d in Hheap, Hout.
  assert (d !! n = Some x) as Hdn.
  { destruct (decide (n = 0)) as [E|E].
    - unfold d. rewrite E. cbn. rewrite swap_lookup by lia. by rewrite decide_True.
    - rewrite Hout by lia. rewrite swap_lookup by lia. by rewrite decide_False, decide_True. }
  assert (d = take n d ++ [x]) as Hsplit.
  { rewrite <- (take_drop n d) at 1. f_equal. rewrite (drop_S d x n Hdn). f_equal. apply drop_ge. lia. }
  assert (length (take n d) = n) as Htl by (rewrite length_take; lia).
  assert (last d = Some x) as -> by (by rewrite Hsplit, last_snoc).
  exists x, (take n d). split_and!; [done| | |done|].
  - rewrite <- Hd, Hsplit at 1. symmetry. apply Permutation_cons_append.
  - intros c Hc _ a b. rewrite Htl in Hc. pose proof (parent_lt c ltac:(lia)).
    rewrite !lookup_take_lt by lia. apply (Hheap c); lia.
  - intros y [i Hi]%list_elem_of_lookup. apply lookup_lt_Some in Hi as Hil.
    by apply (heap_root l Hl (length l) l i).
Qed.
End heap.
