(* ===== verification/Credit.v ===== *)
(** tracker/internal/admission: what admission knows of each consumer and how it scores it.
    buckets.go and state.go (the rolling windows and the sharded table), the state changes of
    events.go, score.go and attestation.go, with shared/admission/validate.go.

    A consumer's state is reached through a pointer and changed under its shard's lock;
    nothing holds two of them, so the table maps identities to values. [math.Exp] and
    [math.Log2] are parameters, and so is the result Go leaves open when a float has no value
    in the integer type it is converted to. *)
From S2P Require Import Prelude Proto Float Signing.
From Stdlib Require Import Floats.SpecFloat.

(** ** Messages of shared/admission *)

Record CreditAttestationBody := {
  ca_IdentityId : bytes; ca_IssuerTrackerId : bytes; ca_Score : Z; ca_TenureDays : Z;
  ca_SettlementReliability : Z; ca_DisputeRate : Z; ca_NetCreditFlow_30D : Z;
  ca_BalanceCushionLog2 : Z; ca_ComputedAt : Z; ca_ExpiresAt : Z
}.

Record SignedCreditAttestation := { sca_Body : option CreditAttestationBody; sca_TrackerSig : bytes }.

Inductive TickSource := TICK_SOURCE_UNSPECIFIED | TICK_SOURCE_HEURISTIC | TICK_SOURCE_USAGE_PROBE
  | TICK_SOURCE_other (n : Z).

Record FetchHeadroomRequest := { fhr_RequestNonce : Z; fhr_ModelFilter : string }.

Record PerModelHeadroom := { pm_Model : string; pm_HeadroomEstimate : Z }.

Record FetchHeadroomResponse := {
  fhs_RequestNonce : Z; fhs_HeadroomEstimate : Z; fhs_Source : TickSource; fhs_ProbeAgeS : Z;
  fhs_CanProbeUsage : bool; fhs_PerModel : list (option PerModelHeadroom)
}.

Definition identityIDLen : Z := 32.
Definition scoreMax : Z := 10000.
Definition tenureDaysCap : Z := 365.
Definition balanceCushionMin : Z := -8.
Definition balanceCushionMax : Z := 8.
Definition attestationMaxTTLSeconds : Z := 7 * 24 * 60 * 60.

Definition ValidateCreditAttestationBody (b : option CreditAttestationBody) : option string :=
  match b with
  | None => Some "admission: nil CreditAttestationBody"
  | Some b =>
    return_if negb (blen (ca_IdentityId b) =? identityIDLen), "admission: identity_id length" ;;
    return_if negb (blen (ca_IssuerTrackerId b) =? identityIDLen), "admission: issuer_tracker_id length" ;;
    return_if scoreMax <? ca_Score b, "admission: score" ;;
    return_if tenureDaysCap <? ca_TenureDays b, "admission: tenure_days" ;;
    return_if scoreMax <? ca_SettlementReliability b, "admission: settlement_reliability" ;;
    return_if scoreMax <? ca_DisputeRate b, "admission: dispute_rate" ;;
    return_if (ca_BalanceCushionLog2 b <? balanceCushionMin) || (balanceCushionMax <? ca_BalanceCushionLog2 b),
      "admission: balance_cushion_log2" ;;
    return_if ca_ComputedAt b =? 0, "admission: computed_at is zero" ;;
    return_if ca_ExpiresAt b <=? ca_ComputedAt b, "admission: expires_at" ;;
    return_if attestationMaxTTLSeconds <? u64 (ca_ExpiresAt b - ca_ComputedAt b), "admission: ttl" ;;
    None
  end.

Definition ValidateFetchHeadroomRequest (r : option FetchHeadroomRequest) : option string :=
  match r with
  | None => Some "admission: nil FetchHeadroomRequest"
  | Some r =>
    return_if fhr_RequestNonce r =? 0, "admission: request_nonce is zero" ;;
    None
  end.

Fixpoint ValidatePerModel (ms : list (option PerModelHeadroom)) : option string :=
  match ms with
  | [] => None
  | None :: _ => Some "admission: per_model is nil"
  | Some pm :: ms' =>
    return_if bool_decide (pm_Model pm = ""), "admission: per_model model is empty" ;;
    return_if scoreMax <? pm_HeadroomEstimate pm, "admission: per_model headroom_estimate" ;;
    ValidatePerModel ms'
  end.

Definition ValidateFetchHeadroomResponse (r : option FetchHeadroomResponse) : option string :=
  match r with
  | None => Some "admission: nil FetchHeadroomResponse"
  | Some r =>
    match fhs_Source r with
    | TICK_SOURCE_HEURISTIC | TICK_SOURCE_USAGE_PROBE =>
      return_if scoreMax <? fhs_HeadroomEstimate r, "admission: headroom_estimate" ;;
      ValidatePerModel (fhs_PerModel r)
    | _ => Some "admission: source must be HEURISTIC or USAGE_PROBE"
    end
  end.

(** The encoder of the body, a protobuf library's. *)
Class AdmWire := { marshal_CreditAttestationBody : CreditAttestationBody → option bytes }.

(** ** Rolling windows *)

Definition rollingWindowDays : Z := 30.
Definition heartbeatWindowMinutes : Z := 10.
Definition Hour : Z := 3600 * Second.
Definition Day : Z := 24 * Hour.

Record DayBucket := { db_Total : Z; db_A : Z; db_B : Z; db_DayStamp : Z }.

Definition zeroBucket : DayBucket := {| db_Total := 0; db_A := 0; db_B := 0; db_DayStamp := zeroTime |}.

Definition dayBucketIndex (t windowDays : Z) : Z :=
  let day := Z.quot (Unix t) 86400 in
  let idx := Z.rem day windowDays in
  if idx <? 0 then idx + windowDays else idx.

Definition stripToDay (t : Z) : Z := t - t mod Day.

Definition freshBucket (today : Z) : DayBucket := {| db_Total := 0; db_A := 0; db_B := 0; db_DayStamp := today |}.

Definition rotateIfStale (b : DayBucket) (now windowDays : Z) : DayBucket :=
  let today := stripToDay now in
  if db_DayStamp b =? zeroTime then freshBucket today
  else if windowDays * 24 * Hour <=? time_Sub today (db_DayStamp b) then freshBucket today
  else b.

(** ** A consumer's state, and a seeder's *)

Record ConsumerCreditState := {
  cs_FirstSeenAt : Z;
  cs_SettlementBuckets : list DayBucket; cs_DisputeBuckets : list DayBucket; cs_FlowBuckets : list DayBucket;
  cs_LastBalanceSeen : Z
}.

Definition emptyBuckets : list DayBucket := replicate 30 zeroBucket.

Definition newCredit (now : Z) : ConsumerCreditState := {|
  cs_FirstSeenAt := now; cs_SettlementBuckets := emptyBuckets; cs_DisputeBuckets := emptyBuckets;
  cs_FlowBuckets := emptyBuckets; cs_LastBalanceSeen := 0 |}.

Record MinuteBucket := { mb_Expected : Z; mb_Actual : Z }.

Record SeederHeartbeatState := {
  hs_Buckets : list MinuteBucket; hs_LastBucketRollAt : Z; hs_LastHeadroomEstimate : Z;
  hs_LastHeadroomSource : Z; hs_LastHeadroomTs : Z; hs_CanProbeUsage : bool
}.

Definition newHeartbeat (now : Z) : SeederHeartbeatState := {|
  hs_Buckets := replicate 10 {| mb_Expected := 0; mb_Actual := 0 |}; hs_LastBucketRollAt := now;
  hs_LastHeadroomEstimate := 0; hs_LastHeadroomSource := 0; hs_LastHeadroomTs := now;
  hs_CanProbeUsage := false |}.

(** ** Sharded tables *)

Section sharded.
Context {V : Type}.
Implicit Types (ss : list (gmap bytes V)) (id : bytes).

Definition shardIndex (id : bytes) (n : Z) : nat := Z.to_nat (be_val (take 8 id) mod n).

Definition newShards (n : Z) : list (gmap bytes V) := replicate (Z.to_nat n) ∅.

Definition sh_get (id : bytes) (ss : list (gmap bytes V)) : option V :=
  ss !! shardIndex id (blen ss) ≫= (!!) id.

Definition sh_put (id : bytes) (v : V) (ss : list (gmap bytes V)) : list (gmap bytes V) :=
  alter (<[id := v]>) (shardIndex id (blen ss)) ss.

Definition getOrInit (init : V) (id : bytes) (ss : list (gmap bytes V)) : V * list (gmap bytes V) :=
  match sh_get id ss with
  | Some v => (v, ss)
  | None => (init, sh_put id init ss)
  end.

(** [getOrInit], then a change through the pointer. *)
Definition sh_change (init : V) (f : V → V) (id : bytes) (ss : list (gmap bytes V)) : list (gmap bytes V) :=
  let '(v, ss) := getOrInit init id ss in sh_put id (f v) ss.

Lemma credit_shardIndex_lt id ss : ss ≠ [] → (shardIndex id (blen ss) < length ss)%nat.
Proof.
  intros Hne. unfold shardIndex, blen.
  assert (0 < Z.of_nat (length ss)) by (destruct ss; [done|cbn; lia]).
  pose proof (Z.mod_pos_bound (be_val (take 8 id)) (Z.of_nat (length ss)) ltac:(lia)). lia.
Qed.

Lemma length_sh_put id v ss : length (sh_put id v ss) = length ss.
Proof. apply length_alter. Qed.

Lemma sh_put_nonempty id v ss : ss ≠ [] → sh_put id v ss ≠ [].
Proof. intros Hne Hnil. apply (f_equal length) in Hnil. rewrite length_sh_put in Hnil. by destruct ss. Qed.

Lemma sh_get_put id j v ss :
  ss ≠ [] → sh_get j (sh_put id v ss) = if decide (j = id) then Some v else sh_get j ss.
Proof.
  intros Hne. unfold sh_get. unfold blen at 1. rewrite length_sh_put. fold (blen ss).
  pose proof (credit_shardIndex_lt id ss Hne) as Hlt. apply lookup_lt_is_Some_2 in Hlt as [m Hm].
  unfold sh_put. destruct (decide (shardIndex j (blen ss) = shardIndex id (blen ss))) as [E|E].
  - rewrite E, list_lookup_alter_eq, Hm. cbn. destruct (decide (j = id)) as [->|Hj].
    + apply lookup_insert_eq.
    + by apply lookup_insert_ne.
  - rewrite list_lookup_alter_ne by done. by destruct (decide (j = id)) as [->|].
Qed.

Lemma sh_get_change init f id j ss :
  ss ≠ [] →
  sh_get j (sh_change init f id ss) =
  if decide (j = id) then Some (f (default init (sh_get id ss))) else sh_get j ss.
Proof.
  intros Hne. unfold sh_change, getOrInit. destruct (sh_get id ss) as [v|] eqn:E; cbn.
  - by rewrite sh_get_put.
  - rewrite !sh_get_put by auto using sh_put_nonempty. by destruct (decide (j = id)).
Qed.

Lemma sh_change_nonempty init f id ss : ss ≠ [] → sh_change init f id ss ≠ [].
Proof.
  intros Hne. unfold sh_change, getOrInit. destruct (sh_get id ss); auto using sh_put_nonempty.
Qed.

Lemma newShards_nonempty n : 0 < n → newShards n ≠ [].
Proof. intros Hn. unfold newShards. destruct (Z.to_nat n) eqn:E; [lia|done]. Qed.

Lemma sh_get_new n id : sh_get id (newShards n) = None.
Proof.
  unfold sh_get. destruct (newShards n !! _) as [m|] eqn:E; [|done].
  apply lookup_replicate in E as [-> _]. cbn. apply lookup_empty.
Qed.
End sharded.

(** ** Ledger events *)

Inductive LedgerEventKind :=
| LedgerEventUnspecified | LedgerEventSettlement | LedgerEventTransferIn | LedgerEventTransferOut
| LedgerEventStarterGrant | LedgerEventDisputeFiled | LedgerEventDisputeResolved.

Record LedgerEvent := {
  le_Kind : LedgerEventKind; le_ConsumerID : bytes; le_SeederID : bytes; le_CostCredits : Z;
  le_Flags : Z; le_DisputeUpheld : bool; le_Timestamp : Z
}.

Abbreviation consumerShards := (list (gmap bytes ConsumerCreditState)).

(** The bucket of a time is brought up to date and changed. *)
Definition bump (f : DayBucket → DayBucket) (t : Z) (bs : list DayBucket) : list DayBucket :=
  alter (λ b, f (rotateIfStale b t rollingWindowDays)) (Z.to_nat (dayBucketIndex t rollingWindowDays)) bs.

Definition count_settled (clean : bool) (b : DayBucket) : DayBucket := {|
  db_Total := u32 (db_Total b + 1); db_A := if clean then u32 (db_A b + 1) else db_A b; db_B := db_B b;
  db_DayStamp := db_DayStamp b |}.

Definition add_A (n : Z) (b : DayBucket) : DayBucket := {|
  db_Total := db_Total b; db_A := u32 (db_A b + n); db_B := db_B b; db_DayStamp := db_DayStamp b |}.

Definition add_B (n : Z) (b : DayBucket) : DayBucket := {|
  db_Total := db_Total b; db_A := db_A b; db_B := u32 (db_B b + n); db_DayStamp := db_DayStamp b |}.

Definition with_balance (n : Z) (st : ConsumerCreditState) : ConsumerCreditState := {|
  cs_FirstSeenAt := cs_FirstSeenAt st; cs_SettlementBuckets := cs_SettlementBuckets st;
  cs_DisputeBuckets := cs_DisputeBuckets st; cs_FlowBuckets := cs_FlowBuckets st; cs_LastBalanceSeen := n |}.

(** What a settlement does to its consumer, and to its seeder. *)
Definition settle_consumer (ev : LedgerEvent) (st : ConsumerCreditState) : ConsumerCreditState := {|
  cs_FirstSeenAt := cs_FirstSeenAt st;
  cs_SettlementBuckets := bump (count_settled (Z.land (le_Flags ev) 1 =? 0)) (le_Timestamp ev) (cs_SettlementBuckets st);
  cs_DisputeBuckets := cs_DisputeBuckets st;
  cs_FlowBuckets := bump (add_B (u32 (le_CostCredits ev))) (le_Timestamp ev) (cs_FlowBuckets st);
  cs_LastBalanceSeen := i64 (cs_LastBalanceSeen st - i64 (le_CostCredits ev)) |}.

Definition settle_seeder (ev : LedgerEvent) (st : ConsumerCreditState) : ConsumerCreditState := {|
  cs_FirstSeenAt := cs_FirstSeenAt st; cs_SettlementBuckets := cs_SettlementBuckets st;
  cs_DisputeBuckets := cs_DisputeBuckets st;
  cs_FlowBuckets := bump (add_A (u32 (le_CostCredits ev))) (le_Timestamp ev) (cs_FlowBuckets st);
  cs_LastBalanceSeen := i64 (cs_LastBalanceSeen st + i64 (le_CostCredits ev)) |}.

Definition applySettlement (ev : LedgerEvent) (ss : consumerShards) : consumerShards :=
  let ss := sh_change (newCredit (le_Timestamp ev)) (settle_consumer ev) (le_ConsumerID ev) ss in
  if negb (bool_decide (le_SeederID ev = zero_bytes 32))
  then sh_change (newCredit (le_Timestamp ev)) (settle_seeder ev) (le_SeederID ev) ss
  else ss.

Definition signedDelta (cost : Z) (positive : bool) : Z := if positive then i64 cost else i64 (- i64 cost).

Definition applyTransfer (id : bytes) (delta now : Z) (ss : consumerShards) : consumerShards :=
  sh_change (newCredit now) (λ st, with_balance (i64 (cs_LastBalanceSeen st + delta)) st) id ss.

Definition starter_state (ev : LedgerEvent) (st : ConsumerCreditState) : ConsumerCreditState := {|
  cs_FirstSeenAt := if (cs_FirstSeenAt st =? zeroTime) || (le_Timestamp ev <? cs_FirstSeenAt st)
                    then le_Timestamp ev else cs_FirstSeenAt st;
  cs_SettlementBuckets := cs_SettlementBuckets st; cs_DisputeBuckets := cs_DisputeBuckets st;
  cs_FlowBuckets := cs_FlowBuckets st; cs_LastBalanceSeen := i64 (le_CostCredits ev) |}.

Definition applyStarterGrant (ev : LedgerEvent) (ss : consumerShards) : consumerShards :=
  sh_change (newCredit (le_Timestamp ev)) (starter_state ev) (le_ConsumerID ev) ss.

Definition dispute_state (ev : LedgerEvent) (upheld : bool) (st : ConsumerCreditState) : ConsumerCreditState := {|
  cs_FirstSeenAt := cs_FirstSeenAt st; cs_SettlementBuckets := cs_SettlementBuckets st;
  cs_DisputeBuckets := bump (if upheld then add_B 1 else add_A 1) (le_Timestamp ev) (cs_DisputeBuckets st);
  cs_FlowBuckets := cs_FlowBuckets st; cs_LastBalanceSeen := cs_LastBalanceSeen st |}.

Definition applyDispute (ev : LedgerEvent) (upheld : bool) (ss : consumerShards) : consumerShards :=
  sh_change (newCredit (le_Timestamp ev)) (dispute_state ev upheld) (le_ConsumerID ev) ss.

(** The in-memory half of [OnLedgerEvent]. *)
Definition apply_event (ev : LedgerEvent) (ss : consumerShards) : consumerShards :=
  match le_Kind ev with
  | LedgerEventSettlement => applySettlement ev ss
  | LedgerEventTransferIn =>
      applyTransfer (le_ConsumerID ev) (signedDelta (le_CostCredits ev) true) (le_Timestamp ev) ss
  | LedgerEventTransferOut =>
      applyTransfer (le_ConsumerID ev) (signedDelta (le_CostCredits ev) false) (le_Timestamp ev) ss
  | LedgerEventStarterGrant => applyStarterGrant ev ss
  | LedgerEventDisputeFiled => applyDispute ev false ss
  | LedgerEventDisputeResolved => if negb (le_DisputeUpheld ev) then ss else applyDispute ev true ss
  | LedgerEventUnspecified => ss
  end.

(** ** The score *)

Record AdmissionScoreWeights := {
  aw_SettlementReliability : spec_float; aw_InverseDisputeRate : spec_float; aw_Tenure : spec_float;
  aw_NetCreditFlow : spec_float; aw_BalanceCushion : spec_float
}.

Record AdmissionConfig := {
  ac_PressureAdmitThreshold : spec_float; ac_PressureRejectThreshold : spec_float; ac_QueueCap : Z;
  ac_TrialTierScore : spec_float; ac_AgingAlphaPerMinute : spec_float; ac_QueueTimeoutS : Z;
  ac_ScoreWeights : AdmissionScoreWeights; ac_NetFlowNormalizationConstant : Z; ac_TenureCapDays : Z;
  ac_StarterGrantCredits : Z; ac_RollingWindowDays : Z; ac_AttestationTTLSeconds : Z;
  ac_AttestationIssuancePerConsumerPerHour : Z; ac_MaxAttestationScoreImported : spec_float;
  ac_SnapshotsRetained : Z; ac_HeartbeatFreshnessDecayMaxS : Z
}.

Record Signals := {
  sg_SettlementReliability : spec_float; sg_DisputeRate : spec_float; sg_TenureDays : Z;
  sg_NetFlow : Z; sg_BalanceCushionLog2 : Z
}.

Definition f64_minus_one : spec_float := f64_of_int (-1).

Definition clamp01 (x : spec_float) : spec_float :=
  if SFltb x f64_zero then f64_zero else if SFltb f64_one x then f64_one else x.

Definition clampInt (x lo hi : Z) : Z := if x <? lo then lo else if hi <? x then hi else x.

Definition maxInt (a b : Z) : Z := if b <? a then a else b.

(** [uint32] sums over the array. *)
Definition sum32 (f : DayBucket → Z) (bs : list DayBucket) : Z := foldl (λ acc b, u32 (acc + f b)) 0 bs.

Definition hasAnySettlement (s : Signals) : bool := SFleb f64_zero (sg_SettlementReliability s).

(** [uint32(math.Round(x))] and [int(x)], with what Go leaves open as an argument. *)
Definition to_range (undef : Z) (lo hi : Z) (z : option Z) : Z :=
  match z with Some z => if (lo <=? z) && (z <=? hi) then z else undef | None => undef end.

Section scoring.
Variable math_Exp math_Log2 : spec_float → spec_float.
Variable conv_undef : spec_float → Z.
Variable cfg : AdmissionConfig.

Definition sigmoid (x : spec_float) : spec_float :=
  f64_div f64_one (f64_add f64_one (math_Exp (f64_neg x))).

Definition floorLog2Ratio (num den : Z) : Z :=
  if (num <=? 0) || (den <=? 0) then MinInt64 else
  let l := math_Log2 (f64_div (f64_of_int num) (f64_of_int den)) in
  to_range (conv_undef l) MinInt64 MaxInt64 (f64_floor l).

Definition computeSignals (st : ConsumerCreditState) (now : Z) : Signals :=
  let tenureDays := Z.quot (time_Sub now (cs_FirstSeenAt st)) Day in
  let tenureDays := if tenureDays <? 0 then 0 else tenureDays in
  let tenureDays := if ac_TenureCapDays cfg <? tenureDays then ac_TenureCapDays cfg else tenureDays in
  let totalSettled := sum32 db_Total (cs_SettlementBuckets st) in
  let cleanCount := sum32 db_A (cs_SettlementBuckets st) in
  let filed := sum32 db_A (cs_DisputeBuckets st) in
  let upheld := sum32 db_B (cs_DisputeBuckets st) in
  let earned := sum32 db_A (cs_FlowBuckets st) in
  let spent := sum32 db_B (cs_FlowBuckets st) in
  let net := if filed - upheld <? 0 then 0 else filed - upheld in
  let rate := f64_div (f64_of_int net) (f64_of_int totalSettled) in
  {| sg_SettlementReliability :=
       if 0 <? totalSettled then f64_div (f64_of_int cleanCount) (f64_of_int totalSettled) else f64_minus_one;
     sg_DisputeRate :=
       if 0 <? totalSettled then (if SFltb f64_one rate then f64_one else rate) else f64_minus_one;
     sg_TenureDays := tenureDays;
     sg_NetFlow := earned - spent;
     sg_BalanceCushionLog2 :=
       clampInt (floorLog2Ratio (cs_LastBalanceSeen st) (maxInt 1 (ac_StarterGrantCredits cfg))) (-8) 8 |}.

Definition zeroSignals : Signals := {|
  sg_SettlementReliability := f64_zero; sg_DisputeRate := f64_zero; sg_TenureDays := 0;
  sg_NetFlow := 0; sg_BalanceCushionLog2 := 0 |}.

Definition ComputeLocalScore (state : option ConsumerCreditState) (now : Z) : spec_float * Signals :=
  match state with
  | None => (ac_TrialTierScore cfg, zeroSignals)
  | Some st =>
    let signals := computeSignals st now in
    let tenureNorm :=
      if 0 <? ac_TenureCapDays cfg
      then f64_min f64_one (f64_div (f64_of_int (sg_TenureDays signals)) (f64_of_int (ac_TenureCapDays cfg)))
      else f64_zero in
    let netFlowNorm :=
      sigmoid (f64_div (f64_of_int (sg_NetFlow signals))
                       (f64_of_int (maxInt 1 (ac_NetFlowNormalizationConstant cfg)))) in
    let cushionNorm := f64_div (f64_of_int (sg_BalanceCushionLog2 signals + 8)) (f64_of_int 16) in
    let w := ac_ScoreWeights cfg in
    if SFltb (sg_SettlementReliability signals) f64_zero then
      let undef := f64_add (aw_SettlementReliability w) (aw_InverseDisputeRate w) in
      let defined := f64_add (f64_add (aw_Tenure w) (aw_NetCreditFlow w)) (aw_BalanceCushion w) in
      if SFleb defined f64_zero then (ac_TrialTierScore cfg, signals) else
      let factor := f64_add f64_one (f64_div undef defined) in
      let score := f64_mul factor
        (f64_add (f64_add (f64_mul (aw_Tenure w) tenureNorm) (f64_mul (aw_NetCreditFlow w) netFlowNorm))
                 (f64_mul (aw_BalanceCushion w) cushionNorm)) in
      (clamp01 score, signals)
    else
      let inverseDispute := f64_sub f64_one (sg_DisputeRate signals) in
      let score :=
        f64_add (f64_add (f64_add (f64_add
          (f64_mul (aw_SettlementReliability w) (sg_SettlementReliability signals))
          (f64_mul (aw_InverseDisputeRate w) inverseDispute))
          (f64_mul (aw_Tenure w) tenureNorm))
          (f64_mul (aw_NetCreditFlow w) netFlowNorm))
          (f64_mul (aw_BalanceCushion w) cushionNorm) in
      (clamp01 score, signals)
  end.
End scoring.

(** ** Attestations *)

(** A sliding window of issuance times for each identity. *)
Record rateLimiter := { rl_cap : Z; rl_window : Z; rl_shards : list (gmap bytes (list Z)) }.

Definition newRateLimiter (perHourCap numShards : Z) : rateLimiter :=
  {| rl_cap := perHourCap; rl_window := Hour; rl_shards := newShards numShards |}.

Definition rl_set (id : bytes) (evs : list Z) (rl : rateLimiter) : rateLimiter :=
  {| rl_cap := rl_cap rl; rl_window := rl_window rl; rl_shards := sh_put id evs (rl_shards rl) |}.

Definition allow (id : bytes) (now : Z) (rl : rateLimiter) : bool * rateLimiter :=
  if rl_cap rl <=? 0 then (true, rl) else
  let cutoff := now - rl_window rl in
  let pruned := List.filter (λ t, cutoff <? t) (default [] (sh_get id (rl_shards rl))) in
  if rl_cap rl <=? blen pruned then (false, rl_set id pruned rl)
  else (true, rl_set id (pruned ++ [now]) rl).

Inductive AttErr :=
| ErrNoLocalHistory | ErrRateLimited | ErrValidate (msg : string) | ErrSign (msg : string).

Inductive ScoreSource :=
| ScoreSourceUnspecified | ScoreSourceAttestation | ScoreSourceLocal | ScoreSourceTrialTier.

(** The part of [Subsystem] that attestation and scoring use. *)
Record CreditState := { cr_consumers : consumerShards; cr_attestRL : rateLimiter }.

Section attestation.
Context `{Crypto} `{AdmWire}.
Variable math_Exp math_Log2 : spec_float → spec_float.
Variable conv_undef : spec_float → Z.
Variable cfg : AdmissionConfig.
Variable priv trackerID : bytes.
(** The peers of the federation. *)
Variable peers : bytes → bool.

Definition SignCreditAttestation (priv : bytes) (body : option CreditAttestationBody) : res string bytes :=
  if negb (blen priv =? PrivateKeySize) then Err "signing: private key length" else
  match body with
  | None => Err "signing: SignCreditAttestation on nil body"
  | Some b =>
    match marshal_CreditAttestationBody b with
    | None => Err "signing: marshal credit attestation body"
    | Some buf => Ok (ed25519_Sign priv buf)
    end
  end.

Definition VerifyCreditAttestation (pub : bytes) (signed : option SignedCreditAttestation) : bool :=
  match signed with
  | None => false
  | Some s =>
    match sca_Body s with
    | None => false
    | Some b =>
      match marshal_CreditAttestationBody b with
      | None => false
      | Some buf => Verify pub buf (sca_TrackerSig s)
      end
    end
  end.

(** [uint32(math.Round(v))] *)
Definition round32 (v : spec_float) : Z := to_range (conv_undef v) 0 (2 ^ 32 - 1) (f64_round v).

Definition nonNegativeFixedPoint (v : spec_float) : Z :=
  if SFltb v f64_zero then 0 else
  let v := if SFltb f64_one v then f64_one else v in
  round32 (f64_mul v (f64_of_int 10000)).

Definition attestation_body (consumerID : bytes) (st : ConsumerCreditState) (now : Z) : CreditAttestationBody :=
  let '(score, sigs) := ComputeLocalScore math_Exp math_Log2 conv_undef cfg (Some st) now in
  {| ca_IdentityId := consumerID; ca_IssuerTrackerId := trackerID;
     ca_Score := round32 (f64_mul score (f64_of_int 10000));
     ca_TenureDays := u32 (sg_TenureDays sigs);
     ca_SettlementReliability := nonNegativeFixedPoint (sg_SettlementReliability sigs);
     ca_DisputeRate := nonNegativeFixedPoint (sg_DisputeRate sigs);
     ca_NetCreditFlow_30D := sg_NetFlow sigs;
     ca_BalanceCushionLog2 := sg_BalanceCushionLog2 sigs;
     ca_ComputedAt := u64 (Unix now);
     ca_ExpiresAt := u64 (Unix (now + i64 (ac_AttestationTTLSeconds cfg * Second))) |}.

Definition IssueAttestation (consumerID : bytes) (now : Z) : GoM CreditState AttErr SignedCreditAttestation := λ s,
  match sh_get consumerID (cr_consumers s) with
  | None => (Err ErrNoLocalHistory, s)
  | Some st =>
    let '(ok, rl) := allow consumerID now (cr_attestRL s) in
    let s := {| cr_consumers := cr_consumers s; cr_attestRL := rl |} in
    if negb ok then (Err ErrRateLimited, s) else
    let body := attestation_body consumerID st now in
    match ValidateCreditAttestationBody (Some body) with
    | Some msg => (Err (ErrValidate msg), s)
    | None =>
      match SignCreditAttestation priv (Some body) with
      | Err msg => (Err (ErrSign msg), s)
      | Ok sig => (Ok {| sca_Body := Some body; sca_TrackerSig := sig |}, s)
      end
    end
  end.

Definition tryAttestation (att : SignedCreditAttestation) (now : Z) : option spec_float :=
  match sca_Body att with
  | None => None
  | Some body =>
    match ValidateCreditAttestationBody (Some body) with
    | Some _ => None
    | None =>
      if negb (blen (ca_IssuerTrackerId body) =? 32) then None
      else if negb (peers (ca_IssuerTrackerId body)) then None
      else if (Unix now <? 0) || (ca_ExpiresAt body <=? Unix now) then None
      else if negb (VerifyCreditAttestation (ca_IssuerTrackerId body) (Some att)) then None
      else
        let score := f64_div (f64_of_int (ca_Score body)) (f64_of_int 10000) in
        Some (if SFltb (ac_MaxAttestationScoreImported cfg) score then ac_MaxAttestationScoreImported cfg else score)
    end
  end.

Definition resolveCreditScore (consumerID : bytes) (att : option SignedCreditAttestation) (now : Z)
    (ss : consumerShards) : spec_float * ScoreSource :=
  match att ≫= λ a, tryAttestation a now with
  | Some score => (score, ScoreSourceAttestation)
  | None =>
    match sh_get consumerID ss with
    | Some st =>
      let '(score, sigs) := ComputeLocalScore math_Exp math_Log2 conv_undef cfg (Some st) now in
      if hasAnySettlement sigs then (score, ScoreSourceLocal) else (ac_TrialTierScore cfg, ScoreSourceTrialTier)
    | None => (ac_TrialTierScore cfg, ScoreSourceTrialTier)
    end
  end.
End attestation.
