(* ===== verification/CreditSpec.v ===== *)
(** The correctness of admission's credit state (Credit.v): the rolling windows hold what a
    reference computed from the history of events says, an imported score is backed by a
    peer's signature, an attestation that is issued validates and verifies, and the rate
    limiter bounds issuance in every hour. *)
From S2P Require Import Prelude Proto Float Signing Credit.
From Stdlib Require Import Floats.SpecFloat.

(** ** Days *)

Definition day_of (t : Z) : Z := t / Day.

Lemma dayBucketIndex_day t : 0 <= t → dayBucketIndex t rollingWindowDays = day_of t mod 30.
Proof.
  intros Ht. unfold dayBucketIndex, Unix, rollingWindowDays, day_of, Day, Hour, Second.
  rewrite Z.quot_div_nonneg by (try apply Z.div_pos; lia).
  rewrite Z.div_div by lia. change (1000000000 * 86400) with (24 * (3600 * 1000000000)).
  assert (0 <= t / (24 * (3600 * 1000000000))) by (apply Z.div_pos; lia).
  rewrite Z.rem_mod_nonneg by lia.
  destruct (_ <? 0) eqn:E; [|done]. apply Z.ltb_lt in E.
  pose proof (Z.mod_pos_bound (t / (24 * (3600 * 1000000000))) 30 ltac:(lia)). lia.
Qed.

Lemma stripToDay_day t : stripToDay t = day_of t * Day.
Proof. unfold stripToDay, day_of. pose proof (Z.div_mod t Day ltac:(done)). lia. Qed.

Lemma day_of_nonneg t : 0 <= t → 0 <= day_of t.
Proof. intros ?. by apply Z.div_pos. Qed.

Lemma day_of_mono t u : t <= u → day_of t <= day_of u.
Proof. intros ?. by apply Z.div_le_mono. Qed.

(** A bucket last used on day [d], seen on a day of the same index. *)
Lemma rotate_day b d t :
  0 <= d → db_DayStamp b = d * Day → d <= day_of t → d mod 30 = day_of t mod 30 →
  rotateIfStale b t rollingWindowDays = if d =? day_of t then b else freshBucket (day_of t * Day).
Proof.
  intros Hd Hb Hle Hmod. unfold rotateIfStale. rewrite stripToDay_day, Hb.
  assert (0 < Day) by done.
  destruct (d * Day =? zeroTime) eqn:Ez; [apply Z.eqb_eq in Ez; unfold zeroTime, Second in Ez; nia|].
  destruct (d =? day_of t) eqn:E.
  - apply Z.eqb_eq in E as <-. unfold time_Sub. by rewrite Z.sub_diag.
  - apply Z.eqb_neq in E.
    assert (30 <= day_of t - d) as H30.
    { pose proof (Z.div_mod d 30 ltac:(done)). pose proof (Z.div_mod (day_of t) 30 ltac:(done)). nia. }
    assert (rollingWindowDays * 24 * Hour <=? time_Sub (day_of t * Day) (d * Day) = true) as ->; [|done].
    apply Z.leb_le. unfold time_Sub, rollingWindowDays, Day, Hour, Second, MinInt64, MaxInt64 in *. lia.
Qed.

(** ** The reference of a window *)

Abbreviation hit := (Z * (DayBucket → DayBucket))%type.

Definition window_index (h : hit) : Z := day_of h.1 mod 30.

(** What bucket [i] holds after these hits: those of the last day of that index, on a fresh
    bucket. *)
Definition window_ref (i : Z) (hits : list hit) : DayBucket :=
  let mine := List.filter (λ h, window_index h =? i) hits in
  match last mine with
  | None => zeroBucket
  | Some h =>
      foldl (λ b g, g.2 b) (freshBucket (day_of h.1 * Day))
        (List.filter (λ g, day_of g.1 =? day_of h.1) mine)
  end.

Definition bumps (hits : list hit) (bs : list DayBucket) : list DayBucket :=
  foldl (λ bs h, bump h.2 h.1 bs) bs hits.

Definition hit_ok (h : hit) : Prop := 0 <= h.1 ∧ ∀ b, db_DayStamp (h.2 b) = db_DayStamp b.

Lemma fold_stamp (hits : list hit) b :
  Forall hit_ok hits → db_DayStamp (foldl (λ b g, g.2 b) b hits) = db_DayStamp b.
Proof. intros H. revert b. induction H as [|h hits [_ Hh] _ IH]; intros b; [done|]. cbn. by rewrite IH. Qed.

Lemma Forall_list_filter {A} (P : A → Prop) f (l : list A) : Forall P l → Forall P (List.filter f l).
Proof. induction 1 as [|x l Hx _ IH]; cbn; [done|]. destruct (f x); auto. Qed.

Lemma list_filter_none {A} f (l : list A) : Forall (λ x, f x = false) l → List.filter f l = [].
Proof. induction 1 as [|x l Hx _ IH]; cbn; [done|]. by rewrite Hx. Qed.

Lemma length_bumps hits bs : length (bumps hits bs) = length bs.
Proof. revert bs. induction hits as [|h hits IH]; intros bs; [done|].
  change (bumps (h :: hits) bs) with (bumps hits (bump h.2 h.1 bs)). rewrite IH. apply length_alter.
Qed.

Lemma bumps_reference hits i :
  Forall hit_ok hits → StronglySorted (λ a b : hit, a.1 <= b.1) hits → 0 <= i < 30 →
  bumps hits emptyBuckets !! Z.to_nat i = Some (window_ref i hits).
Proof.
  intros Hok Hsort Hi. induction hits as [|h hits IH] using rev_ind.
  { unfold bumps, emptyBuckets. cbn -[replicate]. apply lookup_replicate. split; [done|lia]. }
  apply Forall_app in Hok as [Hok Hh]. apply Forall_singleton in Hh as [Ht Hstamp].
  assert (Forall (λ x : hit, x.1 <= h.1) hits) as Hlast.
  { clear -Hsort. induction hits as [|x hits IH]; [done|]. cbn in Hsort.
    apply StronglySorted_inv in Hsort as [Hs Hx]. constructor; [|auto].
    rewrite Forall_forall in Hx. apply Hx. set_solver. }
  assert (StronglySorted (λ a b : hit, a.1 <= b.1) hits) as Hs by (by eapply StronglySorted_app_1_l).
  specialize (IH Hok Hs). unfold bumps. rewrite foldl_app. cbn [foldl]. fold (bumps hits emptyBuckets).
  unfold bump. rewrite dayBucketIndex_day by done. fold (window_index h).
  pose proof (Z.mod_pos_bound (day_of h.1) 30 ltac:(lia)) as Hm. fold (window_index h) in Hm.
  unfold window_ref in *. rewrite List.filter_app. cbn [List.filter].
  destruct (window_index h =? i) eqn:E.
  2: { apply Z.eqb_neq in E. rewrite app_nil_r, list_lookup_alter_ne by lia. done. }
  apply Z.eqb_eq in E. rewrite E, list_lookup_alter_eq, IH. cbn [fmap option_fmap option_map].
  f_equal. set (mine := List.filter _ hits) in *. rewrite last_snoc, List.filter_app. cbn [List.filter].
  rewrite Z.eqb_refl, foldl_app. cbn [foldl]. f_equal.
  assert (Forall hit_ok mine) as Hmine by (by apply Forall_list_filter).
  destruct (last mine) as [g|] eqn:Hg.
  2: { apply last_None in Hg. rewrite Hg. cbn. unfold rotateIfStale. cbn. by rewrite stripToDay_day. }
  assert (g ∈ mine) as Hgm by (apply last_Some in Hg as [l ->]; set_solver).
  rewrite Forall_forall in Hmine. destruct (Hmine g Hgm) as [Hg0 _].
  unfold mine in Hgm. apply list_elem_of_In, List.filter_In in Hgm as [Hgh Hgi].
  apply list_elem_of_In in Hgh. apply Z.eqb_eq in Hgi.
  rewrite Forall_forall in Hlast. pose proof (day_of_mono _ _ (Hlast g Hgh)) as Hle.
  rewrite (rotate_day _ (day_of g.1)); [|by apply day_of_nonneg| |done|unfold window_index in *; lia].
  2: { rewrite fold_stamp; [done|]. apply Forall_list_filter. by apply Forall_forall. }
  destruct (day_of g.1 =? day_of h.1) eqn:Ed.
  - apply Z.eqb_eq in Ed. by rewrite Ed.
  - apply Z.eqb_neq in Ed. rewrite list_filter_none; [done|]. unfold mine.
    apply last_Some in Hg as [l Hl]. fold mine. rewrite Hl in *.
    apply Forall_app. split; [|constructor; [by apply Z.eqb_neq|done]].
    assert (StronglySorted (λ a b : hit, a.1 <= b.1) (l ++ [g])) as Hsl.
    { rewrite <- Hl. unfold mine. clear -Hs. induction Hs as [|x k Hk IH Hx]; cbn; [constructor|].
      destruct (window_index x =? i); [|done]. constructor; [done|]. by apply Forall_list_filter. }
    apply Forall_forall. intros x Hx. apply Z.eqb_neq.
    assert (x.1 <= g.1) as Hxg.
    { apply StronglySorted_app in Hsl as (Hall & _ & _). apply Hall; [done|set_solver]. }
    pose proof (day_of_mono _ _ Hxg). lia.
Qed.

(** ** One identity's view of the table *)

(** What an event does to the entry of identity [id]. *)
Definition credit_step (id : bytes) (o : option ConsumerCreditState) (ev : LedgerEvent)
    : option ConsumerCreditState :=
  let mine := bool_decide (id = le_ConsumerID ev) in
  let change f o := Some (f (default (newCredit (le_Timestamp ev)) o)) in
  match le_Kind ev with
  | LedgerEventSettlement =>
      let o := if mine then change (settle_consumer ev) o else o in
      if bool_decide (le_SeederID ev ≠ zero_bytes 32 ∧ id = le_SeederID ev) then change (settle_seeder ev) o else o
  | LedgerEventTransferIn =>
      if mine then change (λ st, with_balance (i64 (cs_LastBalanceSeen st + signedDelta (le_CostCredits ev) true)) st) o else o
  | LedgerEventTransferOut =>
      if mine then change (λ st, with_balance (i64 (cs_LastBalanceSeen st + signedDelta (le_CostCredits ev) false)) st) o else o
  | LedgerEventStarterGrant => if mine then change (starter_state ev) o else o
  | LedgerEventDisputeFiled => if mine then change (dispute_state ev false) o else o
  | LedgerEventDisputeResolved => if mine && le_DisputeUpheld ev then change (dispute_state ev true) o else o
  | LedgerEventUnspecified => o
  end.

Lemma apply_event_nonempty (ev : LedgerEvent) (ss : consumerShards) : ss ≠ [] → apply_event ev ss ≠ [].
Proof.
  intros Hne. unfold apply_event, applySettlement, applyTransfer, applyStarterGrant, applyDispute.
  repeat case_match; auto using sh_change_nonempty.
Qed.

Lemma apply_event_get (id : bytes) (ev : LedgerEvent) (ss : consumerShards) :
  ss ≠ [] → sh_get id (apply_event ev ss) = credit_step id (sh_get id ss) ev.
Proof.
  intros Hne. unfold apply_event, credit_step, applySettlement, applyTransfer, applyStarterGrant, applyDispute.
  destruct (le_Kind ev).
  - done.
  - destruct (bool_decide (le_SeederID ev = zero_bytes 32)) eqn:Ez; cbn [negb].
    + apply bool_decide_eq_true in Ez. rewrite (bool_decide_eq_false_2 (_ ∧ _)) by tauto.
      rewrite sh_get_change by done. repeat case_decide; repeat case_bool_decide; by simplify_eq.
    + apply bool_decide_eq_false in Ez. rewrite !sh_get_change by auto using sh_change_nonempty.
      repeat case_decide; repeat case_bool_decide; simplify_eq; try tauto; try done; cbn; by repeat f_equal.
  - rewrite sh_get_change by done. case_decide; case_bool_decide; by simplify_eq.
  - rewrite sh_get_change by done. case_decide; case_bool_decide; by simplify_eq.
  - rewrite sh_get_change by done. case_decide; case_bool_decide; by simplify_eq.
  - rewrite sh_get_change by done. case_decide; case_bool_decide; by simplify_eq.
  - destruct (le_DisputeUpheld ev); cbn [negb]; [|by rewrite andb_false_r].
    rewrite andb_true_r, sh_get_change by done. case_decide; case_bool_decide; by simplify_eq.
Qed.

Definition apply_events (evs : list LedgerEvent) (ss : consumerShards) : consumerShards :=
  foldl (λ ss ev, apply_event ev ss) ss evs.

Lemma apply_events_nonempty (evs : list LedgerEvent) (ss : consumerShards) : ss ≠ [] → apply_events evs ss ≠ [].
Proof.
  revert ss. induction evs as [|ev evs IH]; intros ss Hne; [done|].
  change (apply_events evs (apply_event ev ss) ≠ []). by apply IH, apply_event_nonempty.
Qed.

Lemma apply_events_get (id : bytes) (evs : list LedgerEvent) (ss : consumerShards) :
  ss ≠ [] → sh_get id (apply_events evs ss) = foldl (credit_step id) (sh_get id ss) evs.
Proof.
  revert ss. induction evs as [|ev evs IH]; intros ss Hne; [done|].
  change (sh_get id (apply_events evs (apply_event ev ss)) = foldl (credit_step id) (credit_step id (sh_get id ss) ev) evs).
  rewrite <- apply_event_get by done. by apply IH, apply_event_nonempty.
Qed.

(** ** The windows against the history *)

Definition settlement_hits (id : bytes) (ev : LedgerEvent) : list hit :=
  match le_Kind ev with
  | LedgerEventSettlement =>
      if bool_decide (id = le_ConsumerID ev)
      then [(le_Timestamp ev, count_settled (Z.land (le_Flags ev) 1 =? 0))] else []
  | _ => []
  end.

Definition flow_hits (id : bytes) (ev : LedgerEvent) : list hit :=
  match le_Kind ev with
  | LedgerEventSettlement =>
      (if bool_decide (id = le_ConsumerID ev) then [(le_Timestamp ev, add_B (u32 (le_CostCredits ev)))] else [])
      ++ (if bool_decide (le_SeederID ev ≠ zero_bytes 32 ∧ id = le_SeederID ev)
          then [(le_Timestamp ev, add_A (u32 (le_CostCredits ev)))] else [])
  | _ => []
  end.

Definition dispute_hits (id : bytes) (ev : LedgerEvent) : list hit :=
  if negb (bool_decide (id = le_ConsumerID ev)) then [] else
  match le_Kind ev with
  | LedgerEventDisputeFiled => [(le_Timestamp ev, add_A 1)]
  | LedgerEventDisputeResolved => if le_DisputeUpheld ev then [(le_Timestamp ev, add_B 1)] else []
  | _ => []
  end.

(** The arrays are those of the hits so far; an absent entry has had none. *)
Definition windows_of (hs hd hf : list hit) (o : option ConsumerCreditState) : Prop :=
  match o with
  | Some st => cs_SettlementBuckets st = bumps hs emptyBuckets ∧ cs_DisputeBuckets st = bumps hd emptyBuckets
               ∧ cs_FlowBuckets st = bumps hf emptyBuckets
  | None => hs = [] ∧ hd = [] ∧ hf = []
  end.

Lemma bumps_app h1 h2 bs : bumps (h1 ++ h2) bs = bumps h2 (bumps h1 bs).
Proof. apply foldl_app. Qed.

Lemma bumps_one t f bs : bumps [(t, f)] bs = bump f t bs.
Proof. done. Qed.

Lemma windows_of_init hs hd hf t o :
  windows_of hs hd hf o → windows_of hs hd hf (Some (default (newCredit t) o)).
Proof. destruct o; [done|]. by intros (-> & -> & ->). Qed.

Lemma windows_step id o ev hs hd hf :
  windows_of hs hd hf o →
  windows_of (hs ++ settlement_hits id ev) (hd ++ dispute_hits id ev) (hf ++ flow_hits id ev)
    (credit_step id o ev).
Proof.
  intros Hw. pose proof (windows_of_init _ _ _ (le_Timestamp ev) _ Hw) as Hi.
  unfold credit_step, settlement_hits, dispute_hits, flow_hits.
  destruct (le_Kind ev);
    destruct (bool_decide (id = le_ConsumerID ev)); cbn [negb andb app]; rewrite ?app_nil_r; try done.
  - destruct (bool_decide (_ ∧ _)); cbn [windows_of default app] in *; rewrite !bumps_app, ?bumps_one;
      destruct Hi as (<- & <- & <-); done.
  - destruct (bool_decide (_ ∧ _)); rewrite ?app_nil_r; [|done].
    cbn [windows_of] in *. rewrite bumps_app, bumps_one. destruct Hi as (<- & <- & <-). done.
  - cbn [windows_of] in *. rewrite bumps_app, bumps_one. destruct Hi as (<- & <- & <-). done.
  - destruct (le_DisputeUpheld ev); rewrite ?app_nil_r; [|done].
    cbn [windows_of] in *. rewrite bumps_app, bumps_one. destruct Hi as (<- & <- & <-). done.
Qed.

Lemma windows_fold id evs o hs hd hf :
  windows_of hs hd hf o →
  windows_of (hs ++ (evs ≫= settlement_hits id)) (hd ++ (evs ≫= dispute_hits id)) (hf ++ (evs ≫= flow_hits id))
    (foldl (credit_step id) o evs).
Proof.
  revert o hs hd hf. induction evs as [|ev evs IH]; intros o hs hd hf Hw.
  { cbn. by rewrite !app_nil_r. }
  cbn [foldl]. rewrite !bind_cons, !app_assoc. apply IH. by apply windows_step.
Qed.

(** An event admission can be handed in order: its time is after the epoch. *)
Definition in_order (evs : list LedgerEvent) : Prop :=
  Forall (λ ev, 0 <= le_Timestamp ev) evs ∧ StronglySorted (λ a b, le_Timestamp a <= le_Timestamp b) evs.

Lemma in_order_hits (hits : LedgerEvent → list hit) evs :
  (∀ ev h, h ∈ hits ev → h.1 = le_Timestamp ev ∧ ∀ b, db_DayStamp (h.2 b) = db_DayStamp b) →
  in_order evs →
  Forall hit_ok (evs ≫= hits) ∧ StronglySorted (λ a b : hit, a.1 <= b.1) (evs ≫= hits).
Proof.
  intros Hh [Hpos Hsort]. split.
  - apply Forall_forall. intros h Hin. apply list_elem_of_bind in Hin as (ev & Hin & Hev).
    rewrite Forall_forall in Hpos. destruct (Hh _ _ Hin) as [E ?]. split; [rewrite E; by apply Hpos|done].
  - clear Hpos. induction Hsort as [|ev evs Hs IH Hev]; [constructor|]. rewrite bind_cons.
    apply StronglySorted_app. split_and!; [| |done].
    + intros a b Ha Hb. apply list_elem_of_bind in Hb as (ev' & Hb & Hin).
      rewrite Forall_forall in Hev. specialize (Hev _ Hin).
      destruct (Hh _ _ Ha) as [-> _], (Hh _ _ Hb) as [-> _]. done.
    + assert (∀ a, a ∈ hits ev → a.1 = le_Timestamp ev) as Heq by (intros a Ha; by apply Hh).
      clear -Heq. induction (hits ev) as [|a l IH]; [constructor|]. constructor.
      * apply IH. intros b Hb. apply Heq. by right.
      * apply Forall_forall. intros b Hb. rewrite (Heq a), (Heq b) by set_solver. lia.
Qed.

(** The rolling windows are what the history says. After any events in the order of their
    times, bucket [i] of each of an identity's three windows holds the counts of the last day
    of that index on which the identity had an event of that kind, computed here from the
    history alone: nothing of a day that was overwritten leaks in, and sharding and the
    other identities' events do not matter. *)
Lemma credit_windows_reference n id evs st i :
  0 < n → in_order evs → 0 <= i < 30 → sh_get id (apply_events evs (newShards n)) = Some st →
  cs_SettlementBuckets st !! Z.to_nat i = Some (window_ref i (evs ≫= settlement_hits id))
  ∧ cs_DisputeBuckets st !! Z.to_nat i = Some (window_ref i (evs ≫= dispute_hits id))
  ∧ cs_FlowBuckets st !! Z.to_nat i = Some (window_ref i (evs ≫= flow_hits id)).
Proof.
  intros Hn Hev Hi Hst.
  pose proof (newShards_nonempty n Hn : newShards n ≠ ([] : consumerShards)) as Hne.
  rewrite apply_events_get, sh_get_new in Hst by done.
  pose proof (windows_fold id evs None [] [] [] ltac:(done)) as Hw. rewrite Hst in Hw.
  destruct Hw as (-> & -> & ->). cbn [app].
  split_and!; (apply bumps_reference; [| |done]); apply in_order_hits; try done; intros ev h Hin;
    unfold settlement_hits, dispute_hits, flow_hits in Hin; repeat case_match; set_solver.
Qed.

Definition w_event (kind : LedgerEventKind) (ts : Z) : LedgerEvent := {|
  le_Kind := kind; le_ConsumerID := replicate 32 Byte.x07; le_SeederID := replicate 32 Byte.x08;
  le_CostCredits := 40; le_Flags := 0; le_DisputeUpheld := true; le_Timestamp := ts * Second |}.

Definition w_events : list LedgerEvent := [
  w_event LedgerEventStarterGrant 100; w_event LedgerEventSettlement 86400; w_event LedgerEventSettlement 86500;
  w_event LedgerEventDisputeFiled 90000; w_event LedgerEventSettlement (86400 * 31) ].

Lemma w_events_in_order : in_order w_events.
Proof.
  split; [repeat (constructor; [vm_compute; done|]); constructor|].
  repeat (constructor; [|repeat (constructor; [vm_compute; done|]); constructor]). constructor.
Qed.

Lemma credit_windows_reference_witness :
  ∃ st, sh_get (replicate 32 Byte.x07) (apply_events w_events (newShards 16)) = Some st
    ∧ cs_SettlementBuckets st !! Z.to_nat 1 =
      Some (window_ref 1 (w_events ≫= settlement_hits (replicate 32 Byte.x07)))
    ∧ db_Total (window_ref 1 (w_events ≫= settlement_hits (replicate 32 Byte.x07))) = 1.
Proof.
  destruct (sh_get (replicate 32 Byte.x07) (apply_events w_events (newShards 16))) as [st|] eqn:E.
  - exists st. split; [done|]. split; [|vm_compute; reflexivity].
    exact (proj1 (credit_windows_reference 16 _ w_events st 1 ltac:(lia) w_events_in_order ltac:(lia) E)).
  - exfalso. vm_compute in E. discriminate E.
Defined.

(** The windows are not brought up to date when they are read: a settlement still counts a
    year later if the consumer has had no other of its index. *)
Example stale_bucket_still_counted math_Log2 conv_undef cfg :
  sh_get (replicate 32 Byte.x07) (apply_events [w_event LedgerEventSettlement 86400] (newShards 16))
    ≫= (λ st, Some (SFeqb (sg_SettlementReliability
          (computeSignals math_Log2 conv_undef cfg st (86400 * 400 * Second))) f64_one)) = Some true.
Proof.
  destruct (sh_get _ _) as [st|] eqn:E; [|exfalso; vm_compute in E; discriminate E].
  cbn. f_equal. unfold computeSignals. cbn [sg_SettlementReliability].
  assert (sum32 db_Total (cs_SettlementBuckets st) = 1 ∧ sum32 db_A (cs_SettlementBuckets st) = 1) as [-> ->].
  { vm_compute in E. injection E as <-. vm_compute. done. }
  vm_compute. reflexivity.
Qed.

(** ** Types *)

Definition bucket_wf (b : DayBucket) : Prop :=
  is_u32 (db_Total b) ∧ is_u32 (db_A b) ∧ is_u32 (db_B b) ∧ db_DayStamp b mod Day = 0.

Definition buckets_wf (bs : list DayBucket) : Prop := length bs = 30%nat ∧ Forall bucket_wf bs.

(** The value fits the Go struct: arrays of thirty, counts of 32 bits, day stamps at the
    start of a day, a balance of 64 bits. *)
Definition credit_wf (st : ConsumerCreditState) : Prop :=
  buckets_wf (cs_SettlementBuckets st) ∧ buckets_wf (cs_DisputeBuckets st) ∧ buckets_wf (cs_FlowBuckets st)
  ∧ is_i64 (cs_LastBalanceSeen st).

Definition shards_wf (ss : consumerShards) : Prop := ∀ id st, sh_get id ss = Some st → credit_wf st.

Lemma zeroTime_day : zeroTime mod Day = 0.
Proof. reflexivity. Qed.

Lemma u32_wf z : is_u32 (u32 z). Proof. apply u32_range. Qed.
#[export] Hint Resolve u32_wf i64_range zeroTime_day : credit.

Lemma rotate_wf b t : bucket_wf b → bucket_wf (rotateIfStale b t rollingWindowDays).
Proof.
  intros Hb. unfold rotateIfStale. rewrite stripToDay_day.
  repeat case_match; [| |done]; split_and!; cbn; try done; by apply Z.mod_mul.
Qed.

Lemma bump_wf f t bs :
  (∀ b, bucket_wf b → bucket_wf (f b)) → buckets_wf bs → buckets_wf (bump f t bs).
Proof.
  intros Hf [Hl Hbs]. split; [by unfold bump; rewrite length_alter|].
  apply Forall_alter; [done|]. intros b Hb Hw. by apply Hf, rotate_wf.
Qed.

Lemma count_settled_wf c b : bucket_wf b → bucket_wf (count_settled c b).
Proof. intros (H1 & H2 & H3 & H4). unfold count_settled. destruct c; split_and!; cbn; auto with credit. Qed.

Lemma add_A_wf n b : bucket_wf b → bucket_wf (add_A n b).
Proof. intros (H1 & H2 & H3 & H4). split_and!; cbn; auto with credit. Qed.

Lemma add_B_wf n b : bucket_wf b → bucket_wf (add_B n b).
Proof. intros (H1 & H2 & H3 & H4). split_and!; cbn; auto with credit. Qed.

#[export] Hint Resolve bump_wf count_settled_wf add_A_wf add_B_wf : credit.

Lemma newCredit_wf t : credit_wf (newCredit t).
Proof.
  assert (buckets_wf emptyBuckets) as Hb.
  { split; [done|]. apply Forall_replicate. split_and!; done. }
  split_and!; try apply Hb; done.
Qed.

Lemma credit_step_wf id o ev :
  (∀ st, o = Some st → credit_wf st) → ∀ st, credit_step id o ev = Some st → credit_wf st.
Proof.
  intros Ho. assert (credit_wf (default (newCredit (le_Timestamp ev)) o)) as Hd.
  { destruct o as [st|]; cbn; [by apply Ho|apply newCredit_wf]. }
  assert (∀ f o', (∀ st, credit_wf st → credit_wf (f st)) → credit_wf (default (newCredit (le_Timestamp ev)) o') →
    ∀ st, Some (f (default (newCredit (le_Timestamp ev)) o')) = Some st → credit_wf st) as Hch
    by (intros f o' Hf Ho' st [= <-]; auto).
  assert (∀ st, credit_wf st → credit_wf (settle_consumer ev st)) as H1
    by (intros st (?&?&?&?); split_and!; cbn; auto with credit).
  assert (∀ st, credit_wf st → credit_wf (settle_seeder ev st)) as H2
    by (intros st (?&?&?&?); split_and!; cbn; auto with credit).
  assert (∀ z st, credit_wf st → credit_wf (with_balance (i64 z) st)) as H3
    by (intros z st (?&?&?&?); split_and!; cbn; auto with credit).
  unfold credit_step. destruct (le_Kind ev).
  - done.
  - destruct (bool_decide (id = _)), (bool_decide (_ ∧ _)); [|by apply Hch..|done].
    apply (Hch (settle_seeder ev) (Some _)); cbn; auto.
  - destruct (bool_decide _); [apply Hch; auto|done].
  - destruct (bool_decide _); [apply Hch; auto|done].
  - destruct (bool_decide _); [apply Hch; [|done]|done].
    intros st (?&?&?&?). split_and!; cbn; auto with credit.
  - destruct (bool_decide _); [apply Hch; [|done]|done].
    intros st (?&?&?&?). split_and!; cbn; auto with credit.
  - destruct (_ && _); [apply Hch; [|done]|done].
    intros st (?&?&?&?). split_and!; cbn; auto with credit.
Qed.

Lemma apply_event_wf (ev : LedgerEvent) (ss : consumerShards) : ss ≠ [] → shards_wf ss → shards_wf (apply_event ev ss).
Proof.
  intros Hne Hss id st. rewrite apply_event_get by done. apply credit_step_wf. intros st' Hst'. by apply (Hss id).
Qed.



(** ** Issuance in an hour *)

(** The calls that were let through, in order. *)
Definition allow_all (calls : list (bytes * Z)) (rl : rateLimiter) : list (bytes * Z) * rateLimiter :=
  foldl (λ acc c, let '(ok, rl) := allow c.1 c.2 acc.2 in (if ok then acc.1 ++ [c] else acc.1, rl)) ([], rl) calls.

Definition times_of (id : bytes) (granted : list (bytes * Z)) : list Z :=
  (List.filter (λ c, bool_decide (c.1 = id)) granted).*2.

Definition in_window (t w x : Z) : bool := (t - w <? x) && (x <=? t).

(** For each identity: its list and the granted times agree on the window that ends now, and
    no window holds more than the cap. *)
Definition rl_inv (cap now : Z) (granted : list (bytes * Z)) (rl : rateLimiter) : Prop :=
  rl_cap rl = cap ∧ rl_window rl = Hour ∧ rl_shards rl ≠ [] ∧
  ∀ id, Forall (λ t, t <= now) (times_of id granted)
    ∧ List.filter (λ t, now - Hour <? t) (default [] (sh_get id (rl_shards rl)))
      = List.filter (λ t, now - Hour <? t) (times_of id granted)
    ∧ ∀ t, blen (List.filter (in_window t Hour) (times_of id granted)) <= cap.

Lemma filter_filter_le {A} (f g : A → bool) l :
  (∀ x, g x = true → f x = true) → List.filter g (List.filter f l) = List.filter g l.
Proof.
  intros Hfg. induction l as [|x l IH]; [done|]. cbn. destruct (f x) eqn:Ef; cbn; [by rewrite IH|].
  destruct (g x) eqn:Eg; [by rewrite Hfg in Ef|done].
Qed.

Lemma blen_filter_le {A} (f g : A → bool) l :
  (∀ x, x ∈ l → f x = true → g x = true) → blen (List.filter f l) <= blen (List.filter g l).
Proof.
  unfold blen. induction l as [|x l IH]; cbn; [lia|]. intros Hfg.
  assert (∀ y, y ∈ l → f y = true → g y = true) as Hl by (intros; apply Hfg; [by right|done]).
  specialize (IH Hl). destruct (f x) eqn:Ef.
  - rewrite (Hfg x (list_elem_of_here _ _) Ef). cbn. lia.
  - destruct (g x); cbn; lia.
Qed.

Lemma times_of_snoc id granted c :
  times_of id (granted ++ [c]) = times_of id granted ++ (if bool_decide (c.1 = id) then [c.2] else []).
Proof. unfold times_of. rewrite List.filter_app, fmap_app. cbn. by destruct (bool_decide _). Qed.

Lemma allow_inv cap now now' granted rl id :
  0 < cap → rl_inv cap now granted rl → now <= now' →
  rl_inv cap now' (if (allow id now' rl).1 then granted ++ [(id, now')] else granted) (allow id now' rl).2.
Proof.
  intros Hcap (Hc & Hw & Hne & Hinv) Hle. unfold allow. rewrite Hc, Hw.
  assert (cap <=? 0 = false) as -> by (apply Z.leb_gt; lia).
  set (pruned := List.filter (λ t, now' - Hour <? t) (default [] (sh_get id (rl_shards rl)))) in *.
  assert (∀ j, List.filter (λ t, now' - Hour <? t) (default [] (sh_get j (rl_shards rl)))
               = List.filter (λ t, now' - Hour <? t) (times_of j granted)) as Hagree.
  { intros j. destruct (Hinv j) as (_ & Hj & _).
    rewrite <- (filter_filter_le (λ t, now - Hour <? t)), Hj, filter_filter_le; [done|..];
      intros x Hx; rewrite Z.ltb_lt in *; lia. }
  assert (List.filter (λ t, now' - Hour <? t) pruned = pruned) as Hpp by (by apply filter_filter_le).
  destruct (cap <=? blen pruned) eqn:E; cbn [fst snd rl_cap rl_window rl_shards rl_set].
  - split_and!; [done..|by apply sh_put_nonempty|]. intros j. cbn. rewrite sh_get_put by done.
    destruct (Hinv j) as (Hlast & _ & Hcount). split_and!; [|case_decide; subst|done].
    + eapply Forall_impl; [done|]. cbn. lia.
    + cbn. by rewrite Hpp, <- Hagree.
    + apply Hagree.
  - apply Z.leb_gt in E. split_and!; [done..|by apply sh_put_nonempty|]. intros j. cbn.
    rewrite sh_get_put, times_of_snoc by done. cbn [fst snd].
    destruct (Hinv j) as (Hlast & _ & Hcount).
    destruct (decide (j = id)) as [->|Hj].
    + rewrite bool_decide_eq_true_2 by done. split_and!.
      * apply Forall_app. split; [|by repeat constructor]. eapply Forall_impl; [done|]. cbn. lia.
      * cbn. by rewrite !List.filter_app, Hpp, <- Hagree.
      * intros t. rewrite List.filter_app. cbn. unfold in_window at 2.
        destruct ((t - Hour <? now') && (now' <=? t)) eqn:Et; [|rewrite app_nil_r; apply Hcount].
        apply andb_true_iff in Et as [Et1 Et2]. apply Z.leb_le in Et2.
        assert (blen (List.filter (in_window t Hour) (times_of id granted)) <= blen pruned) as Hb.
        { unfold pruned. rewrite Hagree. apply blen_filter_le. intros x _. unfold in_window.
          rewrite andb_true_iff, !Z.ltb_lt. lia. }
        unfold blen in *. rewrite length_app. cbn. lia.
    + rewrite bool_decide_eq_false_2, app_nil_r by congruence. split_and!; [|apply Hagree|done].
      eapply Forall_impl; [done|]. cbn. lia.
Qed.

(** C39: The rate limiter does what it says: with a positive cap, whatever calls are made, in
    the order of their times, no identity is let through more than the cap in any window of
    an hour, wherever the window ends. *)
Theorem attestation_rate_bounded cap n calls id t :
  0 < cap → 0 < n → StronglySorted (λ a b : bytes * Z, a.2 <= b.2) calls →
  blen (List.filter (in_window t Hour) (times_of id (allow_all calls (newRateLimiter cap n)).1)) <= cap.
Proof.
  intros Hcap Hn Hsort.
  assert (∀ now, Forall (λ c : bytes * Z, c.2 <= now) calls →
    ∃ now', now' <= now ∧ rl_inv cap now' (allow_all calls (newRateLimiter cap n)).1
              (allow_all calls (newRateLimiter cap n)).2) as Hinv.
  { induction calls as [|c calls IH] using rev_ind; intros now Hnow.
    - exists now. split; [done|]. cbn. split_and!; [done..|by apply newShards_nonempty|].
      intros j. cbn. rewrite sh_get_new. split_and!; [done..|]. intros t'. unfold blen. cbn. lia.
    - apply StronglySorted_app in Hsort as (Hlast & Hs & _). apply Forall_app in Hnow as [Hnow Hc].
      rewrite Forall_singleton in Hc.
      destruct (IH Hs c.2) as (now' & Hle & Hi).
      { apply Forall_forall. intros x Hx. apply Hlast; [done|set_solver]. }
      exists c.2. split; [done|]. unfold allow_all. rewrite foldl_app. cbn [foldl].
      fold (allow_all calls (newRateLimiter cap n)).
      pose proof (allow_inv _ _ c.2 _ _ c.1 Hcap Hi Hle) as Ha.
      destruct (allow c.1 c.2 _) as [ok rl']. cbn [fst snd] in *. by destruct c. }
  assert (∃ now, Forall (λ c : bytes * Z, c.2 <= now) calls) as [now Hnow].
  { clear. induction calls as [|c calls [now IH]]; [by exists 0|]. exists (Z.max c.2 now).
    constructor; [lia|]. eapply Forall_impl; [done|]. cbn. lia. }
  destruct (Hinv now Hnow) as (now' & _ & _ & _ & _ & Hid). apply Hid.
Qed.

Lemma attestation_rate_bounded_witness :
  let id := replicate 32 Byte.x07 in
  (allow_all [(id, 1); (id, 2); (id, 3); (id, Hour + 2)] (newRateLimiter 2 16)).1 = [(id, 1); (id, 2); (id, Hour + 2)]
  ∧ blen (List.filter (in_window 3 Hour)
      (times_of id (allow_all [(id, 1); (id, 2); (id, 3); (id, Hour + 2)] (newRateLimiter 2 16)).1)) <= 2.
Proof.
  cbn zeta. split; [vm_compute; reflexivity|].
  apply attestation_rate_bounded; [lia|lia|].
  repeat (constructor; [|repeat (constructor; [vm_compute; done|]); constructor]). constructor.
Defined.

(** ** Attestations *)

Section attestations.
Context `{CryptoLaws} `{AdmWire}.
Variable math_Exp math_Log2 : spec_float → spec_float.
Variable conv_undef : spec_float → Z.

Lemma VerifyCreditAttestation_signed priv b sig :
  SignCreditAttestation priv (Some b) = Ok sig →
  VerifyCreditAttestation (ed25519_Public priv) (Some {| sca_Body := Some b; sca_TrackerSig := sig |}) = true
  ∧ length priv = 64%nat.
Proof.
  unfold SignCreditAttestation, VerifyCreditAttestation. cbn [sca_Body sca_TrackerSig].
  destruct (negb _) eqn:El; [done|]. destruct (marshal_CreditAttestationBody b) as [buf|]; [|done].
  intros [= <-]. unfold PrivateKeySize, blen in El. bool_to_prop.
  unfold Verify, PublicKeySize, SignatureSize, blen.
  rewrite Public_length, Sign_length by lia. split; [apply Verify_Sign|]; lia.
Qed.

(** What a valid body promises. *)
Lemma ValidateCreditAttestationBody_ok b :
  ValidateCreditAttestationBody (Some b) = None →
  blen (ca_IdentityId b) = 32 ∧ blen (ca_IssuerTrackerId b) = 32 ∧ ca_Score b <= 10000
  ∧ ca_TenureDays b <= 365 ∧ ca_SettlementReliability b <= 10000 ∧ ca_DisputeRate b <= 10000
  ∧ -8 <= ca_BalanceCushionLog2 b <= 8 ∧ ca_ComputedAt b < ca_ExpiresAt b
  ∧ u64 (ca_ExpiresAt b - ca_ComputedAt b) <= 604800.
Proof.
  unfold ValidateCreditAttestationBody, identityIDLen, scoreMax, tenureDaysCap, balanceCushionMin,
    balanceCushionMax, attestationMaxTTLSeconds.
  intros Hv. go_inv Hv. bool_to_prop. repeat split; lia.
Qed.

(** A score that is imported is backed: the attestation is well formed, its issuer is a
    peer of the federation and its signature over the body verifies under that issuer's key,
    it has not expired and lives at most seven days, and the score is not above the local
    ceiling. It is the score of whoever presents it: nothing compares the identity in the
    body with the consumer, so the score is the same for every consumer. *)
Lemma imported_score_backed cfg peers att now score :
  tryAttestation cfg peers att now = Some score →
  (∃ body buf, sca_Body att = Some body ∧ marshal_CreditAttestationBody body = Some buf
    ∧ peers (ca_IssuerTrackerId body) = true
    ∧ Verify (ca_IssuerTrackerId body) buf (sca_TrackerSig att) = true
    ∧ 0 <= Unix now < ca_ExpiresAt body ∧ u64 (ca_ExpiresAt body - ca_ComputedAt body) <= 604800
    ∧ blen (ca_IdentityId body) = 32 ∧ ca_Score body <= 10000)
  ∧ SFltb (ac_MaxAttestationScoreImported cfg) score = false
  ∧ ∀ consumerID ss,
      resolveCreditScore math_Exp math_Log2 conv_undef cfg peers consumerID (Some att) now ss
      = (score, ScoreSourceAttestation).
Proof.
  intros Htry. split_and!.
  - unfold tryAttestation in Htry. destruct (sca_Body att) as [body|] eqn:Hb; [|done].
    destruct (ValidateCreditAttestationBody (Some body)) eqn:Hv; [done|].
    apply ValidateCreditAttestationBody_ok in Hv as (Hid & Hiss & Hs & _ & _ & _ & _ & _ & Httl).
    destruct (negb (blen _ =? 32)); [done|]. destruct (negb (peers _)) eqn:Hp; [done|].
    destruct ((Unix now <? 0) || _) eqn:Hexp; [done|].
    destruct (negb (VerifyCreditAttestation _ _)) eqn:Hsig; [done|]. bool_to_prop.
    unfold VerifyCreditAttestation in Hsig. rewrite Hb in Hsig.
    destruct (marshal_CreditAttestationBody body) as [buf|] eqn:Hm; [|done].
    exists body, buf. split_and!; done || lia.
  - unfold tryAttestation in Htry. repeat case_match; simplify_eq; [apply SFltb_irrefl|done].
  - intros consumerID ss. unfold resolveCreditScore. cbn. by rewrite Htry.
Qed.

(** What one tracker issues another accepts. An attestation that is issued, for a consumer
    with local history, is within the limits of the validator and signed by the tracker's
    key; issuing it changed the rate limiter only; and a tracker that lists this one as a peer
    takes its score, up to its own ceiling, until it expires. *)
Lemma issued_attestation_imports cfg priv consumerID now s att s' cfg' peers' now' :
  IssueAttestation math_Exp math_Log2 conv_undef cfg priv (ed25519_Public priv) consumerID now s = (Ok att, s') →
  cr_consumers s' = cr_consumers s ∧
  ∃ st body, sh_get consumerID (cr_consumers s) = Some st ∧ sca_Body att = Some body
    ∧ body = attestation_body math_Exp math_Log2 conv_undef cfg (ed25519_Public priv) consumerID st now
    ∧ ca_IdentityId body = consumerID ∧ ca_Score body <= 10000
    ∧ (peers' (ed25519_Public priv) = true → 0 <= Unix now' < ca_ExpiresAt body →
       let score := f64_div (f64_of_int (ca_Score body)) (f64_of_int 10000) in
       tryAttestation cfg' peers' att now' =
         Some (if SFltb (ac_MaxAttestationScoreImported cfg') score
               then ac_MaxAttestationScoreImported cfg' else score)).
Proof.
  unfold IssueAttestation. intros Hiss.
  destruct (sh_get consumerID (cr_consumers s)) as [st|] eqn:Hst; [|done].
  destruct (allow consumerID now (cr_attestRL s)) as [ok rl]. destruct ok; cbn [negb] in Hiss; [|done].
  set (body := attestation_body _ _ _ _ _ _ _ _) in *.
  destruct (ValidateCreditAttestationBody (Some body)) eqn:Hv; [done|].
  destruct (SignCreditAttestation priv (Some body)) as [sig|] eqn:Hsig; [|done].
  injection Hiss as <- <-. split; [done|]. exists st, body.
  apply VerifyCreditAttestation_signed in Hsig as [Hver Hlen].
  pose proof (ValidateCreditAttestationBody_ok _ Hv) as (Hid & _ & Hs & _).
  assert (ca_IdentityId body = consumerID ∧ ca_IssuerTrackerId body = ed25519_Public priv) as [Hcid Hiid].
  { unfold body, attestation_body. by destruct (ComputeLocalScore _ _ _ _ _ _). }
  split_and!; try done. cbn zeta. intros Hp [Hn Hexp]. unfold tryAttestation. cbn [sca_Body].
  rewrite Hv, Hiid, Hp, Hver. unfold blen. rewrite Public_length by done. cbn [negb].
  replace (Unix now' <? 0) with false by (symmetry; apply Z.ltb_ge; lia).
  replace (ca_ExpiresAt body <=? Unix now') with false by (symmetry; apply Z.leb_gt; lia). done.
Qed.
End attestations.

(** A toy encoder, and a tracker with one consumer. *)
Definition ToyAdmWire : AdmWire := {|
  marshal_CreditAttestationBody := λ b,
    Some (ca_IdentityId b ++ ca_IssuerTrackerId b ++ PutUint64 (ca_Score b) ++ PutUint64 (ca_ExpiresAt b)) |}.

Definition w_weights : AdmissionScoreWeights := {|
  aw_SettlementReliability := f64_of_int 1; aw_InverseDisputeRate := f64_zero; aw_Tenure := f64_zero;
  aw_NetCreditFlow := f64_zero; aw_BalanceCushion := f64_zero |}.

Definition w_adm_cfg : AdmissionConfig := {|
  ac_PressureAdmitThreshold := f64_of_int 1; ac_PressureRejectThreshold := f64_of_int 2; ac_QueueCap := 2;
  ac_TrialTierScore := f64_zero; ac_AgingAlphaPerMinute := f64_of_int 1; ac_QueueTimeoutS := 30;
  ac_ScoreWeights := w_weights; ac_NetFlowNormalizationConstant := 1; ac_TenureCapDays := 30;
  ac_StarterGrantCredits := 1000; ac_RollingWindowDays := 30; ac_AttestationTTLSeconds := 3600;
  ac_AttestationIssuancePerConsumerPerHour := 6; ac_MaxAttestationScoreImported := f64_of_int 1;
  ac_SnapshotsRetained := 3; ac_HeartbeatFreshnessDecayMaxS := 300 |}.

Definition w_credit : CreditState := {|
  cr_consumers := apply_events w_events (newShards 16); cr_attestRL := newRateLimiter 6 16 |}.

Definition w_priv : bytes := replicate 64 Byte.x05.

Definition w_issue : res AttErr SignedCreditAttestation * CreditState :=
  @IssueAttestation ToyCrypto ToyAdmWire (λ _, f64_one) (λ _, f64_zero) (λ _, 0) w_adm_cfg w_priv
    (@ed25519_Public ToyCrypto w_priv) (replicate 32 Byte.x07) (86400 * 32 * Second) w_credit.

Definition w_att : SignedCreditAttestation :=
  match w_issue with
  | (Ok att, _) => att
  | _ => {| sca_Body := None; sca_TrackerSig := [] |}
  end.

Lemma w_issue_ok : w_issue = (Ok w_att, w_issue.2).
Proof. vm_compute. reflexivity. Qed.

Lemma issued_attestation_imports_witness :
  ∃ body, sca_Body w_att = Some body ∧ ca_Score body = 10000 ∧
  cr_consumers w_issue.2 = cr_consumers w_credit.
Proof.
  destruct (@issued_attestation_imports ToyCrypto ToyCryptoLaws ToyAdmWire _ _ _ _ _ _ _ _ _ _ w_adm_cfg (λ _, true)
              (86400 * 32 * Second + 1) w_issue_ok) as (Hc & st & body & _ & Hb & _).
  exists body. split; [exact Hb|]. split; [|exact Hc].
  vm_compute in Hb. injection Hb as <-. vm_compute. reflexivity.
Defined.

Lemma imported_score_backed_witness :
  @tryAttestation ToyCrypto ToyAdmWire w_adm_cfg (λ _, true) w_att (86400 * 32 * Second + 1) = Some f64_one ∧
  SFltb (ac_MaxAttestationScoreImported w_adm_cfg) f64_one = false.
Proof.
  assert (@tryAttestation ToyCrypto ToyAdmWire w_adm_cfg (λ _, true) w_att (86400 * 32 * Second + 1) = Some f64_one)
    as E by (vm_compute; reflexivity).
  split; [exact E|].
  exact (proj1 (proj2 (@imported_score_backed ToyCrypto ToyAdmWire (λ _, f64_one) (λ _, f64_zero) (λ _, 0)
                         w_adm_cfg (λ _, true) w_att _ f64_one E))).
Defined.
