(* ===== verification/AdmQueue.v ===== *)
(** tracker/internal/admission: queue.go (the heap of waiting requests), decide.go, supply.go
    and the queue half of admin.go.

    Each function here runs under the queue's mutex, or reads and replaces one atomic
    pointer, so it is one step. Random request ids and the jitter are arguments; metrics are
    left out. [math.Exp] is a parameter. *)
From S2P Require Import Prelude Proto Float Signing Registry Credit Heap.
From Stdlib Require Import Floats.SpecFloat Ascii.

(** ** The queue *)

Record QueueEntry := {
  qe_RequestID : bytes; qe_ConsumerID : bytes; qe_EnvelopeHash : bytes; qe_CreditScore : spec_float;
  qe_EnqueuedAt : Z
}.

Definition EffectivePriority (e : QueueEntry) (now : Z) (agingAlpha : spec_float) : spec_float :=
  let wait := time_Sub now (qe_EnqueuedAt e) in
  let wait := if wait <? 0 then 0 else wait in
  f64_add (qe_CreditScore e) (f64_mul agingAlpha (Minutes wait)).

Record queueHeap := { qh_entries : list QueueEntry; qh_now : Z; qh_agingAlpha : spec_float }.

Definition newQueueHeap (now : Z) (agingAlpha : spec_float) : queueHeap :=
  {| qh_entries := []; qh_now := now; qh_agingAlpha := agingAlpha |}.

Definition Len (h : queueHeap) : Z := blen (qh_entries h).

Definition Less (now : Z) (agingAlpha : spec_float) (x y : QueueEntry) : bool :=
  SFltb (EffectivePriority y now agingAlpha) (EffectivePriority x now agingAlpha).

Definition h_less (h : queueHeap) : QueueEntry → QueueEntry → bool := Less (qh_now h) (qh_agingAlpha h).

Definition set_entries (es : list QueueEntry) (h : queueHeap) : queueHeap :=
  {| qh_entries := es; qh_now := qh_now h; qh_agingAlpha := qh_agingAlpha h |}.

Definition Push (e : QueueEntry) (h : queueHeap) : queueHeap :=
  set_entries (heap_Push (h_less h) e (qh_entries h)) h.

(** [None] is the zero entry Go returns for an empty heap. *)
Definition Pop (h : queueHeap) : option QueueEntry * queueHeap :=
  match qh_entries h with
  | [] => (None, h)
  | es => match heap_Pop (h_less h) es with
          | Some (e, rest) => (Some e, set_entries rest h)
          | None => (None, h)
          end
  end.

Definition Peek (h : queueHeap) : option QueueEntry := head (qh_entries h).

Definition AdvanceTime (now : Z) (h : queueHeap) : queueHeap :=
  {| qh_entries := qh_entries h; qh_now := now; qh_agingAlpha := qh_agingAlpha h |}.

Definition Reheapify (h : queueHeap) : queueHeap := set_entries (heap_Init (h_less h) (qh_entries h)) h.

(** ** Supply and demand *)

Record SupplySnapshot := {
  ss_ComputedAt : Z; ss_TotalHeadroom : spec_float; ss_PerModel : gmap string spec_float;
  ss_ContributingSeeders : Z; ss_SilentSeeders : Z; ss_Pressure : spec_float; ss_RecentRejectRate : spec_float
}.

Definition emptySupplySnapshot : SupplySnapshot := {|
  ss_ComputedAt := zeroTime; ss_TotalHeadroom := f64_zero; ss_PerModel := ∅; ss_ContributingSeeders := 0;
  ss_SilentSeeders := 0; ss_Pressure := f64_zero; ss_RecentRejectRate := f64_zero |}.

Record demandTracker := { dt_rateEWMA : spec_float; dt_lastTick : Z }.

Definition record (now : Z) (d : demandTracker) : demandTracker :=
  {| dt_rateEWMA := f64_add (dt_rateEWMA d) f64_one; dt_lastTick := now |}.

(** The fields of [Subsystem] used here. *)
Record AdmState := { as_queue : queueHeap; as_supply : option SupplySnapshot; as_demand : demandTracker }.

Definition newAdmState (agingAlpha : spec_float) : AdmState := {|
  as_queue := newQueueHeap zeroTime agingAlpha; as_supply := None;
  as_demand := {| dt_rateEWMA := f64_zero; dt_lastTick := zeroTime |} |}.

Definition set_queue (q : queueHeap) (s : AdmState) : AdmState :=
  {| as_queue := q; as_supply := as_supply s; as_demand := as_demand s |}.

Definition set_demand (d : demandTracker) (s : AdmState) : AdmState :=
  {| as_queue := as_queue s; as_supply := as_supply s; as_demand := d |}.

Definition Supply (s : AdmState) : SupplySnapshot := default emptySupplySnapshot (as_supply s).

Definition publishSupply (snap : SupplySnapshot) (s : AdmState) : AdmState :=
  {| as_queue := as_queue s; as_supply := Some snap; as_demand := as_demand s |}.

Definition PressureGauge (s : AdmState) : spec_float :=
  if ss_ComputedAt (Supply s) =? zeroTime then f64_zero else ss_Pressure (Supply s).

Definition recordDemandTick (now : Z) (s : AdmState) : AdmState := set_demand (record now (as_demand s)) s.

(** ** Decide *)

Inductive PositionBand :=
| PositionBandUnspecified | PositionBand1To10 | PositionBand11To50 | PositionBand51To200 | PositionBand200Plus.

Inductive EtaBand :=
| EtaBandUnspecified | EtaBandLessThan30s | EtaBand30sTo2m | EtaBand2mTo5m | EtaBand5mPlus.

Inductive RejectReason := RejectReasonUnspecified | RejectReasonRegionOverloaded | RejectReasonQueueTimeout.

(** The three shapes of a result; the score is [CreditUsed]. *)
Inductive DecideOutcome :=
| OutcomeAdmit
| OutcomeQueue (requestID : bytes) (pos : PositionBand) (eta : EtaBand)
| OutcomeReject (reason : RejectReason) (retryAfterS : Z).

Record DecideResult := { dr_Outcome : DecideOutcome; dr_CreditUsed : spec_float }.

Definition bandPosition (p : Z) : PositionBand :=
  if p <=? 0 then PositionBandUnspecified
  else if p <=? 10 then PositionBand1To10
  else if p <=? 50 then PositionBand11To50
  else if p <=? 200 then PositionBand51To200
  else PositionBand200Plus.

Definition bandEta (d : Z) : EtaBand :=
  if d <? 30 * Second then EtaBandLessThan30s
  else if d <=? 2 * 60 * Second then EtaBand30sTo2m
  else if d <=? 5 * 60 * Second then EtaBand2mTo5m
  else EtaBand5mPlus.

Definition Millisecond : Z := 1000000.

Definition estimateEta (pos : Z) : Z := i64 (pos * (200 * Millisecond)).

(** [jitter] is [r.Intn(30)]. *)
Definition computeRetryAfterS (queueSize avgServiceTime jitter : Z) : Z :=
  let drainS := Z.quot (i64 (queueSize * avgServiceTime)) Second in
  let v := 30 + jitter + drainS in
  let v := if v <? 60 then 60 else v in
  let v := if 600 <? v then 600 else v in
  u32 v.

(** [id[:]] of [rand.Read], or of the clock when it fails. *)
Definition newRequestID (rnd : option bytes) (nanos : Z) : bytes :=
  match rnd with
  | Some id => id
  | None => PutUint64 (u64 nanos) ++ zero_bytes 8
  end.

Section decide.
Variable cfg : AdmissionConfig.

(** [score] is what [resolveCreditScore] found for the consumer. *)
Definition Decide (score : spec_float) (consumerID requestID : bytes) (jitter now : Z) (s : AdmState)
    : DecideResult * AdmState :=
  let s := recordDemandTick now s in
  let supply := Supply s in
  let reject (s : AdmState) :=
    ({| dr_Outcome := OutcomeReject RejectReasonRegionOverloaded
          (computeRetryAfterS (Len (as_queue s)) (200 * Millisecond) jitter);
        dr_CreditUsed := score |}, s) in
  if (ss_ComputedAt supply =? zeroTime) || SFltb (ss_Pressure supply) (ac_PressureAdmitThreshold cfg)
  then ({| dr_Outcome := OutcomeAdmit; dr_CreditUsed := score |}, s)
  else if SFltb (ss_Pressure supply) (ac_PressureRejectThreshold cfg) then
    if Len (as_queue s) <? ac_QueueCap cfg then
      let entry := {| qe_RequestID := requestID; qe_ConsumerID := consumerID;
                      qe_EnvelopeHash := zero_bytes 32; qe_CreditScore := score; qe_EnqueuedAt := now |} in
      let q := Push entry (AdvanceTime now (as_queue s)) in
      let pos := Len q in
      ({| dr_Outcome := OutcomeQueue requestID (bandPosition pos) (bandEta (estimateEta pos));
          dr_CreditUsed := score |}, set_queue q s)
    else reject s
  else reject s.

Definition PopReadyForBroker (now : Z) (minServePriority : spec_float) (s : AdmState)
    : option QueueEntry * AdmState :=
  let q := AdvanceTime now (as_queue s) in
  match Peek q with
  | None => (None, set_queue q s)
  | Some h =>
    if SFltb (EffectivePriority h now (ac_AgingAlphaPerMinute cfg)) minServePriority then (None, set_queue q s)
    else let '(e, q) := Pop q in (e, set_queue q s)
  end.

Definition QueueTimeout : Z := if ac_QueueTimeoutS cfg <=? 0 then 0 else i64 (ac_QueueTimeoutS cfg * Second).

(** ** The aggregator *)

Variable math_Exp : spec_float → spec_float.

Definition readAndDecay (now : Z) (d : demandTracker) : spec_float * demandTracker :=
  if dt_lastTick d =? zeroTime then (f64_zero, d) else
  let dt := Seconds (time_Sub now (dt_lastTick d)) in
  let dt := if SFltb dt f64_zero then f64_zero else dt in
  let rate := f64_mul (dt_rateEWMA d) (math_Exp (f64_div (f64_neg dt) (f64_of_int 5))) in
  (rate, {| dt_rateEWMA := rate; dt_lastTick := now |}).

Definition seederWeight (sr : SeederRecord) (now : Z) : spec_float :=
  let age := Seconds (time_Sub now (sr_LastHeartbeat sr)) in
  let age := if SFltb age f64_zero then f64_zero else age in
  let maxAge := f64_of_int (ac_HeartbeatFreshnessDecayMaxS cfg) in
  let freshness :=
    if SFleb age (f64_of_int 60) then f64_one
    else if SFleb maxAge age then f64_zero
    else f64_div (f64_sub maxAge age) (f64_sub maxAge (f64_of_int 60)) in
  f64_mul freshness (sr_ReputationScore sr).

(** [perModel[model] += contribution] *)
Definition add_model (c : spec_float) (m : gmap string spec_float) (model : string) : gmap string spec_float :=
  <[model := f64_add (default f64_zero (m !! model)) c]> m.

(** One turn of the loop: total, per model, contributing, silent. *)
Definition aggregate_one (now : Z) (acc : spec_float * gmap string spec_float * Z * Z) (sr : SeederRecord)
    : spec_float * gmap string spec_float * Z * Z :=
  let '(total, perModel, contributing, silent) := acc in
  let w := seederWeight sr now in
  if SFleb w f64_zero then (total, perModel, contributing, u32 (silent + 1)) else
  let contribution := f64_mul (sr_HeadroomEstimate sr) w in
  (f64_add total contribution, foldl (add_model contribution) perModel (cap_Models (sr_Capabilities sr)),
   u32 (contributing + 1), silent).

Definition runAggregatorOnce (reg : Registry) (now : Z) (s : AdmState) : AdmState :=
  let '(total, perModel, contributing, silent) :=
    foldl (aggregate_one now) (f64_zero, ∅, 0, 0) (Snapshot reg) in
  let '(demand, d) := readAndDecay now (as_demand s) in
  let pressure := if SFltb f64_zero total then f64_div demand total else f64_zero in
  publishSupply {| ss_ComputedAt := now; ss_TotalHeadroom := total; ss_PerModel := perModel;
                   ss_ContributingSeeders := contributing; ss_SilentSeeders := silent;
                   ss_Pressure := pressure; ss_RecentRejectRate := f64_zero |} (set_demand d s).

(** ** The operator's handlers of the queue *)

Fixpoint drain (n : nat) (q : queueHeap) : list QueueEntry * queueHeap :=
  match n with
  | O => ([], q)
  | S n' =>
    match Pop q with
    | (None, q) => ([], q)
    | (Some e, q) => let '(out, q) := drain n' q in (e :: out, q)
    end
  end.

(** The entries popped, highest first; the handler returns their consumers. [None] is the
    panic of [make] on a negative capacity. *)
Definition drainTopN (n : Z) (q : queueHeap) : option (list QueueEntry * queueHeap) :=
  if n <? 0 then None else Some (drain (Z.to_nat n) q).

(** [hex.EncodeToString] *)
Definition hex_digit (n : Z) : ascii :=
  default Ascii.zero (String.get (Z.to_nat n) "0123456789abcdef").

Fixpoint hex_EncodeToString (b : bytes) : string :=
  match b with
  | [] => ""
  | x :: b' =>
      String (hex_digit (Z_of_byte x / 16)) (String (hex_digit (Z_of_byte x mod 16)) (hex_EncodeToString b'))
  end.

Definition ejectQueue (reqID : string) (q : queueHeap) : Z * queueHeap :=
  let keep := List.filter (λ e, negb (bool_decide (hex_EncodeToString (qe_RequestID e) = reqID))) (qh_entries q) in
  (Len q - blen keep, Reheapify (set_entries keep q)).
End decide.

(** ** The queue of a run *)

Lemma Push_perm e q : qh_entries (Push e q) ≡ₚ e :: qh_entries q.
Proof. apply heap_Push_perm. Qed.

Lemma Reheapify_perm q : qh_entries (Reheapify q) ≡ₚ qh_entries q.
Proof. apply heap_Init_perm. Qed.

Lemma heap_Pop_perm (less : QueueEntry → QueueEntry → bool) l :
  l ≠ [] → ∃ x rest, heap_Pop less l = Some (x, rest) ∧ l ≡ₚ x :: rest.
Proof.
  intros Hne. unfold heap_Pop. set (n := (length l - 1)%nat). set (d := down _ _ _ _ _).
  assert (d ≡ₚ l) as Hd by (unfold d; by rewrite down_perm, swap_perm).
  pose proof (Permutation_length Hd) as Hl.
  destruct (last d) as [x|] eqn:E; [|apply last_None in E; rewrite E in Hl; by destruct l].
  exists x, (take n d). split; [done|]. apply last_Some in E as [l' El].
  assert (n = length l') as Hn by (rewrite El, length_app in Hl; cbn in Hl; lia).
  rewrite <- Hd, El, Hn, take_app_length. symmetry. apply Permutation_cons_append.
Qed.

Lemma Pop_perm q e q' : Pop q = (Some e, q') → qh_entries q ≡ₚ e :: qh_entries q'.
Proof.
  unfold Pop. destruct (qh_entries q) as [|y l] eqn:E; [done|].
  destruct (heap_Pop_perm (h_less q) (y :: l)) as (x & rest & -> & Hp); [done|]. intros [= <- <-]. done.
Qed.

Lemma Pop_None q q' : Pop q = (None, q') → qh_entries q = [] ∧ q' = q.
Proof.
  unfold Pop. destruct (qh_entries q) as [|y l] eqn:E; [by intros [= <-]|].
  destruct (heap_Pop_perm (h_less q) (y :: l)) as (x & rest & -> & Hp); [done|]. done.
Qed.

Lemma drain_perm n q out q' : drain n q = (out, q') → qh_entries q ≡ₚ out ++ qh_entries q'.
Proof.
  revert q out. induction n as [|n IH]; intros q out H; cbn in H; [by simplify_eq|].
  destruct (Pop q) as [[e|] q1] eqn:Hp.
  - destruct (drain n q1) as [out1 q2] eqn:Hd. simplify_eq. rewrite (Pop_perm _ _ _ Hp). cbn.
    by rewrite (IH _ _ Hd).
  - apply Pop_None in Hp as [Hq ->]. by simplify_eq.
Qed.

Lemma filter_perm {A} (f : A → bool) (l : list A) : l ≡ₚ List.filter f l ++ List.filter (λ x, negb (f x)) l.
Proof.
  induction l as [|x l IH]; [done|]. cbn. destruct (f x); cbn; [by rewrite <- IH|].
  rewrite <- Permutation_middle. by rewrite <- IH.
Qed.

(** The calls that touch the queue, with what they take out of it. *)
Inductive queue_op :=
| OpDecide (score : spec_float) (consumerID requestID : bytes) (jitter now : Z)
| OpPopReady (now : Z) (minServePriority : spec_float)
| OpDrain (n : Z)
| OpEject (reqID : string)
| OpSupply (snap : SupplySnapshot).

Section runs.
Variable cfg : AdmissionConfig.

(** One call: the entries it queued, those it took out, and the state. *)
Definition queue_step (op : queue_op) (s : AdmState) : list QueueEntry * list QueueEntry * AdmState :=
  match op with
  | OpDecide score c r jitter now =>
      let '(res, s') := Decide cfg score c r jitter now s in
      (match dr_Outcome res with
       | OutcomeQueue _ _ _ => [ {| qe_RequestID := r; qe_ConsumerID := c; qe_EnvelopeHash := zero_bytes 32;
                                    qe_CreditScore := score; qe_EnqueuedAt := now |} ]
       | _ => [] end, [], s')
  | OpPopReady now p => let '(e, s') := PopReadyForBroker cfg now p s in ([], option_list e, s')
  | OpDrain n =>
      match drainTopN n (as_queue s) with
      | Some (out, q) => ([], out, set_queue q s)
      | None => ([], [], s)
      end
  | OpEject r =>
      let '(_, q) := ejectQueue r (as_queue s) in
      ([], List.filter (λ e, bool_decide (hex_EncodeToString (qe_RequestID e) = r)) (qh_entries (as_queue s)),
       set_queue q s)
  | OpSupply snap => ([], [], publishSupply snap s)
  end.

Definition queue_run (ops : list queue_op) (s : AdmState) : list QueueEntry * list QueueEntry * AdmState :=
  foldl (λ acc op, let '(i, o, s') := queue_step op acc.2 in (acc.1.1 ++ i, acc.1.2 ++ o, s')) ([], [], s) ops.

Lemma Decide_queue score c r jitter now s res s' :
  Decide cfg score c r jitter now s = (res, s') →
  match dr_Outcome res with
  | OutcomeQueue _ _ _ =>
      Len (as_queue s) < ac_QueueCap cfg ∧
      qh_entries (as_queue s') ≡ₚ {| qe_RequestID := r; qe_ConsumerID := c; qe_EnvelopeHash := zero_bytes 32;
                                     qe_CreditScore := score; qe_EnqueuedAt := now |} :: qh_entries (as_queue s)
  | _ => as_queue s' = as_queue s
  end.
Proof.
  unfold Decide. intros H. go_inv H; try done. split; [by apply Z.ltb_lt|]. apply (Push_perm _ (AdvanceTime now (as_queue s))).
Qed.

Lemma PopReady_queue now p s e s' :
  PopReadyForBroker cfg now p s = (e, s') →
  qh_entries (as_queue s) ≡ₚ option_list e ++ qh_entries (as_queue s').
Proof.
  unfold PopReadyForBroker. destruct (Peek _) as [h|] eqn:Hp; [|by intros [= <- <-]].
  destruct (SFltb _ _); [by intros [= <- <-]|].
  destruct (Pop (AdvanceTime now (as_queue s))) as [[e'|] q] eqn:Hpop; intros [= <- <-]; cbn.
  - by apply Pop_perm in Hpop.
  - apply Pop_None in Hpop as [_ ->]. done.
Qed.

Lemma queue_step_spec op s i o s' :
  queue_step op s = (i, o, s') → Len (as_queue s) <= Z.max 0 (ac_QueueCap cfg) →
  i ++ qh_entries (as_queue s) ≡ₚ o ++ qh_entries (as_queue s') ∧ Len (as_queue s') <= Z.max 0 (ac_QueueCap cfg).
Proof.
  intros H Hcap.
  assert (∀ o q, qh_entries (as_queue s) ≡ₚ o ++ qh_entries q → Len q <= Z.max 0 (ac_QueueCap cfg)) as Hle.
  { intros o' q Hp. apply Permutation_length in Hp. rewrite length_app in Hp. unfold Len, blen in *. lia. }
  destruct op as [score c r jitter now|now p|n|r|snap]; cbn in H.
  - destruct (Decide cfg score c r jitter now s) as [res s1] eqn:Hd. apply Decide_queue in Hd.
    destruct (dr_Outcome res); simplify_eq; try (rewrite Hd; done).
    destruct Hd as [Hlt Hp]. cbn. rewrite <- Hp. split; [done|].
    apply Permutation_length in Hp. unfold Len, blen in *. cbn in Hp. lia.
  - destruct (PopReadyForBroker cfg now p s) as [e s1] eqn:Hd. simplify_eq. apply PopReady_queue in Hd.
    cbn. split; [done|by eapply Hle].
  - unfold drainTopN in H. destruct (n <? 0); [by simplify_eq|].
    destruct (drain (Z.to_nat n) (as_queue s)) as [out q] eqn:Hd. simplify_eq. apply drain_perm in Hd.
    cbn. split; [done|by eapply Hle].
  - simplify_eq. cbn [set_queue as_queue app].
    assert (qh_entries (as_queue s) ≡ₚ
      List.filter (λ e, bool_decide (hex_EncodeToString (qe_RequestID e) = r)) (qh_entries (as_queue s))
      ++ qh_entries (ejectQueue r (as_queue s)).2) as Hp.
    { cbn [ejectQueue snd]. rewrite Reheapify_perm. apply filter_perm. }
    split; [done|by eapply Hle].
  - by simplify_eq.
Qed.

(** The admission queue is bounded and loses nothing. From an empty queue, whatever
    decisions, pops, drains and ejections run, in any order and at any times, the queue never
    holds more than its capacity, and the requests it was given are exactly those it
    still holds and those it handed out or an operator removed, each once. *)
Lemma admission_queue_accounted alpha ops pushed taken s :
  queue_run ops (newAdmState alpha) = (pushed, taken, s) →
  pushed ≡ₚ taken ++ qh_entries (as_queue s) ∧ Len (as_queue s) <= Z.max 0 (ac_QueueCap cfg).
Proof.
  revert pushed taken s. induction ops as [|op ops IH] using rev_ind; intros pushed taken s H.
  { cbn in H. simplify_eq. unfold Len, blen. cbn. split; [done|lia]. }
  unfold queue_run in H. rewrite foldl_app in H. cbn [foldl] in H. fold (queue_run ops (newAdmState alpha)) in H.
  destruct (queue_run ops (newAdmState alpha)) as [[pushed0 taken0] s0] eqn:H0. cbn [fst snd] in H.
  destruct (queue_step op s0) as [[i o] s1] eqn:Hs. simplify_eq.
  destruct (IH _ _ _ eq_refl) as [Hp Hc]. destruct (queue_step_spec _ _ _ _ _ Hs Hc) as [Hp' Hc'].
  split; [|done]. rewrite Hp, <- !app_assoc. rewrite <- Hp'. f_equiv. apply Permutation_app_comm.
Qed.
End runs.

Definition w_decide_cfg : AdmissionConfig := {|
  ac_PressureAdmitThreshold := f64_of_int 1; ac_PressureRejectThreshold := f64_of_int 2; ac_QueueCap := 2;
  ac_TrialTierScore := f64_zero; ac_AgingAlphaPerMinute := f64_of_int 1; ac_QueueTimeoutS := 30;
  ac_ScoreWeights := {| aw_SettlementReliability := f64_one; aw_InverseDisputeRate := f64_zero;
    aw_Tenure := f64_zero; aw_NetCreditFlow := f64_zero; aw_BalanceCushion := f64_zero |};
  ac_NetFlowNormalizationConstant := 1; ac_TenureCapDays := 30; ac_StarterGrantCredits := 1000;
  ac_RollingWindowDays := 30; ac_AttestationTTLSeconds := 3600; ac_AttestationIssuancePerConsumerPerHour := 6;
  ac_MaxAttestationScoreImported := f64_of_int 1; ac_SnapshotsRetained := 3; ac_HeartbeatFreshnessDecayMaxS := 300 |}.

Definition w_supply : SupplySnapshot := {|
  ss_ComputedAt := 1; ss_TotalHeadroom := f64_one; ss_PerModel := ∅; ss_ContributingSeeders := 1;
  ss_SilentSeeders := 0; ss_Pressure := f64_of_int 1; ss_RecentRejectRate := f64_zero |}.

Definition w_queue_ops : list queue_op := [
  OpSupply w_supply; OpDecide f64_zero [Byte.x01] [Byte.x01] 5 Second; OpDecide f64_one [Byte.x02] [Byte.x02] 5 Second;
  OpDecide f64_one [Byte.x03] [Byte.x03] 5 Second; OpPopReady (2 * Second) f64_zero; OpEject "01"; OpDrain 4 ].

Definition w_queue_run := queue_run w_decide_cfg w_queue_ops (newAdmState (f64_of_int 1)).

Lemma admission_queue_accounted_witness :
  qe_RequestID <$> w_queue_run.1.2 = [[Byte.x02]; [Byte.x01]] ∧
  w_queue_run.1.1 ≡ₚ w_queue_run.1.2 ++ qh_entries (as_queue w_queue_run.2) ∧
  Len (as_queue w_queue_run.2) <= 2.
Proof.
  split; [vm_compute; reflexivity|].
  apply (admission_queue_accounted w_decide_cfg (f64_of_int 1) w_queue_ops).
  unfold w_queue_run. by destruct (queue_run _ _ _) as [[??]?].
Defined.

(** ** The outcomes of a decision *)

Lemma computeRetryAfterS_range size avg jitter : 60 <= computeRetryAfterS size avg jitter <= 600.
Proof.
  unfold computeRetryAfterS. set (v := 30 + jitter + _).
  destruct (v <? 60) eqn:E1; [cbn; vm_compute; split; discriminate|]. apply Z.ltb_ge in E1.
  destruct (600 <? v) eqn:E2; [vm_compute; split; discriminate|]. apply Z.ltb_ge in E2.
  unfold u32. rewrite Z.mod_small; lia.
Qed.

(** [Decide] follows its table, on every branch. It admits exactly when there is no supply
    figure yet or the pressure is below the admit threshold; otherwise it queues exactly when
    the pressure is below the reject threshold and the queue has room, reporting the new
    length's band; otherwise it rejects, with a delay between one and ten minutes. The queue
    changes only when the answer is to wait; demand is counted each time. *)
Lemma Decide_outcomes cfg score consumerID requestID jitter now s res s' :
  Decide cfg score consumerID requestID jitter now s = (res, s') →
  let supply := Supply s in
  let admits := (ss_ComputedAt supply =? zeroTime) || SFltb (ss_Pressure supply) (ac_PressureAdmitThreshold cfg) in
  let room := SFltb (ss_Pressure supply) (ac_PressureRejectThreshold cfg) && (Len (as_queue s) <? ac_QueueCap cfg) in
  dr_CreditUsed res = score ∧ as_supply s' = as_supply s ∧ as_demand s' = record now (as_demand s) ∧
  match dr_Outcome res with
  | OutcomeAdmit => admits = true ∧ as_queue s' = as_queue s
  | OutcomeQueue r pos eta =>
      admits = false ∧ room = true ∧ r = requestID
      ∧ Len (as_queue s') = Len (as_queue s) + 1
      ∧ pos = bandPosition (Len (as_queue s')) ∧ eta = bandEta (estimateEta (Len (as_queue s')))
  | OutcomeReject reason retry =>
      admits = false ∧ room = false ∧ reason = RejectReasonRegionOverloaded ∧ 60 <= retry <= 600
      ∧ as_queue s' = as_queue s
  end.
Proof.
  unfold Decide. cbn zeta. change (Supply (recordDemandTick now s)) with (Supply s).
  change (as_queue (recordDemandTick now s)) with (as_queue s).
  destruct (_ || _) eqn:Ea.
  { intros [= <- <-]. done. }
  destruct (SFltb (ss_Pressure (Supply s)) (ac_PressureRejectThreshold cfg)) eqn:Er; cbn [andb].
  2: { intros [= <- <-]. cbn [dr_Outcome]. by split_and!; try apply computeRetryAfterS_range. }
  destruct (Len (as_queue s) <? ac_QueueCap cfg) eqn:Ec.
  2: { intros [= <- <-]. cbn [dr_Outcome]. by split_and!; try apply computeRetryAfterS_range. }
  intros [= <- <-]. cbn [dr_Outcome]. split_and!; try done. unfold Len, blen.
  cbn [set_queue as_queue]. rewrite (Permutation_length (Push_perm _ _)). cbn [length AdvanceTime qh_entries]. lia.
Qed.

Lemma Decide_outcomes_witness :
  let s := publishSupply w_supply (newAdmState f64_one) in
  let r := Decide w_decide_cfg f64_one [Byte.x01] [Byte.x02] 7 Second s in
  dr_Outcome r.1 = OutcomeQueue [Byte.x02] PositionBand1To10 EtaBandLessThan30s
  ∧ as_demand r.2 = record Second (as_demand s).
Proof.
  cbn zeta. split; [vm_compute; reflexivity|].
  exact (proj1 (proj2 (proj2 (Decide_outcomes w_decide_cfg f64_one [Byte.x01] [Byte.x02] 7 Second
    (publishSupply w_supply (newAdmState f64_one)) _ _
    (surjective_pairing (Decide w_decide_cfg f64_one [Byte.x01] [Byte.x02] 7 Second
      (publishSupply w_supply (newAdmState f64_one)))))))).
Defined.

(** ** Which entry is served *)

(** At this time the entry's priority is a number. *)
Definition ranked (now : Z) (alpha : spec_float) (e : QueueEntry) : Prop :=
  is_NaN (EffectivePriority e now alpha) = false.

Lemma Less_asym now alpha x y :
  ranked now alpha x → ranked now alpha y → Less now alpha x y = true → Less now alpha y x = false.
Proof. intros. by apply SFltb_asym. Qed.

Lemma Less_ntrans now alpha x y z :
  ranked now alpha x → ranked now alpha y → ranked now alpha z →
  Less now alpha x y = false → Less now alpha y z = false → Less now alpha x z = false.
Proof. intros ??? H1 H2. by apply (SFltb_ntrans _ (EffectivePriority y now alpha)). Qed.

Lemma Reheapify_heap q :
  Forall (ranked (qh_now q) (qh_agingAlpha q)) (qh_entries q) →
  heap (h_less q) (qh_entries (Reheapify q)).
Proof. intros Hr. apply (heap_Init_heap _ (ranked (qh_now q) (qh_agingAlpha q))); eauto using Less_asym, Less_ntrans. Qed.

Lemma Push_heap e q :
  Forall (ranked (qh_now q) (qh_agingAlpha q)) (qh_entries q) → ranked (qh_now q) (qh_agingAlpha q) e →
  heap (h_less q) (qh_entries q) → heap (h_less q) (qh_entries (Push e q)).
Proof. intros Hr He. apply (heap_Push_heap _ (ranked (qh_now q) (qh_agingAlpha q))); eauto using Less_asym, Less_ntrans. Qed.

(** The broker is handed the best waiting request. When the queue is a heap for the
    priorities at [now], as pushing and [Reheapify] leave it, the entry popped has a
    priority at least the minimum and at least every other entry's, it leaves the queue and
    nothing else does, and what remains is a heap; and when nothing is popped, every entry is
    below the minimum. *)
Lemma PopReadyForBroker_best cfg now minServePriority s e s' :
  PopReadyForBroker cfg now minServePriority s = (e, s') →
  qh_agingAlpha (as_queue s) = ac_AgingAlphaPerMinute cfg → is_NaN minServePriority = false →
  Forall (ranked now (ac_AgingAlphaPerMinute cfg)) (qh_entries (as_queue s)) →
  heap (Less now (ac_AgingAlphaPerMinute cfg)) (qh_entries (as_queue s)) →
  let priority x := EffectivePriority x now (ac_AgingAlphaPerMinute cfg) in
  match e with
  | Some e =>
      SFltb (priority e) minServePriority = false
      ∧ (∀ x, x ∈ qh_entries (as_queue s) → SFltb (priority e) (priority x) = false)
      ∧ qh_entries (as_queue s) ≡ₚ e :: qh_entries (as_queue s')
      ∧ heap (Less now (ac_AgingAlphaPerMinute cfg)) (qh_entries (as_queue s'))
  | None =>
      qh_entries (as_queue s') = qh_entries (as_queue s)
      ∧ ∀ x, x ∈ qh_entries (as_queue s) → SFltb (priority x) minServePriority = true
  end.
Proof.
  set (alpha := ac_AgingAlphaPerMinute cfg). intros H Ha Hmin Hr Hh. cbn zeta.
  unfold PopReadyForBroker, Peek, Pop in H. cbn [AdvanceTime qh_entries] in H. fold alpha in H.
  unfold h_less in H. cbn [AdvanceTime qh_now qh_agingAlpha] in H. rewrite Ha in H. fold alpha in H.
  destruct (qh_entries (as_queue s)) as [|y l] eqn:Hes; cbn [head] in H.
  { injection H as <- <-. split; [by cbn; rewrite ?Hes|]. intros x Hx. by apply not_elem_of_nil in Hx. }
  destruct (heap_Pop_spec (Less now alpha) (ranked now alpha) (Less_asym now alpha) (Less_ntrans now alpha)
              (y :: l) Hr Hh) as (x & rest & Hpop & Hperm & Hrest & Hroot & Hbest); [done|].
  cbn in Hroot. injection Hroot as <-.
  assert (∀ x, x ∈ y :: l → SFltb (EffectivePriority y now alpha) (EffectivePriority x now alpha) = false) as Htop
    by (intros x Hx; by apply Hbest).
  destruct (SFltb (EffectivePriority y now alpha) minServePriority) eqn:Em.
  - injection H as <- <-. cbn. split; [done|]. intros x Hx. rewrite Forall_forall in Hr.
    apply (SFltb_below (EffectivePriority y now alpha)); auto; apply Hr; [by left|done].
  - rewrite Hpop in H. injection H as <- <-. cbn. done.
Qed.

Definition w_wait (score : spec_float) (r : byte) : QueueEntry := {|
  qe_RequestID := [r]; qe_ConsumerID := [r]; qe_EnvelopeHash := []; qe_CreditScore := score; qe_EnqueuedAt := 0 |}.

Definition w_waiting : AdmState :=
  set_queue (Push (w_wait f64_one Byte.x02) (Push (w_wait f64_zero Byte.x01) (newQueueHeap Second (f64_of_int 1))))
    (newAdmState (f64_of_int 1)).

Lemma PopReadyForBroker_best_witness :
  let alpha := ac_AgingAlphaPerMinute w_decide_cfg in
  (PopReadyForBroker w_decide_cfg Second f64_zero w_waiting).1 = Some (w_wait f64_one Byte.x02) ∧
  ∀ x, x ∈ qh_entries (as_queue w_waiting) →
    SFltb (EffectivePriority (w_wait f64_one Byte.x02) Second alpha) (EffectivePriority x Second alpha) = false.
Proof.
  cbn zeta.
  assert (PopReadyForBroker w_decide_cfg Second f64_zero w_waiting
          = (Some (w_wait f64_one Byte.x02), (PopReadyForBroker w_decide_cfg Second f64_zero w_waiting).2)) as E
    by (vm_compute; reflexivity).
  split; [by rewrite E|].
  assert (Forall (ranked Second (ac_AgingAlphaPerMinute w_decide_cfg)) (qh_entries (as_queue w_waiting))) as Hr.
  { replace (qh_entries (as_queue w_waiting)) with [w_wait f64_one Byte.x02; w_wait f64_zero Byte.x01]
      by (vm_compute; reflexivity).
    repeat (apply List.Forall_cons; [vm_compute; reflexivity|]). apply List.Forall_nil. }
  assert (heap (Less Second (ac_AgingAlphaPerMinute w_decide_cfg)) (qh_entries (as_queue w_waiting))) as Hh.
  { replace (qh_entries (as_queue w_waiting)) with [w_wait f64_one Byte.x02; w_wait f64_zero Byte.x01]
      by (vm_compute; reflexivity).
    intros c Hc _ x y. destruct c as [|[|c]]; [lia| |cbn in Hc; lia].
    intros [= <-] [= <-]. vm_compute. reflexivity. }
  exact (proj1 (proj2 (PopReadyForBroker_best w_decide_cfg Second f64_zero w_waiting _ _ E eq_refl eq_refl Hr Hh))).
Defined.
