(* ===== verification/Replay.v ===== *)
(** tracker/internal/admission: how admission's credit state survives a restart. events.go
    (log first, then apply), snapshot.go (the snapshot files), replay.go (start-up) and
    operator_override.go.

    The directory is part of the state: the log's files are the writer's (TLog.v), snapshot
    files are kept by the number in their name. Which calls of [os] fail is an argument. *)
From S2P Require Import Prelude Proto Float Signing Credit TLog.

(** ** Little-endian fields *)

Definition le_bytes (n : nat) (v : Z) : bytes := reverse (be_bytes n v).
Definition le_val (b : bytes) : Z := be_val (reverse b).

(** [uint64(t.Unix())] and [time.Unix(int64(v), 0)] *)
Definition le_time (t : Z) : bytes := le_bytes 8 (u64 (Unix t)).
Definition le_time_val (b : bytes) : Z := time_Unix (i64 (le_val b)).

(** ** Snapshot files *)

Definition snapshotMagic : Z := 1094995283.
Definition snapshotFormatVersion : Z := 1.

Record Snapshot := {
  sn_Seq : Z; sn_Ts : Z; sn_Consumers : gmap bytes ConsumerCreditState; sn_Seeders : gmap bytes SeederHeartbeatState
}.

Definition encodeDayBucket (b : DayBucket) : bytes :=
  le_bytes 4 (db_Total b) ++ le_bytes 4 (db_A b) ++ le_bytes 4 (db_B b) ++ le_time (db_DayStamp b).

Definition bucket_at (bs : list DayBucket) (i : nat) : DayBucket := default zeroBucket (bs !! i).

Definition encodeConsumerState (id : bytes) (st : ConsumerCreditState) : bytes :=
  id ++ le_time (cs_FirstSeenAt st) ++ le_bytes 8 (u64 (cs_LastBalanceSeen st))
  ++ (seq 0 30 ≫= λ i, encodeDayBucket (bucket_at (cs_SettlementBuckets st) i)
                       ++ encodeDayBucket (bucket_at (cs_DisputeBuckets st) i)
                       ++ encodeDayBucket (bucket_at (cs_FlowBuckets st) i)).

Definition minute_at (bs : list MinuteBucket) (i : nat) : MinuteBucket :=
  default {| mb_Expected := 0; mb_Actual := 0 |} (bs !! i).

Definition encodeSeederState (id : bytes) (st : SeederHeartbeatState) : bytes :=
  id ++ (seq 0 10 ≫= λ i, le_bytes 4 (mb_Expected (minute_at (hs_Buckets st) i))
                          ++ le_bytes 4 (mb_Actual (minute_at (hs_Buckets st) i)))
  ++ le_time (hs_LastBucketRollAt st) ++ le_bytes 4 (hs_LastHeadroomEstimate st)
  ++ [byte_of_Z (hs_LastHeadroomSource st)] ++ le_time (hs_LastHeadroomTs st)
  ++ [if hs_CanProbeUsage st then Byte.x01 else Byte.x00].

(** The maps in the order the encoder iterates them. *)
Definition encodeSnapshotBody (seq ts : Z) (consumers : list (bytes * ConsumerCreditState))
    (seeders : list (bytes * SeederHeartbeatState)) : bytes :=
  le_bytes 4 snapshotMagic ++ le_bytes 4 snapshotFormatVersion ++ le_bytes 8 seq ++ le_time ts
  ++ le_bytes 4 (u32 (blen consumers)) ++ (consumers ≫= λ c, encodeConsumerState c.1 c.2)
  ++ le_bytes 4 (u32 (blen seeders)) ++ (seeders ≫= λ c, encodeSeederState c.1 c.2).

Definition snapshotFile (seq ts : Z) (consumers : gmap bytes ConsumerCreditState)
    (seeders : gmap bytes SeederHeartbeatState) : bytes :=
  let body := encodeSnapshotBody seq ts (map_to_list consumers) (map_to_list seeders) in
  body ++ le_bytes 4 (crc32c body).

(** [SnapPanic]: a slice expression out of range. *)
Inductive SnapErr := SnapShort | SnapMagic | SnapVersion | SnapCRC | SnapState | SnapPanic | SnapIOErr | SnapNoneUsable.

Definition decodeDayBucket (buf : bytes) : DayBucket := {|
  db_Total := le_val (slice buf 0 4); db_A := le_val (slice buf 4 8); db_B := le_val (slice buf 8 12);
  db_DayStamp := le_time_val (slice buf 12 20) |}.

Definition consumerStateSize : nat := 32 + 8 + 8 + 30 * 3 * (4 + 4 + 4 + 8).
Definition seederStateSize : nat := 32 + 10 * 8 + 8 + 4 + 1 + 8 + 1.

Definition decodeConsumerState (buf : bytes) : res SnapErr (bytes * ConsumerCreditState) :=
  if (length buf <? consumerStateSize)%nat then Err SnapState else
  let bucket (off i : nat) := decodeDayBucket (slice buf (48 + 60 * i + off) (48 + 60 * i + off + 20)) in
  Ok (slice buf 0 32, {|
    cs_FirstSeenAt := le_time_val (slice buf 32 40);
    cs_SettlementBuckets := bucket 0%nat <$> seq 0 30;
    cs_DisputeBuckets := bucket 20%nat <$> seq 0 30;
    cs_FlowBuckets := bucket 40%nat <$> seq 0 30;
    cs_LastBalanceSeen := i64 (le_val (slice buf 40 48)) |}).

Definition decodeSeederState (buf : bytes) : res SnapErr (bytes * SeederHeartbeatState) :=
  if (length buf <? seederStateSize)%nat then Err SnapState else
  Ok (slice buf 0 32, {|
    hs_Buckets := (λ i, {| mb_Expected := le_val (slice buf (32 + 8 * i) (32 + 8 * i + 4));
                           mb_Actual := le_val (slice buf (32 + 8 * i + 4) (32 + 8 * i + 8)) |}) <$> seq 0 10;
    hs_LastBucketRollAt := le_time_val (slice buf 112 120);
    hs_LastHeadroomEstimate := le_val (slice buf 120 124);
    hs_LastHeadroomSource := be_val (slice buf 124 125);
    hs_LastHeadroomTs := le_time_val (slice buf 125 133);
    hs_CanProbeUsage := negb (be_val (slice buf 133 134) =? 0) |}).

(** [n] states of a fixed size, put in a map; the rest of the buffer. *)
Fixpoint decodeStates {V} (dec : bytes → res SnapErr (bytes * V)) (size n : nat) (buf : bytes) (m : gmap bytes V)
    : res SnapErr (gmap bytes V * bytes) :=
  match n with
  | O => Ok (m, buf)
  | S n' =>
    match dec buf with
    | Err e => Err e
    | Ok (id, st) => decodeStates dec size n' (drop size buf) (<[id := st]> m)
    end
  end.

Definition readSnapshot (data : bytes) : res SnapErr Snapshot :=
  if (length data <? 24 + 4)%nat then Err SnapShort
  else if negb (le_val (slice data 0 4) =? snapshotMagic) then Err SnapMagic
  else if negb (le_val (slice data 4 8) =? snapshotFormatVersion) then Err SnapVersion else
  let bodyEnd := (length data - 4)%nat in
  if negb (crc32c (take bodyEnd data) =? le_val (drop bodyEnd data)) then Err SnapCRC else
  let consumerCount := Z.to_nat (le_val (slice data 24 28)) in
  match decodeStates decodeConsumerState consumerStateSize consumerCount (drop 28 data) ∅ with
  | Err e => Err e
  | Ok (consumers, rest) =>
    if (length rest <? 4)%nat then Err SnapPanic else
    let seederCount := Z.to_nat (le_val (slice rest 0 4)) in
    match decodeStates decodeSeederState seederStateSize seederCount (drop 4 rest) ∅ with
    | Err e => Err e
    | Ok (seeders, _) =>
      Ok {| sn_Seq := le_val (slice data 8 16); sn_Ts := le_time_val (slice data 16 24);
            sn_Consumers := consumers; sn_Seeders := seeders |}
    end
  end.

(** ** The subsystem *)

Record PState := {
  p_consumers : consumerShards; p_seeders : list (gmap bytes SeederHeartbeatState);
  p_tlog : option tlogWriter; p_snapshots : gmap Z bytes; p_nextSeq : Z; p_replaying : bool;
  p_degraded : bool; p_snapshotLoadFailures : Z; p_tlogCorruptions : Z
}.

Definition set_consumers (ss : consumerShards) (s : PState) : PState := {|
  p_consumers := ss; p_seeders := p_seeders s; p_tlog := p_tlog s; p_snapshots := p_snapshots s;
  p_nextSeq := p_nextSeq s; p_replaying := p_replaying s; p_degraded := p_degraded s;
  p_snapshotLoadFailures := p_snapshotLoadFailures s; p_tlogCorruptions := p_tlogCorruptions s |}.

Definition set_seeders (ss : list (gmap bytes SeederHeartbeatState)) (s : PState) : PState := {|
  p_consumers := p_consumers s; p_seeders := ss; p_tlog := p_tlog s; p_snapshots := p_snapshots s;
  p_nextSeq := p_nextSeq s; p_replaying := p_replaying s; p_degraded := p_degraded s;
  p_snapshotLoadFailures := p_snapshotLoadFailures s; p_tlogCorruptions := p_tlogCorruptions s |}.

Definition set_tlog (w : tlogWriter) (s : PState) : PState := {|
  p_consumers := p_consumers s; p_seeders := p_seeders s; p_tlog := Some w; p_snapshots := p_snapshots s;
  p_nextSeq := p_nextSeq s; p_replaying := p_replaying s; p_degraded := p_degraded s;
  p_snapshotLoadFailures := p_snapshotLoadFailures s; p_tlogCorruptions := p_tlogCorruptions s |}.

Definition set_snapshots (m : gmap Z bytes) (s : PState) : PState := {|
  p_consumers := p_consumers s; p_seeders := p_seeders s; p_tlog := p_tlog s; p_snapshots := m;
  p_nextSeq := p_nextSeq s; p_replaying := p_replaying s; p_degraded := p_degraded s;
  p_snapshotLoadFailures := p_snapshotLoadFailures s; p_tlogCorruptions := p_tlogCorruptions s |}.

Definition set_nextSeq (n : Z) (s : PState) : PState := {|
  p_consumers := p_consumers s; p_seeders := p_seeders s; p_tlog := p_tlog s; p_snapshots := p_snapshots s;
  p_nextSeq := n; p_replaying := p_replaying s; p_degraded := p_degraded s;
  p_snapshotLoadFailures := p_snapshotLoadFailures s; p_tlogCorruptions := p_tlogCorruptions s |}.

Definition set_replaying (b : bool) (s : PState) : PState := {|
  p_consumers := p_consumers s; p_seeders := p_seeders s; p_tlog := p_tlog s; p_snapshots := p_snapshots s;
  p_nextSeq := p_nextSeq s; p_replaying := b; p_degraded := p_degraded s;
  p_snapshotLoadFailures := p_snapshotLoadFailures s; p_tlogCorruptions := p_tlogCorruptions s |}.

Definition set_degraded (s : PState) : PState := {|
  p_consumers := p_consumers s; p_seeders := p_seeders s; p_tlog := p_tlog s; p_snapshots := p_snapshots s;
  p_nextSeq := p_nextSeq s; p_replaying := p_replaying s; p_degraded := true;
  p_snapshotLoadFailures := p_snapshotLoadFailures s; p_tlogCorruptions := p_tlogCorruptions s |}.

Definition count_failures (n : Z) (s : PState) : PState := {|
  p_consumers := p_consumers s; p_seeders := p_seeders s; p_tlog := p_tlog s; p_snapshots := p_snapshots s;
  p_nextSeq := p_nextSeq s; p_replaying := p_replaying s; p_degraded := p_degraded s;
  p_snapshotLoadFailures := u64 (p_snapshotLoadFailures s + n); p_tlogCorruptions := p_tlogCorruptions s |}.

Definition count_corruption (s : PState) : PState := {|
  p_consumers := p_consumers s; p_seeders := p_seeders s; p_tlog := p_tlog s; p_snapshots := p_snapshots s;
  p_nextSeq := p_nextSeq s; p_replaying := p_replaying s; p_degraded := p_degraded s;
  p_snapshotLoadFailures := p_snapshotLoadFailures s; p_tlogCorruptions := u64 (p_tlogCorruptions s + 1) |}.

(** [Open], on the directory a previous run left. *)
Definition Open (numShards : Z) (tlog : option (bytes * gmap Z bytes)) (snapshots : gmap Z bytes) : PState := {|
  p_consumers := newShards numShards; p_seeders := newShards numShards;
  p_tlog := match tlog with Some (active, rotated) => Some (newTLogWriter active rotated) | None => None end;
  p_snapshots := snapshots; p_nextSeq := 0; p_replaying := false; p_degraded := false;
  p_snapshotLoadFailures := 0; p_tlogCorruptions := 0 |}.

(** ** Events *)

Definition tlogRotationBytes : Z := 2 ^ 30.

(** [s.tlog.Append], when there is a log. *)
Definition tlogAppend (io : TLogIO) (rec : TLogRecord) (s : PState) : option TLogErr * PState :=
  match p_tlog s with
  | None => (None, s)
  | Some w =>
    match Append tlogRotationBytes io rec w with
    | (Ok _, w) => (None, set_tlog w s)
    | (Err e, w) => (Some e, set_tlog w s)
    end
  end.

Definition persistEvent (io : TLogIO) (seq : Z) (kind : TLogKind) (payload : bytes) (ts : Z) (s : PState)
    : option TLogErr * PState :=
  if p_replaying s then (None, s)
  else tlogAppend io {| tl_Seq := seq; tl_Ts := u64 (Unix ts); tl_Kind := kind; tl_Payload := payload |} s.

(** The kind and payload of an event's record; nothing for the events that return before
    they are persisted. *)
Definition event_record (ev : LedgerEvent) : option (TLogKind * bytes) :=
  match le_Kind ev with
  | LedgerEventSettlement =>
      Some (TLogKindSettlement, marshalSettlementPayload {|
        sp_ConsumerID := le_ConsumerID ev; sp_SeederID := le_SeederID ev; sp_CostCredits := le_CostCredits ev;
        sp_Flags := le_Flags ev |})
  | LedgerEventTransferIn =>
      Some (TLogKindTransfer, marshalTransferPayload {|
        tf_ConsumerID := le_ConsumerID ev; tf_CostCredits := le_CostCredits ev; tf_Direction := TransferIn |})
  | LedgerEventTransferOut =>
      Some (TLogKindTransfer, marshalTransferPayload {|
        tf_ConsumerID := le_ConsumerID ev; tf_CostCredits := le_CostCredits ev; tf_Direction := TransferOut |})
  | LedgerEventStarterGrant =>
      Some (TLogKindStarterGrant, marshalStarterGrantPayload {|
        sg_ConsumerID := le_ConsumerID ev; sg_CostCredits := le_CostCredits ev |})
  | LedgerEventDisputeFiled =>
      Some (TLogKindDisputeFiled, marshalDisputePayload {| dp_ConsumerID := le_ConsumerID ev; dp_Upheld := false |})
  | LedgerEventDisputeResolved =>
      if negb (le_DisputeUpheld ev) then None else
      Some (TLogKindDisputeResolved, marshalDisputePayload {| dp_ConsumerID := le_ConsumerID ev; dp_Upheld := true |})
  | LedgerEventUnspecified => None
  end.

Definition OnLedgerEvent (io : TLogIO) (ev : LedgerEvent) (s : PState) : PState :=
  let seq := u64 (p_nextSeq s + 1) in
  let s := set_nextSeq seq s in
  match event_record ev with
  | None => s
  | Some (kind, payload) =>
    match persistEvent io seq kind payload (le_Timestamp ev) s with
    | (Some _, s) => s
    | (None, s) => set_consumers (apply_event ev (p_consumers s)) s
    end
  end.

(** An operator's action is logged with its own number. *)
Definition writeOperatorOverride (io : TLogIO) (operatorID action params : bytes) (now : Z) (s : PState)
    : option TLogErr * PState :=
  match p_tlog s with
  | None => (None, s)
  | Some _ =>
    let seq := u64 (p_nextSeq s + 1) in
    let p := {| oo_OperatorID := operatorID; oo_Action := action; oo_Params := params; oo_Ts := Unix now |} in
    tlogAppend io {| tl_Seq := seq; tl_Ts := u64 (Unix now); tl_Kind := TLogKindOperatorOverride;
                     tl_Payload := marshalOperatorOverridePayload p |} (set_nextSeq seq s)
  end.

(** ** Taking snapshots *)

Definition snapshotState (s : PState) : gmap bytes ConsumerCreditState * gmap bytes SeederHeartbeatState :=
  (foldr (∪) ∅ (p_consumers s), foldr (∪) ∅ (p_seeders s)).

(** [enumerateSnapshots]: the files in the order of their numbers. *)
Definition enumerateSnapshots (m : gmap Z bytes) : list (Z * bytes) := stable_sort key_ltb (map_to_list m).

Definition pruneSnapshots (retained : Z) (m : gmap Z bytes) : gmap Z bytes :=
  let files := enumerateSnapshots m in
  let keep := if retained <=? 0 then 3 else retained in
  if blen files <=? keep then m
  else foldl (λ m f, delete f.1 m) m (take (Z.to_nat (blen files - keep)) files).

Record SnapIO := { sio_write : bool; sio_readdir : bool }.

(** [path seq] is the name of the file. *)
Definition runSnapshotEmitOnce (retained : Z) (path : Z → bytes) (sio : SnapIO) (io : TLogIO) (ts : Z) (s : PState)
    : option SnapErr * PState :=
  let seq := match p_tlog s with Some w => LastSeq w | None => 0 end in
  let '(consumers, seeders) := snapshotState s in
  if sio_write sio then (Some SnapIOErr, s) else
  let s := set_snapshots (<[seq := snapshotFile seq ts consumers seeders]> (p_snapshots s)) s in
  if sio_readdir sio then (Some SnapIOErr, s) else
  let s := set_snapshots (pruneSnapshots retained (p_snapshots s)) s in
  let mark := {| sm_SnapshotSeq := seq; sm_Path := path seq |} in
  (None, (tlogAppend io {| tl_Seq := 0; tl_Ts := u64 (Unix ts); tl_Kind := TLogKindSnapshotMark;
                           tl_Payload := marshalSnapshotMarkPayload mark |} s).2).

(** ** Start-up *)

(** From the newest: the first file that loads, and how many did not. *)
Fixpoint newestUsable (files : list (Z * bytes)) : option Snapshot * Z :=
  match files with
  | [] => (None, 0)
  | f :: files' =>
    match readSnapshot f.2 with
    | Ok snap => (Some snap, 0)
    | Err _ => let '(r, n) := newestUsable files' in (r, n + 1)
    end
  end.

(** [None]: nothing to load; an error: files, but none usable. *)
Definition loadNewestUsableSnapshot (s : PState) : res SnapErr (option Snapshot) * PState :=
  match reverse (enumerateSnapshots (p_snapshots s)) with
  | [] => (Ok None, s)
  | files =>
    let '(r, n) := newestUsable files in
    (match r with Some snap => Ok (Some snap) | None => Err SnapNoneUsable end, count_failures n s)
  end.

Definition applySnapshot (now : Z) (snap : Snapshot) (s : PState) : PState :=
  let s := set_consumers (foldl (λ ss c, sh_change (newCredit now) (λ _, c.2) c.1 ss) (p_consumers s)
                            (map_to_list (sn_Consumers snap))) s in
  set_seeders (foldl (λ ss c, sh_change (newHeartbeat now) (λ _, c.2) c.1 ss) (p_seeders s)
                 (map_to_list (sn_Seeders snap))) s.

(** The event a record is replayed as. *)
Definition record_event (r : TLogRecord) : option LedgerEvent :=
  let ts := time_Unix (i64 (tl_Ts r)) in
  let mk kind consumer seeder cost flags upheld := Some {|
    le_Kind := kind; le_ConsumerID := consumer; le_SeederID := seeder; le_CostCredits := cost;
    le_Flags := flags; le_DisputeUpheld := upheld; le_Timestamp := ts |} in
  if tl_Kind r =? TLogKindSettlement then
    match unmarshalSettlementPayload (tl_Payload r) with
    | Ok p => mk LedgerEventSettlement (sp_ConsumerID p) (sp_SeederID p) (sp_CostCredits p) (sp_Flags p) false
    | Err _ => None
    end
  else if tl_Kind r =? TLogKindDisputeFiled then
    match unmarshalDisputePayload (tl_Payload r) with
    | Ok p => mk (if dp_Upheld p then LedgerEventDisputeResolved else LedgerEventDisputeFiled)
                 (dp_ConsumerID p) (zero_bytes 32) 0 0 (dp_Upheld p)
    | Err _ => None
    end
  else if tl_Kind r =? TLogKindDisputeResolved then
    match unmarshalDisputePayload (tl_Payload r) with
    | Ok p => mk LedgerEventDisputeResolved (dp_ConsumerID p) (zero_bytes 32) 0 0 (dp_Upheld p)
    | Err _ => None
    end
  else if tl_Kind r =? TLogKindTransfer then
    match unmarshalTransferPayload (tl_Payload r) with
    | Ok p => mk (if tf_Direction p =? TransferOut then LedgerEventTransferOut else LedgerEventTransferIn)
                 (tf_ConsumerID p) (zero_bytes 32) (tf_CostCredits p) 0 false
    | Err _ => None
    end
  else if tl_Kind r =? TLogKindStarterGrant then
    match unmarshalStarterGrantPayload (tl_Payload r) with
    | Ok p => mk LedgerEventStarterGrant (sg_ConsumerID p) (zero_bytes 32) (sg_CostCredits p) 0 false
    | Err _ => None
    end
  else None.

Definition applyTLogRecord (io : TLogIO) (r : TLogRecord) (s : PState) : PState :=
  match record_event r with
  | Some ev => OnLedgerEvent io ev s
  | None => s
  end.

(** The records of a file after [startSeq]. *)
Definition replayRecords (io : TLogIO) (startSeq : Z) (recs : list TLogRecord) (s : PState) : PState :=
  foldl (λ s r, if tl_Seq r <=? startSeq then s else applyTLogRecord io r s) s recs.

(** [None] is a reader that does not end (it always does). *)
Fixpoint replayFiles (io : TLogIO) (startSeq : Z) (files : list bytes) (s : PState)
    : option (option TLogErr * PState) :=
  match files with
  | [] => Some (None, s)
  | f :: files' =>
    match readTLogFile f with
    | None => None
    | Some (recs, _, Some e) =>
        Some (Some e, match e with ErrTLogCorrupt => count_corruption s | _ => s end)
    | Some (recs, _, None) => replayFiles io startSeq files' (replayRecords io startSeq recs s)
    end
  end.

Definition replayTLog (io : TLogIO) (startSeq : Z) (s : PState) : option (option TLogErr * PState) :=
  match p_tlog s with
  | None => Some (None, s)
  | Some w => replayFiles io startSeq (enumerateTLogFiles (Some (tw_synced w)) (tw_rotated w)) s
  end.

Inductive ReplayErr := ReplayDir | ReplayTLog (e : TLogErr) | ReplayLedger (msg : string).

(** [missing] is the answer of the ledger source, given the writer's last number; [dirErr]:
    the directory of the snapshots cannot be read. *)
Definition StartupReplay (io : TLogIO) (dirErr : bool) (now : Z) (missing : Z → res string (list LedgerEvent)) (s : PState)
    : option (option ReplayErr * PState) :=
  if dirErr then Some (Some ReplayDir, s) else
  let s := set_replaying true s in
  let '(r, s) := loadNewestUsableSnapshot s in
  let s := match r with
           | Ok (Some snap) => applySnapshot now snap s
           | Ok None => s
           | Err _ => set_degraded s
           end in
  let startSeq := match r with Ok (Some snap) => sn_Seq snap | _ => 0 end in
  match replayTLog io startSeq s with
  | None => None
  | Some (Some e, s) => Some (Some (ReplayTLog e), set_replaying false s)
  | Some (None, s) =>
    let lastSeq := match p_tlog s with Some w => LastSeq w | None => 0 end in
    match missing lastSeq with
    | Err msg => Some (Some (ReplayLedger msg), set_replaying false s)
    | Ok evs => Some (None, set_replaying false (foldl (λ s ev, OnLedgerEvent io ev s) s evs))
    end
  end.
