(* ===== verification/ReplaySpec.v ===== *)
(** The correctness of admission's persistence (Replay.v): a snapshot reads back as the state
    it was taken of, and a restart after a crash rebuilds the state from the log. *)
From S2P Require Import Prelude Proto Float Signing Credit CreditSpec TLog Replay.

(** ** Little-endian fields *)

Lemma length_le_bytes n v : length (le_bytes n v) = n.
Proof. unfold le_bytes. by rewrite length_reverse, length_be_bytes. Qed.

Lemma le_val_le_bytes n v : 0 <= v < 256 ^ Z.of_nat n → le_val (le_bytes n v) = v.
Proof.
  intros Hv. unfold le_val, le_bytes. rewrite reverse_involutive, be_val_be_bytes by lia. by apply Z.mod_small.
Qed.

Lemma le_val_32 v : is_u32 v → le_val (le_bytes 4 v) = v.
Proof. intros Hv. apply le_val_le_bytes. exact Hv. Qed.

Lemma le_val_64 v : is_u64 v → le_val (le_bytes 8 v) = v.
Proof. intros Hv. apply le_val_le_bytes. exact Hv. Qed.

(** A time as the files keep it, in whole seconds. *)
Definition secs (t : Z) : Z := time_Unix (Unix t).
Definition time_ok (t : Z) : Prop := is_i64 (Unix t).

Lemma length_le_time t : length (le_time t) = 8%nat.
Proof. apply length_le_bytes. Qed.

Lemma le_time_roundtrip t : time_ok t → le_time_val (le_time t) = secs t.
Proof.
  intros Ht. unfold le_time_val, le_time. rewrite le_val_64 by apply u64_range. by rewrite i64_u64.
Qed.

Lemma secs_day t : t mod Day = 0 → secs t = t.
Proof.
  intros Ht. unfold secs, time_Unix, Unix. unfold Day, Hour in Ht.
  pose proof (Z.div_mod t (24 * (3600 * Second)) ltac:(done)) as Hd. rewrite Ht in Hd.
  set (q := t / (24 * (3600 * Second))) in *.
  replace t with ((24 * 3600 * q) * Second) by lia. by rewrite Z.div_mul.
Qed.

#[local] Hint Rewrite length_le_bytes length_le_time : lens.
#[local] Opaque le_bytes le_time le_val le_time_val.

(** ** Slices of repeated parts *)

Lemma slice_slice b i j a c : (i + c <= j)%nat → (a <= c)%nat → slice b (i + a) (i + c) = slice (slice b i j) a c.
Proof.
  intros Hc Hac. unfold slice. rewrite skipn_firstn_comm, take_take, drop_drop.
  f_equal. lia.
Qed.

Lemma length_bind_const {A} (g : A → bytes) w l : (∀ x, length (g x) = w) → length (l ≫= g) = (length l * w)%nat.
Proof. intros Hg. induction l as [|x l IH]; [done|]. rewrite bind_cons, length_app, Hg, IH. done. Qed.

Lemma slice_bind (g : nat → bytes) w n i rest :
  (∀ k, length (g k) = w) → (i < n)%nat → slice ((seq 0 n ≫= g) ++ rest) (w * i) (w * i + w) = g i.
Proof.
  intros Hg Hi. replace n with (i + S (n - S i))%nat by lia.
  rewrite seq_app, bind_app, <- app_assoc. cbn [seq Nat.add]. rewrite bind_cons.
  pose proof (length_bind_const g w (seq 0 i) Hg) as Hl. rewrite length_seq in Hl.
  rewrite slice_app_r by lia. rewrite <- app_assoc. rewrite slice_app_l; [done|lia|rewrite Hg; lia].
Qed.

(** ** A snapshot's parts *)

Definition bucket_secs_ok (b : DayBucket) : Prop := bucket_wf b ∧ time_ok (db_DayStamp b).

Lemma length_encodeDayBucket b : length (encodeDayBucket b) = 20%nat.
Proof. unfold encodeDayBucket. len. Qed.

Lemma decode_encode_bucket b : bucket_secs_ok b → decodeDayBucket (encodeDayBucket b) = b.
Proof.
  intros ((Ht & Ha & Hb & Hd) & Htime). unfold decodeDayBucket, encodeDayBucket.
  destruct b as [t a n d]. cbn [db_Total db_A db_B db_DayStamp] in *. f_equal; slices.
  - by apply le_val_32.
  - by apply le_val_32.
  - by apply le_val_32.
  - rewrite le_time_roundtrip by done. by apply secs_day.
Qed.

(** The values a snapshot can hold, and what is left of them: whole seconds. *)
Definition credit_ok (st : ConsumerCreditState) : Prop :=
  credit_wf st ∧ time_ok (cs_FirstSeenAt st)
  ∧ Forall (λ b, time_ok (db_DayStamp b)) (cs_SettlementBuckets st ++ cs_DisputeBuckets st ++ cs_FlowBuckets st).

Definition credit_secs (st : ConsumerCreditState) : ConsumerCreditState := {|
  cs_FirstSeenAt := secs (cs_FirstSeenAt st); cs_SettlementBuckets := cs_SettlementBuckets st;
  cs_DisputeBuckets := cs_DisputeBuckets st; cs_FlowBuckets := cs_FlowBuckets st;
  cs_LastBalanceSeen := cs_LastBalanceSeen st |}.

Definition heartbeat_ok (st : SeederHeartbeatState) : Prop :=
  length (hs_Buckets st) = 10%nat ∧ Forall (λ m, is_u32 (mb_Expected m) ∧ is_u32 (mb_Actual m)) (hs_Buckets st)
  ∧ time_ok (hs_LastBucketRollAt st) ∧ is_u32 (hs_LastHeadroomEstimate st)
  ∧ 0 <= hs_LastHeadroomSource st < 256 ∧ time_ok (hs_LastHeadroomTs st).

Definition heartbeat_secs (st : SeederHeartbeatState) : SeederHeartbeatState := {|
  hs_Buckets := hs_Buckets st; hs_LastBucketRollAt := secs (hs_LastBucketRollAt st);
  hs_LastHeadroomEstimate := hs_LastHeadroomEstimate st; hs_LastHeadroomSource := hs_LastHeadroomSource st;
  hs_LastHeadroomTs := secs (hs_LastHeadroomTs st); hs_CanProbeUsage := hs_CanProbeUsage st |}.

Definition day_triple (st : ConsumerCreditState) (i : nat) : bytes :=
  encodeDayBucket (bucket_at (cs_SettlementBuckets st) i) ++ encodeDayBucket (bucket_at (cs_DisputeBuckets st) i)
  ++ encodeDayBucket (bucket_at (cs_FlowBuckets st) i).

Lemma length_day_triple st i : length (day_triple st i) = 60%nat.
Proof. unfold day_triple. by rewrite !length_app, !length_encodeDayBucket. Qed.

Lemma length_day_triples st : length (seq 0 30 ≫= day_triple st) = 1800%nat.
Proof. rewrite (length_bind_const _ 60) by apply length_day_triple. by rewrite length_seq. Qed.

Lemma length_encodeConsumerState id st :
  length id = 32%nat → length (encodeConsumerState id st) = consumerStateSize.
Proof.
  intros Hid. unfold encodeConsumerState. fold (day_triple st). rewrite !length_app, length_day_triples, Hid.
  rewrite length_le_time, length_le_bytes. done.
Qed.

(** An array is read back from its places. *)
Lemma buckets_from_places (bs : list DayBucket) (f : nat → DayBucket) :
  length bs = 30%nat → (∀ i, (i < 30)%nat → f i = bucket_at bs i) → f <$> seq 0 30 = bs.
Proof.
  intros Hl Hf. apply list_eq_same_length with (n := 30%nat); [done|by rewrite length_fmap, length_seq|].
  intros i x y Hi Hx Hy. rewrite list_lookup_fmap, lookup_seq_lt in Hx by done. cbn in Hx. simplify_eq.
  rewrite Hf by done. unfold bucket_at. by rewrite Hy.
Qed.

Lemma decode_encode_consumer id st rest :
  length id = 32%nat → credit_ok st →
  decodeConsumerState (encodeConsumerState id st ++ rest) = Ok (id, credit_secs st).
Proof.
  intros Hid (Hwf & Hfirst & Htimes). destruct Hwf as ([Hl1 Hb1] & [Hl2 Hb2] & [Hl3 Hb3] & Hbal).
  rewrite !Forall_app in Htimes. destruct Htimes as (Ht1 & Ht2 & Ht3).
  assert (∀ bs i, Forall bucket_wf bs → Forall (λ b, time_ok (db_DayStamp b)) bs →
    length bs = 30%nat → (i < 30)%nat → decodeDayBucket (encodeDayBucket (bucket_at bs i)) = bucket_at bs i) as Hdec.
  { intros bs i Hw Ht Hl Hi. unfold bucket_at. destruct (lookup_lt_is_Some_2 bs i ltac:(lia)) as [b Hb].
    rewrite Hb. cbn. apply decode_encode_bucket. rewrite Forall_lookup in Hw, Ht. split; [by eapply Hw|by eapply (Ht i)]. }
  assert (∀ i, (i < 30)%nat → ∀ off, (off + 20 <= 60)%nat →
    slice (encodeConsumerState id st ++ rest) (48 + 60 * i + off) (48 + 60 * i + off + 20)
    = slice (day_triple st i) off (off + 20)) as Hplace.
  { intros i Hi off Hoff.
    replace (48 + 60 * i + off + 20)%nat with ((48 + 60 * i) + (off + 20))%nat by lia.
    rewrite (slice_slice _ _ (48 + 60 * i + 60)) by lia. f_equal.
    unfold encodeConsumerState. rewrite <- !app_assoc. rewrite !slice_app_r by len. autorewrite with lens. rewrite Hid.
    fold (day_triple st). rewrite <- (slice_bind (day_triple st) 60 30 i rest); [|apply length_day_triple|done].
    f_equal; lia. }
  unfold decodeConsumerState.
  assert ((length (encodeConsumerState id st ++ rest) <? consumerStateSize)%nat = false) as ->
    by (apply Nat.ltb_ge; rewrite length_app, length_encodeConsumerState by done; lia).
  destruct st as [first bs1 bs2 bs3 bal]. unfold credit_secs in *.
  cbn [cs_FirstSeenAt cs_SettlementBuckets cs_DisputeBuckets cs_FlowBuckets cs_LastBalanceSeen] in *.
  do 2 f_equal; [unfold encodeConsumerState; slices; done|]. f_equal.
  - unfold encodeConsumerState. slices. by apply le_time_roundtrip.
  - apply buckets_from_places; [done|]. intros i Hi. rewrite Hplace by lia.
    unfold day_triple. rewrite slice_app_l by (rewrite ?length_encodeDayBucket; lia). by apply Hdec.
  - apply buckets_from_places; [done|]. intros i Hi. rewrite Hplace by lia. unfold day_triple.
    rewrite slice_app_r by (rewrite ?length_encodeDayBucket; lia). rewrite length_encodeDayBucket.
    rewrite slice_app_l by (rewrite ?length_encodeDayBucket; lia). by apply Hdec.
  - apply buckets_from_places; [done|]. intros i Hi. rewrite Hplace by lia. unfold day_triple.
    rewrite !slice_app_r by (rewrite ?length_encodeDayBucket; lia). rewrite !length_encodeDayBucket.
    rewrite slice_all by (rewrite ?length_encodeDayBucket; lia). by apply Hdec.
  - unfold encodeConsumerState. slices. rewrite le_val_64 by apply u64_range. by apply i64_u64.
Qed.

Definition minute_pair (st : SeederHeartbeatState) (i : nat) : bytes :=
  le_bytes 4 (mb_Expected (minute_at (hs_Buckets st) i)) ++ le_bytes 4 (mb_Actual (minute_at (hs_Buckets st) i)).

Lemma length_minute_pair st i : length (minute_pair st i) = 8%nat.
Proof. unfold minute_pair. len. Qed.

Lemma length_minute_pairs st : length (seq 0 10 ≫= minute_pair st) = 80%nat.
Proof. rewrite (length_bind_const _ 8) by apply length_minute_pair. by rewrite length_seq. Qed.

#[local] Hint Rewrite length_minute_pairs : lens.

Lemma length_encodeSeederState id st : length id = 32%nat → length (encodeSeederState id st) = seederStateSize.
Proof.
  intros Hid. unfold encodeSeederState. fold (minute_pair st). autorewrite with lens. rewrite Hid. done.
Qed.

Lemma decode_encode_seeder id st rest :
  length id = 32%nat → heartbeat_ok st →
  decodeSeederState (encodeSeederState id st ++ rest) = Ok (id, heartbeat_secs st).
Proof.
  intros Hid (Hl & Hb & Hroll & Hest & Hsrc & Hts).
  assert (∀ i, (i < 10)%nat → ∀ off, (off + 4 <= 8)%nat →
    slice (encodeSeederState id st ++ rest) (32 + 8 * i + off) (32 + 8 * i + off + 4)
    = slice (minute_pair st i) off (off + 4)) as Hplace.
  { intros i Hi off Hoff.
    replace (32 + 8 * i + off + 4)%nat with ((32 + 8 * i) + (off + 4))%nat by lia.
    rewrite (slice_slice _ _ (32 + 8 * i + 8)) by lia. f_equal.
    unfold encodeSeederState. rewrite <- !app_assoc. rewrite slice_app_r by len. rewrite Hid.
    fold (minute_pair st).
    match goal with |- slice (_ ++ ?r) _ _ = _ => rewrite <- (slice_bind (minute_pair st) 8 10 i r) end;
      [|apply length_minute_pair|done].
    f_equal; lia. }
  unfold decodeSeederState.
  assert ((length (encodeSeederState id st ++ rest) <? seederStateSize)%nat = false) as ->
    by (apply Nat.ltb_ge; rewrite length_app, length_encodeSeederState by done; lia).
  assert (∀ i, (i < 10)%nat → ∃ m, hs_Buckets st !! i = Some m ∧ is_u32 (mb_Expected m) ∧ is_u32 (mb_Actual m)) as Hm.
  { intros i Hi. destruct (lookup_lt_is_Some_2 (hs_Buckets st) i ltac:(lia)) as [m Hm]. exists m.
    rewrite Forall_lookup in Hb. split; [done|by eapply Hb]. }
  do 2 f_equal; [unfold encodeSeederState; slices; done|]. unfold heartbeat_secs. f_equal.
  - apply list_eq_same_length with (n := 10%nat); [done|by rewrite length_fmap, length_seq|].
    intros i x y Hi Hx Hy. rewrite list_lookup_fmap, lookup_seq_lt in Hx by done. cbn [fmap option_fmap option_map] in Hx. rewrite Nat.add_0_l in Hx.
    destruct (Hm i Hi) as (m & Hmi & He & Ha). assert (y = m) as -> by congruence. apply (inj Some) in Hx. subst x.
    destruct m as [e a]. cbn in He, Ha.
    pose proof (Hplace i Hi 0%nat ltac:(lia)) as H0. pose proof (Hplace i Hi 4%nat ltac:(lia)) as H4.
    rewrite Nat.add_0_r in H0. replace (32 + 8 * i + 4 + 4)%nat with (32 + 8 * i + 8)%nat in H4 by lia.
    rewrite H0, H4. unfold minute_pair, minute_at. rewrite Hmi. cbn [default mb_Expected mb_Actual].
    f_equal; slices; by apply le_val_32.
  - unfold encodeSeederState. fold (minute_pair st). slices. by apply le_time_roundtrip.
  - unfold encodeSeederState. fold (minute_pair st). slices. by apply le_val_32.
  - unfold encodeSeederState. fold (minute_pair st). slices. by apply be_val_byte.
  - unfold encodeSeederState. fold (minute_pair st). slices. by apply le_time_roundtrip.
  - unfold encodeSeederState. fold (minute_pair st). slices. by destruct (hs_CanProbeUsage st).
Qed.

(** ** A whole file *)

Lemma decodeStates_encoded {V W} (dec : bytes → res SnapErr (bytes * W)) (enc : bytes → V → bytes) (size : nat)
    (g : V → W) (l : list (bytes * V)) rest m :
  Forall (λ c, length (enc c.1 c.2) = size ∧ ∀ r, dec (enc c.1 c.2 ++ r) = Ok (c.1, g c.2)) l →
  decodeStates dec size (length l) ((l ≫= λ c, enc c.1 c.2) ++ rest) m
  = Ok (foldl (λ m c, <[c.1 := g c.2]> m) m l, rest).
Proof.
  intros Hl. revert m. induction Hl as [|[id v] l [Hsize Hdec] _ IH]; intros m; [done|].
  cbn [length decodeStates]. rewrite bind_cons, <- app_assoc. cbn [fst snd] in *. rewrite Hdec.
  rewrite <- Hsize, drop_app_length, Hsize. apply IH.
Qed.

Lemma foldl_insert_lookup {V W} (g : V → W) (l : list (bytes * V)) (m : gmap bytes W) j :
  NoDup l.*1 →
  foldl (λ m c, <[c.1 := g c.2]> m) m l !! j =
  match (list_to_map l : gmap bytes V) !! j with Some v => Some (g v) | None => m !! j end.
Proof.
  revert m. induction l as [|[id v] l IH]; intros m Hnd; [done|].
  cbn in Hnd. apply NoDup_cons in Hnd as [Hid Hnd]. cbn [foldl fst snd]. rewrite IH by done.
  rewrite list_to_map_cons. destruct (decide (j = id)) as [->|Hj].
  - rewrite not_elem_of_list_to_map_1 by done. by rewrite !lookup_insert_eq.
  - by rewrite !lookup_insert_ne by done.
Qed.

Lemma foldl_insert_map {V W} (g : V → W) (m : gmap bytes V) :
  foldl (λ m c, <[c.1 := g c.2]> m) ∅ (map_to_list m) = g <$> m.
Proof.
  apply map_eq. intros j. rewrite foldl_insert_lookup by apply NoDup_fst_map_to_list.
  rewrite list_to_map_to_list, lookup_fmap. by destruct (m !! j).
Qed.

Definition consumers_ok (m : gmap bytes ConsumerCreditState) : Prop :=
  blen (map_to_list m) < 2 ^ 32 ∧ map_Forall (λ id st, length id = 32%nat ∧ credit_ok st) m.

Definition seeders_ok (m : gmap bytes SeederHeartbeatState) : Prop :=
  blen (map_to_list m) < 2 ^ 32 ∧ map_Forall (λ id st, length id = 32%nat ∧ heartbeat_ok st) m.

Lemma Forall_map_to_list {V} (P : bytes → V → Prop) (m : gmap bytes V) :
  map_Forall P m → Forall (λ c, P c.1 c.2) (map_to_list m).
Proof. intros Hm. apply Forall_forall. intros [id v] Hin. apply elem_of_map_to_list in Hin. by apply Hm. Qed.

(** A snapshot file reads back as what was written. For any table of consumers and seeders
    that fits its types, whatever the order the maps are iterated in, the file is accepted
    (magic, version, CRC, counts) and yields the same number, the same consumers and the same
    seeders; every count, balance and day stamp is exact, the other times are kept to
    the second. *)
Lemma readSnapshot_snapshotFile seq ts consumers seeders :
  is_u64 seq → time_ok ts → consumers_ok consumers → seeders_ok seeders →
  readSnapshot (snapshotFile seq ts consumers seeders) =
  Ok {| sn_Seq := seq; sn_Ts := secs ts; sn_Consumers := credit_secs <$> consumers;
        sn_Seeders := heartbeat_secs <$> seeders |}.
Proof.
  intros Hseq Hts [Hcn Hc] [Hsn Hs]. unfold snapshotFile. cbn zeta.
  set (cs := map_to_list consumers) in *. set (ss := map_to_list seeders) in *.
  set (body := encodeSnapshotBody seq ts cs ss).
  set (file := body ++ le_bytes 4 (crc32c body)).
  assert (length file = (length body + 4)%nat) as Hfl by (unfold file; len).
  set (cbytes := cs ≫= λ c, encodeConsumerState c.1 c.2). set (sbytes := ss ≫= λ c, encodeSeederState c.1 c.2).
  assert (body = le_bytes 4 snapshotMagic ++ le_bytes 4 snapshotFormatVersion ++ le_bytes 8 seq ++ le_time ts
            ++ le_bytes 4 (u32 (blen cs)) ++ cbytes ++ le_bytes 4 (u32 (blen ss)) ++ sbytes) as Hbody by done.
  assert (28 <= length body)%nat as Hbl by (rewrite Hbody; len).
  assert (∀ n, 0 <= n < 2 ^ 32 → le_val (le_bytes 4 (u32 n)) = n) as Hcount.
  { intros n Hn. rewrite le_val_32 by apply u32_range. by apply Z.mod_small. }
  unfold readSnapshot. fold file.
  assert ((length file <? 24 + 4)%nat = false) as -> by (apply Nat.ltb_ge; lia).
  assert (slice file 0 4 = le_bytes 4 snapshotMagic) as -> by (unfold file; rewrite Hbody; slices; done).
  rewrite le_val_32, Z.eqb_refl by done.
  assert (slice file 4 8 = le_bytes 4 snapshotFormatVersion) as -> by (unfold file; rewrite Hbody; slices; done).
  rewrite le_val_32, Z.eqb_refl by done. cbn [negb].
  replace (length file - 4)%nat with (length body) by lia.
  unfold file at 1 2. rewrite take_app_length, drop_app_length, le_val_32, Z.eqb_refl by apply crc32c_u32. cbn [negb].
  assert (slice file 24 28 = le_bytes 4 (u32 (blen cs))) as -> by (unfold file; rewrite Hbody; slices; done).
  rewrite Hcount by (unfold blen in *; lia). unfold blen at 1. rewrite Nat2Z.id.
  assert (drop 28 file = cbytes ++ le_bytes 4 (u32 (blen ss)) ++ sbytes ++ le_bytes 4 (crc32c body)) as ->.
  { unfold file. rewrite Hbody at 1. rewrite <- !app_assoc, !drop_app_ge by len. autorewrite with lens. done. }
  unfold cbytes. rewrite (decodeStates_encoded decodeConsumerState encodeConsumerState consumerStateSize credit_secs).
  2: { eapply Forall_impl; [by apply Forall_map_to_list|]. intros [id st] [Hid Hst]. cbn in *. split.
       - by apply length_encodeConsumerState.
       - intros r. by apply decode_encode_consumer. }
  assert ((length (le_bytes 4 (u32 (blen ss)) ++ sbytes ++ le_bytes 4 (crc32c body)) <? 4)%nat = false) as ->
    by (apply Nat.ltb_ge; len).
  rewrite slice_app_l by len. rewrite Hcount by (unfold blen in *; lia). unfold blen at 1. rewrite Nat2Z.id.
  rewrite drop_app_length' by len. unfold sbytes.
  rewrite (decodeStates_encoded decodeSeederState encodeSeederState seederStateSize heartbeat_secs).
  2: { eapply Forall_impl; [by apply Forall_map_to_list|]. intros [id st] [Hid Hst]. cbn in *. split.
       - by apply length_encodeSeederState.
       - intros r. by apply decode_encode_seeder. }
  unfold cs, ss. rewrite !foldl_insert_map. do 2 f_equal.
  - assert (slice file 8 16 = le_bytes 8 seq) as -> by (unfold file; rewrite Hbody; slices; done). by apply le_val_64.
  - assert (slice file 16 24 = le_time ts) as -> by (unfold file; rewrite Hbody; slices; done).
    by apply le_time_roundtrip.
Qed.

(** ** What a record is replayed as *)

(** The fields fit the record. *)
Definition event_ok (ev : LedgerEvent) : Prop :=
  length (le_ConsumerID ev) = 32%nat ∧ length (le_SeederID ev) = 32%nat ∧ is_u64 (le_CostCredits ev)
  ∧ is_u32 (le_Flags ev) ∧ time_ok (le_Timestamp ev).

(** The event with its time in whole seconds, and what the log keeps of it. *)
Definition at_seconds (ev : LedgerEvent) : LedgerEvent := {|
  le_Kind := le_Kind ev; le_ConsumerID := le_ConsumerID ev; le_SeederID := le_SeederID ev;
  le_CostCredits := le_CostCredits ev; le_Flags := le_Flags ev; le_DisputeUpheld := le_DisputeUpheld ev;
  le_Timestamp := secs (le_Timestamp ev) |}.

Definition on_disk (ev : LedgerEvent) : LedgerEvent :=
  let settled := match le_Kind ev with LedgerEventSettlement => true | _ => false end in
  let dispute := match le_Kind ev with LedgerEventDisputeFiled | LedgerEventDisputeResolved => true | _ => false end in
  {| le_Kind := le_Kind ev; le_ConsumerID := le_ConsumerID ev;
     le_SeederID := if settled then le_SeederID ev else zero_bytes 32;
     le_CostCredits := if dispute then 0 else le_CostCredits ev;
     le_Flags := if settled then le_Flags ev else 0;
     le_DisputeUpheld := match le_Kind ev with LedgerEventDisputeResolved => le_DisputeUpheld ev | _ => false end;
     le_Timestamp := secs (le_Timestamp ev) |}.

Lemma apply_on_disk ev ss : apply_event (on_disk ev) ss = apply_event (at_seconds ev) ss.
Proof. by destruct ev as [[] ? ? ? ? ? ?]. Qed.

Definition record_of (seq : Z) (ev : LedgerEvent) (kp : TLogKind * bytes) : TLogRecord :=
  {| tl_Seq := seq; tl_Ts := u64 (Unix (le_Timestamp ev)); tl_Kind := kp.1; tl_Payload := kp.2 |}.

Lemma record_event_record_of seq ev kp :
  event_ok ev → event_record ev = Some kp → record_event (record_of seq ev kp) = Some (on_disk ev).
Proof.
  destruct ev as [kind c s cost flags upheld t]. unfold event_ok, on_disk.
  cbn [le_Kind le_ConsumerID le_SeederID le_CostCredits le_Flags le_DisputeUpheld le_Timestamp].
  intros (Hc & Hs & Hcost & Hf & Ht) Hev. unfold record_event, record_of, event_record in *.
  cbn [tl_Ts tl_Kind tl_Payload le_Kind le_ConsumerID le_SeederID le_CostCredits le_Flags le_DisputeUpheld le_Timestamp] in *.
  rewrite i64_u64 by done. fold (secs t).
  destruct kind; [done| | | | | |destruct upheld; cbn [negb] in Hev; [|done]]; injection Hev as <-; cbn [fst snd].
  - by rewrite Z.eqb_refl, Settlement_roundtrip.
  - rewrite Transfer_roundtrip by done. done.
  - rewrite Transfer_roundtrip by done. done.
  - rewrite StarterGrant_roundtrip by done. done.
  - rewrite Dispute_roundtrip by done. done.
  - rewrite Dispute_roundtrip by done. done.
Qed.

(** ** Runs *)

Definition rec_ok_cut (io : TLogIO) (rec : TLogRecord) : Prop :=
  ∀ k, wio_write io = Some k → drop k (marshalTLogRecord rec) ≠ [].

Definition is_dispute_event (ev : LedgerEvent) : bool :=
  match le_Kind ev with
  | LedgerEventDisputeFiled => true
  | LedgerEventDisputeResolved => le_DisputeUpheld ev
  | _ => false
  end.

(** A subsystem that has just started on an empty log. *)
Definition fresh (s : PState) : Prop :=
  p_tlog s = Some (newTLogWriter [] ∅) ∧ p_nextSeq s = 0 ∧ p_replaying s = false.

(** The runs of a subsystem that started on an empty log: ledger events, operators' actions
    and turns of the flush loop, whatever calls fail (a write that fails has not taken the
    whole frame). With them, the events whose records were written, and of those the disputes
    that were applied. *)
Inductive prun (s0 : PState) : PState → list LedgerEvent → list LedgerEvent → Prop :=
| prun_open : fresh s0 → prun s0 s0 [] []
| prun_event s w logged acked io ev :
    prun s0 s logged acked → p_tlog s = Some w → p_nextSeq s + 1 < 2 ^ 64 → event_ok ev →
    (∀ kp, event_record ev = Some kp → rec_ok_cut io (record_of (p_nextSeq s + 1) ev kp)) →
    let seq := p_nextSeq s + 1 in
    let persisted := match event_record ev with
                     | Some kp => is_ok (Append tlogRotationBytes io (record_of seq ev kp) w).1
                     | None => false end in
    prun s0 (OnLedgerEvent io ev s)
      (if bool_decide (is_Some (event_record ev)) && wrote io w then logged ++ [ev] else logged)
      (if is_dispute_event ev && persisted then acked ++ [ev] else acked)
| prun_override s w logged acked io operatorID action params now :
    prun s0 s logged acked → p_tlog s = Some w → p_nextSeq s + 1 < 2 ^ 64 → time_ok now →
    let rec := {| tl_Seq := p_nextSeq s + 1; tl_Ts := u64 (Unix now); tl_Kind := TLogKindOperatorOverride;
                  tl_Payload := marshalOperatorOverridePayload
                    {| oo_OperatorID := operatorID; oo_Action := action; oo_Params := params; oo_Ts := Unix now |} |} in
    rec_ok_cut io rec → blen (tl_Payload rec) + 21 < 2 ^ 32 →
    prun s0 (writeOperatorOverride io operatorID action params now s).2 logged acked
| prun_tick s w logged acked io :
    prun s0 s logged acked → p_tlog s = Some w → prun s0 (set_tlog (flushTick io w) s) logged acked.

(** The writer's records against the events. *)
Definition prun_inv (s : PState) (logged acked : list LedgerEvent) : Prop :=
  ∃ w recs ackrecs, p_tlog s = Some w ∧ wrun tlogRotationBytes w recs ackrecs
    ∧ p_replaying s = false ∧ 0 <= tw_lastSeqInFile w <= p_nextSeq s
    ∧ Forall (λ r, 0 < tl_Seq r <= p_nextSeq s) recs
    ∧ omap record_event recs = on_disk <$> logged
    ∧ ∀ ev, ev ∈ acked → ∃ r, r ∈ ackrecs ∧ record_event r = Some (on_disk ev).

Lemma Append_lastSeq rotationBytes io rec w :
  tw_lastSeqInFile w <= tw_lastSeqInFile (Append rotationBytes io rec w).2 <= Z.max (tw_lastSeqInFile w) (tl_Seq rec).
Proof.
  destruct (Append rotationBytes io rec w) as [r w'] eqn:H. cbn [snd].
  unfold Append, gbind, bw_Write, flushSync, rotateLocked, flushSync, gbind, gret in H.
  destruct (tw_broken w); [simplify_eq; lia|].
  destruct (wio_write io); [simplify_eq; cbn; lia|].
  assert (∀ x, tw_lastSeqInFile (tw_count x (tl_Seq rec) (tw_buffer (marshalTLogRecord rec) w))
               = Z.max (tw_lastSeqInFile w) (tl_Seq rec)) as Hc.
  { intros x. cbn. destruct (_ <? _) eqn:E; [apply Z.ltb_lt in E|apply Z.ltb_ge in E]; lia. }
  set (w1 := tw_count _ _ _) in *. specialize (Hc (blen (marshalTLogRecord rec))). fold w1 in Hc. clearbody w1.
  repeat (go_step H); cbn in *; lia.
Qed.

(** One record with a number of its own goes to the log. *)
Lemma tlogAppend_run io rec s w recs ackrecs :
  p_tlog s = Some w → wrun tlogRotationBytes w recs ackrecs → record_ok rec → rec_ok_cut io rec →
  tw_lastSeqInFile w < tl_Seq rec →
  ∃ w', tlogAppend io rec s = (match (Append tlogRotationBytes io rec w).1 with Ok _ => None | Err e => Some e end, set_tlog w' s)
    ∧ wrun tlogRotationBytes w' (if wrote io w then recs ++ [rec] else recs)
        (if is_dispute rec && is_ok (Append tlogRotationBytes io rec w).1 then ackrecs ++ [rec] else ackrecs)
    ∧ tw_lastSeqInFile w <= tw_lastSeqInFile w' <= tl_Seq rec.
Proof.
  intros Hw Hrun Hok Hcut Hseq. exists (Append tlogRotationBytes io rec w).2. split_and!.
  - unfold tlogAppend. rewrite Hw. by destruct (Append tlogRotationBytes io rec w) as [[] ?].
  - apply wrun_next; [done|]. split_and!; [done|done|by left].
  - pose proof (Append_lastSeq tlogRotationBytes io rec w). lia.
  - pose proof (Append_lastSeq tlogRotationBytes io rec w). lia.
Qed.

Lemma flushTick_lastSeq io w : tw_lastSeqInFile (flushTick io w) = tw_lastSeqInFile w.
Proof. unfold flushTick. by destruct (_ || _). Qed.

Lemma event_record_size ev kp :
  event_ok ev → event_record ev = Some kp → 0 <= kp.1 < 256 ∧ (length kp.2 <= 76)%nat.
Proof.
  intros (Hc & Hs & _) Hkp. unfold event_record in Hkp.
  destruct (le_Kind ev); try done; try (destruct (le_DisputeUpheld ev); [|done]); cbn [negb] in Hkp;
    injection Hkp as <-; cbn [fst snd]; (split; [by vm_compute|]);
    unfold marshalSettlementPayload, marshalTransferPayload, marshalStarterGrantPayload, marshalDisputePayload;
    cbn [sp_ConsumerID sp_SeederID tf_ConsumerID sg_ConsumerID dp_ConsumerID]; len.
Qed.

Lemma event_record_ok seq ev kp :
  event_ok ev → event_record ev = Some kp → 0 <= seq < 2 ^ 64 → record_ok (record_of seq ev kp).
Proof.
  intros Hev Hkp Hseq. destruct (event_record_size _ _ Hev Hkp) as [Hk Hl].
  unfold record_ok, record_of, blen. cbn [tl_Seq tl_Ts tl_Kind tl_Payload].
  split; [exact Hseq|]. split; [apply u64_range|]. lia.
Qed.

Lemma is_dispute_record seq ev kp :
  event_record ev = Some kp → is_dispute (record_of seq ev kp) = is_dispute_event ev.
Proof.
  unfold event_record, is_dispute, is_dispute_event, record_of.
  destruct (le_Kind ev); try (by intros [= <-]). destruct (le_DisputeUpheld ev); [by intros [= <-]|done].
Qed.

Lemma OnLedgerEvent_logged io ev s w :
  p_tlog s = Some w → p_replaying s = false → 0 <= p_nextSeq s → p_nextSeq s + 1 < 2 ^ 64 →
  OnLedgerEvent io ev s =
  let s1 := set_nextSeq (p_nextSeq s + 1) s in
  match event_record ev with
  | None => s1
  | Some kp =>
    match tlogAppend io (record_of (p_nextSeq s + 1) ev kp) s1 with
    | (Some _, s) => s
    | (None, s) => set_consumers (apply_event ev (p_consumers s)) s
    end
  end.
Proof.
  intros Hw Hr Hn Hlt. unfold OnLedgerEvent. cbn zeta.
  replace (u64 (p_nextSeq s + 1)) with (p_nextSeq s + 1) by (unfold u64; rewrite Z.mod_small; lia).
  destruct (event_record ev) as [[kind payload]|]; [|done].
  unfold persistEvent. cbn [set_nextSeq p_replaying]. rewrite Hr. done.
Qed.

Lemma prun_event_inv s w L A io ev :
  prun_inv s L A → p_tlog s = Some w → p_nextSeq s + 1 < 2 ^ 64 → event_ok ev →
  (∀ kp, event_record ev = Some kp → rec_ok_cut io (record_of (p_nextSeq s + 1) ev kp)) →
  prun_inv (OnLedgerEvent io ev s)
    (if bool_decide (is_Some (event_record ev)) && wrote io w then L ++ [ev] else L)
    (if is_dispute_event ev && match event_record ev with
                               | Some kp => is_ok (Append tlogRotationBytes io (record_of (p_nextSeq s + 1) ev kp) w).1
                               | None => false end then A ++ [ev] else A).
Proof.
  intros (w0 & recs & ackrecs & Hw0 & Hrun & Hrep & Hseq & Hpos & Hom & Hack) Hw Hlt Hev Hcut.
  rewrite Hw in Hw0. injection Hw0 as <-.
  rewrite (OnLedgerEvent_logged _ _ _ w) by (done || lia). cbn zeta.
  destruct (event_record ev) as [kp|] eqn:Hkp.
  2: { rewrite bool_decide_eq_false_2 by (intros [? ?]; done). rewrite andb_false_r. cbn [andb].
       exists w, recs, ackrecs. cbn. split_and!; try done; try lia. eapply Forall_impl; [done|]. cbn. lia. }
  rewrite bool_decide_eq_true_2 by done. cbn [andb].
  set (rec := record_of (p_nextSeq s + 1) ev kp) in *.
  set (s1 := set_nextSeq (p_nextSeq s + 1) s).
  destruct (tlogAppend_run io rec s1 w recs ackrecs) as (w' & Happ & Hrun' & Hseq'); [done|done|..].
  { apply event_record_ok; [done|done|lia]. }
  { by apply Hcut. }
  { cbn. lia. }
  rewrite Happ. pose proof (record_event_record_of (p_nextSeq s + 1) ev kp Hev Hkp) as Hre. fold rec in Hre.
  assert (is_dispute rec = is_dispute_event ev) as Hd by (by apply is_dispute_record).
  assert (∀ s2, p_tlog s2 = Some w' → p_replaying s2 = false → p_nextSeq s2 = p_nextSeq s + 1 →
    prun_inv s2 (if wrote io w then L ++ [ev] else L)
      (if is_dispute_event ev && is_ok (Append tlogRotationBytes io rec w).1 then A ++ [ev] else A)) as Hinv.
  { intros s2 H1 H2 H3. eexists w', _, _. split_and!; [done|exact Hrun'|done|lia|..].
    - rewrite H3. cbn in Hseq'. lia.
    - rewrite H3. destruct (wrote io w); [apply Forall_app; split; [|constructor; [cbn; lia|done]]|];
        (eapply Forall_impl; [done|]; cbn; lia).
    - destruct (wrote io w); [|done]. rewrite omap_app, Hom, fmap_app. cbn. by rewrite Hre.
    - intros ev' Hin. rewrite Hd. destruct (is_dispute_event ev && is_ok _).
      + apply elem_of_app in Hin as [Hin|Hin].
        * destruct (Hack _ Hin) as (r & Hr & ?). exists r. split; [set_solver|done].
        * apply list_elem_of_singleton in Hin as ->. exists rec. split; [set_solver|done].
      + apply Hack, Hin. }
  destruct (Append tlogRotationBytes io rec w).1; by apply Hinv.
Qed.

Lemma prun_inv_holds s0 s L A : prun s0 s L A → prun_inv s L A.
Proof.
  induction 1 as [(Ht & Hn & Hr)|s w L A io ev Hrun IH Hw Hlt Hev Hcut|s w L A io op act par now Hrun IH Hw Hlt Hnow rec Hcut Hlen
                  |s w L A io Hrun IH Hw].
  - exists (newTLogWriter [] ∅), [], []. rewrite Hn. split_and!; try done; [apply wrun_new|].
    intros ev Hin. by apply not_elem_of_nil in Hin.
  - by apply prun_event_inv.
  - destruct IH as (w0 & recs & ackrecs & Hw0 & Hr & Hrep & Hseq & Hpos & Hom & Hack).
    rewrite Hw in Hw0. injection Hw0 as <-. unfold writeOperatorOverride. rewrite Hw. cbn zeta.
    replace (u64 (p_nextSeq s + 1)) with (p_nextSeq s + 1) by (unfold u64; rewrite Z.mod_small; lia). fold rec.
    destruct (tlogAppend_run io rec (set_nextSeq (p_nextSeq s + 1) s) w recs ackrecs) as (w' & -> & Hrun' & Hseq');
      [done|done| |done|cbn; lia|].
    { split; [unfold is_u64; cbn; lia|]. split; [apply u64_range|]. split; [by vm_compute|done]. }
    eexists w', _, _. cbn [snd]. split_and!; [done|exact Hrun'|done|lia|..].
    + cbn. cbn in Hseq'. lia.
    + cbn. destruct (wrote io w); [apply Forall_app; split; [|constructor; [cbn; lia|done]]|];
        (eapply Forall_impl; [done|]; cbn; lia).
    + destruct (wrote io w); [|done]. rewrite omap_app, Hom. cbn. apply app_nil_r.
    + change (is_dispute rec) with false. done.
  - destruct IH as (w0 & recs & ackrecs & Hw0 & Hr & Hrep & Hseq & Hpos & Hom & Hack).
    rewrite Hw in Hw0. injection Hw0 as <-. exists (flushTick io w), recs, ackrecs. cbn.
    rewrite flushTick_lastSeq. split_and!; try done; try lia. by apply wrun_tick.
Qed.

(** ** The restart *)

Lemma OnLedgerEvent_replaying io ev s :
  p_replaying s = true →
  let s' := OnLedgerEvent io ev s in
  p_consumers s' = apply_event ev (p_consumers s) ∧ p_replaying s' = true ∧ p_tlog s' = p_tlog s
  ∧ p_degraded s' = p_degraded s.
Proof.
  intros Hr. unfold OnLedgerEvent. cbn zeta. destruct (event_record ev) as [[kind payload]|] eqn:He.
  - unfold persistEvent. cbn [set_nextSeq p_replaying]. rewrite Hr. done.
  - unfold event_record in He. unfold apply_event.
    destruct (le_Kind ev); try done. destruct (le_DisputeUpheld ev); done.
Qed.

Lemma replayRecords_spec io recs s :
  p_replaying s = true → Forall (λ r, 0 < tl_Seq r) recs →
  let s' := replayRecords io 0 recs s in
  p_consumers s' = apply_events (omap record_event recs) (p_consumers s) ∧ p_replaying s' = true
  ∧ p_tlog s' = p_tlog s ∧ p_degraded s' = p_degraded s.
Proof.
  intros Hr Hpos. cbn zeta. revert s Hr. induction Hpos as [|r recs Hr0 _ IH]; intros s Hr; [done|].
  cbn [replayRecords foldl omap list_omap].
  assert (tl_Seq r <=? 0 = false) as -> by (apply Z.leb_gt; lia).
  fold (replayRecords io 0 recs (applyTLogRecord io r s)). unfold applyTLogRecord at 1 2 3 4.
  destruct (record_event r) as [ev|]; [|by apply IH].
  destruct (OnLedgerEvent_replaying io ev s Hr) as (Hc & Hr' & Ht & Hd).
  destruct (IH _ Hr') as (-> & -> & -> & ->). by rewrite Hc, Ht, Hd.
Qed.

Lemma replayFiles_read_log io files recs s :
  read_log files = Some recs → replayFiles io 0 files s = Some (None, replayRecords io 0 recs s).
Proof.
  revert recs s. induction files as [|f files IH]; intros recs s Hf; cbn in Hf; [by simplify_eq|].
  destruct (readTLogFile f) as [[[l off] [e|]]|] eqn:Hread; try done.
  destruct (foldr _ _ files) as [rest|] eqn:Hrest; [|done]. injection Hf as <-.
  cbn [replayFiles]. rewrite Hread. rewrite (IH rest) by done. unfold replayRecords. by rewrite foldl_app.
Qed.

Lemma apply_events_on_disk evs ss : apply_events (on_disk <$> evs) ss = apply_events (at_seconds <$> evs) ss.
Proof.
  revert ss. induction evs as [|ev evs IH]; intros ss; [done|]. cbn [fmap list_fmap].
  change (apply_events (on_disk <$> evs) (apply_event (on_disk ev) ss)
          = apply_events (at_seconds <$> evs) (apply_event (at_seconds ev) ss)).
  by rewrite apply_on_disk.
Qed.

(** The part of the log a run leaves that a restart reads. *)
Lemma prun_read s0 s w logged acked active :
  prun s0 s logged acked → p_tlog s = Some w → survives w active →
  ∃ got pre, read_log (enumerateTLogFiles (Some active) (tw_rotated w)) = Some got
    ∧ Forall (λ r, 0 < tl_Seq r <= p_nextSeq s) got
    ∧ omap record_event got = on_disk <$> pre ∧ pre `prefix_of` logged
    ∧ on_disk <$> acked ⊆ on_disk <$> pre ∧ (tw_pending w = [] → pre = logged).
Proof.
  intros Hrun Hw Hsurv. apply prun_inv_holds in Hrun.
  destruct Hrun as (w0 & recs & ackrecs & Hw0 & Hr & _ & _ & Hpos & Hom & Hack).
  rewrite Hw in Hw0. injection Hw0 as <-. apply wrun_wdir in Hr as (Hdir & _ & Hall).
  destruct (recover_dir _ _ _ _ Hdir Hall Hsurv) as (got & Hread & [k Hk] & Hgot & Hfull).
  exists got, (take (length (omap record_event got)) logged).
  assert (omap record_event got = on_disk <$> take (length (omap record_event got)) logged) as Hpe.
  { rewrite Hk, omap_app in Hom. rewrite fmap_take, <- Hom. by rewrite take_app_length. }
  split_and!; [done| |done|by apply prefix_take|..].
  - rewrite Hk in Hpos. by apply Forall_app in Hpos as [? _].
  - intros e He. apply list_elem_of_fmap in He as (ev & -> & Hin). rewrite <- Hpe.
    destruct (Hack _ Hin) as (r & Hr & Hre). apply list_elem_of_omap. exists r. split; [by apply Hgot|done].
  - intros Hnil. apply take_ge. rewrite (Hfull Hnil), Hom, length_fmap. done.
Qed.


(** ** A restart from a snapshot *)

Lemma replayFiles_skip io N files recs s :
  read_log files = Some recs → Forall (λ r, tl_Seq r <= N) recs → replayFiles io N files s = Some (None, s).
Proof.
  revert recs s. induction files as [|f files IH]; intros recs s Hf Hle; cbn in Hf; [by simplify_eq|].
  destruct (readTLogFile f) as [[[l off] [e|]]|] eqn:Hread; try done.
  destruct (foldr _ _ files) as [rest|] eqn:Hrest; [|done]. injection Hf as <-.
  apply Forall_app in Hle as [Hl Hr]. cbn [replayFiles]. rewrite Hread. rewrite (IH rest) by done. do 2 f_equal.
  unfold replayRecords. clear -Hl. revert s. induction Hl as [|r l Hr _ IH]; intros s; [done|]. cbn.
  assert (tl_Seq r <=? N = true) as -> by (by apply Z.leb_le). apply IH.
Qed.

(** Start-up when a snapshot loads and the log holds nothing newer. *)
Lemma StartupReplay_snapshot io now n tl rotated snaps snap k recs :
  newestUsable (reverse (enumerateSnapshots snaps)) = (Some snap, k) →
  read_log (enumerateTLogFiles (Some tl) rotated) = Some recs → Forall (λ r, tl_Seq r <= sn_Seq snap) recs →
  StartupReplay io false now (λ _, Ok []) (Open n (Some (tl, rotated)) snaps) =
  Some (None, set_replaying false (applySnapshot now snap
    (count_failures k (set_replaying true (Open n (Some (tl, rotated)) snaps))))).
Proof.
  intros Hsnap Hread Hle. unfold StartupReplay, loadNewestUsableSnapshot. cbn [p_snapshots set_replaying Open].
  destruct (reverse (enumerateSnapshots snaps)) as [|f fs]; [done|]. rewrite Hsnap.
  unfold replayTLog. cbn [applySnapshot set_seeders set_consumers count_failures set_replaying Open p_tlog newTLogWriter
    tw_synced tw_rotated]. by rewrite (replayFiles_skip io (sn_Seq snap) _ recs).
Qed.

(** After a restart from a snapshot, the next events are lost at the restart after it.
    Numbers start again from one when a process starts, while the replay skips every record
    whose number is not above the snapshot's: so until as many records have been written as
    the snapshot counted, whatever is logged, synced disputes included, is not in the state
    that the next start-up rebuilds, which is again the snapshot's. *)
Lemma restart_from_snapshot_forgets n snaps snap k io now s0 s w logged acked active io' :
  newestUsable (reverse (enumerateSnapshots snaps)) = (Some snap, k) →
  StartupReplay io false now (λ _, Ok []) (Open n (Some ([], ∅)) snaps) = Some (None, s0) →
  prun s0 s logged acked → p_tlog s = Some w → survives w active → p_nextSeq s <= sn_Seq snap →
  ∃ s', StartupReplay io' false now (λ _, Ok []) (Open n (Some (active, tw_rotated w)) snaps) = Some (None, s')
    ∧ p_consumers s' = p_consumers s0.
Proof.
  intros Hsnap Hs0 Hrun Hw Hsurv Hlt.
  rewrite (StartupReplay_snapshot _ _ _ _ _ _ snap k []) in Hs0 by done. injection Hs0 as <-.
  destruct (prun_read _ _ _ _ _ _ Hrun Hw Hsurv) as (got & pre & Hread & Hpos & _).
  eexists. split; [apply (StartupReplay_snapshot _ _ _ _ _ _ snap k got); try done|done].
  eapply Forall_impl; [done|]. cbn. lia.
Qed.

(** ** Witnesses *)

#[local] Transparent le_bytes le_time le_val le_time_val.

Lemma prun_next s0 s w L A ev L' A' :
  prun s0 s L A → p_tlog s = Some w → p_nextSeq s + 1 < 2 ^ 64 → event_ok ev →
  L' = (if bool_decide (is_Some (event_record ev)) && wrote wio_ok w then L ++ [ev] else L) →
  A' = (if is_dispute_event ev && match event_record ev with
          | Some kp => is_ok (Append tlogRotationBytes wio_ok (record_of (p_nextSeq s + 1) ev kp) w).1
          | None => false end then A ++ [ev] else A) →
  prun s0 (OnLedgerEvent wio_ok ev s) L' A'.
Proof. intros ? ? ? ? -> ->. by apply prun_event. Qed.

Lemma w_event_ok kind ts : 0 <= ts < 2 ^ 63 → event_ok (w_event kind ts).
Proof.
  intros Hts. unfold event_ok, w_event, time_ok. cbn [le_ConsumerID le_SeederID le_CostCredits le_Flags le_Timestamp].
  split; [done|]. split; [done|]. split; [by vm_compute|]. split; [by vm_compute|].
  unfold Unix. rewrite Z.div_mul by done. unfold is_i64. lia.
Qed.

Definition w_adm0 : PState := Open 16 (Some ([], ∅)) ∅.
Definition w_adm1 : PState := OnLedgerEvent wio_ok (w_event LedgerEventSettlement 86400) w_adm0.
Definition w_adm2 : PState := OnLedgerEvent wio_ok (w_event LedgerEventDisputeFiled 86500) w_adm1.
Definition w_adm3 : PState := OnLedgerEvent wio_ok (w_event LedgerEventTransferIn 86600) w_adm2.
Definition tlog_of (s : PState) : tlogWriter := default (newTLogWriter [] ∅) (p_tlog s).

Lemma w_adm3_run :
  prun w_adm0 w_adm3
    [w_event LedgerEventSettlement 86400; w_event LedgerEventDisputeFiled 86500; w_event LedgerEventTransferIn 86600]
    [w_event LedgerEventDisputeFiled 86500].
Proof.
  assert (prun w_adm0 w_adm1 [w_event LedgerEventSettlement 86400] []) as H1.
  { apply (prun_next _ w_adm0 (tlog_of w_adm0) [] []);
      [by apply prun_open|reflexivity|vm_compute; reflexivity|by apply w_event_ok|vm_compute; reflexivity..]. }
  assert (prun w_adm0 w_adm2 [w_event LedgerEventSettlement 86400; w_event LedgerEventDisputeFiled 86500]
            [w_event LedgerEventDisputeFiled 86500]) as H2.
  { apply (prun_next _ w_adm1 (tlog_of w_adm1) [w_event LedgerEventSettlement 86400] []);
      [done|vm_compute; reflexivity|vm_compute; reflexivity|by apply w_event_ok|vm_compute; reflexivity..]. }
  apply (prun_next _ w_adm2 (tlog_of w_adm2) [w_event LedgerEventSettlement 86400; w_event LedgerEventDisputeFiled 86500]
           [w_event LedgerEventDisputeFiled 86500]);
    [done|vm_compute; reflexivity|vm_compute; reflexivity|by apply w_event_ok|vm_compute; reflexivity..].
Qed.


(** A tracker that took a snapshot after three events, and was restarted. *)
Definition w_snaps : gmap Z bytes :=
  {[ 3 := snapshotFile 3 (86700 * Second) {[ replicate 32 Byte.x07 := newCredit (86400 * Second) ]} ∅ ]}.

Definition w_snap : Snapshot :=
  {| sn_Seq := 3; sn_Ts := 86700 * Second;
     sn_Consumers := {[ replicate 32 Byte.x07 := newCredit (86400 * Second) ]}; sn_Seeders := ∅ |}.

Definition w_restarted : PState :=
  match StartupReplay wio_ok false 0 (λ _, Ok []) (Open 16 (Some ([], ∅)) w_snaps) with
  | Some (_, s) => s
  | None => w_adm0
  end.

Definition w_after : PState := OnLedgerEvent wio_ok (w_event LedgerEventDisputeFiled 86800) w_restarted.

Lemma restart_from_snapshot_forgets_witness :
  let disputes s := from_option (λ st, sum32 db_A (cs_DisputeBuckets st)) 0 (sh_get (replicate 32 Byte.x07) (p_consumers s)) in
  disputes w_restarted = 0 ∧ disputes w_after = 1 ∧ tw_pending (tlog_of w_after) = [] ∧
  ∃ s', StartupReplay wio_ok false 0 (λ _, Ok [])
          (Open 16 (Some (tw_synced (tlog_of w_after), tw_rotated (tlog_of w_after))) w_snaps) = Some (None, s')
    ∧ p_consumers s' = p_consumers w_restarted.
Proof.
  split; [vm_compute; reflexivity|]. split; [vm_compute; reflexivity|]. split; [vm_compute; reflexivity|].
  apply (restart_from_snapshot_forgets 16 w_snaps w_snap 0 wio_ok 0 w_restarted w_after (tlog_of w_after)
           [w_event LedgerEventDisputeFiled 86800] [w_event LedgerEventDisputeFiled 86800]).
  - vm_compute. reflexivity.
  - vm_compute. reflexivity.
  - apply (prun_next _ w_restarted (tlog_of w_restarted) [] []);
      [apply prun_open; vm_compute; done|vm_compute; reflexivity|vm_compute; reflexivity|by apply w_event_ok
      |vm_compute; reflexivity..].
  - vm_compute. reflexivity.
  - exists 0%nat. vm_compute. reflexivity.
  - vm_compute. discriminate.
Defined.

Lemma readSnapshot_snapshotFile_witness :
  let consumers : gmap bytes ConsumerCreditState := {[ replicate 32 Byte.x07 := newCredit (86400 * Second + 5) ]} in
  let seeders : gmap bytes SeederHeartbeatState := {[ replicate 32 Byte.x08 := newHeartbeat (Second + 7) ]} in
  consumers_ok consumers ∧ seeders_ok seeders ∧
  readSnapshot (snapshotFile 3 (86700 * Second) consumers seeders) =
  Ok {| sn_Seq := 3; sn_Ts := secs (86700 * Second); sn_Consumers := credit_secs <$> consumers;
        sn_Seeders := heartbeat_secs <$> seeders |}.
Proof.
  cbn zeta.
  assert (consumers_ok {[ replicate 32 Byte.x07 := newCredit (86400 * Second + 5) ]}) as Hc.
  { split; [by rewrite map_to_list_singleton|]. apply map_Forall_singleton. split; [done|].
    split; [apply newCredit_wf|]. split; [by vm_compute|].
    repeat apply Forall_app_2; apply Forall_replicate; by vm_compute. }
  assert (seeders_ok {[ replicate 32 Byte.x08 := newHeartbeat (Second + 7) ]}) as Hs.
  { split; [by rewrite map_to_list_singleton|]. apply map_Forall_singleton. split; [done|].
    split; [done|]. split; [apply Forall_replicate; split; by vm_compute|].
    split; [by vm_compute|]. split; [by vm_compute|]. split; by vm_compute. }
  split; [exact Hc|]. split; [exact Hs|].
  apply readSnapshot_snapshotFile; [by vm_compute|by vm_compute|exact Hc|exact Hs].
Defined.
