(* ===== verification/Broker.v ===== *)
(** tracker/internal/broker, selection side: pricing, candidate selection, the offer loop
    and [Submit].

    [Submit] works on state other goroutines share: the registry, the session manager and
    the database. The one place it blocks is the offer round-trip; there, the code it
    shares that state with may run. Each attempt of the loop is therefore given by an
    [Attempt]: what reputation answers, how the round-trip ends, and an arbitrary change of
    the state while it lasts. Metrics and logging are left out. *)
From S2P Require Import Prelude Proto Signing Storage Session Registry.
From Stdlib Require Import Floats.SpecFloat.

(** ** Pricing *)

Record ModelPrices := { mp_In : Z; mp_Out : Z }.

Abbreviation PriceTable := (gmap string ModelPrices).

Definition DefaultPriceTable : PriceTable :=
  <["claude-opus-4-7" := {| mp_In := 15; mp_Out := 75 |}]>
  (<["claude-sonnet-4-6" := {| mp_In := 3; mp_Out := 15 |}]>
  (<["claude-haiku-4-5-20251001" := {| mp_In := 1; mp_Out := 5 |}]> ∅)).

Inductive BErr :=
| ErrUnknownModel | ErrIdentityFrozen | ErrInvalidState | ErrSeederMismatch | ErrModelMismatch
| ErrCostOverspend | ErrSeederSigInvalid | ErrDuplicateSettle | ErrUnknownPreimage
| ErrDuplicateUsageReport | ErrConsumerSig
| ErrSession (e : SessErr) | ErrBStore (e : SErr) | ErrContext | ErrBroker (msg : string).

(** Products and sums are [uint64] and wrap. *)
Definition MaxCost (p : PriceTable) (env : option EnvelopeBody) : res BErr Z :=
  match env with
  | None => Err (ErrBroker "broker: MaxCost called with nil envelope")
  | Some env =>
    match p !! env_Model env with
    | None => Err ErrUnknownModel
    | Some m => Ok (u64 (mp_In m * env_MaxInputTokens env + mp_Out m * env_MaxOutputTokens env))
    end
  end.

Definition ActualCost (p : PriceTable) (model : string) (in_ out : Z) : res BErr Z :=
  match p !! model with
  | None => Err ErrUnknownModel
  | Some m => Ok (u64 (mp_In m * in_ + mp_Out m * out))
  end.

(** ** Selection *)

Record BrokerScoreWeights := {
  sw_Reputation : spec_float; sw_Headroom : spec_float; sw_RTT : spec_float; sw_Load : spec_float
}.

Record BrokerConfig := {
  cfg_HeadroomThreshold : spec_float; cfg_LoadThreshold : Z; cfg_ScoreWeights : BrokerScoreWeights;
  cfg_MaxOfferAttempts : Z
}.

Record Candidate := { cand_Record : SeederRecord; cand_Score : spec_float }.

Definition Score (rec : SeederRecord) (w : BrokerScoreWeights) (repScore rttMs : spec_float) : spec_float :=
  f64_sub
    (f64_sub (f64_add (f64_mul (sw_Reputation w) repScore)
                      (f64_mul (sw_Headroom w) (sr_HeadroomEstimate rec)))
             (f64_mul (sw_RTT w) rttMs))
    (f64_mul (sw_Load w) (f64_of_int (sr_Load rec))).

(** The comparison given to [sort.SliceStable]: score descending, then identity. *)
Definition cand_lt (a b : Candidate) : bool :=
  if negb (SFeqb (cand_Score a) (cand_Score b)) then SFltb (cand_Score b) (cand_Score a)
  else bytes_ltb (sr_IdentityID (cand_Record a)) (sr_IdentityID (cand_Record b)).

(** One record of the loop: false is [continue]. *)
Definition eligible (env : EnvelopeBody) (isFrozen : bytes → bool) (cfg : BrokerConfig)
    (alreadyTried : list bytes) (rec : SeederRecord) : bool :=
  if negb (sr_Available rec) then false
  else if bool_decide (sr_IdentityID rec ∈ alreadyTried) then false
  else if negb (containsString (cap_Models (sr_Capabilities rec)) (env_Model env)) then false
  else if negb (containsTier (cap_Tiers (sr_Capabilities rec)) (env_Tier env)) then false
  else if SFltb (sr_HeadroomEstimate rec) (cfg_HeadroomThreshold cfg) then false
  else if (0 <? cfg_LoadThreshold cfg) && (cfg_LoadThreshold cfg <=? sr_Load rec) then false
  else negb (isFrozen (sr_IdentityID rec)).

Definition Pick (snapshot : list SeederRecord) (env : EnvelopeBody) (repScore : bytes → spec_float)
    (isFrozen : bytes → bool) (cfg : BrokerConfig) (alreadyTried : list bytes) : list Candidate :=
  stable_sort cand_lt
    ((λ rec, {| cand_Record := rec;
                cand_Score := Score rec (cfg_ScoreWeights cfg) (repScore (sr_IdentityID rec)) f64_zero |})
     <$> List.filter (eligible env isFrozen cfg alreadyTried) snapshot).

(** ** Shared state *)

(** The settlement side's record of a report that waits for the consumer. *)
Record pendingSettle := {
  ps_assertion : UsageAssertion; ps_preSig : bytes; ps_verified : bool; ps_refused : bool;
  ps_consumerSig : bytes; ps_consumerPub : bytes
}.

Record BState := {
  w_reg : Registry; w_mgr : Manager; w_store : Store; w_pending : gmap bytes pendingSettle
}.

Definition set_reg (r : Registry) (s : BState) : BState :=
  {| w_reg := r; w_mgr := w_mgr s; w_store := w_store s; w_pending := w_pending s |}.

Definition set_inflight (f : Inflight) (s : BState) : BState :=
  {| w_reg := w_reg s;
     w_mgr := {| mgr_Inflight := f; mgr_Reservations := mgr_Reservations (w_mgr s) |};
     w_store := w_store s; w_pending := w_pending s |}.

Definition set_reservations (r : Reservations) (s : BState) : BState :=
  {| w_reg := w_reg s;
     w_mgr := {| mgr_Inflight := mgr_Inflight (w_mgr s); mgr_Reservations := r |};
     w_store := w_store s; w_pending := w_pending s |}.

Definition set_store (st : Store) (s : BState) : BState :=
  {| w_reg := w_reg s; w_mgr := w_mgr s; w_store := st; w_pending := w_pending s |}.

Definition set_pending (p : gmap bytes pendingSettle) (s : BState) : BState :=
  {| w_reg := w_reg s; w_mgr := w_mgr s; w_store := w_store s; w_pending := p |}.

Abbreviation inflight s := (mgr_Inflight (w_mgr s)).
Abbreviation reservations s := (mgr_Reservations (w_mgr s)).

(** Calls on a part of the state, with their results. *)
Definition on_inflight {A} (m : GoM Inflight SessErr A) : GoM BState BErr A := λ s,
  match m (inflight s) with
  | (Ok a, f) => (Ok a, set_inflight f s)
  | (Err e, f) => (Err (ErrSession e), set_inflight f s)
  end.

(** [_, _ = reg.IncLoad(id)] and the like: the state change, the result dropped. *)
Definition dec_load (id : bytes) (s : BState) : BState := set_reg (snd (DecLoad id (w_reg s))) s.

Definition release (id : bytes) (s : BState) : BState :=
  set_reservations (snd (Release id (reservations s))) s.

Definition transition (id : bytes) (from to : State) (now : Z) (s : BState) : BState :=
  set_inflight (snd (Transition id from to now (inflight s))) s.

Definition failAndRelease (id : bytes) (now : Z) (s : BState) : BState :=
  transition id StateSelecting StateFailed now (release id s).

(** ** Submit *)

Record Assignment := {
  as_SeederAddr : AddrPort; as_SeederPubkey : bytes; as_ReservationToken : bytes;
  as_RequestID : bytes; as_AssignedSeeder : bytes
}.

Inductive Result :=
| OutcomeAdmit (a : Assignment)
| OutcomeNoCapacity (reason : string).

(** How an offer round-trip ends: the push fails, the seeder declines or the timer fires,
    the seeder accepts with its ephemeral key, or the caller's context is done. *)
Inductive OfferOutcome :=
| OfferUnreachable | OfferRejected | OfferAccepted (ephemeralPub : bytes) | OfferCancelled.

(** The decision a seeder sends back; a nil pointer is [None]. *)
Record OfferDecision := { od_Accept : bool; od_EphemeralPubkey : bytes }.

(** What the [select] of [runOffer] saw first. *)
Inductive OfferEvent := PushFailed | DecisionReceived (d : option OfferDecision) | TimerFired | ContextDone.

(** The push carries the token limits cut to 32 bits. *)
Definition offerPush (body : EnvelopeBody) (envHash reqID : bytes) : OfferPush := {|
  op_ConsumerId := env_ConsumerId body; op_EnvelopeHash := envHash; op_Model := env_Model body;
  op_MaxInputTokens := u32 (env_MaxInputTokens body);
  op_MaxOutputTokens := u32 (env_MaxOutputTokens body);
  op_ConsumerEphemeralPub := env_ConsumerEphemeralPub body; op_RequestId := reqID |}.

Definition runOffer (pusher : bytes → OfferPush → OfferEvent) (seederID : bytes) (body : EnvelopeBody)
    (envHash reqID : bytes) : OfferOutcome :=
  match pusher seederID (offerPush body envHash reqID) with
  | PushFailed => OfferUnreachable
  | DecisionReceived (Some d) =>
      if od_Accept d then OfferAccepted (od_EphemeralPubkey d) else OfferRejected
  | DecisionReceived None => OfferRejected
  | TimerFired => OfferRejected
  | ContextDone => OfferCancelled
  end.

Record Attempt := {
  att_Score : bytes → spec_float; att_IsFrozen : bytes → bool;
  att_Pusher : bytes → OfferPush → OfferEvent; att_Env : BState → BState; att_Now : Z
}.

Section submit.
Context `{Crypto} `{Wire}.
Variables (cfg : BrokerConfig) (pricing : PriceTable) (ReservationTTLS : Z).

Definition submit_filter (body : EnvelopeBody) : Filter := {|
  flt_RequireAvailable := true; flt_Model := env_Model body; flt_Tier := env_Tier body;
  flt_MinHeadroom := cfg_HeadroomThreshold cfg; flt_MaxLoad := cfg_LoadThreshold cfg |}.

(** The offer loop: the assignment, or whether any seeder was tried. *)
Fixpoint offerLoop (n i : nat) (atts : nat → Attempt) (body : EnvelopeBody) (requestID envHash : bytes)
    (tried : list bytes) (triedAny : bool) (s : BState) : res BErr (option Assignment * bool) * BState :=
  match n with
  | O => (Ok (None, triedAny), s)
  | S n' =>
    let att := atts i in
    match Pick (Match (submit_filter body) (w_reg s)) body (att_Score att) (att_IsFrozen att) cfg tried with
    | [] => (Ok (None, triedAny), s)
    | cand :: _ =>
      let seeder := cand_Record cand in
      let id := sr_IdentityID seeder in
      match IncLoad id (w_reg s) with
      | (Err _, r) => offerLoop n' (S i) atts body requestID envHash (tried ++ [id]) true (set_reg r s)
      | (Ok _, r) =>
        let s := att_Env att (set_reg r s) in
        match runOffer (att_Pusher att) id body envHash requestID with
        | OfferCancelled =>
            (Err ErrContext, failAndRelease requestID (att_Now att) (dec_load id s))
        | OfferUnreachable | OfferRejected =>
            offerLoop n' (S i) atts body requestID envHash (tried ++ [id]) true (dec_load id s)
        | OfferAccepted ephPub =>
            let s := set_inflight (snd (MarkSeeder requestID id ephPub (inflight s))) s in
            match Transition requestID StateSelecting StateAssigned (att_Now att) (inflight s) with
            | (Err e, f) =>
                (Err (ErrSession e),
                 failAndRelease requestID (att_Now att) (dec_load id (set_inflight f s)))
            | (Ok _, f) =>
                (Ok (Some {| as_SeederAddr := nc_ExternalAddr (sr_NetCoords seeder);
                             as_SeederPubkey := ephPub; as_ReservationToken := requestID;
                             as_RequestID := requestID; as_AssignedSeeder := id |}, true),
                 set_inflight f s)
            end
        end
      end
    end
  end.

Definition proof_credits (body : EnvelopeBody) : Z :=
  match env_BalanceProof body with
  | Some p =>
    match sbs_Body p with
    | Some b => if 0 <? bs_Credits b then bs_Credits b else 0
    | None => 0
    end
  | None => 0
  end.

Definition new_request (requestID : bytes) (body : EnvelopeBody) (envHash : bytes) (cost now : Z)
    : Request := {|
  RequestID := requestID; ConsumerID := copy32 (env_ConsumerId body);
  rq_EnvelopeBody := Some body; EnvelopeHash := envHash; MaxCostReserved := cost;
  AssignedSeeder := zeroID; SeederPubkey := []; OfferAttempts := []; StartedAt := now;
  rq_State := StateSelecting; PreimageHash := zero_bytes 32; SettleSig := None;
  TerminatedAt := zeroTime |}.

(** Frozen here, or revoked by a peer: [archive] is the archive's answer, [None] when no
    archive is wired. *)
Definition checkFrozen (isFrozen : bytes → bool) (archive : option Faults) (consumer : bytes)
    (s : BState) : res BErr unit :=
  if isFrozen consumer then Err ErrIdentityFrozen else
  match archive with
  | None => Ok tt
  | Some io =>
    match IsIdentityRevoked io consumer (w_store s) with
    | Err e => Err (ErrBStore e)
    | Ok true => Err ErrIdentityFrozen
    | Ok false => Ok tt
    end
  end.

(** From the reservation on. *)
Definition submitReserved (atts : nat → Attempt) (body : EnvelopeBody) (requestID envHash : bytes)
    (cost now : Z) : GoM BState BErr Result := λ s,
  let consumer := copy32 (env_ConsumerId body) in
  let expiresAt := now + ReservationTTLS * Second in
  match Reserve requestID consumer cost (proof_credits body) expiresAt (reservations s) with
  | (Err ErrInsufficientCredits, _) => (Ok (OutcomeNoCapacity "insufficient_credits"), s)
  | (Err e, _) => (Err (ErrSession e), s)
  | (Ok _, r) =>
    let s := set_reservations r s in
    let s := set_inflight (Insert (new_request requestID body envHash cost now) (inflight s)) s in
    match offerLoop (Z.to_nat (cfg_MaxOfferAttempts cfg)) 0 atts body requestID envHash [] false s with
    | (Err e, s) => (Err e, s)
    | (Ok (Some a, _), s) => (Ok (OutcomeAdmit a), s)
    | (Ok (None, triedAny), s) =>
        (Ok (OutcomeNoCapacity (if triedAny then "all_seeders_rejected" else "no_eligible_seeder")),
         failAndRelease requestID now s)
    end
  end.

(** [requestID] is the random id; [None] is an error of the random source. *)
Definition Submit (isFrozen : bytes → bool) (archive : option Faults) (requestID : option bytes)
    (atts : nat → Attempt) (now : Z) (env : option (option EnvelopeBody)) : GoM BState BErr Result := λ s,
  match env with
  | None | Some None => (Err (ErrBroker "broker: Submit nil envelope"), s)
  | Some (Some body) =>
    match checkFrozen isFrozen archive (copy32 (env_ConsumerId body)) s with
    | Err e => (Err e, s)
    | Ok _ =>
      match MaxCost pricing (Some body) with
      | Err e => (Err e, s)
      | Ok cost =>
        match requestID with
        | None => (Err (ErrBroker "broker: random source"), s)
        | Some requestID =>
          match marshal_EnvelopeBody body with
          | None => (Err (ErrBroker "broker: marshal envelope"), s)
          | Some bodyBytes => submitReserved atts body requestID (sha256 bodyBytes) cost now s
          end
        end
      end
    end
  end.
End submit.

(** ** The reaper *)

Definition reap_one (e : Expiry) (s : BState) : BState :=
  if bool_decide (ex_PriorState e = StateAssigned) && negb (bool_decide (ex_AssignedSeeder e = zeroID))
  then dec_load (ex_AssignedSeeder e) s else s.

Definition runReap (now : Z) (s : BState) : BState :=
  let '(expired, m) := SweepExpiredAndFail now (w_mgr s) in
  foldl (λ s e, reap_one e s)
    {| w_reg := w_reg s; w_mgr := m; w_store := w_store s; w_pending := w_pending s |} expired.
