(* ===== verification/BrokerSpec.v ===== *)
(** The correctness of the selection side of the broker (Broker.v): prices, the ranking of
    candidates, and what [Submit] leaves behind on each of its outcomes. *)
From S2P Require Import Prelude Proto Float Signing Storage Session Registry Broker.
From Stdlib Require Import Floats.SpecFloat.

(** ** The order of candidates *)

(** A candidate whose score is a number. *)
Definition scored (c : Candidate) : Prop := Proto.is_NaN (cand_Score c) = false.

(** The order of two scored candidates: by key, then by identity. *)
Lemma cand_lt_spec a b :
  scored a → scored b →
  cand_lt a b = true ↔
  key_lt (f64_key (cand_Score b)) (f64_key (cand_Score a)) ∨
  f64_key (cand_Score a) = f64_key (cand_Score b) ∧
  bytes_ltb (sr_IdentityID (cand_Record a)) (sr_IdentityID (cand_Record b)) = true.
Proof.
  unfold scored. intros Ha Hb. unfold cand_lt.
  pose proof (SFeqb_key _ _ Ha Hb) as He. pose proof (SFltb_key _ _ Hb Ha) as Hl.
  destruct (SFeqb (cand_Score a) (cand_Score b)); simpl.
  - assert (f64_key (cand_Score a) = f64_key (cand_Score b)) as Hk by (by apply He).
    rewrite Hk. split; [auto|]. intros [Hlt|[_ ?]]; [by apply key_lt_irrefl in Hlt|done].
  - rewrite Hl. split; [auto|]. intros [?|[Hk _]]; [done|]. apply He in Hk. done.
Qed.

Lemma cand_lt_asym a b : scored a → scored b → cand_lt a b = true → cand_lt b a = false.
Proof.
  intros Ha Hb Hlt. apply not_true_iff_false. intros Hgt.
  apply cand_lt_spec in Hlt, Hgt; try done.
  destruct (f64_key (cand_Score a)) as [[a1 a2] a3], (f64_key (cand_Score b)) as [[b1 b2] b3].
  simpl in *. destruct Hlt as [?|[? Hl]], Hgt as [?|[? Hg]]; simplify_eq; try lia.
  apply bytes_ltb_asym in Hl. congruence.
Qed.

Lemma cand_lt_ntrans a b c :
  scored a → scored b → scored c →
  cand_lt b a = false → cand_lt c b = false → cand_lt c a = false.
Proof.
  intros Ha Hb Hc. rewrite <- !not_true_iff_false, !cand_lt_spec by done.
  intros Hba Hcb [Hca|[Hk Hca]].
  - eapply key_lt_ntrans; [| |exact Hca]; intros Hl; [apply Hba|apply Hcb]; by left.
  - assert (f64_key (cand_Score b) = f64_key (cand_Score a)) as Hk'.
    { apply key_lt_total; [rewrite <- Hk|]; intros Hl; [apply Hcb|apply Hba]; by left. }
    eapply eq_true_false_abs; [exact Hca|].
    eapply bytes_ltb_ntrans; apply not_true_iff_false; intros Hl;
      [apply Hba; right; split; [exact Hk'|exact Hl]|apply Hcb; right; split; [congruence|exact Hl]].
Qed.

(** ** Eligibility *)

Record eligible_seeder (env : EnvelopeBody) (isFrozen : bytes → bool) (cfg : BrokerConfig)
    (tried : list bytes) (rec : SeederRecord) : Prop := {
  el_available : sr_Available rec = true;
  el_untried : sr_IdentityID rec ∉ tried;
  el_model : env_Model env ∈ cap_Models (sr_Capabilities rec);
  el_tier : env_Tier env ∈ cap_Tiers (sr_Capabilities rec);
  el_headroom : SFltb (sr_HeadroomEstimate rec) (cfg_HeadroomThreshold cfg) = false;
  el_load : 0 < cfg_LoadThreshold cfg → sr_Load rec < cfg_LoadThreshold cfg;
  el_frozen : isFrozen (sr_IdentityID rec) = false
}.

Lemma existsb_elem {A} `{EqDecision A} (xs : list A) x :
  existsb (λ y, bool_decide (y = x)) xs = true ↔ x ∈ xs.
Proof.
  rewrite existsb_exists. split.
  - intros (y & Hy & He). bool_to_prop. subst. by apply list_elem_of_In.
  - intros Hx. exists x. split; [by apply list_elem_of_In|by apply bool_decide_eq_true].
Qed.

Lemma eligible_spec env isFrozen cfg tried rec :
  eligible env isFrozen cfg tried rec = true ↔ eligible_seeder env isFrozen cfg tried rec.
Proof.
  unfold eligible, containsString, containsTier. split.
  - intros He.
    destruct (negb (sr_Available rec)) eqn:E1; [done|].
    destruct (bool_decide _) eqn:E2; [done|].
    destruct (negb (existsb _ (cap_Models _))) eqn:E3; [done|].
    destruct (negb (existsb _ (cap_Tiers _))) eqn:E4; [done|].
    destruct (SFltb _ _) eqn:E5; [done|].
    destruct (_ && _) eqn:E6; [done|]. bool_to_prop.
    constructor; try done.
    + by apply existsb_elem. + by apply existsb_elem.
    + intros Hp. apply andb_false_iff in E6 as [E6|E6]; bool_to_prop; lia.
  - intros [H1 H2 H3 H4 H5 H6 H7]. rewrite H1, H5, H7. simpl.
    rewrite bool_decide_eq_false_2 by done.
    rewrite (proj2 (existsb_elem _ _) H3), (proj2 (existsb_elem _ _) H4). simpl.
    destruct (0 <? cfg_LoadThreshold cfg) eqn:E; simpl; [|done]. bool_to_prop.
    assert ((cfg_LoadThreshold cfg <=? sr_Load rec) = false) as ->; [apply Z.leb_gt; auto|done].
Qed.

Lemma elem_of_Pick snap env score isFrozen cfg tried c :
  c ∈ Pick snap env score isFrozen cfg tried ↔
  cand_Record c ∈ snap ∧ eligible_seeder env isFrozen cfg tried (cand_Record c) ∧
  cand_Score c = Score (cand_Record c) (cfg_ScoreWeights cfg) (score (sr_IdentityID (cand_Record c))) f64_zero.
Proof.
  unfold Pick. rewrite elem_of_stable_sort, list_elem_of_fmap. split.
  - intros (rec & -> & Hr). apply list_elem_of_In, List.filter_In in Hr as [Hr He]. simpl.
    split; [by apply list_elem_of_In|]. split; [by apply eligible_spec|done].
  - intros (Hr & He & Hs). exists (cand_Record c). split; [destruct c; simpl in *; by subst|].
    apply list_elem_of_In, List.filter_In. split; [by apply list_elem_of_In|by apply eligible_spec].
Qed.

(** ** Properties of pricing and selection *)

(** The cost quoted for a request covers what it can be charged. For prices and limits
    whose products fit 64 bits, [MaxCost] is the exact price of the limits, and the actual
    cost of any token counts within them is at most that. *)
Lemma MaxCost_covers_ActualCost p env m in_ out_ max :
  p !! env_Model env = Some m →
  0 <= mp_In m → 0 <= mp_Out m → 0 <= in_ <= env_MaxInputTokens env → 0 <= out_ <= env_MaxOutputTokens env →
  mp_In m * env_MaxInputTokens env + mp_Out m * env_MaxOutputTokens env < 2 ^ 64 →
  MaxCost p (Some env) = Ok max →
  max = mp_In m * env_MaxInputTokens env + mp_Out m * env_MaxOutputTokens env ∧
  ∃ c, ActualCost p (env_Model env) in_ out_ = Ok c ∧ c = mp_In m * in_ + mp_Out m * out_ ∧ c <= max.
Proof.
  intros Hm Hi Ho Hin Hout Hlt. unfold MaxCost, ActualCost. rewrite Hm. intros Hmax.
  assert (max = u64 (mp_In m * env_MaxInputTokens env + mp_Out m * env_MaxOutputTokens env)) as ->
    by congruence.
  rewrite u64_id by (unfold is_u64; nia). split; [done|].
  eexists. split; [done|]. rewrite u64_id by (unfold is_u64; nia). split; [done|]. nia.
Qed.

Definition witness_env (max_in max_out : Z) : EnvelopeBody := {|
  env_ProtocolVersion := 1; env_ConsumerId := replicate 32 Byte.x0c; env_Model := "claude-sonnet-4-6";
  env_MaxInputTokens := max_in; env_MaxOutputTokens := max_out; env_Tier := PRIVACY_TIER_STANDARD;
  env_BodyHash := zero_bytes 32; env_ExhaustionProof := None;
  env_BalanceProof := Some {| sbs_Body := Some {| bs_IdentityId := replicate 32 Byte.x0c;
    bs_Credits := 1000; bs_ChainTipHash := zero_bytes 32; bs_ChainTipSeq := 0; bs_IssuedAt := 0;
    bs_ExpiresAt := 600 |}; sbs_TrackerSig := [] |};
  env_CapturedAt := 1; env_Nonce := zero_bytes 16; env_ConsumerEphemeralPub := [] |}.

(** Selection. [Pick] returns exactly the seeders of the snapshot that are available, not
    yet tried, offer the model and the tier, have the headroom, are below the load
    threshold and are not frozen, each with its score; and, when no score is NaN, in order
    of decreasing score with ties in order of identity, so that its head, the seeder that
    gets the offer, is a best one. *)
Lemma Pick_exact_and_ranked snap env score isFrozen cfg tried :
  (∀ c, c ∈ Pick snap env score isFrozen cfg tried ↔
     cand_Record c ∈ snap ∧ eligible_seeder env isFrozen cfg tried (cand_Record c) ∧
     cand_Score c = Score (cand_Record c) (cfg_ScoreWeights cfg)
                      (score (sr_IdentityID (cand_Record c))) f64_zero) ∧
  (Forall scored (Pick snap env score isFrozen cfg tried) →
   StronglySorted (λ a b, cand_lt b a = false) (Pick snap env score isFrozen cfg tried)).
Proof.
  split; [apply elem_of_Pick|]. intros Hs. unfold Pick in *.
  apply (stable_sort_sorted scored); [apply cand_lt_asym|apply cand_lt_ntrans|].
  eapply Forall_impl; [|by intros ? H]. by rewrite <- (stable_sort_perm cand_lt).
Qed.

Definition witness_offerer (id : byte) (headroom : spec_float) : SeederRecord := {|
  sr_IdentityID := replicate 32 id; sr_ConnSessionID := 1;
  sr_Capabilities := {| cap_Models := ["claude-sonnet-4-6"]; cap_MaxContext := 1000;
                        cap_Tiers := [PRIVACY_TIER_STANDARD]; cap_Attestation := [] |};
  sr_Available := true; sr_HeadroomEstimate := headroom; sr_ReputationScore := f64_one;
  sr_NetCoords := {| nc_ExternalAddr := zeroAddrPort; nc_LocalCandidates := [] |};
  sr_Load := 0; sr_LastHeartbeat := 1 |}.

Definition witness_config : BrokerConfig := {|
  cfg_HeadroomThreshold := f64_one; cfg_LoadThreshold := 3;
  cfg_ScoreWeights := {| sw_Reputation := f64_one; sw_Headroom := f64_one;
                         sw_RTT := f64_zero; sw_Load := f64_one |};
  cfg_MaxOfferAttempts := 3 |}.

(** Two seeders, the second one without headroom. *)
Definition witness_selection : list Candidate :=
  Pick [witness_offerer Byte.x05 f64_one; witness_offerer Byte.x06 f64_zero] (witness_env 100 20)
    (λ _, f64_one) (λ _, false) witness_config [].

Lemma Pick_exact_and_ranked_witness :
  length witness_selection = 1%nat ∧ StronglySorted (λ a b, cand_lt b a = false) witness_selection.
Proof.
  split; [vm_compute; reflexivity|].
  apply Pick_exact_and_ranked. vm_compute. repeat constructor.
Defined.

(** ** What a round-trip may change *)

Record session_ok (s : BState) : Prop := {
  so_inflight : inflight_wf (inflight s);
  so_reservations : res_inv (reservations s)
}.

(** Nobody but the broker knows the id of a request that is being placed: the rest of the
    program leaves the request and its slot alone, or expires both as the reaper does. *)
Definition interferes (id : bytes) (s s' : BState) : Prop :=
  session_ok s' ∧
  ((Session.Get id (inflight s') = Session.Get id (inflight s) ∧
    res_byReq (reservations s') !! id = res_byReq (reservations s) !! id) ∨
   (∃ now, Session.Get id (inflight s') = expire_req now <$> Session.Get id (inflight s) ∧
    res_byReq (reservations s') !! id = None)).

Lemma reap_all_sessions es s :
  w_mgr (foldl (λ s e, reap_one e s) s es) = w_mgr s.
Proof.
  revert s. induction es as [|e es IH]; intros s; simpl; [done|]. rewrite IH. unfold reap_one.
  by destruct (_ && _).
Qed.

(** The reaper is such a part of the program. *)
Lemma runReap_interferes id now s : session_ok s → interferes id s (runReap now s).
Proof.
  intros [Hwf Hi]. unfold runReap, interferes.
  pose proof (SweepExpiredAndFail_sweeps now (w_mgr s) Hi Hwf) as Hs. cbv zeta in Hs.
  destruct (SweepExpiredAndFail now (w_mgr s)) as [out m']. destruct Hs as (Hi' & Hwf' & Hres & Hreq & _).
  rewrite reap_all_sessions. cbn [w_mgr]. split.
  { constructor; rewrite reap_all_sessions; done. }
  rewrite Hres, Hreq. destruct (decide _); [right; by exists now|by left].
Qed.

(** ** The request while it is being placed *)

Definition slot_of (id : bytes) (r : Request) (s : BState) : Prop :=
  ∃ slot, res_byReq (reservations s) !! id = Some slot ∧
    rs_ConsumerID slot = ConsumerID r ∧ rs_Amount slot = MaxCostReserved r.

(** The fields [Submit] set and no one changes. *)
Definition same_order (r0 r : Request) : Prop :=
  RequestID r = RequestID r0 ∧ ConsumerID r = ConsumerID r0 ∧
  rq_EnvelopeBody r = rq_EnvelopeBody r0 ∧ EnvelopeHash r = EnvelopeHash r0 ∧
  MaxCostReserved r = MaxCostReserved r0.

Definition placing (r0 : Request) (s : BState) : Prop :=
  let id := RequestID r0 in
  session_ok s ∧ ∃ r, Session.Get id (inflight s) = Some r ∧ same_order r0 r ∧
    (rq_State r = StateSelecting ∧ slot_of id r s ∨
     rq_State r = StateFailed ∧ res_byReq (reservations s) !! id = None).

(** Nothing is left of it but the record of its failure. *)
Definition given_up (r0 : Request) (s : BState) : Prop :=
  let id := RequestID r0 in
  session_ok s ∧ res_byReq (reservations s) !! id = None ∧
  ∃ r, Session.Get id (inflight s) = Some r ∧ same_order r0 r ∧ rq_State r = StateFailed.

Definition admitted (r0 : Request) (a : Assignment) (s : BState) : Prop :=
  let id := RequestID r0 in
  session_ok s ∧ as_RequestID a = id ∧ as_ReservationToken a = id ∧
  ∃ r, Session.Get id (inflight s) = Some r ∧ same_order r0 r ∧ rq_State r = StateAssigned ∧
    AssignedSeeder r = as_AssignedSeeder a ∧ SeederPubkey r = as_SeederPubkey a ∧ slot_of id r s.

Lemma placing_mgr r0 s s' : w_mgr s' = w_mgr s → placing r0 s → placing r0 s'.
Proof.
  unfold placing, slot_of. intros Hm. rewrite Hm. intros ([? ?] & Hr). split; [|done].
  by constructor; rewrite Hm.
Qed.

Lemma placing_interferes r0 s s' :
  placing r0 s → interferes (RequestID r0) s s' → placing r0 s'.
Proof.
  intros (_ & r & Hg & Ho & Hst) (Hok & Hc). split; [done|].
  destruct Hc as [[Hr Hs]|(now & Hr & Hs)].
  - exists r. rewrite Hr. split; [done|]. split; [done|]. unfold slot_of. by rewrite Hs.
  - exists (expire_req now r). rewrite Hr, Hg. split; [done|]. unfold expire_req.
    destruct Hst as [[Hst _]|[Hst _]]; rewrite Hst; (split; [done|right; done]).
Qed.

Lemma MarkSeeder_spec id seeder pub f r :
  inflight_wf f → Session.Get id f = Some r →
  inflight_wf (snd (MarkSeeder id seeder pub f)) ∧
  Session.Get id (snd (MarkSeeder id seeder pub f)) = Some (set_seeder seeder pub r).
Proof.
  intros Hwf Hg. apply Get_Some in Hg as Hl. destruct Hl as (l & Hl & Hr).
  unfold MarkSeeder, with_request. rewrite Hl, Hr. simpl. split; [by apply update_at_wf|].
  rewrite (Get_update_at id) by done. by rewrite decide_True, Hg.
Qed.

Lemma release_spec id s :
  session_ok s → session_ok (release id s) ∧ res_byReq (reservations (release id s)) !! id = None ∧
  inflight (release id s) = inflight s.
Proof.
  intros [Hwf Hi]. unfold release, Release.
  destruct (res_byReq (reservations s) !! id) as [slot|] eqn:E; simpl.
  - split; [constructor; simpl; [done|by apply drop_slot_inv]|]. by rewrite lookup_delete_eq.
  - split; [by constructor|done].
Qed.

Lemma failAndRelease_gives_up r0 now s :
  placing r0 s → given_up r0 (failAndRelease (RequestID r0) now s).
Proof.
  intros (Hok & r & Hg & Ho & Hst). destruct (release_spec (RequestID r0) s Hok) as (Hok1 & Hn & Hf).
  unfold failAndRelease, transition. rewrite Hf. rewrite <- Hf in Hg.
  destruct (Transition_spec _ StateSelecting StateFailed now _ _ (so_inflight _ Hok1) Hg)
    as (f' & Ht & Hwf' & Hg'). rewrite Hf in Ht. rewrite Ht. cbn [snd].
  split; [constructor; simpl; [done|apply Hok1]|]. split; [done|].
  simpl. specialize (Hg' (RequestID r0)). destruct (decide (rq_State r = StateSelecting)) as [Hs|Hs].
  - rewrite decide_True in Hg' by done. eexists. split; [exact Hg'|]. split; [exact Ho|done].
  - rewrite decide_False in Hg' by tauto. exists r. split; [by rewrite <- Hg|]. split; [done|].
    by destruct Hst as [[? _]|[? _]].
Qed.

(** ** The offer loop *)

Section submit_spec.
Context `{Crypto} `{Wire}.
Variables (cfg : BrokerConfig) (pricing : PriceTable) (ttl : Z).

(** What an attempt leaves behind, by how the loop ends. *)
Definition loop_post (atts : nat → Attempt) (body : EnvelopeBody) (r0 : Request)
    (out : res BErr (option Assignment * bool)) (s : BState) : Prop :=
  match out with
  | Err _ => given_up r0 s
  | Ok (None, _) => placing r0 s
  | Ok (Some a, _) => admitted r0 a s ∧
      ∃ i tried rec, sr_IdentityID rec = as_AssignedSeeder a ∧
        eligible_seeder body (att_IsFrozen (atts i)) cfg tried rec
  end.

Lemma placing_MarkSeeder r0 seeder pub s :
  placing r0 s →
  placing r0 (set_inflight (snd (MarkSeeder (RequestID r0) seeder pub (inflight s))) s) ∧
  ∃ r, Session.Get (RequestID r0) (snd (MarkSeeder (RequestID r0) seeder pub (inflight s))) = Some r ∧
    same_order r0 r ∧ AssignedSeeder r = seeder ∧ SeederPubkey r = pub ∧
    (rq_State r = StateSelecting → slot_of (RequestID r0) r s).
Proof.
  intros (Hok & r & Hg & Ho & Hst).
  destruct (MarkSeeder_spec _ seeder pub _ r (so_inflight _ Hok) Hg) as [Hwf' Hg'].
  split.
  - split; [constructor; simpl; [done|apply Hok]|]. exists (set_seeder seeder pub r).
    split; [exact Hg'|]. split; [done|]. exact Hst.
  - exists (set_seeder seeder pub r). split; [done|]. split; [done|]. split; [done|]. split; [done|].
    intros Hs. destruct Hst as [[_ ?]|[Hf _]]; [done|]. simpl in Hs. congruence.
Qed.

(** The accepting branch: the compare-and-swap decides. *)
Lemma accept_spec r0 a s now :
  placing r0 s → as_RequestID a = RequestID r0 → as_ReservationToken a = RequestID r0 →
  let s1 := set_inflight (snd (MarkSeeder (RequestID r0) (as_AssignedSeeder a) (as_SeederPubkey a)
                                 (inflight s))) s in
  match Transition (RequestID r0) StateSelecting StateAssigned now (inflight s1) with
  | (Ok _, f) => admitted r0 a (set_inflight f s1)
  | (Err _, f) => placing r0 (set_inflight f s1)
  end.
Proof.
  intros Hp Hid Htok s1.
  destruct (placing_MarkSeeder r0 (as_AssignedSeeder a) (as_SeederPubkey a) s Hp)
    as (Hp1 & r & Hg & Ho & Hsd & Hpk & Hslot).
  fold s1 in Hp1. change (Session.Get (RequestID r0) (inflight s1) = Some r) in Hg.
  destruct Hp1 as (Hok & r' & Hg' & Hrest). assert (r' = r) as -> by congruence. clear Hg'.
  destruct (Transition_spec _ StateSelecting StateAssigned now _ _ (so_inflight _ Hok) Hg)
    as (f' & -> & Hwf' & Hgf). specialize (Hgf (RequestID r0)).
  assert (session_ok (set_inflight f' s1)) as Hok' by (constructor; simpl; [done|apply Hok]).
  destruct (decide (rq_State r = StateSelecting)) as [Hs|Hs].
  - rewrite decide_True in Hgf by done. split; [done|]. split; [done|]. split; [done|].
    eexists. split; [exact Hgf|]. split; [exact Ho|]. split; [done|]. split; [done|].
    split; [done|]. exact (Hslot Hs).
  - rewrite decide_False in Hgf by tauto. split; [done|]. exists r. split; [by rewrite <- Hg|].
    exact Hrest.
Qed.

Lemma offerLoop_spec atts body envHash r0 n i tried any s :
  (∀ i s, session_ok s → interferes (RequestID r0) s (att_Env (atts i) s)) →
  placing r0 s →
  let '(out, s') := offerLoop cfg n i atts body (RequestID r0) envHash tried any s in
  loop_post atts body r0 out s'.
Proof.
  intros Henv. revert i tried any s. induction n as [|n IH]; intros i tried any s Hp; [done|].
  cbn [offerLoop].
  destruct (Pick _ body _ _ cfg tried) as [|cand rest] eqn:Epick; [done|].
  set (id := sr_IdentityID (cand_Record cand)).
  destruct (IncLoad id (w_reg s)) as [[load|e] r].
  2:{ apply IH. by eapply placing_mgr; [|exact Hp]. }
  assert (placing r0 (att_Env (atts i) (set_reg r s))) as Hp1.
  { eapply placing_interferes; [|apply Henv].
    - by eapply placing_mgr; [|exact Hp].
    - destruct Hp as ([? ?] & _). by constructor. }
  revert Hp1. generalize (att_Env (atts i) (set_reg r s)) as s1. intros s1 Hp1.
  assert (placing r0 (dec_load id s1)) as Hdec by (by eapply placing_mgr; [|exact Hp1]).
  destruct (runOffer _ _ _ _ _) as [| |eph|]; [by apply IH|by apply IH| |by apply failAndRelease_gives_up].
  pose proof (accept_spec r0 {| as_SeederAddr := nc_ExternalAddr (sr_NetCoords (cand_Record cand));
                 as_SeederPubkey := eph; as_ReservationToken := RequestID r0;
                 as_RequestID := RequestID r0; as_AssignedSeeder := id |} s1 (att_Now (atts i)) Hp1
                 eq_refl eq_refl) as Ha.
  cbn [as_AssignedSeeder as_SeederPubkey] in Ha. cbv zeta in Ha.
  destruct (Transition _ _ _ _ _) as [[u|e] f].
  - split; [exact Ha|]. exists i, tried, (cand_Record cand). split; [done|].
    assert (cand ∈ cand :: rest) as Hin by left. rewrite <- Epick in Hin.
    by apply elem_of_Pick in Hin as (_ & ? & _).
  - apply failAndRelease_gives_up. by eapply placing_mgr; [|exact Ha].
Qed.

(** C6: what [Submit] leaves behind. Whatever else runs during the offer round-trips, the
    reaper included, as long as it does no more to the request than the reaper does: if
    the request is admitted, its record is ASSIGNED to the seeder and ephemeral key the
    assignment names, that seeder was eligible when it was chosen, and the consumer's
    slot for the request is open and holds exactly [MaxCost]; otherwise, either nothing
    has changed at all, or the slot is gone and the request is FAILED. *)
Theorem Submit_outcomes isFrozen archive requestID atts now env s :
  session_ok s →
  (∀ i s, session_ok s → interferes requestID s (att_Env (atts i) s)) →
  let '(out, s') := Submit cfg pricing ttl isFrozen archive (Some requestID) atts now env s in
  match out with
  | Ok (OutcomeAdmit a) =>
      ∃ body cost bytes_, env = Some (Some body) ∧ MaxCost pricing (Some body) = Ok cost ∧
        marshal_EnvelopeBody body = Some bytes_ ∧
        admitted (new_request requestID body (sha256 bytes_) cost now) a s' ∧
        ∃ i tried rec, sr_IdentityID rec = as_AssignedSeeder a ∧
          eligible_seeder body (att_IsFrozen (atts i)) cfg tried rec
  | _ => s' = s ∨
      ∃ r0, RequestID r0 = requestID ∧ given_up r0 s'
  end.
Proof.
  intros Hok Henv. unfold Submit.
  destruct env as [[body|]|]; [|by left..].
  destruct (checkFrozen _ _ _ _) as [[]|]; [|by left].
  destruct (MaxCost _ _) as [cost|] eqn:Ecost; [|by left].
  destruct (marshal_EnvelopeBody body) as [bodyBytes|] eqn:Em; [|by left].
  unfold submitReserved. cbv zeta.
  destruct (Reserve _ _ _ _ _ _) as [[u|e] r] eqn:Er; [|destruct e; by left].
  pose proof (Reserve_inv requestID (copy32 (env_ConsumerId body)) cost (proof_credits body)
                (now + ttl * Second) _ (so_reservations _ Hok)) as Hri.
  rewrite Er in Hri. apply Reserve_Ok in Er as (_ & _ & Hr).
  set (r0 := new_request requestID body (sha256 bodyBytes) cost now).
  set (s1 := set_inflight _ _).
  assert (placing r0 s1) as Hp.
  { split; [constructor; simpl; [apply Insert_wf, Hok|exact Hri]|]. exists r0.
    split; [simpl; rewrite Get_Insert by apply Hok; by rewrite decide_True|].
    split; [done|]. left. split; [done|]. eexists. simpl. rewrite Hr. simpl.
    rewrite lookup_insert_eq. split; [done|]. done. }
  pose proof (offerLoop_spec atts body (sha256 bodyBytes) r0 (Z.to_nat (cfg_MaxOfferAttempts cfg)) 0
                [] false s1 Henv Hp) as Hl.
  change (RequestID r0) with requestID in Hl.
  destruct (offerLoop _ _ _ _ _ _ _ _ _ _) as [[[[a|] any]|e] s2]; simpl in Hl.
  - exists body, cost, bodyBytes. destruct Hl as [? ?]. done.
  - right. exists r0. split; [done|]. by apply (failAndRelease_gives_up r0).
  - right. by exists r0.
Qed.
End submit_spec.

(** ** Load *)

Definition bump (rec : SeederRecord) : SeederRecord := with_load (sr_Load rec + 1) rec.

(** The state of the registry as one map of records whose load can be raised. *)
Definition loads_ok (m : shard) : Prop :=
  ∀ id rec, m !! id = Some rec → 0 <= sr_Load rec < 2 ^ 63 - 1.

Lemma inc_refines (id : bytes) (r : Registry) (m : shard) rec :
  reg_rel r m → loads_ok m → m !! id = Some rec →
  is_ok (fst (IncLoad id r)) = true ∧ reg_rel (snd (IncLoad id r)) (<[id := bump rec]> m).
Proof.
  intros Hrel Hl Hm. destruct (run_reg_op_refines (OpIncLoad id) r m Hrel) as [Ha Hr]. simpl in Ha, Hr.
  unfold update in *. rewrite Hm in Ha, Hr. simpl in Ha, Hr. specialize (Hl _ _ Hm).
  rewrite i64_id in Hr by (unfold is_i64; lia). rewrite Ha. done.
Qed.

Lemma dec_undoes_inc (id : bytes) (r : Registry) (m : shard) rec :
  reg_rel r (<[id := bump rec]> m) → loads_ok m → m !! id = Some rec → reg_rel (snd (DecLoad id r)) m.
Proof.
  intros Hrel Hl Hm. destruct (run_reg_op_refines (OpDecLoad id) r _ Hrel) as [_ Hr]. simpl in Hr.
  unfold update in *. rewrite lookup_insert_eq in Hr. unfold dec_load_fn in Hr. specialize (Hl _ _ Hm).
  simpl in Hr. destruct (_ <=? 0) eqn:E; bool_to_prop; [lia|]. simpl in Hr.
  rewrite insert_insert_eq, i64_id in Hr by (unfold is_i64; lia).
  replace (sr_Load rec + 1 - 1) with (sr_Load rec) in Hr by lia.
  rewrite insert_id in Hr; [done|]. rewrite Hm. by destruct rec.
Qed.

Lemma elem_of_Match (f : Filter) (r : Registry) (m : shard) (rec : SeederRecord) :
  reg_rel r m → rec ∈ Match f r → m !! sr_IdentityID rec = Some rec.
Proof.
  intros Hrel Hin. unfold Match in Hin. apply list_elem_of_In, List.filter_In in Hin as [Hin _].
  apply list_elem_of_In in Hin. unfold Snapshot in Hin.
  apply list_elem_of_bind in Hin as (sh & Hin & Hsh). apply list_elem_of_lookup in Hsh as [i Hi].
  unfold snapshot in Hin. apply list_elem_of_fmap in Hin as ([id rec'] & -> & Hin). simpl.
  apply elem_of_map_to_list in Hin. destruct (rr_place _ _ Hrel _ _ _ _ Hi Hin) as [Hix ->].
  rewrite <- (rr_get _ _ Hrel). unfold Registry.Get, shardFor. by rewrite Hix, Hi.
Qed.

Section submit_load.
Context `{Crypto} `{Wire}.
Variables (cfg : BrokerConfig) (pricing : PriceTable) (ttl : Z).

Definition load_post (m : shard) (a : option Assignment) (r : Registry) : Prop :=
  match a with
  | None => reg_rel r m
  | Some a => ∃ rec, m !! as_AssignedSeeder a = Some rec ∧ reg_rel r (<[as_AssignedSeeder a := bump rec]> m)
  end.

Definition admitted_to (out : res BErr (option Assignment * bool)) : option Assignment :=
  match out with Ok (a, _) => a | Err _ => None end.

Lemma offerLoop_load atts body id envHash n i tried any s m :
  (∀ i s, w_reg (att_Env (atts i) s) = w_reg s) → reg_rel (w_reg s) m → loads_ok m →
  let '(out, s') := offerLoop cfg n i atts body id envHash tried any s in
  load_post m (admitted_to out) (w_reg s').
Proof.
  intros Henv. revert i tried any s. induction n as [|n IH]; intros i tried any s Hrel Hl; [done|].
  cbn [offerLoop].
  destruct (Pick _ body _ _ cfg tried) as [|cand rest] eqn:Epick; [done|].
  set (sid := sr_IdentityID (cand_Record cand)).
  assert (m !! sid = Some (cand_Record cand)) as Hm.
  { assert (cand ∈ cand :: rest) as Hin by left. rewrite <- Epick in Hin.
    apply elem_of_Pick in Hin as (Hin & _). by eapply elem_of_Match. }
  destruct (inc_refines sid (w_reg s) m _ Hrel Hl Hm) as [Hok Hrel1].
  destruct (IncLoad sid (w_reg s)) as [[load|e] r]; [|done]. cbn [snd] in Hrel1.
  pose proof (Henv i (set_reg r s)) as Hw. cbn [set_reg w_reg] in Hw.
  revert Hw. generalize (att_Env (atts i) (set_reg r s)) as s1. intros s1 Hw.
  assert (reg_rel (w_reg (dec_load sid s1)) m) as Hdec
    by (unfold dec_load; cbn [set_reg w_reg]; rewrite Hw; by eapply dec_undoes_inc).
  destruct (runOffer _ _ _ _ _) as [| |eph|]; [by apply IH|by apply IH| |exact Hdec].
  destruct (Transition _ _ _ _ _) as [[u|e] f].
  - exists (cand_Record cand). split; [exact Hm|]. cbn [set_inflight w_reg]. by rewrite Hw.
  - exact Hdec.
Qed.

(** Load is never leaked by placing a request. When nothing else touches the registry
    during the round-trips, [Submit] leaves every seeder's record as it was, except that
    an admitted request adds exactly one to the load of the seeder it was assigned to:
    every offer that fails gives back the load it took. *)
Lemma Submit_load_balanced isFrozen archive requestID atts now env s m :
  reg_rel (w_reg s) m → loads_ok m → (∀ i s, w_reg (att_Env (atts i) s) = w_reg s) →
  let '(out, s') := Submit cfg pricing ttl isFrozen archive requestID atts now env s in
  match out with
  | Ok (OutcomeAdmit a) =>
      ∃ rec, m !! as_AssignedSeeder a = Some rec ∧
        reg_rel (w_reg s') (<[as_AssignedSeeder a := bump rec]> m)
  | _ => reg_rel (w_reg s') m
  end.
Proof.
  intros Hrel Hl Henv. unfold Submit.
  destruct env as [[body|]|]; [|done..].
  destruct (checkFrozen _ _ _ _) as [[]|]; [|done].
  destruct (MaxCost _ _) as [cost|]; [|done].
  destruct requestID as [id|]; [|done].
  destruct (marshal_EnvelopeBody body) as [bodyBytes|]; [|done].
  unfold submitReserved. cbv zeta.
  destruct (Reserve _ _ _ _ _ _) as [[u|e] r]; [|by destruct e].
  set (s1 := set_inflight _ _).
  pose proof (offerLoop_load atts body id (sha256 bodyBytes) (Z.to_nat (cfg_MaxOfferAttempts cfg)) 0
                [] false s1 m Henv Hrel Hl) as Hp.
  destruct (offerLoop _ _ _ _ _ _ _ _ _ _) as [[[[a|] any]|e] s2]; exact Hp.
Qed.
End submit_load.

(** Two seeders are registered; the first offer is declined while the reaper runs, the
    second accepted. *)
Definition witness_broker : BState := {|
  w_reg := foldl (λ r rec, Register rec r) {| shards := replicate 2 ∅ |}
             [witness_offerer Byte.x05 f64_one; witness_offerer Byte.x06 f64_one];
  w_mgr := Session.New; w_store := empty_store; w_pending := ∅ |}.

Definition witness_atts (i : nat) : Attempt := {|
  att_Score := λ _, f64_one; att_IsFrozen := λ _, false;
  att_Pusher := λ id _,
    if decide (id = replicate 32 Byte.x05) then TimerFired
    else DecisionReceived (Some {| od_Accept := true; od_EphemeralPubkey := [Byte.x55] |});
  att_Env := runReap 5; att_Now := 6 |}.

Definition witness_submit (s : BState) : res BErr Result * BState :=
  @Submit ToyCrypto ToyWire witness_config DefaultPriceTable 600 (λ _, false) (Some no_faults)
    (Some (replicate 16 Byte.x01)) witness_atts 4 (Some (Some (witness_env 100 20))) s.

Lemma Submit_outcomes_witness :
  ∃ a s', witness_submit witness_broker = (Ok (OutcomeAdmit a), s') ∧
    as_AssignedSeeder a = replicate 32 Byte.x06 ∧
    ∃ r, Session.Get (replicate 16 Byte.x01) (inflight s') = Some r ∧ rq_State r = StateAssigned ∧
      MaxCostReserved r = 600 ∧ slot_of (replicate 16 Byte.x01) r s'.
Proof.
  assert (Ha : match fst (witness_submit witness_broker) with
               | Ok (OutcomeAdmit a) => as_AssignedSeeder a = replicate 32 Byte.x06 | _ => False end)
    by (vm_compute; reflexivity).
  assert (Hok : session_ok witness_broker) by (constructor; [apply NewInflight_wf|apply res_inv_new]).
  pose proof (@Submit_outcomes ToyCrypto ToyWire witness_config DefaultPriceTable 600 (λ _, false)
    (Some no_faults) (replicate 16 Byte.x01) witness_atts 4 (Some (Some (witness_env 100 20)))
    witness_broker Hok (λ i s Hs, runReap_interferes (replicate 16 Byte.x01) 5 s Hs)) as H.
  fold (witness_submit witness_broker) in H.
  destruct (witness_submit witness_broker) as [[[a|w]|e] s']; [|destruct Ha..].
  exists a, s'. split; [reflexivity|]. split; [exact Ha|].
  destruct H as (body & cost & by_ & Henv & Hcost & _ & Hadm & _).
  destruct Hadm as (_ & _ & _ & r & Hg & Ho & Hst & _ & _ & Hs).
  exists r. split; [exact Hg|]. split; [exact Hst|]. split; [|exact Hs].
  destruct Ho as (_ & _ & _ & _ & ->). injection Henv as <-.
  assert (Hc : MaxCost DefaultPriceTable (Some (witness_env 100 20)) = Ok 600)
    by (vm_compute; reflexivity).
  rewrite Hc in Hcost. injection Hcost as <-. reflexivity.
Defined.

Definition witness_map : shard :=
  <[replicate 32 Byte.x06 := witness_offerer Byte.x06 f64_one]>
  (<[replicate 32 Byte.x05 := witness_offerer Byte.x05 f64_one]> ∅).

Definition quiet_atts (i : nat) : Attempt := {|
  att_Score := att_Score (witness_atts i); att_IsFrozen := att_IsFrozen (witness_atts i);
  att_Pusher := att_Pusher (witness_atts i); att_Env := λ s, s; att_Now := 6 |}.

Lemma Submit_load_balanced_witness :
  let '(out, s') := @Submit ToyCrypto ToyWire witness_config DefaultPriceTable 600 (λ _, false) None
    (Some (replicate 16 Byte.x01)) quiet_atts 4 (Some (Some (witness_env 100 20))) witness_broker in
  is_ok out = true ∧
  sr_Load <$> Registry.Get (replicate 32 Byte.x05) (w_reg s') = Some 0 ∧
  sr_Load <$> Registry.Get (replicate 32 Byte.x06) (w_reg s') = Some 1.
Proof.
  assert (Hrel : reg_rel (w_reg witness_broker) witness_map).
  { unfold witness_broker, witness_map. cbn [w_reg foldl].
    apply (run_reg_op_refines (OpRegister (witness_offerer Byte.x06 f64_one))).
    apply (run_reg_op_refines (OpRegister (witness_offerer Byte.x05 f64_one))).
    by apply (New_rel 2). }
  assert (Hl : loads_ok witness_map).
  { intros id rec Hm. unfold witness_map in Hm.
    apply lookup_insert_Some in Hm as [[_ <-]|[_ Hm]]; [cbn; lia|].
    apply lookup_insert_Some in Hm as [[_ <-]|[_ Hm]]; [cbn; lia|]. by rewrite lookup_empty in Hm. }
  assert (Ha : match fst (@Submit ToyCrypto ToyWire witness_config DefaultPriceTable 600 (λ _, false) None
      (Some (replicate 16 Byte.x01)) quiet_atts 4 (Some (Some (witness_env 100 20))) witness_broker) with
    | Ok (OutcomeAdmit a) => as_AssignedSeeder a = replicate 32 Byte.x06 | _ => False end)
    by (vm_compute; reflexivity).
  pose proof (@Submit_load_balanced ToyCrypto ToyWire witness_config DefaultPriceTable 600 (λ _, false)
    None (Some (replicate 16 Byte.x01)) quiet_atts 4 (Some (Some (witness_env 100 20)))
    witness_broker witness_map Hrel Hl (λ _ _, eq_refl)) as H.
  destruct (Submit _ _ _ _ _ _ _ _ _ _) as [[[a|w]|e] s']; [|destruct Ha..].
  cbn [fst] in Ha. destruct H as (rec & Hm & Hr). rewrite Ha in Hm, Hr. split; [reflexivity|].
  rewrite !(rr_get _ _ Hr). split; [vm_compute; reflexivity|].
  rewrite lookup_insert_eq. unfold witness_map in Hm. rewrite lookup_insert_eq in Hm.
  injection Hm as <-. reflexivity.
Defined.
