(* ===== verification/Queue.v ===== *)
(** tracker/internal/broker/queue_drain.go: envelopes that wait for capacity.

    [q_queued] is the broker's [pendingQueued]: an entry owns a delivery channel of capacity
    one, and a goroutine that hands what arrives on it to the waiting call, or ends without
    a word when the channel is closed empty. A delivery is therefore a pair of the queued
    request's id and its result. Which requests admission pops is an argument. *)
From S2P Require Import Prelude Proto Signing Storage Session Registry Broker.
From Stdlib Require Import Floats.SpecFloat.

Record QState := { q_state : BState; q_queued : gmap bytes EnvelopeBody }.

Definition RegisterQueued (env : option EnvelopeSigned) (requestID : bytes) (q : QState) : QState :=
  match env with
  | Some {| es_Body := Some body |} =>
      {| q_state := q_state q; q_queued := <[requestID := body]> (q_queued q) |}
  | _ => q
  end.

Definition CancelQueued (requestID : bytes) (q : QState) : QState :=
  {| q_state := q_state q; q_queued := delete requestID (q_queued q) |}.

(** The lowest priority admission is asked for: 0.5 (pressure - 1) above a pressure of 1. *)
Definition minServePriority (pressure : spec_float) : spec_float :=
  if SFltb f64_one pressure
  then f64_mul (S754_finite false 4503599627370496 (-53)) (f64_sub pressure f64_one)
  else f64_zero.

(** One entry admission popped, and the circumstances of its [Submit]. *)
Record Pop := {
  pop_RequestID : bytes; pop_isFrozen : bytes → bool; pop_archive : option Faults;
  pop_newID : option bytes; pop_atts : nat → Attempt; pop_now : Z
}.

Section queue.
Context `{Crypto} `{Wire}.
Variables (cfg : BrokerConfig) (pricing : PriceTable) (ReservationTTLS : Z).

(** [drainOnce], over the entries [PopReadyForBroker] returns until it reports none. *)
Fixpoint drainOnce (pops : list Pop) (q : QState) : list (bytes * Result) * QState :=
  match pops with
  | [] => ([], q)
  | p :: pops' =>
    match q_queued q !! pop_RequestID p with
    | None => drainOnce pops' q
    | Some body =>
      let queued := delete (pop_RequestID p) (q_queued q) in
      let '(out, s) := Submit cfg pricing ReservationTTLS (pop_isFrozen p) (pop_archive p) (pop_newID p)
                         (pop_atts p) (pop_now p) (Some (Some body)) (q_state q) in
      let result := match out with Ok r => r | Err _ => OutcomeNoCapacity "broker_error" end in
      let '(rest, q') := drainOnce pops' {| q_state := s; q_queued := queued |} in
      ((pop_RequestID p, result) :: rest, q')
    end
  end.
End queue.

(** ** Lemmas *)

Section queue_spec.
Context `{Crypto} `{Wire}.
Variables (cfg : BrokerConfig) (pricing : PriceTable) (ttl : Z).

Lemma drainOnce_spec pops q :
  let '(out, q') := drainOnce cfg pricing ttl pops q in
  NoDup out.*1 ∧
  (∀ id, id ∈ out.*1 ↔ id ∈ pop_RequestID <$> pops ∧ is_Some (q_queued q !! id)) ∧
  (∀ id, q_queued q' !! id = if decide (id ∈ pop_RequestID <$> pops) then None else q_queued q !! id).
Proof.
  revert q. induction pops as [|p pops IH]; intros q; cbn [drainOnce].
  { split; [constructor|]. split; [|done]. intros id. simpl. rewrite elem_of_nil. tauto. }
  rewrite fmap_cons. destruct (q_queued q !! pop_RequestID p) as [body|] eqn:Eq.
  - destruct (Submit _ _ _ _ _ _ _ _ _ _) as [res s].
    specialize (IH {| q_state := s; q_queued := delete (pop_RequestID p) (q_queued q) |}).
    destruct (drainOnce _ _ _ pops _) as [rest q']. cbn [q_queued fst] in *.
    destruct IH as (Hn & Hin & Hq). rewrite fmap_cons. cbn [fst]. split_and!.
    + apply NoDup_cons. split; [|done]. rewrite Hin, lookup_delete_eq. intros [_ [? ?]]. done.
    + intros id. rewrite !elem_of_cons, Hin.
      destruct (decide (id = pop_RequestID p)) as [->|Hne]; [rewrite Eq; naive_solver|].
      rewrite lookup_delete_ne by done. naive_solver.
    + intros id. rewrite Hq. destruct (decide (id = pop_RequestID p)) as [->|Hne].
      * rewrite lookup_delete_eq, (decide_True (P := _ ∈ _ :: _)) by left. by destruct (decide _).
      * rewrite lookup_delete_ne by done.
        destruct (decide (id ∈ pop_RequestID <$> pops)) as [Hi|Hi].
        -- rewrite decide_True; [done|by right].
        -- rewrite decide_False; [done|]. by intros [?|?]%elem_of_cons.
  - specialize (IH q). destruct (drainOnce _ _ _ pops q) as [rest q']. destruct IH as (Hn & Hin & Hq).
    split; [done|]. split.
    + intros id. rewrite Hin, elem_of_cons. split; [naive_solver|]. intros [[->|?] Hs]; [|done].
      rewrite Eq in Hs. by destruct Hs.
    + intros id. rewrite Hq. destruct (decide (id = pop_RequestID p)) as [->|Hne].
      * rewrite (decide_True (P := _ ∈ _ :: _)) by left. by destruct (decide _).
      * destruct (decide (id ∈ pop_RequestID <$> pops)) as [Hi|Hi].
        -- rewrite decide_True; [done|by right].
        -- rewrite decide_False; [done|]. by intros [?|?]%elem_of_cons.
Qed.
End queue_spec.

(** ** Registrations and deliveries *)

Inductive queue_op :=
| QRegister (env : option EnvelopeSigned) (requestID : bytes)
| QCancel (requestID : bytes)
| QDrain (pops : list Pop)
| QOther (f : BState → BState).

Definition waiting (id : bytes) (q : QState) : Z := if q_queued q !! id then 1 else 0.

Definition delivered (id : bytes) (out : list (bytes * Result)) : Z :=
  lsum (λ d, if decide (d.1 = id) then 1 else 0) out.

(** A registration that has an envelope to submit. *)
Definition registers (id : bytes) (op : queue_op) : Z :=
  match op with
  | QRegister (Some {| es_Body := Some _ |}) rid => if decide (rid = id) then 1 else 0
  | _ => 0
  end.

Section queue_runs.
Context `{Crypto} `{Wire}.
Variables (cfg : BrokerConfig) (pricing : PriceTable) (ttl : Z).

Definition run_queue_op (op : queue_op) (q : QState) : list (bytes * Result) * QState :=
  match op with
  | QRegister env id => ([], RegisterQueued env id q)
  | QCancel id => ([], CancelQueued id q)
  | QDrain pops => drainOnce cfg pricing ttl pops q
  | QOther f => ([], {| q_state := f (q_state q); q_queued := q_queued q |})
  end.

Fixpoint run_queue (ops : list queue_op) (q : QState) : list (bytes * Result) * QState :=
  match ops with
  | [] => ([], q)
  | op :: ops' =>
    let '(out, q1) := run_queue_op op q in
    let '(rest, q2) := run_queue ops' q1 in
    (out ++ rest, q2)
  end.

Lemma delivered_app id a b : delivered id (a ++ b) = delivered id a + delivered id b.
Proof. apply lsum_app. Qed.

Lemma delivered_nodup id out :
  NoDup out.*1 → delivered id out = if decide (id ∈ out.*1) then 1 else 0.
Proof.
  induction out as [|[id' r] out IH]; intros Hn; [done|].
  rewrite fmap_cons in *. cbn [fst] in *. apply NoDup_cons in Hn as [Hni Hn].
  change (delivered id ((id', r) :: out)) with ((if decide (id' = id) then 1 else 0) + delivered id out).
  rewrite (IH Hn).
  destruct (decide (id' = id)) as [->|Hne].
  - rewrite decide_False, decide_True by (done || left). done.
  - destruct (decide (id ∈ out.*1)) as [Hi|Hi].
    + rewrite decide_True; [done|by right].
    + rewrite decide_False; [done|]. by intros [?|?]%elem_of_cons.
Qed.

Lemma run_queue_op_balance op q id :
  let '(out, q') := run_queue_op op q in
  0 <= delivered id out ∧ delivered id out + waiting id q' <= registers id op + waiting id q.
Proof.
  destruct op as [env rid|rid|pops|f]; cbn [run_queue_op registers].
  - split; [done|]. unfold delivered. simpl lsum.
    destruct env as [[[body|] sig]|]; unfold waiting; cbn [RegisterQueued q_queued]; try lia.
    destruct (decide (rid = id)) as [->|Hne]; [rewrite lookup_insert_eq|rewrite lookup_insert_ne by done];
      destruct (q_queued q !! id); lia.
  - split; [done|]. unfold delivered, waiting. simpl lsum. cbn [CancelQueued q_queued].
    destruct (decide (rid = id)) as [->|Hne]; [rewrite lookup_delete_eq|rewrite lookup_delete_ne by done];
      destruct (q_queued q !! id); lia.
  - pose proof (drainOnce_spec cfg pricing ttl pops q) as Hs.
    destruct (drainOnce cfg pricing ttl pops q) as [out q']. destruct Hs as (Hn & Hin & Hq).
    unfold waiting. rewrite (delivered_nodup _ _ Hn), Hq.
    destruct (decide (id ∈ out.*1)) as [Hi|Hi].
    + apply Hin in Hi as [Hi [body Hb]]. rewrite decide_True, Hb by done. lia.
    + destruct (decide _), (q_queued q !! id); lia.
  - split; [done|]. unfold delivered, waiting. simpl. lia.
Qed.

(** A queued request is answered at most once, and not after it was given up. A drain
    answers exactly the requests that are popped and still queued, each once, and
    forgets them; and over any interleaving of registrations, cancellations and drains,
    the answers to a request and the entry that may still wait never exceed its
    registrations and the entry that waited at the start, so that after a cancellation
    without a new registration there are none. *)
Lemma queue_answers_once ops q pops id :
  (let '(out, q') := drainOnce cfg pricing ttl pops q in
   NoDup out.*1 ∧
   (∀ id, id ∈ out.*1 ↔ id ∈ pop_RequestID <$> pops ∧ is_Some (q_queued q !! id)) ∧
   ∀ id, q_queued q' !! id = if decide (id ∈ pop_RequestID <$> pops) then None else q_queued q !! id) ∧
  (let '(out, q') := run_queue ops q in
   delivered id out + waiting id q' <= lsum (registers id) ops + waiting id q).
Proof.
  split; [apply drainOnce_spec|].
  revert q. induction ops as [|op ops IH]; intros q; cbn [run_queue].
  - unfold delivered. simpl. lia.
  - change (lsum (registers id) (op :: ops)) with (registers id op + lsum (registers id) ops).
    pose proof (run_queue_op_balance op q id) as Ho. destruct (run_queue_op op q) as [out q1].
    specialize (IH q1). destruct (run_queue ops q1) as [rest q2]. rewrite delivered_app. lia.
Qed.
End queue_runs.
