(* ===== verification/Settlement.v ===== *)
(** tracker/internal/broker, settlement side: usage reports, the consumer's
    counter-signature and the append to the ledger.

    A handler runs as one step on the state the broker shares ([BState], Broker.v). The
    goroutine that waits for the counter-signature is a [Task]: it holds the location of
    its request object, as the code holds a pointer, and a usage record; it wakes on one
    event and then appends, one attempt at a time. [settle_step] interleaves tasks,
    handlers and the rest of the tracker at these points. *)
From S2P Require Import Prelude Proto Signing Entry Storage Ledger Session Registry Broker.

(** ** Messages and results *)

Record UsageReport := {
  rp_RequestId : bytes; rp_InputTokens : Z; rp_OutputTokens : Z; rp_Model : string;
  rp_SeederSig : bytes
}.

Record SettleRequest := { st_PreimageHash : bytes; st_ConsumerSig : bytes }.

(** The event both observers receive. *)
Record LedgerEvent := {
  ev_ConsumerID : bytes; ev_SeederID : bytes; ev_CostCredits : Z; ev_Flags : Z; ev_Timestamp : Z
}.

Inductive sigVerdict := sigVerified | sigRefused | sigUnverifiable.

#[global] Instance sigVerdict_eq_dec : EqDecision sigVerdict.
Proof. solve_decision. Defined.

(** How far a settlement goroutine is: waiting in its [select], or in the append loop with
    so many attempts left. *)
Inductive Phase := Waiting | Appending (left : nat).

Record Task := { tk_req : nat; tk_reqID : bytes; tk_rec : UsageRecord; tk_phase : Phase }.

(** What the [select] of [awaitSettle] saw. *)
Inductive AwaitEvent := SigArrived | TimerExpired | Stopped.

(** ** The pending table *)

Definition putPending (reqID : bytes) (assertion : UsageAssertion) (preSig : bytes) (s : BState)
    : bool * BState :=
  match w_pending s !! reqID with
  | Some _ => (false, s)
  | None =>
    (true, set_pending (<[reqID := {| ps_assertion := assertion; ps_preSig := preSig;
                                      ps_verified := false; ps_refused := false;
                                      ps_consumerSig := []; ps_consumerPub := [] |}]> (w_pending s)) s)
  end.

Definition getPending (reqID : bytes) (s : BState) : option pendingSettle := w_pending s !! reqID.

Definition dropPending (reqID : bytes) (s : BState) : BState :=
  set_pending (delete reqID (w_pending s)) s.

(** (verified, refused, signature, key) *)
Definition pendingVerdict (reqID : bytes) (s : BState) : bool * bool * bytes * bytes :=
  match w_pending s !! reqID with
  | None => (false, false, [], [])
  | Some p => (ps_verified p, ps_refused p, ps_consumerSig p, ps_consumerPub p)
  end.

(** Writes through the [*pendingSettle] pointer. *)
Definition mark_refused (p : pendingSettle) : pendingSettle := {|
  ps_assertion := ps_assertion p; ps_preSig := ps_preSig p; ps_verified := ps_verified p;
  ps_refused := true; ps_consumerSig := ps_consumerSig p; ps_consumerPub := ps_consumerPub p |}.

Definition mark_verified (sig pub : bytes) (p : pendingSettle) : pendingSettle := {|
  ps_assertion := ps_assertion p; ps_preSig := ps_preSig p; ps_verified := true;
  ps_refused := ps_refused p; ps_consumerSig := sig; ps_consumerPub := pub |}.

Definition on_pending (reqID : bytes) (f : pendingSettle → pendingSettle) (s : BState) : BState :=
  set_pending (alter f reqID (w_pending s)) s.

Definition overspendNumer : Z := 105.
Definition overspendDenom : Z := 100.

Definition overspent (actualCost reserved : Z) : bool :=
  u64 (reserved * overspendNumer) / overspendDenom <? actualCost.

Definition refresh_tip (t : option (Z * bytes)) (rec : UsageRecord) : UsageRecord :=
  let '(prev, seq) := match t with
                      | Some (tipSeq, tipHash) => (tipHash, u64 (tipSeq + 1))
                      | None => ([], 1)
                      end in
  {| ur_PrevHash := prev; ur_Seq := seq; ur_ConsumerID := ur_ConsumerID rec;
     ur_SeederID := ur_SeederID rec; ur_Model := ur_Model rec;
     ur_InputTokens := ur_InputTokens rec; ur_OutputTokens := ur_OutputTokens rec;
     ur_CostCredits := ur_CostCredits rec; ur_Timestamp := ur_Timestamp rec;
     ur_RequestID := ur_RequestID rec; ur_ConsumerSigMissing := ur_ConsumerSigMissing rec;
     ur_ConsumerSig := ur_ConsumerSig rec; ur_ConsumerPub := ur_ConsumerPub rec;
     ur_SeederSig := ur_SeederSig rec; ur_SeederPub := ur_SeederPub rec |}.

Definition with_verdict (missing : bool) (sig pub : bytes) (rec : UsageRecord) : UsageRecord :=
  {| ur_PrevHash := ur_PrevHash rec; ur_Seq := ur_Seq rec; ur_ConsumerID := ur_ConsumerID rec;
     ur_SeederID := ur_SeederID rec; ur_Model := ur_Model rec;
     ur_InputTokens := ur_InputTokens rec; ur_OutputTokens := ur_OutputTokens rec;
     ur_CostCredits := ur_CostCredits rec; ur_Timestamp := ur_Timestamp rec;
     ur_RequestID := ur_RequestID rec; ur_ConsumerSigMissing := missing;
     ur_ConsumerSig := sig; ur_ConsumerPub := pub;
     ur_SeederSig := ur_SeederSig rec; ur_SeederPub := ur_SeederPub rec |}.

Section settlement.
Context `{Crypto} `{Wire}.
Variables (trackerKey : bytes) (pricing : PriceTable) (StaleTipRetries : Z).

(** ** Usage reports *)

Definition report_assertion (req : Request) (r : UsageReport) (cost : Z) : UsageAssertion := {|
  ua_RequestID := rp_RequestId r; ua_ConsumerID := ConsumerID req;
  ua_SeederID := AssignedSeeder req; ua_Model := rp_Model r;
  ua_InputTokens := rp_InputTokens r; ua_OutputTokens := rp_OutputTokens r;
  ua_CostCredits := cost |}.

Definition report_record (req : Request) (r : UsageReport) (cost : Z) (t : option (Z * bytes))
    (now : Z) : UsageRecord :=
  let '(prevHash, nextSeq) := nextTip t in {|
  ur_PrevHash := prevHash; ur_Seq := nextSeq; ur_ConsumerID := ConsumerID req;
  ur_SeederID := AssignedSeeder req; ur_Model := rp_Model r;
  ur_InputTokens := rp_InputTokens r; ur_OutputTokens := rp_OutputTokens r;
  ur_CostCredits := cost; ur_Timestamp := u64 (Unix now); ur_RequestID := rp_RequestId r;
  ur_ConsumerSigMissing := false; ur_ConsumerSig := []; ur_ConsumerPub := [];
  ur_SeederSig := rp_SeederSig r; ur_SeederPub := SeederPubkey req |}.

(** Steps 2 to 4: the guards on the request; the actual cost. *)
Definition checkReport (peerID : bytes) (req : Request) (r : UsageReport) : res BErr Z :=
  if negb (bool_decide (rq_State req = StateAssigned))
     && negb (bool_decide (rq_State req = StateServing)) then Err ErrInvalidState
  else if negb (bool_decide (AssignedSeeder req = peerID)) then Err ErrSeederMismatch
  else if negb (bool_decide (env_Model <$> rq_EnvelopeBody req = Some (rp_Model r)))
  then Err ErrModelMismatch
  else match ActualCost pricing (rp_Model r) (rp_InputTokens r) (rp_OutputTokens r) with
       | Err e => Err e
       | Ok actualCost =>
         if overspent actualCost (MaxCostReserved req) then Err ErrCostOverspend else Ok actualCost
       end.

(** Steps 8 to 10: the settlement is indexed and opened, unless one is under way. *)
Definition openSettlement (now : Z) (l : nat) (req : Request) (r : UsageReport) (actualCost : Z)
    (t : option (Z * bytes)) (preSig : bytes) : GoM BState BErr Task := λ s,
  match EnsureSettleSig (rp_RequestId r) (inflight s) with
  | (Err e, f) => (Err (ErrSession e), set_inflight f s)
  | (Ok _, f) =>
    let s := set_inflight f s in
    match IndexByHash (rp_RequestId r) (sha256 preSig) (inflight s) with
    | (Err e, f) => (Err (ErrSession e), set_inflight f s)
    | (Ok _, f) =>
      let s := set_inflight f s in
      match putPending (rp_RequestId r) (report_assertion req r actualCost) preSig s with
      | (false, s) => (Err ErrDuplicateUsageReport, s)
      | (true, s) =>
        (Ok {| tk_req := l; tk_reqID := RequestID req;
               tk_rec := report_record req r actualCost t now; tk_phase := Waiting |}, s)
      end
    end
  end.

(** Steps 6 and 7: the tip, the assertion and the seeder's signature over it. *)
Definition verifyReport (io : Faults) (now : Z) (l : nat) (req : Request) (r : UsageReport)
    (actualCost : Z) : GoM BState BErr Task := λ s,
  match Tip io (w_store s) with
  | Err e => (Err (ErrBStore e), s)
  | Ok t =>
    let assertion := report_assertion req r actualCost in
    match CanonicalUsageAssertionPreSig assertion with
    | Err e => (Err (ErrBroker e), s)
    | Ok preSig =>
      if negb (VerifyUsageAssertion (SeederPubkey req) assertion (rp_SeederSig r))
      then (Err ErrSeederSigInvalid, s)
      else openSettlement now l req r actualCost t preSig s
    end
  end.

(** Step 5. The request's fields are read through the pointer, but no field read after the
    transition is one it writes. *)
Definition acceptReport (io : Faults) (now : Z) (l : nat) (req : Request) (r : UsageReport)
    (actualCost : Z) : GoM BState BErr Task := λ s,
  match Transition (rp_RequestId r) StateAssigned StateServing now (inflight s) with
  | (Err ErrUnknownRequest, f) => (Err (ErrSession ErrUnknownRequest), set_inflight f s)
  | (_, f) => verifyReport io now l req r actualCost (set_inflight f s)
  end.

Definition HandleUsageReport (io : Faults) (now : Z) (peerID : bytes) (r : option UsageReport)
    : GoM BState BErr Task := λ s,
  match r with
  | None => (Err (ErrBroker "settlement: malformed UsageReport"), s)
  | Some r =>
    if negb (blen (rp_RequestId r) =? 16)
    then (Err (ErrBroker "settlement: malformed UsageReport"), s) else
    match if_byID (inflight s) !! rp_RequestId r with
    | None => (Err (ErrSession ErrUnknownRequest), s)
    | Some l =>
      match if_heap (inflight s) !! l with
      | None => (Err (ErrSession ErrUnknownRequest), s)
      | Some req =>
        match checkReport peerID req r with
        | Err e => (Err e, s)
        | Ok actualCost => acceptReport io now l req r actualCost s
        end
      end
    end
  end.

(** ** The consumer's counter-signature *)

(** [PeerPubkey] is the resolver: [None] when none is wired. *)
Definition verifyConsumerSig (PeerPubkey : option (bytes → option bytes)) (req : Request) (sig : bytes)
    (s : BState) : sigVerdict * BState :=
  match PeerPubkey with
  | None => (sigUnverifiable, s)
  | Some resolve =>
    match getPending (RequestID req) s with
    | None => (sigUnverifiable, s)
    | Some p =>
      if blen (ps_preSig p) =? 0 then (sigUnverifiable, s) else
      match resolve (ConsumerID req) with
      | None => (sigUnverifiable, s)
      | Some pub =>
        if negb (blen pub =? PublicKeySize) then (sigUnverifiable, s)
        else if negb (VerifyUsageAssertion pub (ps_assertion p) sig)
        then (sigRefused, on_pending (RequestID req) mark_refused s)
        else (sigVerified, on_pending (RequestID req) (mark_verified sig pub) s)
      end
    end
  end.

(** The non-blocking send on the request's channel. *)
Definition dispatchSig (l : nat) (req : Request) (sig : bytes) : GoM BState BErr unit := λ s,
  match SettleSig req with
  | Some None => (Ok tt, set_inflight (update_at l (set_sig (Some (Some sig))) (inflight s)) s)
  | _ => (Err ErrDuplicateSettle, s)
  end.

Definition HandleSettle (PeerPubkey : option (bytes → option bytes)) (peerID : bytes)
    (r : option SettleRequest) : GoM BState BErr unit := λ s,
  match r with
  | None => (Err (ErrBroker "settlement: malformed Settle"), s)
  | Some r =>
    if negb (blen (st_PreimageHash r) =? 32)
    then (Err (ErrBroker "settlement: malformed Settle"), s) else
    match if_byHash (inflight s) !! st_PreimageHash r with
    | None => (Err ErrUnknownPreimage, s)
    | Some l =>
      match if_heap (inflight s) !! l with
      | None => (Err ErrUnknownPreimage, s)
      | Some req =>
        if negb (bool_decide (ConsumerID req = peerID)) then (Err ErrSeederMismatch, s)
        else if bool_decide (SettleSig req = None) then (Err ErrUnknownPreimage, s)
        else
          match verifyConsumerSig PeerPubkey req (st_ConsumerSig r) s with
          | (sigRefused, s) => (Err ErrConsumerSig, s)
          | (_, s) => dispatchSig l req (st_ConsumerSig r) s
          end
      end
    end
  end.

(** ** The append *)

(** One iteration of the loop of [appendUsageEntry]. *)
Inductive Attempted := Retry (rec : UsageRecord) | Finished (r : res LErr unit).

Definition appendOnce (io : Faults) (rec : UsageRecord) (s : BState) : Attempted * BState :=
  match AppendUsage trackerKey io rec (w_store s) with
  | (Ok _, st) => (Finished (Ok tt), set_store st s)
  | (Err ErrStaleTip, st) =>
      let s := set_store st s in
      match Tip io (w_store s) with
      | Err e => (Finished (Err (ErrStore "ledger: tip" e)), s)
      | Ok t => (Retry (refresh_tip t rec), s)
      end
  | (Err e, st) => (Finished (Err e), set_store st s)
  end.

Definition ledger_event (req : Request) (rec : UsageRecord) : LedgerEvent := {|
  ev_ConsumerID := ConsumerID req; ev_SeederID := AssignedSeeder req;
  ev_CostCredits := ur_CostCredits rec; ev_Flags := if ur_ConsumerSigMissing rec then 1 else 0;
  ev_Timestamp := i64 (ur_Timestamp rec) |}.

(** What follows the loop. [None] is a pointer to no object, which cannot happen. *)
Definition finishAppend (appendErr : option LErr) (l : nat) (rec : UsageRecord) (now : Z) (s : BState)
    : option LedgerEvent * BState :=
  match if_heap (inflight s) !! l with
  | None => (None, s)
  | Some req =>
    match appendErr with
    | Some _ => (None, transition (RequestID req) StateServing StateFailed now s)
    | None =>
      (Some (ledger_event req rec),
       transition (RequestID req) StateServing StateCompleted now
         (dec_load (AssignedSeeder req) (release (RequestID req) s)))
    end
  end.

(** What may differ between attempts: failing database calls, and what the rest of the
    tracker did before this one. *)
Record AppendEnv := { ae_io : Faults; ae_env : BState → BState }.

Fixpoint appendLoop (n i : nat) (envs : nat → AppendEnv) (rec : UsageRecord) (last : option LErr)
    (s : BState) : option LErr * UsageRecord * BState :=
  match n with
  | O => (last, rec, s)
  | S n' =>
    match appendOnce (ae_io (envs i)) rec (ae_env (envs i) s) with
    | (Finished (Ok _), s) => (None, rec, s)
    | (Finished (Err e), s) => (Some e, rec, s)
    | (Retry rec, s) => appendLoop n' (S i) envs rec (Some ErrStaleTip) s
    end
  end.

Definition appendUsageEntry (envs : nat → AppendEnv) (l : nat) (rec : UsageRecord) (now : Z) (s : BState)
    : option LedgerEvent * BState :=
  let '(appendErr, rec, s) := appendLoop (Z.to_nat (StaleTipRetries + 1)) 0 envs rec None s in
  finishAppend appendErr l rec now s.

(** The [select] of [awaitSettle]: the record to append, if any. Receiving empties the
    channel. *)
Definition wake (ev : AwaitEvent) (t : Task) (s : BState) : option UsageRecord * BState :=
  let '(verified, refused, sig, pub) := pendingVerdict (tk_reqID t) s in
  match ev with
  | SigArrived =>
      let s := set_inflight (update_at (tk_req t) (set_sig (Some None)) (inflight s)) s in
      if refused then (None, s)
      else (Some (if verified then with_verdict false sig pub (tk_rec t)
                  else with_verdict true [] [] (tk_rec t)), s)
  | TimerExpired => if refused then (None, s) else (Some (with_verdict true [] [] (tk_rec t)), s)
  | Stopped => (None, s)
  end.

(** The whole goroutine, [dropPending] deferred. *)
Definition awaitSettle (ev : AwaitEvent) (envs : nat → AppendEnv) (now : Z) (t : Task) (s : BState)
    : option LedgerEvent * BState :=
  let '(out, s) :=
    match wake ev t s with
    | (None, s) => (None, s)
    | (Some rec, s) => appendUsageEntry envs (tk_req t) rec now s
    end in
  (out, dropPending (tk_reqID t) s).
End settlement.

(** ** The interleaving *)

Record SState := { ss_b : BState; ss_tasks : list Task }.

Definition advance (t : Task) (rec : UsageRecord) (ph : Phase) : Task :=
  {| tk_req := tk_req t; tk_reqID := tk_reqID t; tk_rec := rec; tk_phase := ph |}.

Definition err_of {A} (r : res LErr A) : option LErr := match r with Ok _ => None | Err e => Some e end.

Section interleaving.
Context `{Crypto} `{Wire}.
Variables (trackerKey : bytes) (pricing : PriceTable) (StaleTipRetries : Z).

(** What else runs: anything that leaves the pending table alone. Only the settlement
    side writes it. *)
Inductive settle_step : SState → SState → Prop :=
| step_report io now peer r b t b' ts :
    HandleUsageReport pricing io now peer r b = (Ok t, b') →
    settle_step {| ss_b := b; ss_tasks := ts |} {| ss_b := b'; ss_tasks := t :: ts |}
| step_report_refused io now peer r b e b' ts :
    HandleUsageReport pricing io now peer r b = (Err e, b') →
    settle_step {| ss_b := b; ss_tasks := ts |} {| ss_b := b'; ss_tasks := ts |}
| step_settle resolve peer r b ts :
    settle_step {| ss_b := b; ss_tasks := ts |}
                {| ss_b := snd (HandleSettle resolve peer r b); ss_tasks := ts |}
| step_wake ev t rec b b' ts1 ts2 :
    tk_phase t = Waiting → wake ev t b = (Some rec, b') →
    settle_step {| ss_b := b; ss_tasks := ts1 ++ t :: ts2 |}
      {| ss_b := b';
         ss_tasks := ts1 ++ advance t rec (Appending (Z.to_nat (StaleTipRetries + 1))) :: ts2 |}
| step_abandon ev t b b' ts1 ts2 :
    tk_phase t = Waiting → wake ev t b = (None, b') →
    settle_step {| ss_b := b; ss_tasks := ts1 ++ t :: ts2 |}
      {| ss_b := dropPending (tk_reqID t) b'; ss_tasks := ts1 ++ ts2 |}
| step_retry io t n rec b b' ts1 ts2 :
    tk_phase t = Appending (S n) → appendOnce trackerKey io (tk_rec t) b = (Retry rec, b') →
    settle_step {| ss_b := b; ss_tasks := ts1 ++ t :: ts2 |}
      {| ss_b := b'; ss_tasks := ts1 ++ advance t rec (Appending n) :: ts2 |}
| step_finish io t n r now b b' ts1 ts2 :
    tk_phase t = Appending (S n) → appendOnce trackerKey io (tk_rec t) b = (Finished r, b') →
    settle_step {| ss_b := b; ss_tasks := ts1 ++ t :: ts2 |}
      {| ss_b := dropPending (tk_reqID t)
                   (snd (finishAppend (err_of r) (tk_req t) (tk_rec t) now b'));
         ss_tasks := ts1 ++ ts2 |}
| step_exhausted t now b ts1 ts2 :
    tk_phase t = Appending 0 →
    settle_step {| ss_b := b; ss_tasks := ts1 ++ t :: ts2 |}
      {| ss_b := dropPending (tk_reqID t)
                   (snd (finishAppend (Some ErrStaleTip) (tk_req t) (tk_rec t) now b));
         ss_tasks := ts1 ++ ts2 |}
| step_other b b' ts :
    w_pending b' = w_pending b → inflight_wf (inflight b') →
    settle_step {| ss_b := b; ss_tasks := ts |} {| ss_b := b'; ss_tasks := ts |}.

Definition settle_init (b : BState) : SState := {| ss_b := set_pending ∅ b; ss_tasks := [] |}.

Definition settle_reachable (b : BState) : SState → Prop := rtc settle_step (settle_init b).
End interleaving.
