(* ===== verification/SettlementSpec.v ===== *)
(** The correctness of settlement (Settlement.v): one goroutine per request, what a report
    is accepted on, the consumer's verdict, and what the append leaves behind. *)
From S2P Require Import Prelude Proto Signing Entry Storage Ledger LedgerSpec Session.
From S2P Require Import Registry Broker BrokerSpec Settlement.

(** ** The request table *)

Lemma with_request_wf {A} id (k : nat → Request → GoM Inflight SessErr A) f :
  (∀ l r f, inflight_wf f → if_byID f !! id = Some l → inflight_wf (snd (k l r f))) →
  inflight_wf f → inflight_wf (snd (with_request id k f)).
Proof.
  intros Hk Hwf. unfold with_request. destruct (if_byID f !! id) as [l|] eqn:E; [|done].
  destruct (if_heap f !! l); [by apply Hk|done].
Qed.

Lemma Transition_wf id from to now f : inflight_wf f → inflight_wf (snd (Transition id from to now f)).
Proof.
  apply with_request_wf. intros l r f' Hwf _. unfold gbind, gguard, gmodify.
  destruct (negb _); simpl; [done|by apply update_at_wf].
Qed.

Lemma EnsureSettleSig_wf id f : inflight_wf f → inflight_wf (snd (EnsureSettleSig id f)).
Proof.
  apply with_request_wf. intros l r f' Hwf _. destruct (SettleSig r); [done|by apply update_at_wf].
Qed.

Lemma IndexByHash_wf id hash f : inflight_wf f → inflight_wf (snd (IndexByHash id hash f)).
Proof.
  apply with_request_wf. intros l r f' Hwf Hl. unfold gmodify. cbn [snd].
  assert (inflight_wf (update_at l (set_hash hash) f')) as [Hh Hi Hx] by by apply update_at_wf.
  constructor; simpl in *; [exact Hh|exact Hi|].
  intros h l' Hl'. apply lookup_insert_Some in Hl' as [[<- <-]|[_ Hl']]; [|eauto].
  destruct (Hi _ _ Hl) as (r' & Hr' & _). by eexists.
Qed.

(** What each of the three does to the request it finds. *)
Lemma EnsureSettleSig_spec id f r :
  inflight_wf f → Session.Get id f = Some r →
  ∃ f', EnsureSettleSig id f = (Ok tt, f') ∧ inflight_wf f' ∧ if_byID f' = if_byID f ∧
    Session.Get id f' = Some (set_sig (Some (default None (SettleSig r))) r).
Proof.
  intros Hwf Hg. pose proof (EnsureSettleSig_wf id f Hwf) as Hwf'.
  apply Get_Some in Hg as Hl. destruct Hl as (l & Hl & Hr).
  unfold EnsureSettleSig, with_request in *. rewrite Hl, Hr in *.
  destruct (SettleSig r) as [c|] eqn:Es; simpl in *; eexists; (split; [done|]); (split; [done|]);
    (split; [done|]).
  - rewrite Hg. rewrite <- Es. by destruct r.
  - rewrite (Get_update_at id) by done. by rewrite decide_True, Hg.
Qed.

Lemma IndexByHash_spec id hash f r :
  inflight_wf f → Session.Get id f = Some r →
  ∃ f', IndexByHash id hash f = (Ok tt, f') ∧ inflight_wf f' ∧ if_byID f' = if_byID f ∧
    Session.Get id f' = Some (set_hash hash r) ∧ LookupByHash hash f' = Some (set_hash hash r).
Proof.
  intros Hwf Hg. pose proof (IndexByHash_wf id hash f Hwf) as Hwf'.
  apply Get_Some in Hg as Hl. destruct Hl as (l & Hl & Hr).
  unfold IndexByHash, with_request in *. rewrite Hl, Hr in *. unfold gmodify in *. cbn [snd] in Hwf'.
  eexists. split; [done|]. split; [done|]. split; [done|]. split.
  - change (Session.Get id (update_at l (set_hash hash) f) = Some (set_hash hash r)).
    rewrite (Get_update_at id) by done. by rewrite decide_True, Hg.
  - unfold LookupByHash, lookup_loc. cbn [if_byHash if_heap update_at].
    rewrite lookup_insert_eq. simpl. by rewrite lookup_alter_eq, Hr.
Qed.

(** ** Accepted reports *)

Section settlement_spec.
Context `{Crypto} `{Wire}.
Variables (trackerKey : bytes) (pricing : PriceTable) (retries : Z).

Lemma checkReport_Ok peer req r cost :
  checkReport pricing peer req r = Ok cost →
  (rq_State req = StateAssigned ∨ rq_State req = StateServing) ∧ AssignedSeeder req = peer ∧
  (∃ body, rq_EnvelopeBody req = Some body ∧ env_Model body = rp_Model r) ∧
  ActualCost pricing (rp_Model r) (rp_InputTokens r) (rp_OutputTokens r) = Ok cost ∧
  cost * 100 <= u64 (MaxCostReserved req * 105).
Proof.
  unfold checkReport. intros Hc.
  destruct (negb (bool_decide (rq_State req = StateAssigned)) && _) eqn:E1; [done|].
  destruct (negb (bool_decide (AssignedSeeder req = peer))) eqn:E2; [done|].
  destruct (negb (bool_decide (_ = Some (rp_Model r)))) eqn:E3; [done|].
  destruct (ActualCost _ _ _ _) as [c|] eqn:E4; [|done].
  unfold overspent, overspendNumer, overspendDenom in Hc.
  destruct (_ <? c) eqn:E5; [done|]. injection Hc as ->. bool_to_prop.
  split_and!; [|done| |done|].
  - apply andb_false_iff in E1 as [E1|E1]; bool_to_prop; auto.
  - destruct (rq_EnvelopeBody req) as [body|]; [|done]. simpl in E3. injection E3 as E3. eauto.
  - pose proof (Z.mul_div_le (u64 (MaxCostReserved req * 105)) 100 ltac:(lia)). lia.
Qed.

(** The assertion an accepted report commits the seeder to. *)
Definition accepted (req : Request) (r : UsageReport) (cost : Z) (t : Task) (s s' : BState) : Prop :=
  ∃ preSig,
    CanonicalUsageAssertionPreSig (report_assertion req r cost) = Ok preSig ∧
    VerifyUsageAssertion (SeederPubkey req) (report_assertion req r cost) (rp_SeederSig r) = true ∧
    w_pending s !! rp_RequestId r = None ∧
    w_pending s' = <[rp_RequestId r := {| ps_assertion := report_assertion req r cost;
      ps_preSig := preSig; ps_verified := false; ps_refused := false;
      ps_consumerSig := []; ps_consumerPub := [] |}]> (w_pending s) ∧
    tk_reqID t = rp_RequestId r ∧ tk_phase t = Waiting ∧
    usage_assertion (tk_rec t) = report_assertion req r cost ∧
    ur_SeederPub (tk_rec t) = SeederPubkey req ∧ ur_SeederSig (tk_rec t) = rp_SeederSig r ∧
    (ur_PrevHash (tk_rec t), ur_Seq (tk_rec t)) = nextTip (tip_of (w_store s)) ∧
    ∃ req', Session.Get (rp_RequestId r) (inflight s') = Some req' ∧
      LookupByHash (sha256 preSig) (inflight s') = Some req' ∧
      rq_State req' = StateServing ∧ is_Some (SettleSig req').

(** Everything outside the request table and the pending table. *)
Definition same_books (s s' : BState) : Prop :=
  w_store s' = w_store s ∧ w_reg s' = w_reg s ∧ reservations s' = reservations s.

Lemma Tip_tip_of io st t : Tip io st = Ok t → t = tip_of st.
Proof. unfold Tip. destruct (io _); [done|]. by intros [= <-]. Qed.

Lemma Transition_serving id now f r :
  inflight_wf f → Session.Get id f = Some r → (rq_State r = StateAssigned ∨ rq_State r = StateServing) →
  ∃ out f' r', Transition id StateAssigned StateServing now f = (out, f') ∧
    out ≠ Err ErrUnknownRequest ∧ inflight_wf f' ∧ Session.Get id f' = Some r' ∧
    rq_State r' = StateServing ∧ SettleSig r' = SettleSig r.
Proof.
  intros Hwf Hg Hst.
  destruct (Transition_spec id StateAssigned StateServing now f r Hwf Hg) as (f' & Ht & Hwf' & Hg').
  specialize (Hg' id). rewrite Ht. destruct (decide (rq_State r = StateAssigned)) as [Hs|Hs].
  - rewrite decide_True in Hg' by done. by eexists _, f', _.
  - rewrite decide_False in Hg' by tauto. eexists _, f', r. rewrite Hg', Hg. split; [done|].
    split; [done|]. split; [done|]. split; [done|]. split; [tauto|done].
Qed.

Lemma openSettlement_spec now l req r cost preSig s req1 :
  inflight_wf (inflight s) → Session.Get (rp_RequestId r) (inflight s) = Some req1 →
  rq_State req1 = StateServing → RequestID req = rp_RequestId r →
  CanonicalUsageAssertionPreSig (report_assertion req r cost) = Ok preSig →
  VerifyUsageAssertion (SeederPubkey req) (report_assertion req r cost) (rp_SeederSig r) = true →
  let '(out, s') := openSettlement now l req r cost (tip_of (w_store s)) preSig s in
  same_books s s' ∧ inflight_wf (inflight s') ∧
  match out with
  | Ok t => tk_req t = l ∧ accepted req r cost t s s'
  | Err e => w_pending s' = w_pending s
  end.
Proof.
  intros Hwf Hg Hs Hid Hc Hv. unfold openSettlement.
  destruct (EnsureSettleSig_spec _ _ _ Hwf Hg) as (f2 & -> & Hwf2 & _ & Hg2).
  change (inflight (set_inflight f2 s)) with f2.
  destruct (IndexByHash_spec _ (sha256 preSig) _ _ Hwf2 Hg2) as (f3 & -> & Hwf3 & _ & Hg3 & Hh3).
  unfold putPending. cbn [set_inflight w_pending].
  destruct (w_pending s !! rp_RequestId r) as [p|] eqn:Ep; [done|].
  split; [done|]. split; [exact Hwf3|]. split; [done|]. exists preSig.
  unfold report_record. cbn [tk_reqID tk_phase tk_rec].
  destruct (nextTip (tip_of (w_store s))) as [ph sq].
  split; [done|]. split; [done|]. split; [done|]. split; [done|]. split; [done|]. split; [done|].
  split; [done|]. split; [done|]. split; [done|]. split; [done|].
  eexists. split; [exact Hg3|]. split; [exact Hh3|]. split; [exact Hs|by eexists].
Qed.

Lemma acceptReport_spec io now l req r cost s :
  inflight_wf (inflight s) → if_byID (inflight s) !! rp_RequestId r = Some l →
  if_heap (inflight s) !! l = Some req →
  (rq_State req = StateAssigned ∨ rq_State req = StateServing) →
  let '(out, s') := acceptReport io now l req r cost s in
  same_books s s' ∧ inflight_wf (inflight s') ∧
  match out with
  | Ok t => tk_req t = l ∧ accepted req r cost t s s'
  | Err e => w_pending s' = w_pending s
  end.
Proof.
  intros Hwf Hl Hr Hst. unfold acceptReport.
  assert (Session.Get (rp_RequestId r) (inflight s) = Some req) as Hg by (apply Get_Some; eauto).
  assert (RequestID req = rp_RequestId r) as Hid
    by (destruct (wf_byID _ Hwf _ _ Hl) as (r' & Hr' & <-); congruence).
  destruct (Transition_serving _ now _ _ Hwf Hg Hst) as (out1 & f1 & r1 & -> & Hne & Hwf1 & Hg1 & Hs1 & _).
  assert (∀ T (k1 k2 : T), match out1 with Err ErrUnknownRequest => k1 | _ => k2 end = k2) as Hk
    by (intros; by destruct out1 as [|[]]).
  cbv beta iota. rewrite Hk. unfold verifyReport. cbn [w_store set_inflight].
  destruct (Tip io (w_store s)) as [t|e] eqn:Et; [|done]. apply Tip_tip_of in Et. subst t.
  destruct (CanonicalUsageAssertionPreSig _) as [preSig|e] eqn:Ec; [|done].
  destruct (negb _) eqn:Ev; [done|]. bool_to_prop.
  exact (openSettlement_spec now l req r cost preSig (set_inflight f1 s) r1 Hwf1 Hg1 Hs1 Hid Ec Ev).
Qed.

Lemma HandleUsageReport_cases io now peer r s :
  inflight_wf (inflight s) →
  let '(out, s') := HandleUsageReport pricing io now peer r s in
  same_books s s' ∧ inflight_wf (inflight s') ∧
  match out with
  | Ok t => ∃ rp req cost, r = Some rp ∧ Session.Get (rp_RequestId rp) (inflight s) = Some req ∧
      if_byID (inflight s) !! rp_RequestId rp = Some (tk_req t) ∧
      checkReport pricing peer req rp = Ok cost ∧ accepted req rp cost t s s'
  | Err e => w_pending s' = w_pending s
  end.
Proof.
  intros Hwf. unfold HandleUsageReport. destruct r as [rp|]; [|done].
  destruct (negb _); [done|].
  destruct (if_byID (inflight s) !! rp_RequestId rp) as [l|] eqn:El; [|done].
  destruct (if_heap (inflight s) !! l) as [req|] eqn:Er; [|done].
  destruct (checkReport pricing peer req rp) as [cost|e] eqn:Ec; [|done].
  pose proof (acceptReport_spec io now l req rp cost s Hwf El Er
                (proj1 (checkReport_Ok _ _ _ _ Ec))) as Ha.
  destruct (acceptReport io now l req rp cost s) as [[t|e] s']; [|done].
  destruct Ha as (Hb & Hwf' & Hl & Ha). split; [done|]. split; [done|].
  exists rp, req, cost. split; [done|]. split; [apply Get_Some; eauto|]. by rewrite Hl.
Qed.

(** What a usage report settles on. A report is accepted only if its request is
    ASSIGNED or SERVING and assigned to the caller, names the agreed model, costs at most
    5% more than was reserved, carries the assigned seeder's signature over the usage
    assertion, and no settlement of the request is under way; the request is then
    SERVING, findable by the hash of the assertion, and the goroutine's record holds that
    assertion at the current tip. A refused report opens no settlement, and neither kind
    touches the ledger, the registry or a reservation. *)
Lemma HandleUsageReport_accepts io now peer r s :
  inflight_wf (inflight s) →
  let '(out, s') := HandleUsageReport pricing io now peer r s in
  same_books s s' ∧
  match out with
  | Ok t => ∃ rp req cost, r = Some rp ∧ Session.Get (rp_RequestId rp) (inflight s) = Some req ∧
      (rq_State req = StateAssigned ∨ rq_State req = StateServing) ∧ AssignedSeeder req = peer ∧
      (∃ body, rq_EnvelopeBody req = Some body ∧ env_Model body = rp_Model rp) ∧
      ActualCost pricing (rp_Model rp) (rp_InputTokens rp) (rp_OutputTokens rp) = Ok cost ∧
      (0 <= MaxCostReserved req * 105 < 2 ^ 64 → cost * 100 <= MaxCostReserved req * 105) ∧
      accepted req rp cost t s s'
  | Err e => w_pending s' = w_pending s
  end.
Proof.
  intros Hwf. pose proof (HandleUsageReport_cases io now peer r s Hwf) as Hc.
  destruct (HandleUsageReport pricing io now peer r s) as [[t|e] s']; [|by destruct Hc as (? & _ & ?)].
  destruct Hc as (Hb & _ & rp & req & cost & Hr & Hg & _ & Hck & Ha). split; [done|].
  destruct (checkReport_Ok _ _ _ _ Hck) as (Hst & Hsd & Hm & Hac & Hle).
  exists rp, req, cost. split_and!; try done. intros Hlt. by rewrite u64_id in Hle.
Qed.

(** ** The consumer's verdict *)

(** The signature a pending entry holds verifies. *)
Definition pend_ok (p : pendingSettle) : Prop :=
  ps_verified p = true →
  VerifyUsageAssertion (ps_consumerPub p) (ps_assertion p) (ps_consumerSig p) = true.

(** A handler may change an entry's verdict, never the assertion it is about, nor clear a
    refusal. *)
Definition verdict_step (p p' : pendingSettle) : Prop :=
  ps_assertion p' = ps_assertion p ∧ (ps_refused p = true → ps_refused p' = true) ∧
  (pend_ok p → pend_ok p').

Definition verdicts (m m' : gmap bytes pendingSettle) : Prop :=
  ∀ id, match m !! id, m' !! id with
        | Some p, Some p' => verdict_step p p'
        | None, None => True
        | _, _ => False
        end.

Lemma verdicts_refl m : verdicts m m.
Proof. intros id. destruct (m !! id); done. Qed.

Lemma verdicts_alter (m : gmap bytes pendingSettle) f id :
  (∀ p, m !! id = Some p → verdict_step p (f p)) → verdicts m (alter f id m).
Proof.
  intros Hf id'. destruct (decide (id = id')) as [<-|Hne].
  - rewrite lookup_alter_eq. destruct (m !! id) as [p|] eqn:E; [by apply Hf|done].
  - rewrite lookup_alter_ne by done. destruct (m !! id'); done.
Qed.

Lemma verifyConsumerSig_spec resolve req sig s :
  let '(v, s') := verifyConsumerSig resolve req sig s in
  same_books s s' ∧ inflight s' = inflight s ∧ verdicts (w_pending s) (w_pending s') ∧
  (v = sigRefused → ∃ p', w_pending s' !! RequestID req = Some p' ∧ ps_refused p' = true).
Proof.
  unfold verifyConsumerSig, getPending.
  destruct resolve as [resolve|]; [|split; [done|]; split; [done|]; by split; [apply verdicts_refl|]].
  destruct (w_pending s !! RequestID req) as [p|] eqn:Ep;
    [|split; [done|]; split; [done|]; by split; [apply verdicts_refl|]].
  destruct (blen (ps_preSig p) =? 0); [split; [done|]; split; [done|]; by split; [apply verdicts_refl|]|].
  destruct (resolve (ConsumerID req)) as [pub|];
    [|split; [done|]; split; [done|]; by split; [apply verdicts_refl|]].
  destruct (negb (blen pub =? PublicKeySize));
    [split; [done|]; split; [done|]; by split; [apply verdicts_refl|]|].
  destruct (negb (VerifyUsageAssertion pub (ps_assertion p) sig)) eqn:Ev; bool_to_prop;
    (split; [done|]); (split; [done|]).
  - split; [apply verdicts_alter; intros p' _; done|]. intros _. eexists. simpl.
    rewrite lookup_alter_eq, Ep. by split.
  - split; [|done]. apply verdicts_alter. intros p' Hp'. rewrite Ep in Hp'. injection Hp' as <-.
    split; [done|]. split; [done|]. intros _ _. exact Ev.
Qed.

Lemma HandleSettle_spec resolve peer r s :
  inflight_wf (inflight s) →
  let '(out, s') := HandleSettle resolve peer r s in
  same_books s s' ∧ inflight_wf (inflight s') ∧ verdicts (w_pending s) (w_pending s') ∧
  (out = Err ErrConsumerSig → ∃ sr req p', r = Some sr ∧
     LookupByHash (st_PreimageHash sr) (inflight s) = Some req ∧
     w_pending s' !! RequestID req = Some p' ∧ ps_refused p' = true).
Proof.
  intros Hwf. unfold HandleSettle.
  assert (∀ e s1, e ≠ ErrConsumerSig → s1 = s →
    same_books s s1 ∧ inflight_wf (inflight s1) ∧ verdicts (w_pending s) (w_pending s1) ∧
    (@Err BErr unit e = Err ErrConsumerSig → ∃ sr req p', r = Some sr ∧
     LookupByHash (st_PreimageHash sr) (inflight s) = Some req ∧
     w_pending s1 !! RequestID req = Some p' ∧ ps_refused p' = true)) as Hsame.
  { intros e s1 He ->. split; [done|]. split; [done|]. split; [apply verdicts_refl|]. by intros [= ->]. }
  destruct r as [sr|]; [|by apply Hsame]. destruct (negb _); [by apply Hsame|].
  destruct (if_byHash (inflight s) !! st_PreimageHash sr) as [l|] eqn:El; [|by apply Hsame].
  destruct (if_heap (inflight s) !! l) as [req|] eqn:Er; [|by apply Hsame].
  destruct (negb _); [by apply Hsame|]. destruct (bool_decide _); [by apply Hsame|]. clear Hsame.
  pose proof (verifyConsumerSig_spec resolve req (st_ConsumerSig sr) s) as Hv.
  destruct (verifyConsumerSig resolve req (st_ConsumerSig sr) s) as [v s1].
  destruct Hv as (Hb & Hf & Hp & Hr). rewrite <- Hf in Hwf.
  assert (let '(out, s') := dispatchSig l req (st_ConsumerSig sr) s1 in
    same_books s s' ∧ inflight_wf (inflight s') ∧ w_pending s' = w_pending s1 ∧ out ≠ Err ErrConsumerSig) as Hd.
  { unfold dispatchSig. destruct (SettleSig req) as [[|]|]; (split; [done|]); (split; [|by split]); try done.
    by apply update_at_wf. }
  destruct (dispatchSig l req (st_ConsumerSig sr) s1) as [out s']. destruct Hd as (Hb' & Hwf' & Hp' & Ho).
  destruct v; try (split; [done|]; split; [done|]; split; [by rewrite Hp'|done]).
  split; [done|]. split; [done|]. split; [done|]. intros _. destruct (Hr eq_refl) as (p' & ? & ?).
  exists sr, req, p'. split; [done|]. split; [|done]. unfold LookupByHash, lookup_loc. by rewrite El.
Qed.

(** ** One settlement per request *)

(** What a goroutine's record and its pending entry have in common. *)
Record task_ok (p : pendingSettle) (t : Task) : Prop := {
  to_assertion : usage_assertion (tk_rec t) = ps_assertion p;
  to_seeder : VerifyUsageAssertion (ur_SeederPub (tk_rec t)) (usage_assertion (tk_rec t))
                (ur_SeederSig (tk_rec t)) = true;
  to_consumer : tk_phase t ≠ Waiting → ur_ConsumerSigMissing (tk_rec t) = false →
    VerifyUsageAssertion (ur_ConsumerPub (tk_rec t)) (usage_assertion (tk_rec t))
      (ur_ConsumerSig (tk_rec t)) = true
}.

Record tasks_inv (m : gmap bytes pendingSettle) (ts : list Task) : Prop := {
  ti_nodup : NoDup (tk_reqID <$> ts);
  ti_dom id : is_Some (m !! id) ↔ id ∈ tk_reqID <$> ts;
  ti_task t p : t ∈ ts → m !! tk_reqID t = Some p → task_ok p t;
  ti_pend id p : m !! id = Some p → pend_ok p
}.

Record settle_inv (S : SState) : Prop := {
  si_wf : inflight_wf (inflight (ss_b S));
  si_tasks : tasks_inv (w_pending (ss_b S)) (ss_tasks S)
}.

Lemma verdicts_Some m m' id p' :
  verdicts m m' → m' !! id = Some p' → ∃ p, m !! id = Some p ∧ verdict_step p p'.
Proof. intros Hv Hp'. specialize (Hv id). rewrite Hp' in Hv. destruct (m !! id) as [p|]; [eauto|done]. Qed.

Lemma tasks_inv_verdicts m m' ts : verdicts m m' → tasks_inv m ts → tasks_inv m' ts.
Proof.
  intros Hv [Hn Hd Ht Hp]. constructor; [done| | |].
  - intros id. rewrite <- Hd. specialize (Hv id). destruct (m !! id), (m' !! id); done.
  - intros t p' Hin Hp'. destruct (verdicts_Some _ _ _ _ Hv Hp') as (p & Hpm & Ha & _).
    destruct (Ht _ _ Hin Hpm). constructor; [by rewrite Ha|done..].
  - intros id p' Hp'. destruct (verdicts_Some _ _ _ _ Hv Hp') as (p & Hpm & _ & _ & Hok). eauto.
Qed.

Lemma tasks_inv_perm m ts ts' : ts ≡ₚ ts' → tasks_inv m ts → tasks_inv m ts'.
Proof.
  intros Hperm [Hn Hd Ht Hp]. constructor; [by rewrite <- Hperm| | |done].
  - intros id. by rewrite Hd, Hperm.
  - intros t p Hin. rewrite <- Hperm in Hin. by apply Ht.
Qed.

Lemma tasks_inv_open m t ts p :
  m !! tk_reqID t = None → pend_ok p → task_ok p t → tasks_inv m ts →
  tasks_inv (<[tk_reqID t := p]> m) (t :: ts).
Proof.
  intros Hnone Hpo Hto [Hn Hd Ht Hp].
  assert (tk_reqID t ∉ tk_reqID <$> ts) as Hni by (rewrite <- Hd, Hnone; by intros [? ?]).
  constructor.
  - rewrite fmap_cons. by apply NoDup_cons.
  - intros id. rewrite fmap_cons, elem_of_cons, <- Hd.
    destruct (decide (id = tk_reqID t)) as [->|Hne].
    + rewrite lookup_insert_eq. split; [by left|by eexists].
    + rewrite lookup_insert_ne by done. split; [by right|]. by intros [?|?].
  - intros t' p' Hin Hl. apply elem_of_cons in Hin as [->|Hin].
    + rewrite lookup_insert_eq in Hl. by injection Hl as <-.
    + rewrite lookup_insert_ne in Hl; [by apply Ht|]. intros He. apply Hni. rewrite He.
      by apply list_elem_of_fmap_2.
  - intros id p' Hl. apply lookup_insert_Some in Hl as [[_ <-]|[_ Hl]]; [done|eauto].
Qed.

Lemma tasks_inv_close m t ts : tasks_inv m (t :: ts) → tasks_inv (delete (tk_reqID t) m) ts.
Proof.
  intros [Hn Hd Ht Hp]. rewrite fmap_cons in *. apply NoDup_cons in Hn as [Hni Hn].
  constructor; [done| | |].
  - intros id. specialize (Hd id). rewrite elem_of_cons in Hd.
    destruct (decide (id = tk_reqID t)) as [->|Hne].
    + rewrite lookup_delete_eq. split; [by intros []|done].
    + rewrite lookup_delete_ne by done. rewrite Hd. split; [by intros [?|?]|by right].
  - intros t' p' Hin Hl. apply lookup_delete_Some in Hl as [_ Hl]. apply Ht; [by right|done].
  - intros id p' Hl. apply lookup_delete_Some in Hl as [_ Hl]. eauto.
Qed.

Lemma tasks_inv_advance m t t' ts :
  tk_reqID t' = tk_reqID t → (∀ p, m !! tk_reqID t = Some p → pend_ok p → task_ok p t → task_ok p t') →
  tasks_inv m (t :: ts) → tasks_inv m (t' :: ts).
Proof.
  intros Hid Hok [Hn Hd Ht Hp]. rewrite fmap_cons in *. constructor; rewrite ?fmap_cons, ?Hid; [done|done| |done].
  intros u p Hin Hl. apply elem_of_cons in Hin as [->|Hin]; [|apply Ht; [by right|done]].
  rewrite Hid in Hl. apply Hok; [done|eauto|]. apply Ht; [by left|done].
Qed.

Lemma refresh_tip_fields t rec :
  usage_assertion (refresh_tip t rec) = usage_assertion rec ∧
  ur_SeederPub (refresh_tip t rec) = ur_SeederPub rec ∧
  ur_SeederSig (refresh_tip t rec) = ur_SeederSig rec ∧
  ur_ConsumerPub (refresh_tip t rec) = ur_ConsumerPub rec ∧
  ur_ConsumerSig (refresh_tip t rec) = ur_ConsumerSig rec ∧
  ur_ConsumerSigMissing (refresh_tip t rec) = ur_ConsumerSigMissing rec.
Proof. unfold refresh_tip. destruct t as [[? ?]|]; done. Qed.

(** The record a goroutine wakes up with carries the verdict of its pending entry. *)
Lemma wake_spec ev t s :
  let '(out, s') := wake ev t s in
  same_books s s' ∧ w_pending s' = w_pending s ∧
  (inflight_wf (inflight s) → inflight_wf (inflight s')) ∧
  match out with
  | None => True
  | Some rec => ∀ p n, w_pending s !! tk_reqID t = Some p → pend_ok p → task_ok p t →
      ps_refused p = false ∧ task_ok p (advance t rec (Appending n))
  end.
Proof.
  assert (∀ p n, task_ok p t → task_ok p (advance t (with_verdict true [] [] (tk_rec t)) (Appending n)))
    as Hmiss by (intros p n [Ha Hs _]; by constructor).
  unfold wake, pendingVerdict. destruct (w_pending s !! tk_reqID t) as [p|] eqn:Ep.
  2:{ destruct ev; (split; [done|]); (split; [done|]); (split; [|done]); try done.
      intros. by apply update_at_wf. }
  destruct ev.
  - destruct (ps_refused p) eqn:Er; (split; [done|]); (split; [done|]);
      (split; [intros; by apply update_at_wf|]); [done|].
    intros p' n [= <-] Hpo Hto. split; [done|].
    destruct (ps_verified p) eqn:Ev; [|by apply Hmiss].
    destruct Hto as [Ha Hs _]. constructor; [exact Ha|exact Hs|]. intros _ _.
    specialize (Hpo Ev). rewrite <- Ha in Hpo. exact Hpo.
  - destruct (ps_refused p) eqn:Er; (split; [done|]); (split; [done|]); (split; [done|]); [done|].
    intros p' n [= <-] Hpo Hto. split; [done|]. by apply Hmiss.
  - done.
Qed.

Lemma appendOnce_spec io rec s :
  let '(out, s') := appendOnce trackerKey io rec s in
  w_mgr s' = w_mgr s ∧ w_reg s' = w_reg s ∧ w_pending s' = w_pending s ∧
  match out with
  | Finished (Ok _) => ∃ e, AppendUsage trackerKey io rec (w_store s) = (Ok e, w_store s')
  | Finished (Err _) => w_store s' = w_store s
  | Retry rec' => w_store s' = w_store s ∧ rec' = refresh_tip (tip_of (w_store s)) rec
  end.
Proof.
  unfold appendOnce. destruct (AppendUsage trackerKey io rec (w_store s)) as [[e|e] st] eqn:E.
  - split_and!; try done. by exists e.
  - pose proof (runLedgerOp_ErrKeeps trackerKey io (OpAppendUsage rec) (w_store s) e st E) as Hst. simpl in Hst.
    destruct e; try (split_and!; done). cbn [set_store w_store].
    destruct (Tip io st) as [t|e] eqn:Et; [|by split_and!].
    apply Tip_tip_of in Et. subst. by split_and!.
Qed.

Lemma transition_other id from to now s :
  w_store (transition id from to now s) = w_store s ∧ w_reg (transition id from to now s) = w_reg s ∧
  w_pending (transition id from to now s) = w_pending s ∧
  reservations (transition id from to now s) = reservations s ∧
  (inflight_wf (inflight s) → inflight_wf (inflight (transition id from to now s))).
Proof. split_and!; try done. apply Transition_wf. Qed.

Lemma finishAppend_spec err l rec now s :
  let s' := snd (finishAppend err l rec now s) in
  w_pending s' = w_pending s ∧ w_store s' = w_store s ∧
  (inflight_wf (inflight s) → inflight_wf (inflight s')).
Proof.
  unfold finishAppend. destruct (if_heap (inflight s) !! l) as [req|]; [|done].
  destruct err; simpl; (split; [done|]); (split; [done|]); apply Transition_wf.
Qed.

Lemma accepted_tasks_inv req r cost t s s' ts :
  accepted req r cost t s s' → tasks_inv (w_pending s) ts → tasks_inv (w_pending s') (t :: ts).
Proof.
  intros (preSig & _ & Hv & Hnone & -> & Hid & Hph & Ha & Hpub & Hsig & _) Hinv.
  rewrite <- Hid in *. apply tasks_inv_open; [done|by intros ?| |done].
  constructor; [exact Ha|by rewrite Ha, Hpub, Hsig|]. by rewrite Hph.
Qed.

(** Moving the goroutine in the middle to the front and back. *)
Lemma tasks_inv_middle m ts1 t ts2 : tasks_inv m (ts1 ++ t :: ts2) ↔ tasks_inv m (t :: ts1 ++ ts2).
Proof.
  split; apply tasks_inv_perm; [|symmetry]; symmetry; apply Permutation_middle.
Qed.

Lemma settle_step_inv S S' :
  settle_step trackerKey pricing retries S S' → settle_inv S → settle_inv S'.
Proof.
  intros Hstep [Hwf Hinv].
  destruct Hstep as [io now peer r b t b' ts E|io now peer r b e b' ts E|resolve peer r b ts
    |ev t rec b b' ts1 ts2 Hph E|ev t b b' ts1 ts2 Hph E|io t n rec b b' ts1 ts2 Hph E
    |io t n r now b b' ts1 ts2 Hph E|t now b ts1 ts2 Hph|b b' ts Hp Hwf']; cbn [ss_b ss_tasks] in *.
  - pose proof (HandleUsageReport_cases io now peer r b Hwf) as Hc. rewrite E in Hc.
    destruct Hc as (_ & Hwf' & rp & req & cost & _ & _ & _ & _ & Ha).
    constructor; [exact Hwf'|]. by eapply accepted_tasks_inv.
  - pose proof (HandleUsageReport_cases io now peer r b Hwf) as Hc. rewrite E in Hc.
    destruct Hc as (_ & Hwf' & Hp). constructor; cbn [ss_b ss_tasks]; [exact Hwf'|by rewrite Hp].
  - pose proof (HandleSettle_spec resolve peer r b Hwf) as Hc.
    destruct (HandleSettle resolve peer r b) as [out b']. destruct Hc as (_ & Hwf' & Hv & _).
    constructor; [exact Hwf'|]. by eapply tasks_inv_verdicts.
  - pose proof (wake_spec ev t b) as Hw. rewrite E in Hw. destruct Hw as (_ & Hp & Hwf' & Hrec).
    constructor; cbn [ss_b ss_tasks]; [auto|]. rewrite Hp, tasks_inv_middle. apply tasks_inv_middle in Hinv.
    eapply (tasks_inv_advance _ t); [done| |done]. intros p Hpp Hpo Hto. by eapply Hrec.
  - pose proof (wake_spec ev t b) as Hw. rewrite E in Hw. destruct Hw as (_ & Hp & Hwf' & _).
    constructor; cbn [ss_b ss_tasks]; [exact (Hwf' Hwf)|]. unfold dropPending. cbn [set_pending w_pending].
    rewrite Hp. apply tasks_inv_close. by apply tasks_inv_middle.
  - pose proof (appendOnce_spec io (tk_rec t) b) as Ha. rewrite E in Ha.
    destruct Ha as (Hm & _ & Hp & _ & Hrec). constructor; cbn [ss_b ss_tasks]; [by rewrite Hm|].
    rewrite Hp, tasks_inv_middle. apply tasks_inv_middle in Hinv.
    eapply (tasks_inv_advance _ t); [done| |done]. intros p _ _ [Ha Hs Hc].
    destruct (refresh_tip_fields (tip_of (w_store b)) (tk_rec t)) as (H1 & H2 & H3 & H4 & H5 & H6).
    rewrite Hph in Hc. specialize (Hc ltac:(done)).
    constructor; cbn [advance tk_rec]; rewrite Hrec, ?H1, ?H2, ?H3, ?H4, ?H5, ?H6; done.
  - pose proof (appendOnce_spec io (tk_rec t) b) as Ha. rewrite E in Ha. destruct Ha as (Hm & _ & Hp & _).
    pose proof (finishAppend_spec (err_of r) (tk_req t) (tk_rec t) now b') as (Hp' & _ & Hwf').
    constructor; cbn [ss_b ss_tasks]; [apply Hwf'; by rewrite Hm|].
    unfold dropPending. cbn [set_pending w_pending]. rewrite Hp', Hp.
    apply tasks_inv_close. by apply tasks_inv_middle.
  - pose proof (finishAppend_spec (Some ErrStaleTip) (tk_req t) (tk_rec t) now b) as (Hp' & _ & Hwf').
    constructor; cbn [ss_b ss_tasks]; [by apply Hwf'|].
    unfold dropPending. cbn [set_pending w_pending]. rewrite Hp'.
    apply tasks_inv_close. by apply tasks_inv_middle.
  - constructor; cbn [ss_b ss_tasks]; [done|by rewrite Hp].
Qed.

Lemma settle_init_inv b : inflight_wf (inflight b) → settle_inv (settle_init b).
Proof.
  intros Hwf. constructor; [exact Hwf|]. constructor; simpl.
  - constructor.
  - intros id. rewrite lookup_empty. split; [by intros []|]. intros Hin. by apply elem_of_nil in Hin.
  - intros t p Hin. by apply elem_of_nil in Hin.
  - intros id p. by rewrite lookup_empty.
Qed.

(** C3: one settlement per request. However reports, counter-signatures, wake-ups, append
    attempts and the rest of the tracker interleave: no request has two settlement
    goroutines, the requests that have one are exactly those with a pending entry (so
    the gate in [putPending] neither lets a second one in nor stays closed after the
    last), each goroutine's record is the assertion its seeder signed, and one that is
    appending with a consumer signature holds one that verifies over that assertion. *)
Theorem settlement_single_flight b S :
  inflight_wf (inflight b) → settle_reachable trackerKey pricing retries b S →
  NoDup (tk_reqID <$> ss_tasks S) ∧
  (∀ id, is_Some (w_pending (ss_b S) !! id) ↔ id ∈ tk_reqID <$> ss_tasks S) ∧
  ∀ t, t ∈ ss_tasks S → ∃ p, w_pending (ss_b S) !! tk_reqID t = Some p ∧ task_ok p t.
Proof.
  intros Hwf Hr.
  assert (settle_inv S) as [_ [Hn Hd Ht _]].
  { pose proof (settle_init_inv b Hwf) as Hi. revert Hi.
    induction Hr as [S0|S0 S1 S2 Hs _ IH]; [done|]. intros Hi. apply IH. by eapply settle_step_inv. }
  split; [done|]. split; [done|]. intros t Hin.
  assert (is_Some (w_pending (ss_b S) !! tk_reqID t)) as [p Hp]
    by (apply Hd; by apply list_elem_of_fmap_2).
  exists p. split; [done|]. by apply Ht.
Qed.

(** Later counter-signatures, whoever sends them. *)
Definition settles (calls : list (option (bytes → option bytes) * bytes * option SettleRequest))
    (s : BState) : BState :=
  foldl (λ s c, snd (HandleSettle c.1.1 c.1.2 c.2 s)) s calls.

Lemma settles_spec calls s :
  inflight_wf (inflight s) →
  w_store (settles calls s) = w_store s ∧ verdicts (w_pending s) (w_pending (settles calls s)).
Proof.
  revert s. induction calls as [|c calls IH]; intros s Hwf; [by split; [|apply verdicts_refl]|].
  unfold settles. cbn [foldl]. pose proof (HandleSettle_spec c.1.1 c.1.2 c.2 s Hwf) as Hs.
  destruct (HandleSettle c.1.1 c.1.2 c.2 s) as [out s1]. destruct Hs as ((Hb & _) & Hwf1 & Hv & _).
  cbn [snd]. destruct (IH s1 Hwf1) as [Hb' Hv']. split; [unfold settles in Hb'; by rewrite Hb'|].
  intros id. specialize (Hv id). specialize (Hv' id). unfold settles in Hv'.
  destruct (w_pending s !! id) as [p|], (w_pending s1 !! id) as [p1|], (w_pending (foldl _ _ _) !! id); try done.
  destruct Hv as (Ha & Hr & Ho), Hv' as (Ha' & Hr' & Ho').
  split; [congruence|]. split; auto.
Qed.

(** A refusal is final. Once [HandleSettle] has refused a consumer's counter-signature,
    the goroutine of that request, whatever wakes it and whatever counter-signatures
    arrive before, writes nothing to the ledger: it emits no event, and no balance or
    entry changes. *)
Lemma refusal_is_final resolve peer r s s1 calls ev envs now t :
  inflight_wf (inflight s) → HandleSettle resolve peer r s = (Err ErrConsumerSig, s1) →
  ∃ sr req, r = Some sr ∧ LookupByHash (st_PreimageHash sr) (inflight s) = Some req ∧
    (tk_reqID t = RequestID req →
     let s2 := settles calls s1 in
     let '(out, s3) := awaitSettle trackerKey retries ev envs now t s2 in
     out = None ∧ w_store s3 = w_store s ∧ w_pending s3 !! RequestID req = None).
Proof.
  intros Hwf Hh. pose proof (HandleSettle_spec resolve peer r s Hwf) as Hs. rewrite Hh in Hs.
  destruct Hs as ((Hb & _) & Hwf1 & _ & Hr). destruct (Hr eq_refl) as (sr & req & p & -> & Hl & Hp & Href).
  exists sr, req. split; [done|]. split; [done|]. intros Hid s2.
  destruct (settles_spec calls s1 Hwf1) as [Hb2 Hv]. fold s2 in Hb2, Hv.
  specialize (Hv (RequestID req)). rewrite Hp in Hv.
  destruct (w_pending s2 !! RequestID req) as [p2|] eqn:Ep2; [|done].
  destruct Hv as (_ & Hrr & _). specialize (Hrr Href).
  unfold awaitSettle, wake, pendingVerdict. rewrite Hid, Ep2, Hrr.
  destruct ev; (split; [done|]); (split; [cbn; by rewrite Hb2, Hb|]);
    cbn [dropPending set_pending w_pending]; apply lookup_delete_eq.
Qed.

(** ** What the append leaves behind *)

(** The retries of one goroutine, nothing else running meanwhile. *)
Definition quiet (envs : nat → AppendEnv) : Prop := ∀ i s, ae_env (envs i) s = s.

Lemma appendLoop_quiet envs n i rec last s :
  quiet envs → (n = 0%nat → last ≠ None) →
  let '(err, rec', s') := appendLoop trackerKey n i envs rec last s in
  w_mgr s' = w_mgr s ∧ w_reg s' = w_reg s ∧ w_pending s' = w_pending s ∧
  (rec' = rec ∨ rec' = refresh_tip (tip_of (w_store s)) rec) ∧
  match err with
  | None => ∃ io e, AppendUsage trackerKey io rec' (w_store s) = (Ok e, w_store s')
  | Some _ => w_store s' = w_store s
  end.
Proof.
  intros Hq. revert i rec last s. induction n as [|n IH]; intros i rec last s Hn; cbn [appendLoop].
  { split_and!; try done; [by left|]. destruct last; [done|]. by destruct (Hn eq_refl). }
  pose proof (appendOnce_spec (ae_io (envs i)) rec (ae_env (envs i) s)) as Ha. rewrite Hq in *.
  destruct (appendOnce trackerKey (ae_io (envs i)) rec s) as [[rec1|[[]|e]] s1];
    destruct Ha as (Hm & Hg & Hp & Hst).
  - destruct Hst as [Hst ->]. specialize (IH (S i) (refresh_tip (tip_of (w_store s)) rec) (Some ErrStaleTip) s1).
    destruct (appendLoop trackerKey n (S i) envs _ _ s1) as [[err rec'] s'].
    destruct IH as (Hm' & Hg' & Hp' & Hrec & Hend); [done|].
    rewrite Hst in *. split_and!; [congruence..| |].
    + right. destruct Hrec as [->| ->]; [done|]. unfold refresh_tip. by destruct (tip_of _) as [[??]|].
    + destruct err; [congruence|done].
  - split_and!; try done; [by left|]. destruct Hst as [e He]. eauto.
  - split_and!; try done. by left.
Qed.

(** The part of a request the end of a settlement reads. *)
Definition same_party (r r' : Request) : Prop :=
  RequestID r' = RequestID r ∧ ConsumerID r' = ConsumerID r ∧ AssignedSeeder r' = AssignedSeeder r ∧
  rq_State r' = rq_State r.

Lemma wake_request ev t s req :
  inflight_wf (inflight s) → if_byID (inflight s) !! tk_reqID t = Some (tk_req t) →
  if_heap (inflight s) !! tk_req t = Some req →
  ∃ req', if_heap (inflight (snd (wake ev t s))) !! tk_req t = Some req' ∧ same_party req req' ∧
    Session.Get (tk_reqID t) (inflight (snd (wake ev t s))) = Some req'.
Proof.
  intros Hwf Hl Hr.
  assert (∃ req', if_heap (update_at (tk_req t) (set_sig (Some None)) (inflight s)) !! tk_req t = Some req' ∧
    same_party req req' ∧
    Session.Get (tk_reqID t) (update_at (tk_req t) (set_sig (Some None)) (inflight s)) = Some req') as Hu.
  { eexists. simpl. rewrite lookup_alter_eq, Hr. split; [done|]. split; [done|].
    rewrite (Get_update_at (tk_reqID t)) by done. rewrite decide_True by done.
    assert (Session.Get (tk_reqID t) (inflight s) = Some req) as -> by (apply Get_Some; eauto). done. }
  assert (∃ req', if_heap (inflight s) !! tk_req t = Some req' ∧ same_party req req' ∧
    Session.Get (tk_reqID t) (inflight s) = Some req') as Hn
    by (exists req; split; [done|]; split; [done|]; apply Get_Some; eauto).
  unfold wake. destruct (pendingVerdict _ _) as [[[v rf] sg] pb].
  destruct ev; [destruct rf; exact Hu|destruct rf; exact Hn|exact Hn].
Qed.

End settlement_spec.

(** ** Stale tips *)

Section retries.
Context `{CryptoLaws} `{Wire}.
Variables (key : bytes) (retries : Z).

(** The settlement would be accepted at the tip the chain has now. *)
Definition settleable (rec : UsageRecord) (st : Store) : Prop :=
  ledger_reachable key st ∧ is_Some (tip_of st) ∧ usage_acceptable (refresh_tip (tip_of st) rec) st.

Lemma refresh_tip_at st rec :
  is_Some (tip_of st) →
  (ur_PrevHash (refresh_tip (tip_of st) rec), ur_Seq (refresh_tip (tip_of st) rec)) = nextTip (tip_of st).
Proof. intros [[sq h] ->]. done. Qed.

Lemma refresh_tip_id st rec :
  is_Some (tip_of st) → nextTip (tip_of st) = (ur_PrevHash rec, ur_Seq rec) →
  refresh_tip (tip_of st) rec = rec.
Proof. intros [[sq h] ->]. unfold refresh_tip, nextTip. intros [= -> ->]. by destruct rec. Qed.

Lemma refresh_tip_idem t t' rec : refresh_tip t (refresh_tip t' rec) = refresh_tip t rec.
Proof. unfold refresh_tip. by destruct t as [[??]|], t' as [[??]|]. Qed.

Lemma AppendUsage_stale rec st :
  settleable rec st → is_u64 (ur_CostCredits rec) → ValidateEntryBody (Some (usage_body rec)) = None →
  nextTip (tip_of st) ≠ (ur_PrevHash rec, ur_Seq rec) →
  AppendUsage key no_faults rec st = (Err ErrStaleTip, st).
Proof.
  intros (Hr%reachable_inv & Ht & Ha) Hu Hv Hne. destruct Ha as (_ & Hss & Hcs & Hc1 & Hc2 & _).
  destruct (refresh_tip_fields (tip_of st) rec) as (E1 & E2 & E3 & E4 & E5 & E6).
  rewrite E1, E2, E3 in Hss. rewrite E1, E4, E5, E6 in Hcs.
  assert (ur_CostCredits (refresh_tip (tip_of st) rec) = ur_CostCredits rec ∧
    ur_ConsumerID (refresh_tip (tip_of st) rec) = ur_ConsumerID rec) as [E7 E8]
    by (unfold refresh_tip; by destruct (tip_of st) as [[??]|]). rewrite E7, E8 in Hc1.
  pose proof (ledger_inv_bounded key st Hr (ur_ConsumerID rec)) as Hb. unfold is_u64 in Hu.
  rewrite AppendUsage_reaches by (done || lia).
  unfold appendEntry, appendLocked. cbn [in_body usage_append]. unfold checkPreFilled, storeRead.
  unfold gbind at 1 2. unfold gwrap, gread, Tip. cbn [no_faults].
  fold (tip_of st). destruct (nextTip (tip_of st)) as [prev seq]. unfold gguard.
  assert (negb (bool_decide (eb_PrevHash (usage_body rec) = prev)) || negb (eb_Seq (usage_body rec) =? seq) = true)
    as ->; [|done].
  apply orb_true_iff. destruct (decide (ur_PrevHash rec = prev)) as [Hp|Hp].
  - right. apply negb_true_iff, Z.eqb_neq. intros Hq. apply Hne. simpl in Hq. by rewrite Hp, Hq.
  - left. apply negb_true_iff. by apply bool_decide_eq_false.
Qed.

(** The record being retried: the report's, at some tip. *)
Definition at_some_tip (rec0 rec : UsageRecord) : Prop :=
  (rec = rec0 ∨ ∃ t, rec = refresh_tip t rec0) ∧ ValidateEntryBody (Some (usage_body rec)) = None.

Definition at_tip (rec : UsageRecord) (st : Store) : Prop :=
  nextTip (tip_of st) = (ur_PrevHash rec, ur_Seq rec).

#[local] Instance at_tip_dec rec st : Decision (at_tip rec st).
Proof. unfold at_tip. solve_decision. Defined.

Lemma at_some_tip_refresh rec0 rec st :
  at_some_tip rec0 rec → settleable rec0 st →
  at_some_tip rec0 (refresh_tip (tip_of st) rec) ∧
  refresh_tip (tip_of st) rec = refresh_tip (tip_of st) rec0.
Proof.
  intros [Hrec _] (_ & _ & Ha).
  assert (refresh_tip (tip_of st) rec = refresh_tip (tip_of st) rec0) as He
    by (destruct Hrec as [->|[t ->]]; [done|apply refresh_tip_idem]).
  split; [|done]. rewrite He. split; [by right; eexists|].
  by destruct Ha as (_ & _ & _ & _ & _ & _ & Hv & _).
Qed.

Lemma appendOnce_settleable rec0 rec s :
  length key = 64%nat → is_u64 (ur_CostCredits rec0) →
  settleable rec0 (w_store s) → at_some_tip rec0 rec →
  appendOnce key no_faults rec s =
    (if decide (at_tip rec (w_store s)) then
       (Finished (Ok tt), set_store (snd (AppendUsage key no_faults rec (w_store s))) s)
     else (Retry (refresh_tip (tip_of (w_store s)) rec), s)).
Proof.
  intros Hk Hu Hset Hrec. destruct (at_some_tip_refresh _ _ _ Hrec Hset) as [_ He].
  assert (ur_CostCredits rec = ur_CostCredits rec0) as Hcost
    by (destruct (proj1 Hrec) as [->|[t ->]]; [done|unfold refresh_tip; by destruct t as [[??]|]]).
  assert (settleable rec (w_store s)) as Hset'
    by (destruct Hset as (? & ? & ?); split; [done|split; [done|by rewrite He]]).
  rewrite <- Hcost in Hu. unfold appendOnce. destruct (decide _) as [Hat|Hat].
  - assert (is_ok (fst (AppendUsage key no_faults rec (w_store s))) = true) as Hok.
    { destruct Hset' as (Hr%reachable_inv & Ht & Ha). rewrite (refresh_tip_id _ _ Ht Hat) in Ha.
      by apply (usage_acceptable_Ok key). }
    destruct (AppendUsage key no_faults rec (w_store s)) as [[e|e] st]; done.
  - rewrite (AppendUsage_stale rec _ Hset' Hu (proj2 Hrec) Hat).
    unfold Tip. cbn [no_faults w_store set_store]. f_equal. by destruct s.
Qed.

(** What the rest of the tracker may do between two attempts. *)
Definition keeps_settleable (rec0 : UsageRecord) (l : nat) (envs : nat → AppendEnv) : Prop :=
  ∀ i, ae_io (envs i) = no_faults ∧
    ∀ s, settleable rec0 (w_store s) → is_Some (if_heap (inflight s) !! l) →
      settleable rec0 (w_store (ae_env (envs i) s)) ∧
      is_Some (if_heap (inflight (ae_env (envs i) s)) !! l).

Lemma appendLoop_settles rec0 l envs k :
  length key = 64%nat → is_u64 (ur_CostCredits rec0) → keeps_settleable rec0 l envs →
  (∀ s, w_store (ae_env (envs k) s) = w_store s) →
  ∀ n i rec last s, (k < i + n)%nat → (i < k ∨ i = k ∧ at_tip rec (w_store s))%nat →
    settleable rec0 (w_store s) → is_Some (if_heap (inflight s) !! l) → at_some_tip rec0 rec →
    let '(err, _, s') := appendLoop key n i envs rec last s in
    err = None ∧ is_Some (if_heap (inflight s') !! l).
Proof.
  intros Hk Hu Hkeep Hquiet n. induction n as [|n IH]; intros i rec last s Hlt Hi Hset Hheap Hrec; [lia|].
  cbn [appendLoop]. destruct (Hkeep i) as [Hio Henv]. destruct (Henv s Hset Hheap) as [Hset1 Hheap1].
  rewrite Hio, (appendOnce_settleable rec0) by done.
  destruct (decide _) as [Hat|Hat]; [done|].
  destruct Hi as [Hi|[-> Hi]]; [|exfalso; apply Hat; unfold at_tip in *; by rewrite Hquiet].
  destruct (at_some_tip_refresh rec0 rec _ Hrec Hset1) as [Hrec1 He].
  apply IH; [lia| |done|done|done].
  destruct (decide (S i = k)) as [<-|Hne]; [right|left; lia]. split; [done|].
  unfold at_tip. symmetry. apply refresh_tip_at, Hset1.
Qed.

(** A moving tip does not lose a settlement. The signatures are over the assertion,
    not over the position in the chain, so a settlement that could be appended at the
    tip of the moment keeps being so when other entries move it; whatever the position
    in the report's record and whatever runs between the attempts, if on one of the
    allowed retries no entry slips in between the tip read and the append, the entry is
    written and the settlement event emitted. *)
Lemma settlement_survives_stale_tips rec0 l envs k now s :
  length key = 64%nat → is_u64 (ur_CostCredits rec0) → keeps_settleable rec0 l envs →
  settleable rec0 (w_store s) → is_Some (if_heap (inflight s) !! l) →
  ValidateEntryBody (Some (usage_body rec0)) = None →
  (1 <= k)%nat → Z.of_nat k <= retries → (∀ s, w_store (ae_env (envs k) s) = w_store s) →
  is_Some (fst (appendUsageEntry key retries envs l rec0 now s)).
Proof.
  intros Hk Hu Hkeep Hset Hheap Hv Hge Hle Hquiet. unfold appendUsageEntry.
  pose proof (appendLoop_settles rec0 l envs k Hk Hu Hkeep Hquiet (Z.to_nat (retries + 1)) 0 rec0 None s) as Hl.
  destruct (appendLoop _ _ _ _ _ _ _) as [[err rec] s'].
  destruct Hl as [-> [req Hreq]]; [lia|left; lia|done|done|by split; [left|]|].
  unfold finishAppend. rewrite Hreq. by eexists.
Qed.
End retries.

(** ** A settlement, step by step *)

Definition s_reqID : bytes := replicate 16 Byte.x33.
Definition s_seeder_key : bytes := witness_key Byte.x22.
Definition s_consumer_key : bytes := witness_key Byte.x11.

Definition s_request (st : State) : Request := {|
  RequestID := s_reqID; ConsumerID := wconsumer; rq_EnvelopeBody := Some (witness_env 100 20);
  EnvelopeHash := zero_bytes 32; MaxCostReserved := 600; AssignedSeeder := wseeder;
  SeederPubkey := @ed25519_Public ToyCrypto s_seeder_key; OfferAttempts := []; StartedAt := 0;
  rq_State := st; PreimageHash := zero_bytes 32; SettleSig := None; TerminatedAt := zeroTime |}.

Definition s_reservations : Reservations :=
  run_res_ops [OpReserve s_reqID wconsumer 600 1000 99].

(** The ledger holds a grant of 1000 credits to the consumer. *)
Definition s_state (st : State) : BState := {|
  w_reg := Register (with_load 1 (witness_offerer Byte.x22 f64_one)) {| shards := replicate 2 ∅ |};
  w_mgr := {| mgr_Inflight := Insert (s_request st) NewInflight; mgr_Reservations := s_reservations |};
  w_store := w_state; w_pending := ∅ |}.

Definition s_report : UsageReport :=
  let r sig := {| rp_RequestId := s_reqID; rp_InputTokens := 10; rp_OutputTokens := 2;
                  rp_Model := "claude-sonnet-4-6"; rp_SeederSig := sig |} in
  match @SignUsageAssertion ToyCrypto s_seeder_key (report_assertion (s_request StateAssigned) (r []) 60) with
  | Ok sig => r sig
  | Err _ => r []
  end.

Definition s_reported : res BErr Task * BState :=
  @HandleUsageReport ToyCrypto DefaultPriceTable no_faults (1714000100 * Second) wseeder (Some s_report)
    (s_state StateAssigned).

Definition s_task : Task :=
  match s_reported with
  | (Ok t, _) => t
  | (Err _, _) => {| tk_req := 0; tk_reqID := []; tk_rec := w_usage Byte.x33 [] [] 0 w_state; tk_phase := Waiting |}
  end.

Lemma s_reported_eq : s_reported = (Ok s_task, snd s_reported).
Proof.
  assert (is_ok (fst s_reported) = true) as Hok by (vm_compute; reflexivity).
  unfold s_task. by destruct s_reported as [[t|e] s].
Qed.

Lemma s_state_wf st : inflight_wf (inflight (s_state st)).
Proof. apply Insert_wf, NewInflight_wf. Qed.

Lemma s_reported_books :
  w_store (snd s_reported) = w_state ∧ inflight_wf (inflight (snd s_reported)).
Proof.
  pose proof (@HandleUsageReport_cases ToyCrypto DefaultPriceTable no_faults (1714000100 * Second)
    wseeder (Some s_report) (s_state StateAssigned) (s_state_wf _)) as Hc.
  fold s_reported in Hc. rewrite s_reported_eq in Hc. destruct Hc as ((Hst & _) & Hwf & _).
  split; [exact Hst|exact Hwf].
Qed.

Lemma HandleUsageReport_accepts_witness :
  ∃ t s', s_reported = (Ok t, s') ∧ ur_CostCredits (tk_rec t) = 60 ∧
    w_store s' = w_state ∧ is_Some (w_pending s' !! s_reqID).
Proof.
  exists s_task, (snd s_reported). split; [exact s_reported_eq|].
  pose proof (@HandleUsageReport_accepts ToyCrypto DefaultPriceTable no_faults (1714000100 * Second)
    wseeder (Some s_report) (s_state StateAssigned) (s_state_wf _)) as H.
  fold s_reported in H. rewrite s_reported_eq in H.
  destruct H as ((Hst & _) & rp & req & cost & Hr & Hg & _ & _ & _ & Hc & _ & Ha).
  injection Hr as <-.
  assert (Hcost : ActualCost DefaultPriceTable (rp_Model s_report) (rp_InputTokens s_report)
      (rp_OutputTokens s_report) = Ok 60) by (vm_compute; reflexivity).
  rewrite Hcost in Hc. injection Hc as <-.
  destruct Ha as (preSig & _ & _ & _ & Hp & _ & _ & Hu & _).
  split; [exact (f_equal ua_CostCredits Hu)|]. split; [exact Hst|].
  rewrite Hp. assert (Hid : rp_RequestId s_report = s_reqID) by (vm_compute; reflexivity).
  rewrite Hid, lookup_insert_eq. eexists. reflexivity.
Defined.

Lemma settlement_single_flight_witness :
  ∃ S, @settle_reachable ToyCrypto ToyWire wkey DefaultPriceTable 3 (s_state StateAssigned) S ∧
    length (ss_tasks S) = 1%nat ∧ ∀ t, t ∈ ss_tasks S → ∃ p, w_pending (ss_b S) !! tk_reqID t = Some p ∧ @task_ok ToyCrypto p t.
Proof.
  assert (Hr : @settle_reachable ToyCrypto ToyWire wkey DefaultPriceTable 3 (s_state StateAssigned)
    {| ss_b := snd s_reported; ss_tasks := [s_task] |}).
  { apply rtc_once. apply (@step_report ToyCrypto ToyWire wkey DefaultPriceTable 3 no_faults
      (1714000100 * Second) wseeder (Some s_report) (s_state StateAssigned)). exact s_reported_eq. }
  eexists. split; [exact Hr|]. split; [reflexivity|].
  apply (@settlement_single_flight ToyCrypto ToyWire wkey DefaultPriceTable 3 _ _ (s_state_wf _) Hr).
Defined.

(** The consumer's key is known, and its counter-signature is rubbish. *)
Definition s_resolve : bytes → option bytes := λ _, Some (@ed25519_Public ToyCrypto s_consumer_key).

Definition s_settle (sig : bytes) : option SettleRequest :=
  match w_pending (snd s_reported) !! s_reqID with
  | Some p => Some {| st_PreimageHash := @sha256 ToyCrypto (ps_preSig p); st_ConsumerSig := sig |}
  | None => None
  end.

Lemma refusal_is_final_witness :
  let r := s_settle (zero_bytes 64) in
  let s1 := snd (@HandleSettle ToyCrypto (Some s_resolve) wconsumer r (snd s_reported)) in
  let '(out, s3) := @awaitSettle ToyCrypto ToyWire wkey 3 TimerExpired
     (λ _, {| ae_io := no_faults; ae_env := λ s, s |}) 9 s_task s1 in
  out = None ∧ w_store s3 = w_state.
Proof.
  intros r s1.
  assert (Hf : fst (@HandleSettle ToyCrypto (Some s_resolve) wconsumer r (snd s_reported)) = Err ErrConsumerSig)
    by (vm_compute; reflexivity).
  assert (Hh : @HandleSettle ToyCrypto (Some s_resolve) wconsumer r (snd s_reported) = (Err ErrConsumerSig, s1))
    by (unfold s1; rewrite <- Hf; apply surjective_pairing).
  destruct s_reported_books as [Hst Hwf].
  destruct (@refusal_is_final ToyCrypto ToyWire wkey 3 (Some s_resolve) wconsumer r (snd s_reported) s1 []
    TimerExpired (λ _, {| ae_io := no_faults; ae_env := λ s, s |}) 9 s_task Hwf Hh)
    as (sr & req & Hr & Hl & H).
  assert (Hid : tk_reqID s_task = RequestID req).
  { assert (Hs : Some sr = s_settle (zero_bytes 64)) by (symmetry; exact Hr).
    assert (Hq : RequestID <$> (x ← s_settle (zero_bytes 64);
        LookupByHash (st_PreimageHash x) (inflight (snd s_reported))) = Some (tk_reqID s_task))
      by (vm_compute; reflexivity).
    rewrite <- Hs in Hq. cbn [mbind option_bind] in Hq. rewrite Hl in Hq.
    apply (inj Some) in Hq. symmetry. exact Hq. }
  specialize (H Hid). cbn [settles foldl] in H.
  destruct (awaitSettle _ _ _ _ _ _ _) as [out s3]. destruct H as (H1 & H2 & _).
  split; [exact H1|]. rewrite H2. exact Hst.
Defined.

(** No counter-signature arrives, and nothing else runs. *)
Definition s_envs (i : nat) : AppendEnv := {| ae_io := no_faults; ae_env := λ s, s |}.

Definition s_settled : option LedgerEvent * BState :=
  @awaitSettle ToyCrypto ToyWire wkey 3 TimerExpired s_envs (1714000200 * Second) s_task (snd s_reported).

Lemma s_state_ok st : session_ok (s_state st).
Proof.
  constructor; [apply s_state_wf|]. apply (run_res_ops_ind res_inv (λ _, True));
    [apply res_inv_new|intros op r _; apply run_res_op_inv|repeat constructor].
Qed.


(** The report was made at the tip of [w_state]; a grant has moved it since. *)
Definition s_moved : BState := set_store w_state2 (snd s_reported).
Definition s_record : UsageRecord := with_verdict true [] [] (tk_rec s_task).

Lemma settlement_survives_stale_tips_witness :
  is_ok (fst (@AppendUsage ToyCrypto ToyWire wkey no_faults s_record (w_store s_moved))) = false ∧
  is_Some (fst (@appendUsageEntry ToyCrypto ToyWire wkey 3 s_envs (tk_req s_task) s_record 9 s_moved)).
Proof.
  split; [vm_compute; reflexivity|].
  apply (@settlement_survives_stale_tips ToyCrypto ToyCryptoLaws ToyWire wkey 3 s_record (tk_req s_task)
           s_envs 1 9 s_moved).
  - reflexivity.
  - vm_compute. split; [discriminate|reflexivity].
  - intros i. split; [reflexivity|]. intros s Hs Hh. split; [exact Hs|exact Hh].
  - split; [exact w_state2_reachable|]. split; [vm_compute; eexists; reflexivity|].
    destruct (@AppendUsage ToyCrypto ToyWire wkey no_faults
                (refresh_tip (tip_of w_state2) s_record) w_state2) as [[e|e] s'] eqn:E.
    + apply (@AppendUsage_Ok_acceptable ToyCrypto ToyCryptoLaws ToyWire wkey) in E; [exact E| |].
      * apply (@reachable_inv ToyCrypto ToyCryptoLaws ToyWire wkey), w_state2_reachable.
      * vm_compute. repeat split; discriminate.
    + exfalso. assert (Hok : is_ok (fst (@AppendUsage ToyCrypto ToyWire wkey no_faults
          (refresh_tip (tip_of w_state2) s_record) w_state2)) = true) by (vm_compute; reflexivity).
      rewrite E in Hok. discriminate Hok.
  - vm_compute. eexists. reflexivity.
  - vm_compute. reflexivity.
  - apply le_n.
  - discriminate.
  - reflexivity.
Defined.
