(* ===== verification/Api.v ===== *)
(** tracker/internal/api: what the tracker does with a request from the network.

    A handler decodes the payload, guards it, calls the components below and encodes the
    answer. The protobuf codec of the payloads is the class [ApiWire]. The answers of admission
    and federation are arguments, and so is the peer's identity, which the TLS layer authenticated. What a
    handler tells reputation and admission is recorded as a list of signals; metrics and
    logging are left out. *)
From stdpp Require Import pretty.
From S2P Require Import Prelude Proto Signing Entry Storage Ledger Session Registry Relay Broker Settlement Queue.
From Stdlib Require Import Floats.SpecFloat.

(** ** Errors *)

(** Causes the wire does not see. *)
Inductive InternalCause :=
| CauseLedger (e : LErr) | CauseBroker (e : BErr) | CauseRegistry (e : RegErr) | CauseStore (e : SErr)
| CauseRelay (e : RelayErr)
| CauseMarshal | CauseContext | CauseText (msg : string).

Inductive ApiErr :=
| apiErr (status : RpcStatus) (code msg : string)
| internalErr (e : InternalCause).

Definition ErrInvalid (msg : string) : ApiErr := apiErr RPC_STATUS_INVALID "INVALID" msg.
Definition ErrNoCapacity (msg : string) : ApiErr := apiErr RPC_STATUS_NO_CAPACITY "NO_CAPACITY" msg.
Definition ErrFrozen (msg : string) : ApiErr := apiErr RPC_STATUS_FROZEN "FROZEN" msg.
Definition ErrNotFound (msg : string) : ApiErr := apiErr RPC_STATUS_NOT_FOUND "NOT_FOUND" msg.
Definition ErrUnauthenticated (msg : string) : ApiErr :=
  apiErr RPC_STATUS_UNAUTHENTICATED "UNAUTHENTICATED" msg.
Definition ErrNotImplemented (rpc : string) : ApiErr :=
  apiErr RPC_STATUS_INTERNAL "NOT_IMPLEMENTED" (rpc +:+ " handler awaiting subsystem").

Definition OkResponse (payload : bytes) : RpcResponse :=
  {| rs_Status := RPC_STATUS_OK; rs_Payload := payload; rs_Error := None |}.

(** [text] renders an internal error; it is shown in debug mode only. *)
Definition ErrToResponse (text : InternalCause → string) (debug : bool) (e : ApiErr) : RpcResponse :=
  match e with
  | apiErr status code msg =>
      {| rs_Status := status; rs_Payload := []; rs_Error := Some {| re_Code := code; re_Message := msg |} |}
  | internalErr c =>
      {| rs_Status := RPC_STATUS_INTERNAL; rs_Payload := [];
         rs_Error := Some {| re_Code := "INTERNAL";
                             re_Message := if debug then text c else "internal error" |} |}
  end.

(** ** Messages *)

Record EnrollRequest := {
  er_IdentityPubkey : bytes; er_Role : Z; er_AccountFingerprint : bytes; er_Nonce : bytes;
  er_ConsumerSig : bytes
}.

Record EnrollResponse := {
  enr_IdentityId : bytes; enr_StarterGrantCredits : Z; enr_StarterGrantEntry : bytes
}.

Record BalanceRequest := { bq_IdentityId : bytes }.

Record Advertisement := {
  ad_Models : list string; ad_MaxContext : Z; ad_Available : bool; ad_Headroom : spec_float;
  ad_Tiers : Z
}.

Record TransferRequest := {
  trq_IdentityId : bytes; trq_Amount : Z; trq_DestRegion : string; trq_Nonce : bytes;
  trq_SourceTrackerId : bytes; trq_ConsumerSig : bytes; trq_ConsumerPub : bytes; trq_Timestamp : Z
}.

Record TransferProof := {
  tp_SourceChainTipHash : bytes; tp_SourceSeq : Z; tp_TrackerSig : bytes
}.

Record TurnRelayOpenRequest := { tro_SessionId : bytes }.
Record TurnRelayOpenResponse := { tor_RelayEndpoint : string; tor_Token : bytes }.

(** [proto.Unmarshal] (with the text of its error) and [proto.Marshal] per message. *)
Class ApiWire := {
  unmarshal_EnvelopeSigned : bytes → res string EnvelopeSigned;
  unmarshal_EnrollRequest : bytes → res string EnrollRequest;
  unmarshal_BalanceRequest : bytes → res string BalanceRequest;
  unmarshal_SettleRequest : bytes → res string SettleRequest;
  unmarshal_UsageReport : bytes → res string UsageReport;
  unmarshal_Advertisement : bytes → res string Advertisement;
  unmarshal_TransferRequest : bytes → res string TransferRequest;
  unmarshal_StunAllocateRequest : bytes → res string unit;
  unmarshal_TurnRelayOpenRequest : bytes → res string TurnRelayOpenRequest;
  marshal_BrokerRequestResponse : BrokerOutcome → option bytes;
  marshal_EnrollResponse : EnrollResponse → bytes;
  marshal_SignedBalanceSnapshot : SignedBalanceSnapshot → option bytes;
  marshal_Entry : Entry → option bytes;
  marshal_TransferProof : TransferProof → option bytes;
  marshal_StunAllocateResponse : bytes → option bytes;
  marshal_TurnRelayOpenResponse : TurnRelayOpenResponse → bytes;
  marshal_BootstrapPeerList : BootstrapPeerList → option bytes;
  (** [netip.AddrPort.String] *)
  AddrPort_String : AddrPort → bytes
}.

(** A response, and the settlement goroutine the call has started. *)
Record Reply := { rp_Response : RpcResponse; rp_Task : option Task }.

(** What a handler tells reputation or admission. *)
Inductive Signal :=
| RecordBrokerRequest (consumer : bytes) (decision : string)
| RecordProofFidelity (consumer : bytes) (level : string)
| OnStarterGrant (consumer : bytes) (credits now : Z).

Record AState := { a_queue : QState; a_relay : Allocator; a_signals : list Signal }.

Definition a_state (a : AState) : BState := q_state (a_queue a).

Definition set_queue (q : QState) (a : AState) : AState :=
  {| a_queue := q; a_relay := a_relay a; a_signals := a_signals a |}.

Definition reply (payload : bytes) : Reply := {| rp_Response := OkResponse payload; rp_Task := None |}.

Abbreviation AM := (GoM AState ApiErr).

(** A call on the broker's state, its error translated. *)
Definition on_broker {E A} (f : E → ApiErr) (m : GoM BState E A) : AM A := λ a,
  let q := a_queue a in
  match m (q_state q) with
  | (Ok x, s) => (Ok x, set_queue {| q_state := s; q_queued := q_queued q |} a)
  | (Err e, s) => (Err (f e), set_queue {| q_state := s; q_queued := q_queued q |} a)
  end.

(** [on]: the subsystem that receives the signal is wired. *)
Definition emit (on : bool) (sg : Signal) : AM unit := λ a,
  (Ok tt, if on then {| a_queue := a_queue a; a_relay := a_relay a;
                     a_signals := a_signals a ++ [sg] |} else a).

Definition on_store {E A} (m : GoM Store E A) : GoM BState E A := λ s,
  let '(r, st) := m (w_store s) in (r, set_store st s).

Definition on_registry {E A} (m : GoM Registry E A) : GoM BState E A := λ s,
  let '(r, reg) := m (w_reg s) in (r, set_reg reg s).

Definition wantLength (field : string) (b : bytes) (n : Z) : AM unit :=
  gguard (negb (blen b =? n))
    (ErrInvalid (field +:+ " length " +:+ pretty (blen b) +:+ ", want " +:+ pretty n)).

Definition decode {A} (what : string) (r : res string A) : AM A :=
  glift (match r with Ok a => Ok a | Err e => Err (ErrInvalid (what +:+ e)) end).

(** ** Errors of settlement on the wire *)

Definition mapSettlementError (e : BErr) : ApiErr :=
  match e with
  | ErrSession ErrUnknownRequest => ErrNotFound "unknown request_id"
  | ErrSeederMismatch => ErrInvalid "SEEDER_MISMATCH"
  | ErrModelMismatch => ErrInvalid "MODEL_MISMATCH"
  | ErrCostOverspend => ErrInvalid "COST_OVERSPEND"
  | ErrSeederSigInvalid => ErrInvalid "SEEDER_SIG_INVALID"
  | ErrInvalidState | ErrSession ErrIllegalTransition => ErrInvalid "INVALID_STATE"
  | ErrConsumerSig => ErrInvalid "CONSUMER_SIG_INVALID"
  | ErrUnknownPreimage => ErrNotFound "unknown preimage_hash"
  | ErrDuplicateSettle => ErrInvalid "DUPLICATE_SETTLE"
  | ErrDuplicateUsageReport => ErrInvalid "DUPLICATE_USAGE_REPORT"
  | _ => internalErr (CauseBroker e)
  end.

(** ** Small pieces *)

Definition balanceSnapshotTTL : Z := 10 * 60 * Second.
Definition queueTimeoutFallback : Z := 300 * Second.
Definition enrollStarterGrantCredits : Z := 1000.

(** bit 0 is STANDARD, bit 1 TEE. *)
Definition tiersFromBitmask (b : Z) : list PrivacyTier :=
  (if Z.testbit b 0 then [PRIVACY_TIER_STANDARD] else []) ++
  (if Z.testbit b 1 then [PRIVACY_TIER_TEE] else []).

(** [float64(x)] of a [float32]: the same number. *)
Definition f64_of_f32 (x : spec_float) : spec_float :=
  match x with
  | S754_finite s m e => binary_normalize 53 1024 (if s then Zneg m else Zpos m) e s
  | _ => x
  end.

Definition ClassifyProofFidelity (p : option ExhaustionProofV1) : string :=
  match p with
  | None => "degraded"
  | Some p =>
    match ep_StopFailure p, ep_UsageProbe p with
    | None, None => "degraded"
    | None, Some _ | Some _, None => "partial"
    | Some f, Some _ => if bool_decide (sf_Matcher f = "rate_limit") then "full_two_signal" else "degraded"
    end
  end.

Definition brokerResultToResponse `{ApiWire} (r : Result) : res ApiErr Reply :=
  let outcome := match r with
    | OutcomeAdmit a => BrokerRequestResponse_SeederAssignment (Some {|
        sa_SeederAddr := AddrPort_String (as_SeederAddr a); sa_SeederPubkey := as_SeederPubkey a;
        sa_ReservationToken := as_ReservationToken a |})
    | OutcomeNoCapacity reason => BrokerRequestResponse_NoCapacity (Some {| nc_Reason := reason |})
    end in
  match marshal_BrokerRequestResponse outcome with
  | None => Err (internalErr CauseMarshal)
  | Some out => Ok (reply out)
  end.

Definition rejectedToResponse `{ApiWire} (reason retryAfterS : Z) : res ApiErr Reply :=
  match marshal_BrokerRequestResponse (BrokerRequestResponse_Rejected
          (Some {| rj_Reason := reason; rj_RetryAfterS := retryAfterS |})) with
  | None => Err (internalErr CauseMarshal)
  | Some out => Ok (reply out)
  end.

(** ** One call *)

(** What [Decide] answers. *)
Inductive AdmissionAnswer :=
| AdmitNow | EnqueueAs (requestID : option bytes) | RejectWith (reason retryAfterS : Z) | OtherOutcome.

(** What [serveQueued] sees first: an answer of the drain, its timer, the end of the call. *)
Inductive QueueEvent := QDelivered (r : option Result) | QTimedOut | QCtxDone.

(** The refusal of enrollment's optional gate. *)
Inductive AdmitErr := AdmissionFrozen (msg : string) | AdmissionErr (msg : string).

(** The circumstances of one call: who makes it, the clocks, failing database calls, the
    answers of parts that are arguments, and what runs while it blocks. *)
Record Call := {
  cl_PeerID : bytes; cl_Now : Z; cl_clock : Z; cl_io : Faults;
  cl_decide : bytes → Z → AdmissionAnswer; cl_queueTimeout : Z;
  cl_wait : QState → QState; cl_queueEvent : QueueEvent;
  cl_isFrozen : bytes → bool; cl_archive : option Faults; cl_newID : option bytes;
  cl_atts : nat → Attempt;
  cl_admit : option (bytes → bytes → option AdmitErr);
  cl_StartTransfer : TransferRequest → res string TransferProof;
  cl_RemoteAddr : AddrPort; cl_relayToken : option bytes
}.

(** What the composition root hands the bootstrap handler. *)
Record BootstrapPeersService := {
  bps_IssuerID : bytes; bps_Sign : bytes → res string bytes; bps_MaxPeers : Z; bps_TTL : Z
}.

Section api.
Context `{Crypto} `{Wire} `{ApiWire}.
Variables (trackerKey TrackerPub : bytes) (Identity : option (bytes → option bytes)).
Variables (cfg : BrokerConfig) (pricing : PriceTable) (ReservationTTLS : Z).
(** Whether reputation, and admission's ledger events, are wired. *)
Variables (reputation sink : bool).
(** The text of an internal error. *)
Variable text : InternalCause → string.

(** ** broker_request *)

Definition verifyBrokerRequest (resolve : bytes → option bytes) (env : EnvelopeSigned)
    (body : EnvelopeBody) (consumer : bytes) (now : Z) : res ApiErr unit :=
  match resolve consumer with
  | None => Err (ErrUnauthenticated "consumer not connected")
  | Some pub =>
    if negb (VerifyEnvelope pub (Some env)) then Err (ErrUnauthenticated "envelope signature invalid") else
    match env_BalanceProof body with
    | Some ({| sbs_Body := Some b |} as bal) =>
        if negb (VerifyBalanceSnapshot TrackerPub (Some bal))
        then Err (ErrInvalid "balance_proof signature invalid")
        else if balanceSnapshotTTL <? time_Sub now (time_Unix (i64 (bs_IssuedAt b)))
        then Err (ErrInvalid "balance_proof stale")
        else Ok tt
    | _ => Err (ErrInvalid "balance_proof missing body")
    end
  end.

Definition submitError (e : BErr) : ApiErr :=
  match e with
  | ErrUnknownModel => ErrInvalid "UNKNOWN_MODEL"
  | ErrIdentityFrozen => ErrFrozen "identity revoked by peer tracker"
  | e => internalErr (CauseBroker e)
  end.

Definition serveQueued (c : Call) (env : EnvelopeSigned) (requestID : bytes) : AM Reply := λ a,
  let q := cl_wait c (RegisterQueued (Some env) requestID (a_queue a)) in
  let timeout := if cl_queueTimeout c <=? 0 then queueTimeoutFallback else cl_queueTimeout c in
  match cl_queueEvent c with
  | QDelivered None =>
      (Err (internalErr (CauseText "api: broker delivered nil result for queued envelope")), set_queue q a)
  | QDelivered (Some r) => (brokerResultToResponse r, set_queue q a)
  | QTimedOut => (rejectedToResponse 2 (u32 (timeout / Second)), set_queue (CancelQueued requestID q) a)
  | QCtxDone => (Err (internalErr CauseContext), set_queue (CancelQueued requestID q) a)
  end.

(** Only when an identity resolver and the tracker's key are wired. *)
Definition verifyIfEnabled (c : Call) (env : EnvelopeSigned) (body : EnvelopeBody) (consumer : bytes)
    : AM unit :=
  match Identity with
  | Some resolve =>
      if blen TrackerPub =? PublicKeySize then
        do! glift (verifyBrokerRequest resolve env body consumer (cl_Now c)) in
        emit reputation (RecordProofFidelity consumer (ClassifyProofFidelity (env_ExhaustionProof body)))
      else gret tt
  | None => gret tt
  end.

Definition handleBrokerRequest (c : Call) (payload : bytes) : AM Reply :=
  let! env := decode "EnvelopeSigned: " (unmarshal_EnvelopeSigned payload) in
  match es_Body env with
  | None => gfail (ErrInvalid "EnvelopeSigned.Body nil")
  | Some body =>
    match ValidateEnvelopeBody (Some body) with
    | Some e => gfail (ErrInvalid ("EnvelopeBody: " +:+ e))
    | None =>
      let consumer := copy32 (env_ConsumerId body) in
      do! emit reputation (RecordBrokerRequest consumer "submitted") in
      do! verifyIfEnabled c env body consumer in
      match cl_decide c consumer (cl_Now c) with
      | AdmitNow =>
          let! r := on_broker submitError
                      (Submit cfg pricing ReservationTTLS (cl_isFrozen c) (cl_archive c) (cl_newID c)
                         (cl_atts c) (cl_clock c) (Some (es_Body env))) in
          glift (brokerResultToResponse r)
      | EnqueueAs None =>
          gfail (internalErr (CauseText "api: admission returned OutcomeQueue with nil Queued"))
      | EnqueueAs (Some id) => serveQueued c env id
      | RejectWith reason retry => glift (rejectedToResponse reason retry)
      | OtherOutcome => gfail (internalErr (CauseText "api: admission returned unknown outcome"))
      end
    end
  end.

(** ** Ledger calls *)

Definition handleEnroll (c : Call) (payload : bytes) : AM Reply :=
  let! req := decode "EnrollRequest: " (unmarshal_EnrollRequest payload) in
  do! wantLength "identity_pubkey" (er_IdentityPubkey req) 32 in
  do! wantLength "account_fingerprint" (er_AccountFingerprint req) 32 in
  do! (match cl_admit c with
       | None => gret tt
       | Some gate =>
         match gate (cl_PeerID c) (er_AccountFingerprint req) with
         | None => gret tt
         | Some (AdmissionFrozen msg) => gfail (ErrFrozen msg)
         | Some (AdmissionErr msg) => gfail (internalErr (CauseText msg))
         end
       end) in
  let! entry := on_broker (λ e, internalErr (CauseLedger e))
                  (on_store (IssueStarterGrant trackerKey (cl_io c) (cl_clock c) (cl_PeerID c)
                               enrollStarterGrantCredits)) in
  do! emit sink (OnStarterGrant (cl_PeerID c) enrollStarterGrantCredits (cl_Now c)) in
  match marshal_Entry entry with
  | None => gfail (internalErr CauseMarshal)
  | Some e => gret (reply (marshal_EnrollResponse {|
      enr_IdentityId := cl_PeerID c; enr_StarterGrantCredits := enrollStarterGrantCredits;
      enr_StarterGrantEntry := e |}))
  end.

Definition handleBalance (c : Call) (payload : bytes) : AM Reply :=
  let! req := decode "BalanceRequest: " (unmarshal_BalanceRequest payload) in
  do! wantLength "identity_id" (bq_IdentityId req) 32 in
  let! snap := gread (λ a,
    match SignedBalance trackerKey (cl_io c) (cl_clock c) (bq_IdentityId req) (w_store (a_state a)) with
    | Ok snap => Ok snap
    | Err e => Err (internalErr (CauseLedger e))
    end) in
  match marshal_SignedBalanceSnapshot snap with
  | None => gfail (internalErr CauseMarshal)
  | Some out => gret (reply out)
  end.

(** ** Settlement calls *)

Definition handleSettle (c : Call) (payload : bytes) : AM Reply :=
  let! req := decode "SettleRequest: " (unmarshal_SettleRequest payload) in
  do! gguard (negb (blen (st_PreimageHash req) =? 32)) (ErrInvalid "preimage_hash length") in
  do! on_broker mapSettlementError (HandleSettle Identity (cl_PeerID c) (Some req)) in
  gret (reply []).

Definition handleUsageReport (c : Call) (payload : bytes) : AM Reply :=
  let! req := decode "UsageReport: " (unmarshal_UsageReport payload) in
  do! gguard (negb (blen (rp_RequestId req) =? 16)) (ErrInvalid "UsageReport.request_id: want 16 bytes") in
  do! gguard (bool_decide (rp_Model req = "")) (ErrInvalid "UsageReport.model: empty") in
  let! task := on_broker mapSettlementError
                 (HandleUsageReport pricing (cl_io c) (cl_clock c) (cl_PeerID c) (Some req)) in
  gret {| rp_Response := OkResponse []; rp_Task := Some task |}.

(** ** Seeders *)

Definition handleAdvertise (c : Call) (payload : bytes) : AM Reply :=
  let! ad := decode "Advertisement: " (unmarshal_Advertisement payload) in
  do! on_broker (λ e, internalErr (CauseRegistry e))
        (on_registry (Advertise (cl_PeerID c)
           {| cap_Models := ad_Models ad; cap_MaxContext := ad_MaxContext ad;
              cap_Tiers := tiersFromBitmask (ad_Tiers ad); cap_Attestation := [] |}
           (ad_Available ad) (f64_of_f32 (ad_Headroom ad)))) in
  gret (reply []).

(** ** Transfers *)

Definition transferGuards (req : TransferRequest) : AM unit :=
  do! wantLength "identity_id" (trq_IdentityId req) 32 in
  do! wantLength "nonce" (trq_Nonce req) 32 in
  do! wantLength "source_tracker_id" (trq_SourceTrackerId req) 32 in
  do! wantLength "consumer_pub" (trq_ConsumerPub req) PublicKeySize in
  do! wantLength "consumer_sig" (trq_ConsumerSig req) SignatureSize in
  do! gguard (trq_Amount req =? 0) (ErrInvalid "amount must be > 0") in
  gguard (trq_Timestamp req =? 0) (ErrInvalid "timestamp must be > 0").

Definition transfer_request_intent (req : TransferRequest) : TransferProofRequest := {|
  tpr_SourceTrackerId := trq_SourceTrackerId req; tpr_DestTrackerId := sha256 TrackerPub;
  tpr_IdentityId := trq_IdentityId req; tpr_Amount := trq_Amount req; tpr_Nonce := trq_Nonce req;
  tpr_ConsumerSig := []; tpr_ConsumerPub := trq_ConsumerPub req; tpr_Timestamp := trq_Timestamp req |}.

Definition handleTransferRequest (c : Call) (payload : bytes) : AM Reply :=
  let! req := decode "TransferRequest: " (unmarshal_TransferRequest payload) in
  do! transferGuards req in
  match CanonicalTransferProofRequestPreSig (Some (transfer_request_intent req)) with
  | Err e => gfail (internalErr (CauseText e))
  | Ok canonical =>
    do! gguard (negb (ed25519_Verify (trq_ConsumerPub req) canonical (trq_ConsumerSig req)))
          (ErrUnauthenticated "consumer_sig invalid") in
    match cl_StartTransfer c req with
    | Err e => gfail (internalErr (CauseText e))
    | Ok proof =>
      match marshal_TransferProof proof with
      | None => gfail (internalErr CauseMarshal)
      | Some out => gret (reply out)
      end
    end
  end.

(** ** Relays *)

Variables (relayCfg : AllocatorConfig) (ReflectAddr : AddrPort → AddrPort) (RelayPublicAddr : string).

Definition handleStunAllocate (c : Call) (payload : bytes) : AM Reply :=
  do! (if 0 <? blen payload then decode "StunAllocateRequest: " (unmarshal_StunAllocateRequest payload)
       else gret tt) in
  match marshal_StunAllocateResponse (AddrPort_String (ReflectAddr (cl_RemoteAddr c))) with
  | None => gfail (internalErr CauseMarshal)
  | Some b => gret (reply b)
  end.

Definition fallbackRelayAddr : string := "127.0.0.1:0".

(** The ends of the relay: the pair the broker bound to the token, when a broker is wired. *)
Definition relayEnds (lookup : bool) (c : Call) (rid : bytes) : AM (bytes * bytes) := λ a,
  if lookup then
    match LookupAssignment rid (inflight (a_state a)) with
    | None => (Err (ErrInvalid "turn_relay_open: unknown reservation_token"), a)
    | Some (consumer, seeder) =>
      if negb (bool_decide (cl_PeerID c = consumer)) && negb (bool_decide (cl_PeerID c = seeder))
      then (Err (ErrUnauthenticated "turn_relay_open: caller not party to reservation"), a)
      else (Ok (consumer, seeder), a)
    end
  else (Ok (cl_PeerID c, cl_PeerID c), a).

Definition allocateError (e : RelayErr) : ApiErr :=
  match e with
  | ErrThrottled => ErrNoCapacity "turn_relay_open: seeder bandwidth budget exceeded"
  | ErrDuplicateRequest => ErrInvalid "turn_relay_open: duplicate request_id"
  | e => internalErr (CauseRelay e)
  end.

Definition on_relay {A} (m : GoM Allocator RelayErr A) : AM A := λ a,
  match m (a_relay a) with
  | (Ok x, r) => (Ok x, {| a_queue := a_queue a; a_relay := r; a_signals := a_signals a |})
  | (Err e, r) => (Err (allocateError e), {| a_queue := a_queue a; a_relay := r; a_signals := a_signals a |})
  end.

Definition handleTurnRelayOpen (lookup : bool) (c : Call) (payload : bytes) : AM Reply :=
  let! req := decode "TurnRelayOpenRequest: " (unmarshal_TurnRelayOpenRequest payload) in
  do! wantLength "session_id" (tro_SessionId req) 16 in
  let! ends := relayEnds lookup c (tro_SessionId req) in
  let! sess := on_relay (Allocate relayCfg (cl_relayToken c) ends.1 ends.2 (tro_SessionId req) (cl_Now c)) in
  gret (reply (marshal_TurnRelayOpenResponse {|
    tor_RelayEndpoint := if bool_decide (RelayPublicAddr = "") then fallbackRelayAddr else RelayPublicAddr;
    tor_Token := ts_Token sess |})).

(** ** Bootstrap peers *)

Definition CanonicalBootstrapPeerListPreSig (l : BootstrapPeerList) : option bytes :=
  marshal_BootstrapPeerList {|
    bl_IssuerId := bl_IssuerId l; bl_SignedAt := bl_SignedAt l; bl_ExpiresAt := bl_ExpiresAt l;
    bl_Peers := bl_Peers l; bl_Sig := [] |}.

Definition bootstrapPeer (row : KnownPeer) : BootstrapPeer := {|
  bp_TrackerId := kp_TrackerID row; bp_Addr := kp_Addr row; bp_LastSeen := u64 (kp_LastSeen row);
  bp_RegionHint := kp_RegionHint row; bp_HealthScore := kp_HealthScore row |}.

(** The rows but the issuer's own, at most [max]. *)
Definition bootstrapPeers (issuer : bytes) (max : Z) (rows : list KnownPeer) : list (option BootstrapPeer) :=
  take (Z.to_nat max)
    ((λ row, Some (bootstrapPeer row)) <$> filter (λ row, kp_TrackerID row ≠ issuer) rows).

Definition bootstrapFailure (code msg : string) : Reply := {|
  rp_Response := {| rs_Status := RPC_STATUS_INTERNAL; rs_Payload := [];
                    rs_Error := Some {| re_Code := code; re_Message := msg |} |};
  rp_Task := None |}.

Definition bootstrapList (svc : BootstrapPeersService) (c : Call) (rows : list KnownPeer)
    : BootstrapPeerList :=
  let max := if bps_MaxPeers svc <=? 0 then 50 else bps_MaxPeers svc in
  let now := if cl_Now c =? zeroTime then cl_clock c else cl_Now c in
  let ttl := if bps_TTL svc <=? 0 then 10 * 60 * Second else bps_TTL svc in
  {| bl_IssuerId := bps_IssuerID svc; bl_SignedAt := u64 (Unix now); bl_ExpiresAt := u64 (Unix (now + ttl));
     bl_Peers := bootstrapPeers (bps_IssuerID svc) max rows; bl_Sig := [] |}.

Definition with_list_sig (sig : bytes) (l : BootstrapPeerList) : BootstrapPeerList := {|
  bl_IssuerId := bl_IssuerId l; bl_SignedAt := bl_SignedAt l; bl_ExpiresAt := bl_ExpiresAt l;
  bl_Peers := bl_Peers l; bl_Sig := sig |}.

Definition handleBootstrapPeers (svc : BootstrapPeersService) (c : Call) (payload : bytes) : AM Reply :=
  let max := if bps_MaxPeers svc <=? 0 then 50 else bps_MaxPeers svc in
  let! rows := gread (λ a, Ok (ListKnownPeers (cl_io c) (max + 1) true (w_store (a_state a)))) in
  match rows with
  | Err e => gret (bootstrapFailure "BOOTSTRAP_LIST_STORAGE" (text (CauseStore e)))
  | Ok rows =>
    let list := bootstrapList svc c rows in
    match CanonicalBootstrapPeerListPreSig list with
    | None => gfail (internalErr CauseMarshal)
    | Some cb =>
      match bps_Sign svc cb with
      | Err msg => gret (bootstrapFailure "BOOTSTRAP_LIST_SIGN" msg)
      | Ok sig =>
        match marshal_BootstrapPeerList (with_list_sig sig list) with
        | None => gfail (internalErr CauseMarshal)
        | Some payload => gret (reply payload)
        end
      end
    end
  end.

(** ** Dispatch *)

(** Which subsystems are wired: the others' methods are stubs. *)
Record Wired := {
  wd_Ledger : bool; wd_Registry : bool; wd_Broker : bool; wd_Settlement : bool; wd_Admission : bool;
  wd_Federation : bool; wd_StunTurn : bool; wd_BootstrapPeers : option BootstrapPeersService
}.

Variables (wired : Wired) (debug : bool).

Definition stub (rpc : string) (on : bool) (h : Call → bytes → AM Reply) (c : Call) (payload : bytes) : AM Reply :=
  if on then h c payload else gfail (ErrNotImplemented rpc).

(** The dispatch table. *)
Definition handler (m : RpcMethod) : option (Call → bytes → AM Reply) :=
  match m with
  | RPC_METHOD_ENROLL => Some (stub "enroll" (wd_Ledger wired) handleEnroll)
  | RPC_METHOD_BROKER_REQUEST =>
      Some (stub "broker_request" (wd_Broker wired && wd_Admission wired) handleBrokerRequest)
  | RPC_METHOD_BALANCE => Some (stub "balance" (wd_Ledger wired) handleBalance)
  | RPC_METHOD_SETTLE => Some (stub "settle" (wd_Settlement wired) handleSettle)
  | RPC_METHOD_USAGE_REPORT => Some (stub "usage_report" (wd_Settlement wired) handleUsageReport)
  | RPC_METHOD_ADVERTISE => Some (stub "advertise" (wd_Registry wired) handleAdvertise)
  | RPC_METHOD_TRANSFER_REQUEST =>
      Some (stub "transfer_request" (wd_Federation wired && (blen TrackerPub =? PublicKeySize))
              handleTransferRequest)
  | RPC_METHOD_STUN_ALLOCATE => Some (stub "stun_allocate" (wd_StunTurn wired) handleStunAllocate)
  | RPC_METHOD_TURN_RELAY_OPEN =>
      Some (stub "turn_relay_open" (wd_StunTurn wired) (handleTurnRelayOpen (wd_Broker wired)))
  | RPC_METHOD_BOOTSTRAP_PEERS =>
      Some (match wd_BootstrapPeers wired with
            | None => stub "bootstrap_peers" false (λ _ _, gfail (internalErr CauseMarshal))
            | Some svc => handleBootstrapPeers svc
            end)
  | RPC_METHOD_UNSPECIFIED | RPC_METHOD_OTHER _ => None
  end.

Definition invalidMethod (code msg : string) : RpcResponse :=
  {| rs_Status := RPC_STATUS_INVALID; rs_Payload := [];
     rs_Error := Some {| re_Code := code; re_Message := msg |} |}.

(** [method_String] renders a method number without a name. *)
Variable method_String : Z → string.

Definition Dispatch (c : Call) (req : RpcRequest) (a : AState) : RpcResponse * option Task * AState :=
  match rq_Method req with
  | RPC_METHOD_UNSPECIFIED =>
      (invalidMethod "METHOD_ZERO_RESERVED" "method 0 reserved for heartbeat channel", None, a)
  | m =>
    match handler m with
    | None =>
        (invalidMethod "UNKNOWN_METHOD" (match m with RPC_METHOD_OTHER v => method_String v | _ => "" end), None, a)
    | Some h =>
      match h c (rq_Payload req) a with
      | (Ok r, a) => (rp_Response r, rp_Task r, a)
      | (Err e, a) => (ErrToResponse text debug e, None, a)
      end
    end
  end.
End api.
