(* ===== verification/ApiSpec.v ===== *)
(** The correctness of the request handlers (Api.v): what any request may do to the tracker,
    what backs an assignment, who may open a relay, and what enrollment gives away. *)
From S2P Require Import Prelude Proto Signing Entry Storage Ledger LedgerSpec Session Registry Relay.
From S2P Require Import Broker BrokerSpec Settlement SettlementSpec Queue Api.

(** ** What [Submit] is made of *)

(** Its writes, one by one: each keeps the session tables well-formed, and none touches
    the database or the pending settlements. *)
Inductive submit_move : BState → BState → Prop :=
| move_reg r s : submit_move s (set_reg r s)
| move_inflight f s : (inflight_wf (inflight s) → inflight_wf f) → submit_move s (set_inflight f s)
| move_reservations r s : (res_inv (reservations s) → res_inv r) → submit_move s (set_reservations r s).

Lemma MarkSeeder_wf id seeder pub f : inflight_wf f → inflight_wf (snd (MarkSeeder id seeder pub f)).
Proof. apply with_request_wf. intros l r f' Hwf _. by apply update_at_wf. Qed.

Section moves.
Context (R : BState → BState → Prop) `{!PreOrder R} (Hmove : ∀ s s', submit_move s s' → R s s').

Lemma failAndRelease_moves id now s : R s (failAndRelease id now s).
Proof.
  unfold failAndRelease, transition, release. etrans.
  - apply Hmove, (move_reservations (snd (Session.Release id (reservations s)))).
    apply (run_res_op_inv (OpRelease id)).
  - apply Hmove, move_inflight, Transition_wf.
Qed.

Lemma dec_load_moves id s : R s (dec_load id s).
Proof. apply Hmove, move_reg. Qed.

Context `{Crypto} `{Wire} (cfg : BrokerConfig) (pricing : PriceTable) (ttl : Z).

Lemma offerLoop_moves n i atts body rid envHash tried any s :
  (∀ i s, R s (att_Env (atts i) s)) →
  R s (snd (offerLoop cfg n i atts body rid envHash tried any s)).
Proof.
  intros Henv. revert i tried any s. induction n as [|n IH]; intros i tried any s; [done|].
  cbn [offerLoop]. destruct (Pick _ body _ _ cfg tried) as [|cand rest]; [done|].
  destruct (IncLoad _ (w_reg s)) as [[load|e] r].
  2:{ etrans; [apply Hmove, (move_reg r)|apply IH]. }
  etrans; [apply Hmove, (move_reg r)|]. etrans; [apply (Henv i)|].
  generalize (att_Env (atts i) (set_reg r s)) as s1. intros s1.
  destruct (runOffer _ _ _ _ _) as [| |eph|].
  - etrans; [apply dec_load_moves|apply IH].
  - etrans; [apply dec_load_moves|apply IH].
  - etrans; [apply Hmove, move_inflight, (MarkSeeder_wf rid (sr_IdentityID (cand_Record cand)) eph)|].
    generalize (set_inflight (snd (MarkSeeder rid (sr_IdentityID (cand_Record cand)) eph (inflight s1))) s1).
    intros s2. pose proof (Transition_wf rid StateSelecting StateAssigned (att_Now (atts i)) (inflight s2)) as Ht.
    destruct (Transition _ _ _ _ _) as [[u|e] f]; simpl in *.
    + by apply Hmove, move_inflight.
    + etrans; [by apply Hmove, (move_inflight f)|]. etrans; [apply dec_load_moves|].
      apply failAndRelease_moves.
  - etrans; [apply dec_load_moves|apply failAndRelease_moves].
Qed.

Lemma Submit_moves isFrozen archive requestID atts now env s :
  (∀ i s, R s (att_Env (atts i) s)) →
  R s (snd (Submit cfg pricing ttl isFrozen archive requestID atts now env s)).
Proof.
  intros Henv. unfold Submit.
  destruct env as [[body|]|]; [|done..].
  destruct (checkFrozen _ _ _ _) as [[]|]; [|done].
  destruct (MaxCost _ _) as [cost|]; [|done].
  destruct requestID as [id|]; [|done].
  destruct (marshal_EnvelopeBody body) as [bodyBytes|]; [|done].
  unfold submitReserved. cbv zeta.
  pose proof (Reserve_inv id (copy32 (env_ConsumerId body)) cost (proof_credits body)
                (now + ttl * Second) (reservations s)) as Hri.
  destruct (Reserve _ _ _ _ _ _) as [[u|e] r]; [|by destruct e].
  simpl in Hri. set (s1 := set_inflight _ _).
  assert (R s s1) as Hs1.
  { etrans; [by apply Hmove, (move_reservations r)|]. apply Hmove, move_inflight, Insert_wf. }
  pose proof (offerLoop_moves (Z.to_nat (cfg_MaxOfferAttempts cfg)) 0 atts body id (sha256 bodyBytes)
                [] false s1 Henv) as Hl.
  destruct (offerLoop _ _ _ _ _ _ _ _ _ _) as [[[[a|] any]|e] s2]; simpl in *.
  - by etrans.
  - etrans; [exact Hs1|]. etrans; [exact Hl|]. apply failAndRelease_moves.
  - by etrans.
Qed.
End moves.

(** ** What a handler may do *)

(** The books: the session tables stay well-formed, and the database changes only by
    operations of the ledger. *)
Definition books `{Crypto} `{Wire} (key : bytes) (s s' : BState) : Prop :=
  session_ok s → session_ok s' ∧ rtc (ledger_step key) (w_store s) (w_store s').

(** What runs while the call blocks keeps the books. *)
Definition call_sound `{Crypto} `{Wire} (key : bytes) (c : Call) : Prop :=
  (∀ i s, books key s (att_Env (cl_atts c i) s)) ∧
  (∀ q, books key (q_state q) (q_state (cl_wait c q))).

(** Nor does it touch the pending settlements. *)
Definition call_quiet (c : Call) : Prop :=
  (∀ i s, w_pending (att_Env (cl_atts c i) s) = w_pending s) ∧
  (∀ q, w_pending (q_state (cl_wait c q)) = w_pending (q_state q)).

(** A response the plugin's validator takes, but for the size of its payload. *)
Definition response_ok (r : RpcResponse) : Prop :=
  ValidateRPCResponse (Some r) =
    if MaxRPCPayloadSize <? blen (rs_Payload r) then Some "proto: RpcResponse.Payload" else None.

Definition err_ok (e : ApiErr) : Prop :=
  match e with
  | apiErr (RPC_STATUS_OK | RPC_STATUS_UNSPECIFIED | RPC_STATUS_OTHER _) _ _ => False
  | apiErr _ code _ => code ≠ ""
  | internalErr _ => True
  end.

Lemma ErrToResponse_ok text debug e : err_ok e → response_ok (ErrToResponse text debug e).
Proof.
  destruct e as [st code msg|c]; [|done]. unfold response_ok. simpl.
  destruct st; try done; intros Hc; by rewrite (bool_decide_false _ Hc).
Qed.

Definition plain_reply (r : Reply) : Prop := response_ok (rp_Response r) ∧ rp_Task r = None.

Section handles.
Context `{CryptoLaws} `{Wire} `{ApiWire}.
Variables (key TrackerPub : bytes) (Identity : option (bytes → option bytes)).
Variables (cfg : BrokerConfig) (pricing : PriceTable) (ttl : Z) (reputation sink : bool).
Variables (text : InternalCause → string) (relayCfg : AllocatorConfig) (ReflectAddr : AddrPort → AddrPort).
Variable RelayPublicAddr : string.

(** The relation between the state before a call and after it. *)
Definition call_rel (c : Call) (s s' : BState) : Prop :=
  books key s s' ∧ (call_quiet c → w_pending s' = w_pending s).

#[global] Instance call_rel_preorder c : PreOrder (call_rel c).
Proof.
  split.
  - intros s. by split.
  - intros s1 s2 s3 [B1 P1] [B2 P2]. split; [|intros Hq; by rewrite P2, P1].
    intros Hs. destruct (B1 Hs) as [Hs2 ?]. destruct (B2 Hs2). split; [done|]. by etrans.
Qed.

Lemma submit_move_rel c s s' : submit_move s s' → call_rel c s s'.
Proof.
  intros Hm. destruct Hm as [r s|f s Hf|r s Hr]; (split; [|done]); intros [Hwf Hi];
    (split; [|apply rtc_refl]); constructor; simpl; auto.
Qed.

(** A computation of a handler: it relates the states, its errors are reportable, and its
    answer satisfies [P]. *)
Definition Handles (c : Call) {A} (P : A → Prop) (m : AM A) : Prop := ∀ a,
  let '(out, a') := m a in
  call_rel c (a_state a) (a_state a') ∧ match out with Ok x => P x | Err e => err_ok e end.

Context (c : Call).

Lemma gret_handles {A} (P : A → Prop) x : P x → Handles c P (gret x).
Proof. done. Qed.
Lemma gfail_handles {A} (P : A → Prop) e : err_ok e → Handles c P (gfail (A:=A) e).
Proof. done. Qed.
Lemma gguard_handles b e : err_ok e → Handles c (λ _, True) (gguard b e).
Proof. intros He a. unfold gguard. by destruct b. Qed.
Lemma glift_handles {A} (P : A → Prop) r :
  match r with Ok x => P x | Err e => err_ok e end → Handles c P (glift r).
Proof. done. Qed.
Lemma gread_handles {A} (P : A → Prop) (f : AState → res ApiErr A) :
  (∀ a, match f a with Ok x => P x | Err e => err_ok e end) → Handles c P (gread f).
Proof. intros Hf a. simpl. split; [done|apply Hf]. Qed.
Lemma emit_handles on sg : Handles c (λ _, True) (emit on sg).
Proof. intros a. unfold emit. by destruct on. Qed.
Lemma decode_handles {A} what (r : res string A) : Handles c (λ _, True) (decode what r).
Proof. apply glift_handles. by destruct r. Qed.
Lemma wantLength_handles field b n : Handles c (λ _, True) (wantLength field b n).
Proof. by apply gguard_handles. Qed.

Lemma gbind_handles {A B} (P : A → Prop) (Q : B → Prop) m k :
  Handles c P m → (∀ x, P x → Handles c Q (k x)) → Handles c Q (gbind m k).
Proof.
  intros Hm Hk a. unfold gbind. specialize (Hm a). destruct (m a) as [[x|e] a1]; [|done].
  destruct Hm as [Hr Hx]. specialize (Hk x Hx a1). destruct (k x a1) as [out a2].
  destruct Hk as [Hr2 ?]. split; [|done]. by etrans.
Qed.

Lemma on_broker_handles {E A} (P : A → Prop) (f : E → ApiErr) (m : GoM BState E A) :
  (∀ s, call_rel c s (snd (m s))) → (∀ s x, fst (m s) = Ok x → P x) → (∀ e, err_ok (f e)) →
  Handles c P (on_broker f m).
Proof.
  intros Hr HP He a. unfold on_broker. specialize (Hr (q_state (a_queue a))).
  specialize (HP (q_state (a_queue a))). destruct (m _) as [[x|e] s]; simpl in *; auto.
Qed.

Lemma on_relay_handles {A} (m : GoM Allocator RelayErr A) : Handles c (λ _, True) (on_relay m).
Proof.
  intros a. unfold on_relay. destruct (m _) as [[x|e] r]; [done|]. split; [done|]. by destruct e.
Qed.

(** Marshalling an answer. *)
Lemma reply_plain payload : plain_reply (reply payload).
Proof. split; [|done]. unfold response_ok. simpl. by destruct (_ <? _). Qed.

Lemma brokerResultToResponse_ok r :
  match brokerResultToResponse r with Ok x => plain_reply x | Err e => err_ok e end.
Proof. unfold brokerResultToResponse. destruct (marshal_BrokerRequestResponse _); [apply reply_plain|done]. Qed.

Lemma rejectedToResponse_ok reason retry :
  match rejectedToResponse reason retry with Ok x => plain_reply x | Err e => err_ok e end.
Proof. unfold rejectedToResponse. destruct (marshal_BrokerRequestResponse _); [apply reply_plain|done]. Qed.

Lemma marshalled_handles (o : option bytes) :
  Handles c plain_reply
    (match o with None => gfail (internalErr CauseMarshal) | Some b => gret (reply b) end).
Proof. destruct o; [apply gret_handles, reply_plain|by apply gfail_handles]. Qed.

(** ** The handlers *)

Lemma IssueStarterGrant_rel io now id s :
  call_rel c s (snd (on_store (IssueStarterGrant key io now id enrollStarterGrantCredits) s)).
Proof.
  unfold on_store.
  pose proof (step_op key io (OpIssueStarterGrant now id enrollStarterGrantCredits) (w_store s)) as Hs.
  simpl in Hs. destruct (IssueStarterGrant _ _ _ _ _ _) as [r st]. split; [|done].
  intros [? ?]. split; [by constructor|]. by apply rtc_once, Hs.
Qed.
End handles.

(** Step through a handler, one bind at a time. *)
Ltac handle_head :=
  lazymatch goal with
  | |- Handles _ _ _ (decode _ _) => apply decode_handles
  | |- Handles _ _ _ (wantLength _ _ _) => apply wantLength_handles
  | |- Handles _ _ _ (gguard _ _) => by apply gguard_handles
  | |- Handles _ _ _ (emit _ _) => apply emit_handles
  | |- Handles _ _ _ (on_relay _) => apply on_relay_handles
  end.

Ltac handle :=
  repeat lazymatch goal with
  | |- plain_reply _ => apply reply_plain
  | |- True => exact I
  | |- Handles _ _ _ (gret _) => apply gret_handles
  | |- Handles _ _ _ (gfail _) => apply gfail_handles; first [exact I | discriminate]
  | |- Handles _ _ _ (match ?o with None => gfail _ | Some _ => gret _ end) => apply marshalled_handles
  | |- Handles _ _ _ (gbind _ _) =>
      eapply gbind_handles; [solve [handle_head]|cbv beta; intros ? _]
  end.

Section handlers.
Context `{CryptoLaws} `{Wire} `{ApiWire}.
Variables (key TrackerPub : bytes) (Identity : option (bytes → option bytes)).
Variables (cfg : BrokerConfig) (pricing : PriceTable) (ttl : Z) (reputation sink : bool).
Variables (text : InternalCause → string) (relayCfg : AllocatorConfig) (ReflectAddr : AddrPort → AddrPort).
Variable RelayPublicAddr : string.
Context (c : Call) (Hc : call_sound key c).

Lemma handleEnroll_handles payload : Handles key c plain_reply (handleEnroll key sink c payload).
Proof.
  unfold handleEnroll. handle.
  apply (gbind_handles key c (λ _, True)).
  { destruct (cl_admit c) as [gate|]; [|by apply gret_handles].
    destruct (gate _ _) as [[msg|msg]|]; handle. }
  intros _ _. apply (gbind_handles key c (λ _, True)); [|intros entry _].
  { apply on_broker_handles; [apply IssueStarterGrant_rel|done|done]. }
  handle. destruct (marshal_Entry entry); handle.
Qed.

Lemma handleBalance_handles payload : Handles key c plain_reply (handleBalance key c payload).
Proof.
  unfold handleBalance. handle. apply (gbind_handles key c (λ _, True)); [|intros snap _; handle].
  apply gread_handles. intros a. by destruct (SignedBalance _ _ _ _ _).
Qed.

Lemma handleAdvertise_handles payload : Handles key c plain_reply (handleAdvertise c payload).
Proof.
  unfold handleAdvertise. handle.
  apply (gbind_handles key c (λ _, True)); [|intros ? _; handle].
  apply on_broker_handles; [|done|done]. intros s. unfold on_registry.
  destruct (Advertise _ _ _ _ _) as [r reg]. by apply submit_move_rel, move_reg.
Qed.

Lemma transferGuards_handles req : Handles key c (λ _, True) (transferGuards req).
Proof. unfold transferGuards. handle. by apply gguard_handles. Qed.

Lemma handleTransferRequest_handles payload :
  Handles key c plain_reply (handleTransferRequest TrackerPub c payload).
Proof.
  unfold handleTransferRequest. handle.
  apply (gbind_handles key c (λ _, True)); [apply transferGuards_handles|intros _ _].
  destruct (CanonicalTransferProofRequestPreSig _) as [canonical|e]; handle.
  destruct (cl_StartTransfer _ _); handle.
Qed.

Lemma handleStunAllocate_handles payload :
  Handles key c plain_reply (handleStunAllocate ReflectAddr c payload).
Proof.
  unfold handleStunAllocate. apply (gbind_handles key c (λ _, True)); [|intros _ _; handle].
  destruct (_ <? _); [apply decode_handles|by apply gret_handles].
Qed.

Lemma handleTurnRelayOpen_handles lookup payload :
  Handles key c plain_reply (handleTurnRelayOpen relayCfg RelayPublicAddr lookup c payload).
Proof.
  unfold handleTurnRelayOpen. handle.
  apply (gbind_handles key c (λ _, True)); [|intros ends _; handle].
  intros a. unfold relayEnds. destruct lookup; [|done].
  destruct (LookupAssignment _ _) as [[cons seed]|]; [|done]. by destruct (_ && _).
Qed.

Lemma handleBootstrapPeers_handles svc payload :
  Handles key c plain_reply (handleBootstrapPeers text svc c payload).
Proof.
  unfold handleBootstrapPeers. apply (gbind_handles key c (λ _, True)); [by apply gread_handles|].
  intros [rows|e] _; [|by apply gret_handles].
  destruct (CanonicalBootstrapPeerListPreSig _) as [cb|]; [|handle].
  destruct (bps_Sign _ _); [handle|by apply gret_handles].
Qed.

Lemma verifyIfEnabled_handles env body consumer :
  Handles key c (λ _, True) (verifyIfEnabled TrackerPub Identity reputation c env body consumer).
Proof.
  unfold verifyIfEnabled. destruct Identity as [resolve|]; [|by apply gret_handles].
  destruct (_ =? _); [|by apply gret_handles].
  apply (gbind_handles key c (λ _, True)); [|intros _ _; apply emit_handles].
  apply glift_handles. unfold verifyBrokerRequest.
  destruct (resolve consumer) as [pub|]; [|done]. destruct (negb _); [done|].
  destruct (env_BalanceProof body) as [[[b|] sig]|]; [|done..].
  destruct (negb _); [done|]. by destruct (_ <? _).
Qed.

Lemma serveQueued_handles env id : Handles key c plain_reply (serveQueued c env id).
Proof using Hc.
  intros a. unfold serveQueued. cbv zeta.
  assert (∀ q, q_state q = q_state (cl_wait c (RegisterQueued (Some env) id (a_queue a))) →
    call_rel key c (a_state a) (a_state (set_queue q a))) as Hq.
  { intros q Hq. unfold a_state. cbn [a_queue set_queue]. rewrite Hq.
    assert (q_state (a_queue a) = q_state (RegisterQueued (Some env) id (a_queue a))) as ->
      by (unfold RegisterQueued; by destruct env as [[|] ?]).
    split; [apply Hc|]. intros [_ Hw]. apply Hw. }
  destruct (cl_queueEvent c) as [[r|]| |].
  - split; [by apply Hq|]. apply brokerResultToResponse_ok.
  - split; [by apply Hq|done].
  - split; [by apply Hq|]. apply rejectedToResponse_ok.
  - split; [by apply Hq|done].
Qed.

Lemma handleBrokerRequest_handles payload :
  Handles key c plain_reply
    (handleBrokerRequest TrackerPub Identity cfg pricing ttl reputation c payload).
Proof using Hc.
  unfold handleBrokerRequest. handle. destruct (es_Body _) as [body|]; [|handle].
  destruct (ValidateEnvelopeBody _); [handle|]. handle.
  apply (gbind_handles key c (λ _, True)); [apply verifyIfEnabled_handles|intros _ _].
  destruct (cl_decide _ _ _) as [|[id|]|reason retry|]; handle.
  - apply (gbind_handles key c (λ _, True));
      [|intros r _; apply glift_handles, brokerResultToResponse_ok].
    apply on_broker_handles; [|done|by intros []].
    intros s. apply (Submit_moves (call_rel key c)); [apply submit_move_rel|].
    intros i s'. split; [apply Hc|]. intros [Ha _]. apply Ha.
  - apply serveQueued_handles.
  - apply glift_handles, rejectedToResponse_ok.
Qed.
End handlers.

(** ** Any request *)

Definition task_of (out : res ApiErr Reply) : option Task :=
  match out with Ok r => rp_Task r | Err _ => None end.

Section dispatch.
Context `{CryptoLaws} `{Wire} `{ApiWire}.
Variables (key TrackerPub : bytes) (Identity : option (bytes → option bytes)).
Variables (cfg : BrokerConfig) (pricing : PriceTable) (ttl retries : Z) (reputation sink : bool).
Variables (text : InternalCause → string) (relayCfg : AllocatorConfig) (ReflectAddr : AddrPort → AddrPort).
Variables (RelayPublicAddr : string) (wired : Wired) (debug : bool) (method_String : Z → string).

(** A call that leaves the state [a'] and, maybe, a settlement goroutine is one step of the
    settlement side. *)
Definition settles_as (a a' : AState) (t : option Task) : Prop := ∀ ts,
  settle_step key pricing retries {| ss_b := a_state a; ss_tasks := ts |}
    {| ss_b := a_state a'; ss_tasks := option_list t ++ ts |}.

Definition rpc_sound (c : Call) (a a' : AState) (out : res ApiErr Reply) : Prop :=
  session_ok (a_state a) →
  session_ok (a_state a') ∧ rtc (ledger_step key) (w_store (a_state a)) (w_store (a_state a')) ∧
  (call_quiet c → settles_as a a' (task_of out)) ∧
  match out with Ok r => response_ok (rp_Response r) | Err e => err_ok e end.

Lemma handles_sound c m a :
  Handles key c plain_reply m → let '(out, a') := m a in rpc_sound c a a' out.
Proof.
  intros Hm. specialize (Hm a). destruct (m a) as [out a']. destruct Hm as [[Hb Hp] Ho].
  intros Hok. destruct (Hb Hok) as [Hok' ?]. split; [done|]. split; [done|]. split.
  - intros Hq ts. assert (task_of out = None) as ->.
    { destruct out as [r|e]; [apply Ho|done]. }
    simpl. apply Settlement.step_other; [by apply Hp|apply Hok'].
  - destruct out; [apply Ho|done].
Qed.

Lemma mapSettlementError_ok e : err_ok (mapSettlementError e).
Proof. destruct e as [| | | | | | | | | | |[]| | |]; done. Qed.

Lemma gfail_sound c a e : err_ok e → rpc_sound c a a (Err e).
Proof.
  intros He Hok. split; [done|]. split; [apply rtc_refl|]. split; [|done].
  intros _ ts. simpl. apply Settlement.step_other; [done|apply Hok].
Qed.

Lemma same_books_ok s s' : session_ok s → same_books s s' → inflight_wf (inflight s') → session_ok s'.
Proof. intros Hok (_ & _ & Hr) Hwf. constructor; [done|]. rewrite Hr. apply Hok. Qed.

Lemma handleUsageReport_sound c payload a :
  let '(out, a') := handleUsageReport pricing c payload a in rpc_sound c a a' out.
Proof.
  unfold handleUsageReport, gbind, decode, glift, gguard, gfail, gret.
  destruct (unmarshal_UsageReport payload) as [req|e]; [|by apply gfail_sound].
  destruct (negb _); [by apply gfail_sound|]. destruct (bool_decide _); [by apply gfail_sound|].
  unfold on_broker. cbv beta iota zeta.
  destruct (HandleUsageReport _ _ _ _ _ _) as [[t|e] s'] eqn:Eh; intros Hok;
    pose proof (HandleUsageReport_cases pricing (cl_io c) (cl_clock c) (cl_PeerID c) (Some req) _
                  (so_inflight _ Hok)) as Hcs; unfold a_state in *; rewrite Eh in Hcs;
    destruct Hcs as (Hb & Hwf & _);
    pose proof (same_books_ok _ _ Hok Hb Hwf) as Hok'; destruct Hb as (Hst & _);
    (split; [exact Hok'|]); cbn [set_queue a_queue q_state]; rewrite Hst; (split; [apply rtc_refl|]); split.
  - intros _ ts. by eapply step_report.
  - apply reply_plain.
  - intros _ ts. by eapply step_report_refused.
  - apply mapSettlementError_ok.
Qed.

Lemma handleSettle_sound c payload a :
  let '(out, a') := handleSettle Identity c payload a in rpc_sound c a a' out.
Proof.
  unfold handleSettle, gbind, decode, glift, gguard, gfail, gret.
  destruct (unmarshal_SettleRequest payload) as [req|e]; [|by apply gfail_sound].
  destruct (negb _); [by apply gfail_sound|].
  unfold on_broker. cbv beta iota zeta.
  assert (∀ ts, settle_step key pricing retries {| ss_b := a_state a; ss_tasks := ts |}
     {| ss_b := snd (HandleSettle Identity (cl_PeerID c) (Some req) (a_state a)); ss_tasks := ts |})
    as Hstep by (intros; apply step_settle).
  unfold a_state in Hstep.
  destruct (HandleSettle _ _ _ _) as [[u|e] s'] eqn:Eh; intros Hok;
    pose proof (HandleSettle_spec Identity (cl_PeerID c) (Some req) _ (so_inflight _ Hok)) as Hcs;
    unfold a_state in *; rewrite Eh in Hcs; destruct Hcs as (Hb & Hwf & _);
    pose proof (same_books_ok _ _ Hok Hb Hwf) as Hok'; destruct Hb as (Hst & _);
    (split; [exact Hok'|]); cbn [set_queue a_queue q_state]; rewrite Hst; (split; [apply rtc_refl|]); split.
  - intros _ ts. apply Hstep.
  - apply reply_plain.
  - intros _ ts. apply Hstep.
  - apply mapSettlementError_ok.
Qed.

Abbreviation rpc_handler := (handler key TrackerPub Identity cfg pricing ttl reputation sink text relayCfg
  ReflectAddr RelayPublicAddr wired).
Abbreviation rpc := (Dispatch key TrackerPub Identity cfg pricing ttl reputation sink text relayCfg
  ReflectAddr RelayPublicAddr wired debug method_String).

Lemma stub_sound name on h c payload a :
  (let '(out, a') := h c payload a in rpc_sound c a a' out) →
  let '(out, a') := stub name on h c payload a in rpc_sound c a a' out.
Proof. intros Hh. unfold stub. destruct on; [done|]. by apply gfail_sound. Qed.

Lemma handler_sound m h c payload a :
  call_sound key c → rpc_handler m = Some h →
  let '(out, a') := h c payload a in rpc_sound c a a' out.
Proof.
  intros Hc Hh. destruct m; try discriminate Hh; apply (inj Some) in Hh as <-.
  - apply stub_sound, handles_sound, handleEnroll_handles.
  - by apply stub_sound, handles_sound, handleBrokerRequest_handles.
  - apply stub_sound, handles_sound, handleBalance_handles.
  - apply stub_sound, handleSettle_sound.
  - apply stub_sound, handleUsageReport_sound.
  - apply stub_sound, handles_sound, handleAdvertise_handles.
  - apply stub_sound, handles_sound, handleTransferRequest_handles.
  - apply stub_sound, handles_sound, handleStunAllocate_handles.
  - apply stub_sound, handles_sound, handleTurnRelayOpen_handles.
  - destruct (wd_BootstrapPeers wired) as [svc|]; [|by apply gfail_sound].
    apply handles_sound, handleBootstrapPeers_handles.
Qed.

(** C7: no request breaks the tracker. Whoever calls, whatever bytes the request holds,
    whichever database calls fail and whatever well-behaved code runs while the call
    blocks, [Dispatch] answers with a response that validates (but for a payload that is
    too large), leaves the in-flight table, the reservations and their sums well-formed,
    and changes the database only by operations of the ledger; and if the code it waits
    for leaves the pending settlements alone, the whole call, with the settlement
    goroutine it may start, is one step of the settlement machine, so that the ledger's
    and the settlement's invariants survive every sequence of requests. *)
Theorem Dispatch_safe c req a :
  session_ok (a_state a) → call_sound key c →
  let '(resp, task, a') := rpc c req a in
  response_ok resp ∧ session_ok (a_state a') ∧
  rtc (ledger_step key) (w_store (a_state a)) (w_store (a_state a')) ∧
  (call_quiet c → settles_as a a' task).
Proof.
  intros Hok Hc. unfold Dispatch.
  assert (∀ resp, response_ok resp → response_ok resp ∧ session_ok (a_state a) ∧
    rtc (ledger_step key) (w_store (a_state a)) (w_store (a_state a)) ∧
    (call_quiet c → settles_as a a None)) as Hsame.
  { intros resp Hr. do 2 (split; [done|]). split; [apply rtc_refl|]. intros _ ts.
    apply Settlement.step_other; [done|apply Hok]. }
  destruct (rpc_handler (rq_Method req)) as [h|] eqn:Eh.
  - pose proof (handler_sound _ _ c (rq_Payload req) a Hc Eh) as Hs.
    destruct (h c (rq_Payload req) a) as [[r|e] a'] eqn:Er; destruct (Hs Hok) as (? & ? & Ht & Hr);
      destruct (rq_Method req); try discriminate Eh; rewrite Eh, Er; split_and!; try done; by apply ErrToResponse_ok.
  - destruct (rq_Method req); try discriminate Eh; by apply Hsame.
Qed.
End dispatch.

(** ** What backs an assignment *)

Section backing.
Context `{CryptoLaws} `{Wire} `{ApiWire}.
Variables (TrackerPub : bytes) (resolve : bytes → option bytes).
Variables (cfg : BrokerConfig) (pricing : PriceTable) (ttl : Z) (reputation : bool).

(** The request holds an envelope that is valid, signed by the connected consumer it
    names, with a balance snapshot [b] the tracker signed less than ten minutes ago. *)
Definition backed (c : Call) (payload : bytes) (env : EnvelopeSigned) (body : EnvelopeBody)
    (b : BalanceSnapshotBody) : Prop :=
  unmarshal_EnvelopeSigned payload = Ok env ∧ es_Body env = Some body ∧
  ValidateEnvelopeBody (Some body) = None ∧
  (∃ pub, resolve (copy32 (env_ConsumerId body)) = Some pub ∧ VerifyEnvelope pub (Some env) = true) ∧
  ∃ bal, env_BalanceProof body = Some bal ∧ sbs_Body bal = Some b ∧
    VerifyBalanceSnapshot TrackerPub (Some bal) = true ∧
    time_Sub (cl_Now c) (time_Unix (i64 (bs_IssuedAt b))) <= balanceSnapshotTTL.

Lemma verifyBrokerRequest_Ok env body consumer now :
  verifyBrokerRequest TrackerPub resolve env body consumer now = Ok tt →
  ∃ pub bal b, resolve consumer = Some pub ∧ VerifyEnvelope pub (Some env) = true ∧
    env_BalanceProof body = Some bal ∧ sbs_Body bal = Some b ∧
    VerifyBalanceSnapshot TrackerPub (Some bal) = true ∧
    time_Sub now (time_Unix (i64 (bs_IssuedAt b))) <= balanceSnapshotTTL.
Proof.
  unfold verifyBrokerRequest. destruct (resolve consumer) as [pub|]; [|done].
  destruct (negb (VerifyEnvelope _ _)) eqn:Ev; [done|].
  destruct (env_BalanceProof body) as [[[b|] sig]|]; [|done..].
  destruct (negb (VerifyBalanceSnapshot _ _)) eqn:Eb; [done|].
  destruct (balanceSnapshotTTL <? time_Sub now (time_Unix (i64 (bs_IssuedAt b)))) eqn:Et; [done|].
  intros _. bool_to_prop. eexists pub, _, b. by split_and!.
Qed.

(** An admitted request was reserved for. *)
Lemma Submit_admit_reserved isFrozen archive requestID atts now body s a :
  fst (Submit cfg pricing ttl isFrozen archive requestID atts now (Some (Some body)) s)
    = Ok (OutcomeAdmit a) →
  ∃ cost, MaxCost pricing (Some body) = Ok cost ∧
    u64 (Reserved (copy32 (env_ConsumerId body)) (reservations s) + cost) <= proof_credits body.
Proof.
  unfold Submit. destruct (checkFrozen _ _ _ _) as [[]|]; [|done].
  destruct (MaxCost pricing _) as [cost|]; [|done].
  destruct requestID as [id|]; [|done].
  destruct (marshal_EnvelopeBody body) as [bodyBytes|]; [|done].
  unfold submitReserved. cbv zeta.
  destruct (Reserve _ _ _ _ _ _) as [[u|e] r] eqn:Er; [|by destruct e].
  intros _. exists cost. split; [done|]. by apply Reserve_Ok in Er as (_ & ? & _).
Qed.

Abbreviation broker_request := (handleBrokerRequest TrackerPub (Some resolve) cfg pricing ttl reputation).


(** The balance proof need not be the consumer's own. [balance] answers anyone who asks
    for the snapshot of any identity, and [verifyBrokerRequest] accepts that snapshot in an
    envelope of any connected consumer that signs it, for ten minutes less a second:
    neither compares the snapshot's identity with the caller's. So a consumer without
    credits reserves against another's. *)
Lemma balance_proof_of_another_identity key c payload a r a' victim :
  TrackerPub = ed25519_Public key →
  unmarshal_BalanceRequest payload = Ok {| bq_IdentityId := victim |} →
  0 <= cl_clock c → unixSecondsU (cl_clock c) < 2 ^ 63 →
  handleBalance key c payload a = (Ok r, a') →
  ∃ snap body, marshal_SignedBalanceSnapshot snap = Some (rs_Payload (rp_Response r)) ∧
    sbs_Body snap = Some body ∧ bs_IdentityId body = victim ∧
    bs_Credits body = credits (w_store (a_state a)) victim ∧
    ∀ consumer_key consumer ebody sig now,
      resolve consumer = Some (ed25519_Public consumer_key) →
      env_BalanceProof ebody = Some snap → SignEnvelope consumer_key (Some ebody) = Ok sig →
      now - cl_clock c <= balanceSnapshotTTL - Second →
      verifyBrokerRequest TrackerPub resolve {| es_Body := Some ebody; es_ConsumerSig := sig |}
        ebody consumer now = Ok tt.
Proof.
  intros -> Hu Hpos Hclk. unfold handleBalance, gbind, decode, glift. rewrite Hu.
  unfold wantLength, gguard. cbn [bq_IdentityId].
  destruct (negb (blen victim =? 32)) eqn:El; [done|]. bool_to_prop. unfold gret, gread.
  destruct (SignedBalance _ _ _ _ _) as [snap|e] eqn:Es; [|done].
  destruct (marshal_SignedBalanceSnapshot snap) as [out|] eqn:Eo; [|done].
  intros [= <- <-]. revert Es. unfold SignedBalance.
  destruct (negb _); [done|]. unfold BalanceWithTip. destruct (cl_io c _); [done|]. cbv zeta.
  set (body := Build_BalanceSnapshotBody _ _ _ _ _ _).
  assert (bs_IssuedAt body = unixSecondsU (cl_clock c)) as Hiss by done.
  assert (bs_Credits body = credits (w_store (a_state a)) victim) as Hcr
    by (unfold credits; cbn; by destruct (balances _ !! victim)).
  assert (bs_IdentityId body = victim) as Hvic by done. clearbody body.
  destruct (SignBalanceSnapshot _ _) as [sig0|] eqn:Es0; [|done]. intros [= <-].
  eexists _, body. do 4 (split; [done|]).
  intros ck consumer ebody sig now Hr Hb Hs Ht. unfold verifyBrokerRequest.
  rewrite Hr, (VerifyEnvelope_signed _ _ _ Hs), Hb, (VerifyBalanceSnapshot_signed _ _ _ Es0), Hiss.
  cbn [negb].
  assert (unixSecondsU (cl_clock c) = cl_clock c / Second) as Hsec.
  { unfold unixSecondsU, Unix in *. destruct (_ <? 0) eqn:E; [|done]. bool_to_prop.
    pose proof (Z.div_pos (cl_clock c) Second Hpos ltac:(done)). lia. }
  rewrite Hsec in *. rewrite i64_id.
  2:{ unfold is_i64, MinInt64, MaxInt64. pose proof (Z.div_pos (cl_clock c) Second Hpos ltac:(done)). lia. }
  assert ((balanceSnapshotTTL <? time_Sub now (time_Unix (cl_clock c / Second))) = false) as ->; [|done].
  apply Z.ltb_ge. unfold time_Sub, time_Unix.
  pose proof (Z.mod_pos_bound (cl_clock c) Second ltac:(done)).
  pose proof (Z.div_mod (cl_clock c) Second ltac:(done)).
  assert (balanceSnapshotTTL = 600000000000) as Httl by done. assert (Second = 1000000000) as Hse by done.
  unfold MinInt64, MaxInt64 in *. rewrite Httl, Hse in *. lia.
Qed.
End backing.

(** ** Who may open a relay *)

Section relay.
Context `{ApiWire}.
Variables (relayCfg : AllocatorConfig) (RelayPublicAddr : string).

(** A relay is opened only for a placed request and by one of its two parties. With a
    broker wired, turn_relay_open answers with a token only when the request the caller
    names is in flight and assigned, the caller is its consumer or its seeder, and no live
    relay is bound to it; the token is new and its session names exactly these parties. A
    call that is refused changes neither the relays nor the broker. *)
Lemma turn_relay_parties c payload a :
  relay_reachable relayCfg (a_relay a) → al_nextID (a_relay a) + 1 < 2 ^ 64 →
  let '(out, a') := handleTurnRelayOpen relayCfg RelayPublicAddr true c payload a in
  a_queue a' = a_queue a ∧
  match out with
  | Ok r => ∃ req consumer seeder e, unmarshal_TurnRelayOpenRequest payload = Ok req ∧
      LookupAssignment (tro_SessionId req) (inflight (a_state a)) = Some (consumer, seeder) ∧
      (cl_PeerID c = consumer ∨ cl_PeerID c = seeder) ∧
      ts_ConsumerID e = consumer ∧ ts_SeederID e = seeder ∧ ts_RequestID e = tro_SessionId req ∧
      live (a_relay a) !! ts_Token e = None ∧
      (∀ t e', live (a_relay a) !! t = Some e' → ts_RequestID e' ≠ tro_SessionId req) ∧
      live (a_relay a') = <[ts_Token e := e]> (live (a_relay a)) ∧
      ∃ addr, rs_Payload (rp_Response r) = marshal_TurnRelayOpenResponse
                {| tor_RelayEndpoint := addr; tor_Token := ts_Token e |}
  | Err _ => live (a_relay a') = live (a_relay a)
  end.
Proof.
  intros Hwf%relay_reachable_wf Hn. unfold handleTurnRelayOpen, gbind, decode, glift.
  destruct (unmarshal_TurnRelayOpenRequest payload) as [req|e]; [|done].
  unfold wantLength, gguard. destruct (negb (blen _ =? 16)); [done|]. unfold gret, relayEnds.
  destruct (LookupAssignment _ _) as [[consumer seeder]|] eqn:El; [|done].
  destruct (negb (bool_decide (cl_PeerID c = consumer)) && _) eqn:Ep; [done|].
  cbn [fst snd]. unfold on_relay.
  pose proof (Allocate_spec relayCfg (cl_relayToken c) consumer seeder (tro_SessionId req) (cl_Now c) _ Hwf Hn)
    as Ha.
  destruct (Allocate _ _ _ _ _ _ _) as [[e|er] al]; destruct Ha as [_ Ha]; (split; [done|]);
    [|by destruct Ha as [-> _]].
  destruct Ha as (_ & Hcc & Hs & Hr & _ & Hnew & Hno & Hl). exists req, consumer, seeder, e.
  cbn [a_relay]. split_and!; try done.
  - apply andb_false_iff in Ep as [Ep|Ep]; apply negb_false_iff, bool_decide_eq_true in Ep; auto.
  - intros t e' He'. by apply (Hno t e').
  - by eexists.
Qed.
End relay.

(** ** Witnesses *)

(** A codec whose decoders all answer with given messages. *)
Definition ToyApiWire (env : EnvelopeSigned) (balance relay : bytes) : ApiWire := {|
  unmarshal_EnvelopeSigned := λ _, Ok env;
  unmarshal_EnrollRequest := λ _, Err "";
  unmarshal_BalanceRequest := λ _, Ok {| bq_IdentityId := balance |};
  unmarshal_SettleRequest := λ _, Err "";
  unmarshal_UsageReport := λ _, Err "";
  unmarshal_Advertisement := λ _, Err "";
  unmarshal_TransferRequest := λ _, Err "";
  unmarshal_StunAllocateRequest := λ _, Ok tt;
  unmarshal_TurnRelayOpenRequest := λ _, Ok {| tro_SessionId := relay |};
  marshal_BrokerRequestResponse := λ _, Some [];
  marshal_EnrollResponse := λ _, [];
  marshal_SignedBalanceSnapshot := λ _, Some [];
  marshal_Entry := λ _, Some [];
  marshal_TransferProof := λ _, Some [];
  marshal_StunAllocateResponse := λ b, Some b;
  marshal_TurnRelayOpenResponse := tor_Token;
  marshal_BootstrapPeerList := λ _, Some [];
  AddrPort_String := ap_Addr
|}.

Definition w_api_key : bytes := witness_key Byte.x07.
Definition w_api_pub : bytes := @ed25519_Public ToyCrypto w_api_key.
Definition w_api_consumer : bytes := witness_key Byte.x11.

(** A snapshot of the identity 0x22, worth 1000 credits. *)
Definition w_api_balance : BalanceSnapshotBody := {|
  bs_IdentityId := wseeder; bs_Credits := 1000; bs_ChainTipHash := zero_bytes 32; bs_ChainTipSeq := 0;
  bs_IssuedAt := 1714000000; bs_ExpiresAt := 1714000600 |}.

Definition w_api_proof : SignedBalanceSnapshot := {|
  sbs_Body := Some w_api_balance;
  sbs_TrackerSig := match @SignBalanceSnapshot ToyCrypto ToyWire w_api_key (Some w_api_balance) with
                    | Ok s => s | Err _ => [] end |}.

(** The request of a consumer that holds nothing, with that snapshot. *)
Definition w_api_body : EnvelopeBody := {|
  env_ProtocolVersion := 1; env_ConsumerId := wconsumer; env_Model := "claude-sonnet-4-6";
  env_MaxInputTokens := 100; env_MaxOutputTokens := 20; env_Tier := PRIVACY_TIER_STANDARD;
  env_BodyHash := zero_bytes 32;
  env_ExhaustionProof := Some {|
    ep_StopFailure := Some {| sf_Matcher := "rate_limit"; sf_At := 5; sf_ErrorShape := [] |};
    ep_UsageProbe := Some {| up_At := 6; up_Output := [] |}; ep_CapturedAt := 7;
    ep_Nonce := zero_bytes 16 |};
  env_BalanceProof := Some w_api_proof; env_CapturedAt := 1; env_Nonce := zero_bytes 16;
  env_ConsumerEphemeralPub := [] |}.

Definition w_api_sign (b : EnvelopeBody) : bytes :=
  match @SignEnvelope ToyCrypto ToyWire w_api_consumer (Some b) with Ok s => s | Err _ => [] end.

Definition w_api_env : EnvelopeSigned := {|
  es_Body := Some w_api_body; es_ConsumerSig := w_api_sign w_api_body |}.

Definition w_api_resolve : bytes → option bytes := λ id,
  if decide (id = wconsumer) then Some (@ed25519_Public ToyCrypto w_api_consumer) else None.

Definition w_api_call : Call := {|
  cl_PeerID := wconsumer; cl_Now := 1714000300 * Second; cl_clock := 1714000000 * Second;
  cl_io := no_faults; cl_decide := λ _ _, AdmitNow; cl_queueTimeout := 0; cl_wait := λ q, q;
  cl_queueEvent := QTimedOut; cl_isFrozen := λ _, false; cl_archive := None;
  cl_newID := Some (replicate 16 Byte.x01); cl_atts := quiet_atts; cl_admit := None;
  cl_StartTransfer := λ _, Err ""; cl_RemoteAddr := {| ap_Addr := []; ap_Port := 0 |};
  cl_relayToken := Some [Byte.x03] |}.

Definition w_api_state : AState := {|
  a_queue := {| q_state := witness_broker; q_queued := ∅ |}; a_relay := w_relay; a_signals := [] |}.

Definition w_api_wire : ApiWire := ToyApiWire w_api_env wseeder (replicate 16 Byte.x01).


Lemma balance_proof_of_another_identity_witness :
  is_ok (fst (@handleBalance ToyCrypto ToyWire w_api_wire w_api_key w_api_call [] w_api_state)) = true ∧
  ∃ snap body, sbs_Body snap = Some body ∧ bs_IdentityId body = wseeder ∧ wseeder ≠ cl_PeerID w_api_call ∧
    ∀ ebody sig, env_BalanceProof ebody = Some snap →
      @SignEnvelope ToyCrypto ToyWire w_api_consumer (Some ebody) = Ok sig →
      @verifyBrokerRequest ToyCrypto ToyWire w_api_pub w_api_resolve
        {| es_Body := Some ebody; es_ConsumerSig := sig |} ebody wconsumer (1714000300 * Second) = Ok tt.
Proof.
  assert (Hok : is_ok (fst (@handleBalance ToyCrypto ToyWire w_api_wire w_api_key w_api_call [] w_api_state))
    = true) by (vm_compute; reflexivity).
  split; [exact Hok|].
  destruct (handleBalance _ _ _ _) as [[r|e] a'] eqn:E; [|discriminate Hok].
  destruct (@balance_proof_of_another_identity ToyCrypto ToyCryptoLaws ToyWire w_api_wire w_api_pub
    w_api_resolve w_api_key w_api_call [] w_api_state r a' wseeder eq_refl eq_refl)
    as (snap & body & _ & Hb & Hv & _ & Ha).
  - discriminate.
  - reflexivity.
  - exact E.
  - exists snap, body. split; [exact Hb|]. split; [exact Hv|]. split; [discriminate|].
    intros ebody sig Hp Hs. apply (Ha w_api_consumer); [reflexivity|exact Hp|exact Hs|discriminate].
Defined.

(** The placed request 0x01.. of the consumer 0x11.. at the seeder 0x06... *)
Definition w_api_placed : AState :=
  snd (@handleBrokerRequest ToyCrypto ToyWire w_api_wire w_api_pub (Some w_api_resolve) witness_config
    DefaultPriceTable 600 true w_api_call [] w_api_state).

Lemma turn_relay_parties_witness :
  ∃ r a', @handleTurnRelayOpen w_api_wire w_relay_cfg "" true w_api_call [] w_api_placed = (Ok r, a') ∧
    ∃ seeder e, live (a_relay a') = <[ts_Token e := e]> (live w_relay) ∧
      LookupAssignment (replicate 16 Byte.x01) (inflight (a_state w_api_placed)) = Some (wconsumer, seeder).
Proof.
  pose proof (@turn_relay_parties w_api_wire w_relay_cfg "" w_api_call [] w_api_placed
    w_relay_reachable eq_refl) as Hp.
  assert (Hok : is_ok (fst (@handleTurnRelayOpen w_api_wire w_relay_cfg "" true w_api_call [] w_api_placed)) = true)
    by (vm_compute; reflexivity).
  assert (Hl : fst <$> LookupAssignment (replicate 16 Byte.x01) (inflight (a_state w_api_placed))
    = Some wconsumer) by (vm_compute; reflexivity).
  destruct (handleTurnRelayOpen _ _ _ _ _ _) as [[r|e] a']; [|discriminate Hok].
  destruct Hp as (_ & req & consumer & seeder & e & Hu & Ha & _ & _ & _ & _ & _ & _ & Hlv & _).
  exists r, a'. split; [reflexivity|]. exists seeder, e. split; [exact Hlv|].
  injection Hu as <-. cbn [tro_SessionId] in Ha. pose proof (eq_trans (eq_sym (f_equal (fmap fst) Ha)) Hl) as Hx.
  injection Hx as ->. exact Ha.
Defined.

Lemma Dispatch_safe_witness :
  let d := @Dispatch ToyCrypto ToyWire w_api_wire w_api_key w_api_pub (Some w_api_resolve) witness_config
    DefaultPriceTable 600 true true (λ _, "") w_relay_cfg id ""
    {| wd_Ledger := true; wd_Registry := true; wd_Broker := true; wd_Settlement := true;
       wd_Admission := true; wd_Federation := false; wd_StunTurn := true; wd_BootstrapPeers := None |}
    false (λ _, "") w_api_call {| rq_Method := RPC_METHOD_BROKER_REQUEST; rq_Payload := [] |} w_api_state in
  rs_Status (fst (fst d)) = RPC_STATUS_OK ∧ session_ok (a_state (snd d)).
Proof.
  intros d. split; [vm_compute; reflexivity|].
  assert (Hok : session_ok (a_state w_api_state)) by (constructor; [apply NewInflight_wf|apply res_inv_new]).
  assert (Hc : @call_sound ToyCrypto ToyWire w_api_key w_api_call)
    by (split; intros; intros Hs; (split; [exact Hs|apply rtc_refl])).
  pose proof (@Dispatch_safe ToyCrypto ToyWire w_api_wire w_api_key w_api_pub (Some w_api_resolve)
    witness_config DefaultPriceTable 600 3 true true (λ _, "") w_relay_cfg id ""
    {| wd_Ledger := true; wd_Registry := true; wd_Broker := true; wd_Settlement := true;
       wd_Admission := true; wd_Federation := false; wd_StunTurn := true; wd_BootstrapPeers := None |}
    false (λ _, "") w_api_call {| rq_Method := RPC_METHOD_BROKER_REQUEST; rq_Payload := [] |} w_api_state
    Hok Hc) as Hd.
  fold d in Hd. destruct d as [[resp task] a']. apply Hd.
Defined.
