(* ===== verification/FedProto.v ===== *)
(** shared/federation: the messages trackers exchange, their validators, the canonical
    preimages that are signed, and the envelope they travel in (envelope.go).

    The protobuf encoder is an interface, one [Codec] per message type: an encoding can
    fail (a string that is not UTF-8), and decoding undoes either encoding ([CodecLaws]).
    Fields a decoder does not know are not modelled. [ToyFedWire] is a computable
    instance; the witnesses run on it. *)
From S2P Require Import Prelude Proto Signing.
From Stdlib Require Import Floats.SpecFloat.

(** ** Messages *)

Inductive Kind :=
| KIND_UNSPECIFIED | KIND_HELLO | KIND_PEER_AUTH | KIND_PEERING_ACCEPT | KIND_PEERING_REJECT
| KIND_ROOT_ATTESTATION | KIND_EQUIVOCATION_EVIDENCE | KIND_PING | KIND_PONG
| KIND_TRANSFER_PROOF_REQUEST | KIND_TRANSFER_PROOF | KIND_TRANSFER_APPLIED
| KIND_REVOCATION | KIND_PEER_EXCHANGE | KIND_TRANSFER_REJECT | KIND_TRANSFER_REVERSAL
| KIND_OTHER (v : Z).

Inductive RevocationReason :=
| REVOCATION_REASON_UNSPECIFIED | REVOCATION_REASON_ABUSE | REVOCATION_REASON_MANUAL
| REVOCATION_REASON_EXPIRED | REVOCATION_REASON_OTHER (v : Z).

#[global] Instance Kind_eq_dec : EqDecision Kind.
Proof. solve_decision. Defined.

#[global] Instance RevocationReason_eq_dec : EqDecision RevocationReason.
Proof. solve_decision. Defined.

Record Envelope := {
  fe_SenderId : bytes; fe_Kind : Kind; fe_Payload : bytes; fe_SenderSig : bytes
}.

Record Hello := {
  he_TrackerId : bytes; he_ProtocolVersion : Z; he_Nonce : bytes; he_Features : list string
}.

Record PeerAuth := { pa_NonceSig : bytes }.

Record PeeringAccept := { pc_DedupeTtlS : Z; pc_GossipRateQps : Z }.

Record RootAttestation := {
  ra_TrackerId : bytes; ra_Hour : Z; ra_MerkleRoot : bytes; ra_TrackerSig : bytes
}.

Record EquivocationEvidence := {
  ee_TrackerId : bytes; ee_Hour : Z; ee_RootA : bytes; ee_SigA : bytes;
  ee_RootB : bytes; ee_SigB : bytes
}.

Record TransferProof := {
  tp_SourceTrackerId : bytes; tp_DestTrackerId : bytes; tp_IdentityId : bytes;
  tp_Amount : Z; tp_Nonce : bytes; tp_SourceChainTipHash : bytes; tp_SourceSeq : Z;
  tp_Timestamp : Z; tp_SourceTrackerSig : bytes
}.

Record TransferApplied := {
  ta_SourceTrackerId : bytes; ta_DestTrackerId : bytes; ta_Nonce : bytes;
  ta_Timestamp : Z; ta_DestTrackerSig : bytes
}.

Record TransferReversal := {
  tv_SourceTrackerId : bytes; tv_DestTrackerId : bytes; tv_Nonce : bytes;
  tv_Evidence : string; tv_Timestamp : Z; tv_DestTrackerSig : bytes
}.

Record TransferReject := {
  tj_SourceTrackerId : bytes; tj_DestTrackerId : bytes; tj_Nonce : bytes;
  tj_Reason : string; tj_Timestamp : Z; tj_SourceTrackerSig : bytes
}.

Record Revocation := {
  re_TrackerId : bytes; re_IdentityId : bytes; re_Reason : RevocationReason;
  re_RevokedAt : Z; re_TrackerSig : bytes
}.

(** The message [KnownPeer]; [Storage.KnownPeer] is the row. *)
Record KnownPeerMsg := {
  km_TrackerId : bytes; km_Addr : string; km_LastSeen : Z; km_RegionHint : string;
  km_HealthScore : spec_float
}.

Record PeerExchange := { px_Peers : list KnownPeerMsg }.

(** ** Validators *)

Definition TrackerIDLen : Z := 32.
Definition RootLen : Z := 32.
Definition SigLen : Z := 64.
Definition NonceLen : Z := 32.
Definition Ed25519PubLen : Z := 32.
Definition MaxTransferRejectReasonLen : Z := 64.
Definition MaxTransferReversalEvidenceLen : Z := 512.
Definition MaxPeerExchangeEntries : Z := 1024.
Definition MaxKnownPeerAddrLen : Z := 256.
Definition MaxKnownPeerRegionHintLen : Z := 64.

(** [len] of a Go string. *)
Definition slen (s : string) : Z := blen (string_bytes s).

Definition ValidateEnvelope (e : option Envelope) : error :=
  match e with
  | None => Some "federation: nil Envelope"
  | Some e =>
    return_if negb (blen (fe_SenderId e) =? TrackerIDLen), "federation: sender_id len" ;;
    return_if (match fe_Kind e with KIND_UNSPECIFIED | KIND_OTHER _ => true | _ => false end),
      "federation: kind out of range" ;;
    return_if blen (fe_Payload e) =? 0, "federation: payload empty" ;;
    return_if negb (blen (fe_SenderSig e) =? SigLen), "federation: sender_sig len" ;;
    None
  end.

Definition ValidateHello (h : option Hello) : error :=
  match h with
  | None => Some "federation: nil Hello"
  | Some h =>
    return_if negb (blen (he_TrackerId h) =? TrackerIDLen), "federation: hello.tracker_id len" ;;
    return_if negb (blen (he_Nonce h) =? NonceLen), "federation: hello.nonce len" ;;
    None
  end.

Definition ValidatePeerAuth (p : option PeerAuth) : error :=
  match p with
  | None => Some "federation: nil PeerAuth"
  | Some p =>
    return_if negb (blen (pa_NonceSig p) =? SigLen), "federation: peerauth.nonce_sig len" ;;
    None
  end.

Definition ValidateRootAttestation (m : option RootAttestation) : error :=
  match m with
  | None => Some "federation: nil RootAttestation"
  | Some m =>
    return_if negb (blen (ra_TrackerId m) =? TrackerIDLen),
      "federation: root_attestation.tracker_id len" ;;
    return_if allZero (ra_TrackerId m), "federation: root_attestation.tracker_id is all zero" ;;
    return_if ra_Hour m =? 0, "federation: root_attestation.hour must be > 0" ;;
    return_if negb (blen (ra_MerkleRoot m) =? RootLen),
      "federation: root_attestation.merkle_root len" ;;
    return_if negb (blen (ra_TrackerSig m) =? SigLen),
      "federation: root_attestation.tracker_sig len" ;;
    None
  end.

Definition ValidateEquivocationEvidence (m : option EquivocationEvidence) : error :=
  match m with
  | None => Some "federation: nil EquivocationEvidence"
  | Some m =>
    return_if negb (blen (ee_TrackerId m) =? TrackerIDLen), "federation: evidence.tracker_id len" ;;
    return_if negb (blen (ee_RootA m) =? RootLen), "federation: evidence.root_a len" ;;
    return_if negb (blen (ee_RootB m) =? RootLen), "federation: evidence.root_b len" ;;
    return_if negb (blen (ee_SigA m) =? SigLen), "federation: evidence.sig_a len" ;;
    return_if negb (blen (ee_SigB m) =? SigLen), "federation: evidence.sig_b len" ;;
    return_if bool_decide (ee_RootA m = ee_RootB m),
      "federation: evidence.root_a == root_b (no equivocation)" ;;
    None
  end.

Definition ValidateTransferProofRequest (m : option TransferProofRequest) : error :=
  match m with
  | None => Some "federation: nil TransferProofRequest"
  | Some m =>
    return_if negb (blen (tpr_SourceTrackerId m) =? TrackerIDLen),
      "federation: transfer_request.source_tracker_id len" ;;
    return_if negb (blen (tpr_DestTrackerId m) =? TrackerIDLen),
      "federation: transfer_request.dest_tracker_id len" ;;
    return_if negb (blen (tpr_IdentityId m) =? TrackerIDLen),
      "federation: transfer_request.identity_id len" ;;
    return_if tpr_Amount m =? 0, "federation: transfer_request.amount must be > 0" ;;
    return_if negb (blen (tpr_Nonce m) =? NonceLen), "federation: transfer_request.nonce len" ;;
    return_if negb (blen (tpr_ConsumerSig m) =? SigLen),
      "federation: transfer_request.consumer_sig len" ;;
    return_if negb (blen (tpr_ConsumerPub m) =? Ed25519PubLen),
      "federation: transfer_request.consumer_pub len" ;;
    return_if bool_decide (tpr_SourceTrackerId m = tpr_DestTrackerId m),
      "federation: transfer_request.source_tracker_id == dest_tracker_id" ;;
    return_if allZero (tpr_SourceTrackerId m),
      "federation: transfer_request.source_tracker_id is all zero" ;;
    return_if allZero (tpr_DestTrackerId m),
      "federation: transfer_request.dest_tracker_id is all zero" ;;
    return_if allZero (tpr_IdentityId m),
      "federation: transfer_request.identity_id is all zero" ;;
    return_if allZero (tpr_Nonce m), "federation: transfer_request.nonce is all zero" ;;
    return_if tpr_Timestamp m =? 0, "federation: transfer_request.timestamp must be > 0" ;;
    None
  end.

Definition ValidateTransferProof (m : option TransferProof) : error :=
  match m with
  | None => Some "federation: nil TransferProof"
  | Some m =>
    return_if negb (blen (tp_SourceTrackerId m) =? TrackerIDLen),
      "federation: transfer_proof.source_tracker_id len" ;;
    return_if negb (blen (tp_DestTrackerId m) =? TrackerIDLen),
      "federation: transfer_proof.dest_tracker_id len" ;;
    return_if negb (blen (tp_IdentityId m) =? TrackerIDLen),
      "federation: transfer_proof.identity_id len" ;;
    return_if tp_Amount m =? 0, "federation: transfer_proof.amount must be > 0" ;;
    return_if negb (blen (tp_Nonce m) =? NonceLen), "federation: transfer_proof.nonce len" ;;
    return_if negb (blen (tp_SourceChainTipHash m) =? RootLen),
      "federation: transfer_proof.source_chain_tip_hash len" ;;
    return_if negb (blen (tp_SourceTrackerSig m) =? SigLen),
      "federation: transfer_proof.source_tracker_sig len" ;;
    return_if bool_decide (tp_SourceTrackerId m = tp_DestTrackerId m),
      "federation: transfer_proof.source_tracker_id == dest_tracker_id" ;;
    return_if tp_Timestamp m =? 0, "federation: transfer_proof.timestamp must be > 0" ;;
    None
  end.

Definition ValidateRevocation (m : option Revocation) : error :=
  match m with
  | None => Some "federation: nil Revocation"
  | Some m =>
    return_if negb (blen (re_TrackerId m) =? TrackerIDLen), "federation: revocation.tracker_id len" ;;
    return_if allZero (re_TrackerId m), "federation: revocation.tracker_id is all zero" ;;
    return_if negb (blen (re_IdentityId m) =? TrackerIDLen),
      "federation: revocation.identity_id len" ;;
    return_if allZero (re_IdentityId m), "federation: revocation.identity_id is all zero" ;;
    return_if negb (blen (re_TrackerSig m) =? SigLen), "federation: revocation.tracker_sig len" ;;
    return_if re_RevokedAt m =? 0, "federation: revocation.revoked_at must be > 0" ;;
    return_if (match re_Reason m with
               | REVOCATION_REASON_UNSPECIFIED | REVOCATION_REASON_OTHER _ => true
               | _ => false
               end), "federation: revocation.reason out of range" ;;
    None
  end.

Definition ValidateTransferApplied (m : option TransferApplied) : error :=
  match m with
  | None => Some "federation: nil TransferApplied"
  | Some m =>
    return_if negb (blen (ta_SourceTrackerId m) =? TrackerIDLen),
      "federation: transfer_applied.source_tracker_id len" ;;
    return_if negb (blen (ta_DestTrackerId m) =? TrackerIDLen),
      "federation: transfer_applied.dest_tracker_id len" ;;
    return_if negb (blen (ta_Nonce m) =? NonceLen), "federation: transfer_applied.nonce len" ;;
    return_if negb (blen (ta_DestTrackerSig m) =? SigLen),
      "federation: transfer_applied.dest_tracker_sig len" ;;
    return_if bool_decide (ta_SourceTrackerId m = ta_DestTrackerId m),
      "federation: transfer_applied.source_tracker_id == dest_tracker_id" ;;
    return_if ta_Timestamp m =? 0, "federation: transfer_applied.timestamp must be > 0" ;;
    None
  end.

Definition ValidateTransferReversal (m : option TransferReversal) : error :=
  match m with
  | None => Some "federation: nil TransferReversal"
  | Some m =>
    return_if negb (blen (tv_SourceTrackerId m) =? TrackerIDLen),
      "federation: transfer_reversal.source_tracker_id len" ;;
    return_if negb (blen (tv_DestTrackerId m) =? TrackerIDLen),
      "federation: transfer_reversal.dest_tracker_id len" ;;
    return_if negb (blen (tv_Nonce m) =? NonceLen), "federation: transfer_reversal.nonce len" ;;
    return_if bool_decide (tv_SourceTrackerId m = tv_DestTrackerId m),
      "federation: transfer_reversal.source_tracker_id == dest_tracker_id" ;;
    return_if MaxTransferReversalEvidenceLen <? slen (tv_Evidence m),
      "federation: transfer_reversal.evidence len" ;;
    return_if negb (ValidString (tv_Evidence m)),
      "federation: transfer_reversal.evidence not valid UTF-8" ;;
    return_if tv_Timestamp m =? 0, "federation: transfer_reversal.timestamp must be > 0" ;;
    return_if negb (blen (tv_DestTrackerSig m) =? SigLen),
      "federation: transfer_reversal.dest_tracker_sig len" ;;
    None
  end.

Definition ValidateTransferReject (m : option TransferReject) : error :=
  match m with
  | None => Some "federation: nil TransferReject"
  | Some m =>
    return_if negb (blen (tj_SourceTrackerId m) =? TrackerIDLen),
      "federation: transfer_reject.source_tracker_id len" ;;
    return_if negb (blen (tj_DestTrackerId m) =? TrackerIDLen),
      "federation: transfer_reject.dest_tracker_id len" ;;
    return_if negb (blen (tj_Nonce m) =? NonceLen), "federation: transfer_reject.nonce len" ;;
    return_if bool_decide (tj_SourceTrackerId m = tj_DestTrackerId m),
      "federation: transfer_reject.source_tracker_id == dest_tracker_id" ;;
    return_if slen (tj_Reason m) =? 0, "federation: transfer_reject.reason empty" ;;
    return_if MaxTransferRejectReasonLen <? slen (tj_Reason m),
      "federation: transfer_reject.reason len" ;;
    return_if negb (ValidString (tj_Reason m)),
      "federation: transfer_reject.reason not valid UTF-8" ;;
    return_if tj_Timestamp m =? 0, "federation: transfer_reject.timestamp must be > 0" ;;
    return_if negb (blen (tj_SourceTrackerSig m) =? SigLen),
      "federation: transfer_reject.source_tracker_sig len" ;;
    None
  end.

Definition ValidateKnownPeerMsg (p : KnownPeerMsg) : error :=
  return_if negb (blen (km_TrackerId p) =? TrackerIDLen),
    "federation: peer_exchange.peers.tracker_id len" ;;
  return_if allZero (km_TrackerId p), "federation: peer_exchange.peers.tracker_id is all zero" ;;
  return_if slen (km_Addr p) =? 0, "federation: peer_exchange.peers.addr empty" ;;
  return_if MaxKnownPeerAddrLen <? slen (km_Addr p), "federation: peer_exchange.peers.addr len" ;;
  return_if negb (ValidString (km_Addr p)), "federation: peer_exchange.peers.addr invalid utf-8" ;;
  return_if MaxKnownPeerRegionHintLen <? slen (km_RegionHint p),
    "federation: peer_exchange.peers.region_hint len" ;;
  return_if negb (ValidString (km_RegionHint p)),
    "federation: peer_exchange.peers.region_hint invalid utf-8" ;;
  return_if is_NaN (km_HealthScore p) || SFltb (km_HealthScore p) (f64_of_int 0)
            || SFltb (f64_of_int 1) (km_HealthScore p),
    "federation: peer_exchange.peers.health_score out of [0,1]" ;;
  None.

Fixpoint ValidateKnownPeerMsgs (ps : list KnownPeerMsg) : error :=
  match ps with
  | [] => None
  | p :: ps =>
    match ValidateKnownPeerMsg p with Some e => Some e | None => ValidateKnownPeerMsgs ps end
  end.

Definition ValidatePeerExchange (m : option PeerExchange) : error :=
  match m with
  | None => Some "federation: nil PeerExchange"
  | Some m =>
    return_if MaxPeerExchangeEntries <? blen (px_Peers m), "federation: peer_exchange.peers len" ;;
    ValidateKnownPeerMsgs (px_Peers m)
  end.

(** ** The encoder *)

(** [proto.Marshal], [signing.DeterministicMarshal] and [proto.Unmarshal] of one type. *)
Class Codec (M : Type) := {
  Marshal : M → option bytes;
  DeterministicMarshal : M → option bytes;
  Unmarshal : bytes → option M
}.

Class CodecLaws (M : Type) `{Codec M} : Prop := {
  Unmarshal_Marshal m x : Marshal m = Some x → Unmarshal x = Some m;
  Unmarshal_Deterministic m x : DeterministicMarshal m = Some x → Unmarshal x = Some m
}.

Class FedWire := {
  fw_Envelope :: Codec Envelope;
  fw_Hello :: Codec Hello;
  fw_PeerAuth :: Codec PeerAuth;
  fw_PeeringAccept :: Codec PeeringAccept;
  fw_RootAttestation :: Codec RootAttestation;
  fw_EquivocationEvidence :: Codec EquivocationEvidence;
  fw_TransferProofRequest :: Codec TransferProofRequest;
  fw_TransferProof :: Codec TransferProof;
  fw_TransferApplied :: Codec TransferApplied;
  fw_TransferReversal :: Codec TransferReversal;
  fw_TransferReject :: Codec TransferReject;
  fw_Revocation :: Codec Revocation;
  fw_PeerExchange :: Codec PeerExchange
}.

Class FedWireLaws `{FedWire} : Prop := {
  fl_Envelope :: CodecLaws Envelope;
  fl_Hello :: CodecLaws Hello;
  fl_PeerAuth :: CodecLaws PeerAuth;
  fl_PeeringAccept :: CodecLaws PeeringAccept;
  fl_RootAttestation :: CodecLaws RootAttestation;
  fl_EquivocationEvidence :: CodecLaws EquivocationEvidence;
  fl_TransferProofRequest :: CodecLaws TransferProofRequest;
  fl_TransferProof :: CodecLaws TransferProof;
  fl_TransferApplied :: CodecLaws TransferApplied;
  fl_TransferReversal :: CodecLaws TransferReversal;
  fl_TransferReject :: CodecLaws TransferReject;
  fl_Revocation :: CodecLaws Revocation;
  fl_PeerExchange :: CodecLaws PeerExchange;
  (** uint64 fields *)
  fl_request_typed x m : Unmarshal (M := TransferProofRequest) x = Some m →
    is_u64 (tpr_Amount m) ∧ is_u64 (tpr_Timestamp m);
  fl_proof_typed x m : Unmarshal (M := TransferProof) x = Some m →
    is_u64 (tp_Amount m) ∧ is_u64 (tp_Timestamp m)
}.

(** ** Preimages and envelopes *)

Section preimages.
Context `{Crypto} `{FedWire}.

(** [proto.Clone] and the assignment that clears the signature. *)
Definition clear_TransferProof (m : TransferProof) : TransferProof := {|
  tp_SourceTrackerId := tp_SourceTrackerId m; tp_DestTrackerId := tp_DestTrackerId m;
  tp_IdentityId := tp_IdentityId m; tp_Amount := tp_Amount m; tp_Nonce := tp_Nonce m;
  tp_SourceChainTipHash := tp_SourceChainTipHash m; tp_SourceSeq := tp_SourceSeq m;
  tp_Timestamp := tp_Timestamp m; tp_SourceTrackerSig := [] |}.

Definition clear_TransferApplied (m : TransferApplied) : TransferApplied := {|
  ta_SourceTrackerId := ta_SourceTrackerId m; ta_DestTrackerId := ta_DestTrackerId m;
  ta_Nonce := ta_Nonce m; ta_Timestamp := ta_Timestamp m; ta_DestTrackerSig := [] |}.

Definition clear_TransferReject (m : TransferReject) : TransferReject := {|
  tj_SourceTrackerId := tj_SourceTrackerId m; tj_DestTrackerId := tj_DestTrackerId m;
  tj_Nonce := tj_Nonce m; tj_Reason := tj_Reason m; tj_Timestamp := tj_Timestamp m;
  tj_SourceTrackerSig := [] |}.

Definition clear_TransferReversal (m : TransferReversal) : TransferReversal := {|
  tv_SourceTrackerId := tv_SourceTrackerId m; tv_DestTrackerId := tv_DestTrackerId m;
  tv_Nonce := tv_Nonce m; tv_Evidence := tv_Evidence m; tv_Timestamp := tv_Timestamp m;
  tv_DestTrackerSig := [] |}.

Definition clear_Revocation (m : Revocation) : Revocation := {|
  re_TrackerId := re_TrackerId m; re_IdentityId := re_IdentityId m; re_Reason := re_Reason m;
  re_RevokedAt := re_RevokedAt m; re_TrackerSig := [] |}.

Definition CanonicalTransferProofPreSig (m : TransferProof) : option bytes :=
  DeterministicMarshal (clear_TransferProof m).

Definition CanonicalTransferAppliedPreSig (m : TransferApplied) : option bytes :=
  DeterministicMarshal (clear_TransferApplied m).

Definition CanonicalTransferRejectPreSig (m : TransferReject) : option bytes :=
  DeterministicMarshal (clear_TransferReject m).

Definition CanonicalTransferReversalPreSig (m : TransferReversal) : option bytes :=
  DeterministicMarshal (clear_TransferReversal m).

Definition CanonicalRevocationPreSig (m : Revocation) : option bytes :=
  DeterministicMarshal (clear_Revocation m).

Definition SignTransferProofRequest `{Wire} (priv : bytes) (m : option TransferProofRequest)
    : res string bytes :=
  if negb (blen priv =? PrivateKeySize) then Err "federation: private key length" else
  match CanonicalTransferProofRequestPreSig m with
  | Err e => Err (String.append "federation: canonical TransferProofRequest: " e)
  | Ok canonical => Ok (ed25519_Sign priv canonical)
  end.

(** The errors of the federation package that its callers tell apart. *)
Inductive FErr :=
| ErrPeerUnknown | ErrPeerClosed | ErrSigInvalid | ErrFrameTooLarge | ErrHandshakeFailed
| ErrEquivocation | ErrPeerExists | ErrPeerNotConnected | ErrTransferTimeout
| ErrTransferDisabled | ErrPeerExchangeDisabled | ErrTransferRejected (reason : string)
| ErrDeadlineExceeded | ErrCanceled
| ErrFed (msg : string).

(** federation's [SignEnvelope], [VerifyEnvelope]. *)
Definition Fed_SignEnvelope (priv senderID : bytes) (kind : Kind) (payload : bytes)
    : res FErr Envelope :=
  if negb (blen priv =? PrivateKeySize)
  then Err (ErrFed "federation: SignEnvelope requires Ed25519 private key") else
  if negb (blen senderID =? TrackerIDLen) then Err (ErrFed "federation: senderID length") else
  let env := {| fe_SenderId := senderID; fe_Kind := kind; fe_Payload := payload;
                fe_SenderSig := ed25519_Sign priv payload |} in
  match ValidateEnvelope (Some env) with
  | Some e => Err (ErrFed e)
  | None => Ok env
  end.

Definition Fed_VerifyEnvelope (pub : bytes) (e : Envelope) : option FErr :=
  match ValidateEnvelope (Some e) with
  | Some m => Some (ErrFed m)
  | None => if negb (Verify pub (fe_Payload e) (fe_SenderSig e)) then Some ErrSigInvalid else None
  end.

Definition MessageID (e : Envelope) : bytes := sha256 (fe_Payload e).

Definition MaxFrameBytes : Z := 1048576.

Definition MarshalFrame (e : Envelope) : res FErr bytes :=
  match ValidateEnvelope (Some e) with
  | Some m => Err (ErrFed m)
  | None => match Marshal e with
            | None => Err (ErrFed "federation: marshal frame")
            | Some b => Ok b
            end
  end.

Definition UnmarshalFrame (frame : bytes) : res FErr Envelope :=
  if MaxFrameBytes <? blen frame then Err ErrFrameTooLarge else
  match Unmarshal (M := Envelope) frame with
  | None => Err (ErrFed "federation: unmarshal frame")
  | Some e => match ValidateEnvelope (Some e) with
              | Some m => Err (ErrFed m)
              | None => Ok e
              end
  end.
End preimages.

(** ** Lemmas *)

Section lemmas.
Context `{CryptoLaws} `{FedWireLaws}.

Lemma SignEnvelope_inv priv id k p e :
  Fed_SignEnvelope priv id k p = Ok e →
  length priv = 64%nat ∧ length id = 32%nat ∧ ValidateEnvelope (Some e) = None ∧
  e = {| fe_SenderId := id; fe_Kind := k; fe_Payload := p; fe_SenderSig := ed25519_Sign priv p |}.
Proof.
  unfold Fed_SignEnvelope, PrivateKeySize, TrackerIDLen, blen. intros Hs.
  destruct (negb _) eqn:E1; [done|]. destruct (negb (_ =? 32)) eqn:E2; [done|].
  destruct (ValidateEnvelope _) eqn:Ev; [done|]. injection Hs as <-.
  bool_to_prop. split_and!; [lia..|done|done].
Qed.

Lemma SignEnvelope_verifies priv id k p e :
  Fed_SignEnvelope priv id k p = Ok e → Fed_VerifyEnvelope (ed25519_Public priv) e = None.
Proof.
  intros (Hk & _ & Hv & ->)%SignEnvelope_inv. unfold Fed_VerifyEnvelope. rewrite Hv.
  unfold Verify, PublicKeySize, SignatureSize, blen. cbn [fe_Payload fe_SenderSig].
  rewrite Public_length, Sign_length, Verify_Sign by done. done.
Qed.

Lemma VerifyEnvelope_None pub e :
  Fed_VerifyEnvelope pub e = None →
  ValidateEnvelope (Some e) = None ∧ Verify pub (fe_Payload e) (fe_SenderSig e) = true.
Proof.
  unfold Fed_VerifyEnvelope. destruct (ValidateEnvelope _); [done|].
  destruct (Verify _ _ _); simpl; [done|done].
Qed.

(** A frame a tracker sends is received as the envelope it was made of. *)
Lemma UnmarshalFrame_MarshalFrame e frame :
  MarshalFrame e = Ok frame → blen frame <= MaxFrameBytes → UnmarshalFrame frame = Ok e.
Proof.
  unfold MarshalFrame, UnmarshalFrame. intros Hm Hl.
  destruct (ValidateEnvelope (Some e)) eqn:Ev; [done|].
  destruct (Marshal e) as [b|] eqn:Eb; [|done]. injection Hm as <-.
  assert ((MaxFrameBytes <? blen b) = false) as -> by lia.
  by rewrite (Unmarshal_Marshal _ _ Eb), Ev.
Qed.

Lemma Deterministic_inj {M} `{CodecLaws M} (a b : M) x :
  DeterministicMarshal a = Some x → DeterministicMarshal b = Some x → a = b.
Proof. intros Ha%Unmarshal_Deterministic Hb%Unmarshal_Deterministic. congruence. Qed.

Lemma TransferProof_preimage_inj p q x :
  CanonicalTransferProofPreSig p = Some x → CanonicalTransferProofPreSig q = Some x →
  clear_TransferProof p = clear_TransferProof q.
Proof. apply Deterministic_inj. Qed.

Lemma Revocation_preimage_inj p q x :
  CanonicalRevocationPreSig p = Some x → CanonicalRevocationPreSig q = Some x →
  clear_Revocation p = clear_Revocation q.
Proof. apply Deterministic_inj. Qed.
End lemmas.

(** ** A computable codec

    A message is a list of rows of bytes; a row is written with [x01] before each of its
    bytes and [x00] at its end. *)

Fixpoint enc_row (r : bytes) : bytes :=
  match r with
  | [] => [Byte.x00]
  | b :: r => Byte.x01 :: b :: enc_row r
  end.

Definition enc_rows (rs : list bytes) : bytes := rs ≫= enc_row.

(** [acc] is the row being read, reversed. *)
Fixpoint dec_rows (acc : bytes) (x : bytes) : list bytes :=
  match x with
  | [] => []
  | t :: x =>
    if bool_decide (t = Byte.x00) then rev acc :: dec_rows [] x else
    match x with
    | [] => []
    | b :: x => dec_rows (b :: acc) x
    end
  end.

Lemma dec_row acc r x : dec_rows acc (enc_row r ++ x) = (rev acc ++ r) :: dec_rows [] x.
Proof.
  revert acc. induction r as [|b r IH]; intros acc; simpl.
  - by rewrite app_nil_r.
  - rewrite IH. simpl. by rewrite <- app_assoc.
Qed.

Lemma dec_enc_rows rs : dec_rows [] (enc_rows rs) = rs.
Proof.
  induction rs as [|r rs IH]; [done|]. change (enc_rows (r :: rs)) with (enc_row r ++ enc_rows rs).
  by rewrite dec_row, IH.
Qed.

Class Rows (M : Type) := {
  to_rows : M → list bytes;
  of_rows : list bytes → option M;
  of_to_rows m : of_rows (to_rows m) = Some m
}.

(** [ints] are the values of the uint64 fields: a message with another value has no
    encoding. *)
Definition typed_ints (l : list Z) : bool := forallb (λ z, (0 <=? z) && (z <? 2 ^ 64)) l.

Definition toy_codec `{Rows M} (ints : M → list Z) : Codec M := {|
  Marshal m := if typed_ints (ints m) then Some (enc_rows (to_rows m)) else None;
  DeterministicMarshal m := if typed_ints (ints m) then Some (enc_rows (to_rows m)) else None;
  Unmarshal x :=
    match of_rows (dec_rows [] x) with
    | Some m => if typed_ints (ints m) then Some m else None
    | None => None
    end
|}.

Lemma toy_codec_laws `{Rows M} (ints : M → list Z) : @CodecLaws M (toy_codec ints).
Proof.
  split; intros m x; simpl; destruct (typed_ints _) eqn:E; intros [= <-];
    by rewrite dec_enc_rows, of_to_rows, E.
Qed.

Lemma toy_codec_typed `{Rows M} (ints : M → list Z) x m :
  Unmarshal (Codec := toy_codec ints) x = Some m → Forall is_u64 (ints m).
Proof.
  simpl. intros Hu. destruct (of_rows _) as [m'|]; [|done].
  destruct (typed_ints (ints m')) eqn:E; [|done]. injection Hu as <-.
  apply Forall_forall. intros z Hz%list_elem_of_In. unfold typed_ints in E.
  rewrite forallb_forall in E. specialize (E z Hz). unfold is_u64. lia.
Qed.

(** Rows for the fields that are not bytes. *)
Definition z_row (z : Z) : bytes := pos_bytes (encode z).
Definition row_z (b : bytes) : Z := default 0 (decode (bytes_pos b)).
Definition row_str (b : bytes) : string := String.string_of_list_byte b.

Lemma row_z_row z : row_z (z_row z) = z.
Proof. unfold row_z, z_row. by rewrite bytes_pos_bytes, decode_encode. Qed.

Lemma row_string_bytes s : row_str (string_bytes s) = s.
Proof. apply String.string_of_list_byte_of_string. Qed.

Definition kind_rows (k : Kind) : bytes * bytes :=
  let '(t, v) := match k with
        | KIND_UNSPECIFIED => (0, 0) | KIND_HELLO => (1, 0) | KIND_PEER_AUTH => (2, 0)
        | KIND_PEERING_ACCEPT => (3, 0) | KIND_PEERING_REJECT => (4, 0)
        | KIND_ROOT_ATTESTATION => (5, 0) | KIND_EQUIVOCATION_EVIDENCE => (6, 0)
        | KIND_PING => (7, 0) | KIND_PONG => (8, 0) | KIND_TRANSFER_PROOF_REQUEST => (9, 0)
        | KIND_TRANSFER_PROOF => (10, 0) | KIND_TRANSFER_APPLIED => (11, 0)
        | KIND_REVOCATION => (12, 0) | KIND_PEER_EXCHANGE => (13, 0)
        | KIND_TRANSFER_REJECT => (14, 0) | KIND_TRANSFER_REVERSAL => (15, 0)
        | KIND_OTHER v => (16, v)
        end in (z_row t, z_row v).

Definition rows_kind (t v : bytes) : Kind :=
  match row_z t with
  | 1 => KIND_HELLO | 2 => KIND_PEER_AUTH | 3 => KIND_PEERING_ACCEPT
  | 4 => KIND_PEERING_REJECT | 5 => KIND_ROOT_ATTESTATION | 6 => KIND_EQUIVOCATION_EVIDENCE
  | 7 => KIND_PING | 8 => KIND_PONG | 9 => KIND_TRANSFER_PROOF_REQUEST
  | 10 => KIND_TRANSFER_PROOF | 11 => KIND_TRANSFER_APPLIED | 12 => KIND_REVOCATION
  | 13 => KIND_PEER_EXCHANGE | 14 => KIND_TRANSFER_REJECT | 15 => KIND_TRANSFER_REVERSAL
  | 16 => KIND_OTHER (row_z v) | _ => KIND_UNSPECIFIED
  end.

Lemma rows_kind_rows k : rows_kind (kind_rows k).1 (kind_rows k).2 = k.
Proof. unfold rows_kind. destruct k; cbn [kind_rows fst snd]; by rewrite ?row_z_row. Qed.

Definition reason_rows (r : RevocationReason) : bytes * bytes :=
  let '(t, v) := match r with
        | REVOCATION_REASON_UNSPECIFIED => (0, 0) | REVOCATION_REASON_ABUSE => (1, 0)
        | REVOCATION_REASON_MANUAL => (2, 0) | REVOCATION_REASON_EXPIRED => (3, 0)
        | REVOCATION_REASON_OTHER v => (4, v)
        end in (z_row t, z_row v).

Definition rows_reason (t v : bytes) : RevocationReason :=
  match row_z t with
  | 1 => REVOCATION_REASON_ABUSE | 2 => REVOCATION_REASON_MANUAL
  | 3 => REVOCATION_REASON_EXPIRED | 4 => REVOCATION_REASON_OTHER (row_z v)
  | _ => REVOCATION_REASON_UNSPECIFIED
  end.

Lemma rows_reason_rows r : rows_reason (reason_rows r).1 (reason_rows r).2 = r.
Proof. unfold rows_reason. destruct r; cbn [reason_rows fst snd]; by rewrite ?row_z_row. Qed.

Definition float_rows (x : spec_float) : list bytes :=
  let '(t, s, m, e) := match x with
        | S754_zero s => (0, s, 1%positive, 0) | S754_infinity s => (1, s, 1%positive, 0)
        | S754_nan => (2, true, 1%positive, 0) | S754_finite s m e => (3, s, m, e)
        end in [z_row t; z_row (if s then 1 else 0); pos_bytes m; z_row e].

Definition rows_float (t s m e : bytes) : spec_float :=
  let b := row_z s =? 1 in
  match row_z t with
  | 0 => S754_zero b | 1 => S754_infinity b | 3 => S754_finite b (bytes_pos m) (row_z e)
  | _ => S754_nan
  end.

Fixpoint peers_rows (ps : list KnownPeerMsg) : list bytes :=
  match ps with
  | [] => []
  | p :: ps => km_TrackerId p :: string_bytes (km_Addr p) :: z_row (km_LastSeen p) ::
               string_bytes (km_RegionHint p) :: float_rows (km_HealthScore p) ++ peers_rows ps
  end.

Fixpoint rows_peers (rs : list bytes) : list KnownPeerMsg :=
  match rs with
  | a :: b :: c :: d :: t :: s :: m :: e :: rs =>
      Build_KnownPeerMsg a (row_str b) (row_z c) (row_str d) (rows_float t s m e) :: rows_peers rs
  | _ => []
  end.

Lemma rows_peers_rows ps : rows_peers (peers_rows ps) = ps.
Proof.
  induction ps as [|[a b c d f] ps IH]; [done|].
  cbn [peers_rows km_TrackerId km_Addr km_LastSeen km_RegionHint km_HealthScore].
  destruct f as [[]|[]| |[] m e]; cbn [float_rows app rows_peers];
    rewrite IH, !row_string_bytes, row_z_row; unfold rows_float;
    by rewrite ?row_z_row, ?bytes_pos_bytes.
Qed.

#[local] Ltac toy_rows :=
  intros []; cbn; rewrite ?rows_kind_rows, ?rows_reason_rows, ?row_z_row, ?row_string_bytes;
  reflexivity.

#[global] Instance Envelope_rows : Rows Envelope.
Proof.
  refine {|
  to_rows m := [fe_SenderId m; (kind_rows (fe_Kind m)).1; (kind_rows (fe_Kind m)).2;
                fe_Payload m; fe_SenderSig m];
  of_rows r := match r with
               | [a; t; v; c; d] => Some (Build_Envelope a (rows_kind t v) c d) | _ => None end
  |}.
  toy_rows.
Defined.

#[global] Instance Hello_rows : Rows Hello.
Proof.
  refine {|
  to_rows m := he_TrackerId m :: z_row (he_ProtocolVersion m) :: he_Nonce m ::
               (string_bytes <$> he_Features m);
  of_rows r := match r with
               | a :: v :: n :: fs => Some (Build_Hello a (row_z v) n (row_str <$> fs))
               | _ => None end
  |}.
  intros [a v n fs]. cbn. rewrite row_z_row, <- list_fmap_compose.
  rewrite (list_fmap_ext _ id), list_fmap_id; [done|]. intros _ x _. apply row_string_bytes.
Defined.

#[global] Instance PeerAuth_rows : Rows PeerAuth.
Proof.
  refine {|
  to_rows m := [pa_NonceSig m];
  of_rows r := match r with [a] => Some (Build_PeerAuth a) | _ => None end
  |}.
  toy_rows.
Defined.

#[global] Instance PeeringAccept_rows : Rows PeeringAccept.
Proof.
  refine {|
  to_rows m := [z_row (pc_DedupeTtlS m); z_row (pc_GossipRateQps m)];
  of_rows r := match r with [a; b] => Some (Build_PeeringAccept (row_z a) (row_z b)) | _ => None end
  |}.
  toy_rows.
Defined.

#[global] Instance RootAttestation_rows : Rows RootAttestation.
Proof.
  refine {|
  to_rows m := [ra_TrackerId m; z_row (ra_Hour m); ra_MerkleRoot m; ra_TrackerSig m];
  of_rows r := match r with
               | [a; b; c; d] => Some (Build_RootAttestation a (row_z b) c d) | _ => None end
  |}.
  toy_rows.
Defined.

#[global] Instance Evidence_rows : Rows EquivocationEvidence.
Proof.
  refine {|
  to_rows m := [ee_TrackerId m; z_row (ee_Hour m); ee_RootA m; ee_SigA m; ee_RootB m; ee_SigB m];
  of_rows r := match r with
               | [a; b; c; d; e; f] => Some (Build_EquivocationEvidence a (row_z b) c d e f)
               | _ => None end
  |}.
  toy_rows.
Defined.

#[global] Instance Request_rows : Rows TransferProofRequest.
Proof.
  refine {|
  to_rows m := [tpr_SourceTrackerId m; tpr_DestTrackerId m; tpr_IdentityId m;
                z_row (tpr_Amount m); tpr_Nonce m; tpr_ConsumerSig m; tpr_ConsumerPub m;
                z_row (tpr_Timestamp m)];
  of_rows r := match r with
               | [a; b; c; d; e; f; g; h] =>
                   Some (Build_TransferProofRequest a b c (row_z d) e f g (row_z h))
               | _ => None end
  |}.
  toy_rows.
Defined.

#[global] Instance Proof_rows : Rows TransferProof.
Proof.
  refine {|
  to_rows m := [tp_SourceTrackerId m; tp_DestTrackerId m; tp_IdentityId m;
                z_row (tp_Amount m); tp_Nonce m; tp_SourceChainTipHash m; z_row (tp_SourceSeq m);
                z_row (tp_Timestamp m); tp_SourceTrackerSig m];
  of_rows r := match r with
               | [a; b; c; d; e; f; g; h; i] =>
                   Some (Build_TransferProof a b c (row_z d) e f (row_z g) (row_z h) i)
               | _ => None end
  |}.
  toy_rows.
Defined.

#[global] Instance Applied_rows : Rows TransferApplied.
Proof.
  refine {|
  to_rows m := [ta_SourceTrackerId m; ta_DestTrackerId m; ta_Nonce m; z_row (ta_Timestamp m);
                ta_DestTrackerSig m];
  of_rows r := match r with
               | [a; b; c; d; e] => Some (Build_TransferApplied a b c (row_z d) e) | _ => None end
  |}.
  toy_rows.
Defined.

#[global] Instance Reversal_rows : Rows TransferReversal.
Proof.
  refine {|
  to_rows m := [tv_SourceTrackerId m; tv_DestTrackerId m; tv_Nonce m;
                string_bytes (tv_Evidence m); z_row (tv_Timestamp m); tv_DestTrackerSig m];
  of_rows r := match r with
               | [a; b; c; d; e; f] => Some (Build_TransferReversal a b c (row_str d) (row_z e) f)
               | _ => None end
  |}.
  toy_rows.
Defined.

#[global] Instance Reject_rows : Rows TransferReject.
Proof.
  refine {|
  to_rows m := [tj_SourceTrackerId m; tj_DestTrackerId m; tj_Nonce m;
                string_bytes (tj_Reason m); z_row (tj_Timestamp m); tj_SourceTrackerSig m];
  of_rows r := match r with
               | [a; b; c; d; e; f] => Some (Build_TransferReject a b c (row_str d) (row_z e) f)
               | _ => None end
  |}.
  toy_rows.
Defined.

#[global] Instance Revocation_rows : Rows Revocation.
Proof.
  refine {|
  to_rows m := [re_TrackerId m; re_IdentityId m; (reason_rows (re_Reason m)).1;
                (reason_rows (re_Reason m)).2; z_row (re_RevokedAt m); re_TrackerSig m];
  of_rows r := match r with
               | [a; b; t; v; d; e] => Some (Build_Revocation a b (rows_reason t v) (row_z d) e)
               | _ => None end
  |}.
  toy_rows.
Defined.

#[global] Instance PeerExchange_rows : Rows PeerExchange.
Proof.
  refine {|
  to_rows m := peers_rows (px_Peers m);
  of_rows r := Some (Build_PeerExchange (rows_peers r))
  |}.
  intros [ps]. cbn. by rewrite rows_peers_rows.
Defined.

Definition ToyFedWire : FedWire := {|
  fw_Envelope := toy_codec (λ _, []); fw_Hello := toy_codec (λ m, [he_ProtocolVersion m]);
  fw_PeerAuth := toy_codec (λ _, []);
  fw_PeeringAccept := toy_codec (λ m, [pc_DedupeTtlS m; pc_GossipRateQps m]);
  fw_RootAttestation := toy_codec (λ m, [ra_Hour m]);
  fw_EquivocationEvidence := toy_codec (λ m, [ee_Hour m]);
  fw_TransferProofRequest := toy_codec (λ m, [tpr_Amount m; tpr_Timestamp m]);
  fw_TransferProof := toy_codec (λ m, [tp_Amount m; tp_Timestamp m; tp_SourceSeq m]);
  fw_TransferApplied := toy_codec (λ m, [ta_Timestamp m]);
  fw_TransferReversal := toy_codec (λ m, [tv_Timestamp m]);
  fw_TransferReject := toy_codec (λ m, [tj_Timestamp m]);
  fw_Revocation := toy_codec (λ m, [re_RevokedAt m]);
  fw_PeerExchange := toy_codec (λ m, km_LastSeen <$> px_Peers m)
|}.

Lemma ToyFedWireLaws : @FedWireLaws ToyFedWire.
Proof.
  constructor; try apply toy_codec_laws; intros x m Hu;
    apply toy_codec_typed in Hu; decompose_Forall; auto.
Qed.
