(* ===== verification/Transfer.v ===== *)
(** tracker/internal/federation/transfer.go and ledger_hooks.go: the coordinator of
    cross-region transfers, and the adapter that binds it to the ledger
    (cmd/token-bay-tracker/federation_adapters.go).

    The coordinator knows the ledger only through the interface [LedgerHooks], over a state
    [L] of its own; [ledger_hooks] is the implementation on [Store]. A handler is a function
    of the coordinator's state: it changes the three caches and the ledger and appends its
    effects to [t_out]. [StartTransfer] blocks between its request and the
    answer, so it is two functions, [StartTransfer_send] and [StartTransfer_wake]; the
    channels of a waiting call are the buffers of [pendingResp]. *)
From S2P Require Import Prelude Proto Signing Entry Storage Ledger Credit FedProto.

(** ** The ledger, as the federation package sees it *)

Record TransferOutHookIn := {
  ho_IdentityID : bytes; ho_Amount : Z; ho_Timestamp : Z; ho_TransferRef : bytes;
  ho_SourceTrackerID : bytes; ho_DestTrackerID : bytes; ho_ConsumerSig : bytes;
  ho_ConsumerPub : bytes
}.

Record TransferOutHookOut := { ho_ChainTipHash : bytes; ho_Seq : Z }.

Record TransferInHookIn := {
  hi_IdentityID : bytes; hi_Amount : Z; hi_Timestamp : Z; hi_TransferRef : bytes
}.

(** Both methods return the text of their error, which is all the package looks at. *)
Record LedgerHooks (L : Type) := {
  hook_AppendTransferOut : TransferOutHookIn → GoM L string TransferOutHookOut;
  hook_AppendTransferIn : TransferInHookIn → GoM L string unit
}.

#[global] Arguments hook_AppendTransferOut {_} _ _.
#[global] Arguments hook_AppendTransferIn {_} _ _.

(** ** The coordinator's state *)

Record issuedProof := { ip_payload : bytes; ip_at : Z }.

Record StartTransferInput := {
  st_SourceTrackerID : bytes; st_IdentityID : bytes; st_Amount : Z; st_Nonce : bytes;
  st_ConsumerSig : bytes; st_ConsumerPub : bytes; st_Timestamp : Z
}.

Record StartTransferOutput := {
  so_SourceChainTipHash : bytes; so_SourceSeq : Z; so_SourceTrackerSig : bytes
}.

Record completedTransfer := { ct_out : StartTransferOutput; ct_at : Z }.

(** The channels have capacity 1. *)
Record pendingResp := { pd_ch : option TransferProof; pd_rejCh : option TransferReject }.

(** What the coordinator does to the outside: a counter, a frame on its way to a peer, and a
    use of the tracker's key on the preimage of a proof. *)
Inductive Effect :=
| Count (name : string)
| Sent (peer : bytes) (kind : Kind) (payload : bytes)
| Minted (proof : TransferProof).

Record TState (L : Type) := {
  t_issued : gmap bytes issuedProof;
  t_pending : gmap bytes pendingResp;
  t_completed : gmap bytes completedTransfer;
  t_ledger : L;
  t_out : list Effect
}.

#[global] Arguments t_issued {_} _.
#[global] Arguments t_pending {_} _.
#[global] Arguments t_completed {_} _.
#[global] Arguments t_ledger {_} _.
#[global] Arguments t_out {_} _.
#[global] Arguments Build_TState {_} _ _ _ _ _.

Section setters.
Context {L : Type}.

Definition set_issued f (s : TState L) : TState L :=
  Build_TState (f (t_issued s)) (t_pending s) (t_completed s) (t_ledger s) (t_out s).
Definition set_pending_resp f (s : TState L) : TState L :=
  Build_TState (t_issued s) (f (t_pending s)) (t_completed s) (t_ledger s) (t_out s).
Definition set_completed f (s : TState L) : TState L :=
  Build_TState (t_issued s) (t_pending s) (f (t_completed s)) (t_ledger s) (t_out s).
Definition set_ledger l (s : TState L) : TState L :=
  Build_TState (t_issued s) (t_pending s) (t_completed s) l (t_out s).
Definition emit_effect (x : Effect) (s : TState L) : TState L :=
  Build_TState (t_issued s) (t_pending s) (t_completed s) (t_ledger s) (t_out s ++ [x]).
Definition count (name : string) : TState L → TState L := emit_effect (Count name).

Definition newTransferCoordinator (l : L) : TState L := Build_TState ∅ ∅ ∅ l [].
End setters.

(** [equalID] *)
Fixpoint equalID (a b : bytes) : bool :=
  match a, b with
  | [], [] => true
  | x :: a, y :: b => bool_decide (x = y) && equalID a b
  | _, _ => false
  end.

(** The first entry, in the order of the map's iteration, with the least time. *)
Definition oldest {V} (at_ : V → Z) (m : gmap bytes V) : option bytes :=
  fst <$> foldl (λ best kv,
    match best with
    | None => Some kv
    | Some b => if at_ kv.2 <? at_ b.2 then Some kv else Some b
    end) None (map_to_list m).

Definition evict_oldest {V} (cap : Z) (at_ : V → Z) (m : gmap bytes V) : gmap bytes V :=
  if cap <=? Z.of_nat (size m)
  then delete (default (zero_bytes 32) (oldest at_ m)) m
  else m.

(** [isLedgerTransferRefExists] *)
Definition isLedgerTransferRefExists (err : string) : bool :=
  bool_decide (err = "ledger: transfer ref already on chain").

(** The first [n] bytes of a string. *)
Definition string_take (n : Z) (s : string) : string :=
  String.string_of_list_byte (take (Z.to_nat n) (string_bytes s)).

Section coordinator.
Context `{Crypto} `{Wire} `{FedWire} {L : Type}.
(** [transferCoordinatorCfg]. [IssuedCap] is what [newTransferCoordinator] makes of it.
    [Send] is the outcome of sending to a peer, [None] when the frame is on its way. *)
Variable MyTrackerID MyPriv : bytes.
Variable Ledger : option (LedgerHooks L).
Variable IssuedCap : Z.
Variable PeerPubKey : bytes → option bytes.
Variable Send : bytes → Kind → bytes → option FErr.

Definition send_to (peer : bytes) (kind : Kind) (payload : bytes) (s : TState L)
    : option FErr * TState L :=
  match Send peer kind payload with
  | Some e => (Some e, s)
  | None => (None, emit_effect (Sent peer kind payload) s)
  end.

(** ** The source: requests *)

Definition cacheIssuedLocked (now : Z) (nonce payload : bytes) : TState L → TState L :=
  set_issued (λ m, <[nonce := {| ip_payload := payload; ip_at := now |}]>
                     (evict_oldest IssuedCap ip_at m)).

Definition emitTransferReject (now : Z) (dest : bytes) (req : TransferProofRequest)
    (reason : string) (s : TState L) : TState L :=
  let reason := if MaxTransferRejectReasonLen <? slen reason
                then string_take MaxTransferRejectReasonLen reason else reason in
  let rej := {| tj_SourceTrackerId := tpr_SourceTrackerId req;
                tj_DestTrackerId := tpr_DestTrackerId req; tj_Nonce := tpr_Nonce req;
                tj_Reason := reason; tj_Timestamp := u64 (Unix now);
                tj_SourceTrackerSig := [] |} in
  match CanonicalTransferRejectPreSig rej with
  | None => count "transfer_reject_canonical" s
  | Some cb =>
    let rej := {| tj_SourceTrackerId := tj_SourceTrackerId rej;
                  tj_DestTrackerId := tj_DestTrackerId rej; tj_Nonce := tj_Nonce rej;
                  tj_Reason := tj_Reason rej; tj_Timestamp := tj_Timestamp rej;
                  tj_SourceTrackerSig := ed25519_Sign MyPriv cb |} in
    match ValidateTransferReject (Some rej) with
    | Some _ => count "transfer_reject_validate" s
    | None =>
      match Marshal rej with
      | None => count "transfer_reject_marshal" s
      | Some payload =>
        match send_to dest KIND_TRANSFER_REJECT payload s with
        | (Some _, s) => count "transfer_reject_send_err" s
        | (None, s) => count "transfer_reject_sent" s
        end
      end
    end
  end.

(** The hook input of a request, and the proof of its debit before it is signed. *)
Definition request_hook (req : TransferProofRequest) : TransferOutHookIn := {|
  ho_IdentityID := copy32 (tpr_IdentityId req); ho_Amount := tpr_Amount req;
  ho_Timestamp := tpr_Timestamp req; ho_TransferRef := copy32 (tpr_Nonce req);
  ho_SourceTrackerID := copy32 (tpr_SourceTrackerId req);
  ho_DestTrackerID := copy32 (tpr_DestTrackerId req);
  ho_ConsumerSig := tpr_ConsumerSig req; ho_ConsumerPub := tpr_ConsumerPub req |}.

Definition request_proof (req : TransferProofRequest) (out : TransferOutHookOut)
    (sig : bytes) : TransferProof := {|
  tp_SourceTrackerId := tpr_SourceTrackerId req; tp_DestTrackerId := tpr_DestTrackerId req;
  tp_IdentityId := tpr_IdentityId req; tp_Amount := tpr_Amount req; tp_Nonce := tpr_Nonce req;
  tp_SourceChainTipHash := ho_ChainTipHash out; tp_SourceSeq := ho_Seq out;
  tp_Timestamp := tpr_Timestamp req; tp_SourceTrackerSig := sig |}.

(** The debit, and the proof of it. *)
Definition mintProof (h : LedgerHooks L) (now : Z) (req : TransferProofRequest)
    (fromPeer : bytes) (s : TState L) : TState L :=
  let '(r, led) := hook_AppendTransferOut h (request_hook req) (t_ledger s) in
  let s := set_ledger led s in
  match r with
  | Err e => count "transfer_request_ledger_err" (emitTransferReject now fromPeer req e s)
  | Ok out =>
    match CanonicalTransferProofPreSig (request_proof req out []) with
    | None => count "transfer_proof_canonical" s
    | Some cb =>
      let s := emit_effect (Minted (request_proof req out [])) s in
      match Marshal (request_proof req out (ed25519_Sign MyPriv cb)) with
      | None => count "transfer_proof_marshal" s
      | Some payload =>
        let s := cacheIssuedLocked now (copy32 (tpr_Nonce req)) payload s in
        match send_to fromPeer KIND_TRANSFER_PROOF payload s with
        | (Some _, s) => count "transfer_proof_send_err" s
        | (None, s) => count "transfers_minted" s
        end
      end
    end
  end.

Definition OnRequest (now : Z) (env : Envelope) (fromPeer : bytes) (s : TState L) : TState L :=
  match Ledger with
  | None => count "transfer_request_received_disabled" s
  | Some h =>
    match Unmarshal (M := TransferProofRequest) (fe_Payload env) with
    | None => count "transfer_request_shape" s
    | Some req =>
      match ValidateTransferProofRequest (Some req) with
      | Some _ => count "transfer_request_shape" s
      | None =>
        if negb (equalID (tpr_SourceTrackerId req) MyTrackerID)
        then count "transfer_request_misrouted" s
        else if negb (equalID (tpr_DestTrackerId req) fromPeer)
        then count "transfer_request_dest_mismatch" s
        else match CanonicalTransferProofRequestPreSig (Some req) with
        | Err _ => count "transfer_request_canonical" s
        | Ok canonical =>
          if negb (ed25519_Verify (tpr_ConsumerPub req) canonical (tpr_ConsumerSig req))
          then count "transfer_request_consumer_sig" s
          else match t_issued s !! copy32 (tpr_Nonce req) with
          | Some cached =>
              count "transfer_request_replayed"
                (snd (send_to fromPeer KIND_TRANSFER_PROOF (ip_payload cached) s))
          | None => mintProof h now req fromPeer s
          end
        end
      end
    end
  end.

(** ** The source: confirmations and reversals *)

Definition OnApplied (env : Envelope) (fromPeer : bytes) (s : TState L) : TState L :=
  match Unmarshal (M := TransferApplied) (fe_Payload env) with
  | None => count "transfer_applied_shape" s
  | Some applied =>
    match ValidateTransferApplied (Some applied) with
    | Some _ => count "transfer_applied_shape" s
    | None =>
      if negb (equalID (ta_SourceTrackerId applied) MyTrackerID)
      then count "transfer_applied_misrouted" s
      else match PeerPubKey fromPeer with
      | None => count "transfer_applied_unknown_peer" s
      | Some dstPub =>
        match CanonicalTransferAppliedPreSig applied with
        | None => count "transfer_applied_canonical" s
        | Some cb =>
          if negb (ed25519_Verify dstPub cb (ta_DestTrackerSig applied))
          then count "transfer_applied_sig" s
          else count "transfer_applied_received_ok" s
        end
      end
    end
  end.

Definition OnTransferReversal (env : Envelope) (fromPeer : bytes) (s : TState L) : TState L :=
  match Unmarshal (M := TransferReversal) (fe_Payload env) with
  | None => count "transfer_reversal_shape" s
  | Some rev =>
    match ValidateTransferReversal (Some rev) with
    | Some _ => count "transfer_reversal_shape" s
    | None =>
      match PeerPubKey fromPeer with
      | None => count "transfer_reversal_unknown_issuer" s
      | Some pub =>
        match CanonicalTransferReversalPreSig rev with
        | None => count "transfer_reversal_canonical" s
        | Some cb =>
          if negb (ed25519_Verify pub cb (tv_DestTrackerSig rev))
          then count "transfer_reversal_sig" s
          else count "transfer_reversal_received" s
        end
      end
    end
  end.

(** ** The destination: reversals, proofs and rejections *)

Definition IssueTransferReversal (now : Z) (source nonce : bytes) (evidence : string)
    (s : TState L) : res FErr bytes * TState L :=
  let rev sig := {| tv_SourceTrackerId := source; tv_DestTrackerId := MyTrackerID;
                    tv_Nonce := nonce; tv_Evidence := evidence;
                    tv_Timestamp := u64 (Unix now); tv_DestTrackerSig := sig |} in
  match CanonicalTransferReversalPreSig (rev []) with
  | None => (Err (ErrFed "federation: canonical reversal"), s)
  | Some cb =>
    let rev := rev (ed25519_Sign MyPriv cb) in
    match ValidateTransferReversal (Some rev) with
    | Some e => (Err (ErrFed (String.append "federation: validate reversal: " e)), s)
    | None =>
      match Marshal rev with
      | None => (Err (ErrFed "federation: marshal reversal"), s)
      | Some payload =>
        match send_to source KIND_TRANSFER_REVERSAL payload s with
        | (Some e, s) => (Err e, s)
        | (None, s) => (Ok payload, count "transfer_reversal_sent" s)
        end
      end
    end
  end.

Definition OnReject (env : Envelope) (fromPeer : bytes) (s : TState L) : TState L :=
  match Unmarshal (M := TransferReject) (fe_Payload env) with
  | None => count "transfer_reject_shape" s
  | Some rej =>
    match ValidateTransferReject (Some rej) with
    | Some _ => count "transfer_reject_shape" s
    | None =>
      match PeerPubKey fromPeer with
      | None => count "transfer_reject_unknown_issuer" s
      | Some srcPub =>
        match CanonicalTransferRejectPreSig rej with
        | None => count "transfer_reject_canonical" s
        | Some cb =>
          if negb (ed25519_Verify srcPub cb (tj_SourceTrackerSig rej))
          then count "transfer_reject_sig" s
          else match t_pending s !! copy32 (tj_Nonce rej) with
          | None => count "transfer_reject_no_pending" s
          | Some p =>
            match pd_rejCh p with
            | Some _ => s
            | None =>
              count "transfer_reject_delivered"
                (set_pending_resp <[copy32 (tj_Nonce rej) :=
                   {| pd_ch := pd_ch p; pd_rejCh := Some rej |}]> s)
            end
          end
        end
      end
    end
  end.

Definition OnProof (env : Envelope) (fromPeer : bytes) (s : TState L) : TState L :=
  match Unmarshal (M := TransferProof) (fe_Payload env) with
  | None => count "transfer_proof_shape" s
  | Some proof =>
    match ValidateTransferProof (Some proof) with
    | Some _ => count "transfer_proof_shape" s
    | None =>
      if negb (equalID (tp_DestTrackerId proof) MyTrackerID)
      then count "transfer_proof_misrouted" s
      else if negb (equalID (tp_SourceTrackerId proof) fromPeer)
      then count "transfer_proof_source_mismatch" s
      else match t_pending s !! copy32 (tp_Nonce proof) with
      | None => count "transfer_proof_orphan" s
      | Some p =>
        match pd_ch p with
        | Some _ => count "transfer_proof_buffer_full" s
        | None =>
          count "transfer_proof_delivered"
            (set_pending_resp <[copy32 (tp_Nonce proof) :=
               {| pd_ch := Some proof; pd_rejCh := pd_rejCh p |}]> s)
        end
      end
    end
  end.

(** ** The destination: [StartTransfer] *)

Definition start_request (i : StartTransferInput) : TransferProofRequest := {|
  tpr_SourceTrackerId := st_SourceTrackerID i; tpr_DestTrackerId := MyTrackerID;
  tpr_IdentityId := st_IdentityID i; tpr_Amount := st_Amount i; tpr_Nonce := st_Nonce i;
  tpr_ConsumerSig := st_ConsumerSig i; tpr_ConsumerPub := st_ConsumerPub i;
  tpr_Timestamp := st_Timestamp i |}.

(** The deferred [delete(tc.pending, in.Nonce)]. *)
Definition unpend (i : StartTransferInput) : TState L → TState L :=
  set_pending_resp (delete (st_Nonce i)).

(** Up to the select: [Some r] when the call has returned [r], [None] when it waits. *)
Definition StartTransfer_send (i : StartTransferInput) (s : TState L)
    : option (res FErr StartTransferOutput) * TState L :=
  match Ledger with
  | None => (Some (Err ErrTransferDisabled), s)
  | Some _ =>
    match t_completed s !! st_Nonce i with
    | Some c => (Some (Ok (ct_out c)), count "transfer_start_replayed_completed" s)
    | None =>
      match ValidateTransferProofRequest (Some (start_request i)) with
      | Some e => (Some (Err (ErrFed (String.append "federation: " e))), s)
      | None =>
        match Marshal (start_request i) with
        | None => (Some (Err (ErrFed "federation: marshal request")), s)
        | Some payload =>
          match t_pending s !! st_Nonce i with
          | Some _ =>
              (Some (Err (ErrFed "federation: duplicate StartTransfer nonce in flight")), s)
          | None =>
            let s := set_pending_resp <[st_Nonce i := {| pd_ch := None; pd_rejCh := None |}]> s in
            match send_to (st_SourceTrackerID i) KIND_TRANSFER_PROOF_REQUEST payload s with
            | (Some e, s) => (Some (Err e), unpend i s)
            | (None, s) => (None, count "transfer_request_sent" s)
            end
          end
        end
      end
    end
  end.

Definition cacheCompletedLocked (now : Z) (nonce : bytes) (out : StartTransferOutput)
    : TState L → TState L :=
  set_completed (λ m, <[nonce := {| ct_out := out; ct_at := now |}]>
                        (evict_oldest IssuedCap ct_at m)).

Definition sendApplied (now : Z) (i : StartTransferInput) (s : TState L) : TState L :=
  let applied sig := {| ta_SourceTrackerId := st_SourceTrackerID i;
                        ta_DestTrackerId := MyTrackerID; ta_Nonce := st_Nonce i;
                        ta_Timestamp := u64 (Unix now); ta_DestTrackerSig := sig |} in
  match CanonicalTransferAppliedPreSig (applied []) with
  | None => s
  | Some ab =>
    match Marshal (applied (ed25519_Sign MyPriv ab)) with
    | None => s
    | Some payload => snd (send_to (st_SourceTrackerID i) KIND_TRANSFER_APPLIED payload s)
    end
  end.

(** The credit is booked, now or by an earlier run: the confirmation, the result and the
    cache. *)
Definition completeTransfer (now : Z) (i : StartTransferInput) (proof : TransferProof)
    (s : TState L) : res FErr StartTransferOutput * TState L :=
  let s := sendApplied now i s in
  let out := {| so_SourceChainTipHash := copy32 (tp_SourceChainTipHash proof);
                so_SourceSeq := tp_SourceSeq proof;
                so_SourceTrackerSig := tp_SourceTrackerSig proof |} in
  (Ok out, count "transfer_completed" (cacheCompletedLocked now (st_Nonce i) out s)).

Definition credit_hook (i : StartTransferInput) (proof : TransferProof) : TransferInHookIn := {|
  hi_IdentityID := st_IdentityID i; hi_Amount := tp_Amount proof;
  hi_Timestamp := tp_Timestamp proof; hi_TransferRef := st_Nonce i |}.

(** From the receipt of a proof on. *)
Definition applyProof (h : LedgerHooks L) (now : Z) (i : StartTransferInput)
    (proof : TransferProof) (s : TState L) : res FErr StartTransferOutput * TState L :=
  match PeerPubKey (st_SourceTrackerID i) with
  | None => (Err ErrPeerNotConnected, s)
  | Some srcPub =>
    match CanonicalTransferProofPreSig proof with
    | None => (Err (ErrFed "federation: canonical proof"), s)
    | Some cb =>
      if negb (ed25519_Verify srcPub cb (tp_SourceTrackerSig proof))
      then (Err (ErrFed "federation: source_tracker_sig invalid"), s)
      else
        let '(r, led) := hook_AppendTransferIn h (credit_hook i proof) (t_ledger s) in
        let s := set_ledger led s in
        match r with
        | Err e =>
            if negb (isLedgerTransferRefExists e)
            then (Err (ErrFed (String.append "federation: append transfer_in: " e)), s)
            else completeTransfer now i proof (count "transfer_in_ref_exists_idempotent" s)
        | Ok _ => completeTransfer now i proof s
        end
    end
  end.

(** What a waiting call wakes up on: the case of the select that is taken. *)
Inductive Woken := WokeProof | WokeReject | WokeDone (deadline : bool).

(** From the select on; [None] when the chosen case is not ready. *)
Definition StartTransfer_wake (now : Z) (w : Woken) (i : StartTransferInput) (s : TState L)
    : option (res FErr StartTransferOutput * TState L) :=
  match Ledger, t_pending s !! st_Nonce i with
  | Some h, Some p =>
    match w with
    | WokeProof =>
        proof ← pd_ch p;
        let '(r, s) := applyProof h now i proof s in Some (r, unpend i s)
    | WokeReject =>
        rej ← pd_rejCh p; Some (Err (ErrTransferRejected (tj_Reason rej)), unpend i s)
    | WokeDone d =>
        Some (Err (if d then ErrDeadlineExceeded else ErrCanceled), unpend i s)
    end
  | _, _ => None
  end.
End coordinator.

(** ** The adapter to the ledger *)

(** [err.Error()]; of its text the federation package relies on one sentinel's. *)
Class ErrorText := { Error : LErr → string }.

Class ErrorTextLaws `{ErrorText} : Prop := {
  Error_ref_exists e : Error e = "ledger: transfer ref already on chain" ↔ e = ErrTransferRefExists
}.

(** The database, and the events admission has been given. *)
Record HookState := { hs_store : Store; hs_events : list LedgerEvent }.

Definition staleTipRetries : nat := 8.

Section adapter.
Context `{Crypto} `{Wire} `{ErrorText}.
Variable key : bytes.
(** Whether an admission subsystem is wired, the database calls that fail, and what other
    goroutines do to the database between an attempt's reading of the tip and its append. *)
Variable adm : bool.
Variable io : Faults.
Variable between : nat → Store → Store.

Definition emitTransfer (kind : LedgerEventKind) (id : bytes) (amount ts : Z) (s : HookState)
    : HookState :=
  if negb adm then s else
  {| hs_store := hs_store s;
     hs_events := hs_events s ++ [{| le_Kind := kind; le_ConsumerID := id; le_SeederID := [];
       le_CostCredits := amount; le_Flags := 0; le_DisputeUpheld := false;
       le_Timestamp := time_Unix (i64 ts) |}] |}.

Definition with_store (st : Store) (s : HookState) : HookState :=
  {| hs_store := st; hs_events := hs_events s |}.

(** One iteration: the tip is read, others run, the append is attempted. *)
Definition at_tip (n : nat) (append : bytes → Z → GoM Store LErr Entry) (s : HookState)
    : res LErr Entry * HookState :=
  match Tip io (hs_store s) with
  | Err e => (Err (ErrStore "ledger: tip" e), s)
  | Ok t =>
    let '(prev, seq) := nextTip t in
    let '(r, st) := append prev seq (between n (hs_store s)) in
    (r, with_store st s)
  end.

(** [for i := 0; i < staleTipRetries; i++]; [n] counts the iterations left. *)
Fixpoint stale_tip_loop (n : nat) (append : bytes → Z → GoM Store LErr Entry) (s : HookState)
    : res LErr Entry * HookState :=
  match n with
  | O => (Err ErrStaleTip, s)
  | S n =>
    match at_tip n append s with
    | (Err ErrStaleTip, s) => stale_tip_loop n append s
    | r => r
    end
  end.

Definition out_record (i : TransferOutHookIn) (prev : bytes) (seq : Z) : TransferOutRecord := {|
  tor_PrevHash := prev; tor_Seq := seq; tor_ConsumerID := ho_IdentityID i;
  tor_Amount := ho_Amount i; tor_Timestamp := ho_Timestamp i;
  tor_TransferRef := ho_TransferRef i; tor_SourceTrackerID := ho_SourceTrackerID i;
  tor_DestTrackerID := ho_DestTrackerID i; tor_ConsumerSig := ho_ConsumerSig i;
  tor_ConsumerPub := ho_ConsumerPub i |}.

Definition in_record (i : TransferInHookIn) (prev : bytes) (seq : Z) : TransferInRecord := {|
  tir_PrevHash := prev; tir_Seq := seq; tir_IdentityID := hi_IdentityID i;
  tir_Amount := hi_Amount i; tir_Timestamp := hi_Timestamp i;
  tir_TransferRef := hi_TransferRef i |}.

Definition ledger_hooks : LedgerHooks HookState := {|
  hook_AppendTransferOut i s :=
    match stale_tip_loop staleTipRetries
            (λ prev seq, AppendTransferOut key io (out_record i prev seq)) s with
    | (Err e, s) => (Err (Error e), s)
    | (Ok e, s) =>
      match Hash (ent_Body e) with
      | Err m => (Err m, s)
      | Ok h =>
        (Ok {| ho_ChainTipHash := h; ho_Seq := from_option eb_Seq 0 (ent_Body e) |},
         emitTransfer LedgerEventTransferOut (ho_IdentityID i) (ho_Amount i) (ho_Timestamp i) s)
      end
    end;
  hook_AppendTransferIn i s :=
    match stale_tip_loop staleTipRetries
            (λ prev seq, AppendTransferIn key io (in_record i prev seq)) s with
    | (Err e, s) => (Err (Error e), s)
    | (Ok _, s) =>
      (Ok tt, emitTransfer LedgerEventTransferIn (hi_IdentityID i) (hi_Amount i) (hi_Timestamp i) s)
    end
|}.
End adapter.
