(* ===== verification/TransferSpec.v ===== *)
(** The correctness of cross-region transfers (Transfer.v): what the coordinator needs of
    the ledger and that the ledger's adapter gives it, the two-tracker system in which no
    credit is created, and what a call does in each case. *)
From S2P Require Import Prelude Proto Signing Entry Storage Ledger LedgerSpec Credit FedProto.
From S2P Require Import Transfer.

(** ** The interface to the ledger *)

(** [out l ref a]: the chain of [l] holds a debit of [a] under [ref]; [inn] likewise for
    credits. Debits stay, and credits appear only when the coordinator asks for them. *)
Record HooksSpec {L} (inv : L → Prop) (out inn : L → bytes → Z → Prop) (h : LedgerHooks L)
    : Prop := {
  hs_out i l r l' :
    inv l → is_u64 (ho_Amount i) → hook_AppendTransferOut h i l = (r, l') →
    inv l' ∧ (∀ k a, out l k a → out l' k a) ∧ (∀ k a, inn l' k a ↔ inn l k a) ∧
    (is_ok r = true → out l' (ho_TransferRef i) (ho_Amount i));
  hs_in i l r l' :
    inv l → is_u64 (hi_Amount i) → hook_AppendTransferIn h i l = (r, l') →
    inv l' ∧ (∀ k a, out l k a → out l' k a) ∧
    (∀ k a, inn l' k a ↔ inn l k a ∨ is_ok r = true ∧ k = hi_TransferRef i ∧ a = hi_Amount i)
}.

(** ** The adapter implements it *)

Definition has_transfer (k : EntryKind) (s : Store) (ref : bytes) (a : Z) : Prop :=
  ∃ r, r ∈ entries s ∧ row_kind r = k ∧ row_ref r = ref ∧ row_cost_credits r = a.

Section adapter.
Context `{CryptoLaws} `{Wire}.
Variable key : bytes.

(** What the databases of running trackers satisfy. *)
Definition ledger_ok (s : Store) : Prop :=
  ledger_inv key s ∧ Forall (λ r, 0 <= row_cost_credits r) (entries s).

(** What other goroutines do: anything but a transfer in. *)
Definition quiet_step (s s' : Store) : Prop :=
  ledger_step key s s' ∧
  (∀ ref a, has_transfer ENTRY_KIND_TRANSFER_IN s' ref a → has_transfer ENTRY_KIND_TRANSFER_IN s ref a).

Lemma ledger_ok_step s s' : ledger_ok s → ledger_step key s s' → ledger_ok s'.
Proof.
  intros [Hi Hc] Hs. split; [by eapply ledger_step_inv|].
  destruct Hs as [io op s Ht|s s' He Hb]; [|by rewrite He].
  destruct (runLedgerOp key io op s) as [[e|er] s'] eqn:Ho; simpl.
  - apply runLedgerOp_Ok in Ho as (Hd & _ & i & c & ts & _ & _ & -> & _); [|done..].
    apply Forall_app. split; [done|]. apply Forall_singleton. simpl. apply Hd.
  - by rewrite (err_keeps _ _ _ Ho).
Qed.

Lemma reachable_ledger_ok s : ledger_reachable key s → ledger_ok s.
Proof.
  unfold ledger_reachable. assert (ledger_ok empty_store) as He.
  { split; [apply ledger_inv_empty|by constructor]. }
  intros Hs. induction Hs; eauto using ledger_ok_step.
Qed.

Lemma has_transfer_prefix k s s' ref a :
  entries s `prefix_of` entries s' → has_transfer k s ref a → has_transfer k s' ref a.
Proof.
  intros [l Hl] (r & Hr & ?). exists r. split; [|done]. rewrite Hl. apply elem_of_app. by left.
Qed.

Lemma quiet_steps s s' :
  ledger_ok s → rtc quiet_step s s' →
  ledger_ok s' ∧ entries s `prefix_of` entries s' ∧
  (∀ ref a, has_transfer ENTRY_KIND_TRANSFER_IN s' ref a ↔ has_transfer ENTRY_KIND_TRANSFER_IN s ref a).
Proof.
  intros Hok Hs. induction Hs as [s|s s1 s2 [Hs Hq] _ IH]; [done|].
  destruct (IH (ledger_ok_step _ _ Hok Hs)) as (Hok2 & Hp & Hi).
  pose proof (ledger_step_prefix key _ _ (proj1 Hok) Hs) as Hp1.
  split_and!; [done|by etrans|]. intros ref a. rewrite Hi. split; [apply Hq|].
  by apply has_transfer_prefix.
Qed.

(** The effect of the adapter's loop around one operation of the ledger. *)
Lemma stale_tip_loop_spec io between n (op : bytes → Z → LedgerOp) s r s' :
  (∀ m st, rtc quiet_step st (between m st)) →
  stale_tip_loop io between n (λ p q, runLedgerOp key io (op p q)) s = (r, s') →
  hs_events s' = hs_events s ∧
  ∃ st, rtc quiet_step (hs_store s) st ∧
    match r with
    | Ok e => ∃ p q, runLedgerOp key io (op p q) st = (Ok e, hs_store s')
    | Err _ => hs_store s' = st
    end.
Proof.
  intros Hb. revert s. induction n as [|n IH]; intros s; cbn [stale_tip_loop].
  { intros [= <- <-]. split; [done|]. by exists (hs_store s). }
  unfold at_tip. destruct (Tip io (hs_store s)) as [t|e]; [|intros [= <- <-]; split; [done|by exists (hs_store s)]].
  destruct (nextTip t) as [p q].
  destruct (runLedgerOp key io (op p q) (between n (hs_store s))) as [[e|e] st] eqn:Ho.
  { intros [= <- <-]. split; [done|]. exists (between n (hs_store s)). eauto. }
  pose proof (err_keeps _ _ _ Ho) as ->. intros Hl.
  assert (e = ErrStaleTip ∨ (Err e, with_store (between n (hs_store s)) s) = (r, s'))
    as [->|[= <- <-]] by (destruct e; simpl in Hl; (by left) || by right);
    [|by split; [done|exists (between n (hs_store s))]].
  apply IH in Hl as (He & st & Hq & Hr). split; [done|]. exists st. split; [|done].
  etrans; [apply (Hb n)|done].
Qed.

(** What one successful append adds. *)
Lemma has_transfer_append io op st e s' k ref a :
  ledger_inv key st → op_typed op → runLedgerOp key io op st = (Ok e, s') →
  has_transfer k s' ref a ↔
  has_transfer k st ref a ∨
  eb_Kind (op_body op st) = k ∧ eb_Ref (op_body op st) = ref ∧ eb_CostCredits (op_body op st) = a.
Proof.
  intros Hi Ht Ho. apply runLedgerOp_Ok in Ho as (_ & _ & i & c & ts & _ & _ & He & _); [|done..].
  unfold has_transfer. rewrite He. split.
  - intros (r & Hr & Hk & Hf & Ha). apply elem_of_app in Hr as [Hr|Hr%list_elem_of_singleton];
      [left; by exists r|right; by subst r].
  - intros [(r & Hr & ?)|(? & ? & ?)].
    + exists r. split; [|done]. apply elem_of_app. by left.
    + eexists. split; [apply elem_of_app; right; by apply list_elem_of_singleton|done].
Qed.

Definition hooks_ok (s : HookState) : Prop := ledger_ok (hs_store s).
Definition debited (s : HookState) : bytes → Z → Prop :=
  has_transfer ENTRY_KIND_TRANSFER_OUT (hs_store s).
Definition credited (s : HookState) : bytes → Z → Prop :=
  has_transfer ENTRY_KIND_TRANSFER_IN (hs_store s).

Lemma ledger_ok_op io op s : ledger_ok s → op_typed op → ledger_ok (snd (runLedgerOp key io op s)).
Proof. intros Hs Ht. eapply ledger_ok_step; [done|by constructor]. Qed.

Lemma emitTransfer_store adm k id a ts s : hs_store (emitTransfer adm k id a ts s) = hs_store s.
Proof. unfold emitTransfer. by destruct adm. Qed.

(** The adapter, whatever database calls fail and whatever runs in between, gives the
    coordinator what it needs. *)
Lemma ledger_hooks_spec `{ErrorText} adm io between :
  (∀ m st, rtc quiet_step st (between m st)) →
  HooksSpec hooks_ok debited credited (ledger_hooks key adm io between).
Proof.
  intros Hb. constructor; intros i l r l' Hl Ht Ho; unfold hooks_ok, debited, credited in *.
  - cbn [hook_AppendTransferOut ledger_hooks] in Ho.
    destruct (stale_tip_loop _ _ _ _ _) as [o l1] eqn:El.
    apply (stale_tip_loop_spec _ _ _ (λ p q, OpAppendTransferOut (out_record i p q))) in El
      as (_ & st & Hq & Hr); [|done].
    destruct (quiet_steps _ _ Hl Hq) as (Hst & Hp & Hin).
    destruct o as [e|e]; last first.
    { injection Ho as <- <-. rewrite Hr. split_and!; [done| |done|done].
      intros k a. by apply has_transfer_prefix. }
    destruct Hr as (p & q & Hr). set (op := OpAppendTransferOut (out_record i p q)) in *.
    assert (Hop : op_typed op) by done.
    assert (hs_store l' = hs_store l1) as ->.
    { destruct (Hash (ent_Body e)); injection Ho as _ <-; by rewrite ?emitTransfer_store. }
    pose proof (ledger_ok_op io op st Hst Hop) as Hok. rewrite Hr in Hok. split; [exact Hok|].
    pose proof (λ k ref a, has_transfer_append io op st e (hs_store l1) k ref a (proj1 Hst) Hop Hr) as Ha.
    split_and!.
    + intros k a Hka. apply Ha. left. by eapply has_transfer_prefix.
    + intros k a. rewrite Ha, Hin. split; [intros [?|[? _]]; [done|done]|by left].
    + intros _. apply Ha. by right.
  - cbn [hook_AppendTransferIn ledger_hooks] in Ho.
    destruct (stale_tip_loop _ _ _ _ _) as [o l1] eqn:El.
    apply (stale_tip_loop_spec _ _ _ (λ p q, OpAppendTransferIn (in_record i p q))) in El
      as (_ & st & Hq & Hr); [|done].
    destruct (quiet_steps _ _ Hl Hq) as (Hst & Hp & Hin).
    destruct o as [e|e]; last first.
    { injection Ho as <- <-. rewrite Hr. split_and!; [done| |].
      - intros k a. by apply has_transfer_prefix.
      - intros k a. rewrite Hin. split; [by left|by intros [?|[? _]]]. }
    destruct Hr as (p & q & Hr). set (op := OpAppendTransferIn (in_record i p q)) in *.
    assert (Hop : op_typed op) by done. injection Ho as <- <-. rewrite emitTransfer_store.
    pose proof (ledger_ok_op io op st Hst Hop) as Hok. rewrite Hr in Hok. split; [exact Hok|].
    pose proof (λ k ref a, has_transfer_append io op st e (hs_store l1) k ref a (proj1 Hst) Hop Hr) as Ha.
    split.
    + intros k a Hka. apply Ha. left. by eapply has_transfer_prefix.
    + intros k a. rewrite Ha, Hin. simpl. intuition congruence.
Qed.
End adapter.

(** ** What each handler leaves alone *)

Lemma equalID_spec a b : equalID a b = true ↔ a = b.
Proof.
  revert b. induction a as [|x a IH]; intros [|y b]; simpl; [done..|].
  rewrite andb_true_iff, bool_decide_eq_true, IH. naive_solver.
Qed.

(** [s'] differs from [s] only in the replay caches, the counters and the frames sent. *)
Record frame {L} (s s' : TState L) : Prop := {
  fr_ledger : t_ledger s' = t_ledger s;
  fr_pending : t_pending s' = t_pending s;
  fr_minted q : Minted q ∈ t_out s' ↔ Minted q ∈ t_out s
}.

#[global] Instance frame_preorder {L} : PreOrder (frame (L := L)).
Proof.
  split; [done|]. intros s1 s2 s3 [? ? Hm] [? ? Hm']. constructor; [congruence..|].
  intros q. by rewrite Hm', Hm.
Qed.

Section frames.
Context `{Crypto} `{Wire} `{FedWire} {L : Type}.
Implicit Types s : TState L.

Lemma emit_frame x s : (∀ q, x ≠ Minted q) → frame s (emit_effect x s).
Proof.
  intros Hx. split; [done..|]. intros q. simpl. rewrite elem_of_app, list_elem_of_singleton.
  split; [intros [?|<-]; [done|by destruct (Hx q)]|by left].
Qed.

Lemma count_frame n s : frame s (count n s).
Proof. by apply emit_frame. Qed.

Lemma send_frame Send peer k x s : frame s (snd (send_to Send peer k x s)).
Proof. unfold send_to. destruct (Send _ _ _); [done|]. by apply emit_frame. Qed.

Lemma send_frame' Send peer k x s e s' : send_to Send peer k x s = (e, s') → frame s s'.
Proof. intros Hs. pose proof (send_frame Send peer k x s) as Hf. by rewrite Hs in Hf. Qed.

Lemma cacheIssued_frame cap now n x s : frame s (cacheIssuedLocked cap now n x s).
Proof. done. Qed.

Lemma cacheCompleted_frame cap now n x s : frame s (cacheCompletedLocked cap now n x s).
Proof. done. Qed.
End frames.

Create HintDb frames.
#[export] Hint Resolve emit_frame count_frame send_frame send_frame' cacheIssued_frame
  cacheCompleted_frame : frames.
#[export] Hint Extern 0 (frame ?s ?s) => reflexivity : frames.

(** Follows the branches of a handler; each is a chain of steps of [frames]. *)
Ltac frame_chain :=
  repeat case_match; simplify_eq/=;
  repeat (etrans; [|solve [eauto with frames]]); eauto with frames.

Section handlers.
Context `{Crypto} `{Wire} `{FedWire} {L : Type}.
Implicit Types s : TState L.

Lemma emitTransferReject_frame priv Send now d req e s :
  frame s (emitTransferReject priv Send now d req e s).
Proof. unfold emitTransferReject. frame_chain. Qed.

Lemma OnApplied_frame id pk env from s : frame s (OnApplied id pk env from s).
Proof. unfold OnApplied. frame_chain. Qed.

Lemma OnTransferReversal_frame pk env from s : frame s (OnTransferReversal pk env from s).
Proof. unfold OnTransferReversal. frame_chain. Qed.

Lemma sendApplied_frame id priv Send now i s : frame s (sendApplied id priv Send now i s).
Proof. unfold sendApplied. frame_chain. Qed.

Lemma completeTransfer_frame id priv cap Send now i p s :
  frame s (snd (completeTransfer id priv cap Send now i p s)).
Proof.
  unfold completeTransfer. simpl. etrans; [|apply count_frame].
  etrans; [apply sendApplied_frame|apply cacheCompleted_frame].
Qed.
End handlers.

#[export] Hint Resolve emitTransferReject_frame OnApplied_frame OnTransferReversal_frame
  sendApplied_frame completeTransfer_frame : frames.

(** ** What the others change *)

Section effects.
Context `{Crypto} `{Wire} `{FedWireLaws} {L : Type}.
Implicit Types s : TState L.

(** A request that reaches the ledger: the debit is asked for once, and a proof is signed
    only for a debit that was booked. *)
Definition minting (h : LedgerHooks L) (req : TransferProofRequest) (s s' : TState L) : Prop :=
  ∃ r, hook_AppendTransferOut h (request_hook req) (t_ledger s) = (r, t_ledger s') ∧
    t_pending s' = t_pending s ∧
    (∀ q, Minted q ∈ t_out s' →
       Minted q ∈ t_out s ∨ ∃ out, r = Ok out ∧ q = request_proof req out []).

Lemma minting_frame h req s s1 s2 : minting h req s s1 → frame s1 s2 → minting h req s s2.
Proof.
  intros (r & Hr & Hp & Hm) [Hl Hp' Hm']. exists r. rewrite Hl, Hp'. split_and!; [done..|].
  intros q. rewrite Hm'. apply Hm.
Qed.

Lemma mintProof_minting priv cap Send h now req from s :
  minting h req s (mintProof priv cap Send h now req from s).
Proof.
  unfold mintProof.
  destruct (hook_AppendTransferOut h (request_hook req) (t_ledger s)) as [r led] eqn:Eh.
  assert (Hled : minting h req s (set_ledger led s)) by (exists r; auto).
  destruct r as [out|e].
  2:{ eapply minting_frame; [exact Hled|]. etrans; [|apply count_frame]. eauto with frames. }
  destruct (CanonicalTransferProofPreSig _) as [cb|].
  2:{ eapply minting_frame; [exact Hled|]. eauto with frames. }
  assert (Hm : minting h req s (emit_effect (Minted (request_proof req out [])) (set_ledger led s))).
  { exists (Ok out). split_and!; [done..|]. intros q. simpl.
    rewrite elem_of_app, list_elem_of_singleton. intros [?|[= ->]]; eauto. }
  eapply minting_frame; [exact Hm|]. frame_chain.
Qed.

Lemma mintProof_log priv cap Send h now req from s q :
  Minted q ∈ t_out s → Minted q ∈ t_out (mintProof priv cap Send h now req from s).
Proof.
  unfold mintProof. destruct (hook_AppendTransferOut _ _ _) as [[out|e] led]; intros Hq.
  2:{ apply (fr_minted _ _ (count_frame _ _)), (fr_minted _ _ (emitTransferReject_frame _ _ _ _ _ _ _)).
      done. }
  destruct (CanonicalTransferProofPreSig _) as [cb|]; [|by apply (fr_minted _ _ (count_frame _ _))].
  set (s1 := emit_effect _ _). assert (Hq1 : Minted q ∈ t_out s1) by (apply elem_of_app; by left).
  assert (Hf : ∀ s2, frame s1 s2 → Minted q ∈ t_out s2) by (intros s2 [_ _ Hm]; by apply Hm).
  apply Hf. frame_chain.
Qed.

(** A message of another kind, a refused request or a replay changes nothing that counts. *)
Lemma OnRequest_effect id priv h cap Send now env from s :
  frame s (OnRequest id priv (Some h) cap Send now env from s) ∨
  ∃ req, Unmarshal (M := TransferProofRequest) (fe_Payload env) = Some req ∧
    ValidateTransferProofRequest (Some req) = None ∧
    tpr_SourceTrackerId req = id ∧ tpr_DestTrackerId req = from ∧
    (∃ c, CanonicalTransferProofRequestPreSig (Some req) = Ok c ∧
          ed25519_Verify (tpr_ConsumerPub req) c (tpr_ConsumerSig req) = true) ∧
    t_issued s !! copy32 (tpr_Nonce req) = None ∧
    OnRequest id priv (Some h) cap Send now env from s = mintProof priv cap Send h now req from s.
Proof.
  unfold OnRequest.
  destruct (Unmarshal (fe_Payload env)) as [req|]; [|left; simpl; eauto with frames].
  destruct (ValidateTransferProofRequest (Some req)) eqn:Hv; [left; simpl; eauto with frames|].
  destruct (equalID (tpr_SourceTrackerId req) id) eqn:Hs; [|left; simpl; eauto with frames].
  destruct (equalID (tpr_DestTrackerId req) from) eqn:Hd; [|left; simpl; eauto with frames].
  destruct (CanonicalTransferProofRequestPreSig (Some req)) as [c|] eqn:Hc; [|left; simpl; eauto with frames].
  destruct (ed25519_Verify _ c _) eqn:He; [|left; simpl; eauto with frames].
  destruct (t_issued s !! _) as [ip|] eqn:Hi.
  - left. simpl. etrans; [|apply count_frame]. apply send_frame.
  - right. exists req. apply equalID_spec in Hs, Hd. simpl. split_and!; eauto.
Qed.

(** A proof is put into the buffer of the call that waits for its nonce, unchanged. *)
Lemma OnProof_effect id env from s :
  frame s (OnProof id env from s) ∨
  ∃ proof p, Unmarshal (M := TransferProof) (fe_Payload env) = Some proof ∧
    ValidateTransferProof (Some proof) = None ∧
    tp_DestTrackerId proof = id ∧ tp_SourceTrackerId proof = from ∧
    t_pending s !! copy32 (tp_Nonce proof) = Some p ∧ pd_ch p = None ∧
    frame (set_pending_resp <[copy32 (tp_Nonce proof) :=
             {| pd_ch := Some proof; pd_rejCh := pd_rejCh p |}]> s) (OnProof id env from s).
Proof.
  unfold OnProof.
  destruct (Unmarshal (fe_Payload env)) as [proof|]; [|left; simpl; eauto with frames].
  destruct (ValidateTransferProof (Some proof)) eqn:Hv; [left; simpl; eauto with frames|].
  destruct (equalID (tp_DestTrackerId proof) id) eqn:Hd; [|left; simpl; eauto with frames].
  destruct (equalID (tp_SourceTrackerId proof) from) eqn:Hs; [|left; simpl; eauto with frames].
  apply equalID_spec in Hs, Hd. simpl.
  destruct (t_pending s !! _) as [p|] eqn:Hp; [|left; simpl; eauto with frames].
  destruct (pd_ch p) eqn:Hc; [left; simpl; eauto with frames|]. right. exists proof, p.
  split_and!; eauto with frames.
Qed.

(** A rejection touches no buffered proof. *)
Lemma OnReject_effect pk env from s :
  t_ledger (OnReject pk env from s) = t_ledger s ∧
  (∀ k, (t_pending (OnReject pk env from s) !! k ≫= pd_ch) = (t_pending s !! k ≫= pd_ch)) ∧
  (∀ q, Minted q ∈ t_out (OnReject pk env from s) ↔ Minted q ∈ t_out s).
Proof.
  assert (Hf : ∀ s', frame s s' → t_ledger s' = t_ledger s ∧
    (∀ k, (t_pending s' !! k ≫= pd_ch) = (t_pending s !! k ≫= pd_ch)) ∧
    (∀ q, Minted q ∈ t_out s' ↔ Minted q ∈ t_out s)).
  { intros s' [Hl Hp Hm]. split_and!; [done| |done]. intros k. by rewrite Hp. }
  unfold OnReject.
  destruct (Unmarshal (fe_Payload env)) as [rej|]; [|apply Hf; simpl; eauto with frames].
  destruct (ValidateTransferReject _); [apply Hf; simpl; eauto with frames|].
  destruct (pk from); [|apply Hf; simpl; eauto with frames].
  destruct (CanonicalTransferRejectPreSig rej); [|apply Hf; simpl; eauto with frames].
  destruct (negb _); [apply Hf; simpl; eauto with frames|].
  destruct (t_pending s !! _) as [p|] eqn:Hp; [|apply Hf; simpl; eauto with frames].
  destruct (pd_rejCh p); [apply Hf; simpl; eauto with frames|].
  split_and!; [done| |].
  - intros k. simpl. destruct (decide (k = copy32 (tj_Nonce rej))) as [->|Hne].
    + by rewrite lookup_insert_eq, Hp.
    + by rewrite lookup_insert_ne.
  - intros q. simpl. rewrite elem_of_app, list_elem_of_singleton. split; [intros [?|?]|left]; done.
Qed.

(** Starting a call opens empty buffers for its nonce, or changes nothing that counts. *)
Lemma StartTransfer_send_effect id h Send i s r s' :
  StartTransfer_send id (Some h) Send i s = (r, s') →
  frame s s' ∨ r = None ∧ t_pending s !! st_Nonce i = None ∧
    frame (set_pending_resp <[st_Nonce i := {| pd_ch := None; pd_rejCh := None |}]> s) s'.
Proof.
  unfold StartTransfer_send. intros Hs.
  destruct (t_completed s !! _); [simplify_eq; left; simpl; eauto with frames|].
  destruct (ValidateTransferProofRequest _); [simplify_eq; by left|].
  destruct (Marshal _) as [x|]; [|simplify_eq; by left].
  destruct (t_pending s !! _) eqn:Hp; [simplify_eq; by left|].
  destruct (send_to Send _ _ x _) as [[e|] s1] eqn:Es; simplify_eq; apply send_frame' in Es.
  - left. destruct Es as [Hl Hp' Hm]. split; [done| |done]. simpl in *. rewrite Hp'.
    by rewrite delete_insert_id.
  - right. split_and!; [done..|]. etrans; [exact Es|]. apply count_frame.
Qed.

(** A call that ends removes its buffers. It asks the ledger for a credit only with a
    buffered proof that verifies under the key of the tracker it asked. *)
Lemma StartTransfer_wake_effect id priv h cap pk Send now w i s r s' :
  StartTransfer_wake id priv (Some h) cap pk Send now w i s = Some (r, s') →
  t_pending s' = delete (st_Nonce i) (t_pending s) ∧
  (∀ q, Minted q ∈ t_out s' ↔ Minted q ∈ t_out s) ∧
  (t_ledger s' = t_ledger s ∨
   ∃ p proof pub m o, t_pending s !! st_Nonce i = Some p ∧ pd_ch p = Some proof ∧
     pk (st_SourceTrackerID i) = Some pub ∧ CanonicalTransferProofPreSig proof = Some m ∧
     ed25519_Verify pub m (tp_SourceTrackerSig proof) = true ∧
     hook_AppendTransferIn h (credit_hook i proof) (t_ledger s) = (o, t_ledger s')).
Proof.
  unfold StartTransfer_wake. destruct (t_pending s !! st_Nonce i) as [p|] eqn:Hp; [|done].
  destruct w as [| |d].
  - destruct (pd_ch p) as [proof|] eqn:Hc; [|done]. simpl.
    destruct (applyProof _ _ _ _ _ _ _ _ _ _) as [r1 s1] eqn:Ea. intros [= <- <-].
    unfold applyProof in Ea.
    destruct (pk _) as [pub|] eqn:Epk; [|simplify_eq; auto].
    destruct (CanonicalTransferProofPreSig proof) as [m|] eqn:Em; [|simplify_eq; auto].
    destruct (ed25519_Verify _ _ _) eqn:Ev; simpl in Ea; [|simplify_eq; auto].
    destruct (hook_AppendTransferIn _ _ _) as [o led] eqn:Eh.
    assert (Hf : frame (set_ledger led s) s1).
    { destruct o as [[]|e].
      - change s1 with (snd (r1, s1)). rewrite <- Ea. apply completeTransfer_frame.
      - destruct (negb _); [by simplify_eq|].
        change s1 with (snd (r1, s1)). rewrite <- Ea.
        etrans; [|apply completeTransfer_frame]. apply count_frame. }
    destruct Hf as [Hl Hp' Hm]. simpl in *. rewrite Hp'. split_and!; [done|done|].
    right. exists p, proof, pub, m, o. rewrite Hl. split_and!; auto.
  - destruct (pd_rejCh p); [|done]. simpl. intros [= <- <-]. auto.
  - intros [= <- <-]. auto.
Qed.
End effects.

(** ** The two-tracker system

    A source and a destination, each with a coordinator and a ledger; frames between them
    are whatever the network delivers. The destination's registry holds the source's key
    alone, so every proof it accepts claims to be the source's. Of Ed25519 is assumed that
    the network cannot deliver a proof whose signature verifies under the source's key
    unless the source signed that preimage ([authentic]). *)

Inductive coord_op (L : Type) :=
| OpRequest (h : LedgerHooks L) (now : Z) (env : Envelope) (from : bytes)
| OpProof (env : Envelope) (from : bytes)
| OpReject (env : Envelope) (from : bytes)
| OpApplied (env : Envelope) (from : bytes)
| OpReversal (env : Envelope) (from : bytes)
| OpStart (h : LedgerHooks L) (i : StartTransferInput)
| OpWake (h : LedgerHooks L) (now : Z) (w : Woken) (i : StartTransferInput).

#[global] Arguments OpRequest {_} _ _ _ _.
#[global] Arguments OpProof {_} _ _.
#[global] Arguments OpReject {_} _ _.
#[global] Arguments OpApplied {_} _ _.
#[global] Arguments OpReversal {_} _ _.
#[global] Arguments OpStart {_} _ _.
#[global] Arguments OpWake {_} _ _ _ _.

Record coord_cfg := {
  cc_id : bytes; cc_priv : bytes; cc_cap : Z; cc_peers : bytes → option bytes
}.

Definition run_coord `{Crypto} `{Wire} `{FedWire} {L} (c : coord_cfg)
    (Send : bytes → Kind → bytes → option FErr) (op : coord_op L) (s : TState L) : TState L :=
  match op with
  | OpRequest h now env from =>
      OnRequest (cc_id c) (cc_priv c) (Some h) (cc_cap c) Send now env from s
  | OpProof env from => OnProof (cc_id c) env from s
  | OpReject env from => OnReject (cc_peers c) env from s
  | OpApplied env from => OnApplied (cc_id c) (cc_peers c) env from s
  | OpReversal env from => OnTransferReversal (cc_peers c) env from s
  | OpStart h i => snd (StartTransfer_send (cc_id c) (Some h) Send i s)
  | OpWake h now w i =>
      from_option snd s
        (StartTransfer_wake (cc_id c) (cc_priv c) (Some h) (cc_cap c) (cc_peers c) Send now w i s)
  end.

(** The ledger of an operation, when it uses one. *)
Definition op_hooks {L} (op : coord_op L) : option (LedgerHooks L) :=
  match op with
  | OpRequest h _ _ _ | OpStart h _ | OpWake h _ _ _ => Some h
  | _ => None
  end.

Definition uses {L} (P : LedgerHooks L → Prop) (op : coord_op L) : Prop :=
  ∀ h, op_hooks op = Some h → P h.

(** The proof buffered for [k]. *)
Definition buffered {L} (s : TState L) (k : bytes) (proof : TransferProof) : Prop :=
  ∃ p, t_pending s !! k = Some p ∧ pd_ch p = Some proof.

(** Buffered proofs are filed under their nonce. *)
Definition filed {L} (s : TState L) : Prop :=
  ∀ k proof, buffered s k proof → copy32 (tp_Nonce proof) = k ∧ is_u64 (tp_Amount proof).

Section effect.
Context `{Crypto} `{Wire} `{FedWireLaws} {L : Type}.
Context (inv : L → Prop) (out inn : L → bytes → Z → Prop).
Implicit Types s : TState L.

(** A call that woke with a proof that verifies under the key of the tracker it asked. *)
Definition accepted (c : coord_cfg) (op : coord_op L) s (k : bytes) (proof : TransferProof) : Prop :=
  ∃ h now w i pub m, op = OpWake h now w i ∧ k = st_Nonce i ∧ buffered s k proof ∧
    cc_peers c (st_SourceTrackerID i) = Some pub ∧ CanonicalTransferProofPreSig proof = Some m ∧
    ed25519_Verify pub m (tp_SourceTrackerSig proof) = true.

(** What an operation of a coordinator does: the ledger's debits stay, a proof is signed for
    a debit on the chain, a buffer is filled by a proof received, and the chain's credits
    grow by what an accepted proof says. *)
Record effect (c : coord_cfg) (op : coord_op L) s s' : Prop := {
  ef_inv : inv (t_ledger s');
  ef_out k a : out (t_ledger s) k a → out (t_ledger s') k a;
  ef_minted q : Minted q ∈ t_out s' →
    Minted q ∈ t_out s ∨ out (t_ledger s') (copy32 (tp_Nonce q)) (tp_Amount q);
  ef_log q : Minted q ∈ t_out s → Minted q ∈ t_out s';
  ef_buffered k proof : buffered s' k proof →
    buffered s k proof ∨
    ∃ env from, op = OpProof env from ∧ Unmarshal (fe_Payload env) = Some proof ∧
                copy32 (tp_Nonce proof) = k;
  ef_inn k a : inn (t_ledger s') k a →
    inn (t_ledger s) k a ∨ ∃ proof, accepted c op s k proof ∧ a = tp_Amount proof
}.

Lemma frame_effect c op s s' : inv (t_ledger s) → frame s s' → effect c op s s'.
Proof.
  intros Hi [Hl Hp Hm]. constructor; rewrite ?Hl; auto.
  - intros q Hq. left. by apply Hm.
  - intros q Hq. by apply Hm.
  - intros k proof (p & Hk & ?). left. exists p. by rewrite <- Hp.
Qed.

Lemma run_coord_effect c Send op s :
  uses (HooksSpec inv out inn) op → inv (t_ledger s) → filed s → effect c op s (run_coord c Send op s).
Proof.
  intros Hh Hi Hf.
  destruct op as [h now env from|env from|env from|env from|env from|h i|h now w i]; cbn [run_coord].
  - destruct (OnRequest_effect (cc_id c) (cc_priv c) h (cc_cap c) Send now env from s)
      as [?|(req & Hu & _ & _ & _ & _ & _ & ->)]; [by apply frame_effect|].
    destruct (mintProof_minting (cc_priv c) (cc_cap c) Send h now req from s) as (r & Hr & Hp & Hm).
    destruct (fl_request_typed _ _ Hu) as [Ha _].
    apply (hs_out _ _ _ _ (Hh h eq_refl)) in Hr as (Hi' & Ho & Hin & Hok); [|done..].
    constructor; try done.
    + intros q [Hq|(o & -> & ->)]%Hm; [by left|right]. by apply Hok.
    + intros q. apply mintProof_log.
    + intros k proof (p & Hk & ?). left. exists p. by rewrite <- Hp.
    + intros k a Hka. left. by apply Hin.
  - destruct (OnProof_effect (cc_id c) env from s)
      as [?|(proof & p & Hu & _ & _ & _ & Hp & _ & Hfr)]; [by apply frame_effect|].
    destruct Hfr as [Hl Hp' Hm]. constructor; rewrite ?Hl; auto.
    + intros q Hq. left. by apply Hm.
    + intros q Hq. by apply Hm.
    + intros k pr (p' & Hk & Hc). rewrite Hp' in Hk. simpl in Hk.
      apply lookup_insert_Some in Hk as [[<- <-]|[_ Hk]]; [right|left; by exists p'].
      simpl in Hc. simplify_eq. eauto.
  - destruct (OnReject_effect (cc_peers c) env from s) as (Hl & Hp & Hm).
    constructor; rewrite ?Hl; auto.
    + intros q Hq. left. by apply Hm.
    + intros q Hq. by apply Hm.
    + intros k proof (p & Hk & Hc). left. specialize (Hp k). rewrite Hk in Hp. simpl in Hp.
      rewrite Hc in Hp. symmetry in Hp. apply bind_Some in Hp as (p' & ? & ?). by exists p'.
  - by apply frame_effect, OnApplied_frame.
  - by apply frame_effect, OnTransferReversal_frame.
  - destruct (StartTransfer_send _ _ _ _ _) as [r s1] eqn:Es. simpl.
    apply StartTransfer_send_effect in Es as [?|(_ & _ & [Hl Hp Hm])]; [by apply frame_effect|].
    constructor; rewrite ?Hl; auto.
    + intros q Hq. left. by apply Hm.
    + intros q Hq. by apply Hm.
    + intros k pr (p' & Hk & Hc). rewrite Hp in Hk. simpl in Hk.
      apply lookup_insert_Some in Hk as [[<- <-]|[_ Hk]]; [done|left; by exists p'].
  - destruct (StartTransfer_wake _ _ _ _ _ _ _ _ _ _) as [[r s1]|] eqn:Ew; simpl;
      [|by apply frame_effect].
    apply StartTransfer_wake_effect in Ew as (Hp & Hm & Hl).
    assert (Hb : ∀ k proof, buffered s1 k proof → buffered s k proof).
    { intros k proof (p & Hk & ?). rewrite Hp in Hk. apply lookup_delete_Some in Hk as [_ ?].
      by exists p. }
    destruct Hl as [Hl|(p & proof & pub & m & o & Hk & Hc & Hpk & Hcm & Hv & Ho)].
    + constructor; rewrite ?Hl; auto; intros q Hq; [left|]; by apply Hm.
    + destruct (Hf (st_Nonce i) proof) as [_ Ha]; [by exists p|].
      apply (hs_in _ _ _ _ (Hh h eq_refl)) in Ho as (Hi' & Hout & Hin); [|done..].
      constructor; auto.
      * intros q Hq. left. by apply Hm.
      * intros q Hq. by apply Hm.
      * intros k a [?|(_ & -> & ->)]%Hin; [by left|right]. exists proof. split; [|done].
        exists h, now, w, i, pub, m. split_and!; try done. by exists p.
Qed.

Lemma effect_filed c op s s' : effect c op s s' → filed s → filed s'.
Proof.
  intros He Hf k proof [?|(env & from & -> & Hu & Hk)]%(ef_buffered _ _ _ _ He); [by apply Hf|].
  split; [done|]. by apply fl_proof_typed in Hu as [? _].
Qed.
End effect.

Section system.
Context `{Crypto} `{Wire} `{FedWireLaws}.
Context {Ls Ld : Type}.
Context (invs : Ls → Prop) (outs inns : Ls → bytes → Z → Prop).
Context (invd : Ld → Prop) (outd innd : Ld → bytes → Z → Prop).
(** The ledger bindings the two trackers run with, and the trackers. *)
Context (hooks_s : LedgerHooks Ls → Prop) (hooks_d : LedgerHooks Ld → Prop).
Context (src dst : coord_cfg).

Record World := { w_src : TState Ls; w_dst : TState Ld }.

Definition authentic (log : list Effect) (p : TransferProof) : Prop :=
  ∀ m, CanonicalTransferProofPreSig p = Some m →
    ed25519_Verify (ed25519_Public (cc_priv src)) m (tp_SourceTrackerSig p) = true →
    ∃ q, Minted q ∈ log ∧ CanonicalTransferProofPreSig q = Some m.

(** What the network can deliver to the destination. *)
Definition deliverable (w : World) (op : coord_op Ld) : Prop :=
  match op with
  | OpProof env _ => ∀ p, Unmarshal (fe_Payload env) = Some p → authentic (t_out (w_src w)) p
  | _ => True
  end.

Inductive sys_step : World → World → Prop :=
| at_source w Send op :
    uses hooks_s op →
    sys_step w {| w_src := run_coord src Send op (w_src w); w_dst := w_dst w |}
| at_destination w Send op :
    uses hooks_d op → deliverable w op →
    sys_step w {| w_src := w_src w; w_dst := run_coord dst Send op (w_dst w) |}
(** The rest of the two trackers uses the ledgers too. *)
| source_ledger w l :
    invs l → (∀ k a, outs (t_ledger (w_src w)) k a → outs l k a) →
    sys_step w {| w_src := set_ledger l (w_src w); w_dst := w_dst w |}
| destination_ledger w l :
    invd l → (∀ k a, innd l k a → innd (t_ledger (w_dst w)) k a) →
    sys_step w {| w_src := w_src w; w_dst := set_ledger l (w_dst w) |}.

Record sys_inv (w : World) : Prop := {
  si_src : invs (t_ledger (w_src w)) ∧ filed (w_src w);
  si_dst : invd (t_ledger (w_dst w)) ∧ filed (w_dst w);
  si_minted q : Minted q ∈ t_out (w_src w) →
    outs (t_ledger (w_src w)) (copy32 (tp_Nonce q)) (tp_Amount q);
  si_pending k proof : buffered (w_dst w) k proof → authentic (t_out (w_src w)) proof;
  si_backed k a : innd (t_ledger (w_dst w)) k a → outs (t_ledger (w_src w)) k a
}.

Lemma authentic_mono log log' p :
  (∀ q, Minted q ∈ log → Minted q ∈ log') → authentic log p → authentic log' p.
Proof. intros Hl Ha m Hc Hv. destruct (Ha m Hc Hv) as (q & Hq & ?). exists q. auto. Qed.

Lemma uses_spec {L} (P : LedgerHooks L → Prop) inv out inn op :
  (∀ h, P h → HooksSpec inv out inn h) → uses P op → uses (HooksSpec inv out inn) op.
Proof. intros HP Hu h Hh. apply HP, Hu, Hh. Qed.

Lemma sys_step_inv w w' :
  (∀ h, hooks_s h → HooksSpec invs outs inns h) →
  (∀ h, hooks_d h → HooksSpec invd outd innd h) →
  (∀ x pub, cc_peers dst x = Some pub → pub = ed25519_Public (cc_priv src)) →
  sys_inv w → sys_step w w' → sys_inv w'.
Proof.
  intros Hss Hsd Hpeers [[Hs Hsf] [Hd Hdf] Hm Hp Hb] Hstep.
  destruct Hstep as [w Send op Hh|w Send op Hh Hdel|w l Hl Ho|w l Hl Hi];
    [apply (uses_spec _ _ _ _ _ Hss) in Hh|apply (uses_spec _ _ _ _ _ Hsd) in Hh|..].
  - destruct (run_coord_effect _ _ _ src Send op _ Hh Hs Hsf) as [Hinv Hout Hmin Hlog Hbuf Hinn].
    constructor; simpl; auto.
    + split; [done|]. eapply effect_filed; [by apply run_coord_effect|done].
    + intros q [Hq|Hq]%Hmin; [|done]. by apply Hout, Hm.
    + intros k proof Hk. eapply authentic_mono; [exact Hlog|by eapply Hp].
  - destruct (run_coord_effect _ _ _ dst Send op _ Hh Hd Hdf) as [Hinv Hout Hmin Hlog Hbuf Hinn].
    constructor; simpl; auto.
    + split; [done|]. eapply effect_filed; [by apply run_coord_effect|done].
    + intros k proof [?|(env & from & -> & Hu & Hk)]%Hbuf; [by eapply Hp|by apply Hdel].
    + intros k a [?|(proof & (h & now & wk & i & pub & m & -> & -> & Hbd & Hpk & Hc & Hv) & ->)]%Hinn;
        [by apply Hb|].
      apply Hpeers in Hpk as ->. destruct (Hp _ _ Hbd m Hc Hv) as (q & Hq & Hcq).
      pose proof (TransferProof_preimage_inj _ _ _ Hc Hcq) as Heq.
      destruct (Hdf _ _ Hbd) as [<- _].
      assert (tp_Nonce proof = tp_Nonce q ∧ tp_Amount proof = tp_Amount q) as [-> ->]
        by (split; [by apply (f_equal tp_Nonce) in Heq|by apply (f_equal tp_Amount) in Heq]).
      by apply Hm.
  - constructor; simpl; auto.
  - constructor; simpl; auto.
Qed.

(** The empty coordinators, at ledgers where the destination's transfers in are backed. *)
Lemma sys_inv_init ls ld :
  invs ls → invd ld → (∀ k a, innd ld k a → outs ls k a) →
  sys_inv {| w_src := newTransferCoordinator ls; w_dst := newTransferCoordinator ld |}.
Proof.
  intros Hs Hd Hn.
  assert (∀ L (l : L), filed (newTransferCoordinator l)) as Hf.
  { intros L l k proof (p & Hk & _). simpl in Hk. by rewrite lookup_empty in Hk. }
  constructor; simpl; auto.
  - intros q Hq. by apply not_elem_of_nil in Hq.
  - intros k proof (p & Hk & _). simpl in Hk. by rewrite lookup_empty in Hk.
Qed.

Lemma sys_reachable_inv w w' :
  (∀ h, hooks_s h → HooksSpec invs outs inns h) →
  (∀ h, hooks_d h → HooksSpec invd outd innd h) →
  (∀ x pub, cc_peers dst x = Some pub → pub = ed25519_Public (cc_priv src)) →
  sys_inv w → rtc sys_step w w' → sys_inv w'.
Proof. intros ? ? Hpeers Hi Hs. induction Hs; eauto using sys_step_inv. Qed.
End system.

(** ** No credit is created across regions *)

Section federation_ledger.
Context `{CryptoLaws} `{Wire} `{ErrorText}.

(** The bindings a tracker runs with: its ledger's adapter, whatever database calls fail and
    whatever else its goroutines append, transfers in apart. *)
Definition adapter_of (key : bytes) (h : LedgerHooks HookState) : Prop :=
  ∃ adm io between, (∀ m st, rtc (quiet_step key) st (between m st)) ∧
    h = ledger_hooks key adm io between.

Lemma adapter_of_spec key h :
  adapter_of key h → HooksSpec (hooks_ok key) debited credited h.
Proof. intros (adm & io & between & Hb & ->). by apply ledger_hooks_spec. Qed.

Lemma row_refs_nodup key k s :
  ledger_ok key s → k = ENTRY_KIND_TRANSFER_IN → NoDup (row_ref <$> filter (λ r, row_kind r = k) (entries s)).
Proof. intros [Hi _] ->. apply (inv_in_refs Hi). Qed.

(** Credits that all have their debit weigh no more than the debits. *)
Lemma backed_sums ks kd ls ld :
  ledger_ok ks ls → ledger_ok kd ld →
  (∀ ref a, has_transfer ENTRY_KIND_TRANSFER_IN ld ref a → has_transfer ENTRY_KIND_TRANSFER_OUT ls ref a) →
  lsum row_cost_credits (filter (λ r, row_kind r = ENTRY_KIND_TRANSFER_IN) (entries ld)) <=
  lsum row_cost_credits (filter (λ r, row_kind r = ENTRY_KIND_TRANSFER_OUT) (entries ls)).
Proof.
  intros [_ Hs] Hd Hb. apply (lsum_matched row_ref).
  - by eapply row_refs_nodup.
  - intros r [_ Hr]%list_elem_of_filter. by eapply (proj1 (Forall_forall _ _) Hs).
  - intros r [Hk Hr]%list_elem_of_filter.
    destruct (Hb (row_ref r) (row_cost_credits r)) as (r' & Hr' & Hk' & Hf & Ha); [by exists r|].
    exists r'. split; [|done]. by apply list_elem_of_filter.
Qed.
End federation_ledger.

Definition transferred_in (s : TState HookState) : Z :=
  lsum row_cost_credits
    (filter (λ r, row_kind r = ENTRY_KIND_TRANSFER_IN) (entries (hs_store (t_ledger s)))).

Definition transferred_out (s : TState HookState) : Z :=
  lsum row_cost_credits
    (filter (λ r, row_kind r = ENTRY_KIND_TRANSFER_OUT) (entries (hs_store (t_ledger s)))).

(** C23: no credit is created by moving it between regions. Take a source and a destination
    tracker, the destination knowing the key of the source alone, with empty coordinators
    and databases of running trackers in which the destination's transfers in are backed.
    Whatever requests, proofs, rejections and confirmations the network then delivers to
    either, in any order and any number of times, however calls of StartTransfer start, wake
    up, fail and are repeated, whichever sends and database calls fail, and whatever else
    the trackers append to their ledgers, every TRANSFER_IN on the destination's chain has
    a TRANSFER_OUT of the same reference and amount on the source's chain, each once, so
    what was credited is at most what was debited. (A signature that verifies under the
    source's key is assumed to be one it made for that preimage.) *)
Theorem transfers_never_mint `{CryptoLaws} `{Wire} `{FedWireLaws} `{ErrorText}
    keyS keyD src dst ls ld w :
  ledger_ok keyS (hs_store ls) → ledger_ok keyD (hs_store ld) →
  (∀ ref a, credited ld ref a → debited ls ref a) →
  (∀ x pub, cc_peers dst x = Some pub → pub = ed25519_Public (cc_priv src)) →
  rtc (sys_step (hooks_ok keyS) debited (hooks_ok keyD) credited
         (adapter_of keyS) (adapter_of keyD) src dst)
    {| w_src := newTransferCoordinator ls; w_dst := newTransferCoordinator ld |} w →
  (∀ ref a, credited (t_ledger (w_dst w)) ref a → debited (t_ledger (w_src w)) ref a) ∧
  transferred_in (w_dst w) <= transferred_out (w_src w).
Proof.
  intros Hs Hd Hb Hp Hsteps.
  apply (sys_reachable_inv (hooks_ok keyS) debited credited (hooks_ok keyD) debited credited)
    in Hsteps as [[Hs' _] [Hd' _] _ _ Hb']; [|apply adapter_of_spec..|done|by apply sys_inv_init].
  split; [exact Hb'|]. by eapply backed_sums.
Qed.

(** ** A transfer, end to end *)

Definition ToyErrorText : ErrorText := {|
  Error e := match e with
             | ErrTransferRefExists => "ledger: transfer ref already on chain"
             | ErrInsufficientBalance => "ledger: insufficient balance"
             | _ => "ledger: error"
             end
|}.

Lemma ToyErrorTextLaws : @ErrorTextLaws ToyErrorText.
Proof. split. intros []; simpl; split; done. Qed.

Definition x_src : coord_cfg := {|
  cc_id := replicate 32 Byte.x01; cc_priv := witness_key Byte.x01; cc_cap := 4096;
  cc_peers _ := Some (replicate 32 Byte.x02) |}.
Definition x_dst : coord_cfg := {|
  cc_id := replicate 32 Byte.x02; cc_priv := witness_key Byte.x02; cc_cap := 4096;
  cc_peers _ := Some (replicate 32 Byte.x01) |}.

(** The request of LedgerSpec's [w_transfer_out], as the destination is given it. *)
Definition x_input : StartTransferInput :=
  let r := w_transfer_out w_state2 in {|
  st_SourceTrackerID := tor_SourceTrackerID r; st_IdentityID := tor_ConsumerID r;
  st_Amount := tor_Amount r; st_Nonce := tor_TransferRef r; st_ConsumerSig := tor_ConsumerSig r;
  st_ConsumerPub := tor_ConsumerPub r; st_Timestamp := tor_Timestamp r |}.

Definition x_send : bytes → Kind → bytes → option FErr := λ _ _ _, None.

Definition x_hooks : LedgerHooks HookState :=
  @ledger_hooks ToyCrypto ToyWire ToyErrorText wkey true no_faults (λ _ s, s).

Definition x_run (c : coord_cfg) (op : coord_op HookState) (s : TState HookState) : TState HookState :=
  @run_coord ToyCrypto ToyWire ToyFedWire HookState c x_send op s.

(** The last frame a coordinator sent, as the envelope it arrives in. *)
Definition last_sent (s : TState HookState) : Envelope :=
  let p := default [] (last (omap (λ e, match e with Sent _ _ p => Some p | _ => None end) (t_out s))) in
  {| fe_SenderId := []; fe_Kind := KIND_PING; fe_Payload := p; fe_SenderSig := [] |}.

Definition x_d0 : TState HookState :=
  newTransferCoordinator {| hs_store := empty_store; hs_events := [] |}.
Definition x_s0 : TState HookState :=
  newTransferCoordinator {| hs_store := w_state2; hs_events := [] |}.
Definition x_d1 := x_run x_dst (OpStart x_hooks x_input) x_d0.
Definition x_s1 := x_run x_src (OpRequest x_hooks (1714000300 * Second) (last_sent x_d1) (cc_id x_dst)) x_s0.
Definition x_d2 := x_run x_dst (OpProof (last_sent x_s1) (cc_id x_src)) x_d1.
Definition x_d3 := x_run x_dst (OpWake x_hooks (1714000301 * Second) WokeProof x_input) x_d2.

Example transfer_end_to_end :
  transferred_out x_s1 = 40 ∧ transferred_in x_d3 = 40 ∧
  credits (hs_store (t_ledger x_d3)) (st_IdentityID x_input) = 40 ∧
  omap (λ e, match e with Count n => Some n | _ => None end) (t_out x_d3) =
    ["transfer_request_sent"; "transfer_proof_delivered"; "transfer_completed"].
Proof. vm_compute. auto. Qed.

Lemma x_adapter : adapter_of (H := ToyCrypto) (H1 := ToyWire) (H2 := ToyErrorText) wkey x_hooks.
Proof. exists true, no_faults, (λ _ s, s). split; [intros m st; reflexivity|done]. Qed.

Lemma x_uses op : op_hooks op = Some x_hooks ∨ op_hooks op = None →
  uses (adapter_of (H := ToyCrypto) (H1 := ToyWire) (H2 := ToyErrorText) wkey) op.
Proof. intros Ho h Hh. rewrite Hh in Ho. destruct Ho as [[= ->]|?]; [apply x_adapter|done]. Qed.

Definition minted_of (s : TState HookState) : list TransferProof :=
  omap (λ e, match e with Minted q => Some q | _ => None end) (t_out s).

Lemma minted_of_elem q s : q ∈ minted_of s → Minted q ∈ t_out s.
Proof. intros ([] & Hin & Hq)%list_elem_of_omap; by simplify_eq. Qed.

Lemma fmap_single {A B} (f : A → B) x y : f <$> [x] = [y] → f x = y.
Proof. by intros [= ->]. Qed.

(** The proof that reaches the destination is the one the source signed. *)
Lemma x_authentic p :
  @Unmarshal _ (@fw_TransferProof ToyFedWire) (fe_Payload (last_sent x_s1)) = Some p →
  @authentic ToyCrypto ToyFedWire x_src (t_out x_s1) p.
Proof.
  intros Hu m Hm _.
  assert (Hc : @clear_TransferProof <$> minted_of x_s1 =
    (λ q, [@clear_TransferProof q]) (default (request_proof (start_request [] x_input)
      {| ho_ChainTipHash := []; ho_Seq := 0 |} [])
      (@Unmarshal _ (@fw_TransferProof ToyFedWire) (fe_Payload (last_sent x_s1))))).
  { vm_compute. reflexivity. }
  rewrite Hu in Hc. simpl in Hc.
  destruct (minted_of x_s1) as [|q [|]] eqn:Eq; [done| |done].
  assert (clear_TransferProof q = clear_TransferProof p) as Hq
    by exact (fmap_single _ _ _ Hc).
  exists q. split; [apply minted_of_elem; rewrite Eq; apply list_elem_of_here|].
  unfold CanonicalTransferProofPreSig in *. by rewrite Hq.
Qed.

(** The four steps of the transfer, as steps of the two-tracker system. *)
Abbreviation x_step :=
  (@sys_step ToyCrypto ToyWire ToyFedWire HookState HookState (@hooks_ok ToyCrypto ToyWire wkey)
     debited (@hooks_ok ToyCrypto ToyWire wkey) credited
     (@adapter_of ToyCrypto ToyWire ToyErrorText wkey)
     (@adapter_of ToyCrypto ToyWire ToyErrorText wkey) x_src x_dst).

Lemma x_at_destination s d op :
  op_hooks op = Some x_hooks ∨ op_hooks op = None →
  @deliverable ToyCrypto ToyFedWire HookState HookState x_src {| w_src := s; w_dst := d |} op →
  x_step {| w_src := s; w_dst := d |} {| w_src := s; w_dst := x_run x_dst op d |}.
Proof.
  intros Ho Hd. unfold x_run.
  apply (at_destination _ _ _ _ _ _ _ _ {| w_src := s; w_dst := d |} x_send op); [by apply x_uses|done].
Qed.

Lemma x_at_source s d op :
  op_hooks op = Some x_hooks ∨ op_hooks op = None →
  x_step {| w_src := s; w_dst := d |} {| w_src := x_run x_src op s; w_dst := d |}.
Proof.
  intros Ho. unfold x_run.
  apply (at_source _ _ _ _ _ _ _ _ {| w_src := s; w_dst := d |} x_send op). by apply x_uses.
Qed.

Lemma x_steps : rtc x_step {| w_src := x_s0; w_dst := x_d0 |} {| w_src := x_s1; w_dst := x_d3 |}.
Proof.
  apply rtc_l with {| w_src := x_s0; w_dst := x_d1 |}; [apply x_at_destination; [by left|done]|].
  apply rtc_l with {| w_src := x_s1; w_dst := x_d1 |}; [apply x_at_source; by left|].
  apply rtc_l with {| w_src := x_s1; w_dst := x_d2 |};
    [apply x_at_destination; [by right|exact x_authentic]|].
  apply rtc_once. apply x_at_destination; [by left|done].
Qed.

Lemma transfers_never_mint_witness :
  transferred_in x_d3 <= transferred_out x_s1 ∧ transferred_in x_d3 = 40.
Proof.
  split; [|vm_compute; reflexivity].
  apply (@transfers_never_mint ToyCrypto ToyCryptoLaws ToyWire ToyFedWire ToyFedWireLaws
    ToyErrorText wkey wkey x_src x_dst (t_ledger x_s0) (t_ledger x_d0)
    {| w_src := x_s1; w_dst := x_d3 |}).
  - apply (@reachable_ledger_ok ToyCrypto ToyCryptoLaws ToyWire), w_state2_reachable.
  - apply (@reachable_ledger_ok ToyCrypto ToyCryptoLaws ToyWire). apply rtc_refl.
  - intros ref a (r & Hr & _). by apply not_elem_of_nil in Hr.
  - intros x pub [= <-]. vm_compute. reflexivity.
  - exact x_steps.
Defined.

(** ** A transfer that nothing disturbs completes *)

Section completion.
Context `{CryptoLaws} `{Wire} `{FedWireLaws} {Ls Ld : Type}.
Context (src dst : coord_cfg) (hS : LedgerHooks Ls) (hD : LedgerHooks Ld).
Context (i : StartTransferInput).

Abbreviation up := (λ (_ : bytes) (_ : Kind) (_ : bytes), @None FErr).
Abbreviation req := (start_request (cc_id dst) i).

Definition output_of (proof : TransferProof) : StartTransferOutput := {|
  so_SourceChainTipHash := copy32 (tp_SourceChainTipHash proof);
  so_SourceSeq := tp_SourceSeq proof; so_SourceTrackerSig := tp_SourceTrackerSig proof |}.

Lemma request_fields m :
  ValidateTransferProofRequest (Some m) = None →
  length (tpr_Nonce m) = 32%nat ∧ length (tpr_SourceTrackerId m) = 32%nat ∧
  length (tpr_DestTrackerId m) = 32%nat ∧ length (tpr_IdentityId m) = 32%nat ∧
  tpr_Amount m ≠ 0 ∧ tpr_Timestamp m ≠ 0 ∧ tpr_SourceTrackerId m ≠ tpr_DestTrackerId m.
Proof.
  unfold ValidateTransferProofRequest, TrackerIDLen, NonceLen, blen. intros Hv.
  repeat (case_match; [discriminate|]). bool_to_prop. split_and!; try lia. done.
Qed.

Lemma request_proof_valid m out sig :
  ValidateTransferProofRequest (Some m) = None → length (ho_ChainTipHash out) = 32%nat →
  length sig = 64%nat → ValidateTransferProof (Some (request_proof m out sig)) = None.
Proof.
  intros (Hn & Hs & Hd & Hi & Ha & Ht & Hne)%request_fields Ho Hl.
  unfold ValidateTransferProof, TrackerIDLen, NonceLen, RootLen, SigLen, blen. simpl.
  rewrite Hn, Hs, Hd, Hi, Ho, Hl. simpl.
  rewrite (bool_decide_eq_false_2 _ Hne).
  assert ((tpr_Amount m =? 0) = false) as -> by lia.
  by assert ((tpr_Timestamp m =? 0) = false) as -> by lia.
Qed.

(** The start of a call whose nonce is fresh. *)
Lemma StartTransfer_send_sends (d : TState Ld) x :
  ValidateTransferProofRequest (Some req) = None → Marshal req = Some x →
  t_completed d !! st_Nonce i = None → t_pending d !! st_Nonce i = None →
  let s1 := set_pending_resp <[st_Nonce i := {| pd_ch := None; pd_rejCh := None |}]> d in
  StartTransfer_send (cc_id dst) (Some hD) up i d =
    (None, count "transfer_request_sent"
             (emit_effect (Sent (st_SourceTrackerID i) KIND_TRANSFER_PROOF_REQUEST x) s1)).
Proof. intros Hv Hm Hc Hp. unfold StartTransfer_send. by rewrite Hc, Hv, Hm, Hp. Qed.

(** A request the source has not seen and its ledger accepts. *)
Lemma OnRequest_mints now env (s : TState Ls) c out ls cb px :
  Unmarshal (fe_Payload env) = Some req →
  ValidateTransferProofRequest (Some req) = None → st_SourceTrackerID i = cc_id src →
  CanonicalTransferProofRequestPreSig (Some req) = Ok c →
  ed25519_Verify (st_ConsumerPub i) c (st_ConsumerSig i) = true →
  t_issued s !! st_Nonce i = None →
  hook_AppendTransferOut hS (request_hook req) (t_ledger s) = (Ok out, ls) →
  CanonicalTransferProofPreSig (request_proof req out []) = Some cb →
  Marshal (request_proof req out (ed25519_Sign (cc_priv src) cb)) = Some px →
  let s1 := OnRequest (cc_id src) (cc_priv src) (Some hS) (cc_cap src) up now env (cc_id dst) s in
  t_ledger s1 = ls ∧ Sent (cc_id dst) KIND_TRANSFER_PROOF px ∈ t_out s1 ∧
  ip_payload <$> (t_issued s1 !! st_Nonce i) = Some px.
Proof.
  intros Hu Hv Hsrc Hc He Hi Ho Hcb Hpx s1.
  destruct (request_fields _ Hv) as (Hn & _). simpl in Hn. subst s1. unfold OnRequest.
  rewrite Hu, Hv. cbn [start_request tpr_SourceTrackerId tpr_DestTrackerId].
  rewrite (proj2 (equalID_spec _ _) Hsrc), (proj2 (equalID_spec _ _) eq_refl).
  simpl negb. cbv iota. rewrite Hc. cbn [start_request tpr_ConsumerPub tpr_ConsumerSig tpr_Nonce].
  rewrite He, copy32_id, Hi by done. simpl negb. cbv iota.
  unfold mintProof. rewrite Ho, Hcb, Hpx.
  unfold send_to, cacheIssuedLocked. cbn -[copy32 evict_oldest]. rewrite copy32_id by done.
  rewrite lookup_insert_eq, !elem_of_app, list_elem_of_singleton.
  split_and!; [done|left; right; apply list_elem_of_here|done].
Qed.

(** A proof for a waiting call is put into its buffer. *)
Lemma OnProof_delivers proof env (d : TState Ld) p px :
  Marshal proof = Some px → fe_Payload env = px →
  ValidateTransferProof (Some proof) = None → tp_DestTrackerId proof = cc_id dst →
  tp_SourceTrackerId proof = cc_id src →
  t_pending d !! copy32 (tp_Nonce proof) = Some p → pd_ch p = None →
  OnProof (cc_id dst) env (cc_id src) d =
    count "transfer_proof_delivered"
      (set_pending_resp <[copy32 (tp_Nonce proof) :=
         {| pd_ch := Some proof; pd_rejCh := pd_rejCh p |}]> d).
Proof.
  intros Hm He Hv Hd Hs Hp Hc. unfold OnProof.
  rewrite He, (Unmarshal_Marshal _ _ Hm), Hv, Hd, Hs, (proj2 (equalID_spec _ _) eq_refl).
  rewrite (proj2 (equalID_spec _ _) eq_refl). simpl negb. cbv iota. by rewrite Hp, Hc.
Qed.

(** A waiting call with a proof that verifies and a ledger that takes the credit. *)
Lemma wake_with_proof proof cb pub (d : TState Ld) ld now :
  buffered d (st_Nonce i) proof → cc_peers dst (st_SourceTrackerID i) = Some pub →
  CanonicalTransferProofPreSig proof = Some cb →
  ed25519_Verify pub cb (tp_SourceTrackerSig proof) = true →
  hook_AppendTransferIn hD (credit_hook i proof) (t_ledger d) = (Ok tt, ld) →
  ∃ d', StartTransfer_wake (cc_id dst) (cc_priv dst) (Some hD) (cc_cap dst) (cc_peers dst) up now
          WokeProof i d = Some (Ok (output_of proof), d') ∧
    t_ledger d' = ld ∧ t_pending d' = delete (st_Nonce i) (t_pending d) ∧
    ct_out <$> t_completed d' !! st_Nonce i = Some (output_of proof).
Proof.
  intros (p & Hp & Hc) Hpk Hcb Hv Hin. unfold StartTransfer_wake. rewrite Hp, Hc. simpl.
  unfold applyProof. rewrite Hpk, Hcb, Hv, Hin. simpl negb. cbv iota.
  unfold completeTransfer. cbn [fst snd].
  destruct (sendApplied_frame (cc_id dst) (cc_priv dst) up now i (set_ledger ld d)) as [Hl Hpd _].
  eexists. split; [reflexivity|]. simpl. simpl in Hl, Hpd.
  rewrite Hl, Hpd, lookup_insert_eq. done.
Qed.

(** C27: a transfer completes. Suppose the two trackers know each other's keys, the frames go
    through, the nonce is new to both, the consumer's signature is good, and each ledger
    accepts its half. Then the destination's call sends its request and waits; the source,
    given that request, debits once and sends a signed proof, which it keeps for a replay;
    the destination, given the proof, wakes up with success: its ledger is asked to credit
    the identity the source was asked to debit with the same amount under the same
    reference, the result names the source's debit, the call is no longer pending, and a
    repeated call returns the same result and leaves both ledgers alone. *)
Theorem transfer_completes now1 now2 (s : TState Ls) (d : TState Ld) env1 env2 x c out ls cb px ld :
  let proof := request_proof req out (ed25519_Sign (cc_priv src) cb) in
  ValidateTransferProofRequest (Some req) = None → st_SourceTrackerID i = cc_id src →
  length (cc_priv src) = 64%nat →
  cc_peers dst (cc_id src) = Some (ed25519_Public (cc_priv src)) →
  t_completed d !! st_Nonce i = None → t_pending d !! st_Nonce i = None →
  t_issued s !! st_Nonce i = None →
  Marshal req = Some x → fe_Payload env1 = x →
  CanonicalTransferProofRequestPreSig (Some req) = Ok c →
  ed25519_Verify (st_ConsumerPub i) c (st_ConsumerSig i) = true →
  hook_AppendTransferOut hS (request_hook req) (t_ledger s) = (Ok out, ls) →
  length (ho_ChainTipHash out) = 32%nat →
  CanonicalTransferProofPreSig (request_proof req out []) = Some cb →
  Marshal proof = Some px → fe_Payload env2 = px →
  hook_AppendTransferIn hD {| hi_IdentityID := ho_IdentityID (request_hook req);
      hi_Amount := ho_Amount (request_hook req); hi_Timestamp := ho_Timestamp (request_hook req);
      hi_TransferRef := ho_TransferRef (request_hook req) |} (t_ledger d) = (Ok tt, ld) →
  ∃ d1 d3,
    StartTransfer_send (cc_id dst) (Some hD) up i d = (None, d1) ∧
    Sent (cc_id src) KIND_TRANSFER_PROOF_REQUEST x ∈ t_out d1 ∧
    (let s1 := OnRequest (cc_id src) (cc_priv src) (Some hS) (cc_cap src) up now1 env1 (cc_id dst) s in
     t_ledger s1 = ls ∧ Sent (cc_id dst) KIND_TRANSFER_PROOF px ∈ t_out s1 ∧
     ip_payload <$> (t_issued s1 !! st_Nonce i) = Some px) ∧
    StartTransfer_wake (cc_id dst) (cc_priv dst) (Some hD) (cc_cap dst) (cc_peers dst) up now2
      WokeProof i (OnProof (cc_id dst) env2 (cc_id src) d1) = Some (Ok (output_of proof), d3) ∧
    t_ledger d3 = ld ∧ t_pending d3 !! st_Nonce i = None ∧
    fst (StartTransfer_send (cc_id dst) (Some hD) up i d3) = Some (Ok (output_of proof)) ∧
    t_ledger (snd (StartTransfer_send (cc_id dst) (Some hD) up i d3)) = ld.
Proof.
  intros proof Hv Hsrc Hk Hpk Hc0 Hp0 Hi0 Hx He1 Hc Hver Ho Hol Hcb Hpx He2 Hin.
  destruct (request_fields _ Hv) as (Hn & _ & _ & Hid & _).
  cbn [start_request tpr_Nonce tpr_IdentityId] in Hn, Hid.
  assert (Hvp : ValidateTransferProof (Some proof) = None)
    by (apply request_proof_valid; [done..|by apply Sign_length]).
  pose proof (StartTransfer_send_sends d x Hv Hx Hc0 Hp0) as Hsend. cbv zeta in Hsend.
  set (d1 := count "transfer_request_sent" _) in Hsend.
  assert (Hb : t_pending d1 !! copy32 (tp_Nonce proof) = Some {| pd_ch := None; pd_rejCh := None |}).
  { cbn [proof request_proof tp_Nonce start_request tpr_Nonce]. rewrite copy32_id by done.
    apply lookup_insert_eq. }
  pose proof (OnProof_delivers proof env2 d1 _ px Hpx He2 Hvp eq_refl Hsrc Hb eq_refl) as Hdel.
  set (d2 := count "transfer_proof_delivered" _) in Hdel.
  destruct (wake_with_proof proof cb (ed25519_Public (cc_priv src)) d2 ld now2)
    as (d3 & Hw & Hl & Hp & Hcomp).
  { exists {| pd_ch := Some proof; pd_rejCh := None |}. split; [|done].
    cbn -[copy32]. rewrite copy32_id by done. apply lookup_insert_eq. }
  { by rewrite Hsrc. }
  { done. }
  { by apply Verify_Sign. }
  { rewrite <- Hin. cbn -[copy32]. by rewrite !copy32_id by done. }
  exists d1, d3. rewrite Hsend, Hdel. split_and!.
  - done.
  - rewrite <- Hsrc. apply elem_of_app. left. apply elem_of_app. right. apply list_elem_of_here.
  - eapply OnRequest_mints; try done. rewrite He1. by apply Unmarshal_Marshal.
  - done.
  - done.
  - by rewrite Hp, lookup_delete_eq.
  - unfold StartTransfer_send. destruct (t_completed d3 !! st_Nonce i); [|done].
    cbn in Hcomp |- *. congruence.
  - unfold StartTransfer_send. by destruct (t_completed d3 !! st_Nonce i).
Qed.
End completion.

Lemma ok_pair {E A S} (p : res E A * S) (a0 : A) :
  is_ok (fst p) = true → p = (Ok (match fst p with Ok a => a | Err _ => a0 end), snd p).
Proof. by destruct p as [[]]. Qed.

Lemma transfer_completes_witness :
  ∃ d1 d3 o,
    @StartTransfer_send ToyFedWire HookState (cc_id x_dst) (Some x_hooks) x_send x_input x_d0 = (None, d1) ∧
    fst (@StartTransfer_send ToyFedWire HookState (cc_id x_dst) (Some x_hooks) x_send x_input d3) = Some (Ok o).
Proof.
  set (req := start_request (cc_id x_dst) x_input).
  set (po := hook_AppendTransferOut x_hooks (request_hook req) (t_ledger x_s0)).
  set (out := match fst po with Ok a => a | Err _ => {| ho_ChainTipHash := []; ho_Seq := 0 |} end).
  set (cb := default [] (@CanonicalTransferProofPreSig ToyFedWire (request_proof req out []))).
  set (proof := request_proof req out (@ed25519_Sign ToyCrypto (cc_priv x_src) cb)).
  set (env x := {| fe_SenderId := []; fe_Kind := KIND_PING; fe_Payload := x; fe_SenderSig := [] |}).
  destruct (@transfer_completes ToyCrypto ToyCryptoLaws ToyWire ToyFedWire ToyFedWireLaws HookState HookState
    x_src x_dst x_hooks x_hooks x_input 0 0 x_s0 x_d0
    (env (default [] (@Marshal _ (@fw_TransferProofRequest ToyFedWire) req)))
    (env (default [] (@Marshal _ (@fw_TransferProof ToyFedWire) proof)))
    (default [] (@Marshal _ (@fw_TransferProofRequest ToyFedWire) req))
    (match @CanonicalTransferProofRequestPreSig ToyWire (Some req) with Ok c => c | Err _ => [] end)
    out (snd po) cb (default [] (@Marshal _ (@fw_TransferProof ToyFedWire) proof))
    (snd (hook_AppendTransferIn x_hooks {| hi_IdentityID := ho_IdentityID (request_hook req);
      hi_Amount := ho_Amount (request_hook req); hi_Timestamp := ho_Timestamp (request_hook req);
      hi_TransferRef := ho_TransferRef (request_hook req) |} (t_ledger x_d0))))
    as (d1 & d3 & H1 & _ & _ & _ & _ & _ & H2 & _);
    try (lazymatch goal with |- _ = (Ok _, _) => fail | |- _ = _ => vm_compute; reflexivity end).
  - apply ok_pair. vm_compute. reflexivity.
  - etrans; [apply (ok_pair _ tt); vm_compute; reflexivity|].
    by destruct (fst (hook_AppendTransferIn _ _ _)) as [[]|].
  - exists d1, d3. eexists. split; [exact H1|exact H2].
Defined.

(** ** How a waiting call ends *)

Lemma sendApplied_completed `{Crypto} `{FedWire} {L} id priv Send now i (s : TState L) :
  t_completed (sendApplied id priv Send now i s) = t_completed s.
Proof. unfold sendApplied, send_to. by repeat case_match. Qed.

(** How a waiting call ends. Whatever it wakes up on, it is no longer pending. It succeeds
    only with a proof that was received for its nonce and whose signature verifies under the
    key of the tracker it asked; then the ledger was asked once to credit the caller's
    identity with the proof's amount under the call's nonce, and either took the credit or
    already had that reference, and the result is cached. (Neither the identity nor the
    amount the proof names is compared with the call's.) Otherwise the call fails, nothing
    is cached, and unless the ledger itself refused the credit it was not asked. *)
Lemma StartTransfer_wake_outcomes `{Crypto} `{Wire} `{FedWire} {L} id priv (h : LedgerHooks L) cap pk
    Send now w i s r s' :
  StartTransfer_wake id priv (Some h) cap pk Send now w i s = Some (r, s') →
  t_pending s' = delete (st_Nonce i) (t_pending s) ∧
  match r with
  | Ok o =>
      ∃ proof pub m ro, w = WokeProof ∧ buffered s (st_Nonce i) proof ∧
        pk (st_SourceTrackerID i) = Some pub ∧ CanonicalTransferProofPreSig proof = Some m ∧
        ed25519_Verify pub m (tp_SourceTrackerSig proof) = true ∧ o = output_of proof ∧
        ct_out <$> t_completed s' !! st_Nonce i = Some o ∧
        hook_AppendTransferIn h {| hi_IdentityID := st_IdentityID i; hi_Amount := tp_Amount proof;
            hi_Timestamp := tp_Timestamp proof; hi_TransferRef := st_Nonce i |} (t_ledger s)
          = (ro, t_ledger s') ∧
        (is_ok ro = true ∨ ro = Err "ledger: transfer ref already on chain")
  | Err e =>
      t_completed s' = t_completed s ∧
      (t_ledger s' = t_ledger s ∨
       ∃ i' e', hook_AppendTransferIn h i' (t_ledger s) = (Err e', t_ledger s') ∧
         e' ≠ "ledger: transfer ref already on chain")
  end.
Proof.
  unfold StartTransfer_wake. destruct (t_pending s !! st_Nonce i) as [p|] eqn:Hp; [|done].
  destruct w as [| |dl]; [|destruct (pd_rejCh p); [|done]; simpl; intros [= <- <-]; auto|
                           intros [= <- <-]; auto].
  destruct (pd_ch p) as [proof|] eqn:Hc; [|done]. simpl.
  destruct (applyProof _ _ _ _ _ _ _ _ _ _) as [r1 s1] eqn:Ea. intros [= <- <-].
  unfold applyProof in Ea.
  destruct (pk _) as [pub|] eqn:Epk; [|simplify_eq; auto].
  destruct (CanonicalTransferProofPreSig proof) as [m|] eqn:Em; [|simplify_eq; auto].
  destruct (ed25519_Verify _ _ _) eqn:Ev; simpl in Ea; [|simplify_eq; auto].
  destruct (hook_AppendTransferIn _ _ _) as [o led] eqn:Eh.
  assert (Hdone : ∀ s2, t_ledger s2 = led → t_pending s2 = t_pending s →
    completeTransfer id priv cap Send now i proof s2 = (r1, s1) →
    t_pending (unpend i s1) = delete (st_Nonce i) (t_pending s) ∧ r1 = Ok (output_of proof) ∧
    ct_out <$> t_completed (unpend i s1) !! st_Nonce i = Some (output_of proof) ∧
    t_ledger (unpend i s1) = led).
  { intros s2 Hl2 Hp2 Hct. unfold completeTransfer in Hct. injection Hct as <- <-.
    destruct (sendApplied_frame id priv Send now i s2) as [Hl Hpd _].
    simpl. by rewrite Hl, Hpd, lookup_insert_eq, Hp2. }
  destruct o as [[]|e].
  - destruct (Hdone (set_ledger led s) eq_refl eq_refl Ea) as (Hpd & -> & Hct & Hl). split; [done|].
    exists proof, pub, m, (Ok tt). rewrite Hl. split_and!; auto. by exists p.
  - unfold isLedgerTransferRefExists in Ea. case_bool_decide as He; simpl in Ea.
    + destruct (Hdone (count _ (set_ledger led s)) eq_refl eq_refl Ea) as (Hpd & -> & Hct & Hl).
      split; [done|]. exists proof, pub, m, (Err e). rewrite Hl. split_and!; auto.
      * by exists p.
      * right. by rewrite He.
    + simplify_eq. simpl. split; [done|]. split; [done|]. right. eauto.
Qed.

Lemma StartTransfer_wake_outcomes_witness :
  t_pending x_d3 !! st_Nonce x_input = None.
Proof.
  destruct (@StartTransfer_wake ToyCrypto ToyFedWire HookState (cc_id x_dst) (cc_priv x_dst) (Some x_hooks)
    (cc_cap x_dst) (cc_peers x_dst) x_send (1714000301 * Second) WokeProof x_input x_d2)
    as [[r s']|] eqn:E.
  - destruct (@StartTransfer_wake_outcomes ToyCrypto ToyWire ToyFedWire HookState _ _ _ _ _ _ _ _ _ _ _ _ E)
      as [Hp _].
    assert (x_d3 = s') as ->.
    { unfold x_d3, x_run, run_coord. by rewrite E. }
    rewrite Hp. apply lookup_delete_eq.
  - exfalso. assert (bool_decide (is_Some (pd_ch <$> t_pending x_d2 !! st_Nonce x_input)) = true) as Hb
      by (vm_compute; reflexivity).
    apply (f_equal (λ o, match o with Some _ => true | None => false end)) in E.
    vm_compute in E. discriminate E.
Defined.
