(* ===== verification/Gossip.v ===== *)
(** tracker/internal/federation: what a peer's frames pass before they are handled, and
    what is remembered of peers: the TTL-bounded set of seen messages (dedupe.go), the rate
    limiter (ratelimit.go), the peer registry (registry.go) and peer health (health.go).

    Times are read once per call. [list.List] is a list, front first; the map from an id to
    its element is the set [dd_idx] of the ids that have one. *)
From S2P Require Import Prelude Proto Float Signing FedProto.
From Stdlib Require Import Floats.SpecFloat.

(** ** The seen set *)

Record dedupeEntry := { de_id : bytes; de_expiry : Z }.

Record Dedupe := {
  dd_ttl : Z; dd_cap : Z; dd_order : list dedupeEntry; dd_idx : gset bytes
}.

Definition with_order (l : list dedupeEntry) (x : gset bytes) (d : Dedupe) : Dedupe :=
  {| dd_ttl := dd_ttl d; dd_cap := dd_cap d; dd_order := l; dd_idx := x |}.

Definition NewDedupe (ttl capacity : Z) : Dedupe := {|
  dd_ttl := ttl; dd_cap := if capacity <=? 0 then 1024 else capacity; dd_order := []; dd_idx := ∅ |}.

(** The loop of [evictExpiredLocked], on the list oldest first. *)
Fixpoint evict_expired (now : Z) (l : list dedupeEntry) (x : gset bytes)
    : list dedupeEntry * gset bytes :=
  match l with
  | [] => ([], x)
  | e :: l' => if now <? de_expiry e then (l, x) else evict_expired now l' (x ∖ {[de_id e]})
  end.

Definition evictExpiredLocked (now : Z) (d : Dedupe) : Dedupe :=
  let '(l, x) := evict_expired now (rev (dd_order d)) (dd_idx d) in with_order (rev l) x d.

(** The loop of [Mark] that makes room, on the list oldest first. *)
Fixpoint evict_to (cap : Z) (l : list dedupeEntry) (x : gset bytes)
    : list dedupeEntry * gset bytes :=
  match l with
  | [] => ([], x)
  | e :: l' => if cap <=? blen l then evict_to cap l' (x ∖ {[de_id e]}) else (l, x)
  end.

(** The list without the element of [id]. *)
Definition drop_id (id : bytes) (l : list dedupeEntry) : list dedupeEntry :=
  filter (λ e, de_id e ≠ id) l.

Definition Mark (now : Z) (id : bytes) (d : Dedupe) : Dedupe :=
  let d := evictExpiredLocked now d in
  let e := {| de_id := id; de_expiry := now + dd_ttl d |} in
  if decide (id ∈ dd_idx d) then with_order (e :: drop_id id (dd_order d)) (dd_idx d) d
  else
    let '(l, x) := evict_to (dd_cap d) (rev (dd_order d)) (dd_idx d) in
    with_order (e :: rev l) ({[id]} ∪ x) d.

Definition Seen (now : Z) (id : bytes) (d : Dedupe) : bool * Dedupe :=
  let d := evictExpiredLocked now d in
  if decide (id ∈ dd_idx d) then
    match List.find (λ e, bool_decide (de_id e = id)) (dd_order d) with
    | Some e =>
        if negb (now <? de_expiry e)
        then (false, with_order (drop_id id (dd_order d)) (dd_idx d ∖ {[id]}) d)
        else (true, d)
    | None => (false, d)
    end
  else (false, d).

(** [Size] *)
Definition Dedupe_Size (now : Z) (d : Dedupe) : Z * Dedupe :=
  let d := evictExpiredLocked now d in (blen (dd_order d), d).

(** ** The rate limiter *)

Record RateBucket := { rb_Rate : spec_float; rb_Burst : Z }.

Record RateLimitConfig := {
  rl_RootAttestation : RateBucket; rl_Revocation : RateBucket; rl_PeerExchange : RateBucket;
  rl_EquivocationEvidence : RateBucket; rl_Transfer : RateBucket
}.

Record tokenBucket := {
  tb_tokens : spec_float; tb_last : Z; tb_rate : spec_float; tb_cap : spec_float
}.

(** [sync.Map] keyed by peer and kind. *)
Record gossipLimiter := {
  gl_cfg : RateLimitConfig; gl_buckets : list ((bytes * Kind) * tokenBucket)
}.

Definition newGossipLimiter (cfg : RateLimitConfig) : gossipLimiter :=
  {| gl_cfg := cfg; gl_buckets := [] |}.

Definition bucketCfg (cfg : RateLimitConfig) (k : Kind) : option RateBucket :=
  match k with
  | KIND_ROOT_ATTESTATION => Some (rl_RootAttestation cfg)
  | KIND_REVOCATION => Some (rl_Revocation cfg)
  | KIND_PEER_EXCHANGE => Some (rl_PeerExchange cfg)
  | KIND_EQUIVOCATION_EVIDENCE => Some (rl_EquivocationEvidence cfg)
  | KIND_TRANSFER_PROOF_REQUEST | KIND_TRANSFER_PROOF | KIND_TRANSFER_APPLIED =>
      Some (rl_Transfer cfg)
  | _ => None
  end.

(** The refill and the spending of one token. *)
Definition take_token (now : Z) (tb : tokenBucket) : bool * tokenBucket :=
  let elapsed := Seconds (time_Sub now (tb_last tb)) in
  let t := f64_add (tb_tokens tb) (f64_mul elapsed (tb_rate tb)) in
  let t := if SFltb (tb_cap tb) t then tb_cap tb else t in
  let ok := negb (SFltb t f64_one) in
  (ok, {| tb_tokens := if ok then f64_sub t f64_one else t; tb_last := now;
          tb_rate := tb_rate tb; tb_cap := tb_cap tb |}).

Definition limiter_get (k : bytes * Kind) (g : gossipLimiter) : option tokenBucket :=
  snd <$> List.find (λ kv, bool_decide (kv.1 = k)) (gl_buckets g).

Definition limiter_put (k : bytes * Kind) (tb : tokenBucket) (g : gossipLimiter) : gossipLimiter :=
  {| gl_cfg := gl_cfg g;
     gl_buckets := (k, tb) :: filter (λ kv, kv.1 ≠ k) (gl_buckets g) |}.

Definition Allow (now : Z) (peer : bytes) (kind : Kind) (g : gossipLimiter) : bool * gossipLimiter :=
  match bucketCfg (gl_cfg g) kind with
  | None => (true, g)
  | Some cfg =>
    if SFleb (rb_Rate cfg) (f64_of_int 0) then (true, g) else
    let tb := default {| tb_tokens := f64_of_int (rb_Burst cfg); tb_last := now;
                         tb_rate := rb_Rate cfg; tb_cap := f64_of_int (rb_Burst cfg) |}
                      (limiter_get (peer, kind) g) in
    let '(ok, tb) := take_token now tb in
    (ok, limiter_put (peer, kind) tb g)
  end.

(** ** The peer registry *)

Inductive DepeerReason :=
| ReasonOperator | ReasonEquivocation | ReasonHandshakeFailed | ReasonInvalidSignature
| ReasonDisconnected | ReasonLowHealth | ReasonLocalChainCorrupt.

Definition DepeerReason_String (r : DepeerReason) : string :=
  match r with
  | ReasonOperator => "operator" | ReasonEquivocation => "equivocation"
  | ReasonHandshakeFailed => "handshake_failed" | ReasonInvalidSignature => "invalid_signature"
  | ReasonDisconnected => "disconnected" | ReasonLowHealth => "low_health"
  | ReasonLocalChainCorrupt => "local_chain_corrupt"
  end.

Inductive PeerState :=
| PeerStatePending | PeerStateDialing | PeerStateHandshake | PeerStateSteady | PeerStateClosed.

Definition PeerState_String (s : PeerState) : string :=
  match s with
  | PeerStatePending => "pending" | PeerStateDialing => "dialing"
  | PeerStateHandshake => "handshake" | PeerStateSteady => "steady" | PeerStateClosed => "closed"
  end.

#[global] Instance PeerState_eq_dec : EqDecision PeerState.
Proof. solve_decision. Defined.

(** A connection is a number; a closed one is in the set the caller keeps. *)
Record PeerInfo := {
  pi_TrackerID : bytes; pi_PubKey : bytes; pi_Addr : string; pi_Region : string;
  pi_State : PeerState; pi_Conn : option nat; pi_Since : Z
}.

Abbreviation PeerMap := (gmap bytes PeerInfo).

(** [Registry.Add], [Update], [Get], [IsActive], [All] and [Depeer]. *)
Definition Peers_Add (p : PeerInfo) : GoM PeerMap FErr unit := λ r,
  if negb (blen (pi_PubKey p) =? PublicKeySize)
  then (Err (ErrFed "registry: PubKey must be 32 bytes"), r) else
  match r !! pi_TrackerID p with
  | Some _ => (Err ErrPeerExists, r)
  | None => (Ok tt, <[pi_TrackerID p := p]> r)
  end.

Definition Peers_Update (p : PeerInfo) : GoM PeerMap FErr unit := λ r,
  match r !! pi_TrackerID p with
  | None => (Err ErrPeerUnknown, r)
  | Some _ => (Ok tt, <[pi_TrackerID p := p]> r)
  end.

Definition Peers_Get (id : bytes) (r : PeerMap) : option PeerInfo := r !! id.

Definition Peers_IsActive (id : bytes) (r : PeerMap) : bool :=
  match r !! id with
  | Some p => bool_decide (pi_State p = PeerStateSteady)
  | None => false
  end.

Definition Peers_All (r : PeerMap) : list PeerInfo :=
  (λ p, {| pi_TrackerID := pi_TrackerID p; pi_PubKey := pi_PubKey p; pi_Addr := pi_Addr p;
           pi_Region := pi_Region p; pi_State := pi_State p; pi_Conn := None;
           pi_Since := pi_Since p |}) <$> (map_to_list r).*2.

(** The connection that is to be closed, if the peer had one. *)
Definition Peers_Depeer (id : bytes) : GoM PeerMap FErr (option nat) := λ r,
  match r !! id with
  | None => (Err ErrPeerUnknown, r)
  | Some p => (Ok (pi_Conn p), delete id r)
  end.

(** ** Peer health *)

Record HealthConfig := {
  hc_UptimeWindow : Z; hc_RevGossipWindow : Z; hc_LatencyTarget : Z;
  hc_UptimeWeight : spec_float; hc_RevGossipWeight : spec_float; hc_LatencyWeight : spec_float
}.

(** [ringBuf16]: the samples by position. *)
Record ringBuf16 := { rg_xs : list Z; rg_n : Z; rg_head : Z }.

Definition empty_ring : ringBuf16 := {| rg_xs := replicate 16 0; rg_n := 0; rg_head := 0 |}.

Definition ring_push (d : Z) (rb : ringBuf16) : ringBuf16 := {|
  rg_xs := <[Z.to_nat (rg_head rb) := d]> (rg_xs rb);
  rg_n := if rg_n rb <? blen (rg_xs rb) then rg_n rb + 1 else rg_n rb;
  rg_head := (rg_head rb + 1) mod blen (rg_xs rb) |}.

(** The sum is of [time.Duration]s, that is of int64s. *)
Definition ring_mean (rb : ringBuf16) : Z :=
  if rg_n rb =? 0 then 0
  else Z.quot (foldl (λ a x, i64 (a + x)) 0 (take (Z.to_nat (rg_n rb)) (rg_xs rb))) (rg_n rb).

Record PeerHealth := {
  ph_lastRoot : gmap bytes Z;
  ph_revGossipDelays : gmap bytes ringBuf16;
  ph_equivocated : gset bytes;
  ph_latencyEWMA : gmap bytes Z
}.

Definition NewPeerHealth : PeerHealth :=
  {| ph_lastRoot := ∅; ph_revGossipDelays := ∅; ph_equivocated := ∅; ph_latencyEWMA := ∅ |}.

(** 0.3 and 1-0.3, as constants of the language round them. *)
Definition ewma_alpha : spec_float := f64_div (f64_of_int 3) (f64_of_int 10).
Definition ewma_beta : spec_float := f64_div (f64_of_int 7) (f64_of_int 10).

Definition OnLatencySample (peer : bytes) (rtt : Z) (h : PeerHealth) : PeerHealth :=
  let rtt := if rtt <? 0 then 0 else rtt in
  let v := match ph_latencyEWMA h !! peer with
           | None => rtt
           | Some prev =>
               default 0 (f64_trunc (f64_add (f64_mul (f64_of_int prev) ewma_beta)
                                             (f64_mul (f64_of_int rtt) ewma_alpha)))
           end in
  {| ph_lastRoot := ph_lastRoot h; ph_revGossipDelays := ph_revGossipDelays h;
     ph_equivocated := ph_equivocated h; ph_latencyEWMA := <[peer := v]> (ph_latencyEWMA h) |}.

Definition Health_OnRootAttestation (peer : bytes) (recvAt : Z) (h : PeerHealth) : PeerHealth :=
  {| ph_lastRoot := <[peer := recvAt]> (ph_lastRoot h);
     ph_revGossipDelays := ph_revGossipDelays h; ph_equivocated := ph_equivocated h;
     ph_latencyEWMA := ph_latencyEWMA h |}.

Definition Health_OnRevocation (peer : bytes) (revokedAt recvAt : Z) (h : PeerHealth) : PeerHealth :=
  let delay := time_Sub recvAt revokedAt in
  let delay := if delay <? 0 then 0 else delay in
  let rb := default empty_ring (ph_revGossipDelays h !! peer) in
  {| ph_lastRoot := ph_lastRoot h;
     ph_revGossipDelays := <[peer := ring_push delay rb]> (ph_revGossipDelays h);
     ph_equivocated := ph_equivocated h; ph_latencyEWMA := ph_latencyEWMA h |}.

Definition Health_OnEquivocation (peer : bytes) (h : PeerHealth) : PeerHealth :=
  {| ph_lastRoot := ph_lastRoot h; ph_revGossipDelays := ph_revGossipDelays h;
     ph_equivocated := {[peer]} ∪ ph_equivocated h; ph_latencyEWMA := ph_latencyEWMA h |}.

Definition Health_ClearEquivocation (peer : bytes) (h : PeerHealth) : bool * PeerHealth :=
  (bool_decide (peer ∈ ph_equivocated h),
   {| ph_lastRoot := ph_lastRoot h; ph_revGossipDelays := ph_revGossipDelays h;
      ph_equivocated := ph_equivocated h ∖ {[peer]}; ph_latencyEWMA := ph_latencyEWMA h |}).

(** federation's [clamp01]; a NaN passes. *)
Definition Fed_clamp01 (v : spec_float) : spec_float :=
  if SFltb v (f64_of_int 0) then f64_of_int 0
  else if SFltb f64_one v then f64_one else v.

(** [1 - num/den], clamped. *)
Definition fraction_left (num den : Z) : spec_float :=
  Fed_clamp01 (f64_sub f64_one (f64_div (f64_of_int num) (f64_of_int den))).

Definition Health_Score (cfg : HealthConfig) (peer : bytes) (now : Z) (h : PeerHealth) : spec_float :=
  if decide (peer ∈ ph_equivocated h) then f64_of_int 0 else
  let uptimeSub :=
    match ph_lastRoot h !! peer with
    | Some last =>
        let age := time_Sub now last in
        fraction_left (if age <? 0 then 0 else age) (hc_UptimeWindow cfg)
    | None => f64_of_int 0
    end in
  let revgossSub :=
    match ph_revGossipDelays h !! peer with
    | Some rb => if 0 <? rg_n rb then fraction_left (ring_mean rb) (hc_RevGossipWindow cfg)
                 else f64_one
    | None => f64_one
    end in
  let latencySub :=
    match ph_latencyEWMA h !! peer with
    | Some rtt => if 0 <? hc_LatencyTarget cfg then fraction_left rtt (hc_LatencyTarget cfg)
                  else f64_one
    | None => f64_one
    end in
  f64_add (f64_add (f64_mul (hc_UptimeWeight cfg) uptimeSub)
                   (f64_mul (hc_RevGossipWeight cfg) revgossSub))
          (f64_mul (hc_LatencyWeight cfg) latencySub).

(** ** The seen set is the recent marks

    The reference: of every id its last mark, newest first. *)

Fixpoint last_marks (marks : list (bytes * Z)) : list (bytes * Z) :=
  match marks with
  | [] => []
  | m :: ms => m :: filter (λ x, x.1 ≠ m.1) (last_marks ms)
  end.

(** The marks still alive at [now], at most [cap] of them. *)
Definition remembered (ttl cap now : Z) (marks : list (bytes * Z)) : list (bytes * Z) :=
  take (Z.to_nat cap) (filter (λ m, now < m.2 + ttl) (last_marks marks)).

(** The calls a set has had, newest first: a mark, or a look-up. *)
Inductive dedupe_op := OpMark (id : bytes) | OpSeen (id : bytes).

Fixpoint run_dedupe (ttl cap : Z) (ops : list (Z * dedupe_op)) : Dedupe :=
  match ops with
  | [] => NewDedupe ttl cap
  | (now, OpMark id) :: ops => Mark now id (run_dedupe ttl cap ops)
  | (now, OpSeen id) :: ops => snd (Seen now id (run_dedupe ttl cap ops))
  end.

Definition marks_of (ops : list (Z * dedupe_op)) : list (bytes * Z) :=
  omap (λ o, match o.2 with OpMark id => Some (id, o.1) | OpSeen _ => None end) ops.

(** The clock does not go back. *)
Fixpoint clock_ok (now : Z) (ops : list (Z * dedupe_op)) : Prop :=
  match ops with
  | [] => True
  | (t, _) :: ops => t <= now ∧ clock_ok t ops
  end.

Section dedupe.
Variable ttl cap : Z.
Hypothesis Httl : 0 < ttl.
Hypothesis Hcap : 0 < cap.

Definition entry_of (m : bytes * Z) : dedupeEntry := {| de_id := m.1; de_expiry := m.2 + ttl |}.

(** Times decrease along a list of marks. *)
Definition ordered (l : list (bytes * Z)) : Prop := StronglySorted (λ a b, b.2 <= a.2) l.

(** The set holds the remembered marks of time [now]. *)
Definition holds (now : Z) (marks : list (bytes * Z)) (d : Dedupe) : Prop :=
  dd_ttl d = ttl ∧ dd_cap d = cap ∧ dd_order d = entry_of <$> remembered ttl cap now marks ∧
  dd_idx d = list_to_set (remembered ttl cap now marks).*1.

Lemma last_marks_nodup ms : NoDup (last_marks ms).*1.
Proof.
  induction ms as [|m ms IH]; [constructor|]. simpl. constructor.
  - intros (x & Hx & [Hne _]%list_elem_of_filter)%list_elem_of_fmap. congruence.
  - refine (sublist_NoDup _ _ IH _). apply fmap_sublist, sublist_filter.
Qed.

Lemma last_marks_elem ms x : x ∈ last_marks ms → x ∈ ms.
Proof.
  induction ms as [|m ms IH]; [done|]. simpl.
  intros [->|[_ ?]%list_elem_of_filter]%elem_of_cons; [by left|right; auto].
Qed.

Lemma ordered_filter (P : bytes * Z → Prop) `{∀ x, Decision (P x)} l :
  ordered l → ordered (filter P l).
Proof.
  unfold ordered. induction 1 as [|x l Hl IH Hx]; [constructor|]. rewrite filter_cons.
  destruct (decide (P x)); [|done]. constructor; [done|].
  rewrite Forall_forall in *. intros y [_ Hy]%list_elem_of_filter. auto.
Qed.

Lemma last_marks_ordered ms : ordered ms → ordered (last_marks ms).
Proof.
  unfold ordered. induction 1 as [|m ms Hms IH Hm]; [constructor|]. simpl. constructor.
  - by apply ordered_filter.
  - rewrite Forall_forall in *. intros y [_ Hy]%list_elem_of_filter. by apply Hm, last_marks_elem.
Qed.

Lemma filter_none {A} (P : A → Prop) `{∀ x, Decision (P x)} (l : list A) :
  Forall (λ x, ¬ P x) l → filter P l = [].
Proof. induction 1 as [|x l Hx _ IH]; [done|]. by rewrite filter_cons_False. Qed.

Lemma filter_all {A} (P : A → Prop) `{∀ x, Decision (P x)} (l : list A) :
  (∀ x, x ∈ l → P x) → filter P l = l.
Proof.
  induction l as [|x l IH]; intros H'; [done|].
  rewrite filter_cons_True by (apply H'; left). f_equal. apply IH. intros y Hy. apply H'. by right.
Qed.

Lemma list_filter_comm {A} (P Q : A → Prop) `{∀ x, Decision (P x), ∀ x, Decision (Q x)} (l : list A) :
  filter P (filter Q l) = filter Q (filter P l).
Proof.
  induction l as [|x l IH]; [done|]. rewrite !filter_cons.
  destruct (decide (Q x)), (decide (P x)); rewrite ?filter_cons_True, ?filter_cons_False by done;
    by rewrite IH.
Qed.

(** The expired marks of an ordered list are at its end. *)
Lemma alive_prefix now l :
  ordered l → ∃ old, l = filter (λ m, now < m.2 + ttl) l ++ old ∧ Forall (λ m, m.2 + ttl <= now) old.
Proof.
  unfold ordered. induction 1 as [|x l Hl (old & IH & Ho) Hx]; [by exists []|].
  rewrite filter_cons. destruct (decide (now < x.2 + ttl)) as [Ha|Ha].
  - exists old. split; [by rewrite <- app_comm_cons, <- IH|done].
  - exists (x :: l). assert (Hall : Forall (λ m, m.2 + ttl <= now) l).
    { rewrite Forall_forall in *. intros y Hy. specialize (Hx y Hy). lia. }
    split; [|constructor; [lia|done]].
    rewrite filter_none; [done|]. rewrite Forall_forall in *. intros y Hy.
    specialize (Hall y Hy). lia.
Qed.

Lemma evict_expired_app now p q x :
  Forall (λ m, m.2 + ttl <= now) p → Forall (λ m, now < m.2 + ttl) q →
  evict_expired now (entry_of <$> p ++ q) x = (entry_of <$> q, x ∖ list_to_set p.*1).
Proof.
  intros Hp Hq. revert x. induction Hp as [|m p Hm Hp IH]; intros x.
  - simpl. replace (x ∖ ∅) with x by set_solver. destruct Hq as [|m q Hm Hq]; [done|].
    simpl. by rewrite (proj2 (Z.ltb_lt _ _)).
  - simpl. rewrite (proj2 (Z.ltb_ge _ _)) by done. rewrite IH. f_equal. set_solver.
Qed.

Lemma evict_to_spec c l x :
  evict_to c (entry_of <$> l) x
  = let k := (length l - Z.to_nat (c - 1))%nat in
    (entry_of <$> drop k l, x ∖ list_to_set (take k l).*1).
Proof.
  revert x. induction l as [|m l IH]; intros x; [simpl; f_equal; set_solver|].
  rewrite fmap_cons. cbn [evict_to length]. unfold blen in *. cbn [length].
  rewrite length_fmap, Nat2Z.inj_succ. destruct (Z.leb_spec c (Z.succ (Z.of_nat (length l)))).
  - rewrite IH. replace (S (length l) - Z.to_nat (c - 1))%nat
      with (S (length l - Z.to_nat (c - 1))) by lia. simpl. f_equal. set_solver.
  - replace (S (length l) - Z.to_nat (c - 1))%nat with 0%nat by lia. simpl. f_equal. set_solver.
Qed.

(** Dropping an id from a full window makes room for the next mark; dropping one that is not
    in the window changes nothing but what is beyond it. *)
Lemma take_drop_elem id n (A : list (bytes * Z)) :
  id ∈ (take (S n) A).*1 → NoDup A.*1 →
  filter (λ x, x.1 ≠ id) (take (S n) A) = take n (filter (λ x, x.1 ≠ id) A).
Proof.
  revert A. induction n as [|n IH]; intros [|a A] Hin Hnd; try done.
  - simpl in Hin. apply list_elem_of_singleton in Hin as ->. cbn [take].
    by rewrite filter_cons_False by (intros []; done).
  - rewrite !firstn_cons. inversion Hnd as [|? ? Hna HndA]; subst.
    rewrite !filter_cons. destruct (decide (a.1 ≠ id)) as [Hne|He].
    + rewrite firstn_cons. f_equal. apply IH; [|done]. rewrite firstn_cons in Hin.
      rewrite fmap_cons in Hin. apply elem_of_cons in Hin as [->|?]; done.
    + assert (a.1 = id) as Heq by (destruct (decide (a.1 = id)); [done|tauto]). subst id.
      assert (∀ x, x ∈ A → x.1 ≠ a.1) as Hall.
      { intros x Hx Hxa. apply Hna, list_elem_of_fmap. by exists x. }
      rewrite !filter_all; [done|done|]. intros x (i & Hx & _)%elem_of_take.
      by eapply Hall, list_elem_of_lookup_2.
Qed.

Lemma take_drop_not_elem id n (A : list (bytes * Z)) :
  id ∉ (take (S n) A).*1 → take n (filter (λ x, x.1 ≠ id) A) = take n A.
Proof.
  revert A. induction n as [|n IH]; intros [|a A] Hin; try done.
  rewrite firstn_cons, fmap_cons, not_elem_of_cons in Hin. destruct Hin as [Hne Hin].
  rewrite filter_cons_True by done. rewrite !firstn_cons. f_equal. by apply IH.
Qed.

Lemma ids_minus (a o : list (bytes * Z)) (X : gset bytes) :
  NoDup (a ++ o).*1 → (∀ id, id ∈ X ↔ id ∈ o.*1) →
  (list_to_set (a ++ o).*1 : gset bytes) ∖ X = list_to_set a.*1.
Proof.
  rewrite fmap_app, list_to_set_app_L. intros (_ & Hd & _)%NoDup_app HX. apply set_eq. intros id.
  rewrite elem_of_difference, elem_of_union, HX, !elem_of_list_to_set.
  specialize (Hd id). naive_solver.
Qed.

Lemma rev_entry_of l : rev (entry_of <$> l) = entry_of <$> rev l.
Proof. symmetry. apply map_rev. Qed.

Lemma remembered_nodup now ms : NoDup (remembered ttl cap now ms).*1.
Proof.
  refine (sublist_NoDup _ _ (last_marks_nodup ms) _). apply fmap_sublist.
  etrans; [apply sublist_take|apply sublist_filter].
Qed.

Lemma holds_later now0 now ms d :
  ordered ms → now0 <= now → holds now0 ms d → holds now ms (evictExpiredLocked now d).
Proof.
  intros Hms Hle (Ht & Hc & Ho & Hi). unfold evictExpiredLocked. rewrite Ho, Hi.
  pose proof (remembered_nodup now0 ms) as Hnd. unfold remembered in Hnd |- *.
  pose proof (ordered_filter (λ m, now0 < m.2 + ttl) _ (last_marks_ordered ms Hms)) as HA.
  apply (alive_prefix now) in HA as (old & HA & Hold).
  rewrite list_filter_filter_l in HA by lia. rewrite HA in Hnd |- *.
  rewrite take_app in Hnd |- *. rewrite rev_entry_of, rev_app_distr, evict_expired_app.
  - cbn. split_and!; [done|done|by rewrite rev_entry_of, rev_involutive|].
    apply ids_minus; [done|]. intros id. rewrite elem_of_list_to_set.
    by rewrite <- Permutation_rev.
  - apply Forall_rev, Forall_take, Hold.
  - apply Forall_rev, Forall_take, Forall_forall. by intros x [? _]%list_elem_of_filter.
Qed.

Lemma remembered_mark now id ms :
  remembered ttl cap now ((id, now) :: ms)
  = (id, now) :: take (Z.to_nat (cap - 1))
                      (filter (λ x, x.1 ≠ id) (filter (λ m, now < m.2 + ttl) (last_marks ms))).
Proof.
  unfold remembered. replace (Z.to_nat cap) with (S (Z.to_nat (cap - 1))) by lia. simpl.
  rewrite filter_cons_True by (simpl; lia). rewrite firstn_cons. do 2 f_equal. apply list_filter_comm.
Qed.

Lemma drop_id_entry id l : drop_id id (entry_of <$> l) = entry_of <$> filter (λ x, x.1 ≠ id) l.
Proof.
  unfold drop_id. induction l as [|x l IH]; [done|].
  rewrite fmap_cons, !filter_cons. simpl. case_decide; by rewrite IH.
Qed.

Lemma ids_without id (l : list (bytes * Z)) :
  id ∈ l.*1 →
  {[id]} ∪ (list_to_set (filter (λ x, x.1 ≠ id) l).*1 : gset bytes) = list_to_set l.*1.
Proof.
  intros Hin. apply set_eq. intros id'. rewrite elem_of_union, elem_of_singleton.
  rewrite !elem_of_list_to_set, !list_elem_of_fmap. setoid_rewrite list_elem_of_filter.
  split.
  - intros [->|(x & -> & _ & ?)]; [by apply list_elem_of_fmap in Hin|by exists x].
  - intros (x & -> & ?). destruct (decide (x.1 = id)); [by left|]. right. by exists x.
Qed.

Lemma oldest_kept n (l : list (bytes * Z)) : rev (drop (length (rev l) - n) (rev l)) = take n l.
Proof.
  rewrite skipn_rev, rev_involutive, length_rev. destruct (Nat.le_gt_cases n (length l)).
  - f_equal. lia.
  - rewrite !take_ge; [done|lia|lia].
Qed.

Lemma oldest_dropped n (l : list (bytes * Z)) : take (length (rev l) - n) (rev l) = rev (drop n l).
Proof.
  rewrite firstn_rev, length_rev. destruct (Nat.le_gt_cases n (length l)).
  - do 2 f_equal. lia.
  - rewrite !drop_ge; [done|lia|lia].
Qed.

Lemma holds_mark now0 now ms d id :
  ordered ms → now0 <= now → holds now0 ms d → holds now ((id, now) :: ms) (Mark now id d).
Proof.
  intros Hms Hle (Ht & Hc & Ho & Hi)%(holds_later _ now); [|done|done].
  unfold Mark. set (d' := evictExpiredLocked now d) in *. clearbody d'.
  pose proof (remembered_nodup now ms) as Hnd.
  unfold holds. rewrite remembered_mark, !fmap_cons, list_to_set_cons.
  unfold remembered in *.
  replace (Z.to_nat cap) with (S (Z.to_nat (cap - 1))) in * by lia.
  set (A := filter (λ m, now < m.2 + ttl) (last_marks ms)) in *.
  assert (NoDup A.*1) as HndA.
  { refine (sublist_NoDup _ _ (last_marks_nodup ms) _). apply fmap_sublist, sublist_filter. }
  case_decide as Hin; rewrite Hi, elem_of_list_to_set in Hin.
  - cbn [dd_ttl dd_cap dd_order dd_idx with_order]. rewrite Ho, Hi, Ht, drop_id_entry.
    rewrite take_drop_elem by done. split_and!; [done|done|done|].
    rewrite <- take_drop_elem by done. symmetry. by apply ids_without.
  - rewrite Ho, Hi, rev_entry_of, evict_to_spec. cbn [dd_ttl dd_cap dd_order dd_idx with_order].
    rewrite take_drop_not_elem by done. rewrite Ht.
    set (n := Z.to_nat (cap - 1)) in *. rewrite rev_entry_of, oldest_dropped, oldest_kept.
    rewrite Hc. fold n. rewrite take_take, Nat.min_l by lia. split_and!; [done|done|done|]. f_equal.
    rewrite <- (take_drop n (take (S n) A)) at 1. rewrite take_take, Nat.min_l by lia.
    apply ids_minus; [|intros ?; by rewrite elem_of_list_to_set, <- Permutation_rev].
    replace (take n A) with (take n (take (S n) A)) by (by rewrite take_take, Nat.min_l by lia).
    by rewrite take_drop.
Qed.

Lemma holds_seen now0 now ms d id :
  ordered ms → now0 <= now → holds now0 ms d →
  fst (Seen now id d) = bool_decide (id ∈ (remembered ttl cap now ms).*1) ∧
  holds now ms (snd (Seen now id d)).
Proof.
  intros Hms Hle Hd. apply (holds_later _ now) in Hd; [|done|done]. unfold Seen.
  set (d' := evictExpiredLocked now d) in *. clearbody d'.
  destruct Hd as (Ht & Hc & Ho & Hi). case_decide as Hin; rewrite Hi, elem_of_list_to_set in Hin.
  - rewrite (bool_decide_eq_true_2 _ Hin). rewrite Ho.
    destruct (List.find _ _) as [e|] eqn:He.
    + apply find_some in He as [He _]. apply list_elem_of_In, list_elem_of_fmap in He as (m & -> & Hm).
      unfold remembered in Hm. apply elem_of_take in Hm as (i & Hm & _).
      apply list_elem_of_lookup_2, list_elem_of_filter in Hm as [Hm _]. simpl.
      rewrite (proj2 (Z.ltb_lt _ _) Hm). done.
    + exfalso. apply list_elem_of_fmap in Hin as (m & -> & Hm).
      eapply (find_none _ _) with (x := entry_of m) in He; [|by apply list_elem_of_In, list_elem_of_fmap_2].
      by rewrite bool_decide_eq_false in He.
  - rewrite (bool_decide_eq_false_2 _ Hin). done.
Qed.

Lemma clock_ordered now ops :
  clock_ok now ops → ordered (marks_of ops) ∧ Forall (λ m, m.2 <= now) (marks_of ops).
Proof.
  revert now. induction ops as [|[t op] ops IH]; intros now; [repeat constructor|].
  intros [Hle [Ho Hf]%IH]. unfold ordered, marks_of in *. destruct op; simpl; split; try done.
  - by constructor.
  - constructor; [done|]. eapply Forall_impl; [exact Hf|]. simpl. lia.
  - eapply Forall_impl; [exact Hf|]. simpl. lia.
Qed.

Lemma run_holds now ops :
  clock_ok now ops → ∃ t, t <= now ∧ holds t (marks_of ops) (run_dedupe ttl cap ops).
Proof.
  revert now. induction ops as [|[t op] ops IH]; intros now.
  - intros _. exists now. split; [done|]. unfold holds, remembered, run_dedupe, NewDedupe. simpl.
    rewrite firstn_nil. rewrite (proj2 (Z.leb_gt _ _)) by done. done.
  - intros [Hle Hok]. destruct (IH t Hok) as (t0 & Ht0 & Hh).
    pose proof (clock_ordered _ _ Hok) as [Ho _]. exists t. split; [done|].
    destruct op; simpl; [by eapply holds_mark|by eapply holds_seen].
Qed.
End dedupe.

(** The seen set against its reference. Over any sequence of marks and look-ups whose
    clock does not go back, with a positive lifetime and capacity, [Dedupe.Seen] answers
    exactly whether the id is among the [capacity] most recently marked of the ids whose last
    mark has not expired: a re-marked id counts once, at its latest mark, eviction drops the
    oldest marks only, and what looks did in between does not show. *)
Lemma dedupe_reference ttl cap now ops id :
  0 < ttl → 0 < cap → clock_ok now ops →
  fst (Seen now id (run_dedupe ttl cap ops))
  = bool_decide (id ∈ (remembered ttl cap now (marks_of ops)).*1) ∧
  fst (Dedupe_Size now (run_dedupe ttl cap ops)) = blen (remembered ttl cap now (marks_of ops)).
Proof.
  intros Httl Hcap Hok. destruct (run_holds ttl cap Httl Hcap _ _ Hok) as (t & Ht & Hh).
  pose proof (clock_ordered _ _ Hok) as [Ho _].
  split; [by eapply (holds_seen ttl cap)|].
  apply (holds_later ttl cap Httl Hcap _ now) in Hh as (_ & _ & Hl & _); [|done|done].
  unfold Dedupe_Size. simpl. rewrite Hl. unfold blen. by rewrite length_fmap.
Qed.

Definition w_dedupe_ops : list (Z * dedupe_op) :=
  [(9, OpMark [Byte.x03]); (8, OpMark [Byte.x01]); (7, OpSeen [Byte.x02]); (5, OpMark [Byte.x02]);
   (1, OpMark [Byte.x01])].

Lemma dedupe_reference_witness :
  (0 < 10 ∧ 0 < 2 ∧ clock_ok 12 w_dedupe_ops) ∧
  fst (Seen 12 [Byte.x01] (run_dedupe 10 2 w_dedupe_ops)) = true ∧
  fst (Seen 12 [Byte.x02] (run_dedupe 10 2 w_dedupe_ops)) = false.
Proof.
  assert (clock_ok 12 w_dedupe_ops) as H by (simpl; lia). split_and!; [lia|lia|exact H| |].
  - rewrite (proj1 (dedupe_reference 10 2 12 _ [Byte.x01] ltac:(lia) ltac:(lia) H)).
    vm_compute. reflexivity.
  - rewrite (proj1 (dedupe_reference 10 2 12 _ [Byte.x02] ltac:(lia) ltac:(lia) H)).
    vm_compute. reflexivity.
Defined.
