(* ===== verification/Handshake.v ===== *)
(** tracker/internal/federation/handshake.go: how two trackers learn who is at the other end
    of a connection.

    A connection is a [HSConn]: the frames its [Recv] will return (after the last one it
    fails, as it does at the deadline), the frames sent, and how many [Send]s succeed before
    the link breaks. A nonce from [crypto/rand] is a parameter. Every error of the code wraps
    [ErrHandshakeFailed], and is that here. *)
From S2P Require Import Prelude Proto Signing FedProto.

Record HSConn := { hc_in : list bytes; hc_out : list bytes; hc_sends : nat }.

Definition protocolVersion : Z := 1.

Record HandshakeResult := {
  hr_PeerTrackerID : bytes; hr_PeerPubKey : bytes; hr_DedupeTTL : Z; hr_GossipRateQPS : Z;
  hr_PeerFeatures : list string
}.

Definition SupportedFeatures : list string :=
  ["transfer_reject"; "peer_health_v1"; "signed_bootstrap_list"; "peer_exchange_v1"].

Definition conn_Send (frame : bytes) : GoM HSConn FErr unit := λ c,
  match hc_sends c with
  | O => (Err ErrHandshakeFailed, c)
  | S n => (Ok tt, {| hc_in := hc_in c; hc_out := hc_out c ++ [frame]; hc_sends := n |})
  end.

Definition conn_Recv : GoM HSConn FErr bytes := λ c,
  match hc_in c with
  | [] => (Err ErrHandshakeFailed, c)
  | x :: l => (Ok x, {| hc_in := l; hc_out := hc_out c; hc_sends := hc_sends c |})
  end.

(** The loop of [NegotiateFeatures]; [seen] is its map. *)
Fixpoint negotiate (theirs seen mine : list string) : list string :=
  match mine with
  | [] => []
  | m :: mine =>
      if negb (bool_decide (m ∈ theirs)) then negotiate theirs seen mine
      else if bool_decide (m ∈ seen) then negotiate theirs seen mine
      else m :: negotiate theirs (m :: seen) mine
  end.

Definition NegotiateFeatures (mine theirs : list string) : list string := negotiate theirs [] mine.

Section handshake.
Context `{Crypto} `{FedWire}.

(** Marshal, [SignEnvelope], [MarshalFrame]. *)
Definition signed_frame {M} `{Codec M} (priv myID : bytes) (k : Kind) (m : M) : option bytes :=
  match Marshal m with
  | None => None
  | Some payload =>
    match Fed_SignEnvelope priv myID k payload with
    | Err _ => None
    | Ok env => match MarshalFrame env with Err _ => None | Ok frame => Some frame end
    end
  end.

Definition send_signed {M} `{Codec M} (priv myID : bytes) (k : Kind) (m : M)
    : GoM HSConn FErr unit :=
  match signed_frame priv myID k m with
  | None => gfail ErrHandshakeFailed
  | Some frame => conn_Send frame
  end.

Definition my_hello (myID nonce : bytes) : Hello :=
  {| he_TrackerId := myID; he_ProtocolVersion := protocolVersion; he_Nonce := nonce;
     he_Features := SupportedFeatures |}.

Definition sendHello (priv myID nonce : bytes) : GoM HSConn FErr unit :=
  match ValidateHello (Some (my_hello myID nonce)) with
  | Some _ => gfail ErrHandshakeFailed
  | None => send_signed priv myID KIND_HELLO (my_hello myID nonce)
  end.

Definition recvKind (want : Kind) : GoM HSConn FErr Envelope := λ c,
  match conn_Recv c with
  | (Err e, c) => (Err e, c)
  | (Ok frame, c) =>
    match UnmarshalFrame frame with
    | Err _ => (Err ErrHandshakeFailed, c)
    | Ok env => if negb (bool_decide (fe_Kind env = want)) then (Err ErrHandshakeFailed, c)
                else (Ok env, c)
    end
  end.

Definition peer_auth (priv theirNonce : bytes) : PeerAuth :=
  {| pa_NonceSig := ed25519_Sign priv theirNonce |}.

Definition sendPeerAuth (priv myID theirNonce : bytes) : GoM HSConn FErr unit :=
  match ValidatePeerAuth (Some (peer_auth priv theirNonce)) with
  | Some _ => gfail ErrHandshakeFailed
  | None => send_signed priv myID KIND_PEER_AUTH (peer_auth priv theirNonce)
  end.

(** The peer's id, its key, its nonce and its features. *)
Definition validatePeerHello (env : Envelope) (expected : gmap bytes bytes)
    : res FErr (bytes * bytes * bytes * list string) :=
  match Unmarshal (M := Hello) (fe_Payload env) with
  | None => Err ErrHandshakeFailed
  | Some hello =>
    match ValidateHello (Some hello) with
    | Some _ => Err ErrHandshakeFailed
    | None =>
      if negb (he_ProtocolVersion hello =? protocolVersion) then Err ErrHandshakeFailed else
      let tid := copy32 (he_TrackerId hello) in
      match expected !! tid with
      | None => Err ErrHandshakeFailed
      | Some pub =>
        if negb (Verify pub (fe_Payload env) (fe_SenderSig env)) then Err ErrHandshakeFailed
        else if negb (bool_decide (sha256 pub = tid)) then Err ErrHandshakeFailed
        else Ok (tid, pub, he_Nonce hello, he_Features hello)
      end
    end
  end.

Definition validatePeerAuth (env : Envelope) (pub myNonce : bytes) : option FErr :=
  match Unmarshal (M := PeerAuth) (fe_Payload env) with
  | None => Some ErrHandshakeFailed
  | Some auth =>
    match ValidatePeerAuth (Some auth) with
    | Some _ => Some ErrHandshakeFailed
    | None =>
      if negb (Verify pub (fe_Payload env) (fe_SenderSig env)) then Some ErrHandshakeFailed
      else if negb (Verify pub myNonce (pa_NonceSig auth)) then Some ErrHandshakeFailed
      else None
    end
  end.

Definition accept_msg (ttl qps : Z) : PeeringAccept :=
  {| pc_DedupeTtlS := u32 (Z.quot ttl Second); pc_GossipRateQps := qps |}.

Definition sendAccept (priv myID : bytes) (ttl qps : Z) : GoM HSConn FErr unit :=
  send_signed priv myID KIND_PEERING_ACCEPT (accept_msg ttl qps).

Definition Hour : Z := 3600 * Second.

(** [if err := ...; err != nil] *)
Definition glift_err (e : option FErr) : GoM HSConn FErr unit :=
  match e with Some e => gfail e | None => gret tt end.

Definition RunHandshakeDialer (myID priv nonce peerID peerPub : bytes)
    : GoM HSConn FErr HandshakeResult :=
  do! sendHello priv myID nonce in
  let! helloEnv := recvKind KIND_HELLO in
  let! hello := glift (validatePeerHello helloEnv {[peerID := peerPub]}) in
  let '(gotID, gotPub, theirNonce, feats) := hello in
  do! sendPeerAuth priv myID theirNonce in
  let! authEnv := recvKind KIND_PEER_AUTH in
  do! glift_err (validatePeerAuth authEnv gotPub nonce) in
  let! accEnv := recvKind KIND_PEERING_ACCEPT in
  if negb (Verify gotPub (fe_Payload accEnv) (fe_SenderSig accEnv)) then gfail ErrHandshakeFailed
  else match Unmarshal (M := PeeringAccept) (fe_Payload accEnv) with
  | None => gfail ErrHandshakeFailed
  | Some acc =>
      gret {| hr_PeerTrackerID := gotID; hr_PeerPubKey := gotPub;
              hr_DedupeTTL := i64 (pc_DedupeTtlS acc * Second);
              hr_GossipRateQPS := pc_GossipRateQps acc;
              hr_PeerFeatures := NegotiateFeatures SupportedFeatures feats |}
  end.

Definition RunHandshakeListener (myID priv nonce : bytes) (expected : gmap bytes bytes)
    : GoM HSConn FErr HandshakeResult :=
  let! helloEnv := recvKind KIND_HELLO in
  let! hello := glift (validatePeerHello helloEnv expected) in
  let '(gotID, gotPub, theirNonce, feats) := hello in
  do! sendHello priv myID nonce in
  let! authEnv := recvKind KIND_PEER_AUTH in
  do! glift_err (validatePeerAuth authEnv gotPub nonce) in
  do! sendPeerAuth priv myID theirNonce in
  do! sendAccept priv myID Hour 100 in
  gret {| hr_PeerTrackerID := gotID; hr_PeerPubKey := gotPub; hr_DedupeTTL := Hour;
          hr_GossipRateQPS := 100;
          hr_PeerFeatures := NegotiateFeatures SupportedFeatures feats |}.
End handshake.

(** ** Lemmas *)

Lemma negotiate_sublist theirs seen mine : negotiate theirs seen mine `sublist_of` mine.
Proof.
  revert seen. induction mine as [|m mine IH]; intros seen; simpl; [constructor|].
  repeat case_match; constructor; apply IH.
Qed.

Lemma negotiate_elem theirs seen mine x :
  x ∈ negotiate theirs seen mine ↔ x ∈ mine ∧ x ∈ theirs ∧ x ∉ seen.
Proof.
  revert seen. induction mine as [|m mine IH]; intros seen; simpl; [set_solver|].
  destruct (bool_decide_reflect (m ∈ theirs)) as [Ht|Ht]; simpl.
  - destruct (bool_decide_reflect (m ∈ seen)) as [Hs|Hs].
    + rewrite IH. set_solver.
    + rewrite elem_of_cons, IH. destruct (decide (x = m)); set_solver.
  - rewrite IH. set_solver.
Qed.

Lemma negotiate_nodup theirs seen mine : NoDup (negotiate theirs seen mine).
Proof.
  revert seen. induction mine as [|m mine IH]; intros seen; simpl; [constructor|].
  repeat case_match; try apply IH. constructor; [|apply IH].
  rewrite negotiate_elem. set_solver.
Qed.

Section facts.
Context `{CryptoLaws} `{FedWireLaws}.

(** What a frame made by [signed_frame] is to its receiver. *)
Lemma signed_frame_received {M} `{CodecLaws M} priv id k (m : M) fr :
  signed_frame priv id k m = Some fr → blen fr <= MaxFrameBytes →
  length priv = 64%nat ∧ length id = 32%nat ∧
  ∃ env, UnmarshalFrame fr = Ok env ∧ fe_Kind env = k ∧ Unmarshal (fe_Payload env) = Some m ∧
         Verify (ed25519_Public priv) (fe_Payload env) (fe_SenderSig env) = true.
Proof.
  unfold signed_frame. intros Hf Hl. destruct (Marshal m) as [p|] eqn:Ep; [|done].
  destruct (Fed_SignEnvelope _ _ _ _) as [env|] eqn:Es; [|done].
  destruct (MarshalFrame env) as [b|] eqn:Em; [|done]. injection Hf as ->.
  pose proof (SignEnvelope_verifies _ _ _ _ _ Es) as [_ Hv]%VerifyEnvelope_None.
  apply SignEnvelope_inv in Es as (? & ? & _ & ->). split_and!; [done..|].
  eexists. split_and!; [by apply UnmarshalFrame_MarshalFrame|done| |done].
  by apply Unmarshal_Marshal.
Qed.

Lemma recvKind_frame fr rest out n env k :
  UnmarshalFrame fr = Ok env → fe_Kind env = k →
  recvKind k {| hc_in := fr :: rest; hc_out := out; hc_sends := n |}
  = (Ok env, {| hc_in := rest; hc_out := out; hc_sends := n |}).
Proof.
  intros Hu Hk. unfold recvKind. simpl. rewrite Hu, bool_decide_eq_true_2 by done. done.
Qed.

Lemma recvKind_Ok k c env c' :
  recvKind k c = (Ok env, c') →
  ∃ fr, hc_in c = fr :: hc_in c' ∧ UnmarshalFrame fr = Ok env ∧ fe_Kind env = k.
Proof.
  unfold recvKind, conn_Recv. destruct (hc_in c) as [|fr l] eqn:Ei; [done|].
  destruct (UnmarshalFrame fr) eqn:Eu; [|done]. destruct (bool_decide_reflect (fe_Kind a = k)); [|done].
  simpl. intros [= <- <-]. by exists fr.
Qed.

Lemma send_signed_frame {M} `{Codec M} priv id k (m : M) fr ins out n :
  signed_frame priv id k m = Some fr →
  send_signed priv id k m {| hc_in := ins; hc_out := out; hc_sends := S n |}
  = (Ok tt, {| hc_in := ins; hc_out := out ++ [fr]; hc_sends := n |}).
Proof. unfold send_signed. by intros ->. Qed.

Lemma send_signed_in {M} `{Codec M} priv id k (m : M) c r c' :
  send_signed priv id k m c = (r, c') → hc_in c' = hc_in c.
Proof.
  unfold send_signed, conn_Send, gfail. repeat case_match; intros; simplify_eq; done.
Qed.

Lemma sendHello_frame priv id nonce fr ins out n :
  signed_frame priv id KIND_HELLO (my_hello id nonce) = Some fr →
  length id = 32%nat → length nonce = 32%nat →
  sendHello priv id nonce {| hc_in := ins; hc_out := out; hc_sends := S n |}
  = (Ok tt, {| hc_in := ins; hc_out := out ++ [fr]; hc_sends := n |}).
Proof.
  intros Hf Hi Hn. unfold sendHello, ValidateHello. simpl.
  unfold blen, TrackerIDLen, NonceLen. rewrite Hi, Hn. simpl. by apply send_signed_frame.
Qed.

Lemma sendPeerAuth_frame priv id nonce fr ins out n :
  signed_frame priv id KIND_PEER_AUTH (peer_auth priv nonce) = Some fr → length priv = 64%nat →
  sendPeerAuth priv id nonce {| hc_in := ins; hc_out := out; hc_sends := S n |}
  = (Ok tt, {| hc_in := ins; hc_out := out ++ [fr]; hc_sends := n |}).
Proof.
  intros Hf Hp. unfold sendPeerAuth, ValidatePeerAuth. simpl.
  unfold blen, SigLen. rewrite Sign_length by done. simpl. by apply send_signed_frame.
Qed.

(** A hello is accepted from the peer it names, when its key is the one expected. *)
Lemma validatePeerHello_frame priv id nonce env expected :
  Unmarshal (fe_Payload env) = Some (my_hello id nonce) →
  Verify (ed25519_Public priv) (fe_Payload env) (fe_SenderSig env) = true →
  length id = 32%nat → length nonce = 32%nat →
  expected !! id = Some (ed25519_Public priv) → id = sha256 (ed25519_Public priv) →
  validatePeerHello env expected = Ok (id, ed25519_Public priv, nonce, SupportedFeatures).
Proof.
  intros Hu Hv Hi Hn He Hid. unfold validatePeerHello, ValidateHello. rewrite Hu.
  cbn [he_TrackerId he_Nonce he_ProtocolVersion he_Features my_hello].
  unfold blen, TrackerIDLen, NonceLen. rewrite Hi, Hn. cbn -[copy32 SupportedFeatures].
  rewrite copy32_id by done. rewrite He, Hv. cbn -[SupportedFeatures].
  by rewrite bool_decide_eq_true_2.
Qed.

Lemma validatePeerAuth_frame priv nonce env :
  Unmarshal (fe_Payload env) = Some (peer_auth priv nonce) →
  Verify (ed25519_Public priv) (fe_Payload env) (fe_SenderSig env) = true →
  length priv = 64%nat → validatePeerAuth env (ed25519_Public priv) nonce = None.
Proof.
  intros Hu Hv Hp. unfold validatePeerAuth, ValidatePeerAuth. rewrite Hu. simpl.
  unfold blen, SigLen. rewrite Sign_length by done. simpl. rewrite Hv. simpl.
  unfold Verify, PublicKeySize, SignatureSize, blen.
  by rewrite Public_length, Sign_length, Verify_Sign by done.
Qed.

Lemma validatePeerHello_Ok env expected id pub nonce fs :
  validatePeerHello env expected = Ok (id, pub, nonce, fs) →
  expected !! id = Some pub ∧ id = sha256 pub ∧
  Verify pub (fe_Payload env) (fe_SenderSig env) = true.
Proof.
  unfold validatePeerHello. repeat case_match; try done. intros [= <- <- <- <-].
  repeat match goal with E : negb _ = false |- _ => apply negb_false_iff in E end.
  split_and!; [done| |done]. symmetry. by eapply bool_decide_eq_true_1.
Qed.

Lemma sendHello_in priv id nonce c r c' : sendHello priv id nonce c = (r, c') → hc_in c' = hc_in c.
Proof.
  unfold sendHello. case_match; [unfold gfail; intros; simplify_eq; done|apply send_signed_in].
Qed.

Lemma sendPeerAuth_in priv id nonce c r c' :
  sendPeerAuth priv id nonce c = (r, c') → hc_in c' = hc_in c.
Proof.
  unfold sendPeerAuth. case_match; [unfold gfail; intros; simplify_eq; done|apply send_signed_in].
Qed.

Lemma validatePeerAuth_None env pub nonce :
  validatePeerAuth env pub nonce = None →
  ∃ auth, Unmarshal (fe_Payload env) = Some auth ∧ Verify pub nonce (pa_NonceSig auth) = true.
Proof.
  unfold validatePeerAuth. repeat case_match; try done. intros _.
  repeat match goal with E : negb _ = false |- _ => apply negb_false_iff in E end. eauto.
Qed.
End facts.

(** ** What the handshake promises *)

Section promises.
Context `{CryptoLaws} `{FedWireLaws}.

(** [c] received a signature under [pub] of the fresh [nonce]. *)
Definition proved_key (c : HSConn) (nonce pub : bytes) : Prop :=
  ∃ fr env auth, fr ∈ hc_in c ∧ UnmarshalFrame fr = Ok env ∧ fe_Kind env = KIND_PEER_AUTH ∧
    Unmarshal (fe_Payload env) = Some auth ∧ Verify pub nonce (pa_NonceSig auth) = true.

(** The tracker with this key and id, able to say hello with [nonce] in the frame [fr]. *)
Definition greets (priv id nonce fr : bytes) : Prop :=
  id = sha256 (ed25519_Public priv) ∧ length nonce = 32%nat ∧
  signed_frame priv id KIND_HELLO (my_hello id nonce) = Some fr ∧ blen fr <= MaxFrameBytes.

(** ... able to answer [nonce] in [fr], ... *)
Definition answers (priv id nonce fr : bytes) : Prop :=
  signed_frame priv id KIND_PEER_AUTH (peer_auth priv nonce) = Some fr ∧ blen fr <= MaxFrameBytes.

(** ... and to accept in [fr]. *)
Definition accepts (priv id fr : bytes) : Prop :=
  signed_frame priv id KIND_PEERING_ACCEPT (accept_msg Hour 100) = Some fr ∧
  blen fr <= MaxFrameBytes.

Definition fresh_conn (frames : list bytes) (sends : nat) : HSConn :=
  {| hc_in := frames; hc_out := []; hc_sends := sends |}.

Definition result_for (id pub : bytes) : HandshakeResult :=
  {| hr_PeerTrackerID := id; hr_PeerPubKey := pub; hr_DedupeTTL := Hour; hr_GossipRateQPS := 100;
     hr_PeerFeatures := SupportedFeatures |}.

Ltac hs_step E := rewrite (gbind_eq _ _ _ _ _ E).

Lemma signed_frame_priv {M} `{Codec M} priv id k (m : M) fr :
  signed_frame priv id k m = Some fr → length priv = 64%nat.
Proof.
  unfold signed_frame. destruct (Marshal m); [|done].
  destruct (Fed_SignEnvelope _ _ _ _) eqn:E; [|done]. by apply SignEnvelope_inv in E as [? _].
Qed.

(** The dialer's run on the frames of the listener. *)
Lemma dialer_run privD idD nD privL idL nL hD hL aD aL ac n :
  greets privD idD nD hD → greets privL idL nL hL →
  answers privD idD nL aD → answers privL idL nD aL → accepts privL idL ac →
  RunHandshakeDialer idD privD nD idL (ed25519_Public privL) (fresh_conn [hL; aL; ac] (S (S n)))
  = (Ok (result_for idL (ed25519_Public privL)), {| hc_in := []; hc_out := [hD; aD]; hc_sends := n |}).
Proof.
  intros (-> & HnD & HhD & _) (HidL & HnL & HhL & HhLl) [HaD _] [HaL HaLl] [Hac Hacl].
  destruct (signed_frame_received _ _ _ _ _ HhL HhLl) as (HpL & HlL & eh & Hu1 & Hk1 & Hm1 & Hv1).
  destruct (signed_frame_received _ _ _ _ _ HaL HaLl) as (_ & _ & ea & Hu2 & Hk2 & Hm2 & Hv2).
  destruct (signed_frame_received _ _ _ _ _ Hac Hacl) as (_ & _ & ec & Hu3 & Hk3 & Hm3 & Hv3).
  pose proof (signed_frame_priv _ _ _ _ _ HaD) as HpD.
  unfold RunHandshakeDialer, fresh_conn.
  hs_step (sendHello_frame _ _ _ _ [hL; aL; ac] [] (S n) HhD (sha256_length _) HnD).
  hs_step (recvKind_frame hL [aL; ac] ([] ++ [hD]) (S n) _ _ Hu1 Hk1).
  rewrite (gbind_eq (glift _) _ _ (idL, ed25519_Public privL, nL, SupportedFeatures) _) by
    (apply glift_Ok; split; [|done]; apply (validatePeerHello_frame privL idL nL); try done;
     apply lookup_singleton_eq).
  hs_step (sendPeerAuth_frame _ _ _ _ [aL; ac] ([] ++ [hD]) n HaD HpD).
  hs_step (recvKind_frame aL [ac] (([] ++ [hD]) ++ [aD]) n _ _ Hu2 Hk2).
  rewrite (validatePeerAuth_frame privL nD ea Hm2 Hv2 HpL). cbn [glift_err].
  hs_step (eq_refl (gret (S:=HSConn) (E:=FErr) tt {| hc_in := [ac]; hc_out := ([] ++ [hD]) ++ [aD]; hc_sends := n |})).
  hs_step (recvKind_frame ac [] (([] ++ [hD]) ++ [aD]) n _ _ Hu3 Hk3).
  rewrite Hv3, Hm3. cbn [negb]. unfold gret, result_for. simpl.
  do 2 f_equal.
Qed.

(** The listener's run on the frames of a tracker it expects. *)
Lemma listener_run privD idD nD privL idL nL hD hL aD aL ac expected n :
  greets privD idD nD hD → greets privL idL nL hL →
  answers privD idD nL aD → answers privL idL nD aL → accepts privL idL ac →
  expected !! idD = Some (ed25519_Public privD) →
  RunHandshakeListener idL privL nL expected (fresh_conn [hD; aD] (S (S (S n))))
  = (Ok (result_for idD (ed25519_Public privD)),
     {| hc_in := []; hc_out := [hL; aL; ac]; hc_sends := n |}).
Proof.
  intros (HidD & HnD & HhD & HhDl) (-> & HnL & HhL & HhLl) [HaD HaDl] [HaL _] [Hac _] He.
  destruct (signed_frame_received _ _ _ _ _ HhD HhDl) as (HpD & HlD & eh & Hu1 & Hk1 & Hm1 & Hv1).
  destruct (signed_frame_received _ _ _ _ _ HaD HaDl) as (_ & _ & ea & Hu2 & Hk2 & Hm2 & Hv2).
  destruct (signed_frame_received _ _ _ _ _ HhL HhLl) as (HpL & _).
  unfold RunHandshakeListener, fresh_conn.
  hs_step (recvKind_frame hD [aD] [] (S (S (S n))) _ _ Hu1 Hk1).
  rewrite (gbind_eq (glift _) _ _ (idD, ed25519_Public privD, nD, SupportedFeatures) _) by
    (apply glift_Ok; split; [|done]; by apply (validatePeerHello_frame privD idD nD)).
  hs_step (sendHello_frame _ _ _ _ [aD] [] (S (S n)) HhL (sha256_length _) HnL).
  hs_step (recvKind_frame aD [] ([] ++ [hL]) (S (S n)) _ _ Hu2 Hk2).
  rewrite (validatePeerAuth_frame privD nL ea Hm2 Hv2 HpD). cbn [glift_err].
  hs_step (eq_refl (gret (S:=HSConn) (E:=FErr) tt {| hc_in := []; hc_out := [] ++ [hL]; hc_sends := S (S n) |})).
  hs_step (sendPeerAuth_frame _ _ _ _ [] ([] ++ [hL]) (S n) HaL HpL).
  unfold sendAccept. hs_step (send_signed_frame _ _ _ _ _ [] (([] ++ [hL]) ++ [aL]) n Hac).
  done.
Qed.

(** Two trackers that list each other peer. When the frames can be encoded and fit, and
    neither link breaks, the dialer's run on the listener's frames sends exactly the frames
    the listener's run reads, and conversely; both succeed, and each learns the other's id
    and key, the same gossip terms and all the features of this build. *)
Lemma handshake_completes privD idD nD privL idL nL hD hL aD aL ac expected n m :
  greets privD idD nD hD → greets privL idL nL hL →
  answers privD idD nL aD → answers privL idL nD aL → accepts privL idL ac →
  expected !! idD = Some (ed25519_Public privD) →
  let d := RunHandshakeDialer idD privD nD idL (ed25519_Public privL)
             (fresh_conn [hL; aL; ac] (S (S n))) in
  let l := RunHandshakeListener idL privL nL expected (fresh_conn [hD; aD] (S (S (S m)))) in
  fst d = Ok (result_for idL (ed25519_Public privL)) ∧
  fst l = Ok (result_for idD (ed25519_Public privD)) ∧
  hc_out (snd d) = [hD; aD] ∧ hc_out (snd l) = [hL; aL; ac].
Proof.
  intros HgD HgL HaD HaL Hac He d l. subst d l.
  rewrite (dialer_run privD idD nD privL idL nL hD hL aD aL ac n) by done.
  by rewrite (listener_run privD idD nD privL idL nL hD hL aD aL ac expected m).
Qed.

Lemma features_ours fs : NegotiateFeatures SupportedFeatures fs ⊆ SupportedFeatures.
Proof. intros x. unfold NegotiateFeatures. by rewrite negotiate_elem; intros [? _]. Qed.

Lemma auth_step c s env s' pub nonce x r :
  (∀ f, f ∈ hc_in s → f ∈ hc_in c) → recvKind KIND_PEER_AUTH s = (Ok env, s') →
  glift_err (validatePeerAuth env pub nonce) s' = (Ok x, r) → proved_key c nonce pub.
Proof.
  intros Hs (fr & Hf & Hu & Hk)%recvKind_Ok Hg. unfold glift_err, gfail in Hg.
  destruct (validatePeerAuth _ _ _) eqn:Ev; [done|].
  apply validatePeerAuth_None in Ev as (auth & ? & ?). exists fr, env, auth.
  split_and!; try done. apply Hs. rewrite Hf. left.
Qed.

Lemma dialer_authenticates myID priv nonce peerID peerPub c r c' :
  RunHandshakeDialer myID priv nonce peerID peerPub c = (Ok r, c') →
  hr_PeerTrackerID r = peerID ∧ hr_PeerPubKey r = peerPub ∧ peerID = sha256 peerPub ∧
  proved_key c nonce peerPub ∧ hr_PeerFeatures r ⊆ SupportedFeatures.
Proof.
  unfold RunHandshakeDialer. intros Hr. do 3 go_run Hr. destruct a1 as [[[id pub] n'] fs].
  do 4 go_run Hr. repeat case_match; try done. injection Hr as <-.
  cbn [hr_PeerTrackerID hr_PeerPubKey hr_PeerFeatures].
  apply validatePeerHello_Ok in E1 as ([<- <-]%lookup_singleton_Some & -> & _).
  apply sendHello_in in E. apply recvKind_Ok in E0 as (f1 & Ef & _). apply sendPeerAuth_in in E2.
  split_and!; [done..| |by apply features_ours].
  eapply (auth_step c s1); [|done|done]. rewrite E2, <- E, Ef. by intros f ?; right.
Qed.

Lemma listener_authenticates myID priv nonce expected c r c' :
  RunHandshakeListener myID priv nonce expected c = (Ok r, c') →
  expected !! hr_PeerTrackerID r = Some (hr_PeerPubKey r) ∧
  hr_PeerTrackerID r = sha256 (hr_PeerPubKey r) ∧
  proved_key c nonce (hr_PeerPubKey r) ∧ hr_PeerFeatures r ⊆ SupportedFeatures.
Proof.
  unfold RunHandshakeListener. intros Hr. do 2 go_run Hr. destruct a0 as [[[id pub] n'] fs].
  do 5 go_run Hr. apply gret_Ok in Hr as [-> ->].
  cbn [hr_PeerTrackerID hr_PeerPubKey hr_PeerFeatures].
  apply validatePeerHello_Ok in E0 as (? & ? & _).
  apply recvKind_Ok in E as (f1 & Ef & _). apply sendHello_in in E1.
  split_and!; [done..| |by apply features_ours].
  eapply (auth_step c s0); [|done|done]. rewrite E1, Ef. by intros f ?; right.
Qed.

(** C26: whom a handshake that succeeds has authenticated. The peer reported is one that was
    expected, under the key it was expected with, its id is the hash of that key, a signature
    under that key of the nonce drawn for this very handshake has been received, and only
    features of this build are agreed on. The dialer, in addition, has the peer it dialled. *)
Theorem handshake_authenticates myID priv nonce peerID peerPub expected c r c' :
  (RunHandshakeDialer myID priv nonce peerID peerPub c = (Ok r, c') →
   hr_PeerTrackerID r = peerID ∧ hr_PeerPubKey r = peerPub ∧ peerID = sha256 peerPub ∧
   proved_key c nonce peerPub ∧ hr_PeerFeatures r ⊆ SupportedFeatures) ∧
  (RunHandshakeListener myID priv nonce expected c = (Ok r, c') →
   expected !! hr_PeerTrackerID r = Some (hr_PeerPubKey r) ∧
   hr_PeerTrackerID r = sha256 (hr_PeerPubKey r) ∧
   proved_key c nonce (hr_PeerPubKey r) ∧ hr_PeerFeatures r ⊆ SupportedFeatures).
Proof. split; [apply dialer_authenticates|apply listener_authenticates]. Qed.

(** The handshake does not bind the connection it runs on. Let D peer with E and with L.
    When D dials E, and E answers with a hello that carries the nonce L has sent E, D sends
    two frames; these two frames, passed on by E, make L accept the connection, whose other
    end is E, as D's. Nothing in [RunHandshakeListener] compares the key of the transport
    ([PeerConn.RemotePub]) with the key the handshake has authenticated. *)
Lemma handshake_relayed privD idD nD privE idE privL idL nL hD hE hL aD aL ac expected n m :
  greets privD idD nD hD → greets privE idE nL hE → greets privL idL nL hL →
  answers privD idD nL aD → answers privL idL nD aL → accepts privL idL ac →
  expected !! idD = Some (ed25519_Public privD) →
  hc_out (snd (RunHandshakeDialer idD privD nD idE (ed25519_Public privE)
                 (fresh_conn [hE] (S (S n))))) = [hD; aD] ∧
  fst (RunHandshakeListener idL privL nL expected (fresh_conn [hD; aD] (S (S (S m)))))
  = Ok (result_for idD (ed25519_Public privD)).
Proof.
  intros HgD HgE HgL HaD HaL Hac He. split.
  - destruct HgD as (-> & HnD & HhD & _), HgE as (HidE & HnL & HhE & HhEl), HaD as [HaD _].
    destruct (signed_frame_received _ _ _ _ _ HhE HhEl) as (HpE & HlE & eh & Hu1 & Hk1 & Hm1 & Hv1).
    pose proof (signed_frame_priv _ _ _ _ _ HaD) as HpD. unfold RunHandshakeDialer, fresh_conn.
    hs_step (sendHello_frame _ _ _ _ [hE] [] (S n) HhD (sha256_length _) HnD).
    hs_step (recvKind_frame hE [] ([] ++ [hD]) (S n) _ _ Hu1 Hk1).
    rewrite (gbind_eq (glift _) _ _ (idE, ed25519_Public privE, nL, SupportedFeatures) _) by
      (apply glift_Ok; split; [|done]; apply (validatePeerHello_frame privE idE nL); try done;
       apply lookup_singleton_eq).
    by hs_step (sendPeerAuth_frame _ _ _ _ [] ([] ++ [hD]) n HaD HpD).
  - by rewrite (listener_run privD idD nD privL idL nL hD hL aD aL ac expected m).
Qed.
End promises.

(** ** Witnesses *)

Section witnesses.
#[local] Existing Instances ToyCrypto ToyCryptoLaws ToyFedWire ToyFedWireLaws.

Definition w_key (b : byte) : bytes := replicate 64 b.
Definition w_id (b : byte) : bytes := sha256 (ed25519_Public (w_key b)).
Definition w_nonce (b : byte) : bytes := replicate 32 b.
Definition w_hello (b n : byte) : bytes :=
  default [] (signed_frame (w_key b) (w_id b) KIND_HELLO (my_hello (w_id b) (w_nonce n))).
Definition w_auth (b n : byte) : bytes :=
  default [] (signed_frame (w_key b) (w_id b) KIND_PEER_AUTH (peer_auth (w_key b) (w_nonce n))).
Definition w_accept (b : byte) : bytes :=
  default [] (signed_frame (w_key b) (w_id b) KIND_PEERING_ACCEPT (accept_msg Hour 100)).

Lemma w_greets b n :
  match signed_frame (w_key b) (w_id b) KIND_HELLO (my_hello (w_id b) (w_nonce n)) with
  | Some fr => blen fr <=? MaxFrameBytes | None => false end = true →
  greets (w_key b) (w_id b) (w_nonce n) (w_hello b n).
Proof.
  unfold w_hello. destruct (signed_frame _ _ _ _) eqn:E; [|done]. intros Hl.
  split_and!; [reflexivity|reflexivity|exact E|simpl; lia].
Qed.

Lemma w_answers b n :
  match signed_frame (w_key b) (w_id b) KIND_PEER_AUTH (peer_auth (w_key b) (w_nonce n)) with
  | Some fr => blen fr <=? MaxFrameBytes | None => false end = true →
  answers (w_key b) (w_id b) (w_nonce n) (w_auth b n).
Proof.
  unfold w_auth. destruct (signed_frame _ _ _ _) eqn:E; [|done]. intros Hl.
  split; [exact E|simpl; lia].
Qed.

Lemma w_accepts b :
  match signed_frame (w_key b) (w_id b) KIND_PEERING_ACCEPT (accept_msg Hour 100) with
  | Some fr => blen fr <=? MaxFrameBytes | None => false end = true →
  accepts (w_key b) (w_id b) (w_accept b).
Proof.
  unfold w_accept. destruct (signed_frame _ _ _ _) eqn:E; [|done]. intros Hl.
  split; [exact E|simpl; lia].
Qed.

Lemma handshake_completes_witness :
  fst (RunHandshakeDialer (w_id Byte.x01) (w_key Byte.x01) (w_nonce Byte.x11) (w_id Byte.x02)
         (ed25519_Public (w_key Byte.x02))
         (fresh_conn [w_hello Byte.x02 Byte.x12; w_auth Byte.x02 Byte.x11; w_accept Byte.x02] 2))
  = Ok (result_for (w_id Byte.x02) (ed25519_Public (w_key Byte.x02))).
Proof.
  refine (proj1 (@handshake_completes ToyCrypto ToyCryptoLaws ToyFedWire ToyFedWireLaws
    (w_key Byte.x01) (w_id Byte.x01) (w_nonce Byte.x11) (w_key Byte.x02) (w_id Byte.x02) (w_nonce Byte.x12)
    (w_hello Byte.x01 Byte.x11) _ (w_auth Byte.x01 Byte.x12) _ _
    {[w_id Byte.x01 := ed25519_Public (w_key Byte.x01)]} 0 0 _ _ _ _ _ _)).
  - apply w_greets. vm_compute. reflexivity.
  - apply w_greets. vm_compute. reflexivity.
  - apply w_answers. vm_compute. reflexivity.
  - apply w_answers. vm_compute. reflexivity.
  - apply w_accepts. vm_compute. reflexivity.
  - apply lookup_singleton_eq.
Defined.

Lemma handshake_authenticates_witness :
  proved_key (fresh_conn [w_hello Byte.x01 Byte.x11; w_auth Byte.x01 Byte.x12] 3) (w_nonce Byte.x12)
    (ed25519_Public (w_key Byte.x01)).
Proof.
  assert (RunHandshakeListener (w_id Byte.x02) (w_key Byte.x02) (w_nonce Byte.x12)
            {[w_id Byte.x01 := ed25519_Public (w_key Byte.x01)]}
            (fresh_conn [w_hello Byte.x01 Byte.x11; w_auth Byte.x01 Byte.x12] 3)
          = (Ok (result_for (w_id Byte.x01) (ed25519_Public (w_key Byte.x01))),
             {| hc_in := []; hc_sends := 0;
                hc_out := [w_hello Byte.x02 Byte.x12; w_auth Byte.x02 Byte.x11; w_accept Byte.x02] |})) as E.
  { apply (listener_run (w_key Byte.x01) (w_id Byte.x01) (w_nonce Byte.x11)).
    - apply w_greets. vm_compute. reflexivity.
    - apply w_greets. vm_compute. reflexivity.
    - apply w_answers. vm_compute. reflexivity.
    - apply w_answers. vm_compute. reflexivity.
    - apply w_accepts. vm_compute. reflexivity.
    - apply lookup_singleton_eq. }
  exact (proj1 (proj2 (proj2 (proj2 (handshake_authenticates _ _ _ [] [] _ _ _ _) E)))).
Defined.

Lemma handshake_relayed_witness :
  fst (RunHandshakeListener (w_id Byte.x02) (w_key Byte.x02) (w_nonce Byte.x12)
         {[w_id Byte.x01 := ed25519_Public (w_key Byte.x01)]}
         (fresh_conn [w_hello Byte.x01 Byte.x11; w_auth Byte.x01 Byte.x12] 3))
  = Ok (result_for (w_id Byte.x01) (ed25519_Public (w_key Byte.x01))).
Proof.
  refine (proj2 (@handshake_relayed ToyCrypto ToyCryptoLaws ToyFedWire ToyFedWireLaws
    (w_key Byte.x01) (w_id Byte.x01) (w_nonce Byte.x11) (w_key Byte.x03) (w_id Byte.x03)
    (w_key Byte.x02) (w_id Byte.x02) (w_nonce Byte.x12) _ (w_hello Byte.x03 Byte.x12)
    (w_hello Byte.x02 Byte.x12) _ (w_auth Byte.x02 Byte.x11) (w_accept Byte.x02) _ 0 0 _ _ _ _ _ _ _)).
  - apply w_greets. vm_compute. reflexivity.
  - apply w_greets. vm_compute. reflexivity.
  - apply w_greets. vm_compute. reflexivity.
  - apply w_answers. vm_compute. reflexivity.
  - apply w_answers. vm_compute. reflexivity.
  - apply w_accepts. vm_compute. reflexivity.
  - apply lookup_singleton_eq.
Defined.
End witnesses.
