(* ===== verification/Federation.v ===== *)
(** tracker/internal/federation: the subsystem that owns the peers of a tracker. Its state,
    gossip.go, unicast.go, rootattest.go, equivocation.go, revocation.go, peerexchange.go,
    publisher.go, the dispatcher and the entry points of subsystem.go, the tickers of
    health_watcher.go and known_peers_pruner.go, config.go and the backoff of dialer.go.

    The storage is known through the interfaces of the package ([PeerRootArchive],
    [PeerRevocationArchive], [KnownPeersArchive], [RootSource]), over a state [L] shared with
    the coordinator of transfers; [store_deps] is the wiring of cmd/token-bay-tracker. A
    connection is a number: what is at its other end ([RemotePub], [RemoteAddr]) and what
    the transport makes of a frame ([Link]) are parameters, and the closed ones are a set.
    A handler is a function of the state; frames sent and the increments of
    [invalid_frames_total] go to the log of the transfer coordinator, the other metrics are
    not modelled. The clock is read once per call. A range over the map of peers is in the
    order of [map_to_list]. *)
From stdpp Require Import pretty.
From S2P Require Import Prelude Proto Float Signing Entry Storage Ledger Credit FedProto.
From S2P Require Import Transfer Gossip Handshake.
From Stdlib Require Import Floats.SpecFloat.

(** ** Configuration *)

Record AllowlistedPeer := { al_TrackerID : bytes; al_PubKey : bytes; al_Addr : string; al_Region : string }.

Record FedConfig := {
  fc_MyTrackerID : bytes; fc_MyPriv : bytes;
  fc_HandshakeTimeout : Z; fc_DedupeTTL : Z; fc_DedupeCap : Z; fc_GossipRateQPS : Z;
  fc_SendQueueDepth : Z; fc_PublishCadence : Z; fc_IdleTimeout : Z;
  fc_RedialBase : Z; fc_RedialMax : Z; fc_TransferTimeout : Z; fc_IssuedProofCap : Z;
  fc_Peers : list AllowlistedPeer; fc_Health : HealthConfig; fc_PeerExchangeCadence : Z;
  fc_RateLimit : RateLimitConfig; fc_KnownPeersPruneInterval : Z; fc_KnownPeersMaxAge : Z;
  fc_LowHealthThreshold : spec_float; fc_LowHealthSustainedWindow : Z; fc_HealthWatchInterval : Z
}.

(** [if c.X == 0 { c.X = d }] *)
Definition or_default (x d : Z) : Z := if x =? 0 then d else x.

Definition Minute : Z := 60 * Second.

(** 0.2 *)
Definition f64_fifth : spec_float := f64_div (f64_of_int 1) (f64_of_int 5).

Definition withDefaults (c : FedConfig) : FedConfig :=
  let base := or_default (fc_RedialBase c) Second in
  let max := or_default (fc_RedialMax c) (30 * Second) in
  {| fc_MyTrackerID := fc_MyTrackerID c; fc_MyPriv := fc_MyPriv c;
     fc_HandshakeTimeout := or_default (fc_HandshakeTimeout c) (5 * Second);
     fc_DedupeTTL := or_default (fc_DedupeTTL c) Hour;
     fc_DedupeCap := or_default (fc_DedupeCap c) 65536;
     fc_GossipRateQPS := or_default (fc_GossipRateQPS c) 100;
     fc_SendQueueDepth := or_default (fc_SendQueueDepth c) 256;
     fc_PublishCadence := or_default (fc_PublishCadence c) Hour;
     fc_IdleTimeout := or_default (fc_IdleTimeout c) (60 * Second);
     fc_RedialBase := base; fc_RedialMax := if max <? base then base else max;
     fc_TransferTimeout := or_default (fc_TransferTimeout c) (30 * Second);
     fc_IssuedProofCap := or_default (fc_IssuedProofCap c) 4096;
     fc_Peers := fc_Peers c; fc_Health := fc_Health c;
     fc_PeerExchangeCadence := or_default (fc_PeerExchangeCadence c) Hour;
     fc_RateLimit := fc_RateLimit c;
     fc_KnownPeersPruneInterval := or_default (fc_KnownPeersPruneInterval c) Hour;
     fc_KnownPeersMaxAge := or_default (fc_KnownPeersMaxAge c) (7 * (24 * Hour));
     fc_LowHealthThreshold :=
       if SFeqb (fc_LowHealthThreshold c) f64_zero then f64_fifth else fc_LowHealthThreshold c;
     fc_LowHealthSustainedWindow := or_default (fc_LowHealthSustainedWindow c) (30 * Minute);
     fc_HealthWatchInterval := or_default (fc_HealthWatchInterval c) (5 * Minute) |}.

(** ** The storage, as the package sees it *)

Record PeerRootArchive (L : Type) := {
  arch_PutPeerRoot : PeerRoot → GoM L SErr unit;
  arch_GetPeerRoot : bytes → Z → L → res SErr (option PeerRoot)
}.

Record PeerRevocationArchive (L : Type) := {
  arch_PutPeerRevocation : PeerRevocation → GoM L SErr unit
}.

Record KnownPeersArchive (L : Type) := {
  arch_UpsertKnownPeer : KnownPeer → GoM L SErr unit;
  arch_ListKnownPeers : Z → bool → L → res SErr (list KnownPeer);
  arch_UpdateKnownPeerHealth : bytes → spec_float → GoM L SErr unit;
  arch_DeleteStaleKnownPeers : Z → GoM L SErr Z
}.

(** [Deps]; [RootSource] is its one method. *)
Record FedDeps (L : Type) := {
  dep_RootSrc : Z → L → res SErr (option (bytes * bytes));
  dep_Archive : PeerRootArchive L;
  dep_Ledger : option (LedgerHooks L);
  dep_RevocationArchive : option (PeerRevocationArchive L);
  dep_KnownPeers : option (KnownPeersArchive L)
}.

#[global] Arguments arch_PutPeerRoot {_} _ _ _.
#[global] Arguments arch_GetPeerRoot {_} _ _ _ _.
#[global] Arguments arch_PutPeerRevocation {_} _ _ _.
#[global] Arguments arch_UpsertKnownPeer {_} _ _ _.
#[global] Arguments arch_ListKnownPeers {_} _ _ _ _.
#[global] Arguments arch_UpdateKnownPeerHealth {_} _ _ _ _.
#[global] Arguments arch_DeleteStaleKnownPeers {_} _ _ _.
#[global] Arguments dep_RootSrc {_} _ _ _.
#[global] Arguments dep_Archive {_} _.
#[global] Arguments dep_Ledger {_} _.
#[global] Arguments dep_RevocationArchive {_} _.
#[global] Arguments dep_KnownPeers {_} _.

(** ** The state *)

Record Federation (L : Type) := {
  f_reg : PeerMap;
  f_dedupe : Dedupe;
  f_limiter : gossipLimiter;
  f_health : PeerHealth;
  f_selfEquiv : Z;
  f_peers : gmap bytes nat;
  f_shut : gset nat;
  f_closed : bool;
  f_transfer : TState L
}.

#[global] Arguments Build_Federation {_} _ _ _ _ _ _ _ _ _.
#[global] Arguments f_reg {_} _.
#[global] Arguments f_dedupe {_} _.
#[global] Arguments f_limiter {_} _.
#[global] Arguments f_health {_} _.
#[global] Arguments f_selfEquiv {_} _.
#[global] Arguments f_peers {_} _.
#[global] Arguments f_shut {_} _.
#[global] Arguments f_closed {_} _.
#[global] Arguments f_transfer {_} _.

Section setters.
Context {L : Type}.
Implicit Types f : Federation L.

Definition upd_reg g f := Build_Federation (g (f_reg f)) (f_dedupe f) (f_limiter f) (f_health f)
  (f_selfEquiv f) (f_peers f) (f_shut f) (f_closed f) (f_transfer f).
Definition upd_dedupe g f := Build_Federation (f_reg f) (g (f_dedupe f)) (f_limiter f) (f_health f)
  (f_selfEquiv f) (f_peers f) (f_shut f) (f_closed f) (f_transfer f).
Definition upd_limiter g f := Build_Federation (f_reg f) (f_dedupe f) (g (f_limiter f)) (f_health f)
  (f_selfEquiv f) (f_peers f) (f_shut f) (f_closed f) (f_transfer f).
Definition upd_health g f := Build_Federation (f_reg f) (f_dedupe f) (f_limiter f) (g (f_health f))
  (f_selfEquiv f) (f_peers f) (f_shut f) (f_closed f) (f_transfer f).
Definition upd_selfEquiv g f := Build_Federation (f_reg f) (f_dedupe f) (f_limiter f) (f_health f)
  (g (f_selfEquiv f)) (f_peers f) (f_shut f) (f_closed f) (f_transfer f).
Definition upd_peers g f := Build_Federation (f_reg f) (f_dedupe f) (f_limiter f) (f_health f)
  (f_selfEquiv f) (g (f_peers f)) (f_shut f) (f_closed f) (f_transfer f).
Definition upd_shut g f := Build_Federation (f_reg f) (f_dedupe f) (f_limiter f) (f_health f)
  (f_selfEquiv f) (f_peers f) (g (f_shut f)) (f_closed f) (f_transfer f).
Definition upd_closed g f := Build_Federation (f_reg f) (f_dedupe f) (f_limiter f) (f_health f)
  (f_selfEquiv f) (f_peers f) (f_shut f) (g (f_closed f)) (f_transfer f).
Definition upd_transfer (g : TState L → TState L) f := Build_Federation (f_reg f) (f_dedupe f) (f_limiter f) (f_health f)
  (f_selfEquiv f) (f_peers f) (f_shut f) (f_closed f) (g (f_transfer f)).

Definition f_store f : L := t_ledger (f_transfer f).
Definition f_out f : list Effect := t_out (f_transfer f).
Definition f_emit (x : Effect) : Federation L → Federation L := upd_transfer (emit_effect x).

(** [Metrics.InvalidFrames] *)
Definition invalid (name : string) : Federation L → Federation L := f_emit (Count name).

(** A call of the storage. *)
Definition on_store {E A} (m : GoM L E A) : GoM (Federation L) E A := λ f,
  let '(r, l) := m (f_store f) in (r, upd_transfer (set_ledger l) f).

(** [PeerConn.Close] *)
Definition conn_close (c : option nat) (f : Federation L) : Federation L :=
  match c with Some c => upd_shut (λ x, {[c]} ∪ x) f | None => f end.
End setters.

Section federation.
Context `{Crypto} `{Wire} `{FedWire} {L : Type}.
Variable cfg : FedConfig.
Variable deps : FedDeps L.
(** The key at the other end of a connection, its address, and what sending a frame on an
    open connection comes to. *)
Variable RemotePub : nat → bytes.
Variable RemoteAddr : nat → string.
Variable Link : nat → bytes → option FErr.

Implicit Types f : Federation L.

Notation MyTrackerID := (fc_MyTrackerID cfg).
Notation MyPriv := (fc_MyPriv cfg).

(** ** Sending: peer.go, unicast.go, gossip.go *)

Definition peer_Send (c : nat) (frame : bytes) f : option FErr :=
  if decide (c ∈ f_shut f) then Some ErrPeerClosed else Link c frame.

(** The signed frame of a payload. *)
Definition sealed (kind : Kind) (payload : bytes) : res FErr bytes :=
  match Fed_SignEnvelope MyPriv MyTrackerID kind payload with
  | Err e => Err e
  | Ok env => MarshalFrame env
  end.

Definition SendToPeer f (peerID : bytes) (kind : Kind) (payload : bytes) : option FErr :=
  match f_peers f !! peerID with
  | None => Some ErrPeerNotConnected
  | Some c =>
    match sealed kind payload with
    | Err e => Some e
    | Ok frame => peer_Send c frame f
    end
  end.

(** One turn of the loop of [Gossip.Forward]. *)
Definition forward_one (exclude : option bytes) (kind : Kind) (payload frame : bytes) f
    (p : bytes * nat) : Federation L :=
  if bool_decide (exclude = Some p.1) then f else
  match peer_Send p.2 frame f with
  | Some _ => f
  | None => f_emit (Sent p.1 kind payload) f
  end.

Definition Gossip_Forward (exclude : option bytes) (kind : Kind) (payload : bytes) f : Federation L :=
  match sealed kind payload with
  | Err _ => f
  | Ok frame => foldl (forward_one exclude kind payload frame) f (map_to_list (f_peers f))
  end.

(** The closure [forward] of [Open]. *)
Definition forward (now : Z) (kind : Kind) (payload : bytes) f : Federation L :=
  Gossip_Forward None kind payload (upd_dedupe (Mark now (sha256 payload)) f).

(** ** The registry *)

Definition reg_Depeer (id : bytes) : GoM (Federation L) FErr unit := λ f,
  match Peers_Depeer id (f_reg f) with
  | (Err e, _) => (Err e, f)
  | (Ok c, r) => (Ok tt, conn_close c (upd_reg (λ _, r) f))
  end.

(** [Federation.Depeer]: [Stop] closes the connection. *)
Definition Depeer (id : bytes) (reason : DepeerReason) : GoM (Federation L) FErr unit := λ f,
  let f := match f_peers f !! id with
           | Some c => conn_close (Some c) (upd_peers (delete id) f)
           | None => f
           end in
  reg_Depeer id f.

Definition PeerPubKey f (id : bytes) : option bytes := pi_PubKey <$> Peers_Get id (f_reg f).

(** ** Root attestations and equivocation: rootattest.go, equivocation.go *)

(** Depeer the offender in the registry and flag it. *)
Definition punish (offender : bytes) f : Federation L :=
  upd_health (Health_OnEquivocation offender) (snd (reg_Depeer offender f)).

Definition OnLocalConflict (now : Z) (incoming : RootAttestation) f : Federation L :=
  match arch_GetPeerRoot (dep_Archive deps) (ra_TrackerId incoming) (ra_Hour incoming) (f_store f) with
  | Err _ | Ok None => f
  | Ok (Some existing) =>
    let evi := {| ee_TrackerId := ra_TrackerId incoming; ee_Hour := ra_Hour incoming;
                  ee_RootA := pr_Root existing; ee_SigA := pr_Sig existing;
                  ee_RootB := ra_MerkleRoot incoming; ee_SigB := ra_TrackerSig incoming |} in
    match ValidateEquivocationEvidence (Some evi) with
    | Some _ => f
    | None =>
      let payload := default [] (Marshal evi) in
      punish (copy32 (ra_TrackerId incoming)) (forward now KIND_EQUIVOCATION_EVIDENCE payload f)
    end
  end.

Definition OnIncomingEvidence (now : Z) (env : Envelope) (fromPeer : bytes) f : Federation L :=
  match Unmarshal (M := EquivocationEvidence) (fe_Payload env) with
  | None => f
  | Some evi =>
    match ValidateEquivocationEvidence (Some evi) with
    | Some _ => f
    | None =>
      if bool_decide (ee_TrackerId evi = MyTrackerID) then upd_selfEquiv (λ n, n + 1) f
      else punish (copy32 (ee_TrackerId evi))
             (forward now KIND_EQUIVOCATION_EVIDENCE (fe_Payload env) f)
    end
  end.

(** [RootAttestApplier.Apply] *)
Definition Apply (now : Z) (env : Envelope) f : option FErr * Federation L :=
  match Unmarshal (M := RootAttestation) (fe_Payload env) with
  | None => (Some (ErrFed "federation: rootattest unmarshal"), f)
  | Some msg =>
    match ValidateRootAttestation (Some msg) with
    | Some e => (Some (ErrFed e), f)
    | None =>
      if negb (bool_decide (ra_TrackerId msg = fe_SenderId env))
      then (Some (ErrFed "federation: rootattest tracker_id != envelope.sender_id"), f)
      else
        let pr := {| pr_TrackerID := ra_TrackerId msg; pr_Hour := ra_Hour msg;
                     pr_Root := ra_MerkleRoot msg; pr_Sig := ra_TrackerSig msg;
                     pr_ReceivedAt := u64 (Unix now) |} in
        match on_store (arch_PutPeerRoot (dep_Archive deps) pr) f with
        | (Ok _, f) => (None, forward now KIND_ROOT_ATTESTATION (fe_Payload env) f)
        | (Err ErrPeerRootConflict, f) => (Some ErrEquivocation, OnLocalConflict now msg f)
        | (Err _, f) => (Some (ErrFed "federation: archive put"), f)
        end
    end
  end.

(** [Publisher.PublishHour] *)
Definition PublishHour (now hour : Z) f : option FErr * Federation L :=
  match dep_RootSrc deps hour (f_store f) with
  | Err _ => (Some (ErrFed "federation: RootSource"), f)
  | Ok None => (None, f)
  | Ok (Some (root, sig)) =>
    let msg := {| ra_TrackerId := MyTrackerID; ra_Hour := hour; ra_MerkleRoot := root;
                  ra_TrackerSig := sig |} in
    match ValidateRootAttestation (Some msg) with
    | Some e => (Some (ErrFed e), f)
    | None => (None, forward now KIND_ROOT_ATTESTATION (default [] (Marshal msg)) f)
    end
  end.

(** ** Revocations: revocation.go *)

Definition mapReputationReasonToProto (s : string) : RevocationReason :=
  if bool_decide (s = "freeze_repeat") then REVOCATION_REASON_ABUSE
  else if bool_decide (s = "operator") then REVOCATION_REASON_MANUAL
  else REVOCATION_REASON_ABUSE.

(** [uint32(rev.Reason)] *)
Definition reason_num (r : RevocationReason) : Z :=
  match r with
  | REVOCATION_REASON_UNSPECIFIED => 0 | REVOCATION_REASON_ABUSE => 1
  | REVOCATION_REASON_MANUAL => 2 | REVOCATION_REASON_EXPIRED => 3
  | REVOCATION_REASON_OTHER v => u32 v
  end.

(** The row both sides archive. *)
Definition revocation_row (now : Z) (rev : Revocation) : PeerRevocation := {|
  rv_TrackerID := re_TrackerId rev; rv_IdentityID := re_IdentityId rev;
  rv_Reason := reason_num (re_Reason rev); rv_RevokedAt := re_RevokedAt rev;
  rv_TrackerSig := re_TrackerSig rev; rv_ReceivedAt := u64 (Unix now) |}.

Definition unsigned_revocation (identity : bytes) (reason : string) (revokedAt : Z) : Revocation := {|
  re_TrackerId := MyTrackerID; re_IdentityId := identity;
  re_Reason := mapReputationReasonToProto reason; re_RevokedAt := u64 (Unix revokedAt);
  re_TrackerSig := [] |}.

Definition sign_revocation (canonical : bytes) (rev : Revocation) : Revocation := {|
  re_TrackerId := re_TrackerId rev; re_IdentityId := re_IdentityId rev;
  re_Reason := re_Reason rev; re_RevokedAt := re_RevokedAt rev;
  re_TrackerSig := ed25519_Sign MyPriv canonical |}.

Definition OnFreeze (now : Z) (identity : bytes) (reason : string) (revokedAt : Z) f : Federation L :=
  match dep_RevocationArchive deps with
  | None => invalid "revocation_emit_disabled" f
  | Some arch =>
    let rev := unsigned_revocation identity reason revokedAt in
    match CanonicalRevocationPreSig rev with
    | None => invalid "revocation_canonical" f
    | Some canonical =>
      let rev := sign_revocation canonical rev in
      match ValidateRevocation (Some rev) with
      | Some _ => invalid "revocation_self_shape" f
      | None =>
        match Marshal rev with
        | None => invalid "revocation_marshal" f
        | Some payload =>
          let '(r, f) := on_store (arch_PutPeerRevocation arch (revocation_row now rev)) f in
          let f := match r with Err _ => invalid "revocation_archive_self_err" f | Ok _ => f end in
          forward now KIND_REVOCATION payload f
        end
      end
    end
  end.

Definition OnIncoming (now : Z) (env : Envelope) f : Federation L :=
  match dep_RevocationArchive deps with
  | None => invalid "revocation_disabled" f
  | Some arch =>
    match Unmarshal (M := Revocation) (fe_Payload env) with
    | None => invalid "revocation_shape" f
    | Some rev =>
      match ValidateRevocation (Some rev) with
      | Some _ => invalid "revocation_shape" f
      | None =>
        let issuer := copy32 (re_TrackerId rev) in
        match PeerPubKey f issuer with
        | None => invalid "revocation_unknown_issuer" f
        | Some issuerPub =>
          match CanonicalRevocationPreSig rev with
          | None => invalid "revocation_canonical" f
          | Some canonical =>
            if negb (ed25519_Verify issuerPub canonical (re_TrackerSig rev))
            then invalid "revocation_sig" f
            else match on_store (arch_PutPeerRevocation arch (revocation_row now rev)) f with
            | (Err _, f) => invalid "revocation_archive_err" f
            | (Ok _, f) =>
                let f := upd_health (Health_OnRevocation issuer
                                       (time_Unix (i64 (re_RevokedAt rev))) now) f in
                forward now KIND_REVOCATION (fe_Payload env) f
            end
          end
        end
      end
    end
  end.

(** ** Peer exchange: peerexchange.go *)

Definition defaultPeerExchangeEmitCap : Z := 256.

(** One turn of the loop of [EmitNow]: the row's fresh score is written back and packed. *)
Definition emit_row (arch : KnownPeersArchive L) (now : Z) (acc : Federation L * list KnownPeerMsg)
    (r : KnownPeer) : Federation L * list KnownPeerMsg :=
  let '(f, out) := acc in
  let score := Health_Score (fc_Health cfg) (copy32 (kp_TrackerID r)) now (f_health f) in
  let '(res, f) := on_store (arch_UpdateKnownPeerHealth arch (kp_TrackerID r) score) f in
  let f := match res with Err _ => invalid "health_persist" f | Ok _ => f end in
  (f, out ++ [{| km_TrackerId := kp_TrackerID r; km_Addr := kp_Addr r;
                 km_LastSeen := u64 (kp_LastSeen r); km_RegionHint := kp_RegionHint r;
                 km_HealthScore := score |}]).

Definition EmitNow (arch : KnownPeersArchive L) (now : Z) f : option FErr * Federation L :=
  match arch_ListKnownPeers arch defaultPeerExchangeEmitCap true (f_store f) with
  | Err _ => (Some (ErrFed "storage: ListKnownPeers"), f)
  | Ok rows =>
    let '(f, out) := foldl (emit_row arch now) (f, []) rows in
    match Marshal {| px_Peers := out |} with
    | None => (Some (ErrFed "proto: marshal peer exchange"), f)
    | Some payload => (None, forward now KIND_PEER_EXCHANGE payload f)
    end
  end.

Definition PublishPeerExchange (now : Z) f : option FErr * Federation L :=
  match dep_KnownPeers deps with
  | None => (Some ErrPeerExchangeDisabled, f)
  | Some arch => EmitNow arch now f
  end.

(** One turn of the loop of [peerExchangeCoordinator.OnIncoming]. *)
Definition merge_peer (arch : KnownPeersArchive L) f (p : KnownPeerMsg) : Federation L :=
  if bool_decide (km_TrackerId p = MyTrackerID) then f else
  snd (on_store (arch_UpsertKnownPeer arch {|
         kp_TrackerID := km_TrackerId p; kp_Addr := km_Addr p; kp_LastSeen := i64 (km_LastSeen p);
         kp_RegionHint := km_RegionHint p; kp_HealthScore := km_HealthScore p;
         kp_Source := "gossip" |}) f).

Definition OnPeerExchange (arch : KnownPeersArchive L) (now : Z) (env : Envelope)
    (msg : PeerExchange) f : Federation L :=
  forward now KIND_PEER_EXCHANGE (fe_Payload env) (foldl (merge_peer arch) f (px_Peers msg)).

(** ** The dispatcher *)

(** The transfer coordinator's handlers, with [Federation.SendToPeer] as their [Send]. *)
Definition tr_OnRequest (now : Z) (env : Envelope) (from : bytes) f : Federation L :=
  upd_transfer (OnRequest MyTrackerID MyPriv (dep_Ledger deps) (fc_IssuedProofCap cfg)
                  (SendToPeer f) now env from) f.
Definition tr_OnProof (env : Envelope) (from : bytes) : Federation L → Federation L :=
  upd_transfer (OnProof MyTrackerID env from).
Definition tr_OnApplied (env : Envelope) (from : bytes) f : Federation L :=
  upd_transfer (OnApplied MyTrackerID (PeerPubKey f) env from) f.
Definition tr_OnReject (env : Envelope) (from : bytes) f : Federation L :=
  upd_transfer (OnReject (PeerPubKey f) env from) f.
Definition tr_OnReversal (env : Envelope) (from : bytes) f : Federation L :=
  upd_transfer (OnTransferReversal (PeerPubKey f) env from) f.

(** What stands before the switch: the signature under the key of the connection, the rate
    limit, and the set of seen payloads. The result says whether the frame is handled. *)
Definition gate (now : Z) (c : nat) (peerID : bytes) (env : Envelope) f : bool * Federation L :=
  match Fed_VerifyEnvelope (RemotePub c) env with
  | Some _ => (false, invalid "sig" f)
  | None =>
    let '(ok, lim) := Allow now peerID (fe_Kind env) (f_limiter f) in
    let f := upd_limiter (λ _, lim) f in
    if negb ok then (false, invalid "rate_limited" f) else
    let '(seen, d) := Seen now (MessageID env) (f_dedupe f) in
    let f := upd_dedupe (λ _, d) f in
    if seen then (false, invalid "dedupe_replay" f)
    else (true, upd_dedupe (Mark now (MessageID env)) f)
  end.

(** The switch over the kinds. *)
Definition handle (now : Z) (peerID : bytes) (env : Envelope) f : Federation L :=
  match fe_Kind env with
  | KIND_ROOT_ATTESTATION =>
      match Apply now env f with
      | (Some _, f) => f
      | (None, f) => upd_health (Health_OnRootAttestation peerID now) f
      end
  | KIND_EQUIVOCATION_EVIDENCE => OnIncomingEvidence now env peerID f
  | KIND_PING | KIND_PONG => f
  | KIND_TRANSFER_PROOF_REQUEST => tr_OnRequest now env peerID f
  | KIND_TRANSFER_PROOF => tr_OnProof env peerID f
  | KIND_TRANSFER_APPLIED => tr_OnApplied env peerID f
  | KIND_TRANSFER_REJECT => tr_OnReject env peerID f
  | KIND_TRANSFER_REVERSAL => tr_OnReversal env peerID f
  | KIND_REVOCATION => OnIncoming now env f
  | KIND_PEER_EXCHANGE =>
      match dep_KnownPeers deps with
      | None => invalid "peer_exchange_disabled" f
      | Some arch =>
        match Unmarshal (M := PeerExchange) (fe_Payload env) with
        | None => invalid "peer_exchange_unmarshal" f
        | Some msg =>
          match ValidatePeerExchange (Some msg) with
          | Some _ => invalid "peer_exchange_shape" f
          | None => OnPeerExchange arch now env msg f
          end
        end
      end
  | KIND_UNSPECIFIED => invalid "kind_0" f
  | KIND_HELLO => invalid "kind_1" f
  | KIND_PEER_AUTH => invalid "kind_2" f
  | KIND_PEERING_ACCEPT => invalid "kind_3" f
  | KIND_PEERING_REJECT => invalid "kind_4" f
  | KIND_OTHER v => invalid (String.append "kind_" (pretty v)) f
  end.

(** [makeDispatcher]'s callback. *)
Definition dispatch (now : Z) (c : nat) (peerID : bytes) (env : Envelope) f : Federation L :=
  match gate now c peerID env f with
  | (true, f) => handle now peerID env f
  | (false, f) => f
  end.

(** One turn of [recvLoop]: a closed connection yields no frame, a bad frame is skipped. *)
Definition recv_turn (now : Z) (c : nat) (peerID frame : bytes) f : Federation L :=
  if decide (c ∈ f_shut f) then f else
  match UnmarshalFrame frame with
  | Err _ => f
  | Ok env => dispatch now c peerID env f
  end.

(** ** Peers come and go *)

(** [attachPeerLocked]; a closed subsystem drops the connection. [Update] keeps neither the
    region nor the time. *)
Definition attachPeer (res : HandshakeResult) (c : nat) f : Federation L :=
  if f_closed f then f else
  let f := upd_peers <[hr_PeerTrackerID res := c]> f in
  upd_reg (λ r, snd (Peers_Update {|
    pi_TrackerID := hr_PeerTrackerID res; pi_PubKey := hr_PeerPubKey res;
    pi_Addr := RemoteAddr c; pi_Region := ""; pi_State := PeerStateSteady; pi_Conn := Some c;
    pi_Since := 0 |} r)) f.

(** The keys [acceptInbound] expects. *)
Definition expected_peers f : gmap bytes bytes :=
  list_to_map ((λ p, (pi_TrackerID p, pi_PubKey p)) <$> Peers_All (f_reg f)).

(** A connection comes in, or a dialled one is up: the handshake on it, with the nonce drawn,
    then the peer or the closed connection. [hs] is what the connection will carry. *)
Definition after_handshake (c : nat) (r : res FErr HandshakeResult * HSConn) f : HSConn * Federation L :=
  match r with
  | (Err _, hs) => (hs, conn_close (Some c) (invalid "handshake" f))
  | (Ok res, hs) => (hs, attachPeer res c f)
  end.

Definition acceptInbound (c : nat) (nonce : bytes) (hs : HSConn) f : HSConn * Federation L :=
  after_handshake c (RunHandshakeListener MyTrackerID MyPriv nonce (expected_peers f) hs) f.

Definition attachAndWait (p : AllowlistedPeer) (c : nat) (nonce : bytes) (hs : HSConn) f
    : HSConn * Federation L :=
  after_handshake c (RunHandshakeDialer MyTrackerID MyPriv nonce (al_TrackerID p) (al_PubKey p) hs) f.

Definition pending_peer (p : AllowlistedPeer) : PeerInfo := {|
  pi_TrackerID := al_TrackerID p; pi_PubKey := al_PubKey p; pi_Addr := al_Addr p;
  pi_Region := al_Region p; pi_State := PeerStatePending; pi_Conn := None; pi_Since := 0 |}.

(** [AddPeer], up to the dialer it starts. *)
Definition AddPeer (p : AllowlistedPeer) : GoM (Federation L) FErr unit := λ f,
  let '(r, m) := Peers_Add (pending_peer p) (f_reg f) in (r, upd_reg (λ _, m) f).

(** [Close] *)
Definition Close f : Federation L :=
  if f_closed f then f else
  map_fold (λ _ c f, conn_close (Some c) f)
           (upd_peers (λ _, ∅) (upd_closed (λ _, true) f)) (f_peers f).

(** The row [Open] seeds for an allowlisted peer; 0.5 is exact. *)
Definition seed_row (now : Z) (p : AllowlistedPeer) : KnownPeer := {|
  kp_TrackerID := al_TrackerID p; kp_Addr := al_Addr p; kp_LastSeen := Unix now;
  kp_RegionHint := al_Region p; kp_HealthScore := f64_div (f64_of_int 1) (f64_of_int 2);
  kp_Source := "allowlist" |}.

(** [Open], on defaulted configuration and a storage in state [l]. *)
Definition Open (now : Z) (l : L) : Federation L :=
  let f := {| f_reg := ∅; f_dedupe := NewDedupe (fc_DedupeTTL cfg) (fc_DedupeCap cfg);
              f_limiter := newGossipLimiter (fc_RateLimit cfg); f_health := NewPeerHealth;
              f_selfEquiv := 0; f_peers := ∅; f_shut := ∅; f_closed := false;
              f_transfer := newTransferCoordinator l |} in
  let f := foldl (λ f p, snd (AddPeer p f)) f (fc_Peers cfg) in
  match dep_KnownPeers deps with
  | None => f
  | Some arch =>
      foldl (λ f p, snd (on_store (arch_UpsertKnownPeer arch (seed_row now p)) f)) f (fc_Peers cfg)
  end.

(** ** Other entry points *)

Definition Fed_ClearEquivocation (peer : bytes) f : bool * Federation L :=
  let '(b, h) := Health_ClearEquivocation peer (f_health f) in (b, upd_health (λ _, h) f).

Definition HealthScore (now : Z) (id : bytes) f : spec_float :=
  Health_Score (fc_Health cfg) id now (f_health f).

Definition on_transfer {A} (g : TState L → A * TState L) f : A * Federation L :=
  let '(a, t) := g (f_transfer f) in (a, upd_transfer (λ _, t) f).

Definition Fed_IssueTransferReversal (now : Z) (source nonce : bytes) (evidence : string) f
    : res FErr bytes * Federation L :=
  match dep_Ledger deps with
  | None => (Err ErrTransferDisabled, f)
  | Some _ => on_transfer (IssueTransferReversal MyTrackerID MyPriv (SendToPeer f) now source nonce evidence) f
  end.

(** The error [Federation.StartTransfer] makes of the coordinator's. *)
Definition timeout_err {A} (r : res FErr A) : res FErr A :=
  match r with Err ErrDeadlineExceeded => Err ErrTransferTimeout | _ => r end.

(** [Federation.StartTransfer] up to the wait, and from it. *)
Definition Fed_StartTransfer (i : StartTransferInput) f
    : option (res FErr StartTransferOutput) * Federation L :=
  match dep_Ledger deps with
  | None => (Some (Err ErrTransferDisabled), f)
  | Some _ =>
    if negb (Peers_IsActive (st_SourceTrackerID i) (f_reg f))
    then (Some (Err ErrPeerNotConnected), f)
    else
      let '(r, f) := on_transfer (StartTransfer_send MyTrackerID (dep_Ledger deps) (SendToPeer f) i) f in
      (timeout_err <$> r, f)
  end.

Definition Fed_StartTransfer_wake (now : Z) (w : Woken) (i : StartTransferInput) f
    : option (res FErr StartTransferOutput * Federation L) :=
  match StartTransfer_wake MyTrackerID MyPriv (dep_Ledger deps) (fc_IssuedProofCap cfg) (PeerPubKey f)
          (SendToPeer f) now w i (f_transfer f) with
  | None => None
  | Some (r, t) => Some (timeout_err r, upd_transfer (λ _, t) f)
  end.

(** ** Tickers *)

(** One peer's turn in [runHealthWatcherTick]; [below] is [belowSince]. *)
Definition watch_peer (now : Z) (acc : gmap bytes Z * Federation L) (p : PeerInfo)
    : gmap bytes Z * Federation L :=
  let '(below, f) := acc in
  let id := pi_TrackerID p in
  if negb (bool_decide (pi_State p = PeerStateSteady)) then (delete id below, f) else
  if SFltb (HealthScore now id f) (fc_LowHealthThreshold cfg) then
    match below !! id with
    | None => (<[id := now]> below, f)
    | Some since =>
        if fc_LowHealthSustainedWindow cfg <=? time_Sub now since
        then (delete id below, snd (Depeer id ReasonLowHealth f))
        else (below, f)
    end
  else (delete id below, f).

Definition runHealthWatcherTick (now : Z) (below : gmap bytes Z) f : gmap bytes Z * Federation L :=
  foldl (watch_peer now) (below, f) (Peers_All (f_reg f)).

(** The guard of [runHealthWatcher]. *)
Definition watcher_enabled : bool :=
  negb (SFleb (fc_LowHealthThreshold cfg) f64_zero || (fc_LowHealthSustainedWindow cfg <=? 0)).

(** A tick of the pruner; the cutoff is stored in seconds. *)
Definition prune_tick (now : Z) f : Federation L :=
  match dep_KnownPeers deps with
  | None => f
  | Some arch =>
      if (fc_KnownPeersPruneInterval cfg <=? 0) || (fc_KnownPeersMaxAge cfg <=? 0) then f
      else snd (on_store (arch_DeleteStaleKnownPeers arch (Unix (now - fc_KnownPeersMaxAge cfg))) f)
  end.
End federation.

(** ** The redial backoff: dialer.go *)

Definition first_wait (base : Z) : Z := if base <=? 0 then Second else base.

Definition max_wait (base max : Z) : Z :=
  let wait := first_wait base in if max <? wait then wait else max.

Definition next_wait (maxWait wait : Z) : Z :=
  let wait := i64 (wait * 2) in if maxWait <? wait then maxWait else wait.

(** The bounds of the sleeps of [Dialer.Run], given which dials succeed. *)
Fixpoint dial_waits (base maxWait wait : Z) (dials : list bool) : list Z :=
  match dials with
  | [] => []
  | true :: ds => dial_waits base maxWait (first_wait base) ds
  | false :: ds => wait :: dial_waits base maxWait (next_wait maxWait wait) ds
  end.

Definition Dialer_Run (base max : Z) (dials : list bool) : list Z :=
  dial_waits base (max_wait base max) (first_wait base) dials.

(** ** The production wiring *)

(** Storage calls on the store inside the state of the transfer adapter. *)
Definition on_hook_store {E A} (m : GoM Store E A) : GoM HookState E A := λ h,
  let '(r, s) := m (hs_store h) in (r, with_store s h).

Definition store_archive (io : Faults) : PeerRootArchive HookState := {|
  arch_PutPeerRoot p := on_hook_store (PutPeerRoot io p);
  arch_GetPeerRoot id hour h := GetPeerRoot io id hour (hs_store h) |}.

Definition store_revocations (io : Faults) : PeerRevocationArchive HookState := {|
  arch_PutPeerRevocation r := on_hook_store (PutPeerRevocation io r) |}.

Definition store_known_peers (io : Faults) : KnownPeersArchive HookState := {|
  arch_UpsertKnownPeer p := on_hook_store (UpsertKnownPeer io p);
  arch_ListKnownPeers n b h := ListKnownPeers io n b (hs_store h);
  arch_UpdateKnownPeerHealth id x := on_hook_store (UpdateKnownPeerHealth io id x);
  arch_DeleteStaleKnownPeers c := on_hook_store (DeleteStaleKnownPeers io c) |}.

Definition store_deps (io : Faults) (ledger : option (LedgerHooks HookState)) : FedDeps HookState := {|
  dep_RootSrc hour h := GetMerkleRoot io hour (hs_store h);
  dep_Archive := store_archive io; dep_Ledger := ledger;
  dep_RevocationArchive := Some (store_revocations io);
  dep_KnownPeers := Some (store_known_peers io) |}.
