(* ===== verification/FederationSpec.v ===== *)
(** What the federation subsystem promises, over any sequence of its operations: a payload is
    handled once within the lifetime of the seen set; revocations are those of listed trackers,
    and reach the peers; who equivocates is expelled; the health watcher expels only after a
    whole window of low scores. *)
From S2P Require Import Prelude Proto Float Signing Entry Storage Ledger Credit FedProto.
From S2P Require Import LedgerSpec Transfer TransferSpec Gossip Handshake Federation.
From Stdlib Require Import Floats.SpecFloat.

(** ** Forwarding *)

Section forwarding.
Context `{Crypto} `{FedWire} {L : Type}.
Variable cfg : FedConfig.
Variable Link : nat → bytes → option FErr.
Implicit Types f : Federation L.

Definition emits (xs : list Effect) f : Federation L := foldl (λ f x, f_emit x f) f xs.

(** The frames [Gossip.Forward] puts on their way. *)
Definition forwarded (exclude : option bytes) (kind : Kind) (payload : bytes) f : list Effect :=
  match sealed cfg kind payload with
  | Err _ => []
  | Ok frame =>
      omap (λ p, if bool_decide (exclude = Some p.1) then None
                 else match peer_Send Link p.2 frame f with
                      | Some _ => None
                      | None => Some (Sent p.1 kind payload)
                      end) (map_to_list (f_peers f))
  end.

Lemma emits_fields xs f :
  f_reg (emits xs f) = f_reg f ∧ f_dedupe (emits xs f) = f_dedupe f ∧
  f_limiter (emits xs f) = f_limiter f ∧ f_health (emits xs f) = f_health f ∧
  f_selfEquiv (emits xs f) = f_selfEquiv f ∧ f_peers (emits xs f) = f_peers f ∧
  f_shut (emits xs f) = f_shut f ∧ f_closed (emits xs f) = f_closed f ∧
  f_store (emits xs f) = f_store f ∧ f_out (emits xs f) = f_out f ++ xs.
Proof.
  revert f. induction xs as [|x xs IH]; intros f; [by rewrite app_nil_r|].
  change (emits (x :: xs) f) with (emits xs (f_emit x f)).
  destruct (IH (f_emit x f)) as (-> & -> & -> & -> & -> & -> & -> & -> & -> & ->).
  unfold f_out, f_emit, f_store, upd_transfer. simpl. by rewrite <- app_assoc.
Qed.

Lemma Gossip_Forward_eq ex k p f :
  Gossip_Forward cfg Link ex k p f = emits (forwarded ex k p f) f.
Proof.
  unfold Gossip_Forward, forwarded. destruct (sealed cfg k p) as [frame|]; [|done].
  generalize (map_to_list (f_peers f)) as l. intros l.
  enough (∀ f', f_shut f' = f_shut f →
    foldl (forward_one Link ex k p frame) f' l
    = emits (omap (λ q, if bool_decide (ex = Some q.1) then None
                 else match peer_Send Link q.2 frame f with
                      | Some _ => None
                      | None => Some (Sent q.1 k p)
                      end) l) f') as E by by apply E.
  induction l as [|q l IH]; intros f' Hs; [done|]. simpl. unfold forward_one at 2, peer_Send.
  rewrite Hs. destruct (bool_decide _); [by apply IH|].
  destruct (decide _); [by apply IH|]. destruct (Link _ _); [by apply IH|]. by apply IH.
Qed.

Lemma forward_eq now k p f :
  forward cfg Link now k p f
  = emits (forwarded None k p f) (upd_dedupe (Mark now (sha256 p)) f).
Proof. unfold forward. by rewrite Gossip_Forward_eq. Qed.

Lemma forward_fields now k p f :
  let f' := forward cfg Link now k p f in
  f_reg f' = f_reg f ∧ f_dedupe f' = Mark now (sha256 p) (f_dedupe f) ∧
  f_limiter f' = f_limiter f ∧ f_health f' = f_health f ∧ f_peers f' = f_peers f ∧
  f_shut f' = f_shut f ∧ f_store f' = f_store f ∧
  f_out f' = f_out f ++ forwarded None k p f.
Proof.
  intros f'. subst f'. rewrite forward_eq.
  set (g := upd_dedupe _ f).
  destruct (emits_fields (forwarded None k p f) g) as (-> & -> & -> & -> & _ & -> & -> & _ & -> & ->).
  done.
Qed.

(** Every peer whose connection is open and takes the frame gets it. *)
Lemma forwarded_elem k p f frame id c :
  sealed cfg k p = Ok frame → f_peers f !! id = Some c → c ∉ f_shut f → Link c frame = None →
  Sent id k p ∈ forwarded None k p f.
Proof.
  intros Hf Hp Hs Hl. unfold forwarded. rewrite Hf. apply list_elem_of_omap.
  exists (id, c). split; [by apply elem_of_map_to_list|]. simpl. unfold peer_Send.
  by rewrite decide_False, Hl.
Qed.
End forwarding.

(** ** The operations of the subsystem, as events *)

Section events.
Context `{Crypto} `{Wire} `{FedWire} {L : Type}.
Variable cfg : FedConfig.
Variable deps : FedDeps L.
Variable RemotePub : nat → bytes.
Variable RemoteAddr : nat → string.
Variable Link : nat → bytes → option FErr.

(** A frame arrives on a connection, an entry point is called, a ticker fires, a connection
    comes up and carries what [hs] holds, or the rest of the tracker works on the storage. *)
Inductive fed_event :=
| EvRecv (c : nat) (peer frame : bytes)
| EvFreeze (identity : bytes) (reason : string) (revokedAt : Z)
| EvPublishHour (hour : Z)
| EvPublishPeers
| EvAccept (c : nat) (nonce : bytes) (hs : HSConn)
| EvDialed (p : AllowlistedPeer) (c : nat) (nonce : bytes) (hs : HSConn)
| EvAddPeer (p : AllowlistedPeer)
| EvDepeer (id : bytes) (reason : DepeerReason)
| EvClose
| EvClear (peer : bytes)
| EvReversal (source nonce : bytes) (evidence : string)
| EvStart (i : StartTransferInput)
| EvWake (w : Woken) (i : StartTransferInput)
| EvWatch (below : gmap bytes Z)
| EvPrune
| EvStorage (g : L → L).

Definition fed_step (now : Z) (ev : fed_event) (f : Federation L) : Federation L :=
  match ev with
  | EvRecv c peer frame => recv_turn cfg deps RemotePub Link now c peer frame f
  | EvFreeze id reason at_ => OnFreeze cfg deps Link now id reason at_ f
  | EvPublishHour hour => snd (PublishHour cfg deps Link now hour f)
  | EvPublishPeers => snd (PublishPeerExchange cfg deps Link now f)
  | EvAccept c nonce hs => snd (acceptInbound cfg RemoteAddr c nonce hs f)
  | EvDialed p c nonce hs => snd (attachAndWait cfg RemoteAddr p c nonce hs f)
  | EvAddPeer p => snd (AddPeer p f)
  | EvDepeer id reason => snd (Depeer id reason f)
  | EvClose => Close f
  | EvClear peer => snd (Fed_ClearEquivocation peer f)
  | EvReversal source nonce e => snd (Fed_IssueTransferReversal cfg deps Link now source nonce e f)
  | EvStart i => snd (Fed_StartTransfer cfg deps Link i f)
  | EvWake w i =>
      match Fed_StartTransfer_wake cfg deps Link now w i f with Some (_, f) => f | None => f end
  | EvWatch below => snd (runHealthWatcherTick cfg now below f)
  | EvPrune => prune_tick cfg deps now f
  | EvStorage g => upd_transfer (λ t, set_ledger (g (t_ledger t)) t) f
  end.

(** [runs t f t' f']: from [f] at time [t], events whose times do not decrease lead to [f'] at
    time [t']. [ok] restricts the events. *)
Inductive runs (ok : fed_event → Prop) (t : Z) (f : Federation L) : Z → Federation L → Prop :=
| runs_refl : runs ok t f t f
| runs_step t1 f1 t2 ev : runs ok t f t1 f1 → t1 <= t2 → ok ev →
    runs ok t f t2 (fed_step t2 ev f1).

Lemma runs_le ok t f t' f' : runs ok t f t' f' → t <= t'.
Proof. induction 1; lia. Qed.

Lemma runs_trans ok t f t1 f1 t2 f2 :
  runs ok t f t1 f1 → runs ok t1 f1 t2 f2 → runs ok t f t2 f2.
Proof. intros Hr. induction 1; [done|]. by eapply runs_step. Qed.
End events.

(** ** The seen set *)

Section seen_set.
Context `{Crypto} `{Wire} `{FedWire} {L : Type}.
Variable cfg : FedConfig.
Variable deps : FedDeps L.
Variable RemotePub : nat → bytes.
Variable RemoteAddr : nat → string.
Variable Link : nat → bytes → option FErr.
Implicit Types f : Federation L.

(** Marks and look-ups at time [now]. *)
Inductive dedupe_steps (now : Z) (d : Dedupe) : Dedupe → Prop :=
| ds_refl : dedupe_steps now d d
| ds_mark id d' : dedupe_steps now d d' → dedupe_steps now d (Mark now id d')
| ds_seen id d' : dedupe_steps now d d' → dedupe_steps now d (snd (Seen now id d')).

Lemma dedupe_steps_trans now d d1 d2 :
  dedupe_steps now d d1 → dedupe_steps now d1 d2 → dedupe_steps now d d2.
Proof. intros Hs. induction 1; [done|by constructor..]. Qed.

(** An operation at time [now] does nothing else to the seen set. *)
Definition marks_only (now : Z) f f' : Prop := dedupe_steps now (f_dedupe f) (f_dedupe f').

Lemma marks_refl now f f' : f_dedupe f' = f_dedupe f → marks_only now f f'.
Proof. unfold marks_only. intros ->. constructor. Qed.

Lemma marks_trans now f f1 f2 : marks_only now f f1 → marks_only now f1 f2 → marks_only now f f2.
Proof. apply dedupe_steps_trans. Qed.

(** One rule per step, to be read backwards from the state reached. *)
Lemma marks_same now f g g' : f_dedupe g' = f_dedupe g → marks_only now f g → marks_only now f g'.
Proof. unfold marks_only. by intros ->. Qed.

Lemma forward_marks now k p f g :
  marks_only now f g → marks_only now f (forward cfg Link now k p g).
Proof.
  unfold marks_only. destruct (forward_fields cfg Link now k p g) as (_ & -> & _).
  by constructor.
Qed.

Lemma reg_Depeer_fields id f :
  let f' := snd (reg_Depeer id f) in
  f_reg f' = delete id (f_reg f) ∧ f_dedupe f' = f_dedupe f ∧ f_limiter f' = f_limiter f ∧
  f_health f' = f_health f ∧ f_peers f' = f_peers f ∧ f_transfer f' = f_transfer f.
Proof.
  unfold reg_Depeer, Peers_Depeer. destruct (f_reg f !! id) as [p|] eqn:Ep; simpl.
  - by destruct (pi_Conn p).
  - by rewrite delete_id.
Qed.

Lemma Depeer_fields id reason f :
  let f' := snd (Depeer id reason f) in
  f_reg f' = delete id (f_reg f) ∧ f_dedupe f' = f_dedupe f ∧ f_limiter f' = f_limiter f ∧
  f_health f' = f_health f ∧ f_peers f' = delete id (f_peers f) ∧ f_transfer f' = f_transfer f.
Proof.
  unfold Depeer. destruct (f_peers f !! id) as [c|] eqn:Ec.
  - by destruct (reg_Depeer_fields id (conn_close (Some c) (upd_peers (delete id) f)))
      as (-> & -> & -> & -> & -> & ->).
  - rewrite (delete_id _ _ Ec). apply reg_Depeer_fields.
Qed.

Lemma punish_marks now id f g : marks_only now f g → marks_only now f (punish id g).
Proof. apply marks_same. apply (reg_Depeer_fields id g). Qed.

Lemma Depeer_marks now id reason f g :
  marks_only now f g → marks_only now f (snd (Depeer id reason g)).
Proof. apply marks_same. apply (Depeer_fields id reason g). Qed.

Lemma on_store_marks {E A} now (m : GoM L E A) f g r g' :
  on_store m g = (r, g') → marks_only now f g → marks_only now f g'.
Proof.
  intros Hm. apply marks_same. unfold on_store in Hm. destruct (m _).
  injection Hm as _ <-. done.
Qed.

Lemma on_store_marks' {E A} now (m : GoM L E A) f g :
  marks_only now f g → marks_only now f (snd (on_store m g)).
Proof. eapply on_store_marks. apply surjective_pairing. Qed.

Lemma on_transfer_marks {A} now (t : TState L → A * TState L) f g r g' :
  on_transfer t g = (r, g') → marks_only now f g → marks_only now f g'.
Proof.
  intros Hm. apply marks_same. unfold on_transfer in Hm. destruct (t _).
  injection Hm as _ <-. done.
Qed.

Lemma foldl_marks {B} now (h : Federation L → B → Federation L) l f g :
  (∀ g b, marks_only now f g → marks_only now f (h g b)) →
  marks_only now f g → marks_only now f (foldl h g l).
Proof. intros Hh. revert g. induction l as [|b l IH]; intros g Hg; simpl; auto. Qed.
End seen_set.

Create HintDb marks.
#[export] Hint Resolve forward_marks punish_marks Depeer_marks on_store_marks on_store_marks' on_transfer_marks : marks.
#[export] Hint Resolve marks_refl : marks.
#[export] Hint Extern 1 (marks_only ?t ?f (upd_health ?x ?g)) => (apply (marks_same t f g (upd_health x g) eq_refl)) : marks.
#[export] Hint Extern 1 (marks_only ?t ?f (upd_limiter ?x ?g)) => (apply (marks_same t f g (upd_limiter x g) eq_refl)) : marks.
#[export] Hint Extern 1 (marks_only ?t ?f (upd_transfer ?x ?g)) => (apply (marks_same t f g (upd_transfer x g) eq_refl)) : marks.
#[export] Hint Extern 1 (marks_only ?t ?f (upd_reg ?x ?g)) => (apply (marks_same t f g (upd_reg x g) eq_refl)) : marks.
#[export] Hint Extern 1 (marks_only ?t ?f (upd_peers ?x ?g)) => (apply (marks_same t f g (upd_peers x g) eq_refl)) : marks.
#[export] Hint Extern 1 (marks_only ?t ?f (upd_selfEquiv ?x ?g)) => (apply (marks_same t f g (upd_selfEquiv x g) eq_refl)) : marks.
#[export] Hint Extern 1 (marks_only ?t ?f (invalid ?x ?g)) => (apply (marks_same t f g (invalid x g) eq_refl)) : marks.

Section steps_mark.
Context `{Crypto} `{Wire} `{FedWire} {L : Type}.
Variable cfg : FedConfig.
Variable deps : FedDeps L.
Variable RemotePub : nat → bytes.
Variable RemoteAddr : nat → string.
Variable Link : nat → bytes → option FErr.
Implicit Types f : Federation L.

(** Split a handler into its branches, keeping the calls whole. *)
Ltac fed_cases := repeat (case_match; simplify_eq); simpl snd.
Ltac fed_marks := fed_cases; eauto 8 with marks.

Lemma OnLocalConflict_marks now m f g :
  marks_only now f g → marks_only now f (OnLocalConflict cfg deps Link now m g).
Proof. intros Hg. unfold OnLocalConflict. fed_marks. Qed.

Lemma OnIncomingEvidence_marks now env p f g :
  marks_only now f g → marks_only now f (OnIncomingEvidence cfg Link now env p g).
Proof. intros Hg. unfold OnIncomingEvidence. fed_marks. Qed.
#[local] Hint Resolve OnLocalConflict_marks OnIncomingEvidence_marks : marks.

Lemma Apply_marks now env f g :
  marks_only now f g → marks_only now f (snd (Apply cfg deps Link now env g)).
Proof. intros Hg. unfold Apply. fed_marks. Qed.

Lemma OnFreeze_marks now id r t f g :
  marks_only now f g → marks_only now f (OnFreeze cfg deps Link now id r t g).
Proof. intros Hg. unfold OnFreeze. fed_marks. Qed.

Lemma OnIncoming_marks now env f g :
  marks_only now f g → marks_only now f (OnIncoming cfg deps Link now env g).
Proof. intros Hg. unfold OnIncoming. fed_marks. Qed.
#[local] Hint Resolve Apply_marks OnFreeze_marks OnIncoming_marks : marks.

Lemma emit_rows_marks arch now f rows g out :
  marks_only now f g →
  marks_only now f (fst (foldl (emit_row cfg arch now) (g, out) rows)).
Proof.
  revert g out. induction rows as [|r rows IH]; intros g out Hg; [done|].
  cbn [foldl emit_row]. destruct (on_store _ _) as [res g'] eqn:E. apply IH.
  assert (marks_only now f g') by eauto with marks. destruct res; eauto with marks.
Qed.

Lemma PublishPeerExchange_marks now f g :
  marks_only now f g → marks_only now f (snd (PublishPeerExchange cfg deps Link now g)).
Proof.
  intros Hg. unfold PublishPeerExchange, EmitNow. destruct (dep_KnownPeers deps) as [arch|]; [|done].
  destruct (arch_ListKnownPeers _ _ _ _) as [rows|]; [|done].
  pose proof (emit_rows_marks arch now f rows g [] Hg) as Hr.
  destruct (foldl _ _ rows) as [g' out]. fed_marks.
Qed.

Lemma OnPeerExchange_marks arch now env msg f g :
  marks_only now f g → marks_only now f (OnPeerExchange cfg Link arch now env msg g).
Proof.
  intros Hg. unfold OnPeerExchange. apply forward_marks, foldl_marks; [|done].
  intros g' p Hg'. unfold merge_peer. fed_marks.
Qed.
#[local] Hint Resolve PublishPeerExchange_marks OnPeerExchange_marks : marks.

Lemma handle_marks now p env f g :
  marks_only now f g → marks_only now f (handle cfg deps Link now p env g).
Proof.
  intros Hg. unfold handle, tr_OnRequest, tr_OnProof, tr_OnApplied, tr_OnReject, tr_OnReversal.
  destruct (fe_Kind env); try by eauto with marks.
  - pose proof (Apply_marks now env f g Hg) as Ha. destruct (Apply _ _ _ _ _ _) as [[e|] g'];
      simpl in Ha; eauto with marks.
  - fed_marks.
Qed.

Lemma gate_marks now c p env f g :
  marks_only now f g → marks_only now f (snd (gate RemotePub now c p env g)).
Proof.
  intros Hg. unfold gate. destruct (Fed_VerifyEnvelope _ _); [simpl; eauto with marks|].
  destruct (Allow _ _ _ _) as [ok lim]. destruct ok; [|simpl; eauto with marks]. simpl.
  destruct (Seen _ _ _) as [seen d] eqn:E. unfold marks_only in *.
  assert (dedupe_steps now (f_dedupe f) d) as Hd.
  { replace d with (snd (Seen now (MessageID env) (f_dedupe g))) by by rewrite E. by constructor. }
  destruct seen; [done|]. simpl. by constructor.
Qed.

Lemma after_handshake_marks now c r f g :
  marks_only now f g → marks_only now f (snd (after_handshake RemoteAddr c r g)).
Proof.
  intros Hg. unfold after_handshake, attachPeer. destruct r as [[res|e] hs]; simpl.
  - destruct (f_closed g); eauto with marks.
  - done.
Qed.

Lemma Close_marks now f g : marks_only now f g → marks_only now f (Close g).
Proof.
  intros Hg. unfold Close. destruct (f_closed g); [done|].
  apply (map_fold_weak_ind (λ g' _, marks_only now f g')); [done|]. by intros.
Qed.

Lemma watch_marks now below f g :
  marks_only now f g → marks_only now f (snd (runHealthWatcherTick cfg now below g)).
Proof.
  intros Hg. unfold runHealthWatcherTick. generalize (Peers_All (f_reg g)) as l. intros l.
  revert below g Hg. induction l as [|p l IH]; intros below g Hg; [done|].
  cbn [foldl]. destruct (watch_peer cfg now (below, g) p) as [b g'] eqn:E. apply IH.
  unfold watch_peer in E. fed_cases; eauto with marks.
Qed.

(** Every event touches the seen set through marks and look-ups at its own time only. *)
Lemma fed_step_marks now ev f :
  marks_only now f (fed_step cfg deps RemotePub RemoteAddr Link now ev f).
Proof.
  assert (marks_only now f f) as Hf by by apply marks_refl.
  destruct ev; simpl.
  - unfold recv_turn, dispatch. case_decide; [done|]. destruct (UnmarshalFrame _) as [env|]; [|done].
    pose proof (gate_marks now c peer env f f Hf) as Hg.
    destruct (gate _ _ _ _ _ _) as [[] g]; [by apply handle_marks|done].
  - by apply OnFreeze_marks.
  - unfold PublishHour. fed_marks.
  - by apply PublishPeerExchange_marks.
  - by apply after_handshake_marks.
  - by apply after_handshake_marks.
  - unfold AddPeer. fed_marks.
  - by apply Depeer_marks.
  - by apply Close_marks.
  - unfold Fed_ClearEquivocation. fed_marks.
  - unfold Fed_IssueTransferReversal. destruct (dep_Ledger deps); [|done].
    eapply on_transfer_marks; [apply surjective_pairing|done].
  - unfold Fed_StartTransfer. fed_marks.
  - unfold Fed_StartTransfer_wake. fed_marks.
  - by apply watch_marks.
  - unfold prune_tick. fed_marks.
  - eauto with marks.
Qed.
End steps_mark.

(** ** A payload is handled once *)

Section once.
Context `{Crypto} `{Wire} `{FedWire} {L : Type}.
Variable cfg : FedConfig.
Variable deps : FedDeps L.
Variable RemotePub : nat → bytes.
Variable RemoteAddr : nat → string.
Variable Link : nat → bytes → option FErr.
Notation ttl := (fc_DedupeTTL cfg).
Notation cap := (fc_DedupeCap cfg).
Hypothesis Httl : 0 < ttl.
Hypothesis Hcap : 0 < cap.
Implicit Types f : Federation L.

(** At time [t] the seen set holds the recent ones of [ms]. *)
Definition recorded (t : Z) (ms : list (bytes * Z)) (d : Dedupe) : Prop :=
  ordered ms ∧ Forall (λ m, m.2 <= t) ms ∧ ∃ t0, t0 <= t ∧ holds ttl cap t0 ms d.

Lemma recorded_later t t' ms d : recorded t ms d → t <= t' → recorded t' ms d.
Proof.
  intros (Ho & Hf & t0 & ? & ?) Hle. split_and!; [done| |exists t0; split; [lia|done]].
  eapply Forall_impl; [exact Hf|]. simpl. lia.
Qed.

Lemma recorded_steps now ms d d' :
  recorded now ms d → dedupe_steps now d d' → ∃ ms', recorded now (ms' ++ ms) d'.
Proof.
  intros Hr. induction 1 as [|id d' _ (ms' & Ho & Hf & t0 & Ht & Hh)|id d' _ (ms' & Ho & Hf & t0 & Ht & Hh)].
  - by exists [].
  - exists ((id, now) :: ms'). split_and!.
    + constructor; [done|]. eapply Forall_impl; [exact Hf|]. simpl. lia.
    + constructor; [simpl; lia|done].
    + exists now. split; [lia|]. by eapply holds_mark.
  - exists ms'. split_and!; [done|done|]. exists now. split; [lia|]. by eapply holds_seen.
Qed.

Lemma recorded_runs ok t f t' f' ms :
  runs cfg deps RemotePub RemoteAddr Link ok t f t' f' → recorded t ms (f_dedupe f) →
  ∃ ms', recorded t' (ms' ++ ms) (f_dedupe f').
Proof.
  intros Hr Hd. induction Hr as [|t1 f1 t2 ev Hr (ms' & IH) Hle _]; [by exists []|].
  apply (recorded_later _ t2) in IH; [|done].
  destruct (recorded_steps _ _ _ _ IH
    (fed_step_marks cfg deps RemotePub RemoteAddr Link t2 ev f1)) as (ms2 & H2).
  exists (ms2 ++ ms'). by rewrite <- app_assoc.
Qed.

Lemma Open_dedupe now l : f_dedupe (Open cfg deps now l) = NewDedupe ttl cap.
Proof.
  unfold Open. set (f0 := Build_Federation _ _ _ _ _ _ _ _ _).
  assert (f_dedupe (foldl (λ f p, snd (AddPeer p f)) f0 (fc_Peers cfg)) = NewDedupe ttl cap) as E.
  { generalize (fc_Peers cfg) as ps. intros ps. assert (f_dedupe f0 = NewDedupe ttl cap) as E by done.
    clearbody f0. revert f0 E. induction ps as [|p ps IH]; intros f0 E; [done|]. apply IH.
    unfold AddPeer. by destruct (Peers_Add _ _). }
  destruct (dep_KnownPeers deps) as [arch|]; [|done].
  set (f1 := foldl _ f0 _) in *. clearbody f1. clear f0. generalize (fc_Peers cfg) as ps. intros ps.
  revert f1 E. induction ps as [|p ps IH]; intros f1 E; [done|]. apply IH.
  unfold on_store. by destruct (arch_UpsertKnownPeer _ _ _).
Qed.

Lemma Open_recorded now l : recorded now [] (f_dedupe (Open cfg deps now l)).
Proof.
  rewrite Open_dedupe. split_and!; [constructor|constructor|]. exists now. split; [lia|].
  unfold holds, remembered, NewDedupe. simpl. rewrite firstn_nil.
  by rewrite (proj2 (Z.leb_gt _ _)).
Qed.

Lemma last_mark_recent ms id t :
  ordered ms → (id, t) ∈ ms → ∃ t', t <= t' ∧ (id, t') ∈ last_marks ms.
Proof.
  unfold ordered. induction 1 as [|m ms Hms IH Hm]; [by intros ?%elem_of_nil|].
  intros [<-|Hin]%elem_of_cons; [exists t; split; [lia|left]|]. simpl.
  destruct (decide (m.1 = id)) as [<-|Hne].
  - exists m.2. rewrite Forall_forall in Hm. split; [by apply (Hm (m.1, t))|]. destruct m. left.
  - destruct (IH Hin) as (t' & Ht & Hl). exists t'. split; [done|]. right.
    apply list_elem_of_filter. split; [|done]. simpl. congruence.
Qed.

(** A mark still alive is found, or the set is full. *)
Lemma recorded_seen t ms d id t1 t2 :
  recorded t ms d → (id, t1) ∈ ms → t <= t2 < t1 + ttl →
  fst (Seen t2 id d) = true ∨ fst (Dedupe_Size t2 d) = cap.
Proof.
  intros (Ho & _ & t0 & Ht0 & Hh) Hin Ht. destruct (last_mark_recent _ _ _ Ho Hin) as (t' & Ht' & Hl).
  assert (id ∈ (filter (λ m, t2 < m.2 + ttl) (last_marks ms)).*1) as Ha.
  { apply list_elem_of_fmap. exists (id, t'). split; [done|]. apply list_elem_of_filter.
    split; [simpl; lia|done]. }
  assert (fst (Dedupe_Size t2 d) = blen (remembered ttl cap t2 ms)) as Hs.
  { apply (holds_later ttl cap Httl Hcap _ t2) in Hh as (_ & _ & Hq & _); [|done|lia].
    unfold Dedupe_Size. simpl. rewrite Hq. unfold blen. by rewrite length_fmap. }
  rewrite Hs. unfold remembered in *.
  destruct (Nat.le_gt_cases (length (filter (λ m, t2 < m.2 + ttl) (last_marks ms))) (Z.to_nat cap)) as [Hle|Hgt].
  - left. destruct (holds_seen ttl cap Httl Hcap t0 t2 ms d id) as [-> _]; [done|lia|done|].
    unfold remembered. rewrite take_ge by lia. by apply bool_decide_eq_true_2.
  - right. unfold blen. rewrite length_take. lia.
Qed.

Lemma gate_handles now c p env f f' :
  gate RemotePub now c p env f = (true, f') →
  f_dedupe f' = Mark now (MessageID env) (snd (Seen now (MessageID env) (f_dedupe f))).
Proof.
  unfold gate. destruct (Fed_VerifyEnvelope _ _); [done|].
  destruct (Allow _ _ _ _) as [[] lim]; [|done]. simpl.
  destruct (Seen _ _ _) as [[] d]; [done|]. by intros [= <-].
Qed.

Lemma gate_seen now c p env f :
  fst (Seen now (MessageID env) (f_dedupe f)) = true → fst (gate RemotePub now c p env f) = false.
Proof.
  intros Hs. unfold gate. destruct (Fed_VerifyEnvelope _ _); [done|].
  destruct (Allow _ _ _ _) as [[] lim]; [|done]. simpl.
  destruct (Seen _ _ _) as [s d]. simpl in Hs. by rewrite Hs.
Qed.

End once.

(** ** What keeps the archived revocations *)

Class KeepsRevs {E A} (m : GoM Store E A) : Prop :=
  keeps_revs s : peer_revocations (snd (m s)) = peer_revocations s.
#[global] Hint Mode KeepsRevs - - ! : typeclass_instances.

Section keeps.
Context {E : Type}.

#[global] Instance ReadOnly_KeepsRevs {A} (m : GoM Store E A) : ReadOnly m → KeepsRevs m | 10.
Proof. intros Hm s. by rewrite (read_only s). Qed.

#[global] Instance gbind_KeepsRevs {A B} (m : GoM Store E A) (k : A → GoM Store E B) :
  KeepsRevs m → (∀ a, KeepsRevs (k a)) → KeepsRevs (gbind m k).
Proof.
  intros Hm Hk s. unfold gbind. specialize (Hm s). destruct (m s) as [[a|e] s1]; simpl in *; [|done].
  by rewrite Hk.
Qed.

#[global] Instance gwrap_KeepsRevs {E' A} (g : E' → E) (m : GoM Store E' A) :
  KeepsRevs m → KeepsRevs (gwrap g m).
Proof. intros Hm s. unfold gwrap. specialize (Hm s). by destruct (m s) as [[] ?]. Qed.
End keeps.

Lemma all_upserts_revs bs s : peer_revocations (all_upserts bs s) = peer_revocations s.
Proof. revert s. induction bs as [|b bs IH]; intros s; [done|]. simpl. by rewrite IH. Qed.

#[global] Instance AppendEntry_KeepsRevs `{Wire} io i : KeepsRevs (AppendEntry io i).
Proof.
  intros s. destruct (AppendEntry io i s) as [[seq|e] s'] eqn:Ha.
  - apply AppendEntry_Ok in Ha as (? & ? & ? & _ & _ & _ & _ & _ & _ & _ & _ & _ & _ & ->).
    simpl. by rewrite all_upserts_revs.
  - by rewrite (err_keeps _ _ _ Ha).
Qed.

Lemma runLedgerOp_keeps `{Crypto} `{Wire} key io op : KeepsRevs (runLedgerOp key io op).
Proof.
  assert (∀ i b, KeepsRevs (appendLocked key io i b)) as Ha.
  { intros i b. unfold appendLocked. destruct (in_body i); [|apply _].
    destruct b; destruct (ValidateEntryBody _); apply _. }
  assert (∀ i, KeepsRevs (appendEntry key io i)) as He by (intros i; apply Ha).
  assert (∀ now b, KeepsRevs (appendEntryWithBuilder key io now b)) as Hb.
  { intros now b. unfold appendEntryWithBuilder. apply gbind_KeepsRevs; [apply _|].
    intros a. destruct (nextTip a). apply _. }
  destruct op; simpl; unfold AppendUsage, AppendTransferOut, AppendTransferIn, IssueStarterGrant;
    cbv zeta; apply _.
Qed.

(** The hooks of a ledger leave the revocations alone. *)
Definition hooks_keep (h : LedgerHooks HookState) : Prop :=
  ∀ l, (∀ i, peer_revocations (hs_store (snd (hook_AppendTransferOut h i l)))
             = peer_revocations (hs_store l)) ∧
       (∀ i, peer_revocations (hs_store (snd (hook_AppendTransferIn h i l)))
             = peer_revocations (hs_store l)).

Lemma stale_tip_loop_keeps io between n append s :
  (∀ m st, peer_revocations (between m st) = peer_revocations st) →
  (∀ p q, KeepsRevs (append p q)) →
  peer_revocations (hs_store (snd (stale_tip_loop io between n append s)))
  = peer_revocations (hs_store s).
Proof.
  intros Hb Ha. revert s. induction n as [|n IH]; intros s; [done|]. cbn [stale_tip_loop].
  assert (peer_revocations (hs_store (snd (at_tip io between n append s)))
          = peer_revocations (hs_store s)) as E.
  { unfold at_tip. destruct (Tip io (hs_store s)) as [t|e]; [|done]. destruct (nextTip t) as [p q].
    pose proof (keeps_revs (m := append p q) (between n (hs_store s))) as E.
    destruct (append p q _) as [r st]. simpl in *. by rewrite E. }
  destruct (at_tip _ _ _ _ _) as [[e|[]] s']; simpl in *; try done. by rewrite IH.
Qed.

Lemma ledger_hooks_keep `{Crypto} `{Wire} `{ErrorText} key adm io between :
  (∀ m st, peer_revocations (between m st) = peer_revocations st) →
  hooks_keep (ledger_hooks key adm io between).
Proof.
  intros Hb l. split; intros i; cbn [hook_AppendTransferOut hook_AppendTransferIn ledger_hooks].
  - pose proof (stale_tip_loop_keeps io between staleTipRetries
      (λ p q, AppendTransferOut key io (out_record i p q)) l Hb
      (λ p q, runLedgerOp_keeps key io (OpAppendTransferOut (out_record i p q)))) as E.
    destruct (stale_tip_loop _ _ _ _ _) as [[e|e] s']; [|done]. simpl in E.
    destruct (Hash _); simpl; by rewrite ?emitTransfer_store.
  - pose proof (stale_tip_loop_keeps io between staleTipRetries
      (λ p q, AppendTransferIn key io (in_record i p q)) l Hb
      (λ p q, runLedgerOp_keeps key io (OpAppendTransferIn (in_record i p q)))) as E.
    destruct (stale_tip_loop _ _ _ _ _) as [[e|e] s']; [|done]. simpl in *.
    by rewrite emitTransfer_store.
Qed.

(** ** Quiet steps: the revocations stay, the registry only shrinks *)

Section quiet.
Context `{Crypto} `{Wire} `{FedWire}.
Variable cfg : FedConfig.
Variable io : Faults.
Variable ledger : option (LedgerHooks HookState).
Hypothesis Hledger : ∀ h, ledger = Some h → hooks_keep h.
Variable Link : nat → bytes → option FErr.
Notation deps := (store_deps io ledger).
Implicit Types f g : Federation HookState.

Definition revs f : gmap (bytes * bytes) PeerRevocation := peer_revocations (hs_store (f_store f)).

Definition quiet f g : Prop := revs g = revs f ∧ f_reg g ⊆ f_reg f.

Lemma quiet_refl f : quiet f f.
Proof. done. Qed.

Lemma quiet_same f g g' : revs g' = revs g → f_reg g' = f_reg g → quiet f g → quiet f g'.
Proof. unfold quiet. by intros -> ->. Qed.

Lemma forward_quiet now k p f g : quiet f g → quiet f (forward cfg Link now k p g).
Proof.
  destruct (forward_fields cfg Link now k p g) as (Hr & _ & _ & _ & _ & _ & Hs & _).
  apply quiet_same; [|done]. unfold revs. by rewrite Hs.
Qed.

Lemma less_reg f g g' id : f_transfer g' = f_transfer g → f_reg g' = delete id (f_reg g) →
  quiet f g → quiet f g'.
Proof.
  unfold quiet, revs, f_store. intros -> -> [? Hs]. split; [done|].
  etrans; [apply delete_subseteq|done].
Qed.

Lemma punish_quiet id f g : quiet f g → quiet f (punish id g).
Proof. destruct (reg_Depeer_fields id g) as (Hr & _ & _ & _ & _ & Ht). by eapply less_reg. Qed.

Lemma Depeer_quiet id reason f g : quiet f g → quiet f (snd (Depeer id reason g)).
Proof. destruct (Depeer_fields id reason g) as (Hr & _ & _ & _ & _ & Ht). by eapply less_reg. Qed.

Lemma store_quiet {E A} (m : GoM Store E A) f g r g' :
  KeepsRevs m → on_store (on_hook_store m) g = (r, g') → quiet f g → quiet f g'.
Proof.
  intros Hm Hg. unfold on_store, on_hook_store in Hg. specialize (Hm (hs_store (f_store g))).
  destruct (m _) as [o s]. injection Hg as <- <-. by apply quiet_same.
Qed.

Lemma store_quiet' {E A} (m : GoM Store E A) f g :
  KeepsRevs m → quiet f g → quiet f (snd (on_store (on_hook_store m) g)).
Proof. intros Hm. eapply store_quiet; [done|apply surjective_pairing]. Qed.

Lemma transfer_quiet (t : TState HookState → TState HookState) f g :
  (peer_revocations (hs_store (t_ledger (t (f_transfer g))))
   = peer_revocations (hs_store (t_ledger (f_transfer g)))) →
  quiet f g → quiet f (upd_transfer t g).
Proof. intros Ht. by apply quiet_same. Qed.

Lemma foldl_quiet {B} (h : Federation HookState → B → Federation HookState) l f g :
  (∀ g b, quiet f g → quiet f (h g b)) → quiet f g → quiet f (foldl h g l).
Proof. intros Hh. revert g. induction l as [|b l IH]; intros g Hg; simpl; auto. Qed.

#[global] Instance PutPeerRoot_keeps p : KeepsRevs (PutPeerRoot io p).
Proof. intros s. unfold PutPeerRoot. repeat case_match; done. Qed.
#[global] Instance UpsertKnownPeer_keeps p : KeepsRevs (UpsertKnownPeer io p).
Proof. intros s. unfold UpsertKnownPeer. repeat case_match; done. Qed.
#[global] Instance UpdateHealth_keeps id x : KeepsRevs (UpdateKnownPeerHealth io id x).
Proof. intros s. unfold UpdateKnownPeerHealth. repeat case_match; done. Qed.
#[global] Instance DeleteStale_keeps c : KeepsRevs (DeleteStaleKnownPeers io c).
Proof. intros s. unfold DeleteStaleKnownPeers. repeat case_match; done. Qed.

(** The transfer coordinator. *)
Lemma OnRequest_revs now env from f (s : TState HookState) :
  peer_revocations (hs_store (t_ledger (OnRequest (fc_MyTrackerID cfg) (fc_MyPriv cfg) ledger
     (fc_IssuedProofCap cfg) (SendToPeer cfg Link f) now env from s)))
  = peer_revocations (hs_store (t_ledger s)).
Proof.
  destruct ledger as [h|] eqn:El; [|done].
  destruct (OnRequest_effect (fc_MyTrackerID cfg) (fc_MyPriv cfg) h (fc_IssuedProofCap cfg)
    (SendToPeer cfg Link f) now env from s) as [Hf|(req & _ & _ & _ & _ & _ & _ & ->)].
  - by rewrite (fr_ledger _ _ Hf).
  - destruct (mintProof_minting (fc_MyPriv cfg) (fc_IssuedProofCap cfg) (SendToPeer cfg Link f)
      h now req from s) as (r & Hr & _).
    pose proof (proj1 (Hledger h eq_refl (t_ledger s)) (request_hook req)) as E. by rewrite Hr in E.
Qed.

Lemma wake_revs pk f now w i (s : TState HookState) r s' :
  StartTransfer_wake (fc_MyTrackerID cfg) (fc_MyPriv cfg) ledger (fc_IssuedProofCap cfg) pk
    (SendToPeer cfg Link f) now w i s = Some (r, s') →
  peer_revocations (hs_store (t_ledger s')) = peer_revocations (hs_store (t_ledger s)).
Proof.
  destruct ledger as [h|] eqn:El; [|done]. intros Hw.
  apply StartTransfer_wake_effect in Hw as (_ & _ & [->|(p & proof & pub & m & o & _ & _ & _ & _ & _ & Hh)]);
    [done|].
  pose proof (proj2 (Hledger h eq_refl (t_ledger s)) (credit_hook i proof)) as E. by rewrite Hh in E.
Qed.

Lemma send_revs id f i (s : TState HookState) r s' :
  StartTransfer_send id ledger (SendToPeer cfg Link f) i s = (r, s') →
  peer_revocations (hs_store (t_ledger s')) = peer_revocations (hs_store (t_ledger s)).
Proof.
  destruct ledger as [h|]; [|by intros [= _ <-]]. intros Hs.
  by apply StartTransfer_send_effect in Hs as [[-> _ _]|(_ & _ & [-> _ _])].
Qed.
End quiet.

Create HintDb quiet.
#[export] Hint Resolve quiet_refl forward_quiet punish_quiet Depeer_quiet store_quiet store_quiet' : quiet.
#[export] Hint Extern 1 (KeepsRevs _) => (apply _) : quiet.
#[export] Hint Extern 1 (quiet ?f (upd_health ?x ?g)) => (apply (quiet_same f g (upd_health x g) eq_refl eq_refl)) : quiet.
#[export] Hint Extern 1 (quiet ?f (upd_limiter ?x ?g)) => (apply (quiet_same f g (upd_limiter x g) eq_refl eq_refl)) : quiet.
#[export] Hint Extern 1 (quiet ?f (upd_dedupe ?x ?g)) => (apply (quiet_same f g (upd_dedupe x g) eq_refl eq_refl)) : quiet.
#[export] Hint Extern 1 (quiet ?f (upd_peers ?x ?g)) => (apply (quiet_same f g (upd_peers x g) eq_refl eq_refl)) : quiet.
#[export] Hint Extern 1 (quiet ?f (upd_selfEquiv ?x ?g)) => (apply (quiet_same f g (upd_selfEquiv x g) eq_refl eq_refl)) : quiet.
#[export] Hint Extern 1 (quiet ?f (invalid ?x ?g)) => (apply (quiet_same f g (invalid x g) eq_refl eq_refl)) : quiet.
#[export] Hint Extern 1 (quiet ?f (conn_close ?x ?g)) => (apply (quiet_same f g (conn_close x g)); [by destruct x|by destruct x|]) : quiet.

Section quiet_steps.
Context `{Crypto} `{Wire} `{FedWire}.
Variable cfg : FedConfig.
Variable io : Faults.
Variable ledger : option (LedgerHooks HookState).
Hypothesis Hledger : ∀ h, ledger = Some h → hooks_keep h.
Variable RemotePub : nat → bytes.
Variable Link : nat → bytes → option FErr.
Notation deps := (store_deps io ledger).
Implicit Types f g : Federation HookState.

Ltac fed_cases := repeat (case_match; simplify_eq); simpl snd.
Ltac fed_quiet := fed_cases; eauto 8 with quiet.

Lemma OnLocalConflict_quiet now m f g :
  quiet f g → quiet f (OnLocalConflict cfg deps Link now m g).
Proof. intros Hg. unfold OnLocalConflict. fed_quiet. Qed.

Lemma OnIncomingEvidence_quiet now env p f g :
  quiet f g → quiet f (OnIncomingEvidence cfg Link now env p g).
Proof. intros Hg. unfold OnIncomingEvidence. fed_quiet. Qed.
#[local] Hint Resolve OnLocalConflict_quiet OnIncomingEvidence_quiet : quiet.

Lemma Apply_quiet now env f g : quiet f g → quiet f (snd (Apply cfg deps Link now env g)).
Proof.
  intros Hg. unfold Apply. destruct (Unmarshal _); [|done].
  destruct (ValidateRootAttestation _); [done|]. destruct (negb _); [done|].
  destruct (on_store _ g) as [res g'] eqn:E.
  assert (quiet f g') by (eapply (store_quiet (PutPeerRoot io _)); [apply _|exact E|done]).
  fed_quiet.
Qed.

Lemma PublishPeerExchange_quiet now f g :
  quiet f g → quiet f (snd (PublishPeerExchange cfg deps Link now g)).
Proof.
  intros Hg. unfold PublishPeerExchange, EmitNow. simpl.
  destruct (ListKnownPeers _ _ _ _) as [rows|]; [|done].
  assert (∀ g out, quiet f g → quiet f (fst (foldl (emit_row cfg (store_known_peers io) now) (g, out) rows))) as Hr.
  { induction rows as [|r rows IH]; intros g1 out Hg1; [done|]. cbn [foldl emit_row].
    destruct (on_store _ _) as [res g'] eqn:E. apply IH.
    assert (quiet f g') by (eapply (store_quiet (UpdateKnownPeerHealth io _ _)); [apply _|exact E|done]).
    destruct res; eauto with quiet. }
  specialize (Hr g [] Hg). destruct (foldl _ _ rows) as [g' out]. fed_quiet.
Qed.

Lemma OnPeerExchange_quiet now env msg f g :
  quiet f g → quiet f (OnPeerExchange cfg Link (store_known_peers io) now env msg g).
Proof.
  intros Hg. unfold OnPeerExchange. apply forward_quiet, foldl_quiet; [|done].
  intros g' p Hg'. unfold merge_peer. case_match; [done|].
  by apply (store_quiet' (UpsertKnownPeer io _)); [apply _|].
Qed.
#[local] Hint Resolve PublishPeerExchange_quiet OnPeerExchange_quiet : quiet.

Lemma tr_quiet now env p f g : quiet f g →
  quiet f (tr_OnRequest cfg deps Link now env p g) ∧ quiet f (tr_OnProof cfg env p g) ∧
  quiet f (tr_OnApplied cfg env p g) ∧ quiet f (tr_OnReject env p g) ∧ quiet f (tr_OnReversal env p g).
Proof.
  intros Hg. split_and!; apply transfer_quiet; try done.
  - by apply OnRequest_revs.
  - destruct (OnProof_effect (fc_MyTrackerID cfg) env p (f_transfer g))
      as [[-> _ _]|(proof & q & _ & _ & _ & _ & _ & _ & [-> _ _])]; done.
  - by rewrite (fr_ledger _ _ (OnApplied_frame _ _ _ _ _)).
  - by rewrite (proj1 (OnReject_effect _ _ _ _)).
  - by rewrite (fr_ledger _ _ (OnTransferReversal_frame _ _ _ _)).
Qed.

(** Of the kinds of frames, only a revocation is not quiet. *)
Lemma handle_quiet now p env f g :
  fe_Kind env ≠ KIND_REVOCATION → quiet f g → quiet f (handle cfg deps Link now p env g).
Proof.
  intros Hk Hg. destruct (tr_quiet now env p f g Hg) as (? & ? & ? & ? & ?).
  unfold handle. destruct (fe_Kind env); try by eauto with quiet.
  - pose proof (Apply_quiet now env f g Hg) as Ha. destruct (Apply _ _ _ _ _ _) as [[e|] g'];
      simpl in Ha; eauto with quiet.
  - simpl. fed_quiet.
Qed.

Lemma gate_quiet now c p env f g : quiet f g → quiet f (snd (gate RemotePub now c p env g)).
Proof.
  intros Hg. unfold gate. destruct (Fed_VerifyEnvelope _ _); [simpl; eauto with quiet|].
  destruct (Allow _ _ _ _) as [[] lim]; [|simpl; eauto with quiet]. simpl.
  destruct (Seen _ _ _) as [[] d]; simpl; eauto with quiet.
Qed.

Lemma watch_quiet now below f g :
  quiet f g → quiet f (snd (runHealthWatcherTick cfg now below g)).
Proof.
  intros Hg. unfold runHealthWatcherTick. generalize (Peers_All (f_reg g)) as l. intros l.
  revert below g Hg. induction l as [|p l IH]; intros below g Hg; [done|].
  cbn [foldl]. destruct (watch_peer cfg now (below, g) p) as [b g'] eqn:E. apply IH.
  unfold watch_peer in E. fed_cases; eauto with quiet.
Qed.

Lemma Close_quiet f g : quiet f g → quiet f (Close g).
Proof.
  intros Hg. unfold Close. destruct (f_closed g); [done|].
  apply (map_fold_weak_ind (λ g' _, quiet f g')); [done|]. intros. eauto with quiet.
Qed.
End quiet_steps.

(** ** Archived revocations are authentic *)

Section authentic.
Context `{CryptoLaws} `{Wire} `{FedWireLaws}.
Variable cfg : FedConfig.
Variable io : Faults.
Variable ledger : option (LedgerHooks HookState).
Hypothesis Hledger : ∀ h, ledger = Some h → hooks_keep h.
Variable RemotePub : nat → bytes.
Variable RemoteAddr : nat → string.
Variable Link : nat → bytes → option FErr.
(** The operator's allowlist: which key is which tracker's. *)
Variable Listed : bytes → bytes → Prop.
Notation deps := (store_deps io ledger).
Implicit Types f g : Federation HookState.

(** The row is that of a revocation signed by its issuer, who is this tracker or a listed
    one. *)
Definition authentic_row (r : PeerRevocation) : Prop :=
  ∃ rev cb pub now, r = revocation_row now rev ∧ ValidateRevocation (Some rev) = None ∧
    CanonicalRevocationPreSig rev = Some cb ∧ ed25519_Verify pub cb (re_TrackerSig rev) = true ∧
    (re_TrackerId rev = fc_MyTrackerID cfg ∧ pub = ed25519_Public (fc_MyPriv cfg) ∨
     Listed (re_TrackerId rev) pub).

Definition revs_authentic (m : gmap (bytes * bytes) PeerRevocation) : Prop :=
  ∀ k r, m !! k = Some r → k = (rv_TrackerID r, rv_IdentityID r) ∧ authentic_row r.

Definition reg_listed (m : PeerMap) : Prop :=
  ∀ id p, m !! id = Some p → pi_TrackerID p = id ∧ Listed id (pi_PubKey p).

Definition fed_inv f : Prop := revs_authentic (revs f) ∧ reg_listed (f_reg f).

(** What the operator and the rest of the tracker are trusted with. *)
Definition operator_ok (ev : fed_event (L := HookState)) : Prop :=
  match ev with
  | EvAddPeer p | EvDialed p _ _ _ => Listed (al_TrackerID p) (al_PubKey p)
  | EvStorage h => ∀ l, peer_revocations (hs_store (h l)) = peer_revocations (hs_store l)
  | _ => True
  end.

Lemma on_transfer_quiet {A} (h : TState HookState → A * TState HookState) f :
  (∀ s, peer_revocations (hs_store (t_ledger (snd (h s)))) = peer_revocations (hs_store (t_ledger s))) →
  quiet f (snd (on_transfer h f)).
Proof.
  intros Hh. specialize (Hh (f_transfer f)). unfold on_transfer. destruct (h _) as [a s].
  by apply (quiet_same f f).
Qed.

Lemma reversal_revs send now source nonce e (s : TState HookState) :
  peer_revocations (hs_store (t_ledger (snd (IssueTransferReversal (fc_MyTrackerID cfg)
    (fc_MyPriv cfg) send now source nonce e s)))) = peer_revocations (hs_store (t_ledger s)).
Proof.
  unfold IssueTransferReversal. destruct (CanonicalTransferReversalPreSig _); [|done].
  destruct (ValidateTransferReversal _); [done|]. destruct (Marshal _); [|done].
  destruct (send_to _ _ _ _ s) as [[e'|] s'] eqn:E; apply send_frame' in E as [E _ _]; simpl; by rewrite E.
Qed.

Lemma quiet_inv f g : quiet f g → fed_inv f → fed_inv g.
Proof.
  intros [Hr Hs] [Ha Hl]. split; [by rewrite Hr|]. intros id p Hp. apply Hl.
  by eapply lookup_weaken.
Qed.

(** A row put by [PutPeerRevocation]. *)
Lemma put_authentic now rev f r g :
  on_store (arch_PutPeerRevocation (store_revocations io) (revocation_row now rev)) f = (r, g) →
  authentic_row (revocation_row now rev) → fed_inv f → fed_inv g.
Proof.
  intros Hp Hrow [Ha Hl]. unfold on_store in Hp. simpl in Hp. unfold on_hook_store in Hp.
  destruct (PutPeerRevocation io _ _) as [o s] eqn:Es. injection Hp as <- <-.
  split; [|exact Hl]. unfold revs, f_store. simpl. unfold PutPeerRevocation in Es.
  destruct (_ || _); [simplify_eq; exact Ha|]. destruct (_ || _); [simplify_eq; exact Ha|].
  destruct (peer_revocations _ !! _); [simplify_eq; exact Ha|]. injection Es as <- <-. simpl.
  intros k row. rewrite lookup_insert_Some. intros [[<- <-]|[_ Hk]]; [done|by apply Ha].
Qed.

Lemma signed_row now identity reason at_ cb :
  length (fc_MyPriv cfg) = 64%nat →
  CanonicalRevocationPreSig (unsigned_revocation cfg identity reason at_) = Some cb →
  let rev := sign_revocation cfg cb (unsigned_revocation cfg identity reason at_) in
  ValidateRevocation (Some rev) = None → authentic_row (revocation_row now rev).
Proof.
  intros Hk Hc rev Hv. exists rev, cb, (ed25519_Public (fc_MyPriv cfg)), now.
  split_and!; [done|done|exact Hc|by apply Verify_Sign|by left].
Qed.

Lemma validated_tracker_id rev : ValidateRevocation (Some rev) = None → length (re_TrackerId rev) = 32%nat.
Proof.
  unfold ValidateRevocation, TrackerIDLen, blen. destruct (negb _) eqn:E; [done|]. intros _.
  bool_to_prop. lia.
Qed.

Lemma OnFreeze_inv now identity reason at_ f :
  length (fc_MyPriv cfg) = 64%nat → fed_inv f → fed_inv (OnFreeze cfg deps Link now identity reason at_ f).
Proof.
  intros Hk Hf. unfold OnFreeze. cbn [dep_RevocationArchive store_deps].
  destruct (CanonicalRevocationPreSig _) as [cb|] eqn:Hc; [|by eapply quiet_inv; [|exact Hf]].
  destruct (ValidateRevocation _) eqn:Hv; [by eapply quiet_inv; [|exact Hf]|].
  destruct (Marshal _) as [payload|]; [|by eapply quiet_inv; [|exact Hf]].
  destruct (on_store _ f) as [o g] eqn:E.
  eapply put_authentic in E; [|by eapply signed_row|done].
  eapply quiet_inv; [|exact E]. apply forward_quiet. destruct o; eauto with quiet.
Qed.

Lemma OnIncoming_inv now env f : fed_inv f → fed_inv (OnIncoming cfg deps Link now env f).
Proof.
  intros Hf. unfold OnIncoming. cbn [dep_RevocationArchive store_deps].
  destruct (Unmarshal _) as [rev|]; [|by eapply quiet_inv; [|exact Hf]].
  destruct (ValidateRevocation _) eqn:Hv; [by eapply quiet_inv; [|exact Hf]|].
  pose proof (validated_tracker_id _ Hv) as Hlen. rewrite copy32_id by done.
  destruct (PeerPubKey f _) as [pub|] eqn:Hp; [|by eapply quiet_inv; [|exact Hf]].
  destruct (CanonicalRevocationPreSig _) as [cb|] eqn:Hc; [|by eapply quiet_inv; [|exact Hf]].
  destruct (ed25519_Verify _ _ _) eqn:Hs; [|by eapply quiet_inv; [|exact Hf]]. cbn [negb].
  destruct (on_store _ f) as [o g] eqn:E. eapply put_authentic in E; [| |done].
  - eapply quiet_inv; [|exact E]. destruct o; eauto with quiet.
  - exists rev, cb, pub, now. split_and!; [done..|]. right. unfold PeerPubKey, Peers_Get in Hp.
    apply fmap_Some in Hp as (p & Hp & ->). by apply (proj2 Hf).
Qed.

Lemma attach_inv res c f :
  Listed (hr_PeerTrackerID res) (hr_PeerPubKey res) → fed_inv f → fed_inv (attachPeer RemoteAddr res c f).
Proof.
  intros Hl [Ha Hr]. unfold attachPeer. destruct (f_closed f); [done|]. split; [exact Ha|].
  simpl. unfold Peers_Update. simpl. destruct (f_reg f !! _); simpl; [|exact Hr].
  intros id q. rewrite lookup_insert_Some. intros [[<- <-]|[_ Hp]]; [done|by apply Hr].
Qed.

Lemma expected_listed f id pub : reg_listed (f_reg f) → expected_peers f !! id = Some pub → Listed id pub.
Proof.
  intros Hr He. unfold expected_peers, Peers_All in He. apply elem_of_list_to_map_2 in He.
  apply list_elem_of_fmap in He as (p & [= -> ->] & Hp).
  apply list_elem_of_fmap in Hp as (q & -> & Hq). apply list_elem_of_fmap in Hq as ([k q'] & -> & Hq).
  apply elem_of_map_to_list in Hq. destruct (Hr _ _ Hq) as [<- Hl]. exact Hl.
Qed.

Lemma AddPeer_inv p f : Listed (al_TrackerID p) (al_PubKey p) → fed_inv f → fed_inv (snd (AddPeer p f)).
Proof.
  intros Hl [Ha Hr]. unfold AddPeer, Peers_Add. destruct (negb _); [done|].
  destruct (f_reg f !! _) eqn:Hp; [done|]. split; [exact Ha|].
  simpl. intros id q. rewrite lookup_insert_Some. intros [[<- <-]|[_ Hq]]; [done|by apply Hr].
Qed.

Lemma fed_step_inv now ev f :
  length (fc_MyPriv cfg) = 64%nat → operator_ok ev → fed_inv f →
  fed_inv (fed_step cfg deps RemotePub RemoteAddr Link now ev f).
Proof.
  intros Hk Hok Hf. pose proof (quiet_refl f) as Hq. destruct ev; simpl in *.
  - unfold recv_turn, dispatch. case_decide; [done|]. destruct (UnmarshalFrame _) as [env|]; [|done].
    pose proof (quiet_inv _ _ (gate_quiet RemotePub now c peer env f f Hq) Hf) as Hg.
    destruct (gate _ _ _ _ _ _) as [[] g]; [|exact Hg]. simpl in Hg.
    destruct (decide (fe_Kind env = KIND_REVOCATION)) as [E|E].
    + unfold handle. rewrite E. by apply OnIncoming_inv.
    + eapply quiet_inv; [|exact Hg]. eapply handle_quiet; eauto with quiet.
  - by apply OnFreeze_inv.
  - eapply quiet_inv; [|exact Hf]. unfold PublishHour.
    repeat (case_match; simplify_eq); simpl; eauto with quiet.
  - eapply quiet_inv; [|exact Hf]. eauto with quiet.
    by apply PublishPeerExchange_quiet.
  - unfold acceptInbound. destruct (RunHandshakeListener _ _ _ _ _) as [[res|e] hs'] eqn:E; simpl.
    + apply attach_inv; [|done]. apply listener_authenticates in E as (He & _).
      by eapply expected_listed; [apply Hf|].
    + by eapply quiet_inv; [|exact Hf].
  - unfold attachAndWait. destruct (RunHandshakeDialer _ _ _ _ _ _) as [[res|e] hs'] eqn:E; simpl.
    + apply attach_inv; [|done]. by apply dialer_authenticates in E as (-> & -> & _).
    + by eapply quiet_inv; [|exact Hf].
  - by apply AddPeer_inv.
  - eapply quiet_inv; [|exact Hf]. eauto with quiet.
  - eapply quiet_inv; [|exact Hf]. by apply Close_quiet.
  - exact Hf.
  - unfold Fed_IssueTransferReversal. destruct (dep_Ledger _); [|exact Hf].
    eapply quiet_inv; [|exact Hf]. by apply on_transfer_quiet, reversal_revs.
  - unfold Fed_StartTransfer. simpl. destruct ledger as [h|] eqn:El; [|exact Hf].
    destruct (negb _); [exact Hf|].
    eapply quiet_inv; [|exact Hf]. unfold on_transfer.
    destruct (StartTransfer_send _ _ _ _ _) as [r t] eqn:E. simpl.
    apply send_revs in E; [|done]. by apply (quiet_same f f).
  - unfold Fed_StartTransfer_wake. simpl.
    destruct (StartTransfer_wake _ _ _ _ _ _ _ _ _ _) as [[r t]|] eqn:E; [|exact Hf].
    eapply quiet_inv; [|exact Hf]. apply wake_revs in E; [|done]. by apply (quiet_same f f).
  - eapply quiet_inv; [|exact Hf]. by apply watch_quiet.
  - eapply quiet_inv; [|exact Hf]. unfold prune_tick. simpl. destruct (_ || _); [done|].
    by apply (store_quiet' (DeleteStaleKnownPeers io _)); [apply _|].
  - eapply quiet_inv; [|exact Hf]. apply (quiet_same f f); [apply Hok|done|done].
Qed.

Lemma Open_inv now l :
  Forall (λ p, Listed (al_TrackerID p) (al_PubKey p)) (fc_Peers cfg) →
  revs_authentic (peer_revocations (hs_store l)) → fed_inv (Open cfg deps now l).
Proof.
  intros Hps Hl. unfold Open. cbn [dep_KnownPeers store_deps].
  set (f0 := Build_Federation _ _ _ _ _ _ _ _ _).
  assert (fed_inv f0) as Hf0 by (split; [exact Hl|by intros id p Hp]). clearbody f0.
  assert (∀ ps f, fed_inv f → fed_inv (foldl (λ f p,
    snd (on_store (arch_UpsertKnownPeer (store_known_peers io) (seed_row now p)) f)) f ps)) as Hseed.
  { induction ps as [|p ps IH]; intros f Hf; [done|]. apply IH.
    eapply quiet_inv; [|exact Hf]. by apply (store_quiet' (UpsertKnownPeer io _)); [apply _|]. }
  apply Hseed. clear Hseed. revert f0 Hf0. induction Hps as [|p ps Hp Hps IH]; intros f0 Hf0; [done|].
  by apply IH, AddPeer_inv.
Qed.

(** C25: no peer can plant a revocation. Over any run of the subsystem from its start, in which
    the operator configures, adds and dials listed peers only, and the rest of the tracker
    leaves that table alone, every row of the archive is the row of a well-formed revocation,
    kept under its issuer and its identity, whose signature verifies under this tracker's own
    key or under the key the operator lists for the issuer; and the registry holds listed keys
    only. *)
Theorem revocations_authentic now l t f :
  length (fc_MyPriv cfg) = 64%nat →
  Forall (λ p, Listed (al_TrackerID p) (al_PubKey p)) (fc_Peers cfg) →
  revs_authentic (peer_revocations (hs_store l)) →
  runs cfg deps RemotePub RemoteAddr Link operator_ok now (Open cfg deps now l) t f →
  revs_authentic (revs f) ∧ reg_listed (f_reg f).
Proof.
  intros Hk Hp Hl Hr. pose proof (Open_inv now l Hp Hl) as Ho.
  induction Hr; [exact Ho|by apply fed_step_inv].
Qed.
End authentic.

(** ** A freeze reaches the peers *)

Section propagation.
Context `{CryptoLaws} `{Wire} `{FedWireLaws}.
Implicit Types f g : Federation HookState.

Lemma sealed_received cfg k p frame :
  sealed cfg k p = Ok frame → blen frame <= MaxFrameBytes →
  ∃ env, UnmarshalFrame frame = Ok env ∧ fe_Kind env = k ∧ fe_Payload env = p ∧
    fe_SenderId env = fc_MyTrackerID cfg ∧
    Fed_VerifyEnvelope (ed25519_Public (fc_MyPriv cfg)) env = None.
Proof.
  unfold sealed. destruct (Fed_SignEnvelope _ _ _ _) as [env|] eqn:Es; [|done]. intros Hm Hl.
  exists env. split; [by apply UnmarshalFrame_MarshalFrame|].
  split_and!; [| | |by eapply SignEnvelope_verifies];
    by apply SignEnvelope_inv in Es as (_ & _ & _ & ->).
Qed.

(** A frame that is new, within its rate and signed by the connection's key passes. *)
Lemma gate_passes RemotePub now c p env f :
  Fed_VerifyEnvelope (RemotePub c) env = None →
  fst (Allow now p (fe_Kind env) (f_limiter f)) = true →
  fst (Seen now (MessageID env) (f_dedupe f)) = false →
  ∃ g, gate RemotePub now c p env f = (true, g) ∧ f_reg g = f_reg f ∧ f_peers g = f_peers f ∧
       f_shut g = f_shut f ∧ f_transfer g = f_transfer f ∧ f_health g = f_health f.
Proof.
  intros Hv Ha Hs. unfold gate. rewrite Hv. destruct (Allow _ _ _ _) as [ok lim]. simpl in Ha.
  subst ok. simpl. destruct (Seen _ _ _) as [s d]. simpl in Hs. subst s. by eexists.
Qed.

Lemma validated_revocation rev : ValidateRevocation (Some rev) = None →
  length (re_TrackerId rev) = 32%nat ∧ length (re_IdentityId rev) = 32%nat ∧
  length (re_TrackerSig rev) = 64%nat.
Proof.
  unfold ValidateRevocation, TrackerIDLen, SigLen, blen. intros Hv.
  repeat (case_match; try done); bool_to_prop; lia.
Qed.

(** The archive's keys are its rows' keys. *)
Definition revs_keyed (m : gmap (bytes * bytes) PeerRevocation) : Prop :=
  ∀ k r, m !! k = Some r → k = (rv_TrackerID r, rv_IdentityID r).

Lemma put_revokes now rev s :
  ValidateRevocation (Some rev) = None → revs_keyed (peer_revocations s) →
  sql_uint (re_RevokedAt rev) = true → sql_uint (u64 (Unix now)) = true →
  ∃ s', PutPeerRevocation no_faults (revocation_row now rev) s = (Ok tt, s') ∧
        IsIdentityRevoked no_faults (re_IdentityId rev) s' = Ok true.
Proof.
  intros Hv Hk Ha Hn. apply validated_revocation in Hv as (Ht & Hi & Hs).
  unfold PutPeerRevocation. cbn [rv_TrackerID rv_IdentityID rv_TrackerSig rv_RevokedAt rv_ReceivedAt revocation_row].
  unfold blen. rewrite Ht, Hi, Hs, Ha, Hn. cbn.
  assert (∀ (m : gmap (bytes * bytes) PeerRevocation) r, m !! (re_TrackerId rev, re_IdentityId rev) = Some r → rv_IdentityID r = re_IdentityId rev →
    existsb (λ r, bool_decide (rv_IdentityID r = re_IdentityId rev)) (map_to_list m).*2 = true) as Hex.
  { intros m r Hm Hr. apply existsb_exists. exists r. split; [|by apply bool_decide_eq_true].
    apply list_elem_of_In, list_elem_of_fmap. exists ((re_TrackerId rev, re_IdentityId rev), r).
    split; [done|]. by apply elem_of_map_to_list. }
  destruct (peer_revocations s !! _) as [r|] eqn:E; eexists; (split; [reflexivity|]);
    unfold IsIdentityRevoked; cbn; f_equal.
  - eapply Hex; [exact E|]. specialize (Hk _ _ E). congruence.
  - eapply Hex; [apply lookup_insert_eq|done].
Qed.

(** A freeze is gossiped. Let tracker A freeze an identity. When the revocation can be
    encoded, A puts its frame on the way to every peer whose connection is open and takes it.
    A peer B that lists A's key, on a connection to that key, and that reads the frame while
    A's rate allows it and before B has seen the payload, then holds the identity revoked, and
    puts the revocation on the way to its own peers in turn. *)
Lemma freeze_propagates cfgA (depsA : FedDeps HookState) LinkA archA nowA identity reason at_ fA idB cA
    cb payload frame
    cfgB ledgerB RemotePub LinkB nowB cB pubA fB idC cC frameC :
  dep_RevocationArchive depsA = Some archA →
  CanonicalRevocationPreSig (unsigned_revocation cfgA identity reason at_) = Some cb →
  let rev := sign_revocation cfgA cb (unsigned_revocation cfgA identity reason at_) in
  ValidateRevocation (Some rev) = None → Marshal rev = Some payload →
  sealed cfgA KIND_REVOCATION payload = Ok frame → blen frame <= MaxFrameBytes →
  f_peers fA !! idB = Some cA → cA ∉ f_shut fA → LinkA cA frame = None →
  pubA = ed25519_Public (fc_MyPriv cfgA) →
  RemotePub cB = pubA → PeerPubKey fB (fc_MyTrackerID cfgA) = Some pubA → cB ∉ f_shut fB →
  fst (Allow nowB (fc_MyTrackerID cfgA) KIND_REVOCATION (f_limiter fB)) = true →
  fst (Seen nowB (sha256 payload) (f_dedupe fB)) = false →
  revs_keyed (revs fB) → sql_uint (re_RevokedAt rev) = true → sql_uint (u64 (Unix nowB)) = true →
  sealed cfgB KIND_REVOCATION payload = Ok frameC →
  f_peers fB !! idC = Some cC → cC ∉ f_shut fB → LinkB cC frameC = None →
  let fB' := recv_turn cfgB (store_deps no_faults ledgerB) RemotePub LinkB nowB cB
               (fc_MyTrackerID cfgA) frame fB in
  Sent idB KIND_REVOCATION payload ∈ f_out (OnFreeze cfgA depsA LinkA nowA identity reason at_ fA) ∧
  IsIdentityRevoked no_faults identity (hs_store (f_store fB')) = Ok true ∧
  Sent idC KIND_REVOCATION payload ∈ f_out fB'.
Proof.
  intros HarchA Hcb rev Hv Hm Hs Hl HpB HcA HLA HpubA Hrem Hreg HcB Hallow Hseen Hkeyed Hsql Hsqln
    HsC HpC HcC HLC fB'.
  split.
  { unfold OnFreeze. rewrite HarchA, Hcb. fold rev. rewrite Hv, Hm.
    destruct (on_store _ fA) as [o g] eqn:E.
    assert (f_peers g = f_peers fA ∧ f_shut g = f_shut fA) as [Hg1 Hg2].
    { unfold on_store in E. destruct (arch_PutPeerRevocation _ _ _). by injection E as _ <-. }
    set (g' := match o with Ok _ => _ | Err _ => _ end).
    assert (f_peers g' = f_peers fA ∧ f_shut g' = f_shut fA) as [Hp' Hs'] by by destruct o.
    destruct (forward_fields cfgA LinkA nowA KIND_REVOCATION payload g') as (_&_&_&_&_&_&_&->).
    apply elem_of_app. right. eapply forwarded_elem; [done|by rewrite Hp'|by rewrite Hs'|done]. }
  destruct (sealed_received _ _ _ _ Hs Hl) as (env & Hu & Hk & Hpay & _ & Hver).
  subst fB'. unfold recv_turn. rewrite decide_False, Hu by done. unfold dispatch.
  destruct (gate_passes RemotePub nowB cB (fc_MyTrackerID cfgA) env fB) as (g & Hg & Hgr & Hgp & Hgs & Hgt & _).
  { by rewrite Hrem, HpubA. } { by rewrite Hk. } { unfold MessageID. by rewrite Hpay. }
  rewrite Hg. unfold handle. rewrite Hk. unfold OnIncoming. cbn [dep_RevocationArchive store_deps].
  rewrite Hpay, (Unmarshal_Marshal _ _ Hm), Hv.
  destruct (validated_revocation _ Hv) as (Hlt & _). rewrite copy32_id by done.
  change (re_TrackerId rev) with (fc_MyTrackerID cfgA).
  assert (PeerPubKey g (fc_MyTrackerID cfgA) = Some pubA) as -> by (unfold PeerPubKey; by rewrite Hgr).
  change (CanonicalRevocationPreSig rev)
    with (CanonicalRevocationPreSig (unsigned_revocation cfgA identity reason at_)). rewrite Hcb.
  assert (ed25519_Verify pubA cb (re_TrackerSig rev) = true) as ->.
  { rewrite HpubA. apply Verify_Sign. unfold sealed in Hs.
    destruct (Fed_SignEnvelope _ _ _ _) eqn:E; [|done]. by apply SignEnvelope_inv in E as [? _]. }
  cbn [negb]. unfold on_store. cbn [arch_PutPeerRevocation store_revocations]. unfold on_hook_store.
  assert (f_store g = f_store fB) as Hst by (unfold f_store; by rewrite Hgt).
  destruct (put_revokes nowB rev (hs_store (f_store g))) as (s' & Hput & Hrevoked); try done.
  { by rewrite Hst. }
  rewrite Hput. set (g1 := upd_health _ _).
  destruct (forward_fields cfgB LinkB nowB KIND_REVOCATION payload g1) as (_&_&_&_&_&_&->&->).
  split; [exact Hrevoked|]. apply elem_of_app. right.
  eapply forwarded_elem; [done| | |exact HLC].
  - unfold g1. simpl. by rewrite Hgp.
  - unfold g1. simpl. by rewrite Hgs.
Qed.
End propagation.

(** ** Equivocation *)

Section equivocation.
Context `{CryptoLaws} `{Wire} `{FedWireLaws}.
Variable cfg : FedConfig.
Variable ledger : option (LedgerHooks HookState).
Variable Link : nat → bytes → option FErr.
Notation deps := (store_deps no_faults ledger).
Implicit Types f g : Federation HookState.

(** The tracker is out of the registry, its connection there is closed, its health is zero. *)
Definition expelled (id : bytes) f g : Prop :=
  f_reg g !! id = None ∧ (∀ hc now, Health_Score hc id now (f_health g) = f64_of_int 0) ∧
  ∀ p c, f_reg f !! id = Some p → pi_Conn p = Some c → c ∈ f_shut g.

Lemma punish_expels id f g : f_reg g = f_reg f → expelled id f (punish id g).
Proof.
  intros Hr. unfold expelled, punish. split_and!.
  - simpl. rewrite (proj1 (reg_Depeer_fields id g)). apply lookup_delete_eq.
  - intros hc now. unfold Health_Score. rewrite decide_True; [done|]. simpl. set_solver.
  - intros p c Hp Hc. simpl. unfold reg_Depeer, Peers_Depeer. rewrite Hr, Hp. simpl. rewrite Hc.
    simpl. set_solver.
Qed.

(** The evidence a conflict gives. *)
Definition evidence (existing : PeerRoot) (msg : RootAttestation) : EquivocationEvidence := {|
  ee_TrackerId := ra_TrackerId msg; ee_Hour := ra_Hour msg; ee_RootA := pr_Root existing;
  ee_SigA := pr_Sig existing; ee_RootB := ra_MerkleRoot msg; ee_SigB := ra_TrackerSig msg |}.

Lemma attestation_sizes msg : ValidateRootAttestation (Some msg) = None →
  length (ra_TrackerId msg) = 32%nat ∧ length (ra_MerkleRoot msg) = 32%nat ∧
  length (ra_TrackerSig msg) = 64%nat.
Proof.
  unfold ValidateRootAttestation, TrackerIDLen, RootLen, SigLen, blen. intros Hv.
  repeat (case_match; try done); bool_to_prop; lia.
Qed.

Lemma evidence_valid existing msg :
  ValidateRootAttestation (Some msg) = None → length (pr_Root existing) = 32%nat →
  length (pr_Sig existing) = 64%nat → pr_Root existing ≠ ra_MerkleRoot msg →
  ValidateEquivocationEvidence (Some (evidence existing msg)) = None.
Proof.
  intros (Ht & Hr & Hs)%attestation_sizes Hr' Hs' Hne.
  unfold ValidateEquivocationEvidence, evidence, TrackerIDLen, RootLen, SigLen, blen. simpl.
  rewrite Ht, Hr, Hs, Hr', Hs'. simpl. by rewrite bool_decide_eq_false_2.
Qed.

Lemma put_conflict pr f existing :
  length (pr_TrackerID pr) = 32%nat → length (pr_Root pr) = 32%nat → length (pr_Sig pr) = 64%nat →
  sql_uint (pr_Hour pr) = true →
  peer_root_archive (hs_store (f_store f)) !! (pr_TrackerID pr, pr_Hour pr) = Some existing →
  pr_Root existing ≠ pr_Root pr →
  on_store (arch_PutPeerRoot (dep_Archive deps) pr) f = (Err ErrPeerRootConflict, f).
Proof.
  intros Ht Hr Hs Hh He Hne. unfold on_store. cbn [arch_PutPeerRoot dep_Archive store_deps store_archive].
  unfold on_hook_store, PutPeerRoot, blen. rewrite Ht, Hr, Hs, Hh, He. cbn.
  rewrite bool_decide_eq_false_2 by done. cbn. f_equal.
  unfold upd_transfer, set_ledger, with_store, f_store. by destruct f as [? ? ? ? ? ? ? ? [? ? ? [] ?]].
Qed.

(** Equivocation is punished, and so is the accusation. First: when a tracker attests, for
    an hour it has attested, another root, the attestation is refused, nothing is archived, the
    evidence goes to every peer whose connection is open and takes it, and the tracker is
    expelled: out of the registry, its connection closed, its health score zero. Second: well-
    formed evidence a peer sends about any tracker but this one has the same effect on the
    tracker it names; the two signatures it carries are not looked at. *)
Lemma equivocation_expels now env f :
  (∀ msg existing payload frame,
     Unmarshal (fe_Payload env) = Some msg → ValidateRootAttestation (Some msg) = None →
     fe_SenderId env = ra_TrackerId msg → sql_uint (ra_Hour msg) = true →
     peer_root_archive (hs_store (f_store f)) !! (ra_TrackerId msg, ra_Hour msg) = Some existing →
     length (pr_Root existing) = 32%nat → length (pr_Sig existing) = 64%nat →
     pr_Root existing ≠ ra_MerkleRoot msg →
     Marshal (evidence existing msg) = Some payload →
     sealed cfg KIND_EQUIVOCATION_EVIDENCE payload = Ok frame →
     let r := Apply cfg deps Link now env f in
     fst r = Some ErrEquivocation ∧ expelled (ra_TrackerId msg) f (snd r) ∧
     f_store (snd r) = f_store f ∧
     ∀ id c, f_peers f !! id = Some c → c ∉ f_shut f → Link c frame = None →
       Sent id KIND_EQUIVOCATION_EVIDENCE payload ∈ f_out (snd r)) ∧
  (∀ evi from,
     Unmarshal (fe_Payload env) = Some evi → ValidateEquivocationEvidence (Some evi) = None →
     ee_TrackerId evi ≠ fc_MyTrackerID cfg →
     expelled (ee_TrackerId evi) f (OnIncomingEvidence cfg Link now env from f)).
Proof.
  split.
  - intros msg existing payload frame Hu Hv Hsend Hh Hex Hlr Hls Hne Hm Hs r. subst r.
    pose proof (evidence_valid existing msg Hv Hlr Hls Hne) as Hve.
    destruct (attestation_sizes _ Hv) as (Ht & Hr & Hsig).
    unfold Apply. rewrite Hu, Hv, Hsend, bool_decide_eq_true_2 by done. cbn [negb].
    rewrite (put_conflict _ _ existing) by done.
    unfold OnLocalConflict. cbn [arch_GetPeerRoot dep_Archive store_deps store_archive].
    unfold GetPeerRoot. rewrite Hh, Hex. cbn [orb negb no_faults].
    fold (evidence existing msg). rewrite Hve, Hm. cbn [default]. rewrite copy32_id by done.
    cbn [fst snd]. set (g := forward _ _ _ _ _ f).
    destruct (forward_fields cfg Link now KIND_EQUIVOCATION_EVIDENCE payload f)
      as (Hgr & _ & _ & _ & Hgp & Hgs & Hgst & Hgo). fold g in Hgr, Hgp, Hgs, Hgst, Hgo.
    destruct (reg_Depeer_fields (ra_TrackerId msg) g) as (_ & _ & _ & _ & _ & Htr).
    split_and!; [done|by apply punish_expels| |].
    + unfold punish, f_store. simpl. rewrite Htr. exact Hgst.
    + intros id c Hp Hc Hl. unfold punish, f_out. simpl. rewrite Htr.
      change (Sent id KIND_EQUIVOCATION_EVIDENCE payload ∈ f_out g).
      assert (f_out g = f_out f ++ forwarded cfg Link None KIND_EQUIVOCATION_EVIDENCE payload f) as ->
        by exact Hgo.
      apply elem_of_app. right. by eapply forwarded_elem.
  - intros evi from Hu Hv Hne. unfold OnIncomingEvidence. rewrite Hu, Hv.
    rewrite bool_decide_eq_false_2 by done.
    assert (length (ee_TrackerId evi) = 32%nat) as Ht.
    { unfold ValidateEquivocationEvidence, TrackerIDLen, blen in Hv.
      destruct (negb _) eqn:E; [done|]. bool_to_prop. lia. }
    rewrite copy32_id by done. apply punish_expels.
    by destruct (forward_fields cfg Link now KIND_EQUIVOCATION_EVIDENCE (fe_Payload env) f) as [-> _].
Qed.

Variable RemotePub : nat → bytes.

(** An attestation travels one hop. A root attestation that its receiver forwards carries
    the forwarder as the sender of its envelope; the next tracker compares the two and refuses
    it, so that nothing of it is archived and no equivocation can come to light there. *)
Lemma attestation_stops_after_one_hop cfgB msg payload frame now c from f :
  Unmarshal payload = Some msg → ra_TrackerId msg ≠ fc_MyTrackerID cfgB →
  sealed cfgB KIND_ROOT_ATTESTATION payload = Ok frame → blen frame <= MaxFrameBytes →
  let f' := recv_turn cfg deps RemotePub Link now c from frame f in
  f_store f' = f_store f ∧ f_reg f' = f_reg f ∧ f_health f' = f_health f ∧ f_peers f' = f_peers f.
Proof.
  intros Hu Hne Hs Hl f'. subst f'.
  destruct (sealed_received _ _ _ _ Hs Hl) as (env & Hue & Hk & Hpay & Hsend & _).
  unfold recv_turn. case_decide; [done|]. rewrite Hue. unfold dispatch.
  assert (∃ b g, gate RemotePub now c from env f = (b, g) ∧ f_store g = f_store f ∧
    f_reg g = f_reg f ∧ f_health g = f_health f ∧ f_peers g = f_peers f) as (b & g & -> & Hg).
  { unfold gate. destruct (Fed_VerifyEnvelope _ _); [by do 2 eexists|].
    destruct (Allow _ _ _ _) as [[] lim]; [|by do 2 eexists]. simpl.
    destruct (Seen _ _ _) as [[] d]; by do 2 eexists. }
  destruct b; [|done]. unfold handle. rewrite Hk. unfold Apply. rewrite Hpay, Hu, Hsend.
  destruct (ValidateRootAttestation (Some msg)); [done|].
  by rewrite bool_decide_eq_false_2.
Qed.
End equivocation.

(** ** Witnesses *)

Section fed_witnesses.
#[local] Existing Instances ToyCrypto ToyCryptoLaws ToyWire ToyFedWire ToyFedWireLaws.

Definition wf_bucket : RateBucket := {| rb_Rate := f64_zero; rb_Burst := 0 |}.

Definition wf_cfg (b : byte) (peers : list byte) : FedConfig := {|
  fc_MyTrackerID := w_id b; fc_MyPriv := w_key b; fc_HandshakeTimeout := 5 * Second;
  fc_DedupeTTL := 10 * Second; fc_DedupeCap := 4; fc_GossipRateQPS := 100; fc_SendQueueDepth := 256;
  fc_PublishCadence := Hour; fc_IdleTimeout := 60 * Second; fc_RedialBase := Second;
  fc_RedialMax := 30 * Second; fc_TransferTimeout := 30 * Second; fc_IssuedProofCap := 4096;
  fc_Peers := (λ p, {| al_TrackerID := w_id p; al_PubKey := ed25519_Public (w_key p);
                       al_Addr := "a"; al_Region := "r" |}) <$> peers;
  fc_Health := {| hc_UptimeWindow := Hour; hc_RevGossipWindow := Hour; hc_LatencyTarget := Second;
                  hc_UptimeWeight := f64_one; hc_RevGossipWeight := f64_zero;
                  hc_LatencyWeight := f64_zero |};
  fc_PeerExchangeCadence := Hour;
  fc_RateLimit := {| rl_RootAttestation := wf_bucket; rl_Revocation := wf_bucket;
                     rl_PeerExchange := wf_bucket; rl_EquivocationEvidence := wf_bucket;
                     rl_Transfer := wf_bucket |};
  fc_KnownPeersPruneInterval := Hour; fc_KnownPeersMaxAge := Hour;
  fc_LowHealthThreshold := f64_fifth; fc_LowHealthSustainedWindow := 30 * Minute;
  fc_HealthWatchInterval := 5 * Minute |}.

Definition wf_deps : FedDeps HookState := store_deps no_faults None.
Definition wf_store : HookState := {| hs_store := empty_store; hs_events := [] |}.
Definition wf_link (c : nat) (frame : bytes) : option FErr := None.
(** Connection [n] leads to the tracker of byte [n]. *)
Definition wf_pub (c : nat) : bytes := ed25519_Public (w_key (default Byte.x00 (Byte.of_N (N.of_nat c)))).

(** The tracker of byte [b], which lists [peers] and is connected to [up]. *)
Definition wf_fed (b : byte) (peers : list byte) (up : gmap bytes nat) : Federation HookState :=
  upd_peers (λ _, up) (Open (wf_cfg b peers) wf_deps 0 wf_store).

Definition wf_envelope (b : byte) (k : Kind) (payload : bytes) : Envelope :=
  {| fe_SenderId := w_id b; fe_Kind := k; fe_Payload := payload;
     fe_SenderSig := ed25519_Sign (w_key b) payload |}.

Lemma fst_pair {A B} (p : A * B) a : fst p = a → p = (a, snd p).
Proof. by destruct p; simpl; intros ->. Qed.

Definition wf_ping : Envelope := wf_envelope Byte.x01 KIND_PING [Byte.x07].


Lemma revocations_authentic_witness :
  revs_authentic (wf_cfg Byte.x02 []) (λ _ _, True)
    (revs (fed_step (wf_cfg Byte.x02 []) wf_deps wf_pub (λ _, "") wf_link (5 * Second)
       (EvFreeze (w_id Byte.x09) "operator" Second) (Open (wf_cfg Byte.x02 []) wf_deps 0 wf_store))) ∧
  size (revs (fed_step (wf_cfg Byte.x02 []) wf_deps wf_pub (λ _, "") wf_link (5 * Second)
       (EvFreeze (w_id Byte.x09) "operator" Second) (Open (wf_cfg Byte.x02 []) wf_deps 0 wf_store))) = 1%nat.
Proof.
  split; [|vm_compute; reflexivity].
  refine (proj1 (revocations_authentic (wf_cfg Byte.x02 []) no_faults None _ wf_pub (λ _, "") wf_link
    (λ _ _, True) 0 wf_store (5 * Second) _ _ _ _ _)).
  - discriminate.
  - reflexivity.
  - constructor.
  - intros k r Hr. cbn in Hr. by rewrite lookup_empty in Hr.
  - eapply runs_step; [apply runs_refl|vm_compute; discriminate|exact I].
Defined.

Lemma wf_keyed b peers up : revs_keyed (revs (wf_fed b peers up)).
Proof.
  intros k r Hr.
  refine (proj1 (proj1 (Open_inv (wf_cfg b peers) no_faults None (λ _ _, True) 0 wf_store _ _) k r Hr)).
  - by apply Forall_true.
  - intros k' r' Hr'. cbn in Hr'. by rewrite lookup_empty in Hr'.
Qed.

Definition wf_unsigned : Revocation :=
  unsigned_revocation (wf_cfg Byte.x01 []) (w_id Byte.x09) "freeze_repeat" Second.
Definition wf_cb : bytes := default [] (CanonicalRevocationPreSig wf_unsigned).
Definition wf_payload : bytes :=
  default [] (Marshal (sign_revocation (wf_cfg Byte.x01 []) wf_cb wf_unsigned)).
Definition wf_frame (b : byte) : bytes :=
  match sealed (wf_cfg b []) KIND_REVOCATION wf_payload with Ok fr => fr | Err _ => [] end.

Lemma freeze_propagates_witness :
  IsIdentityRevoked no_faults (w_id Byte.x09) (hs_store (f_store
    (recv_turn (wf_cfg Byte.x02 [Byte.x01]) wf_deps wf_pub wf_link (3 * Second) 1 (w_id Byte.x01)
       (wf_frame Byte.x01) (wf_fed Byte.x02 [Byte.x01] {[w_id Byte.x03 := 3%nat]})))) = Ok true.
Proof.
  refine (proj1 (proj2 (freeze_propagates (wf_cfg Byte.x01 []) wf_deps wf_link (store_revocations no_faults)
    (2 * Second) (w_id Byte.x09) "freeze_repeat" Second
    (wf_fed Byte.x01 [Byte.x02] {[w_id Byte.x02 := 2%nat]}) (w_id Byte.x02) 2
    wf_cb wf_payload (wf_frame Byte.x01) (wf_cfg Byte.x02 [Byte.x01]) None wf_pub wf_link (3 * Second) 1
    (wf_pub 1) (wf_fed Byte.x02 [Byte.x01] {[w_id Byte.x03 := 3%nat]}) (w_id Byte.x03) 3 (wf_frame Byte.x02)
    _ _ _ _ _ _ _ _ _ _ _ _ _ _ _ _ _ _ _ _ _ _))).
  16: apply wf_keyed.
  8, 13, 20: intros Hin; cbn in Hin; set_solver.
  1: reflexivity.
  5: vm_compute; discriminate.
  all: vm_compute; reflexivity.
Defined.

(** Evidence with two signatures nobody made. *)
Definition wf_forged : EquivocationEvidence := {|
  ee_TrackerId := w_id Byte.x03; ee_Hour := 1; ee_RootA := replicate 32 Byte.x01;
  ee_SigA := replicate 64 Byte.x00; ee_RootB := replicate 32 Byte.x02;
  ee_SigB := replicate 64 Byte.x00 |}.
Definition wf_forged_env : Envelope :=
  wf_envelope Byte.x01 KIND_EQUIVOCATION_EVIDENCE (default [] (Marshal wf_forged)).

Lemma equivocation_expels_witness :
  let f := wf_fed Byte.x02 [Byte.x01; Byte.x03] {[w_id Byte.x03 := 3%nat]} in
  is_Some (f_reg f !! w_id Byte.x03) ∧
  expelled (w_id Byte.x03) f
    (OnIncomingEvidence (wf_cfg Byte.x02 [Byte.x01; Byte.x03]) wf_link Second wf_forged_env (w_id Byte.x01) f).
Proof.
  intros f. split; [vm_compute; by eexists|].
  refine (proj2 (equivocation_expels (wf_cfg Byte.x02 [Byte.x01; Byte.x03]) None wf_link Second wf_forged_env f)
            wf_forged (w_id Byte.x01) _ _ _).
  - vm_compute. reflexivity.
  - vm_compute. reflexivity.
  - vm_compute. discriminate.
Defined.

Definition wf_attestation : RootAttestation := {|
  ra_TrackerId := w_id Byte.x01; ra_Hour := 1; ra_MerkleRoot := replicate 32 Byte.x01;
  ra_TrackerSig := replicate 64 Byte.x01 |}.
Definition wf_attested : bytes := default [] (Marshal wf_attestation).
Definition wf_hop : bytes :=
  match sealed (wf_cfg Byte.x02 []) KIND_ROOT_ATTESTATION wf_attested with Ok fr => fr | Err _ => [] end.

Lemma attestation_stops_after_one_hop_witness :
  let f := wf_fed Byte.x03 [Byte.x01; Byte.x02] ∅ in
  f_store (recv_turn (wf_cfg Byte.x03 [Byte.x01; Byte.x02]) wf_deps wf_pub wf_link Second 2 (w_id Byte.x02)
             wf_hop f) = f_store f.
Proof.
  intros f.
  refine (proj1 (attestation_stops_after_one_hop (wf_cfg Byte.x03 [Byte.x01; Byte.x02]) None wf_link wf_pub
    (wf_cfg Byte.x02 []) wf_attestation wf_attested wf_hop Second 2 (w_id Byte.x02) f _ _ _ _)).
  - vm_compute. reflexivity.
  - vm_compute. discriminate.
  - vm_compute. reflexivity.
  - vm_compute. discriminate.
Defined.
End fed_witnesses.
