(* ===== verification/WatchSpec.v ===== *)
(** The tickers of the federation subsystem: whom the health watcher expels, and how long the
    dialer waits. *)
From S2P Require Import Prelude Proto Float Signing Entry Storage Ledger Credit FedProto.
From S2P Require Import LedgerSpec Transfer TransferSpec Gossip Handshake Federation FederationSpec.
From Stdlib Require Import Floats.SpecFloat.

Section watcher.
Context {L : Type}.
Variable cfg : FedConfig.
Notation window := (fc_LowHealthSustainedWindow cfg).
Implicit Types (f g : Federation L) (below : gmap bytes Z) (h : list (Z * Federation L)).

(** The registry files a peer under its id. *)
Definition reg_keyed (r : PeerMap) : Prop := ∀ id p, r !! id = Some p → pi_TrackerID p = id.

Definition is_low (now : Z) id f : bool :=
  SFltb (HealthScore cfg now id f) (fc_LowHealthThreshold cfg).

(** What a tick makes of a peer: its new entry in [belowSince], and whether it is expelled. *)
Definition verdict (now : Z) (p : PeerInfo) (since : option Z) f : option Z * bool :=
  if negb (bool_decide (pi_State p = PeerStateSteady)) then (None, false)
  else if is_low now (pi_TrackerID p) f then
    match since with
    | None => (Some now, false)
    | Some t => if window <=? time_Sub now t then (None, true) else (Some t, false)
    end
  else (None, false).

Lemma watch_peer_verdict now below g p :
  let '(b', g') := watch_peer cfg now (below, g) p in
  let v := verdict now p (below !! pi_TrackerID p) g in
  f_health g' = f_health g ∧
  (∀ id, b' !! id = if bool_decide (id = pi_TrackerID p) then v.1 else below !! id) ∧
  (∀ id, f_reg g' !! id = if bool_decide (id = pi_TrackerID p) && v.2 then None else f_reg g !! id).
Proof.
  assert (∀ id, delete (pi_TrackerID p) below !! id
                = if bool_decide (id = pi_TrackerID p) then None else below !! id) as Hd.
  { intros id. case_bool_decide as E; [by rewrite E, lookup_delete_eq|by rewrite lookup_delete_ne]. }
  unfold watch_peer, verdict, is_low. destruct (negb _); simpl.
  { split_and!; [done|exact Hd|intros id; by rewrite andb_false_r]. }
  destruct (SFltb _ _); simpl.
  2:{ split_and!; [done|exact Hd|intros id; by rewrite andb_false_r]. }
  destruct (below !! pi_TrackerID p) as [t|] eqn:Et.
  - destruct (window <=? time_Sub now t); simpl.
    + destruct (Depeer_fields (pi_TrackerID p) ReasonLowHealth g) as (-> & _ & _ & -> & _).
      split_and!; [done|exact Hd|]. intros id. rewrite andb_true_r.
      case_bool_decide as E; [by rewrite E, lookup_delete_eq|by rewrite lookup_delete_ne].
    + split_and!; [done| |intros id; by rewrite andb_false_r]. intros id.
      case_bool_decide as E; [by rewrite E|done].
  - split_and!; [done| |intros id; by rewrite andb_false_r]. intros id.
    case_bool_decide as E; [by rewrite E, lookup_insert_eq|by rewrite lookup_insert_ne].
Qed.

(** A tick, peer by peer: each is judged on what the tick began with. *)
Lemma watch_fold now l below g :
  NoDup (pi_TrackerID <$> l) →
  let '(b', g') := foldl (watch_peer cfg now) (below, g) l in
  f_health g' = f_health g ∧
  (∀ id, id ∉ pi_TrackerID <$> l → b' !! id = below !! id ∧ f_reg g' !! id = f_reg g !! id) ∧
  (∀ p, p ∈ l → let v := verdict now p (below !! pi_TrackerID p) g in
     b' !! pi_TrackerID p = v.1 ∧
     f_reg g' !! pi_TrackerID p = if v.2 then None else f_reg g !! pi_TrackerID p).
Proof.
  revert below g. induction l as [|p l IH]; intros below g Hnd.
  { simpl. split_and!; [done|done|by intros p ?%elem_of_nil]. }
  rewrite fmap_cons in Hnd. apply NoDup_cons in Hnd as [Hp Hnd]. cbn [foldl].
  pose proof (watch_peer_verdict now below g p) as Hw.
  destruct (watch_peer cfg now (below, g) p) as [b1 g1]. destruct Hw as (Hh & Hb & Hr).
  specialize (IH b1 g1 Hnd). destruct (foldl _ _ l) as [b' g']. destruct IH as (Hh' & Hout & Hin).
  assert (∀ q s, verdict now q s g1 = verdict now q s g) as Hv.
  { intros q s. unfold verdict, is_low, HealthScore. by rewrite Hh. }
  split_and!; [congruence| |].
  - intros id. rewrite fmap_cons, not_elem_of_cons. intros [Hne Hnot].
    destruct (Hout id Hnot) as [-> ->]. rewrite Hb, Hr. by rewrite bool_decide_eq_false_2.
  - intros q [->|Hq]%elem_of_cons.
    + destruct (Hout _ Hp) as [-> ->]. rewrite Hb, Hr. by rewrite bool_decide_eq_true_2.
    + destruct (Hin q Hq) as [-> ->].
      assert (pi_TrackerID q ≠ pi_TrackerID p) as Hne.
      { intros E. apply Hp. rewrite <- E. by apply list_elem_of_fmap_2. }
      rewrite Hv, Hb, Hr. by rewrite !bool_decide_eq_false_2.
Qed.

Lemma Peers_All_nodup (r : PeerMap) : reg_keyed r → NoDup (pi_TrackerID <$> Peers_All r).
Proof.
  intros Hk. unfold Peers_All. rewrite <- !list_fmap_compose.
  rewrite (list_fmap_ext _ (fst (B := PeerInfo))); [apply NoDup_fst_map_to_list|].
  intros i [id p] Hp. simpl. apply list_elem_of_lookup_2, elem_of_map_to_list in Hp. by apply Hk.
Qed.

Lemma Peers_All_elem (r : PeerMap) id :
  reg_keyed r →
  match r !! id with
  | Some p => ∃ q, q ∈ Peers_All r ∧ pi_TrackerID q = id ∧ pi_State q = pi_State p
  | None => id ∉ pi_TrackerID <$> Peers_All r
  end.
Proof.
  intros Hk. destruct (r !! id) as [p|] eqn:Hp.
  - eexists. split; [apply list_elem_of_fmap; exists p; split; [reflexivity|]|].
    + apply list_elem_of_fmap. exists (id, p). split; [done|]. by apply elem_of_map_to_list.
    + split; [simpl; by apply Hk|done].
  - intros Hin. apply list_elem_of_fmap in Hin as (q & -> & Hq).
    apply list_elem_of_fmap in Hq as (q' & -> & Hq). apply list_elem_of_fmap in Hq as ([k q2] & -> & Hq).
    apply elem_of_map_to_list in Hq. simpl in *. rewrite (Hk _ _ Hq) in Hp. congruence.
Qed.

(** The entry of a peer after a tick, and whether the peer is expelled. *)
Lemma tick_spec now below f id :
  reg_keyed (f_reg f) →
  let '(b', f') := runHealthWatcherTick cfg now below f in
  match f_reg f !! id with
  | None => b' !! id = below !! id ∧ f_reg f' !! id = None
  | Some p =>
      let v := if bool_decide (pi_State p = PeerStateSteady) && is_low now id f
               then match below !! id with
                    | None => (Some now, false)
                    | Some t => if window <=? time_Sub now t then (None, true) else (Some t, false)
                    end
               else (None, false) in
      b' !! id = v.1 ∧ f_reg f' !! id = if v.2 then None else Some p
  end.
Proof.
  intros Hk. unfold runHealthWatcherTick.
  pose proof (watch_fold now (Peers_All (f_reg f)) below f (Peers_All_nodup _ Hk)) as Hw.
  destruct (foldl _ _ _) as [b' f']. destruct Hw as (_ & Hout & Hin).
  pose proof (Peers_All_elem _ id Hk) as He. destruct (f_reg f !! id) as [p|] eqn:Hp.
  - destruct He as (q & Hq & Hid & Hst). specialize (Hin q Hq). rewrite Hid, Hp in Hin.
    unfold verdict in Hin. rewrite Hst, Hid in Hin.
    destruct (bool_decide _); [|exact Hin]. simpl in *. destruct (is_low _ _ _); exact Hin.
  - destruct (Hout id He) as [-> ->]. by rewrite Hp.
Qed.

(** The watcher over a history of ticks, newest first: at each, the time and the subsystem's
    state, whatever has happened to it in between. *)
Fixpoint below_after h : gmap bytes Z :=
  match h with
  | [] => ∅
  | (now, f) :: h => fst (runHealthWatcherTick cfg now (below_after h) f)
  end.

(** At the tick, the peer is steady with a low score, or is not registered at all. *)
Definition low_or_gone id (x : Z * Federation L) : Prop :=
  match f_reg x.2 !! id with
  | None => True
  | Some p => pi_State p = PeerStateSteady ∧ is_low x.1 id x.2 = true
  end.

(** The ticks since [t], the one at [t] included. *)
Definition low_since id (t : Z) h : Prop :=
  ∃ recent f rest, h = recent ++ (t, f) :: rest ∧ Forall (low_or_gone id) recent ∧
    low_or_gone id (t, f) ∧ is_Some (f_reg f !! id).

Lemma below_after_since h id t :
  Forall (λ x, reg_keyed (f_reg x.2)) h → below_after h !! id = Some t → low_since id t h.
Proof.
  induction 1 as [|[now f] h Hk _ IH]; [cbn [below_after]; by rewrite lookup_empty|]. cbn [below_after].
  pose proof (tick_spec now (below_after h) f id Hk) as Ht.
  destruct (runHealthWatcherTick _ _ _ _) as [b' f']. cbn [fst].
  assert (∀ t, low_or_gone id (now, f) → low_since id t h → low_since id t ((now, f) :: h)) as Hext.
  { intros t' Hl (recent & g & rest & -> & Hr & Hg & Hs). exists ((now, f) :: recent), g, rest.
    split_and!; [done|by constructor|done|done]. }
  unfold low_or_gone in Hext at 1. simpl in Hext.
  destruct (f_reg f !! id) as [p|] eqn:Hp; [|destruct Ht as [-> _]; intros; by apply Hext, IH].
  destruct (bool_decide_reflect (pi_State p = PeerStateSteady)) as [Hst|]; [|by destruct Ht as [-> _]].
  destruct (is_low now id f) eqn:Hlow; [|by destruct Ht as [-> _]]. simpl in Ht.
  destruct (below_after h !! id) as [t'|] eqn:Eb.
  - destruct (window <=? time_Sub now t'); destruct Ht as [-> _]; [done|].
    intros [= <-]. apply Hext; [done|]. by apply IH.
  - destruct Ht as [-> _]. intros [= <-]. exists [], f, h. unfold low_or_gone. simpl. rewrite Hp.
    split_and!; [done|constructor|done|done|done].
Qed.

(** The health watcher is patient. Over any history of ticks, a tick removes a registered
    peer from the registry exactly when the peer is steady, its score is below the threshold
    now, and it has an entry in [belowSince] at least a whole window old; and such an entry
    means that at every tick since then the peer was steady with a low score, or was not
    registered: one tick with a good score, or in another state, clears it. *)
Lemma watcher_patient now h f id p :
  Forall (λ x, reg_keyed (f_reg x.2)) h → reg_keyed (f_reg f) → f_reg f !! id = Some p →
  let f' := snd (runHealthWatcherTick cfg now (below_after h) f) in
  (f_reg f' !! id = None ↔
   pi_State p = PeerStateSteady ∧ is_low now id f = true ∧
   ∃ t, below_after h !! id = Some t ∧ window <= time_Sub now t) ∧
  (∀ t, below_after h !! id = Some t → low_since id t h).
Proof.
  intros Hh Hk Hp f'. split; [|intros t; by apply below_after_since].
  pose proof (tick_spec now (below_after h) f id Hk) as Ht. subst f'. rewrite Hp in Ht.
  destruct (runHealthWatcherTick _ _ _ _) as [b' f']. cbn [snd]. destruct Ht as [_ ->].
  destruct (bool_decide_reflect (pi_State p = PeerStateSteady)); [|naive_solver].
  destruct (is_low now id f); [|naive_solver]. simpl.
  destruct (below_after h !! id) as [t|]; [|naive_solver].
  destruct (Z.leb_spec window (time_Sub now t)); simpl; [naive_solver|].
  split; [done|]. intros (_ & _ & t' & [= <-] & ?). lia.
Qed.
End watcher.

(** ** The dialer *)

Lemma next_wait_bounds maxWait wait :
  maxWait < 2 ^ 62 → 0 < wait <= maxWait → wait <= next_wait maxWait wait <= maxWait.
Proof.
  intros Hm Hw. unfold next_wait, i64. rewrite Z.mod_small by lia.
  destruct (Z.ltb_spec maxWait (wait * 2 + 2 ^ 63 - 2 ^ 63)); lia.
Qed.

(** The redial backoff. With a cap under 2^62 nanoseconds, every sleep of the dialer is
    bounded by a positive time between the first wait and the cap, consecutive failures never
    shorten the bound, and a successful dial takes it back to the first wait. *)
Lemma Dialer_backoff_bounded base max dials :
  max_wait base max < 2 ^ 62 →
  Forall (λ w, 0 < first_wait base <= w ∧ w <= max_wait base max) (Dialer_Run base max dials) ∧
  (∀ n, StronglySorted Z.le (Dialer_Run base max (replicate n false))) ∧
  (∀ ds w, dial_waits base (max_wait base max) w (true :: ds) = Dialer_Run base max ds).
Proof.
  intros Hm. set (m := max_wait base max) in *.
  assert (0 < first_wait base) as Hf.
  { unfold first_wait. destruct (Z.leb_spec base 0); [done|lia]. }
  assert (first_wait base <= m) as Hle.
  { unfold m, max_wait. cbv zeta. destruct (Z.ltb_spec max (first_wait base)); lia. }
  assert (∀ ds w, first_wait base <= w <= m →
    Forall (λ w, 0 < first_wait base <= w ∧ w <= m) (dial_waits base m w ds)) as Hall.
  { induction ds as [|[] ds IH]; intros w Hw; simpl; [constructor|by apply IH|].
    constructor; [lia|]. apply IH. pose proof (next_wait_bounds m w). lia. }
  assert (∀ n w, first_wait base <= w <= m →
    StronglySorted Z.le (dial_waits base m w (replicate n false)) ∧
    Forall (Z.le w) (dial_waits base m w (replicate n false))) as Hsort.
  { induction n as [|n IH]; intros w Hw; simpl; [repeat constructor|].
    pose proof (next_wait_bounds m w) as Hn. destruct (IH (next_wait m w)) as [Hs Hfa]; [lia|].
    assert (Forall (Z.le w) (dial_waits base m (next_wait m w) (replicate n false))) as Hw'.
    { eapply Forall_impl; [exact Hfa|]. simpl. lia. }
    split; [by constructor|]. constructor; [lia|done]. }
  split_and!; [by apply Hall|intros n; by apply Hsort|done].
Qed.

Lemma Dialer_backoff_bounded_witness :
  Dialer_Run Second (30 * Second) [false; false; false; false; false; false; false; true; false]
  = (λ s, s * Second) <$> [1; 2; 4; 8; 16; 30; 30; 1] ∧
  Forall (λ w, 0 < first_wait Second <= w ∧ w <= max_wait Second (30 * Second))
    (Dialer_Run Second (30 * Second) [false; false; true; false]).
Proof.
  split; [reflexivity|].
  exact (proj1 (Dialer_backoff_bounded Second (30 * Second) [false; false; true; false] eq_refl)).
Defined.

Section watch_witness.
#[local] Existing Instances ToyCrypto ToyWire ToyFedWire.

(** Tracker 2 with tracker 1 attached; no root of tracker 1 is ever seen, so its score is the
    zero of the uptime term. *)
Definition ww_fed : Federation HookState :=
  attachPeer (λ _, "a") (result_for (w_id Byte.x01) (wf_pub 1)) 1 (wf_fed Byte.x02 [Byte.x01] ∅).

Lemma ww_keyed : reg_keyed (f_reg ww_fed).
Proof.
  intros id p Hp.
  assert (fed_inv (wf_cfg Byte.x02 [Byte.x01]) (λ _ _, True) ww_fed) as [_ Hr].
  { apply attach_inv; [exact I|].
    apply (Open_inv (wf_cfg Byte.x02 [Byte.x01]) no_faults None (λ _ _, True) 0 wf_store).
    - by apply Forall_true.
    - intros k r Hr. cbn in Hr. by rewrite lookup_empty in Hr. }
  by apply Hr.
Qed.

Lemma watcher_patient_witness :
  f_reg (snd (runHealthWatcherTick (wf_cfg Byte.x02 [Byte.x01]) (40 * Minute)
    (below_after (wf_cfg Byte.x02 [Byte.x01]) [(20 * Minute, ww_fed); (10 * Minute, ww_fed)]) ww_fed))
    !! w_id Byte.x01 = None.
Proof.
  destruct (f_reg ww_fed !! w_id Byte.x01) as [p|] eqn:Hp; [|vm_compute in Hp; discriminate].
  refine (proj2 (proj1 (watcher_patient (wf_cfg Byte.x02 [Byte.x01]) (40 * Minute)
    [(20 * Minute, ww_fed); (10 * Minute, ww_fed)] ww_fed (w_id Byte.x01) p _ _ Hp)) _).
  - repeat constructor; apply ww_keyed.
  - apply ww_keyed.
  - vm_compute in Hp. injection Hp as <-. split; [reflexivity|]. split; [vm_compute; reflexivity|].
    exists (10 * Minute). split; [vm_compute; reflexivity|vm_compute; discriminate].
Defined.
End watch_witness.
