(* ===== verification/Reputation.v ===== *)
(** src/tracker/internal/reputation: the abuse-detection subsystem. Its SQLite tables and the
    typed storage layer, the scores, the signals and breaches, the evaluator's cycle, the
    ingest operations, the operator's freeze and unfreeze, and the cache the broker reads.

    The tables are shared: the evaluator's goroutine, the ingest calls and the operator work
    on them at the same time, and only each storage operation is exclusive ([writeMu]). The
    subsystem therefore carries an oracle: for every database call to come, what other
    goroutines write before it, and whether it fails. A failed statement changes nothing.
    Prometheus metrics are left out. math.Log and math.Exp are parameters. *)
From S2P Require Import Prelude Proto Float Credit.
From Stdlib Require Import Floats.SpecFloat.

(** ** States, signals and breaches: state.go, signals.go, breach.go *)

Inductive RepState := StateOK | StateAudit | StateFrozen.

#[global] Instance RepState_eq_dec : EqDecision RepState.
Proof. solve_decision. Defined.

Definition RepState_String (s : RepState) : string :=
  match s with StateOK => "OK" | StateAudit => "AUDIT" | StateFrozen => "FROZEN" end.

Record ReasonRecord := {
  rr_Kind : string; rr_Signal : string; rr_BreachKind : string; rr_Z : spec_float;
  rr_Window : string; rr_Operator : string; rr_At : Z
}.

Definition canTransition (from to : RepState) : bool :=
  if decide (from = to) then false
  else if decide (from = StateFrozen) then false
  else true.

Inductive Role := RoleConsumer | RoleSeeder | RoleAgnostic.

#[global] Instance Role_eq_dec : EqDecision Role.
Proof. solve_decision. Defined.

Definition Role_String (r : Role) : string :=
  match r with RoleConsumer => "consumer" | RoleSeeder => "seeder" | RoleAgnostic => "agnostic" end.

Inductive SignalKind :=
| SignalUnspecified | SignalBrokerRequest | SignalProofRejection | SignalExhaustionClaim
| SignalCostReportDeviation | SignalConsumerComplaint | SignalOfferAccept | SignalOfferReject
| SignalOfferUnreachable | SignalSettlementClean | SignalSettlementSigMissing
| SignalDisputeFiled | SignalDisputeUpheld | SignalProofFidelityLevel.

#[global] Instance SignalKind_eq_dec : EqDecision SignalKind.
Proof. solve_decision. Defined.

Definition SignalKind_Role (s : SignalKind) : Role :=
  match s with
  | SignalBrokerRequest | SignalProofRejection | SignalExhaustionClaim
  | SignalDisputeFiled | SignalDisputeUpheld | SignalProofFidelityLevel => RoleConsumer
  | SignalCostReportDeviation | SignalConsumerComplaint
  | SignalOfferAccept | SignalOfferReject | SignalOfferUnreachable
  | SignalSettlementClean | SignalSettlementSigMissing => RoleSeeder
  | SignalUnspecified => RoleAgnostic
  end.

Definition IsPrimary (s : SignalKind) : bool :=
  match s with
  | SignalBrokerRequest | SignalProofRejection | SignalExhaustionClaim
  | SignalCostReportDeviation | SignalConsumerComplaint => true
  | _ => false
  end.

Definition PrimarySignals : list SignalKind :=
  [SignalBrokerRequest; SignalProofRejection; SignalExhaustionClaim;
   SignalCostReportDeviation; SignalConsumerComplaint].

Inductive BreachKind :=
| BreachUnspecified | BreachInvalidProofSignature | BreachInconsistentSeederSig
| BreachReplayConfirmedNonce | BreachConsecutiveProofRejects.

#[global] Instance BreachKind_eq_dec : EqDecision BreachKind.
Proof. solve_decision. Defined.

Definition BreachKind_String (b : BreachKind) : string :=
  match b with
  | BreachInvalidProofSignature => "invalid_proof_signature"
  | BreachInconsistentSeederSig => "inconsistent_seeder_sig"
  | BreachReplayConfirmedNonce => "replay_confirmed_nonce"
  | BreachConsecutiveProofRejects => "consecutive_proof_rejects"
  | BreachUnspecified => "unspecified"
  end.

Definition ImmediateAction (b : BreachKind) : RepState :=
  match b with
  | BreachInvalidProofSignature | BreachInconsistentSeederSig
  | BreachReplayConfirmedNonce | BreachConsecutiveProofRejects => StateAudit
  | BreachUnspecified => StateOK
  end.

Definition signalRole (b : BreachKind) : Role :=
  match b with
  | BreachInconsistentSeederSig => RoleSeeder
  | BreachInvalidProofSignature | BreachReplayConfirmedNonce
  | BreachConsecutiveProofRejects => RoleConsumer
  | BreachUnspecified => RoleAgnostic
  end.

Definition signalLabel (s : SignalKind) : string :=
  match s with
  | SignalBrokerRequest => "network_requests_per_h"
  | SignalProofRejection => "proof_rejection_rate"
  | SignalExhaustionClaim => "exhaustion_claim_rate"
  | SignalCostReportDeviation => "cost_report_deviation"
  | SignalConsumerComplaint => "consumer_complaint_rate"
  | _ => "unknown"
  end.

Definition windowLabel (s : SignalKind) : string :=
  match s with SignalBrokerRequest => "1h" | _ => "24h" end.

(** ** Tables: storage.go *)

(** A row of rep_state, without [updated_at], which nothing uses. The two times are seconds;
    the [reasons] column is the list the JSON text decodes to. *)
Record stateRow := {
  sw_State : RepState; sw_Since : Z; sw_FirstSeenAt : Z; sw_Reasons : list ReasonRecord
}.

Record RepEvent := {
  ev_identity_id : bytes; ev_role : Role; ev_event_type : SignalKind; ev_value : spec_float;
  ev_observed_at : Z
}.

Record RepTables := {
  rep_state : gmap bytes stateRow; rep_events : list RepEvent; rep_scores : gmap bytes spec_float
}.

Definition set_rep_state f (t : RepTables) : RepTables :=
  {| rep_state := f (rep_state t); rep_events := rep_events t; rep_scores := rep_scores t |}.
Definition set_rep_events f (t : RepTables) : RepTables :=
  {| rep_state := rep_state t; rep_events := f (rep_events t); rep_scores := rep_scores t |}.
Definition set_rep_scores f (t : RepTables) : RepTables :=
  {| rep_state := rep_state t; rep_events := rep_events t; rep_scores := f (rep_scores t) |}.

Definition empty_tables : RepTables :=
  {| rep_state := ∅; rep_events := []; rep_scores := ∅ |}.

Definition freshRow (now : Z) : stateRow :=
  {| sw_State := StateOK; sw_Since := Unix now; sw_FirstSeenAt := Unix now; sw_Reasons := [] |}.

(** The row after a change of state. *)
Definition movedRow (to : RepState) (reason : ReasonRecord) (now : Z) (r : stateRow) : stateRow :=
  {| sw_State := to; sw_Since := Unix now; sw_FirstSeenAt := sw_FirstSeenAt r;
     sw_Reasons := sw_Reasons r ++ [reason] |}.

(** The row with one more reason. *)
Definition reasonedRow (reason : ReasonRecord) (r : stateRow) : stateRow :=
  {| sw_State := sw_State r; sw_Since := sw_Since r; sw_FirstSeenAt := sw_FirstSeenAt r;
     sw_Reasons := sw_Reasons r ++ [reason] |}.

(** What one storage operation, when it succeeds, does to the tables. *)
Inductive RepWrite :=
| WEnsure (id : bytes) (now : Z)
| WMove (id : bytes) (to : RepState) (reason : ReasonRecord) (now : Z)
| WReason (id : bytes) (reason : ReasonRecord)
| WClear (id : bytes) (reason : ReasonRecord) (now : Z)
| WEvent (e : RepEvent)
| WPrune (cutoff : Z)
| WScore (id : bytes) (score : spec_float).

Definition apply_write (w : RepWrite) (t : RepTables) : RepTables :=
  match w with
  | WEnsure id now =>
      set_rep_state (λ m, match m !! id with Some _ => m | None => <[id := freshRow now]> m end) t
  | WMove id to reason now =>
      let r := default (freshRow now) (rep_state t !! id) in
      if canTransition (sw_State r) to
      then set_rep_state <[id := movedRow to reason now r]> t else t
  | WReason id reason => set_rep_state (alter (reasonedRow reason) id) t
  | WClear id reason now =>
      match rep_state t !! id with
      | Some r => if decide (sw_State r = StateFrozen)
                  then set_rep_state <[id := movedRow StateOK reason now r]> t else t
      | None => t
      end
  | WEvent e => set_rep_events (λ l, l ++ [e]) t
  | WPrune cutoff => set_rep_events (base.filter (λ e, ¬ ev_observed_at e < Unix cutoff)) t
  | WScore id x => set_rep_scores <[id := x]> t
  end.

(** ** The subsystem: reputation.go *)

Record cachedEntry := {
  ce_State : RepState; ce_Score : spec_float; ce_Since : Z; ce_Frozen : bool
}.

(** One call of [FreezeListener.OnFreeze]. *)
Record FreezeCall := { fz_id : bytes; fz_reason : string; fz_revokedAt : Z }.

Record ReputationConfig := {
  rc_ShortS : Z; rc_MediumS : Z; rc_LongS : Z; rc_ZScoreThreshold : spec_float;
  rc_DefaultScore : spec_float; rc_MinPopulationForZScore : Z
}.

Record RepSub := {
  rp_tables : RepTables;
  (** For each database call to come: the writes of other goroutines before it, and whether
      it fails. When the list ends nothing more interferes. *)
  rp_oracle : list (list RepWrite * bool);
  rp_cache : gmap bytes cachedEntry;
  rp_closed : bool;
  (** What the freeze listener was told, the latest last. *)
  rp_notified : list FreezeCall
}.

Definition set_tables f (s : RepSub) : RepSub :=
  {| rp_tables := f (rp_tables s); rp_oracle := rp_oracle s; rp_cache := rp_cache s;
     rp_closed := rp_closed s; rp_notified := rp_notified s |}.
Definition set_oracle o (s : RepSub) : RepSub :=
  {| rp_tables := rp_tables s; rp_oracle := o; rp_cache := rp_cache s;
     rp_closed := rp_closed s; rp_notified := rp_notified s |}.
Definition set_cache c (s : RepSub) : RepSub :=
  {| rp_tables := rp_tables s; rp_oracle := rp_oracle s; rp_cache := c;
     rp_closed := rp_closed s; rp_notified := rp_notified s |}.
Definition notify (c : FreezeCall) (s : RepSub) : RepSub :=
  {| rp_tables := rp_tables s; rp_oracle := rp_oracle s; rp_cache := rp_cache s;
     rp_closed := rp_closed s; rp_notified := rp_notified s ++ [c] |}.

Inductive RepErr :=
| ErrSubsystemClosed | errInvalidTransition | ErrRepDb | ErrRep (msg : string).

Abbreviation RepM := (GoM RepSub RepErr).

(** A database call. The first call of a storage operation waits for [writeMu], when it
    writes, and is where others come before it; the later ones run under the lock. *)
Definition db (lock_held : bool) : RepM unit := λ s,
  match rp_oracle s with
  | [] => (Ok tt, s)
  | (ws, fails) :: o =>
      let s := set_oracle o s in
      let s := if lock_held then s else set_tables (λ t, foldl (λ t w, apply_write w t) t ws) s in
      (if fails : bool then Err ErrRepDb else Ok tt, s)
  end.

Definition tables {A} (f : RepTables → A) : RepM A := gread (λ s, Ok (f (rp_tables s))).
Definition write (w : RepWrite) : RepM unit := λ s, (Ok tt, set_tables (apply_write w) s).

(** ** storage_state.go *)

(** [json.Marshal] of the reasons: it refuses infinities and NaN. *)
Definition reason_encodes (r : ReasonRecord) : bool :=
  match rr_Z r with S754_nan | S754_infinity _ => false | _ => true end.
Definition encode_reasons (rs : list ReasonRecord) : RepM unit :=
  gguard (negb (forallb reason_encodes rs)) (ErrRep "reputation: encode reasons").

Definition ensureState (id : bytes) (now : Z) : RepM unit :=
  do! db false in write (WEnsure id now).

Definition readState (id : bytes) : RepM (option stateRow) :=
  do! db false in tables (λ t, rep_state t !! id).

(** The insert of a row that is missing, inside [transition]. *)
Definition lazy_row (id : bytes) (now : Z) (cur : option stateRow) : RepM stateRow :=
  match cur with
  | Some r => gret r
  | None => do! db true in do! write (WEnsure id now) in gret (freshRow now)
  end.

Definition transition (id : bytes) (to : RepState) (reason : ReasonRecord) (now : Z) : RepM unit :=
  let! cur := readState id in
  let! cur := lazy_row id now cur in
  do! gguard (negb (canTransition (sw_State cur) to)) errInvalidTransition in
  do! encode_reasons (sw_Reasons cur ++ [reason]) in
  do! db true in
  write (WMove id to reason now).

Definition appendReason (id : bytes) (reason : ReasonRecord) : RepM unit :=
  let! cur := readState id in
  match cur with
  | None => gfail (ErrRep "reputation: appendReason: identity not found")
  | Some cur =>
      do! encode_reasons (sw_Reasons cur ++ [reason]) in
      do! db true in
      write (WReason id reason)
  end.

Definition clearFrozen (id : bytes) (reason : ReasonRecord) (now : Z) : RepM unit :=
  let! cur := readState id in
  match cur with
  | None => gfail (ErrRep "reputation: clearFrozen: identity not found")
  | Some cur =>
      if decide (sw_State cur = StateFrozen)
      then do! encode_reasons (sw_Reasons cur ++ [reason]) in
           do! db true in
           write (WClear id reason now)
      else gret tt
  end.

(** ** storage_events.go, storage_scores.go *)

Record eventAggregateRow := { ag_IdentityID : bytes; ag_Sum : spec_float; ag_Count : Z }.

(** A NaN would be stored as NULL, which the column refuses. *)
Definition appendEvent (id : bytes) (role : Role) (kind : SignalKind) (value : spec_float)
    (observedAt : Z) : RepM unit :=
  do! db false in
  do! gguard (is_NaN value) ErrRepDb in
  write (WEvent {| ev_identity_id := id; ev_role := role; ev_event_type := kind;
                   ev_value := value; ev_observed_at := Unix observedAt |}).

Definition in_window (from to : Z) (e : RepEvent) : bool :=
  (Unix from <=? ev_observed_at e) && (ev_observed_at e <? Unix to).

(** [SUM(value)], added up in the order of the rows, and [COUNT( * )], per identity. *)
Definition add_sample (acc : gmap bytes (spec_float * Z)) (e : RepEvent)
    : gmap bytes (spec_float * Z) :=
  let '(sum, n) := default (f64_zero, 0) (acc !! ev_identity_id e) in
  <[ev_identity_id e := (f64_add sum (ev_value e), n + 1)]> acc.

Definition aggregate (kind : SignalKind) (from to : Z) (l : list RepEvent) : list eventAggregateRow :=
  (λ '(id, (sum, n)), {| ag_IdentityID := id; ag_Sum := sum; ag_Count := n |}) <$>
  map_to_list (foldl add_sample ∅
    (base.filter (λ e, ev_event_type e = kind ∧ in_window from to e = true) l)).

Definition aggregateBySignal (kind : SignalKind) (from to : Z) : RepM (list eventAggregateRow) :=
  do! db false in tables (λ t, aggregate kind from to (rep_events t)).

Definition population (role : Role) (from to : Z) (l : list RepEvent) : Z :=
  Z.of_nat (size (list_to_set (ev_identity_id <$>
    base.filter (λ e, ev_role e = role ∧ in_window from to e = true) l) : gset bytes)).

Definition populationSize (role : Role) (from to : Z) : RepM Z :=
  do! db false in tables (λ t, population role from to (rep_events t)).

Definition pruneEventsBefore (cutoff : Z) : RepM unit :=
  do! db false in write (WPrune cutoff).

Definition upsertScore (id : bytes) (score : spec_float) : RepM unit :=
  do! db false in
  do! gguard (is_NaN score) ErrRepDb in
  write (WScore id score).

Definition loadAllScores : RepM (gmap bytes spec_float) :=
  do! db false in tables rep_scores.

Definition loadAllStates : RepM (gmap bytes stateRow) :=
  do! db false in tables rep_state.

(** ** scoring.go *)

Definition Hour : Z := 3600 * Second.

(** [Duration.Hours] *)
Definition Hours (d : Z) : spec_float :=
  f64_add (f64_of_int (Z.quot d Hour)) (f64_div (f64_of_int (Z.rem d Hour)) (f64_of_int Hour)).

(** The double nearest to [n/10]. *)
Definition tenth (n : Z) : spec_float := f64_div (f64_of_int n) (f64_of_int 10).

Definition weightCompletionHealth : spec_float := tenth 3.
Definition weightConsumerSatisfaction : spec_float := tenth 3.
Definition weightSeederFairness : spec_float := tenth 2.
Definition weightLongevityBonus : spec_float := tenth 2.
Definition weightAuditRecencyPenalty : spec_float := tenth 4.

Record scoreInputs := {
  sn_CompletionHealth : spec_float; sn_ConsumerSatisfaction : spec_float;
  sn_SeederFairness : spec_float; sn_FirstSeenAt : Z; sn_Now : Z; sn_LastAuditAt : Z
}.

Definition Rep_clamp01 (x : spec_float) : spec_float :=
  if SFltb x f64_zero then f64_zero
  else if SFltb f64_one x then f64_one
  else x.

Definition newDefaultInputs (firstSeen now : Z) : scoreInputs := {|
  sn_CompletionHealth := f64_one; sn_ConsumerSatisfaction := f64_one;
  sn_SeederFairness := f64_one; sn_FirstSeenAt := firstSeen; sn_Now := now;
  sn_LastAuditAt := zeroTime |}.

Definition isAudit (r : ReasonRecord) : bool :=
  bool_decide (rr_Kind r = "zscore") || bool_decide (rr_Kind r = "breach").

Definition lastAuditTime (reasons : list ReasonRecord) : Z :=
  foldl (λ latest r,
    if negb (isAudit r) then latest
    else if latest <? time_Unix (rr_At r) then time_Unix (rr_At r) else latest) zeroTime reasons.

(** ** evaluator.go: the outliers of a population *)

Definition f64_sort_lt (x y : spec_float) : bool :=
  SFltb x y || (is_NaN x && negb (is_NaN y)).

(** [sort.Float64s] *)
Definition Float64s (xs : list spec_float) : list spec_float := stable_sort f64_sort_lt xs.

Definition f64_half : spec_float := f64_div f64_one (f64_of_int 2).

Definition medianSortedCopy (xs : list spec_float) : spec_float :=
  match length xs with
  | O => f64_zero
  | n =>
    if Nat.odd n then nth (n / 2)%nat xs f64_zero
    else f64_mul f64_half (f64_add (nth (n / 2 - 1)%nat xs f64_zero) (nth (n / 2)%nat xs f64_zero))
  end.

Definition medianMAD (xs : list spec_float) : spec_float * spec_float :=
  match xs with
  | [] => (f64_zero, f64_zero)
  | _ =>
    let xs := Float64s xs in
    let median := medianSortedCopy xs in
    let devs := (λ x, SFabs (f64_sub x median)) <$> xs in
    (median, medianSortedCopy (Float64s devs))
  end.

Definition zScore (sample median mad : spec_float) : spec_float :=
  if SFeqb mad f64_zero then f64_zero else f64_div (f64_sub sample median) mad.

Record flag := { fl_id : bytes; fl_signal : SignalKind; fl_z : spec_float; fl_window : string }.

(** [time.Duration(n) * time.Second] *)
Definition seconds (n : Z) : Z := i64 (i64 n * Second).

Section subsystem.
Context (cfg : ReputationConfig) (math_Log math_Exp : spec_float → spec_float) (has_listener : bool).

Definition longevityBonus (firstSeen now : Z) : spec_float :=
  if (firstSeen =? zeroTime) || negb (firstSeen <? now) then f64_zero
  else let days := f64_div (Hours (time_Sub now firstSeen)) (f64_of_int 24) in
       f64_min f64_one (f64_div (math_Log (f64_add days f64_one)) (math_Log (f64_of_int 365))).

Definition auditRecencyPenalty (lastAudit now : Z) : spec_float :=
  if lastAudit =? zeroTime then f64_zero
  else let dt := f64_div (Hours (time_Sub now lastAudit)) (f64_of_int 24) in
       let dt := if SFltb dt f64_zero then f64_zero else dt in
       math_Exp (f64_div (f64_neg dt) (f64_of_int 7)).

Definition computeScore (i : scoreInputs) : spec_float :=
  Rep_clamp01
    (f64_sub
       (f64_add
          (f64_add
             (f64_add (f64_mul weightCompletionHealth (sn_CompletionHealth i))
                      (f64_mul weightConsumerSatisfaction (sn_ConsumerSatisfaction i)))
             (f64_mul weightSeederFairness (sn_SeederFairness i)))
          (f64_mul weightLongevityBonus (longevityBonus (sn_FirstSeenAt i) (sn_Now i))))
       (f64_mul weightAuditRecencyPenalty (auditRecencyPenalty (sn_LastAuditAt i) (sn_Now i)))).

(** ** evaluator.go: one cycle *)

(** The window of a signal, up to and including [now]. *)
Definition primaryWindow (now : Z) (sig : SignalKind) : Z * Z :=
  match sig with
  | SignalBrokerRequest => (now - seconds (rc_ShortS cfg), now + Second)
  | _ => (now - seconds (rc_MediumS cfg), now + Second)
  end.

Definition outliers (sig : SignalKind) (rows : list eventAggregateRow) : list flag :=
  let '(median, mad) := medianMAD (ag_Sum <$> rows) in
  if SFeqb mad f64_zero then []
  else omap (λ r, let z := zScore (ag_Sum r) median mad in
                  if SFltb (rc_ZScoreThreshold cfg) (SFabs z)
                  then Some {| fl_id := ag_IdentityID r; fl_signal := sig; fl_z := z;
                               fl_window := windowLabel sig |}
                  else None) rows.

Definition signal_flags (now : Z) (sig : SignalKind) : RepM (list flag) :=
  let '(from, to) := primaryWindow now sig in
  let! rows := aggregateBySignal sig from to in
  let! popSize := populationSize (SignalKind_Role sig) from to in
  gret (if popSize <? rc_MinPopulationForZScore cfg then [] else outliers sig rows).

Fixpoint collect_flags (now : Z) (sigs : list SignalKind) : RepM (list flag) :=
  match sigs with
  | [] => gret []
  | sig :: sigs =>
      let! fs := signal_flags now sig in
      let! rest := collect_flags now sigs in
      gret (fs ++ rest)
  end.

Definition zscore_reason (f : flag) (now : Z) : ReasonRecord := {|
  rr_Kind := "zscore"; rr_Signal := signalLabel (fl_signal f); rr_BreachKind := "";
  rr_Z := fl_z f; rr_Window := fl_window f; rr_Operator := ""; rr_At := Unix now |}.

Definition transition_reason (signal : string) (now : Z) : ReasonRecord := {|
  rr_Kind := "transition"; rr_Signal := signal; rr_BreachKind := ""; rr_Z := f64_zero;
  rr_Window := ""; rr_Operator := ""; rr_At := Unix now |}.

(** An error that is [errInvalidTransition] is dropped. *)
Definition swallow_invalid (m : RepM unit) : RepM unit := λ s,
  match m s with
  | (Err errInvalidTransition, s) => (Ok tt, s)
  | r => r
  end.

Fixpoint audit_flagged (now : Z) (states : gmap bytes stateRow) (flagged : list flag) : RepM unit :=
  match flagged with
  | [] => gret tt
  | f :: rest =>
      do! (match sw_State <$> states !! fl_id f with
           | None | Some StateOK =>
               swallow_invalid (transition (fl_id f) StateAudit (zscore_reason f now) now)
           | _ => gret tt
           end) in
      audit_flagged now states rest
  end.

Definition sevenDays : Z := 7 * 24 * Hour.
Definition fortyEightHours : Z := 48 * Hour.

(** The audits of the last seven days, and the time of the last of them. *)
Definition recent_audits (now : Z) (reasons : list ReasonRecord) : Z * Z :=
  foldl (λ '(count, lastAudit) r,
    if negb (isAudit r) then (count, lastAudit)
    else let rt := time_Unix (rr_At r) in
         if now - sevenDays <? rt
         then (count + 1, if lastAudit <? rt then rt else lastAudit)
         else (count, lastAudit)) (0, zeroTime) reasons.

Definition notifyFreeze (id : bytes) (reason : string) (revokedAt : Z) (s : RepSub) : RepSub :=
  if has_listener
  then notify {| fz_id := id; fz_reason := reason; fz_revokedAt := revokedAt |} s
  else s.

(** What the evaluator does with one row; a transition that fails is left for later. *)
Definition review_row (now : Z) (flagged : gset bytes) (s : RepSub) (kv : bytes * stateRow) : RepSub :=
  let '(id, st) := kv in
  match sw_State st with
  | StateAudit =>
    let '(count, lastAudit) := recent_audits now (sw_Reasons st) in
    if 3 <=? count then
      match transition id StateFrozen (transition_reason "freeze_repeat" now) now s with
      | (Ok _, s) => notifyFreeze id "freeze_repeat" now s
      | (Err _, s) => s
      end
    else if negb (lastAudit =? zeroTime) && (lastAudit <? now - fortyEightHours)
            && negb (bool_decide (id ∈ flagged))
    then snd (transition id StateOK (transition_reason "audit_cleared" now) now s)
    else s
  | _ => s
  end.

Definition cache_entry (r : stateRow) (score : spec_float) : cachedEntry := {|
  ce_State := sw_State r; ce_Score := score; ce_Since := time_Unix (sw_Since r);
  ce_Frozen := bool_decide (sw_State r = StateFrozen) |}.

Definition row_score (now : Z) (r : stateRow) : spec_float :=
  let i := newDefaultInputs (time_Unix (sw_FirstSeenAt r)) now in
  computeScore {| sn_CompletionHealth := sn_CompletionHealth i;
                  sn_ConsumerSatisfaction := sn_ConsumerSatisfaction i;
                  sn_SeederFairness := sn_SeederFairness i;
                  sn_FirstSeenAt := sn_FirstSeenAt i; sn_Now := sn_Now i;
                  sn_LastAuditAt := lastAuditTime (sw_Reasons r) |}.

Fixpoint store_scores (now : Z) (rows : list (bytes * stateRow)) (next : gmap bytes cachedEntry)
    : RepM (gmap bytes cachedEntry) :=
  match rows with
  | [] => gret next
  | (id, r) :: rows =>
      let sc := row_score now r in
      do! upsertScore id sc in
      store_scores now rows (<[id := cache_entry r sc]> next)
  end.

Definition publish (c : gmap bytes cachedEntry) : RepM unit := λ s, (Ok tt, set_cache c s).

Definition recomputeScoresAndPublish (now : Z) : RepM unit :=
  let! states := loadAllStates in
  let! next := store_scores now (map_to_list states) ∅ in
  publish next.

Definition review (now : Z) (flagged : gset bytes) (states : gmap bytes stateRow) : RepM unit := λ s,
  (Ok tt, foldl (review_row now flagged) s (map_to_list states)).

Definition runOneCycle (now : Z) : RepM unit :=
  let! flagged := collect_flags now PrimarySignals in
  let! states := loadAllStates in
  do! audit_flagged now states flagged in
  let! states := loadAllStates in
  do! review now (list_to_set (fl_id <$> flagged)) states in
  do! recomputeScoresAndPublish now in
  pruneEventsBefore (now - seconds (rc_LongS cfg)).

(** ** The cache: reputation.go, score.go *)

Definition reloadCache : RepM unit :=
  let! states := loadAllStates in
  let! scores := loadAllScores in
  let rows := map_imap (λ id r, Some (cache_entry r (default (rc_DefaultScore cfg) (scores !! id)))) states in
  let bare := (λ sc, {| ce_State := StateOK; ce_Score := sc; ce_Since := zeroTime;
                        ce_Frozen := false |}) <$> scores in
  publish (rows ∪ bare).

(** [Open], from the tables of an earlier run. *)
Definition Rep_Open (t : RepTables) : RepM unit := λ s,
  reloadCache {| rp_tables := t; rp_oracle := rp_oracle s; rp_cache := ∅; rp_closed := false;
                 rp_notified := [] |}.

Definition Rep_Score (id : bytes) (s : RepSub) : spec_float * bool :=
  match rp_cache s !! id with
  | None => (rc_DefaultScore cfg, false)
  | Some e => (ce_Score e, true)
  end.

Definition IsFrozen (id : bytes) (s : RepSub) : bool :=
  match rp_cache s !! id with
  | None => false
  | Some e => ce_Frozen e
  end.

Record ReputationStatus := { rst_State : RepState; rst_Since : Z; rst_Reasons : list ReasonRecord }.

Definition Status (id : bytes) (s : RepSub) : ReputationStatus * RepSub :=
  match rp_cache s !! id with
  | None => ({| rst_State := StateOK; rst_Since := zeroTime; rst_Reasons := [] |}, s)
  | Some e =>
    let '(r, s) := readState id s in
    let reasons := match r with Ok (Some row) => sw_Reasons row | _ => [] end in
    ({| rst_State := ce_State e; rst_Since := ce_Since e; rst_Reasons := reasons |}, s)
  end.

(** A failing [loadAllScores] is taken as no scores. *)
Definition scores_or_none : RepM (gmap bytes spec_float) := λ s,
  match loadAllScores s with
  | (Ok m, s) => (Ok m, s)
  | (Err _, s) => (Ok ∅, s)
  end.

Definition refreshOne (id : bytes) : RepM unit :=
  let! row := readState id in
  match row with
  | None => gret tt
  | Some row =>
    let! scores := scores_or_none in
    λ s,
      let prev := ce_Score <$> rp_cache s !! id in
      let sc := default (default (rc_DefaultScore cfg) prev) (scores !! id) in
      publish (<[id := cache_entry row sc]> (rp_cache s)) s
  end.

(** ** ingest.go *)

Definition unless_closed (m : RepM unit) : RepM unit := λ s,
  if rp_closed s then (Err ErrSubsystemClosed, s) else m s.

Definition RecordBrokerRequest (consumer : bytes) (now : Z) : RepM unit :=
  unless_closed (
    do! ensureState consumer now in
    appendEvent consumer RoleConsumer SignalBrokerRequest f64_one now).

Definition fidelity_value (level : string) : spec_float :=
  if decide (level = "full_two_signal") then f64_one
  else if decide (level = "partial") then f64_half
  else f64_zero.

Definition RecordProofFidelity (consumer : bytes) (level : string) (now : Z) : RepM unit :=
  unless_closed (
    do! ensureState consumer now in
    appendEvent consumer RoleConsumer SignalProofFidelityLevel (fidelity_value level) now).

Definition offer_signal (outcome : string) : option SignalKind :=
  if decide (outcome = "accept") then Some SignalOfferAccept
  else if decide (outcome = "reject") then Some SignalOfferReject
  else if decide (outcome = "unreachable") then Some SignalOfferUnreachable
  else None.

Definition RecordOfferOutcome (seeder : bytes) (outcome : string) (now : Z) : RepM unit :=
  unless_closed (
    match offer_signal outcome with
    | None => gfail (ErrRep "reputation: RecordOfferOutcome: unknown outcome")
    | Some kind =>
        do! ensureState seeder now in
        appendEvent seeder RoleSeeder kind f64_one now
    end).

(** Calls whose errors are dropped. *)
Definition best_effort (m : RepM unit) (s : RepSub) : RepSub := snd (m s).

Definition observe (id : bytes) (role : Role) (kind : SignalKind) (now : Z) (s : RepSub) : RepSub :=
  best_effort (appendEvent id role kind f64_one now) (best_effort (ensureState id now) s).

Definition Rep_OnLedgerEvent (ev : LedgerEvent) (now : Z) (s : RepSub) : RepSub :=
  if rp_closed s then s else
  match le_Kind ev with
  | LedgerEventSettlement =>
      let s := best_effort (ensureState (le_ConsumerID ev) now) s in
      let kind := if Z.testbit (le_Flags ev) 0 then SignalSettlementSigMissing
                  else SignalSettlementClean in
      if decide (le_SeederID ev = zero_bytes 32) then s
      else observe (le_SeederID ev) RoleSeeder kind now s
  | LedgerEventDisputeFiled => observe (le_ConsumerID ev) RoleConsumer SignalDisputeFiled now s
  | LedgerEventDisputeResolved =>
      if negb (le_DisputeUpheld ev) then s
      else observe (le_ConsumerID ev) RoleConsumer SignalDisputeUpheld now s
  | _ => s
  end.

Definition breach_reason (kind : BreachKind) (now : Z) : ReasonRecord := {|
  rr_Kind := "breach"; rr_Signal := ""; rr_BreachKind := BreachKind_String kind;
  rr_Z := f64_zero; rr_Window := ""; rr_Operator := ""; rr_At := Unix now |}.

(** The change of state of a breach. [true] when the call goes on to refresh the cache. *)
Definition breach_move (id : bytes) (kind : BreachKind) (now : Z) (cur : option stateRow) : RepM bool :=
  let target := ImmediateAction kind in
  let reason := breach_reason kind now in
  match cur with
  | None => do! transition id target reason now in gret true
  | Some r =>
    if decide (sw_State r = StateFrozen) then gret false
    else if decide (sw_State r = target) then do! appendReason id reason in gret true
    else λ s,
      match transition id target reason now s with
      | (Ok _, s) => (Ok true, s)
      | (Err errInvalidTransition, s) => (Ok false, s)
      | (Err e, s) => (Err e, s)
      end
  end.

Definition RecordCategoricalBreach (id : bytes) (kind : BreachKind) (now : Z) : RepM unit :=
  unless_closed (
    match kind with
    | BreachUnspecified => gfail (ErrRep "reputation: RecordCategoricalBreach: BreachUnspecified")
    | _ =>
        do! ensureState id now in
        do! appendEvent id (signalRole kind) SignalUnspecified f64_one now in
        let! cur := readState id in
        let! go := breach_move id kind now cur in
        if go : bool then refreshOne id else gret tt
    end).

Definition manual_reason (operator : string) (now : Z) : ReasonRecord := {|
  rr_Kind := "manual"; rr_Signal := ""; rr_BreachKind := ""; rr_Z := f64_zero;
  rr_Window := ""; rr_Operator := operator; rr_At := Unix now |}.

Definition Freeze (id : bytes) (operator : string) (now : Z) : RepM unit :=
  unless_closed (
    do! ensureState id now in
    λ s,
      match transition id StateFrozen (manual_reason operator now) now s with
      | (Err errInvalidTransition, s) => (Ok tt, s)
      | (Err e, s) => (Err e, s)
      | (Ok _, s) =>
        match refreshOne id s with
        | (Err e, s) => (Err e, s)
        | (Ok _, s) => (Ok tt, notifyFreeze id "operator" now s)
        end
      end).

Definition Unfreeze (id : bytes) (operator : string) (now : Z) : RepM unit :=
  unless_closed (
    do! clearFrozen id (manual_reason operator now) now in
    refreshOne id).
End subsystem.
