(* ===== verification/ReputationSpec.v ===== *)
(** Properties of the reputation subsystem: the audit trail, what a cycle of the evaluator
    decides, the median, and the cache that the broker reads. *)
From S2P Require Import Prelude Proto Float Credit Reputation.
From Stdlib Require Import Floats.SpecFloat.

(** ** Sequences of writes *)

Section keeps.
(** The writes under consideration. *)
Variable Q : RepWrite → Prop.

Definition steps : RepTables → RepTables → Prop :=
  rtc (λ t t', ∃ w, Q w ∧ t' = apply_write w t).

(** What other goroutines write. *)
Definition others (s : RepSub) : Prop := Forall (λ c, Forall Q c.1) (rp_oracle s).

(** From one state of the subsystem to a later one the oracle is used up, and the tables
    change by such writes only. *)
Definition follows (s s' : RepSub) : Prop :=
  (∃ k, rp_oracle s' = drop k (rp_oracle s)) ∧
  (others s → steps (rp_tables s) (rp_tables s')).

Lemma follows_others s s' : follows s s' → others s → others s'.
Proof. intros [[k Hk] _] Ho. unfold others. rewrite Hk. by apply Forall_drop. Qed.

Lemma follows_same s s' : rp_oracle s' = rp_oracle s → rp_tables s' = rp_tables s → follows s s'.
Proof. intros Ho Ht. split; [by exists O|]. rewrite Ht. intros _. apply rtc_refl. Qed.

#[global] Instance follows_po : PreOrder follows.
Proof.
  split; [intros s; by apply follows_same|].
  intros s1 s2 s3 H12 H23. split.
  - destruct H12 as [[k1 H1] _], H23 as [[k2 H2] _]. exists (k1 + k2)%nat. by rewrite H2, H1, drop_drop.
  - intros Ho. destruct H12 as [E1 S1] eqn:?. etrans; [by apply S1|].
    apply H23. by apply (follows_others s1).
Qed.

Definition Keeps {A} (m : RepM A) : Prop := ∀ s, follows s (snd (m s)).

Lemma keeps_ret {A} (a : A) : Keeps (gret a).
Proof. intros s. reflexivity. Qed.

Lemma keeps_fail {A} e : Keeps (gfail e : RepM A).
Proof. intros s. reflexivity. Qed.

Lemma keeps_guard c e : Keeps (gguard c e).
Proof. unfold gguard. destruct c; [apply keeps_fail|apply keeps_ret]. Qed.

Lemma keeps_bind {A B} (m : RepM A) (k : A → RepM B) :
  Keeps m → (∀ a, Keeps (k a)) → Keeps (gbind m k).
Proof.
  intros Hm Hk s. unfold gbind. specialize (Hm s). destruct (m s) as [[a|e] s1]; [|done].
  etrans; [exact Hm|apply Hk].
Qed.

Lemma keeps_tables {A} (f : RepTables → A) : Keeps (tables f).
Proof. intros s. reflexivity. Qed.

Lemma keeps_write w : Q w → Keeps (write w).
Proof. intros Hw s. split; [by exists O|]. intros _. apply rtc_once. by exists w. Qed.

Lemma keeps_publish c : Keeps (publish c).
Proof. intros s. by apply follows_same. Qed.

Lemma foldl_steps ws t :
  Forall Q ws → steps t (foldl (λ t w, apply_write w t) t ws).
Proof.
  intros H. revert t. induction H as [|w ws Hw _ IH]; intros t; [apply rtc_refl|].
  eapply rtc_l; [by exists w|apply IH].
Qed.

Lemma keeps_db b : Keeps (db b).
Proof.
  intros s. unfold db. destruct (rp_oracle s) as [|[ws f] o] eqn:E; [by apply follows_same|].
  split; [exists 1%nat; rewrite E; by destruct b|]. destruct b; [intros _; apply rtc_refl|].
  unfold others. rewrite E. intros [Hw _]%Forall_cons. by apply foldl_steps.
Qed.
End keeps.

Create HintDb rep.
#[export] Hint Resolve keeps_ret keeps_fail keeps_guard keeps_bind keeps_tables keeps_write
  keeps_publish keeps_db : rep.
Ltac rep_keeps :=
  repeat (lazymatch goal with
          | |- Keeps _ (gbind _ _) => apply keeps_bind
          | |- Keeps _ (gguard _ _) => apply keeps_guard
          | |- Keeps _ (db _) => apply keeps_db
          | |- Keeps _ (gret _) => apply keeps_ret
          | |- Keeps _ (gfail _) => apply keeps_fail
          | |- Keeps _ (tables _) => apply keeps_tables
          | |- ∀ _, _ => intros ?
          end); auto with rep.

(** ** Which writes the operations make *)

Definition isFreeze (r : ReasonRecord) : bool :=
  bool_decide (rr_Kind r = "manual")
  || (bool_decide (rr_Kind r = "transition") && bool_decide (rr_Signal r = "freeze_repeat")).
Definition isCleared (r : ReasonRecord) : bool :=
  bool_decide (rr_Kind r = "transition") && bool_decide (rr_Signal r = "audit_cleared").
Definition isManual (r : ReasonRecord) : bool := bool_decide (rr_Kind r = "manual").

(** A change of state carries the reason the code gives for it. *)
Definition labelled (to : RepState) (r : ReasonRecord) : bool :=
  match to with StateAudit => isAudit r | StateFrozen => isFreeze r | StateOK => isCleared r end.

(** Writes that leave rep_state's existing rows alone. *)
Definition harmless (w : RepWrite) : Prop :=
  match w with WEnsure _ _ | WEvent _ | WPrune _ | WScore _ _ => True | _ => False end.

Section operations.
Variable Q : RepWrite → Prop.
Hypothesis Q_harmless : ∀ w, harmless w → Q w.

Lemma keeps_ensure id now : Keeps Q (ensureState id now).
Proof. unfold ensureState. rep_keeps. by apply keeps_write, Q_harmless. Qed.

Lemma keeps_event id role kind v now : Keeps Q (appendEvent id role kind v now).
Proof. unfold appendEvent. rep_keeps. by apply keeps_write, Q_harmless. Qed.

Lemma keeps_read id : Keeps Q (readState id).
Proof. unfold readState. rep_keeps. Qed.

Lemma keeps_states : Keeps Q loadAllStates.
Proof. unfold loadAllStates. rep_keeps. Qed.

Lemma keeps_scores : Keeps Q loadAllScores.
Proof. unfold loadAllScores. rep_keeps. Qed.

Lemma keeps_lazy id now cur : Keeps Q (lazy_row id now cur).
Proof. unfold lazy_row. destruct cur; rep_keeps. by apply keeps_write, Q_harmless. Qed.

Lemma keeps_transition id to reason now :
  Q (WMove id to reason now) → Keeps Q (transition id to reason now).
Proof.
  intros Hw. unfold transition, encode_reasons.
  rep_keeps; auto using keeps_read, keeps_lazy.
Qed.

Lemma keeps_reason id reason : Q (WReason id reason) → Keeps Q (appendReason id reason).
Proof.
  intros Hw. unfold appendReason, encode_reasons. apply keeps_bind; [apply keeps_read|].
  intros [r|]; rep_keeps.
Qed.

Lemma keeps_clear id reason now : Q (WClear id reason now) → Keeps Q (clearFrozen id reason now).
Proof.
  intros Hw. unfold clearFrozen, encode_reasons. apply keeps_bind; [apply keeps_read|].
  intros [r|]; [|rep_keeps]. destruct (decide _); rep_keeps.
Qed.

Lemma keeps_refresh cfg id : Keeps Q (refreshOne cfg id).
Proof.
  unfold refreshOne. apply keeps_bind; [apply keeps_read|]. intros [r|]; [|rep_keeps].
  apply keeps_bind.
  - intros s. unfold scores_or_none. pose proof (keeps_scores s) as H.
    by destruct (loadAllScores s) as [[m|e] s'].
  - intros sc s. apply keeps_publish.
Qed.

Lemma keeps_reload cfg : Keeps Q (reloadCache cfg).
Proof. unfold reloadCache. rep_keeps; auto using keeps_states, keeps_scores. Qed.

Lemma keeps_closed m : Keeps Q m → Keeps Q (unless_closed m).
Proof. intros H s. unfold unless_closed. destruct (rp_closed s); [reflexivity|apply H]. Qed.

Lemma follows_notify b id reason at_ s : follows Q s (notifyFreeze b id reason at_ s).
Proof. unfold notifyFreeze. destruct b; by apply follows_same. Qed.

Lemma follows_observe id role kind now s : follows Q s (observe id role kind now s).
Proof. unfold observe, best_effort. etrans; [apply keeps_ensure|apply keeps_event]. Qed.

Lemma follows_ledger ev now s : follows Q s (Rep_OnLedgerEvent ev now s).
Proof.
  unfold Rep_OnLedgerEvent. destruct (rp_closed s); [reflexivity|].
  destruct (le_Kind ev); try reflexivity; try apply follows_observe.
  - case_decide; [apply keeps_ensure|]. etrans; [apply keeps_ensure|apply follows_observe].
  - destruct (le_DisputeUpheld ev); [apply follows_observe|reflexivity].
Qed.

Lemma keeps_flags cfg now sigs : Keeps Q (collect_flags cfg now sigs).
Proof.
  induction sigs as [|sig sigs IH]; cbn [collect_flags]; [rep_keeps|].
  apply keeps_bind; [|intros; apply keeps_bind; [apply IH|rep_keeps]].
  unfold signal_flags, aggregateBySignal, populationSize. destruct (primaryWindow _ _ _). rep_keeps.
Qed.

Lemma keeps_store_scores mLog mExp now rows next : Keeps Q (store_scores mLog mExp now rows next).
Proof.
  revert next. induction rows as [|[id r] rows IH]; intros next; cbn [store_scores]; [rep_keeps|].
  apply keeps_bind; [|intros; apply IH]. unfold upsertScore. rep_keeps.
  by apply keeps_write, Q_harmless.
Qed.

Lemma keeps_recompute mLog mExp now : Keeps Q (recomputeScoresAndPublish mLog mExp now).
Proof.
  unfold recomputeScoresAndPublish. rep_keeps; auto using keeps_states, keeps_store_scores.
Qed.

Hypothesis Q_move : ∀ id to reason now, labelled to reason = true → Q (WMove id to reason now).

Lemma keeps_audit_flagged now states flagged : Keeps Q (audit_flagged now states flagged).
Proof.
  induction flagged as [|f l IH]; cbn [audit_flagged]; [rep_keeps|].
  apply keeps_bind; [|intros; apply IH].
  assert (Keeps Q (swallow_invalid (transition (fl_id f) StateAudit (zscore_reason f now) now))).
  { intros s. unfold swallow_invalid.
    pose proof (keeps_transition (fl_id f) StateAudit (zscore_reason f now) now ltac:(by apply Q_move) s) as H.
    by destruct (transition _ _ _ _ s) as [[[]|[]] s']. }
  destruct (sw_State <$> _) as [[]|]; rep_keeps.
Qed.

Lemma follows_review_row b now flagged s kv : follows Q s (review_row b now flagged s kv).
Proof.
  destruct kv as [id st]. unfold review_row. destruct (sw_State st); try reflexivity.
  destruct (recent_audits now (sw_Reasons st)) as [count last]. destruct (3 <=? count).
  - pose proof (keeps_transition id StateFrozen (transition_reason "freeze_repeat" now) now
                  ltac:(by apply Q_move) s) as H.
    destruct (transition id _ _ _ s) as [[[]|e] s']; [|done]. etrans; [exact H|apply follows_notify].
  - destruct (_ && _); [|reflexivity]. by apply keeps_transition, Q_move.
Qed.

Lemma keeps_review b now flagged states : Keeps Q (review b now flagged states).
Proof.
  intros s. unfold review. cbn. generalize (map_to_list states). intros l. revert s.
  induction l as [|kv l IH]; intros s; [reflexivity|]. cbn.
  etrans; [apply follows_review_row|apply IH].
Qed.

Lemma keeps_cycle cfg mLog mExp b now : Keeps Q (runOneCycle cfg mLog mExp b now).
Proof.
  unfold runOneCycle.
  apply keeps_bind; [apply keeps_flags|intros fl].
  apply keeps_bind; [apply keeps_states|intros st].
  apply keeps_bind; [apply keeps_audit_flagged|intros _].
  apply keeps_bind; [apply keeps_states|intros st'].
  apply keeps_bind; [apply keeps_review|intros _].
  apply keeps_bind; [apply keeps_recompute|intros _].
  unfold pruneEventsBefore. rep_keeps. by apply keeps_write, Q_harmless.
Qed.

Lemma keeps_freeze cfg b id operator now : Keeps Q (Freeze cfg b id operator now).
Proof.
  unfold Freeze. apply keeps_closed, keeps_bind; [apply keeps_ensure|]. intros _ s.
  pose proof (keeps_transition id StateFrozen (manual_reason operator now) now
                ltac:(by apply Q_move) s) as H.
  destruct (transition id _ _ _ s) as [[[]|e] s']; [|by destruct e].
  etrans; [exact H|]. pose proof (keeps_refresh cfg id s') as H'.
  destruct (refreshOne cfg id s') as [[[]|e] s'']; [|done]. etrans; [exact H'|apply follows_notify].
Qed.

Lemma keeps_unfreeze cfg id operator now :
  Q (WClear id (manual_reason operator now) now) → Keeps Q (Unfreeze cfg id operator now).
Proof.
  intros Hw. unfold Unfreeze. apply keeps_closed. rep_keeps; auto using keeps_clear, keeps_refresh.
Qed.

Lemma keeps_breach cfg id kind now :
  Q (WReason id (breach_reason kind now)) → Keeps Q (RecordCategoricalBreach cfg id kind now).
Proof.
  intros Hw. unfold RecordCategoricalBreach. apply keeps_closed.
  destruct (decide (kind = BreachUnspecified)) as [->|Hk]; [rep_keeps|].
  assert (Keeps Q (transition id (ImmediateAction kind) (breach_reason kind now) now)) as Ht.
  { apply keeps_transition, Q_move. by destruct kind. }
  assert (∀ cur, Keeps Q (breach_move id kind now cur)) as Hm.
  { intros [r|]; unfold breach_move; [|rep_keeps]. case_decide; [rep_keeps|].
    case_decide; [rep_keeps; auto using keeps_reason|]. intros s. specialize (Ht s).
    by destruct (transition _ _ _ _ s) as [[[]|[]] s']. }
  destruct kind; [done|..];
    (apply keeps_bind; [apply keeps_ensure|intros _]; apply keeps_bind; [apply keeps_event|intros _];
     apply keeps_bind; [apply keeps_read|intros cur]; apply keeps_bind; [apply Hm|];
     intros []; [apply keeps_refresh|rep_keeps]).
Qed.

Lemma keeps_broker_request c now : Keeps Q (RecordBrokerRequest c now).
Proof. apply keeps_closed. rep_keeps; auto using keeps_ensure, keeps_event. Qed.

Lemma keeps_fidelity c level now : Keeps Q (RecordProofFidelity c level now).
Proof. apply keeps_closed. rep_keeps; auto using keeps_ensure, keeps_event. Qed.

Lemma keeps_offer c outcome now : Keeps Q (RecordOfferOutcome c outcome now).
Proof.
  apply keeps_closed. destruct (offer_signal outcome); rep_keeps; auto using keeps_ensure, keeps_event.
Qed.
End operations.

(** ** The audit trail *)

(** The operations, each with what interferes while it runs. *)
Inductive rep_op :=
| OpBrokerRequest (id : bytes) | OpFidelity (id : bytes) (level : string)
| OpOffer (id : bytes) (outcome : string) | OpLedger (ev : LedgerEvent)
| OpBreach (id : bytes) (kind : BreachKind) | OpFreeze (id : bytes) (operator : string)
| OpUnfreeze (id : bytes) (operator : string) | OpCycle | OpRestart.

Record rep_event := {
  re_op : rep_op; re_now : Z; re_oracle : list (list RepWrite * bool)
}.

Section trail.
Context (cfg : ReputationConfig) (math_Log math_Exp : spec_float → spec_float) (has_listener : bool).

Definition run_op (op : rep_op) (now : Z) (s : RepSub) : RepSub :=
  match op with
  | OpBrokerRequest id => snd (RecordBrokerRequest id now s)
  | OpFidelity id level => snd (RecordProofFidelity id level now s)
  | OpOffer id outcome => snd (RecordOfferOutcome id outcome now s)
  | OpLedger ev => Rep_OnLedgerEvent ev now s
  | OpBreach id kind => snd (RecordCategoricalBreach cfg id kind now s)
  | OpFreeze id operator => snd (Freeze cfg has_listener id operator now s)
  | OpUnfreeze id operator => snd (Unfreeze cfg id operator now s)
  | OpCycle => snd (runOneCycle cfg math_Log math_Exp has_listener now s)
  | OpRestart => snd (Rep_Open cfg (rp_tables s) s)
  end.

Definition run_event (s : RepSub) (e : rep_event) : RepSub :=
  run_op (re_op e) (re_now e) (set_oracle (re_oracle e) s).

Lemma run_op_follows Q op now s :
  (∀ w, harmless w → Q w) →
  (∀ id to reason now, labelled to reason = true → Q (WMove id to reason now)) →
  (∀ id kind, op = OpBreach id kind → Q (WReason id (breach_reason kind now))) →
  (∀ id o, op = OpUnfreeze id o → Q (WClear id (manual_reason o now) now)) →
  follows Q s (run_op op now s).
Proof.
  intros Hh Hm Hb Hu. destruct op; cbn [run_op].
  - by apply keeps_broker_request.
  - by apply keeps_fidelity.
  - by apply keeps_offer.
  - by apply follows_ledger.
  - apply keeps_breach; eauto.
  - by apply keeps_freeze.
  - apply keeps_unfreeze; eauto.
  - by apply keeps_cycle.
  - exact (keeps_reload Q cfg (Build_RepSub (rp_tables s) (rp_oracle s) ∅ false [])).
Qed.

(** A row seen later: nothing was taken from its reasons, and a frozen identity is still
    frozen, since the same time. *)
Definition later_row (r r' : stateRow) : Prop :=
  sw_Reasons r `prefix_of` sw_Reasons r' ∧ sw_FirstSeenAt r' = sw_FirstSeenAt r ∧
  (sw_State r = StateFrozen → sw_State r' = StateFrozen ∧ sw_Since r' = sw_Since r).

Definition later (id : bytes) (t t' : RepTables) : Prop :=
  ∀ r, rep_state t !! id = Some r → ∃ r', rep_state t' !! id = Some r' ∧ later_row r r'.

(** Nobody unfreezes the identity. *)
Definition no_clear (id : bytes) (w : RepWrite) : Prop :=
  match w with WClear id' _ _ => id' ≠ id | _ => True end.

Lemma later_row_refl r : later_row r r.
Proof. by split_and!. Qed.

Lemma apply_write_later id w t : no_clear id w → later id t (apply_write w t).
Proof.
  intros Hw r Hr. destruct w as [i n|i to re n|i re|i re n|e|c|i x]; cbn in *;
    try by (exists r; split; [done|apply later_row_refl]).
  - destruct (rep_state t !! i) eqn:Ei; [by exists r; split; [|apply later_row_refl]|].
    exists r. split; [|apply later_row_refl]. rewrite lookup_insert_ne; [done|]. congruence.
  - destruct (canTransition _ _) eqn:Ec; [|by exists r; split; [|apply later_row_refl]]. cbn.
    destruct (decide (i = id)) as [->|]; [|rewrite lookup_insert_ne by done; by exists r; split; [|apply later_row_refl]].
    rewrite Hr in Ec |- *. cbn in *. eexists. split; [apply lookup_insert_eq|].
    split_and!; [by eexists|done|]. intros Hf. unfold canTransition in Ec. rewrite Hf in Ec.
    by repeat case_decide.
  - destruct (decide (i = id)) as [->|].
    + rewrite lookup_alter_eq, Hr. eexists. split; [done|]. split_and!; [by eexists|done|done].
    + rewrite lookup_alter_ne by done. by exists r; split; [|apply later_row_refl].
  - destruct (rep_state t !! i) eqn:Ei; [|by exists r; split; [|apply later_row_refl]].
    case_decide; [|by exists r; split; [|apply later_row_refl]]. cbn.
    rewrite lookup_insert_ne by done. by exists r; split; [|apply later_row_refl].
Qed.

Lemma steps_later id t t' : steps (no_clear id) t t' → later id t t'.
Proof.
  induction 1 as [t|t1 t2 t3 (w & Hw & ->) _ IH].
  - intros r Hr. exists r. split; [done|apply later_row_refl].
  - intros r Hr. destruct (apply_write_later id w t1 Hw r Hr) as (r2 & H2 & P2 & F2 & S2).
    destruct (IH r2 H2) as (r3 & H3 & P3 & F3 & S3). exists r3. split; [done|].
    split_and!; [by etrans|congruence|]. intros Hf. destruct (S2 Hf) as [? E2].
    destruct (S3 ltac:(done)) as [? E3]. split; [done|congruence].
Qed.

(** The state that the reasons account for. *)
Definition replay (reasons : list ReasonRecord) : RepState :=
  foldl (λ st r,
    if isManual r then (if decide (st = StateFrozen) then StateOK else StateFrozen)
    else if isAudit r then StateAudit
    else if isFreeze r then StateFrozen
    else StateOK) StateOK reasons.

Definition trail_ok (t : RepTables) : Prop :=
  ∀ id r, rep_state t !! id = Some r → sw_State r = replay (sw_Reasons r).

(** The changes of state the code makes. *)
Definition lawful (w : RepWrite) : Prop :=
  match w with
  | WMove _ to reason _ => labelled to reason = true
  | WClear _ reason _ => isManual reason = true
  | WReason _ _ => False
  | _ => True
  end.

Lemma replay_snoc l r :
  replay (l ++ [r]) =
    if isManual r then (if decide (replay l = StateFrozen) then StateOK else StateFrozen)
    else if isAudit r then StateAudit else if isFreeze r then StateFrozen else StateOK.
Proof. unfold replay. by rewrite foldl_app. Qed.

Lemma labelled_replay st to r :
  canTransition st to = true → labelled to r = true →
  (if isManual r then (if decide (st = StateFrozen) then StateOK else StateFrozen)
   else if isAudit r then StateAudit else if isFreeze r then StateFrozen else StateOK) = to.
Proof.
  intros Hc Hl. assert (st ≠ StateFrozen) as Hf.
  { intros ->. unfold canTransition in Hc. by repeat case_decide. }
  rewrite (decide_False (P := st = StateFrozen)) by done.
  unfold labelled, isFreeze, isCleared, isAudit, isManual in *.
  repeat (case_bool_decide; simplify_eq/=); destruct to; simplify_eq/=; try congruence; try done.
Qed.

Lemma apply_write_trail w t : lawful w → trail_ok t → trail_ok (apply_write w t).
Proof.
  intros Hw Ht id r. destruct w as [i n|i to re n|i re|i re n|e|c|i x]; cbn in *; try apply Ht; [| |done|].
  - destruct (rep_state t !! i) eqn:Ei; [apply Ht|].
    destruct (decide (i = id)) as [->|]; [|rewrite lookup_insert_ne by done; apply Ht].
    rewrite lookup_insert_eq. by intros [= <-].
  - destruct (canTransition _ _) eqn:Ec; [|apply Ht]. cbn.
    destruct (decide (i = id)) as [->|]; [|rewrite lookup_insert_ne by done; apply Ht].
    rewrite lookup_insert_eq. intros [= <-]. cbn. rewrite replay_snoc.
    assert (sw_State (default (freshRow n) (rep_state t !! id)) =
            replay (sw_Reasons (default (freshRow n) (rep_state t !! id)))) as Hr.
    { destruct (rep_state t !! id) eqn:E; [by eapply Ht|done]. }
    rewrite Hr in Ec. symmetry. by apply labelled_replay.
  - destruct (rep_state t !! i) as [r0|] eqn:Ei; [|apply Ht]. case_decide as Hf; [|apply Ht]. cbn.
    destruct (decide (i = id)) as [->|]; [|rewrite lookup_insert_ne by done; apply Ht].
    rewrite lookup_insert_eq. intros [= <-]. cbn. rewrite replay_snoc, Hw.
    rewrite <-(Ht _ _ Ei), decide_True by done. done.
Qed.

Lemma steps_trail t t' : steps lawful t t' → trail_ok t → trail_ok t'.
Proof. induction 1 as [|t1 t2 t3 (w & Hw & ->) _ IH]; [done|]. eauto using apply_write_trail. Qed.

Lemma steps_mono (Q Q' : RepWrite → Prop) t t' : (∀ w, Q w → Q' w) → steps Q t t' → steps Q' t t'.
Proof.
  intros H. induction 1 as [|t1 t2 t3 (w & Hw & ->) _ IH]; [apply rtc_refl|].
  eapply rtc_l; [|exact IH]. eauto.
Qed.

Lemma others_mono (Q Q' : RepWrite → Prop) s : (∀ w, Q w → Q' w) → others Q s → others Q' s.
Proof. intros H Ho. eapply Forall_impl; [exact Ho|]. intros c Hc. eapply Forall_impl; [exact Hc|done]. Qed.

(** Nothing interferes. *)
Definition quiet : RepSub → Prop := others (λ _, False).

Lemma quiet_tables {A} (m : RepM A) s :
  Keeps (λ _, False) m → quiet s → quiet (snd (m s)) ∧ rp_tables (snd (m s)) = rp_tables s.
Proof.
  intros Hm Hq. split; [apply (follows_others _ s); [apply Hm|done]|]. destruct (Hm s) as [_ Hs]. specialize (Hs Hq).
  inversion Hs as [|? ? ? (w & [] & _)]; congruence.
Qed.

Lemma keeps_trail {A} (m : RepM A) s :
  Keeps lawful m → others lawful s → trail_ok (rp_tables s) → trail_ok (rp_tables (snd (m s))).
Proof. intros Hm Ho Ht. eapply steps_trail; [by apply Hm|done]. Qed.

Lemma keeps_quiet {A} Q (m : RepM A) s : Keeps Q m → quiet s → quiet (snd (m s)).
Proof. intros Hm Hq. destruct (Hm s) as [[k Hk] _]. unfold quiet, others. rewrite Hk. by apply Forall_drop. Qed.

Lemma quiet_lawful s : quiet s → others lawful s.
Proof. by apply others_mono. Qed.

Lemma readState_quiet id s x s' :
  quiet s → readState id s = (Ok x, s') →
  x = rep_state (rp_tables s') !! id ∧ rp_tables s' = rp_tables s ∧ quiet s'.
Proof.
  intros Hq Hr. pose proof (quiet_tables (readState id) s (keeps_read _ id) Hq) as [Hq' Ht].
  rewrite Hr in Hq', Ht. split_and!; [|done|done].
  unfold readState, gbind, tables, gread in Hr. destruct (db false s) as [[[]|e] s1]; by simplify_eq/=.
Qed.

Lemma appendReason_trail id kind now s r :
  quiet s → trail_ok (rp_tables s) → rep_state (rp_tables s) !! id = Some r → sw_State r = StateAudit →
  trail_ok (rp_tables (snd (appendReason id (breach_reason kind now) s))).
Proof.
  intros Hq Ht Hr Hs. unfold appendReason, encode_reasons, gbind.
  destruct (readState id s) as [[x|e] s1] eqn:E1.
  2: { pose proof (quiet_tables (readState id) s (keeps_read _ id) Hq) as [_ H].
       rewrite E1 in H. cbn in *. by rewrite H. }
  destruct (readState_quiet _ _ _ _ Hq E1) as (-> & T1 & Q1). rewrite T1, Hr.
  unfold gguard. destruct (negb _); [cbn; by rewrite T1|]. cbn [gret fst snd].
  pose proof (quiet_tables (db true) s1 (keeps_db _ true) Q1) as [_ T2].
  destruct (db true s1) as [[[]|e] s2]; cbn in *; rewrite T2, T1; [|done].
  intros i r'. cbn. destruct (decide (id = i)) as [->|]; [|rewrite lookup_alter_ne by done; apply Ht].
  rewrite lookup_alter_eq, Hr. intros [= <-]. cbn. by rewrite replay_snoc.
Qed.

Lemma lawful_harmless w : harmless w → lawful w.
Proof. by destruct w. Qed.

Lemma lawful_move id to reason now : labelled to reason = true → lawful (WMove id to reason now).
Proof. done. Qed.

Lemma breach_move_trail id kind now s cur :
  kind ≠ BreachUnspecified → quiet s → trail_ok (rp_tables s) → cur = rep_state (rp_tables s) !! id →
  trail_ok (rp_tables (snd (breach_move id kind now cur s))).
Proof.
  intros Hk Hq Ht ->. pose proof (quiet_lawful s Hq) as Hl.
  assert (labelled (ImmediateAction kind) (breach_reason kind now) = true) as Hb by (by destruct kind).
  pose proof (keeps_transition lawful lawful_harmless id _ _ now (lawful_move id _ _ now Hb)) as Htr.
  unfold breach_move. destruct (rep_state _ !! id) as [r|] eqn:Er.
  - case_decide as Hf; [done|]. case_decide as Ha.
    + unfold gbind. pose proof (appendReason_trail id kind now s r Hq Ht Er) as H.
      destruct (appendReason _ _ s) as [[[]|e] s1]; apply H; by destruct kind.
    + pose proof (keeps_trail _ s Htr Hl Ht) as H. by destruct (transition _ _ _ _ s) as [[[]|[]] s'].
  - unfold gbind. pose proof (keeps_trail _ s Htr Hl Ht) as H.
    by destruct (transition _ _ _ _ s) as [[[]|e] s'].
Qed.

Lemma trail_bind {A B} Q (m : RepM A) (k : A → RepM B) s :
  quiet s → Keeps Q m → trail_ok (rp_tables (snd (m s))) →
  (∀ a s', m s = (Ok a, s') → quiet s' → trail_ok (rp_tables s') → trail_ok (rp_tables (snd (k a s')))) →
  trail_ok (rp_tables (snd (gbind m k s))).
Proof.
  intros Hq Hm Ht Hk. pose proof (keeps_quiet Q m s Hm Hq) as Hq'. unfold gbind.
  destruct (m s) as [[a|e] s'] eqn:E; cbn in *; [|done]. by apply Hk.
Qed.

Lemma breach_trail id kind now s :
  quiet s → trail_ok (rp_tables s) → trail_ok (rp_tables (snd (RecordCategoricalBreach cfg id kind now s))).
Proof.
  intros Hq Ht. unfold RecordCategoricalBreach, unless_closed. destruct (rp_closed s); [done|].
  destruct (decide (kind = BreachUnspecified)) as [->|Hk]; [done|].
  assert (∀ A (m : RepM A) s, Keeps lawful m → quiet s → trail_ok (rp_tables s) →
            trail_ok (rp_tables (snd (m s)))) as Hl
    by (intros A m s' Km Hq'; apply keeps_trail, quiet_lawful; done).
  pose proof (keeps_ensure lawful lawful_harmless id now) as K1.
  pose proof (λ k, keeps_event lawful lawful_harmless id (signalRole k) SignalUnspecified f64_one now) as K2.
  pose proof (keeps_read lawful id) as K3.
  assert (∀ cur, Keeps (λ _, True) (breach_move id kind now cur)) as K4.
  { intros [r|]; unfold breach_move; [|rep_keeps; by apply keeps_transition]. case_decide; [rep_keeps|].
    case_decide; [rep_keeps; by apply keeps_reason|]. intros s'.
    pose proof (keeps_transition (λ _, True) (λ _ _, I) id (ImmediateAction kind) (breach_reason kind now) now I s') as Hf.
    by destruct (transition _ _ _ _ s') as [[[]|[]] s2]. }
  destruct kind; [done|..];
    (eapply trail_bind; [done|exact K1|by apply Hl|]; intros [] s1 _ Q1 T1;
     eapply trail_bind; [done|apply K2|by apply Hl|]; intros [] s2 _ Q2 T2;
     eapply trail_bind; [done|exact K3|by apply Hl|]; intros cur s3 E3 Q3 T3;
     eapply trail_bind; [done|apply K4| |];
       [apply breach_move_trail; [done..|]; by destruct (readState_quiet _ _ _ _ Q2 E3)|];
     intros [] s4 _ Q4 T4; [apply Hl; [apply keeps_refresh|done|done]|done]).
Qed.

(** What may happen: other goroutines make lawful changes while an operation runs, and
    database calls fail at will; a breach is recorded while nobody else writes. *)
Definition allowed (e : rep_event) : Prop :=
  Forall (λ c, Forall lawful c.1) (re_oracle e) ∧
  match re_op e with OpBreach _ _ => Forall (λ c, c.1 = []) (re_oracle e) | _ => True end.

(** Nobody unfreezes the identity, neither an operation nor what interferes with it. *)
Definition keeps_frozen (id : bytes) (e : rep_event) : Prop :=
  Forall (λ c, Forall (no_clear id) c.1) (re_oracle e) ∧ ∀ o, re_op e ≠ OpUnfreeze id o.

Lemma run_event_trail s e :
  allowed e → trail_ok (rp_tables s) → trail_ok (rp_tables (run_event s e)).
Proof.
  intros [Ho Hb] Ht. unfold run_event. destruct (re_op e) eqn:Eop;
    try (eapply steps_trail; [|exact Ht]; apply (run_op_follows lawful _ _ (set_oracle (re_oracle e) s));
         [apply lawful_harmless|apply lawful_move|congruence..|exact Ho]).
  - apply breach_trail; [|done]. eapply Forall_impl; [exact Hb|]. by intros c ->.
  - eapply steps_trail; [|exact Ht].
    apply (run_op_follows lawful _ _ (set_oracle (re_oracle e) s));
      [apply lawful_harmless|apply lawful_move|congruence|by intros ?? _|exact Ho].
Qed.

Lemma run_event_later id s e : keeps_frozen id e → later id (rp_tables s) (rp_tables (run_event s e)).
Proof.
  intros [Ho Hu]. apply steps_later.
  apply (run_op_follows (no_clear id) _ _ (set_oracle (re_oracle e) s)); [by intros []|done|done| |exact Ho].
  intros id' o Eo. cbn. intros ->. by eapply Hu.
Qed.

Lemma later_trans id t1 t2 t3 : later id t1 t2 → later id t2 t3 → later id t1 t3.
Proof.
  intros H12 H23 r Hr. destruct (H12 r Hr) as (r2 & H2 & P2 & F2 & S2).
  destruct (H23 r2 H2) as (r3 & H3 & P3 & F3 & S3). exists r3. split; [done|].
  split_and!; [by etrans|congruence|]. intros Hf. destruct (S2 Hf) as [? E2].
  destruct (S3 ltac:(done)) as [? E3]. split; [done|congruence].
Qed.

End trail.

(** ** Witness *)

Definition wt_cfg : ReputationConfig := {|
  rc_ShortS := 3600; rc_MediumS := 86400; rc_LongS := 604800; rc_ZScoreThreshold := f64_of_int 3;
  rc_DefaultScore := f64_half; rc_MinPopulationForZScore := 4 |}.
Definition wt_one (_ : spec_float) : spec_float := f64_one.
Definition wt_id (b : byte) : bytes := repeat b 32.

(** A frozen identity. *)
Definition wt_start : RepSub := {|
  rp_tables := set_rep_state <[wt_id Byte.x01 :=
    movedRow StateFrozen (manual_reason "admin" Second) Second (freshRow Second)]> empty_tables;
  rp_oracle := []; rp_cache := ∅; rp_closed := false; rp_notified := [] |}.

(** A cycle with a failing call and other goroutines at work, a breach, a restart, and the
    unfreezing of somebody else, which fails since there is no such identity. *)
Definition wt_events : list rep_event := [
  {| re_op := OpBreach (wt_id Byte.x02) BreachReplayConfirmedNonce; re_now := 2 * Second;
     re_oracle := [([], false)] |};
  {| re_op := OpCycle; re_now := 3 * Second;
     re_oracle := [([WEnsure (wt_id Byte.x03) (3 * Second);
                     WMove (wt_id Byte.x03) StateFrozen (manual_reason "admin" (3 * Second)) (3 * Second)], false);
                   ([], true)] |};
  {| re_op := OpBreach (wt_id Byte.x01) BreachInconsistentSeederSig; re_now := 4 * Second; re_oracle := [] |};
  {| re_op := OpUnfreeze (wt_id Byte.x04) "admin"; re_now := 5 * Second; re_oracle := [] |};
  {| re_op := OpRestart; re_now := 6 * Second; re_oracle := [] |};
  {| re_op := OpCycle; re_now := 7 * Second; re_oracle := [] |} ].

