(* ===== verification/EvaluatorSpec.v ===== *)
(** What a cycle of the reputation evaluator decides, when nothing interferes: a reference
    for every identity, the freezes it announces, and the cache it publishes. *)
From S2P Require Import Prelude Proto Float Credit Reputation ReputationSpec.
From Stdlib Require Import Floats.SpecFloat.

(** ** Operations on a quiet store *)

Lemma db_ok b s : rp_oracle s = [] → db b s = (Ok tt, s).
Proof. intros H. unfold db. by rewrite H. Qed.

Lemma readState_ok id s :
  rp_oracle s = [] → readState id s = (Ok (rep_state (rp_tables s) !! id), s).
Proof. intros H. unfold readState, gbind. by rewrite db_ok. Qed.

Lemma loadAllStates_ok s : rp_oracle s = [] → loadAllStates s = (Ok (rep_state (rp_tables s)), s).
Proof. intros H. unfold loadAllStates, gbind. by rewrite db_ok. Qed.

Definition put_row (id : bytes) (r : stateRow) : RepSub → RepSub :=
  set_tables (set_rep_state <[id := r]>).

(** A row whose reasons the JSON encoder takes. *)
Definition row_encodes (r : stateRow) : bool := forallb reason_encodes (sw_Reasons r).

Lemma ensure_eq i now t :
  apply_write (WEnsure i now) t =
  set_rep_state <[i := default (freshRow now) (rep_state t !! i)]> t.
Proof.
  unfold set_rep_state. cbn. unfold set_rep_state. f_equal.
  destruct (rep_state t !! i) as [r|] eqn:E; [|done]. cbn. by rewrite insert_id.
Qed.

Lemma lazy_row_ok i now s :
  rp_oracle s = [] →
  lazy_row i now (rep_state (rp_tables s) !! i) s =
  (Ok (default (freshRow now) (rep_state (rp_tables s) !! i)),
   set_tables (apply_write (WEnsure i now)) s).
Proof.
  intros Ho. destruct (rep_state (rp_tables s) !! i) as [r|] eqn:E; cbn [lazy_row].
  - unfold gret, set_tables. rewrite ensure_eq, E. destruct s as [[m l sc] o c cl n].
    unfold set_rep_state. cbn in *. rewrite insert_id by done. done.
  - unfold gbind. rewrite db_ok by done. done.
Qed.

Lemma transition_ok i to reason now s :
  rp_oracle s = [] →
  let r := default (freshRow now) (rep_state (rp_tables s) !! i) in
  canTransition (sw_State r) to = true → row_encodes r = true → reason_encodes reason = true →
  transition i to reason now s = (Ok tt, put_row i (movedRow to reason now r) s).
Proof.
  intros Ho r Hc Hr Hre. unfold transition, gbind. rewrite readState_ok by done.
  rewrite lazy_row_ok by done. fold r. rewrite Hc. cbn [negb gguard gret].
  unfold encode_reasons. rewrite forallb_app. unfold row_encodes in Hr. rewrite Hr. cbn [forallb].
  rewrite Hre. cbn [andb negb gguard gret]. unfold gret. rewrite db_ok by done.
  unfold write, put_row, set_tables. cbn [rp_tables rp_oracle rp_cache rp_closed rp_notified].
  rewrite ensure_eq. fold r. cbn [apply_write]. unfold set_rep_state.
  cbn [rep_state rep_events rep_scores]. rewrite lookup_insert_eq. cbn [default from_option].
  unfold Datatypes.id. rewrite Hc. by rewrite insert_insert_eq.
Qed.

Lemma transition_refused id to reason now s r :
  rp_oracle s = [] → rep_state (rp_tables s) !! id = Some r → canTransition (sw_State r) to = false →
  transition id to reason now s = (Err errInvalidTransition, s).
Proof.
  intros Ho Hr Hc. unfold transition, gbind. rewrite readState_ok, Hr by done.
  cbn [lazy_row gret fst snd]. by rewrite Hc.
Qed.

(** ** The reference *)

Section cycle.
Context (cfg : ReputationConfig) (math_Log math_Exp : spec_float → spec_float) (has_listener : bool).

(** The outliers of one signal: the samples of its window against their median, when the
    population of its role is large enough. *)
Definition flags_for (now : Z) (t : RepTables) (sig : SignalKind) : list flag :=
  let '(from, to) := primaryWindow cfg now sig in
  if population (SignalKind_Role sig) from to (rep_events t) <? rc_MinPopulationForZScore cfg
  then [] else outliers cfg sig (aggregate sig from to (rep_events t)).

Definition flags_of (now : Z) (t : RepTables) : list flag :=
  concat (flags_for now t <$> PrimarySignals).

Definition first_flag (id : bytes) (flags : list flag) : option flag :=
  List.find (λ f, bool_decide (fl_id f = id)) flags.

(** A flagged identity that is OK, or unknown, is audited, for its first flag. *)
Definition audited (now : Z) (flags : list flag) (id : bytes) (o : option stateRow) : option stateRow :=
  match first_flag id flags with
  | None => o
  | Some f =>
    match sw_State <$> o with
    | None | Some StateOK =>
        Some (movedRow StateAudit (zscore_reason f now) now (default (freshRow now) o))
    | _ => o
    end
  end.

(** An audited identity is frozen at its third audit in seven days; it is cleared when its
    last audit of those days is older than 48 hours and it is not flagged. *)
Definition freezes (now : Z) (r : stateRow) : bool :=
  bool_decide (sw_State r = StateAudit) && (3 <=? fst (recent_audits now (sw_Reasons r))).

Definition clears (now : Z) (flags : list flag) (id : bytes) (r : stateRow) : bool :=
  let lastAudit := snd (recent_audits now (sw_Reasons r)) in
  bool_decide (sw_State r = StateAudit) && negb (lastAudit =? zeroTime)
  && (lastAudit <? now - fortyEightHours)
  && negb (bool_decide (id ∈ (list_to_set (fl_id <$> flags) : gset bytes))).

Definition reviewed (now : Z) (flags : list flag) (id : bytes) (r : stateRow) : stateRow :=
  if freezes now r then movedRow StateFrozen (transition_reason "freeze_repeat" now) now r
  else if clears now flags id r then movedRow StateOK (transition_reason "audit_cleared" now) now r
  else r.

Definition decided (now : Z) (t : RepTables) (id : bytes) : option stateRow :=
  reviewed now (flags_of now t) id <$> audited now (flags_of now t) id (rep_state t !! id).

(** ** The phases *)

Lemma collect_flags_ok now sigs s :
  rp_oracle s = [] →
  collect_flags cfg now sigs s = (Ok (concat (flags_for now (rp_tables s) <$> sigs)), s).
Proof.
  intros Ho. induction sigs as [|sig sigs IH]; [done|]. cbn [collect_flags fmap list_fmap concat].
  unfold gbind at 1. unfold signal_flags, flags_for, aggregateBySignal, populationSize.
  destruct (primaryWindow cfg now sig) as [from to].
  unfold gbind. rewrite !db_ok by done. cbn [tables gread gret fst snd].
  unfold tables, gread. rewrite db_ok by done. cbn [gret]. rewrite IH. by destruct (_ <? _).
Qed.

Definition flag_encodes (f : flag) : bool :=
  match fl_z f with S754_nan | S754_infinity _ => false | _ => true end.

Definition rows_encode (t : RepTables) : Prop :=
  ∀ id r, rep_state t !! id = Some r → row_encodes r = true.


(** Only rep_state changes. *)
Definition only_rows (s s' : RepSub) : Prop :=
  s' = set_tables (set_rep_state (λ _, rep_state (rp_tables s'))) s.

Lemma only_rows_refl s : only_rows s s.
Proof. by destruct s as [[] ????]. Qed.

Lemma only_rows_trans s1 s2 s3 : only_rows s1 s2 → only_rows s2 s3 → only_rows s1 s3.
Proof. unfold only_rows. intros H2 H3. rewrite H3, H2. by destruct s1 as [[] ????]. Qed.

Lemma only_rows_put i r s : only_rows s (put_row i r s).
Proof. by destruct s as [[] ????]. Qed.

Lemma only_rows_oracle s s' : only_rows s s' → rp_oracle s = [] → rp_oracle s' = [].
Proof. by intros ->. Qed.

Lemma first_flag_snoc i p f :
  first_flag i (p ++ [f]) =
    match first_flag i p with Some g => Some g | None => if decide (fl_id f = i) then Some f else None end.
Proof.
  unfold first_flag. induction p as [|g p IH]; cbn.
  - destruct (decide (fl_id f = i)); [by rewrite bool_decide_eq_true_2|by rewrite bool_decide_eq_false_2].
  - destruct (bool_decide (fl_id g = i)); [done|exact IH].
Qed.

Lemma audited_old now p f i o g : first_flag i p = Some g → audited now (p ++ [f]) i o = audited now p i o.
Proof. intros Hg. unfold audited. by rewrite first_flag_snoc, Hg. Qed.

Lemma audited_other now p f i o : fl_id f ≠ i → audited now (p ++ [f]) i o = audited now p i o.
Proof.
  intros Hi. unfold audited. rewrite first_flag_snoc, (decide_False (P := fl_id f = i)) by done.
  by destruct (first_flag i p).
Qed.

Lemma audited_new now p f o :
  first_flag (fl_id f) p = None →
  audited now (p ++ [f]) (fl_id f) o =
    match sw_State <$> o with
    | None | Some StateOK =>
        Some (movedRow StateAudit (zscore_reason f now) now (default (freshRow now) o))
    | _ => o
    end.
Proof. intros Hf. unfold audited. by rewrite first_flag_snoc, Hf, decide_True. Qed.

Lemma audited_none now p i o : first_flag i p = None → audited now p i o = o.
Proof. intros H. unfold audited. by rewrite H. Qed.

Definition ok_or_new (o : option stateRow) : Prop := sw_State <$> o = None ∨ sw_State <$> o = Some StateOK.

Lemma audited_moves now p i o g :
  first_flag i p = Some g → ok_or_new o → ∃ r, audited now p i o = Some r ∧ sw_State r = StateAudit.
Proof. intros H Ho. unfold audited. rewrite H. destruct Ho as [-> | ->]; by eexists. Qed.

(** One flag. *)
Lemma audit_one_ok (now : Z) (states : gmap bytes stateRow) (f : flag) (p : list flag) s :
  rp_oracle s = [] → (∀ (i : bytes) r, states !! i = Some r → row_encodes r = true) → flag_encodes f = true →
  (∀ i, rep_state (rp_tables s) !! i = audited now p i (states !! i)) →
  ∃ s', (match sw_State <$> states !! fl_id f with
         | None | Some StateOK =>
             swallow_invalid (transition (fl_id f) StateAudit (zscore_reason f now) now)
         | _ => gret tt end) s = (Ok tt, s') ∧ only_rows s s' ∧
        ∀ i, rep_state (rp_tables s') !! i = audited now (p ++ [f]) i (states !! i).
Proof.
  intros Ho He Hf Hp. destruct (first_flag (fl_id f) p) as [g|] eqn:Eg.
  - assert (∀ i, rep_state (rp_tables s) !! i = audited now (p ++ [f]) i (states !! i)) as Hp'.
    { intros i. rewrite Hp. destruct (decide (fl_id f = i)) as [<-|]; [by erewrite audited_old|].
      by rewrite audited_other. }
    exists s. split_and!; [|apply only_rows_refl|done].
    destruct (sw_State <$> states !! fl_id f) as [[]|] eqn:Es; try done; unfold swallow_invalid;
      (destruct (audited_moves now p (fl_id f) (states !! fl_id f) g Eg) as (r & Hr & Hs);
       [unfold ok_or_new; tauto|];
       rewrite (transition_refused _ _ _ _ _ r); [done|done|by rewrite Hp|by rewrite Hs]).
  - assert (rep_state (rp_tables s) !! fl_id f = states !! fl_id f) as Hsame
      by (rewrite Hp; by apply audited_none).
    assert (∀ r', audited now (p ++ [f]) (fl_id f) (states !! fl_id f) = Some r' → ∀ i,
      rep_state (rp_tables (put_row (fl_id f) r' s)) !! i = audited now (p ++ [f]) i (states !! i)) as Hput.
    { intros r' Hr' i. cbn. destruct (decide (fl_id f = i)) as [<-|]; [by rewrite lookup_insert_eq|].
      by rewrite lookup_insert_ne, audited_other, Hp by done. }
    pose proof (audited_new now p f (states !! fl_id f) Eg) as Hnew.
    assert (ok_or_new (states !! fl_id f) → ∃ s',
      swallow_invalid (transition (fl_id f) StateAudit (zscore_reason f now) now) s = (Ok tt, s') ∧ only_rows s s' ∧
      ∀ i, rep_state (rp_tables s') !! i = audited now (p ++ [f]) i (states !! i)) as Hmove.
    { intros Hok. exists (put_row (fl_id f) (movedRow StateAudit (zscore_reason f now) now
                             (default (freshRow now) (states !! fl_id f))) s).
      split_and!; [|apply only_rows_put|apply Hput; destruct Hok as [Hok|Hok]; by rewrite Hnew, Hok].
      unfold swallow_invalid. rewrite transition_ok, Hsame; try rewrite Hsame; try done.
      - destruct (states !! fl_id f) as [r|]; [|done]. destruct Hok as [[=]|[= Hs]]. cbn. by rewrite Hs.
      - destruct (states !! fl_id f) as [r|] eqn:Er; [|done]. by eapply He. }
    destruct (sw_State <$> states !! fl_id f) as [[]|] eqn:Es; [by apply Hmove; right| | |by apply Hmove; left];
      (exists s; split_and!; [done|apply only_rows_refl|]; intros i; rewrite Hp;
       destruct (decide (fl_id f = i)) as [<-|]; [by rewrite Hnew, audited_none|by rewrite audited_other]).
Qed.

Lemma audit_flagged_ok (now : Z) (states : gmap bytes stateRow) (flags : list flag) : ∀ p s,
  rp_oracle s = [] → (∀ (i : bytes) r, states !! i = Some r → row_encodes r = true) →
  forallb flag_encodes flags = true →
  (∀ i, rep_state (rp_tables s) !! i = audited now p i (states !! i)) →
  ∃ s', audit_flagged now states flags s = (Ok tt, s') ∧ only_rows s s' ∧
        ∀ i, rep_state (rp_tables s') !! i = audited now (p ++ flags) i (states !! i).
Proof.
  induction flags as [|f flags IH]; intros p s Ho He Hf Hp.
  - exists s. rewrite app_nil_r. split_and!; [done|apply only_rows_refl|done].
  - cbn in Hf. apply andb_true_iff in Hf as [Hf1 Hf2].
    destruct (audit_one_ok now states f p s Ho He Hf1 Hp) as (s1 & E1 & R1 & P1).
    cbn [audit_flagged]. unfold gbind at 1. rewrite E1.
    destruct (IH (p ++ [f]) s1 (only_rows_oracle _ _ R1 Ho) He Hf2 P1) as (s2 & E2 & R2 & P2).
    exists s2. rewrite <-(assoc_L (++)) in P2. split_and!; [done|by eapply only_rows_trans|done].
Qed.

(** *** The review *)

Definition freeze_call (now : Z) (kv : bytes * stateRow) : FreezeCall :=
  {| fz_id := kv.1; fz_reason := "freeze_repeat"; fz_revokedAt := now |}.

Definition freeze_calls (now : Z) (l : list (bytes * stateRow)) : list FreezeCall :=
  if has_listener then freeze_call now <$> List.filter (λ kv, freezes now kv.2) l else [].

(** Only rep_state and the listener's record change. *)
Definition reviewed_only (s s' : RepSub) : Prop :=
  rp_oracle s' = [] ∧ rep_events (rp_tables s') = rep_events (rp_tables s) ∧
  rp_cache s' = rp_cache s.

Lemma put_row_same i r s : rep_state (rp_tables s) !! i = Some r → put_row i r s = s.
Proof.
  intros H. destruct s as [[m l sc] o c cl n]. unfold put_row, set_tables, set_rep_state. cbn in *.
  by rewrite insert_id.
Qed.

Definition announce (now : Z) (i : bytes) (r : stateRow) (s : RepSub) : RepSub :=
  if freezes now r then notifyFreeze has_listener i "freeze_repeat" now s else s.

Lemma review_row_ok now flags i r s :
  rp_oracle s = [] → rep_state (rp_tables s) !! i = Some r → row_encodes r = true →
  review_row has_listener now (list_to_set (fl_id <$> flags)) s (i, r) =
  announce now i r (put_row i (reviewed now flags i r) s).
Proof.
  intros Ho Hr He. unfold review_row, announce, reviewed, freezes, clears.
  destruct (sw_State r) eqn:Es; try (by rewrite !put_row_same).
  rewrite !(bool_decide_eq_true_2 (StateAudit = StateAudit)) by done. destruct (recent_audits now (sw_Reasons r)) as [count last].
  cbn [fst snd]. rewrite !andb_true_l. destruct (3 <=? count).
  - rewrite transition_ok, Hr; rewrite ?Hr; cbn; try done. by rewrite Es.
  - destruct (_ && _); [|by rewrite put_row_same]. rewrite transition_ok, Hr; rewrite ?Hr; cbn; try done.
    by rewrite Es.
Qed.

Lemma announce_spec now i r s :
  rp_tables (announce now i r s) = rp_tables s ∧ rp_oracle (announce now i r s) = rp_oracle s ∧
  rp_cache (announce now i r s) = rp_cache s ∧
  rp_notified (announce now i r s) = rp_notified s ++ freeze_calls now [(i, r)].
Proof.
  unfold announce, freeze_calls, notifyFreeze. cbn. destruct (freezes now r), has_listener; cbn;
    rewrite ?app_nil_r; done.
Qed.

Lemma freeze_calls_app now l1 l2 : freeze_calls now (l1 ++ l2) = freeze_calls now l1 ++ freeze_calls now l2.
Proof. unfold freeze_calls. destruct has_listener; [|done]. by rewrite List.filter_app, fmap_app. Qed.

Lemma review_ok now flags (l : list (bytes * stateRow)) : ∀ s,
  rp_oracle s = [] → NoDup l.*1 →
  (∀ i r, (i, r) ∈ l → rep_state (rp_tables s) !! i = Some r ∧ row_encodes r = true) →
  let s' := foldl (review_row has_listener now (list_to_set (fl_id <$> flags))) s l in
  reviewed_only s s' ∧ rp_notified s' = rp_notified s ++ freeze_calls now l ∧
  (∀ i r, (i, r) ∈ l → rep_state (rp_tables s') !! i = Some (reviewed now flags i r)) ∧
  (∀ i, i ∉ l.*1 → rep_state (rp_tables s') !! i = rep_state (rp_tables s) !! i).
Proof.
  induction l as [|[i r] l IH]; intros s Ho Hn Hl; cbn [foldl].
  - split_and!; try done. + unfold freeze_calls. destruct has_listener; by rewrite app_nil_r.
    + intros i r Hi. by apply not_elem_of_nil in Hi.
  - cbn in Hn. apply NoDup_cons in Hn as [Hi Hn].
    destruct (Hl i r ltac:(left)) as [Hr He]. rewrite review_row_ok by done.
    set (s1 := announce now i r (put_row i (reviewed now flags i r) s)).
    destruct (announce_spec now i r (put_row i (reviewed now flags i r) s)) as (T1 & O1 & C1 & N1).
    fold s1 in T1, O1, C1, N1.
    assert (∀ j, j ≠ i → rep_state (rp_tables s1) !! j = rep_state (rp_tables s) !! j) as Hj.
    { intros j Hj. rewrite T1. cbn. by rewrite lookup_insert_ne. }
    destruct (IH s1) as ((O2 & E2 & C2) & N2 & L2 & M2).
    + by rewrite O1.
    + done.
    + intros j r' Hin. rewrite Hj; [apply Hl; by right|]. intros ->. apply Hi.
      apply list_elem_of_fmap. by exists (i, r').
    + split_and!.
      * split_and!; [done|by rewrite E2, T1|by rewrite C2, C1].
      * rewrite N2, N1. rewrite <-(assoc_L (++)). f_equal. by rewrite <-freeze_calls_app.
      * intros j r' [[= -> ->]|Hin]%elem_of_cons; [|by apply L2].
        rewrite M2, T1 by done. cbn. by rewrite lookup_insert_eq.
      * intros j Hin. apply not_elem_of_cons in Hin as [Hne Hin]. rewrite M2, Hj; done.
Qed.

(** *** The scores and the cache *)

Lemma Rep_clamp01_bounds x :
  SFltb (Rep_clamp01 x) f64_zero = false ∧ SFltb f64_one (Rep_clamp01 x) = false.
Proof.
  unfold Rep_clamp01. destruct (SFltb x f64_zero) eqn:E0; [done|].
  destruct (SFltb f64_one x) eqn:E1; [done|]. done.
Qed.

Lemma row_score_bounds now r :
  let x := row_score math_Log math_Exp now r in
  SFltb x f64_zero = false ∧ SFltb f64_one x = false.
Proof. unfold row_score, computeScore. apply Rep_clamp01_bounds. Qed.

#[local] Opaque row_score.

(** Only rep_scores and the oracle change. *)
Definition scores_only (s s' : RepSub) : Prop :=
  rp_oracle s' = [] ∧ rep_state (rp_tables s') = rep_state (rp_tables s) ∧
  rp_notified s' = rp_notified s.

Definition scored (now : Z) (r : stateRow) : cachedEntry :=
  cache_entry r (row_score math_Log math_Exp now r).

Lemma upsertScore_ok i sc s :
  rp_oracle s = [] →
  let '(r, s') := upsertScore i sc s in
  scores_only s s' ∧ (r = Ok tt → is_NaN sc = false).
Proof.
  intros Ho. unfold upsertScore, gbind. rewrite db_ok by done. destruct (is_NaN sc); cbn; split; try done.
Qed.

Lemma store_scores_ok now (l : list (bytes * stateRow)) : ∀ next s,
  rp_oracle s = [] → NoDup l.*1 →
  let '(r, s') := store_scores math_Log math_Exp now l next s in
  scores_only s s' ∧
  ∀ c, r = Ok c →
    (∀ i r, (i, r) ∈ l → c !! i = Some (scored now r) ∧ is_NaN (ce_Score (scored now r)) = false) ∧
    (∀ i, i ∉ l.*1 → c !! i = next !! i).
Proof.
  induction l as [|[i r] l IH]; intros next s Ho Hn; cbn [store_scores].
  - split; [done|]. intros c [= <-]. split; [|done]. intros ?? H. by apply not_elem_of_nil in H.
  - cbn in Hn. apply NoDup_cons in Hn as [Hi Hn]. unfold gbind at 1.
    pose proof (upsertScore_ok i (row_score math_Log math_Exp now r) s Ho) as H.
    destruct (upsertScore i (row_score math_Log math_Exp now r) s) as [[[]|e] s1];
      destruct H as [(O1 & T1 & N1) Hnan]; [|split; [by split_and!|intros c Hc; discriminate Hc]].
    pose proof (IH (<[i := cache_entry r (row_score math_Log math_Exp now r)]> next) s1 O1 Hn) as H2.
    destruct (store_scores _ _ now l _ s1) as [res s2]. destruct H2 as [(O2 & T2 & N2) Hc].
    split; [split_and!; [done|congruence|congruence]|]. intros c Ec. destruct (Hc c Ec) as [C1 C2]. split.
    + intros j r' [[= -> ->]|Hin]%elem_of_cons; [|by apply C1].
      rewrite C2 by done. rewrite lookup_insert_eq. split; [reflexivity|exact (Hnan eq_refl)].
    + intros j Hj. apply not_elem_of_cons in Hj as [Hne Hj]. rewrite C2, lookup_insert_ne by done. done.
Qed.

Lemma in_map_to_list (m : gmap bytes stateRow) i r : (i, r) ∈ map_to_list m ↔ m !! i = Some r.
Proof. apply elem_of_map_to_list. Qed.

Lemma not_in_keys (m : gmap bytes stateRow) i : i ∉ (map_to_list m).*1 ↔ m !! i = None.
Proof.
  rewrite list_elem_of_fmap. split.
  - intros H. destruct (m !! i) as [r|] eqn:E; [|done]. exfalso. apply H. exists (i, r).
    split; [done|by apply in_map_to_list].
  - intros H ([j r] & -> & Hj). apply in_map_to_list in Hj. cbn in H. congruence.
Qed.

(** The cache after a recomputation. *)
Definition cache_of (now : Z) (s : RepSub) : Prop :=
  (∀ i, rp_cache s !! i = scored now <$> rep_state (rp_tables s) !! i) ∧
  (∀ i e, rp_cache s !! i = Some e → is_NaN (ce_Score e) = false).

Lemma recompute_ok now s :
  rp_oracle s = [] →
  let '(r, s') := recomputeScoresAndPublish math_Log math_Exp now s in
  scores_only s s' ∧ (r = Ok tt → cache_of now s').
Proof.
  intros Ho. unfold recomputeScoresAndPublish, gbind. rewrite loadAllStates_ok by done.
  pose proof (store_scores_ok now (map_to_list (rep_state (rp_tables s))) ∅ s Ho (NoDup_fst_map_to_list _)) as H.
  destruct (store_scores _ _ _ _ _ s) as [[c|e] s1]; destruct H as [(O1 & T1 & N1) Hc];
    [|split; [done|intros Hr; discriminate Hr]].
  unfold publish. split; [done|]. intros _. destruct (Hc c eq_refl) as [C1 C2].
  assert (∀ i, c !! i = scored now <$> rep_state (rp_tables s) !! i) as Hall.
  { intros i. destruct (rep_state (rp_tables s) !! i) as [r|] eqn:E.
    - by apply C1, in_map_to_list.
    - rewrite C2; [done|]. by apply not_in_keys. }
  split; cbn; [by rewrite T1|]. intros i e Hi. rewrite Hall in Hi.
  destruct (rep_state (rp_tables s) !! i) as [r|] eqn:E; [|done]. injection Hi as <-.
  by apply (C1 i r), in_map_to_list.
Qed.

Lemma prune_ok c s :
  rp_oracle s = [] →
  let '(r, s') := pruneEventsBefore c s in
  r = Ok tt ∧ rep_state (rp_tables s') = rep_state (rp_tables s) ∧
  rp_notified s' = rp_notified s ∧ rp_cache s' = rp_cache s.
Proof. intros Ho. unfold pruneEventsBefore, gbind. by rewrite db_ok. Qed.

Lemma flags_same_rows now t m :
  flags_of now (set_rep_state m t) = flags_of now t.
Proof. done. Qed.

Lemma audited_encodes now flags i o r :
  (∀ r, o = Some r → row_encodes r = true) → forallb flag_encodes flags = true →
  audited now flags i o = Some r → row_encodes r = true.
Proof.
  intros Ho Hf. unfold audited. destruct (first_flag i flags) as [f|] eqn:E; [|apply Ho].
  assert (flag_encodes f = true) as Hfe.
  { apply List.find_some in E as [E _]. by eapply forallb_forall in Hf. }
  assert (∀ q, row_encodes q = true → row_encodes (movedRow StateAudit (zscore_reason f now) now q) = true) as Hm.
  { intros q Hq. unfold row_encodes in *. cbn. rewrite forallb_app, Hq. cbn.
    unfold reason_encodes, flag_encodes in *. cbn. by rewrite Hfe. }
  destruct o as [q|]; cbn.
  - destruct (sw_State q); intros [= <-]; auto.
  - intros [= <-]. by apply Hm.
Qed.

(** The state after the decisions of a cycle. *)
Definition decided_state (now : Z) (s s' : RepSub) : Prop :=
  rp_oracle s' = [] ∧
  (∀ i, rep_state (rp_tables s') !! i = decided now (rp_tables s) i) ∧
  (∀ c, c ∈ rp_notified s' ↔ c ∈ rp_notified s ∨
     has_listener = true ∧ ∃ i r, audited now (flags_of now (rp_tables s)) i (rep_state (rp_tables s) !! i) = Some r ∧
       freezes now r = true ∧ c = freeze_call now (i, r)).

Lemma elem_of_freeze_calls (now : Z) (m : gmap bytes stateRow) (c : FreezeCall) :
  c ∈ freeze_calls now (map_to_list m) ↔
  has_listener = true ∧ ∃ i r, m !! i = Some r ∧ freezes now r = true ∧ c = freeze_call now (i, r).
Proof.
  unfold freeze_calls. destruct has_listener; [|split; [intros H; by apply not_elem_of_nil in H|by intros [? _]]].
  rewrite list_elem_of_fmap. split.
  - intros ([i r] & -> & Hin). apply list_elem_of_In, filter_In in Hin as [Hin Hf].
    apply list_elem_of_In, in_map_to_list in Hin. split; [done|]. by exists i, r.
  - intros [_ (i & r & Hm & Hf & ->)]. exists (i, r). split; [done|].
    apply list_elem_of_In, filter_In. split; [|done]. by apply list_elem_of_In, in_map_to_list.
Qed.

Lemma decisions_ok now s :
  rp_oracle s = [] → rows_encode (rp_tables s) → forallb flag_encodes (flags_of now (rp_tables s)) = true →
  ∃ s1 s2,
    audit_flagged now (rep_state (rp_tables s)) (flags_of now (rp_tables s)) s = (Ok tt, s1) ∧
    rp_oracle s1 = [] ∧
    review has_listener now (list_to_set (fl_id <$> flags_of now (rp_tables s))) (rep_state (rp_tables s1)) s1 = (Ok tt, s2) ∧
    decided_state now s s2.
Proof.
  intros Ho He Hf. set (flags := flags_of now (rp_tables s)) in *.
  destruct (audit_flagged_ok now (rep_state (rp_tables s)) flags [] s Ho He Hf) as (s1 & E1 & R1 & P1);
    [done|]. cbn in P1.
  pose proof (only_rows_oracle _ _ R1 Ho) as O1.
  exists s1, (foldl (review_row has_listener now (list_to_set (fl_id <$> flags))) s1
                (map_to_list (rep_state (rp_tables s1)))).
  split_and!; [done|done|done|].
  destruct (review_ok now flags (map_to_list (rep_state (rp_tables s1))) s1 O1) as ((O2 & _ & _) & N2 & L2 & M2).
  - apply NoDup_fst_map_to_list.
  - intros i r Hi. apply in_map_to_list in Hi. split; [done|]. rewrite P1 in Hi.
    eapply audited_encodes; [|exact Hf|exact Hi]. intros q. apply He.
  - split_and!; [done| |].
    + intros i. unfold decided. fold flags. rewrite <-P1.
      destruct (rep_state (rp_tables s1) !! i) as [r|] eqn:E; cbn.
      * by apply L2, in_map_to_list.
      * rewrite M2; [done|]. by apply not_in_keys.
    + intros c. rewrite N2, elem_of_app, elem_of_freeze_calls.
      assert (rp_notified s1 = rp_notified s) as -> by (by rewrite R1).
      split; (intros [H|[Hl (i & r & H & Hc)]]; [by left|right; split; [done|exists i, r]]).
      * by rewrite <-P1.
      * by rewrite P1.
Qed.

End cycle.

(** ** Consequences *)

(** An audited identity whose audits are all seven days old stays audited: the cycle neither
    freezes nor clears it, however quiet it is. *)
Lemma recent_audits_none now reasons :
  Forall (λ r, isAudit r = true → time_Unix (rr_At r) <= now - sevenDays) reasons →
  recent_audits now reasons = (0, zeroTime).
Proof.
  unfold recent_audits. generalize (0, zeroTime). intros p H. revert p.
  induction H as [|r l Hr _ IH]; intros [c t]; [done|]. cbn [foldl]. rewrite IH.
  destruct (isAudit r); [|done]. cbn. rewrite (proj2 (Z.ltb_ge _ _)); [done|]. by apply Hr.
Qed.

Lemma old_audit_sticks cfg now t i r :
  rep_state t !! i = Some r → sw_State r = StateAudit →
  Forall (λ r, isAudit r = true → time_Unix (rr_At r) <= now - sevenDays) (sw_Reasons r) →
  decided cfg now t i = Some r.
Proof.
  intros Hr Hs Ha. unfold decided. rewrite Hr.
  assert (audited now (flags_of cfg now t) i (Some r) = Some r) as ->.
  { unfold audited. destruct (first_flag _ _); [|done]. cbn. by rewrite Hs. }
  cbn. unfold reviewed, freezes, clears. by rewrite (recent_audits_none now _ Ha), !andb_false_r.
Qed.

(** However long it is an outlier, an audited identity gets no further reason, so its one
    audit never counts to three. *)
Lemma outlier_keeps_one_reason cfg now t i r :
  rep_state t !! i = Some r → sw_State r = StateAudit →
  fst (recent_audits now (sw_Reasons r)) < 3 → i ∈ (fl_id <$> flags_of cfg now t) →
  decided cfg now t i = Some r.
Proof.
  intros Hr Hs Hc Hi. unfold decided. rewrite Hr.
  assert (audited now (flags_of cfg now t) i (Some r) = Some r) as ->.
  { unfold audited. destruct (first_flag _ _); [|done]. cbn. by rewrite Hs. }
  cbn. unfold reviewed, freezes, clears. rewrite (proj2 (Z.leb_gt _ _)) by lia.
  rewrite andb_false_r, (bool_decide_eq_true_2 (i ∈ _)), andb_false_r; [done|].
  by apply elem_of_list_to_set.
Qed.

(** ** Witnesses *)

Definition wr_cfg : ReputationConfig := {|
  rc_ShortS := 3600; rc_MediumS := 86400; rc_LongS := 604800; rc_ZScoreThreshold := f64_of_int 3;
  rc_DefaultScore := f64_half; rc_MinPopulationForZScore := 4 |}.

Definition wr_id (b : byte) : bytes := repeat b 32.
Definition wr_now : Z := 1714000000 * Second.

Definition wr_event (b : byte) : RepEvent := {|
  ev_identity_id := wr_id b; ev_role := RoleConsumer; ev_event_type := SignalBrokerRequest;
  ev_value := f64_one; ev_observed_at := 1713999000 |}.

(** Three ordinary consumers, and one with twenty requests and two earlier breaches. *)
Definition wr_tables : RepTables := {|
  rep_state := {[ wr_id Byte.x04 := {|
    sw_State := StateOK; sw_Since := 1713900000; sw_FirstSeenAt := 1713000000;
    sw_Reasons := [breach_reason BreachReplayConfirmedNonce (1713800000 * Second);
                   breach_reason BreachInvalidProofSignature (1713810000 * Second);
                   transition_reason "audit_cleared" (1713900000 * Second)] |} ]};
  rep_events := [wr_event Byte.x01] ++ repeat (wr_event Byte.x02) 2 ++ repeat (wr_event Byte.x03) 3
                ++ repeat (wr_event Byte.x04) 20;
  rep_scores := ∅ |}.

Definition wr_state : RepSub := {|
  rp_tables := wr_tables; rp_oracle := []; rp_cache := ∅; rp_closed := false; rp_notified := [] |}.

Definition wr_log (_ : spec_float) : spec_float := f64_one.
Definition wr_exp (_ : spec_float) : spec_float := f64_zero.
Definition wr_run : res RepErr unit * RepSub := runOneCycle wr_cfg wr_log wr_exp true wr_now wr_state.

Lemma wr_encode : rows_encode wr_tables.
Proof.
  intros i r Hr. unfold wr_tables in Hr. cbn [rep_state] in Hr.
  apply lookup_singleton_Some in Hr as [_ <-]. reflexivity.
Qed.


(** An operator's freeze that lands between the evaluator's reading of the rows and the end
    of its cycle is lost from the cache: the row is frozen and the broker is told otherwise,
    until the next cycle. *)
Definition wr_race : RepSub := {|
  rp_tables := wr_tables;
  rp_oracle := repeat ([], false) 17 ++
    [([WMove (wr_id Byte.x05) StateFrozen (manual_reason "admin" wr_now) wr_now], false)];
  rp_cache := ∅; rp_closed := false; rp_notified := [] |}.

Lemma freeze_lost_from_cache :
  let s' := snd (runOneCycle wr_cfg wr_log wr_exp true wr_now wr_race) in
  rp_oracle s' = [] ∧
  sw_State <$> rep_state (rp_tables s') !! wr_id Byte.x05 = Some StateFrozen ∧
  IsFrozen (wr_id Byte.x05) s' = false.
Proof. vm_compute. by split_and!. Qed.
