(* ===== verification/FreezeSpec.v ===== *)
(** A freeze across regions: the operator freezes an identity at one tracker (reputation), the
    revocation travels to another (federation), and both brokers refuse the identity. *)
From S2P Require Import Prelude Proto Float Signing Entry Storage Ledger Session Registry Credit FedProto.
From S2P Require Import Reputation ReputationSpec EvaluatorSpec Broker BrokerSpec.
From S2P Require Import LedgerSpec Transfer TransferSpec Gossip Handshake Federation FederationSpec.
From Stdlib Require Import Floats.SpecFloat.

(** ** The freeze *)

Section freeze.
Context (rcfg : ReputationConfig).

Lemma refreshOne_ok i s r :
  rp_oracle s = [] → rep_state (rp_tables s) !! i = Some r →
  ∃ sc, refreshOne rcfg i s = (Ok tt, set_cache (<[i := cache_entry r sc]> (rp_cache s)) s).
Proof.
  intros Ho Hr. unfold refreshOne, gbind. rewrite readState_ok, Hr by done.
  unfold scores_or_none, loadAllScores, gbind. rewrite db_ok by done. by eexists.
Qed.

(** The operator's freeze of an identity that is not frozen yet. *)
Lemma Freeze_ok i operator now s :
  let r := default (freshRow now) (rep_state (rp_tables s) !! i) in
  rp_oracle s = [] → rp_closed s = false → sw_State r ≠ StateFrozen → row_encodes r = true →
  ∃ s', Freeze rcfg true i operator now s = (Ok tt, s') ∧ IsFrozen i s' = true ∧
        rep_state (rp_tables s') !! i = Some (movedRow StateFrozen (manual_reason operator now) now r) ∧
        rp_notified s' = rp_notified s ++ [{| fz_id := i; fz_reason := "operator"; fz_revokedAt := now |}].
Proof.
  intros r Ho Hc Hf He. unfold Freeze, unless_closed. rewrite Hc. unfold gbind.
  assert (ensureState i now s = (Ok tt, set_tables (apply_write (WEnsure i now)) s)) as ->.
  { unfold ensureState, gbind. by rewrite db_ok. }
  set (s1 := set_tables (apply_write (WEnsure i now)) s).
  assert (rep_state (rp_tables s1) !! i = Some r) as Hr.
  { subst s1. unfold set_tables. cbn [rp_tables]. rewrite ensure_eq. cbn. by rewrite lookup_insert_eq. }
  rewrite transition_ok, Hr; rewrite ?Hr; cbn [default from_option]; unfold Datatypes.id; try done.
  2: { unfold canTransition. destruct (sw_State r); try done. }
  set (s2 := put_row i _ s1).
  destruct (refreshOne_ok i s2 (movedRow StateFrozen (manual_reason operator now) now r)) as [sc ->];
    [done|subst s2; cbn; by rewrite lookup_insert_eq|].
  eexists. split; [reflexivity|]. unfold IsFrozen. cbn. rewrite !lookup_insert_eq. by split_and!.
Qed.
End freeze.

(** ** The brokers *)

Lemma Submit_frozen `{Crypto} `{Wire} cfg pricing ttl isFrozen archive reqID atts now body b :
  isFrozen (copy32 (env_ConsumerId body)) = true →
  Submit cfg pricing ttl isFrozen archive reqID atts now (Some (Some body)) b = (Err ErrIdentityFrozen, b).
Proof. intros Hf. unfold Submit, checkFrozen. by rewrite Hf. Qed.

Lemma Submit_revoked `{Crypto} `{Wire} cfg pricing ttl isFrozen io reqID atts now body b :
  IsIdentityRevoked io (copy32 (env_ConsumerId body)) (w_store b) = Ok true →
  Submit cfg pricing ttl isFrozen (Some io) reqID atts now (Some (Some body)) b = (Err ErrIdentityFrozen, b).
Proof. intros Hf. unfold Submit, checkFrozen. rewrite Hf. by destruct (isFrozen _). Qed.

(** ** Both together *)

Section across.
Context `{CryptoLaws} `{Wire} `{FedWireLaws}.

(** The listener is the federation subsystem: it is told of the freezes that [s'] adds. *)
Definition deliver (cfg : FedConfig) (deps : FedDeps HookState) Link (now : Z) (s s' : RepSub)
    (f : Federation HookState) : Federation HookState :=
  foldl (λ f c, OnFreeze cfg deps Link now (fz_id c) (fz_reason c) (fz_revokedAt c) f) f
        (drop (length (rp_notified s)) (rp_notified s')).

End across.

(** ** Witness *)

Section freeze_witness.
#[local] Existing Instances ToyCrypto ToyCryptoLaws ToyWire ToyFedWire ToyFedWireLaws.

Definition wz_id : bytes := w_id Byte.x09.
Definition wz_rep : RepSub := {|
  rp_tables := empty_tables; rp_oracle := []; rp_cache := ∅; rp_closed := false; rp_notified := [] |}.
Definition wz_unsigned : Revocation :=
  unsigned_revocation (wf_cfg Byte.x01 []) wz_id "operator" Second.
Definition wz_cb : bytes := default [] (CanonicalRevocationPreSig wz_unsigned).
Definition wz_payload : bytes :=
  default [] (Marshal (sign_revocation (wf_cfg Byte.x01 []) wz_cb wz_unsigned)).
Definition wz_frame (b : byte) : bytes :=
  match sealed (wf_cfg b []) KIND_REVOCATION wz_payload with Ok fr => fr | Err _ => [] end.

(** Tracker 1 freezes identity 9; tracker 2 has read its frame. *)
Definition wz_frozen : RepSub := snd (Freeze wr_cfg true wz_id "admin" Second wz_rep).
Definition wz_fed : Federation HookState :=
  recv_turn (wf_cfg Byte.x02 [Byte.x01]) wf_deps wf_pub wf_link (3 * Second) 1 (w_id Byte.x01)
    (wz_frame Byte.x01) (wf_fed Byte.x02 [Byte.x01] {[w_id Byte.x03 := 3%nat]}).

(** A request of the frozen identity, which would be placed otherwise. *)
Definition wz_body : EnvelopeBody := {|
  env_ProtocolVersion := 1; env_ConsumerId := wz_id; env_Model := "claude-sonnet-4-6";
  env_MaxInputTokens := 100; env_MaxOutputTokens := 20; env_Tier := PRIVACY_TIER_STANDARD;
  env_BodyHash := zero_bytes 32; env_ExhaustionProof := None;
  env_BalanceProof := env_BalanceProof (witness_env 100 20);
  env_CapturedAt := 1; env_Nonce := zero_bytes 16; env_ConsumerEphemeralPub := [] |}.

Definition wz_submit (isFrozen : bytes → bool) (b : BState) : res BErr Result * BState :=
  Submit witness_config DefaultPriceTable 600 isFrozen (Some no_faults) (Some (replicate 16 Byte.x01))
    witness_atts 4 (Some (Some wz_body)) b.

Definition wz_broker (st : Store) : BState := {|
  w_reg := w_reg witness_broker; w_mgr := w_mgr witness_broker; w_store := st; w_pending := ∅ |}.

Lemma wz_submit_otherwise :
  (if fst (wz_submit (λ _, false) witness_broker) is Ok (OutcomeAdmit _) then true else false) = true.
Proof. vm_compute. reflexivity. Qed.

End freeze_witness.
