(* ===== verification/Config.v ===== *)
(** tracker/internal/config: the configuration of the tracker, its defaults, and the rules a
    configuration is checked by before anything starts.

    A section is a Module with the fields of its struct, which keep their Go names. YAML
    decoding is a library's: a configuration is what [Parse] decoded. The file system
    ([os.Stat] in one rule) and the rendering of floats in error texts ([ftoa]) are
    parameters. *)
From S2P Require Import Prelude Proto Float.
From stdpp Require Import pretty.
From Stdlib Require Import Floats.SpecFloat Strings.Ascii.

#[local] Open Scope Z_scope.

(** ** The sections *)

Module Server.
Record Config := {
  ListenAddr : string; IdentityKeyPath : string; TLSCertPath : string; TLSKeyPath : string;
  MaxFrameSize : Z; IdleTimeoutS : Z; MaxIncomingStreams : Z; ShutdownGraceS : Z
}.
End Server.

Module Admin.
Record Config := { ListenAddr : string }.
End Admin.

Module LedgerSection.
Record Config := { StoragePath : string; MerkleRootIntervalMin : Z }.
End LedgerSection.

Module BrokerSection.
Record ScoreWeights := {
  Reputation : spec_float; Headroom : spec_float; RTT : spec_float; Load : spec_float
}.
Record Config := {
  HeadroomThreshold : spec_float; LoadThreshold : Z; Weights : ScoreWeights;
  OfferTimeoutMs : Z; MaxOfferAttempts : Z; BrokerRequestRatePerSec : spec_float;
  QueueDrainIntervalMs : Z; InflightTerminalTTLS : Z
}.
End BrokerSection.

Module SettlementSection.
Record Config := {
  TunnelSetupMs : Z; StreamIdleS : Z; SettlementTimeoutS : Z; ReservationTTLS : Z;
  StaleTipRetries : Z
}.
End SettlementSection.

Module FederationSection.
Record RateLimitConfig := {
  RootAttestationPerSec : spec_float; RevocationPerSec : spec_float;
  PeerExchangePerSec : spec_float; EquivocationEvidencePerSec : spec_float;
  TransferPerSec : spec_float
}.
Record BootstrapConfig := { MaxPeers : Z; TTLSeconds : Z }.
Record HealthConfig := {
  UptimeWindowS : Z; RevGossipWindowS : Z; RevGossipBufferSize : Z; LatencyTargetMs : Z;
  UptimeWeight : spec_float; RevGossipWeight : spec_float; LatencyWeight : spec_float
}.
Record FederationPeer := { TrackerID : string; PubKey : string; Addr : string; Region : string }.
Record Config := {
  PeerCountMin : Z; PeerCountMax : Z; GossipDedupeTTLS : Z; TransferRetryWindowH : Z;
  EnrollRatePerMinPerIP : Z; HandshakeTimeoutS : Z; GossipRateQPS : Z; SendQueueDepth : Z;
  PublishCadenceS : Z; ListenAddr : string; IdleTimeoutS : Z; RedialBaseS : Z; RedialMaxS : Z;
  Peers : list FederationPeer; Bootstrap : BootstrapConfig; Health : HealthConfig;
  PeerExchangeCadenceS : Z; RateLimit : RateLimitConfig;
  IntegrityCheckOnReconnect : option bool
}.
End FederationSection.

Module ReputationSection.
Record SignalWindows := { ShortS : Z; MediumS : Z; LongS : Z }.
Record Config := {
  EvaluationIntervalS : Z; Windows : SignalWindows; ZScoreThreshold : spec_float;
  DefaultScore : spec_float; FreezeListCacheTTLS : Z; MinPopulationForZScore : Z;
  StoragePath : string
}.
End ReputationSection.

Module AdmissionSection.
Record ScoreWeights := {
  SettlementReliability : spec_float; InverseDisputeRate : spec_float; Tenure : spec_float;
  NetCreditFlow : spec_float; BalanceCushion : spec_float
}.
Record Config := {
  PressureAdmitThreshold : spec_float; PressureRejectThreshold : spec_float; QueueCap : Z;
  TrialTierScore : spec_float; AgingAlphaPerMinute : spec_float; QueueTimeoutS : Z;
  Weights : ScoreWeights;
  NetFlowNormalizationConstant : Z; TenureCapDays : Z; StarterGrantCredits : Z;
  RollingWindowDays : Z; TrialSettlementsRequired : Z; TrialDurationHours : Z;
  AttestationTTLSeconds : Z; AttestationMaxTTLSeconds : Z;
  AttestationIssuancePerConsumerPerHour : Z; MaxAttestationScoreImported : spec_float;
  TLogPath : string; SnapshotPathPrefix : string; SnapshotIntervalS : Z; SnapshotsRetained : Z;
  FsyncBatchWindowMs : Z; HeartbeatWindowMinutes : Z; HeartbeatFreshnessDecayMaxS : Z;
  AttestationPeerBlocklist : list string
}.
End AdmissionSection.

Module STUNTURN.
Record Config := {
  STUNListenAddr : string; TURNListenAddr : string; TURNRelayMaxKbps : Z; SessionTTLSeconds : Z
}.
End STUNTURN.

Module Metrics.
Record Config := { ListenAddr : string }.
End Metrics.

Module Pricing.
Record ModelPriceConfig := { InCreditsPerToken : Z; OutCreditsPerToken : Z }.
Record Config := { Models : gmap string ModelPriceConfig }.
End Pricing.

Record Config := {
  cDataDir : string; cLogLevel : string; cServer : Server.Config; cAdmin : Admin.Config;
  cLedger : LedgerSection.Config; cBroker : BrokerSection.Config;
  cSettlement : SettlementSection.Config; cFederation : FederationSection.Config;
  cReputation : ReputationSection.Config; cAdmission : AdmissionSection.Config;
  cSTUNTURN : STUNTURN.Config; cMetrics : Metrics.Config; cPricing : Pricing.Config
}.

(** ** The defaults *)

(** A decimal literal: [n] over a power of ten, rounded once. *)
Definition decimal (n d : Z) : spec_float := f64_div (f64_of_int n) (f64_of_int d).

Definition default_rate_limit : FederationSection.RateLimitConfig := {|
  FederationSection.RootAttestationPerSec := f64_of_int 1;
  FederationSection.RevocationPerSec := f64_of_int 5;
  FederationSection.PeerExchangePerSec := decimal 5 100;
  FederationSection.EquivocationEvidencePerSec := f64_of_int 1;
  FederationSection.TransferPerSec := f64_of_int 20 |}.

Definition default_federation : FederationSection.Config := {|
  FederationSection.PeerCountMin := 8; FederationSection.PeerCountMax := 16;
  FederationSection.GossipDedupeTTLS := 3600; FederationSection.TransferRetryWindowH := 24;
  FederationSection.EnrollRatePerMinPerIP := 1; FederationSection.HandshakeTimeoutS := 5;
  FederationSection.GossipRateQPS := 100; FederationSection.SendQueueDepth := 256;
  FederationSection.PublishCadenceS := 3600; FederationSection.ListenAddr := "";
  FederationSection.IdleTimeoutS := 60; FederationSection.RedialBaseS := 1;
  FederationSection.RedialMaxS := 30; FederationSection.Peers := [];
  FederationSection.Bootstrap :=
    {| FederationSection.MaxPeers := 50; FederationSection.TTLSeconds := 600 |};
  FederationSection.Health := {|
    FederationSection.UptimeWindowS := 7200; FederationSection.RevGossipWindowS := 600;
    FederationSection.RevGossipBufferSize := 16; FederationSection.LatencyTargetMs := 200;
    FederationSection.UptimeWeight := decimal 6 10;
    FederationSection.RevGossipWeight := decimal 2 10;
    FederationSection.LatencyWeight := decimal 2 10 |};
  FederationSection.PeerExchangeCadenceS := 3600;
  FederationSection.RateLimit := default_rate_limit;
  FederationSection.IntegrityCheckOnReconnect := Some true |}.

Definition default_admission : AdmissionSection.Config := {|
  AdmissionSection.PressureAdmitThreshold := decimal 85 100;
  AdmissionSection.PressureRejectThreshold := decimal 15 10;
  AdmissionSection.QueueCap := 512;
  AdmissionSection.TrialTierScore := decimal 4 10;
  AdmissionSection.AgingAlphaPerMinute := decimal 5 100;
  AdmissionSection.QueueTimeoutS := 300;
  AdmissionSection.Weights := {|
    AdmissionSection.SettlementReliability := decimal 30 100;
    AdmissionSection.InverseDisputeRate := decimal 10 100;
    AdmissionSection.Tenure := decimal 20 100;
    AdmissionSection.NetCreditFlow := decimal 30 100;
    AdmissionSection.BalanceCushion := decimal 10 100 |};
  AdmissionSection.NetFlowNormalizationConstant := 10000;
  AdmissionSection.TenureCapDays := 30;
  AdmissionSection.StarterGrantCredits := 1000;
  AdmissionSection.RollingWindowDays := 30;
  AdmissionSection.TrialSettlementsRequired := 50;
  AdmissionSection.TrialDurationHours := 72;
  AdmissionSection.AttestationTTLSeconds := 86400;
  AdmissionSection.AttestationMaxTTLSeconds := 604800;
  AdmissionSection.AttestationIssuancePerConsumerPerHour := 6;
  AdmissionSection.MaxAttestationScoreImported := decimal 95 100;
  AdmissionSection.TLogPath := ""; AdmissionSection.SnapshotPathPrefix := "";
  AdmissionSection.SnapshotIntervalS := 600; AdmissionSection.SnapshotsRetained := 3;
  AdmissionSection.FsyncBatchWindowMs := 5; AdmissionSection.HeartbeatWindowMinutes := 10;
  AdmissionSection.HeartbeatFreshnessDecayMaxS := 300;
  AdmissionSection.AttestationPeerBlocklist := [] |}.

Definition default_broker : BrokerSection.Config := {|
  BrokerSection.HeadroomThreshold := decimal 2 10; BrokerSection.LoadThreshold := 5;
  BrokerSection.Weights := {|
    BrokerSection.Reputation := decimal 4 10; BrokerSection.Headroom := decimal 3 10;
    BrokerSection.RTT := decimal 2 10; BrokerSection.Load := decimal 1 10 |};
  BrokerSection.OfferTimeoutMs := 1500; BrokerSection.MaxOfferAttempts := 4;
  BrokerSection.BrokerRequestRatePerSec := f64_of_int 2;
  BrokerSection.QueueDrainIntervalMs := 1000; BrokerSection.InflightTerminalTTLS := 600 |}.

Definition default_pricing : Pricing.Config := {|
  Pricing.Models :=
    <["claude-opus-4-7" :=
        {| Pricing.InCreditsPerToken := 15; Pricing.OutCreditsPerToken := 75 |}]>
    (<["claude-sonnet-4-6" :=
        {| Pricing.InCreditsPerToken := 3; Pricing.OutCreditsPerToken := 15 |}]>
    (<["claude-haiku-4-5-20251001" :=
        {| Pricing.InCreditsPerToken := 1; Pricing.OutCreditsPerToken := 5 |}]> ∅)) |}.

Definition DefaultConfig : Config := {|
  cDataDir := ""; cLogLevel := "info";
  cServer := {|
    Server.ListenAddr := ""; Server.IdentityKeyPath := ""; Server.TLSCertPath := "";
    Server.TLSKeyPath := ""; Server.MaxFrameSize := 1048576; Server.IdleTimeoutS := 60;
    Server.MaxIncomingStreams := 1024; Server.ShutdownGraceS := 30 |};
  cAdmin := {| Admin.ListenAddr := "127.0.0.1:9090" |};
  cLedger := {| LedgerSection.StoragePath := ""; LedgerSection.MerkleRootIntervalMin := 60 |};
  cBroker := default_broker;
  cSettlement := {|
    SettlementSection.TunnelSetupMs := 10000; SettlementSection.StreamIdleS := 60;
    SettlementSection.SettlementTimeoutS := 900; SettlementSection.ReservationTTLS := 1200;
    SettlementSection.StaleTipRetries := 3 |};
  cFederation := default_federation;
  cReputation := {|
    ReputationSection.EvaluationIntervalS := 60;
    ReputationSection.Windows := {|
      ReputationSection.ShortS := 3600; ReputationSection.MediumS := 86400;
      ReputationSection.LongS := 604800 |};
    ReputationSection.ZScoreThreshold := decimal 25 10;
    ReputationSection.DefaultScore := decimal 5 10;
    ReputationSection.FreezeListCacheTTLS := 600;
    ReputationSection.MinPopulationForZScore := 100;
    ReputationSection.StoragePath := "" |};
  cAdmission := default_admission;
  cSTUNTURN := {|
    STUNTURN.STUNListenAddr := ":3478"; STUNTURN.TURNListenAddr := ":3479";
    STUNTURN.TURNRelayMaxKbps := 1024; STUNTURN.SessionTTLSeconds := 30 |};
  cMetrics := {| Metrics.ListenAddr := ":9100" |};
  cPricing := default_pricing |}.

(** ** ApplyDefaults *)

(** [if x == 0 { x = d }], for an int, a float (both zeros are 0) and a string. *)
Definition fill (x d : Z) : Z := if x =? 0 then d else x.
Definition is_zero (x : spec_float) : bool := SFeqb x f64_zero.
Definition fillf (x d : spec_float) : spec_float := if is_zero x then d else x.
Definition fills (x d : string) : string := if bool_decide (x = "") then d else x.

Definition defaults_server (c : Server.Config) : Server.Config :=
  let d := cServer DefaultConfig in {|
  Server.ListenAddr := Server.ListenAddr c; Server.IdentityKeyPath := Server.IdentityKeyPath c;
  Server.TLSCertPath := Server.TLSCertPath c; Server.TLSKeyPath := Server.TLSKeyPath c;
  Server.MaxFrameSize := fill (Server.MaxFrameSize c) (Server.MaxFrameSize d);
  Server.IdleTimeoutS := fill (Server.IdleTimeoutS c) (Server.IdleTimeoutS d);
  Server.MaxIncomingStreams := fill (Server.MaxIncomingStreams c) (Server.MaxIncomingStreams d);
  Server.ShutdownGraceS := fill (Server.ShutdownGraceS c) (Server.ShutdownGraceS d) |}.

Definition defaults_broker (c : BrokerSection.Config) : BrokerSection.Config :=
  let d := cBroker DefaultConfig in
  let bw := BrokerSection.Weights c in {|
  BrokerSection.HeadroomThreshold :=
    fillf (BrokerSection.HeadroomThreshold c) (BrokerSection.HeadroomThreshold d);
  BrokerSection.LoadThreshold := fill (BrokerSection.LoadThreshold c) (BrokerSection.LoadThreshold d);
  BrokerSection.Weights :=
    if is_zero (BrokerSection.Reputation bw) && is_zero (BrokerSection.Headroom bw)
       && is_zero (BrokerSection.RTT bw) && is_zero (BrokerSection.Load bw)
    then BrokerSection.Weights d else bw;
  BrokerSection.OfferTimeoutMs :=
    fill (BrokerSection.OfferTimeoutMs c) (BrokerSection.OfferTimeoutMs d);
  BrokerSection.MaxOfferAttempts :=
    fill (BrokerSection.MaxOfferAttempts c) (BrokerSection.MaxOfferAttempts d);
  BrokerSection.BrokerRequestRatePerSec :=
    fillf (BrokerSection.BrokerRequestRatePerSec c) (BrokerSection.BrokerRequestRatePerSec d);
  BrokerSection.QueueDrainIntervalMs :=
    fill (BrokerSection.QueueDrainIntervalMs c) (BrokerSection.QueueDrainIntervalMs d);
  BrokerSection.InflightTerminalTTLS :=
    fill (BrokerSection.InflightTerminalTTLS c) (BrokerSection.InflightTerminalTTLS d) |}.

Definition defaults_settlement (c : SettlementSection.Config) : SettlementSection.Config :=
  let d := cSettlement DefaultConfig in {|
  SettlementSection.TunnelSetupMs :=
    fill (SettlementSection.TunnelSetupMs c) (SettlementSection.TunnelSetupMs d);
  SettlementSection.StreamIdleS :=
    fill (SettlementSection.StreamIdleS c) (SettlementSection.StreamIdleS d);
  SettlementSection.SettlementTimeoutS :=
    fill (SettlementSection.SettlementTimeoutS c) (SettlementSection.SettlementTimeoutS d);
  SettlementSection.ReservationTTLS :=
    fill (SettlementSection.ReservationTTLS c) (SettlementSection.ReservationTTLS d);
  SettlementSection.StaleTipRetries :=
    fill (SettlementSection.StaleTipRetries c) (SettlementSection.StaleTipRetries d) |}.

Definition defaults_health (c : FederationSection.HealthConfig) : FederationSection.HealthConfig :=
  let d := FederationSection.Health default_federation in
  let unset := is_zero (FederationSection.UptimeWeight c)
    && is_zero (FederationSection.RevGossipWeight c) && is_zero (FederationSection.LatencyWeight c) in {|
  FederationSection.UptimeWindowS :=
    fill (FederationSection.UptimeWindowS c) (FederationSection.UptimeWindowS d);
  FederationSection.RevGossipWindowS :=
    fill (FederationSection.RevGossipWindowS c) (FederationSection.RevGossipWindowS d);
  FederationSection.RevGossipBufferSize :=
    fill (FederationSection.RevGossipBufferSize c) (FederationSection.RevGossipBufferSize d);
  FederationSection.LatencyTargetMs :=
    fill (FederationSection.LatencyTargetMs c) (FederationSection.LatencyTargetMs d);
  FederationSection.UptimeWeight :=
    if unset then FederationSection.UptimeWeight d else FederationSection.UptimeWeight c;
  FederationSection.RevGossipWeight :=
    if unset then FederationSection.RevGossipWeight d else FederationSection.RevGossipWeight c;
  FederationSection.LatencyWeight :=
    if unset then FederationSection.LatencyWeight d else FederationSection.LatencyWeight c |}.

Definition defaults_rate_limit (c : FederationSection.RateLimitConfig)
    : FederationSection.RateLimitConfig :=
  if is_zero (FederationSection.RootAttestationPerSec c)
     && is_zero (FederationSection.RevocationPerSec c)
     && is_zero (FederationSection.PeerExchangePerSec c)
     && is_zero (FederationSection.EquivocationEvidencePerSec c)
     && is_zero (FederationSection.TransferPerSec c)
  then default_rate_limit else c.

Definition defaults_federation (c : FederationSection.Config) : FederationSection.Config :=
  let d := default_federation in
  let b := FederationSection.Bootstrap c in let db := FederationSection.Bootstrap d in {|
  FederationSection.PeerCountMin :=
    fill (FederationSection.PeerCountMin c) (FederationSection.PeerCountMin d);
  FederationSection.PeerCountMax :=
    fill (FederationSection.PeerCountMax c) (FederationSection.PeerCountMax d);
  FederationSection.GossipDedupeTTLS :=
    fill (FederationSection.GossipDedupeTTLS c) (FederationSection.GossipDedupeTTLS d);
  FederationSection.TransferRetryWindowH :=
    fill (FederationSection.TransferRetryWindowH c) (FederationSection.TransferRetryWindowH d);
  FederationSection.EnrollRatePerMinPerIP :=
    fill (FederationSection.EnrollRatePerMinPerIP c) (FederationSection.EnrollRatePerMinPerIP d);
  FederationSection.HandshakeTimeoutS :=
    fill (FederationSection.HandshakeTimeoutS c) (FederationSection.HandshakeTimeoutS d);
  FederationSection.GossipRateQPS :=
    fill (FederationSection.GossipRateQPS c) (FederationSection.GossipRateQPS d);
  FederationSection.SendQueueDepth :=
    fill (FederationSection.SendQueueDepth c) (FederationSection.SendQueueDepth d);
  FederationSection.PublishCadenceS :=
    fill (FederationSection.PublishCadenceS c) (FederationSection.PublishCadenceS d);
  FederationSection.ListenAddr := FederationSection.ListenAddr c;
  FederationSection.IdleTimeoutS :=
    fill (FederationSection.IdleTimeoutS c) (FederationSection.IdleTimeoutS d);
  FederationSection.RedialBaseS :=
    fill (FederationSection.RedialBaseS c) (FederationSection.RedialBaseS d);
  FederationSection.RedialMaxS :=
    fill (FederationSection.RedialMaxS c) (FederationSection.RedialMaxS d);
  FederationSection.Peers := FederationSection.Peers c;
  FederationSection.Bootstrap := {|
    FederationSection.MaxPeers := fill (FederationSection.MaxPeers b) (FederationSection.MaxPeers db);
    FederationSection.TTLSeconds :=
      fill (FederationSection.TTLSeconds b) (FederationSection.TTLSeconds db) |};
  FederationSection.Health := defaults_health (FederationSection.Health c);
  FederationSection.PeerExchangeCadenceS :=
    fill (FederationSection.PeerExchangeCadenceS c) (FederationSection.PeerExchangeCadenceS d);
  FederationSection.RateLimit := defaults_rate_limit (FederationSection.RateLimit c);
  FederationSection.IntegrityCheckOnReconnect :=
    match FederationSection.IntegrityCheckOnReconnect c with None => Some true | v => v end |}.

Definition defaults_reputation (dataDir : string) (c : ReputationSection.Config)
    : ReputationSection.Config :=
  let d := cReputation DefaultConfig in
  let w := ReputationSection.Windows c in let dw := ReputationSection.Windows d in {|
  ReputationSection.EvaluationIntervalS :=
    fill (ReputationSection.EvaluationIntervalS c) (ReputationSection.EvaluationIntervalS d);
  ReputationSection.Windows := {|
    ReputationSection.ShortS := fill (ReputationSection.ShortS w) (ReputationSection.ShortS dw);
    ReputationSection.MediumS := fill (ReputationSection.MediumS w) (ReputationSection.MediumS dw);
    ReputationSection.LongS := fill (ReputationSection.LongS w) (ReputationSection.LongS dw) |};
  ReputationSection.ZScoreThreshold :=
    fillf (ReputationSection.ZScoreThreshold c) (ReputationSection.ZScoreThreshold d);
  ReputationSection.DefaultScore :=
    fillf (ReputationSection.DefaultScore c) (ReputationSection.DefaultScore d);
  ReputationSection.FreezeListCacheTTLS :=
    fill (ReputationSection.FreezeListCacheTTLS c) (ReputationSection.FreezeListCacheTTLS d);
  ReputationSection.MinPopulationForZScore :=
    fill (ReputationSection.MinPopulationForZScore c) (ReputationSection.MinPopulationForZScore d);
  ReputationSection.StoragePath :=
    if bool_decide (ReputationSection.StoragePath c = "") && negb (bool_decide (dataDir = ""))
    then dataDir +:+ "/reputation.sqlite" else ReputationSection.StoragePath c |}.

Definition defaults_admission (dataDir : string) (c : AdmissionSection.Config)
    : AdmissionSection.Config :=
  let d := default_admission in
  let asw := AdmissionSection.Weights c in
  let derived suffix p :=
    if bool_decide (p = "") && negb (bool_decide (dataDir = "")) then dataDir +:+ suffix else p in {|
  AdmissionSection.PressureAdmitThreshold :=
    fillf (AdmissionSection.PressureAdmitThreshold c) (AdmissionSection.PressureAdmitThreshold d);
  AdmissionSection.PressureRejectThreshold :=
    fillf (AdmissionSection.PressureRejectThreshold c) (AdmissionSection.PressureRejectThreshold d);
  AdmissionSection.QueueCap := fill (AdmissionSection.QueueCap c) (AdmissionSection.QueueCap d);
  AdmissionSection.TrialTierScore :=
    fillf (AdmissionSection.TrialTierScore c) (AdmissionSection.TrialTierScore d);
  AdmissionSection.AgingAlphaPerMinute :=
    fillf (AdmissionSection.AgingAlphaPerMinute c) (AdmissionSection.AgingAlphaPerMinute d);
  AdmissionSection.QueueTimeoutS :=
    fill (AdmissionSection.QueueTimeoutS c) (AdmissionSection.QueueTimeoutS d);
  AdmissionSection.Weights :=
    if is_zero (AdmissionSection.SettlementReliability asw)
       && is_zero (AdmissionSection.InverseDisputeRate asw)
       && is_zero (AdmissionSection.Tenure asw) && is_zero (AdmissionSection.NetCreditFlow asw)
       && is_zero (AdmissionSection.BalanceCushion asw)
    then AdmissionSection.Weights d else asw;
  AdmissionSection.NetFlowNormalizationConstant :=
    fill (AdmissionSection.NetFlowNormalizationConstant c)
         (AdmissionSection.NetFlowNormalizationConstant d);
  AdmissionSection.TenureCapDays :=
    fill (AdmissionSection.TenureCapDays c) (AdmissionSection.TenureCapDays d);
  AdmissionSection.StarterGrantCredits :=
    fill (AdmissionSection.StarterGrantCredits c) (AdmissionSection.StarterGrantCredits d);
  AdmissionSection.RollingWindowDays :=
    fill (AdmissionSection.RollingWindowDays c) (AdmissionSection.RollingWindowDays d);
  AdmissionSection.TrialSettlementsRequired :=
    fill (AdmissionSection.TrialSettlementsRequired c) (AdmissionSection.TrialSettlementsRequired d);
  AdmissionSection.TrialDurationHours :=
    fill (AdmissionSection.TrialDurationHours c) (AdmissionSection.TrialDurationHours d);
  AdmissionSection.AttestationTTLSeconds :=
    fill (AdmissionSection.AttestationTTLSeconds c) (AdmissionSection.AttestationTTLSeconds d);
  AdmissionSection.AttestationMaxTTLSeconds :=
    fill (AdmissionSection.AttestationMaxTTLSeconds c) (AdmissionSection.AttestationMaxTTLSeconds d);
  AdmissionSection.AttestationIssuancePerConsumerPerHour :=
    fill (AdmissionSection.AttestationIssuancePerConsumerPerHour c)
         (AdmissionSection.AttestationIssuancePerConsumerPerHour d);
  AdmissionSection.MaxAttestationScoreImported :=
    fillf (AdmissionSection.MaxAttestationScoreImported c)
          (AdmissionSection.MaxAttestationScoreImported d);
  AdmissionSection.TLogPath := derived "/admission.tlog" (AdmissionSection.TLogPath c);
  AdmissionSection.SnapshotPathPrefix :=
    derived "/admission.snapshot" (AdmissionSection.SnapshotPathPrefix c);
  AdmissionSection.SnapshotIntervalS :=
    fill (AdmissionSection.SnapshotIntervalS c) (AdmissionSection.SnapshotIntervalS d);
  AdmissionSection.SnapshotsRetained :=
    fill (AdmissionSection.SnapshotsRetained c) (AdmissionSection.SnapshotsRetained d);
  AdmissionSection.FsyncBatchWindowMs :=
    fill (AdmissionSection.FsyncBatchWindowMs c) (AdmissionSection.FsyncBatchWindowMs d);
  AdmissionSection.HeartbeatWindowMinutes :=
    fill (AdmissionSection.HeartbeatWindowMinutes c) (AdmissionSection.HeartbeatWindowMinutes d);
  AdmissionSection.HeartbeatFreshnessDecayMaxS :=
    fill (AdmissionSection.HeartbeatFreshnessDecayMaxS c)
         (AdmissionSection.HeartbeatFreshnessDecayMaxS d);
  AdmissionSection.AttestationPeerBlocklist := AdmissionSection.AttestationPeerBlocklist c |}.

Definition defaults_stun_turn (c : STUNTURN.Config) : STUNTURN.Config :=
  let d := cSTUNTURN DefaultConfig in {|
  STUNTURN.STUNListenAddr := fills (STUNTURN.STUNListenAddr c) (STUNTURN.STUNListenAddr d);
  STUNTURN.TURNListenAddr := fills (STUNTURN.TURNListenAddr c) (STUNTURN.TURNListenAddr d);
  STUNTURN.TURNRelayMaxKbps := fill (STUNTURN.TURNRelayMaxKbps c) (STUNTURN.TURNRelayMaxKbps d);
  STUNTURN.SessionTTLSeconds :=
    fill (STUNTURN.SessionTTLSeconds c) (STUNTURN.SessionTTLSeconds d) |}.

Definition ApplyDefaults (c : Config) : Config := {|
  cDataDir := cDataDir c;
  cLogLevel := fills (cLogLevel c) (cLogLevel DefaultConfig);
  cServer := defaults_server (cServer c);
  cAdmin := {| Admin.ListenAddr :=
    fills (Admin.ListenAddr (cAdmin c)) (Admin.ListenAddr (cAdmin DefaultConfig)) |};
  cLedger := {| LedgerSection.StoragePath := LedgerSection.StoragePath (cLedger c);
    LedgerSection.MerkleRootIntervalMin :=
      fill (LedgerSection.MerkleRootIntervalMin (cLedger c))
           (LedgerSection.MerkleRootIntervalMin (cLedger DefaultConfig)) |};
  cBroker := defaults_broker (cBroker c);
  cSettlement := defaults_settlement (cSettlement c);
  cFederation := defaults_federation (cFederation c);
  cReputation := defaults_reputation (cDataDir c) (cReputation c);
  cAdmission := defaults_admission (cDataDir c) (cAdmission c);
  cSTUNTURN := defaults_stun_turn (cSTUNTURN c);
  cMetrics := {| Metrics.ListenAddr :=
    fills (Metrics.ListenAddr (cMetrics c)) (Metrics.ListenAddr (cMetrics DefaultConfig)) |};
  cPricing := {| Pricing.Models :=
    if bool_decide (Pricing.Models (cPricing c) = ∅) then Pricing.Models (cPricing DefaultConfig)
    else Pricing.Models (cPricing c) |} |}.

(** ** Validate *)

Record FieldError := { fe_Field : string; fe_Message : string }.

(** [if b { v.add(field, msg) }] *)
Definition add_if (b : bool) (field msg : string) : list FieldError :=
  if b then [{| fe_Field := field; fe_Message := msg |}] else [].

(** [strconv.Itoa] *)
Definition Itoa (n : Z) : string := pretty n.

Definition is_empty (s : string) : bool := bool_decide (s = "").

(** *** Paths and addresses *)

(** [filepath.IsAbs] on Unix. *)
Definition IsAbs (path : string) : bool :=
  match path with String c _ => Ascii.eqb c "/"%char | EmptyString => false end.

(** The parts of a string between the separators. *)
Fixpoint split_on (sep : ascii) (s : list ascii) : list (list ascii) :=
  match s with
  | [] => [[]]
  | c :: s' =>
    if Ascii.eqb c sep then [] :: split_on sep s'
    else match split_on sep s' with
         | p :: ps => (c :: p) :: ps
         | [] => [[c]]
         end
  end.

Definition dot : ascii := "."%char.
Definition slash : ascii := "/"%char.

(** One element of [filepath.Clean]; the elements kept so far, last first. *)
Definition clean_element (rooted : bool) (out : list (list ascii)) (e : list ascii)
    : list (list ascii) :=
  if bool_decide (e = []) || bool_decide (e = [dot]) then out
  else if bool_decide (e = [dot; dot]) then
    match out with
    | [] => if rooted then out else [e]
    | l :: out' => if bool_decide (l = [dot; dot]) then e :: out else out'
    end
  else e :: out.

Definition Clean (path : list ascii) : list ascii :=
  let rooted := match path with c :: _ => Ascii.eqb c slash | [] => false end in
  let out := rev (foldl (clean_element rooted) [] (split_on slash path)) in
  let body := match out with [] => [] | e :: es => e ++ mjoin ((λ x, slash :: x) <$> es) end in
  if rooted then slash :: body else match body with [] => [dot] | _ => body end.

(** [filepath.Dir]: up to the last separator, cleaned. *)
Definition Dir (path : string) : string :=
  let parts := split_on slash (String.list_ascii_of_string path) in
  let front := mjoin ((λ x, x ++ [slash]) <$> removelast parts) in
  String.string_of_list_ascii (Clean front).

Fixpoint index_of (c : ascii) (s : list ascii) : option nat :=
  match s with
  | [] => None
  | x :: s' => if Ascii.eqb x c then Some 0%nat else S <$> index_of c s'
  end.

Definition last_index_of (c : ascii) (s : list ascii) : option nat :=
  (λ k, length s - 1 - k)%nat <$> index_of c (rev s).

(** [AddrError.Error] *)
Definition addr_error (addr why : string) : string :=
  if is_empty addr then why else "address " +:+ addr +:+ ": " +:+ why.

(** [net.SplitHostPort]: host and port, or the text of the error. *)
Definition SplitHostPort (hostport : string) : (string * string) + string :=
  let s := String.list_ascii_of_string hostport in
  let err why := inr (addr_error hostport why) in
  match last_index_of ":"%char s with
  | None => err "missing port in address"
  | Some i =>
    let finish (host : list ascii) (j k : nat) :=
      if bool_decide (is_Some (index_of "["%char (drop j s))) then err "unexpected '[' in address"
      else if bool_decide (is_Some (index_of "]"%char (drop k s))) then err "unexpected ']' in address"
      else inl (String.string_of_list_ascii host, String.string_of_list_ascii (drop (S i) s)) in
    match s with
    | "["%char :: _ =>
      match index_of "]"%char s with
      | None => err "missing ']' in address"
      | Some e =>
        if bool_decide (S e = length s) then err "missing port in address"
        else if bool_decide (S e = i) then finish (take (e - 1) (drop 1 s)) 1%nat (S e)
        else if bool_decide (s !! S e = Some ":"%char) then err "too many colons in address"
        else err "missing port in address"
      end
    | _ =>
      let host := take i s in
      if bool_decide (is_Some (index_of ":"%char host)) then err "too many colons in address"
      else finish host 0%nat 0%nat
    end
  end.

(** *** The rules, in the order of the sections *)

(** What the rules know of the machine they run on. *)
Section Validate.
Context (os_Stat : string → bool) (ftoa : spec_float → string).

Definition checkRequired (c : Config) : list FieldError :=
  (if is_empty (cDataDir c) then add_if true "data_dir" "must be non-empty"
   else add_if (negb (IsAbs (cDataDir c))) "data_dir" "must be an absolute path") ++
  add_if (is_empty (Server.ListenAddr (cServer c))) "server.listen_addr" "must be non-empty" ++
  add_if (is_empty (Server.IdentityKeyPath (cServer c))) "server.identity_key_path" "must be non-empty" ++
  add_if (is_empty (Server.TLSCertPath (cServer c))) "server.tls_cert_path" "must be non-empty" ++
  add_if (is_empty (Server.TLSKeyPath (cServer c))) "server.tls_key_path" "must be non-empty" ++
  add_if (is_empty (LedgerSection.StoragePath (cLedger c))) "ledger.storage_path" "must be non-empty".

Definition checkLogLevel (c : Config) : list FieldError :=
  add_if (negb (bool_decide (cLogLevel c ∈ ["" ; "debug"; "info"; "warn"; "error"]%string)))
    "log_level" "must be one of: debug, info, warn, error".

Definition checkServer (c : Config) : list FieldError :=
  let s := cServer c in
  add_if (Server.MaxFrameSize s <? 1024) "server.max_frame_size"
    ("must be >= 1024, got " +:+ Itoa (Server.MaxFrameSize s)) ++
  add_if (Server.IdleTimeoutS s <=? 0) "server.idle_timeout_s"
    ("must be > 0, got " +:+ Itoa (Server.IdleTimeoutS s)) ++
  add_if (Server.MaxIncomingStreams s <? 16) "server.max_incoming_streams"
    ("must be >= 16, got " +:+ Itoa (Server.MaxIncomingStreams s)) ++
  add_if (Server.ShutdownGraceS s <? 0) "server.shutdown_grace_s"
    ("must be >= 0, got " +:+ Itoa (Server.ShutdownGraceS s)).

(** The loop over the listeners; [seen] maps an address to the field that had it first. *)
Fixpoint check_listeners (listeners : list (string * string)) (seen : gmap string string)
    : list FieldError :=
  match listeners with
  | [] => []
  | (field, addr) :: rest =>
    if is_empty addr then check_listeners rest seen
    else
      match SplitHostPort addr with
      | inr e => {| fe_Field := field; fe_Message := "must be a valid host:port — " +:+ e |}
                 :: check_listeners rest seen
      | inl _ =>
        match seen !! addr with
        | Some prev =>
          {| fe_Field := field;
             fe_Message := "collides with " +:+ prev +:+ " (both " +:+ addr +:+ ")" |}
          :: check_listeners rest seen
        | None => check_listeners rest (<[addr := field]> seen)
        end
      end
  end.

Definition listeners (c : Config) : list (string * string) :=
  [("server.listen_addr", Server.ListenAddr (cServer c));
   ("admin.listen_addr", Admin.ListenAddr (cAdmin c));
   ("metrics.listen_addr", Metrics.ListenAddr (cMetrics c));
   ("stun_turn.stun_listen_addr", STUNTURN.STUNListenAddr (cSTUNTURN c));
   ("stun_turn.turn_listen_addr", STUNTURN.TURNListenAddr (cSTUNTURN c))].

Definition checkListeners (c : Config) : list FieldError := check_listeners (listeners c) ∅.

Definition checkLedger (c : Config) : list FieldError :=
  add_if (LedgerSection.MerkleRootIntervalMin (cLedger c) <=? 0)
    "ledger.merkle_root_interval_minutes" "must be > 0".

(** [|a - b| < tolerance] *)
Definition approxEqual (a b tolerance : spec_float) : bool :=
  let d := f64_sub a b in
  let d := if SFltb d f64_zero then f64_neg d else d in
  SFltb d tolerance.

(** Outside [0, 1]; not so for NaN. *)
Definition outside_unit (x : spec_float) : bool := SFltb x f64_zero || SFltb f64_one x.

Definition checkNonNeg (field : string) (val : spec_float) : list FieldError :=
  add_if (SFltb val f64_zero) field "must be >= 0".

Definition check_sum (field : string) (sum : spec_float) : list FieldError :=
  add_if (negb (approxEqual sum f64_one (decimal 1 1000))) field
    ("weights must sum to 1.0 ± 0.001 (got " +:+ ftoa sum +:+ ")").

Definition checkBroker (c : Config) : list FieldError :=
  let b := cBroker c in
  let w := BrokerSection.Weights b in
  add_if (outside_unit (BrokerSection.HeadroomThreshold b)) "broker.headroom_threshold"
    "must be in [0.0, 1.0]" ++
  add_if (BrokerSection.LoadThreshold b <? 1) "broker.load_threshold" "must be >= 1" ++
  checkNonNeg "broker.score_weights.reputation" (BrokerSection.Reputation w) ++
  checkNonNeg "broker.score_weights.headroom" (BrokerSection.Headroom w) ++
  checkNonNeg "broker.score_weights.rtt" (BrokerSection.RTT w) ++
  checkNonNeg "broker.score_weights.load" (BrokerSection.Load w) ++
  check_sum "broker.score_weights"
    (f64_add (f64_add (f64_add (BrokerSection.Reputation w) (BrokerSection.Headroom w))
                      (BrokerSection.RTT w)) (BrokerSection.Load w)) ++
  add_if (BrokerSection.OfferTimeoutMs b <=? 0) "broker.offer_timeout_ms" "must be > 0" ++
  add_if (BrokerSection.MaxOfferAttempts b <? 1) "broker.max_offer_attempts" "must be >= 1" ++
  add_if (SFleb (BrokerSection.BrokerRequestRatePerSec b) f64_zero)
    "broker.broker_request_rate_per_sec" "must be > 0" ++
  add_if ((BrokerSection.QueueDrainIntervalMs b <? 100)
          || (60000 <? BrokerSection.QueueDrainIntervalMs b))
    "broker.queue_drain_interval_ms" "must be in [100, 60000]" ++
  add_if (BrokerSection.InflightTerminalTTLS b <? 60) "broker.inflight_terminal_ttl_s"
    "must be >= 60".

Definition checkSettlement (c : Config) : list FieldError :=
  let s := cSettlement c in
  let setup := SettlementSection.TunnelSetupMs s in
  let timeout := SettlementSection.SettlementTimeoutS s in
  let ttl := SettlementSection.ReservationTTLS s in
  add_if (setup <=? 0) "settlement.tunnel_setup_ms" "must be > 0" ++
  add_if (SettlementSection.StreamIdleS s <=? 0) "settlement.stream_idle_s" "must be > 0" ++
  add_if (timeout <=? 0) "settlement.settlement_timeout_s" "must be > 0" ++
  add_if (ttl <=? 0) "settlement.reservation_ttl_s" "must be > 0" ++
  add_if ((0 <? setup) && (0 <? timeout) && (i64 (timeout * 1000) <=? setup))
    "settlement.tunnel_setup_ms" "must be < settlement_timeout_s × 1000" ++
  add_if ((0 <? ttl) && (0 <? timeout) && (ttl <? timeout))
    "settlement.reservation_ttl_s" "must be >= settlement_timeout_s (TTL must outlast settlement)" ++
  add_if ((SettlementSection.StaleTipRetries s <? 0) || (10 <? SettlementSection.StaleTipRetries s))
    "settlement.stale_tip_retries" "must be in [0, 10]".

Definition not_in (lo hi x : Z) : bool := (x <? lo) || (hi <? x).

Definition checkHealth (h : FederationSection.HealthConfig) : list FieldError :=
  add_if (FederationSection.UptimeWindowS h <=? 0) "federation.health.uptime_window_s"
    ("must be > 0, got " +:+ Itoa (FederationSection.UptimeWindowS h)) ++
  add_if (FederationSection.RevGossipWindowS h <=? 0) "federation.health.rev_gossip_window_s"
    ("must be > 0, got " +:+ Itoa (FederationSection.RevGossipWindowS h)) ++
  add_if (not_in 1 256 (FederationSection.RevGossipBufferSize h))
    "federation.health.rev_gossip_buffer_size"
    ("must be 1..256, got " +:+ Itoa (FederationSection.RevGossipBufferSize h)) ++
  add_if (outside_unit (FederationSection.UptimeWeight h)) "federation.health.uptime_weight"
    "must be in [0,1]" ++
  add_if (outside_unit (FederationSection.RevGossipWeight h)) "federation.health.rev_gossip_weight"
    "must be in [0,1]" ++
  add_if (outside_unit (FederationSection.LatencyWeight h)) "federation.health.latency_weight"
    "must be in [0,1]" ++
  add_if (FederationSection.LatencyTargetMs h <=? 0) "federation.health.latency_target_ms"
    ("must be > 0, got " +:+ Itoa (FederationSection.LatencyTargetMs h)) ++
  add_if (SFltb (decimal 1 1000000000)
            (SFabs (f64_sub (f64_add (f64_add (FederationSection.UptimeWeight h)
                                               (FederationSection.RevGossipWeight h))
                                     (FederationSection.LatencyWeight h)) f64_one)))
    "federation.health" "uptime_weight + rev_gossip_weight + latency_weight must sum to 1.0".

(** The loop over the peers, from index [i]. *)
Fixpoint check_peers (i : Z) (peers : list FederationSection.FederationPeer) (seen : gset string)
    : list FieldError :=
  match peers with
  | [] => []
  | p :: rest =>
    let field f := "federation.peers[" +:+ Itoa i +:+ "]." +:+ f in
    let id := FederationSection.TrackerID p in
    add_if (negb (bool_decide (String.length id = 64%nat))) (field "tracker_id") "must be 64 hex chars" ++
    add_if (negb (bool_decide (String.length (FederationSection.PubKey p) = 64%nat)))
      (field "pubkey") "must be 64 hex chars" ++
    add_if (is_empty (FederationSection.Addr p)) (field "addr") "empty" ++
    add_if (bool_decide (id ∈ seen)) (field "tracker_id") "duplicate" ++
    check_peers (i + 1) rest ({[ id ]} ∪ seen)
  end.

Definition checkFederation (c : Config) : list FieldError :=
  let f := cFederation c in
  let b := FederationSection.Bootstrap f in
  let cadence := FederationSection.PeerExchangeCadenceS f in
  add_if (FederationSection.PeerCountMin f <? 1) "federation.peer_count_min" "must be >= 1" ++
  add_if (FederationSection.PeerCountMax f <? FederationSection.PeerCountMin f)
    "federation.peer_count_max" "must be >= peer_count_min" ++
  add_if (FederationSection.GossipDedupeTTLS f <=? 0) "federation.gossip_dedupe_ttl_s" "must be > 0" ++
  add_if (FederationSection.TransferRetryWindowH f <=? 0) "federation.transfer_retry_window_hours"
    "must be > 0" ++
  add_if (FederationSection.EnrollRatePerMinPerIP f <? 1) "federation.enroll_rate_per_min_per_ip"
    "must be >= 1" ++
  add_if ((FederationSection.HandshakeTimeoutS f <=? 0) || (60 <? FederationSection.HandshakeTimeoutS f))
    "federation.handshake_timeout_s"
    ("must be 1..60, got " +:+ Itoa (FederationSection.HandshakeTimeoutS f)) ++
  add_if ((FederationSection.GossipRateQPS f <=? 0) || (10000 <? FederationSection.GossipRateQPS f))
    "federation.gossip_rate_qps"
    ("must be 1..10000, got " +:+ Itoa (FederationSection.GossipRateQPS f)) ++
  add_if ((FederationSection.SendQueueDepth f <=? 0) || (1048576 <? FederationSection.SendQueueDepth f))
    "federation.send_queue_depth" "out of range" ++
  add_if (not_in 60 86400 (FederationSection.PublishCadenceS f)) "federation.publish_cadence_s"
    ("must be 60..86400, got " +:+ Itoa (FederationSection.PublishCadenceS f)) ++
  add_if (not_in 1 600 (FederationSection.IdleTimeoutS f)) "federation.idle_timeout_s"
    ("must be 1..600, got " +:+ Itoa (FederationSection.IdleTimeoutS f)) ++
  add_if (not_in 1 60 (FederationSection.RedialBaseS f)) "federation.redial_base_s"
    ("must be 1..60, got " +:+ Itoa (FederationSection.RedialBaseS f)) ++
  add_if (not_in (FederationSection.RedialBaseS f) 600 (FederationSection.RedialMaxS f))
    "federation.redial_max_s"
    ("must be >= redial_base_s and <= 600, got " +:+ Itoa (FederationSection.RedialMaxS f)) ++
  add_if (not_in 1 256 (FederationSection.MaxPeers b)) "federation.bootstrap.max_peers"
    ("must be 1..256, got " +:+ Itoa (FederationSection.MaxPeers b)) ++
  add_if (not_in 60 3600 (FederationSection.TTLSeconds b)) "federation.bootstrap.ttl_seconds"
    ("must be 60..3600, got " +:+ Itoa (FederationSection.TTLSeconds b)) ++
  checkHealth (FederationSection.Health f) ++
  (if cadence <? 0 then
     add_if true "federation.peer_exchange_cadence_s"
       ("must be >= 0 (0 disables), got " +:+ Itoa cadence)
   else
     add_if ((0 <? cadence) && not_in 60 86400 cadence) "federation.peer_exchange_cadence_s"
       ("must be in [60, 86400] when non-zero, got " +:+ Itoa cadence)) ++
  (if is_empty (FederationSection.ListenAddr f) then []
   else match SplitHostPort (FederationSection.ListenAddr f) with
        | inr e => add_if true "federation.listen_addr" ("invalid host:port (" +:+ e +:+ ")")
        | inl _ => []
        end) ++
  check_peers 0 (FederationSection.Peers f) ∅.

Definition checkReputation (c : Config) : list FieldError :=
  let r := cReputation c in
  let w := ReputationSection.Windows r in
  add_if (ReputationSection.EvaluationIntervalS r <=? 0) "reputation.evaluation_interval_s"
    "must be > 0" ++
  add_if (negb ((ReputationSection.ShortS w <? ReputationSection.MediumS w)
                && (ReputationSection.MediumS w <? ReputationSection.LongS w)))
    "reputation.signal_windows" "must have short_s < medium_s < long_s" ++
  add_if (SFleb (ReputationSection.ZScoreThreshold r) f64_zero) "reputation.z_score_threshold"
    "must be > 0" ++
  add_if (outside_unit (ReputationSection.DefaultScore r)) "reputation.default_score"
    "must be in [0.0, 1.0]" ++
  add_if (ReputationSection.FreezeListCacheTTLS r <=? 0) "reputation.freeze_list_cache_ttl_s"
    "must be > 0" ++
  add_if (ReputationSection.MinPopulationForZScore r <=? 0) "reputation.min_population_for_z_score"
    "must be > 0" ++
  add_if (is_empty (ReputationSection.StoragePath r)) "reputation.storage_path"
    "must be set (typically derived from data_dir)".

Fixpoint check_blocklist (i : Z) (l : list string) : list FieldError :=
  match l with
  | [] => []
  | p :: l' =>
    add_if (is_empty p) ("admission.attestation_peer_blocklist[" +:+ Itoa i +:+ "]")
      "must be non-empty" ++ check_blocklist (i + 1) l'
  end.

Definition checkAdmission (c : Config) : list FieldError :=
  let a := cAdmission c in
  let w := AdmissionSection.Weights a in
  let admitT := AdmissionSection.PressureAdmitThreshold a in
  let reject := AdmissionSection.PressureRejectThreshold a in
  add_if (SFleb admitT f64_zero) "admission.pressure_admit_threshold" "must be > 0" ++
  add_if (SFleb reject f64_zero) "admission.pressure_reject_threshold" "must be > 0" ++
  add_if (SFltb f64_zero admitT && SFltb f64_zero reject && SFleb reject admitT)
    "admission.pressure_admit_threshold" "must be < pressure_reject_threshold" ++
  add_if (AdmissionSection.QueueCap a <? 1) "admission.queue_cap" "must be >= 1" ++
  add_if (outside_unit (AdmissionSection.TrialTierScore a)) "admission.trial_tier_score"
    "must be in [0.0, 1.0]" ++
  add_if (SFltb (AdmissionSection.AgingAlphaPerMinute a) f64_zero)
    "admission.aging_alpha_per_minute" "must be >= 0" ++
  add_if (AdmissionSection.QueueTimeoutS a <=? 0) "admission.queue_timeout_s" "must be > 0" ++
  checkNonNeg "admission.score_weights.settlement_reliability"
    (AdmissionSection.SettlementReliability w) ++
  checkNonNeg "admission.score_weights.inverse_dispute_rate" (AdmissionSection.InverseDisputeRate w) ++
  checkNonNeg "admission.score_weights.tenure" (AdmissionSection.Tenure w) ++
  checkNonNeg "admission.score_weights.net_credit_flow" (AdmissionSection.NetCreditFlow w) ++
  checkNonNeg "admission.score_weights.balance_cushion" (AdmissionSection.BalanceCushion w) ++
  check_sum "admission.score_weights"
    (f64_add (f64_add (f64_add (f64_add (AdmissionSection.SettlementReliability w)
       (AdmissionSection.InverseDisputeRate w)) (AdmissionSection.Tenure w))
       (AdmissionSection.NetCreditFlow w)) (AdmissionSection.BalanceCushion w)) ++
  add_if (AdmissionSection.NetFlowNormalizationConstant a <=? 0)
    "admission.net_flow_normalization_constant" "must be > 0" ++
  add_if (AdmissionSection.TenureCapDays a <? 1) "admission.tenure_cap_days" "must be >= 1" ++
  add_if (AdmissionSection.StarterGrantCredits a <? 1) "admission.starter_grant_credits" "must be >= 1" ++
  add_if (AdmissionSection.RollingWindowDays a <? 1) "admission.rolling_window_days" "must be >= 1" ++
  add_if (AdmissionSection.TrialSettlementsRequired a <? 0) "admission.trial_settlements_required"
    "must be >= 0" ++
  add_if (AdmissionSection.TrialDurationHours a <? 0) "admission.trial_duration_hours"
    "must be >= 0" ++
  add_if (AdmissionSection.AttestationTTLSeconds a <=? 0) "admission.attestation_ttl_seconds"
    "must be > 0" ++
  add_if (AdmissionSection.AttestationMaxTTLSeconds a <? AdmissionSection.AttestationTTLSeconds a)
    "admission.attestation_max_ttl_seconds" "must be >= attestation_ttl_seconds" ++
  add_if (AdmissionSection.AttestationIssuancePerConsumerPerHour a <? 1)
    "admission.attestation_issuance_per_consumer_per_hour" "must be >= 1" ++
  add_if (outside_unit (AdmissionSection.MaxAttestationScoreImported a))
    "admission.max_attestation_score_imported" "must be in [0.0, 1.0]" ++
  (if is_empty (AdmissionSection.TLogPath a)
   then add_if true "admission.tlog_path" "must be non-empty"
   else
     let dir := Dir (AdmissionSection.TLogPath a) in
     add_if (negb (is_empty dir) && negb (os_Stat dir)) "admission.tlog_path"
       ("parent directory does not exist: " +:+ dir)) ++
  add_if (is_empty (AdmissionSection.SnapshotPathPrefix a)) "admission.snapshot_path_prefix"
    "must be non-empty" ++
  add_if (AdmissionSection.SnapshotIntervalS a <=? 0) "admission.snapshot_interval_s" "must be > 0" ++
  add_if (AdmissionSection.SnapshotsRetained a <? 1) "admission.snapshots_retained" "must be >= 1" ++
  add_if (AdmissionSection.FsyncBatchWindowMs a <? 0) "admission.fsync_batch_window_ms" "must be >= 0" ++
  add_if (AdmissionSection.HeartbeatWindowMinutes a <? 1) "admission.heartbeat_window_minutes"
    "must be >= 1" ++
  add_if (AdmissionSection.HeartbeatFreshnessDecayMaxS a <=? 0)
    "admission.heartbeat_freshness_decay_max_s" "must be > 0" ++
  check_blocklist 0 (AdmissionSection.AttestationPeerBlocklist a).

Definition checkSTUNTURN (c : Config) : list FieldError :=
  add_if (STUNTURN.TURNRelayMaxKbps (cSTUNTURN c) <=? 0) "stun_turn.turn_relay_max_kbps" "must be > 0" ++
  add_if (STUNTURN.SessionTTLSeconds (cSTUNTURN c) <=? 0) "stun_turn.session_ttl_seconds" "must be > 0".

(** One model of the loop over the price table. *)
Definition check_model (kv : string * Pricing.ModelPriceConfig) : list FieldError :=
  let '(name, m) := kv in
  add_if (is_empty name) "pricing.models" "model name empty" ++
  add_if (Pricing.InCreditsPerToken m =? 0)
    ("pricing.models." +:+ name +:+ ".in_credits_per_token") "must be > 0" ++
  add_if (Pricing.OutCreditsPerToken m =? 0)
    ("pricing.models." +:+ name +:+ ".out_credits_per_token") "must be > 0".

Definition checkPricing (c : Config) : list FieldError :=
  let models := Pricing.Models (cPricing c) in
  if bool_decide (models = ∅) then add_if true "pricing.models" "must contain at least one model"
  else map_to_list models ≫= check_model.

(** Nil is a valid configuration. *)
Definition Validate (c : Config) : list FieldError :=
  checkRequired c ++ checkLogLevel c ++ checkListeners c ++ checkServer c ++ checkLedger c ++
  checkBroker c ++ checkSettlement c ++ checkFederation c ++ checkReputation c ++
  checkAdmission c ++ checkSTUNTURN c ++ checkPricing c.

(** [FieldError.String] and [ValidationError.Error]. *)
Definition FieldError_String (e : FieldError) : string := fe_Field e +:+ ": " +:+ fe_Message e.

Definition ValidationError_Error (errs : list FieldError) : string :=
  match errs with
  | [] => "config: validation failed (no specific errors recorded)"
  | _ => String.concat (String "010" "") ((λ e, "  - " +:+ FieldError_String e) <$> errs)
  end.

(** [Load] of a document that YAML decodes to [doc]. *)
Definition Load (doc : Config) : Config + list FieldError :=
  let c := ApplyDefaults doc in
  match Validate c with
  | [] => inl c
  | errs => inr errs
  end.
End Validate.

(** ** The defaults *)

Lemma fill_idem x d : d ≠ 0 → fill (fill x d) d = fill x d.
Proof.
  intros Hd. unfold fill. destruct (x =? 0) eqn:E; [|by rewrite E].
  by apply Z.eqb_neq in Hd as ->.
Qed.

Lemma fillf_idem x d : is_zero d = false → fillf (fillf x d) d = fillf x d.
Proof. intros Hd. unfold fillf. destruct (is_zero x) eqn:E; [by rewrite Hd|by rewrite E]. Qed.

Lemma fills_idem x d : d ≠ "" → fills (fills x d) d = fills x d.
Proof. intros Hd. unfold fills. repeat case_bool_decide; done. Qed.

(** What an operator wrote is kept: only zero values are filled. *)
Lemma fill_keeps x d : x ≠ 0 → fill x d = x.
Proof. unfold fill. by destruct (Z.eqb_spec x 0). Qed.

Lemma fillf_keeps x d : is_zero x = false → fillf x d = x.
Proof. unfold fillf. by intros ->. Qed.

(** A path derived from the data directory is not empty, so it is derived once. *)
Lemma derived_idem (dataDir suffix p : string) :
  suffix ≠ "" →
  let derive p := if bool_decide (p = "") && negb (bool_decide (dataDir = ""))
                  then dataDir +:+ suffix else p in
  derive (derive p) = derive p.
Proof.
  intros Hs derive. subst derive. cbn beta.
  destruct (bool_decide (p = "") && negb (bool_decide (dataDir = ""))) eqn:E; [|by rewrite E].
  rewrite bool_decide_eq_false_2; [done|]. destruct dataDir; [done|]. done.
Qed.

Lemma defaults_health_idem h : defaults_health (defaults_health h) = defaults_health h.
Proof.
  destruct h as [a b n t u r l]. unfold defaults_health. cbn.
  destruct (is_zero u && is_zero r && is_zero l) eqn:E;
    rewrite ?E; f_equal; try (apply fill_idem; done).
Qed.

Lemma defaults_rate_limit_idem c : defaults_rate_limit (defaults_rate_limit c) = defaults_rate_limit c.
Proof.
  unfold defaults_rate_limit at 2 3.
  destruct (is_zero _ && is_zero _ && is_zero _ && is_zero _ && is_zero _) eqn:E.
  - by vm_compute.
  - unfold defaults_rate_limit. by rewrite E.
Qed.

Lemma defaults_federation_idem c :
  defaults_federation (defaults_federation c) = defaults_federation c.
Proof.
  unfold defaults_federation. cbn -[defaults_health defaults_rate_limit].
  rewrite defaults_health_idem, defaults_rate_limit_idem.
  f_equal; try (apply fill_idem; done).
  - f_equal; apply fill_idem; done.
  - by destruct (FederationSection.IntegrityCheckOnReconnect c).
Qed.

Lemma defaults_broker_idem c : defaults_broker (defaults_broker c) = defaults_broker c.
Proof.
  destruct c as [? ? [r h t l] ? ? ? ? ?]. unfold defaults_broker. cbn -[decimal f64_of_int].
  f_equal; try (apply fill_idem; done); try (apply fillf_idem; vm_compute; done).
  destruct (is_zero r && is_zero h && is_zero t && is_zero l) eqn:E; cbn -[decimal]; by rewrite ?E.
Qed.

Lemma defaults_admission_idem d c :
  defaults_admission d (defaults_admission d c) = defaults_admission d c.
Proof.
  destruct c as [? ? ? ? ? ? [r i t n b] ? ? ? ? ? ? ? ? ? ? ? ? ? ? ? ? ? ?].
  unfold defaults_admission. cbn -[decimal f64_of_int String.append].
  f_equal; try (apply fill_idem; done); try (apply fillf_idem; vm_compute; done);
    try (apply derived_idem; done).
  destruct (is_zero r && is_zero i && is_zero t && is_zero n && is_zero b) eqn:E;
    cbn -[decimal]; by rewrite ?E.
Qed.

(** [ApplyDefaults] twice is [ApplyDefaults] once, for every configuration. *)
Lemma ApplyDefaults_idempotent (c : Config) : ApplyDefaults (ApplyDefaults c) = ApplyDefaults c.
Proof.
  unfold ApplyDefaults. cbn -[DefaultConfig defaults_federation defaults_broker defaults_admission].
  rewrite defaults_federation_idem, defaults_broker_idem, defaults_admission_idem.
  f_equal; try (apply fills_idem; done).
  - unfold defaults_server. cbn. f_equal; apply fill_idem; done.
  - f_equal. apply fills_idem; done.
  - f_equal. apply fill_idem; done.
  - unfold defaults_settlement. cbn. f_equal; apply fill_idem; done.
  - unfold defaults_reputation. cbn -[decimal String.append].
    f_equal; try (apply fill_idem; done); try (apply fillf_idem; vm_compute; done);
      [f_equal; apply fill_idem; done|apply derived_idem; done].
  - unfold defaults_stun_turn. cbn.
    f_equal; try (apply fill_idem; done); apply fills_idem; done.
  - f_equal. apply fills_idem; done.
  - f_equal. destruct (bool_decide (Pricing.Models (cPricing c) = ∅)) eqn:E; [|by rewrite E].
    by rewrite bool_decide_eq_false_2 by done.
Qed.

(** ** What the rules say *)

(** Every comparison with NaN is false, so a rule that refuses what is out of range lets NaN
    pass; one that refuses what is not within a tolerance does not. *)
Definition at_least (lo x : spec_float) : Prop := is_NaN x = true ∨ SFleb lo x = true.
Definition at_most (hi x : spec_float) : Prop := is_NaN x = true ∨ SFleb x hi = true.
Definition positive (x : spec_float) : Prop := is_NaN x = true ∨ SFltb f64_zero x = true.
Definition in_unit (x : spec_float) : Prop := at_least f64_zero x ∧ at_most f64_one x.

Lemma SFltb_not_SFleb x y :
  is_NaN x = false → is_NaN y = false → SFltb x y = negb (SFleb y x).
Proof.
  intros Hx Hy. pose proof (SFcompare_key x y Hx Hy) as H1. pose proof (SFcompare_key y x Hy Hx) as H2.
  unfold SFltb, SFleb. destruct (SFcompare x y) as [[]|], (SFcompare y x) as [[]|]; try done;
    destruct (f64_key x) as [[??]?], (f64_key y) as [[??]?]; simpl in *; exfalso; simplify_eq; lia.
Qed.

Lemma SFcompare_NaN_l y : SFcompare S754_nan y = None.
Proof. done. Qed.
Lemma SFcompare_NaN_r x : SFcompare x S754_nan = None.
Proof. by destruct x as [[]|[]| |[]]. Qed.

Lemma at_least_spec lo x : is_NaN lo = false → SFltb x lo = false ↔ at_least lo x.
Proof.
  intros Hlo. unfold at_least. destruct (is_NaN x) eqn:Hx.
  - destruct x; try done. unfold SFltb. rewrite SFcompare_NaN_l. naive_solver.
  - rewrite SFltb_not_SFleb by done. rewrite negb_false_iff. naive_solver.
Qed.

Lemma at_most_spec hi x : is_NaN hi = false → SFltb hi x = false ↔ at_most hi x.
Proof.
  intros Hhi. unfold at_most. destruct (is_NaN x) eqn:Hx.
  - destruct x; try done. unfold SFltb. rewrite SFcompare_NaN_r. naive_solver.
  - rewrite SFltb_not_SFleb by done. rewrite negb_false_iff. naive_solver.
Qed.

Lemma positive_spec x : SFleb x f64_zero = false ↔ positive x.
Proof.
  unfold positive. destruct (is_NaN x) eqn:Hx.
  - destruct x; try done. unfold SFleb. rewrite SFcompare_NaN_l. naive_solver.
  - rewrite SFltb_not_SFleb by done. rewrite negb_true_iff. naive_solver.
Qed.

Lemma outside_unit_spec x : outside_unit x = false ↔ in_unit x.
Proof.
  unfold outside_unit, in_unit. rewrite orb_false_iff, at_least_spec, at_most_spec by done. done.
Qed.

Lemma add_if_nil b f m : add_if b f m = [] ↔ b = false.
Proof. by destruct b. Qed.

Lemma checkNonNeg_nil f x : checkNonNeg f x = [] ↔ at_least f64_zero x.
Proof. unfold checkNonNeg. by rewrite add_if_nil, at_least_spec. Qed.

Definition sums_to_one (sum : spec_float) : Prop := approxEqual sum f64_one (decimal 1 1000) = true.

Lemma check_sum_nil ftoa f sum : check_sum ftoa f sum = [] ↔ sums_to_one sum.
Proof. unfold check_sum, sums_to_one. by rewrite add_if_nil, negb_false_iff. Qed.

Lemma not_in_false lo hi x : not_in lo hi x = false ↔ lo ≤ x ≤ hi.
Proof. unfold not_in. rewrite orb_false_iff. lia. Qed.

Lemma is_empty_false s : is_empty s = false ↔ s ≠ "".
Proof. unfold is_empty. by rewrite bool_decide_eq_false. Qed.

Definition parses (addr : string) : Prop := ∃ host port, SplitHostPort addr = inl (host, port).

(** Listeners that are configured parse and differ. *)
Definition good_listeners (l : list (string * string)) (seen : gmap string string) : Prop :=
  let addrs := List.filter (λ a, negb (is_empty a)) l.*2 in
  Forall parses addrs ∧ NoDup addrs ∧ Forall (λ a, seen !! a = None) addrs.

Lemma check_listeners_nil l seen : check_listeners l seen = [] ↔ good_listeners l seen.
Proof.
  unfold good_listeners. revert seen. induction l as [|[f a] l IH]; intros seen; simpl.
  { split; [repeat constructor|done]. }
  destruct (is_empty a) eqn:Ea; simpl; [apply IH|].
  destruct (SplitHostPort a) as [[h p]|e] eqn:Es.
  2:{ split; [done|]. rewrite Forall_cons. intros [[(h & p & Hp) _] _]. congruence. }
  destruct (seen !! a) as [prev|] eqn:El.
  { split; [done|]. intros (_ & _ & [Hn _]%Forall_cons). congruence. }
  rewrite IH. rewrite !Forall_cons, NoDup_cons. split.
  - intros (Hp & Hn & Hs). split_and!; try done; [by exists h, p| |].
    + intros Hin. rewrite Forall_forall in Hs. specialize (Hs _ Hin). by rewrite lookup_insert_eq in Hs.
    + eapply Forall_impl; [exact Hs|]. intros x Hx. cbn beta in *.
      by apply lookup_insert_None in Hx as [? ?].
  - intros ([_ Hp] & [Hni Hn] & [_ Hs]). split_and!; try done.
    rewrite Forall_forall in Hs |- *. intros x Hx. rewrite lookup_insert_ne; [by apply Hs|].
    intros <-. done.
Qed.

Definition good_peer (p : FederationSection.FederationPeer) : Prop :=
  String.length (FederationSection.TrackerID p) = 64%nat ∧
  String.length (FederationSection.PubKey p) = 64%nat ∧
  FederationSection.Addr p ≠ "".

Lemma check_peers_nil i l seen :
  check_peers i l seen = [] ↔
  Forall good_peer l ∧ NoDup (FederationSection.TrackerID <$> l) ∧
  Forall (λ p, FederationSection.TrackerID p ∉ seen) l.
Proof.
  revert i seen. induction l as [|p l IH]; intros i seen; cbn [check_peers].
  { split; [repeat constructor|done]. }
  cbn zeta. rewrite !app_nil, !add_if_nil, IH, !negb_false_iff, is_empty_false.
  rewrite !bool_decide_eq_true, bool_decide_eq_false. csimpl. rewrite !Forall_cons, NoDup_cons.
  unfold good_peer at 2. split.
  - intros (H1 & H2 & H3 & H4 & H5 & H6 & H7). split_and!; try done.
    + rewrite list_elem_of_fmap. intros (q & Hq & Hin). rewrite Forall_forall in H7.
      specialize (H7 _ Hin). set_solver.
    + eapply Forall_impl; [exact H7|]. set_solver.
  - intros ([(H1 & H2 & H3) H5] & [Hni H6] & [H4 H7]). split_and!; try done.
    rewrite Forall_forall in H7 |- *. intros q Hq. specialize (H7 q Hq).
    rewrite not_elem_of_union, not_elem_of_singleton. split; [|done].
    intros He. apply Hni. rewrite list_elem_of_fmap. eauto.
Qed.

Lemma check_blocklist_nil i l : check_blocklist i l = [] ↔ Forall (λ p, p ≠ "") l.
Proof.
  revert i. induction l as [|p l IH]; intros i; simpl; [done|].
  by rewrite app_nil, add_if_nil, is_empty_false, IH, Forall_cons.
Qed.

Definition good_model (kv : string * Pricing.ModelPriceConfig) : Prop :=
  kv.1 ≠ "" ∧ Pricing.InCreditsPerToken kv.2 ≠ 0 ∧ Pricing.OutCreditsPerToken kv.2 ≠ 0.

Lemma check_models_nil l : l ≫= check_model = [] ↔ Forall good_model l.
Proof.
  induction l as [|[n m] l IH]; [done|]. csimpl.
  rewrite app_nil, IH, Forall_cons. unfold good_model at 2. cbn.
  rewrite !app_nil, !add_if_nil, is_empty_false, !Z.eqb_neq. done.
Qed.

(** What it means that each kind of rule reports nothing, read in both directions. *)
Ltac rules_in :=
  repeat match goal with
  | H : _ ∧ _ |- _ => destruct H
  | H : _ ++ _ = [] |- _ => apply app_nil in H as [? ?]
  | H : add_if _ _ _ = [] |- _ => apply add_if_nil in H
  | H : checkNonNeg _ _ = [] |- _ => apply checkNonNeg_nil in H
  | H : check_sum _ _ _ = [] |- _ => apply check_sum_nil in H
  | H : outside_unit _ = false |- _ => apply outside_unit_spec in H
  | H : SFleb _ f64_zero = false |- _ => apply positive_spec in H
  | H : SFltb _ f64_zero = false |- _ => apply at_least_spec in H; [|done]
  | H : SFltb (decimal _ _) _ = false |- _ => apply at_most_spec in H; [|done]
  | H : not_in _ _ _ = false |- _ => apply not_in_false in H
  | H : is_empty _ = false |- _ => apply is_empty_false in H
  | H : _ || _ = false |- _ => apply orb_false_iff in H as [? ?]
  | H : negb _ = false |- _ => apply negb_false_iff in H
  | H : _ && _ = true |- _ => apply andb_true_iff in H as [? ?]
  | H : Forall _ (_ :: _) |- _ => apply Forall_cons in H as [? ?]
  end.

Ltac rules_out :=
  repeat match goal with
  | |- _ ∧ _ => split
  | |- _ ++ _ = [] => apply app_nil; split
  | |- add_if _ _ _ = [] => apply add_if_nil
  | |- checkNonNeg _ _ = [] => apply checkNonNeg_nil
  | |- check_sum _ _ _ = [] => apply check_sum_nil
  | |- outside_unit _ = false => apply outside_unit_spec
  | |- SFleb _ f64_zero = false => apply positive_spec
  | |- SFltb _ f64_zero = false => apply at_least_spec; [done|]
  | |- SFltb (decimal _ _) _ = false => apply at_most_spec; [done|]
  | |- not_in _ _ _ = false => apply not_in_false
  | |- is_empty _ = false => apply is_empty_false
  | |- _ || _ = false => apply orb_false_iff
  | |- negb _ = false => apply negb_false_iff
  | |- _ && _ = true => apply andb_true_iff
  | |- Forall _ (_ :: _) => apply Forall_cons
  | |- Forall _ [] => apply Forall_nil
  end.

Ltac by_rules := cbn zeta in *; rules_in; rules_out; first [done | lia].

Section valid.
Context (os_Stat : string → bool) (ftoa : spec_float → string).

Record ValidBroker (b : BrokerSection.Config) : Prop := {
  vb_headroom : in_unit (BrokerSection.HeadroomThreshold b);
  vb_load : 1 ≤ BrokerSection.LoadThreshold b;
  vb_weights : let w := BrokerSection.Weights b in
    Forall (at_least f64_zero)
      [BrokerSection.Reputation w; BrokerSection.Headroom w; BrokerSection.RTT w; BrokerSection.Load w] ∧
    sums_to_one (f64_add (f64_add (f64_add (BrokerSection.Reputation w) (BrokerSection.Headroom w))
                                  (BrokerSection.RTT w)) (BrokerSection.Load w));
  vb_offer : 0 < BrokerSection.OfferTimeoutMs b;
  vb_attempts : 1 ≤ BrokerSection.MaxOfferAttempts b;
  vb_rate : positive (BrokerSection.BrokerRequestRatePerSec b);
  vb_drain : 100 ≤ BrokerSection.QueueDrainIntervalMs b ≤ 60000;
  vb_ttl : 60 ≤ BrokerSection.InflightTerminalTTLS b
}.

Record ValidSettlement (s : SettlementSection.Config) : Prop := {
  vs_setup : 0 < SettlementSection.TunnelSetupMs s
             < i64 (SettlementSection.SettlementTimeoutS s * 1000);
  vs_idle : 0 < SettlementSection.StreamIdleS s;
  vs_ttl : 0 < SettlementSection.SettlementTimeoutS s ≤ SettlementSection.ReservationTTLS s;
  vs_retries : 0 ≤ SettlementSection.StaleTipRetries s ≤ 10
}.

Record ValidHealth (h : FederationSection.HealthConfig) : Prop := {
  vh_windows : 0 < FederationSection.UptimeWindowS h ∧ 0 < FederationSection.RevGossipWindowS h;
  vh_buffer : 1 ≤ FederationSection.RevGossipBufferSize h ≤ 256;
  vh_weights : Forall in_unit [FederationSection.UptimeWeight h; FederationSection.RevGossipWeight h;
                               FederationSection.LatencyWeight h];
  vh_latency : 0 < FederationSection.LatencyTargetMs h;
  vh_sum : at_most (decimal 1 1000000000)
    (SFabs (f64_sub (f64_add (f64_add (FederationSection.UptimeWeight h)
       (FederationSection.RevGossipWeight h)) (FederationSection.LatencyWeight h)) f64_one))
}.

Record ValidFederation (f : FederationSection.Config) : Prop := {
  vf_peers : 1 ≤ FederationSection.PeerCountMin f ≤ FederationSection.PeerCountMax f;
  vf_dedupe : 0 < FederationSection.GossipDedupeTTLS f;
  vf_retry : 0 < FederationSection.TransferRetryWindowH f;
  vf_enroll : 1 ≤ FederationSection.EnrollRatePerMinPerIP f;
  vf_handshake : 0 < FederationSection.HandshakeTimeoutS f ≤ 60;
  vf_qps : 0 < FederationSection.GossipRateQPS f ≤ 10000;
  vf_queue : 0 < FederationSection.SendQueueDepth f ≤ 1048576;
  vf_publish : 60 ≤ FederationSection.PublishCadenceS f ≤ 86400;
  vf_idle : 1 ≤ FederationSection.IdleTimeoutS f ≤ 600;
  vf_redial : 1 ≤ FederationSection.RedialBaseS f ≤ 60 ∧
              FederationSection.RedialBaseS f ≤ FederationSection.RedialMaxS f ≤ 600;
  vf_bootstrap : 1 ≤ FederationSection.MaxPeers (FederationSection.Bootstrap f) ≤ 256 ∧
                 60 ≤ FederationSection.TTLSeconds (FederationSection.Bootstrap f) ≤ 3600;
  vf_health : ValidHealth (FederationSection.Health f);
  vf_cadence : FederationSection.PeerExchangeCadenceS f = 0 ∨
               60 ≤ FederationSection.PeerExchangeCadenceS f ≤ 86400;
  vf_listen : FederationSection.ListenAddr f = "" ∨ parses (FederationSection.ListenAddr f);
  vf_list : Forall good_peer (FederationSection.Peers f) ∧
            NoDup (FederationSection.TrackerID <$> FederationSection.Peers f)
}.

Record ValidReputation (r : ReputationSection.Config) : Prop := {
  vr_interval : 0 < ReputationSection.EvaluationIntervalS r;
  vr_windows : let w := ReputationSection.Windows r in
    ReputationSection.ShortS w < ReputationSection.MediumS w < ReputationSection.LongS w;
  vr_threshold : positive (ReputationSection.ZScoreThreshold r);
  vr_default : in_unit (ReputationSection.DefaultScore r);
  vr_ttl : 0 < ReputationSection.FreezeListCacheTTLS r;
  vr_population : 0 < ReputationSection.MinPopulationForZScore r;
  vr_path : ReputationSection.StoragePath r ≠ ""
}.

Record ValidAdmission (a : AdmissionSection.Config) : Prop := {
  va_pressure : let admitT := AdmissionSection.PressureAdmitThreshold a in
    let reject := AdmissionSection.PressureRejectThreshold a in
    positive admitT ∧ positive reject ∧
    (is_NaN admitT = true ∨ is_NaN reject = true ∨ SFltb admitT reject = true);
  va_cap : 1 ≤ AdmissionSection.QueueCap a;
  va_trial : in_unit (AdmissionSection.TrialTierScore a);
  va_aging : at_least f64_zero (AdmissionSection.AgingAlphaPerMinute a);
  va_timeout : 0 < AdmissionSection.QueueTimeoutS a;
  va_weights : let w := AdmissionSection.Weights a in
    Forall (at_least f64_zero)
      [AdmissionSection.SettlementReliability w; AdmissionSection.InverseDisputeRate w;
       AdmissionSection.Tenure w; AdmissionSection.NetCreditFlow w;
       AdmissionSection.BalanceCushion w] ∧
    sums_to_one (f64_add (f64_add (f64_add (f64_add (AdmissionSection.SettlementReliability w)
      (AdmissionSection.InverseDisputeRate w)) (AdmissionSection.Tenure w))
      (AdmissionSection.NetCreditFlow w)) (AdmissionSection.BalanceCushion w));
  va_flow : 0 < AdmissionSection.NetFlowNormalizationConstant a;
  va_days : 1 ≤ AdmissionSection.TenureCapDays a ∧ 1 ≤ AdmissionSection.RollingWindowDays a;
  va_grant : 1 ≤ AdmissionSection.StarterGrantCredits a;
  va_trials : 0 ≤ AdmissionSection.TrialSettlementsRequired a ∧
              0 ≤ AdmissionSection.TrialDurationHours a;
  va_ttl : 0 < AdmissionSection.AttestationTTLSeconds a
           ≤ AdmissionSection.AttestationMaxTTLSeconds a;
  va_issuance : 1 ≤ AdmissionSection.AttestationIssuancePerConsumerPerHour a;
  va_imported : in_unit (AdmissionSection.MaxAttestationScoreImported a);
  va_tlog : AdmissionSection.TLogPath a ≠ "" ∧
            (Dir (AdmissionSection.TLogPath a) = "" ∨ os_Stat (Dir (AdmissionSection.TLogPath a)) = true);
  va_snapshot : AdmissionSection.SnapshotPathPrefix a ≠ "" ∧
    0 < AdmissionSection.SnapshotIntervalS a ∧ 1 ≤ AdmissionSection.SnapshotsRetained a;
  va_fsync : 0 ≤ AdmissionSection.FsyncBatchWindowMs a;
  va_heartbeat : 1 ≤ AdmissionSection.HeartbeatWindowMinutes a ∧
                 0 < AdmissionSection.HeartbeatFreshnessDecayMaxS a;
  va_blocklist : Forall (λ p, p ≠ "") (AdmissionSection.AttestationPeerBlocklist a)
}.

Record ValidConfig (c : Config) : Prop := {
  vc_dir : IsAbs (cDataDir c) = true;
  vc_paths : Server.ListenAddr (cServer c) ≠ "" ∧ Server.IdentityKeyPath (cServer c) ≠ "" ∧
    Server.TLSCertPath (cServer c) ≠ "" ∧ Server.TLSKeyPath (cServer c) ≠ "" ∧
    LedgerSection.StoragePath (cLedger c) ≠ "";
  vc_level : cLogLevel c ∈ ["" ; "debug"; "info"; "warn"; "error"]%string;
  vc_listeners : good_listeners (listeners c) ∅;
  vc_server : 1024 ≤ Server.MaxFrameSize (cServer c) ∧ 0 < Server.IdleTimeoutS (cServer c) ∧
    16 ≤ Server.MaxIncomingStreams (cServer c) ∧ 0 ≤ Server.ShutdownGraceS (cServer c);
  vc_ledger : 0 < LedgerSection.MerkleRootIntervalMin (cLedger c);
  vc_broker : ValidBroker (cBroker c);
  vc_settlement : ValidSettlement (cSettlement c);
  vc_federation : ValidFederation (cFederation c);
  vc_reputation : ValidReputation (cReputation c);
  vc_admission : ValidAdmission (cAdmission c);
  vc_turn : 0 < STUNTURN.TURNRelayMaxKbps (cSTUNTURN c) ∧ 0 < STUNTURN.SessionTTLSeconds (cSTUNTURN c);
  vc_pricing : Pricing.Models (cPricing c) ≠ ∅ ∧
    map_Forall (λ n m, good_model (n, m)) (Pricing.Models (cPricing c))
}.

Lemma checkBroker_nil c : checkBroker ftoa c = [] ↔ ValidBroker (cBroker c).
Proof. unfold checkBroker. split; [intros H; split; by_rules|intros []; by_rules]. Qed.

Lemma checkSettlement_nil c : checkSettlement c = [] ↔ ValidSettlement (cSettlement c).
Proof.
  unfold checkSettlement. cbn zeta. rewrite !app_nil, !add_if_nil, !andb_false_iff, orb_false_iff.
  split; [intros H; split; lia|intros []; lia].
Qed.

Lemma checkHealth_nil h : checkHealth h = [] ↔ ValidHealth h.
Proof.
  unfold checkHealth. split; [intros H; split|intros []]; by_rules.
Qed.

Lemma check_cadence_nil f n :
  (if n <? 0 then add_if true f ("must be >= 0 (0 disables), got " +:+ Itoa n)
   else add_if ((0 <? n) && not_in 60 86400 n) f
          ("must be in [60, 86400] when non-zero, got " +:+ Itoa n)) = [] ↔ n = 0 ∨ 60 ≤ n ≤ 86400.
Proof.
  destruct (Z.ltb_spec n 0); [split; [done|lia]|].
  rewrite add_if_nil, andb_false_iff, not_in_false, Z.ltb_ge. lia.
Qed.

Lemma check_listen_addr_nil f a :
  (if is_empty a then []
   else match SplitHostPort a with
        | inr e => add_if true f ("invalid host:port (" +:+ e +:+ ")")
        | inl _ => []
        end) = [] ↔ a = "" ∨ parses a.
Proof.
  unfold parses, is_empty. case_bool_decide as He; [naive_solver|].
  destruct (SplitHostPort a) as [[h p]|e]; naive_solver.
Qed.

Lemma checkFederation_nil c : checkFederation c = [] ↔ ValidFederation (cFederation c).
Proof.
  unfold checkFederation. cbn zeta. split.
  - intros H. rules_in.
    repeat match goal with
    | H : checkHealth _ = [] |- _ => apply checkHealth_nil in H
    | H : check_peers _ _ _ = [] |- _ => apply check_peers_nil in H
    | H : (if _ <? 0 then _ else _) = [] |- _ => apply check_cadence_nil in H
    | H : (if is_empty _ then _ else _) = [] |- _ => apply check_listen_addr_nil in H
    end.
    split; by_rules.
  - intros []. rules_in. rules_out; try (done || lia);
      [by apply checkHealth_nil|by apply check_cadence_nil|by apply check_listen_addr_nil|].
    apply check_peers_nil. split_and!; [done|done|].
    apply Forall_forall. intros p _. apply not_elem_of_empty.
Qed.

Lemma checkReputation_nil c : checkReputation c = [] ↔ ValidReputation (cReputation c).
Proof. unfold checkReputation. split; [intros H; split; by_rules|intros []; by_rules]. Qed.

Lemma check_thresholds admitT reject :
  positive admitT ∧ positive reject ∧
    (SFltb f64_zero admitT && SFltb f64_zero reject && SFleb reject admitT) = false ↔
  positive admitT ∧ positive reject ∧
    (is_NaN admitT = true ∨ is_NaN reject = true ∨ SFltb admitT reject = true).
Proof.
  unfold positive. rewrite !andb_false_iff.
  destruct (is_NaN admitT) eqn:Ha, (is_NaN reject) eqn:Hr; simpl.
  - destruct admitT, reject; try done. naive_solver.
  - destruct admitT; try done. naive_solver.
  - destruct reject; try done. unfold SFltb, SFleb. rewrite !SFcompare_NaN_r. naive_solver.
  - rewrite (SFltb_not_SFleb admitT reject), negb_true_iff by done.
    split; intros (H1 & H2 & H3); naive_solver congruence.
Qed.

Lemma check_tlog_nil p :
  (if is_empty p then add_if true "admission.tlog_path" "must be non-empty"
   else let dir := Dir p in
        add_if (negb (is_empty dir) && negb (os_Stat dir)) "admission.tlog_path"
          ("parent directory does not exist: " +:+ dir)) = [] ↔
  p ≠ "" ∧ (Dir p = "" ∨ os_Stat (Dir p) = true).
Proof.
  unfold is_empty at 1. case_bool_decide as Hp; [naive_solver|]. cbn zeta.
  rewrite add_if_nil, andb_false_iff, !negb_false_iff. unfold is_empty.
  rewrite bool_decide_eq_true. naive_solver.
Qed.

Lemma checkAdmission_nil c : checkAdmission os_Stat ftoa c = [] ↔ ValidAdmission (cAdmission c).
Proof.
  unfold checkAdmission. cbn zeta. split.
  - intros H. rules_in.
    repeat match goal with
    | H : check_blocklist _ _ = [] |- _ => apply check_blocklist_nil in H
    | H : (if is_empty _ then _ else _) = [] |- _ => apply check_tlog_nil in H
    end.
    split; try by_rules. cbn zeta. apply check_thresholds. by_rules.
  - intros [Hp]. apply check_thresholds in Hp as (?&?&?). cbn zeta in *. rules_in.
    rules_out; first [done|lia|by apply check_tlog_nil|by apply check_blocklist_nil].
Qed.
End valid.

Lemma checkRequired_nil c :
  checkRequired c = [] ↔
  IsAbs (cDataDir c) = true ∧
  Server.ListenAddr (cServer c) ≠ "" ∧ Server.IdentityKeyPath (cServer c) ≠ "" ∧
  Server.TLSCertPath (cServer c) ≠ "" ∧ Server.TLSKeyPath (cServer c) ≠ "" ∧
  LedgerSection.StoragePath (cLedger c) ≠ "".
Proof.
  unfold checkRequired. rewrite !app_nil, !add_if_nil, !is_empty_false.
  assert ((if is_empty (cDataDir c) then add_if true "data_dir" "must be non-empty"
           else add_if (negb (IsAbs (cDataDir c))) "data_dir" "must be an absolute path") = []
          ↔ IsAbs (cDataDir c) = true) as ->; [|done].
  unfold is_empty. case_bool_decide as He; [by rewrite He|]. by rewrite add_if_nil, negb_false_iff.
Qed.

Lemma checkPricing_nil c :
  checkPricing c = [] ↔
  Pricing.Models (cPricing c) ≠ ∅ ∧
  map_Forall (λ n m, good_model (n, m)) (Pricing.Models (cPricing c)).
Proof.
  unfold checkPricing. cbn zeta. case_bool_decide as Hm; [naive_solver|].
  rewrite check_models_nil, map_Forall_to_list.
  split; [intros H; split; [done|]|intros [_ H]]; (eapply Forall_impl; [exact H|]); by intros [].
Qed.

Lemma checkLogLevel_nil c :
  checkLogLevel c = [] ↔ cLogLevel c ∈ ["" ; "debug"; "info"; "warn"; "error"]%string.
Proof. unfold checkLogLevel. by rewrite add_if_nil, negb_false_iff, bool_decide_eq_true. Qed.

(** A configuration without errors satisfies every rule, and conversely. *)
Lemma Validate_sound os_Stat ftoa c : Validate os_Stat ftoa c = [] → ValidConfig os_Stat c.
Proof.
  unfold Validate, checkServer, checkLedger, checkSTUNTURN. intros H. rules_in. split.
  3: by apply checkLogLevel_nil.
  3: by apply check_listeners_nil.
  5: by eapply checkBroker_nil.
  5: by apply checkSettlement_nil.
  5: by apply checkFederation_nil.
  5: by apply checkReputation_nil.
  5: by eapply checkAdmission_nil.
  6: by apply checkPricing_nil.
  all: try (split_and?; lia); by apply checkRequired_nil.
Qed.

Lemma Validate_complete os_Stat ftoa c : ValidConfig os_Stat c → Validate os_Stat ftoa c = [].
Proof.
  unfold Validate, checkServer, checkLedger, checkSTUNTURN. intros []. rules_in. rules_out; try lia.
  - by apply checkRequired_nil.
  - by apply checkLogLevel_nil.
  - by apply check_listeners_nil.
  - by apply checkBroker_nil.
  - by apply checkSettlement_nil.
  - by apply checkFederation_nil.
  - by apply checkReputation_nil.
  - by apply checkAdmission_nil.
  - by apply checkPricing_nil.
Qed.

(** [Validate] accepts a configuration exactly when every rule of the specification holds;
    a float that is NaN passes every rule but the sums of the score weights. *)
Lemma Validate_exact (os_Stat : string → bool) (ftoa : spec_float → string) (c : Config) :
  Validate os_Stat ftoa c = [] ↔ ValidConfig os_Stat c.
Proof. split; [apply Validate_sound|apply Validate_complete]. Qed.

(** ** A minimal configuration *)

(** What an operator must write: the paths, and the address the server listens at. *)
Definition minimal (dataDir listen key cert tlsKey ledger : string) : Config := {|
  cDataDir := dataDir; cLogLevel := "";
  cServer := {| Server.ListenAddr := listen; Server.IdentityKeyPath := key;
    Server.TLSCertPath := cert; Server.TLSKeyPath := tlsKey; Server.MaxFrameSize := 0;
    Server.IdleTimeoutS := 0; Server.MaxIncomingStreams := 0; Server.ShutdownGraceS := 0 |};
  cAdmin := {| Admin.ListenAddr := "" |};
  cLedger := {| LedgerSection.StoragePath := ledger; LedgerSection.MerkleRootIntervalMin := 0 |};
  cBroker := {| BrokerSection.HeadroomThreshold := f64_zero; BrokerSection.LoadThreshold := 0;
    BrokerSection.Weights := {| BrokerSection.Reputation := f64_zero;
      BrokerSection.Headroom := f64_zero; BrokerSection.RTT := f64_zero;
      BrokerSection.Load := f64_zero |};
    BrokerSection.OfferTimeoutMs := 0; BrokerSection.MaxOfferAttempts := 0;
    BrokerSection.BrokerRequestRatePerSec := f64_zero; BrokerSection.QueueDrainIntervalMs := 0;
    BrokerSection.InflightTerminalTTLS := 0 |};
  cSettlement := {| SettlementSection.TunnelSetupMs := 0; SettlementSection.StreamIdleS := 0;
    SettlementSection.SettlementTimeoutS := 0; SettlementSection.ReservationTTLS := 0;
    SettlementSection.StaleTipRetries := 0 |};
  cFederation := {| FederationSection.PeerCountMin := 0; FederationSection.PeerCountMax := 0;
    FederationSection.GossipDedupeTTLS := 0; FederationSection.TransferRetryWindowH := 0;
    FederationSection.EnrollRatePerMinPerIP := 0; FederationSection.HandshakeTimeoutS := 0;
    FederationSection.GossipRateQPS := 0; FederationSection.SendQueueDepth := 0;
    FederationSection.PublishCadenceS := 0; FederationSection.ListenAddr := "";
    FederationSection.IdleTimeoutS := 0; FederationSection.RedialBaseS := 0;
    FederationSection.RedialMaxS := 0; FederationSection.Peers := [];
    FederationSection.Bootstrap :=
      {| FederationSection.MaxPeers := 0; FederationSection.TTLSeconds := 0 |};
    FederationSection.Health := {| FederationSection.UptimeWindowS := 0;
      FederationSection.RevGossipWindowS := 0; FederationSection.RevGossipBufferSize := 0;
      FederationSection.LatencyTargetMs := 0; FederationSection.UptimeWeight := f64_zero;
      FederationSection.RevGossipWeight := f64_zero; FederationSection.LatencyWeight := f64_zero |};
    FederationSection.PeerExchangeCadenceS := 0;
    FederationSection.RateLimit := {| FederationSection.RootAttestationPerSec := f64_zero;
      FederationSection.RevocationPerSec := f64_zero; FederationSection.PeerExchangePerSec := f64_zero;
      FederationSection.EquivocationEvidencePerSec := f64_zero;
      FederationSection.TransferPerSec := f64_zero |};
    FederationSection.IntegrityCheckOnReconnect := None |};
  cReputation := {| ReputationSection.EvaluationIntervalS := 0;
    ReputationSection.Windows := {| ReputationSection.ShortS := 0; ReputationSection.MediumS := 0;
      ReputationSection.LongS := 0 |};
    ReputationSection.ZScoreThreshold := f64_zero; ReputationSection.DefaultScore := f64_zero;
    ReputationSection.FreezeListCacheTTLS := 0; ReputationSection.MinPopulationForZScore := 0;
    ReputationSection.StoragePath := "" |};
  cAdmission := {| AdmissionSection.PressureAdmitThreshold := f64_zero;
    AdmissionSection.PressureRejectThreshold := f64_zero; AdmissionSection.QueueCap := 0;
    AdmissionSection.TrialTierScore := f64_zero; AdmissionSection.AgingAlphaPerMinute := f64_zero;
    AdmissionSection.QueueTimeoutS := 0;
    AdmissionSection.Weights := {| AdmissionSection.SettlementReliability := f64_zero;
      AdmissionSection.InverseDisputeRate := f64_zero; AdmissionSection.Tenure := f64_zero;
      AdmissionSection.NetCreditFlow := f64_zero; AdmissionSection.BalanceCushion := f64_zero |};
    AdmissionSection.NetFlowNormalizationConstant := 0; AdmissionSection.TenureCapDays := 0;
    AdmissionSection.StarterGrantCredits := 0; AdmissionSection.RollingWindowDays := 0;
    AdmissionSection.TrialSettlementsRequired := 0; AdmissionSection.TrialDurationHours := 0;
    AdmissionSection.AttestationTTLSeconds := 0; AdmissionSection.AttestationMaxTTLSeconds := 0;
    AdmissionSection.AttestationIssuancePerConsumerPerHour := 0;
    AdmissionSection.MaxAttestationScoreImported := f64_zero; AdmissionSection.TLogPath := "";
    AdmissionSection.SnapshotPathPrefix := ""; AdmissionSection.SnapshotIntervalS := 0;
    AdmissionSection.SnapshotsRetained := 0; AdmissionSection.FsyncBatchWindowMs := 0;
    AdmissionSection.HeartbeatWindowMinutes := 0; AdmissionSection.HeartbeatFreshnessDecayMaxS := 0;
    AdmissionSection.AttestationPeerBlocklist := [] |};
  cSTUNTURN := {| STUNTURN.STUNListenAddr := ""; STUNTURN.TURNListenAddr := "";
    STUNTURN.TURNRelayMaxKbps := 0; STUNTURN.SessionTTLSeconds := 0 |};
  cMetrics := {| Metrics.ListenAddr := "" |};
  cPricing := {| Pricing.Models := ∅ |} |}.

Definition default_addrs : list string := ["127.0.0.1:9090"; ":9100"; ":3478"; ":3479"]%string.

(** A fact about given floats, by computing. *)
Ltac by_floats :=
  cbn zeta; repeat match goal with
  | |- Forall _ (_ :: _) => apply Forall_cons; split
  | |- Forall _ [] => apply Forall_nil_2
  | |- in_unit _ => apply outside_unit_spec
  | |- _ ∧ _ => split
  end; first [by vm_compute | right; by vm_compute | do 2 right; by vm_compute].

Lemma default_federation_valid : ValidFederation default_federation.
Proof.
  split; try (cbn; lia); try (cbn; by left).
  - split; try (cbn; lia); by_floats.
  - split; constructor.
Qed.

Lemma defaults_minimal_federation a b c d e f :
  cFederation (ApplyDefaults (minimal a b c d e f)) = default_federation.
Proof. done. Qed.

Lemma default_broker_valid : ValidBroker default_broker.
Proof.
  split; try (cbn; lia); by_floats.
Qed.

Lemma derived_nonempty (d s : string) : s ≠ "" → d +:+ s ≠ "".
Proof. by destruct d. Qed.

Lemma default_admission_valid os_Stat d (c : AdmissionSection.Config) :
  d ≠ "" → os_Stat (Dir (d +:+ "/admission.tlog")) = true →
  c = cAdmission (ApplyDefaults (minimal d "" "" "" "" "")) → ValidAdmission os_Stat c.
Proof.
  intros Hd Hs ->. destruct d as [|ch d]; [done|]. cbn -[Dir decimal].
  cbn -[Dir] in Hs.
  split; cbn -[Dir decimal]; try lia; try by_floats.
  all: split_and?; try lia; try done; [by right|constructor].
Qed.

Lemma minimal_listeners a listen k c t l :
  listen ≠ "" → parses listen → listen ∉ default_addrs →
  good_listeners (listeners (ApplyDefaults (minimal a listen k c t l))) ∅.
Proof.
  intros Hl Hp Hn.
  assert (List.filter (λ a, negb (is_empty a))
    (listeners (ApplyDefaults (minimal a listen k c t l))).*2 = listen :: default_addrs) as He.
  { cbn. unfold is_empty at 1. by rewrite bool_decide_eq_false_2. }
  unfold good_listeners. rewrite He. split_and!.
  - apply Forall_cons. split; [done|].
    unfold default_addrs. rewrite !Forall_cons. split_and!; [..|done]; eexists _, _; by vm_compute.
  - apply NoDup_cons. split; [done|]. apply (bool_decide_unpack (NoDup default_addrs)). by vm_compute.
  - apply Forall_forall. intros x _. apply lookup_empty.
Qed.

(** The defaults are a working configuration: an operator who gives an absolute data
    directory, the paths, and a listen address that no default listener has, need write nothing
    else. *)
Lemma defaults_load (os_Stat : string → bool) (ftoa : spec_float → string)
    (dataDir listen key cert tlsKey ledger : string) :
  IsAbs dataDir = true → key ≠ "" → cert ≠ "" → tlsKey ≠ "" → ledger ≠ "" →
  parses listen → listen ∉ default_addrs →
  os_Stat (Dir (dataDir +:+ "/admission.tlog")) = true →
  Load os_Stat ftoa (minimal dataDir listen key cert tlsKey ledger) =
    inl (ApplyDefaults (minimal dataDir listen key cert tlsKey ledger)).
Proof.
  intros Hd Hk Hc Ht Hl Hp Hn Hs. unfold Load.
  assert (Validate os_Stat ftoa (ApplyDefaults (minimal dataDir listen key cert tlsKey ledger)) = [])
    as ->; [|done].
  assert (dataDir ≠ "") as Hne by (by intros ->). assert (listen ≠ "") as Hll.
  { intros ->. destruct Hp as (h & p & Hp). by vm_compute in Hp. }
  apply Validate_complete. split.
  - done.
  - done.
  - cbn. set_solver.
  - by apply minimal_listeners.
  - cbn. lia.
  - cbn. lia.
  - apply default_broker_valid.
  - by split; vm_compute.
  - apply default_federation_valid.
  - destruct dataDir; [done|]. split; cbn -[decimal]; try lia; try done; by_floats.
  - by apply (default_admission_valid _ dataDir).
  - cbn. lia.
  - split; [done|]. apply map_Forall_to_list. vm_compute. repeat constructor; done.
Qed.

(** The witness: a tracker of an ordinary installation. *)
Lemma defaults_load_witness :
  Load (λ _, true) (λ _, "") (minimal "/var/lib/tb" "0.0.0.0:443" "k" "c" "t" "l") =
    inl (ApplyDefaults (minimal "/var/lib/tb" "0.0.0.0:443" "k" "c" "t" "l")).
Proof.
  apply (defaults_load (λ _, true) (λ _, "") "/var/lib/tb" "0.0.0.0:443" "k" "c" "t" "l"); try done.
  - by exists "0.0.0.0", "443".
  - set_solver.
Defined.
