(* ===== verification/Wiring.v ===== *)
(** cmd/token-bay-tracker: how the composition root turns a loaded configuration into the
    configurations of the subsystems, and the checks their [Open] functions make before
    anything runs. *)
From S2P Require Import Prelude Proto Float Signing Credit AdmQueue Relay Broker Gossip Federation Reputation Config.
From Stdlib Require Import Floats.SpecFloat Strings.Ascii.

#[local] Open Scope Z_scope.

(** [time.Duration(n) * time.Second] and [time.Millisecond], in int64. *)
Definition dur_s (n : Z) : Z := i64 (n * Second).
Definition dur_ms (n : Z) : Z := i64 (n * 1000000).

(** ** Hexadecimal identities *)

(** [hex.fromHexChar] *)
Definition fromHexChar (c : ascii) : option Z :=
  let n := Z.of_nat (nat_of_ascii c) in
  if (48 <=? n) && (n <=? 57) then Some (n - 48)
  else if (97 <=? n) && (n <=? 102) then Some (n - 87)
  else if (65 <=? n) && (n <=? 70) then Some (n - 55)
  else None.

(** [hex.DecodeString]; an odd length is an error as well. *)
Fixpoint hex_DecodeString (s : string) : option bytes :=
  match s with
  | EmptyString => Some []
  | String _ EmptyString => None
  | String a (String b s') =>
    match fromHexChar a, fromHexChar b, hex_DecodeString s' with
    | Some x, Some y, Some rest => Some (byte_of_Z (16 * x + y) :: rest)
    | _, _, _ => None
    end
  end.

(** 32 bytes in hexadecimal: a tracker id, a public key, an identity. *)
Definition hex32 (s : string) : option bytes :=
  match hex_DecodeString s with
  | Some b => if blen b =? 32 then Some b else None
  | None => None
  end.

Definition hexToTrackerID (s : string) : option bytes := hex32 s.
Definition hexToPubKey (s : string) : option bytes := hex32 s.
Definition hexToIdentityID (s : string) : option bytes := hex32 s.

(** ** The sections, as the subsystems take them *)

Definition admission_weights (w : AdmissionSection.ScoreWeights) : Credit.AdmissionScoreWeights := {|
  Credit.aw_SettlementReliability := AdmissionSection.SettlementReliability w;
  Credit.aw_InverseDisputeRate := AdmissionSection.InverseDisputeRate w;
  Credit.aw_Tenure := AdmissionSection.Tenure w;
  Credit.aw_NetCreditFlow := AdmissionSection.NetCreditFlow w;
  Credit.aw_BalanceCushion := AdmissionSection.BalanceCushion w |}.

(** The parts of the section that admission reads. *)
Definition admission_config (a : AdmissionSection.Config) : Credit.AdmissionConfig := {|
  Credit.ac_PressureAdmitThreshold := AdmissionSection.PressureAdmitThreshold a;
  Credit.ac_PressureRejectThreshold := AdmissionSection.PressureRejectThreshold a;
  Credit.ac_QueueCap := AdmissionSection.QueueCap a;
  Credit.ac_TrialTierScore := AdmissionSection.TrialTierScore a;
  Credit.ac_AgingAlphaPerMinute := AdmissionSection.AgingAlphaPerMinute a;
  Credit.ac_QueueTimeoutS := AdmissionSection.QueueTimeoutS a;
  Credit.ac_ScoreWeights := admission_weights (AdmissionSection.Weights a);
  Credit.ac_NetFlowNormalizationConstant := AdmissionSection.NetFlowNormalizationConstant a;
  Credit.ac_TenureCapDays := AdmissionSection.TenureCapDays a;
  Credit.ac_StarterGrantCredits := AdmissionSection.StarterGrantCredits a;
  Credit.ac_RollingWindowDays := AdmissionSection.RollingWindowDays a;
  Credit.ac_AttestationTTLSeconds := AdmissionSection.AttestationTTLSeconds a;
  Credit.ac_AttestationIssuancePerConsumerPerHour :=
    AdmissionSection.AttestationIssuancePerConsumerPerHour a;
  Credit.ac_MaxAttestationScoreImported := AdmissionSection.MaxAttestationScoreImported a;
  Credit.ac_SnapshotsRetained := AdmissionSection.SnapshotsRetained a;
  Credit.ac_HeartbeatFreshnessDecayMaxS := AdmissionSection.HeartbeatFreshnessDecayMaxS a |}.

Definition reputation_config (r : ReputationSection.Config) : Reputation.ReputationConfig :=
  let w := ReputationSection.Windows r in {|
  Reputation.rc_ShortS := ReputationSection.ShortS w;
  Reputation.rc_MediumS := ReputationSection.MediumS w;
  Reputation.rc_LongS := ReputationSection.LongS w;
  Reputation.rc_ZScoreThreshold := ReputationSection.ZScoreThreshold r;
  Reputation.rc_DefaultScore := ReputationSection.DefaultScore r;
  Reputation.rc_MinPopulationForZScore := ReputationSection.MinPopulationForZScore r |}.

Definition broker_config (b : BrokerSection.Config) : Broker.BrokerConfig :=
  let w := BrokerSection.Weights b in {|
  Broker.cfg_HeadroomThreshold := BrokerSection.HeadroomThreshold b;
  Broker.cfg_LoadThreshold := BrokerSection.LoadThreshold b;
  Broker.cfg_ScoreWeights := {|
    Broker.sw_Reputation := BrokerSection.Reputation w; Broker.sw_Headroom := BrokerSection.Headroom w;
    Broker.sw_RTT := BrokerSection.RTT w; Broker.sw_Load := BrokerSection.Load w |};
  Broker.cfg_MaxOfferAttempts := BrokerSection.MaxOfferAttempts b |}.

Definition NewPriceTableFromConfig (p : Pricing.Config) : Broker.PriceTable :=
  (λ m, {| Broker.mp_In := Pricing.InCreditsPerToken m; Broker.mp_Out := Pricing.OutCreditsPerToken m |})
    <$> Pricing.Models p.

Definition allocator_config (s : STUNTURN.Config) : Relay.AllocatorConfig := {|
  Relay.ac_MaxKbpsPerSeeder := STUNTURN.TURNRelayMaxKbps s;
  Relay.ac_SessionTTL := dur_s (STUNTURN.SessionTTLSeconds s) |}.

(** [int(rate * 5)] within 1 and 50; what Go makes of a product that is no int is a parameter. *)
Definition rlBurst (to_int : spec_float → Z) (rate : spec_float) : Z :=
  if SFleb rate f64_zero then 0
  else
    let x := f64_mul rate (f64_of_int 5) in
    let b := match f64_trunc x with Some n => if (MinInt64 <=? n) && (n <=? MaxInt64) then n else to_int x
                                  | None => to_int x end in
    let b := if b <? 1 then 1 else b in
    if 50 <? b then 50 else b.

Definition rate_bucket (to_int : spec_float → Z) (rate : spec_float) : Gossip.RateBucket :=
  {| Gossip.rb_Rate := rate; Gossip.rb_Burst := rlBurst to_int rate |}.

Definition federation_peer (p : FederationSection.FederationPeer) : option AllowlistedPeer :=
  match hexToTrackerID (FederationSection.TrackerID p), hexToPubKey (FederationSection.PubKey p) with
  | Some tid, Some pk =>
    Some {| al_TrackerID := tid; al_PubKey := pk; al_Addr := FederationSection.Addr p;
            al_Region := FederationSection.Region p |}
  | _, _ => None
  end.

(** The fields the literal leaves out are zero, and [withDefaults] fills them. *)
Definition federation_config (to_int : spec_float → Z) (id priv : bytes)
    (peers : list AllowlistedPeer) (f : FederationSection.Config) : FedConfig :=
  let h := FederationSection.Health f in
  let r := FederationSection.RateLimit f in {|
  fc_MyTrackerID := id; fc_MyPriv := priv;
  fc_HandshakeTimeout := dur_s (FederationSection.HandshakeTimeoutS f);
  fc_DedupeTTL := dur_s (FederationSection.GossipDedupeTTLS f); fc_DedupeCap := 0;
  fc_GossipRateQPS := FederationSection.GossipRateQPS f;
  fc_SendQueueDepth := FederationSection.SendQueueDepth f;
  fc_PublishCadence := dur_s (FederationSection.PublishCadenceS f);
  fc_IdleTimeout := dur_s (FederationSection.IdleTimeoutS f);
  fc_RedialBase := dur_s (FederationSection.RedialBaseS f);
  fc_RedialMax := dur_s (FederationSection.RedialMaxS f);
  fc_TransferTimeout := 0; fc_IssuedProofCap := 0; fc_Peers := peers;
  fc_Health := {| Gossip.hc_UptimeWindow := dur_s (FederationSection.UptimeWindowS h);
    Gossip.hc_RevGossipWindow := dur_s (FederationSection.RevGossipWindowS h);
    Gossip.hc_LatencyTarget := dur_ms (FederationSection.LatencyTargetMs h);
    Gossip.hc_UptimeWeight := FederationSection.UptimeWeight h;
    Gossip.hc_RevGossipWeight := FederationSection.RevGossipWeight h;
    Gossip.hc_LatencyWeight := FederationSection.LatencyWeight h |};
  fc_PeerExchangeCadence := dur_s (FederationSection.PeerExchangeCadenceS f);
  fc_RateLimit := {|
    Gossip.rl_RootAttestation := rate_bucket to_int (FederationSection.RootAttestationPerSec r);
    Gossip.rl_Revocation := rate_bucket to_int (FederationSection.RevocationPerSec r);
    Gossip.rl_PeerExchange := rate_bucket to_int (FederationSection.PeerExchangePerSec r);
    Gossip.rl_EquivocationEvidence := rate_bucket to_int (FederationSection.EquivocationEvidencePerSec r);
    Gossip.rl_Transfer := rate_bucket to_int (FederationSection.TransferPerSec r) |};
  fc_KnownPeersPruneInterval := 0; fc_KnownPeersMaxAge := 0; fc_LowHealthThreshold := f64_zero;
  fc_LowHealthSustainedWindow := 0; fc_HealthWatchInterval := 0 |}.

(** ** The checks of the [Open] functions *)

Definition validateConfigForOpen (a : Credit.AdmissionConfig) : error :=
  if Credit.ac_RollingWindowDays a <=? 0 then Some "RollingWindowDays must be positive"
  else if SFleb (Credit.ac_PressureRejectThreshold a) (Credit.ac_PressureAdmitThreshold a)
  then Some "PressureAdmitThreshold must be < PressureRejectThreshold"
  else if Credit.ac_QueueCap a <=? 0 then Some "QueueCap must be positive"
  else None.

Definition reputation_Open_checks (r : ReputationSection.Config) : error :=
  if bool_decide (ReputationSection.StoragePath r = "") then Some "reputation: Open requires cfg.StoragePath"
  else if ReputationSection.EvaluationIntervalS r <=? 0 then
    Some "reputation: EvaluationIntervalS must be > 0"
  else if ReputationSection.MinPopulationForZScore r <=? 0 then
    Some "reputation: MinPopulationForZScore must be > 0"
  else None.

Record Started := {
  st_admission : Credit.AdmissionConfig; st_federation : FedConfig;
  st_reputation : Reputation.ReputationConfig; st_prices : Broker.PriceTable;
  st_broker : Broker.BrokerConfig; st_reservation_ttl : Z; st_relay : Relay.Allocator
}.

Section run.
Context `{Crypto} (to_int : spec_float → Z).

(** The checks of [newRunCmd] that depend on the configuration and the key alone, in their order;
    opening files and sockets is left out. *)
Definition start (c : Config) (trackerKey : bytes) : Started + string :=
  let adm := admission_config (cAdmission c) in
  if negb (blen trackerKey =? 64) then inr "admission: tracker key length"
  else
    match validateConfigForOpen adm with
    | Some e => inr ("admission: " +:+ e)
    | None =>
      match mapM federation_peer (FederationSection.Peers (cFederation c)) with
      | None => inr "federation peer"
      | Some peers =>
        let pub := ed25519_Public trackerKey in
        let fed := withDefaults (federation_config to_int (sha256 pub) trackerKey peers (cFederation c)) in
        match reputation_Open_checks (cReputation c) with
        | Some e => inr ("reputation: " +:+ e)
        | None =>
          match Relay.NewAllocator (allocator_config (cSTUNTURN c)) with
          | Err _ => inr "stunturn"
          | Ok alloc =>
            inl {| st_admission := adm; st_federation := fed;
                   st_reputation := reputation_config (cReputation c);
                   st_prices := NewPriceTableFromConfig (cPricing c);
                   st_broker := broker_config (cBroker c);
                   st_reservation_ttl := SettlementSection.ReservationTTLS (cSettlement c);
                   st_relay := alloc |}
          end
        end
      end
    end.
End run.

(** ** Hexadecimal *)

Lemma fromHexChar_digit (b : byte) :
  fromHexChar (hex_digit (Z_of_byte b / 16)) = Some (Z_of_byte b / 16) ∧
  fromHexChar (hex_digit (Z_of_byte b mod 16)) = Some (Z_of_byte b mod 16) ∧
  byte_of_Z (16 * (Z_of_byte b / 16) + Z_of_byte b mod 16) = b.
Proof. by destruct b. Qed.

(** Decoding undoes encoding. *)
Lemma hex_DecodeString_Encode b : hex_DecodeString (hex_EncodeToString b) = Some b.
Proof.
  induction b as [|x b IH]; [done|]. cbn [hex_EncodeToString hex_DecodeString].
  destruct (fromHexChar_digit x) as (-> & -> & E). by rewrite IH, E.
Qed.

Lemma hex32_Encode b : length b = 32%nat → hex32 (hex_EncodeToString b) = Some b.
Proof. intros Hl. unfold hex32, blen. by rewrite hex_DecodeString_Encode, Hl. Qed.

Lemma hex_DecodeString_length s b :
  hex_DecodeString s = Some b → String.length s = (2 * length b)%nat.
Proof.
  revert b. induction s as [s IH] using (induction_ltof1 _ String.length); intros b.
  destruct s as [|a [|a' s]]; cbn [hex_DecodeString]; intros Hd; simplify_eq; [done|].
  destruct (fromHexChar a), (fromHexChar a'), (hex_DecodeString s) as [b'|] eqn:E; simplify_eq.
  simpl. rewrite (IH s) with (b := b'); [lia| |done]. unfold ltof. simpl. lia.
Qed.

Lemma hex32_length s b : hex32 s = Some b → length b = 32%nat ∧ String.length s = 64%nat.
Proof.
  unfold hex32. destruct (hex_DecodeString s) as [b'|] eqn:E; [|done].
  destruct (blen b' =? 32) eqn:El; [|done]. intros [= <-]. unfold blen in El.
  apply Z.eqb_eq in El. apply hex_DecodeString_length in E. lia.
Qed.

(** ** Durations *)

Lemma dur_s_exact n : 0 ≤ n ≤ 9223372036 → dur_s n = n * Second.
Proof. intros Hn. unfold dur_s. apply i64_id. unfold is_i64, MinInt64, MaxInt64, Second. lia. Qed.

Lemma or_default_exact x d : x ≠ 0 → or_default x d = x.
Proof. unfold or_default. by destruct (Z.eqb_spec x 0). Qed.

Lemma or_default_dur n d : 0 < n ≤ 9223372036 → or_default (dur_s n) d = n * Second.
Proof. intros Hn. rewrite dur_s_exact by lia. apply or_default_exact. unfold Second. lia. Qed.

Lemma SFleb_not_SFltb x y : SFltb x y = true → SFleb y x = false.
Proof.
  intros H. destruct (is_NaN x) eqn:Hx; [by destruct x|]. destruct (is_NaN y) eqn:Hy.
  { by destruct y. }
  rewrite SFltb_not_SFleb in H by done. by apply negb_true_iff in H.
Qed.

Lemma SFleb_NaN x y : is_NaN x = true ∨ is_NaN y = true → SFleb x y = false.
Proof.
  unfold SFleb. intros [H|H]; [destruct x|destruct y]; try done.
  by rewrite SFcompare_NaN_r.
Qed.

Lemma NewPriceTableFromConfig_lookup p m pr :
  NewPriceTableFromConfig p !! m = Some pr →
  ∃ q, Pricing.Models p !! m = Some q ∧ Broker.mp_In pr = Pricing.InCreditsPerToken q ∧
       Broker.mp_Out pr = Pricing.OutCreditsPerToken q.
Proof.
  unfold NewPriceTableFromConfig. rewrite lookup_fmap. intros (q & -> & Hq)%fmap_Some.
  exists q. by subst pr.
Qed.

(** ** A configuration that loads starts *)

Lemma validateConfigForOpen_valid os_Stat a :
  ValidAdmission os_Stat a → validateConfigForOpen (admission_config a) = None.
Proof.
  intros [Hp Hc _ _ _ _ _ Hd]. cbn zeta in Hp. unfold validateConfigForOpen. cbn.
  destruct (Z.leb_spec (AdmissionSection.RollingWindowDays a) 0); [lia|].
  assert (SFleb (AdmissionSection.PressureRejectThreshold a)
                (AdmissionSection.PressureAdmitThreshold a) = false) as ->.
  { destruct Hp as (_ & _ & [?|[?|?]]); [apply SFleb_NaN; by right|apply SFleb_NaN; by left|].
    by apply SFleb_not_SFltb. }
  destruct (Z.leb_spec (AdmissionSection.QueueCap a) 0); [lia|done].
Qed.

Lemma reputation_Open_valid r : ValidReputation r → reputation_Open_checks r = None.
Proof.
  intros [H1 _ _ _ _ H6 H7]. unfold reputation_Open_checks.
  rewrite bool_decide_eq_false_2 by done.
  destruct (Z.leb_spec (ReputationSection.EvaluationIntervalS r) 0); [lia|].
  destruct (Z.leb_spec (ReputationSection.MinPopulationForZScore r) 0); [lia|done].
Qed.

Lemma NewAllocator_valid s :
  0 < STUNTURN.TURNRelayMaxKbps s → 0 < STUNTURN.SessionTTLSeconds s ≤ 9223372036 →
  ∃ a, Relay.NewAllocator (allocator_config s) = Ok a.
Proof.
  intros Hk Ht. unfold Relay.NewAllocator, allocator_config. cbn.
  destruct (Z.leb_spec (STUNTURN.TURNRelayMaxKbps s) 0); [lia|].
  rewrite dur_s_exact by lia. unfold Second.
  destruct (Z.leb_spec (STUNTURN.SessionTTLSeconds s * 1000000000) 0); [lia|eauto].
Qed.

(** A listed peer, and what the subsystem is given of it. *)
Definition decoded (p : FederationSection.FederationPeer) (a : AllowlistedPeer) : Prop :=
  hexToTrackerID (FederationSection.TrackerID p) = Some (al_TrackerID a) ∧
  hexToPubKey (FederationSection.PubKey p) = Some (al_PubKey a) ∧
  al_Addr a = FederationSection.Addr p ∧ al_Region a = FederationSection.Region p.

Lemma federation_peers_decoded l :
  Forall (λ p, is_Some (hexToTrackerID (FederationSection.TrackerID p)) ∧
               is_Some (hexToPubKey (FederationSection.PubKey p))) l →
  ∃ peers, mapM federation_peer l = Some peers ∧ Forall2 decoded l peers.
Proof.
  induction 1 as [|p l [[tid Ht] [pk Hk]] _ (peers & Hm & Hd)]; [by exists []|].
  exists ({| al_TrackerID := tid; al_PubKey := pk; al_Addr := FederationSection.Addr p;
             al_Region := FederationSection.Region p |} :: peers).
  split; [|by constructor].
  assert (federation_peer p = Some {| al_TrackerID := tid; al_PubKey := pk;
    al_Addr := FederationSection.Addr p; al_Region := FederationSection.Region p |}) as Hf
    by (unfold federation_peer; by rewrite Ht, Hk).
  cbn. rewrite Hf. cbn. by rewrite Hm.
Qed.

(** The times the federation runs with are those of the file. *)
Definition configured (f : FederationSection.Config) (fed : FedConfig) : Prop :=
  fc_HandshakeTimeout fed = FederationSection.HandshakeTimeoutS f * Second ∧
  fc_DedupeTTL fed = FederationSection.GossipDedupeTTLS f * Second ∧
  fc_GossipRateQPS fed = FederationSection.GossipRateQPS f ∧
  fc_SendQueueDepth fed = FederationSection.SendQueueDepth f ∧
  fc_PublishCadence fed = FederationSection.PublishCadenceS f * Second ∧
  fc_IdleTimeout fed = FederationSection.IdleTimeoutS f * Second ∧
  fc_RedialBase fed = FederationSection.RedialBaseS f * Second ∧
  fc_RedialMax fed = FederationSection.RedialMaxS f * Second ∧
  Forall2 decoded (FederationSection.Peers f) (fc_Peers fed).

Lemma federation_configured to_int id priv peers f :
  ValidFederation f → FederationSection.GossipDedupeTTLS f ≤ 9223372036 →
  Forall2 decoded (FederationSection.Peers f) peers →
  configured f (withDefaults (federation_config to_int id priv peers f)).
Proof.
  intros [] Hd Hp. unfold configured, withDefaults. cbn.
  rewrite !or_default_dur by lia. rewrite !or_default_exact by lia. split_and!; try done.
  unfold Second. destruct (Z.ltb_spec (FederationSection.RedialMaxS f * 1000000000)
    (FederationSection.RedialBaseS f * 1000000000)); lia.
Qed.

Lemma Load_valid os_Stat ftoa doc c :
  Load os_Stat ftoa doc = inl c → c = ApplyDefaults doc ∧ ValidConfig os_Stat c.
Proof.
  unfold Load. destruct (Validate os_Stat ftoa (ApplyDefaults doc)) eqn:E; [|done].
  intros [= <-]. split; [done|]. by apply Validate_sound in E.
Qed.

Lemma prices_not_free os_Stat c m pr :
  ValidConfig os_Stat c → NewPriceTableFromConfig (cPricing c) !! m = Some pr →
  Broker.mp_In pr ≠ 0 ∧ Broker.mp_Out pr ≠ 0.
Proof.
  intros Hv (q & Hq & -> & ->)%NewPriceTableFromConfig_lookup.
  apply vc_pricing in Hv as [_ Hv]. specialize (Hv _ _ Hq). by destruct Hv as (_ & ? & ?).
Qed.



(** ** What the file cannot say *)

(** Zero stands for the default, so what is documented as "0 disables" cannot be written. *)
Lemma exchange_cannot_be_disabled to_int id priv peers doc :
  let f := cFederation (ApplyDefaults doc) in
  FederationSection.PeerExchangeCadenceS f ≠ 0 ∧
  fc_PeerExchangeCadence (withDefaults (federation_config to_int id priv peers f)) ≠ 0.
Proof.
  cbn. unfold fill, or_default. split.
  - destruct (Z.eqb_spec (FederationSection.PeerExchangeCadenceS (cFederation doc)) 0); lia.
  - destruct (Z.eqb_spec (dur_s (if FederationSection.PeerExchangeCadenceS (cFederation doc) =? 0
      then 3600 else FederationSection.PeerExchangeCadenceS (cFederation doc))) 0); [done|done].
Qed.

(** The duplicate check of [check_peers] compares the text of an identity, which has two
    spellings: one tracker passes as two. *)
Lemma duplicate_peer_passes :
  let p id := {| FederationSection.TrackerID := id; FederationSection.PubKey := id;
                 FederationSection.Addr := "a:1"; FederationSection.Region := "" |} in
  let lo := hex_EncodeToString (replicate 32 (Byte.xaa)) in
  let hi := "AA" +:+ String.substring 2 62 lo in
  check_peers 0 [p lo; p hi] ∅ = [] ∧ hexToTrackerID lo = hexToTrackerID hi.
Proof. by vm_compute. Qed.

(** The check of a peer looks at the length only. *)
Lemma peer_need_not_be_hex :
  let id := String.substring 0 64 (hex_EncodeToString (replicate 31 (Byte.xaa)) +:+ "zz") in
  let p := {| FederationSection.TrackerID := id; FederationSection.PubKey := id;
              FederationSection.Addr := "a:1"; FederationSection.Region := "" |} in
  check_peers 0 [p] ∅ = [] ∧ federation_peer p = None.
Proof. by vm_compute. Qed.

(** A threshold that is NaN passes [Validate] (every comparison with it is false), and then
    admission rejects every request as soon as it knows the supply. *)
Lemma NaN_thresholds_reject (cfg : Credit.AdmissionConfig) score consumer rid jitter now s :
  Credit.ac_PressureAdmitThreshold cfg = S754_nan → Credit.ac_PressureRejectThreshold cfg = S754_nan →
  ss_ComputedAt (Supply (recordDemandTick now s)) ≠ zeroTime →
  ∃ r n, dr_Outcome (fst (Decide cfg score consumer rid jitter now s)) = OutcomeReject r n.
Proof.
  intros Ha Hr Hs. unfold Decide. rewrite Ha, Hr.
  destruct (Z.eqb_spec (ss_ComputedAt (Supply (recordDemandTick now s))) zeroTime); [done|].
  unfold SFltb. rewrite !SFcompare_NaN_r. cbn. eauto.
Qed.
