(* ===== verification/Settings.v ===== *)
(** plugin/internal/settingsjson: how the plugin redirects Claude Code to its sidecar and back,
    by rewriting the user's settings.json and keeping a rollback journal.

    The file is modelled as the JSON document it holds. Decoding is a library's (encoding/json,
    hujson): a file either decodes or not, and may use the extended syntax (comments, trailing
    commas) only hujson accepts. Objects are maps, as the code decodes them; keys are matched
    exactly. A number is a float64, also in the code. What the file system refuses is an
    argument ([FsFaults]). *)
From S2P Require Import Prelude Proto.
From Stdlib Require Import Floats.SpecFloat.

#[local] Open Scope Z_scope.

Inductive Json :=
| JNull | JBool (b : bool) | JNum (x : spec_float) | JStr (s : string)
| JArr (l : list Json) | JObj (m : gmap string Json).

(** A file: [f_extended] is a file whose bytes [hujson.Standardize] changes. *)
Record File := { f_doc : option Json; f_extended : bool }.

Inductive SettingsErr :=
| ErrBedrockProvider | ErrVertexProvider | ErrFoundryProvider | ErrIncompatibleJSONCComments
| ErrPreExistingRedirect | ErrSettingsNotWritable | ErrSymlinkEscapesClaudeDir
| ErrNotExist | ErrIO (what : string)
| Panic (what : string).

#[global] Instance SettingsErr_eq_dec : EqDecision SettingsErr.
Proof. solve_decision. Defined.

Record PreFallback := {
  pf_BaseURLWasSet : bool; pf_BaseURLPriorValue : string; pf_SettingsFileExisted : bool
}.

Record RollbackJournal := {
  rj_EnteredAt : Z; rj_SidecarURL : string; rj_SessionID : string; rj_PreFallback : PreFallback
}.

(** The two files the store owns. *)
Record Store := { s_settings : option File; s_rollback : option RollbackJournal }.

Definition set_settings (f : option File) (s : Store) : Store :=
  {| s_settings := f; s_rollback := s_rollback s |}.
Definition set_rollback (j : option RollbackJournal) (s : Store) : Store :=
  {| s_settings := s_settings s; s_rollback := j |}.

(** Which calls of the file system fail, and with what. *)
Record FsFaults := {
  ff_read : option SettingsErr; ff_resolve : option SettingsErr; ff_mkdir : option SettingsErr;
  ff_journal : option SettingsErr; ff_write : option SettingsErr; ff_remove : option SettingsErr
}.

Definition no_fs_faults : FsFaults := {|
  ff_read := None; ff_resolve := None; ff_mkdir := None; ff_journal := None; ff_write := None;
  ff_remove := None |}.

Record State := {
  st_SettingsFileExists : bool; st_HasJSONCComments : bool; st_ExistingBaseURL : string;
  st_ExistingBaseURLMatches : bool; st_BedrockEnabled : bool; st_VertexEnabled : bool;
  st_FoundryEnabled : bool; st_InNetworkMode : bool
}.

Definition absent_state : State := {|
  st_SettingsFileExists := false; st_HasJSONCComments := false; st_ExistingBaseURL := "";
  st_ExistingBaseURLMatches := false; st_BedrockEnabled := false; st_VertexEnabled := false;
  st_FoundryEnabled := false; st_InNetworkMode := false |}.

Definition isEnvTruthy (v : string) : bool :=
  if bool_decide (v = "") then false
  else negb (bool_decide
    (v ∈ ["0"; "false"; "no"; "off"; "FALSE"; "NO"; "OFF"; "False"; "No"; "Off"]%string)).

(** Decoding into [map[string]string]: a null leaves the zero value. *)
Definition as_string (v : Json) : option string :=
  match v with JStr s => Some s | JNull => Some "" | _ => None end.

Definition string_map (m : gmap string Json) : option (gmap string string) :=
  if bool_decide (map_Forall (λ _ v, is_Some (as_string v)) m)
  then Some (omap as_string m) else None.

(** Decoding into [struct { Env map[string]string }]. *)
Definition decode_env (doc : Json) : option (gmap string string) :=
  match doc with
  | JNull => Some ∅
  | JObj root =>
    match root !! "env" with
    | None | Some JNull => Some ∅
    | Some (JObj env) => string_map env
    | Some _ => None
    end
  | _ => None
  end.

Definition BaseURLKey : string := "ANTHROPIC_BASE_URL".

Definition env_get (env : gmap string string) (k : string) : string := default "" (env !! k).

Definition GetState (ff : FsFaults) (sidecarURL : string) (s : Store) : res SettingsErr State :=
  match ff_read ff with
  | Some e => Err e
  | None =>
    match s_settings s with
    | None => Ok absent_state
    | Some f =>
      match f_doc f with
      | None => Err (ErrIO "parse")
      | Some doc =>
        match decode_env doc with
        | None => Err (ErrIO "unmarshal")
        | Some env =>
          let url := env_get env BaseURLKey in
          let matches := bool_decide (url = sidecarURL) in
          Ok {| st_SettingsFileExists := true; st_HasJSONCComments := f_extended f;
                st_ExistingBaseURL := url; st_ExistingBaseURLMatches := matches;
                st_BedrockEnabled := isEnvTruthy (env_get env "CLAUDE_CODE_USE_BEDROCK");
                st_VertexEnabled := isEnvTruthy (env_get env "CLAUDE_CODE_USE_VERTEX");
                st_FoundryEnabled := isEnvTruthy (env_get env "CLAUDE_CODE_USE_FOUNDRY");
                st_InNetworkMode := matches && bool_decide (is_Some (s_rollback s)) |}
        end
      end
    end
  end.

(** The checks [EnterNetworkMode] and the coordinator's preflight share. *)
Definition incompatible (st : State) : option SettingsErr :=
  if st_BedrockEnabled st then Some ErrBedrockProvider
  else if st_VertexEnabled st then Some ErrVertexProvider
  else if st_FoundryEnabled st then Some ErrFoundryProvider
  else if st_HasJSONCComments st then Some ErrIncompatibleJSONCComments
  else if negb (bool_decide (st_ExistingBaseURL st = "")) && negb (st_ExistingBaseURLMatches st)
  then Some ErrPreExistingRedirect
  else None.

(** [json.Unmarshal] into [map[string]any]; null is the nil map. A file in the extended syntax
    does not decode. *)
Definition root_of (f : File) : option (gmap string Json) :=
  if f_extended f then None
  else match f_doc f with
       | Some (JObj root) => Some root
       | Some JNull => Some ∅
       | _ => None
       end.

Definition mergeWithBaseURL (existing : option File) (sidecarURL : string) : res SettingsErr Json :=
  match (match existing with None => Some ∅ | Some f => root_of f end) with
  | None => Err (ErrIO "parse")
  | Some root =>
    match (match root !! "env" with None => Some ∅ | Some (JObj env) => Some env | Some _ => None end) with
    | None => Err (ErrIO "env is not an object")
    | Some env => Ok (JObj (<["env" := JObj (<[BaseURLKey := JStr sidecarURL]> env)]> root))
    end
  end.

(** What [json.MarshalIndent] writes is plain JSON. *)
Definition plain (doc : Json) : File := {| f_doc := Some doc; f_extended := false |}.

Definition writeRollback (ff : FsFaults) (j : RollbackJournal) : GoM Store SettingsErr unit := λ s,
  match ff_journal ff with
  | Some e => (Err e, s)
  | None => (Ok tt, set_rollback (Some j) s)
  end.

Definition deleteRollback (ff : FsFaults) : GoM Store SettingsErr unit := λ s,
  match ff_remove ff with
  | Some e => (Err e, s)
  | None => (Ok tt, set_rollback None s)
  end.

Definition atomicWriteFile (ff : FsFaults) (doc : Json) : GoM Store SettingsErr unit := λ s,
  match ff_write ff with
  | Some e => (Err e, s)
  | None => (Ok tt, set_settings (Some (plain doc)) s)
  end.

(** The path to write: a symlink is followed, a missing directory is made. *)
Definition write_path (ff : FsFaults) (exists_ : bool) : option SettingsErr :=
  if exists_ then ff_resolve ff else ff_mkdir ff.

Definition EnterNetworkMode (ff : FsFaults) (now : Z) (sidecarURL sessionID : string)
    : GoM Store SettingsErr unit := λ s,
  match GetState ff sidecarURL s with
  | Err e => (Err e, s)
  | Ok st =>
    match incompatible st with
    | Some e => (Err e, s)
    | None =>
      match write_path ff (st_SettingsFileExists st) with
      | Some e => (Err e, s)
      | None =>
        match mergeWithBaseURL (s_settings s) sidecarURL with
        | Err e => (Err e, s)
        | Ok merged =>
          let journal := {|
            rj_EnteredAt := Unix now; rj_SidecarURL := sidecarURL; rj_SessionID := sessionID;
            rj_PreFallback := {|
              pf_BaseURLWasSet := negb (bool_decide (st_ExistingBaseURL st = ""));
              pf_BaseURLPriorValue := st_ExistingBaseURL st;
              pf_SettingsFileExisted := st_SettingsFileExists st |} |} in
          match writeRollback ff journal s with
          | (Err e, s) => (Err e, s)
          | (Ok _, s) =>
            match atomicWriteFile ff merged s with
            | (Err e, s) => (Err e, snd (deleteRollback ff s))
            | (Ok _, s) => (Ok tt, s)
            end
          end
        end
      end
    end
  end.

Definition is_null (f : File) : Prop := match f_doc f with Some JNull => True | _ => False end.

#[global] Instance is_null_dec f : Decision (is_null f).
Proof. unfold is_null. destruct (f_doc f) as [[]|]; apply _. Defined.

(** [env, _ = envAny.(map[string]any)], and a fresh map when that is nil. *)
Definition env_or_empty (root : gmap string Json) : gmap string Json :=
  match root !! "env" with Some (JObj env) => env | _ => ∅ end.

Definition restoreFromJournal (ff : FsFaults) (j : RollbackJournal) : GoM Store SettingsErr unit := λ s,
  match s_settings s with
  | None => (Ok tt, s)
  | Some f =>
    match ff_resolve ff with
    | Some e => (Err e, s)
    | None =>
      match ff_read ff with
      | Some e => (Err e, s)
      | None =>
        match root_of f with
        | None => (Err (ErrIO "parse"), s)
        | Some root =>
          (* a file that holds null decodes to the nil map, which cannot be assigned to *)
          if bool_decide (is_null f) then (Err (Panic "assignment to entry in nil map"), s) else
          let env := env_or_empty root in
          let env := if pf_BaseURLWasSet (rj_PreFallback j)
                     then <[BaseURLKey := JStr (pf_BaseURLPriorValue (rj_PreFallback j))]> env
                     else delete BaseURLKey env in
          atomicWriteFile ff (JObj (<["env" := JObj env]> root)) s
        end
      end
    end
  end.

Definition ExitNetworkMode (ff : FsFaults) : GoM Store SettingsErr unit := λ s,
  match s_rollback s with
  | None => (Err ErrNotExist, s)
  | Some j =>
    match restoreFromJournal ff j s with
    | (Err e, s) => (Err e, s)
    | (Ok _, s) => deleteRollback ff s
    end
  end.

(** The document without our redirect, if it is there. *)
Definition stripBaseURLIfMatches (f : File) (sidecarURL : string) : res SettingsErr (option Json) :=
  match root_of f with
  | None => Err (ErrIO "parse")
  | Some root =>
    match root !! "env" with
    | Some (JObj env) =>
      match env !! BaseURLKey with
      | Some (JStr current) =>
        if bool_decide (current = sidecarURL)
        then Ok (Some (JObj (<["env" := JObj (delete BaseURLKey env)]> root))) else Ok None
      | _ => Ok None
      end
    | _ => Ok None
    end
  end.

Definition ExitNetworkModeBestEffort (ff : FsFaults) (sidecarURL : string)
    : GoM Store SettingsErr unit := λ s,
  match s_settings s with
  | None => (Ok tt, s)
  | Some f =>
    match ff_resolve ff with
    | Some e => (Err e, s)
    | None =>
      match ff_read ff with
      | Some e => (Err e, s)
      | None =>
        match stripBaseURLIfMatches f sidecarURL with
        | Err e => (Err e, s)
        | Ok None => (Ok tt, s)
        | Ok (Some doc) => atomicWriteFile ff doc s
        end
      end
    end
  end.

(** ** What the files say *)

(** The environment Claude Code reads, and the other settings. *)
Definition env_of (s : Store) : gmap string string :=
  match s_settings s with
  | None => ∅
  | Some f => default ∅ (f_doc f ≫= decode_env)
  end.

Definition field (k : string) (s : Store) : option Json :=
  match s_settings s with Some f => root_of f ≫= (λ root, root !! k) | None => None end.

Definition redirect (s : Store) : string := env_get (env_of s) BaseURLKey.

Lemma string_map_Some m e :
  string_map m = Some e ↔ e = omap as_string m ∧ map_Forall (λ _ v, is_Some (as_string v)) m.
Proof. unfold string_map. case_bool_decide; naive_solver. Qed.

Lemma string_map_insert m e k v :
  string_map m = Some e → string_map (<[k := JStr v]> m) = Some (<[k := v]> e).
Proof.
  rewrite !string_map_Some. intros [-> Hm]. split.
  - apply map_eq. intros i. rewrite lookup_omap. destruct (decide (i = k)) as [->|Hk].
    + by rewrite !lookup_insert_eq.
    + by rewrite !lookup_insert_ne, lookup_omap by done.
  - by apply map_Forall_insert_2; [eexists|].
Qed.

Lemma string_map_delete m e k : string_map m = Some e → string_map (delete k m) = Some (delete k e).
Proof.
  rewrite !string_map_Some. intros [-> Hm]. split; [by rewrite omap_delete|].
  by apply map_Forall_delete.
Qed.

(** A root with another environment. *)
Lemma decode_env_insert root env e :
  string_map env = Some e → decode_env (JObj (<["env" := JObj env]> root)) = Some e.
Proof. intros He. cbn. by rewrite lookup_insert_eq. Qed.

Lemma root_of_plain root : root_of (plain (JObj root)) = Some root.
Proof. done. Qed.

(** What Enter merges decodes: the environment with the redirect. *)
Lemma merge_decodes f url doc :
  mergeWithBaseURL (Some f) url = Ok doc →
  ∃ root env, root_of f = Some root ∧ env = env_or_empty root ∧
    (root !! "env" = None ∨ root !! "env" = Some (JObj env)) ∧
    doc = JObj (<["env" := JObj (<[BaseURLKey := JStr url]> env)]> root).
Proof.
  unfold mergeWithBaseURL, env_or_empty. destruct (root_of f) as [root|]; [|done].
  destruct (root !! "env") as [[]|] eqn:E; try done; intros [= <-]; exists root; eexists; rewrite E; split_and!; eauto.
Qed.

(** A plain file reads the same by both decoders. *)
Lemma root_of_decode f root doc :
  root_of f = Some root → f_doc f = Some doc → is_null f ∨ doc = JObj root.
Proof.
  unfold root_of, is_null. destruct (f_extended f); [done|]. intros H Hd. rewrite Hd in *.
  destruct doc; try done; [by left|right; congruence].
Qed.

Lemma decode_env_root f root env e doc :
  root_of f = Some root → (root !! "env" = None ∨ root !! "env" = Some (JObj env)) →
  env = env_or_empty root → f_doc f = Some doc → decode_env doc = Some e → string_map env = Some e.
Proof.
  intros Hr He Henv Hd Hdec.
  destruct (root_of_decode f root doc Hr Hd) as [Hn| ->].
  - unfold is_null, root_of in *. rewrite Hd in *. destruct doc; try done.
    destruct (f_extended f); [done|]. injection Hr as <-.
    unfold env_or_empty in Henv. rewrite lookup_empty in Henv. subst env. cbn in Hdec. by injection Hdec as <-.
  - cbn in Hdec. destruct He as [He|He]; rewrite He in Hdec; [|done].
    unfold env_or_empty in Henv. rewrite He in Henv. subst env. by injection Hdec as <-.
Qed.

(** What a successful Enter leaves: the redirect and the journal of what was there. *)
Lemma Enter_spec ff now url sid s s1 :
  EnterNetworkMode ff now url sid s = (Ok tt, s1) →
  (∃ env root, string_map env = Some (<[BaseURLKey := url]> (env_of s)) ∧
     s_settings s1 = Some (plain (JObj (<["env" := JObj env]> root))) ∧
     ∀ k, k ≠ "env" → root !! k = field k s) ∧
  (redirect s = "" ∨ redirect s = url) ∧
  ∃ j, s_rollback s1 = Some j ∧
    pf_BaseURLWasSet (rj_PreFallback j) = negb (bool_decide (redirect s = "")) ∧
    pf_BaseURLPriorValue (rj_PreFallback j) = redirect s.
Proof.
  unfold EnterNetworkMode, GetState, redirect. destruct (ff_read ff); [done|].
  destruct (s_settings s) as [f|] eqn:Es.
  - destruct (f_doc f) as [doc|] eqn:Ed; [|done]. destruct (decode_env doc) as [e|] eqn:Edec; [|done].
    assert (env_of s = e) as Henv by (unfold env_of; rewrite Es, Ed; cbn; by rewrite Edec).
    destruct (incompatible _) eqn:Ei; [done|]. destruct (write_path _ _); [done|].
    destruct (mergeWithBaseURL (Some f) url) as [merged|] eqn:Em; [|done].
    unfold writeRollback, atomicWriteFile. destruct (ff_journal ff); [done|].
    destruct (ff_write ff); [done|]. intros [= <-]. cbn.
    destruct (merge_decodes _ _ _ Em) as (root & env & Hr & Hee & He & ->).
    pose proof (decode_env_root _ _ _ _ _ Hr He Hee Ed Edec) as Hsm.
    split_and!.
    + exists (<[BaseURLKey := JStr url]> env), root. split_and!.
      * rewrite Henv. by apply string_map_insert.
      * done.
      * intros k Hk. unfold field. by rewrite Es, Hr.
    + unfold incompatible in Ei. cbn in Ei. rewrite Henv. repeat (case_match; try done).
      apply andb_false_iff in H3 as [H3|H3]; [left|right];
        apply negb_false_iff in H3; by apply bool_decide_eq_true in H3.
    + eexists. split; [done|]. cbn. by rewrite Henv.
  - assert (env_of s = ∅) as Henv by (unfold env_of; by rewrite Es).
    destruct (incompatible _) eqn:Ei; [done|]. destruct (write_path _ _); [done|].
    unfold writeRollback, atomicWriteFile. cbn. destruct (ff_journal ff); [done|].
    destruct (ff_write ff); [done|]. intros [= <-]. cbn. rewrite Henv. split_and!.
    + exists {[BaseURLKey := JStr url]}, ∅. split_and!; [|done|].
      * rewrite <- insert_empty. by apply string_map_insert.
      * intros k Hk. unfold field. by rewrite Es.
    + by left.
    + eexists. split; [done|]. done.
Qed.

(** Exit rewrites the redirect by the journal and touches nothing else, whatever the user did
    to the file in between. *)
Lemma Exit_spec j env root s :
  s_rollback s = Some j → s_settings s = Some (plain (JObj root)) → root !! "env" = Some (JObj env) →
  let env' := if pf_BaseURLWasSet (rj_PreFallback j)
              then <[BaseURLKey := JStr (pf_BaseURLPriorValue (rj_PreFallback j))]> env
              else delete BaseURLKey env in
  ExitNetworkMode no_fs_faults s =
    (Ok tt, {| s_settings := Some (plain (JObj (<["env" := JObj env']> root))); s_rollback := None |}).
Proof.
  intros Hj Hs He env'. unfold ExitNetworkMode, restoreFromJournal. rewrite Hj, Hs. cbn.
  unfold env_or_empty. rewrite He. subst env'. by destruct (pf_BaseURLWasSet _).
Qed.

Lemma env_get_insert env k v k' : env_get (<[k := v]> env) k' = if decide (k' = k) then v else env_get env k'.
Proof.
  unfold env_get. destruct (decide (k' = k)) as [->|Hk]; [by rewrite lookup_insert_eq|].
  by rewrite lookup_insert_ne by done.
Qed.

Lemma env_get_delete env k k' : env_get (delete k env) k' = if decide (k' = k) then "" else env_get env k'.
Proof.
  unfold env_get. destruct (decide (k' = k)) as [->|Hk]; [by rewrite lookup_delete_eq|].
  by rewrite lookup_delete_ne by done.
Qed.

Lemma env_of_plain env e root rb :
  string_map env = Some e →
  env_of {| s_settings := Some (plain (JObj (<["env" := JObj env]> root))); s_rollback := rb |} = e.
Proof. intros He. unfold env_of. cbn. rewrite lookup_insert_eq. by rewrite He. Qed.

(** Entering network mode redirects Claude Code to the sidecar, and leaving it gives the user
    back every environment variable and every other setting, as they were; the journal is gone. *)
Lemma enter_exit_restores (ff : FsFaults) (now : Z) (url sid : string) (s s1 : Store) :
  EnterNetworkMode ff now url sid s = (Ok tt, s1) → redirect s ≠ url → url ≠ "" →
  redirect s1 = url ∧
  ∃ s2, ExitNetworkMode no_fs_faults s1 = (Ok tt, s2) ∧ s_rollback s2 = None ∧
    (∀ k, env_get (env_of s2) k = env_get (env_of s) k) ∧
    (∀ k, k ≠ "env" → field k s2 = field k s).
Proof.
  intros H Hne Hu.
  destruct (Enter_spec _ _ _ _ _ _ H) as ((env & root & He & Hs1 & Hroot) & Hred & j & Hj & Hset & Hval).
  destruct s1 as [st1 rb1]. cbn in Hs1, Hj. subst st1 rb1. split.
  { unfold redirect. rewrite (env_of_plain _ _ _ _ He). rewrite env_get_insert. by rewrite decide_True. }
  eexists. split; [eapply Exit_spec; [done|done|apply lookup_insert_eq]|].
  destruct Hred as [Hred|Hred]; [|done].
  rewrite Hset, Hred, bool_decide_eq_true_2 by done. cbn [negb].
  split_and!; [done| |].
  - intros k. erewrite env_of_plain by (by apply string_map_delete).
    rewrite delete_insert_eq, env_get_delete. destruct (decide (k = BaseURLKey)) as [->|]; [|done].
    by rewrite <- Hred.
  - intros k Hk. unfold field at 1. cbn. rewrite !lookup_insert_ne by done. by apply Hroot.
Qed.

Definition sample_settings : Store := {|
  s_settings := Some (plain (JObj {[ "env" := JObj {[ "EDITOR" := JStr "vi" ]}; "theme" := JStr "dark" ]}));
  s_rollback := None |}.

Definition sample_url : string := "http://127.0.0.1:4000/".

Lemma enter_exit_restores_witness :
  ∃ s1 s2, EnterNetworkMode no_fs_faults 0 sample_url "a" sample_settings = (Ok tt, s1) ∧
    redirect s1 = sample_url ∧ ExitNetworkMode no_fs_faults s1 = (Ok tt, s2) ∧
    env_get (env_of s2) "EDITOR" = "vi" ∧ field "theme" s2 = Some (JStr "dark").
Proof.
  exists (snd (EnterNetworkMode no_fs_faults 0 sample_url "a" sample_settings)).
  assert (EnterNetworkMode no_fs_faults 0 sample_url "a" sample_settings =
    (Ok tt, snd (EnterNetworkMode no_fs_faults 0 sample_url "a" sample_settings))) as He
    by (vm_compute; reflexivity).
  destruct (enter_exit_restores no_fs_faults 0 sample_url "a" sample_settings _ He)
    as (Hr & s2 & Hx & _ & Henv & Hf); [by vm_compute|done|].
  exists s2. split; [exact He|]. split; [exact Hr|]. split; [exact Hx|].
  split; [rewrite Henv; by vm_compute|rewrite Hf by done; by vm_compute].
Defined.

(** Entering again while the redirect is live (another session, or the same one once more)
    journals the sidecar's own address as the user's: the exit restores the redirect and drops the
    journal. *)
Lemma second_enter_keeps_redirect :
  let enter s := snd (EnterNetworkMode no_fs_faults 0 sample_url "a" s) in
  let s := snd (ExitNetworkMode no_fs_faults (enter (enter sample_settings))) in
  redirect sample_settings = "" ∧ redirect s = sample_url ∧ s_rollback s = None.
Proof. by vm_compute. Qed.

(** A file that was not there is not removed, though the journal knows. *)
Lemma exit_leaves_a_file :
  let s0 := {| s_settings := None; s_rollback := None |} in
  let s1 := snd (EnterNetworkMode no_fs_faults 0 sample_url "a" s0) in
  s_settings (snd (ExitNetworkMode no_fs_faults s1)) = Some (plain (JObj {[ "env" := JObj ∅ ]})).
Proof. by vm_compute. Qed.

(** The best-effort exit removes our redirect and nobody else's. *)
Lemma BestEffort_spec s root env url :
  s_settings s = Some (plain (JObj root)) → root !! "env" = Some (JObj env) →
  let '(r, s') := ExitNetworkModeBestEffort no_fs_faults url s in
  r = Ok tt ∧
  (env !! BaseURLKey = Some (JStr url) →
     s_settings s' = Some (plain (JObj (<["env" := JObj (delete BaseURLKey env)]> root)))) ∧
  (env !! BaseURLKey ≠ Some (JStr url) → s' = s).
Proof.
  intros Hs He. unfold ExitNetworkModeBestEffort. rewrite Hs. cbn.
  unfold stripBaseURLIfMatches, root_of. cbn. rewrite He.
  destruct (env !! BaseURLKey) as [[]|] eqn:Ek; try (split_and!; [done|congruence|done]).
  case_bool_decide as Hu; [subst|]; (split_and!; [done| |]); congruence || done.
Qed.
