(* ===== verification/RateGate.v ===== *)
(** plugin/internal/ratelimit: the gate a consumer passes before it spends credits. The parser of
    what `claude /usage` prints, the verdict matrix, and the freshness of the two signals.

    The two regular expressions of usage.go are written out as matchers on byte values: both are
    deterministic but for the choice after ESC ], which tries the operating-system command
    first. *)
From S2P Require Import Prelude Proto.

#[local] Open Scope Z_scope.

Definition ErrorRateLimit : string := "rate_limit".

Inductive UsageVerdict := UsageExhausted | UsageHeadroom | UsageUncertain.
Inductive Trigger := TriggerHook | TriggerManual.
Inductive GateVerdict :=
| VerdictProceed | VerdictRefuseManualOK | VerdictRefuseWithReason | VerdictSkipHook.

#[global] Instance UsageVerdict_eq_dec : EqDecision UsageVerdict.
Proof. solve_decision. Defined.
#[global] Instance Trigger_eq_dec : EqDecision Trigger.
Proof. solve_decision. Defined.
#[global] Instance GateVerdict_eq_dec : EqDecision GateVerdict.
Proof. solve_decision. Defined.

Definition UsageVerdict_String (v : UsageVerdict) : string :=
  match v with
  | UsageExhausted => "exhausted" | UsageHeadroom => "headroom" | UsageUncertain => "uncertain"
  end.

Definition GateVerdict_String (v : GateVerdict) : string :=
  match v with
  | VerdictProceed => "proceed"
  | VerdictRefuseManualOK => "refuse-manual-ok"
  | VerdictRefuseWithReason => "refuse-with-reason"
  | VerdictSkipHook => "skip-hook"
  end.

Definition ApplyVerdictMatrix (t : Trigger) (hookErr : string) (u : UsageVerdict) : GateVerdict :=
  match t with
  | TriggerHook =>
    if negb (bool_decide (hookErr = ErrorRateLimit)) then VerdictSkipHook
    else match u with
         | UsageExhausted | UsageUncertain => VerdictProceed
         | UsageHeadroom => VerdictRefuseManualOK
         end
  | TriggerManual =>
    match u with
    | UsageExhausted => VerdictProceed
    | UsageHeadroom | UsageUncertain => VerdictRefuseWithReason
    end
  end.

Definition maxSignalDriftSec : Z := 60.
Definition maxSignalAgeSec : Z := 120.

(** On int64 seconds. *)
Definition CheckFreshness (stopFailureAt usageProbeAt now : Z) : bool :=
  let drift := i64 (stopFailureAt - usageProbeAt) in
  let drift := if drift <? 0 then i64 (- drift) else drift in
  if maxSignalDriftSec <? drift then false
  else if maxSignalAgeSec <? i64 (now - stopFailureAt) then false
  else if maxSignalAgeSec <? i64 (now - usageProbeAt) then false
  else true.

(** ** The usage probe *)

Definition exhaustedThreshold : Z := 95.

(** The classes of the expressions, on byte values. *)
Definition csi_param (c : Z) : bool := ((48 <=? c) && (c <=? 57)) || (c =? 59) || (c =? 63).
Definition csi_final (c : Z) : bool := (64 <=? c) && (c <=? 126).
Definition esc_single (c : Z) : bool := ((64 <=? c) && (c <=? 90)) || ((92 <=? c) && (c <=? 95)).
Definition is_digit (c : Z) : bool := (48 <=? c) && (c <=? 57).
Definition is_space (c : Z) : bool := (1 <=? c) && (c <=? 32).

(** What follows a control sequence, after ESC [. *)
Fixpoint csi_rest (s : list Z) : option (list Z) :=
  match s with
  | [] => None
  | c :: s' => if csi_param c then csi_rest s' else if csi_final c then Some s' else None
  end.

(** What follows an operating-system command, after ESC ]. *)
Fixpoint osc_rest (s : list Z) : option (list Z) :=
  match s with
  | [] => None
  | c :: s' =>
    if c =? 7 then Some s'
    else if c =? 27 then match s' with 92 :: s'' => Some s'' | _ => None end
    else osc_rest s'
  end.

(** [ansiEscapeRE] at ESC: the rest behind the match, if there is one. *)
Definition escape_rest (s : list Z) : option (list Z) :=
  match s with
  | [] => None
  | c :: s' =>
    let alone := if esc_single c then Some s' else None in
    if c =? 91 then match csi_rest s' with Some r => Some r | None => alone end
    else if c =? 93 then match osc_rest s' with Some r => Some r | None => alone end
    else alone
  end.

(** [ReplaceAll(data, nil)]; a match makes the rest shorter, so the length is enough fuel. *)
Fixpoint strip (fuel : nat) (s : list Z) : list Z :=
  match fuel with
  | O => []
  | S fuel' =>
    match s with
    | [] => []
    | c :: s' =>
      if c =? 27 then
        match escape_rest s' with Some r => strip fuel' r | None => c :: strip fuel' s' end
      else c :: strip fuel' s'
    end
  end.

Definition ansi_strip (s : list Z) : list Z := strip (length s) s.

Fixpoint take_digits (s : list Z) : list Z * list Z :=
  match s with
  | c :: s' => if is_digit c then let '(d, r) := take_digits s' in (c :: d, r) else ([], s)
  | [] => ([], [])
  end.

Fixpoint skip_space (s : list Z) : list Z :=
  match s with c :: s' => if is_space c then skip_space s' else s | [] => [] end.

(** The letters of [used]. *)
Definition used_word : list Z := [117; 115; 101; 100].

(** [usagePctUsedRE] behind the digits. *)
Definition pct_used (s : list Z) : option (list Z) :=
  match s with
  | 37 :: s' =>
    let r := skip_space s' in
    if bool_decide (take 4 r = used_word) then Some (drop 4 r) else None
  | _ => None
  end.

(** [FindAllSubmatch]: the digits of every match, left to right. A run of digits that does not
    match is left as a whole. *)
Fixpoint tokens (fuel : nat) (s : list Z) : list (list Z) :=
  match fuel with
  | O => []
  | S fuel' =>
    match s with
    | [] => []
    | c :: s' =>
      if is_digit c then
        let '(d, r) := take_digits s in
        match pct_used r with Some r' => d :: tokens fuel' r' | None => tokens fuel' r end
      else tokens fuel' s'
    end
  end.

(** The loop of [atoiBytes]. *)
Fixpoint atoi_loop (n : Z) (b : list Z) : Z :=
  match b with
  | [] => n
  | c :: b' => if (c <? 48) || (57 <? c) then n else atoi_loop (i64 (n * 10 + (c - 48))) b'
  end.

Definition atoiBytes (b : list Z) : Z := atoi_loop 0 b.

Definition ParseUsageProbe (data : bytes) : UsageVerdict :=
  let stripped := ansi_strip (Z_of_byte <$> data) in
  let matches := tokens (length stripped) stripped in
  if (length matches <? 2)%nat then UsageUncertain
  else if existsb (λ m, exhaustedThreshold <=? atoiBytes m) matches then UsageExhausted
  else UsageHeadroom.

(** ** Properties *)

(** Credits are spent only after a 429 the probe does not contradict, or on request when the
    probe shows exhaustion. *)
Lemma proceed_iff t e u :
  ApplyVerdictMatrix t e u = VerdictProceed ↔
  u = UsageExhausted ∧ (t = TriggerHook → e = ErrorRateLimit) ∨
  u = UsageUncertain ∧ t = TriggerHook ∧ e = ErrorRateLimit.
Proof.
  unfold ApplyVerdictMatrix. destruct t, u; try case_bool_decide; cbn; naive_solver.
Qed.

Lemma CheckFreshness_exact a b now :
  0 ≤ a < 2 ^ 62 → 0 ≤ b < 2 ^ 62 → 0 ≤ now < 2 ^ 62 →
  CheckFreshness a b now = true ↔ Z.abs (a - b) ≤ 60 ∧ now - a ≤ 120 ∧ now - b ≤ 120.
Proof.
  intros Ha Hb Hn. unfold CheckFreshness, maxSignalDriftSec, maxSignalAgeSec. cbn zeta.
  rewrite !(i64_id (_ - _)) by (unfold is_i64; lia).
  destruct (Z.ltb_spec (a - b) 0).
  - rewrite i64_id by (unfold is_i64; lia).
    repeat match goal with |- context [?x <? ?y] => destruct (Z.ltb_spec x y) end;
      split; intros; try done; lia.
  - repeat match goal with |- context [?x <? ?y] => destruct (Z.ltb_spec x y) end;
      split; intros; try done; lia.
Qed.

Lemma osc_rest_length s : ∀ r, osc_rest s = Some r → (length r < length s)%nat.
Proof.
  induction s as [|c s IH]; intros r; cbn; [done|].
  destruct (c =? 7); [intros [= <-]; lia|]. destruct (c =? 27).
  - destruct s as [|x s']; [done|]. repeat (case_match; try done). intros [= <-]. cbn. lia.
  - intros Hr. apply IH in Hr. lia.
Qed.

Lemma csi_rest_length s : ∀ r, csi_rest s = Some r → (length r < length s)%nat.
Proof.
  induction s as [|c s IH]; intros r; cbn; [done|].
  destruct (csi_param c); [intros Hr; apply IH in Hr; lia|].
  destruct (csi_final c); [intros [= <-]; lia|done].
Qed.

Lemma escape_rest_length s r : escape_rest s = Some r → (length r < length s)%nat.
Proof.
  destruct s as [|c s]; [done|]. cbn.
  destruct (c =? 91); [|destruct (c =? 93)].
  - destruct (csi_rest s) eqn:E; [intros [= <-]; apply csi_rest_length in E; lia|].
    destruct (esc_single c); [intros [= <-]; lia|done].
  - destruct (osc_rest s) eqn:E; [intros [= <-]; apply osc_rest_length in E; lia|].
    destruct (esc_single c); [intros [= <-]; lia|done].
  - destruct (esc_single c); [intros [= <-]; lia|done].
Qed.

(** More fuel changes nothing. *)
Lemma strip_fuel n s : (length s <= n)%nat → strip n s = ansi_strip s.
Proof.
  unfold ansi_strip. revert n. induction s as [s IH] using (induction_ltof1 _ length). intros n Hn.
  destruct s as [|c s]; [by destruct n|]. destruct n as [|n]; [cbn in Hn; lia|]. cbn in Hn.
  cbn [strip length]. destruct (c =? 27).
  - destruct (escape_rest s) as [r|] eqn:E.
    + apply escape_rest_length in E. rewrite (IH r) by (unfold ltof; cbn; lia).
      symmetry. apply IH; unfold ltof; cbn; lia.
    + f_equal. rewrite (IH s) by (unfold ltof; cbn; lia). done.
  - f_equal. rewrite (IH s) by (unfold ltof; cbn; lia). done.
Qed.

(** Text without ESC is left as it is. *)
Lemma strip_plain s : Forall (λ c, c ≠ 27) s → ansi_strip s = s.
Proof.
  unfold ansi_strip. induction 1 as [|c s Hc _ IH]; [done|]. cbn [strip length].
  apply Z.eqb_neq in Hc as ->. by rewrite IH.
Qed.

(** A rendered percentage. *)
Definition render (d : list Z) : list Z := d ++ [37; 32] ++ used_word.

Lemma take_digits_app d r :
  Forall (λ c, is_digit c = true) d → (∀ c r', r = c :: r' → is_digit c = false) →
  take_digits (d ++ r) = (d, r).
Proof.
  intros Hd Hr. induction Hd as [|c d Hc _ IH]; cbn [app take_digits].
  - destruct r as [|c r]; [done|]. cbn [take_digits]. by rewrite (Hr c r).
  - by rewrite Hc, IH.
Qed.

Lemma tokens_text n sep s :
  Forall (λ c, is_digit c = false) sep → (length (sep ++ s) <= n)%nat →
  ∃ m, (length s <= m)%nat ∧ tokens n (sep ++ s) = tokens m s.
Proof.
  intros Hs. revert n. induction Hs as [|c sep Hc _ IH]; intros n Hn; [by exists n|].
  destruct n as [|n]; [cbn in Hn; lia|]. cbn in Hn. destruct (IH n) as (m & Hm & He); [lia|].
  exists m. split; [done|]. cbn [app tokens]. by rewrite Hc.
Qed.

Lemma tokens_render n d s :
  Forall (λ c, is_digit c = true) d → d ≠ [] → (length (render d ++ s) <= n)%nat →
  ∃ m, (length s <= m)%nat ∧ tokens n (render d ++ s) = d :: tokens m s.
Proof.
  intros Hd Hne Hn. unfold render in *. rewrite <- app_assoc in *.
  destruct d as [|c d]; [done|]. destruct n as [|n]; [cbn in Hn; lia|].
  exists n. rewrite length_app in Hn. split; [cbn in Hn; lia|].
  inversion Hd as [|?? Hc Hd']; subst.
  assert (take_digits ((c :: d) ++ [37; 32] ++ used_word ++ s) = (c :: d, [37; 32] ++ used_word ++ s))
    as Ht by (apply take_digits_app; [done|by intros ?? [= <- _]]).
  cbn [app] in Ht |- *. cbn [tokens]. rewrite Hc, Ht. done.
Qed.

(** A screen: text without digits around rendered percentages. *)
Fixpoint screen (pre : list Z) (items : list (list Z * list Z)) : list Z :=
  pre ++ match items with [] => [] | (d, sep) :: items' => render d ++ screen sep items' end.

Lemma tokens_screen pre items n :
  Forall (λ c, is_digit c = false) pre →
  Forall (λ i, i.1 ≠ [] ∧ Forall (λ c, is_digit c = true) i.1 ∧
               Forall (λ c, is_digit c = false) i.2) items →
  (length (screen pre items) <= n)%nat → tokens n (screen pre items) = items.*1.
Proof.
  revert pre n. induction items as [|[d sep] items IH]; intros pre n Hpre Hi Hn; cbn [screen] in *.
  - rewrite app_nil_r in *. destruct (tokens_text n pre [] Hpre) as (m & _ & He);
      rewrite app_nil_r in *; [done|]. rewrite He. by destruct m.
  - inversion Hi as [|?? (Hne & Hd & Hsep) Hi']; subst. cbn in Hne, Hd, Hsep.
    destruct (tokens_text n pre _ Hpre Hn) as (m & Hm & ->).
    destruct (tokens_render m d _ Hd Hne Hm) as (k & Hk & ->).
    csimpl. f_equal. by apply IH.
Qed.

Lemma Z_of_byte_list s : Forall (λ c, 0 ≤ c < 256) s → Z_of_byte <$> (byte_of_Z <$> s) = s.
Proof.
  induction 1 as [|c s Hc _ IH]; [done|]. cbn. by rewrite IH, Z_of_byte_of_Z, Z.mod_small.
Qed.

(** What the probe makes of a screen: uncertain with fewer than two percentages, exhausted when
    one of them is 95 or more, headroom otherwise. Neither the text between the percentages nor
    their order matters. *)
Lemma ParseUsageProbe_screen pre items :
  let text := screen pre items in
  Forall (λ c, 0 ≤ c < 256 ∧ c ≠ 27) text →
  Forall (λ c, is_digit c = false) pre →
  Forall (λ i, i.1 ≠ [] ∧ Forall (λ c, is_digit c = true) i.1 ∧
               Forall (λ c, is_digit c = false) i.2) items →
  ParseUsageProbe (byte_of_Z <$> text) =
  if (length items <? 2)%nat then UsageUncertain
  else if existsb (λ i, exhaustedThreshold <=? atoiBytes i.1) items then UsageExhausted
  else UsageHeadroom.
Proof.
  intros text Ht Hpre Hi. unfold ParseUsageProbe.
  rewrite Z_of_byte_list by (eapply Forall_impl; [exact Ht|by intros ? []]).
  rewrite strip_plain by (eapply Forall_impl; [exact Ht|by intros ? []]). cbn zeta.
  rewrite (tokens_screen pre items _ Hpre Hi) by done.
  rewrite length_fmap. destruct (length items <? 2)%nat; [done|].
  replace (existsb (λ m, exhaustedThreshold <=? atoiBytes m) items.*1)
    with (existsb (λ i, exhaustedThreshold <=? atoiBytes i.1) items); [done|].
  clear. induction items as [|i items IH]; [done|]. cbn. by rewrite IH.
Qed.

(** One window at 99 % is not exhaustion, whatever the comment says: fewer than two percentages
    are uncertain. *)
Lemma single_window_is_uncertain :
  ParseUsageProbe (string_bytes "99% used") = UsageUncertain ∧
  ParseUsageProbe (string_bytes "99% used 3% used") = UsageExhausted ∧
  ParseUsageProbe (string_bytes "12% used 3% used") = UsageHeadroom.
Proof. by vm_compute. Qed.
