(* ===== verification/Builders.v ===== *)
(** What a consumer sends and reads: plugin/internal/exhaustionproofbuilder (the proof that the
    rate limit is real), plugin/internal/envelopebuilder (the signed request), plugin/internal/identity
    (the key that signs), and the reader of the preimage the consumer is asked to countersign
    (plugin/internal/consumerflow/settlement.go).

    Clock readings and random bytes are arguments; [None] is a read of the random source that
    failed. *)
From S2P Require Import Prelude Proto Signing Entry.

#[local] Open Scope Z_scope.

(** A random read into a buffer of [n] bytes. *)
Definition fill (n : nat) (r : bytes) : bytes := take n (r ++ zero_bytes n).

Lemma length_fill n r : length (fill n r) = n.
Proof. unfold fill. rewrite length_take, length_app. unfold zero_bytes. rewrite length_replicate. lia. Qed.

#[global] Arguments fill : simpl never.

(** [unixSecondsU] of both builders. *)
Definition unixSecondsU (t : Z) : Z := if Unix t <? 0 then 0 else Unix t.

(** ** The exhaustion proof *)

Module Proof.
Inductive BuildErr := ErrInvalidInput (what : string) | ErrRandFailed | ErrValidation (e : string).

Definition nonceLen : nat := 16.

Record ProofInput := {
  StopFailureMatcher : string; StopFailureAt : Z; StopFailureErrorShape : bytes;
  UsageProbeAt : Z; UsageProbeOutput : bytes
}.

Definition validateInput (i : ProofInput) : option BuildErr :=
  if bool_decide (StopFailureMatcher i = "") then Some (ErrInvalidInput "StopFailureMatcher is empty")
  else if StopFailureAt i =? zeroTime then Some (ErrInvalidInput "StopFailureAt is zero")
  else if UsageProbeAt i =? zeroTime then Some (ErrInvalidInput "UsageProbeAt is zero")
  else if blen (StopFailureErrorShape i) =? 0
  then Some (ErrInvalidInput "StopFailureErrorShape is empty")
  else if blen (UsageProbeOutput i) =? 0 then Some (ErrInvalidInput "UsageProbeOutput is empty")
  else None.

Definition Build (now : Z) (rand : option bytes) (i : ProofInput) : res BuildErr ExhaustionProofV1 :=
  match validateInput i with
  | Some e => Err e
  | None =>
    match rand with
    | None => Err ErrRandFailed
    | Some r =>
      let proof := {|
        ep_StopFailure := Some {| sf_Matcher := StopFailureMatcher i;
                                  sf_At := unixSecondsU (StopFailureAt i);
                                  sf_ErrorShape := StopFailureErrorShape i |};
        ep_UsageProbe := Some {| up_At := unixSecondsU (UsageProbeAt i);
                                 up_Output := UsageProbeOutput i |};
        ep_CapturedAt := unixSecondsU now;
        ep_Nonce := fill nonceLen r |} in
      match ValidateProofV1 (Some proof) with
      | Some e => Err (ErrValidation e)
      | None => Ok proof
      end
    end
  end.

Lemma Build_valid now rand i p : Build now rand i = Ok p → ValidateProofV1 (Some p) = None.
Proof.
  unfold Build. destruct (validateInput i); [done|]. destruct rand; [|done]. cbn zeta.
  destruct (ValidateProofV1 _) eqn:E; [done|]. intros [= <-]. exact E.
Qed.

(** With a clock after 1970 the builder fails only when the two signals are more than a minute
    apart, the error is not a rate limit, or there is nothing to attach. *)
Lemma Build_succeeds now r i :
  StopFailureMatcher i = "rate_limit" →
  Second ≤ StopFailureAt i < 2 ^ 63 → Second ≤ UsageProbeAt i < 2 ^ 63 → Second ≤ now →
  Z.abs (Unix (StopFailureAt i) - Unix (UsageProbeAt i)) ≤ 60 →
  StopFailureErrorShape i ≠ [] → UsageProbeOutput i ≠ [] →
  ∃ p, Build now (Some r) i = Ok p.
Proof.
  intros Hm Ha Hb Hn Hgap Hs Hu.
  assert (∀ t, Second ≤ t < 2 ^ 63 → 1 ≤ Unix t < 2 ^ 63) as Ht.
  { unfold Unix, Second. intros t Htt. split; [apply Z.div_le_lower_bound; lia|].
    apply Z.div_lt_upper_bound; lia. }
  assert (1 ≤ Unix now) as Hnow by (unfold Unix, Second in *; apply Z.div_le_lower_bound; lia).
  assert (∀ t, 1 ≤ Unix t → unixSecondsU t = Unix t) as Hus.
  { intros t Ht1. unfold unixSecondsU. by rewrite (proj2 (Z.ltb_ge _ _)) by lia. }
  assert (∀ {A} (l : list A), l ≠ [] → (blen l =? 0) = false) as Hne.
  { intros A [|x l] Hl; [done|]. apply Z.eqb_neq. unfold blen. cbn. lia. }
  assert (∀ t, Second ≤ t → (t =? zeroTime) = false) as Hz.
  { intros t Htt. apply Z.eqb_neq. unfold zeroTime, Second in *. lia. }
  pose proof (Ht _ Ha) as Ha'. pose proof (Ht _ Hb) as Hb'.
  unfold Build, validateInput. rewrite Hm, !Hz, !Hne by (done || lia). cbn.
  rewrite !Hus by lia. unfold proofFreshnessWindow, proofNonceLen, blen. rewrite length_fill.
  rewrite !(proj2 (Z.eqb_neq _ 0)) by lia. cbn.
  match goal with |- context [60 <? ?g] => assert ((60 <? g) = false) as -> end; [|by eexists].
  apply Z.ltb_ge. destruct (_ <? _) eqn:E; bool_to_prop; rewrite u64_id by (unfold is_u64; lia); lia.
Qed.
End Proof.

(** ** The envelope *)

Module Envelope.
Inductive BuildErr :=
| ErrNilProof | ErrNilBalance | ErrInvalidSpec (what : string) | ErrRandFailed
| ErrValidation (e : string) | ErrSign (e : string).

Definition nonceLen : nat := 16.
Definition bodyHashLen : Z := 32.

Record RequestSpec := {
  Model : string; MaxInputTokens : Z; MaxOutputTokens : Z; Tier : PrivacyTier; BodyHash : bytes;
  ConsumerEphemeralPub : bytes
}.

Definition validateSpec (spec : RequestSpec) : option BuildErr :=
  if bool_decide (Model spec = "") then Some (ErrInvalidSpec "Model is empty")
  else if negb (blen (BodyHash spec) =? bodyHashLen) then Some (ErrInvalidSpec "BodyHash length")
  else if bool_decide (Tier spec = PRIVACY_TIER_UNSPECIFIED)
  then Some (ErrInvalidSpec "Tier is UNSPECIFIED")
  else None.

Section build.
Context `{Crypto} `{Wire}.

(** identity.Signer: the key, and the hash of its public half. *)
Definition Signer_IdentityID (priv : bytes) : bytes := sha256 (ed25519_Public priv).
Definition Signer_Sign (priv msg : bytes) : bytes := ed25519_Sign priv msg.

Definition Build (priv : bytes) (now : Z) (rand : option bytes) (spec : RequestSpec)
    (proof : option ExhaustionProofV1) (balance : option SignedBalanceSnapshot)
    : res BuildErr EnvelopeSigned :=
  match proof, balance with
  | None, _ => Err ErrNilProof
  | _, None => Err ErrNilBalance
  | Some proof, Some balance =>
    match validateSpec spec with
    | Some e => Err e
    | None =>
      match rand with
      | None => Err ErrRandFailed
      | Some r =>
        let body := {|
          env_ProtocolVersion := ProtocolVersion;
          env_ConsumerId := Signer_IdentityID priv;
          env_Model := Model spec;
          env_MaxInputTokens := MaxInputTokens spec;
          env_MaxOutputTokens := MaxOutputTokens spec;
          env_Tier := Tier spec;
          env_BodyHash := BodyHash spec;
          env_ExhaustionProof := Some proof;
          env_BalanceProof := Some balance;
          env_CapturedAt := unixSecondsU now;
          env_Nonce := fill nonceLen r;
          env_ConsumerEphemeralPub := ConsumerEphemeralPub spec |} in
        match ValidateEnvelopeBody (Some body) with
        | Some e => Err (ErrValidation e)
        | None =>
          match SignEnvelope priv (Some body) with
          | Err e => Err (ErrSign e)
          | Ok sig => Ok {| es_Body := Some body; es_ConsumerSig := sig |}
          end
        end
      end
    end
  end.

(** What is built validates, is signed by the consumer, and says what was asked. *)
Lemma Build_sound `{!CryptoLaws} priv now rand spec proof balance env :
  length priv = 64%nat → Build priv now rand spec proof balance = Ok env →
  ∃ body, es_Body env = Some body ∧ ValidateEnvelopeBody (Some body) = None ∧
    VerifyEnvelope (ed25519_Public priv) (Some env) = true ∧
    env_ConsumerId body = Signer_IdentityID priv ∧ env_Model body = Model spec ∧
    env_MaxOutputTokens body = MaxOutputTokens spec ∧ env_ExhaustionProof body = proof ∧
    env_BalanceProof body = balance ∧ env_ConsumerEphemeralPub body = ConsumerEphemeralPub spec.
Proof.
  intros Hk. unfold Build. destruct proof as [proof|], balance as [balance|]; try done.
  destruct (validateSpec spec); [done|]. destruct rand; [|done]. cbn zeta.
  destruct (ValidateEnvelopeBody _) eqn:Ev; [done|].
  destruct (SignEnvelope _ _) as [sig|] eqn:Es; [|done]. intros [= <-].
  eexists. split_and!; [done|exact Ev| |done..].
  revert Es. unfold SignEnvelope, VerifyEnvelope, PrivateKeySize, blen. rewrite Hk. cbn.
  destruct (marshal_EnvelopeBody _) as [buf|]; [|done]. intros [= <-].
  unfold Verify, PublicKeySize, SignatureSize, blen. rewrite Public_length, Sign_length by done.
  cbn. by apply Verify_Sign.
Qed.
End build.
End Envelope.

(** ** The preimage of a settlement *)

Definition zero_at (n : nat) (b : bytes) : bool := bool_decide (b !! n = Some Byte.x00).

Definition parseUsageAssertionPreimage (body : bytes) : res string UsageAssertion :=
  let prefix := usageAssertionDomain in
  let fixed := 1 + 16 + 1 + 32 + 1 + 32 + 1 in
  let trailer := 1 + 8 + 8 + 8 in
  if blen body <? blen prefix + fixed + 1 + trailer then Err "preimage too short"
  else if negb (bool_decide (take (length prefix) body = prefix)) then Err "domain tag mismatch"
  else
    let rest := drop (length prefix) body in
    if negb (zero_at 0 rest && zero_at 17 rest && zero_at 50 rest && zero_at 83 rest)
    then Err "malformed field separators" else
    let tail := drop 84 rest in
    let numStart := blen tail - (trailer - 1) in
    if (numStart <? 1) || negb (zero_at (Z.to_nat (numStart - 1)) tail)
    then Err "model terminator missing" else
    let model := take (Z.to_nat (numStart - 1)) tail in
    if (blen model =? 0) || bool_decide (Byte.x00 ∈ model) then Err "malformed model" else
    let num := drop (Z.to_nat numStart) tail in
    let in_ := be_val (take 8 num) in
    let out := be_val (take 8 (drop 8 num)) in
    if (2 ^ 32 - 1 <? in_) || (2 ^ 32 - 1 <? out) then Err "token count overflows uint32" else
    Ok {| ua_RequestID := take 16 (drop 1 rest); ua_ConsumerID := take 32 (drop 18 rest);
          ua_SeederID := take 32 (drop 51 rest);
          ua_Model := String.string_of_list_byte model;
          ua_InputTokens := in_; ua_OutputTokens := out;
          ua_CostCredits := be_val (take 8 (drop 16 num)) |}.

(** *** The reader is the inverse of the canonical encoder *)

Lemma be_val_cons x b : be_val (x :: b) = Z_of_byte x * 256 ^ blen b + be_val b.
Proof. unfold be_val at 1. cbn [foldl]. rewrite be_val_app_fold. ring. Qed.

Lemma be_val_bound b : 0 ≤ be_val b < 256 ^ blen b.
Proof.
  induction b as [|x b IH]; [by vm_compute|]. rewrite be_val_cons. unfold blen in *.
  cbn [length]. rewrite Nat2Z.inj_succ, Z.pow_succ_r by lia. pose proof (Z_of_byte_range x). nia.
Qed.

Lemma Z_of_byte_inj x y : Z_of_byte x = Z_of_byte y → x = y.
Proof.
  unfold Z_of_byte. intros H. apply N2Z.inj in H. pose proof (Byte.of_to_N x) as Hx.
  pose proof (Byte.of_to_N y) as Hy. rewrite H in Hx. congruence.
Qed.

Lemma be_val_inj a b : length a = length b → be_val a = be_val b → a = b.
Proof.
  revert b. induction a as [|x a IH]; intros [|y b] Hl; try done.
  rewrite !be_val_cons. intros He. cbn in Hl. assert (length a = length b) as Hl' by lia.
  pose proof (be_val_bound a) as Ha. pose proof (be_val_bound b) as Hb. unfold blen in *.
  rewrite Hl' in *. assert (Z_of_byte x = Z_of_byte y) as Hxy by nia.
  rewrite (Z_of_byte_inj _ _ Hxy). f_equal. apply IH; [done|]. nia.
Qed.

Lemma PutUint64_be_val b : length b = 8%nat → PutUint64 (be_val b) = b.
Proof.
  intros Hl. apply be_val_inj; [by rewrite length_PutUint64|]. unfold PutUint64.
  pose proof (be_val_bound b) as Hb. unfold blen in Hb. rewrite Hl in Hb.
  rewrite be_val_be_bytes by lia. by apply Z.mod_small.
Qed.

Lemma be_val_PutUint64 v : is_u64 v → be_val (PutUint64 v) = v.
Proof. unfold PutUint64, is_u64. intros Hv. rewrite be_val_be_bytes by lia. by apply Z.mod_small. Qed.

Lemma zero_at_spec n b : zero_at n b = true ↔ b = take n b ++ [Byte.x00] ++ drop (S n) b ∧ (n < length b)%nat.
Proof.
  unfold zero_at. rewrite bool_decide_eq_true. split.
  - intros H. split; [by rewrite <- (take_drop_middle b n Byte.x00 H) at 1|].
    by apply lookup_lt_Some in H.
  - intros [H Hl]. rewrite H, lookup_app_r by (rewrite length_take; lia).
    rewrite length_take_le, Nat.sub_diag by lia. done.
Qed.

(** The bytes of a preimage by its fields. *)
Definition layout (rid cid sid model num : bytes) : bytes :=
  usageAssertionDomain ++ [Byte.x00] ++ rid ++ [Byte.x00] ++ cid ++ [Byte.x00] ++ sid ++
  [Byte.x00] ++ model ++ [Byte.x00] ++ num.

Lemma zero_at_app n (a b : bytes) : length a = n → zero_at n (a ++ [Byte.x00] ++ b) = true.
Proof.
  intros <-. unfold zero_at. apply bool_decide_eq_true.
  by rewrite lookup_app_r, Nat.sub_diag by lia.
Qed.

Lemma zero_at_drop k n (b : bytes) : zero_at n (drop k b) = zero_at (k + n) b.
Proof. unfold zero_at. by rewrite lookup_drop. Qed.

Lemma drop_drop_app k n (a b : bytes) : length a = n → drop (n + k) (a ++ b) = drop k b.
Proof. intros <-. rewrite <- drop_drop, drop_app_length. done. Qed.

Lemma parse_layout rid cid sid model num :
  length rid = 16%nat → length cid = 32%nat → length sid = 32%nat → length num = 24%nat →
  parseUsageAssertionPreimage (layout rid cid sid model num) =
  let in_ := be_val (take 8 num) in
  let out := be_val (take 8 (drop 8 num)) in
  if bool_decide (model = []) then Err "preimage too short"
  else if bool_decide (Byte.x00 ∈ model) then Err "malformed model"
  else if (2 ^ 32 - 1 <? in_) || (2 ^ 32 - 1 <? out) then Err "token count overflows uint32"
  else Ok {| ua_RequestID := rid; ua_ConsumerID := cid; ua_SeederID := sid;
             ua_Model := String.string_of_list_byte model; ua_InputTokens := in_;
             ua_OutputTokens := out; ua_CostCredits := be_val (take 8 (drop 16 num)) |}.
Proof.
  intros Hr Hc Hs Hn. unfold parseUsageAssertionPreimage, layout. cbn zeta.
  assert (length usageAssertionDomain = 28%nat) as Hd by done.
  set (rest := [Byte.x00] ++ rid ++ _).
  assert (drop (length usageAssertionDomain) (usageAssertionDomain ++ rest) = rest) as ->
    by apply drop_app_length.
  rewrite take_app_length, bool_decide_eq_true_2 by done. cbn [negb].
  set (r2 := cid ++ [Byte.x00] ++ sid ++ [Byte.x00] ++ model ++ [Byte.x00] ++ num).
  set (r3 := sid ++ [Byte.x00] ++ model ++ [Byte.x00] ++ num).
  set (tail := model ++ [Byte.x00] ++ num).
  assert (drop 1 rest = rid ++ [Byte.x00] ++ r2) as H1 by done.
  assert (drop 18 rest = r2) as H18.
  { change 18%nat with (1 + (16 + 1))%nat. rewrite <- drop_drop, H1. by rewrite drop_drop_app. }
  assert (drop 51 rest = r3) as H51.
  { change 51%nat with (18 + (32 + 1))%nat. rewrite <- drop_drop, H18. unfold r2.
    by rewrite drop_drop_app. }
  assert (drop 84 rest = tail) as H84.
  { change 84%nat with (51 + (32 + 1))%nat. rewrite <- drop_drop, H51. unfold r3.
    by rewrite drop_drop_app. }
  assert (zero_at 0 rest && zero_at 17 rest && zero_at 50 rest && zero_at 83 rest = true) as ->.
  { rewrite <- (zero_at_drop 1 16), <- (zero_at_drop 18 32), <- (zero_at_drop 51 32), H1, H18, H51.
    unfold r2, r3. by rewrite !zero_at_app. }
  cbn [negb]. rewrite H1, H18, H51, H84.
  assert (blen tail = blen model + 25) as Ht.
  { unfold tail, blen. rewrite !length_app, Hn. cbn [length]. lia. }
  assert (blen (usageAssertionDomain ++ rest) = blen model + 137) as Hlen.
  { unfold rest, r2, r3, blen. rewrite !length_app, Hd, Hr, Hc, Hs, Hn. cbn [length]. lia. }
  rewrite Hlen, Ht. unfold blen at 2. rewrite Hd.
  replace (blen model + 25 - (1 + 8 + 8 + 8 - 1)) with (blen model + 1) by lia.
  replace (blen model + 1 - 1) with (blen model) by lia.
  destruct model as [|m model]; [done|]. rewrite (bool_decide_eq_false_2 (m :: model = [])) by done.
  assert (1 ≤ blen (m :: model)) as Hm1 by (unfold blen; cbn; lia).
  rewrite (proj2 (Z.ltb_ge _ _)) by (cbn; lia). rewrite (proj2 (Z.ltb_ge _ 1)) by lia.
  replace (Z.to_nat (blen (m :: model))) with (length (m :: model)) by (unfold blen; lia).
  replace (Z.to_nat (blen (m :: model) + 1)) with (length (m :: model) + 1)%nat by (unfold blen; lia).
  unfold tail. rewrite zero_at_app, take_app_length by done. cbn [negb orb].
  rewrite (proj2 (Z.eqb_neq _ 0)) by lia. cbn [orb].
  rewrite drop_drop_app by done. cbn [app]. rewrite skipn_cons, drop_0.
  rewrite (take_app_length' rid) by done. unfold r2, r3. by rewrite !take_app_length'.
Qed.

Lemma parse_is_layout body a :
  parseUsageAssertionPreimage body = Ok a →
  ∃ rid cid sid model num, body = layout rid cid sid model num ∧
    length rid = 16%nat ∧ length cid = 32%nat ∧ length sid = 32%nat ∧ length num = 24%nat.
Proof.
  unfold parseUsageAssertionPreimage. cbn zeta. assert (length usageAssertionDomain = 28%nat) as Hd by done.
  destruct (_ <? _) eqn:El; [done|]. destruct (negb _) eqn:Ep; [done|].
  set (rest := drop (length usageAssertionDomain) body).
  destruct (negb (zero_at 0 rest && _ && _ && _)) eqn:Ez; [done|]. destruct (_ || _) eqn:En; [done|]. intros _.
  bool_to_prop. unfold blen in *. rewrite Hd in El.
  assert (body = usageAssertionDomain ++ rest) as Hb by (rewrite <- Ep; unfold rest; by rewrite take_drop).
  assert (length body = 28 + length rest)%nat as Hlr by (rewrite Hb, length_app; lia).
  rewrite <- (zero_at_drop 1 16), <- (zero_at_drop 18 32), <- (zero_at_drop 51 32) in *.
  set (tail := drop 84 rest) in *.
  repeat match goal with H : zero_at _ _ = true |- _ => apply zero_at_spec in H as [H ?] end.
  rewrite drop_drop in *. cbn [Nat.add] in *.
  set (k := Z.to_nat (Z.of_nat (length tail) - (1 + 8 + 8 + 8 - 1) - 1)) in *.
  assert (length tail = length rest - 84)%nat as Hlt by (unfold tail; by rewrite length_drop).
  exists (take 16 (drop 1 rest)), (take 32 (drop 18 rest)), (take 32 (drop 51 rest)), (take k tail),
    (drop (S k) tail).
  assert (S k = length tail - 24)%nat as Hk by (unfold k; lia).
  split_and!; [|rewrite length_take, length_drop; lia..|rewrite length_drop; lia].
  unfold layout. rewrite Hb. f_equal.
  rewrite <- H4. unfold tail. rewrite <- H0, <- H1, <- H2. exact H.
Qed.

Lemma string_bytes_of_list b : string_bytes (String.string_of_list_byte b) = b.
Proof. apply String.list_byte_of_string_of_list_byte. Qed.

Lemma string_of_list_bytes s : String.string_of_list_byte (string_bytes s) = s.
Proof. apply String.string_of_list_byte_of_string. Qed.

Lemma bytes_of_nonempty s : s ≠ "" ↔ string_bytes s ≠ [].
Proof.
  split; intros Hne H; apply Hne; [|by subst].
  rewrite <- (string_of_list_bytes s), H. done.
Qed.

(** The reader and the canonical encoder. *)
Lemma parse_iff body a :
  parseUsageAssertionPreimage body = Ok a ↔
  CanonicalUsageAssertionPreSig a = Ok body ∧ ua_wf a ∧ Byte.x00 ∉ string_bytes (ua_Model a).
Proof.
  split.
  - intros Hp. destruct (parse_is_layout _ _ Hp) as (rid & cid & sid & model & num & -> & Hr & Hc & Hs & Hn).
    rewrite parse_layout in Hp by done. cbn zeta in Hp.
    destruct (bool_decide (model = [])) eqn:E1; [done|].
    destruct (bool_decide (Byte.x00 ∈ model)) eqn:E2; [done|]. destruct (_ || _) eqn:E3; [done|].
    injection Hp as <-. bool_to_prop. cbn [ua_Model]. rewrite string_bytes_of_list. split_and!; [| |done].
    + unfold CanonicalUsageAssertionPreSig, blen. cbn [ua_RequestID ua_ConsumerID ua_SeederID
        ua_Model ua_InputTokens ua_OutputTokens ua_CostCredits]. rewrite Hr, Hc, Hs. cbn [Z.eqb negb orb].
      rewrite bool_decide_eq_false_2 by (rewrite bytes_of_nonempty, string_bytes_of_list; done).
      rewrite string_bytes_of_list, !PutUint64_be_val by (rewrite length_take, ?length_drop; lia).
      unfold layout. do 11 f_equal. transitivity (take 8 num ++ drop 8 num); [|apply take_drop].
      f_equal. rewrite <- (take_drop 8 (drop 8 num)) at 2. f_equal. rewrite drop_drop.
      apply take_ge. rewrite length_drop. lia.
    + unfold ua_wf, is_u32, is_u64. cbn [ua_InputTokens ua_OutputTokens ua_CostCredits].
      pose proof (be_val_bound (take 8 num)). pose proof (be_val_bound (take 8 (drop 8 num))).
      pose proof (be_val_bound (take 8 (drop 16 num))) as Hb. unfold blen in Hb.
      rewrite length_take, length_drop, Hn in Hb. cbn in Hb. lia.
  - intros (Hc & (Hi & Ho & Hk) & Hm). apply CanonicalUsageAssertionPreSig_ok in Hc as (H1 & H2 & H3 & H4 & ->).
    unfold is_u32 in *.
    pose proof (parse_layout _ _ _ (string_bytes (ua_Model a))
      (PutUint64 (ua_InputTokens a) ++ PutUint64 (ua_OutputTokens a) ++ PutUint64 (ua_CostCredits a))
      H1 H2 H3 ltac:(by rewrite !length_app, !length_PutUint64)) as Hp.
    unfold layout in Hp. rewrite Hp. cbn zeta.
    rewrite (bool_decide_eq_false_2 (_ = [])) by (by apply bytes_of_nonempty).
    rewrite (bool_decide_eq_false_2 (_ ∈ _)) by done.
    assert (∀ (x y : bytes), length x = 8%nat → drop 16 (x ++ y) = drop 8 y) as Hd.
    { intros x y Hx. change 16%nat with (8 + 8)%nat. by rewrite drop_drop_app. }
    rewrite Hd by (by rewrite length_PutUint64).
    rewrite !(drop_app_length' _ _ 8), !(take_app_length' _ _ 8) by (by rewrite length_PutUint64).
    rewrite (take_ge (PutUint64 (ua_CostCredits a))) by (by rewrite length_PutUint64).
    rewrite !be_val_PutUint64 by (unfold is_u64 in *; lia).
    rewrite !(proj2 (Z.ltb_ge _ _)) by lia. cbn [orb]. rewrite string_of_list_bytes.
    by destruct a.
Qed.

(** The consumer reads a preimage exactly as the seeder and the tracker write it: parsing
    succeeds with an assertion if and only if the bytes are the canonical encoding of that
    assertion, with 32-bit token counts and a model name without a zero byte. *)
Lemma parse_exact body a :
  parseUsageAssertionPreimage body = Ok a ↔
  CanonicalUsageAssertionPreSig a = Ok body ∧ ua_wf a ∧ Byte.x00 ∉ string_bytes (ua_Model a).
Proof. apply parse_iff. Qed.
