(* ===== verification/Consumer.v ===== *)
(** plugin/internal/consumerflow and plugin/internal/ccproxy/sessionmode.go: the consumer's side of
    a fallback. A rate-limit hook runs the gates, builds the proof and the envelope, asks the
    broker for a seeder and redirects Claude Code; the end of the session, or the time limit,
    undoes it; the tracker's settlement requests are countersigned in between.

    One handler reads the coordinator's state at its preflight only and writes it in its last
    steps, which are modelled as one step; what other goroutines do in between is an argument
    ([mid]). What the outside answers (the usage probe, the tracker, the file system, the random
    source, the clock) is the handler's [HookIo]. *)
From S2P Require Import Prelude Proto Signing Entry AdmQueue Settings RateGate Builders.

#[local] Open Scope Z_scope.

(** ** ccproxy: which sessions are redirected *)

Record StopFailurePayload := {
  sfp_SessionID : string; sfp_TranscriptPath : string; sfp_CWD : string;
  sfp_PermissionMode : option string; sfp_AgentID : option string; sfp_AgentType : option string;
  sfp_HookEventName : string; sfp_Error : string; sfp_ErrorDetails : option string;
  sfp_LastAssistantMessage : option string
}.

Module SessionMode.
Inductive Mode := ModePassThrough | ModeNetwork.

Record EntryMetadata := {
  EnteredAt : Z; ExpiresAt : Z; Payload : StopFailurePayload; UsageProbeBytes : bytes;
  Verdict : UsageVerdict; SeederAddr : string; SeederPubkey : bytes; EphemeralPriv : bytes
}.

Abbreviation Store := (gmap string EntryMetadata).

Definition EnterNetworkMode (sid : string) (meta : EntryMetadata) (s : Store) : Store :=
  <[sid := meta]> s.

Definition ExitNetworkMode (sid : string) (s : Store) : bool * Store :=
  (bool_decide (is_Some (s !! sid)), delete sid s).

Definition GetMode (now : Z) (sid : string) (s : Store) : Mode * option EntryMetadata :=
  match s !! sid with
  | None => (ModePassThrough, None)
  | Some e =>
    if negb (ExpiresAt e =? zeroTime) && (ExpiresAt e <? now) then (ModePassThrough, None)
    else (ModeNetwork, Some e)
  end.
End SessionMode.

(** ** The coordinator's data *)

Record ConsumerRecord := {
  cr_RequestID : string; cr_ServedLocally : bool; cr_SeederID : string; cr_CostCredits : Z;
  cr_Timestamp : Z
}.

Record activeEntry := { ae_enteredAt : Z; ae_expiresAt : Z; ae_sidecarURL : string }.

Record pendingSettlement := {
  pn_sessionID : string; pn_maxOutputTokens : Z; pn_seederPubkey : bytes
}.

(** The coordinator with what it writes to: the session map it shares with the proxy, the
    settings files, the audit log, the metrics' counters and the calls of [Tracker.Settle]. *)
Record CState := {
  cs_activeSessions : gmap string activeEntry;
  cs_pendingSettlements : gmap bytes pendingSettlement;
  cs_sessions : SessionMode.Store;
  cs_settings : Settings.Store;
  cs_audit : list ConsumerRecord;
  cs_decisions : list string;
  cs_settled : list (bytes * bytes)
}.

Definition set_active a (s : CState) : CState :=
  {| cs_activeSessions := a; cs_pendingSettlements := cs_pendingSettlements s;
     cs_sessions := cs_sessions s; cs_settings := cs_settings s; cs_audit := cs_audit s;
     cs_decisions := cs_decisions s; cs_settled := cs_settled s |}.
Definition set_pendings p (s : CState) : CState :=
  {| cs_activeSessions := cs_activeSessions s; cs_pendingSettlements := p;
     cs_sessions := cs_sessions s; cs_settings := cs_settings s; cs_audit := cs_audit s;
     cs_decisions := cs_decisions s; cs_settled := cs_settled s |}.
Definition set_sessions m (s : CState) : CState :=
  {| cs_activeSessions := cs_activeSessions s; cs_pendingSettlements := cs_pendingSettlements s;
     cs_sessions := m; cs_settings := cs_settings s; cs_audit := cs_audit s;
     cs_decisions := cs_decisions s; cs_settled := cs_settled s |}.
Definition set_files f (s : CState) : CState :=
  {| cs_activeSessions := cs_activeSessions s; cs_pendingSettlements := cs_pendingSettlements s;
     cs_sessions := cs_sessions s; cs_settings := f; cs_audit := cs_audit s;
     cs_decisions := cs_decisions s; cs_settled := cs_settled s |}.
Definition add_audit r (s : CState) : CState :=
  {| cs_activeSessions := cs_activeSessions s; cs_pendingSettlements := cs_pendingSettlements s;
     cs_sessions := cs_sessions s; cs_settings := cs_settings s; cs_audit := cs_audit s ++ [r];
     cs_decisions := cs_decisions s; cs_settled := cs_settled s |}.
Definition add_decision o (s : CState) : CState :=
  {| cs_activeSessions := cs_activeSessions s; cs_pendingSettlements := cs_pendingSettlements s;
     cs_sessions := cs_sessions s; cs_settings := cs_settings s; cs_audit := cs_audit s;
     cs_decisions := cs_decisions s ++ [o]; cs_settled := cs_settled s |}.
Definition add_settled c (s : CState) : CState :=
  {| cs_activeSessions := cs_activeSessions s; cs_pendingSettlements := cs_pendingSettlements s;
     cs_sessions := cs_sessions s; cs_settings := cs_settings s; cs_audit := cs_audit s;
     cs_decisions := cs_decisions s; cs_settled := cs_settled s ++ [c] |}.

(** Which collaborators are wired, and the settings. *)
Record Deps := {
  dp_Tracker : bool; dp_Sessions : bool; dp_Settings : bool; dp_AuditLog : bool;
  dp_UsageProber : bool; dp_ProofBuilder : bool; dp_EnvelopeBuilder : bool; dp_Identity : bool;
  dp_SidecarURLFunc : bool; dp_Metrics : bool;
  dp_NetworkModeTTL : Z; dp_RuntimeProbeOK : bool; dp_PrivacyTier : PrivacyTier;
  dp_DefaultModel : string; dp_MaxInputTokens : Z; dp_MaxOutputTokens : Z
}.

Definition Validate (d : Deps) : error :=
  return_if negb (dp_Tracker d), "Tracker required" ;;
  return_if negb (dp_Sessions d), "Sessions required" ;;
  return_if negb (dp_Settings d), "Settings required" ;;
  return_if negb (dp_AuditLog d), "AuditLog required" ;;
  return_if negb (dp_UsageProber d), "UsageProber required" ;;
  return_if negb (dp_ProofBuilder d), "ProofBuilder required" ;;
  return_if negb (dp_EnvelopeBuilder d), "EnvelopeBuilder required" ;;
  return_if negb (dp_Identity d), "Identity required" ;;
  return_if negb (dp_SidecarURLFunc d), "SidecarURLFunc required" ;;
  return_if bool_decide (dp_DefaultModel d = ""), "DefaultModel required" ;;
  return_if dp_MaxInputTokens d =? 0, "MaxInputTokens must be > 0" ;;
  return_if dp_MaxOutputTokens d =? 0, "MaxOutputTokens must be > 0" ;;
  None.

Definition defaultNetworkModeTTL : Z := 15 * 60 * Second.
Definition bodyHashLen : nat := 32.

(** [New]: the settings with their defaults, and the empty maps. *)
Definition New (d : Deps) : res string Deps :=
  match Validate d with
  | Some e => Err e
  | None => Ok {|
      dp_Tracker := dp_Tracker d; dp_Sessions := dp_Sessions d; dp_Settings := dp_Settings d;
      dp_AuditLog := dp_AuditLog d; dp_UsageProber := dp_UsageProber d;
      dp_ProofBuilder := dp_ProofBuilder d; dp_EnvelopeBuilder := dp_EnvelopeBuilder d;
      dp_Identity := dp_Identity d; dp_SidecarURLFunc := dp_SidecarURLFunc d;
      dp_Metrics := dp_Metrics d;
      dp_NetworkModeTTL := if dp_NetworkModeTTL d =? 0 then defaultNetworkModeTTL
                           else dp_NetworkModeTTL d;
      dp_RuntimeProbeOK := dp_RuntimeProbeOK d;
      dp_PrivacyTier := if bool_decide (dp_PrivacyTier d = PRIVACY_TIER_UNSPECIFIED)
                        then PRIVACY_TIER_STANDARD else dp_PrivacyTier d;
      dp_DefaultModel := dp_DefaultModel d; dp_MaxInputTokens := dp_MaxInputTokens d;
      dp_MaxOutputTokens := dp_MaxOutputTokens d |}
  end.

Definition new_state (store : Settings.Store) : CState := {|
  cs_activeSessions := ∅; cs_pendingSettlements := ∅; cs_sessions := ∅; cs_settings := store;
  cs_audit := []; cs_decisions := []; cs_settled := [] |}.

(** ** What the broker answers *)

Record NoCapacityResult := { nc_Reason : string }.
Record QueuedResult := { qr_RequestID : bytes; qr_PositionBand : Z; qr_EtaBand : Z }.
Record RejectedResult := { rr_Reason : Z; rr_RetryAfterS : Z }.
Record SeederAssignment := {
  sa_SeederAddr : string; sa_SeederPubkey : bytes; sa_ReservationToken : bytes
}.

Inductive BrokerOutcome :=
| BrokerOutcomeUnspecified | BrokerOutcomeAssignment | BrokerOutcomeNoCapacity
| BrokerOutcomeQueued | BrokerOutcomeRejected | BrokerOutcomeOther (n : Z).

#[global] Instance BrokerOutcome_eq_dec : EqDecision BrokerOutcome.
Proof. solve_decision. Defined.

Record BrokerResult := {
  br_Outcome : BrokerOutcome; br_Assignment : option SeederAssignment;
  br_NoCap : option NoCapacityResult; br_Queued : option QueuedResult;
  br_Rejected : option RejectedResult
}.

Definition brokerOutcomeSlug (res : option BrokerResult) : string :=
  match res with
  | None => "nil_response"
  | Some r =>
    match br_Outcome r with
    | BrokerOutcomeNoCapacity => "no_capacity"
    | BrokerOutcomeQueued => "queued"
    | BrokerOutcomeRejected => "rejected"
    | _ => "unknown"
    end
  end.

Definition errSlug (e : SettingsErr) : string :=
  match e with
  | ErrBedrockProvider => "bedrock"
  | ErrVertexProvider => "vertex"
  | ErrFoundryProvider => "foundry"
  | ErrIncompatibleJSONCComments => "jsonc_comments"
  | ErrPreExistingRedirect => "preexisting_redirect"
  | ErrSettingsNotWritable => "not_writable"
  | ErrSymlinkEscapesClaudeDir => "symlink_escape"
  | _ => "error"
  end.

Definition fallbackRequestID (env : option EnvelopeSigned) : string :=
  match env with
  | None => ""
  | Some env =>
    match es_Body env with
    | None => ""
    | Some b => String.append "fb:" (hex_EncodeToString (env_Nonce b))
    end
  end.

(** ** Results with errors as values *)

#[local] Instance res_bind E : MBind (res E) :=
  λ A B (f : A → res E B) (m : res E A), match m with Ok a => f a | Err e => Err e end.

Definition require (c : bool) (e : string) : res string () := if c then Ok () else Err e.
Definition some_or {A} (e : string) (o : option A) : res string A :=
  match o with Some a => Ok a | None => Err e end.
Definition ok_or {E A} (e : string) (r : res E A) : res string A :=
  match r with Ok a => Ok a | Err _ => Err e end.

Lemma bind_Ok {E A B} (m : res E A) (f : A → res E B) b :
  (m ≫= f) = Ok b ↔ ∃ a, m = Ok a ∧ f a = Ok b.
Proof. destruct m; cbn; naive_solver. Qed.

Lemma require_Ok c e u : require c e = Ok u ↔ c = true.
Proof. unfold require. destruct c, u; naive_solver. Qed.

Lemma some_or_Ok {A} e (o : option A) a : some_or e o = Ok a ↔ o = Some a.
Proof. destruct o; naive_solver. Qed.

Lemma ok_or_Ok {E A} e (r : res E A) a : ok_or e r = Ok a ↔ r = Ok a.
Proof. destruct r; naive_solver. Qed.

(** ** The handlers *)

(** What one run of the hook is answered. *)
Record HookIo := {
  io_sidecarURL : string;
  io_ff_state : FsFaults; io_ff_enter : FsFaults;
  io_probe : option bytes;
  io_usageProbeAt : Z; io_stopFailureAt : Z; io_proofNow : Z; io_envelopeNow : Z; io_enterNow : Z;
  io_settingsNow : Z; io_refusalNow : Z;
  io_payload : option bytes;
  io_randProof : option bytes; io_randBody : option bytes; io_randEnvelope : option bytes;
  io_balance : option (option SignedBalanceSnapshot);
  io_broker : EnvelopeSigned → option (option BrokerResult);
  io_ephemeral : option (bytes * bytes);
  io_parseAddr : string → bool;
  io_audit : option string
}.

(** A call of [LogConsumer]; [f] is the error it returns, if any. *)
Definition LogConsumer (f : option string) (r : ConsumerRecord) : GoM CState string () := λ s,
  match f with Some e => (Err e, s) | None => (Ok (), add_audit r s) end.

Section coordinator.
Context `{Crypto} `{Wire}.
Variables (d : Deps) (priv : bytes).

(** [auditRefusal]; the error of the log is dropped and nil returned. *)
Definition auditRefusal (io : HookIo) (sid reason : string) : GoM CState string () := λ s,
  (Ok (),
   if dp_AuditLog d
   then snd (LogConsumer (io_audit io)
     {| cr_RequestID := String.append "refuse:" sid; cr_ServedLocally := true; cr_SeederID := reason;
        cr_CostCredits := 0; cr_Timestamp := io_refusalNow io |} s)
   else s).

Definition preflightSettings (ff : FsFaults) (url : string) (st : Settings.Store) : res SettingsErr () :=
  match GetState ff url st with
  | Err e => Err e
  | Ok state => match incompatible state with Some e => Err e | None => Ok () end
  end.

(** What the gates hand to the last steps. *)
Record Plan := {
  pl_sidecarURL : string; pl_usageBytes : bytes; pl_verdict : UsageVerdict;
  pl_envelope : EnvelopeSigned; pl_assignment : SeederAssignment; pl_ephemeralPriv : bytes
}.

(** [handleRateLimit] up to the entry: every refusal with its reason. *)
Definition prepare (io : HookIo) (p : StopFailurePayload) (trigger : Trigger) (s : CState)
    : res string Plan :=
  _ ← require (dp_RuntimeProbeOK d) "runtime_probe_failed";
  let url := io_sidecarURL io in
  _ ← require (negb (bool_decide (url = ""))) "sidecar_url_unavailable";
  _ ← match preflightSettings (io_ff_state io) url (cs_settings s) with
      | Err e => Err (String.append "settings_" (errSlug e))
      | Ok _ => Ok ()
      end;
  usage ← some_or "usage_probe_error" (io_probe io);
  let verdict := ParseUsageProbe usage in
  let gate := ApplyVerdictMatrix trigger (sfp_Error p) verdict in
  _ ← require (bool_decide (gate = VerdictProceed)) (String.append "gate_" (GateVerdict_String gate));
  raw ← some_or "marshal_stopfailure_error" (io_payload io);
  proof ← ok_or "proof_build_error" (Proof.Build (io_proofNow io) (io_randProof io) {|
      Proof.StopFailureMatcher := sfp_Error p; Proof.StopFailureAt := io_stopFailureAt io;
      Proof.StopFailureErrorShape := raw; Proof.UsageProbeAt := io_usageProbeAt io;
      Proof.UsageProbeOutput := usage |});
  balance ← some_or "balance_fetch_error" (io_balance io);
  body ← some_or "rand_read_error" (io_randBody io);
  env ← ok_or "envelope_build_error" (Envelope.Build priv (io_envelopeNow io) (io_randEnvelope io) {|
      Envelope.Model := dp_DefaultModel d; Envelope.MaxInputTokens := dp_MaxInputTokens d;
      Envelope.MaxOutputTokens := dp_MaxOutputTokens d; Envelope.Tier := dp_PrivacyTier d;
      Envelope.BodyHash := fill bodyHashLen body; Envelope.ConsumerEphemeralPub := [] |}
      (Some proof) balance);
  answer ← some_or "broker_request_error" (io_broker io env);
  assignment ← match answer with
               | Some (Build_BrokerResult BrokerOutcomeAssignment (Some a) _ _ _) => Ok a
               | _ => Err (String.append "broker_" (brokerOutcomeSlug answer))
               end;
  keys ← some_or "ephemeral_key_error" (io_ephemeral io);
  _ ← require (io_parseAddr io (sa_SeederAddr assignment)) "bad_seeder_addr";
  Ok {| pl_sidecarURL := url; pl_usageBytes := usage; pl_verdict := verdict; pl_envelope := env;
        pl_assignment := assignment; pl_ephemeralPriv := keys.2 |}.

Definition entry_metadata (io : HookIo) (p : StopFailurePayload) (pl : Plan)
    : SessionMode.EntryMetadata := {|
  SessionMode.EnteredAt := io_enterNow io;
  SessionMode.ExpiresAt := io_enterNow io + dp_NetworkModeTTL d;
  SessionMode.Payload := p; SessionMode.UsageProbeBytes := pl_usageBytes pl;
  SessionMode.Verdict := pl_verdict pl; SessionMode.SeederAddr := sa_SeederAddr (pl_assignment pl);
  SessionMode.SeederPubkey := sa_SeederPubkey (pl_assignment pl);
  SessionMode.EphemeralPriv := pl_ephemeralPriv pl |}.

(** The bookkeeping of an entry: the session, and what it may be billed for. *)
Definition record_entry (io : HookIo) (p : StopFailurePayload) (pl : Plan) (s : CState) : CState :=
  let sid := sfp_SessionID p in
  let token := sa_ReservationToken (pl_assignment pl) in
  let s := set_active (<[sid := {|
      ae_enteredAt := io_enterNow io; ae_expiresAt := io_enterNow io + dp_NetworkModeTTL d;
      ae_sidecarURL := pl_sidecarURL pl |}]> (cs_activeSessions s)) s in
  if blen token =? 16
  then set_pendings (<[token := {|
      pn_sessionID := sid; pn_maxOutputTokens := dp_MaxOutputTokens d;
      pn_seederPubkey := sa_SeederPubkey (pl_assignment pl) |}]> (cs_pendingSettlements s)) s
  else s.

(** [handleRateLimit] from the session store on. *)
Definition enter (io : HookIo) (p : StopFailurePayload) (pl : Plan) : GoM CState string () := λ s,
  let sid := sfp_SessionID p in
  let s := set_sessions (SessionMode.EnterNetworkMode sid (entry_metadata io p pl) (cs_sessions s)) s in
  match EnterNetworkMode (io_ff_enter io) (io_settingsNow io) (pl_sidecarURL pl) sid (cs_settings s) with
  | (Err e, st) =>
    let s := set_files st s in
    let s := set_sessions (snd (SessionMode.ExitNetworkMode sid (cs_sessions s))) s in
    auditRefusal io sid (String.append "settings_" (errSlug e)) s
  | (Ok _, st) =>
    LogConsumer (io_audit io)
      {| cr_RequestID := fallbackRequestID (Some (pl_envelope pl)); cr_ServedLocally := false;
         cr_SeederID := hex_EncodeToString (sa_SeederPubkey (pl_assignment pl));
         cr_CostCredits := 0; cr_Timestamp := io_enterNow io |}
      (record_entry io p pl (set_files st s))
  end.

Definition handleRateLimit (io : HookIo) (mid : CState → CState) (p : StopFailurePayload)
    (trigger : Trigger) : GoM CState string () := λ s,
  match prepare io p trigger s with
  | Err reason => auditRefusal io (sfp_SessionID p) reason (mid s)
  | Ok pl => enter io p pl (mid s)
  end.

Definition OnStopFailure (io : HookIo) (mid : CState → CState) (p : option StopFailurePayload)
    : GoM CState string () := λ s,
  match p with
  | None => (Ok (), s)
  | Some p =>
    if negb (bool_decide (sfp_Error p = ErrorRateLimit)) then (Ok (), s)
    else handleRateLimit io mid p TriggerHook s
  end.

(** What one exit is answered. *)
Record ExitIo := {
  xi_ff_exit : FsFaults; xi_ff_best : FsFaults; xi_now : Z; xi_audit : option string
}.

Definition drop_session (sid : string) (m : gmap bytes pendingSettlement) : gmap bytes pendingSettlement :=
  filter (λ kv : bytes * pendingSettlement, pn_sessionID kv.2 ≠ sid) m.

(** The error [exitNetworkMode] returns: the settings' before the log's. *)
Definition exitNetworkMode (xi : ExitIo) (sid reason : string) : GoM CState string () := λ s,
  let s := set_sessions (snd (SessionMode.ExitNetworkMode sid (cs_sessions s))) s in
  let entry := cs_activeSessions s !! sid in
  let s := set_pendings (drop_session sid (cs_pendingSettlements s))
             (set_active (delete sid (cs_activeSessions s)) s) in
  let '(settingsErr, s) :=
    match entry with
    | None => (None, s)
    | Some e =>
      match ExitNetworkMode (xi_ff_exit xi) (cs_settings s) with
      | (Ok _, st) => (None, set_files st s)
      | (Err _, st) =>
        match ExitNetworkModeBestEffort (xi_ff_best xi) (ae_sidecarURL e) st with
        | (Ok _, st) => (None, set_files st s)
        | (Err e, st) => (Some (errSlug e), set_files st s)
        end
      end
    end in
  let '(logged, s) := LogConsumer (xi_audit xi)
    {| cr_RequestID := String.append "exit:" sid; cr_ServedLocally := true; cr_SeederID := reason;
       cr_CostCredits := 0; cr_Timestamp := xi_now xi |} s in
  match settingsErr with
  | Some e => (Err e, s)
  | None => (logged, s)
  end.

Definition OnSessionEnd (xi : ExitIo) (sid : option string) : GoM CState string () := λ s,
  match sid with
  | None => (Ok (), s)
  | Some sid =>
    if bool_decide (sid = "") then (Ok (), s)
    else match cs_activeSessions s !! sid with
         | None => (Ok (), s)
         | Some _ => exitNetworkMode xi sid "session_end" s
         end
  end.

(** The sessions whose time is up. *)
Definition expired (now : Z) (s : CState) : list string :=
  (filter (λ kv : string * activeEntry,
     negb (ae_expiresAt kv.2 =? zeroTime) && (ae_expiresAt kv.2 <? now))
     (map_to_list (cs_activeSessions s))).*1.

Definition exit_all (xi : string → ExitIo) (sids : list string) (s : CState) : CState :=
  foldl (λ s sid, snd (exitNetworkMode (xi sid) sid "ttl_expired" s)) s sids.

(** [reapExpired]; the order in which a map is ranged over is an argument. *)
Definition reapExpired (xi : string → ExitIo) (order : list string → list string) (now : Z) (s : CState)
    : CState := exit_all xi (order (expired now s)) s.

(** ** Settlement *)

Definition settleOutcomeOK : string := "countersigned".
Definition settleOutcomeUnknownRequest : string := "refused_unknown_request".
Definition settleOutcomeOverBudget : string := "refused_over_budget".
Definition settleOutcomePreimageMismatch : string := "refused_preimage_mismatch".
Definition settleOutcomeDecodeError : string := "refused_decode_error".
Definition settleOutcomeSignError : string := "refused_sign_error".
Definition settleOutcomeSettleError : string := "refused_settle_error".

Definition clampToInt64 (v : Z) : Z := if MaxInt64 <? v then MaxInt64 else v.

Record SettlementRequest := { sr_PreimageHash : bytes; sr_PreimageBody : bytes }.

(** [si_sign], [si_settle] and [si_audit] are the errors of the key, the tracker and the log. *)
Record SettleIo := {
  si_sign : option string; si_settle : option string; si_now : Z; si_audit : option string
}.

Definition recordSettleDecision (outcome : string) (s : CState) : CState :=
  if dp_Metrics d then add_decision outcome s else s.

Definition auditSettleRefusal (si : SettleIo) (reqIDHex reason : string) (s : CState) : CState :=
  if dp_AuditLog d
  then snd (LogConsumer (si_audit si)
    {| cr_RequestID := if bool_decide (reqIDHex = "") then "settle:refuse"
                       else String.append "settle:refuse:" reqIDHex;
       cr_ServedLocally := false; cr_SeederID := reason; cr_CostCredits := 0;
       cr_Timestamp := si_now si |} s)
  else s.

Definition refuse (si : SettleIo) (reqIDHex outcome err : string) : GoM CState string () := λ s,
  (Err err, auditSettleRefusal si reqIDHex outcome (recordSettleDecision outcome s)).

Definition settle_record (si : SettleIo) (key : bytes) (seeder : string) (a : UsageAssertion)
    : ConsumerRecord := {|
  cr_RequestID := String.append "settle:" (hex_EncodeToString key); cr_ServedLocally := false;
  cr_SeederID := seeder; cr_CostCredits := clampToInt64 (ua_CostCredits a);
  cr_Timestamp := si_now si |}.

Definition HandleSettlement (si : SettleIo) (req : option SettlementRequest) : GoM CState string () := λ s,
  match req with
  | None => (Err "nil settlement request", s)
  | Some req =>
    let body := sr_PreimageBody req in
    if negb (bool_decide (sha256 body = sr_PreimageHash req))
    then refuse si "" settleOutcomePreimageMismatch "preimage hash mismatch" s else
    match parseUsageAssertionPreimage body with
    | Err _ => refuse si "" settleOutcomeDecodeError "decode usage-assertion preimage" s
    | Ok a =>
      let key := ua_RequestID a in
      match cs_pendingSettlements s !! key with
      | None =>
        refuse si (hex_EncodeToString key) settleOutcomeUnknownRequest "unknown request_id" s
      | Some pending =>
        if pn_maxOutputTokens pending <? ua_OutputTokens a then
          (Err "output_tokens exceeds ceiling",
           snd (LogConsumer (si_audit si)
             (settle_record si key (String.append (hex_EncodeToString (pn_seederPubkey pending))
                (String.append ":" settleOutcomeOverBudget)) a)
             (recordSettleDecision settleOutcomeOverBudget s)))
        else
        match si_sign si with
        | Some e => refuse si (hex_EncodeToString key) settleOutcomeSignError e s
        | None =>
          let sig := Envelope.Signer_Sign priv body in
          let s := add_settled (sr_PreimageHash req, sig) s in
          match si_settle si with
          | Some e => refuse si (hex_EncodeToString key) settleOutcomeSettleError e s
          | None =>
            let s := set_pendings (delete key (cs_pendingSettlements s)) s in
            LogConsumer (si_audit si)
              (settle_record si key (hex_EncodeToString (pn_seederPubkey pending)) a)
              (recordSettleDecision settleOutcomeOK s)
          end
        end
      end
    end
  end.
End coordinator.

(** ** Steps, and what they keep *)

Section steps.
Context `{Crypto} `{Wire}.
Variables (d : Deps) (priv : bytes).

(** The coordinator's critical steps, interleaved in any order. A hook that passed its gates may
    enter at any later time. *)
Inductive cstep : CState → CState → Prop :=
| step_enter io p pl s : cstep s (snd (enter d io p pl s))
| step_refuse io sid reason s : cstep s (snd (auditRefusal d io sid reason s))
| step_exit xi sid reason s : cstep s (snd (exitNetworkMode xi sid reason s))
| step_settle si req s : cstep s (snd (HandleSettlement d priv si req s)).

(** Every signature handed to the tracker is over the canonical bytes of an assertion within the
    ceiling. *)
Definition signed_within (c : bytes * bytes) : Prop :=
  ∃ a body, CanonicalUsageAssertionPreSig a = Ok body ∧ ua_OutputTokens a ≤ dp_MaxOutputTokens d ∧
    c = (sha256 body, ed25519_Sign priv body).

Record CInv (s : CState) : Prop := {
  ci_pending key pn : cs_pendingSettlements s !! key = Some pn →
    is_Some (cs_activeSessions s !! pn_sessionID pn) ∧ pn_maxOutputTokens pn = dp_MaxOutputTokens d;
  ci_sessions sid : is_Some (cs_sessions s !! sid) → is_Some (cs_activeSessions s !! sid);
  ci_settled : Forall signed_within (cs_settled s)
}.

Lemma CInv_new store : CInv (new_state store).
Proof.
  constructor; cbn; [intros ??|intros ?|by apply Forall_nil]; rewrite lookup_empty; [done|by intros []].
Qed.

(** The invariant does not see the log, the counters and the files. *)
Definition same_core (s s' : CState) : Prop :=
  cs_activeSessions s' = cs_activeSessions s ∧ cs_pendingSettlements s' = cs_pendingSettlements s ∧
  cs_sessions s' = cs_sessions s ∧ cs_settled s' = cs_settled s.

#[local] Instance same_core_refl : Reflexive same_core.
Proof. done. Qed.

#[local] Instance same_core_trans : Transitive same_core.
Proof. unfold same_core. intros x y z (->&->&->&->) (->&->&->&->). done. Qed.

Lemma CInv_core s s' : same_core s s' → CInv s → CInv s'.
Proof.
  intros (H1 & H2 & H3 & H4) [Hp Hs Hd]. by constructor; rewrite ?H1, ?H2, ?H3, ?H4.
Qed.

Lemma LogConsumer_core f r s : same_core s (snd (LogConsumer f r s)).
Proof. by destruct f. Qed.

Lemma auditRefusal_core io sid reason s : same_core s (snd (auditRefusal d io sid reason s)).
Proof. unfold auditRefusal. destruct (dp_AuditLog d); [|done]. apply LogConsumer_core. Qed.

Lemma recordSettleDecision_core o s : same_core s (recordSettleDecision d o s).
Proof. unfold recordSettleDecision. by destruct (dp_Metrics d). Qed.

Lemma refuse_core si x o e s : same_core s (snd (refuse d si x o e s)).
Proof.
  unfold refuse, auditSettleRefusal. cbn [snd]. etrans; [apply recordSettleDecision_core|].
  destruct (dp_AuditLog d); [|done]. apply LogConsumer_core.
Qed.

Lemma exit_core xi sid reason s :
  let s' := snd (exitNetworkMode xi sid reason s) in
  cs_activeSessions s' = delete sid (cs_activeSessions s) ∧
  cs_pendingSettlements s' = drop_session sid (cs_pendingSettlements s) ∧
  cs_sessions s' = delete sid (cs_sessions s) ∧ cs_settled s' = cs_settled s.
Proof.
  unfold exitNetworkMode, LogConsumer. cbn.
  destruct (cs_activeSessions s !! sid); [|by destruct (xi_audit xi)].
  destruct (ExitNetworkMode _ _) as [[]]; [by destruct (xi_audit xi)|].
  destruct (ExitNetworkModeBestEffort _ _ _) as [[]]; by destruct (xi_audit xi).
Qed.

Lemma exit_inv xi sid reason s : CInv s → CInv (snd (exitNetworkMode xi sid reason s)).
Proof.
  intros [Hp Hs Hd]. destruct (exit_core xi sid reason s) as (H1 & H2 & H3 & H4). constructor.
  - intros k pn. rewrite H1, H2. unfold drop_session. rewrite map_lookup_filter_Some. cbn.
    intros [Hk Hne]. rewrite lookup_delete_ne by done. by apply (Hp k).
  - intros sid'. rewrite H1, H3. destruct (decide (sid' = sid)) as [->|Hne].
    + rewrite lookup_delete_eq. by intros [? [=]].
    + rewrite !lookup_delete_ne by done. apply Hs.
  - by rewrite H4.
Qed.

(** What an entry does: nothing but an audit record when the settings refuse; else the session is
    active, redirected, and billed up to the ceiling. *)
Lemma enter_core io p pl s :
  let sid := sfp_SessionID p in
  let '(r, st) := EnterNetworkMode (io_ff_enter io) (io_settingsNow io) (pl_sidecarURL pl) sid
                    (cs_settings s) in
  let s' := snd (enter d io p pl s) in
  match r with
  | Err _ => cs_activeSessions s' = cs_activeSessions s ∧
             cs_pendingSettlements s' = cs_pendingSettlements s ∧
             cs_sessions s' = delete sid (cs_sessions s)
  | Ok _ => cs_activeSessions s' = <[sid := {|
                ae_enteredAt := io_enterNow io; ae_expiresAt := io_enterNow io + dp_NetworkModeTTL d;
                ae_sidecarURL := pl_sidecarURL pl |}]> (cs_activeSessions s) ∧
            cs_pendingSettlements s' = cs_pendingSettlements (record_entry d io p pl s) ∧
            cs_sessions s' = <[sid := entry_metadata d io p pl]> (cs_sessions s)
  end ∧ cs_settled s' = cs_settled s ∧ cs_settings s' = st.
Proof.
  unfold enter. cbn zeta.
  assert (cs_settings (set_sessions (SessionMode.EnterNetworkMode (sfp_SessionID p)
    (entry_metadata d io p pl) (cs_sessions s)) s) = cs_settings s) as -> by done.
  destruct (EnterNetworkMode _ _ _ _ _) as [[u|e] st].
  - unfold LogConsumer, record_entry. cbn.
    destruct (blen (sa_ReservationToken (pl_assignment pl)) =? 16), (io_audit io); done.
  - unfold auditRefusal, LogConsumer. cbn. unfold SessionMode.EnterNetworkMode.
    destruct (dp_AuditLog d), (io_audit io); cbn; rewrite delete_insert_eq; done.
Qed.

Lemma enter_inv io p pl s : CInv s → CInv (snd (enter d io p pl s)).
Proof.
  intros [Hp Hs Hd]. pose proof (enter_core io p pl s) as He. cbn zeta in He.
  destruct (EnterNetworkMode _ _ _ _ _) as [[u|e] st]; destruct He as ((H1 & H2 & H3) & H4 & _);
    constructor; rewrite ?H3, ?H4; try done.
  - intros k pn. rewrite H2, H1. unfold record_entry. cbn zeta.
    assert (∀ sid e, is_Some (cs_activeSessions s !! sid) →
      is_Some (<[sfp_SessionID p := e]> (cs_activeSessions s) !! sid)) as Hmono.
    { intros sid e Hsid. destruct (decide (sid = sfp_SessionID p)) as [->|Hne];
        [rewrite lookup_insert_eq; eauto|by rewrite lookup_insert_ne]. }
    destruct (blen _ =? 16); cbn.
    + destruct (decide (k = sa_ReservationToken (pl_assignment pl))) as [->|Hk].
      * rewrite lookup_insert_eq. intros [= <-]. cbn. rewrite lookup_insert_eq. eauto.
      * rewrite lookup_insert_ne by done. intros [Ha Hb]%Hp. eauto.
    + intros [Ha Hb]%Hp. eauto.
  - intros sid. rewrite H1. destruct (decide (sid = sfp_SessionID p)) as [->|Hne].
    + rewrite !lookup_insert_eq. eauto.
    + rewrite !lookup_insert_ne by done. apply Hs.
  - intros k pn. rewrite H2, H1. apply Hp.
  - intros sid Hsid. rewrite H1. apply Hs. destruct (decide (sid = sfp_SessionID p)) as [->|Hne].
    + rewrite lookup_delete_eq in Hsid. by destruct Hsid.
    + by rewrite lookup_delete_ne in Hsid.
Qed.

(** What a settlement request can do: refuse, or countersign a canonical assertion of a pending
    request within its ceiling; after a success the request is not pending any more. *)
Lemma HandleSettlement_spec si req s r s' :
  HandleSettlement d priv si (Some req) s = (r, s') →
  cs_activeSessions s' = cs_activeSessions s ∧ cs_sessions s' = cs_sessions s ∧
  ((same_core s s' ∧ is_ok r = false) ∨
   ∃ a pn, CanonicalUsageAssertionPreSig a = Ok (sr_PreimageBody req) ∧ ua_wf a ∧
     sr_PreimageHash req = sha256 (sr_PreimageBody req) ∧
     cs_pendingSettlements s !! ua_RequestID a = Some pn ∧
     ua_OutputTokens a ≤ pn_maxOutputTokens pn ∧
     cs_settled s' = cs_settled s ++ [(sr_PreimageHash req, ed25519_Sign priv (sr_PreimageBody req))] ∧
     (si_settle si = None → cs_pendingSettlements s' = delete (ua_RequestID a) (cs_pendingSettlements s)) ∧
     (is_Some (si_settle si) →
        cs_pendingSettlements s' = cs_pendingSettlements s ∧ is_ok r = false)).
Proof.
  assert (∀ x o e s0, refuse d si x o e s0 = (r, s') →
    is_ok r = false ∧ same_core s0 s') as Href.
  { intros x o e s0 Hr. pose proof (refuse_core si x o e s0) as Hc. rewrite Hr in Hc.
    split; [|exact Hc]. unfold refuse in Hr. by injection Hr as <- <-. }
  unfold HandleSettlement. cbn zeta. destruct (negb _) eqn:Eh.
  { intros Hr. destruct (Href _ _ _ _ Hr) as [? Hc]. split_and!; [apply Hc|apply Hc|by left]. }
  destruct (parseUsageAssertionPreimage _) as [a|e] eqn:Ep;
    [|intros Hr; destruct (Href _ _ _ _ Hr) as [? Hc]; split_and!; [apply Hc|apply Hc|by left]].
  destruct (cs_pendingSettlements s !! _) as [pn|] eqn:Ek;
    [|intros Hr; destruct (Href _ _ _ _ Hr) as [? Hc]; split_and!; [apply Hc|apply Hc|by left]].
  destruct (_ <? _) eqn:Et.
  { intros [= <- <-].
    assert (same_core s (recordSettleDecision d settleOutcomeOverBudget s)) as Hc
      by apply recordSettleDecision_core.
    match goal with |- context [LogConsumer ?f ?x ?y] => pose proof (LogConsumer_core f x y) as Hl end.
    pose proof (same_core_trans _ _ _ Hc Hl) as Hall. split_and!; [apply Hall|apply Hall|by left]. }
  destruct (si_sign si);
    [intros Hr; destruct (Href _ _ _ _ Hr) as [? Hc]; split_and!; [apply Hc|apply Hc|by left]|].
  apply parse_iff in Ep as (Hcan & Hwf & _). bool_to_prop.
  destruct (si_settle si) as [e|] eqn:Es.
  - intros Hr. destruct (Href _ _ _ _ Hr) as [Hok (H1 & H2 & H3 & H4)]. split_and!; [done..|right].
    exists a, pn. by split_and!.
  - intros Hr. match type of Hr with LogConsumer ?f ?x ?y = _ => pose proof (LogConsumer_core f x y) as Hl end.
    rewrite Hr in Hl. destruct (same_core_trans _ _ _ (recordSettleDecision_core _ _) Hl) as (H1 & H2 & H3 & H4).
    cbn [snd] in *. split_and!; [done..|right]. exists a, pn. by split_and!.
Qed.

Lemma HandleSettlement_inv si req s : CInv s → CInv (snd (HandleSettlement d priv si req s)).
Proof.
  destruct req as [req|]; [|done]. intros [Hp Hs Hd].
  destruct (HandleSettlement d priv si (Some req) s) as [r s'] eqn:E.
  destruct (HandleSettlement_spec _ _ _ _ _ E) as (H1 & H2 & [[Hc _]|(a & pn & Hcan & Hwf & Hh & Hk & Hle & H4 & Hok & Hbad)]);
    [by eapply CInv_core|]. cbn [snd].
  constructor; rewrite ?H1, ?H2; [|done|].
  - intros k pn'. destruct (si_settle si).
    + destruct Hbad as [-> _]; [eauto|]. apply Hp.
    + rewrite Hok by done. rewrite lookup_delete_Some. intros [_ Hk']. by apply (Hp k).
  - rewrite H4, Hh. apply Forall_app_2; [done|]. apply Forall_singleton. exists a, (sr_PreimageBody req).
    split_and!; [done| |done]. destruct (Hp _ _ Hk) as [_ <-]. done.
Qed.

Lemma CInv_reachable store s : rtc cstep (new_state store) s → CInv s.
Proof.
  intros Hr. remember (new_state store) as s0 eqn:E0. assert (CInv s0) as Hi by (subst; apply CInv_new).
  clear E0. induction Hr as [|x y z Hst _ IH]; [done|]. apply IH. destruct Hst.
  - by apply enter_inv.
  - eapply CInv_core; [apply auditRefusal_core|done].
  - by apply exit_inv.
  - by apply HandleSettlement_inv.
Qed.


(** What passed the gates. *)
Lemma prepare_spec io p s pl :
  prepare d priv io p TriggerHook s = Ok pl →
  dp_RuntimeProbeOK d = true ∧ pl_sidecarURL pl = io_sidecarURL io ∧ io_sidecarURL io ≠ "" ∧
  (∃ st, GetState (io_ff_state io) (io_sidecarURL io) (cs_settings s) = Ok st ∧ incompatible st = None) ∧
  io_probe io = Some (pl_usageBytes pl) ∧ ParseUsageProbe (pl_usageBytes pl) ≠ UsageHeadroom ∧
  sfp_Error p = ErrorRateLimit ∧
  (∃ proof balance body rest, Envelope.Build priv (io_envelopeNow io) (io_randEnvelope io) {|
      Envelope.Model := dp_DefaultModel d; Envelope.MaxInputTokens := dp_MaxInputTokens d;
      Envelope.MaxOutputTokens := dp_MaxOutputTokens d; Envelope.Tier := dp_PrivacyTier d;
      Envelope.BodyHash := body; Envelope.ConsumerEphemeralPub := [] |} (Some proof) balance
      = Ok (pl_envelope pl) ∧
    io_broker io (pl_envelope pl) = Some (Some rest) ∧ br_Outcome rest = BrokerOutcomeAssignment ∧
    br_Assignment rest = Some (pl_assignment pl)).
Proof.
  unfold prepare. cbn zeta. intros Hp.
  apply bind_Ok in Hp as ([] & Hprobe & Hp). apply require_Ok in Hprobe.
  apply bind_Ok in Hp as ([] & Hurl & Hp). apply require_Ok in Hurl.
  apply bind_Ok in Hp as ([] & Hpre & Hp). apply bind_Ok in Hp as (usage & Hu & Hp).
  apply some_or_Ok in Hu. apply bind_Ok in Hp as ([] & Hg & Hp). apply require_Ok in Hg.
  apply bind_Ok in Hp as (raw & _ & Hp). apply bind_Ok in Hp as (proof & _ & Hp).
  apply bind_Ok in Hp as (balance & _ & Hp). apply bind_Ok in Hp as (body & _ & Hp).
  apply bind_Ok in Hp as (env & Henv & Hp). apply ok_or_Ok in Henv.
  apply bind_Ok in Hp as (answer & Hans & Hp). apply some_or_Ok in Hans.
  apply bind_Ok in Hp as (assignment & Hasg & Hp). apply bind_Ok in Hp as (keys & _ & Hp).
  apply bind_Ok in Hp as ([] & _ & Hp). injection Hp as <-. cbn.
  bool_to_prop. apply proceed_iff in Hg. split_and!; try done.
  - unfold preflightSettings in Hpre. destruct (GetState _ _ _) as [st|]; [|done]. exists st.
    split; [done|]. by destruct (incompatible st).
  - destruct Hg as [[-> _]|[-> _]]; done.
  - destruct Hg as [[_ He]|(_ & _ & He)]; auto.
  - destruct answer as [[o a n q x]|]; [|done]. destruct o, a; try done. injection Hasg as ->.
    eexists proof, balance, _, _. split_and!; [exact Henv|exact Hans|done|done].
Qed.

Lemma auditRefusal_active io sid reason s :
  cs_activeSessions (snd (auditRefusal d io sid reason s)) = cs_activeSessions s ∧
  cs_pendingSettlements (snd (auditRefusal d io sid reason s)) = cs_pendingSettlements s.
Proof. split; apply auditRefusal_core. Qed.

(** C11: When credits may be spent. A hook puts a session into network mode only if the runtime
    probe succeeded, the failure is a rate limit, the usage probe does not show headroom, the
    settings can be redirected, and the broker assigned a seeder to an envelope that is valid,
    carries the identity of the consumer, is signed by it and asks for the configured model and ceiling; and
    then it is that session only, and the request pending for it is the reservation's. Whatever
    other goroutines did meanwhile is not undone. *)
Theorem fallback_gated `{!CryptoLaws} io mid p s r s' :
  length priv = 64%nat → OnStopFailure d priv io mid (Some p) s = (r, s') →
  (s' = s ∨ cs_activeSessions s' = cs_activeSessions (mid s) ∧
            cs_pendingSettlements s' = cs_pendingSettlements (mid s)) ∨
  dp_RuntimeProbeOK d = true ∧ sfp_Error p = ErrorRateLimit ∧
  (∃ usage, io_probe io = Some usage ∧ ParseUsageProbe usage ≠ UsageHeadroom) ∧
  (∃ st, GetState (io_ff_state io) (io_sidecarURL io) (cs_settings s) = Ok st ∧ incompatible st = None) ∧
  ∃ env body a, io_broker io env = Some (Some a) ∧ br_Outcome a = BrokerOutcomeAssignment ∧
    es_Body env = Some body ∧ ValidateEnvelopeBody (Some body) = None ∧
    VerifyEnvelope (ed25519_Public priv) (Some env) = true ∧
    env_ConsumerId body = sha256 (ed25519_Public priv) ∧ env_Model body = dp_DefaultModel d ∧
    env_MaxOutputTokens body = dp_MaxOutputTokens d ∧
    ∃ asg, br_Assignment a = Some asg ∧
    (∀ sid, sid ≠ sfp_SessionID p → cs_activeSessions s' !! sid = cs_activeSessions (mid s) !! sid) ∧
    (∀ key pn, cs_pendingSettlements s' !! key = Some pn →
       cs_pendingSettlements (mid s) !! key = Some pn ∨
       key = sa_ReservationToken asg ∧ length key = 16%nat ∧ pn_sessionID pn = sfp_SessionID p ∧
       pn_maxOutputTokens pn = dp_MaxOutputTokens d).
Proof.
  intros Hk. unfold OnStopFailure. destruct (negb _) eqn:Er; [intros [= <- <-]; left; by left|].
  unfold handleRateLimit. destruct (prepare _ _ _ _ _ _) as [pl|reason] eqn:Ep.
  2:{ intros Ha. left; right. pose proof (auditRefusal_active io (sfp_SessionID p) reason (mid s)) as Hr1.
      by rewrite Ha in Hr1. }
  intros He. pose proof (enter_core io p pl (mid s)) as Hc. cbn zeta in Hc. rewrite He in Hc. cbn [snd] in Hc.
  destruct (EnterNetworkMode _ _ _ _ _) as [[u|e] st]; destruct Hc as ((Ha1 & Ha2 & _) & _ & _).
  2:{ left; right. by split. }
  right. destruct (prepare_spec _ _ _ _ Ep) as
    (Hpr & Hurl & Hne & Hst & Hu & Hv & Herr & proof & balance & bh & a & Hb & Hbr & Ho & Has).
  destruct (Envelope.Build_sound _ _ _ _ _ _ _ Hk Hb) as
    (body & Hbody & Hval & Hver & Hid & Hmod & Hmax & _ & _ & _).
  split_and!; [done|done|eauto|done|].
  exists (pl_envelope pl), body, a. split_and!; try done. exists (pl_assignment pl). split_and!; [done| |].
  - intros sid Hsid. rewrite Ha1. by rewrite lookup_insert_ne.
  - intros key pn. rewrite Ha2. unfold record_entry. cbn zeta.
    destruct (blen (sa_ReservationToken _) =? 16) eqn:El; cbn; [|by left].
    destruct (decide (key = sa_ReservationToken (pl_assignment pl))) as [->|Hkey].
    + rewrite lookup_insert_eq. intros [= <-]. right. bool_to_prop. unfold blen in El.
      split_and!; [done|lia|done|done].
    + rewrite lookup_insert_ne by done. by left.
Qed.

Lemma exit_settings xi sid reason s e st :
  cs_activeSessions s !! sid = Some e → ExitNetworkMode (xi_ff_exit xi) (cs_settings s) = (Ok tt, st) →
  cs_settings (snd (exitNetworkMode xi sid reason s)) = st.
Proof.
  intros He Hx. unfold exitNetworkMode, LogConsumer. cbn. rewrite He, Hx. by destruct (xi_audit xi).
Qed.


(** After a sweep every session that is still active has time left, whatever order the map was
    ranged over in, and no session with time left was touched. *)
Lemma exit_all_active xi sids s :
  cs_activeSessions (exit_all xi sids s) = filter (λ kv : string * activeEntry, kv.1 ∉ sids) (cs_activeSessions s).
Proof.
  revert s. induction sids as [|sid sids IH]; intros s; cbn.
  - symmetry. apply map_filter_id. intros k x _ Hk. by apply elem_of_nil in Hk.
  - change (cs_activeSessions (exit_all xi sids (snd (exitNetworkMode (xi sid) sid "ttl_expired" s))) =
      filter (λ kv : string * activeEntry, kv.1 ∉ sid :: sids) (cs_activeSessions s)).
    rewrite IH. destruct (exit_core (xi sid) sid "ttl_expired" s) as (-> & _). apply map_eq. intros k.
    apply option_eq. intros v. rewrite !map_lookup_filter_Some, lookup_delete_Some. cbn.
    rewrite not_elem_of_cons. naive_solver.
Qed.

Lemma reap_exact xi order now s k e :
  (∀ l, order l ≡ₚ l) →
  cs_activeSessions (reapExpired xi order now s) !! k = Some e ↔
  cs_activeSessions s !! k = Some e ∧ (ae_expiresAt e = zeroTime ∨ now ≤ ae_expiresAt e).
Proof.
  intros Ho. unfold reapExpired. rewrite exit_all_active, map_lookup_filter_Some. cbn.
  assert (∀ e, cs_activeSessions s !! k = Some e → k ∈ expired now s ↔
    ae_expiresAt e ≠ zeroTime ∧ ae_expiresAt e < now) as Hexp.
  { intros e' Hk. unfold expired. rewrite list_elem_of_fmap. split.
    - intros ([k' e2] & -> & Hin). apply list_elem_of_filter in Hin as [Hc Hin].
      apply elem_of_map_to_list in Hin. cbn in *. rewrite Hk in Hin. injection Hin as <-.
      apply Is_true_true in Hc. bool_to_prop. done.
    - intros [H1 H2]. exists (k, e'). split; [done|]. apply list_elem_of_filter.
      split; [|by apply elem_of_map_to_list]. cbn. apply Is_true_true, andb_true_iff.
      split; [by apply negb_true_iff, Z.eqb_neq|by apply Z.ltb_lt]. }
  split.
  - intros [Hk Hn]. split; [done|]. rewrite Ho, (Hexp _ Hk) in Hn.
    destruct (Z.eq_dec (ae_expiresAt e) zeroTime); [by left|right; lia].
  - intros [Hk Hn]. split; [done|]. rewrite Ho, (Hexp _ Hk). lia.
Qed.
End steps.

(** ** A fallback, evaluated *)

Definition s_priv : bytes := witness_key Byte.x11.
Definition s_token : bytes := replicate 16 Byte.x77.

Definition s_deps : Deps := {|
  dp_Tracker := true; dp_Sessions := true; dp_Settings := true; dp_AuditLog := true;
  dp_UsageProber := true; dp_ProofBuilder := true; dp_EnvelopeBuilder := true; dp_Identity := true;
  dp_SidecarURLFunc := true; dp_Metrics := true; dp_NetworkModeTTL := defaultNetworkModeTTL;
  dp_RuntimeProbeOK := true; dp_PrivacyTier := PRIVACY_TIER_STANDARD;
  dp_DefaultModel := "claude-sonnet-4-6"; dp_MaxInputTokens := 1000; dp_MaxOutputTokens := 100 |}.

Definition s_payload : StopFailurePayload := {|
  sfp_SessionID := "s1"; sfp_TranscriptPath := ""; sfp_CWD := ""; sfp_PermissionMode := None;
  sfp_AgentID := None; sfp_AgentType := None; sfp_HookEventName := "StopFailure";
  sfp_Error := ErrorRateLimit; sfp_ErrorDetails := None; sfp_LastAssistantMessage := None |}.

Definition s_answer : BrokerResult := {|
  br_Outcome := BrokerOutcomeAssignment;
  br_Assignment := Some {| sa_SeederAddr := "10.0.0.1:7000"; sa_SeederPubkey := replicate 32 Byte.x22;
                           sa_ReservationToken := s_token |};
  br_NoCap := None; br_Queued := None; br_Rejected := None |}.

Definition s_io : HookIo := {|
  io_sidecarURL := sample_url; io_ff_state := no_fs_faults; io_ff_enter := no_fs_faults;
  io_probe := Some (string_bytes "99% used 98% used");
  io_usageProbeAt := 1700000000 * Second; io_stopFailureAt := 1700000001 * Second;
  io_proofNow := 1700000001 * Second; io_envelopeNow := 1700000002 * Second;
  io_enterNow := 1700000003 * Second; io_settingsNow := 1700000003 * Second;
  io_refusalNow := 1700000003 * Second; io_payload := Some (string_bytes "{}");
  io_randProof := Some []; io_randBody := Some []; io_randEnvelope := Some [];
  io_balance := Some (Some {| sbs_Body := None; sbs_TrackerSig := [] |});
  io_broker := λ _, Some (Some s_answer); io_ephemeral := Some ([], []);
  io_parseAddr := λ _, true; io_audit := None |}.

Definition s_state : CState := new_state sample_settings.
Definition s_xi : ExitIo := {|
  xi_ff_exit := no_fs_faults; xi_ff_best := no_fs_faults; xi_now := 1700000100 * Second;
  xi_audit := None |}.

Definition s_entered : CState :=
  snd (@OnStopFailure ToyCrypto ToyWire s_deps s_priv s_io id (Some s_payload) s_state).

Lemma fallback_gated_witness :
  is_Some (cs_activeSessions s_entered !! "s1") ∧
  ∃ body, ValidateEnvelopeBody (Some body) = None ∧ env_Model body = "claude-sonnet-4-6".
Proof.
  assert (bool_decide (is_Some (cs_activeSessions s_entered !! "s1")) = true) as Ha by (vm_compute; reflexivity).
  apply bool_decide_eq_true in Ha.
  split; [exact Ha|].
  destruct (@fallback_gated ToyCrypto ToyWire s_deps s_priv ToyCryptoLaws s_io id s_payload s_state
    (fst (@OnStopFailure ToyCrypto ToyWire s_deps s_priv s_io id (Some s_payload) s_state)) s_entered)
    as [[Hs|[Hs _]]|(_ & _ & _ & _ & env & body & a & _ & _ & _ & Hv & _ & _ & Hm & _)].
  - reflexivity.
  - unfold s_entered. by destruct (OnStopFailure _ _ _ _ _ _).
  - exfalso. rewrite Hs in Ha. by destruct Ha as [? [=]].
  - exfalso. rewrite Hs in Ha. by destruct Ha as [? [=]].
  - exists body. split; [exact Hv|exact Hm].
Defined.


Definition s_assertion : UsageAssertion := {|
  ua_RequestID := s_token; ua_ConsumerID := replicate 32 Byte.x11; ua_SeederID := replicate 32 Byte.x22;
  ua_Model := "claude-sonnet-4-6"; ua_InputTokens := 10; ua_OutputTokens := 20;
  ua_CostCredits := 330 |}.

Definition s_body : bytes :=
  match CanonicalUsageAssertionPreSig s_assertion with Ok b => b | Err _ => [] end.
Definition s_request : SettlementRequest :=
  {| sr_PreimageHash := @sha256 ToyCrypto s_body; sr_PreimageBody := s_body |}.
Definition s_si : SettleIo := {| si_sign := None; si_settle := None; si_now := 0; si_audit := None |}.

Lemma s_entered_reachable : rtc (@cstep ToyCrypto s_deps s_priv) s_state s_entered.
Proof.
  unfold s_entered, OnStopFailure, handleRateLimit.
  destruct (negb (bool_decide (sfp_Error s_payload = ErrorRateLimit))) eqn:E; [by vm_compute in E|].
  apply rtc_once. destruct (prepare _ _ _ _ _ _); constructor.
Qed.


(** A session that meets the limit again while it is redirected enters again, and its end leaves
    Claude Code redirected to the sidecar, with no session in network mode and no journal. *)
Lemma reentry_leaves_redirect :
  let again := snd (@OnStopFailure ToyCrypto ToyWire s_deps s_priv s_io id (Some s_payload) s_entered) in
  let s := snd (OnSessionEnd s_xi (Some "s1") again) in
  redirect (cs_settings s_state) = "" ∧ redirect (cs_settings s) = sample_url ∧
  cs_activeSessions s = ∅ ∧ s_rollback (cs_settings s) = None.
Proof. vm_compute. split_and!; reflexivity. Qed.

(** A time limit of zero is not "no limit": [New] replaces it by fifteen minutes. *)
Lemma zero_ttl_is_default d d' : New d = Ok d' → dp_NetworkModeTTL d = 0 → dp_NetworkModeTTL d' = defaultNetworkModeTTL.
Proof. unfold New. destruct (Validate d); [done|]. intros [= <-] H. cbn. by rewrite H. Qed.

(** Only the output tokens are checked: a settlement for another model, with any number of input
    tokens and any cost, is countersigned. *)
Lemma any_cost_is_countersigned :
  let a := {| ua_RequestID := s_token; ua_ConsumerID := replicate 32 Byte.x00;
              ua_SeederID := replicate 32 Byte.x00; ua_Model := "other"; ua_InputTokens := 2 ^ 32 - 1;
              ua_OutputTokens := 0; ua_CostCredits := 2 ^ 64 - 1 |} in
  ∃ body, CanonicalUsageAssertionPreSig a = Ok body ∧
    is_ok (fst (@HandleSettlement ToyCrypto s_deps s_priv s_si
      (Some {| sr_PreimageHash := @sha256 ToyCrypto body; sr_PreimageBody := body |}) s_entered)) = true.
Proof. cbn zeta. eexists. split; [reflexivity|]. vm_compute. reflexivity. Qed.
