(* ===== verification/Seeder.v ===== *)
(** plugin/internal/seederflow: the seeder's side. When it advertises; how it takes an offer (a
    fresh key per offer, bound to the tunnel listener); how it serves one, reports the usage to the
    tracker under that key, and forgets it. The push handler of plugin/internal/trackerclient
    that feeds it, and ccbridge's client hash.

    One request served is two steps, [serveBegin] up to the bridge call and [serveEnd] after it,
    so that any number of them overlap. The local time zone, the random source, the bridge and
    the tunnel are arguments; so is encoding/json. *)
From S2P Require Import Prelude Proto Signing Entry AdmQueue Config Wiring.
From Stdlib Require Import Strings.Ascii.

#[local] Open Scope Z_scope.

(** ** The idle policy *)

Inductive IdleMode := IdleAlwaysOn | IdleScheduled.

#[global] Instance IdleMode_eq_dec : EqDecision IdleMode.
Proof. solve_decision. Defined.

(** A time of day; all the policy keeps of a [time.Time]. *)
Record TimeOfDay := { Hour : Z; Minute : Z }.

#[global] Instance TimeOfDay_eq_dec : EqDecision TimeOfDay.
Proof. solve_decision. Defined.

Record IdlePolicy := { ip_Mode : IdleMode; ip_WindowStart : TimeOfDay; ip_WindowEnd : TimeOfDay }.

(** [now.Hour()] and [now.Minute()] where the zone is [zone] seconds east of UTC. *)
Definition clock_of (zone : Z → Z) (now : Z) : TimeOfDay :=
  let s := (Unix now + zone now) mod 86400 in
  {| Hour := s / 3600; Minute := s mod 3600 / 60 |}.

Definition minutes (t : TimeOfDay) : Z := Hour t * 60 + Minute t.

Definition inIdleWindow (p : IdlePolicy) (now : TimeOfDay) : bool :=
  match ip_Mode p with
  | IdleAlwaysOn => true
  | IdleScheduled =>
    let curMin := minutes now in
    let startMin := minutes (ip_WindowStart p) in
    let endMin := minutes (ip_WindowEnd p) in
    if startMin =? endMin then false
    else if startMin <? endMin then (startMin <=? curMin) && (curMin <? endMin)
    else (startMin <=? curMin) || (curMin <? endMin)
  end.

(** [strings.TrimSpace], on bytes: the encodings of the runes [unicode.IsSpace] accepts. *)
Definition space_runes : list (list Z) :=
  [[9]; [10]; [11]; [12]; [13]; [32]; [194; 133]; [194; 160]; [225; 154; 128];
   [226; 128; 128]; [226; 128; 129]; [226; 128; 130]; [226; 128; 131]; [226; 128; 132];
   [226; 128; 133]; [226; 128; 134]; [226; 128; 135]; [226; 128; 136]; [226; 128; 137];
   [226; 128; 138]; [226; 128; 168]; [226; 128; 169]; [226; 128; 175]; [226; 129; 159];
   [227; 128; 128]].

(** One space off the front, if there is one. *)
Definition strip_space (runes : list (list Z)) (s : list Z) : option (list Z) :=
  match List.find (λ r, bool_decide (take (length r) s = r)) runes with
  | Some r => Some (drop (length r) s)
  | None => None
  end.

Fixpoint trim_left (fuel : nat) (runes : list (list Z)) (s : list Z) : list Z :=
  match fuel with
  | O => s
  | S fuel' => match strip_space runes s with Some s' => trim_left fuel' runes s' | None => s end
  end.

Definition TrimSpace (s : list Z) : list Z :=
  let s := trim_left (length s) space_runes s in
  rev (trim_left (length s) ((@rev Z) <$> space_runes) (rev s)).

(** [strconv.Atoi]: an optional sign, then digits; out of range is an error. *)
Fixpoint digits_val (acc : Z) (s : list Z) : option Z :=
  match s with
  | [] => Some acc
  | c :: s' => if (48 <=? c) && (c <=? 57) then digits_val (10 * acc + (c - 48)) s' else None
  end.

Definition Atoi (s : list Z) : option Z :=
  let '(neg, t) := match s with
                   | 43 :: t => (false, t)
                   | 45 :: t => (true, t)
                   | _ => (false, s)
                   end in
  match t with
  | [] => None
  | _ =>
    match digits_val 0 t with
    | None => None
    | Some v =>
      let v := if neg : bool then - v else v in
      if (v <? - 2 ^ 63) || (2 ^ 63 - 1 <? v) then None else Some v
    end
  end.

(** [strings.Split] on one byte. *)
Fixpoint Split (sep : Z) (s : list Z) : list (list Z) :=
  match s with
  | [] => [[]]
  | c :: s' =>
    if c =? sep then [] :: Split sep s'
    else match Split sep s' with
         | p :: ps => (c :: p) :: ps
         | [] => [[c]]
         end
  end.

Definition parseHHMM (s : list Z) : option TimeOfDay :=
  match Split 58 (TrimSpace s) with
  | [a; b] =>
    match Atoi a with
    | None => None
    | Some h =>
      if (h <? 0) || (23 <? h) then None
      else match Atoi b with
           | None => None
           | Some m => if (m <? 0) || (59 <? m) then None else Some {| Hour := h; Minute := m |}
           end
    end
  | _ => None
  end.

Definition parseWindow (s : list Z) : option (TimeOfDay * TimeOfDay) :=
  match Split 45 s with
  | [a; b] =>
    match parseHHMM a with
    | None => None
    | Some start => match parseHHMM b with None => None | Some end_ => Some (start, end_) end
    end
  | _ => None
  end.

Definition zeroTimeOfDay : TimeOfDay := {| Hour := 0; Minute := 0 |}.

Definition ParseIdlePolicy (mode window : string) : option IdlePolicy :=
  if bool_decide (mode = "always_on")
  then Some {| ip_Mode := IdleAlwaysOn; ip_WindowStart := zeroTimeOfDay; ip_WindowEnd := zeroTimeOfDay |}
  else if bool_decide (mode = "scheduled") then
    match parseWindow (Z_of_byte <$> string_bytes window) with
    | None => None
    | Some (start, end_) =>
      Some {| ip_Mode := IdleScheduled; ip_WindowStart := start; ip_WindowEnd := end_ |}
    end
  else None.

(** ** Prices and identities *)

(** The mirrored table. *)
Definition usagePriceTable : gmap string (Z * Z) :=
  <["claude-opus-4-7" := (15, 75)]> (<["claude-sonnet-4-6" := (3, 15)]>
  (<["claude-haiku-4-5-20251001" := (1, 5)]> ∅)).

(** On uint64. *)
Definition actualCostCredits (model : string) (in_ out : Z) : option Z :=
  match usagePriceTable !! model with
  | None => None
  | Some (pin, pout) => Some (u64 (u64 (pin * in_) + u64 (pout * out)))
  end.

(** ** The coordinator's data *)

Record Offer := {
  of_ConsumerID : bytes; of_EnvelopeHash : bytes; of_Model : string; of_MaxInputTokens : Z;
  of_MaxOutputTokens : Z; of_ConsumerEphemeralPub : bytes; of_RequestID : bytes
}.

Record OfferDecision := { dc_Accept : bool; dc_EphemeralPubkey : bytes; dc_RejectReason : string }.

Record reservation := {
  rv_envelopeHash : bytes; rv_consumerIDHash : bytes; rv_requestID : bytes; rv_consumerID : bytes;
  rv_model : string; rv_maxInputTokens : Z; rv_maxOutputTokens : Z; rv_ephemeralPub : bytes;
  rv_ephemeralPriv : bytes; rv_consumerEphemeralPub : bytes; rv_registeredAt : Z
}.

Record UsageReport := {
  ur_RequestID : bytes; ur_InputTokens : Z; ur_OutputTokens : Z; ur_Model : string;
  ur_SeederSig : bytes
}.

Record SeederRecord := {
  sd_RequestID : bytes; sd_Model : string; sd_InputTokens : Z; sd_OutputTokens : Z;
  sd_ConsumerIDHash : bytes; sd_StartedAt : Z; sd_CompletedAt : Z
}.

Record Advertisement := {
  ad_Models : list string; ad_MaxContext : Z; ad_Available : bool; ad_Headroom : Z; ad_Tiers : Z
}.

Record SeederConfig := {
  sc_wired : bool; sc_IdlePolicy : IdlePolicy; sc_ActivityGrace : Z; sc_HeadroomWindow : Z;
  sc_Models : list string; sc_MaxContext : Z; sc_Tiers : Z; sc_Metrics : bool
}.

(** The bridge, tracker, log, key and acceptor must be wired, models named; the windows have
    defaults. *)
Definition validateConfig (c : SeederConfig) : option SeederConfig :=
  if negb (sc_wired c) then None
  else if bool_decide (sc_Models c = []) then None
  else Some {|
    sc_wired := true; sc_IdlePolicy := sc_IdlePolicy c;
    sc_ActivityGrace := if sc_ActivityGrace c =? 0 then 10 * 60 * Second else sc_ActivityGrace c;
    sc_HeadroomWindow := if sc_HeadroomWindow c =? 0 then 15 * 60 * Second else sc_HeadroomWindow c;
    sc_Models := sc_Models c; sc_MaxContext := sc_MaxContext c; sc_Tiers := sc_Tiers c;
    sc_Metrics := sc_Metrics c |}.

(** The coordinator, with the keys its acceptor is bound to and what it sent: reports,
    advertisements, audit records, counters. *)
Record SState := {
  ss_reservations : gmap string reservation;
  ss_activeClients : gmap string Z;
  ss_lastActivityAt : Z; ss_activityActive : bool; ss_lastRateLimitAt : Z;
  ss_conformanceFailed : bool;
  ss_bound : option (bytes * bytes);
  ss_reports : list UsageReport; ss_ads : list Advertisement; ss_audit : list SeederRecord;
  ss_rejected : list string
}.

Definition new_seeder : SState := {|
  ss_reservations := ∅; ss_activeClients := ∅; ss_lastActivityAt := zeroTime;
  ss_activityActive := false; ss_lastRateLimitAt := zeroTime; ss_conformanceFailed := false;
  ss_bound := None; ss_reports := []; ss_ads := []; ss_audit := []; ss_rejected := [] |}.

(** Field updates. *)
Definition set_rvs r (s : SState) : SState := {|
  ss_reservations := r; ss_activeClients := ss_activeClients s; ss_lastActivityAt := ss_lastActivityAt s;
  ss_activityActive := ss_activityActive s; ss_lastRateLimitAt := ss_lastRateLimitAt s;
  ss_conformanceFailed := ss_conformanceFailed s; ss_bound := ss_bound s; ss_reports := ss_reports s;
  ss_ads := ss_ads s; ss_audit := ss_audit s; ss_rejected := ss_rejected s |}.
Definition set_clients a (s : SState) : SState := {|
  ss_reservations := ss_reservations s; ss_activeClients := a; ss_lastActivityAt := ss_lastActivityAt s;
  ss_activityActive := ss_activityActive s; ss_lastRateLimitAt := ss_lastRateLimitAt s;
  ss_conformanceFailed := ss_conformanceFailed s; ss_bound := ss_bound s; ss_reports := ss_reports s;
  ss_ads := ss_ads s; ss_audit := ss_audit s; ss_rejected := ss_rejected s |}.
Definition set_activity (a : bool) t (s : SState) : SState := {|
  ss_reservations := ss_reservations s; ss_activeClients := ss_activeClients s; ss_lastActivityAt := t;
  ss_activityActive := a; ss_lastRateLimitAt := ss_lastRateLimitAt s;
  ss_conformanceFailed := ss_conformanceFailed s; ss_bound := ss_bound s; ss_reports := ss_reports s;
  ss_ads := ss_ads s; ss_audit := ss_audit s; ss_rejected := ss_rejected s |}.
Definition set_limited t (s : SState) : SState := {|
  ss_reservations := ss_reservations s; ss_activeClients := ss_activeClients s;
  ss_lastActivityAt := ss_lastActivityAt s; ss_activityActive := ss_activityActive s;
  ss_lastRateLimitAt := t; ss_conformanceFailed := ss_conformanceFailed s; ss_bound := ss_bound s;
  ss_reports := ss_reports s; ss_ads := ss_ads s; ss_audit := ss_audit s; ss_rejected := ss_rejected s |}.
Definition set_conformance f (s : SState) : SState := {|
  ss_reservations := ss_reservations s; ss_activeClients := ss_activeClients s;
  ss_lastActivityAt := ss_lastActivityAt s; ss_activityActive := ss_activityActive s;
  ss_lastRateLimitAt := ss_lastRateLimitAt s; ss_conformanceFailed := f; ss_bound := ss_bound s;
  ss_reports := ss_reports s; ss_ads := ss_ads s; ss_audit := ss_audit s; ss_rejected := ss_rejected s |}.
Definition set_bound b (s : SState) : SState := {|
  ss_reservations := ss_reservations s; ss_activeClients := ss_activeClients s;
  ss_lastActivityAt := ss_lastActivityAt s; ss_activityActive := ss_activityActive s;
  ss_lastRateLimitAt := ss_lastRateLimitAt s; ss_conformanceFailed := ss_conformanceFailed s;
  ss_bound := b; ss_reports := ss_reports s; ss_ads := ss_ads s; ss_audit := ss_audit s;
  ss_rejected := ss_rejected s |}.
Definition add_report r (s : SState) : SState := {|
  ss_reservations := ss_reservations s; ss_activeClients := ss_activeClients s;
  ss_lastActivityAt := ss_lastActivityAt s; ss_activityActive := ss_activityActive s;
  ss_lastRateLimitAt := ss_lastRateLimitAt s; ss_conformanceFailed := ss_conformanceFailed s;
  ss_bound := ss_bound s; ss_reports := ss_reports s ++ [r]; ss_ads := ss_ads s;
  ss_audit := ss_audit s; ss_rejected := ss_rejected s |}.
Definition add_ad a (s : SState) : SState := {|
  ss_reservations := ss_reservations s; ss_activeClients := ss_activeClients s;
  ss_lastActivityAt := ss_lastActivityAt s; ss_activityActive := ss_activityActive s;
  ss_lastRateLimitAt := ss_lastRateLimitAt s; ss_conformanceFailed := ss_conformanceFailed s;
  ss_bound := ss_bound s; ss_reports := ss_reports s; ss_ads := ss_ads s ++ [a];
  ss_audit := ss_audit s; ss_rejected := ss_rejected s |}.
Definition add_served r (s : SState) : SState := {|
  ss_reservations := ss_reservations s; ss_activeClients := ss_activeClients s;
  ss_lastActivityAt := ss_lastActivityAt s; ss_activityActive := ss_activityActive s;
  ss_lastRateLimitAt := ss_lastRateLimitAt s; ss_conformanceFailed := ss_conformanceFailed s;
  ss_bound := ss_bound s; ss_reports := ss_reports s; ss_ads := ss_ads s;
  ss_audit := ss_audit s ++ [r]; ss_rejected := ss_rejected s |}.
Definition add_rejected r (s : SState) : SState := {|
  ss_reservations := ss_reservations s; ss_activeClients := ss_activeClients s;
  ss_lastActivityAt := ss_lastActivityAt s; ss_activityActive := ss_activityActive s;
  ss_lastRateLimitAt := ss_lastRateLimitAt s; ss_conformanceFailed := ss_conformanceFailed s;
  ss_bound := ss_bound s; ss_reports := ss_reports s; ss_ads := ss_ads s; ss_audit := ss_audit s;
  ss_rejected := ss_rejected s ++ [r] |}.

(** ** Availability *)

Definition OnSessionStart (t : Z) (s : SState) : SState := set_activity true t s.
Definition OnSessionEnd (t : Z) (s : SState) : SState := set_activity false t s.

Definition RecordRateLimit (t : Z) (s : SState) : SState :=
  if ss_lastRateLimitAt s <? t then set_limited t s else s.

(** [RunConformance]: [None] when no check is configured, else whether it succeeded. *)
Definition RunConformance (check : option bool) (s : SState) : bool * SState :=
  match check with
  | None => (true, s)
  | Some ok => (ok, set_conformance (negb ok) s)
  end.

Definition ResetConformance (s : SState) : SState := set_conformance false s.

Section seeder.
Context `{Crypto}.
Variables (cfg : SeederConfig) (zone : Z → Z) (identityPub : bytes).

Definition availableLocked (now : Z) (s : SState) : bool :=
  if ss_conformanceFailed s then false
  else if ss_activityActive s then false
  else if negb (ss_lastActivityAt s =? zeroTime)
          && (time_Sub now (ss_lastActivityAt s) <? sc_ActivityGrace cfg) then false
  else if negb (ss_lastRateLimitAt s =? zeroTime)
          && (time_Sub now (ss_lastRateLimitAt s) <? sc_HeadroomWindow cfg) then false
  else if negb (inIdleWindow (sc_IdlePolicy cfg) (clock_of zone now)) then false
  else true.

Definition rejectReasonForState (now : Z) (s : SState) : string :=
  if ss_conformanceFailed s then "bridge conformance failed"
  else if ss_activityActive s then "user is actively using Claude Code"
  else if negb (ss_lastActivityAt s =? zeroTime)
          && (time_Sub now (ss_lastActivityAt s) <? sc_ActivityGrace cfg)
  then "within activity grace window"
  else if negb (ss_lastRateLimitAt s =? zeroTime)
          && (time_Sub now (ss_lastRateLimitAt s) <? sc_HeadroomWindow cfg)
  then "recent rate-limit signal"
  else if negb (inIdleWindow (sc_IdlePolicy cfg) (clock_of zone now)) then "outside idle window"
  else "not advertising".

(** Headroom is 1.0 or 0. *)
Definition advertise (now : Z) (delivered : bool) (s : SState) : SState :=
  let available := availableLocked now s in
  if delivered then add_ad {|
    ad_Models := sc_Models cfg; ad_MaxContext := sc_MaxContext cfg; ad_Available := available;
    ad_Headroom := if available then 1 else 0; ad_Tiers := sc_Tiers cfg |} s
  else s.

(** ** Offers *)

Definition reject (reason : string) : OfferDecision :=
  {| dc_Accept := false; dc_EphemeralPubkey := []; dc_RejectReason := reason |}.

Definition incOfferRejected (reason : string) (s : SState) : SState :=
  if sc_Metrics cfg then add_rejected reason s else s.

(** [gen] is the fresh key pair, if the source yields one; [bindOK] whether the acceptor takes
    it. *)
Definition HandleOffer (cancelled : bool) (now : Z) (gen : option (bytes * bytes)) (bindOK : bool)
    (o : Offer) (s : SState) : OfferDecision * SState :=
  if cancelled then (reject "ctx canceled", s)
  else if negb (availableLocked now s) then (reject (rejectReasonForState now s), s)
  else if negb (bool_decide (of_Model o ∈ sc_Models cfg))
  then (reject (String.append "model not advertised: " (of_Model o)), s)
  else if negb (blen (of_ConsumerEphemeralPub o) =? PublicKeySize)
  then (reject "missing consumer ephemeral pubkey", incOfferRejected "no_ephemeral" s)
  else match gen with
       | None => (reject "ephemeral keygen failed", s)
       | Some (pub, priv) =>
         if negb bindOK then (reject "acceptor bind failed", incOfferRejected "bind_failed" s)
         else
         let s := set_bound (Some (priv, of_ConsumerEphemeralPub o)) s in
         let res := {|
           rv_envelopeHash := of_EnvelopeHash o; rv_consumerIDHash := sha256 (of_ConsumerID o);
           rv_requestID := of_RequestID o; rv_consumerID := of_ConsumerID o; rv_model := of_Model o;
           rv_maxInputTokens := of_MaxInputTokens o; rv_maxOutputTokens := of_MaxOutputTokens o;
           rv_ephemeralPub := pub; rv_ephemeralPriv := priv;
           rv_consumerEphemeralPub := of_ConsumerEphemeralPub o; rv_registeredAt := now |} in
         ({| dc_Accept := true; dc_EphemeralPubkey := pub; dc_RejectReason := "" |},
          set_rvs (<[hex_EncodeToString (of_EnvelopeHash o) := res]> (ss_reservations s)) s)
       end.

Definition HasReservation (envHash : bytes) (s : SState) : bool :=
  bool_decide (is_Some (ss_reservations s !! hex_EncodeToString envHash)).

(** [copy] into a zeroed array of [n] bytes. *)
Definition into_array (n : nat) (b : bytes) : bytes := take n (b ++ zero_bytes n).

(** trackerclient's [handleOffer], for a push that was read. *)
Definition handleOffer (cancelled : bool) (now : Z) (gen : option (bytes * bytes)) (bindOK : bool)
    (push : OfferPush) (s : SState) : OfferDecision * SState :=
  match ValidateOfferPush (Some push) with
  | Some e => (reject e, s)
  | None =>
    HandleOffer cancelled now gen bindOK {|
      of_ConsumerID := into_array 32 (op_ConsumerId push);
      of_EnvelopeHash := into_array 32 (op_EnvelopeHash push); of_Model := op_Model push;
      of_MaxInputTokens := op_MaxInputTokens push; of_MaxOutputTokens := op_MaxOutputTokens push;
      of_ConsumerEphemeralPub := op_ConsumerEphemeralPub push;
      of_RequestID := into_array 16 (op_RequestId push) |} s
  end.

(** ** Serving *)

Definition consumeReservation (envHash : bytes) (s : SState) : option reservation * SState :=
  let key := hex_EncodeToString envHash in
  match ss_reservations s !! key with
  | None => (None, s)
  | Some res => (Some res, set_rvs (delete key (ss_reservations s)) s)
  end.

(** The envelope hash of the only reservation. *)
Definition peekReservation (s : SState) : option bytes :=
  match map_to_list (ss_reservations s) with
  | [(k, _)] => Some (into_array 32 (default [] (hex_DecodeString k)))
  | _ => None
  end.

(** ccbridge's [ClientHash]. *)
Definition ClientHash (pub : bytes) : string :=
  if negb (blen pub =? PublicKeySize) then "" else hex_EncodeToString (take 8 (sha256 pub)).

Definition clients (hash : string) (s : SState) : Z := default 0 (ss_activeClients s !! hash).

Definition IsActiveByHash (hash : string) (s : SState) : bool := 0 <? clients hash s.

Definition IsActive (pub : bytes) (s : SState) : bool :=
  if negb (blen pub =? PublicKeySize) then false else IsActiveByHash (ClientHash pub) s.

Definition RegisterActive (pub : bytes) (s : SState) : SState :=
  if negb (blen pub =? PublicKeySize) then s
  else let hash := ClientHash pub in
       set_clients (<[hash := clients hash s + 1]> (ss_activeClients s)) s.

Definition UnregisterActive (pub : bytes) (s : SState) : SState :=
  if negb (blen pub =? PublicKeySize) then s
  else let hash := ClientHash pub in
       if clients hash s <=? 1 then set_clients (delete hash (ss_activeClients s)) s
       else set_clients (<[hash := clients hash s - 1]> (ss_activeClients s)) s.

(** The JSON package: what a body decodes to, a JSON string, and one text block. *)
Variables (decode_request : bytes → option (string * list (string * bytes)))
  (decode_string : bytes → option string) (TextContent : string → bytes).

Record BridgeRequest := {
  rq_System : string; rq_Messages : list (string * bytes); rq_BridgeModel : string;
  rq_ClientPubkey : bytes
}.

Definition normalizeContent (raw : bytes) : option bytes :=
  match raw with
  | [] => None
  | c :: _ =>
    if Z_of_byte c =? 91 then Some raw
    else match decode_string raw with None => None | Some s => Some (TextContent s) end
  end.

Fixpoint normalizeAll (ms : list (string * bytes)) : option (list (string * bytes)) :=
  match ms with
  | [] => Some []
  | (role, raw) :: ms' =>
    match normalizeContent raw with
    | None => None
    | Some content =>
      match normalizeAll ms' with None => None | Some rest => Some ((role, content) :: rest) end
    end
  end.

Definition buildBridgeRequest (body : bytes) (res : reservation) : option BridgeRequest :=
  match decode_request body with
  | None => None
  | Some (system, messages) =>
    if bool_decide (messages = []) then None else
    match normalizeAll messages with
    | None => None
    | Some msgs => Some {| rq_System := system; rq_Messages := msgs; rq_BridgeModel := rv_model res;
                           rq_ClientPubkey := rv_consumerIDHash res |}
    end
  end.

Inductive SeederErr :=
| ErrNoReservation | ErrReadRequest | ErrBadRequest | ErrSendOK | ErrBridge | ErrCloseWriter
| ErrPrice | ErrSign (e : string) | ErrReport | ErrAudit.

(** A request being served. *)
Record Job := { jb_res : reservation; jb_request : BridgeRequest; jb_startedAt : Z }.

(** [Serve] up to the bridge: the reservation is gone whatever happens next. [body] is what the
    tunnel delivers. *)
Definition serveBegin (now : Z) (body : option bytes) (sendOK : bool) (envHash : bytes)
    : GoM SState SeederErr Job := λ s,
  match consumeReservation envHash s with
  | (None, s) => (Err ErrNoReservation, s)
  | (Some res, s) =>
    match body with
    | None => (Err ErrReadRequest, s)
    | Some body =>
      match buildBridgeRequest body res with
      | None => (Err ErrBadRequest, s)
      | Some req =>
        if negb sendOK then (Err ErrSendOK, s)
        else (Ok {| jb_res := res; jb_request := req; jb_startedAt := now |},
              RegisterActive (rq_ClientPubkey req) s)
      end
    end
  end.

Definition seederIdentityID (pub : bytes) : bytes := sha256 (MarshalPKIXPublicKey pub).

(** The assertion a report signs. *)
Definition job_assertion (res : reservation) (in_ out cost : Z) : UsageAssertion := {|
  ua_RequestID := rv_requestID res; ua_ConsumerID := rv_consumerID res;
  ua_SeederID := seederIdentityID identityPub; ua_Model := rv_model res; ua_InputTokens := in_;
  ua_OutputTokens := out; ua_CostCredits := cost |}.

(** [usage] is what the bridge counted, as uint64; [delivered] whether the tracker took the
    report. *)
Definition reportUsage (delivered : bool) (res : reservation) (usage : Z * Z)
    : GoM SState SeederErr () := λ s,
  let in_ := u32 usage.1 in
  let out := u32 usage.2 in
  match actualCostCredits (rv_model res) in_ out with
  | None => (Err ErrPrice, s)
  | Some cost =>
    match SignUsageAssertion (rv_ephemeralPriv res) (job_assertion res in_ out cost) with
    | Err e => (Err (ErrSign e), s)
    | Ok sig =>
      let s := add_report {| ur_RequestID := rv_requestID res; ur_InputTokens := in_;
                             ur_OutputTokens := out; ur_Model := rv_model res;
                             ur_SeederSig := sig |} s in
      if delivered then (Ok (), s) else (Err ErrReport, s)
    end
  end.

(** What the rest of [Serve] meets: the bridge's usage if it succeeded, whether the writer closed,
    the tracker took the report, the log took the record. *)
Record EndIo := {
  ei_usage : option (Z * Z); ei_close : bool; ei_delivered : bool; ei_audit : bool; ei_now : Z
}.

(** [Serve] from the bridge's return on, the deferred [UnregisterActive] included. *)
Definition serveEnd (ei : EndIo) (j : Job) : GoM SState SeederErr () := λ s,
  let res := jb_res j in
  let '(r, s) :=
    match ei_usage ei with
    | None => (Err ErrBridge, s)
    | Some usage =>
      if negb (ei_close ei) then (Err ErrCloseWriter, s) else
      match reportUsage (ei_delivered ei) res usage s with
      | (Err e, s) => (Err e, s)
      | (Ok _, s) =>
        if ei_audit ei
        then (Ok (), add_served {|
          sd_RequestID := rv_requestID res; sd_Model := rv_model res;
          sd_InputTokens := i64 usage.1; sd_OutputTokens := i64 usage.2;
          sd_ConsumerIDHash := rv_consumerIDHash res; sd_StartedAt := jb_startedAt j;
          sd_CompletedAt := ei_now ei |} s)
        else (Err ErrAudit, s)
      end
    end in
  (r, UnregisterActive (rq_ClientPubkey (jb_request j)) s).

(** One turn of [acceptLoop] for a tunnel that was accepted. *)
Definition acceptOne (now : Z) (body : option bytes) (sendOK : bool) : GoM SState SeederErr Job := λ s,
  match peekReservation s with
  | None => (Err ErrNoReservation, s)
  | Some envHash => serveBegin now body sendOK envHash s
  end.
End seeder.

(** ** When the seeder is available *)

Definition tod_ok (t : TimeOfDay) : Prop := 0 ≤ Hour t < 24 ∧ 0 ≤ Minute t < 60.

Lemma clock_of_ok zone now : tod_ok (clock_of zone now).
Proof.
  unfold clock_of, tod_ok. cbn. set (s := (Unix now + zone now) mod 86400).
  assert (0 ≤ s < 86400) as Hs by (apply Z.mod_pos_bound; lia).
  split; split.
  - apply Z.div_pos; lia.
  - apply Z.div_lt_upper_bound; lia.
  - apply Z.div_pos; [apply Z.mod_pos_bound; lia|lia].
  - apply Z.div_lt_upper_bound; [lia|]. pose proof (Z.mod_pos_bound s 3600 ltac:(lia)). lia.
Qed.

(** The window is an interval of the clock, read around midnight. *)
Lemma inIdleWindow_mod p now :
  tod_ok now → tod_ok (ip_WindowStart p) → tod_ok (ip_WindowEnd p) →
  inIdleWindow p now = true ↔
  ip_Mode p = IdleAlwaysOn ∨
  (minutes now - minutes (ip_WindowStart p)) mod 1440 <
  (minutes (ip_WindowEnd p) - minutes (ip_WindowStart p)) mod 1440.
Proof.
  intros Hn Hs He. unfold inIdleWindow. destruct (ip_Mode p); [naive_solver|].
  assert (∀ t, tod_ok t → 0 ≤ minutes t < 1440) as Hm by (unfold tod_ok, minutes; lia).
  apply Hm in Hn, Hs, He. generalize dependent (minutes now). generalize dependent (minutes (ip_WindowStart p)).
  generalize dependent (minutes (ip_WindowEnd p)). intros e He s Hs c Hc.
  assert (∀ x, - 1440 < x < 1440 → x mod 1440 = if x <? 0 then x + 1440 else x) as Hmod.
  { intros x Hx. destruct (Z.ltb_spec x 0).
    - symmetry. apply Z.mod_unique with (-1); lia.
    - apply Z.mod_small. lia. }
  rewrite !Hmod by lia.
  destruct (Z.eqb_spec s e), (Z.ltb_spec s e), (Z.ltb_spec (c - s) 0), (Z.ltb_spec (e - s) 0);
    rewrite ?andb_true_iff, ?orb_true_iff, ?Z.leb_le, ?Z.ltb_lt;
    (split; [intros Hx; right; revert Hx|intros [Hx|Hx]; [done|revert Hx]]); (done || lia).
Qed.

(** A seeder is available exactly when its bridge passed the conformance check, no session of
    its user is active, the grace after the last one and the window after the last rate limit are
    over, and the policy is "always on" or the local time lies in the daily window, which may
    span midnight. *)
Lemma seeder_available cfg zone now s :
  tod_ok (ip_WindowStart (sc_IdlePolicy cfg)) → tod_ok (ip_WindowEnd (sc_IdlePolicy cfg)) →
  availableLocked cfg zone now s = true ↔
  ss_conformanceFailed s = false ∧ ss_activityActive s = false ∧
  (ss_lastActivityAt s = zeroTime ∨ sc_ActivityGrace cfg ≤ time_Sub now (ss_lastActivityAt s)) ∧
  (ss_lastRateLimitAt s = zeroTime ∨ sc_HeadroomWindow cfg ≤ time_Sub now (ss_lastRateLimitAt s)) ∧
  (ip_Mode (sc_IdlePolicy cfg) = IdleAlwaysOn ∨
   (minutes (clock_of zone now) - minutes (ip_WindowStart (sc_IdlePolicy cfg))) mod 1440 <
   (minutes (ip_WindowEnd (sc_IdlePolicy cfg)) - minutes (ip_WindowStart (sc_IdlePolicy cfg))) mod 1440).
Proof.
  intros Hs He. rewrite <- (inIdleWindow_mod _ _ (clock_of_ok zone now) Hs He).
  assert (∀ c b : bool, (if c then false else b) = negb c && b) as Hif by (by intros []).
  unfold availableLocked. rewrite !Hif, !andb_true_iff, !negb_true_iff, !andb_false_iff, !negb_false_iff,
    !Z.eqb_eq, !Z.ltb_ge. tauto.
Qed.

(** A rejected offer says why: the reason is the first of the conditions that fails. *)
Lemma reject_reason_not_default cfg zone now s :
  availableLocked cfg zone now s = false → rejectReasonForState cfg zone now s ≠ "not advertising".
Proof.
  unfold availableLocked, rejectReasonForState. intros H.
  repeat (case_match; try done).
Qed.

(** A parsed window is one of the clock's. *)
Lemma parseHHMM_ok s t : parseHHMM s = Some t → tod_ok t.
Proof.
  unfold parseHHMM, tod_ok. intros H. repeat (case_match; try done). simplify_eq. cbn.
  repeat match goal with H : _ || _ = false |- _ => apply orb_false_iff in H as [? ?] end.
  bool_to_prop. lia.
Qed.

Lemma ParseIdlePolicy_ok mode window p :
  ParseIdlePolicy mode window = Some p → tod_ok (ip_WindowStart p) ∧ tod_ok (ip_WindowEnd p).
Proof.
  unfold ParseIdlePolicy, parseWindow. intros H. repeat (case_match; try done); simplify_eq; cbn.
  - unfold tod_ok. cbn. lia.
  - split; by eapply parseHHMM_ok.
Qed.

Definition pad2 (n : Z) : list Z := [48 + n / 10; 48 + n mod 10].
Definition render_time (t : TimeOfDay) : list Z := pad2 (Hour t) ++ [58] ++ pad2 (Minute t).

Definition all_times : list TimeOfDay :=
  (λ k, {| Hour := k / 60; Minute := k mod 60 |}) <$> seqZ 0 1440.

Lemma all_times_spec t : tod_ok t → t ∈ all_times.
Proof.
  intros [Hh Hm]. apply list_elem_of_fmap. exists (Hour t * 60 + Minute t). split.
  - destruct t as [h m]. cbn in *. f_equal; [rewrite Z.div_add_l by lia; rewrite Z.div_small; lia|].
    rewrite Z.add_comm, Z.mod_add by lia. by rewrite Z.mod_small.
  - apply elem_of_seqZ. lia.
Qed.

(** Every window of the form HH:MM-HH:MM is read as written. *)
Lemma parseWindow_render a b :
  tod_ok a → tod_ok b → parseWindow (render_time a ++ [45] ++ render_time b) = Some (a, b).
Proof.
  intros Ha%all_times_spec Hb%all_times_spec.
  assert (∀ t, t ∈ all_times → parseHHMM (render_time t) = Some t ∧ Forall (λ c, c ≠ 45) (render_time t)) as Ht.
  { apply Forall_forall. apply (bool_decide_unpack _). vm_compute. exact I. }
  destruct (Ht a Ha) as [Pa Na], (Ht b Hb) as [Pb Nb].
  assert (∀ l, Forall (λ c, c ≠ 45) l → Split 45 l = [l]) as Hs1.
  { induction 1 as [|c l Hc _ IH]; [done|]. cbn. apply Z.eqb_neq in Hc as ->. by rewrite IH. }
  assert (∀ l l', Forall (λ c, c ≠ 45) l → Split 45 (l ++ [45] ++ l') = l :: Split 45 l') as Hs2.
  { intros l l'. induction 1 as [|c l Hc _ IH]; [done|]. cbn. apply Z.eqb_neq in Hc as ->.
    cbn in IH. by rewrite IH. }
  unfold parseWindow. by rewrite Hs2, Hs1, Pa, Pb.
Qed.

(** ** Reservations, jobs and reports *)

Section accountability.
Context `{Crypto} `{!CryptoLaws}.
Variables (cfg : SeederConfig) (zone : Z → Z) (identityPub : bytes).
Variables (decode_request : bytes → option (string * list (string * bytes)))
  (decode_string : bytes → option string) (TextContent : string → bytes).

Abbreviation begin := (serveBegin decode_request decode_string TextContent).

(** The coordinator, the requests being served, and the offers accepted so far with the keys
    their decisions named. *)
Record World := { wd_s : SState; wd_jobs : list Job; wd_accepted : list (Offer * (bytes * bytes)) }.

Definition is_key_pair (k : bytes * bytes) : Prop := length k.2 = 64%nat ∧ k.1 = ed25519_Public k.2.

(** Steps that touch neither reservations, clients nor reports. *)
Inductive quiet : (SState → SState) → Prop :=
| q_start t : quiet (OnSessionStart t)
| q_end t : quiet (OnSessionEnd t)
| q_limit t : quiet (RecordRateLimit t)
| q_conformance c : quiet (λ s, snd (RunConformance c s))
| q_reset : quiet ResetConformance
| q_advertise now ok : quiet (advertise cfg zone now ok).

Inductive wstep : World → World → Prop :=
| ws_quiet f s jobs acc : quiet f →
    wstep {| wd_s := s; wd_jobs := jobs; wd_accepted := acc |}
          {| wd_s := f s; wd_jobs := jobs; wd_accepted := acc |}
| ws_offer c now gen bindOK o s jobs acc dc s' :
    (∀ k, gen = Some k → is_key_pair k) →
    HandleOffer cfg zone c now gen bindOK o s = (dc, s') →
    wstep {| wd_s := s; wd_jobs := jobs; wd_accepted := acc |}
          {| wd_s := s'; wd_jobs := jobs;
             wd_accepted := match gen with
                            | Some k => if dc_Accept dc then (o, k) :: acc else acc
                            | None => acc
                            end |}
| ws_begin now body sendOK envHash s jobs acc r s' :
    begin now body sendOK envHash s = (r, s') →
    wstep {| wd_s := s; wd_jobs := jobs; wd_accepted := acc |}
          {| wd_s := s'; wd_jobs := match r with Ok j => j :: jobs | Err _ => jobs end;
             wd_accepted := acc |}
| ws_end ei j s jobs1 jobs2 acc :
    wstep {| wd_s := s; wd_jobs := jobs1 ++ j :: jobs2; wd_accepted := acc |}
          {| wd_s := snd (serveEnd identityPub ei j s); wd_jobs := jobs1 ++ jobs2;
             wd_accepted := acc |}.

Definition new_world : World := {| wd_s := new_seeder; wd_jobs := []; wd_accepted := [] |}.

(** A reservation is for an accepted offer and holds the key of its decision. *)
Definition res_of (acc : list (Offer * (bytes * bytes))) (res : reservation) : Prop :=
  ∃ o k, (o, k) ∈ acc ∧ is_key_pair k ∧ rv_ephemeralPriv res = k.2 ∧
    rv_requestID res = of_RequestID o ∧ rv_consumerID res = of_ConsumerID o ∧
    rv_model res = of_Model o ∧ rv_consumerIDHash res = sha256 (of_ConsumerID o).

(** A report for an accepted offer: what it says is signed under the key the decision named. *)
Definition report_of (acc : list (Offer * (bytes * bytes))) (r : UsageReport) : Prop :=
  ∃ o k cost, (o, k) ∈ acc ∧ ur_RequestID r = of_RequestID o ∧ ur_Model r = of_Model o ∧
    actualCostCredits (of_Model o) (ur_InputTokens r) (ur_OutputTokens r) = Some cost ∧
    VerifyUsageAssertion k.1 {|
      ua_RequestID := of_RequestID o; ua_ConsumerID := of_ConsumerID o;
      ua_SeederID := seederIdentityID identityPub; ua_Model := of_Model o;
      ua_InputTokens := ur_InputTokens r; ua_OutputTokens := ur_OutputTokens r;
      ua_CostCredits := cost |} (ur_SeederSig r) = true.

Definition job_hash (j : Job) : string := ClientHash (rv_consumerIDHash (jb_res j)).
Definition serving (h : string) (jobs : list Job) : Z := blen (filter (λ j, job_hash j = h) jobs).

Record WInv (w : World) : Prop := {
  wi_res : map_Forall (λ _ res, res_of (wd_accepted w) res) (ss_reservations (wd_s w));
  wi_jobs : Forall (λ j, res_of (wd_accepted w) (jb_res j) ∧
    rq_ClientPubkey (jb_request j) = rv_consumerIDHash (jb_res j)) (wd_jobs w);
  wi_reports : Forall (report_of (wd_accepted w)) (ss_reports (wd_s w));
  wi_count : (size (ss_reservations (wd_s w)) + length (wd_jobs w) + length (ss_reports (wd_s w))
              ≤ length (wd_accepted w))%nat;
  wi_clients h : clients h (wd_s w) = serving h (wd_jobs w);
  wi_positive : map_Forall (λ _ n, 0 < n) (ss_activeClients (wd_s w))
}.

Lemma res_of_mono acc acc' res : acc ⊆ acc' → res_of acc res → res_of acc' res.
Proof. intros Hs (o & k & Hin & Hr). exists o, k. split; [by apply Hs|done]. Qed.

Lemma report_of_mono acc acc' r : acc ⊆ acc' → report_of acc r → report_of acc' r.
Proof. intros Hs (o & k & c & Hin & Hr). exists o, k, c. split; [by apply Hs|done]. Qed.

Lemma res_of_hash_length acc res : res_of acc res → blen (rv_consumerIDHash res) = 32.
Proof. intros (o & k & _ & _ & _ & _ & _ & _ & ->). unfold blen. by rewrite sha256_length. Qed.

(** The parts of the state the invariant reads. *)
Definition same_books (s s' : SState) : Prop :=
  ss_reservations s' = ss_reservations s ∧ ss_activeClients s' = ss_activeClients s ∧
  ss_reports s' = ss_reports s.

Lemma WInv_books s s' jobs acc :
  same_books s s' → WInv {| wd_s := s; wd_jobs := jobs; wd_accepted := acc |} →
  WInv {| wd_s := s'; wd_jobs := jobs; wd_accepted := acc |}.
Proof.
  intros (H1 & H2 & H3) [Hr Hj Hp Hc Hcl Hpos]. cbn in *.
  constructor; cbn; rewrite ?H1, ?H3; try done; [|by rewrite H2].
  intros h. rewrite <- Hcl. unfold clients. by rewrite H2.
Qed.

Lemma quiet_books f s : quiet f → same_books s (f s).
Proof.
  intros []; try done; cbn.
  - unfold RecordRateLimit. by destruct (_ <? _).
  - by destruct c.
  - unfold advertise. by destruct ok.
Qed.

(** What an offer does: nothing to the books, or one reservation under the fresh key. *)
Lemma HandleOffer_spec c now gen bindOK o s dc s' :
  HandleOffer cfg zone c now gen bindOK o s = (dc, s') →
  (dc_Accept dc = false ∧ same_books s s') ∨
  ∃ pub priv res, gen = Some (pub, priv) ∧ dc_Accept dc = true ∧ dc_EphemeralPubkey dc = pub ∧
    c = false ∧ availableLocked cfg zone now s = true ∧ of_Model o ∈ sc_Models cfg ∧
    length (of_ConsumerEphemeralPub o) = 32%nat ∧
    ss_bound s' = Some (priv, of_ConsumerEphemeralPub o) ∧
    ss_reservations s' = <[hex_EncodeToString (of_EnvelopeHash o) := res]> (ss_reservations s) ∧
    ss_activeClients s' = ss_activeClients s ∧ ss_reports s' = ss_reports s ∧
    rv_ephemeralPriv res = priv ∧ rv_requestID res = of_RequestID o ∧
    rv_consumerID res = of_ConsumerID o ∧ rv_model res = of_Model o ∧
    rv_consumerIDHash res = sha256 (of_ConsumerID o).
Proof.
  unfold HandleOffer, incOfferRejected. destruct c; [intros [= <- <-]; by left|].
  destruct (availableLocked _ _ _ _) eqn:Ea; cbn [negb]; [|intros [= <- <-]; by left].
  case_bool_decide as Hm; cbn [negb]; [|intros [= <- <-]; by left].
  destruct (negb (_ =? _)) eqn:El; [intros [= <- <-]; left; by destruct (sc_Metrics cfg)|].
  destruct gen as [[pub priv]|]; [|intros [= <- <-]; by left].
  destruct bindOK; cbn [negb]; [|intros [= <- <-]; left; by destruct (sc_Metrics cfg)].
  intros [= <- <-]. right. bool_to_prop. unfold PublicKeySize, blen in El.
  eexists pub, priv, _. split_and!; try done. lia.
Qed.

Lemma offer_inv c now gen bindOK o s jobs acc dc s' :
  (∀ k, gen = Some k → is_key_pair k) →
  HandleOffer cfg zone c now gen bindOK o s = (dc, s') →
  WInv {| wd_s := s; wd_jobs := jobs; wd_accepted := acc |} →
  WInv {| wd_s := s'; wd_jobs := jobs;
          wd_accepted := match gen with
                         | Some k => if dc_Accept dc then (o, k) :: acc else acc
                         | None => acc
                         end |}.
Proof.
  intros Hk He Hi. destruct (HandleOffer_spec _ _ _ _ _ _ _ _ He)
    as [[Hd Hb]|(pub & priv & res & -> & Hd & _ & _ & _ & _ & _ & _ & Hr & Hc & Hrep & H1 & H2 & H3 & H4 & H5)].
  { rewrite Hd. destruct gen; by eapply WInv_books. }
  rewrite Hd. destruct Hi as [Hres Hj Hp Hcnt Hcl Hpos]. cbn in *.
  assert (acc ⊆ (o, (pub, priv)) :: acc) as Hsub by (intros x Hx; by right).
  constructor; cbn; rewrite ?Hr, ?Hrep, ?Hc; try done.
  - apply map_Forall_insert_2.
    + exists o, (pub, priv). split; [by left|]. split_and!; try done. by apply Hk.
    + eapply map_Forall_impl; [exact Hres|]. intros ? ?. by apply res_of_mono.
  - eapply Forall_impl; [exact Hj|]. intros j [Hx Hy]. split; [by eapply res_of_mono|done].
  - eapply Forall_impl; [exact Hp|]. intros r. by apply report_of_mono.
  - rewrite map_size_insert. destruct (ss_reservations s !! _); cbn; lia.
  - intros h. rewrite <- Hcl. unfold clients. by rewrite Hc.
Qed.

Lemma serving_cons j jobs h :
  serving h (j :: jobs) = (if bool_decide (job_hash j = h) then 1 else 0) + serving h jobs.
Proof.
  unfold serving, blen. rewrite filter_cons. case_decide as Hd; [rewrite bool_decide_eq_true_2 by done|
    rewrite bool_decide_eq_false_2 by done]; cbn [length]; lia.
Qed.

Lemma serving_app jobs1 jobs2 h : serving h (jobs1 ++ jobs2) = serving h jobs1 + serving h jobs2.
Proof. unfold serving, blen. rewrite filter_app, length_app. lia. Qed.

Lemma serving_nonneg h jobs : 0 ≤ serving h jobs.
Proof. unfold serving, blen. lia. Qed.

Lemma Register_clients pub s h :
  blen pub = 32 →
  clients h (RegisterActive pub s) = (if bool_decide (ClientHash pub = h) then 1 else 0) + clients h s.
Proof.
  intros Hl. unfold RegisterActive, PublicKeySize. rewrite Hl. cbn [Z.eqb negb]. unfold clients at 1. cbn.
  case_bool_decide as Hd.
  - subst. rewrite lookup_insert_eq. cbn. lia.
  - rewrite lookup_insert_ne by done. done.
Qed.

Lemma Unregister_clients pub s h :
  blen pub = 32 → 1 ≤ clients (ClientHash pub) s →
  clients h (UnregisterActive pub s) = clients h s - (if bool_decide (ClientHash pub = h) then 1 else 0).
Proof.
  intros Hl Hc. unfold UnregisterActive, PublicKeySize. rewrite Hl. cbn [Z.eqb negb].
  destruct (Z.leb_spec (clients (ClientHash pub) s) 1); unfold clients at 1; cbn; case_bool_decide as Hd.
  - subst. rewrite lookup_delete_eq. cbn. lia.
  - rewrite lookup_delete_ne by done. unfold clients. lia.
  - subst. rewrite lookup_insert_eq. cbn. lia.
  - rewrite lookup_insert_ne by done. unfold clients. lia.
Qed.

Lemma Register_positive pub s :
  map_Forall (λ _ n, 0 < n) (ss_activeClients s) →
  map_Forall (λ _ n, 0 < n) (ss_activeClients (RegisterActive pub s)).
Proof.
  intros Hp. unfold RegisterActive. destruct (negb _); [done|]. cbn. apply map_Forall_insert_2; [|done].
  unfold clients. destruct (_ !! _) as [n|] eqn:E; cbn; [|lia]. specialize (Hp _ _ E). cbn in Hp. lia.
Qed.

Lemma Unregister_positive pub s :
  map_Forall (λ _ n, 0 < n) (ss_activeClients s) →
  map_Forall (λ _ n, 0 < n) (ss_activeClients (UnregisterActive pub s)).
Proof.
  intros Hp. unfold UnregisterActive. destruct (negb _); [done|]. destruct (Z.leb_spec (clients (ClientHash pub) s) 1); cbn.
  - by apply map_Forall_delete.
  - apply map_Forall_insert_2; [lia|done].
Qed.

Lemma buildBridgeRequest_pub body res req :
  buildBridgeRequest decode_request decode_string TextContent body res = Some req →
  rq_ClientPubkey req = rv_consumerIDHash res.
Proof. unfold buildBridgeRequest. intros H1. repeat (case_match; try done). by simplify_eq. Qed.

Lemma begin_inv now body sendOK envHash s jobs acc r s' :
  begin now body sendOK envHash s = (r, s') →
  WInv {| wd_s := s; wd_jobs := jobs; wd_accepted := acc |} →
  WInv {| wd_s := s'; wd_jobs := match r with Ok j => j :: jobs | Err _ => jobs end; wd_accepted := acc |}.
Proof.
  unfold serveBegin, consumeReservation. intros He Hi.
  destruct (ss_reservations s !! hex_EncodeToString envHash) as [res|] eqn:Er; [|by injection He as <- <-].
  pose proof Hi as [Hres Hj Hp Hcnt Hcl Hpos]. cbn in *. set (key := hex_EncodeToString envHash) in *.
  assert (size (delete key (ss_reservations s)) + 1 = size (ss_reservations s))%nat as Hsz.
  { rewrite map_size_delete_Some by eauto. assert (size (ss_reservations s) ≠ 0%nat); [|lia].
    rewrite map_size_ne_0_lookup. eauto. }
  assert (WInv {| wd_s := set_rvs (delete key (ss_reservations s)) s; wd_jobs := jobs; wd_accepted := acc |})
    as Hi'.
  { constructor; cbn; try done; [by apply map_Forall_delete|lia]. }
  destruct body as [body|]; [|by injection He as <- <-].
  destruct (buildBridgeRequest _ _ _ _ _) as [req|] eqn:Eb; [|by injection He as <- <-].
  apply buildBridgeRequest_pub in Eb.
  destruct sendOK; cbn [negb] in He; [|by injection He as <- <-]. injection He as <- <-.
  assert (res_of acc res) as Hro by (by eapply Hres).
  assert (blen (rq_ClientPubkey req) = 32) as Hl by (rewrite Eb; by eapply res_of_hash_length).
  destruct Hi' as [Hres' _ _ Hcnt' Hcl' Hpos']. cbn in *.
  assert (ss_reservations (RegisterActive (rq_ClientPubkey req) (set_rvs (delete key (ss_reservations s)) s))
    = delete key (ss_reservations s) ∧
    ss_reports (RegisterActive (rq_ClientPubkey req) (set_rvs (delete key (ss_reservations s)) s)) = ss_reports s)
    as [E1 E2] by (unfold RegisterActive; by destruct (negb _)).
  constructor; cbn; rewrite ?E1, ?E2; try done.
  - by constructor.
  - lia.
  - intros h. rewrite Register_clients, serving_cons by done. rewrite Hcl'.
    unfold job_hash. cbn. by rewrite Eb.
  - by apply Register_positive.
Qed.

(** What [reportUsage] sends verifies under the key of the offer. *)
Lemma reportUsage_spec delivered res usage s acc r s' :
  res_of acc res → reportUsage identityPub delivered res usage s = (r, s') →
  ss_reservations s' = ss_reservations s ∧ ss_activeClients s' = ss_activeClients s ∧
  (ss_reports s' = ss_reports s ∧ is_ok r = false ∨
   ∃ rep, ss_reports s' = ss_reports s ++ [rep] ∧ report_of acc rep ∧ is_ok r = delivered).
Proof.
  intros (o & [pub priv] & Hin & [Hk Hpub] & Hp & Hreq & Hcid & Hmod & _). cbn in *. unfold reportUsage.
  destruct (actualCostCredits _ _ _) as [cost|] eqn:Ec; [|intros [= <- <-]; by auto].
  unfold SignUsageAssertion. rewrite Hp. unfold PrivateKeySize, blen. rewrite Hk. cbn [Z.eqb negb].
  destruct (CanonicalUsageAssertionPreSig _) as [msg|e] eqn:Em; [|intros [= <- <-]; by auto].
  intros He. assert (s' = add_report {| ur_RequestID := rv_requestID res; ur_InputTokens := u32 usage.1;
    ur_OutputTokens := u32 usage.2; ur_Model := rv_model res; ur_SeederSig := ed25519_Sign priv msg |} s ∧
    is_ok r = delivered) as [-> Hr] by (destruct delivered; by injection He as <- <-).
  split_and!; [done|done|right]. eexists. split_and!; [done| |done].
  exists o, (pub, priv), cost. cbn. rewrite Hmod in Ec. split_and!; try done.
  unfold VerifyUsageAssertion, PublicKeySize, SignatureSize, blen. rewrite Hpub.
  rewrite Public_length, Sign_length by done. cbn.
  unfold job_assertion in Em. rewrite Hreq, Hcid, Hmod in Em. rewrite Em. by apply Verify_Sign.
Qed.

Lemma UnregisterActive_books pub s :
  ss_reservations (UnregisterActive pub s) = ss_reservations s ∧
  ss_reports (UnregisterActive pub s) = ss_reports s.
Proof. unfold UnregisterActive. destruct (negb _); [done|]. by destruct (_ <=? _). Qed.

(** [serveEnd] without its deferred call: at most one report more. *)
Lemma serveEnd_spec ei j s acc :
  res_of acc (jb_res j) →
  ∃ s0, snd (serveEnd identityPub ei j s) = UnregisterActive (rq_ClientPubkey (jb_request j)) s0 ∧
    ss_reservations s0 = ss_reservations s ∧ ss_activeClients s0 = ss_activeClients s ∧
    (ss_reports s0 = ss_reports s ∨
     ∃ rep, ss_reports s0 = ss_reports s ++ [rep] ∧ report_of acc rep).
Proof.
  intros Hr. unfold serveEnd. destruct (ei_usage ei) as [usage|]; [|eexists; split_and!; auto].
  destruct (ei_close ei); cbn [negb]; [|eexists; split_and!; auto].
  destruct (reportUsage _ _ _ _ _) as [[[]|e] s1] eqn:E;
    destruct (reportUsage_spec _ _ _ _ _ _ _ Hr E) as (H1 & H2 & Hrep).
  - destruct (ei_audit ei); (eexists; split_and!; [done|done|done|]); cbn;
      destruct Hrep as [[? _]|(rep & ? & ? & _)]; eauto.
  - eexists. split_and!; [done|done|done|]. destruct Hrep as [[? _]|(rep & ? & ? & _)]; eauto.
Qed.

Lemma end_inv ei j s jobs1 jobs2 acc :
  WInv {| wd_s := s; wd_jobs := jobs1 ++ j :: jobs2; wd_accepted := acc |} →
  WInv {| wd_s := snd (serveEnd identityPub ei j s); wd_jobs := jobs1 ++ jobs2; wd_accepted := acc |}.
Proof.
  intros [Hres Hj Hp Hcnt Hcl Hpos]. cbn in *. apply Forall_app in Hj as [Hj1 Hj2].
  inversion Hj2 as [|?? [Hro Hpub] Hj3]; subst.
  destruct (serveEnd_spec ei j s acc Hro) as (s0 & -> & H1 & H2 & Hrep).
  destruct (UnregisterActive_books (rq_ClientPubkey (jb_request j)) s0) as [E1 E2].
  assert (blen (rq_ClientPubkey (jb_request j)) = 32) as Hl by (rewrite Hpub; by eapply res_of_hash_length).
  assert (∀ h, clients h s0 = clients h s) as Hc0 by (intros h; unfold clients; by rewrite H2).
  rewrite length_app in Hcnt. cbn [length] in Hcnt.
  constructor; cbn; rewrite ?E1, ?E2, ?H1; try done.
  - by apply Forall_app_2.
  - destruct Hrep as [->|(rep & -> & Hrep)]; [done|]. apply Forall_app_2; [done|]. by apply Forall_singleton.
  - rewrite length_app. destruct Hrep as [->|(rep & -> & _)]; rewrite ?length_app; cbn; lia.
  - intros h. pose proof (Hcl (ClientHash (rq_ClientPubkey (jb_request j)))) as Hself.
    specialize (Hcl h). rewrite serving_app, serving_cons in *.
    pose proof (serving_nonneg (ClientHash (rq_ClientPubkey (jb_request j))) jobs1).
    pose proof (serving_nonneg (ClientHash (rq_ClientPubkey (jb_request j))) jobs2).
    unfold job_hash in *. rewrite Hpub in *. rewrite bool_decide_eq_true_2 in Hself by done.
    rewrite Unregister_clients by (done || (rewrite Hc0; lia)). rewrite Hc0. lia.
  - apply Unregister_positive. by rewrite H2.
Qed.

Lemma WInv_reachable w : rtc wstep new_world w → WInv w.
Proof.
  intros Hr. remember new_world as w0 eqn:E. assert (WInv w0) as Hi.
  { subst. constructor; cbn; try done; apply map_Forall_empty. }
  clear E. induction Hr as [|x y z Hst _ IH]; [done|]. apply IH. destruct Hst.
  - eapply WInv_books; [by apply quiet_books|done].
  - by eapply offer_inv.
  - by eapply begin_inv.
  - by apply end_inv.
Qed.


(** [IsActiveByHash], which the sweep of the client directories asks before it removes one,
    answers true exactly while a request for that client is being served, however many requests
    of however many clients overlap and however they end. *)
Lemma active_iff_serving w h :
  rtc wstep new_world w →
  IsActiveByHash h (wd_s w) = true ↔ ∃ j, j ∈ wd_jobs w ∧ ClientHash (rv_consumerIDHash (jb_res j)) = h.
Proof.
  intros [_ _ _ _ Hc _]%WInv_reachable. unfold IsActiveByHash. rewrite Hc, Z.ltb_lt. unfold serving, blen.
  split.
  - intros Hl. destruct (filter (λ j, job_hash j = h) (wd_jobs w)) as [|j l] eqn:E; [cbn in Hl; lia|].
    exists j. assert (j ∈ filter (λ j, job_hash j = h) (wd_jobs w)) as Hin by (rewrite E; by left).
    apply list_elem_of_filter in Hin as [Hh Hin]. by split.
  - intros (j & Hin & Hh). assert (j ∈ filter (λ j, job_hash j = h) (wd_jobs w)) as Hf
      by (by apply list_elem_of_filter). destruct (filter _ _); [by apply not_elem_of_nil in Hf|]. cbn. lia.
Qed.

(** A reservation is served once: a second tunnel for the same envelope is refused. *)
Lemma serve_once now now' body body' ok ok' envHash s :
  fst (begin now' body' ok' envHash (snd (begin now body ok envHash s))) = Err ErrNoReservation.
Proof.
  assert (∀ s, ss_reservations s !! hex_EncodeToString envHash = None →
    fst (begin now' body' ok' envHash s) = Err ErrNoReservation) as Hn.
  { intros s0 H1. unfold serveBegin, consumeReservation. by rewrite H1. }
  apply Hn. unfold serveBegin, consumeReservation.
  destruct (ss_reservations s !! hex_EncodeToString envHash) as [res|] eqn:E; [|done].
  assert (∀ pub s, ss_reservations (RegisterActive pub s) = ss_reservations s) as Hreg
    by (intros pub s0; unfold RegisterActive; by destruct (negb _)).
  destruct body; [|cbn; apply lookup_delete_eq]. destruct (buildBridgeRequest _ _ _ _ _);
    [|cbn; apply lookup_delete_eq]. destruct ok; cbn [negb snd]; [rewrite Hreg|]; apply lookup_delete_eq.
Qed.

(** With two reservations open, no tunnel is served; nothing but serving removes a reservation, so
    the seeder that accepted two offers before either consumer connected serves nobody until it is
    restarted, and goes on accepting. *)
Lemma acceptOne_stuck now body sendOK s :
  (2 ≤ size (ss_reservations s))%nat →
  acceptOne decode_request decode_string TextContent now body sendOK s = (Err ErrNoReservation, s).
Proof.
  intros Hs. unfold acceptOne, peekReservation. rewrite <- length_map_to_list in Hs.
  destruct (map_to_list (ss_reservations s)) as [|[] [|]]; cbn in Hs; try lia; done.
Qed.

Lemma stuck_stays c now gen bindOK o f ei j s :
  (2 ≤ size (ss_reservations s))%nat → quiet f →
  (2 ≤ size (ss_reservations (snd (HandleOffer cfg zone c now gen bindOK o s))))%nat ∧
  (2 ≤ size (ss_reservations (f s)))%nat ∧
  (2 ≤ size (ss_reservations (snd (serveEnd identityPub ei j s))))%nat.
Proof.
  intros Hs Hq. split_and!.
  - destruct (HandleOffer _ _ _ _ _ _ _ _) as [dc s'] eqn:E.
    destruct (HandleOffer_spec _ _ _ _ _ _ _ _ E)
      as [[_ (H1 & _)]|(pub & priv & res & _ & _ & _ & _ & _ & _ & _ & _ & H1 & _)]; cbn [snd]; rewrite H1; [done|].
    rewrite map_size_insert. destruct (_ !! _); cbn; lia.
  - by destruct (quiet_books f s Hq) as (-> & _).
  - unfold serveEnd. assert (∀ d r u s0, ss_reservations (snd (reportUsage identityPub d r u s0)) = ss_reservations s0) as Hru.
    { intros d r u s0. unfold reportUsage. destruct (actualCostCredits _ _ _); [|done].
      destruct (SignUsageAssertion _ _); [|done]. by destruct d. }
    destruct (ei_usage ei) as [u|]; [|cbn; by rewrite (proj1 (UnregisterActive_books _ _))].
    destruct (ei_close ei); cbn [negb]; [|cbn; by rewrite (proj1 (UnregisterActive_books _ _))].
    specialize (Hru (ei_delivered ei) (jb_res j) u s).
    destruct (reportUsage _ _ _ _ _) as [[]]; [destruct (ei_audit ei)|]; cbn in *;
      rewrite (proj1 (UnregisterActive_books _ _)); cbn; by rewrite Hru.
Qed.
End accountability.

(** ** An offer, served *)

Definition s_day : TimeOfDay := {| Hour := 9; Minute := 30 |}.
Definition s_night : TimeOfDay := {| Hour := 22; Minute := 0 |}.

Definition s_seeder : SeederConfig := {|
  sc_wired := true;
  sc_IdlePolicy := {| ip_Mode := IdleScheduled; ip_WindowStart := s_night; ip_WindowEnd := s_day |};
  sc_ActivityGrace := 600 * Second; sc_HeadroomWindow := 900 * Second;
  sc_Models := ["claude-sonnet-4-6"]; sc_MaxContext := 1000; sc_Tiers := 1; sc_Metrics := false |}.

(** 1700000000 is 22:13:20 in UTC. *)
Definition s_now : Z := 1700000000 * Second.
Definition s_utc : Z → Z := λ _, 0.

Lemma seeder_available_witness :
  availableLocked s_seeder s_utc s_now new_seeder = true ∧
  availableLocked s_seeder s_utc (s_now - 3600 * Second) new_seeder = false.
Proof.
  assert (tod_ok s_day ∧ tod_ok s_night) as [Hd Hn] by (unfold tod_ok; cbn; lia).
  split.
  - apply (seeder_available s_seeder s_utc s_now new_seeder Hn Hd).
    split_and!; [reflexivity|reflexivity|left; reflexivity|left; reflexivity|right; vm_compute; reflexivity].
  - apply not_true_iff_false. intros Ha.
    apply (seeder_available s_seeder s_utc _ new_seeder Hn Hd) in Ha as (_ & _ & _ & _ & [Hm|Hm]);
      vm_compute in Hm; discriminate Hm.
Defined.

Definition s_key : bytes := witness_key Byte.x55.
Definition s_pub : bytes := take 32 s_key.
Definition s_identity : bytes := replicate 32 Byte.x66.
Definition s_offer : Offer := {|
  of_ConsumerID := replicate 32 Byte.x11; of_EnvelopeHash := replicate 32 Byte.x44;
  of_Model := "claude-sonnet-4-6"; of_MaxInputTokens := 1000; of_MaxOutputTokens := 100;
  of_ConsumerEphemeralPub := replicate 32 Byte.x33; of_RequestID := replicate 16 Byte.x77 |}.

Definition s_decode (b : bytes) : option (string * list (string * bytes)) :=
  Some ("", [("user", string_bytes "[]")]).
Definition s_str (b : bytes) : option string := None.
Definition s_text (s : string) : bytes := [].
Definition s_end : EndIo :=
  {| ei_usage := Some (10, 20); ei_close := true; ei_delivered := true; ei_audit := true; ei_now := 0 |}.

Definition s_step := @wstep ToyCrypto s_seeder s_utc s_identity s_decode s_str s_text.

Definition s_offered : SState :=
  snd (@HandleOffer ToyCrypto s_seeder s_utc false s_now (Some (s_pub, s_key)) true s_offer new_seeder).
Definition s_begun : res SeederErr Job * SState :=
  @serveBegin ToyCrypto s_decode s_str s_text s_now (Some []) true (of_EnvelopeHash s_offer) s_offered.

(** The request is being served; then it is reported. *)
Lemma s_serving :
  ∃ j, fst s_begun = Ok j ∧
    rtc s_step new_world {| wd_s := snd s_begun; wd_jobs := [j]; wd_accepted := [(s_offer, (s_pub, s_key))] |} ∧
    rtc s_step new_world
      {| wd_s := snd (@serveEnd ToyCrypto s_identity s_end j (snd s_begun)); wd_jobs := [];
         wd_accepted := [(s_offer, (s_pub, s_key))] |}.
Proof.
  destruct s_begun as [[j|e] s'] eqn:E; [|vm_compute in E; discriminate E]. exists j.
  assert (rtc s_step new_world {| wd_s := s'; wd_jobs := [j]; wd_accepted := [(s_offer, (s_pub, s_key))] |}) as Hr.
  { eapply rtc_l; [|apply rtc_once].
    - eapply (ws_offer _ _ _ _ _ _ false s_now (Some (s_pub, s_key)) true s_offer);
        [by intros k [= <-]|vm_compute; reflexivity].
    - eapply (ws_begin _ _ _ _ _ _ s_now (Some []) true (of_EnvelopeHash s_offer) _ [] _ (Ok j) s').
      rewrite <- E. reflexivity. }
  split; [reflexivity|]. split; [exact Hr|]. eapply rtc_r; [exact Hr|].
  exact (ws_end _ _ _ _ _ _ s_end j s' [] [] _).
Qed.


Lemma active_iff_serving_witness :
  ∃ w h, rtc s_step new_world w ∧ IsActiveByHash h (wd_s w) = true ∧ IsActiveByHash "" (wd_s w) = false.
Proof.
  destruct s_serving as (j & Hj & Hr & _).
  exists {| wd_s := snd s_begun; wd_jobs := [j]; wd_accepted := [(s_offer, (s_pub, s_key))] |},
    (@ClientHash ToyCrypto (rv_consumerIDHash (jb_res j))).
  split; [exact Hr|]. split.
  - apply (@active_iff_serving ToyCrypto ToyCryptoLaws s_seeder s_utc s_identity s_decode s_str s_text _ _ Hr).
    exists j. split; [by left|reflexivity].
  - vm_compute. reflexivity.
Defined.

(** ** The rebinding acceptor *)

Module Rebinding.
(** The listener in use, those not closed yet, and whether the acceptor is closed. A listener is a
    number, handed out in order, and the keys it is bound to. *)
Record Acceptor := {
  cur : option nat; open : gset nat; next : nat; keys : gmap nat (bytes * bytes); closed : bool
}.

Definition new_acceptor : Acceptor :=
  {| cur := None; open := ∅; next := 0; keys := ∅; closed := false |}.

Inductive AcceptorErr := ErrAcceptorClosed | ErrFactory | ErrBlocked.

(** The first critical section of [Bind]: the listener to close later. *)
Definition bindBegin (a : Acceptor) : res AcceptorErr (option nat) :=
  if closed a then Err ErrAcceptorClosed else Ok (cur a).

(** [factory], which opens a listener with the keys. *)
Definition make (k : bytes * bytes) (a : Acceptor) : nat * Acceptor :=
  (next a, {| cur := cur a; open := {[next a]} ∪ open a; next := S (next a);
              keys := <[next a := k]> (keys a); closed := closed a |}).

Definition close (l : nat) (a : Acceptor) : Acceptor :=
  {| cur := cur a; open := open a ∖ {[l]}; next := next a; keys := keys a; closed := closed a |}.

Definition close_opt (l : option nat) (a : Acceptor) : Acceptor :=
  match l with Some l => close l a | None => a end.

(** The second critical section, and the closing of what was there before. *)
Definition bindInstall (prev : option nat) (l : nat) (a : Acceptor) : option AcceptorErr * Acceptor :=
  if closed a then (Some ErrAcceptorClosed, close l a)
  else (None, close_opt prev {| cur := Some l; open := open a; next := next a; keys := keys a;
                                closed := false |}).

Definition Bind (k : bytes * bytes) (factoryOK : bool) (a : Acceptor) : option AcceptorErr * Acceptor :=
  match bindBegin a with
  | Err e => (Some e, a)
  | Ok prev =>
    if negb factoryOK then (Some ErrFactory, a)
    else let '(l, a) := make k a in bindInstall prev l a
  end.

(** [Accept]: the listener it waits on. *)
Definition Accept (a : Acceptor) : res AcceptorErr nat :=
  if closed a then Err ErrAcceptorClosed
  else match cur a with None => Err ErrBlocked | Some l => Ok l end.

Definition Close (a : Acceptor) : Acceptor :=
  if closed a then a
  else close_opt (cur a) {| cur := None; open := open a; next := next a; keys := keys a; closed := true |}.

(** Binding one at a time keeps one listener open: the one with the latest keys. *)
Definition single (a : Acceptor) : Prop :=
  open a = match cur a with Some l => {[l]} | None => ∅ end ∧
  (∀ l, cur a = Some l → (l < next a)%nat).

Lemma Bind_single k ok a :
  single a → single (snd (Bind k ok a)) ∧
  (fst (Bind k ok a) = None → ∃ l, Accept (snd (Bind k ok a)) = Ok l ∧ keys (snd (Bind k ok a)) !! l = Some k).
Proof.
  intros [Ho Hc]. unfold Bind, bindBegin. destruct (closed a) eqn:Ecl; [done|].
  destruct ok; cbn [negb]; [|by split]. unfold make, bindInstall. cbn. rewrite Ecl. cbn.
  unfold single, Accept. destruct (cur a) as [l|]; cbn; rewrite Ho.
  - specialize (Hc l eq_refl). split; [split; [set_solver by lia|intros ? [= <-]; lia]|].
    intros _. exists (next a). split; [done|apply lookup_insert_eq].
  - split; [split; [set_solver|intros ? [= <-]; lia]|].
    intros _. exists (next a). split; [done|apply lookup_insert_eq].
Qed.

Lemma Close_all a : single a → closed a = false → open (Close a) = ∅ ∧ Accept (Close a) = Err ErrAcceptorClosed.
Proof.
  intros [Ho _] Hc. unfold Close. rewrite Hc. destruct (cur a); cbn; rewrite Ho; split; done || set_solver.
Qed.

(** Two offers at once: both read the old listener before either installs, and the one installed
    first is never closed. It stays bound to the first offer's keys. *)
Lemma concurrent_binds_leak (k1 k2 : bytes * bytes) :
  let a0 := snd (Bind ([], []) true new_acceptor) in
  let prev1 := cur a0 in
  let prev2 := cur a0 in
  let '(l1, a) := make k1 a0 in
  let '(l2, a) := make k2 a in
  let a := snd (bindInstall prev1 l1 a) in
  let a := snd (bindInstall prev2 l2 a) in
  l1 ∈ open (Close a) ∧ l1 ∈ open a ∧ cur a = Some l2.
Proof. cbn. split_and!; [set_solver|set_solver|done]. Qed.
End Rebinding.
