(* ===== verification/ClientSpec.v ===== *)
(** The client and the tracker together: what a seeder (Seeder.v) reports and a consumer
    (Consumer.v) countersigns is what the tracker (Settlement.v) accepts and records. *)
From S2P Require Import Prelude Proto Signing Entry AdmQueue Storage Wiring Builders Settings RateGate.
From S2P Require Import Seeder Consumer.
From S2P Require Import Ledger LedgerSpec Session Registry Broker BrokerSpec Settlement SettlementSpec Api.

#[local] Open Scope Z_scope.

(** trackerclient's [UsageReport] and [Settle], as the tracker decodes them. *)
Definition wire_report (r : Seeder.UsageReport) : Settlement.UsageReport := {|
  rp_RequestId := Seeder.ur_RequestID r; rp_InputTokens := Seeder.ur_InputTokens r;
  rp_OutputTokens := Seeder.ur_OutputTokens r; rp_Model := Seeder.ur_Model r;
  rp_SeederSig := Seeder.ur_SeederSig r |}.

Definition wire_settle (c : bytes * bytes) : SettleRequest :=
  {| st_PreimageHash := c.1; st_ConsumerSig := c.2 |}.

(** The push the tracker sends for a pending settlement. *)
Definition settlement_push `{Crypto} (p : pendingSettle) : SettlementRequest :=
  {| sr_PreimageHash := sha256 (ps_preSig p); sr_PreimageBody := ps_preSig p |}.

(** The seeder's mirrored table prices what the tracker's default table prices, alike. *)
Lemma mirrored_price model in_ out cost :
  actualCostCredits model in_ out = Some cost ↔ ActualCost DefaultPriceTable model in_ out = Ok cost.
Proof.
  assert (∀ a b, u64 (u64 a + u64 b) = u64 (a + b)) as Hu.
  { intros a b. unfold u64. by rewrite <- Z.add_mod by lia. }
  unfold actualCostCredits, ActualCost, usagePriceTable, DefaultPriceTable.
  destruct (decide (model = "claude-opus-4-7")) as [->|H1];
    [rewrite !lookup_insert_eq, Hu; cbn; split; intros [= <-]; done|rewrite !(lookup_insert_ne _ _ model) by done].
  destruct (decide (model = "claude-sonnet-4-6")) as [->|H2];
    [rewrite !lookup_insert_eq, Hu; cbn; split; intros [= <-]; done|rewrite !(lookup_insert_ne _ _ model) by done].
  destruct (decide (model = "claude-haiku-4-5-20251001")) as [->|H3];
    [rewrite !lookup_insert_eq, Hu; cbn; split; intros [= <-]; done|rewrite !(lookup_insert_ne _ _ model) by done].
  rewrite !lookup_empty. by split.
Qed.

Section end_to_end.
Context `{Crypto} `{!CryptoLaws}.

(** The tracker's request and the seeder's reservation stem from the same offer, which the seeder
    accepted with the key the tracker kept. *)
Record matched (identityPub : bytes) (req : Request) (res : reservation) : Prop := {
  ma_id : RequestID req = rv_requestID res;
  ma_id_length : length (rv_requestID res) = 16%nat;
  ma_consumer : ConsumerID req = rv_consumerID res;
  ma_consumer_length : length (rv_consumerID res) = 32%nat;
  ma_model : env_Model <$> rq_EnvelopeBody req = Some (rv_model res);
  ma_seeder : AssignedSeeder req = seederIdentityID identityPub;
  ma_priv : length (rv_ephemeralPriv res) = 64%nat;
  ma_key : SeederPubkey req = ed25519_Public (rv_ephemeralPriv res);
  ma_state : rq_State req = StateAssigned ∨ rq_State req = StateServing;
  ma_sig : SettleSig req = None
}.

(** The tracker takes a report that passes its checks, and opens the settlement. *)
Lemma HandleUsageReport_succeeds now peer req rp b cost preSig :
  inflight_wf (inflight b) → Session.Get (rp_RequestId rp) (inflight b) = Some req →
  w_pending b !! rp_RequestId rp = None → length (rp_RequestId rp) = 16%nat →
  checkReport DefaultPriceTable peer req rp = Ok cost → SettleSig req = None →
  CanonicalUsageAssertionPreSig (report_assertion req rp cost) = Ok preSig →
  VerifyUsageAssertion (SeederPubkey req) (report_assertion req rp cost) (rp_SeederSig rp) = true →
  ∃ t b1 req', HandleUsageReport DefaultPriceTable no_faults now peer (Some rp) b = (Ok t, b1) ∧
    accepted req rp cost t b b1 ∧
    LookupByHash (sha256 preSig) (inflight b1) = Some req' ∧
    RequestID req' = RequestID req ∧ ConsumerID req' = ConsumerID req ∧ SettleSig req' = Some None.
Proof.
  intros Hwf Hg Hp Hl Hck Hsig Hc Hv. pose proof (checkReport_Ok _ _ _ _ _ Hck) as (Hst & _).
  pose proof Hg as (l & Hid & Hr)%Get_Some.
  pose proof (HandleUsageReport_cases DefaultPriceTable no_faults now peer (Some rp) b Hwf) as Hcases.
  destruct (HandleUsageReport _ _ _ _ _ _) as [out b1] eqn:E.
  destruct (Transition_spec _ StateAssigned StateServing now _ _ Hwf Hg) as (f1 & Ht & Hwf1 & Hg1).
  specialize (Hg1 (rp_RequestId rp)).
  assert (∃ r1, Session.Get (rp_RequestId rp) f1 = Some r1 ∧ RequestID r1 = RequestID req ∧
    ConsumerID r1 = ConsumerID req ∧ SettleSig r1 = None) as (r1 & Hr1 & Hid1 & Hc1 & Hs1).
  { destruct (decide (rq_State req = StateAssigned)) as [Hs|Hs].
    - rewrite decide_True in Hg1 by done. eexists. split_and!; [exact Hg1|done|done|exact Hsig].
    - rewrite decide_False, Hg in Hg1 by tauto. exists req. by split_and!. }
  unfold HandleUsageReport in E. unfold blen in E. rewrite Hl, Hid, Hr, Hck in E. cbn [Z.eqb negb] in E.
  unfold acceptReport in E. rewrite Ht in E.
  assert (∀ T (k1 k2 : T), match (if decide (rq_State req = StateAssigned) then Ok tt
    else Err ErrIllegalTransition : res SessErr unit) with Err ErrUnknownRequest => k1 | _ => k2 end = k2) as Hk
    by (intros; by destruct (decide _)).
  cbv beta iota in E. rewrite Hk in E. unfold verifyReport, Tip, no_faults in E. cbn [w_store set_inflight] in E.
  rewrite Hc, Hv in E. cbn [negb] in E. unfold openSettlement in E.
  change (inflight (set_inflight f1 b)) with f1 in E.
  destruct (EnsureSettleSig_spec _ _ _ Hwf1 Hr1) as (f2 & He2 & Hwf2 & _ & Hg2). rewrite He2 in E.
  change (inflight (set_inflight f2 (set_inflight f1 b))) with f2 in E.
  destruct (IndexByHash_spec _ (sha256 preSig) _ _ Hwf2 Hg2) as (f3 & He3 & Hwf3 & _ & Hg3 & Hh3). rewrite He3 in E.
  unfold putPending in E. cbn [set_inflight w_pending] in E. rewrite Hp in E. injection E as <- <-.
  destruct Hcases as (_ & _ & rp' & req'' & cost' & [= <-] & Hg' & _ & Hck' & Hacc).
  rewrite Hg in Hg'. injection Hg' as <-. rewrite Hck in Hck'. injection Hck' as <-.
  eexists _, _, _. split; [reflexivity|]. split; [exact Hacc|]. split; [exact Hh3|].
  cbn. rewrite Hs1. done.
Qed.

(** The tracker takes a counter-signature that verifies, and hands it to the waiting goroutine. *)
Lemma HandleSettle_succeeds resolve h sig req p pub s :
  LookupByHash h (inflight s) = Some req → SettleSig req = Some None → length h = 32%nat →
  w_pending s !! RequestID req = Some p → ps_preSig p ≠ [] → resolve (ConsumerID req) = Some pub →
  VerifyUsageAssertion pub (ps_assertion p) sig = true →
  ∃ s', HandleSettle (Some resolve) (ConsumerID req) (Some {| st_PreimageHash := h; st_ConsumerSig := sig |}) s
    = (Ok tt, s') ∧ w_pending s' !! RequestID req = Some (mark_verified sig pub p).
Proof.
  unfold LookupByHash, lookup_loc. intros Hl Hs Hh Hp Hne Hres Hv.
  destruct (if_byHash (inflight s) !! h) as [l|] eqn:El; [|done]. cbn in Hl.
  assert (length pub = 32%nat) as Hpub by (by destruct (VerifyUsageAssertion_length _ _ _ Hv)).
  unfold HandleSettle. cbn [st_PreimageHash st_ConsumerSig]. unfold blen. rewrite Hh. cbn [Z.eqb negb].
  rewrite El, Hl, bool_decide_eq_true_2 by done. cbn [negb]. rewrite Hs. cbn [bool_decide].
  unfold verifyConsumerSig, getPending. rewrite Hp.
  rewrite (proj2 (Z.eqb_neq _ 0)) by (unfold blen; destruct (ps_preSig p); [done|cbn; lia]).
  rewrite Hres. unfold blen, PublicKeySize. rewrite Hpub. cbn [Z.eqb negb]. rewrite Hv. cbn [negb].
  rewrite bool_decide_eq_false_2 by done. unfold dispatchSig. rewrite Hs.
  eexists. split; [reflexivity|]. cbn. by rewrite lookup_alter_eq, Hp.
Qed.

(** The consumer countersigns a pending assertion within its ceiling. *)
Lemma HandleSettlement_succeeds d cpriv si c a preSig pn :
  CanonicalUsageAssertionPreSig a = Ok preSig → ua_wf a → Byte.x00 ∉ string_bytes (ua_Model a) →
  cs_pendingSettlements c !! ua_RequestID a = Some pn → ua_OutputTokens a ≤ pn_maxOutputTokens pn →
  si_sign si = None → si_settle si = None →
  cs_settled (snd (HandleSettlement d cpriv si
    (Some {| sr_PreimageHash := sha256 preSig; sr_PreimageBody := preSig |}) c)) =
    cs_settled c ++ [(sha256 preSig, ed25519_Sign cpriv preSig)].
Proof.
  intros Hc Hwf Hz Hp Hle Hs1 Hs2. unfold HandleSettlement. cbn [sr_PreimageHash sr_PreimageBody].
  rewrite bool_decide_eq_true_2 by done. cbn [negb].
  rewrite (proj2 (parse_iff preSig a)) by done. rewrite Hp, (proj2 (Z.ltb_ge _ _)) by done.
  rewrite Hs1, Hs2. unfold LogConsumer, recordSettleDecision.
  by destruct (si_audit si), (dp_Metrics d).
Qed.

(** A model with a price has a name that fits the preimage, and its cost fits a uint64. *)
Lemma priced_model model in_ out cost :
  actualCostCredits model in_ out = Some cost →
  model ≠ "" ∧ Byte.x00 ∉ string_bytes model ∧ is_u64 cost.
Proof.
  unfold actualCostCredits, usagePriceTable. destruct (_ !! model) as [[pin pout]|] eqn:E; [|done].
  intros [= <-]. assert (model ≠ "" ∧ Byte.x00 ∉ string_bytes model) as [Hm Hz]; [|split_and!; [done|done|apply u64_range]].
  repeat (apply lookup_insert_Some in E as [[<- _]|[_ E]];
    [split; [done|apply (bool_decide_unpack _); vm_compute; exact I]|]).
  by rewrite lookup_empty in E.
Qed.

(** What the seeder reports for a matched request. *)
Lemma matched_report identityPub req res usage cost ss :
  matched identityPub req res →
  actualCostCredits (rv_model res) (u32 usage.1) (u32 usage.2) = Some cost →
  ∃ rep preSig, reportUsage identityPub true res usage ss = (Ok (), add_report rep ss) ∧
    let rp := wire_report rep in
    rp_RequestId rp = RequestID req ∧ rp_Model rp = rv_model res ∧
    rp_InputTokens rp = u32 usage.1 ∧ rp_OutputTokens rp = u32 usage.2 ∧
    CanonicalUsageAssertionPreSig (report_assertion req rp cost) = Ok preSig ∧
    VerifyUsageAssertion (SeederPubkey req) (report_assertion req rp cost) (rp_SeederSig rp) = true.
Proof.
  intros [Hid Hidl Hc Hcl Hm Hs Hk Hkey Hst Hsig] Hcost.
  destruct (priced_model _ _ _ _ Hcost) as (Hne & _ & _).
  assert (∃ preSig, CanonicalUsageAssertionPreSig (job_assertion identityPub res (u32 usage.1) (u32 usage.2) cost)
    = Ok preSig) as [preSig Hcan].
  { unfold CanonicalUsageAssertionPreSig, job_assertion, blen, seederIdentityID. cbn. rewrite Hidl, Hcl, sha256_length.
    cbn [Z.eqb negb orb]. rewrite bool_decide_eq_false_2 by done. by eexists. }
  assert (∃ sig, SignUsageAssertion (rv_ephemeralPriv res)
    (job_assertion identityPub res (u32 usage.1) (u32 usage.2) cost) = Ok sig ∧
    sig = ed25519_Sign (rv_ephemeralPriv res) preSig) as (sig & Hsign & Esig).
  { unfold SignUsageAssertion, PrivateKeySize, blen. rewrite Hk, Hcan. cbn. by eexists. }
  eexists _, preSig. split.
  { unfold reportUsage. cbn zeta. rewrite Hcost, Hsign. reflexivity. }
  cbn. assert (report_assertion req {| rp_RequestId := rv_requestID res; rp_InputTokens := u32 usage.1;
    rp_OutputTokens := u32 usage.2; rp_Model := rv_model res; rp_SeederSig := sig |} cost =
    job_assertion identityPub res (u32 usage.1) (u32 usage.2) cost) as Ha
    by (unfold report_assertion, job_assertion; cbn; by rewrite Hc, Hs).
  unfold wire_report. cbn. rewrite Ha. split_and!; try done. rewrite Hkey.
  unfold VerifyUsageAssertion, PublicKeySize, SignatureSize, blen.
  rewrite Esig, Public_length, Sign_length, Hcan by done. by apply Verify_Sign.
Qed.

(** C8: One settlement from end to end. A seeder that accepted the tracker's offer and served it
    reports; the tracker, which prices by its default table, takes the report; its push, handed to
    the consumer that has the request pending within its ceiling, is countersigned; the
    tracker takes the counter-signature; and the record its goroutine appends to the ledger
    carries the price the seeder computed and both signatures, each of which verifies. *)
Theorem settlement_end_to_end identityPub now ss res usage cost b req d cpriv si c pn resolve :
  matched identityPub req res →
  actualCostCredits (rv_model res) (u32 usage.1) (u32 usage.2) = Some cost →
  inflight_wf (inflight b) → Session.Get (RequestID req) (inflight b) = Some req →
  w_pending b !! RequestID req = None → overspent cost (MaxCostReserved req) = false →
  cs_pendingSettlements c !! RequestID req = Some pn → u32 usage.2 ≤ pn_maxOutputTokens pn →
  length cpriv = 64%nat → si_sign si = None → si_settle si = None →
  resolve (ConsumerID req) = Some (ed25519_Public cpriv) →
  ∃ rep t b1 p sig b2 rec,
    reportUsage identityPub true res usage ss = (Ok (), add_report rep ss) ∧
    HandleUsageReport DefaultPriceTable no_faults now (seederIdentityID identityPub)
      (Some (wire_report rep)) b = (Ok t, b1) ∧
    w_pending b1 !! RequestID req = Some p ∧
    cs_settled (snd (HandleSettlement d cpriv si (Some (settlement_push p)) c)) =
      cs_settled c ++ [(sha256 (ps_preSig p), sig)] ∧
    HandleSettle (Some resolve) (ConsumerID req) (Some (wire_settle (sha256 (ps_preSig p), sig))) b1
      = (Ok tt, b2) ∧
    fst (wake SigArrived t b2) = Some rec ∧
    ur_ConsumerSigMissing rec = false ∧ ur_CostCredits rec = cost ∧
    VerifyUsageAssertion (ur_SeederPub rec) (usage_assertion rec) (ur_SeederSig rec) = true ∧
    VerifyUsageAssertion (ur_ConsumerPub rec) (usage_assertion rec) (ur_ConsumerSig rec) = true.
Proof.
  intros Hma Hcost Hwf Hg Hp Hov Hpn Hle Hk Hs1 Hs2 Hres.
  destruct (matched_report _ _ _ _ _ ss Hma Hcost) as (rep & preSig & Hrep & Hid & Hmod & Hin & Hout & Hcan & Hver).
  destruct (priced_model _ _ _ _ Hcost) as (Hne & Hz & Hu). destruct Hma as [Eid Hidl Ec Hcl Em Es Hpriv Ekey Hst Hsig].
  set (rp := wire_report rep) in *.
  assert (checkReport DefaultPriceTable (seederIdentityID identityPub) req rp = Ok cost) as Hck.
  { unfold checkReport. rewrite Es, Em, Hmod, Hin, Hout, (proj1 (mirrored_price _ _ _ _) Hcost), Hov.
    rewrite (bool_decide_eq_true_2 (seederIdentityID _ = _)), (bool_decide_eq_true_2 (Some _ = Some _)) by done.
    by destruct Hst as [-> | ->]. }
  destruct (HandleUsageReport_succeeds now (seederIdentityID identityPub) req rp b cost preSig)
    as (t & b1 & req' & Hrep1 & Hacc & Hlook & Eid' & Ec' & Esig'); try (rewrite ?Hid; done).
  { rewrite Hid, Eid. done. }
  destruct Hacc as (preSig' & Hcan' & _ & _ & Hpend & Htid & _ & Hua & Hspub & Hssig & _).
  assert (preSig' = preSig) as -> by congruence.
  set (a := report_assertion req rp cost) in *.
  assert (ua_wf a) as Hawf.
  { unfold ua_wf, a. cbn [ua_InputTokens ua_OutputTokens ua_CostCredits report_assertion]. rewrite Hin, Hout. split_and!; [apply u32_range|apply u32_range|done]. }
  destruct (CanonicalUsageAssertionPreSig_ok _ _ Hcan) as (_ & _ & _ & _ & Hpre).
  assert (VerifyUsageAssertion (ed25519_Public cpriv) a (ed25519_Sign cpriv preSig) = true) as Hcv.
  { unfold VerifyUsageAssertion, PublicKeySize, SignatureSize, blen.
    rewrite Public_length, Sign_length, Hcan by done. by apply Verify_Sign. }
  set (p := {| ps_assertion := a; ps_preSig := preSig; ps_verified := false; ps_refused := false;
               ps_consumerSig := []; ps_consumerPub := [] |}) in *.
  assert (w_pending b1 !! RequestID req = Some p) as Hp1 by (by rewrite Hpend, Hid, lookup_insert_eq).
  destruct (HandleSettle_succeeds resolve (sha256 preSig) (ed25519_Sign cpriv preSig) req' p (ed25519_Public cpriv) b1)
    as (b2 & Hs & Hp2); try done.
  { apply sha256_length. }
  { by rewrite Eid'. }
  { cbn. rewrite Hpre. done. }
  { by rewrite Ec'. }
  exists rep, t, b1, p, (ed25519_Sign cpriv preSig), b2, (with_verdict false (ed25519_Sign cpriv preSig) (ed25519_Public cpriv) (tk_rec t)).
  split; [exact Hrep|]. split; [exact Hrep1|]. split; [exact Hp1|]. split.
  { apply (HandleSettlement_succeeds d cpriv si c a preSig pn); try done.
    - unfold a. cbn [ua_Model report_assertion]. by rewrite Hmod.
    - unfold a. cbn [ua_RequestID report_assertion]. by rewrite Hid.
    - unfold a. cbn [ua_OutputTokens report_assertion]. by rewrite Hout. }
  rewrite Ec' in Hs. split; [exact Hs|]. split.
  { unfold wake, pendingVerdict. rewrite Htid, Hid, <- Eid', Hp2. reflexivity. }
  assert (∀ m x y, usage_assertion (with_verdict m x y (tk_rec t)) = a) as Hwv by done.
  rewrite !Hwv. cbn [with_verdict ur_ConsumerSigMissing ur_CostCredits ur_SeederPub ur_SeederSig ur_ConsumerPub ur_ConsumerSig].
  rewrite Hspub, Hssig. split_and!; try done. exact (f_equal ua_CostCredits Hua).
Qed.
End end_to_end.

(** ** What keeps the two apart *)

Section apart.
Context `{Crypto} `{Wire}.

(** The coordinator builds its envelopes without an ephemeral key ([prepare]); the broker copies the
    field into its offers; and every seeder declines an offer without one. *)
Lemma keyless_envelope_declined cfg zone cancelled now gen bindOK priv t rand spec proof balance env body
    envHash reqID s :
  Envelope.ConsumerEphemeralPub spec = [] →
  Envelope.Build priv t rand spec proof balance = Ok env → es_Body env = Some body →
  dc_Accept (fst (handleOffer cfg zone cancelled now gen bindOK (offerPush body envHash reqID) s)) = false.
Proof.
  intros Hspec Hb Hbody. assert (env_ConsumerEphemeralPub body = []) as He.
  { unfold Envelope.Build in Hb. repeat (case_match; try done). simplify_eq. cbn in Hbody. simplify_eq. done. }
  unfold handleOffer. destruct (ValidateOfferPush _); [done|]. unfold HandleOffer. destruct cancelled; [done|].
  destruct (negb (availableLocked _ _ _ _)); [done|]. destruct (negb (bool_decide _)); [done|].
  cbn [of_ConsumerEphemeralPub offerPush op_ConsumerEphemeralPub]. by rewrite He.
Qed.

(** The tracker knows a connection by the hash of its key in PKIX form; the plugin's signer puts the
    hash of the bare key into the envelope. Short of a collision the tracker does not find the
    consumer. *)
Lemma sidecar_identity_unknown TrackerPub resolve priv env body now :
  (∀ id pub, resolve id = Some pub → id = sha256 (MarshalPKIXPublicKey pub)) →
  (∀ pub, sha256 (MarshalPKIXPublicKey pub) ≠ Envelope.Signer_IdentityID priv) →
  verifyBrokerRequest TrackerPub resolve env body (Envelope.Signer_IdentityID priv) now =
    Err (ErrUnauthenticated "consumer not connected").
Proof.
  intros Hr Hne. unfold verifyBrokerRequest.
  destruct (resolve (Envelope.Signer_IdentityID priv)) as [pub|] eqn:E; [|done].
  by destruct (Hne pub); rewrite <- (Hr _ _ E).
Qed.
End apart.

(** ** One settlement, evaluated *)

Definition e_cost : Z := 330.
Definition e_pub : bytes := take 32 Seeder.s_key.

Definition e_request : Request := {|
  RequestID := replicate 16 Byte.x77; ConsumerID := replicate 32 Byte.x11;
  rq_EnvelopeBody := Some (witness_env 100 20); EnvelopeHash := replicate 32 Byte.x44;
  MaxCostReserved := 600; AssignedSeeder := @seederIdentityID ToyCrypto Seeder.s_identity;
  SeederPubkey := @ed25519_Public ToyCrypto Seeder.s_key; OfferAttempts := []; StartedAt := 0;
  rq_State := StateAssigned; PreimageHash := zero_bytes 32; SettleSig := None; TerminatedAt := zeroTime |}.

Definition e_reservation : reservation := {|
  rv_envelopeHash := replicate 32 Byte.x44; rv_consumerIDHash := zero_bytes 32;
  rv_requestID := replicate 16 Byte.x77; rv_consumerID := replicate 32 Byte.x11;
  rv_model := "claude-sonnet-4-6"; rv_maxInputTokens := 100; rv_maxOutputTokens := 20;
  rv_ephemeralPub := e_pub; rv_ephemeralPriv := Seeder.s_key;
  rv_consumerEphemeralPub := replicate 32 Byte.x33; rv_registeredAt := 0 |}.

Definition e_tracker : BState := {|
  w_reg := {| shards := [] |};
  w_mgr := {| mgr_Inflight := Insert e_request NewInflight; mgr_Reservations := s_reservations |};
  w_store := w_state; w_pending := ∅ |}.

Definition e_consumer : CState :=
  set_pendings {[ replicate 16 Byte.x77 := {| pn_sessionID := "s1"; pn_maxOutputTokens := 100;
                                              pn_seederPubkey := [] |} ]} (new_state sample_settings).

Lemma settlement_end_to_end_witness :
  ∃ t b1 b2 rec sig,
    fst (wake SigArrived t b2) = Some rec ∧ ur_CostCredits rec = e_cost ∧
    @HandleSettle ToyCrypto (Some (λ _, Some (@ed25519_Public ToyCrypto s_priv)))
      (replicate 32 Byte.x11) (Some sig) b1 = (Ok tt, b2) ∧
    @VerifyUsageAssertion ToyCrypto (ur_ConsumerPub rec) (usage_assertion rec) (ur_ConsumerSig rec) = true.
Proof.
  destruct (@settlement_end_to_end ToyCrypto ToyCryptoLaws Seeder.s_identity 0 new_seeder e_reservation (10, 20)
    e_cost e_tracker e_request s_deps s_priv s_si e_consumer
    {| pn_sessionID := "s1"; pn_maxOutputTokens := 100; pn_seederPubkey := [] |}
    (λ _, Some (@ed25519_Public ToyCrypto s_priv)))
    as (rep & t & b1 & p & sig & b2 & rec & _ & _ & _ & _ & Hs & Hw & _ & Hc & _ & Hv).
  - constructor; try reflexivity. by left.
  - vm_compute. reflexivity.
  - apply Insert_wf, NewInflight_wf.
  - reflexivity.
  - reflexivity.
  - vm_compute. reflexivity.
  - reflexivity.
  - vm_compute. discriminate.
  - reflexivity.
  - reflexivity.
  - reflexivity.
  - reflexivity.
  - exists t, b1, b2, rec, (wire_settle (@sha256 ToyCrypto (ps_preSig p), sig)).
    split; [exact Hw|]. split; [exact Hc|]. split; [exact Hs|exact Hv].
Defined.
