(* ===== verification/Frame.v ===== *)
(** The framed streams between plugin and tracker: tracker/internal/server/framing.go and
    plugin/internal/trackerclient/internal/wire.

    A direction of a stream is seen from its reader as an [Rx], the bytes that will arrive and
    how the stream ends after them, and from its writer as a [Tx], the bytes that were written
    and, if the stream breaks, how many more it takes. A write that does not fit delivers what
    does and fails. A frame is the length of a message, in four bytes, and its encoding. *)
From S2P Require Import Prelude FedProto.

Inductive IoErr := EOF | ErrUnexpectedEOF | ErrIo.

Record Rx := { rx_data : bytes; rx_end : IoErr }.
Record Tx := { tx_data : bytes; tx_room : option nat }.

(** [io.ReadFull]. It reads nothing, and cannot fail, when [n] is zero. *)
Definition ReadFull (n : Z) : GoM Rx IoErr bytes := λ r,
  if n <=? blen (rx_data r) then
    (Ok (take (Z.to_nat n) (rx_data r)),
     {| rx_data := drop (Z.to_nat n) (rx_data r); rx_end := rx_end r |})
  else
    (Err (match rx_data r, rx_end r with _ :: _, EOF => ErrUnexpectedEOF | _, e => e end),
     {| rx_data := []; rx_end := rx_end r |}).

Definition Write (p : bytes) : GoM Tx IoErr unit := λ t,
  match tx_room t with
  | None => (Ok tt, {| tx_data := tx_data t ++ p; tx_room := None |})
  | Some k =>
    if Nat.leb (length p) k then
      (Ok tt, {| tx_data := tx_data t ++ p; tx_room := Some (k - length p)%nat |})
    else (Err ErrIo, {| tx_data := tx_data t ++ take k p; tx_room := Some O |})
  end.

Inductive FrameErr :=
| ErrFrameTooLarge | ErrFrameMarshal | ErrFrameUnmarshal | ErrFrameWrite (e : IoErr)
| ErrFrameHeader (e : IoErr) | ErrFrameBody (e : IoErr).

(** [errors.Is(err, io.EOF)] *)
Definition is_EOF (e : FrameErr) : bool :=
  match e with ErrFrameHeader EOF | ErrFrameBody EOF => true | _ => false end.

(** [errors.Is(err, io.EOF) || errors.Is(err, io.ErrUnexpectedEOF)] *)
Definition is_truncated (e : FrameErr) : bool :=
  match e with
  | ErrFrameHeader (EOF | ErrUnexpectedEOF) | ErrFrameBody (EOF | ErrUnexpectedEOF) => true
  | _ => false
  end.

Definition frame_header (buf : bytes) : bytes := be_bytes 4 (u32 (blen buf)).

Definition WriteFrame {M} `{Codec M} (m : M) (maxFrameSize : Z) : GoM Tx FrameErr unit :=
  match DeterministicMarshal m with
  | None => gfail ErrFrameMarshal
  | Some buf =>
    do! gguard (maxFrameSize <? blen buf) ErrFrameTooLarge in
    do! gwrap ErrFrameWrite (Write (frame_header buf)) in
    gwrap ErrFrameWrite (Write buf)
  end.

Definition ReadFrame {M} `{Codec M} (maxFrameSize : Z) : GoM Rx FrameErr M :=
  let! hdr := gwrap ErrFrameHeader (ReadFull 4) in
  let n := be_val hdr in
  do! gguard (maxFrameSize <? n) ErrFrameTooLarge in
  let! body := gwrap ErrFrameBody (ReadFull n) in
  match Unmarshal body with
  | None => gfail ErrFrameUnmarshal
  | Some m => gret m
  end.

(** The client's copies of the two, in package wire. *)
Definition Wire_Write {M} `{Codec M} (m : M) (maxFrameSize : Z) : GoM Tx FrameErr unit :=
  WriteFrame m maxFrameSize.
Definition Wire_Read {M} `{Codec M} (maxFrameSize : Z) : GoM Rx FrameErr M := ReadFrame maxFrameSize.

(** A loop of writes, and one of reads until the stream ends. *)
Fixpoint write_frames {M} `{Codec M} (ms : list M) (max : Z) : GoM Tx FrameErr unit :=
  match ms with
  | [] => gret tt
  | m :: ms => do! WriteFrame m max in write_frames ms max
  end.

Fixpoint read_frames {M} `{Codec M} (fuel : nat) (max : Z) (r : Rx) : list M * FrameErr :=
  match fuel with
  | O => ([], ErrFrameHeader ErrIo)
  | S fuel =>
    match ReadFrame max r with
    | (Err e, _) => ([], e)
    | (Ok m, r) => let '(ms, e) := read_frames fuel max r in (m :: ms, e)
    end
  end.

(** ** Lemmas *)

Definition open_tx : Tx := {| tx_data := []; tx_room := None |}.
Definition rx_of (t : Tx) : Rx := {| rx_data := tx_data t; rx_end := EOF |}.

Lemma ReadFull_app p rest e :
  ReadFull (blen p) {| rx_data := p ++ rest; rx_end := e |} = (Ok p, {| rx_data := rest; rx_end := e |}).
Proof.
  unfold ReadFull, blen. simpl. rewrite length_app.
  destruct (Z.leb_spec (Z.of_nat (length p)) (Z.of_nat (length p + length rest))); [|lia].
  by rewrite Nat2Z.id, take_app_length, drop_app_length.
Qed.

Lemma ReadFull_short n d e :
  blen d < n →
  ReadFull n {| rx_data := d; rx_end := e |} =
    (Err (match d, e with _ :: _, EOF => ErrUnexpectedEOF | _, e => e end), {| rx_data := []; rx_end := e |}).
Proof. intros Hn. unfold ReadFull. cbn. destruct (Z.leb_spec n (blen d)); [lia|by destruct d, e]. Qed.

Lemma ReadFull_split n r p r' :
  0 <= n → ReadFull n r = (Ok p, r') →
  blen p = n ∧ rx_data r = p ++ rx_data r' ∧ rx_end r' = rx_end r.
Proof.
  intros Hn. unfold ReadFull. destruct (Z.leb_spec n (blen (rx_data r))); [|done].
  intros [= <- <-]. unfold blen in *. rewrite length_take. simpl.
  split; [lia|]. by rewrite take_drop.
Qed.

Lemma frame_header_val buf : blen buf < 2 ^ 32 → be_val (frame_header buf) = blen buf.
Proof.
  intros Hb. unfold frame_header. pose proof (Zle_0_nat (length buf)) as Hz.
  assert (u32 (blen buf) = blen buf) as ->.
  { unfold u32. apply Z.mod_small. unfold blen in *. lia. }
  rewrite be_val_be_bytes by done. apply Z.mod_small. unfold blen in *. lia.
Qed.

Lemma frame_header_len buf : blen (frame_header buf) = 4.
Proof. unfold frame_header, blen. by rewrite length_be_bytes. Qed.

Lemma Write_Ok p t t' : Write p t = (Ok tt, t') → tx_data t' = tx_data t ++ p.
Proof. unfold Write. destruct (tx_room t) as [k|]; [case_match|]; naive_solver. Qed.

Lemma Write_open p d :
  Write p {| tx_data := d; tx_room := None |} = (Ok tt, {| tx_data := d ++ p; tx_room := None |}).
Proof. done. Qed.

(** What reaches the other end is a prefix of what a call that succeeds would have sent. *)
Lemma Write_prefix p t r t' : Write p t = (r, t') → ∃ k, tx_data t' = tx_data t ++ take k p.
Proof.
  unfold Write. destruct (tx_room t) as [k|]; [case_match|]; intros [= <- <-]; simpl.
  - exists (length p). by rewrite firstn_all.
  - by exists k.
  - exists (length p). by rewrite firstn_all.
Qed.

Section frames.
Context {M} `{CodecLaws M}.

(** Past the header. *)
Lemma ReadFrame_header buf rest max e :
  blen buf < 2 ^ 32 →
  ReadFrame (M := M) max {| rx_data := frame_header buf ++ rest; rx_end := e |} =
    if max <? blen buf then (Err ErrFrameTooLarge, {| rx_data := rest; rx_end := e |})
    else gbind (gwrap ErrFrameBody (ReadFull (blen buf)))
           (λ body, match Unmarshal body with None => gfail ErrFrameUnmarshal | Some m => gret m end)
           {| rx_data := rest; rx_end := e |}.
Proof.
  intros H32. unfold ReadFrame.
  rewrite (gbind_eq _ _ _ (frame_header buf) {| rx_data := rest; rx_end := e |}).
  2: { apply gwrap_eq. pose proof (ReadFull_app (frame_header buf) rest e) as Hr.
       by rewrite frame_header_len in Hr. }
  rewrite frame_header_val by done. unfold gbind at 1, gguard. by destruct (max <? blen buf).
Qed.

Lemma ReadFrame_frame (buf rest : bytes) e max (m : M) :
  Unmarshal buf = Some m → blen buf <= max → blen buf < 2 ^ 32 →
  ReadFrame max {| rx_data := frame_header buf ++ buf ++ rest; rx_end := e |} =
    (Ok m, {| rx_data := rest; rx_end := e |}).
Proof.
  intros Hu Hmax H32. rewrite ReadFrame_header by done. destruct (Z.ltb_spec max (blen buf)); [lia|].
  rewrite (gbind_eq _ _ _ buf {| rx_data := rest; rx_end := e |})
    by (apply gwrap_eq, ReadFull_app).
  by rewrite Hu.
Qed.

Lemma WriteFrame_Ok (m : M) max t t' :
  WriteFrame m max t = (Ok tt, t') →
  ∃ buf, DeterministicMarshal m = Some buf ∧ blen buf <= max ∧
         tx_data t' = tx_data t ++ frame_header buf ++ buf.
Proof.
  unfold WriteFrame. destruct (DeterministicMarshal m) as [buf|]; [|done]. intros Hr.
  apply gbind_Ok in Hr as ([] & s1 & E1 & Hr). apply gguard_Ok in E1 as [E1 ->].
  apply gbind_Ok in Hr as ([] & s2 & E2 & Hr).
  rewrite gwrap_Ok in E2, Hr. apply Write_Ok in E2, Hr.
  exists buf. split; [done|]. split; [lia|]. by rewrite Hr, E2, <- app_assoc.
Qed.

Lemma WriteFrame_open (m : M) buf max d :
  DeterministicMarshal m = Some buf → blen buf <= max →
  WriteFrame m max {| tx_data := d; tx_room := None |} =
    (Ok tt, {| tx_data := d ++ frame_header buf ++ buf; tx_room := None |}).
Proof.
  intros Hm Hl. unfold WriteFrame. rewrite Hm.
  rewrite (gbind_eq _ _ _ tt {| tx_data := d; tx_room := None |}) by (apply gguard_pass; lia).
  rewrite (gbind_eq _ _ _ tt {| tx_data := d ++ frame_header buf; tx_room := None |})
    by by apply gwrap_eq.
  apply gwrap_eq. by rewrite Write_open, <- app_assoc.
Qed.

(** One message over the stream. *)
Lemma frame_roundtrip (m : M) max max' t t' rest e :
  WriteFrame m max t = (Ok tt, t') → max <= max' → max' < 2 ^ 32 →
  ∃ p, tx_data t' = tx_data t ++ p ∧
    ReadFrame max' {| rx_data := p ++ rest; rx_end := e |} = (Ok m, {| rx_data := rest; rx_end := e |}).
Proof.
  intros Hw Hle H32. apply WriteFrame_Ok in Hw as (buf & Hm & Hl & Hd).
  exists (frame_header buf ++ buf). split; [done|]. rewrite <- app_assoc.
  apply ReadFrame_frame; [by apply Unmarshal_Deterministic|lia|lia].
Qed.

Lemma read_frames_app (ms : list M) max max' t t' :
  write_frames ms max t = (Ok tt, t') → max <= max' → max' < 2 ^ 32 →
  ∃ p, tx_data t' = tx_data t ++ p ∧ ∀ fuel rest e,
    read_frames (length ms + fuel) max' {| rx_data := p ++ rest; rx_end := e |} =
      let '(ms', e') := read_frames fuel max' {| rx_data := rest; rx_end := e |} in (ms ++ ms', e').
Proof.
  intros Hw Hle H32. revert t Hw. induction ms as [|m ms IH]; intros t Hw.
  - apply gret_Ok in Hw as [_ ->]. exists []. split; [by rewrite app_nil_r|].
    intros fuel rest e. simpl. by destruct (read_frames fuel _ _).
  - apply gbind_Ok in Hw as ([] & t1 & Hw & Hws).
    apply IH in Hws as (q & Hq & Hrq).
    destruct (WriteFrame_Ok _ _ _ _ Hw) as (buf & Hm & Hl & Hd).
    exists ((frame_header buf ++ buf) ++ q).
    split; [by rewrite Hq, Hd, !app_assoc|]. intros fuel rest e. cbn [length Nat.add read_frames].
    rewrite <- !app_assoc, (ReadFrame_frame buf (q ++ rest) e max' m)
      by (try lia; by apply Unmarshal_Deterministic).
    rewrite Hrq. by destruct (read_frames fuel _ _).
Qed.
End frames.

Lemma ReadFrame_short {M} `{Codec M} d max e :
  blen d < 4 →
  ∃ err r, ReadFrame (M := M) max {| rx_data := d; rx_end := e |} = (Err err, r) ∧
           (e = EOF → is_truncated err = true).
Proof.
  intros Hd. unfold ReadFrame, gbind, gwrap. rewrite ReadFull_short by done.
  eexists _, _. split; [reflexivity|]. intros ->. by destruct d.
Qed.

(** A frame that is cut off yields no message, however the stream ends; and if it ends, the
    reader takes it for the end of the stream, not for a bad frame. *)
Lemma ReadFrame_cut {M} `{Codec M} (buf : bytes) max k e :
  blen buf < 2 ^ 32 → (k < 4 + length buf)%nat →
  ∃ err r, ReadFrame (M := M) max
             {| rx_data := take k (frame_header buf ++ buf); rx_end := e |} = (Err err, r) ∧
           (e = EOF → blen buf <= max → is_truncated err = true).
Proof.
  intros H32 Hk. pose proof (frame_header_len buf) as Hh. unfold blen in Hh.
  destruct (decide (k < 4)%nat) as [Hk4|Hk4].
  - destruct (ReadFrame_short (M := M) (take k (frame_header buf ++ buf)) max e) as (err & r & -> & Ht).
    + unfold blen. rewrite length_take, length_app. lia.
    + exists err, r. eauto.
  - rewrite take_app_ge, ReadFrame_header by lia.
    destruct (Z.ltb_spec max (blen buf)); [eexists _, _; split; [reflexivity|lia]|].
    unfold gbind, gwrap. rewrite ReadFull_short.
    + eexists _, _. split; [reflexivity|]. intros ->. by destruct (take _ buf).
    + unfold blen. rewrite length_take. lia.
Qed.

(** What arrives of a frame is nothing or the message. *)
Lemma ReadFrame_prefix {M} `{Codec M} (buf : bytes) max k e :
  blen buf < 2 ^ 32 →
  let out := fst (ReadFrame (M := M) max {| rx_data := take k (frame_header buf ++ buf); rx_end := e |}) in
  (∃ err, out = Err err) ∨ ∃ m, out = Ok m ∧ Unmarshal buf = Some m.
Proof.
  intros H32. cbn zeta. destruct (decide (k < 4 + length buf)%nat) as [Hk|Hk].
  - destruct (ReadFrame_cut (M := M) buf max k e) as (err & r & -> & _); [done..|]. left. by eexists.
  - pose proof (frame_header_len buf) as Hh. unfold blen in Hh.
    rewrite take_ge by (rewrite length_app; lia). rewrite ReadFrame_header by done.
    destruct (max <? blen buf); [left; by eexists|].
    pose proof (ReadFull_app buf [] e) as Hr. rewrite app_nil_r in Hr.
    unfold gbind, gwrap. rewrite Hr.
    destruct (Unmarshal buf) as [m|]; [right; by exists m|left; by eexists].
Qed.

(** The comment of [ReadFrame] says [io.ErrUnexpectedEOF] for a short body; a body that is
    missing altogether is [io.EOF], which the readers take for a clean end. *)
Lemma missing_body_is_EOF {M} `{Codec M} max n :
  0 < n <= max → n < 2 ^ 32 →
  ReadFrame (M := M) max {| rx_data := be_bytes 4 n; rx_end := EOF |} =
    (Err (ErrFrameBody EOF), {| rx_data := []; rx_end := EOF |}).
Proof.
  intros Hn H32. unfold ReadFrame.
  rewrite (gbind_eq _ _ _ (be_bytes 4 n) {| rx_data := []; rx_end := EOF |}).
  2: { apply gwrap_eq. pose proof (ReadFull_app (be_bytes 4 n) [] EOF) as Hr.
       unfold blen in Hr. rewrite app_nil_r, length_be_bytes in Hr. by apply Hr. }
  rewrite be_val_be_bytes, Z.mod_small by lia.
  rewrite (gbind_eq _ _ _ tt {| rx_data := []; rx_end := EOF |}) by (apply gguard_pass; lia).
  unfold gbind, gwrap. by rewrite ReadFull_short by (unfold blen; simpl; lia).
Qed.
