(* ===== verification/Server.v ===== *)
(** tracker/internal/server: connections, request streams and pushes.

    The QUIC and TLS libraries are outside: a certificate is what [x509.ParseCertificate]
    returns ([X509]), a stream is an [Rx] and a [Tx]. [Connection] objects live in a heap, as
    their goroutines and the directory [connsByPeer] both hold them. [serveConn] is its part
    before the accept loops ([serveConn_start]), one step per stream, and its deferred part
    ([serveConn_exit]); the goroutines that are between the two are [sv_serving]. Other parts
    of the tracker change the registry at any time. The other end of a pushed stream is a
    function from the bytes it is sent to the stream it answers with. *)
From S2P Require Import Prelude Proto Signing FedProto Registry Frame.
From Stdlib Require Import Floats.SpecFloat.

(** ** TLS identities *)

(** The key is [None] if it is not an Ed25519 key. *)
Record Certificate := { ct_RawSubjectPublicKeyInfo : bytes; ct_PublicKey : option bytes }.

Class X509 := { ParseCertificate : bytes → option Certificate }.

Definition VerifyClientCert `{X509} (rawCerts : list bytes) : error :=
  match rawCerts with
  | [] => Some "server: no peer certificate"
  | _ :: _ :: _ => Some "server: peer offered more than one cert"
  | [raw] =>
    match ParseCertificate raw with
    | None => Some "server: parse peer cert"
    | Some parsed =>
      return_if bool_decide (ct_PublicKey parsed = None), "server: peer cert is not Ed25519" ;;
      return_if blen (ct_RawSubjectPublicKeyInfo parsed) =? 0, "server: empty SPKI" ;;
      None
    end
  end.

Section server.
Context `{Crypto}.

Definition SPKIToIdentityID (cert : Certificate) : option bytes :=
  if blen (ct_RawSubjectPublicKeyInfo cert) =? 0 then None
  else Some (sha256 (ct_RawSubjectPublicKeyInfo cert)).

(** ** Connections *)

Record Connection := {
  cn_peerID : bytes; cn_peerPub : bytes; cn_remoteAddr : AddrPort; cn_streamSeq : Z; cn_closed : bool
}.

Definition newConnection (peerID peerPub : bytes) (addr : AddrPort) : Connection := {|
  cn_peerID := peerID; cn_peerPub := peerPub; cn_remoteAddr := addr; cn_streamSeq := 0; cn_closed := false |}.

Record Server := {
  sv_running : bool; sv_stopped : bool;
  sv_heap : gmap positive Connection; sv_next : positive;
  sv_connsByPeer : gmap bytes positive; sv_serving : gset positive;
  sv_registry : option Registry
}.

Definition NewServer (reg : option Registry) : Server := {|
  sv_running := false; sv_stopped := false; sv_heap := ∅; sv_next := 1%positive;
  sv_connsByPeer := ∅; sv_serving := ∅; sv_registry := reg |}.

Definition with_running (s : Server) : Server := {|
  sv_running := true; sv_stopped := sv_stopped s; sv_heap := sv_heap s; sv_next := sv_next s;
  sv_connsByPeer := sv_connsByPeer s; sv_serving := sv_serving s; sv_registry := sv_registry s |}.

Definition with_stopped (s : Server) : Server := {|
  sv_running := sv_running s; sv_stopped := true; sv_heap := sv_heap s; sv_next := sv_next s;
  sv_connsByPeer := sv_connsByPeer s; sv_serving := sv_serving s; sv_registry := sv_registry s |}.

Definition with_heap (h : gmap positive Connection) (s : Server) : Server := {|
  sv_running := sv_running s; sv_stopped := sv_stopped s; sv_heap := h; sv_next := sv_next s;
  sv_connsByPeer := sv_connsByPeer s; sv_serving := sv_serving s; sv_registry := sv_registry s |}.

Definition with_registry (f : Registry → Registry) (s : Server) : Server := {|
  sv_running := sv_running s; sv_stopped := sv_stopped s; sv_heap := sv_heap s; sv_next := sv_next s;
  sv_connsByPeer := sv_connsByPeer s; sv_serving := sv_serving s; sv_registry := f <$> sv_registry s |}.

Definition PeerCount (s : Server) : Z := Z.of_nat (size (sv_connsByPeer s)).

Definition PeerPubkey (id : bytes) (s : Server) : option bytes :=
  match sv_connsByPeer s !! id with
  | Some p => cn_peerPub <$> sv_heap s !! p
  | None => None
  end.

(** [Connection.Close]; the [sync.Once] makes it idempotent. *)
Definition closed (c : Connection) : Connection := {|
  cn_peerID := cn_peerID c; cn_peerPub := cn_peerPub c; cn_remoteAddr := cn_remoteAddr c;
  cn_streamSeq := cn_streamSeq c; cn_closed := true |}.

Definition accept_stream (c : Connection) : Connection := {|
  cn_peerID := cn_peerID c; cn_peerPub := cn_peerPub c; cn_remoteAddr := cn_remoteAddr c;
  cn_streamSeq := cn_streamSeq c + 1; cn_closed := cn_closed c |}.

(** The record of a peer that has not advertised. *)
Definition connected_record (id : bytes) (addr : AddrPort) (now : Z) : SeederRecord := {|
  sr_IdentityID := id; sr_ConnSessionID := 0;
  sr_Capabilities := {| cap_Models := []; cap_MaxContext := 0; cap_Tiers := []; cap_Attestation := [] |};
  sr_Available := false; sr_HeadroomEstimate := S754_zero false; sr_ReputationScore := S754_zero false;
  sr_NetCoords := {| nc_ExternalAddr := addr; nc_LocalCandidates := [] |};
  sr_Load := 0; sr_LastHeartbeat := now |}.

Definition add_conn (c : Connection) (now : Z) (s : Server) : Server := {|
  sv_running := sv_running s; sv_stopped := sv_stopped s;
  sv_heap := <[sv_next s := c]> (sv_heap s); sv_next := Pos.succ (sv_next s);
  sv_connsByPeer := <[cn_peerID c := sv_next s]> (sv_connsByPeer s);
  sv_serving := {[sv_next s]} ∪ sv_serving s;
  sv_registry := Register (connected_record (cn_peerID c) (cn_remoteAddr c) now) <$> sv_registry s |}.

(** [serveConn] up to the first stream: [Err] is the message the connection is closed with.
    [remote] is [None] if the remote address is not a UDP one. *)
Definition serveConn_start (certs : list Certificate) (remote : option AddrPort) (now : Z)
    : GoM Server string positive := λ s,
  match certs with
  | [cert] =>
    match SPKIToIdentityID cert with
    | None => (Err "bad SPKI", s)
    | Some peerID =>
      match ct_PublicKey cert with
      | None => (Err "non-ed25519 peer pubkey", s)
      | Some peerPub =>
        match remote with
        | None => (Err "non-UDP remote", s)
        | Some addr => (Ok (sv_next s), add_conn (newConnection peerID peerPub addr) now s)
        end
      end
    end
  | _ => (Err "missing peer cert", s)
  end.

(** What [serveConn] defers. *)
Definition serveConn_exit (p : positive) (s : Server) : Server :=
  match sv_heap s !! p with
  | None => s
  | Some c => {|
      sv_running := sv_running s; sv_stopped := sv_stopped s;
      sv_heap := <[p := closed c]> (sv_heap s); sv_next := sv_next s;
      sv_connsByPeer := delete (cn_peerID c) (sv_connsByPeer s);
      sv_serving := sv_serving s ∖ {[p]};
      sv_registry := Deregister (cn_peerID c) <$> sv_registry s |}
  end.

(** [Shutdown]: whether this call is the one that stops the server, and at the end of the
    grace period the closing of every connection of the directory. *)
Definition Shutdown_begin (s : Server) : bool * Server :=
  if negb (sv_running s) || sv_stopped s then (false, s) else (true, with_stopped s).

Definition Shutdown_force (s : Server) : Server :=
  with_heap (foldr (λ p h, alter closed p h) (sv_heap s) ((map_to_list (sv_connsByPeer s)).*2)) s.

(** ** Pushes *)

(** [PushOfferTo] and [PushSettlementTo]: the connection the push goes to. *)
Definition PushTo (id : bytes) (s : Server) : option positive :=
  if negb (sv_running s) || sv_stopped s then None else sv_connsByPeer s !! id.

(** shared/proto's OfferDecision. *)
Record OfferDecision := { pd_Accept : bool; pd_EphemeralPubkey : bytes; pd_RejectReason : string }.
Inductive SettleAck := settleAck.
Record HeartbeatPing := { hp_Seq : Z; hp_T : Z }.
Record HeartbeatPong := { po_Seq : Z }.

(** One pushed stream: whether it opens, how much it takes, how the peer answers, and
    whether the context or the deadline has passed when something fails. *)
Record PushIo := {
  pu_opens : bool; pu_room : option nat; pu_ctxExpired : bool; pu_late : bool; pu_peer : bytes → Rx
}.

Definition rejectReason (io : PushIo) : string := if pu_ctxExpired io then "timeout" else "connection_lost".
Definition timeoutOrLost (io : PushIo) : string := if pu_late io then "timeout" else "connection_lost".

Definition rejected (reason : string) : OfferDecision :=
  {| pd_Accept := false; pd_EphemeralPubkey := []; pd_RejectReason := reason |}.

Definition PushTagOffer : byte := Byte.x01.
Definition PushTagSettlement : byte := Byte.x02.

(** The tag and the framed message, then the framed answer: [Err true] if the failure is in
    the answer. *)
Definition push_exchange {P R} `{Codec P} `{Codec R} (io : PushIo) (tag : byte) (push : P) (maxFrame : Z)
    : res bool R :=
  if negb (pu_opens io) then Err false else
  match Write [tag] {| tx_data := []; tx_room := pu_room io |} with
  | (Err _, _) => Err false
  | (Ok _, t) =>
    match WriteFrame push maxFrame t with
    | (Err _, _) => Err false
    | (Ok _, t) =>
      match ReadFrame (M := R) maxFrame (pu_peer io (tx_data t)) with
      | (Err _, _) => Err true
      | (Ok r, _) => Ok r
      end
    end
  end.

(** What is sent on the channel before it is closed: one decision for an offer, at most one
    acknowledgement for a settlement. *)
Definition runOfferPush `{Codec OfferPush} `{Codec OfferDecision} (io : PushIo) (push : OfferPush)
    (maxFrame : Z) : OfferDecision :=
  match push_exchange io PushTagOffer push maxFrame with
  | Ok d => d
  | Err false => rejected (rejectReason io)
  | Err true => rejected (timeoutOrLost io)
  end.

Definition runSettlementPush `{Codec SettlementPush} `{Codec SettleAck} (io : PushIo)
    (push : SettlementPush) (maxFrame : Z) : option SettleAck :=
  match push_exchange io PushTagSettlement push maxFrame with
  | Ok a => Some a
  | Err _ => None
  end.

Definition offerPushTimeout (OfferTimeoutMs : Z) : Z :=
  i64 ((if OfferTimeoutMs <=? 0 then 5000 else OfferTimeoutMs) * 1000000).
Definition settlementPushTimeout (SettlementTimeoutS : Z) : Z :=
  i64 ((if SettlementTimeoutS <=? 0 then 30 else SettlementTimeoutS) * Second).

(** ** Request streams *)

(** [dispatch] returns [None] if the handler panics. *)
Definition handleRPCStream {A} `{Codec RpcRequest} `{Codec RpcResponse}
    (dispatch : RpcRequest → A → option RpcResponse * A) (text : FrameErr → string) (maxFrame : Z)
    (r : Rx) (t : Tx) (a : A) : Tx * A :=
  match ReadFrame (M := RpcRequest) maxFrame r with
  | (Err e, _) =>
    if is_truncated e then (t, a)
    else (snd (WriteFrame {| rs_Status := RPC_STATUS_INVALID; rs_Payload := [];
                             rs_Error := Some {| re_Code := "FRAME"; re_Message := text e |} |} maxFrame t), a)
  | (Ok req, _) =>
    let '(out, a) := dispatch req a in
    let resp := match out with
                | Some resp => resp
                | None => {| rs_Status := RPC_STATUS_INTERNAL; rs_Payload := [];
                             rs_Error := Some {| re_Code := "PANIC"; re_Message := "handler panicked" |} |}
                end in
    (snd (WriteFrame resp maxFrame t), a)
  end.

(** ** Heartbeats *)

(** The loop of [runHeartbeat] from its [i]-th round: the registry, and what is written. Every frame has at least
    four bytes, so as many rounds as the stream has bytes, and one, are enough. *)
Fixpoint heartbeat_loop `{Codec HeartbeatPing} `{Codec HeartbeatPong} (fuel i : nat) (peerID : bytes)
    (now : nat → Z) (maxFrame : Z) (r : Rx) (t : Tx) (reg : option Registry) : Tx * option Registry :=
  match fuel with
  | O => (t, reg)
  | S fuel =>
    match ReadFrame (M := HeartbeatPing) maxFrame r with
    | (Err _, _) => (t, reg)
    | (Ok ping, r) =>
      let reg := (λ g, snd (Heartbeat peerID (now i) g)) <$> reg in
      match WriteFrame {| po_Seq := hp_Seq ping |} maxFrame t with
      | (Err _, t) => (t, reg)
      | (Ok _, t) => heartbeat_loop fuel (S i) peerID now maxFrame r t reg
      end
    end
  end.

Definition runHeartbeat `{Codec HeartbeatPing} `{Codec HeartbeatPong} (peerID : bytes) (now : nat → Z)
    (maxFrame : Z) (r : Rx) (t : Tx) (reg : option Registry) : Tx * option Registry :=
  heartbeat_loop (S (length (rx_data r))) 0 peerID now maxFrame r t reg.

(** ** The server as a state machine *)

(** [sw_cert]: with which certificate the peer of a connection completed the handshake. *)
Record SWorld := { sw_server : Server; sw_cert : gmap positive Certificate }.

Definition is_register (op : reg_op) : bool := match op with OpRegister _ => true | _ => false end.

Inductive server_step : SWorld → SWorld → Prop :=
| step_run s cs : sv_running s = false →
    server_step {| sw_server := s; sw_cert := cs |} {| sw_server := with_running s; sw_cert := cs |}
| step_accept cert remote now s p s' cs : sv_running s = true →
    serveConn_start [cert] remote now s = (Ok p, s') →
    server_step {| sw_server := s; sw_cert := cs |} {| sw_server := s'; sw_cert := <[p := cert]> cs |}
| step_stream p s cs : p ∈ sv_serving s →
    server_step {| sw_server := s; sw_cert := cs |}
                {| sw_server := with_heap (alter accept_stream p (sv_heap s)) s; sw_cert := cs |}
| step_exit p s cs : p ∈ sv_serving s →
    server_step {| sw_server := s; sw_cert := cs |} {| sw_server := serveConn_exit p s; sw_cert := cs |}
| step_registry op s cs : is_register op = false →
    server_step {| sw_server := s; sw_cert := cs |}
                {| sw_server := with_registry (λ r, snd (run_reg_op op r)) s; sw_cert := cs |}
| step_shutdown s cs :
    server_step {| sw_server := s; sw_cert := cs |} {| sw_server := snd (Shutdown_begin s); sw_cert := cs |}
| step_force s cs :
    server_step {| sw_server := s; sw_cert := cs |} {| sw_server := Shutdown_force s; sw_cert := cs |}.

Definition server_start (reg : option Registry) : SWorld :=
  {| sw_server := NewServer reg; sw_cert := ∅ |}.

(** A connection whose goroutine runs, and whose peer has the identity. *)
Definition live (s : Server) (id : bytes) (p : positive) : Prop :=
  p ∈ sv_serving s ∧ ∃ c, sv_heap s !! p = Some c ∧ cn_peerID c = id.

Record SInv (w : SWorld) : Prop := {
  si_fresh p : is_Some (sv_heap (sw_server w) !! p) → (p < sv_next (sw_server w))%positive;
  si_conn p c : sv_heap (sw_server w) !! p = Some c →
    ∃ cert, sw_cert w !! p = Some cert ∧ SPKIToIdentityID cert = Some (cn_peerID c) ∧
            ct_PublicKey cert = Some (cn_peerPub c);
  si_dir id p : sv_connsByPeer (sw_server w) !! id = Some p → live (sw_server w) id p;
  si_reg reg : sv_registry (sw_server w) = Some reg →
    ∃ m, reg_rel reg m ∧ ∀ id, is_Some (m !! id) → ∃ p, live (sw_server w) id p
}.

(** Changes that keep who is connected. *)
Lemma live_same s s' id p :
  (∀ p, cn_peerID <$> sv_heap s !! p = cn_peerID <$> sv_heap s' !! p) → sv_serving s = sv_serving s' →
  live s id p → live s' id p.
Proof.
  intros Hh Hs [Hp (c & Hc & Hid)]. split; [by rewrite <- Hs|].
  specialize (Hh p). rewrite Hc in Hh. simpl in Hh.
  destruct (sv_heap s' !! p) as [c'|]; [|done]. injection Hh as Hh. exists c'. split; [done|congruence].
Qed.

Lemma SInv_heap f ps s cs :
  (∀ c, cn_peerID (f c) = cn_peerID c ∧ cn_peerPub (f c) = cn_peerPub c) →
  SInv {| sw_server := s; sw_cert := cs |} →
  SInv {| sw_server := with_heap (foldr (λ p h, alter f p h) (sv_heap s) ps) s; sw_cert := cs |}.
Proof.
  intros Hf HI.
  assert (∀ p, (λ c, (cn_peerID c, cn_peerPub c)) <$> sv_heap s !! p =
               (λ c, (cn_peerID c, cn_peerPub c)) <$> foldr (λ p h, alter f p h) (sv_heap s) ps !! p) as Hh.
  { intros p. induction ps as [|q ps IH]; [done|]. simpl. rewrite IH.
    destruct (decide (q = p)) as [->|]; [|by rewrite lookup_alter_ne].
    rewrite lookup_alter_eq, <- option_fmap_compose. apply option_fmap_ext.
    intros c. unfold compose. destruct (Hf c) as [-> ->]. done. }
  assert (∀ p, cn_peerID <$> sv_heap s !! p =
               cn_peerID <$> foldr (λ p h, alter f p h) (sv_heap s) ps !! p) as Hid.
  { intros p. specialize (Hh p). apply (f_equal (fmap fst)) in Hh.
    rewrite <- !option_fmap_compose in Hh. exact Hh. }
  assert (∀ id p, live s id p → live (with_heap (foldr (λ p h, alter f p h) (sv_heap s) ps) s) id p)
    as Hl by (intros id p; by apply live_same).
  destruct HI as [H1 H2 H3 H4]. split; simpl in *.
  - intros p [c Hc]. apply H1. specialize (Hh p). rewrite Hc in Hh.
    destruct (sv_heap s !! p); [by eexists|done].
  - intros p c Hc. specialize (Hh p). rewrite Hc in Hh.
    destruct (sv_heap s !! p) as [c0|] eqn:E; [|done]. simpl in Hh. injection Hh as <- <-. by apply H2.
  - eauto.
  - intros reg Hr. destruct (H4 reg Hr) as (m & Hm & Hc). exists m. split; [done|].
    intros id Hi. destruct (Hc id Hi) as [p Hp]. eauto.
Qed.

Lemma update_dom {A} (id : bytes) (fn : SeederRecord → res RegErr (A * SeederRecord))
    (m : gmap bytes SeederRecord) (id' : bytes) :
  is_Some (snd (update id fn m) !! id' : option SeederRecord) → is_Some (m !! id').
Proof.
  unfold update. destruct (m !! id) as [r|] eqn:E; [|done].
  destruct (fn r) as [[a w]|e]; [|done]. simpl.
  destruct (decide (id = id')) as [->|]; [by rewrite E|by rewrite lookup_insert_ne].
Qed.

Lemma reg_spec_dom (op : reg_op) (m : gmap bytes SeederRecord) (id : bytes) :
  is_register op = false → is_Some (snd (reg_spec op m) !! id) → is_Some (m !! id).
Proof.
  destruct op as [rec|id0|id0 now|id0 addr|id0 caps av h|id0 score|id0|id0|t]; simpl; intros Ho;
    try (by eapply update_dom); [done|..].
  - intros Hs. apply lookup_delete_is_Some in Hs as [_ Hs]. done.
  - destruct (headroom_ok h); [apply update_dom|done].
  - intros [rec Hr]. apply map_lookup_filter_Some in Hr as [Hr _]. by eexists.
Qed.

Lemma SInv_add cert addr now s cs id pub :
  SPKIToIdentityID cert = Some id → ct_PublicKey cert = Some pub →
  SInv {| sw_server := s; sw_cert := cs |} →
  SInv {| sw_server := add_conn (newConnection id pub addr) now s;
          sw_cert := <[sv_next s := cert]> cs |}.
Proof.
  intros Hid Hpub [H1 H2 H3 H4]. simpl in *.
  assert (∀ i p, live s i p → live (add_conn (newConnection id pub addr) now s) i p) as Hl.
  { intros i p [Hp (c & Hc & Hi)]. split; simpl; [set_solver|]. exists c. split; [|done].
    rewrite lookup_insert_ne; [done|]. intros <-. specialize (H1 (sv_next s)). rewrite Hc in H1.
    assert (sv_next s < sv_next s)%positive by (apply H1; by eexists). lia. }
  assert (live (add_conn (newConnection id pub addr) now s) id (sv_next s)) as Hnew.
  { split; simpl; [set_solver|]. rewrite lookup_insert_eq. by eexists. }
  split; simpl in *.
  - intros p [c Hc]. apply lookup_insert_Some in Hc as [[<- _]|[_ Hc]]; [lia|].
    assert (p < sv_next s)%positive by (apply H1; by eexists). lia.
  - intros p c Hc. apply lookup_insert_Some in Hc as [[<- <-]|[Hne Hc]].
    + exists cert. by rewrite lookup_insert_eq.
    + rewrite lookup_insert_ne by done. by apply H2.
  - intros i p Hp. apply lookup_insert_Some in Hp as [[<- <-]|[_ Hp]]; eauto.
  - intros reg Hr. apply fmap_Some in Hr as (reg0 & Hr0 & ->). destruct (H4 _ Hr0) as (m & Hm & Hc).
    destruct (run_reg_op_refines (OpRegister (connected_record id addr now)) reg0 m Hm) as [_ Hm'].
    eexists. split; [apply Hm'|]. simpl. intros i Hi.
    destruct (decide (i = id)) as [->|]; [eauto|].
    rewrite lookup_insert_ne in Hi by done. destruct (Hc i Hi) as [p Hp]. eauto.
Qed.

Lemma SInv_exit p s cs :
  SInv {| sw_server := s; sw_cert := cs |} → SInv {| sw_server := serveConn_exit p s; sw_cert := cs |}.
Proof.
  intros HI. unfold serveConn_exit. destruct (sv_heap s !! p) as [c|] eqn:Ep; [|done].
  destruct HI as [H1 H2 H3 H4]. simpl in *.
  match goal with |- SInv {| sw_server := ?s' |} => set (s1 := s') end.
  assert (∀ i q, i ≠ cn_peerID c → live s i q → live s1 i q) as Hl.
  { intros i q Hi [Hq (d & Hd & <-)]. assert (q ≠ p) by (intros ->; rewrite Ep in Hd; by simplify_eq).
    split; simpl; [set_solver|]. rewrite lookup_insert_ne by done. by exists d. }
  split; simpl in *.
  - intros q Hq. destruct (decide (q = p)) as [->|]; [apply H1; by rewrite Ep|].
    rewrite lookup_insert_ne in Hq by done. by apply H1.
  - intros q d Hd. apply lookup_insert_Some in Hd as [[<- <-]|[_ Hd]]; [exact (H2 p c Ep)|by apply H2].
  - intros i q Hq. apply lookup_delete_Some in Hq as [Hi Hq]. apply Hl; [done|by apply H3].
  - intros reg Hr. apply fmap_Some in Hr as (reg0 & Hr0 & ->). destruct (H4 _ Hr0) as (m & Hm & Hc).
    destruct (run_reg_op_refines (OpDeregister (cn_peerID c)) reg0 m Hm) as [_ Hm'].
    eexists. split; [apply Hm'|]. simpl. intros i Hi.
    apply lookup_delete_is_Some in Hi as [Hne Hi]. destruct (Hc i Hi) as [q Hq]. eauto.
Qed.

Lemma SInv_step w w' : server_step w w' → SInv w → SInv w'.
Proof.
  destruct 1 as [s cs Hr|cert remote now s p s' cs Hr Ha|p s cs Hp|p s cs Hp|op s cs Ho|s cs|s cs]; intros HI.
  - destruct HI as [H1 H2 H3 H4]. split; eauto.
  - simpl in Ha. destruct (SPKIToIdentityID cert) as [id|] eqn:Ei; [|done].
    destruct (ct_PublicKey cert) as [pub|] eqn:Epub; [|done]. destruct remote as [addr|]; [|done].
    injection Ha as <- <-. by apply SInv_add.
  - by apply (SInv_heap accept_stream [p]).
  - by apply SInv_exit.
  - destruct HI as [H1 H2 H3 H4]. split; [exact H1|exact H2|exact H3|]. simpl in *.
    intros reg Hr. apply fmap_Some in Hr as (reg0 & Hr0 & ->). destruct (H4 _ Hr0) as (m & Hm & Hc).
    destruct (run_reg_op_refines op reg0 m Hm) as [_ Hm'].
    eexists. split; [apply Hm'|]. intros id Hi. by apply Hc, (reg_spec_dom op).
  - unfold Shutdown_begin. destruct (_ || _); [done|]. destruct HI as [H1 H2 H3 H4]. split; eauto.
  - by apply (SInv_heap closed).
Qed.

Lemma SInv_reachable n reg w :
  match reg with Some r => New n = Ok r | None => True end →
  rtc server_step (server_start reg) w → SInv w.
Proof.
  intros Hn Hr. assert (SInv (server_start reg)) as H0.
  { split; simpl; try (intros; by rewrite ?lookup_empty in *).
    intros r ->. exists ∅. split; [by apply (New_rel n)|]. intros id [rec Hx]. by rewrite lookup_empty in Hx. }
  revert H0. induction Hr as [|w1 w2 w3 Hs _ IH]; [done|]. intros H0. by apply IH, (SInv_step w1).
Qed.

(** ** Properties *)

(** C16: the directory is sound. In every state the server reaches, whatever peers connect, leave
    and reconnect and whatever the rest of the tracker does to the registry: the key that
    [PeerPubkey] answers for an identity is the key of a certificate with which the peer of a
    live connection completed its handshake, and the identity is the hash of that
    certificate's SPKI; a push to an identity goes to a live connection of that identity and
    only while the server runs; and a seeder that is in the registry is connected. *)
Theorem server_directory_sound n reg w id :
  match reg with Some r => New n = Ok r | None => True end →
  rtc server_step (server_start reg) w →
  (∀ pub, PeerPubkey id (sw_server w) = Some pub →
     ∃ p cert, live (sw_server w) id p ∧ sw_cert w !! p = Some cert ∧
       ct_PublicKey cert = Some pub ∧ sha256 (ct_RawSubjectPublicKeyInfo cert) = id) ∧
  (∀ p, PushTo id (sw_server w) = Some p →
     sv_running (sw_server w) = true ∧ sv_stopped (sw_server w) = false ∧ live (sw_server w) id p) ∧
  (∀ r rec, sv_registry (sw_server w) = Some r → Get id r = Some rec →
     ∃ p, live (sw_server w) id p).
Proof.
  intros Hn Hr. apply (SInv_reachable n) in Hr as HI; [|done]. destruct HI as [_ H2 H3 H4].
  split_and!.
  - intros pub Hp. unfold PeerPubkey in Hp.
    destruct (sv_connsByPeer _ !! id) as [p|] eqn:Ed; [|done].
    apply fmap_Some in Hp as (c & Hc & ->). apply H3 in Ed as Hl. destruct (H2 _ _ Hc) as (cert & Hcert & Hid & Hpub).
    exists p, cert. split_and!; [done..|]. destruct Hl as [_ (c' & Hc' & <-)].
    rewrite Hc in Hc'. injection Hc' as <-. unfold SPKIToIdentityID in Hid. case_match; [done|].
    by injection Hid.
  - intros p Hp. unfold PushTo in Hp. destruct (sv_running _) eqn:E1, (sv_stopped _) eqn:E2; try done.
    split_and!; [done..|]. by apply H3.
  - intros r rec Hreg Hg. destruct (H4 r Hreg) as (m & Hm & Hc). apply Hc.
    rewrite (rr_get _ _ Hm) in Hg. by eexists.
Qed.

(** A peer that reconnects before its old connection is torn down is lost: the deferred part
    of the old [serveConn] deletes the directory entry and the registry record by identity,
    and so those of the new connection. It serves on, but no push reaches it and its key is
    not found, until it reconnects. *)
Lemma stale_teardown_unlists cert r1 r2 n1 n2 s p1 s1 p2 s2 id reg m :
  SPKIToIdentityID cert = Some id →
  serveConn_start [cert] r1 n1 s = (Ok p1, s1) → serveConn_start [cert] r2 n2 s1 = (Ok p2, s2) →
  sv_registry s = Some reg → reg_rel reg m →
  let s3 := serveConn_exit p1 s2 in
  live s3 id p2 ∧ cn_closed <$> sv_heap s3 !! p2 = Some false ∧
  PushTo id s3 = None ∧ PeerPubkey id s3 = None ∧
  ∃ reg', sv_registry s3 = Some reg' ∧ Get id reg' = None.
Proof.
  intros Hid H1 H2 Hreg Hm. unfold serveConn_start in H1, H2. rewrite Hid in H1, H2.
  destruct (ct_PublicKey cert) as [pub|]; [|done]. destruct r1 as [a1|], r2 as [a2|]; try done.
  injection H1 as <- <-. injection H2 as <- <-. cbn zeta. unfold serveConn_exit.
  set (c1 := newConnection id pub a1). set (c2 := newConnection id pub a2).
  assert (sv_heap (add_conn c2 n2 (add_conn c1 n1 s)) !! sv_next s = Some c1) as ->.
  { simpl. rewrite lookup_insert_ne by lia. by rewrite lookup_insert_eq. }
  assert (sv_next s ≠ Pos.succ (sv_next s)) as Hne by lia.
  split_and!; simpl.
  - split; simpl; [set_solver|]. exists c2. by rewrite lookup_insert_ne, lookup_insert_eq by done.
  - by rewrite lookup_insert_ne, lookup_insert_eq by done.
  - unfold PushTo. simpl. by rewrite lookup_delete_eq; destruct (_ || _).
  - unfold PeerPubkey. simpl. by rewrite lookup_delete_eq.
  - rewrite Hreg. simpl. eexists. split; [done|].
    pose proof (run_all_refines
      [OpRegister (connected_record id a1 n1); OpRegister (connected_record id a2 n2); OpDeregister id]
      reg m Hm) as [_ Hr].
    rewrite (rr_get _ _ Hr). simpl. by rewrite lookup_delete_eq.
Qed.

(** A reconnect forgets the load of a seeder, and what it advertised. *)
Lemma reconnect_resets_load cert addr now s p s' id reg m :
  SPKIToIdentityID cert = Some id → serveConn_start [cert] (Some addr) now s = (Ok p, s') →
  sv_registry s = Some reg → reg_rel reg m →
  ∃ reg', sv_registry s' = Some reg' ∧ Get id reg' = Some (connected_record id addr now).
Proof.
  intros Hid H1 Hreg Hm. unfold serveConn_start in H1. rewrite Hid in H1.
  destruct (ct_PublicKey cert) as [pub|]; [|done]. injection H1 as <- <-. simpl. rewrite Hreg.
  eexists. split; [done|].
  destruct (run_reg_op_refines (OpRegister (connected_record id addr now)) reg m Hm) as [_ Hr].
  rewrite (rr_get _ _ Hr). simpl. by rewrite lookup_insert_eq.
Qed.

(** ** Heartbeats *)

Definition beat (peerID : bytes) (now : nat → Z) (reg : option Registry) (i : nat) : option Registry :=
  (λ g, snd (Heartbeat peerID (now i) g)) <$> reg.

Definition pong (p : HeartbeatPing) : HeartbeatPong := {| po_Seq := hp_Seq p |}.

Lemma heartbeat_loop_pongs `{CodecLaws HeartbeatPing} `{Codec HeartbeatPong} pings peerID now max t t' :
  write_frames pings max t = (Ok tt, t') → max < 2 ^ 32 →
  ∃ p, tx_data t' = tx_data t ++ p ∧ (length pings <= length p)%nat ∧ ∀ fuel i tx tx' reg,
    write_frames (pong <$> pings) max tx = (Ok tt, tx') → (length pings < fuel)%nat →
    heartbeat_loop fuel i peerID now max {| rx_data := p; rx_end := EOF |} tx reg =
      (tx', foldl (beat peerID now) reg (seq i (length pings))).
Proof.
  intros Hw H32. revert t Hw. induction pings as [|m ms IH]; intros t Hw.
  - apply gret_Ok in Hw as [_ ->]. exists []. split_and!; [by rewrite app_nil_r|simpl; lia|].
    intros [|fuel] i tx tx' reg Htx Hf; [simpl in Hf; lia|]. by apply gret_Ok in Htx as [_ ->].
  - apply gbind_Ok in Hw as ([] & t1 & Hw & Hws). apply IH in Hws as (q & Hq & Hl & Hrq).
    destruct (WriteFrame_Ok _ _ _ _ Hw) as (buf & Hm & Hb & Hd).
    pose proof (frame_header_len buf) as Hh. unfold blen in Hh.
    exists ((frame_header buf ++ buf) ++ q). split_and!.
    + by rewrite Hq, Hd, !app_assoc.
    + rewrite !length_app. simpl. lia.
    + intros [|fuel] i tx tx' reg Htx Hf; [lia|]. cbn [heartbeat_loop].
      rewrite <- app_assoc, (ReadFrame_frame buf q EOF max m)
        by (try lia; by apply Unmarshal_Deterministic).
      apply gbind_Ok in Htx as ([] & tx1 & Hpong & Htx). unfold pong in Hpong.
      rewrite Hpong. rewrite (Hrq _ _ _ _ _ Htx) by (simpl in Hf; lia). done.
Qed.

(** Every ping of a stream is answered by one pong with its number, in order, and reaches the
    registry. *)
Lemma heartbeats_answered `{CodecLaws HeartbeatPing} `{Codec HeartbeatPong} pings peerID now max t tx tx' reg :
  write_frames pings max open_tx = (Ok tt, t) → write_frames (pong <$> pings) max tx = (Ok tt, tx') →
  max < 2 ^ 32 →
  runHeartbeat peerID now max (rx_of t) tx reg = (tx', foldl (beat peerID now) reg (seq 0 (length pings))).
Proof.
  intros Hw Htx H32. destruct (heartbeat_loop_pongs pings peerID now max _ _ Hw H32) as (p & Hp & Hl & Hr).
  unfold runHeartbeat, rx_of. rewrite Hp. cbn [tx_data open_tx rx_data app].
  apply Hr; [done|lia].
Qed.
End server.

(** ** A run *)

Definition witness_cert : Certificate := {|
  ct_RawSubjectPublicKeyInfo := MarshalPKIXPublicKey (replicate 32 Byte.x21);
  ct_PublicKey := Some (replicate 32 Byte.x21) |}.

Definition witness_peer : bytes := toy_hash (MarshalPKIXPublicKey (replicate 32 Byte.x21)).

Definition witness_registry : Registry := {| shards := replicate 4 ∅ |}.

Definition witness_world : SWorld :=
  let s := with_running (@NewServer (Some witness_registry)) in
  {| sw_server := match @serveConn_start ToyCrypto [witness_cert] (Some zeroAddrPort) (5 * Second) s with
                  | (_, s') => s' end;
     sw_cert := {[ 1%positive := witness_cert ]} |}.

Lemma server_directory_sound_witness :
  PeerPubkey witness_peer (sw_server witness_world) = Some (replicate 32 Byte.x21) ∧
  PushTo witness_peer (sw_server witness_world) = Some 1%positive ∧
  (∃ p cert, live (sw_server witness_world) witness_peer p ∧ sw_cert witness_world !! p = Some cert ∧
     ct_PublicKey cert = Some (replicate 32 Byte.x21) ∧
     toy_hash (ct_RawSubjectPublicKeyInfo cert) = witness_peer).
Proof.
  assert (rtc (@server_step ToyCrypto) (server_start (Some witness_registry)) witness_world) as Hr.
  { eapply rtc_l; [by apply step_run|]. eapply rtc_l; [|apply rtc_refl].
    by apply (@step_accept ToyCrypto witness_cert (Some zeroAddrPort) (5 * Second)). }
  assert (PeerPubkey witness_peer (sw_server witness_world) = Some (replicate 32 Byte.x21)) as Hp
    by (vm_compute; reflexivity).
  split; [exact Hp|]. split; [vm_compute; reflexivity|].
  destruct (@server_directory_sound ToyCrypto 4 (Some witness_registry) witness_world witness_peer) as (H1 & _ & _);
    [reflexivity|exact Hr|]. apply H1, Hp.
Defined.
