(* ===== verification/TrackerClient.v ===== *)
(** plugin/internal/trackerclient: configuration, calls, pushes and the balance cache.

    A call opens a stream, writes a request and reads a response. What the tracker does with
    the stream is an argument, [exchange]: from the bytes it is sent to the stream it answers
    with, on a state of its own. The decoders of requests are the tracker's ([ApiWire]); the
    plugin's side of each message is [ClientWire]. Method values, logging and metrics are left
    out. *)
From S2P Require Import Seeder Consumer.
From S2P Require Import Prelude Proto Signing Entry FedProto Settlement Api Frame Server.
From Stdlib Require Import Floats.SpecFloat.

(** ** Errors *)

Inductive Sentinel := SNoCapacity | SFrozen | SUnauthenticated | SInvalidResponse.

Inductive ClientErr :=
| ErrClosed | ErrContext | ErrConnectionLost | ErrOpenStream | ErrMarshalRequest
| ErrValidateRequest (msg : string) | ErrWriteRequest (e : FrameErr) | ErrReadResponse (e : FrameErr)
| ErrInvalidResponse (msg : string)
| ErrTracker (s : option Sentinel) (code msg : string)
| ErrBootstrapPeerListBadSig (msg : string) | ErrBootstrapPeerListExpired | ErrBootstrapIssuerMismatch.

(** [errors.Is(err, ErrInvalidResponse)] *)
Definition is_InvalidResponse (e : ClientErr) : bool :=
  match e with ErrInvalidResponse _ | ErrTracker (Some SInvalidResponse) _ _ => true | _ => false end.

Definition statusToErr (status : RpcStatus) (e : option RpcError) : option ClientErr :=
  match status with
  | RPC_STATUS_OK => None
  | _ =>
    let code := match e with Some e => re_Code e | None => "" end in
    let msg := match e with Some e => re_Message e | None => "" end in
    Some (ErrTracker (match status with
                      | RPC_STATUS_NO_CAPACITY => Some SNoCapacity
                      | RPC_STATUS_FROZEN => Some SFrozen
                      | RPC_STATUS_UNAUTHENTICATED => Some SUnauthenticated
                      | RPC_STATUS_INVALID => Some SInvalidResponse
                      | _ => None
                      end) code msg)
  end.

(** ** Configuration *)

Record TrackerEndpoint := { ep_Addr : string; ep_IdentityHash : bytes; ep_Region : string }.

#[global] Instance TrackerEndpoint_eq_dec : EqDecision TrackerEndpoint.
Proof. solve_decision. Defined.

(** The fields that are checked or have defaults; [tc_Identity] is whether one is set. *)
Record ClientConfig := {
  tc_Endpoints : list TrackerEndpoint; tc_Identity : bool;
  tc_DialTimeout : Z; tc_HeartbeatPeriod : Z; tc_HeartbeatMisses : Z;
  tc_BalanceTTL : Z; tc_BalanceRefreshHeadroom : Z; tc_BackoffBase : Z; tc_BackoffMax : Z;
  tc_MaxFrameSize : Z; tc_RerouteEnabled : bool
}.

Definition Millisecond : Z := 1000000.
Definition or_default (z d : Z) : Z := if z =? 0 then d else z.

Definition withDefaults (c : ClientConfig) : ClientConfig := {|
  tc_Endpoints := tc_Endpoints c; tc_Identity := tc_Identity c;
  tc_DialTimeout := or_default (tc_DialTimeout c) (5 * Second);
  tc_HeartbeatPeriod := or_default (tc_HeartbeatPeriod c) (15 * Second);
  tc_HeartbeatMisses := or_default (tc_HeartbeatMisses c) 3;
  tc_BalanceTTL := or_default (tc_BalanceTTL c) (600 * Second);
  tc_BalanceRefreshHeadroom := or_default (tc_BalanceRefreshHeadroom c) (120 * Second);
  tc_BackoffBase := or_default (tc_BackoffBase c) (200 * Millisecond);
  tc_BackoffMax := or_default (tc_BackoffMax c) (30 * Second);
  tc_MaxFrameSize := or_default (tc_MaxFrameSize c) (Z.shiftl 1 20);
  tc_RerouteEnabled := tc_RerouteEnabled c |}.

Inductive ConfigErr := ErrInvalidEndpoint (msg : string) | ErrConfigInvalid (msg : string).

Fixpoint validate_endpoints (eps : list TrackerEndpoint) : option ConfigErr :=
  match eps with
  | [] => None
  | ep :: eps =>
    return_if bool_decide (ep_Addr ep = ""), ErrInvalidEndpoint "Addr empty" ;;
    return_if bool_decide (ep_IdentityHash ep = zero_bytes 32), ErrInvalidEndpoint "IdentityHash zero" ;;
    validate_endpoints eps
  end.

Definition Config_Validate (c : ClientConfig) : option ConfigErr :=
  return_if bool_decide (tc_Endpoints c = []), ErrInvalidEndpoint "at least one endpoint required" ;;
  match validate_endpoints (tc_Endpoints c) with
  | Some e => Some e
  | None =>
    return_if negb (tc_Identity c), ErrConfigInvalid "Identity required" ;;
    return_if tc_HeartbeatMisses c <? 1, ErrConfigInvalid "HeartbeatMisses must be >= 1" ;;
    return_if tc_BalanceTTL c <=? tc_BalanceRefreshHeadroom c,
      ErrConfigInvalid "BalanceRefreshHeadroom must be < BalanceTTL" ;;
    return_if tc_MaxFrameSize c <=? 0, ErrConfigInvalid "MaxFrameSize must be > 0" ;;
    return_if (tc_BackoffBase c <=? 0) || (tc_BackoffMax c <=? 0) || (tc_BackoffMax c <? tc_BackoffBase c),
      ErrConfigInvalid "bad backoff window" ;;
    None
  end.

(** ** Calls *)

(** [ci_conn] is why there is no connection; [ci_dead] whether the connection is found dead
    when something fails. *)
Record CallIo := { ci_conn : option ClientErr; ci_opens : bool; ci_room : option nat; ci_dead : bool }.

(** Package wire. *)
Definition MarshalRequest (method : RpcMethod) (payload : option bytes) : option RpcRequest :=
  match method with
  | RPC_METHOD_UNSPECIFIED => None
  | _ => match payload with
         | None => None
         | Some pb => Some {| rq_Method := method; rq_Payload := pb |}
         end
  end.

(** An empty payload leaves the destination as it is. *)
Definition UnmarshalResponse {R} (zero : R) (decode : bytes → option R) (resp : RpcResponse) : option R :=
  if blen (rs_Payload resp) =? 0 then Some zero else decode (rs_Payload resp).

(** What becomes of a response that was read. *)
Definition finish_call {R} (zero : R) (decode : bytes → option R) (resp : RpcResponse) : res ClientErr R :=
  match ValidateRPCResponse (Some resp) with
  | Some e => Err (ErrInvalidResponse e)
  | None =>
    match statusToErr (rs_Status resp) (rs_Error resp) with
    | Some e => Err e
    | None =>
      match UnmarshalResponse zero decode resp with
      | None => Err (ErrInvalidResponse "unmarshal payload")
      | Some r => Ok r
      end
    end
  end.

(** A request that is not written completely is not exchanged: the tracker drops a stream
    that ends within a frame ([cut_stream_dropped]). *)
Definition callUnary {A R} `{Codec RpcRequest} `{Codec RpcResponse} (io : CallIo) (maxFrame : Z)
    (exchange : bytes → A → Rx * A) (method : RpcMethod) (payload : option bytes)
    (zero : R) (decode : bytes → option R) : GoM A ClientErr R := λ a,
  match ci_conn io with
  | Some e => (Err e, a)
  | None =>
    if negb (ci_opens io) then (Err (if ci_dead io then ErrConnectionLost else ErrOpenStream), a) else
    match MarshalRequest method payload with
    | None => (Err ErrMarshalRequest, a)
    | Some req =>
      match ValidateRPCRequest (Some req) with
      | Some e => (Err (ErrValidateRequest e), a)
      | None =>
        match Wire_Write req maxFrame {| tx_data := []; tx_room := ci_room io |} with
        | (Err e, _) => (Err (ErrWriteRequest e), a)
        | (Ok _, t) =>
          let '(r, a) := exchange (tx_data t) a in
          match Wire_Read (M := RpcResponse) maxFrame r with
          | (Err e, _) => (Err (if ci_dead io then ErrConnectionLost else ErrReadResponse e), a)
          | (Ok resp, _) => (finish_call zero decode resp, a)
          end
        end
      end
    end
  end.

(** The plugin's side of the messages: [proto.Marshal] of the requests and [proto.Unmarshal]
    of the responses. A broker response may have no outcome set. *)
Class ClientWire := {
  cw_EnvelopeSigned : EnvelopeSigned → option bytes;
  cw_EnrollRequest : EnrollRequest → option bytes;
  cw_BalanceRequest : BalanceRequest → option bytes;
  cw_SettleRequest : SettleRequest → option bytes;
  cw_UsageReport : UsageReport → option bytes;
  cw_Advertisement : Api.Advertisement → option bytes;
  cw_TransferRequest : Api.TransferRequest → option bytes;
  cw_TurnRelayOpenRequest : TurnRelayOpenRequest → option bytes;
  cr_BrokerRequestResponse : bytes → option (option BrokerOutcome);
  cr_EnrollResponse : bytes → option EnrollResponse;
  cr_SignedBalanceSnapshot : bytes → option SignedBalanceSnapshot;
  cr_TransferProof : bytes → option Api.TransferProof;
  cr_StunAllocateResponse : bytes → option string;
  cr_TurnRelayOpenResponse : bytes → option TurnRelayOpenResponse;
  cr_BootstrapPeerList : bytes → option BootstrapPeerList;
  (** Messages without fields that matter: acknowledgements. *)
  cr_Ack : bytes → option ();
  (** [netip.ParseAddrPort] *)
  ParseAddrPort : string → option AddrPort
}.

Definition u8 (z : Z) : Z := z mod 256.

(** The sum-typed result of a broker response that is valid. *)
Definition broker_result (o : option BrokerOutcome) : res ClientErr Consumer.BrokerResult :=
  let none := {| Consumer.br_Outcome := Consumer.BrokerOutcomeUnspecified; Consumer.br_Assignment := None;
                 Consumer.br_NoCap := None; Consumer.br_Queued := None; Consumer.br_Rejected := None |} in
  match o with
  | Some (BrokerRequestResponse_SeederAssignment (Some a)) =>
      Ok {| Consumer.br_Outcome := Consumer.BrokerOutcomeAssignment;
            Consumer.br_Assignment := Some {|
              Consumer.sa_SeederAddr := row_str (sa_SeederAddr a);
              Consumer.sa_SeederPubkey := sa_SeederPubkey a;
              Consumer.sa_ReservationToken := sa_ReservationToken a |};
            Consumer.br_NoCap := None; Consumer.br_Queued := None; Consumer.br_Rejected := None |}
  | Some (BrokerRequestResponse_NoCapacity (Some n)) =>
      Ok {| Consumer.br_Outcome := Consumer.BrokerOutcomeNoCapacity; Consumer.br_Assignment := None;
            Consumer.br_NoCap := Some {| Consumer.nc_Reason := nc_Reason n |};
            Consumer.br_Queued := None; Consumer.br_Rejected := None |}
  | Some (BrokerRequestResponse_Queued (Some q)) =>
      Ok {| Consumer.br_Outcome := Consumer.BrokerOutcomeQueued; Consumer.br_Assignment := None;
            Consumer.br_NoCap := None;
            Consumer.br_Queued := Some {|
              Consumer.qr_RequestID := Seeder.into_array 16 (qd_RequestId q);
              Consumer.qr_PositionBand := u8 (qd_PositionBand q); Consumer.qr_EtaBand := u8 (qd_EtaBand q) |};
            Consumer.br_Rejected := None |}
  | Some (BrokerRequestResponse_Rejected (Some r)) =>
      Ok {| Consumer.br_Outcome := Consumer.BrokerOutcomeRejected; Consumer.br_Assignment := None;
            Consumer.br_NoCap := None; Consumer.br_Queued := None;
            Consumer.br_Rejected := Some {| Consumer.rr_Reason := u8 (rj_Reason r);
                                            Consumer.rr_RetryAfterS := rj_RetryAfterS r |} |}
  | _ => Err (ErrInvalidResponse "unknown outcome")
  end.

(** ** The methods of the client *)

Record TransferIntent := {
  ti_IdentityID : bytes; ti_Amount : Z; ti_DestRegion : string; ti_Nonce : bytes;
  ti_SourceTrackerID : bytes; ti_DestTrackerID : bytes; ti_Timestamp : Z
}.

Record RelayHandle := { rh_Endpoint : string; rh_Token : bytes }.

(** What a caller hands [Enroll]; the fingerprint and the nonce are arrays. *)
Record EnrollIntent := {
  ei_IdentityPubkey : bytes; ei_Role : Z; ei_AccountFingerprint : bytes; ei_Nonce : bytes; ei_Sig : bytes
}.

Record EnrollResult := {
  ex_IdentityID : bytes; ex_StarterGrantCredits : Z; ex_StarterGrantEntryBlob : bytes
}.

Section methods.
Context {A : Type} `{Crypto} `{Wire} `{ClientWire} `{Codec RpcRequest} `{Codec RpcResponse}.
Variables (io : CallIo) (maxFrame : Z) (exchange : bytes → A → Rx * A).

Notation call := (callUnary io maxFrame exchange).

Definition BrokerRequest (env : option EnvelopeSigned) : GoM A ClientErr Consumer.BrokerResult :=
  match env with
  | None => gfail (ErrInvalidResponse "nil envelope")
  | Some env =>
    let! resp := call RPC_METHOD_BROKER_REQUEST (cw_EnvelopeSigned env) None cr_BrokerRequestResponse in
    match ValidateBrokerRequestResponse (Some resp) with
    | Some e => gfail (ErrInvalidResponse e)
    | None => glift (broker_result resp)
    end
  end.

Definition Settle (preimageHash sig : bytes) : GoM A ClientErr () :=
  if negb (blen preimageHash =? 32) then gfail (ErrInvalidResponse "preimageHash len")
  else call RPC_METHOD_SETTLE
         (cw_SettleRequest {| st_PreimageHash := preimageHash; st_ConsumerSig := sig |}) () cr_Ack.

Definition no_snapshot : SignedBalanceSnapshot := {| sbs_Body := None; sbs_TrackerSig := [] |}.

Definition Balance (id : bytes) : GoM A ClientErr SignedBalanceSnapshot :=
  let! resp := call RPC_METHOD_BALANCE (cw_BalanceRequest {| bq_IdentityId := id |})
                 no_snapshot cr_SignedBalanceSnapshot in
  match sbs_Body resp with
  | None => gfail (ErrInvalidResponse "balance response missing body")
  | Some _ => gret resp
  end.

Definition Client_UsageReport (ur : option Seeder.UsageReport) : GoM A ClientErr () :=
  match ur with
  | None => gfail (ErrInvalidResponse "nil UsageReport")
  | Some ur =>
    call RPC_METHOD_USAGE_REPORT (cw_UsageReport {|
      rp_RequestId := Seeder.ur_RequestID ur; rp_InputTokens := Seeder.ur_InputTokens ur;
      rp_OutputTokens := Seeder.ur_OutputTokens ur; rp_Model := Seeder.ur_Model ur;
      rp_SeederSig := Seeder.ur_SeederSig ur |}) () cr_Ack
  end.

Definition Client_Advertise (ad : option Api.Advertisement) : GoM A ClientErr () :=
  match ad with
  | None => gfail (ErrInvalidResponse "nil Advertisement")
  | Some ad => call RPC_METHOD_ADVERTISE (cw_Advertisement ad) () cr_Ack
  end.

(** [priv] is the key of the identity. *)
Definition Client_TransferRequest (priv : bytes) (tr : option TransferIntent) : GoM A ClientErr Api.TransferProof :=
  match tr with
  | None => gfail (ErrInvalidResponse "nil TransferRequest")
  | Some tr =>
    do! gguard (bool_decide (ti_SourceTrackerID tr = zero_bytes 32))
          (ErrInvalidResponse "TransferRequest.SourceTrackerID zero") in
    do! gguard (bool_decide (ti_DestTrackerID tr = zero_bytes 32))
          (ErrInvalidResponse "TransferRequest.DestTrackerID zero") in
    let pub := ed25519_Public priv in
    match SignTransferProofRequest priv (Some {|
        tpr_SourceTrackerId := ti_SourceTrackerID tr; tpr_DestTrackerId := ti_DestTrackerID tr;
        tpr_IdentityId := ti_IdentityID tr; tpr_Amount := ti_Amount tr; tpr_Nonce := ti_Nonce tr;
        tpr_ConsumerSig := []; tpr_ConsumerPub := pub; tpr_Timestamp := ti_Timestamp tr |}) with
    | Err _ => gfail ErrMarshalRequest
    | Ok sig =>
      let! resp := call RPC_METHOD_TRANSFER_REQUEST (cw_TransferRequest {|
          trq_IdentityId := ti_IdentityID tr; trq_Amount := ti_Amount tr;
          trq_DestRegion := ti_DestRegion tr; trq_Nonce := ti_Nonce tr;
          trq_SourceTrackerId := ti_SourceTrackerID tr; trq_ConsumerSig := sig;
          trq_ConsumerPub := pub; trq_Timestamp := ti_Timestamp tr |})
        {| tp_SourceChainTipHash := []; tp_SourceSeq := 0; tp_TrackerSig := [] |} cr_TransferProof in
      gret {| tp_SourceChainTipHash := Seeder.into_array 32 (tp_SourceChainTipHash resp);
              tp_SourceSeq := tp_SourceSeq resp; tp_TrackerSig := tp_TrackerSig resp |}
    end
  end.

Definition StunAllocate : GoM A ClientErr AddrPort :=
  let! resp := call RPC_METHOD_STUN_ALLOCATE (Some []) "" cr_StunAllocateResponse in
  match ParseAddrPort resp with
  | None => gfail (ErrInvalidResponse "bad external_addr")
  | Some a => gret a
  end.

Definition TurnRelayOpen (sessionID : bytes) : GoM A ClientErr RelayHandle :=
  let! resp := call RPC_METHOD_TURN_RELAY_OPEN (cw_TurnRelayOpenRequest {| tro_SessionId := sessionID |})
                 {| tor_RelayEndpoint := ""; tor_Token := [] |} cr_TurnRelayOpenResponse in
  gret {| rh_Endpoint := tor_RelayEndpoint resp; rh_Token := tor_Token resp |}.

Definition Enroll (r : option EnrollIntent) : GoM A ClientErr EnrollResult :=
  match r with
  | None => gfail (ErrInvalidResponse "nil EnrollRequest")
  | Some r =>
    let! resp := call RPC_METHOD_ENROLL (cw_EnrollRequest {|
        er_IdentityPubkey := ei_IdentityPubkey r; er_Role := ei_Role r;
        er_AccountFingerprint := ei_AccountFingerprint r; er_Nonce := ei_Nonce r;
        er_ConsumerSig := ei_Sig r |})
      {| enr_IdentityId := []; enr_StarterGrantCredits := 0; enr_StarterGrantEntry := [] |} cr_EnrollResponse in
    gret {| ex_IdentityID := Seeder.into_array 32 (enr_IdentityId resp);
            ex_StarterGrantCredits := enr_StarterGrantCredits resp;
            ex_StarterGrantEntryBlob := enr_StarterGrantEntry resp |}
  end.

(** ** Bootstrap peers *)

(** What a signed list, or a gossiped one, tells about a tracker. *)
Record Peer := {
  pr_TrackerID : bytes; pr_Addr : string; pr_RegionHint : string; pr_HealthScore : spec_float;
  pr_LastSeen : Z
}.

(** [time.Unix(int64(s), 0)], in nanoseconds. A time counts its seconds from the year 1, in an
    int64; instants that do not fit in [UnixNano] are times all the same. *)
Definition unixToInternal : Z := 62135596800.
Definition unix_time (s : Z) : Z := (i64 (i64 s + unixToInternal) - unixToInternal) * Second.

Definition bootstrap_peer (p : option BootstrapPeer) : list Peer :=
  match p with
  | None => []
  | Some p => [{| pr_TrackerID := Seeder.into_array 32 (bp_TrackerId p); pr_Addr := bp_Addr p;
                  pr_RegionHint := bp_RegionHint p; pr_HealthScore := bp_HealthScore p;
                  pr_LastSeen := unix_time (bp_LastSeen p) |}]
  end.

Definition bootstrapPeerListSkewToleranceS : Z := 60.

(** [canonical] is [CanonicalBootstrapPeerListPreSig] of the encoder at hand. *)
Definition VerifyBootstrapPeerListSig (canonical : BootstrapPeerList → option bytes) (pub : bytes)
    (l : BootstrapPeerList) : option ClientErr :=
  return_if negb (blen pub =? PublicKeySize), ErrInvalidResponse "VerifyBootstrapPeerListSig: pub len" ;;
  return_if negb (blen (bl_Sig l) =? SignatureSize), ErrInvalidResponse "BootstrapPeerList.sig len" ;;
  match canonical l with
  | None => Some (ErrInvalidResponse "marshal")
  | Some cb =>
    return_if negb (ed25519_Verify pub cb (bl_Sig l)),
      ErrBootstrapPeerListBadSig "BootstrapPeerList signature invalid" ;;
    None
  end.

(** The checks of a list that was received, from a connection to [connID] with key [pub]. *)
Definition check_bootstrap_list (canonical : BootstrapPeerList → option bytes) (pub connID : bytes)
    (now : Z) (l : BootstrapPeerList) : option ClientErr :=
  match ValidateBootstrapPeerList (Some l) with
  | Some e => Some (ErrInvalidResponse e)
  | None =>
    return_if negb (bool_decide (bl_IssuerId l = connID)), ErrBootstrapIssuerMismatch ;;
    match VerifyBootstrapPeerListSig canonical pub l with
    | Some e => Some e
    | None =>
      return_if u64 (bl_ExpiresAt l + bootstrapPeerListSkewToleranceS) <? u64 (Unix now),
        ErrBootstrapPeerListExpired ;;
      None
    end
  end.

Definition no_list : BootstrapPeerList :=
  {| bl_IssuerId := []; bl_SignedAt := 0; bl_ExpiresAt := 0; bl_Peers := []; bl_Sig := [] |}.

(** [fetchBootstrapPeersWithExpiry]. *)
Definition fetchBootstrapPeers (canonical : BootstrapPeerList → option bytes) (pub connID : bytes) (now : Z)
    : GoM A ClientErr (list Peer * Z) :=
  let! resp := call RPC_METHOD_BOOTSTRAP_PEERS (Some []) no_list cr_BootstrapPeerList in
  match check_bootstrap_list canonical pub connID now resp with
  | Some e => gfail e
  | None => gret (bl_Peers resp ≫= bootstrap_peer, unix_time (bl_ExpiresAt resp))
  end.
End methods.

(** ** Pushes from the tracker *)

Section pushes.
Context {A : Type} `{FedWire} `{Codec OfferPush} `{Codec OfferDecision} `{Codec SettlementPush} `{Codec SettleAck}.

(** The handlers the configuration may hold; a refusal of an offer may come with an error. *)
Record Handlers := {
  hd_offer : option (Seeder.Offer → A → Seeder.OfferDecision * option string * A);
  hd_settlement : option (Consumer.SettlementRequest → A → option string * A);
  hd_peers : option (list Peer → A → A)
}.

Definition ErrNoHandler : string := "trackerclient: server pushed a stream but no handler is registered".

Definition push_offer (push : OfferPush) : Seeder.Offer := {|
  Seeder.of_ConsumerID := Seeder.into_array 32 (op_ConsumerId push);
  Seeder.of_EnvelopeHash := Seeder.into_array 32 (op_EnvelopeHash push);
  Seeder.of_Model := op_Model push; Seeder.of_MaxInputTokens := op_MaxInputTokens push;
  Seeder.of_MaxOutputTokens := op_MaxOutputTokens push;
  Seeder.of_ConsumerEphemeralPub := op_ConsumerEphemeralPub push;
  Seeder.of_RequestID := Seeder.into_array 16 (op_RequestId push) |}.

Definition offer_answer (d : Seeder.OfferDecision) (err : option string) : OfferDecision :=
  if Seeder.dc_Accept d then
    {| pd_Accept := true; pd_EphemeralPubkey := Seeder.dc_EphemeralPubkey d; pd_RejectReason := "" |}
  else {| pd_Accept := false; pd_EphemeralPubkey := [];
          pd_RejectReason := match err with Some e => e | None => Seeder.dc_RejectReason d end |}.

Definition handleOffer (h : Seeder.Offer → A → Seeder.OfferDecision * option string * A) (maxFrame : Z)
    (r : Rx) (t : Tx) (a : A) : Tx * A :=
  match Wire_Read (M := OfferPush) maxFrame r with
  | (Err e, _) =>
    if is_EOF e then (t, a)
    else (snd (Wire_Write (rejected "trackerclient: invalid push shape") maxFrame t), a)
  | (Ok push, _) =>
    match ValidateOfferPush (Some push) with
    | Some e => (snd (Wire_Write (rejected e) maxFrame t), a)
    | None =>
      let '(d, err, a) := h (push_offer push) a in
      (snd (Wire_Write (offer_answer d err) maxFrame t), a)
    end
  end.

Definition handleSettlement (h : option (Consumer.SettlementRequest → A → option string * A)) (maxFrame : Z)
    (r : Rx) (t : Tx) (a : A) : Tx * A :=
  match Wire_Read (M := SettlementPush) maxFrame r with
  | (Err _, _) => (t, a)
  | (Ok push, _) =>
    match ValidateSettlementPush (Some push) with
    | Some _ => (t, a)
    | None =>
      match h with
      | None => (t, a)
      | Some h =>
        match h {| Consumer.sr_PreimageHash := Seeder.into_array 32 (sp_PreimageHash push);
                   Consumer.sr_PreimageBody := sp_PreimageBody push |} a with
        | (Some _, a) => (t, a)
        | (None, a) => (snd (Wire_Write settleAck maxFrame t), a)
        end
      end
    end
  end.

Definition exchange_peer (p : KnownPeerMsg) : Peer := {|
  pr_TrackerID := Seeder.into_array 32 (km_TrackerId p); pr_Addr := km_Addr p;
  pr_RegionHint := km_RegionHint p; pr_HealthScore := km_HealthScore p;
  pr_LastSeen := unix_time (km_LastSeen p) |}.

Definition handlePeerExchange (h : option (list Peer → A → A)) (maxFrame : Z) (r : Rx) (a : A) : A :=
  match Wire_Read (M := Envelope) maxFrame r with
  | (Err _, _) => a
  | (Ok env, _) =>
    match ValidateEnvelope (Some env) with
    | Some _ => a
    | None =>
      if negb (bool_decide (fe_Kind env = KIND_PEER_EXCHANGE)) then a else
      match Unmarshal (M := PeerExchange) (fe_Payload env) with
      | None => a
      | Some msg =>
        match ValidatePeerExchange (Some msg), h with
        | Some _, _ | _, None => a
        | None, Some h => h (exchange_peer <$> px_Peers msg) a
        end
      end
    end
  end.

(** [dispatchPush]: what the client writes on the stream before it closes it. *)
Definition dispatchPush (hs : Handlers) (maxFrame : Z) (r : Rx) (t : Tx) (a : A) : Tx * A :=
  match rx_data r with
  | [] => (t, a)
  | tag :: data =>
    let r := {| rx_data := data; rx_end := rx_end r |} in
    match Z_of_byte tag with
    | 1 =>
      match hd_offer hs with
      | None => (snd (Wire_Write (rejected ErrNoHandler) maxFrame t), a)
      | Some h => handleOffer h maxFrame r t a
      end
    | 2 => handleSettlement (hd_settlement hs) maxFrame r t a
    | 3 => (t, handlePeerExchange (hd_peers hs) maxFrame r a)
    | _ => (t, a)
    end
  end.
End pushes.
#[global] Arguments Handlers : clear implicits.

(** ** The balance cache *)

Definition Cache : Type := gmap bytes SignedBalanceSnapshot.

Definition expires (snap : SignedBalanceSnapshot) : option Z :=
  (λ b, unix_time (bs_ExpiresAt b)) <$> sbs_Body snap.

(** A snapshot that will not have expired in [headroom]. *)
Definition fresh (headroom now : Z) (snap : SignedBalanceSnapshot) : bool :=
  match expires snap with Some t => now + headroom <=? t | None => false end.

Definition lookupFresh (headroom now : Z) (id : bytes) (snaps : Cache) : option SignedBalanceSnapshot :=
  match snaps !! id with
  | None => None
  | Some snap => if fresh headroom now snap then Some snap else None
  end.

(** The function that singleflight runs at most once at a time for an identity. [fn] may be
    arbitrarily slow, and meanwhile others may change the cache ([fn] is on the whole state). *)
Definition flight {A} (headroom now : Z) (id : bytes)
    (fn : bytes → GoM (Cache * A) ClientErr SignedBalanceSnapshot)
    : GoM (Cache * A) ClientErr SignedBalanceSnapshot := λ s,
  match lookupFresh headroom now id (fst s) with
  | Some snap => (Ok snap, s)
  | None =>
    match fn id s with
    | (Err e, s) => (Err e, s)
    | (Ok snap, s) => (Ok snap, (<[id := snap]> (fst s), snd s))
    end
  end.

(** [joined] is the result of another caller's flight for the identity, if this call waits for
    one; [other] what happened between the two looks at the cache. *)
Definition Cache_Get {A} (headroom now now' : Z) (id : bytes) (other : Cache * A → Cache * A)
    (joined : option (res ClientErr SignedBalanceSnapshot))
    (fn : bytes → GoM (Cache * A) ClientErr SignedBalanceSnapshot)
    : GoM (Cache * A) ClientErr SignedBalanceSnapshot := λ s,
  match lookupFresh headroom now id (fst s) with
  | Some snap => (Ok snap, s)
  | None =>
    match joined with
    | Some r => (r, other s)
    | None => flight headroom now' id fn (other s)
    end
  end.

Definition invalidate : Cache := ∅.
