(* ===== verification/RpcSpec.v ===== *)
(** Client and tracker together: what a call does, what a push reaches, and the list of
    bootstrap peers.

    The stream between them loses bytes at worst: the tracker reads what the client wrote and
    then the end of the stream, and the client reads some prefix of what the tracker wrote and
    then the end or an error ([link]). *)
From S2P Require Import Seeder Consumer Broker AdmQueue.
From S2P Require Import Prelude Proto Signing FedProto Settlement Api Frame Server TrackerClient.

(** ** Calls *)

Record Link := { lk_delivered : nat; lk_end : IoErr }.

Definition link_rx (l : Link) (t : Tx) : Rx :=
  {| rx_data := take (lk_delivered l) (tx_data t); rx_end := lk_end l |}.

Section calls.
Context {A R : Type} `{CodecLaws RpcRequest} `{!Codec RpcResponse, !CodecLaws RpcResponse}.
Variables (dispatch : RpcRequest → A → option RpcResponse * A) (text : FrameErr → string).

(** The tracker's end of a request stream. *)
Definition server_exchange (maxS : Z) (l : Link) (sent : bytes) (a : A) : Rx * A :=
  let '(t, a) := handleRPCStream dispatch text maxS {| rx_data := sent; rx_end := EOF |} open_tx a in
  (link_rx l t, a).

(** What the tracker answers: a panic is an internal error. *)
Definition answered (out : option RpcResponse) : RpcResponse :=
  match out with
  | Some resp => resp
  | None => {| rs_Status := RPC_STATUS_INTERNAL; rs_Payload := [];
               rs_Error := Some {| re_Code := "PANIC"; re_Message := "handler panicked" |} |}
  end.

(** A stream that ends within the request frame is dropped, so a request that was not written
    completely has no effect. *)
Lemma cut_stream_dropped maxS req buf k a t :
  DeterministicMarshal (M := RpcRequest) req = Some buf → blen buf <= maxS → blen buf < 2 ^ 32 →
  (k < 4 + length buf)%nat →
  handleRPCStream dispatch text maxS
    {| rx_data := take k (frame_header buf ++ buf); rx_end := EOF |} t a = (t, a).
Proof.
  intros Hm Hl H32 Hk. unfold handleRPCStream.
  destruct (ReadFrame_cut (M := RpcRequest) buf maxS k EOF) as (e & r & -> & He); [lia..|].
  by rewrite He.
Qed.

(** A request that is complete is dispatched, once, unless it is too large for the tracker,
    which says so. *)
Lemma server_reads maxS req buf t a :
  DeterministicMarshal (M := RpcRequest) req = Some buf → blen buf < 2 ^ 32 →
  handleRPCStream dispatch text maxS {| rx_data := frame_header buf ++ buf; rx_end := EOF |} t a =
    if maxS <? blen buf then
      (snd (WriteFrame {| rs_Status := RPC_STATUS_INVALID; rs_Payload := [];
              rs_Error := Some {| re_Code := "FRAME"; re_Message := text ErrFrameTooLarge |} |} maxS t), a)
    else (snd (WriteFrame (answered (fst (dispatch req a))) maxS t), snd (dispatch req a)).
Proof.
  intros Hm H32. unfold handleRPCStream. destruct (Z.ltb_spec maxS (blen buf)).
  - rewrite ReadFrame_header by done. by destruct (Z.ltb_spec maxS (blen buf)); [|lia].
  - pose proof (ReadFrame_frame buf [] EOF maxS req) as Hr. rewrite app_nil_r in Hr.
    rewrite Hr by (try lia; by apply Unmarshal_Deterministic).
    by destruct (dispatch req a) as [[resp|] a'].
Qed.

(** What the client reads of a response: an error, or the response. *)
Lemma client_reads maxC maxS l out :
  maxS < 2 ^ 32 →
  let r := fst (Wire_Read (M := RpcResponse) maxC (link_rx l (snd (WriteFrame out maxS open_tx)))) in
  (∃ e, r = Err e) ∨ r = Ok out.
Proof.
  intros H32. cbn zeta. unfold Wire_Read, link_rx.
  destruct (WriteFrame out maxS open_tx) as [[[]|e] t] eqn:Ew; cbn [snd].
  - apply WriteFrame_Ok in Ew as (buf & Hm & Hl & ->). cbn [tx_data open_tx app].
    destruct (ReadFrame_prefix (M := RpcResponse) buf maxC (lk_delivered l) (lk_end l)) as [He|(m & Hr & Hu)];
      [lia|by left|]. right. rewrite Hr. f_equal.
    apply Unmarshal_Deterministic in Hm. congruence.
  - left. assert (tx_data t = []) as ->.
    { unfold WriteFrame in Ew. destruct (DeterministicMarshal out) as [buf|]; [|by injection Ew as _ <-].
      unfold gbind, gguard, gfail, gret, gwrap, Write, open_tx in Ew. simpl in Ew.
      destruct (maxS <? blen buf); [by injection Ew as _ <-|done]. }
    rewrite take_nil.
    destruct (ReadFrame_short (M := RpcResponse) [] maxC (lk_end l)) as (e' & r & -> & _); [done|].
    by eexists.
Qed.


(** On a link that holds, with frames that fit, a call is one dispatch. *)
Lemma call_dispatches io maxC maxS l method payload (zero : R) decode (a : A) req buf out :
  ci_conn io = None → ci_opens io = true → ci_room io = None →
  MarshalRequest method payload = Some req → ValidateRPCRequest (Some req) = None →
  DeterministicMarshal req = Some buf → blen buf <= maxC → blen buf <= maxS →
  DeterministicMarshal (answered (fst (dispatch req a))) = Some out → blen out <= maxS → blen out <= maxC →
  maxC < 2 ^ 32 → (4 + length out <= lk_delivered l)%nat →
  callUnary io maxC (server_exchange maxS l) method payload zero decode a =
    (finish_call zero decode (answered (fst (dispatch req a))), snd (dispatch req a)).
Proof.
  intros Hc Ho Hr Hm Hv Hb Hl1 Hl2 Hout Hl3 Hl4 H32 Hk. unfold callUnary. rewrite Hc, Ho, Hm, Hv, Hr.
  cbn [negb]. unfold Wire_Write. rewrite (WriteFrame_open req buf) by done. cbn [tx_data app].
  unfold server_exchange. rewrite (server_reads maxS req buf) by (done || lia).
  destruct (Z.ltb_spec maxS (blen buf)); [lia|].
  unfold open_tx. rewrite (WriteFrame_open _ out) by done. unfold link_rx. cbn [snd tx_data app].
  pose proof (frame_header_len out) as Hh. unfold blen in Hh.
  rewrite take_ge by (rewrite length_app; lia).
  pose proof (ReadFrame_frame out [] (lk_end l) maxC (answered (fst (dispatch req a)))) as Hrd.
  rewrite app_nil_r in Hrd. unfold Wire_Read.
  by rewrite Hrd by (try lia; by apply Unmarshal_Deterministic).
Qed.
End calls.

(** ** Pushes *)

Section pushes.
Context {A : Type} `{FedWire} `{CodecLaws OfferPush} `{!Codec OfferDecision, !CodecLaws OfferDecision}.
Context `{!Codec SettlementPush, !CodecLaws SettlementPush} `{!Codec SettleAck, !CodecLaws SettleAck}.
Variables (hs : Handlers A) (maxS maxC : Z).

(** The client's end of a pushed stream. *)
Definition client_end (sent : bytes) (a : A) : Tx * A :=
  dispatchPush hs maxC {| rx_data := sent; rx_end := EOF |} open_tx a.

(** A stream that opens and takes everything, to a client in state [a]. *)
Definition good_stream (a : A) : PushIo := {|
  pu_opens := true; pu_room := None; pu_ctxExpired := false; pu_late := false;
  pu_peer := λ sent, rx_of (fst (client_end sent a)) |}.

Lemma push_exchange_good {P R} `{Codec P} `{CodecLaws R} tag (push : P) buf (out : bytes) (r : R) a :
  DeterministicMarshal push = Some buf → blen buf <= maxS →
  tx_data (fst (client_end (tag :: frame_header buf ++ buf) a)) = frame_header out ++ out →
  DeterministicMarshal r = Some out → blen out <= maxS → maxS < 2 ^ 32 →
  push_exchange (good_stream a) tag push maxS = Ok r.
Proof.
  intros Hm Hl Ht Hr Ho H32. unfold push_exchange. cbn [good_stream pu_opens pu_room negb].
  unfold Write. cbn [tx_room tx_data app]. rewrite (WriteFrame_open push buf) by done.
  cbn [tx_data app good_stream pu_peer]. unfold rx_of. rewrite Ht.
  pose proof (ReadFrame_frame out [] EOF maxS r) as Hrd. rewrite app_nil_r in Hrd.
  by rewrite Hrd by (try lia; by apply Unmarshal_Deterministic).
Qed.

(** An offer reaches the seeder's handler once, and the tracker gets its answer. *)
Lemma offer_roundtrip h push buf out d err a a' :
  hd_offer hs = Some h → ValidateOfferPush (Some push) = None → h (push_offer push) a = (d, err, a') →
  DeterministicMarshal push = Some buf → blen buf <= maxS → blen buf <= maxC →
  DeterministicMarshal (offer_answer d err) = Some out → blen out <= maxC → blen out <= maxS →
  maxS < 2 ^ 32 →
  runOfferPush (good_stream a) push maxS = offer_answer d err ∧
  snd (client_end (PushTagOffer :: frame_header buf ++ buf) a) = a'.
Proof.
  intros Hh Hv Hd Hm Hl1 Hl2 Ho Hl3 Hl4 H32.
  assert (client_end (PushTagOffer :: frame_header buf ++ buf) a =
    ({| tx_data := frame_header out ++ out; tx_room := None |}, a')) as Hc.
  { unfold client_end, dispatchPush. cbn [rx_data]. change (Z_of_byte PushTagOffer) with 1. cbv iota.
    rewrite Hh. unfold handleOffer, Wire_Read. cbn [rx_end].
    pose proof (ReadFrame_frame buf [] EOF maxC push) as Hr. rewrite app_nil_r in Hr.
    rewrite Hr by (try lia; by apply Unmarshal_Deterministic). rewrite Hv, Hd.
    unfold Wire_Write, open_tx. by rewrite (WriteFrame_open _ out) by done. }
  split; [|by rewrite Hc]. unfold runOfferPush.
  by rewrite (push_exchange_good PushTagOffer push buf out (offer_answer d err) a) by (done || by rewrite Hc).
Qed.

(** A settlement push is acknowledged exactly when the consumer's handler does not refuse it. *)
Lemma settlement_push_roundtrip h push buf out a :
  hd_settlement hs = Some h → ValidateSettlementPush (Some push) = None →
  DeterministicMarshal push = Some buf → blen buf <= maxS → blen buf <= maxC →
  DeterministicMarshal settleAck = Some out → blen out <= maxC → blen out <= maxS → maxS < 2 ^ 32 →
  let '(refusal, a') := h {| Consumer.sr_PreimageHash := sp_PreimageHash push;
                             Consumer.sr_PreimageBody := sp_PreimageBody push |} a in
  runSettlementPush (good_stream a) push maxS = (match refusal with None => Some settleAck | Some _ => None end) ∧
  snd (client_end (PushTagSettlement :: frame_header buf ++ buf) a) = a'.
Proof.
  intros Hh Hv Hm Hl1 Hl2 Ho Hl3 Hl4 H32.
  assert (Seeder.into_array 32 (sp_PreimageHash push) = sp_PreimageHash push) as Hin.
  { unfold ValidateSettlementPush in Hv. destruct (Z.eqb_spec (blen (sp_PreimageHash push)) 32) as [E|]; [|done].
    unfold Seeder.into_array. apply take_app_length'. unfold blen in E. lia. }
  destruct (h _ a) as [refusal a'] eqn:Eh.
  assert (client_end (PushTagSettlement :: frame_header buf ++ buf) a =
    ({| tx_data := match refusal with None => frame_header out ++ out | Some _ => [] end; tx_room := None |}, a'))
    as Hc.
  { unfold client_end, dispatchPush. cbn [rx_data]. change (Z_of_byte PushTagSettlement) with 2. cbv iota.
    rewrite Hh. unfold handleSettlement, Wire_Read. cbn [rx_end].
    pose proof (ReadFrame_frame buf [] EOF maxC push) as Hr. rewrite app_nil_r in Hr.
    rewrite Hr by (try lia; by apply Unmarshal_Deterministic). rewrite Hv, Hin, Eh.
    destruct refusal; [done|]. unfold Wire_Write, open_tx. by rewrite (WriteFrame_open _ out) by done. }
  split; [|by rewrite Hc]. unfold runSettlementPush. destruct refusal.
  - unfold push_exchange. cbn [good_stream pu_opens pu_room negb]. unfold Write. cbn [tx_room tx_data app].
    rewrite (WriteFrame_open push buf) by done. cbn [tx_data app good_stream pu_peer]. unfold rx_of.
    rewrite Hc. cbn [fst tx_data]. by destruct (ReadFrame_short (M := SettleAck) [] maxS EOF) as (e & r & -> & _).
  - by rewrite (push_exchange_good PushTagSettlement push buf out settleAck a) by (done || by rewrite Hc).
Qed.
End pushes.

(** ** An offer from the broker to the seeder's coordinator *)

Section offers.
Context `{Crypto} `{FedWire} `{CodecLaws OfferPush} `{!Codec OfferDecision, !CodecLaws OfferDecision}.
Context `{!Codec SettlementPush} `{!Codec SettleAck}.
Variables (cfg : Seeder.SeederConfig) (zone : Z → Z) (maxS maxC : Z).

(** The seeder's coordinator as the client's handler; it never returns an error. *)
Definition seeder_handlers (cancelled : bool) (now : Z) (gen : option (bytes * bytes)) (bindOK : bool)
    : Handlers Seeder.SState := {|
  hd_offer := Some (λ o s,
    let '(d, s) := Seeder.HandleOffer cfg zone cancelled now gen bindOK o s in (d, None, s));
  hd_settlement := None; hd_peers := None |}.

(** What the broker makes of the decision on the channel. *)
Definition broker_event (d : OfferDecision) : Broker.OfferEvent :=
  Broker.DecisionReceived (Some {| Broker.od_Accept := pd_Accept d;
                                   Broker.od_EphemeralPubkey := pd_EphemeralPubkey d |}).

Lemma offer_push_arrays body envHash reqID :
  ValidateOfferPush (Some (Broker.offerPush body envHash reqID)) = None → blen reqID = 16 →
  push_offer (Broker.offerPush body envHash reqID) = {|
    Seeder.of_ConsumerID := env_ConsumerId body; Seeder.of_EnvelopeHash := envHash;
    Seeder.of_Model := env_Model body; Seeder.of_MaxInputTokens := u32 (env_MaxInputTokens body);
    Seeder.of_MaxOutputTokens := u32 (env_MaxOutputTokens body);
    Seeder.of_ConsumerEphemeralPub := env_ConsumerEphemeralPub body; Seeder.of_RequestID := reqID |}.
Proof.
  intros Hv Hr. unfold ValidateOfferPush, Broker.offerPush in Hv. cbn in Hv.
  destruct (Z.eqb_spec (blen (env_ConsumerId body)) 32) as [Hc|]; [|done].
  destruct (Z.eqb_spec (blen envHash) 32) as [He|]; [|done].
  unfold push_offer, Broker.offerPush, Seeder.into_array, blen in *. cbn.
  rewrite !take_app_length' by lia. done.
Qed.

(** C15: an offer means the same at both ends. On a stream that holds, the broker takes an offer
    for accepted exactly with the key the seeder has drawn for it, and only if the seeder is
    available and advertises the model; then the seeder holds a reservation under the hash of
    the envelope with the request's id, consumer and model and with the consumer's tunnel key,
    and its acceptor is bound to the pair of keys. And if the broker takes it for rejected,
    the seeder holds no reservation it did not hold before. *)
Theorem offer_means_reservation cancelled now gen bindOK (s : Seeder.SState) seeder body envHash reqID buf out :
  let push := Broker.offerPush body envHash reqID in
  let answer := offer_answer
    (fst (Seeder.HandleOffer cfg zone cancelled now gen bindOK (push_offer push) s)) None in
  let hs := seeder_handlers cancelled now gen bindOK in
  ValidateOfferPush (Some push) = None → blen reqID = 16 →
  DeterministicMarshal push = Some buf → blen buf <= maxS → blen buf <= maxC →
  DeterministicMarshal answer = Some out → blen out <= maxC → blen out <= maxS → maxS < 2 ^ 32 →
  let s' := snd (client_end hs maxC (PushTagOffer :: frame_header buf ++ buf) s) in
  match Broker.runOffer (λ _ p, broker_event (runOfferPush (good_stream hs maxC s) p maxS))
          seeder body envHash reqID with
  | Broker.OfferAccepted pub => ∃ priv res,
      gen = Some (pub, priv) ∧ Seeder.availableLocked cfg zone now s = true ∧
      env_Model body ∈ Seeder.sc_Models cfg ∧
      Seeder.ss_reservations s' = <[hex_EncodeToString envHash := res]> (Seeder.ss_reservations s) ∧
      Seeder.rv_requestID res = reqID ∧ Seeder.rv_consumerID res = env_ConsumerId body ∧
      Seeder.rv_model res = env_Model body ∧ Seeder.rv_envelopeHash res = envHash ∧
      Seeder.rv_ephemeralPub res = pub ∧ Seeder.rv_ephemeralPriv res = priv ∧
      Seeder.rv_consumerEphemeralPub res = env_ConsumerEphemeralPub body ∧
      Seeder.ss_bound s' = Some (priv, env_ConsumerEphemeralPub body)
  | Broker.OfferRejected => Seeder.ss_reservations s' = Seeder.ss_reservations s
  | _ => False
  end.
Proof.
  cbn zeta. intros Hv Hid Hm Hl1 Hl2 Ho Hl3 Hl4 H32.
  set (d := Seeder.HandleOffer cfg zone cancelled now gen bindOK
              (push_offer (Broker.offerPush body envHash reqID)) s) in *.
  destruct (offer_roundtrip (seeder_handlers cancelled now gen bindOK) maxS maxC
    (λ o s, let '(d, s) := Seeder.HandleOffer cfg zone cancelled now gen bindOK o s in (d, None, s))
    (Broker.offerPush body envHash reqID) buf out (fst d) None s (snd d)) as [Hr Hs]; try done.
  { unfold d. by destruct (Seeder.HandleOffer _ _ _ _ _ _ _ _). }
  rewrite Hs. unfold Broker.runOffer. rewrite Hr. unfold broker_event. clear Hr Hs Ho.
  unfold d. rewrite offer_push_arrays by done. unfold Seeder.HandleOffer. cbn [Seeder.of_Model Seeder.of_ConsumerEphemeralPub].
  destruct cancelled; [done|]. destruct (Seeder.availableLocked cfg zone now s) eqn:Ea; [|done]. cbn [negb].
  case_bool_decide as Hmod; [|done]. cbn [negb].
  destruct (negb _); [unfold Seeder.incOfferRejected; by destruct (Seeder.sc_Metrics cfg)|].
  destruct gen as [[pub priv]|]; [|done].
  destruct bindOK; [|unfold Seeder.incOfferRejected; by destruct (Seeder.sc_Metrics cfg)].
  cbn. eexists priv, _. split_and!; done.
Qed.

(** An answer that is lost on the way, or late, leaves a reservation that the broker knows
    nothing of. (Two of them, and the seeder serves nobody: [Seeder.acceptOne_stuck].) *)
Lemma lost_answer_leaves_reservation now pub priv (s : Seeder.SState) seeder body envHash reqID buf :
  let push := Broker.offerPush body envHash reqID in
  let hs := seeder_handlers false now (Some (pub, priv)) true in
  ValidateOfferPush (Some push) = None → blen reqID = 16 →
  DeterministicMarshal push = Some buf → blen buf <= maxS → blen buf <= maxC → maxC < 2 ^ 32 →
  Seeder.availableLocked cfg zone now s = true → env_Model body ∈ Seeder.sc_Models cfg →
  blen (env_ConsumerEphemeralPub body) = PublicKeySize →
  let lost := {| pu_opens := true; pu_room := None; pu_ctxExpired := false; pu_late := true;
                 pu_peer := λ _, {| rx_data := []; rx_end := ErrIo |} |} in
  Broker.runOffer (λ _ p, broker_event (runOfferPush lost p maxS)) seeder body envHash reqID =
    Broker.OfferRejected ∧
  is_Some (Seeder.ss_reservations (snd (client_end hs maxC (PushTagOffer :: frame_header buf ++ buf) s))
             !! hex_EncodeToString envHash).
Proof.
  cbn zeta. intros Hv Hid Hm Hl1 Hl2 H32 Ha Hmod Hk. split.
  - unfold Broker.runOffer, runOfferPush, push_exchange, Write. cbn [pu_opens pu_room negb tx_room tx_data app].
    rewrite (WriteFrame_open _ buf) by done. cbn [pu_peer].
    by destruct (ReadFrame_short (M := OfferDecision) [] maxS ErrIo) as (e & r & -> & _).
  - unfold client_end, dispatchPush. cbn [rx_data]. change (Z_of_byte PushTagOffer) with 1. cbv iota.
    cbn [seeder_handlers hd_offer]. unfold handleOffer, Wire_Read. cbn [rx_end].
    pose proof (ReadFrame_frame buf [] EOF maxC (Broker.offerPush body envHash reqID)) as Hr.
    rewrite app_nil_r in Hr. rewrite Hr by (try lia; by apply Unmarshal_Deterministic).
    rewrite Hv, offer_push_arrays by done. unfold Seeder.HandleOffer.
    cbn [Seeder.of_Model Seeder.of_ConsumerEphemeralPub Seeder.of_EnvelopeHash].
    rewrite Ha, bool_decide_eq_true_2, Hk by done. cbn. rewrite lookup_insert_eq. by eexists.
Qed.
End offers.

(** ** The list of bootstrap peers *)

Section bootstrap.
Context `{Crypto} `{ApiWire} `{ClientWire}.
Variable text : InternalCause → string.

(** The service as the tracker's composition root wires it: the issuer is the hash of the raw
    key of the tracker. *)
Definition bootstrapPeersAdapter (trackerKey trackerPub : bytes) (maxPeers ttlSeconds : Z)
    : BootstrapPeersService := {|
  bps_IssuerID := sha256 trackerPub; bps_Sign := λ canonical, Ok (ed25519_Sign trackerKey canonical);
  bps_MaxPeers := maxPeers; bps_TTL := i64 (ttlSeconds * Second) |}.

(** No list that the tracker serves passes the client's checks: the list names as its issuer
    the hash of the tracker's raw key, and the client compares the issuer with the identity of
    the connection, which is the hash of the key's SPKI. The two differ unless the hash
    collides. *)
Lemma bootstrap_list_refused key pub maxPeers ttl c payload a r a' now l :
  handleBootstrapPeers text (bootstrapPeersAdapter key pub maxPeers ttl) c payload a = (Ok r, a') →
  rs_Status (rp_Response r) = RPC_STATUS_OK →
  (∀ m x, marshal_BootstrapPeerList m = Some x → cr_BootstrapPeerList x = Some m) →
  cr_BootstrapPeerList (rs_Payload (rp_Response r)) = Some l →
  sha256 pub ≠ sha256 (MarshalPKIXPublicKey pub) →
  check_bootstrap_list CanonicalBootstrapPeerListPreSig pub (sha256 (MarshalPKIXPublicKey pub)) now l ≠ None.
Proof.
  intros Hh Hst Hlaw Hl Hne. unfold handleBootstrapPeers in Hh.
  apply gbind_Ok in Hh as (rows & a1 & Hr & Hh). apply gread_Ok in Hr as [_ ->].
  destruct rows as [rows|e]; [|apply gret_Ok in Hh as [-> _]; done].
  destruct (CanonicalBootstrapPeerListPreSig _) as [cb|]; [|done]. cbn [bps_Sign bootstrapPeersAdapter] in Hh.
  destruct (marshal_BootstrapPeerList _) as [x|] eqn:Em; [|done]. apply gret_Ok in Hh as [-> _].
  apply Hlaw in Em. cbn in Hl. rewrite Em in Hl. injection Hl as <-.
  unfold check_bootstrap_list. destruct (ValidateBootstrapPeerList _); [done|].
  rewrite bool_decide_eq_false_2 by exact Hne. done.
Qed.
End bootstrap.

(** A band or a reason of a response is cut to eight bits, though the validator only refuses
    zero: the comment "validated enum, max value 4" does not hold. *)
Lemma band_wraps rid :
  blen rid = 16 →
  let resp := Some (BrokerRequestResponse_Queued
    (Some {| qd_RequestId := rid; qd_PositionBand := 256; qd_EtaBand := 257 |})) in
  ValidateBrokerRequestResponse (Some resp) = None ∧
  ∃ res q, broker_result resp = Ok res ∧ Consumer.br_Queued res = Some q ∧
    Consumer.qr_PositionBand q = 0 ∧ Consumer.qr_EtaBand q = 1.
Proof.
  intros Hr. cbn zeta. split.
  - cbn. unfold ValidateQueued. cbn. by rewrite Hr.
  - eexists _, _. split; [reflexivity|]. by split.
Qed.

(** ** The balance cache *)

Lemma lookupFresh_Some headroom now id c snap :
  lookupFresh headroom now id c = Some snap ↔ c !! id = Some snap ∧ fresh headroom now snap = true.
Proof.
  unfold lookupFresh. destruct (c !! id) as [x|]; [|by split; [|intros []]].
  destruct (fresh headroom now x) eqn:E; split.
  - by intros [= ->].
  - by intros [[= ->] _].
  - done.
  - intros [[= ->] Hf]. congruence.
Qed.

(** A balance that is handed out was in the cache and will not expire in the headroom, or the
    tracker was asked for this identity's and it is now the cached one, or another caller's
    request for the same identity returned it. A failure caches nothing. *)
Lemma Cache_Get_sound {A} headroom now now' id other joined
    (fn : bytes → GoM (Cache * A) ClientErr SignedBalanceSnapshot) (s : Cache * A) :
  (∀ s, (fn id s).2.1 = s.1) →
  match Cache_Get headroom now now' id other joined fn s with
  | (Ok snap, s') =>
      (s' = s ∧ s.1 !! id = Some snap ∧ fresh headroom now snap = true) ∨
      (joined = Some (Ok snap) ∧ s' = other s) ∨
      (s' = other s ∧ (other s).1 !! id = Some snap ∧ fresh headroom now' snap = true) ∨
      (∃ a, fn id (other s) = (Ok snap, ((other s).1, a)) ∧ s' = (<[id := snap]> (other s).1, a))
  | (Err e, s') => s'.1 = (other s).1
  end.
Proof.
  intros Hfn. unfold Cache_Get, flight.
  destruct (lookupFresh headroom now id s.1) as [snap|] eqn:E.
  { left. by apply lookupFresh_Some in E. }
  destruct joined as [[snap|e]|]; [by right; left|done|].
  destruct (lookupFresh headroom now' id (other s).1) as [snap|] eqn:E'.
  { right; right; left. by apply lookupFresh_Some in E'. }
  specialize (Hfn (other s)). destruct (fn id (other s)) as [[snap|e] [m a]] eqn:Ef; cbn in Hfn; subst m.
  - right; right; right. by exists a.
  - done.
Qed.

(** ** Computable encoders, and runs *)

Definition method_row (m : RpcMethod) : bytes * bytes :=
  let '(t, v) := match m with
        | RPC_METHOD_UNSPECIFIED => (0, 0) | RPC_METHOD_ENROLL => (1, 0)
        | RPC_METHOD_BROKER_REQUEST => (2, 0) | RPC_METHOD_BALANCE => (3, 0)
        | RPC_METHOD_SETTLE => (4, 0) | RPC_METHOD_USAGE_REPORT => (5, 0)
        | RPC_METHOD_ADVERTISE => (6, 0) | RPC_METHOD_TRANSFER_REQUEST => (7, 0)
        | RPC_METHOD_STUN_ALLOCATE => (8, 0) | RPC_METHOD_TURN_RELAY_OPEN => (9, 0)
        | RPC_METHOD_BOOTSTRAP_PEERS => (10, 0) | RPC_METHOD_OTHER v => (11, v)
        end in (z_row t, z_row v).

Definition row_method (t v : bytes) : RpcMethod :=
  match row_z t with
  | 1 => RPC_METHOD_ENROLL | 2 => RPC_METHOD_BROKER_REQUEST | 3 => RPC_METHOD_BALANCE
  | 4 => RPC_METHOD_SETTLE | 5 => RPC_METHOD_USAGE_REPORT | 6 => RPC_METHOD_ADVERTISE
  | 7 => RPC_METHOD_TRANSFER_REQUEST | 8 => RPC_METHOD_STUN_ALLOCATE
  | 9 => RPC_METHOD_TURN_RELAY_OPEN | 10 => RPC_METHOD_BOOTSTRAP_PEERS
  | 11 => RPC_METHOD_OTHER (row_z v) | _ => RPC_METHOD_UNSPECIFIED
  end.

Lemma row_method_row m : row_method (method_row m).1 (method_row m).2 = m.
Proof. unfold row_method. destruct m; cbn [method_row fst snd]; by rewrite ?row_z_row. Qed.

Definition status_row (s : RpcStatus) : bytes * bytes :=
  let '(t, v) := match s with
        | RPC_STATUS_UNSPECIFIED => (0, 0) | RPC_STATUS_OK => (1, 0) | RPC_STATUS_INVALID => (2, 0)
        | RPC_STATUS_NO_CAPACITY => (3, 0) | RPC_STATUS_FROZEN => (4, 0) | RPC_STATUS_INTERNAL => (5, 0)
        | RPC_STATUS_UNAUTHENTICATED => (6, 0) | RPC_STATUS_NOT_FOUND => (7, 0)
        | RPC_STATUS_OTHER v => (8, v)
        end in (z_row t, z_row v).

Definition row_status (t v : bytes) : RpcStatus :=
  match row_z t with
  | 1 => RPC_STATUS_OK | 2 => RPC_STATUS_INVALID | 3 => RPC_STATUS_NO_CAPACITY
  | 4 => RPC_STATUS_FROZEN | 5 => RPC_STATUS_INTERNAL | 6 => RPC_STATUS_UNAUTHENTICATED
  | 7 => RPC_STATUS_NOT_FOUND | 8 => RPC_STATUS_OTHER (row_z v) | _ => RPC_STATUS_UNSPECIFIED
  end.

Lemma row_status_row s : row_status (status_row s).1 (status_row s).2 = s.
Proof. unfold row_status. destruct s; cbn [status_row fst snd]; by rewrite ?row_z_row. Qed.

#[global] Instance RpcRequest_rows : Rows RpcRequest.
Proof.
  refine {|
  to_rows m := [(method_row (rq_Method m)).1; (method_row (rq_Method m)).2; rq_Payload m];
  of_rows r := match r with [a; b; c] => Some (Build_RpcRequest (row_method a b) c) | _ => None end
  |}.
  intros [m p]. cbn [rq_Method rq_Payload]. by rewrite row_method_row.
Defined.

#[global] Instance RpcResponse_rows : Rows RpcResponse.
Proof.
  refine {|
  to_rows m := [(status_row (rs_Status m)).1; (status_row (rs_Status m)).2; rs_Payload m] ++
    match rs_Error m with None => [] | Some e => [string_bytes (re_Code e); string_bytes (re_Message e)] end;
  of_rows r := match r with
    | [a; b; c] => Some (Build_RpcResponse (row_status a b) c None)
    | [a; b; c; d; e] =>
        Some (Build_RpcResponse (row_status a b) c (Some (Build_RpcError (row_str d) (row_str e))))
    | _ => None end
  |}.
  intros [s p [[c m]|]]; cbn; by rewrite ?row_status_row, ?row_string_bytes.
Defined.

#[global] Instance OfferPush_rows : Rows OfferPush.
Proof.
  refine {|
  to_rows m := [op_ConsumerId m; op_EnvelopeHash m; string_bytes (op_Model m); z_row (op_MaxInputTokens m);
                z_row (op_MaxOutputTokens m); op_ConsumerEphemeralPub m; op_RequestId m];
  of_rows r := match r with
    | [a; b; c; d; e; f; g] => Some (Build_OfferPush a b (row_str c) (row_z d) (row_z e) f g) | _ => None end
  |}.
  intros []; cbn; by rewrite ?row_string_bytes, ?row_z_row.
Defined.

#[global] Instance OfferDecision_rows : Rows OfferDecision.
Proof.
  refine {|
  to_rows m := [if pd_Accept m then [Byte.x01] else []; pd_EphemeralPubkey m; string_bytes (pd_RejectReason m)];
  of_rows r := match r with
    | [a; b; c] => Some (Build_OfferDecision (match a with [] => false | _ => true end) b (row_str c))
    | _ => None end
  |}.
  intros [[] b c]; cbn; by rewrite row_string_bytes.
Defined.

Definition toy {M} `{Rows M} : Codec M := toy_codec (λ _, []).

(** A tracker that counts the balance requests it has answered. *)
Definition counting (req : RpcRequest) (n : Z) : option RpcResponse * Z :=
  match rq_Method req with
  | RPC_METHOD_BALANCE => (Some (OkResponse [Byte.x2a]), n + 1)
  | _ => (None, n)
  end.

Definition good_io : CallIo :=
  {| ci_conn := None; ci_opens := true; ci_room := None; ci_dead := false |}.

Definition counted (l : Link) : res ClientErr bytes * Z :=
  @callUnary Z bytes toy toy good_io 1000
    (@server_exchange Z toy toy counting (λ _, "") 1000 l) RPC_METHOD_BALANCE (Some [Byte.x01]) [] Some 7.


Definition w_offer_body : EnvelopeBody := {|
  env_ProtocolVersion := 1; env_ConsumerId := replicate 32 Byte.x11; env_Model := "claude-sonnet-4-6";
  env_MaxInputTokens := 1000; env_MaxOutputTokens := 500; env_Tier := PRIVACY_TIER_STANDARD;
  env_BodyHash := replicate 32 Byte.x22; env_ExhaustionProof := None; env_BalanceProof := None;
  env_CapturedAt := 1700000000; env_Nonce := replicate 16 Byte.x33;
  env_ConsumerEphemeralPub := replicate 32 Byte.x44 |}.

Definition no_codec {M} : Codec M := {| Marshal _ := None; DeterministicMarshal _ := None; Unmarshal _ := None |}.

Definition w_offer_hash : bytes := replicate 32 Byte.x77.
Definition w_offer_id : bytes := replicate 16 Byte.x01.
Definition w_offer_key : bytes := replicate 32 Byte.x55.
Definition w_offer_gen : option (bytes * bytes) := Some (w_offer_key, w_offer_key ++ w_offer_key).
Definition w_push : OfferPush := Broker.offerPush w_offer_body w_offer_hash w_offer_id.
Definition w_push_bytes : bytes := default [] (@DeterministicMarshal _ toy w_push).
Definition w_answer : OfferDecision :=
  {| pd_Accept := true; pd_EphemeralPubkey := w_offer_key; pd_RejectReason := "" |}.
Definition w_answer_bytes : bytes := default [] (@DeterministicMarshal _ toy w_answer).

Definition w_handlers : Handlers Seeder.SState :=
  @seeder_handlers ToyCrypto Seeder.s_seeder Seeder.s_utc false Seeder.s_now w_offer_gen true.

Lemma offer_means_reservation_witness :
  let io := @good_stream _ ToyFedWire toy toy no_codec no_codec w_handlers 4096 Seeder.new_seeder in
  let s' := snd (@client_end _ ToyFedWire toy toy no_codec no_codec w_handlers 4096
                   (PushTagOffer :: frame_header w_push_bytes ++ w_push_bytes) Seeder.new_seeder) in
  Broker.runOffer (λ _ p, broker_event (@runOfferPush toy toy io p 4096)) [] w_offer_body w_offer_hash w_offer_id =
    Broker.OfferAccepted w_offer_key ∧
  ∃ res, Seeder.ss_reservations s' = <[hex_EncodeToString w_offer_hash := res]> ∅ ∧
    Seeder.rv_requestID res = w_offer_id.
Proof.
  cbn zeta.
  pose proof (@offer_means_reservation ToyCrypto ToyFedWire toy (toy_codec_laws (λ _, [])) toy
    (toy_codec_laws (λ _, [])) no_codec no_codec Seeder.s_seeder Seeder.s_utc 4096 4096 false Seeder.s_now
    w_offer_gen true Seeder.new_seeder [] w_offer_body w_offer_hash w_offer_id w_push_bytes w_answer_bytes) as Hw.
  cbn zeta in Hw. fold w_handlers w_push in Hw.
  assert (Ho : Broker.runOffer (λ _ p, broker_event (@runOfferPush toy toy
      (@good_stream _ ToyFedWire toy toy no_codec no_codec w_handlers 4096 Seeder.new_seeder) p 4096))
      [] w_offer_body w_offer_hash w_offer_id = Broker.OfferAccepted w_offer_key) by (vm_compute; reflexivity).
  split; [exact Ho|]. rewrite Ho in Hw.
  destruct Hw as (priv & res & _ & _ & _ & Hr & Hid & _);
    [vm_compute; reflexivity|reflexivity|vm_compute; reflexivity|vm_compute; discriminate
    |vm_compute; discriminate|vm_compute; reflexivity|vm_compute; discriminate|vm_compute; discriminate
    |reflexivity|].
  exists res. split; [exact Hr|exact Hid].
Defined.
