(* ===== verification/Supervisor.v ===== *)
(** plugin/internal/trackerclient: which tracker the client dials, and the connection it
    keeps (reconnect.go, peercandidates.go, conn.go, heartbeat.go, internal/idtls,
    internal/transport/quic).

    The supervisor's goroutine is a state machine, one step per dial, failed or not, and per
    way a connection or a wait ends. Calls run in other goroutines: they take the current
    connection from the holder and open streams on it later. *)
From S2P Require Import Prelude Proto Float Signing FedProto Frame Server TrackerClient.
From Stdlib Require Import Floats.SpecFloat.

(** ** The pinned TLS handshake *)

Section dial.
Context `{Crypto} `{X509}.

Inductive TLSErr := ErrNoPeerCert | ErrTooManyCerts | ErrParseCert | ErrNotEd25519 | ErrEmptySPKI
                  | ErrIdentityMismatch.

Definition SPKIHashOfCert (cert : Certificate) : res TLSErr bytes :=
  if blen (ct_RawSubjectPublicKeyInfo cert) =? 0 then Err ErrEmptySPKI
  else Ok (sha256 (ct_RawSubjectPublicKeyInfo cert)).

Definition pinVerifier (expected : bytes) (rawCerts : list bytes) : option TLSErr :=
  match rawCerts with
  | [] => Some ErrNoPeerCert
  | _ :: _ :: _ => Some ErrTooManyCerts
  | [raw] =>
    match ParseCertificate raw with
    | None => Some ErrParseCert
    | Some peer =>
      match ct_PublicKey peer with
      | None => Some ErrNotEd25519
      | Some _ =>
        match SPKIHashOfCert peer with
        | Err e => Some e
        | Ok got => if bool_decide (got = expected) then None else Some ErrIdentityMismatch
        end
      end
    end
  end.

(** [Driver.Dial]: the identity and the key of the peer. [handshake] is the certificates the
    peer presents, if it answers at all; TLS refuses what [pinVerifier] refuses. *)
Definition Dial (ep : TrackerEndpoint) (handshake : option (list bytes)) : option (bytes * bytes) :=
  match handshake with
  | None => None
  | Some rawCerts =>
    match pinVerifier (ep_IdentityHash ep) rawCerts, rawCerts with
    | None, [raw] =>
      match ParseCertificate raw with
      | Some cert =>
        match ct_PublicKey cert with
        | Some pub => Some (sha256 (ct_RawSubjectPublicKeyInfo cert), pub)
        | None => None
        end
      | None => None
      end
    | _, _ => None
    end
  end.

(** The peer of a connection is the one that was asked for. *)
Lemma Dial_pinned ep handshake id pub : Dial ep handshake = Some (id, pub) → id = ep_IdentityHash ep.
Proof.
  unfold Dial, pinVerifier, SPKIHashOfCert. destruct handshake as [[|raw [|]]|]; try done.
  destruct (ParseCertificate raw) as [cert|]; [|done].
  destruct (ct_PublicKey cert) as [k|]; [|done]. destruct (_ =? 0); [done|].
  case_bool_decide; [|done]. naive_solver.
Qed.

(** A tracker cannot be reached under the hash of its raw key, which is what the federation
    and the bootstrap lists call it by: the pin is compared with the hash of its SPKI. *)
Lemma federation_id_is_no_pin ep pub raw cert :
  ep_IdentityHash ep = sha256 pub → ParseCertificate raw = Some cert →
  ct_RawSubjectPublicKeyInfo cert = MarshalPKIXPublicKey pub → ct_PublicKey cert = Some pub →
  sha256 pub ≠ sha256 (MarshalPKIXPublicKey pub) →
  Dial ep (Some [raw]) = None.
Proof.
  intros Hid Hp Hs Hk Hne. unfold Dial, pinVerifier, SPKIHashOfCert. rewrite Hp, Hk, Hs, Hid.
  cbn [blen]. destruct (_ =? 0); [done|]. by rewrite bool_decide_eq_false_2.
Qed.
End dial.

(** ** Which endpoint is next *)

(** [expiresAt] is the zero time if there is none. *)
Record Candidates := { pc_endpoints : list TrackerEndpoint; pc_expiresAt : Z }.

Definition no_candidates : Candidates := {| pc_endpoints := []; pc_expiresAt := zeroTime |}.

(** Health first, best first; then the address. *)
Definition peer_less (a b : Peer) : bool :=
  if negb (SFeqb (pr_HealthScore a) (pr_HealthScore b)) then SFltb (pr_HealthScore b) (pr_HealthScore a)
  else String.ltb (pr_Addr a) (pr_Addr b).

Definition peer_endpoint (p : Peer) : TrackerEndpoint :=
  {| ep_Addr := pr_Addr p; ep_IdentityHash := pr_TrackerID p; ep_Region := "" |}.

Definition Update (peers : list Peer) (expiresAt : Z) : Candidates := {|
  pc_endpoints := peer_endpoint <$> stable_sort peer_less peers; pc_expiresAt := expiresAt |}.

Definition no_endpoint : TrackerEndpoint := {| ep_Addr := ""; ep_IdentityHash := zero_bytes 32; ep_Region := "" |}.

Section endpoints.
(** [strings.ToLower] *)
Variable ToLower : string → string.

Definition mergeEndpoints (base cands : list TrackerEndpoint) : list TrackerEndpoint :=
  base ++ filter (λ c, ToLower (ep_Addr c) ∉ (ToLower ∘ ep_Addr <$> base)) cands.

(** The candidates that have not expired. *)
Definition current_candidates (now : Z) (c : Candidates) : list TrackerEndpoint :=
  if negb (pc_expiresAt c =? zeroTime) && (pc_expiresAt c <? now) then [] else pc_endpoints c.

Definition NextEndpoint (now : Z) (epIdx : nat) (base : list TrackerEndpoint) (c : Candidates)
    : TrackerEndpoint * string :=
  match base with
  | [] => (no_endpoint, "base")
  | _ =>
    let merged := mergeEndpoints base (current_candidates now c) in
    let i := (epIdx mod length merged)%nat in
    (default no_endpoint (merged !! i), if Nat.leb (length base) i then "candidate" else "base")
  end.
End endpoints.

(** ** Backing off *)

Definition f64_half : spec_float := S754_finite false 4503599627370496 (-53).

(** [base << attempt] on an int64. *)
Definition shifted (base : Z) (attempt : nat) : Z :=
  if Nat.leb 64 attempt then 0 else i64 (base * 2 ^ Z.of_nat attempt).

(** [random] is what [r.Float64()] returns. The conversion of the product to an int64 is
    implementation-defined when it does not fit; the clamps below take any value. *)
Definition backoffDelay (attempt : nat) (base maxDelay : Z) (random : spec_float) : Z :=
  let d := shifted base attempt in
  let deterministic := if (d <=? 0) || (maxDelay <? d) then maxDelay else d in
  let jitter := f64_add f64_half (f64_mul random f64_half) in
  let out := default 0 (f64_trunc (f64_mul (f64_of_int deterministic) jitter)) in
  let out := if maxDelay <? out then maxDelay else out in
  if out <? Z.quot base 2 then Z.quot base 2 else out.

(** Every delay is between half the base and the maximum, however many attempts there were
    and whatever the overflow of the shift leaves. *)
Lemma backoff_bounded attempt base maxDelay random :
  0 < base <= maxDelay → Z.quot base 2 <= backoffDelay attempt base maxDelay random <= maxDelay.
Proof.
  intros Hb. unfold backoffDelay. assert (Z.quot base 2 <= base) by (apply Z.quot_le_upper_bound; lia).
  set (out := default _ _). destruct (Z.ltb_spec maxDelay out); [|destruct (Z.ltb_spec out (Z.quot base 2)); lia].
  destruct (Z.ltb_spec maxDelay (Z.quot base 2)); lia.
Qed.

(** ** The holder of the connection *)

Record Holder (W : Type) := { h_current : option positive; h_waiters : list W; h_closed : bool }.
Arguments h_current {W}. Arguments h_waiters {W}. Arguments h_closed {W}. Arguments Build_Holder {W}.

Inductive GetResult := GotConn (p : positive) | GotClosed | GotWait.

(** [get] up to its [select]; a caller that waits is woken by [set] and [close]. *)
Definition h_get {W} (w : W) (h : Holder W) : GetResult * Holder W :=
  if h_closed h then (GotClosed, h) else
  match h_current h with
  | Some p => (GotConn p, h)
  | None => (GotWait, {| h_current := None; h_waiters := h_waiters h ++ [w]; h_closed := false |})
  end.

(** [set] and [close] return whom they wake, with the connection or with nil. *)
Definition h_set {W} (p : positive) (h : Holder W) : list (W * option positive) * Holder W :=
  ((λ w, (w, Some p)) <$> h_waiters h,
   {| h_current := Some p; h_waiters := []; h_closed := h_closed h |}).

Definition h_clear {W} (h : Holder W) : Holder W :=
  {| h_current := None; h_waiters := h_waiters h; h_closed := h_closed h |}.

Definition h_close {W} (h : Holder W) : list (W * option positive) * Holder W :=
  ((λ w, (w, None)) <$> h_waiters h,
   {| h_current := h_current h; h_waiters := []; h_closed := true |}).

Inductive holder_step {W} : Holder W → Holder W → Prop :=
| hs_get w h : holder_step h (snd (h_get w h))
| hs_set p h : holder_step h (snd (h_set p h))
| hs_clear h : holder_step h (h_clear h)
| hs_close h : holder_step h (snd (h_close h)).

(** No wake-up is lost: in every state the holder reaches, a caller waits only while there is
    no connection and the client is open; and whoever waits is woken by the next [set] or
    [close]. *)
Lemma no_lost_wakeup {W} (h : Holder W) w :
  rtc holder_step {| h_current := None; h_waiters := []; h_closed := false |} h → w ∈ h_waiters h →
  h_current h = None ∧ h_closed h = false ∧
  (∀ p, (w, Some p) ∈ fst (h_set p h)) ∧ (w, None) ∈ fst (h_close h).
Proof.
  intros Hr Hw.
  assert (h_waiters h ≠ [] → h_current h = None ∧ h_closed h = false) as Hinv.
  { clear Hw. remember {| h_current := None; h_waiters := []; h_closed := false |} as h0 eqn:E0.
    assert (h_waiters h0 ≠ [] → h_current h0 = None ∧ h_closed h0 = false) as H0 by (by subst h0).
    clear E0. induction Hr as [|h1 h2 h3 Hs _ IH]; [done|]. apply IH. clear IH.
    destruct Hs as [w' h|p h|h|h]; cbn; try done.
    - unfold h_get. destruct (h_closed h) eqn:E; cbn; [intros Hne; destruct (H0 Hne); congruence|].
      destruct (h_current h) eqn:E'; cbn; [intros Hne; destruct (H0 Hne); congruence|done].
    - intros Hne. by destruct (H0 Hne). }
  destruct Hinv as [H1 H2]; [intros E; rewrite E in Hw; by apply elem_of_nil in Hw|].
  split_and!; [done|done| |].
  - intros p. cbn. apply list_elem_of_fmap. by exists w.
  - cbn. apply list_elem_of_fmap. by exists w.
Qed.

(** ** Heartbeats *)

(** When the loop tears the connection down: no pong for longer than [misses] periods. *)
Definition heartbeat_lost (since period misses : Z) : bool := i64 (misses * period) <? since.

(** ** Lemmas on endpoints *)

Section endpoint_lemmas.
Variable ToLower : string → string.

Lemma NextEndpoint_lookup now i base c :
  base ≠ [] →
  let merged := mergeEndpoints ToLower base (current_candidates now c) in
  merged !! (i mod length merged)%nat = Some (fst (NextEndpoint ToLower now i base c)).
Proof.
  intros Hb. cbn zeta. unfold NextEndpoint.
  destruct base as [|b base]; [done|]. cbn [fst].
  set (merged := mergeEndpoints _ _ _).
  assert (length merged ≠ 0)%nat as Hl by (unfold merged, mergeEndpoints; rewrite length_app; simpl; lia).
  destruct (merged !! (i mod length merged)%nat) eqn:E; [done|].
  apply lookup_ge_None in E. pose proof (Nat.mod_upper_bound i _ Hl). lia.
Qed.

Lemma NextEndpoint_in now i base c :
  base ≠ [] → fst (NextEndpoint ToLower now i base c) ∈ base ∨
              fst (NextEndpoint ToLower now i base c) ∈ pc_endpoints c.
Proof.
  intros Hb. pose proof (NextEndpoint_lookup now i base c Hb) as Hl. cbn zeta in Hl.
  apply list_elem_of_lookup_2 in Hl. unfold mergeEndpoints in Hl.
  apply elem_of_app in Hl as [Hl|Hl]; [by left|]. apply list_elem_of_filter in Hl as [_ Hl].
  right. unfold current_candidates in Hl. destruct (_ && _); [by apply elem_of_nil in Hl|done].
Qed.

(** What the operator configured is never shadowed: the candidates that are dialled have other
    addresses. *)
Lemma candidates_do_not_shadow base cands ep :
  ep ∈ mergeEndpoints ToLower base cands →
  ep ∈ base ∨ ∀ b, b ∈ base → ToLower (ep_Addr ep) ≠ ToLower (ep_Addr b).
Proof.
  unfold mergeEndpoints. intros [H|H]%elem_of_app; [by left|]. apply list_elem_of_filter in H as [Hn _].
  right. intros b Hb E. apply Hn. rewrite E. apply list_elem_of_fmap. by exists b.
Qed.
End endpoint_lemmas.

(** ** The supervisor *)

Inductive ConnectionPhase := PhaseDisconnected | PhaseConnecting | PhaseConnected | PhaseClosing | PhaseClosed.

Definition ConnectionPhase_String (p : ConnectionPhase) : string :=
  match p with
  | PhaseDisconnected => "disconnected" | PhaseConnecting => "connecting" | PhaseConnected => "connected"
  | PhaseClosing => "closing" | PhaseClosed => "closed"
  end.

Inductive SupErr := ErrCancelled | ErrDialOrHeartbeat | ErrLost.

(** The peer id, which the code never sets, is left out. *)
Record ConnectionState := {
  cx_Phase : ConnectionPhase; cx_Endpoint : TrackerEndpoint; cx_ConnectedAt : Z;
  cx_LastError : option SupErr; cx_NextAttemptAt : Z
}.

(** A stream the client opens. *)
Inductive StreamUse := HeartbeatStream | CallStream.

(** The connection to a tracker, and the streams the client opened on it, oldest first. *)
Record TConn := { tn_endpoint : TrackerEndpoint; tn_id : bytes; tn_pub : bytes; tn_streams : list StreamUse; tn_open : bool }.

(** Where the supervisor's goroutine is. *)
Inductive SupPc := AtTop | Dialing (ep : TrackerEndpoint) | Waiting (ep : TrackerEndpoint)
                 | Connected (ep : TrackerEndpoint) (p : positive) | Stopped.

(** [su_handed] are the connections that calls have been given. *)
Record Sup := {
  su_pc : SupPc; su_epIdx : nat; su_attempt : nat; su_lastConnect : Z; su_cancelled : bool;
  su_candidates : Candidates; su_status : ConnectionState; su_holder : Holder nat;
  su_conns : gmap positive TConn; su_next : positive; su_handed : gset positive
}.

Definition newSupervisor : Sup := {|
  su_pc := AtTop; su_epIdx := 0; su_attempt := 0; su_lastConnect := zeroTime; su_cancelled := false;
  su_candidates := no_candidates;
  su_status := {| cx_Phase := PhaseDisconnected; cx_Endpoint := no_endpoint; cx_ConnectedAt := zeroTime;
                  cx_LastError := None; cx_NextAttemptAt := zeroTime |};
  su_holder := {| h_current := None; h_waiters := []; h_closed := false |};
  su_conns := ∅; su_next := 1%positive; su_handed := ∅ |}.

Definition setStatus (phase : ConnectionPhase) (ep : TrackerEndpoint) (lastErr : option SupErr) (nextAt now : Z)
    (st : ConnectionState) : ConnectionState := {|
  cx_Phase := phase; cx_Endpoint := ep;
  cx_ConnectedAt := match phase with PhaseConnected => now | _ => cx_ConnectedAt st end;
  cx_LastError := lastErr; cx_NextAttemptAt := nextAt |}.

(** A move of the goroutine that touches neither connections nor the holder. *)
Definition sup_move (pc : SupPc) (epIdx attempt : nat) (st : ConnectionState) (s : Sup) : Sup := {|
  su_pc := pc; su_epIdx := epIdx; su_attempt := attempt; su_lastConnect := su_lastConnect s;
  su_cancelled := su_cancelled s; su_candidates := su_candidates s; su_status := st;
  su_holder := su_holder s; su_conns := su_conns s; su_next := su_next s; su_handed := su_handed s |}.

Definition close_conn (c : TConn) : TConn := {|
  tn_endpoint := tn_endpoint c; tn_id := tn_id c; tn_pub := tn_pub c; tn_streams := tn_streams c; tn_open := false |}.

Definition open_stream (u : StreamUse) (c : TConn) : TConn := {|
  tn_endpoint := tn_endpoint c; tn_id := tn_id c; tn_pub := tn_pub c; tn_streams := tn_streams c ++ [u];
  tn_open := tn_open c |}.

Section supervisor.
Context `{Crypto} `{X509}.
Variables (ToLower : string → string) (canonical : BootstrapPeerList → option bytes) (cfg : ClientConfig).

(** The top of the loop, up to the dial. *)
Definition sup_top (now : Z) (s : Sup) : Sup :=
  if su_cancelled s
  then sup_move Stopped (su_epIdx s) (su_attempt s)
         (setStatus PhaseClosed no_endpoint (Some ErrCancelled) zeroTime now (su_status s)) s
  else
    let ep := fst (NextEndpoint ToLower now (su_epIdx s) (tc_Endpoints cfg) (su_candidates s)) in
    sup_move (Dialing ep) (su_epIdx s) (su_attempt s)
      (setStatus PhaseConnecting ep None zeroTime now (su_status s)) s.

(** What follows a dial and the opening of the heartbeat stream that succeeded: [holder.set]
    gives the connection to every call that waits. *)
Definition sup_connected (ep : TrackerEndpoint) (id pub : bytes) (now : Z) (s : Sup) : Sup :=
  let p := su_next s in
  let '(woken, h) := h_set p (su_holder s) in
  {| su_pc := Connected ep p; su_epIdx := su_epIdx s; su_attempt := su_attempt s; su_lastConnect := now;
     su_cancelled := su_cancelled s; su_candidates := su_candidates s;
     su_status := setStatus PhaseConnected ep None zeroTime now (su_status s); su_holder := h;
     su_conns := <[p := {| tn_endpoint := ep; tn_id := id; tn_pub := pub; tn_streams := [HeartbeatStream];
                           tn_open := true |}]> (su_conns s);
     su_next := Pos.succ p;
     su_handed := match woken with [] => su_handed s | _ => {[p]} ∪ su_handed s end |}.

(** [heartbeat] is whether the heartbeat stream could be opened. *)
Definition sup_dialed (now : Z) (handshake : option (list bytes)) (heartbeat : bool) (random : spec_float)
    (s : Sup) : Sup :=
  match su_pc s with
  | Dialing ep =>
    match Dial ep handshake, heartbeat with
    | Some (id, pub), true => sup_connected ep id pub now s
    | _, _ =>
      let delay := backoffDelay (su_attempt s) (tc_BackoffBase cfg) (tc_BackoffMax cfg) random in
      sup_move (Waiting ep) (S (su_epIdx s)) (S (su_attempt s))
        (setStatus PhaseDisconnected ep (Some ErrDialOrHeartbeat) (now + delay) now (su_status s)) s
    end
  | _ => s
  end.

(** The wait after a failure is over, elapsed or [cancelled]. *)
Definition sup_waited (now : Z) (cancelled : bool) (s : Sup) : Sup :=
  match su_pc s with
  | Waiting ep =>
    if cancelled
    then sup_move Stopped (su_epIdx s) (su_attempt s)
           (setStatus PhaseClosed ep (Some ErrCancelled) zeroTime now (su_status s)) s
    else sup_move AtTop (su_epIdx s) (su_attempt s) (su_status s) s
  | _ => s
  end.

(** The connection is over, lost or because of [cancelled]. *)
Definition sup_disconnected (now : Z) (cancelled : bool) (s : Sup) : Sup :=
  match su_pc s with
  | Connected ep p =>
    let s1 := {| su_pc := su_pc s; su_epIdx := su_epIdx s; su_attempt := su_attempt s;
                 su_lastConnect := su_lastConnect s; su_cancelled := su_cancelled s;
                 su_candidates := su_candidates s; su_status := su_status s;
                 su_holder := h_clear (su_holder s); su_conns := alter close_conn p (su_conns s);
                 su_next := su_next s; su_handed := su_handed s |} in
    if cancelled
    then sup_move Stopped (su_epIdx s) (su_attempt s)
           (setStatus PhaseClosed ep (Some ErrCancelled) zeroTime now (su_status s)) s1
    else sup_move AtTop (S (su_epIdx s))
           (if 30 * Second <=? now - su_lastConnect s then O else S (su_attempt s))
           (setStatus PhaseDisconnected ep (Some ErrLost) zeroTime now (su_status s)) s1
  | _ => s
  end.

Definition sup_cancel (s : Sup) : Sup := {|
  su_pc := su_pc s; su_epIdx := su_epIdx s; su_attempt := su_attempt s; su_lastConnect := su_lastConnect s;
  su_cancelled := true; su_candidates := su_candidates s; su_status := su_status s;
  su_holder := su_holder s; su_conns := su_conns s; su_next := su_next s; su_handed := su_handed s |}.

Definition sup_hold (h : Holder nat) (handed : gset positive) (s : Sup) : Sup := {|
  su_pc := su_pc s; su_epIdx := su_epIdx s; su_attempt := su_attempt s; su_lastConnect := su_lastConnect s;
  su_cancelled := su_cancelled s; su_candidates := su_candidates s; su_status := su_status s;
  su_holder := h; su_conns := su_conns s; su_next := su_next s; su_handed := handed |}.

(** The end of [stop]: the goroutine is done, and whoever waits gets [ErrClosed]. *)
Definition sup_stop (s : Sup) : Sup := sup_hold (snd (h_close (su_holder s))) (su_handed s) s.

(** A call asks for the connection. *)
Definition sup_get (w : nat) (s : Sup) : Sup :=
  match h_get w (su_holder s) with
  | (GotConn p, h) => sup_hold h ({[p]} ∪ su_handed s) s
  | (_, h) => sup_hold h (su_handed s) s
  end.

Definition sup_call (p : positive) (s : Sup) : Sup := {|
  su_pc := su_pc s; su_epIdx := su_epIdx s; su_attempt := su_attempt s; su_lastConnect := su_lastConnect s;
  su_cancelled := su_cancelled s; su_candidates := su_candidates s; su_status := su_status s;
  su_holder := su_holder s; su_conns := alter (open_stream CallStream) p (su_conns s); su_next := su_next s;
  su_handed := su_handed s |}.

(** The end of [fetchAndUpdateCandidates]. *)
Definition sup_update (l : BootstrapPeerList) (s : Sup) : Sup := {|
  su_pc := su_pc s; su_epIdx := su_epIdx s; su_attempt := su_attempt s; su_lastConnect := su_lastConnect s;
  su_cancelled := su_cancelled s;
  su_candidates := Update (bl_Peers l ≫= bootstrap_peer) (unix_time (bl_ExpiresAt l)); su_status := su_status s;
  su_holder := su_holder s; su_conns := su_conns s; su_next := su_next s; su_handed := su_handed s |}.

(** A list is checked against the identity and the key of a connection that was handed out;
    it may have come over another one. *)
Inductive sup_step : Sup → Sup → Prop :=
| ss_top now s : su_pc s = AtTop → sup_step s (sup_top now s)
| ss_dialed now handshake hb random s : sup_step s (sup_dialed now handshake hb random s)
| ss_waited now b s : (b = true → su_cancelled s = true) → sup_step s (sup_waited now b s)
| ss_disconnected now b s : (b = true → su_cancelled s = true) → sup_step s (sup_disconnected now b s)
| ss_cancel s : sup_step s (sup_cancel s)
| ss_stop s : su_pc s = Stopped → su_cancelled s = true → sup_step s (sup_stop s)
| ss_get w s : sup_step s (sup_get w s)
| ss_call p s : p ∈ su_handed s → sup_step s (sup_call p s)
| ss_update p c now l s : p ∈ su_handed s → su_conns s !! p = Some c →
    check_bootstrap_list canonical (tn_pub c) (tn_id c) now l = None → sup_step s (sup_update l s).

(** Whom the operator trusts, by the hash of the key: whoever is configured, and whoever a
    list names that is signed with the key of someone trusted. *)
Inductive trusted : bytes → Prop :=
| trusted_base ep : ep ∈ tc_Endpoints cfg → trusted (ep_IdentityHash ep)
| trusted_list cert pub l peer :
    trusted (sha256 (ct_RawSubjectPublicKeyInfo cert)) → ct_PublicKey cert = Some pub →
    bl_IssuerId l = sha256 (ct_RawSubjectPublicKeyInfo cert) →
    VerifyBootstrapPeerListSig canonical pub l = None →
    peer ∈ bl_Peers l ≫= bootstrap_peer → trusted (pr_TrackerID peer).

Definition good_conn (c : TConn) : Prop :=
  tn_id c = ep_IdentityHash (tn_endpoint c) ∧ trusted (tn_id c) ∧
  (∃ n, tn_streams c = HeartbeatStream :: replicate n CallStream) ∧
  ∃ cert, ct_PublicKey cert = Some (tn_pub c) ∧ sha256 (ct_RawSubjectPublicKeyInfo cert) = tn_id c.

Definition pc_ok (pc : SupPc) (s : Sup) : Prop :=
  match pc with
  | Dialing ep => trusted (ep_IdentityHash ep)
  | Connected ep p => h_current (su_holder s) = Some p
  | _ => True
  end.

Record SupInv (s : Sup) : Prop := {
  vi_conns p c : su_conns s !! p = Some c → good_conn c ∧ (p < su_next s)%positive;
  vi_cands ep : ep ∈ pc_endpoints (su_candidates s) → trusted (ep_IdentityHash ep);
  vi_pc : pc_ok (su_pc s) s;
  vi_current p : h_current (su_holder s) = Some p → is_Some (su_conns s !! p);
  vi_handed p : p ∈ su_handed s → is_Some (su_conns s !! p);
  vi_open p c : su_conns s !! p = Some c → tn_open c = true → ∃ ep, su_pc s = Connected ep p;
  vi_phase : cx_Phase (su_status s) = PhaseConnected ↔ ∃ ep p, su_pc s = Connected ep p
}.

Lemma Dial_cert ep handshake id pub :
  Dial ep handshake = Some (id, pub) →
  ∃ cert, ct_PublicKey cert = Some pub ∧ sha256 (ct_RawSubjectPublicKeyInfo cert) = id.
Proof.
  unfold Dial. destruct handshake as [rawCerts|]; [|done].
  destruct (pinVerifier _ _), rawCerts as [|raw [|]]; try done.
  destruct (ParseCertificate raw) as [cert|]; [|done].
  destruct (ct_PublicKey cert) eqn:Hk; [|done]. intros [= <- <-]. by exists cert.
Qed.

(** A move to a place where there is no connection, from one where there is none. *)
Lemma SupInv_move pc i a st s :
  SupInv s → (∀ ep p, su_pc s ≠ Connected ep p) → (∀ ep p, pc ≠ Connected ep p) →
  pc_ok pc s → cx_Phase st ≠ PhaseConnected → SupInv (sup_move pc i a st s).
Proof.
  intros HI Hn Hn' Hpc Hst. destruct HI as [H1 H2 H3 H4 H5 H6 H7]. split; cbn; try done.
  - intros p c Hc Ho. destruct (H6 p c Hc Ho) as [ep E]. by destruct (Hn ep p).
  - split; [done|]. intros (ep & p & E). by destruct (Hn' ep p).
Qed.

(** Changes of connections that keep what is known about them. *)
Lemma SupInv_conns f p s :
  (∀ c, good_conn c → good_conn (f c)) → (∀ c, tn_open (f c) = true → tn_open c = true) → SupInv s →
  let conns := alter f p (su_conns s) in
  (∀ q c, conns !! q = Some c → good_conn c ∧ (q < su_next s)%positive) ∧
  (∀ q, is_Some (conns !! q) ↔ is_Some (su_conns s !! q)) ∧
  ∀ q c, conns !! q = Some c → tn_open c = true → ∃ ep, su_pc s = Connected ep q.
Proof.
  intros Hf Ho HI conns. split_and!.
  - intros q c [(-> & c' & Hc & ->)|[_ Hc]]%lookup_alter_Some; [|by apply (vi_conns _ HI)].
    destruct (vi_conns _ HI _ _ Hc). split; [by apply Hf|done].
  - intros q. unfold conns. rewrite lookup_alter. case_decide; [|done]. by rewrite fmap_is_Some; subst.
  - intros q c [(-> & c' & Hc & ->)|[_ Hc]]%lookup_alter_Some; intros Ht.
    + by apply (vi_open _ HI q c'), Ho.
    + by apply (vi_open _ HI q c).
Qed.

Lemma SupInv_top now s : Config_Validate cfg = None → su_pc s = AtTop → SupInv s → SupInv (sup_top now s).
Proof.
  intros Hv Hpc HI. assert (tc_Endpoints cfg ≠ []) as Hb.
  { unfold Config_Validate in Hv. by case_bool_decide. }
  unfold sup_top. destruct (su_cancelled s); (apply SupInv_move; [done|congruence|done| |done]); cbn; [done|].
  destruct (NextEndpoint_in ToLower now (su_epIdx s) _ (su_candidates s) Hb) as [Hi|Hi];
    [by apply trusted_base|by apply (vi_cands _ HI)].
Qed.

Lemma SupInv_connected ep id pub cert now s :
  su_pc s = Dialing ep → id = ep_IdentityHash ep → ct_PublicKey cert = Some pub →
  sha256 (ct_RawSubjectPublicKeyInfo cert) = id → SupInv s → SupInv (sup_connected ep id pub now s).
Proof.
  intros Hpc Hid Hk Hs HI. pose proof (vi_pc _ HI) as Ht. rewrite Hpc in Ht. cbn in Ht.
  split; cbn.
  - intros p c [[<- <-]|[Hne Hc]]%lookup_insert_Some.
    + split; [|lia]. unfold good_conn. cbn. split_and!; [done|by subst|by exists O|by exists cert].
    + destruct (vi_conns _ HI _ _ Hc). split; [done|lia].
  - apply (vi_cands _ HI).
  - done.
  - intros p [= <-]. rewrite lookup_insert_eq. by eexists.
  - intros p Hp. rewrite lookup_insert. case_decide; [by eexists|].
    apply (vi_handed _ HI). destruct (_ <$> _); set_solver.
  - intros p c [[<- <-]|[Hne Hc]]%lookup_insert_Some Ho; [by eexists|].
    destruct (vi_open _ HI _ _ Hc Ho) as [? E]. congruence.
  - split; [by eauto|done].
Qed.

Lemma SupInv_disconnected now b s : SupInv s → SupInv (sup_disconnected now b s).
Proof.
  intros HI. unfold sup_disconnected. destruct (su_pc s) as [| | |ep p|] eqn:Hpc; try done.
  destruct (SupInv_conns close_conn p s) as (Hc & Hs & Ho); [|done..|].
  { intros c Hg. exact Hg. }
  assert (∀ q c, alter close_conn p (su_conns s) !! q = Some c → tn_open c = true → False) as Hno.
  { intros q c Hq Ht. destruct (Ho q c Hq Ht) as [ep' E]. rewrite Hpc in E. injection E as <- <-.
    rewrite lookup_alter_eq in Hq. destruct (su_conns s !! p); [|done]. by injection Hq as <-. }
  pose proof (vi_cands _ HI) as Hcands.
  destruct b; (split; cbn; [done|done|done|done| | |]);
    first [by intros q Hq; apply Hs, (vi_handed _ HI)
          |by intros q c Hq Ht; destruct (Hno q c Hq Ht)
          |by split; [done|intros (? & ? & ?)]].
Qed.

Lemma SupInv_hold h handed s :
  h_current h = h_current (su_holder s) →
  (∀ p, p ∈ handed → p ∈ su_handed s ∨ h_current (su_holder s) = Some p) → SupInv s →
  SupInv (sup_hold h handed s).
Proof.
  intros Hh Hp [H1 H2 H3 H4 H5 H6 H7]. split; cbn; try done.
  - unfold pc_ok in *. destruct (su_pc s); cbn; congruence.
  - rewrite Hh. exact H4.
  - intros p [Hin|Hc]%Hp; auto.
Qed.

Lemma SupInv_update p c now l s :
  p ∈ su_handed s → su_conns s !! p = Some c →
  check_bootstrap_list canonical (tn_pub c) (tn_id c) now l = None → SupInv s → SupInv (sup_update l s).
Proof.
  intros Hp Hc Hl HI. destruct (vi_conns _ HI _ _ Hc) as [(Hid & Ht & _ & cert & Hk & Hs) _].
  destruct HI as [H1 H2 H3 H4 H5 H6 H7]. split; cbn; try done.
  - intros ep Hin. cbn in Hin. apply list_elem_of_fmap in Hin as (peer & -> & Hin). cbn.
    rewrite stable_sort_perm in Hin.
    unfold check_bootstrap_list in Hl. destruct (ValidateBootstrapPeerList _); [done|].
    case_bool_decide; [|done]. cbn in Hl. destruct (VerifyBootstrapPeerListSig _ _ _) eqn:Hv; [done|].
    apply (trusted_list cert (tn_pub c) l peer); congruence.
Qed.

Lemma SupInv_step s s' : Config_Validate cfg = None → sup_step s s' → SupInv s → SupInv s'.
Proof.
  intros Hv Hs HI. destruct Hs as [now s Hpc|now hs hb random s|now b s Hb|now b s Hb|s|s Hpc Hc|w s|p s Hp|p c now l s Hp Hc Hl].
  - by apply SupInv_top.
  - unfold sup_dialed. destruct (su_pc s) as [|ep| | |] eqn:Hpc; try done.
    destruct (Dial ep hs) as [[id pub]|] eqn:Hd; [destruct hb|].
    + destruct (Dial_cert _ _ _ _ Hd) as (cert & Hk & Hi). pose proof (Dial_pinned _ _ _ _ Hd).
      by apply (SupInv_connected ep id pub cert).
    + by apply SupInv_move; [done|congruence|..].
    + by apply SupInv_move; [done|congruence|..].
  - unfold sup_waited. destruct (su_pc s) as [| |ep| |] eqn:Hpc; try done.
    destruct b; apply SupInv_move; try done; try congruence. cbn. rewrite (vi_phase _ HI).
    intros (? & ? & ?). congruence.
  - by apply SupInv_disconnected.
  - by destruct HI; split.
  - apply SupInv_hold; [done|by left|done].
  - unfold sup_get, h_get. destruct (h_closed (su_holder s)) eqn:Hcl.
    { apply SupInv_hold; [done|by left|done]. }
    destruct (h_current (su_holder s)) as [p|] eqn:Hcur; apply SupInv_hold; try done; [|by left].
    intros q [->%elem_of_singleton|Hq]%elem_of_union; [by right|by left].
  - destruct (SupInv_conns (open_stream CallStream) p s) as (Hc & Hss & Ho); [|done..|].
    { intros c (Hid & Ht & [n Hn] & Hcert). split_and!; [done..| |done]. exists (S n). cbn. rewrite Hn.
      simpl. f_equal. symmetry. apply replicate_S_end. }
    destruct HI as [H1 H2 H3 H4 H5 H6 H7]. split; cbn; try done.
    + intros q Hq. by apply Hss, H4.
    + intros q Hq. by apply Hss, H5.
  - by apply (SupInv_update p c now).
Qed.

Lemma SupInv_reachable s : Config_Validate cfg = None → rtc sup_step newSupervisor s → SupInv s.
Proof.
  intros Hv Hr. assert (SupInv newSupervisor) as Hinit.
  { split; cbn; try done; [..|split; [done|by intros (? & ? & ?)]]; intros ? Hin; set_solver. }
  remember newSupervisor as s0. clear Heqs0.
  induction Hr as [|s0 s1 s2 Hs _ IH]; [done|]. by apply IH, (SupInv_step s0).
Qed.


(** A connection that is lost is redialled at once, also when it did not last: the attempt is
    counted, but only a failed dial waits. *)
Lemma flap_redialled_at_once ep p now s :
  su_pc s = Connected ep p → su_cancelled s = false →
  let ep' := fst (NextEndpoint ToLower now (S (su_epIdx s)) (tc_Endpoints cfg) (su_candidates s)) in
  su_pc (sup_top now (sup_disconnected now false s)) = Dialing ep'.
Proof. intros Hpc Hc. cbn zeta. unfold sup_disconnected, sup_top. rewrite Hpc. cbn. by rewrite Hc. Qed.

(** When the context of [Start] ends without a [Close], the goroutine ends without closing the
    holder: a call that waits goes on waiting. *)
Lemma cancelled_call_waits w s s' :
  su_pc s = Stopped → w ∈ h_waiters (su_holder s) → sup_step s s' → s' ≠ sup_stop s →
  su_pc s' = Stopped ∧ w ∈ h_waiters (su_holder s').
Proof.
  intros Hpc Hw Hs Hn. destruct Hs; cbn; try done.
  - congruence.
  - unfold sup_dialed. by rewrite Hpc.
  - unfold sup_waited. by rewrite Hpc.
  - unfold sup_disconnected. by rewrite Hpc.
  - unfold sup_get, h_get. destruct (h_closed _); [done|]. destruct (h_current _); cbn; [done|].
    split; [done|]. apply elem_of_app. by left.
Qed.
End supervisor.


(** ** The rotation *)

Section rotation.
Variable ToLower : string → string.

(** The rotation reaches everyone. As long as the usable candidates are the same, among any
    consecutive attempts as many as there are endpoints, every endpoint the operator
    configured and every usable candidate at another address is tried, and nothing else. *)
Lemma rotation_reaches_all base c cands now k ep :
  base ≠ [] → (∀ i : nat, current_candidates (now i) c = cands) →
  let merged := mergeEndpoints ToLower base cands in
  ep ∈ merged ↔
  ∃ j, (j < length merged)%nat ∧ fst (NextEndpoint ToLower (now (k + j)%nat) (k + j) base c) = ep.
Proof.
  intros Hb Hc. cbn zeta. set (n := length (mergeEndpoints ToLower base cands)).
  assert (n ≠ 0)%nat as Hn.
  { unfold n, mergeEndpoints. rewrite length_app. destruct base; [done|simpl; lia]. }
  split.
  - intros [i Hi]%list_elem_of_lookup_1. assert (i < n)%nat as Hin by (by apply lookup_lt_Some in Hi).
    pose proof (Nat.mod_upper_bound k n Hn) as Hk.
    exists ((i + (n - k mod n)) mod n)%nat. split; [by apply Nat.mod_upper_bound|].
    pose proof (NextEndpoint_lookup ToLower (now (k + (i + (n - k mod n)) mod n)%nat)
                  (k + (i + (n - k mod n)) mod n) base c Hb) as Hl. cbn zeta in Hl. rewrite Hc in Hl. fold n in Hl.
    assert ((k + (i + (n - k mod n)) mod n) mod n = i)%nat as Hm.
    { rewrite Nat.Div0.add_mod_idemp_r.
      replace (k + (i + (n - k mod n)))%nat with (i + (k / n + 1) * n)%nat.
      - rewrite Nat.Div0.mod_add. by apply Nat.mod_small.
      - pose proof (Nat.div_mod k n Hn). lia. }
    rewrite Hm, Hi in Hl. by injection Hl.
  - intros (j & _ & <-). pose proof (NextEndpoint_lookup ToLower (now (k + j)%nat) (k + j) base c Hb) as Hl.
    cbn zeta in Hl. rewrite Hc in Hl. by apply list_elem_of_lookup_2 in Hl.
Qed.
End rotation.

Definition w_endpoint (addr : string) (b : byte) : TrackerEndpoint :=
  {| ep_Addr := addr; ep_IdentityHash := replicate 32 b; ep_Region := "" |}.

Lemma rotation_reaches_all_witness :
  let base := [w_endpoint "a:1" Byte.x01; w_endpoint "b:1" Byte.x02] in
  let c := {| pc_endpoints := [w_endpoint "b:1" Byte.x03; w_endpoint "c:1" Byte.x04]; pc_expiresAt := 100 |} in
  mergeEndpoints id base (pc_endpoints c) = base ++ [w_endpoint "c:1" Byte.x04] ∧
  ∃ j, (j < 3)%nat ∧ fst (NextEndpoint id 50 (7 + j) base c) = w_endpoint "c:1" Byte.x04.
Proof.
  cbn zeta. split; [vm_compute; reflexivity|].
  apply (rotation_reaches_all id [w_endpoint "a:1" Byte.x01; w_endpoint "b:1" Byte.x02]
    {| pc_endpoints := [w_endpoint "b:1" Byte.x03; w_endpoint "c:1" Byte.x04]; pc_expiresAt := 100 |}
    [w_endpoint "b:1" Byte.x03; w_endpoint "c:1" Byte.x04] (λ _, 50) 7 (w_endpoint "c:1" Byte.x04)).
  - discriminate.
  - intros _. reflexivity.
  - apply (bool_decide_unpack _). vm_compute. exact I.
Defined.

(** ** A run: a call waits, the client dials, the call is woken and opens a stream. *)

Definition w_tracker_key : bytes := replicate 32 Byte.x21.
Definition w_x509 : X509 := {| ParseCertificate raw := Some {|
  ct_RawSubjectPublicKeyInfo := MarshalPKIXPublicKey raw; ct_PublicKey := Some raw |} |}.

Definition w_client_config : ClientConfig := withDefaults {|
  tc_Endpoints := [{| ep_Addr := "a:1"; ep_IdentityHash := toy_hash (MarshalPKIXPublicKey w_tracker_key);
                      ep_Region := "" |}];
  tc_Identity := true; tc_DialTimeout := 0; tc_HeartbeatPeriod := 0; tc_HeartbeatMisses := 0;
  tc_BalanceTTL := 0; tc_BalanceRefreshHeadroom := 0; tc_BackoffBase := 0; tc_BackoffMax := 0;
  tc_MaxFrameSize := 0; tc_RerouteEnabled := true |}.

Definition w_client_run : list Sup :=
  let s1 := sup_get 7 newSupervisor in
  let s2 := sup_top id w_client_config 1 s1 in
  let s3 := @sup_dialed ToyCrypto w_x509 w_client_config 2 (Some [w_tracker_key]) true f64_half s2 in
  [s1; s2; s3; sup_call 1 s3].

