(* ===== verification/Sse.v ===== *)
(** plugin/internal/ssetranslate: Claude Code's stream-json as server-sent events.

    [encoding/json] is outside ([Json]): what its decoders find in a line or in a content block,
    and how an event is encoded. Everything else of the translator is here: the buffering of
    lines, the state machine, its errors, and the bytes it writes on the inner writer, which
    may break ([Frame.Write]). [translate] says what a conversation becomes; it knows nothing
    of chunks, buffers or open blocks. *)
From S2P Require Import Prelude Frame.

(** ** Data *)

Record usage := { u_InputTokens : Z; u_OutputTokens : Z }.

(** assistantEnvelope's message. *)
Record AssistantMessage := {
  am_ID : string; am_Type : string; am_Role : string; am_Model : string; am_Content : list bytes;
  am_StopReason : option string; am_StopSequence : option string; am_Usage : option usage
}.

(** resultEnvelope. *)
Record ResultEvent := { rv_IsError : bool; rv_Usage : option usage }.

(** The events of the wire types. The content of a [message_start] is always empty, and the
    block that opens a text is always the empty text. *)
Inductive SseEvent :=
| MessageStart (m : AssistantMessage)
| TextBlockStart (idx : Z)
| ContentBlockStart (idx : Z) (block : bytes)
| TextDelta (idx : Z) (text : string)
| ContentBlockStop (idx : Z)
| MessageDelta (stopReason stopSequence : option string) (u : option usage)
| MessageStop.

Definition event_name (e : SseEvent) : string :=
  match e with
  | MessageStart _ => "message_start"
  | TextBlockStart _ | ContentBlockStart _ _ => "content_block_start"
  | TextDelta _ _ => "content_block_delta"
  | ContentBlockStop _ => "content_block_stop"
  | MessageDelta _ _ _ => "message_delta"
  | MessageStop => "message_stop"
  end.

(** The heads tell the type; that of a line also decodes the subtype, and fails if that is not
    a string. *)
Class Json := {
  json_LineHead : bytes → option string;
  json_Assistant : bytes → option AssistantMessage;
  json_Result : bytes → option ResultEvent;
  json_BlockHead : bytes → option string;
  json_Text : bytes → option string;
  json_Valid : bytes → bool;
  json_Event : SseEvent → option bytes
}.

(** The values encode, if their raw parts are JSON. *)
Definition event_raw_ok `{Json} (e : SseEvent) : Prop :=
  match e with ContentBlockStart _ blk => json_Valid blk = true | _ => True end.

(** What is documented of [encoding/json]: a raw value that was decoded is valid, and a struct
    of strings, integers and valid raw values encodes. *)
Class JsonLaws `{Json} := {
  json_content_valid body m : json_Assistant body = Some m → Forall (λ blk, json_Valid blk = true) (am_Content m);
  json_event_encodes e : event_raw_ok e → is_Some (json_Event e)
}.

(** ** The writer *)

Inductive wstate := stateIdle | stateInMessage | stateDone.

Record envelope := {
  en_id : string; en_openBlockIdx : Z; en_hasOpenBlock : bool; en_nextBlockIdx : Z;
  en_stopReason : option string; en_stopSequence : option string; en_finalUsage : option usage
}.

Inductive SseErr := ErrSseMarshal (event : string) | ErrSseWrite (event : string) (e : IoErr) | ErrWriteAfterClose.

Record Writer := {
  w_inner : Tx; w_buf : bytes; w_state : wstate; w_envel : envelope;
  w_firstWriteErr : option SseErr; w_closed : bool
}.

Definition no_envelope : envelope := {|
  en_id := ""; en_openBlockIdx := 0; en_hasOpenBlock := false; en_nextBlockIdx := 0;
  en_stopReason := None; en_stopSequence := None; en_finalUsage := None |}.

Definition NewWriter (inner : Tx) : Writer := {|
  w_inner := inner; w_buf := []; w_state := stateIdle; w_envel := no_envelope;
  w_firstWriteErr := None; w_closed := false |}.

Definition set_inner (t : Tx) (w : Writer) : Writer := {|
  w_inner := t; w_buf := w_buf w; w_state := w_state w; w_envel := w_envel w;
  w_firstWriteErr := w_firstWriteErr w; w_closed := w_closed w |}.
Definition set_buf (b : bytes) (w : Writer) : Writer := {|
  w_inner := w_inner w; w_buf := b; w_state := w_state w; w_envel := w_envel w;
  w_firstWriteErr := w_firstWriteErr w; w_closed := w_closed w |}.
Definition set_wstate (s : wstate) (w : Writer) : Writer := {|
  w_inner := w_inner w; w_buf := w_buf w; w_state := s; w_envel := w_envel w;
  w_firstWriteErr := w_firstWriteErr w; w_closed := w_closed w |}.
Definition set_envel (f : envelope → envelope) (w : Writer) : Writer := {|
  w_inner := w_inner w; w_buf := w_buf w; w_state := w_state w; w_envel := f (w_envel w);
  w_firstWriteErr := w_firstWriteErr w; w_closed := w_closed w |}.
Definition set_err (e : SseErr) (w : Writer) : Writer := {|
  w_inner := w_inner w; w_buf := w_buf w; w_state := w_state w; w_envel := w_envel w;
  w_firstWriteErr := Some e; w_closed := w_closed w |}.
Definition set_closed (w : Writer) : Writer := {|
  w_inner := w_inner w; w_buf := w_buf w; w_state := w_state w; w_envel := w_envel w;
  w_firstWriteErr := w_firstWriteErr w; w_closed := true |}.

Definition modify (f : Writer → Writer) : GoM Writer SseErr unit := λ w, (Ok tt, f w).

(** [envelope.id]; the block that is open; the next index. *)
Definition with_id (id : string) (e : envelope) : envelope := {|
  en_id := id; en_openBlockIdx := en_openBlockIdx e; en_hasOpenBlock := en_hasOpenBlock e;
  en_nextBlockIdx := en_nextBlockIdx e; en_stopReason := en_stopReason e;
  en_stopSequence := en_stopSequence e; en_finalUsage := en_finalUsage e |}.
Definition with_open (idx : Z) (e : envelope) : envelope := {|
  en_id := en_id e; en_openBlockIdx := idx; en_hasOpenBlock := true;
  en_nextBlockIdx := en_nextBlockIdx e + 1; en_stopReason := en_stopReason e;
  en_stopSequence := en_stopSequence e; en_finalUsage := en_finalUsage e |}.
Definition with_closed_block (e : envelope) : envelope := {|
  en_id := en_id e; en_openBlockIdx := en_openBlockIdx e; en_hasOpenBlock := false;
  en_nextBlockIdx := en_nextBlockIdx e; en_stopReason := en_stopReason e;
  en_stopSequence := en_stopSequence e; en_finalUsage := en_finalUsage e |}.
Definition with_next (e : envelope) : envelope := {|
  en_id := en_id e; en_openBlockIdx := en_openBlockIdx e; en_hasOpenBlock := en_hasOpenBlock e;
  en_nextBlockIdx := en_nextBlockIdx e + 1; en_stopReason := en_stopReason e;
  en_stopSequence := en_stopSequence e; en_finalUsage := en_finalUsage e |}.
(** What is cached from an assistant event. *)
Definition with_latest (m : AssistantMessage) (e : envelope) : envelope := {|
  en_id := en_id e; en_openBlockIdx := en_openBlockIdx e; en_hasOpenBlock := en_hasOpenBlock e;
  en_nextBlockIdx := en_nextBlockIdx e; en_stopReason := am_StopReason m;
  en_stopSequence := am_StopSequence m;
  en_finalUsage := match am_Usage m with Some u => Some u | None => en_finalUsage e end |}.

Definition newline : byte := Byte.x0a.
Definition return_byte : byte := Byte.x0d.

(** The bytes of an event: ["event: %s\ndata: %s\n\n"]. *)
Definition event_bytes (e : SseEvent) (payload : bytes) : bytes :=
  string_bytes "event: " ++ string_bytes (event_name e) ++ [newline] ++
  string_bytes "data: " ++ payload ++ [newline; newline].

Section writer.
Context `{Json}.

Definition emit (e : SseEvent) : GoM Writer SseErr unit := λ w,
  match json_Event e with
  | None => (Err (ErrSseMarshal (event_name e)), w)
  | Some payload =>
    match Frame.Write (event_bytes e payload) (w_inner w) with
    | (Err x, t) => (Err (ErrSseWrite (event_name e) x), set_inner t w)
    | (Ok _, t) => (Ok tt, set_inner t w)
    end
  end.

(** Closes the block that is open, if one is. *)
Definition close_block : GoM Writer SseErr unit := λ w,
  if en_hasOpenBlock (w_envel w) then
    (do! emit (ContentBlockStop (en_openBlockIdx (w_envel w))) in modify (set_envel with_closed_block)) w
  else (Ok tt, w).

Definition handleTextBlock (blk : bytes) : GoM Writer SseErr unit := λ w,
  match json_Text blk with
  | None => (Ok tt, w)
  | Some text =>
    (do! (λ w, if en_hasOpenBlock (w_envel w) then (Ok tt, w) else
            let idx := en_nextBlockIdx (w_envel w) in
            (do! emit (TextBlockStart idx) in modify (set_envel (with_open idx))) w) in
     λ w, if bool_decide (text = "") then (Ok tt, w)
          else emit (TextDelta (en_openBlockIdx (w_envel w)) text) w) w
  end.

Definition handleToolUseBlock (blk : bytes) : GoM Writer SseErr unit :=
  do! close_block in λ w,
  let idx := en_nextBlockIdx (w_envel w) in
  (do! emit (ContentBlockStart idx blk) in
   do! emit (ContentBlockStop idx) in
   modify (set_envel with_next)) w.

Definition shipOpaqueBlock (blk : bytes) : GoM Writer SseErr unit :=
  do! close_block in λ w,
  let idx := en_nextBlockIdx (w_envel w) in
  (do! emit (ContentBlockStart idx blk) in
   do! emit (ContentBlockStop idx) in
   modify (set_envel with_next)) w.

Definition handleContentBlock (blk : bytes) : GoM Writer SseErr unit :=
  match json_BlockHead blk with
  | None => gret tt
  | Some ty =>
    if bool_decide (ty = "text") then handleTextBlock blk
    else if bool_decide (ty = "tool_use") then handleToolUseBlock blk
    else shipOpaqueBlock blk
  end.

Fixpoint handle_blocks (blks : list bytes) : GoM Writer SseErr unit :=
  match blks with
  | [] => gret tt
  | blk :: blks => do! handleContentBlock blk in handle_blocks blks
  end.

Definition handleAssistant (body : bytes) : GoM Writer SseErr unit := λ w,
  match json_Assistant body with
  | None => (Ok tt, w)
  | Some m =>
    match w_state w with
    | stateDone => (Ok tt, w)
    | st =>
      (do! (match st with
            | stateIdle =>
              do! emit (MessageStart m) in
              modify (λ w, set_envel (with_id (am_ID m)) (set_wstate stateInMessage w))
            | _ => gret tt
            end) in
       do! modify (set_envel (with_latest m)) in
       handle_blocks (am_Content m)) w
    end
  end.

Definition finishMessage (stopReason stopSequence : option string) (u : option usage) : GoM Writer SseErr unit :=
  do! close_block in
  do! emit (MessageDelta stopReason stopSequence u) in
  do! emit MessageStop in
  modify (set_wstate stateDone).

Definition default_stop (isError : bool) : string := if isError then "error" else "end_turn".

Definition handleResult (body : bytes) : GoM Writer SseErr unit := λ w,
  match json_Result body with
  | None => (Ok tt, w)
  | Some r =>
    match w_state w with
    | stateInMessage =>
      finishMessage
        (Some (default (default_stop (rv_IsError r)) (en_stopReason (w_envel w))))
        (en_stopSequence (w_envel w))
        (match rv_Usage r with Some u => Some u | None => en_finalUsage (w_envel w) end) w
    | _ => (Ok tt, w)
    end
  end.

(** [bytes.TrimRight(line, "\r\n")] *)
Fixpoint trim_right (b : bytes) : bytes :=
  match b with
  | [] => []
  | c :: b =>
    match trim_right b with
    | [] => if bool_decide (c = newline) || bool_decide (c = return_byte) then [] else [c]
    | b' => c :: b'
    end
  end.

Definition is_object (body : bytes) : bool :=
  match body with c :: _ => bool_decide (c = Byte.x7b) | [] => false end.

Definition handleLine (line : bytes) : GoM Writer SseErr unit :=
  let body := trim_right line in
  if negb (is_object body) then gret tt else
  match json_LineHead body with
  | None => gret tt
  | Some ty =>
    if bool_decide (ty = "assistant") then handleAssistant body
    else if bool_decide (ty = "result") then handleResult body
    else gret tt
  end.

(** [buf.ReadBytes('\n')]: the line and what follows it, if a line is complete. *)
Fixpoint ReadBytes (b : bytes) : option (bytes * bytes) :=
  match b with
  | [] => None
  | c :: b =>
    if bool_decide (c = newline) then Some ([c], b)
    else match ReadBytes b with
         | None => None
         | Some (line, rest) => Some (c :: line, rest)
         end
  end.

(** The loop of [Write]. Every round takes a byte, so the length of the buffer is enough. *)
Fixpoint drain (fuel : nat) : GoM Writer SseErr unit := λ w,
  match fuel with
  | O => (Ok tt, w)
  | S fuel =>
    match ReadBytes (w_buf w) with
    | None => (Ok tt, w)
    | Some (line, rest) =>
      match handleLine line (set_buf rest w) with
      | (Err e, w) => (Err e, set_err e w)
      | (Ok _, w) => drain fuel w
      end
    end
  end.

Definition Write (p : bytes) : GoM Writer SseErr Z := λ w,
  match w_firstWriteErr w with
  | Some e => (Err e, w)
  | None =>
    if w_closed w then (Err ErrWriteAfterClose, w) else
    let w := set_buf (w_buf w ++ p) w in
    match drain (length (w_buf w)) w with
    | (Err e, w) => (Err e, w)
    | (Ok _, w) => (Ok (blen p), w)
    end
  end.

Definition Close : GoM Writer SseErr unit := λ w,
  if w_closed w then (Ok tt, w) else
  let w := set_closed w in
  match w_firstWriteErr w, w_state w with
  | None, stateInMessage =>
    match finishMessage (Some "end_turn") None (en_finalUsage (w_envel w)) w with
    | (Err e, w) => (Err e, set_err e w)
    | (Ok _, w) => (Ok tt, w)
    end
  | _, _ => (Ok tt, w)
  end.

Fixpoint Writes (chunks : list bytes) : GoM Writer SseErr unit :=
  match chunks with
  | [] => gret tt
  | p :: chunks => do! Write p in Writes chunks
  end.
End writer.

(** ** What a conversation becomes *)

(** The complete lines of the input, and what is left. *)
Fixpoint lines (b : bytes) : list bytes * bytes :=
  match b with
  | [] => ([], [])
  | c :: b =>
    let '(ls, rest) := lines b in
    if bool_decide (c = newline) then ([c] :: ls, rest)
    else match ls with
         | [] => ([], c :: rest)
         | l :: ls => ((c :: l) :: ls, rest)
         end
  end.

Inductive LineEvent := LAssistant (m : AssistantMessage) | LResult (r : ResultEvent).
Inductive Block := BText (text : string) | BRaw (blk : bytes).

(** What the blocks of the answer are: runs of text, in pieces, and everything else as it is. *)
Inductive Item := TextItem (pieces : list string) | RawItem (blk : bytes).

Section translate.
Context `{Json}.

Definition decode_line (line : bytes) : option LineEvent :=
  let body := trim_right line in
  if negb (is_object body) then None else
  match json_LineHead body with
  | None => None
  | Some ty =>
    if bool_decide (ty = "assistant") then LAssistant <$> json_Assistant body
    else if bool_decide (ty = "result") then LResult <$> json_Result body
    else None
  end.

Definition decode_block (blk : bytes) : option Block :=
  match json_BlockHead blk with
  | None => None
  | Some ty => if bool_decide (ty = "text") then BText <$> json_Text blk else Some (BRaw blk)
  end.

(** The items so far, the last one first, and a block after them. *)
Definition add_block (items : list Item) (b : Block) : list Item :=
  match b, items with
  | BText t, TextItem ts :: items => TextItem (ts ++ [t]) :: items
  | BText t, items => TextItem [t] :: items
  | BRaw blk, items => RawItem blk :: items
  end.

Definition blocks_of (ms : list AssistantMessage) : list Block := ms ≫= λ m, omap decode_block (am_Content m).

Definition items_of (ms : list AssistantMessage) : list Item := foldl add_block [] (blocks_of ms).

Definition text_events (idx : Z) (pieces : list string) : list SseEvent :=
  TextBlockStart idx :: (TextDelta idx <$> filter (λ t, t ≠ "") pieces).

Definition item_events (idx : Z) (it : Item) : list SseEvent :=
  match it with
  | TextItem ts => text_events idx ts ++ [ContentBlockStop idx]
  | RawItem blk => [ContentBlockStart idx blk; ContentBlockStop idx]
  end.

Fixpoint body_events (items : list Item) : list SseEvent :=
  match items with
  | [] => []
  | it :: earlier => body_events earlier ++ item_events (Z.of_nat (length earlier)) it
  end.

(** The first assistant event, and what follows it. *)
Fixpoint first_assistant (evs : list LineEvent) : option (AssistantMessage * list LineEvent) :=
  match evs with
  | [] => None
  | LAssistant m :: evs => Some (m, evs)
  | LResult _ :: evs => first_assistant evs
  end.

(** The assistant events up to a result, and the result. *)
Fixpoint turn (evs : list LineEvent) : list AssistantMessage * option ResultEvent :=
  match evs with
  | [] => ([], None)
  | LAssistant m :: evs => let '(ms, r) := turn evs in (m :: ms, r)
  | LResult r :: _ => ([], Some r)
  end.

Definition last_usage (ms : list AssistantMessage) : option usage := last (omap am_Usage ms).

(** How the message ends: without a result it is cut off, and [Close] makes one up. *)
Definition ending (m : AssistantMessage) (ms : list AssistantMessage) (r : option ResultEvent) : SseEvent :=
  let latest := default m (last ms) in
  match r with
  | Some r => MessageDelta (Some (default (default_stop (rv_IsError r)) (am_StopReason latest)))
                (am_StopSequence latest)
                (match rv_Usage r with Some u => Some u | None => last_usage (m :: ms) end)
  | None => MessageDelta (Some "end_turn") None (last_usage (m :: ms))
  end.

Definition translate (evs : list LineEvent) : list SseEvent :=
  match first_assistant evs with
  | None => []
  | Some (m, rest) =>
    let '(ms, r) := turn rest in
    MessageStart m :: body_events (items_of (m :: ms)) ++ [ending m ms r; MessageStop]
  end.

(** The protocol of a streamed message: blocks numbered from zero, each opened and closed once
    and one at a time, text only in text blocks, and an end. [opened] is whether a block is
    open, and whether that is a text. *)
Fixpoint blocks_wf (idx : Z) (opened : option bool) (es : list SseEvent) : bool :=
  match es, opened with
  | TextBlockStart i :: es, None => (i =? idx) && blocks_wf idx (Some true) es
  | ContentBlockStart i _ :: es, None => (i =? idx) && blocks_wf idx (Some false) es
  | TextDelta i _ :: es, Some true => (i =? idx) && blocks_wf idx opened es
  | ContentBlockStop i :: es, Some _ => (i =? idx) && blocks_wf (idx + 1) None es
  | [MessageDelta _ _ _; MessageStop], None => true
  | _, _ => false
  end.

Definition well_formed (es : list SseEvent) : bool :=
  match es with [] => true | MessageStart _ :: es => blocks_wf 0 None es | _ => false end.

Definition block_text (b : Block) : option string := match b with BText t => Some t | BRaw _ => None end.

(** The text that is streamed, and the one of a turn. *)
Definition deltas (es : list SseEvent) : list string :=
  omap (λ e, match e with TextDelta _ t => Some t | _ => None end) es.

Definition turn_text (evs : list LineEvent) : list string :=
  match first_assistant evs with
  | None => []
  | Some (m, rest) =>
    omap block_text (blocks_of (m :: fst (turn rest)))
  end.

(** What the events look like on the inner writer. *)
Definition render (es : list SseEvent) : bytes :=
  concat ((λ e, event_bytes e (default [] (json_Event e))) <$> es).

Definition conversation (input : bytes) : list LineEvent := omap decode_line (fst (lines input)).
End translate.

(** ** Lemmas: lines *)

Lemma ReadBytes_lines b :
  match ReadBytes b with
  | None => lines b = ([], b)
  | Some (line, rest) => (length rest < length b)%nat ∧ lines b = (line :: fst (lines rest), snd (lines rest))
  end.
Proof.
  induction b as [|c b IH]; [done|]. simpl. case_bool_decide.
  - split; [lia|]. by destruct (lines b).
  - destruct (ReadBytes b) as [[line rest]|].
    + destruct IH as [Hl ->]. simpl. split; [lia|done].
    + by rewrite IH.
Qed.

Lemma lines_app a b :
  lines (a ++ b) = (fst (lines a) ++ fst (lines (snd (lines a) ++ b)), snd (lines (snd (lines a) ++ b))).
Proof.
  induction a as [|c a IH]; [simpl; by destruct (lines b)|].
  simpl. rewrite IH. destruct (lines a) as [ls r]. simpl. case_bool_decide as Hc; [done|].
  destruct ls as [|l ls]; [|done]. simpl. rewrite bool_decide_eq_false_2 by done.
  destruct (lines (r ++ b)) as [ls' r']. simpl. by destruct ls'.
Qed.

(** ** Lemmas: the reference *)

Lemma first_assistant_snoc evs e :
  first_assistant (evs ++ [e]) =
    match first_assistant evs, e with
    | Some (m, rest), _ => Some (m, rest ++ [e])
    | None, LAssistant m => Some (m, [])
    | None, LResult _ => None
    end.
Proof. induction evs as [|[m|r] evs IH]; [by destruct e|done|done]. Qed.

Lemma turn_snoc evs e :
  turn (evs ++ [e]) =
    match turn evs, e with
    | (ms, Some r), _ => (ms, Some r)
    | (ms, None), LAssistant m => (ms ++ [m], None)
    | (ms, None), LResult r => (ms, Some r)
    end.
Proof.
  induction evs as [|[m|r] evs IH]; [by destruct e|simpl|done].
  rewrite IH. by destruct (turn evs) as [ms [?|]], e.
Qed.

Lemma text_wf idx ts tail :
  blocks_wf idx None (text_events idx ts ++ ContentBlockStop idx :: tail) = blocks_wf (idx + 1) None tail.
Proof.
  unfold text_events. simpl. rewrite Z.eqb_refl. simpl.
  induction (filter _ ts) as [|t l IH]; simpl; by rewrite Z.eqb_refl.
Qed.

Lemma body_wf items tail :
  blocks_wf 0 None (body_events items ++ tail) = blocks_wf (Z.of_nat (length items)) None tail.
Proof.
  revert tail. induction items as [|it items IH]; intros tail; [done|].
  cbn [body_events length]. rewrite <- app_assoc, IH.
  replace (Z.of_nat (S (length items))) with (Z.of_nat (length items) + 1) by lia.
  destruct it as [ts|blk]; cbn [item_events]; [rewrite <- app_assoc; apply text_wf|].
  simpl. by rewrite !Z.eqb_refl.
Qed.

Lemma translate_wf `{Json} evs : well_formed (translate evs) = true.
Proof.
  unfold translate. destruct (first_assistant evs) as [[m rest]|]; [|done].
  destruct (turn rest) as [ms r]. cbn. rewrite body_wf. destruct r; reflexivity.
Qed.

Lemma deltas_app es es' : deltas (es ++ es') = deltas es ++ deltas es'.
Proof. apply omap_app. Qed.

Definition item_text (it : Item) : list string := match it with TextItem ts => ts | RawItem _ => [] end.

Lemma body_deltas items :
  deltas (body_events items) = filter (λ t, t ≠ "") (reverse items ≫= item_text).
Proof.
  induction items as [|it items IH]; [done|].
  cbn [body_events]. rewrite deltas_app, IH, reverse_cons, bind_app, filter_app. f_equal.
  destruct it as [ts|blk]; [|done]. cbn [item_events]. rewrite deltas_app. simpl. rewrite !app_nil_r.
  induction (filter _ ts) as [|t l IHl]; [done|]. simpl. f_equal. exact IHl.
Qed.

Lemma items_text bs items :
  reverse (foldl add_block items bs) ≫= item_text =
  (reverse items ≫= item_text) ++ omap block_text bs.
Proof.
  revert items. induction bs as [|b bs IH]; intros items; [simpl; by rewrite app_nil_r|].
  simpl. rewrite IH. destruct b as [t|blk]; simpl.
  - destruct items as [|[ts|blk] items]; rewrite !reverse_cons, !bind_app; simpl; rewrite ?app_nil_r, <- ?app_assoc; done.
  - by rewrite reverse_cons, bind_app; simpl; rewrite !app_nil_r.
Qed.

Lemma translate_text `{Json} evs : deltas (translate evs) = filter (λ t, t ≠ "") (turn_text evs).
Proof.
  unfold translate, turn_text. destruct (first_assistant evs) as [[m rest]|]; [|done].
  destruct (turn rest) as [ms r]. cbn [fst].
  change (deltas (?e :: ?l)) with (deltas l). cbn.
  change (omap _ (body_events ?x ++ ?y)) with (deltas (body_events x ++ y)).
  rewrite deltas_app, body_deltas. unfold items_of. rewrite items_text. cbn.
  by destruct r; rewrite app_nil_r.
Qed.

(** ** Lemmas: the writer on a stream that does not break *)

Section working.
Context `{JsonLaws}.

Lemma render_app es es' : render (es ++ es') = render es ++ render es'.
Proof. unfold render. by rewrite fmap_app, concat_app. Qed.

(** What has been written, whether a block is open, and how many were started. *)
Record Body (es : list SseEvent) (opened : bool) (n : Z) (w : Writer) : Prop := {
  bd_room : tx_room (w_inner w) = None;
  bd_data : tx_data (w_inner w) = render es;
  bd_open : en_hasOpenBlock (w_envel w) = opened;
  bd_idx : opened = true → en_openBlockIdx (w_envel w) = n - 1;
  bd_next : en_nextBlockIdx (w_envel w) = n
}.

(** What writing events and blocks leaves alone. *)
Definition same (w w' : Writer) : Prop :=
  w_state w' = w_state w ∧ w_buf w' = w_buf w ∧ w_firstWriteErr w' = w_firstWriteErr w ∧
  w_closed w' = w_closed w ∧ en_stopReason (w_envel w') = en_stopReason (w_envel w) ∧
  en_stopSequence (w_envel w') = en_stopSequence (w_envel w) ∧
  en_finalUsage (w_envel w') = en_finalUsage (w_envel w).

Lemma same_refl w : same w w.
Proof. done. Qed.

Lemma same_trans w1 w2 w3 : same w1 w2 → same w2 w3 → same w1 w3.
Proof. unfold same. intros (?&?&?&?&?&?&?) (?&?&?&?&?&?&?). split_and!; congruence. Qed.

Lemma emit_ok e es o n w :
  event_raw_ok e → Body es o n w →
  ∃ w', emit e w = (Ok tt, w') ∧ Body (es ++ [e]) o n w' ∧ same w w'.
Proof.
  intros He [Hr Hd Ho Hi Hn]. destruct (json_event_encodes e He) as [p Hp].
  unfold emit. rewrite Hp. unfold Frame.Write. rewrite Hr. eexists. split; [done|].
  split; [|done]. split; cbn; try done. rewrite Hd, render_app. unfold render at 3. cbn.
  by rewrite Hp, app_nil_r.
Qed.

Lemma close_block_ok es o n w :
  Body es o n w →
  ∃ w', close_block w = (Ok tt, w') ∧
    Body (es ++ if o then [ContentBlockStop (n - 1)] else []) false n w' ∧ same w w'.
Proof.
  intros HB. unfold close_block. rewrite (bd_open _ _ _ _ HB). destruct o.
  - rewrite (bd_idx _ _ _ _ HB) by done. unfold gbind.
    destruct (emit_ok (ContentBlockStop (n - 1)) es true n w) as (w' & -> & [H1 H2 H3 H4 H5] & Hs); [done..|].
    eexists. split; [done|]. split; [by split|]. eapply same_trans; [exact Hs|done].
  - rewrite app_nil_r. exists w. split_and!; [done| |done]. destruct HB; by split.
Qed.

(** The events of the items while the last text is open. *)
Definition partial (items : list Item) : list SseEvent :=
  match items with
  | TextItem ts :: earlier => body_events earlier ++ text_events (Z.of_nat (length earlier)) ts
  | _ => body_events items
  end.

Definition is_open (items : list Item) : bool := match items with TextItem _ :: _ => true | _ => false end.

Definition InBody (pre : list SseEvent) (items : list Item) (w : Writer) : Prop :=
  Body (pre ++ partial items) (is_open items) (Z.of_nat (length items)) w.

Lemma partial_closed items :
  partial items ++ (if is_open items then [ContentBlockStop (Z.of_nat (length items) - 1)] else []) =
  body_events items.
Proof.
  destruct items as [|[ts|blk] items]; [done| |simpl; by rewrite app_nil_r].
  cbn [partial is_open body_events item_events length]. rewrite <- app_assoc. f_equal. simpl. do 4 f_equal. lia.
Qed.

Lemma InBody_close pre items w :
  InBody pre items w →
  ∃ w', close_block w = (Ok tt, w') ∧ Body (pre ++ body_events items) false (Z.of_nat (length items)) w' ∧ same w w'.
Proof.
  intros HB. destruct (close_block_ok _ _ _ _ HB) as (w' & Hw & HB' & Hs).
  rewrite <- app_assoc, partial_closed in HB'. by exists w'.
Qed.

Lemma raw_block_ok blk pre items w :
  json_Valid blk = true → InBody pre items w →
  ∃ w', handleToolUseBlock blk w = (Ok tt, w') ∧ InBody pre (RawItem blk :: items) w' ∧ same w w'.
Proof.
  intros Hv HB. destruct (InBody_close _ _ _ HB) as (w1 & H1 & HB1 & Hs1).
  unfold handleToolUseBlock, gbind. rewrite H1, (bd_next _ _ _ _ HB1).
  destruct (emit_ok (ContentBlockStart (Z.of_nat (length items)) blk) _ _ _ w1 Hv HB1) as (w2 & -> & HB2 & Hs2).
  destruct (emit_ok (ContentBlockStop (Z.of_nat (length items))) _ _ _ w2 I HB2) as (w3 & -> & HB3 & Hs3).
  eexists. split; [done|]. split.
  - destruct HB3 as [Hr Hd Ho Hi Hn]. unfold InBody. cbn [partial is_open body_events item_events length].
    rewrite <- !app_assoc in Hd. split; cbn; try done. lia.
  - eapply same_trans; [exact Hs1|]. eapply same_trans; [exact Hs2|]. eapply same_trans; [exact Hs3|done].
Qed.

Lemma text_delta_ok text ts pre items w :
  InBody pre (TextItem ts :: items) w →
  ∃ w', (if bool_decide (text = "") then (Ok tt, w)
         else emit (TextDelta (en_openBlockIdx (w_envel w)) text) w) = (Ok tt, w') ∧
    InBody pre (TextItem (ts ++ [text]) :: items) w' ∧ same w w'.
Proof.
  intros HB. unfold InBody, text_events in *. cbn [partial is_open length] in *.
  unfold text_events in *. rewrite filter_app, fmap_app. case_bool_decide as Ht.
  - exists w. split_and!; [done| |done]. replace (filter (λ t : string, t ≠ "") [text]) with (@nil string); [by rewrite app_nil_r|].
    rewrite filter_cons_False; [done|]. naive_solver.
  - rewrite (bd_idx _ _ _ _ HB) by done.
    destruct (emit_ok (TextDelta (Z.of_nat (S (length items)) - 1) text) _ _ _ w I HB) as (w' & -> & HB' & Hs).
    exists w'. split_and!; [done| |done]. rewrite (filter_cons_True (λ t, t ≠ "")) by done. cbn.
    replace (Z.of_nat (S (length items)) - 1) with (Z.of_nat (length items)) in HB' by lia.
    rewrite <- !app_assoc in HB'. simpl in HB'. exact HB'.
Qed.

Lemma text_block_ok blk text pre items w :
  json_Text blk = Some text → InBody pre items w →
  ∃ w', handleTextBlock blk w = (Ok tt, w') ∧ InBody pre (add_block items (BText text)) w' ∧ same w w'.
Proof.
  intros Ht HB. unfold handleTextBlock. rewrite Ht. unfold gbind.
  rewrite (bd_open _ _ _ _ HB). destruct (is_open items) eqn:Ho.
  - destruct items as [|[ts|] items]; try done. by apply text_delta_ok.
  - rewrite (bd_next _ _ _ _ HB).
    destruct (emit_ok (TextBlockStart (Z.of_nat (length items))) _ _ _ w I HB) as (w1 & -> & HB1 & Hs1).
    assert (InBody pre (TextItem [] :: items) (set_envel (with_open (Z.of_nat (length items))) w1)) as HB2.
    { destruct HB1 as [Hr Hd Hop Hi Hn]. unfold InBody. cbn [partial is_open length].
      assert (partial items = body_events items) as Hp by (by destruct items as [|[]]).
      rewrite Hp, <- app_assoc in Hd. split; cbn; [done|done|done|lia|lia]. }
    destruct (text_delta_ok text [] pre items _ HB2) as (w' & Hw & HB' & Hs).
    unfold modify. exists w'. split; [exact Hw|]. split.
    + replace (add_block items (BText text)) with (TextItem ([] ++ [text]) :: items); [done|].
      by destruct items as [|[]].
    + eapply same_trans; [exact Hs1|]. eapply same_trans; [|exact Hs]. done.
Qed.

Lemma block_ok blk pre items w :
  json_Valid blk = true → InBody pre items w →
  ∃ w', handleContentBlock blk w = (Ok tt, w') ∧
    InBody pre (foldl add_block items (option_list (decode_block blk))) w' ∧ same w w'.
Proof.
  intros Hv HB. unfold handleContentBlock, decode_block. destruct (json_BlockHead blk) as [ty|]; [|by exists w].
  case_bool_decide.
  - destruct (json_Text blk) as [text|] eqn:Ht; [by apply text_block_ok|].
    unfold handleTextBlock. rewrite Ht. by exists w.
  - case_bool_decide; by apply raw_block_ok.
Qed.

Lemma blocks_ok blks pre items w :
  Forall (λ blk, json_Valid blk = true) blks → InBody pre items w →
  ∃ w', handle_blocks blks w = (Ok tt, w') ∧
    InBody pre (foldl add_block items (omap decode_block blks)) w' ∧ same w w'.
Proof.
  intros Hv. revert items w. induction Hv as [|blk blks Hb _ IH]; intros items w HB; [by exists w|].
  simpl. unfold gbind. destruct (block_ok blk pre items w Hb HB) as (w1 & -> & HB1 & Hs1).
  destruct (IH _ _ HB1) as (w2 & Hw2 & HB2 & Hs2). exists w2. split; [done|]. split.
  - rewrite <- foldl_app in HB2. by destruct (decode_block blk).
  - by eapply same_trans.
Qed.

(** The writer in the middle of a message. *)
Definition Running (m : AssistantMessage) (ms : list AssistantMessage) (w : Writer) : Prop :=
  w_state w = stateInMessage ∧ InBody [MessageStart m] (items_of (m :: ms)) w ∧
  en_stopReason (w_envel w) = am_StopReason (default m (last ms)) ∧
  en_stopSequence (w_envel w) = am_StopSequence (default m (last ms)) ∧
  en_finalUsage (w_envel w) = last_usage (m :: ms).

Definition Sim (evs : list LineEvent) (w : Writer) : Prop :=
  w_firstWriteErr w = None ∧
  match first_assistant evs with
  | None => w_state w = stateIdle ∧ Body [] false 0 w ∧ en_finalUsage (w_envel w) = None
  | Some (m, rest) =>
    match turn rest with
    | (ms, None) => Running m ms w
    | (_, Some _) => w_state w = stateDone ∧ tx_room (w_inner w) = None ∧
                     tx_data (w_inner w) = render (translate evs)
    end
  end.

(** What is left alone between two lines. *)
Definition kept (w w' : Writer) : Prop :=
  w_buf w' = w_buf w ∧ w_closed w' = w_closed w ∧ w_firstWriteErr w' = w_firstWriteErr w.

Lemma same_kept w w' : same w w' → kept w w'.
Proof. unfold same, kept. naive_solver. Qed.

(** The events of a message, once it is open. *)
Lemma message_ok m0 ms m w :
  Forall (λ blk, json_Valid blk = true) (am_Content m) → w_state w = stateInMessage →
  InBody [MessageStart m0] (items_of ms) w → en_finalUsage (w_envel w) = last_usage ms →
  ∃ w', (do! modify (set_envel (with_latest m)) in handle_blocks (am_Content m)) w = (Ok tt, w') ∧ kept w w' ∧
    w_state w' = stateInMessage ∧ InBody [MessageStart m0] (items_of (ms ++ [m])) w' ∧
    en_stopReason (w_envel w') = am_StopReason m ∧ en_stopSequence (w_envel w') = am_StopSequence m ∧
    en_finalUsage (w_envel w') = last_usage (ms ++ [m]).
Proof.
  intros Hv Hst HB Hu. unfold gbind at 1. unfold modify.
  destruct (blocks_ok (am_Content m) [MessageStart m0] (items_of ms) (set_envel (with_latest m) w))
    as (w' & Hw & HB' & Hs); [done|by destruct HB; split|].
  exists w'. split; [done|]. destruct Hs as (E1 & E2 & E3 & E4 & E5 & E6 & E7). cbn in *.
  split_and!; try congruence; [done|..].
  - replace (items_of (ms ++ [m])) with (foldl add_block (items_of ms) (omap decode_block (am_Content m))); [done|].
    unfold items_of, blocks_of. rewrite bind_app, foldl_app. simpl. by rewrite app_nil_r.
  - rewrite E7, Hu. unfold last_usage. rewrite omap_app. simpl. destruct (am_Usage m); [by rewrite last_snoc|].
    by rewrite app_nil_r.
Qed.

Lemma last_snoc_default {A} (d x : A) l : default d (last (l ++ [x])) = x.
Proof. by rewrite last_snoc. Qed.

Lemma assistant_ok body m evs w :
  json_Assistant body = Some m → Sim evs w →
  ∃ w', handleAssistant body w = (Ok tt, w') ∧ kept w w' ∧ Sim (evs ++ [LAssistant m]) w'.
Proof.
  intros Hm [He HS]. pose proof (json_content_valid _ _ Hm) as Hv.
  unfold handleAssistant, Sim. rewrite Hm, first_assistant_snoc.
  destruct (first_assistant evs) as [[m0 rest]|] eqn:Hf.
  - rewrite turn_snoc. destruct (turn rest) as [ms [r|]] eqn:Ht.
    + destruct HS as (Hst & Hr & Hd). rewrite Hst. exists w. split_and!; try done.
      rewrite Hd. unfold translate. by rewrite first_assistant_snoc, Hf, turn_snoc, Ht.
    + destruct HS as (Hst & HB & _ & _ & Hu). rewrite Hst.
      destruct (message_ok m0 (m0 :: ms) m w) as (w' & Hw & Hk & Hst' & HB' & H1 & H2 & H3); [done..|].
      exists w'. split; [exact Hw|]. split; [done|]. split; [destruct Hk as (_ & _ & ->); done|].
      split_and!; try done; by rewrite last_snoc_default.
  - destruct HS as (Hst & HB & Hu). rewrite Hst. unfold gbind at 1 2.
    destruct (emit_ok (MessageStart m) _ _ _ w I HB) as (w1 & -> & HB1 & Hs1). unfold modify at 1.
    set (w2 := set_envel (with_id (am_ID m)) (set_wstate stateInMessage w1)).
    destruct (message_ok m [] m w2) as (w' & Hw & Hk & Hst' & HB' & H1 & H2 & H3); [done|done| | |].
    + destruct HB1 as [? ? ? ? ?]. by split.
    + destruct Hs1 as (_ & _ & _ & _ & _ & _ & E). cbn. by rewrite E.
    + exists w'. split; [exact Hw|]. destruct Hs1 as (_ & E1 & E2 & E3 & _). destruct Hk as (K1 & K2 & K3).
      cbn in *. split; [unfold kept; split_and!; congruence|]. split; [congruence|]. by split_and!.
Qed.

Lemma finish_ok sr sq u pre items w :
  InBody pre items w →
  ∃ w', finishMessage sr sq u w = (Ok tt, w') ∧ kept w w' ∧ w_state w' = stateDone ∧
    tx_room (w_inner w') = None ∧
    tx_data (w_inner w') = render (pre ++ body_events items ++ [MessageDelta sr sq u; MessageStop]).
Proof.
  intros HB. destruct (InBody_close _ _ _ HB) as (w1 & H1 & HB1 & Hs1).
  unfold finishMessage, gbind. rewrite H1.
  destruct (emit_ok (MessageDelta sr sq u) _ _ _ w1 I HB1) as (w2 & -> & HB2 & Hs2).
  destruct (emit_ok MessageStop _ _ _ w2 I HB2) as (w3 & -> & HB3 & Hs3).
  eexists. split; [done|]. pose proof (same_kept _ _ (same_trans _ _ _ Hs1 (same_trans _ _ _ Hs2 Hs3))) as Hk.
  split_and!; try done; [exact (bd_room _ _ _ _ HB3)|].
  cbn. rewrite (bd_data _ _ _ _ HB3), <- !app_assoc. done.
Qed.

Lemma result_ok body r evs w :
  json_Result body = Some r → Sim evs w →
  ∃ w', handleResult body w = (Ok tt, w') ∧ kept w w' ∧ Sim (evs ++ [LResult r]) w'.
Proof.
  intros Hr [He HS]. unfold handleResult, Sim. rewrite Hr, first_assistant_snoc.
  destruct (first_assistant evs) as [[m0 rest]|] eqn:Hf.
  - rewrite turn_snoc. destruct (turn rest) as [ms [r0|]] eqn:Ht.
    + destruct HS as (Hst & Hroom & Hd). rewrite Hst. exists w. split_and!; try done.
      rewrite Hd. unfold translate. by rewrite first_assistant_snoc, Hf, turn_snoc, Ht.
    + destruct HS as (Hst & HB & H1 & H2 & H3). rewrite Hst, H1, H2, H3.
      destruct (finish_ok (Some (default (default_stop (rv_IsError r)) (am_StopReason (default m0 (last ms)))))
        (am_StopSequence (default m0 (last ms)))
        (match rv_Usage r with Some u => Some u | None => last_usage (m0 :: ms) end) _ _ w HB)
        as (w' & Hw & Hk & Hst' & Hroom & Hd).
      exists w'. split; [exact Hw|]. split; [done|]. split; [destruct Hk as (_ & _ & ->); done|].
      split_and!; try done. rewrite Hd. unfold translate. by rewrite first_assistant_snoc, Hf, turn_snoc, Ht.
  - destruct HS as (Hst & HB & Hu). rewrite Hst. exists w. by split_and!.
Qed.

Lemma line_ok line evs w :
  Sim evs w →
  ∃ w', handleLine line w = (Ok tt, w') ∧ kept w w' ∧ Sim (evs ++ option_list (decode_line line)) w'.
Proof.
  intros HS. unfold handleLine, decode_line.
  assert (∃ w', (Ok tt : res SseErr unit, w) = (Ok tt, w') ∧ kept w w' ∧ Sim (evs ++ []) w') as Hskip.
  { exists w. by rewrite app_nil_r. }
  destruct (is_object _); [|exact Hskip]. cbn [negb].
  destruct (json_LineHead _) as [ty|]; [|exact Hskip].
  case_bool_decide; [|case_bool_decide; [|exact Hskip]].
  - destruct (json_Assistant _) as [m|] eqn:Hm; [by apply assistant_ok|].
    unfold handleAssistant. rewrite Hm. exact Hskip.
  - destruct (json_Result _) as [r|] eqn:Hr; [by apply result_ok|].
    unfold handleResult. rewrite Hr. exact Hskip.
Qed.

Lemma Sim_set_buf b evs w : Sim evs w → Sim evs (set_buf b w).
Proof.
  intros [He HS]. split; [done|]. destruct (first_assistant evs) as [[m r]|].
  - destruct (turn r) as [ms [?|]]; [done|]. destruct HS as (H1 & [] & H2 & H3 & H4).
    unfold Running. by split_and!.
  - destruct HS as (H1 & [] & H2). by split_and!.
Qed.

Lemma drain_ok fuel evs w :
  (length (w_buf w) <= fuel)%nat → Sim evs w →
  ∃ w', drain fuel w = (Ok tt, w') ∧ w_buf w' = snd (lines (w_buf w)) ∧ w_closed w' = w_closed w ∧
    Sim (evs ++ omap decode_line (fst (lines (w_buf w)))) w'.
Proof.
  revert evs w. induction fuel as [|fuel IH]; intros evs w Hl HS.
  - assert (w_buf w = []) as E by (by apply nil_length_inv; lia). exists w. rewrite E. simpl. by rewrite app_nil_r.
  - simpl. pose proof (ReadBytes_lines (w_buf w)) as Hlines.
    destruct (ReadBytes (w_buf w)) as [[line rest]|].
    + destruct Hlines as [Hlt ->].
      destruct (line_ok line evs (set_buf rest w)) as (w1 & -> & (Hb & Hc & _) & HS1); [by apply Sim_set_buf|].
      cbn in Hb, Hc. destruct (IH _ w1 ltac:(rewrite Hb; lia) HS1) as (w2 & Hw2 & Hb2 & Hc2 & HS2).
      exists w2. rewrite Hb in *. split_and!; [done|done|congruence|]. cbn. rewrite <- app_assoc in HS2.
      by destruct (decode_line line).
    + rewrite Hlines. exists w. cbn. by rewrite app_nil_r.
Qed.

Definition SimW (input : bytes) (w : Writer) : Prop :=
  w_buf w = snd (lines input) ∧ w_closed w = false ∧ Sim (conversation input) w.

Lemma Write_ok p input w :
  SimW input w → ∃ w', Write p w = (Ok (blen p), w') ∧ SimW (input ++ p) w'.
Proof.
  intros (Hb & Hc & HS). unfold Write. rewrite (proj1 HS), Hc. cbv zeta.
  destruct (drain_ok (length (w_buf (set_buf (w_buf w ++ p) w))) (conversation input) (set_buf (w_buf w ++ p) w))
    as (w' & -> & Hb' & Hc' & HS'); [lia|by apply Sim_set_buf|].
  exists w'. split; [done|]. cbn in Hb', Hc', HS'. unfold SimW, conversation in *. rewrite lines_app, <- Hb.
  cbn. rewrite omap_app. split_and!; [done|congruence|done].
Qed.

Lemma Writes_ok chunks input w :
  SimW input w → ∃ w', Writes chunks w = (Ok tt, w') ∧ SimW (input ++ concat chunks) w'.
Proof.
  revert input w. induction chunks as [|p chunks IH]; intros input w HS.
  - exists w. by rewrite app_nil_r.
  - simpl. unfold gbind. destruct (Write_ok p input w HS) as (w1 & -> & HS1).
    destruct (IH _ _ HS1) as (w2 & Hw2 & HS2). exists w2. by rewrite app_assoc.
Qed.

Lemma Close_ok input w :
  SimW input w → ∃ w', Close w = (Ok tt, w') ∧ tx_data (w_inner w') = render (translate (conversation input)).
Proof.
  intros (_ & Hc & He & HS). unfold Close. rewrite Hc. cbn [w_firstWriteErr set_closed w_state]. rewrite He.
  destruct (first_assistant (conversation input)) as [[m rest]|] eqn:Hf.
  - destruct (turn rest) as [ms [r|]] eqn:Ht.
    + destruct HS as (-> & _ & Hd). eexists. split; [done|]. exact Hd.
    + destruct HS as (-> & HB & _ & _ & Hu). cbn [w_envel set_closed]. rewrite Hu.
      destruct (finish_ok (Some "end_turn") None (last_usage (m :: ms)) [MessageStart m] (items_of (m :: ms)) (set_closed w))
        as (w' & -> & _ & _ & _ & Hd); [by destruct HB; split|].
      exists w'. split; [done|]. rewrite Hd. unfold translate. by rewrite Hf, Ht.
  - destruct HS as (-> & HB & _). eexists. split; [done|]. cbn. rewrite (bd_data _ _ _ _ HB).
    unfold translate. by rewrite Hf.
Qed.

(** Any chunks, written and closed. *)
Lemma translated chunks :
  ∃ w w', Writes chunks (NewWriter open_tx) = (Ok tt, w) ∧ Close w = (Ok tt, w') ∧
    let es := translate (conversation (concat chunks)) in
    tx_data (w_inner w') = render es ∧ well_formed es = true ∧
    deltas es = filter (λ t, t ≠ "") (turn_text (conversation (concat chunks))).
Proof.
  destruct (Writes_ok chunks [] (NewWriter open_tx)) as (w & Hw & HS).
  { split; [done|]. split; [done|]. split; [done|]. cbn. split_and!; [done| |done]. by split. }
  destruct (Close_ok _ _ HS) as (w' & Hw' & Hd). exists w, w'. cbn zeta.
  split_and!; [done|done|done|apply translate_wf|apply translate_text].
Qed.

(** C20: the translator implements [translate]. However the bytes of Claude Code are cut into
    writes, and whatever lines are among them, every write and the close succeed on a stream
    that does not break, and what the consumer receives is the encoding of the events of the
    conversation: a well-formed message, or nothing if there was no answer, whose text is the
    text of the answer. *)
Theorem translation_correct chunks :
  ∃ w w', Writes chunks (NewWriter open_tx) = (Ok tt, w) ∧ Close w = (Ok tt, w') ∧
    let es := translate (conversation (concat chunks)) in
    tx_data (w_inner w') = render es ∧ well_formed es = true ∧
    deltas es = filter (λ t, t ≠ "") (turn_text (conversation (concat chunks))).
Proof. apply translated. Qed.
End working.

(** ** When the stream breaks *)

Section broken.
Context `{Json}.

(** After an error every write fails with it, and writes nothing. *)
Lemma error_latches e p w : w_firstWriteErr w = Some e → Write p w = (Err e, w).
Proof. intros He. unfold Write. by rewrite He. Qed.

Lemma drain_err fuel e w w' : drain fuel w = (Err e, w') → w_firstWriteErr w' = Some e.
Proof.
  revert w. induction fuel as [|fuel IH]; intros w; simpl; [done|].
  destruct (ReadBytes (w_buf w)) as [[line rest]|]; [|done].
  destruct (handleLine line (set_buf rest w)) as [[[]|x] w1]; [apply IH|]. by intros [= <- <-].
Qed.

(** The first error of the stream is the answer to every later write. *)
Lemma first_error_is_final e p q w w' :
  w_closed w = false → Write p w = (Err e, w') → Write q w' = (Err e, w').
Proof.
  intros Hc Hw. apply error_latches. unfold Write in Hw. rewrite Hc in Hw.
  destruct (w_firstWriteErr w) eqn:He; [by simplify_eq|].
  destruct (drain _ _) as [[[]|x] w1] eqn:Hd; [done|]. injection Hw as <- <-. by eapply drain_err.
Qed.

(** Closing twice is closing once. *)
Lemma Close_idempotent w w' r : Close w = (r, w') → Close w' = (Ok tt, w').
Proof.
  unfold Close. destruct (w_closed w) eqn:Hc; [intros [= <- <-]; by rewrite Hc|].
  assert (∀ w1 w2 r, finishMessage (Some "end_turn") None (en_finalUsage (w_envel w1)) w1 = (r, w2) →
            w_closed w1 = true → w_closed w2 = true) as Hk.
  { intros w1 w2 r1. unfold finishMessage, close_block, emit, modify, gbind. intros E Hcl.
    repeat (case_match; simplify_eq; try done). }
  cbn [w_firstWriteErr set_closed w_state].
  destruct (w_firstWriteErr w); [by intros [= <- <-]|]. destruct (w_state w); try by intros [= <- <-].
  destruct (finishMessage _ _ _ _) as [[[]|x] w1] eqn:Hf; intros [= <- <-]; cbn;
    by rewrite (Hk _ _ _ Hf).
Qed.
End broken.

(** ** A run *)

Definition w_answer_line : bytes := string_bytes "{assistant}".
Definition w_result_line : bytes := string_bytes "{result}".
Definition w_message : AssistantMessage := {|
  am_ID := "msg_1"; am_Type := "message"; am_Role := "assistant"; am_Model := "claude-haiku-4-5";
  am_Content := [string_bytes "text:Hello"; string_bytes "tool"; string_bytes "text:world"];
  am_StopReason := None; am_StopSequence := None; am_Usage := Some {| u_InputTokens := 3; u_OutputTokens := 1 |} |}.

Definition w_json : Json := {|
  json_LineHead b := if decide (b = w_answer_line) then Some "assistant"
                     else if decide (b = w_result_line) then Some "result" else None;
  json_Assistant b := if decide (b = w_answer_line) then Some w_message else None;
  json_Result b := if decide (b = w_result_line)
                   then Some {| rv_IsError := false; rv_Usage := Some {| u_InputTokens := 9; u_OutputTokens := 4 |} |}
                   else None;
  json_BlockHead b := if decide (take 5 b = string_bytes "text:") then Some "text" else Some "tool_use";
  json_Text b := Some (String.string_of_list_byte (drop 5 b));
  json_Valid b := true;
  json_Event e := Some (string_bytes (event_name e)) |}.

Lemma w_json_laws : @JsonLaws w_json.
Proof. split; [intros body m _; by apply Forall_true|by eexists]. Qed.

Definition w_chunks : list bytes :=
  [string_bytes "{assis"; string_bytes "tant}" ++ [newline; newline] ++ string_bytes "{res"; string_bytes "ult}" ++ [return_byte];
   [newline]].

Lemma translation_correct_witness :
  ∃ w w', @Writes w_json w_chunks (NewWriter open_tx) = (Ok tt, w) ∧ @Close w_json w = (Ok tt, w') ∧
    tx_data (w_inner w') = @render w_json [
      MessageStart w_message; TextBlockStart 0; TextDelta 0 "Hello"; ContentBlockStop 0;
      ContentBlockStart 1 (string_bytes "tool"); ContentBlockStop 1;
      TextBlockStart 2; TextDelta 2 "world"; ContentBlockStop 2;
      MessageDelta (Some "end_turn") None (Some {| u_InputTokens := 9; u_OutputTokens := 4 |}); MessageStop].
Proof.
  destruct (@translation_correct w_json w_json_laws w_chunks) as (w & w' & H1 & H2 & H3 & _ & _).
  exists w, w'. split; [exact H1|]. split; [exact H2|]. rewrite H3. vm_compute. reflexivity.
Defined.
