(* ===== verification/KnownPeers.v ===== *)
(** plugin/internal/bootstrap: the trackers a plugin knows.

    The store learned from gossip, its file, and the signed list a plugin starts from. A file
    is its content, if it exists; writing it atomically either replaces it or leaves it alone.
    JSON and protobuf are codecs of rows and lists. Go ranges over a map in any order; [values]
    has one, and sorts what it gives before it is used. *)
From S2P Require Import Seeder.
From S2P Require Import Prelude Proto Float Signing FedProto AdmQueue Wiring Frame Server TrackerClient.
From Stdlib Require Import Floats.SpecFloat.

(** ** The store *)

Definition KnownPeersCap : nat := 256.
Definition KnownPeersStaleAge : Z := 7 * 24 * 3600 * Second.

Abbreviation Peers := (gmap bytes Peer).

Record persistedPeer := {
  pp_TrackerID : string; pp_Addr : string; pp_RegionHint : string; pp_HealthScore : spec_float; pp_LastSeen : Z
}.

(** [json.MarshalIndent] and [json.Unmarshal] of the file. *)
Class PeersJson := {
  marshal_peers : list persistedPeer → option bytes;
  unmarshal_peers : bytes → option (list persistedPeer)
}.

Definition encodePersisted (p : Peer) : persistedPeer := {|
  pp_TrackerID := hex_EncodeToString (pr_TrackerID p); pp_Addr := pr_Addr p; pp_RegionHint := pr_RegionHint p;
  pp_HealthScore := pr_HealthScore p; pp_LastSeen := Unix (pr_LastSeen p) |}.

Definition decodePersisted (p : persistedPeer) : option Peer :=
  match hex_DecodeString (pp_TrackerID p) with
  | None => None
  | Some raw =>
    if negb (blen raw =? 32) then None else
    if bool_decide (pp_Addr p = "") then None else
    Some {| pr_TrackerID := raw; pr_Addr := pp_Addr p; pr_RegionHint := pp_RegionHint p;
            pr_HealthScore := pp_HealthScore p; pr_LastSeen := unix_time (pp_LastSeen p) |}
  end.

(** The best first; equal ones by their id. *)
Definition health_less (a b : Peer) : bool :=
  if negb (SFeqb (pr_HealthScore a) (pr_HealthScore b)) then SFltb (pr_HealthScore b) (pr_HealthScore a)
  else bytes_ltb (pr_TrackerID a) (pr_TrackerID b).

Definition sortByHealthDesc (ps : list Peer) : list Peer := stable_sort health_less ps.

Definition row_less (a b : persistedPeer) : bool :=
  if negb (SFeqb (pp_HealthScore a) (pp_HealthScore b)) then SFltb (pp_HealthScore b) (pp_HealthScore a)
  else String.ltb (pp_TrackerID a) (pp_TrackerID b).

(** What [atomicWriteFile] meets: which of its calls fail. Every failure before the rename
    leaves the file as it was, and a rename that fails too. *)
Record AtomicIo := {
  aw_mkdir : bool; aw_create : bool; aw_write : bool; aw_sync : bool; aw_close : bool; aw_rename : bool
}.

Inductive BootErr :=
| ErrReadFile | ErrParsePeers | ErrCancelledMerge | ErrMarshalPeers | ErrAtomic (step : string)
| ErrSignerPubkey | ErrListMissing | ErrListUnmarshal | ErrListInvalid (e : string) | ErrListSig (e : ClientErr)
| ErrBootstrapListExpired | ErrNoBuiltin | ErrBuiltin (e : BootErr) | ErrFile (e : BootErr) | ErrCfgDir
| ErrEmptyBytes.

Definition File : Type := option bytes.

Definition atomicWriteFile (io : AtomicIo) (content : bytes) : GoM File BootErr unit :=
  do! gguard (negb (aw_mkdir io)) (ErrAtomic "mkdir") in
  do! gguard (negb (aw_create io)) (ErrAtomic "create tempfile") in
  do! gguard (negb (aw_write io)) (ErrAtomic "write tempfile") in
  do! gguard (negb (aw_sync io)) (ErrAtomic "fsync tempfile") in
  do! gguard (negb (aw_close io)) (ErrAtomic "close tempfile") in
  do! gguard (negb (aw_rename io)) (ErrAtomic "rename tempfile") in
  λ _, (Ok tt, Some content).

Definition SaveSignedBootstrapList (io : AtomicIo) (signed : bytes) : GoM File BootErr unit :=
  do! gguard (blen signed =? 0) ErrEmptyBytes in atomicWriteFile io signed.

(** One entry of a [Merge]. *)
Definition merge_entry (cutoff : Z) (m : Peers) (e : Peer) : Peers :=
  if bool_decide (pr_TrackerID e = zero_bytes 32) || bool_decide (pr_Addr e = "") then m else
  if pr_LastSeen e <? cutoff then m else
  match m !! pr_TrackerID e with
  | Some existing => if pr_LastSeen e <? pr_LastSeen existing then m else <[pr_TrackerID e := e]> m
  | None => <[pr_TrackerID e := e]> m
  end.

Definition drop_stale (cutoff : Z) (m : Peers) : Peers := filter (λ '(_, p), ¬ pr_LastSeen p < cutoff) m.

(** The rows in the order Go's map iteration happens to have. *)
Definition values (m : Peers) : list Peer := (map_to_list m).*2.

Definition cap_peers (m : Peers) : Peers :=
  if Nat.leb (size m) KnownPeersCap then m
  else foldr (λ p m, delete (pr_TrackerID p) m) m (drop KnownPeersCap (sortByHealthDesc (values m))).

Section store.
Context `{PeersJson}.

Record KnownPeers := { kp_peers : Peers; kp_file : File }.

(** [readable] is whether the file, if it exists, can be read. *)
Definition LoadKnownPeers (readable : bool) (now : Z) (file : File) : res BootErr Peers :=
  match file with
  | None => Ok ∅
  | Some raw =>
    if negb readable then Err ErrReadFile else
    match unmarshal_peers raw with
    | None => Err ErrParsePeers
    | Some rows =>
      Ok (foldl (λ m row,
            match decodePersisted row with
            | None => m
            | Some e => if KnownPeersStaleAge <? time_Sub now (pr_LastSeen e) then m
                        else <[pr_TrackerID e := e]> m
            end) ∅ rows)
    end
  end.

Definition persistLocked (io : AtomicIo) (m : Peers) : GoM File BootErr unit :=
  match marshal_peers (stable_sort row_less (encodePersisted <$> values m)) with
  | None => gfail ErrMarshalPeers
  | Some data => atomicWriteFile io data
  end.

Definition merged (now : Z) (entries : list Peer) (m : Peers) : Peers :=
  let cutoff := now - KnownPeersStaleAge in
  cap_peers (drop_stale cutoff (foldl (merge_entry cutoff) m entries)).

(** The rows in memory stay also when the file could not be written. *)
Definition Merge (cancelled : bool) (io : AtomicIo) (now : Z) (entries : list Peer) : GoM KnownPeers BootErr unit := λ k,
  if cancelled then (Err ErrCancelledMerge, k) else
  let m := merged now entries (kp_peers k) in
  let '(r, f) := persistLocked io m (kp_file k) in
  (r, {| kp_peers := m; kp_file := f |}).

Definition Snapshot (k : KnownPeers) : list Peer := sortByHealthDesc (values (kp_peers k)).
Definition Len (k : KnownPeers) : nat := size (kp_peers k).
End store.

(** ** Signed lists *)

Section signed.
Context `{Crypto} `{ClientWire}.
Variable canonical : BootstrapPeerList → option bytes.

Definition list_endpoint (p : option BootstrapPeer) : list TrackerEndpoint :=
  match p with
  | None => []
  | Some p => [{| ep_Addr := bp_Addr p; ep_IdentityHash := into_array 32 (bp_TrackerId p); ep_Region := bp_RegionHint p |}]
  end.

Definition signedListSkewToleranceS : Z := 60.

Definition parseSignedBootstrapBytes (raw signerPub : bytes) (now : Z) : res BootErr (list TrackerEndpoint) :=
  if negb (blen signerPub =? PublicKeySize) then Err ErrSignerPubkey else
  match cr_BootstrapPeerList raw with
  | None => Err ErrListUnmarshal
  | Some l =>
    match ValidateBootstrapPeerList (Some l) with
    | Some e => Err (ErrListInvalid e)
    | None =>
      match VerifyBootstrapPeerListSig canonical signerPub l with
      | Some e => Err (ErrListSig e)
      | None =>
        if u64 (bl_ExpiresAt l + signedListSkewToleranceS) <? u64 (Unix now) then Err ErrBootstrapListExpired
        else Ok (bl_Peers l ≫= list_endpoint)
      end
    end
  end.

(** [ParseSignedBootstrapList] has the same rules on a file's content. *)
Definition ParseSignedBootstrapList (readable : bool) (file : File) (signerPub : bytes) (now : Z)
    : res BootErr (list TrackerEndpoint) :=
  if negb (blen signerPub =? PublicKeySize) then Err ErrSignerPubkey else
  match file with
  | None => Err ErrListMissing
  | Some raw => if negb readable then Err ErrReadFile else parseSignedBootstrapBytes raw signerPub now
  end.

Definition capEndpoints (eps : list TrackerEndpoint) (n : Z) : list TrackerEndpoint :=
  if (n <=? 0) || (blen eps <=? n) then eps else take (Z.to_nat n) eps.

Definition ResolveAutoEndpoints (cfgDir : string) (signerPub builtin : bytes) (now maxEndpoints : Z) (readable : bool) (file : File)
    : res BootErr (list TrackerEndpoint) :=
  if bool_decide (cfgDir = "") then Err ErrCfgDir else
  match ParseSignedBootstrapList readable file signerPub now with
  | Ok eps => Ok (capEndpoints eps maxEndpoints)
  | Err ErrListMissing =>
    if blen builtin =? 0 then Err ErrNoBuiltin else
    match parseSignedBootstrapBytes builtin signerPub now with
    | Err e => Err (ErrBuiltin e)
    | Ok eps => Ok (capEndpoints eps maxEndpoints)
    end
  | Err e => Err (ErrFile e)
  end.
End signed.

(** ** Lemmas: order *)

Definition numeric (p : Peer) : Prop := is_NaN (pr_HealthScore p) = false.

Lemma health_less_iff a b :
  numeric a → numeric b →
  health_less a b = true ↔
    key_lt (f64_key (pr_HealthScore b)) (f64_key (pr_HealthScore a)) ∨
    f64_key (pr_HealthScore a) = f64_key (pr_HealthScore b) ∧ bytes_ltb (pr_TrackerID a) (pr_TrackerID b) = true.
Proof.
  intros Ha Hb. unfold health_less. pose proof (SFeqb_key _ _ Ha Hb) as He. pose proof (SFltb_key _ _ Hb Ha) as Hl.
  destruct (SFeqb _ _); cbn [negb].
  - apply proj1 in He. specialize (He eq_refl). rewrite He. split; [by right|].
    intros [Hk|[_ Hk]]; [by apply key_lt_irrefl in Hk|done].
  - rewrite Hl. split; [by left|]. intros [Hk|[Hk _]]; [done|]. by apply He in Hk.
Qed.

Lemma sort_ordered ps :
  Forall numeric ps → StronglySorted (λ x y, health_less y x = false) (sortByHealthDesc ps).
Proof.
  apply stable_sort_sorted.
  - intros x y Hx Hy Hl. apply not_true_iff_false. rewrite !health_less_iff in * by done.
    intros Hg. destruct Hg as [Hk|[He Hk]], Hl as [Hl|[He' Hl]].
    + eapply key_lt_irrefl, key_lt_trans; eauto.
    + rewrite He' in Hk. by eapply key_lt_irrefl.
    + rewrite He in Hl. by eapply key_lt_irrefl.
    + apply bytes_ltb_asym in Hk. congruence.
  - intros x y z Hx Hy Hz H1 H2. apply not_true_iff_false. rewrite <- !not_true_iff_false, !health_less_iff in * by done.
    set (kx := f64_key (pr_HealthScore x)) in *. set (ky := f64_key (pr_HealthScore y)) in *.
    set (kz := f64_key (pr_HealthScore z)) in *. intros [Hk|[He Hk]].
    + destruct kx as [[x1 x2] x3], ky as [[y1 y2] y3], kz as [[z1 z2] z3]. simpl in *.
      destruct (decide ((y1, y2, y3) = (x1, x2, x3))) as [E1|]; [|destruct (decide ((z1, z2, z3) = (y1, y2, y3))) as [E2|]].
      * injection E1 as -> -> ->. apply H2. by left.
      * injection E2 as -> -> ->. apply H1. by left.
      * assert ((z1, z2, z3) ≠ (y1, y2, y3)) as E2 by done. lia.
    + rewrite <- He in *. assert (ky = kz) as E.
      { destruct ky as [[y1 y2] y3], kz as [[z1 z2] z3]. simpl in *. f_equal; [f_equal|]; lia. }
      rewrite E in *. pose proof (bytes_ltb_ntrans (pr_TrackerID x) (pr_TrackerID y) (pr_TrackerID z)) as Hn.
      revert Hk. rewrite Hn; [done|..]; apply not_true_iff_false; intros Hb; [apply H1|apply H2]; right; done.
Qed.

(** ** Lemmas: merging *)

(** Rows are under their own ids, which are 32 bytes. *)
Definition keyed (m : Peers) : Prop := map_Forall (λ id p, pr_TrackerID p = id ∧ length id = 32%nat) m.

Lemma keyed_merge_entry cutoff m e : length (pr_TrackerID e) = 32%nat → keyed m → keyed (merge_entry cutoff m e).
Proof.
  intros He Hm. unfold merge_entry.
  destruct (_ || _); [done|]. destruct (_ <? cutoff); [done|].
  destruct (m !! pr_TrackerID e) as [old|]; [destruct (_ <? _); [done|]|]; by apply map_Forall_insert_2.
Qed.

(** A row never goes back to an earlier sighting. *)
Definition advances (m m' : Peers) : Prop :=
  ∀ id p p', m !! id = Some p → m' !! id = Some p' → pr_LastSeen p <= pr_LastSeen p'.

Lemma merge_entry_grows cutoff m e id p :
  keyed m → m !! id = Some p → ∃ p', merge_entry cutoff m e !! id = Some p' ∧ pr_LastSeen p <= pr_LastSeen p'.
Proof.
  intros Hm Hp. unfold merge_entry.
  assert (∃ p', m !! id = Some p' ∧ pr_LastSeen p <= pr_LastSeen p') as Hsame by (exists p; split; [done|lia]).
  destruct (_ || _); [done|]. destruct (_ <? cutoff); [done|].
  destruct (m !! pr_TrackerID e) as [old|] eqn:Eo.
  - destruct (Z.ltb_spec (pr_LastSeen e) (pr_LastSeen old)); [done|].
    destruct (decide (pr_TrackerID e = id)) as [<-|].
    + exists e. rewrite lookup_insert_eq. split; [done|]. simplify_eq. lia.
    + exists p. rewrite lookup_insert_ne by done. split; [done|lia].
  - destruct (decide (pr_TrackerID e = id)) as [<-|]; [congruence|].
    exists p. rewrite lookup_insert_ne by done. split; [done|lia].
Qed.

Lemma merge_entries_grow cutoff entries m id p :
  Forall (λ e, length (pr_TrackerID e) = 32%nat) entries → keyed m → m !! id = Some p →
  keyed (foldl (merge_entry cutoff) m entries) ∧
  ∃ p', foldl (merge_entry cutoff) m entries !! id = Some p' ∧ pr_LastSeen p <= pr_LastSeen p'.
Proof.
  intros He. revert m p. induction He as [|e entries He _ IH]; intros m p Hm Hp; simpl.
  - split; [done|]. exists p. split; [done|lia].
  - destruct (merge_entry_grows cutoff m e id p Hm Hp) as (p1 & Hp1 & Hl1).
    destruct (IH _ p1 (keyed_merge_entry cutoff m e He Hm) Hp1) as (Hk & p' & Hp' & Hl).
    split; [done|]. exists p'. split; [done|lia].
Qed.

Lemma keyed_entries cutoff entries m :
  Forall (λ e, length (pr_TrackerID e) = 32%nat) entries → keyed m → keyed (foldl (merge_entry cutoff) m entries).
Proof.
  intros He. revert m. induction He as [|e entries He _ IH]; intros m Hm; [done|].
  by apply IH, keyed_merge_entry.
Qed.

Lemma lookup_foldr_delete (ps : list Peer) (m : Peers) id :
  foldr (λ p m, delete (pr_TrackerID p) m) m ps !! id =
    if decide (id ∈ pr_TrackerID <$> ps) then None else m !! id.
Proof.
  induction ps as [|p ps IH]; simpl; [done|].
  destruct (decide (pr_TrackerID p = id)) as [<-|Hne].
  - rewrite lookup_delete_eq. by rewrite decide_True by (by left).
  - rewrite lookup_delete_ne, IH by done.
    destruct (decide (id ∈ pr_TrackerID <$> ps)); [by rewrite decide_True by (by right)|].
    rewrite decide_False; [done|]. intros [?|?]%elem_of_cons; by subst.
Qed.

Lemma values_elem m p : p ∈ values m ↔ ∃ id, m !! id = Some p.
Proof.
  unfold values. rewrite list_elem_of_fmap. split.
  - intros ([id q] & -> & Hin). exists id. by apply elem_of_map_to_list in Hin.
  - intros [id Hp]. exists (id, p). split; [done|by apply elem_of_map_to_list].
Qed.

Lemma values_ids m : keyed m → pr_TrackerID <$> values m = (map_to_list m).*1.
Proof.
  intros Hm. unfold values. rewrite <- list_fmap_compose. apply list_fmap_ext.
  intros i [id p] Hl. apply list_elem_of_lookup_2, elem_of_map_to_list in Hl. by destruct (Hm id p Hl).
Qed.

Lemma values_length m : length (values m) = size m.
Proof. unfold values. by rewrite length_fmap, length_map_to_list. Qed.

(** The cap keeps the best: it only removes rows, leaves no more than it should, and everything
    it removed is no healthier than anything it kept. *)
Lemma cap_peers_spec m :
  keyed m →
  cap_peers m ⊆ m ∧ (size (cap_peers m) <= KnownPeersCap)%nat ∧
  (map_Forall (λ _ p, numeric p) m → ∀ id id' p q,
     cap_peers m !! id = Some p → m !! id' = Some q → cap_peers m !! id' = None →
     SFltb (pr_HealthScore p) (pr_HealthScore q) = false).
Proof.
  intros Hm. unfold cap_peers. destruct (Nat.leb_spec (size m) KnownPeersCap) as [Hs|Hs].
  { split_and!; [done|done|]. intros _ id id' p q _ Hq Hn. congruence. }
  set (s := sortByHealthDesc (values m)).
  assert (s ≡ₚ values m) as Hperm by apply stable_sort_perm.
  assert (NoDup (pr_TrackerID <$> s)) as Hnd.
  { rewrite Hperm, values_ids by done. apply NoDup_fst_map_to_list. }
  assert (length s = size m) as Hlen by (by rewrite Hperm, values_length).
  assert (∀ id p, m !! id = Some p → p ∈ s ∧ pr_TrackerID p = id) as Hin.
  { intros id p Hp. split; [|by destruct (Hm id p Hp)]. rewrite Hperm. apply values_elem. by exists id. }
  rewrite <- (take_drop KnownPeersCap s), fmap_app, NoDup_app in Hnd. destruct Hnd as (_ & Hdisj & Hnd).
  assert (∀ id p, m !! id = Some p → id ∉ pr_TrackerID <$> drop KnownPeersCap s → p ∈ take KnownPeersCap s) as Hkept.
  { intros id p Hp Hn. destruct (Hin id p Hp) as [Hs' Hid]. rewrite <- (take_drop KnownPeersCap s) in Hs'.
    apply elem_of_app in Hs' as [|Hd]; [done|]. destruct Hn. apply list_elem_of_fmap. by exists p. }
  set (m' := foldr _ m _). assert (∀ id, m' !! id = if decide (id ∈ pr_TrackerID <$> drop KnownPeersCap s) then None else m !! id)
    as Hl by (intros; apply lookup_foldr_delete). clearbody m'. split_and!.
  - apply map_subseteq_spec. intros id p. rewrite Hl. by case_decide.
  - assert (pr_TrackerID <$> values m' ⊆ pr_TrackerID <$> take KnownPeersCap s) as Hsub.
    { intros id (p & -> & Hp)%list_elem_of_fmap. apply values_elem in Hp as [id Hp]. rewrite Hl in Hp.
      case_decide; [done|]. apply list_elem_of_fmap. exists p. split; [done|]. by apply (Hkept id). }
    assert (keyed m') as Hm'.
    { intros id p Hp. rewrite Hl in Hp. case_decide; [done|]. by apply Hm. }
    rewrite <- values_length, <- (length_fmap pr_TrackerID).
    transitivity (length (pr_TrackerID <$> take KnownPeersCap s)); [|rewrite length_fmap, length_take; lia].
    apply submseteq_length, NoDup_submseteq; [|exact Hsub].
    rewrite values_ids by done. apply NoDup_fst_map_to_list.
  - intros Hnum id id' p q Hp Hq Hn. rewrite Hl in Hp, Hn.
    destruct (decide (id ∈ pr_TrackerID <$> drop KnownPeersCap s)) as [|Hd]; [done|].
    destruct (decide (id' ∈ pr_TrackerID <$> drop KnownPeersCap s)) as [Hd'|]; [|congruence].
    apply list_elem_of_fmap in Hd' as (q' & Hq' & Hqin).
    assert (q' = q) as ->.
    { assert (q' ∈ s) as Hqs by (rewrite <- (take_drop KnownPeersCap s); apply elem_of_app; by right).
      rewrite Hperm in Hqs. apply values_elem in Hqs as [id2 Hq2]. destruct (Hm id2 q' Hq2) as [E _].
      rewrite E in Hq'. subst id2. congruence. }
    assert (numeric p ∧ numeric q) as [Hpn Hqn] by (split; eapply Hnum; done).
    assert (Forall numeric (values m)) as Hall.
    { apply Forall_forall. intros x [i Hx]%values_elem. by apply (Hnum i). }
    pose proof (sort_ordered _ Hall) as Hsort. fold s in Hsort.
    rewrite <- (take_drop KnownPeersCap s) in Hsort.
    pose proof (StronglySorted_app_1_elem_of _ _ _ p q Hsort (Hkept id p Hp Hd) Hqin) as Hord. cbn in Hord.
    apply not_true_iff_false. rewrite SFltb_key by done. intros Hk.
    apply not_true_iff_false in Hord. apply Hord, health_less_iff; [done..|]. by left.
Qed.

Section kept.
Context `{PeersJson}.

Definition row_ok (e : Peer) : Prop := length (pr_TrackerID e) = 32%nat.

(** A merge, whether or not the file could be written: at most 256 rows, each of them an entry
    that was given or a row that was there, none older than a week; a row that stays was seen
    no earlier than before; and what the cap removes is no healthier than what it keeps. *)
Lemma Merge_spec io now entries k r k' :
  Forall row_ok entries → keyed (kp_peers k) → Merge false io now entries k = (r, k') →
  let m := kp_peers k in let m' := kp_peers k' in
  keyed m' ∧ (size m' <= KnownPeersCap)%nat ∧
  (∀ id p, m' !! id = Some p → (p ∈ entries ∨ m !! id = Some p) ∧ now - KnownPeersStaleAge <= pr_LastSeen p) ∧
  advances m m' ∧
  (kp_file k' = kp_file k ∨ r = Ok tt).
Proof.
  intros He Hk. unfold Merge. destruct (persistLocked io (merged now entries (kp_peers k)) (kp_file k)) as [r' f] eqn:Hp.
  intros [= <- <-]. cbn. set (cutoff := now - KnownPeersStaleAge).
  unfold merged. fold cutoff. set (m1 := foldl (merge_entry cutoff) (kp_peers k) entries).
  assert (keyed m1) as Hk1 by by apply keyed_entries.
  assert (keyed (drop_stale cutoff m1)) as Hk2.
  { intros id p [Hl _]%map_lookup_filter_Some. by apply Hk1. }
  destruct (cap_peers_spec _ Hk2) as (Hsub & Hsize & _). rewrite map_subseteq_spec in Hsub.
  assert (∀ es m id p, foldl (merge_entry cutoff) m es !! id = Some p → p ∈ es ∨ m !! id = Some p) as Hfrom.
  { clear. intros es. induction es as [|e es IH]; intros m id p Hl; simpl in Hl; [by right|].
    destruct (IH _ _ _ Hl) as [|Hm]; [left; by right|]. unfold merge_entry in Hm.
    destruct (_ || _); [by right|]. destruct (_ <? cutoff); [by right|].
    destruct (m !! pr_TrackerID e) as [old|]; [destruct (_ <? _); [by right|]|];
      (apply lookup_insert_Some in Hm as [[_ <-]|[_ Hm]]; [left; by left|by right]). }
  split_and!.
  - intros id p Hl%Hsub. by apply Hk2.
  - done.
  - intros id p Hl%Hsub. apply map_lookup_filter_Some in Hl as [Hl Hn].
    split; [by apply Hfrom|lia].
  - intros id p p' Hl Hl'%Hsub. apply map_lookup_filter_Some in Hl' as [Hl' _].
    destruct (merge_entries_grow cutoff entries (kp_peers k) id p He Hk Hl) as (_ & p2 & Hp2 & Hle).
    fold m1 in Hp2. by simplify_eq.
  - unfold persistLocked in Hp. destruct (marshal_peers _) as [data|]; [|left; by injection Hp as _ <-].
    unfold atomicWriteFile, gbind, gguard, gfail, gret in Hp.
    destruct (aw_mkdir io), (aw_create io), (aw_write io), (aw_sync io), (aw_close io), (aw_rename io);
      injection Hp as <- <-; auto.
Qed.

(** A sighting from the future stays: later sightings do not replace the row, and it does not
    go stale. *)
Lemma future_row_stays now m p e :
  keyed m → m !! pr_TrackerID e = Some p → pr_LastSeen e < pr_LastSeen p → now - KnownPeersStaleAge <= pr_LastSeen p →
  drop_stale (now - KnownPeersStaleAge) (merge_entry (now - KnownPeersStaleAge) m e) !! pr_TrackerID e = Some p.
Proof.
  intros Hk Hp Hl Ha. apply map_lookup_filter_Some. split; [|lia]. unfold merge_entry.
  destruct (_ || _); [done|]. destruct (_ <? now - _); [done|]. rewrite Hp.
  by destruct (Z.ltb_spec (pr_LastSeen e) (pr_LastSeen p)); [|lia].
Qed.

(** The rows that a file of seconds can hold. *)
Definition storable (p : Peer) : Prop :=
  pr_Addr p ≠ "" ∧ unix_time (Unix (pr_LastSeen p)) = pr_LastSeen p.

Lemma decode_encode id p m :
  keyed m → m !! id = Some p → storable p → decodePersisted (encodePersisted p) = Some p.
Proof.
  intros Hk Hp [Ha Hs]. destruct (Hk id p Hp) as [Hid Hl]. unfold decodePersisted, encodePersisted.
  cbn [pp_TrackerID pp_Addr pp_RegionHint pp_HealthScore pp_LastSeen].
  rewrite hex_DecodeString_Encode, Hid. unfold blen. rewrite Hl. cbn [Z.of_nat Z.eqb negb].
  rewrite (bool_decide_eq_false_2 (pr_Addr p = "")) by done. rewrite Hs, <- Hid. simpl. by destruct p.
Qed.

(** What was written is what a restart finds, as long as it is not stale by then. *)
Lemma store_roundtrip io m data now :
  keyed m → map_Forall (λ _ p, storable p ∧ time_Sub now (pr_LastSeen p) <= KnownPeersStaleAge) m →
  (∀ rows b, marshal_peers rows = Some b → unmarshal_peers b = Some rows) →
  persistLocked io m None = (Ok tt, Some data) → LoadKnownPeers true now (Some data) = Ok m.
Proof.
  intros Hk Hs Hlaw Hp. unfold persistLocked in Hp.
  destruct (marshal_peers _) as [b|] eqn:Hm; [|done]. apply Hlaw in Hm.
  assert (b = data) as ->.
  { unfold atomicWriteFile, gbind, gguard, gfail, gret in Hp.
    destruct (aw_mkdir io), (aw_create io), (aw_write io), (aw_sync io), (aw_close io), (aw_rename io);
      cbn in Hp; congruence. }
  unfold LoadKnownPeers. rewrite Hm. cbn [negb]. f_equal. clear Hm Hp Hlaw.
  assert (stable_sort row_less (encodePersisted <$> values m) ≡ₚ encodePersisted <$> values m) as Hperm
    by apply stable_sort_perm.
  apply Permutation_map_inv in Hperm as (ps & -> & Hps%symmetry).
  assert (∀ (ps' : list Peer) (m' : Peers), (∀ p, p ∈ ps' → ∃ id, m !! id = Some p) →
    foldl (λ m0 row, match decodePersisted row with
                     | None => m0
                     | Some e => if KnownPeersStaleAge <? time_Sub now (pr_LastSeen e) then m0
                                 else <[pr_TrackerID e := e]> m0
                     end) m' (encodePersisted <$> ps') =
    foldl (λ m0 e, <[pr_TrackerID e := e]> m0) m' ps') as Hfold.
  { intros ps'. induction ps' as [|p ps' IH]; intros m' Hin; [done|]. simpl.
    destruct (Hin p ltac:(by left)) as [id Hp]. destruct (Hs id p Hp) as [Hst Hold].
    rewrite (decode_encode id p m Hk Hp Hst). destruct (Z.ltb_spec KnownPeersStaleAge (time_Sub now (pr_LastSeen p))); [lia|].
    apply IH. intros q Hq. apply Hin. by right. }
  change (map encodePersisted ps) with (encodePersisted <$> ps). rewrite Hfold.
  2:{ intros p Hp. rewrite Hps in Hp. by apply values_elem. }
  assert (∀ (ps' : list Peer) (m' : Peers), NoDup (pr_TrackerID <$> ps') →
    foldl (λ m0 e, <[pr_TrackerID e := e]> m0) m' ps' = list_to_map ((λ e, (pr_TrackerID e, e)) <$> ps') ∪ m') as Hl.
  { intros ps'. induction ps' as [|p ps' IH]; intros m' Hnd; [simpl; by rewrite (left_id_L ∅ (∪) m')|].
    simpl in Hnd. apply NoDup_cons in Hnd as [Hn Hnd]. simpl. rewrite IH by done.
    rewrite <- insert_union_l. rewrite <- insert_union_r; [done|]. apply not_elem_of_list_to_map_1.
    by rewrite <- list_fmap_compose. }
  assert (NoDup (pr_TrackerID <$> ps)) as Hnd.
  { rewrite Hps, values_ids by done. apply NoDup_fst_map_to_list. }
  rewrite Hl by done. rewrite (right_id_L ∅ (∪) (list_to_map _)). apply map_eq. intros id.
  apply option_eq. intros p. rewrite <- elem_of_list_to_map.
  - rewrite list_elem_of_fmap. split.
    + intros (q & [= -> ->] & Hq). rewrite Hps in Hq. apply values_elem in Hq as [id' Hq].
      by destruct (Hk id' q Hq) as [-> _].
    + intros Hp. exists p. destruct (Hk id p Hp) as [-> _]. split; [done|]. rewrite Hps. apply values_elem. by exists id.
  - by rewrite <- list_fmap_compose.
Qed.
End kept.

(** ** Lemmas: where a plugin starts *)

Section starting.
Context `{Crypto} `{ClientWire}.
Variable canonical : BootstrapPeerList → option bytes.

(** The endpoints of a list are its peers', and the list is signed and has not expired. *)
Lemma parseSignedBootstrapBytes_signed signerPub now raw eps ep :
  parseSignedBootstrapBytes canonical raw signerPub now = Ok eps → ep ∈ eps →
  ∃ l p, cr_BootstrapPeerList raw = Some l ∧
    VerifyBootstrapPeerListSig canonical signerPub l = None ∧ Some p ∈ bl_Peers l ∧
    ep_IdentityHash ep = into_array 32 (bp_TrackerId p) ∧
    u64 (Unix now) <= u64 (bl_ExpiresAt l + signedListSkewToleranceS).
Proof.
  intros Hr Hin. unfold parseSignedBootstrapBytes in Hr.
  destruct (negb _); [done|]. destruct (cr_BootstrapPeerList raw) as [l|]; [|done].
  destruct (ValidateBootstrapPeerList _); [done|]. destruct (VerifyBootstrapPeerListSig _ _ _) eqn:Hv; [done|].
  destruct (Z.ltb_spec (u64 (bl_ExpiresAt l + signedListSkewToleranceS)) (u64 (Unix now))); [done|].
  injection Hr as <-. apply list_elem_of_bind in Hin as (op & Hin & Hop). destruct op as [p|]; [|by apply elem_of_nil in Hin].
  apply list_elem_of_singleton in Hin as ->. exists l, p. split_and!; [done|done|done|done|lia].
Qed.

(** Whatever is dialled at the start is in a list that the release key signed and that has not
    expired; and a file that is there but bad is an error, never the built-in list. *)
Lemma ResolveAutoEndpoints_signed cfgDir signerPub builtin now n readable file eps ep :
  ResolveAutoEndpoints canonical cfgDir signerPub builtin now n readable file = Ok eps → ep ∈ eps →
  ∃ raw l p, raw = default builtin file ∧ cr_BootstrapPeerList raw = Some l ∧
    VerifyBootstrapPeerListSig canonical signerPub l = None ∧ Some p ∈ bl_Peers l ∧
    ep_IdentityHash ep = into_array 32 (bp_TrackerId p) ∧
    u64 (Unix now) <= u64 (bl_ExpiresAt l + signedListSkewToleranceS).
Proof.
  assert (∀ eps', ep ∈ capEndpoints eps' n → ep ∈ eps') as Hcap.
  { intros eps'. unfold capEndpoints. destruct (_ || _); [done|]. intros Ht. by eapply elem_of_take in Ht as (? & ?%list_elem_of_lookup_2 & _). }
  intros Hr Hin. unfold ResolveAutoEndpoints, ParseSignedBootstrapList in Hr. case_bool_decide; [done|].
  destruct (negb (blen signerPub =? PublicKeySize)); [done|].
  destruct file as [raw|]; [destruct readable; [|done]; cbn [negb] in Hr|].
  - destruct (parseSignedBootstrapBytes canonical raw signerPub now) as [eps'|e] eqn:Hp.
    + injection Hr as <-. destruct (parseSignedBootstrapBytes_signed _ _ _ _ _ Hp (Hcap _ Hin)) as (l & p & Hl). by exists raw, l, p.
    + destruct e; try done. unfold parseSignedBootstrapBytes in Hp.
      repeat (case_match; simplify_eq; try done).
  - destruct (blen builtin =? 0); [done|].
    destruct (parseSignedBootstrapBytes canonical builtin signerPub now) as [eps'|e] eqn:Hp; [|done].
    injection Hr as <-. destruct (parseSignedBootstrapBytes_signed _ _ _ _ _ Hp (Hcap _ Hin)) as (l & p & Hl). by exists builtin, l, p.
Qed.
End starting.
