(* ===== verification/Tunnel.v ===== *)
(** plugin/internal/tunnel: the encrypted stream between consumer and seeder.

    A QUIC handshake is what the other end presents ([Attempt]); the UDP probes that open a NAT
    have no effect here other than that the context may end while they are sent. Both
    directions of the stream are those of [Frame]. *)
From S2P Require Import Prelude Signing Frame Server Supervisor.

(** ** Errors and configuration *)

Inductive TunErr :=
| ErrInvalidConfig (field : string) | ErrPeerPinMismatch | ErrALPNMismatch | ErrHandshakeFailed
| ErrFramingViolation (what : string) | ErrRequestTooLarge (n max : Z) | ErrTunnelClosed | ErrHolePunchFailed
| ErrRelayFailed | ErrAllocate | ErrWriteStream (e : IoErr).

Record TunConfig := {
  tn_EphemeralPriv : bytes; tn_PeerPin : bytes; tn_MaxRequestBytes : Z; tn_HandshakeTimeout : Z;
  tn_IdleTimeout : Z; tn_Rendezvous : bool; tn_HolePunchTimeout : Z
}.

Definition or_default (z d : Z) : Z := if z =? 0 then d else z.

Definition applyDefaults (c : TunConfig) : TunConfig := {|
  tn_EphemeralPriv := tn_EphemeralPriv c; tn_PeerPin := tn_PeerPin c;
  tn_MaxRequestBytes := or_default (tn_MaxRequestBytes c) (Z.shiftl 1 20);
  tn_HandshakeTimeout := or_default (tn_HandshakeTimeout c) (5 * Second);
  tn_IdleTimeout := or_default (tn_IdleTimeout c) (30 * Second);
  tn_Rendezvous := tn_Rendezvous c;
  tn_HolePunchTimeout := or_default (tn_HolePunchTimeout c) (3 * Second) |}.

Definition PrivateKeySize : Z := 64.

Definition validate (c : TunConfig) : option TunErr :=
  return_if negb (blen (tn_EphemeralPriv c) =? PrivateKeySize), ErrInvalidConfig "EphemeralPriv" ;;
  return_if negb (blen (tn_PeerPin c) =? PublicKeySize), ErrInvalidConfig "PeerPin" ;;
  return_if tn_MaxRequestBytes c <? 0, ErrInvalidConfig "MaxRequestBytes" ;;
  return_if tn_HolePunchTimeout c <? 0, ErrInvalidConfig "HolePunchTimeout" ;;
  None.

(** ** Frames *)

Inductive Status := StatusOK | StatusError.

Definition status_byte (s : Status) : byte := match s with StatusOK => Byte.x00 | StatusError => Byte.x01 end.

Definition requestHeaderLen : Z := 4.
Definition maxErrorBytes : nat := 4096.

Definition writeRequest (body : bytes) : GoM Tx IoErr unit :=
  do! Write (be_bytes 4 (u32 (blen body))) in
  if blen body =? 0 then gret tt else Write body.

Definition readRequest (maxBytes : Z) : GoM Rx TunErr bytes :=
  let! hdr := gwrap (λ _, ErrFramingViolation "header") (ReadFull requestHeaderLen) in
  let n := be_val hdr in
  do! gguard ((0 <? maxBytes) && (maxBytes <? n)) (ErrRequestTooLarge n maxBytes) in
  if n =? 0 then gret [] else gwrap (λ _, ErrFramingViolation "body") (ReadFull n).

Definition writeResponseStatus (s : Status) : GoM Tx IoErr unit := Write [status_byte s].

Definition writeResponseError (msg : bytes) : GoM Tx IoErr unit :=
  do! Write [status_byte StatusError] in
  match msg with [] => gret tt | _ => Write (take maxErrorBytes msg) end.

(** Up to the limit; an error of the stream before it is an error. *)
Definition readErrorMessage (r : Rx) : bytes * option IoErr :=
  (take maxErrorBytes (rx_data r),
   if Nat.leb maxErrorBytes (length (rx_data r)) then None
   else match rx_end r with EOF => None | e => Some e end).

Definition readResponseStatus : GoM Rx TunErr Status :=
  let! b := gwrap (λ _, ErrFramingViolation "status") (ReadFull 1) in
  match b with
  | [b] => if bool_decide (b = status_byte StatusOK) then gret StatusOK
           else if bool_decide (b = status_byte StatusError) then gret StatusError
           else gfail (ErrFramingViolation "unknown status byte")
  | _ => gfail (ErrFramingViolation "status")
  end.

(** ** The pinned handshake *)

Section pin.
Context `{X509}.

Definition verifyPeerPin (expected : bytes) (rawCerts : list bytes) : option TunErr :=
  match rawCerts with
  | [] => Some ErrPeerPinMismatch
  | leaf :: _ =>
    match ParseCertificate leaf with
    | None => Some ErrPeerPinMismatch
    | Some cert =>
      match ct_PublicKey cert with
      | None => Some ErrPeerPinMismatch
      | Some got =>
        return_if negb (blen got =? PublicKeySize) || negb (blen expected =? PublicKeySize), ErrPeerPinMismatch ;;
        return_if negb (bool_decide (got = expected)), ErrPeerPinMismatch ;;
        None
      end
    end
  end.

(** What a dial or an accept meets: no answer in time, another protocol, some other failure,
    or an end that presents certificates and then opens the stream or not. *)
Inductive Attempt := NoAnswer | OtherProtocol | BrokenHandshake | Answers (rawCerts : list bytes) (stream : bool).

(** The key of the other end. The errors are as [mapHandshakeErr] leaves them. *)
Definition handshake (pin : bytes) (a : Attempt) : res TunErr bytes :=
  match a with
  | NoAnswer | BrokenHandshake => Err ErrHandshakeFailed
  | OtherProtocol => Err ErrALPNMismatch
  | Answers rawCerts stream =>
    match verifyPeerPin pin rawCerts with
    | Some e => Err e
    | None =>
      if negb stream then Err ErrHandshakeFailed else
      match rawCerts with
      | leaf :: _ => match ParseCertificate leaf with
                     | Some cert => match ct_PublicKey cert with Some k => Ok k | None => Err ErrHandshakeFailed end
                     | None => Err ErrHandshakeFailed
                     end
      | [] => Err ErrHandshakeFailed
      end
    end
  end.

(** ** Dialling and accepting *)

(** What a rendezvous dial meets. [rz_relay] is the relay's endpoint, [Some false] if that is
    the zero address; [rz_ctx1] and [rz_ctx2] are whether the context ends during a punch. *)
Record RzIo := {
  rz_bind : bool; rz_allocate : bool; rz_ctx1 : bool; rz_direct : Attempt; rz_relay : option bool;
  rz_ctx2 : bool; rz_relayed : Attempt
}.

Definition is_security (e : TunErr) : bool := match e with ErrPeerPinMismatch | ErrALPNMismatch => true | _ => false end.

Definition dialRendezvous (cfg : TunConfig) (io : RzIo) : res TunErr bytes :=
  if negb (rz_bind io) then Err (ErrInvalidConfig "bind udp") else
  if negb (rz_allocate io) then Err ErrAllocate else
  if rz_ctx1 io then Err ErrHolePunchFailed else
  match handshake (tn_PeerPin cfg) (rz_direct io) with
  | Ok k => Ok k
  | Err _ =>
    match rz_relay io with
    | None | Some false => Err ErrRelayFailed
    | Some true =>
      if rz_ctx2 io then Err ErrRelayFailed else
      match handshake (tn_PeerPin cfg) (rz_relayed io) with
      | Ok k => Ok k
      | Err e => Err (if is_security e then e else ErrRelayFailed)
      end
    end
  end.

Definition Dial (cfg : TunConfig) (direct : Attempt) (io : RzIo) : res TunErr bytes :=
  let cfg := applyDefaults cfg in
  match validate cfg with
  | Some e => Err e
  | None => if tn_Rendezvous cfg then dialRendezvous cfg io else handshake (tn_PeerPin cfg) direct
  end.

(** [Listener.Accept], on the next connection. *)
Definition Accept (cfg : TunConfig) (a : Attempt) : res TunErr bytes := handshake (tn_PeerPin (applyDefaults cfg)) a.
End pin.

(** ** A tunnel *)

(** One end: what it has written, what it will read, and whether it was closed. *)
Record Tunnel := { tl_out : Tx; tl_in : Rx; tl_closed : bool; tl_max : Z }.

Definition open_tunnel (max : Z) (i : Rx) : Tunnel := {|
  tl_out := open_tx; tl_in := i; tl_closed := false; tl_max := max |}.

(** A write or a read on an open tunnel. *)
Definition on_out {A} (f : GoM Tx IoErr A) : GoM Tunnel TunErr A := λ t,
  if tl_closed t then (Err ErrTunnelClosed, t) else
  let '(r, o) := f (tl_out t) in
  (match r with Ok a => Ok a | Err e => Err (ErrWriteStream e) end,
   {| tl_out := o; tl_in := tl_in t; tl_closed := false; tl_max := tl_max t |}).

Definition on_in {A} (f : GoM Rx TunErr A) : GoM Tunnel TunErr A := λ t,
  if tl_closed t then (Err ErrTunnelClosed, t) else
  let '(r, i) := f (tl_in t) in
  (r, {| tl_out := tl_out t; tl_in := i; tl_closed := false; tl_max := tl_max t |}).

Definition Send (body : bytes) : GoM Tunnel TunErr unit := on_out (writeRequest body).
Definition SendOK : GoM Tunnel TunErr unit := on_out (writeResponseStatus StatusOK).
Definition SendError (msg : bytes) : GoM Tunnel TunErr unit := on_out (writeResponseError msg).
Definition ReadRequest : GoM Tunnel TunErr bytes := λ t, on_in (readRequest (tl_max t)) t.
Definition Receive : GoM Tunnel TunErr Status := on_in readResponseStatus.

Definition CloseTunnel (t : Tunnel) : Tunnel := {|
  tl_out := tl_out t; tl_in := tl_in t; tl_closed := true; tl_max := tl_max t |}.

(** ** Lemmas *)

Section lemmas.
Context `{X509}.

(** The key of the other end is the one that was pinned, on either way to it. *)
Lemma handshake_pinned pin a k : handshake pin a = Ok k → k = pin.
Proof.
  unfold handshake, verifyPeerPin. destruct a as [| | |[|leaf rest] stream]; try done.
  destruct (ParseCertificate leaf) as [cert|]; [|done]. destruct (ct_PublicKey cert) as [got|]; [|done].
  destruct (_ || _); [done|]. case_bool_decide; [|done]. cbn. destruct stream; [|done]. by intros [= <-].
Qed.

Lemma Tunnel_Dial_pinned cfg direct io k : Dial cfg direct io = Ok k → k = tn_PeerPin cfg.
Proof.
  unfold Dial. destruct (validate _); [done|]. destruct (tn_Rendezvous _).
  - unfold dialRendezvous. destruct (rz_bind io), (rz_allocate io), (rz_ctx1 io); try done; cbn [negb].
    destruct (handshake _ (rz_direct io)) eqn:E1; [intros [= <-]; by apply handshake_pinned in E1|].
    destruct (rz_relay io) as [[]|]; try done. destruct (rz_ctx2 io); [done|].
    destruct (handshake _ (rz_relayed io)) eqn:E2; [intros [= <-]; by apply handshake_pinned in E2|done].
  - intros E. by apply handshake_pinned in E.
Qed.

(** A wrong key on the direct way is not reported when the relay fails for another reason. *)
Lemma direct_pin_mismatch_hidden cfg rawCerts stream :
  verifyPeerPin (tn_PeerPin cfg) rawCerts = Some ErrPeerPinMismatch →
  dialRendezvous cfg {| rz_bind := true; rz_allocate := true; rz_ctx1 := false;
    rz_direct := Answers rawCerts stream; rz_relay := Some true; rz_ctx2 := false; rz_relayed := NoAnswer |} =
  Err ErrRelayFailed.
Proof. intros Hv. unfold dialRendezvous, handshake. cbn. by rewrite Hv. Qed.
End lemmas.

(** A request that fits is read as it was sent. *)
Lemma request_roundtrip body max rest e :
  blen body < 2 ^ 32 → (0 <? max) && (max <? blen body) = false →
  ∃ t, writeRequest body open_tx = (Ok tt, t) ∧
    readRequest max {| rx_data := tx_data t ++ rest; rx_end := e |} = (Ok body, {| rx_data := rest; rx_end := e |}).
Proof.
  intros Hb Hm. unfold writeRequest, gbind, Write. cbn [open_tx tx_room tx_data app].
  exists {| tx_data := frame_header body ++ body; tx_room := None |}. split.
  { destruct (Z.eqb_spec (blen body) 0) as [E|]; [|done].
    assert (body = []) as -> by (apply nil_length_inv; unfold blen in E; lia). by rewrite app_nil_r. }
  unfold readRequest, gbind, gwrap, gguard. cbn [tx_data]. rewrite <- app_assoc.
  pose proof (ReadFull_app (frame_header body) (body ++ rest) e) as Hh. rewrite frame_header_len in Hh.
  unfold requestHeaderLen. rewrite Hh, frame_header_val, Hm by done. cbn [gret].
  destruct (Z.eqb_spec (blen body) 0) as [E|].
  - assert (body = []) as -> by (apply nil_length_inv; unfold blen in E; lia). done.
  - by rewrite ReadFull_app.
Qed.

(** One that is too large is refused before a byte of it is read. *)
Lemma request_too_large body max rest e :
  blen body < 2 ^ 32 → 0 < max < blen body →
  ∃ t, writeRequest body open_tx = (Ok tt, t) ∧
    fst (readRequest max {| rx_data := tx_data t ++ rest; rx_end := e |}) = Err (ErrRequestTooLarge (blen body) max).
Proof.
  intros Hb Hm. unfold writeRequest, gbind, Write. cbn [open_tx tx_room tx_data app].
  exists {| tx_data := frame_header body ++ body; tx_room := None |}. split.
  { by destruct (Z.eqb_spec (blen body) 0); [lia|]. }
  unfold readRequest, gbind, gwrap, gguard. cbn [tx_data]. rewrite <- app_assoc.
  pose proof (ReadFull_app (frame_header body) (body ++ rest) e) as Hh. rewrite frame_header_len in Hh.
  unfold requestHeaderLen. rewrite Hh, frame_header_val by done.
  destruct (Z.ltb_spec 0 max), (Z.ltb_spec max (blen body)); try lia. done.
Qed.

(** The consumer reads the status the seeder sent, and then what it sent after it. *)
Lemma response_roundtrip s data e :
  readResponseStatus {| rx_data := status_byte s :: data; rx_end := e |} = (Ok s, {| rx_data := data; rx_end := e |}).
Proof.
  unfold readResponseStatus, gbind, gwrap.
  pose proof (ReadFull_app [status_byte s] data e) as Hr. change (blen [status_byte s]) with 1 in Hr. cbn [app] in Hr.
  rewrite Hr. by destruct s.
Qed.

(** An error message arrives up to its limit. *)
Lemma error_roundtrip msg :
  ∃ t, writeResponseError msg open_tx = (Ok tt, t) ∧
    readResponseStatus (rx_of t) = (Ok StatusError, {| rx_data := take maxErrorBytes msg; rx_end := EOF |}) ∧
    readErrorMessage {| rx_data := take maxErrorBytes msg; rx_end := EOF |} = (take maxErrorBytes msg, None).
Proof.
  exists {| tx_data := status_byte StatusError :: take maxErrorBytes msg; tx_room := None |}. split_and!.
  - unfold writeResponseError, gbind, Write. cbn [open_tx tx_room tx_data app].
    destruct msg; [by rewrite take_nil|done].
  - apply response_roundtrip.
  - unfold readErrorMessage. cbn [rx_data rx_end]. rewrite take_take, Nat.min_id. by destruct (Nat.leb _ _).
Qed.
