(* ===== verification/Proxy.v ===== *)
(** plugin/internal/ccproxy and hooks: the proxy that Claude Code talks to.

    A request is an HTTP body ([Rx]); a response is what the handlers set and write. The
    seeder at the other end of the tunnel is a function from the bytes it is sent to the
    stream it answers with; [seeder_end] is the one this plugin runs, from the tunnel's frames
    through the coordinator, the bridge and the translator. net/http's server and its reverse
    proxy are outside: a request that passes through is handed on as it is. *)
From S2P Require Import RateGate Seeder Consumer.
From S2P Require Import Prelude Signing Frame Server Sse Bridge Tunnel.

(** ** Routing *)

Record HttpResponse := {
  hr_status : Z; hr_contentType : string; hr_error : option (string * string); hr_body : bytes
}.

Definition StatusOKCode : Z := 200.
Definition StatusBadRequest : Z := 400.
Definition StatusBadGateway : Z := 502.

(** The body of an error is the JSON of its type and message. *)
Definition writeAnthropicError (status : Z) (errType msg : string) : HttpResponse := {|
  hr_status := status; hr_contentType := "application/json"; hr_error := Some (errType, msg); hr_body := [] |}.

Inductive Routed := PassThrough | Network (meta : SessionMode.EntryMetadata).

(** [Server.handleAnthropic]: where a request with this session header goes. *)
Definition handleAnthropic (now : Z) (sessionID : string) (store : gmap string SessionMode.EntryMetadata) : Routed :=
  match SessionMode.GetMode now sessionID store with
  | (SessionMode.ModeNetwork, Some meta) => Network meta
  | _ => PassThrough
  end.

Definition maxRequestBytes : Z := Z.shiftl 1 20.

(** [io.ReadAll] of a limit. *)
Definition read_limited (n : Z) (r : Rx) : option bytes :=
  if n <=? blen (rx_data r) then Some (take (Z.to_nat n) (rx_data r))
  else match rx_end r with EOF => Some (rx_data r) | _ => None end.

Inductive DialErr := ErrNoAssignment (why : string) | ErrDial (e : TunErr).

Section proxy.
Context `{X509}.
(** The text of a tunnel error, and whether an address that was entered is valid. *)
Variables (text : TunErr → string) (addrValid : string → bool).

(** [tunnelDialer.Dial]: without a rendezvous. The key is that of the seeder at the other end. *)
Definition tunnelDial (meta : SessionMode.EntryMetadata) (a : Attempt) : res DialErr bytes :=
  if negb (addrValid (SessionMode.SeederAddr meta)) then Err (ErrNoAssignment "invalid SeederAddr") else
  if negb (blen (SessionMode.SeederPubkey meta) =? PublicKeySize) then Err (ErrNoAssignment "SeederPubkey wrong size") else
  if negb (blen (SessionMode.EphemeralPriv meta) =? PrivateKeySize) then Err (ErrNoAssignment "EphemeralPriv wrong size") else
  match Dial {| tn_EphemeralPriv := SessionMode.EphemeralPriv meta; tn_PeerPin := SessionMode.SeederPubkey meta;
                tn_MaxRequestBytes := 0; tn_HandshakeTimeout := 0; tn_IdleTimeout := 0; tn_Rendezvous := false;
                tn_HolePunchTimeout := 0 |} a
          {| rz_bind := false; rz_allocate := false; rz_ctx1 := false; rz_direct := NoAnswer; rz_relay := None;
             rz_ctx2 := false; rz_relayed := NoAnswer |} with
  | Err e => Err (ErrDial e)
  | Ok k => Ok k
  end.

Definition dial_prefix (e : TunErr) : string :=
  match e with
  | ErrPeerPinMismatch => "peer pin mismatch: "
  | ErrALPNMismatch => "alpn mismatch: "
  | ErrHandshakeFailed => "handshake failed: "
  | ErrInvalidConfig _ => "invalid tunnel config: "
  | _ => "tunnel dial: "
  end.

(** The ellipsis is one character of three bytes. *)
Definition ellipsis : string := String.string_of_list_byte [Byte.xe2; Byte.x80; Byte.xa6].

Definition short (s : string) : string :=
  if Nat.ltb 200 (String.length s) then (String.substring 0 200 s ++ ellipsis)%string else s.

Definition sanitizeDialErr (e : DialErr) : string :=
  match e with
  | ErrNoAssignment _ => "no seeder assigned"
  | ErrDial e => "dial failed: " ++ short (dial_prefix e ++ text e)
  end.

(** [tunnelPeerConn.Receive]: the stream of an answer, or the seeder's error text. *)
Definition peer_receive (t : Tunnel) : option (res bytes Rx) :=
  match Receive t with
  | (Err _, _) => None
  | (Ok StatusOK, t) => Some (Ok (tl_in t))
  | (Ok StatusError, t) => Some (Err (fst (readErrorMessage (tl_in t))))
  end.

(** [NetworkRouter.Route] of a session in network mode: the response, and what went to the
    seeder. [room] is how much the tunnel takes. *)
Definition Route (meta : SessionMode.EntryMetadata) (body : Rx) (a : Attempt) (room : option nat) (peer : bytes → Rx)
    : HttpResponse * option bytes :=
  match read_limited (maxRequestBytes + 1) body with
  | None => (writeAnthropicError StatusBadRequest "invalid_request" "failed to read request body", None)
  | Some body =>
    if maxRequestBytes <? blen body
    then (writeAnthropicError StatusBadRequest "invalid_request" "request body exceeds 1 MiB", None)
    else
      match tunnelDial meta a with
      | Err e => (writeAnthropicError StatusBadGateway "network_unavailable" (sanitizeDialErr e), None)
      | Ok _ =>
        let t := {| tl_out := {| tx_data := []; tx_room := room |}; tl_in := {| rx_data := []; rx_end := EOF |};
                    tl_closed := false; tl_max := maxRequestBytes |} in
        match Send body t with
        | (Err _, t) =>
            (writeAnthropicError StatusBadGateway "network_unavailable" "tunnel send failed", Some (tx_data (tl_out t)))
        | (Ok _, t) =>
          let sent := tx_data (tl_out t) in
          match peer_receive {| tl_out := tl_out t; tl_in := peer sent; tl_closed := false; tl_max := maxRequestBytes |} with
          | None => (writeAnthropicError StatusBadGateway "network_unavailable" "tunnel receive failed", Some sent)
          | Some (Err msg) =>
              (writeAnthropicError StatusBadGateway "network_unavailable" (String.string_of_list_byte msg), Some sent)
          | Some (Ok r) =>
              ({| hr_status := StatusOKCode; hr_contentType := "text/event-stream"; hr_error := None;
                  hr_body := rx_data r |}, Some sent)
          end
        end
      end
  end.
End proxy.

(** ** Hooks *)

(** The decoders check the event's name. *)
Record Parsers (P1 P2 P3 P4 : Type) := {
  ps_stopFailure : bytes → option P1; ps_sessionStart : bytes → option P2;
  ps_sessionEnd : bytes → option P3; ps_prompt : bytes → option P4
}.
Arguments ps_stopFailure {_ _ _ _}. Arguments ps_sessionStart {_ _ _ _}.
Arguments ps_sessionEnd {_ _ _ _}. Arguments ps_prompt {_ _ _ _}.

(** The four handlers, on a state; [Some] is an error. *)
Record HookSink (A P1 P2 P3 P4 : Type) := {
  hk_OnStopFailure : P1 → A → option string * A; hk_OnSessionStart : P2 → A → option string * A;
  hk_OnSessionEnd : P3 → A → option string * A; hk_OnUserPromptSubmit : P4 → A → option string * A
}.
Arguments hk_OnStopFailure {_ _ _ _ _}. Arguments hk_OnSessionStart {_ _ _ _ _}.
Arguments hk_OnSessionEnd {_ _ _ _ _}. Arguments hk_OnUserPromptSubmit {_ _ _ _ _}.

Inductive HookErr := ErrUnknownEvent | ErrNoSink | ErrParsePayload | ErrSinkFailed (msg : string).

Definition EmptyResponse : bytes := string_bytes "{}" ++ [newline].

Section hooks.
Context {A P1 P2 P3 P4 : Type}.
Variable parse : Parsers P1 P2 P3 P4.

(** [finish]: what is written, and the sink's error. *)
Definition finish (r : option string * A) : bytes * option HookErr * A :=
  (EmptyResponse, ErrSinkFailed <$> fst r, snd r).

Definition dispatch_hook {P} (p : option P) (h : P → A → option string * A) (a : A) : bytes * option HookErr * A :=
  match p with None => ([], Some ErrParsePayload, a) | Some p => finish (h p a) end.

Definition Handle (sink : option (HookSink A P1 P2 P3 P4)) (event : string) (body : bytes) (a : A)
    : bytes * option HookErr * A :=
  match sink with
  | None => ([], Some ErrNoSink, a)
  | Some k =>
    if bool_decide (event = "StopFailure") then dispatch_hook (ps_stopFailure parse body) (hk_OnStopFailure k) a
    else if bool_decide (event = "SessionStart") then dispatch_hook (ps_sessionStart parse body) (hk_OnSessionStart k) a
    else if bool_decide (event = "SessionEnd") then dispatch_hook (ps_sessionEnd parse body) (hk_OnSessionEnd k) a
    else if bool_decide (event = "UserPromptSubmit") then dispatch_hook (ps_prompt parse body) (hk_OnUserPromptSubmit k) a
    else ([], Some ErrUnknownEvent, a)
  end.

(** [Server.handleHooks]: the body of the response, whose status is 200. *)
Definition handleHooks (post : bool) (sink : option (HookSink A P1 P2 P3 P4)) (event : string) (body : bytes) (a : A)
    : bytes * A :=
  if negb post then (EmptyResponse, a) else
  if bool_decide (event = "") then (EmptyResponse, a) else
  match sink with
  | None => (EmptyResponse, a)
  | Some _ =>
    let '(out, err, a) := Handle sink event body a in
    (match err, out with Some _, [] => EmptyResponse | _, _ => out end, a)
  end.
End hooks.

(** [runHooks], the subprocess: what it meets, and what it prints. [rk_url] is the discovery
    file without the space around it. [rk_response] is the status
    and the body of the sidecar's answer, and whether the body breaks off. *)
Record HookIo := {
  rk_url : option string; rk_stdin : bool; rk_request : bool; rk_response : option (Z * bytes * bool)
}.

Definition runHooks (io : HookIo) : bytes * bool :=
  match rk_url io with
  | None | Some "" => (EmptyResponse, true)
  | Some _ =>
    if negb (rk_stdin io) then (EmptyResponse, true) else
    if negb (rk_request io) then (EmptyResponse, true) else
    match rk_response io with
    | None => (EmptyResponse, true)
    | Some (status, body, broken) =>
      if 500 <=? status then (EmptyResponse, true) else (body, negb broken)
    end
  end.

(** ** Whether the redirect is possible at all *)

Record AuthState := { au_LoggedIn : bool; au_AuthMethod : string; au_APIProvider : string }.

Definition IncompatNotLoggedIn : string := "user is not logged into Claude Code (run: claude auth login)".
Definition IncompatWrongProvider : string :=
  "apiProvider is not 'firstParty' " ++ String.string_of_list_byte [Byte.xe2; Byte.x80; Byte.x94] ++
  " Token-Bay cannot redirect under Bedrock/Vertex/Foundry".
Definition IncompatWrongMethod : string :=
  "authMethod is not 'claude.ai' " ++ String.string_of_list_byte [Byte.xe2; Byte.x80; Byte.x94] ++
  " /usage probe requires OAuth-based Claude AI subscription auth".

Definition IsCompatible (a : AuthState) : bool * string :=
  if negb (au_LoggedIn a) then (false, IncompatNotLoggedIn) else
  if negb (bool_decide (au_APIProvider a = "firstParty")) then (false, IncompatWrongProvider) else
  if negb (bool_decide (au_AuthMethod a = "claude.ai")) then (false, IncompatWrongMethod) else
  (true, "").

(** ** The seeder's end *)

Section seeder_end.
Context `{Crypto} `{Json} `{BridgeJson}.
Variables (decode_request : bytes → option (string * list (string * bytes)))
  (decode_string : bytes → option string) (TextContent : string → bytes).
Variables (errText : SeederErr → bytes).

(** [Coordinator.Serve] up to the report, on what the tunnel delivers and what claude prints:
    the bytes it answers with, and the result that is billed. Its stream holds. *)
Definition seeder_end (now : Z) (envHash : bytes) (stdout : bytes) (runErr : option BridgeErr) (sent : Rx) (s : SState)
    : bytes * res SeederErr (Job * res BridgeErr usage) * SState :=
  let t := open_tunnel maxRequestBytes sent in
  let '(req, t) := ReadRequest t in
  match serveBegin decode_request decode_string TextContent now
          (match req with Ok body => Some body | Err _ => None end) true envHash s with
  | (Err e, s) => (tx_data (tl_out (snd (SendError (errText e) t))), Err e, s)
  | (Ok job, s) =>
    let t := snd (SendOK t) in
    let '(r, w) := Bridge.Serve (jb_request job) stdout runErr (NewWriter open_tx) in
    let w := snd (Close w) in
    (tx_data (tl_out t) ++ tx_data (w_inner w), Ok (job, r), s)
  end.
End seeder_end.

(** ** Lemmas *)

Section routing.
Context `{X509}.
Variables (text : TunErr → string) (addrValid : string → bool).

(** Outside network mode nothing goes to a seeder: a request is routed there only by an entry
    that its own session has and that has not expired. *)
Lemma network_only_if_entered now sid store meta :
  handleAnthropic now sid store = Network meta →
  store !! sid = Some meta ∧ (SessionMode.ExpiresAt meta = zeroTime ∨ now <= SessionMode.ExpiresAt meta).
Proof.
  unfold handleAnthropic, SessionMode.GetMode. destruct (store !! sid) as [m|]; [|done].
  destruct (Z.eqb_spec (SessionMode.ExpiresAt m) zeroTime); cbn [negb andb].
  - intros [= <-]. by split; [|left].
  - destruct (Z.ltb_spec (SessionMode.ExpiresAt m) now); [done|]. intros [= <-]. by split; [|right].
Qed.

Lemma tunnelDial_pinned meta a k : tunnelDial addrValid meta a = Ok k → k = SessionMode.SeederPubkey meta.
Proof.
  unfold tunnelDial. destruct (negb _); [done|]. destruct (negb _); [done|]. destruct (negb _); [done|].
  destruct (Dial _ _ _) eqn:Hd; [|done]. intros [= <-]. by apply Tunnel_Dial_pinned in Hd.
Qed.

Lemma read_limited_small b e : blen b <= maxRequestBytes → e = EOF →
  read_limited (maxRequestBytes + 1) {| rx_data := b; rx_end := e |} = Some b.
Proof.
  intros Hb ->. unfold read_limited. cbn [rx_data rx_end]. by destruct (Z.leb_spec (maxRequestBytes + 1) (blen b)); [lia|].
Qed.

Lemma u32_small (b : bytes) : blen b <= maxRequestBytes → blen b < 2 ^ 32.
Proof. unfold maxRequestBytes. change (Z.shiftl 1 20) with 1048576. lia. Qed.

Lemma u32_id (b : bytes) : blen b <= maxRequestBytes → u32 (blen b) = blen b.
Proof. intros Hb%u32_small. unfold u32. apply Z.mod_small. unfold blen in *. lia. Qed.

(** What a write leaves behind is what was there and a prefix of what it was given. *)
Lemma Write_some p t r t' : Frame.Write p t = (r, t') → ∃ q, tx_data t' = tx_data t ++ q ∧ q `prefix_of` p ∧ (r = Ok tt → q = p).
Proof.
  unfold Frame.Write. destruct (tx_room t) as [n|]; [destruct (Nat.leb _ _)|]; intros [= <- <-]; cbn [tx_data].
  - by exists p.
  - exists (take n p). split; [done|]. split; [apply prefix_take|done].
  - by exists p.
Qed.

Lemma writeRequest_prefix b room r t' :
  writeRequest b {| tx_data := []; tx_room := room |} = (r, t') → tx_data t' `prefix_of` be_bytes 4 (u32 (blen b)) ++ b.
Proof.
  unfold writeRequest, gbind. destruct (Frame.Write _ _) as [[[]|e] t1] eqn:H1;
    apply Write_some in H1 as (q & E1 & Hq & Hok); cbn [tx_data app] in E1.
  - rewrite (Hok eq_refl) in E1. destruct (blen b =? 0).
    + intros [= _ <-]. rewrite E1. by eexists.
    + intros (q' & E2 & Hq' & _)%Write_some. rewrite E2, E1. by apply prefix_app.
  - intros [= _ <-]. rewrite E1. by apply prefix_app_r.
Qed.

(** What leaves the machine is the body of the request, and nothing of its headers. *)
Lemma only_the_body_is_sent meta body a room peer resp sent :
  Route text addrValid meta body a room peer = (resp, Some sent) →
  (∃ b, read_limited (maxRequestBytes + 1) body = Some b ∧ sent `prefix_of` be_bytes 4 (u32 (blen b)) ++ b) ∧
  tunnelDial addrValid meta a = Ok (SessionMode.SeederPubkey meta).
Proof.
  unfold Route. destruct (read_limited _ _) as [b|]; [|done]. destruct (_ <? _); [done|].
  destruct (tunnelDial addrValid meta a) as [k|e] eqn:Hd; [|done].
  rewrite <- (tunnelDial_pinned _ _ _ Hd). intros Hr. split; [|done]. exists b. split; [done|].
  set (t := {| tl_out := _; tl_in := _; tl_closed := _; tl_max := _ |}) in Hr.
  destruct (Send b t) as [r0 t'] eqn:Hs.
  assert (tx_data (tl_out t') `prefix_of` be_bytes 4 (u32 (blen b)) ++ b) as Hp.
  { unfold Send, on_out in Hs. cbn [t tl_closed tl_out] in Hs. destruct (writeRequest b _) as [r1 o] eqn:Hw.
    injection Hs as _ <-. cbn [tl_out]. by apply writeRequest_prefix in Hw. }
  destruct r0 as [u|e]; [destruct (peer_receive _) as [[r|msg]|]|]; by injection Hr as _ <-.
Qed.
End routing.

(** A handler writes the empty response, or nothing and an error. *)
Lemma Handle_output {A P1 P2 P3 P4} parse (sink : option (HookSink A P1 P2 P3 P4)) event body a :
  let '(out, err, _) := Handle parse sink event body a in out = EmptyResponse ∨ out = [] ∧ is_Some err.
Proof.
  assert (∀ P (p : option P) h, let '(out, err, _) := dispatch_hook p h a in out = EmptyResponse ∨ out = [] ∧ is_Some err)
    as Hd by (intros P [p|] h; cbn; eauto).
  unfold Handle. destruct sink as [k|]; [|cbn; eauto]. repeat (case_bool_decide; [apply Hd|]). cbn. eauto.
Qed.

(** The host never waits for more than a reply: every hook, of whatever name and content, with
    whatever sink, is answered with the empty response. *)
Lemma hooks_never_block {A P1 P2 P3 P4} parse post (sink : option (HookSink A P1 P2 P3 P4)) event body a :
  fst (handleHooks parse post sink event body a) = EmptyResponse.
Proof.
  unfold handleHooks. destruct post; [|done]. cbn [negb]. case_bool_decide; [done|]. destruct sink as [k|]; [|done].
  pose proof (Handle_output parse (Some k) event body a) as Ho.
  destruct (Handle _ _ _ _ _) as [[out err] a']. cbn [fst]. destruct Ho as [->|[-> [e ->]]]; [by destruct err|done].
Qed.

(** A sidecar whose reply breaks off makes the subprocess fail, with part of the reply printed. *)
Lemma broken_reply_is_an_error url status body :
  status < 500 → url ≠ "" →
  runHooks {| rk_url := Some url; rk_stdin := true; rk_request := true; rk_response := Some (status, body, true) |} =
    (body, false).
Proof.
  intros Hs Hu. unfold runHooks. cbn. destruct url; [done|]. by destruct (Z.leb_spec 500 status); [lia|].
Qed.

(** ** A turn through the network *)

Section turn.
Context `{X509} `{Crypto} `{JsonLaws} `{BridgeJson}.
Variables (text : TunErr → string) (addrValid : string → bool).
Variables (decode_request : bytes → option (string * list (string * bytes)))
  (decode_string : bytes → option string) (TextContent : string → bytes) (errText : SeederErr → bytes).

Notation begin := (serveBegin decode_request decode_string TextContent).
Notation serve := (seeder_end decode_request decode_string TextContent errText).

(** The seeder at the other end of a tunnel that holds. *)
Definition seeder_peer (now : Z) (envHash stdout : bytes) (runErr : option BridgeErr) (s : SState) (sent : bytes) : Rx :=
  {| rx_data := (serve now envHash stdout runErr {| rx_data := sent; rx_end := EOF |} s).1.1; rx_end := EOF |}.

Lemma seeder_reads b e :
  blen b <= maxRequestBytes →
  ∃ t, ReadRequest (open_tunnel maxRequestBytes {| rx_data := be_bytes 4 (u32 (blen b)) ++ b; rx_end := e |}) = (Ok b, t) ∧
    tl_out t = open_tx ∧ tl_closed t = false.
Proof.
  intros Hb. destruct (request_roundtrip b maxRequestBytes [] e) as (t & Hw & Hr); [by apply u32_small| |].
  { destruct (Z.ltb_spec maxRequestBytes (blen b)); [lia|]. by rewrite andb_false_r. }
  unfold ReadRequest, on_in, open_tunnel. cbn [tl_closed tl_in tl_out tl_max].
  unfold writeRequest, gbind, Frame.Write in Hw. cbn [open_tx tx_room tx_data app] in Hw.
  assert (tx_data t = be_bytes 4 (u32 (blen b)) ++ b) as E.
  { destruct (Z.eqb_spec (blen b) 0) as [E0|]; injection Hw as <-; [|done].
    assert (b = []) as -> by (apply nil_length_inv; unfold blen in E0; lia). by rewrite app_nil_r. }
  rewrite E, app_nil_r in Hr. rewrite Hr. by eexists.
Qed.

Lemma error_text_read msg : fst (readErrorMessage {| rx_data := take maxErrorBytes msg; rx_end := EOF |}) = take maxErrorBytes msg.
Proof. by destruct (error_roundtrip msg) as (? & _ & _ & ->). Qed.

(** What the seeder does with a framed request. *)
Lemma seeder_end_framed now envHash stdout runErr b s :
  blen b <= maxRequestBytes →
  serve now envHash stdout runErr {| rx_data := be_bytes 4 (blen b) ++ b; rx_end := EOF |} s =
  match begin now (Some b) true envHash s with
  | (Err e, s') => (status_byte StatusError :: take maxErrorBytes (errText e), Err e, s')
  | (Ok job, s') =>
      let '(r, w) := Bridge.Serve (jb_request job) stdout runErr (NewWriter open_tx) in
      (status_byte StatusOK :: tx_data (w_inner (snd (Close w))), Ok (job, r), s')
  end.
Proof.
  intros Hb. destruct (seeder_reads b EOF Hb) as (t & Hreq & Hout & Hcl). rewrite (u32_id b Hb) in Hreq.
  unfold seeder_end. rewrite Hreq. destruct (begin now (Some b) true envHash s) as [[job|e] s'].
  - unfold SendOK, on_out. rewrite Hcl, Hout. cbn [writeResponseStatus Frame.Write open_tx tx_room snd tl_out tx_data app].
    by destruct (Bridge.Serve _ _ _ _).
  - unfold SendError, on_out. rewrite Hcl, Hout. unfold writeResponseError, gbind, Frame.Write.
    cbn [open_tx tx_room tx_data app]. destruct (errText e) eqn:E; [by rewrite take_nil|done].
Qed.

(** What Claude Code gets for a request that reaches its seeder. *)
Lemma Route_answer meta b a k peer :
  blen b <= maxRequestBytes → tunnelDial addrValid meta a = Ok k →
  let sent := be_bytes 4 (blen b) ++ b in
  Route text addrValid meta {| rx_data := b; rx_end := EOF |} a None peer =
  (match peer_receive {| tl_out := {| tx_data := sent; tx_room := None |}; tl_in := peer sent;
                         tl_closed := false; tl_max := maxRequestBytes |} with
   | None => writeAnthropicError StatusBadGateway "network_unavailable" "tunnel receive failed"
   | Some (Err msg) => writeAnthropicError StatusBadGateway "network_unavailable" (String.string_of_list_byte msg)
   | Some (Ok r) => {| hr_status := StatusOKCode; hr_contentType := "text/event-stream"; hr_error := None;
                       hr_body := rx_data r |}
   end, Some sent).
Proof.
  intros Hb Hd sent. unfold Route. rewrite read_limited_small by done.
  destruct (Z.ltb_spec maxRequestBytes (blen b)); [lia|]. rewrite Hd.
  set (t := {| tl_out := _; tl_in := _; tl_closed := _; tl_max := _ |}).
  assert (Send b t = (Ok tt, {| tl_out := {| tx_data := sent; tx_room := None |}; tl_in := tl_in t;
                                tl_closed := false; tl_max := tl_max t |})) as ->.
  { unfold Send, on_out, writeRequest, gbind, Frame.Write. cbn [t tl_closed tl_out tx_room tx_data app]. rewrite (u32_id b Hb).
    destruct (Z.eqb_spec (blen b) 0) as [E|]; [|done].
    assert (b = []) as E' by (apply nil_length_inv; unfold blen in E; lia). unfold sent. by rewrite E', app_nil_r. }
  cbn [tl_out tx_data]. by destruct (peer_receive _) as [[]|].
Qed.

Lemma peer_receive_ok t d e :
  tl_closed t = false → tl_in t = {| rx_data := status_byte StatusOK :: d; rx_end := e |} →
  peer_receive t = Some (Ok {| rx_data := d; rx_end := e |}).
Proof. intros Hc Ht. unfold peer_receive, Receive, on_in. by rewrite Hc, Ht, response_roundtrip. Qed.

Lemma peer_receive_error t m e :
  tl_closed t = false → tl_in t = {| rx_data := status_byte StatusError :: m; rx_end := e |} →
  peer_receive t = Some (Err (fst (readErrorMessage {| rx_data := m; rx_end := e |}))).
Proof. intros Hc Ht. unfold peer_receive, Receive, on_in. by rewrite Hc, Ht, response_roundtrip. Qed.


(** When claude fails before it prints an answer, Claude Code gets a 200 and an empty stream: the
    seeder said that the request is fine before it ran it. *)
Lemma failed_run_is_an_empty_200 meta b a k now envHash e s job s' :
  blen b <= maxRequestBytes → tunnelDial addrValid meta a = Ok k →
  begin now (Some b) true envHash s = (Ok job, s') →
  ValidateMessages (rq_Messages (jb_request job)) = None → rq_BridgeModel (jb_request job) ≠ "" →
  (Route text addrValid meta {| rx_data := b; rx_end := EOF |} a None (seeder_peer now envHash [] (Some e) s)).1 =
    {| hr_status := StatusOKCode; hr_contentType := "text/event-stream"; hr_error := None; hr_body := [] |}.
Proof.
  intros Hb Hd Hbegin Hv Hm. rewrite (Route_answer meta b a k) by done. cbn zeta.
  unfold seeder_peer. rewrite (seeder_end_framed _ _ _ _ b s Hb), Hbegin.
  destruct (served (jb_request job) [] (Some e) Hv Hm) as (r & w1 & w2 & -> & Hc & Hdata & _).
  rewrite Hc. cbn [snd fst]. erewrite peer_receive_ok by done. cbn [rx_data]. by rewrite Hdata.
Qed.
End turn.

(** ** A turn *)

(** The tunnel of the session, to the seeder that took the offer. *)
Definition x_pin : bytes := replicate 32 Byte.x66.
Definition x_509 : X509 := {|
  ParseCertificate b := Some {| ct_RawSubjectPublicKeyInfo := []; ct_PublicKey := Some b |} |}.
Definition x_meta : SessionMode.EntryMetadata := {|
  SessionMode.EnteredAt := 0; SessionMode.ExpiresAt := 0; SessionMode.Payload := Consumer.s_payload;
  SessionMode.UsageProbeBytes := []; SessionMode.Verdict := UsageExhausted;
  SessionMode.SeederAddr := "203.0.113.9:4433"; SessionMode.SeederPubkey := x_pin;
  SessionMode.EphemeralPriv := replicate 64 Byte.x33 |}.
Definition x_text (e : TunErr) : string := "".
Definition x_valid (addr : string) : bool := negb (bool_decide (addr = "")).
Definition x_decode (b : bytes) : option (string * list (string * bytes)) := Some ("", [("user", string_bytes "[hi]")]).
Definition x_body : bytes := string_bytes "{}".
Definition x_answers : Attempt := Answers [x_pin] true.
Definition x_peer (runErr : option BridgeErr) : bytes → Rx :=
  @seeder_peer ToyCrypto w_json w_bridge_json x_decode s_str s_text (λ _, string_bytes "no") s_now
    (of_EnvelopeHash s_offer) w_stdout runErr s_offered.

