(* ===== verification/AuditLog.v ===== *)
(** plugin/internal/auditlog: the log of what a plugin did, and its reader.

    A file is its bytes. A write can stop in the middle and a sync can fail after a write; an
    archive is a file that was renamed. JSON and the text of a time are codecs; what the reader
    yields is a list. *)
From S2P Require Import Consumer.
From S2P Require Import Prelude Proto AdmQueue Wiring Sse Bridge.
From stdpp Require Import pretty.

#[local] Open Scope Z_scope.

(** ** Records *)

Record SeederRecord := {
  ls_RequestID : string; ls_Model : string; ls_InputTokens : Z; ls_OutputTokens : Z; ls_ConsumerIDHash : bytes;
  ls_StartedAt : Z; ls_CompletedAt : Z; ls_TrackerEntryHash : option bytes
}.

Record TransferRecord := {
  lt_RequestID : string; lt_SourceRegion : string; lt_DestRegion : string; lt_Amount : Z; lt_Outcome : string;
  lt_OutcomeReason : string; lt_SourceChainTipHash : option bytes; lt_SourceSeq : Z; lt_Timestamp : Z
}.

Inductive AuditRecord :=
| RConsumer (r : ConsumerRecord) | RSeeder (r : SeederRecord) | RTransfer (r : TransferRecord)
| RUnknown (kind : string) (raw : bytes).

Definition KindConsumer : string := "consumer".
Definition KindSeeder : string := "seeder".
Definition KindTransfer : string := "transfer".

Record consumerWire := {
  wc_Kind : string; wc_RequestID : string; wc_ServedLocally : bool; wc_SeederID : string; wc_CostCredits : Z;
  wc_Timestamp : string
}.

Record seederWire := {
  ws_Kind : string; ws_RequestID : string; ws_Model : string; ws_InputTokens : Z; ws_OutputTokens : Z;
  ws_ConsumerIDHash : string; ws_StartedAt : string; ws_CompletedAt : string; ws_TrackerEntryHash : option string
}.

Record transferWire := {
  wt_Kind : string; wt_RequestID : string; wt_SourceRegion : string; wt_DestRegion : string; wt_Amount : Z;
  wt_Outcome : string; wt_OutcomeReason : string; wt_SourceChainTipHash : option string; wt_SourceSeq : option Z;
  wt_Timestamp : string
}.

(** [json.Marshal] of the three, [json.Unmarshal] into each and into the discriminator; and
    [time.Format] of the UTC time and [time.Parse], with RFC3339Nano. *)
Class AuditJson := {
  json_consumer : consumerWire → bytes; json_seeder : seederWire → bytes; json_transfer : transferWire → bytes;
  parse_kind : bytes → option string; parse_consumer : bytes → option consumerWire;
  parse_seeder : bytes → option seederWire; parse_transfer : bytes → option transferWire;
  timeStr : Z → string; parse_time : string → option Z
}.

Inductive AuditErr :=
| ErrMarshalUnknown | ErrDecodeKind | ErrDecodeRecord | ErrParseTimestamp | ErrParseHash | ErrClosed | ErrAuditWrite
| ErrAuditSync | ErrAuditOpen | ErrTooLong | ErrRotateClose | ErrArchiveName | ErrSuffixesExhausted | ErrRotateRename
| ErrRotateOpen.

Section records.
Context `{AuditJson}.

Definition marshalRecord (rec : AuditRecord) : res AuditErr bytes :=
  match rec with
  | RConsumer r =>
      Ok (json_consumer {| wc_Kind := KindConsumer; wc_RequestID := cr_RequestID r;
        wc_ServedLocally := cr_ServedLocally r; wc_SeederID := cr_SeederID r; wc_CostCredits := cr_CostCredits r;
        wc_Timestamp := timeStr (cr_Timestamp r) |})
  | RSeeder r =>
      Ok (json_seeder {| ws_Kind := KindSeeder; ws_RequestID := ls_RequestID r; ws_Model := ls_Model r;
        ws_InputTokens := ls_InputTokens r; ws_OutputTokens := ls_OutputTokens r;
        ws_ConsumerIDHash := hex_EncodeToString (ls_ConsumerIDHash r); ws_StartedAt := timeStr (ls_StartedAt r);
        ws_CompletedAt := timeStr (ls_CompletedAt r);
        ws_TrackerEntryHash := hex_EncodeToString <$> ls_TrackerEntryHash r |})
  | RTransfer r =>
      Ok (json_transfer {| wt_Kind := KindTransfer; wt_RequestID := lt_RequestID r;
        wt_SourceRegion := lt_SourceRegion r; wt_DestRegion := lt_DestRegion r; wt_Amount := lt_Amount r;
        wt_Outcome := lt_Outcome r; wt_OutcomeReason := lt_OutcomeReason r;
        wt_SourceChainTipHash := hex_EncodeToString <$> lt_SourceChainTipHash r;
        wt_SourceSeq := (λ _, lt_SourceSeq r) <$> lt_SourceChainTipHash r;
        wt_Timestamp := timeStr (lt_Timestamp r) |})
  | RUnknown _ _ => Err ErrMarshalUnknown
  end.

Definition decodeHash32 (s : string) : option bytes :=
  match hex_DecodeString s with
  | None => None
  | Some b => if blen b =? 32 then Some b else None
  end.

Definition require_time (s : string) : res AuditErr Z := match parse_time s with Some t => Ok t | None => Err ErrParseTimestamp end.
Definition require_hash (s : string) : res AuditErr bytes := match decodeHash32 s with Some b => Ok b | None => Err ErrParseHash end.
Definition optional_hash (s : option string) : res AuditErr (option bytes) :=
  match s with
  | None => Ok None
  | Some s => match require_hash s with Ok b => Ok (Some b) | Err e => Err e end
  end.

#[local] Instance res_bind E : MBind (res E) := λ A B f r, match r with Ok a => f a | Err e => Err e end.

Definition unmarshalRecord (line : bytes) : res AuditErr AuditRecord :=
  match parse_kind line with
  | None => Err ErrDecodeKind
  | Some kind =>
    if bool_decide (kind = KindConsumer) then
      match parse_consumer line with
      | None => Err ErrDecodeRecord
      | Some w =>
        ts ← require_time (wc_Timestamp w);
        Ok (RConsumer {| cr_RequestID := wc_RequestID w; cr_ServedLocally := wc_ServedLocally w;
          cr_SeederID := wc_SeederID w; cr_CostCredits := wc_CostCredits w; cr_Timestamp := ts |})
      end
    else if bool_decide (kind = KindTransfer) then
      match parse_transfer line with
      | None => Err ErrDecodeRecord
      | Some w =>
        ts ← require_time (wt_Timestamp w);
        h ← optional_hash (wt_SourceChainTipHash w);
        Ok (RTransfer {| lt_RequestID := wt_RequestID w; lt_SourceRegion := wt_SourceRegion w;
          lt_DestRegion := wt_DestRegion w; lt_Amount := wt_Amount w; lt_Outcome := wt_Outcome w;
          lt_OutcomeReason := wt_OutcomeReason w; lt_SourceChainTipHash := h;
          lt_SourceSeq := default 0 (wt_SourceSeq w); lt_Timestamp := ts |})
      end
    else if bool_decide (kind = KindSeeder) then
      match parse_seeder line with
      | None => Err ErrDecodeRecord
      | Some w =>
        c ← require_hash (ws_ConsumerIDHash w);
        st ← require_time (ws_StartedAt w);
        ct ← require_time (ws_CompletedAt w);
        h ← optional_hash (ws_TrackerEntryHash w);
        Ok (RSeeder {| ls_RequestID := ws_RequestID w; ls_Model := ws_Model w; ls_InputTokens := ws_InputTokens w;
          ls_OutputTokens := ws_OutputTokens w; ls_ConsumerIDHash := c; ls_StartedAt := st; ls_CompletedAt := ct;
          ls_TrackerEntryHash := h |})
      end
    else Ok (RUnknown kind line)
  end.

(** ** The reader *)

Definition readMaxLineBytes : Z := Z.shiftl 1 20.

(** One byte off the end. *)
Definition chomp (c : byte) (b : bytes) : bytes := if bool_decide (last b = Some c) then removelast b else b.

(** The tokens of [bufio.Scanner]: a line whose text does not fit the buffer ends the scan. *)
Fixpoint scan_lines (ls : list bytes) : list (res AuditErr AuditRecord) :=
  match ls with
  | [] => []
  | l :: ls =>
    let text := chomp newline l in
    if readMaxLineBytes <=? blen text then [Err ErrTooLong] else
    match chomp return_byte text with
    | [] => scan_lines ls
    | line => unmarshalRecord line :: scan_lines ls
    end
  end.

(** [Read], of a file that opens and does not break. *)
Definition read_bytes (content : bytes) : list (res AuditErr AuditRecord) :=
  let '(ls, rest) := lines content in scan_lines (ls ++ match rest with [] => [] | _ => [rest] end).

Definition Read (openable : bool) (file : option bytes) : list (res AuditErr AuditRecord) :=
  match file with
  | Some content => if openable then read_bytes content else [Err ErrAuditOpen]
  | None => [Err ErrAuditOpen]
  end.

(** ** The logger *)

(** The live file, if it exists, the archives in the order they were made, and whether the
    logger has the live file open. *)
Record Logger := { lg_live : option bytes; lg_archives : list (string * bytes); lg_open : bool }.

Definition no_log : Logger := {| lg_live := None; lg_archives := []; lg_open := false |}.

Definition set_live (f : option bytes) (open : bool) (l : Logger) : Logger :=
  {| lg_live := f; lg_archives := lg_archives l; lg_open := open |}.

Definition Open (opens : bool) : GoM Logger AuditErr unit := λ l,
  if opens then (Ok tt, set_live (Some (default [] (lg_live l))) true l) else (Err ErrAuditOpen, l).

Definition CloseLog : Logger → Logger := λ l, set_live (lg_live l) false l.

(** [pi_written] is how much of the line is written when the write fails. *)
Record AppendIo := { pi_written : option nat; pi_sync : bool }.

Definition append (io : AppendIo) (rec : AuditRecord) : GoM Logger AuditErr unit := λ l,
  match marshalRecord rec with
  | Err e => (Err e, l)
  | Ok line =>
    let line := line ++ [newline] in
    if negb (lg_open l) then (Err ErrClosed, l) else
    let old := default [] (lg_live l) in
    match pi_written io with
    | Some k => (Err ErrAuditWrite, set_live (Some (old ++ take k line)) true l)
    | None => (if pi_sync io then Ok tt else Err ErrAuditSync, set_live (Some (old ++ line)) true l)
    end
  end.

(** The tries of [uniqueArchivePath] after the bare stem. [stat] is whether a name exists, or fails. *)
Fixpoint pick_suffix (stat : string → option bool) (stem : string) (fuel : nat) (i : Z) : res AuditErr string :=
  match fuel with
  | O => Err ErrSuffixesExhausted
  | S fuel =>
    let candidate := (stem ++ "-" ++ pretty i)%string in
    match stat candidate with
    | Some false => Ok candidate
    | None => Err ErrArchiveName
    | Some true => pick_suffix stat stem fuel (i + 1)
    end
  end.

Definition uniqueArchivePath (stat : string → option bool) (stem : string) : res AuditErr string :=
  match stat stem with
  | Some false => Ok stem
  | None => Err ErrArchiveName
  | Some true => pick_suffix stat stem 9999 1
  end.

(** [ro_stem] is the path with the time, [ro_stat] whether a stat works. *)
Record RotateIo := { ro_stem : string; ro_close : bool; ro_stat : string → bool; ro_rename : bool; ro_reopen : bool }.

Definition archive_stat (io : RotateIo) (l : Logger) (name : string) : option bool :=
  if ro_stat io name then Some (bool_decide (name ∈ (lg_archives l).*1)) else None.

Definition Rotate (io : RotateIo) : GoM Logger AuditErr unit := λ l,
  if negb (lg_open l) then (Err ErrClosed, l) else
  if negb (ro_close io) then (Err ErrRotateClose, l) else
  match uniqueArchivePath (archive_stat io l) (ro_stem io) with
  | Err e => (Err e, set_live (lg_live l) false l)
  | Ok name =>
    if negb (ro_rename io) then (Err ErrRotateRename, set_live (lg_live l) false l) else
    let l := {| lg_live := None; lg_archives := lg_archives l ++ [(name, default [] (lg_live l))]; lg_open := false |} in
    if ro_reopen io then (Ok tt, set_live (Some []) true l) else (Err ErrRotateOpen, l)
  end.

(** ** A life of the log *)

Inductive AuditOp := OpOpen (opens : bool) | OpAppend (io : AppendIo) (rec : AuditRecord) | OpRotate (io : RotateIo) | OpClose.

Definition audit_op (op : AuditOp) : GoM Logger AuditErr unit :=
  match op with
  | OpOpen opens => Open opens
  | OpAppend io rec => append io rec
  | OpRotate io => Rotate io
  | OpClose => λ l, (Ok tt, CloseLog l)
  end.

(** The log after the operations, and the records it said it has. *)
Fixpoint audit_run (ops : list AuditOp) (l : Logger) (acked : list AuditRecord) : Logger * list AuditRecord :=
  match ops with
  | [] => (l, acked)
  | op :: ops =>
    let '(r, l) := audit_op op l in
    audit_run ops l (acked ++ match op, r with OpAppend _ rec, Ok _ => [rec] | _, _ => [] end)
  end.

(** Everything that can be read back, oldest first. *)
Definition read_all (l : Logger) : list (res AuditErr AuditRecord) :=
  ((lg_archives l).*2 ≫= read_bytes) ++ read_bytes (default [] (lg_live l)).
End records.

(** ** The viewer *)

Section viewer.
(** [Format] with seconds. *)
Variable stamp : Z → string.

Definition arrow : string := String.string_of_list_byte [Byte.xe2; Byte.x86; Byte.x92].
Definition bool_text (b : bool) : string := if b then "true" else "false".

Definition formatAuditRecord (rec : AuditRecord) : string :=
  match rec with
  | RConsumer r =>
      stamp (cr_Timestamp r) ++ "  consumer  req=" ++ cr_RequestID r ++ "  local=" ++ bool_text (cr_ServedLocally r) ++
      "  credits=" ++ pretty (cr_CostCredits r)
  | RSeeder r =>
      stamp (ls_CompletedAt r) ++ "  seeder    req=" ++ ls_RequestID r ++ "  model=" ++ ls_Model r ++
      "  in=" ++ pretty (ls_InputTokens r) ++ " out=" ++ pretty (ls_OutputTokens r)
  | RTransfer r =>
      stamp (lt_Timestamp r) ++ "  transfer  req=" ++ lt_RequestID r ++ "  " ++ lt_SourceRegion r ++ arrow ++
      lt_DestRegion r ++ "  amt=" ++ pretty (lt_Amount r) ++ "  outcome=" ++ lt_Outcome r
  | RUnknown _ _ => ""
  end%string.

Definition defaultLogsTail : Z := 50.

(** The ring buffer, after one more line. *)
Definition ring (tail : Z) (buf : list string) (line : string) : list string :=
  if blen buf =? tail then drop 1 buf ++ [line] else buf ++ [line].

(** [runLogs]: the lines it prints, or the error it ends with. *)
Fixpoint tail_records (tail : Z) (rs : list (res AuditErr AuditRecord)) (buf : list string) (iterErr : option AuditErr)
    : list string * option AuditErr :=
  match rs with
  | [] => (buf, iterErr)
  | Err e :: rs => tail_records tail rs buf (Some e)
  | Ok rec :: rs =>
    let line := formatAuditRecord rec in
    tail_records tail rs (if bool_decide (line = "") then buf else ring tail buf line) iterErr
  end.

Definition runLogs (tail : Z) (rs : list (res AuditErr AuditRecord)) : res AuditErr (list string) :=
  let tail := if tail <? 1 then defaultLogsTail else tail in
  match tail_records tail rs [] None with
  | ([], Some e) => Err e
  | (buf, _) => Ok buf
  end.
End viewer.

(** ** What the codecs promise *)

Definition year_ok (t : Z) : Prop := - 62167219200 * Second <= t < 253402300800 * Second.

Definition consumer_ok (w : consumerWire) : Prop :=
  ValidString (wc_Kind w) = true ∧ ValidString (wc_RequestID w) = true ∧ ValidString (wc_SeederID w) = true ∧
  ValidString (wc_Timestamp w) = true ∧ is_i64 (wc_CostCredits w).

Definition optional_ok (s : option string) : Prop := match s with Some s => ValidString s = true | None => True end.

Definition seeder_ok (w : seederWire) : Prop :=
  ValidString (ws_Kind w) = true ∧ ValidString (ws_RequestID w) = true ∧ ValidString (ws_Model w) = true ∧
  ValidString (ws_ConsumerIDHash w) = true ∧ ValidString (ws_StartedAt w) = true ∧
  ValidString (ws_CompletedAt w) = true ∧ optional_ok (ws_TrackerEntryHash w) ∧
  is_i64 (ws_InputTokens w) ∧ is_i64 (ws_OutputTokens w).

Definition transfer_ok (w : transferWire) : Prop :=
  ValidString (wt_Kind w) = true ∧ ValidString (wt_RequestID w) = true ∧ ValidString (wt_SourceRegion w) = true ∧
  ValidString (wt_DestRegion w) = true ∧ ValidString (wt_Outcome w) = true ∧ ValidString (wt_OutcomeReason w) = true ∧
  optional_ok (wt_SourceChainTipHash w) ∧ ValidString (wt_Timestamp w) = true ∧ is_u64 (wt_Amount w) ∧
  match wt_SourceSeq w with Some z => is_u64 z | None => True end.

(** A JSON object is one line, and ends with its brace. *)
Definition one_object (b : bytes) : Prop := newline ∉ b ∧ last b = Some Byte.x7d.

(** What is documented of [encoding/json] on such structs, and of RFC3339Nano for years of four digits. *)
Class AuditJsonLaws `{AuditJson} := {
  consumer_law w : consumer_ok w → one_object (json_consumer w) ∧ parse_kind (json_consumer w) = Some (wc_Kind w) ∧
    parse_consumer (json_consumer w) = Some w;
  seeder_law w : seeder_ok w → one_object (json_seeder w) ∧ parse_kind (json_seeder w) = Some (ws_Kind w) ∧
    parse_seeder (json_seeder w) = Some w;
  transfer_law w : transfer_ok w → one_object (json_transfer w) ∧ parse_kind (json_transfer w) = Some (wt_Kind w) ∧
    parse_transfer (json_transfer w) = Some w;
  time_law t : year_ok t → parse_time (timeStr t) = Some t;
  time_text t : ValidString (timeStr t) = true
}.

(** A record that fits its types: strings that are UTF-8, times of four-digit years, and a
    sequence number only with the hash it belongs to. *)
Definition fields_ok (rec : AuditRecord) : Prop :=
  match rec with
  | RConsumer r =>
      ValidString (cr_RequestID r) = true ∧ ValidString (cr_SeederID r) = true ∧ is_i64 (cr_CostCredits r) ∧
      year_ok (cr_Timestamp r)
  | RSeeder r =>
      ValidString (ls_RequestID r) = true ∧ ValidString (ls_Model r) = true ∧ is_i64 (ls_InputTokens r) ∧
      is_i64 (ls_OutputTokens r) ∧ length (ls_ConsumerIDHash r) = 32%nat ∧ year_ok (ls_StartedAt r) ∧
      year_ok (ls_CompletedAt r) ∧ from_option (λ h, length h = 32%nat) True (ls_TrackerEntryHash r)
  | RTransfer r =>
      ValidString (lt_RequestID r) = true ∧ ValidString (lt_SourceRegion r) = true ∧
      ValidString (lt_DestRegion r) = true ∧ ValidString (lt_Outcome r) = true ∧
      ValidString (lt_OutcomeReason r) = true ∧ is_u64 (lt_Amount r) ∧ is_u64 (lt_SourceSeq r) ∧
      year_ok (lt_Timestamp r) ∧
      match lt_SourceChainTipHash r with Some h => length h = 32%nat | None => lt_SourceSeq r = 0 end
  | RUnknown _ _ => False
  end.

(** ** Lemmas: records *)

Lemma utf8_valid_ascii (s : list Z) : Forall (λ c, c <? 128 = true) s → utf8_valid s = true.
Proof. induction 1 as [|c s Hc Hs IH]; [done|]. simpl. by rewrite Hc. Qed.

Lemma ValidString_hex b : ValidString (hex_EncodeToString b) = true.
Proof.
  unfold ValidString. apply utf8_valid_ascii.
  apply Forall_fmap, Forall_forall. intros c Hc.
  pose proof (hex_bytes_alnum b) as Ha. rewrite Forall_forall in Ha. specialize (Ha c Hc). revert Ha. by destruct c.
Qed.

Lemma decodeHash32_hex h : length h = 32%nat → decodeHash32 (hex_EncodeToString h) = Some h.
Proof. intros Hl. unfold decodeHash32, blen. by rewrite hex_DecodeString_Encode, Hl. Qed.

Section laws.
Context `{AuditJsonLaws}.

(** What is logged can be read. *)
Lemma audit_unmarshal_marshal rec :
  fields_ok rec → ∃ line, marshalRecord rec = Ok line ∧ one_object line ∧ unmarshalRecord line = Ok rec.
Proof.
  destruct rec as [r|r|r|]; [| | |done]; cbn [fields_ok marshalRecord].
  - intros (H1 & H2 & H3 & H4). eexists. split; [done|]. unfold unmarshalRecord, require_time, mbind.
    match goal with |- context [json_consumer ?w] => destruct (consumer_law w) as (Ho & -> & ->) end.
    { repeat split; cbn; try done; try apply H3; apply time_text. }
    cbn. rewrite time_law by done. cbn. split; [done|]. by destruct r.
  - intros (H1 & H2 & H3 & H4 & H5 & H6 & H7 & H8). eexists. split; [done|].
    unfold unmarshalRecord, require_time, require_hash, optional_hash, mbind.
    match goal with |- context [json_seeder ?w] => destruct (seeder_law w) as (Ho & -> & ->) end.
    { repeat split; cbn; try done; try apply H3; try apply H4; try apply time_text; try apply ValidString_hex.
      destruct (ls_TrackerEntryHash r); [apply ValidString_hex|done]. }
    cbn. unfold require_hash. rewrite decodeHash32_hex by done. cbn. rewrite !time_law by done. cbn. split; [done|].
    destruct r as [? ? ? ? ? ? ? [h|]]; cbn in *; [|done]. unfold require_hash. by rewrite decodeHash32_hex.
  - intros (H1 & H2 & H3 & H4 & H5 & H6 & H7 & H8 & H9). eexists. split; [done|].
    unfold unmarshalRecord, require_time, optional_hash, mbind.
    match goal with |- context [json_transfer ?w] => destruct (transfer_law w) as (Ho & -> & ->) end.
    { repeat split; cbn; try done; try apply H6; try apply time_text;
        destruct (lt_SourceChainTipHash r); cbn; try apply ValidString_hex; try apply H7; done. }
    cbn. rewrite time_law by done. cbn. split; [done|].
    destruct r as [? ? ? ? ? ? [h|] ? ?]; cbn in *; [|by subst]. unfold require_hash. by rewrite decodeHash32_hex.
Qed.
End laws.

(** ** Lemmas: lines *)

Lemma lines_one body : newline ∉ body → lines (body ++ [newline]) = ([body ++ [newline]], []).
Proof.
  induction body as [|c body IH]; [done|]. intros [Hc Hb]%not_elem_of_cons. simpl. rewrite IH by done.
  by rewrite bool_decide_eq_false_2.
Qed.

Lemma chomp_snoc c b : chomp c (b ++ [c]) = b.
Proof. unfold chomp. rewrite last_snoc, bool_decide_eq_true_2 by done. apply removelast_last. Qed.

Lemma chomp_other c b : last b ≠ Some c → chomp c b = b.
Proof. intros Hl. unfold chomp. by rewrite bool_decide_eq_false_2. Qed.

(** A file of whole lines that the scanner's buffer holds. *)
Definition whole (b : bytes) : Prop :=
  snd (lines b) = [] ∧ Forall (λ l, blen (chomp newline l) < readMaxLineBytes) (fst (lines b)).

Lemma whole_nil : whole [].
Proof. split; [done|constructor]. Qed.

Section log.
Context `{AuditJsonLaws}.

Lemma scan_lines_app ls1 ls2 :
  Forall (λ l, blen (chomp newline l) < readMaxLineBytes) ls1 →
  scan_lines (ls1 ++ ls2) = scan_lines ls1 ++ scan_lines ls2.
Proof.
  induction 1 as [|l ls1 Hl _ IH]; [done|]. cbn [app scan_lines].
  destruct (Z.leb_spec readMaxLineBytes (blen (chomp newline l))); [lia|]. rewrite IH. by destruct (chomp return_byte _).
Qed.

(** One more line. *)
Lemma read_line old line rec :
  whole old → one_object line → blen line < readMaxLineBytes → unmarshalRecord line = Ok rec →
  whole (old ++ line ++ [newline]) ∧ read_bytes (old ++ line ++ [newline]) = read_bytes old ++ [Ok rec].
Proof.
  intros [Hr Hf] [Hn Hb] Hlen Hu.
  assert (lines (old ++ line ++ [newline]) = (fst (lines old) ++ [line ++ [newline]], [])) as E.
  { by rewrite lines_app, Hr, app_nil_l, lines_one. }
  split.
  - unfold whole. rewrite E. split; [done|]. apply Forall_app. split; [done|].
    constructor; [by rewrite chomp_snoc|constructor].
  - unfold read_bytes. rewrite E. destruct (lines old) as [ls rest]. cbn [fst snd] in *. subst rest.
    rewrite !app_nil_r, scan_lines_app by done. f_equal. cbn [scan_lines]. rewrite chomp_snoc.
    destruct (Z.leb_spec readMaxLineBytes (blen line)); [lia|]. rewrite chomp_other by by rewrite Hb.
    destruct line; [done|]. by rewrite Hu.
Qed.

(** What is asked of an operation: a record fits its types and one line; and a write that fails
    has written nothing. *)
Definition op_ok (op : AuditOp) : Prop :=
  match op with
  | OpAppend io rec =>
      fields_ok rec ∧ (∀ line, marshalRecord rec = Ok line → blen line < readMaxLineBytes) ∧
      match pi_written io with Some k => k = O | None => True end
  | _ => True
  end.

(** The state of the log, with the records that were written. *)
Record LogInv (l : Logger) (written acked : list AuditRecord) : Prop := {
  li_live : whole (default [] (lg_live l));
  li_read : read_all l = Ok <$> written;
  li_acked : acked `sublist_of` written;
  li_names : NoDup (lg_archives l).*1
}.

Lemma pick_suffix_free stat stem fuel i name : pick_suffix stat stem fuel i = Ok name → stat name = Some false.
Proof.
  revert i. induction fuel as [|fuel IH]; intros i; [done|]. simpl.
  destruct (stat (stem +:+ "-" +:+ pretty i)) as [[]|] eqn:E; [apply IH| |done]. by intros [= <-].
Qed.

Lemma uniqueArchivePath_free stat stem name : uniqueArchivePath stat stem = Ok name → stat name = Some false.
Proof.
  unfold uniqueArchivePath. destruct (stat stem) as [[]|] eqn:E; [apply pick_suffix_free|by intros [= <-]|done].
Qed.

(** A step that leaves files alone. *)
Lemma LogInv_open l l' written acked :
  default [] (lg_live l') = default [] (lg_live l) → lg_archives l' = lg_archives l →
  LogInv l written acked → LogInv l' written acked.
Proof. intros Hl Ha [H1 H2 H3 H4]. split; [by rewrite Hl|unfold read_all; by rewrite Hl, Ha|done|by rewrite Ha]. Qed.

Lemma LogInv_append l written acked line rec acked' open :
  LogInv l written acked → one_object line → blen line < readMaxLineBytes → unmarshalRecord line = Ok rec →
  acked' `sublist_of` written ++ [rec] →
  LogInv (set_live (Some (default [] (lg_live l) ++ line ++ [newline])) open l) (written ++ [rec]) acked'.
Proof.
  intros [H1 H2 H3 H4] Ho Hl Hu Hs. destruct (read_line _ _ _ H1 Ho Hl Hu) as [Hw Hr].
  split; cbn [set_live lg_live lg_archives from_option id]; [done| |done|done].
  unfold read_all in *. cbn [set_live lg_live lg_archives from_option id].
  rewrite Hr, app_assoc, H2, fmap_app. done.
Qed.

Lemma LogInv_rotate l written acked name :
  LogInv l written acked → name ∉ (lg_archives l).*1 →
  LogInv {| lg_live := None; lg_archives := lg_archives l ++ [(name, default [] (lg_live l))]; lg_open := false |}
    written acked.
Proof.
  intros [H1 H2 H3 H4] Hn. split; cbn [lg_live lg_archives from_option id]; [apply whole_nil| |done|].
  - unfold read_all in *. cbn [lg_live lg_archives from_option id]. rewrite fmap_app, bind_app. cbn.
    by rewrite !app_nil_r.
  - rewrite fmap_app. apply NoDup_app. split; [done|]. split; [|apply NoDup_singleton].
    intros x Hx ->%list_elem_of_singleton. done.
Qed.

Lemma audit_op_inv op l written acked r l' :
  op_ok op → LogInv l written acked → audit_op op l = (r, l') →
  ∃ more, LogInv l' (written ++ more)
      (acked ++ match op, r with OpAppend _ rec, Ok _ => [rec] | _, _ => [] end) ∧
    ∀ rec, rec ∈ more → ∃ io, op = OpAppend io rec.
Proof.
  intros Hop HI. destruct op as [opens|io rec|io|]; cbn [audit_op]; intros Hr.
  - exists []. rewrite !app_nil_r. split; [|by intros ? ?%elem_of_nil].
    unfold Open in Hr. destruct opens; injection Hr as <- <-; by apply (LogInv_open l).
  - destruct Hop as (Hf & Hl & Hw). destruct (audit_unmarshal_marshal rec Hf) as (line & Hm & Ho & Hu).
    unfold append in Hr. rewrite Hm in Hr.
    destruct (lg_open l); cbn [negb] in Hr;
      [|injection Hr as <- <-; exists []; rewrite !app_nil_r; by split; [|intros ? ?%elem_of_nil]].
    destruct (pi_written io) as [k|].
    + subst k. injection Hr as <- <-. exists []. rewrite !app_nil_r. split; [|by intros ? ?%elem_of_nil].
      by apply (LogInv_open l).
    + exists [rec]. split; [|intros rec' ->%list_elem_of_singleton; by exists io].
      pose proof (li_acked _ _ _ HI) as Hs.
      destruct (pi_sync io); injection Hr as <- <-; eapply LogInv_append; eauto.
      * by apply sublist_app.
      * rewrite app_nil_r. by apply sublist_inserts_r.
  - exists []. rewrite !app_nil_r. split; [|by intros ? ?%elem_of_nil].
    unfold Rotate in Hr. destruct (lg_open l); cbn [negb] in Hr; [|by injection Hr as <- <-].
    destruct (ro_close io); cbn [negb] in Hr; [|by injection Hr as <- <-].
    destruct (uniqueArchivePath _ _) as [name|e] eqn:Hn; [|injection Hr as <- <-; by apply (LogInv_open l)].
    destruct (ro_rename io); cbn [negb] in Hr; [|injection Hr as <- <-; by apply (LogInv_open l)].
    apply uniqueArchivePath_free in Hn. unfold archive_stat in Hn. destruct (ro_stat io name); [|done].
    injection Hn as Hn%bool_decide_eq_false. pose proof (LogInv_rotate _ _ _ _ HI Hn) as HI'.
    destruct (ro_reopen io); injection Hr as <- <-; [|done]. eapply LogInv_open; [..|exact HI']; done.
  - injection Hr as <- <-. exists []. rewrite !app_nil_r. split; [|by intros ? ?%elem_of_nil]. by apply (LogInv_open l).
Qed.

Lemma audit_run_inv ops l written acked l' acked' :
  Forall op_ok ops → LogInv l written acked → audit_run ops l acked = (l', acked') →
  ∃ more, LogInv l' (written ++ more) acked' ∧ ∀ rec, rec ∈ more → ∃ io, OpAppend io rec ∈ ops.
Proof.
  intros Hops. revert l written acked. induction Hops as [|op ops Hop _ IH]; intros l written acked HI; cbn [audit_run].
  - intros [= <- <-]. exists []. rewrite app_nil_r. split; [done|by intros ? ?%elem_of_nil].
  - destruct (audit_op op l) as [r l1] eqn:Hs. intros Hr.
    destruct (audit_op_inv _ _ _ _ _ _ Hop HI Hs) as (m1 & HI1 & Hm1).
    destruct (IH _ _ _ HI1 Hr) as (m2 & HI2 & Hm2). exists (m1 ++ m2). rewrite app_assoc. split; [done|].
    intros rec [Hin|Hin]%elem_of_app; [destruct (Hm1 _ Hin) as [io ->]; exists io; by left|].
    destruct (Hm2 _ Hin) as [io Hio]. exists io. by right.
Qed.

Lemma LogInv_start : LogInv no_log [] [].
Proof. split; [apply whole_nil|done|done|constructor]. Qed.


(** An archive is never touched again. *)
Lemma archives_kept ops l acked l' acked' :
  audit_run ops l acked = (l', acked') → lg_archives l `prefix_of` lg_archives l'.
Proof.
  revert l acked. induction ops as [|op ops IH]; intros l acked; cbn [audit_run]; [by intros [= <- <-]|].
  destruct (audit_op op l) as [r l1] eqn:Hs. intros Hr%IH. etrans; [|exact Hr]. clear Hr IH.
  destruct op as [opens|io rec|io|]; cbn [audit_op] in Hs.
  - unfold Open in Hs. destruct opens; by injection Hs as <- <-.
  - unfold append in Hs. destruct (marshalRecord rec); [|by injection Hs as <- <-].
    destruct (negb _); [by injection Hs as <- <-|]. destruct (pi_written io); by injection Hs as <- <-.
  - unfold Rotate in Hs. destruct (negb _); [by injection Hs as <- <-|]. destruct (negb _); [by injection Hs as <- <-|].
    destruct (uniqueArchivePath _ _); [|by injection Hs as <- <-]. destruct (negb _); [by injection Hs as <- <-|].
    destruct (ro_reopen io); injection Hs as <- <-; by apply prefix_app_r.
  - by injection Hs as <- <-.
Qed.

(** After a rotation that could not rename or open, every append is refused until the plugin is restarted. *)
Lemma failed_rotation_stops_the_log io l name :
  lg_open l = true → ro_close io = true → uniqueArchivePath (archive_stat io l) (ro_stem io) = Ok name →
  ro_rename io = false →
  ∃ l', Rotate io l = (Err ErrRotateRename, l') ∧
    ∀ aio rec line, marshalRecord rec = Ok line → append aio rec l' = (Err ErrClosed, l').
Proof.
  intros Ho Hc Hn Hr. unfold Rotate. rewrite Ho, Hc, Hn, Hr. cbn [negb]. eexists. split; [done|].
  intros aio rec line Hm. unfold append. by rewrite Hm.
Qed.

(** A record that does not fit the reader's buffer hides itself and all that follows. *)
Lemma oversize_line_hides ls l rest :
  Forall (λ l, blen (chomp newline l) < readMaxLineBytes) ls → readMaxLineBytes <= blen (chomp newline l) →
  scan_lines (ls ++ l :: rest) = scan_lines ls ++ [Err ErrTooLong].
Proof.
  intros Hls Hl. rewrite scan_lines_app by done. f_equal. cbn [scan_lines].
  by destruct (Z.leb_spec readMaxLineBytes (blen (chomp newline l))); [|lia].
Qed.

(** The viewer prints no more lines than it was asked for. *)
Lemma tail_records_bound stamp tail rs buf e :
  1 <= tail → blen buf <= tail → blen (fst (tail_records stamp tail rs buf e)) <= tail.
Proof.
  intros Ht. revert buf e. induction rs as [|[rec|e'] rs IH]; intros buf e Hb; cbn [tail_records]; [done| |by apply IH].
  apply IH. case_bool_decide; [done|]. unfold ring. destruct (Z.eqb_spec (blen buf) tail) as [Hl|Hl]; rewrite blen_snoc.
  - unfold blen in *. rewrite length_drop. lia.
  - lia.
Qed.
End log.

(** ** Codecs to run on *)

Fixpoint bits (p : positive) : bytes :=
  match p with xH => [Byte.x7d] | xO p => Byte.x30 :: bits p | xI p => Byte.x31 :: bits p end.

Fixpoint of_bits (b : bytes) : option positive :=
  match b with
  | [Byte.x7d] => Some xH
  | Byte.x30 :: b => xO <$> of_bits b
  | Byte.x31 :: b => xI <$> of_bits b
  | _ => None
  end.

Lemma of_bits_bits p : of_bits (bits p) = Some p.
Proof. induction p as [p IH|p IH|]; cbn [bits of_bits]; [by rewrite IH|by rewrite IH|done]. Qed.

Lemma bits_chars p : Forall (λ c, c = Byte.x7d ∨ c = Byte.x30 ∨ c = Byte.x31) (bits p).
Proof. induction p; cbn [bits]; constructor; auto. Qed.

Lemma bits_object p : one_object (bits p).
Proof.
  split.
  - intros Hin. pose proof (bits_chars p) as Hc. rewrite Forall_forall in Hc. destruct (Hc _ Hin) as [?|[?|?]]; done.
  - induction p as [p IH|p IH|]; cbn [bits]; [..|done]; rewrite last_cons, IH; done.
Qed.

Definition pack (xs : list (string + Z)) : bytes := bits (encode xs).
Definition unpack (b : bytes) : option (list (string + Z)) := of_bits b ≫= decode.

Lemma unpack_pack xs : unpack (pack xs) = Some xs.
Proof. unfold unpack, pack. rewrite of_bits_bits. cbn. apply decode_encode. Qed.

Definition pack_string (s : option string) : string + Z := match s with Some s => inl s | None => inr 0 end.
Definition pack_Z (z : option Z) : string + Z := match z with Some z => inr z | None => inl "" end.

Definition a_json : AuditJson := {|
  json_consumer w := pack [inl (wc_Kind w); inl (wc_RequestID w); inr (if wc_ServedLocally w then 1 else 0);
    inl (wc_SeederID w); inr (wc_CostCredits w); inl (wc_Timestamp w)];
  json_seeder w := pack [inl (ws_Kind w); inl (ws_RequestID w); inl (ws_Model w); inr (ws_InputTokens w);
    inr (ws_OutputTokens w); inl (ws_ConsumerIDHash w); inl (ws_StartedAt w); inl (ws_CompletedAt w);
    pack_string (ws_TrackerEntryHash w)];
  json_transfer w := pack [inl (wt_Kind w); inl (wt_RequestID w); inl (wt_SourceRegion w); inl (wt_DestRegion w);
    inr (wt_Amount w); inl (wt_Outcome w); inl (wt_OutcomeReason w); pack_string (wt_SourceChainTipHash w);
    pack_Z (wt_SourceSeq w); inl (wt_Timestamp w)];
  parse_kind b := match unpack b with Some (inl k :: _) => Some k | _ => None end;
  parse_consumer b :=
    match unpack b with
    | Some [inl k; inl r; inr l; inl s; inr c; inl t] => Some {| wc_Kind := k; wc_RequestID := r;
        wc_ServedLocally := l =? 1; wc_SeederID := s; wc_CostCredits := c; wc_Timestamp := t |}
    | _ => None
    end;
  parse_seeder b :=
    match unpack b with
    | Some [inl k; inl r; inl m; inr i; inr o; inl c; inl st; inl ct; h] => Some {| ws_Kind := k; ws_RequestID := r;
        ws_Model := m; ws_InputTokens := i; ws_OutputTokens := o; ws_ConsumerIDHash := c; ws_StartedAt := st;
        ws_CompletedAt := ct; ws_TrackerEntryHash := match h with inl h => Some h | inr _ => None end |}
    | _ => None
    end;
  parse_transfer b :=
    match unpack b with
    | Some [inl k; inl r; inl s; inl d; inr a; inl o; inl why; h; q; inl t] => Some {| wt_Kind := k;
        wt_RequestID := r; wt_SourceRegion := s; wt_DestRegion := d; wt_Amount := a; wt_Outcome := o;
        wt_OutcomeReason := why; wt_SourceChainTipHash := match h with inl h => Some h | inr _ => None end;
        wt_SourceSeq := match q with inr q => Some q | inl _ => None end; wt_Timestamp := t |}
    | _ => None
    end;
  timeStr t := String.string_of_list_byte (bits (encode t));
  parse_time s := of_bits (string_bytes s) ≫= decode |}.

Lemma a_json_laws : @AuditJsonLaws a_json.
Proof.
  split; unfold a_json, json_consumer, json_seeder, json_transfer, parse_kind, parse_consumer, parse_seeder,
    parse_transfer, timeStr, parse_time.
  - intros w _. rewrite unpack_pack. split; [apply bits_object|]. split; [done|]. by destruct w as [? ? [] ? ? ?].
  - intros w _. rewrite unpack_pack. split; [apply bits_object|]. split; [done|]. by destruct w as [? ? ? ? ? ? ? ? []].
  - intros w _. rewrite unpack_pack. split; [apply bits_object|]. split; [done|].
    by destruct w as [? ? ? ? ? ? ? [] [] ?].
  - intros t _. unfold string_bytes. rewrite String.list_byte_of_string_of_list_byte, of_bits_bits. cbn. apply decode_encode.
  - intros t. unfold ValidString, string_bytes. rewrite String.list_byte_of_string_of_list_byte. apply utf8_valid_ascii.
    apply Forall_fmap. eapply Forall_impl; [apply bits_chars|]. by intros c [->|[->| ->]].
Qed.

(** ** A log *)

Definition l_record (id : string) : AuditRecord := RConsumer {|
  cr_RequestID := id; cr_ServedLocally := false; cr_SeederID := "s"; cr_CostCredits := 7; cr_Timestamp := 0 |}.
Definition l_good : AppendIo := {| pi_written := None; pi_sync := true |}.
Definition l_lost : AppendIo := {| pi_written := Some O; pi_sync := true |}.
Definition l_unsynced : AppendIo := {| pi_written := None; pi_sync := false |}.
Definition l_rotate (rename : bool) : RotateIo := {|
  ro_stem := "audit.log.20260101T000000Z"; ro_close := true; ro_stat _ := true; ro_rename := rename; ro_reopen := true |}.
Definition l_ops : list AuditOp := [
  OpOpen true; OpAppend l_good (l_record "a"); OpRotate (l_rotate true); OpAppend l_lost (l_record "b");
  OpAppend l_unsynced (l_record "c"); OpRotate (l_rotate true); OpAppend l_good (l_record "d")].


(** A write that stopped in the middle of a line takes the next record with it, although its append succeeded. *)
Lemma torn_line_eats_the_next :
  let l := snd (@append a_json {| pi_written := Some 3%nat; pi_sync := true |} (l_record "a")
                  (snd (Open true no_log))) in
  let '(r, l) := @append a_json l_good (l_record "b") l in
  let '(r', l) := @append a_json l_good (l_record "c") l in
  r = Ok tt ∧ r' = Ok tt ∧ @read_all a_json l = [Err ErrDecodeKind; Ok (l_record "c")].
Proof. vm_compute. auto. Qed.
