(* ===== verification/PluginConfig.v ===== *)
(** plugin/internal/config, and what plugin/cmd/token-bay-sidecar builds from it: the defaults, the rules, and
    the coordinators' own configurations.

    The home directory, [filepath.Join], [url.Parse] and the text of its error are arguments;
    YAML is decoded by a library. *)
From S2P Require Import Seeder.
From S2P Require Import Prelude Proto Float Registry Broker Api Consumer.
From Stdlib Require Import Floats.SpecFloat.

#[local] Open Scope Z_scope.

(** ** The file's data *)

Module PluginConfig.
Record SandboxConfig := { Enabled : bool; Driver : string }.
Record CCBridgeConfig := { ClaudeBin : string; ExtraFlags : option (list string); Sandbox : SandboxConfig }.
Record ConsumerConfig := { NetworkModeTTL : Z }.
Record SeederConfig := { HeadroomWindow : Z }.
Record IdlePolicyConfig := { IdleMode : string; Window : string; ActivityGrace : Z }.
Record Config := {
  Role : string; Tracker : string; IdentityKeyPath : string; AuditLogPath : string; CCBridge : CCBridgeConfig;
  ConsumerSection : ConsumerConfig; SeederSection : SeederConfig; IdlePolicy : IdlePolicyConfig;
  PrivacyTier : string; MaxSpendPerHour : Z
}.

Definition Minute : Z := 60 * Second.

Definition DefaultConfig : Config := {|
  Role := ""; Tracker := ""; IdentityKeyPath := "~/.token-bay/identity.key"; AuditLogPath := "~/.token-bay/audit.log";
  CCBridge := {| ClaudeBin := "claude"; ExtraFlags := Some []; Sandbox := {| Enabled := false; Driver := "bubblewrap" |} |};
  ConsumerSection := {| NetworkModeTTL := 15 * Minute |}; SeederSection := {| HeadroomWindow := 15 * Minute |};
  IdlePolicy := {| IdleMode := "scheduled"; Window := "02:00-06:00"; ActivityGrace := 10 * Minute |};
  PrivacyTier := "standard"; MaxSpendPerHour := 500 |}.

(** ** Defaults *)

Section defaults.
(** [os.UserHomeDir] and [filepath.Join]. *)
Variables (home : option string) (Join : string → string → string).

Definition fill_string (s d : string) : string := if bool_decide (s = "") then d else s.
Definition fill_Z (z d : Z) : Z := if z =? 0 then d else z.

Definition expandTilde (p : string) : string :=
  if bool_decide (p = "") then p else
  if bool_decide (p = "~") then default p home else
  if String.prefix "~/" p then
    match home with None => p | Some home => Join home (String.substring 2 (String.length p - 2) p) end
  else p.

Definition ApplyDefaults (c : Config) : Config :=
  let d := DefaultConfig in {|
  Role := Role c; Tracker := Tracker c;
  IdentityKeyPath := expandTilde (fill_string (IdentityKeyPath c) (IdentityKeyPath d));
  AuditLogPath := expandTilde (fill_string (AuditLogPath c) (AuditLogPath d));
  CCBridge := {|
    ClaudeBin := fill_string (ClaudeBin (CCBridge c)) (ClaudeBin (CCBridge d));
    ExtraFlags := match ExtraFlags (CCBridge c) with Some f => Some f | None => ExtraFlags (CCBridge d) end;
    Sandbox := {|
      Enabled := Enabled (Sandbox (CCBridge c));
      Driver := fill_string (Driver (Sandbox (CCBridge c))) (Driver (Sandbox (CCBridge d))) |} |};
  ConsumerSection := {| NetworkModeTTL := fill_Z (NetworkModeTTL (ConsumerSection c)) (NetworkModeTTL (ConsumerSection d)) |};
  SeederSection := {| HeadroomWindow := fill_Z (HeadroomWindow (SeederSection c)) (HeadroomWindow (SeederSection d)) |};
  IdlePolicy := {|
    IdleMode := fill_string (IdleMode (IdlePolicy c)) (IdleMode (IdlePolicy d));
    Window := fill_string (Window (IdlePolicy c)) (Window (IdlePolicy d));
    ActivityGrace := fill_Z (ActivityGrace (IdlePolicy c)) (ActivityGrace (IdlePolicy d)) |};
  PrivacyTier := fill_string (PrivacyTier c) (PrivacyTier d);
  MaxSpendPerHour := fill_Z (MaxSpendPerHour c) (MaxSpendPerHour d) |}.
End defaults.

(** ** Rules *)

Record FieldError := { Field : string; Message : string }.

Definition add_if (b : bool) (field msg : string) : list FieldError :=
  if b then [{| Field := field; Message := msg |}] else [].

(** [regexp] of the idle window, on the bytes of the text. *)
Definition is_digit (c : Z) : bool := (48 <=? c) && (c <=? 57).
Definition is_hour (a b : Z) : bool := ((48 <=? a) && (a <=? 49) && is_digit b) || ((a =? 50) && (48 <=? b) && (b <=? 51)).
Definition is_minute (a b : Z) : bool := (48 <=? a) && (a <=? 53) && is_digit b.

Definition idleWindowRe (s : list Z) : bool :=
  match s with
  | [a; b; s1; c; d; s2; e; f; s3; g; h] =>
      is_hour a b && (s1 =? 58) && is_minute c d && (s2 =? 45) && is_hour e f && (s3 =? 58) && is_minute g h
  | _ => false
  end.

Definition double_quote : string := String.string_of_list_byte [Byte.x22].
Definition dash : string := String.string_of_list_byte [Byte.xe2; Byte.x80; Byte.x94].

Section rules.
(** [url.Parse]: the scheme and the host, or the error's text; and [%q]. *)
Variables (url_Parse : string → res string (string * string)) (quote : string → string).

Definition checkRequired (c : Config) : list FieldError :=
  add_if (bool_decide (Role c = "")) "role" "must be non-empty" ++
  add_if (bool_decide (Tracker c = "")) "tracker" "must be non-empty".

Definition checkRole (c : Config) : list FieldError :=
  if bool_decide (Role c = "") then [] else
  add_if (bool_decide (Role c ∉ ["consumer"; "seeder"; "both"])) "role" "must be one of: consumer, seeder, both".

Definition checkTracker (c : Config) : list FieldError :=
  if bool_decide (Tracker c = "") || bool_decide (Tracker c = "auto") then [] else
  match url_Parse (Tracker c) with
  | Err e => add_if true "tracker" ("must be " ++ double_quote ++ "auto" ++ double_quote ++ " or a URL " ++ dash ++ " " ++ e)
  | Ok (scheme, host) =>
      add_if (bool_decide (scheme ∉ ["https"; "quic"])) "tracker"
        ("URL scheme must be https or quic, got " ++ quote scheme) ++
      add_if (bool_decide (host = "")) "tracker" "URL must include a host"
  end.

Definition IsAbs (p : string) : bool := String.prefix "/" p.

Definition checkPaths (c : Config) : list FieldError :=
  add_if (negb (bool_decide (IdentityKeyPath c = "")) && negb (IsAbs (IdentityKeyPath c))) "identity_key_path"
    "must be an absolute path (after ~ expansion)" ++
  add_if (negb (bool_decide (AuditLogPath c = "")) && negb (IsAbs (AuditLogPath c))) "audit_log_path"
    "must be an absolute path (after ~ expansion)".

Definition checkCCBridge (c : Config) : list FieldError :=
  add_if (bool_decide (ClaudeBin (CCBridge c) = "")) "cc_bridge.claude_bin" "must be non-empty" ++
  add_if (Enabled (Sandbox (CCBridge c)) && bool_decide (Driver (Sandbox (CCBridge c)) ∉ ["bubblewrap"; "firejail"; "docker"]))
    "cc_bridge.sandbox.driver" "must be one of: bubblewrap, firejail, docker (when sandbox.enabled is true)".

Definition checkConsumer (c : Config) : list FieldError :=
  add_if (NetworkModeTTL (ConsumerSection c) <=? 0) "consumer.network_mode_ttl" "must be > 0".

Definition checkSeeder (c : Config) : list FieldError :=
  add_if (HeadroomWindow (SeederSection c) <=? 0) "seeder.headroom_window" "must be > 0".

Definition checkIdlePolicy (c : Config) : list FieldError :=
  let p := IdlePolicy c in
  if bool_decide (IdleMode p = "") then add_if true "idle_policy.mode" "must be non-empty" else
  add_if (bool_decide (IdleMode p ∉ ["scheduled"; "always_on"])) "idle_policy.mode" "must be one of: scheduled, always_on" ++
  (if bool_decide (IdleMode p = "scheduled") then
     if bool_decide (Window p = "")
     then add_if true "idle_policy.window" "must be set when mode=scheduled (HH:MM-HH:MM)"
     else add_if (negb (idleWindowRe (Z_of_byte <$> string_bytes (Window p)))) "idle_policy.window"
            "must match HH:MM-HH:MM (24-hour clock)"
   else []) ++
  add_if (ActivityGrace p <=? 0) "idle_policy.activity_grace" "must be > 0".

Definition checkPrivacyTier (c : Config) : list FieldError :=
  if bool_decide (PrivacyTier c = "") then add_if true "privacy_tier" "must be non-empty" else
  add_if (bool_decide (PrivacyTier c ∉ ["standard"; "tee_required"; "tee_preferred"])) "privacy_tier"
    "must be one of: standard, tee_required, tee_preferred".

Definition checkSpend (c : Config) : list FieldError :=
  add_if (MaxSpendPerHour c <? 0) "max_spend_per_hour" "must be >= 0".

Definition Validate (c : Config) : list FieldError :=
  checkRequired c ++ checkRole c ++ checkTracker c ++ checkPaths c ++ checkCCBridge c ++ checkConsumer c ++
  checkSeeder c ++ checkIdlePolicy c ++ checkPrivacyTier c ++ checkSpend c.

Inductive LoadErr := ErrOpenFile | ErrParse | ErrValidation (es : list FieldError).

(** [Load]: the file opens, and what YAML it holds. *)
Definition Load (home : option string) (Join : string → string → string) (opens : bool) (parsed : option Config)
    : res LoadErr Config :=
  if negb opens then Err ErrOpenFile else
  match parsed with
  | None => Err ErrParse
  | Some c =>
    let c := ApplyDefaults home Join c in
    match Validate c with [] => Ok c | es => Err (ErrValidation es) end
  end.
End rules.
End PluginConfig.

(** ** What is built from it *)

(** [strings.ToLower], of ASCII. *)
Definition lower (s : string) : string :=
  String.string_of_list_byte
    ((λ c, let z := Z_of_byte c in if (65 <=? z) && (z <=? 90) then byte_of_Z (z + 32) else c) <$> string_bytes s).

Definition parsePrivacyTier (s : string) : PrivacyTier :=
  if bool_decide (lower s = "tee") then PRIVACY_TIER_TEE else PRIVACY_TIER_STANDARD.

Definition RoleConsumer : Z := Z.shiftl 1 0.
Definition RoleSeeder : Z := Z.shiftl 1 1.

Definition parseRole (s : string) : option Z :=
  let s := lower (String.string_of_list_byte (byte_of_Z <$> TrimSpace (Z_of_byte <$> string_bytes s))) in
  if bool_decide (s = "consumer") then Some RoleConsumer else
  if bool_decide (s = "seeder") then Some RoleSeeder else
  if bool_decide (s = "both") then Some (Z.lor RoleConsumer RoleSeeder) else None.

(** [buildConsumerFlow]: the dependencies are all there. *)
Definition consumer_deps (c : PluginConfig.Config) : Deps := {|
  dp_Tracker := true; dp_Sessions := true; dp_Settings := true; dp_AuditLog := true; dp_UsageProber := true;
  dp_ProofBuilder := true; dp_EnvelopeBuilder := true; dp_Identity := true; dp_SidecarURLFunc := true;
  dp_Metrics := false; dp_NetworkModeTTL := PluginConfig.NetworkModeTTL (PluginConfig.ConsumerSection c);
  dp_RuntimeProbeOK := true; dp_PrivacyTier := parsePrivacyTier (PluginConfig.PrivacyTier c);
  dp_DefaultModel := "claude-sonnet-4-6"; dp_MaxInputTokens := 200000; dp_MaxOutputTokens := 8192 |}.

Definition buildConsumerFlow (c : PluginConfig.Config) : res string Deps := New (consumer_deps c).

(** [buildSeederFlow]; the acceptor's constructor only refuses a nil factory. *)
Definition seeder_config (c : PluginConfig.Config) (idle : Seeder.IdlePolicy) : Seeder.SeederConfig := {|
  sc_wired := true; sc_IdlePolicy := idle;
  sc_ActivityGrace := PluginConfig.ActivityGrace (PluginConfig.IdlePolicy c);
  sc_HeadroomWindow := PluginConfig.HeadroomWindow (PluginConfig.SeederSection c);
  sc_Models := ["claude-sonnet-4-6"; "claude-opus-4-7"]; sc_MaxContext := 0; sc_Tiers := 0; sc_Metrics := false |}.

Definition buildSeederFlow (c : PluginConfig.Config) : option Seeder.SeederConfig :=
  match ParseIdlePolicy (PluginConfig.IdleMode (PluginConfig.IdlePolicy c)) (PluginConfig.Window (PluginConfig.IdlePolicy c)) with
  | None => None
  | Some idle => validateConfig (seeder_config c idle)
  end.

(** ** Lemmas: defaults *)

Section default_lemmas.
Variables (home : option string) (Join : string → string → string).

(** A home directory is an absolute path, and so is what is joined to it. *)
Hypothesis home_abs : ∀ h p, home = Some h → PluginConfig.IsAbs h = true ∧ PluginConfig.IsAbs (Join h p) = true.

Lemma expandTilde_abs p : PluginConfig.IsAbs p = true → PluginConfig.expandTilde home Join p = p.
Proof.
  unfold PluginConfig.IsAbs, PluginConfig.expandTilde. intros Hp.
  case_bool_decide; [done|]. case_bool_decide; [by subst|].
  destruct p as [|c p]; [done|]. cbn [String.prefix] in *.
  destruct (Ascii.ascii_dec _ c) as [<-|]; done.
Qed.

Lemma expandTilde_cases p :
  PluginConfig.expandTilde home Join p = p ∨ PluginConfig.IsAbs (PluginConfig.expandTilde home Join p) = true.
Proof.
  unfold PluginConfig.expandTilde. case_bool_decide; [by left|]. case_bool_decide.
  - destruct home as [h|] eqn:Eh; cbn [from_option id]; [right; by apply (home_abs h "")|by left].
  - destruct (String.prefix "~/" p); [|by left]. destruct home as [h|] eqn:Eh; [right; by apply (home_abs h _)|by left].
Qed.

Lemma expandTilde_idempotent p :
  PluginConfig.expandTilde home Join (PluginConfig.expandTilde home Join p) = PluginConfig.expandTilde home Join p.
Proof. destruct (expandTilde_cases p) as [E|Ha]; [by rewrite !E|by apply expandTilde_abs]. Qed.

Lemma fill_twice s d : PluginConfig.fill_string (PluginConfig.fill_string s d) d = PluginConfig.fill_string s d.
Proof. unfold PluginConfig.fill_string. by repeat case_bool_decide. Qed.

Lemma fill_Z_twice z d : PluginConfig.fill_Z (PluginConfig.fill_Z z d) d = PluginConfig.fill_Z z d.
Proof. unfold PluginConfig.fill_Z. destruct (Z.eqb_spec z 0); [by destruct (Z.eqb_spec d 0)|by destruct (Z.eqb_spec z 0)]. Qed.

Lemma fill_path s d : d ≠ "" →
  let p := PluginConfig.expandTilde home Join (PluginConfig.fill_string s d) in
  PluginConfig.expandTilde home Join (PluginConfig.fill_string p d) = p.
Proof.
  intros Hd p. assert (p ≠ "") as Hp.
  { subst p. assert (PluginConfig.fill_string s d ≠ "") as Hf by (unfold PluginConfig.fill_string; by case_bool_decide).
    destruct (expandTilde_cases (PluginConfig.fill_string s d)) as [->|Ha]; [done|]. intros E. by rewrite E in Ha. }
  unfold PluginConfig.fill_string at 1. rewrite bool_decide_eq_false_2 by done. apply expandTilde_idempotent.
Qed.

(** Filling the defaults twice is filling them once. *)
Lemma plugin_ApplyDefaults_idempotent c :
  PluginConfig.ApplyDefaults home Join (PluginConfig.ApplyDefaults home Join c) = PluginConfig.ApplyDefaults home Join c.
Proof.
  unfold PluginConfig.ApplyDefaults. cbn -[PluginConfig.DefaultConfig]. rewrite !fill_twice, !fill_Z_twice.
  rewrite !fill_path by done. by destruct (PluginConfig.ExtraFlags _).
Qed.
End default_lemmas.

(** A cap of nothing cannot be written: zero is filled with the default. *)
Lemma no_zero_spend_cap home Join c :
  PluginConfig.MaxSpendPerHour c = 0 → PluginConfig.MaxSpendPerHour (PluginConfig.ApplyDefaults home Join c) = 500.
Proof. intros Hc. cbn. unfold PluginConfig.fill_Z. by rewrite Hc. Qed.

(** ** Lemmas: rules *)

Section rule_lemmas.
Variables (url_Parse : string → res string (string * string)) (quote : string → string).

(** What a configuration without errors is. *)
Record valid_plugin_config (c : PluginConfig.Config) : Prop := {
  vp_role : PluginConfig.Role c ∈ ["consumer"; "seeder"; "both"];
  vp_tracker : PluginConfig.Tracker c = "auto" ∨ PluginConfig.Tracker c ≠ "" ∧
    ∃ scheme host, url_Parse (PluginConfig.Tracker c) = Ok (scheme, host) ∧ scheme ∈ ["https"; "quic"] ∧ host ≠ "";
  vp_key : PluginConfig.IdentityKeyPath c = "" ∨ PluginConfig.IsAbs (PluginConfig.IdentityKeyPath c) = true;
  vp_log : PluginConfig.AuditLogPath c = "" ∨ PluginConfig.IsAbs (PluginConfig.AuditLogPath c) = true;
  vp_claude : PluginConfig.ClaudeBin (PluginConfig.CCBridge c) ≠ "";
  vp_sandbox : PluginConfig.Enabled (PluginConfig.Sandbox (PluginConfig.CCBridge c)) = true →
    PluginConfig.Driver (PluginConfig.Sandbox (PluginConfig.CCBridge c)) ∈ ["bubblewrap"; "firejail"; "docker"];
  vp_ttl : 0 < PluginConfig.NetworkModeTTL (PluginConfig.ConsumerSection c);
  vp_headroom : 0 < PluginConfig.HeadroomWindow (PluginConfig.SeederSection c);
  vp_mode : PluginConfig.IdleMode (PluginConfig.IdlePolicy c) ∈ ["scheduled"; "always_on"];
  vp_window : PluginConfig.IdleMode (PluginConfig.IdlePolicy c) = "scheduled" →
    PluginConfig.idleWindowRe (Z_of_byte <$> string_bytes (PluginConfig.Window (PluginConfig.IdlePolicy c))) = true;
  vp_grace : 0 < PluginConfig.ActivityGrace (PluginConfig.IdlePolicy c);
  vp_tier : PluginConfig.PrivacyTier c ∈ ["standard"; "tee_required"; "tee_preferred"];
  vp_spend : 0 <= PluginConfig.MaxSpendPerHour c
}.

Lemma rule_nil b f m : PluginConfig.add_if b f m = [] ↔ b = false.
Proof. by destruct b. Qed.

Lemma paths_nil c : PluginConfig.checkPaths c = [] ↔
  (PluginConfig.IdentityKeyPath c = "" ∨ PluginConfig.IsAbs (PluginConfig.IdentityKeyPath c) = true) ∧
  (PluginConfig.AuditLogPath c = "" ∨ PluginConfig.IsAbs (PluginConfig.AuditLogPath c) = true).
Proof.
  unfold PluginConfig.checkPaths. rewrite app_nil, !rule_nil, !andb_false_iff, !negb_false_iff, !bool_decide_eq_true. done.
Qed.

Lemma tracker_nil c : PluginConfig.Tracker c ≠ "" → (PluginConfig.checkTracker url_Parse quote c = [] ↔
  PluginConfig.Tracker c = "auto" ∨ PluginConfig.Tracker c ≠ "" ∧
  ∃ scheme host, url_Parse (PluginConfig.Tracker c) = Ok (scheme, host) ∧ scheme ∈ ["https"; "quic"] ∧ host ≠ "").
Proof.
  intros Hne. unfold PluginConfig.checkTracker. rewrite bool_decide_eq_false_2 by done. cbn [orb].
  case_bool_decide as Ha; [by split; [left|]|]. destruct (url_Parse _) as [[scheme host]|e].
  - rewrite app_nil, !rule_nil, !bool_decide_eq_false. split.
    + intros [Hs Hh]. right. split; [done|]. exists scheme, host. split_and!; [done| |done]. by apply dec_stable.
    + intros [?|(_ & s & h & [= <- <-] & Hs & Hh)]; [done|]. by split; [intros ?|].
  - split; [done|]. by intros [?|(_ & ? & ? & ? & _)].
Qed.

Lemma idle_nil c : PluginConfig.checkIdlePolicy c = [] ↔
  PluginConfig.IdleMode (PluginConfig.IdlePolicy c) ∈ ["scheduled"; "always_on"] ∧
  (PluginConfig.IdleMode (PluginConfig.IdlePolicy c) = "scheduled" →
   PluginConfig.idleWindowRe (Z_of_byte <$> string_bytes (PluginConfig.Window (PluginConfig.IdlePolicy c))) = true) ∧
  0 < PluginConfig.ActivityGrace (PluginConfig.IdlePolicy c).
Proof.
  unfold PluginConfig.checkIdlePolicy. set (p := PluginConfig.IdlePolicy c).
  case_bool_decide as H0; [split; [done|]; rewrite H0; by intros (?%elem_of_cons & _); set_solver|].
  rewrite !app_nil, !rule_nil, bool_decide_eq_false, Z.leb_gt. split.
  - intros (Hm & Hw & Hg). split_and!; [by apply dec_stable| |done]. intros Hs. rewrite bool_decide_eq_true_2 in Hw by done.
    case_bool_decide; [done|]. apply rule_nil in Hw. by apply negb_false_iff in Hw.
  - intros (Hm & Hw & Hg). split_and!; [by intros ?| |done]. case_bool_decide as Hs; [|done]. specialize (Hw Hs).
    case_bool_decide as Hn; [by rewrite Hn in Hw|]. by rewrite Hw.
Qed.

(** Validation accepts exactly the valid configurations. *)
Lemma plugin_Validate_exact c : PluginConfig.Validate url_Parse quote c = [] ↔ valid_plugin_config c.
Proof.
  unfold PluginConfig.Validate, PluginConfig.checkRequired, PluginConfig.checkRole, PluginConfig.checkCCBridge,
    PluginConfig.checkConsumer, PluginConfig.checkSeeder, PluginConfig.checkPrivacyTier, PluginConfig.checkSpend.
  rewrite !app_nil, !rule_nil, paths_nil, idle_nil, !Z.leb_gt, Z.ltb_ge, !bool_decide_eq_false. split.
  - intros ((Hr & Ht) & Hrole & Htr & (Hk & Hl) & (Hc & Hs) & Httl & Hh & (Hm & Hw & Hg) & Hp & Hsp).
    rewrite bool_decide_eq_false_2 in Hrole by done. apply rule_nil, bool_decide_eq_false in Hrole.
    apply tracker_nil in Htr; [|done].
    case_bool_decide; [done|]. apply rule_nil, bool_decide_eq_false in Hp.
    split; try done; try by apply dec_stable. intros He. rewrite He in Hs. cbn in Hs.
    apply bool_decide_eq_false in Hs. by apply dec_stable.
  - intros []. assert (PluginConfig.Role c ≠ "") as Hr by (intros E; rewrite E in *; set_solver).
    assert (PluginConfig.Tracker c ≠ "") as Ht by (destruct vp_tracker0 as [->|[? _]]; done).
    assert (PluginConfig.PrivacyTier c ≠ "") as Hp by (intros E; rewrite E in *; set_solver).
    rewrite (bool_decide_eq_false_2 (PluginConfig.Role c = "")), (bool_decide_eq_false_2 (PluginConfig.PrivacyTier c = "")) by done.
    rewrite !rule_nil, !bool_decide_eq_false. split_and!; try done; try (by intros ?); [by apply tracker_nil|].
    destruct (PluginConfig.Enabled _); [|done]. cbn. apply bool_decide_eq_false. intros Hn. by apply Hn, vp_sandbox0.
Qed.
End rule_lemmas.

(** ** Lemmas: building *)

Definition Zs (lo hi : Z) : list Z := (λ n, lo + Z.of_nat n) <$> seq 0 (Z.to_nat (hi - lo)).

Lemma elem_of_Zs z lo hi : lo <= z < hi → z ∈ Zs lo hi.
Proof.
  intros Hz. apply list_elem_of_fmap. exists (Z.to_nat (z - lo)). split; [lia|]. apply elem_of_seq. lia.
Qed.

(** Every time of day that the rule allows is parsed. *)
Definition hhmm_parses (a b c d : Z) : bool :=
  implb (PluginConfig.is_hour a b && PluginConfig.is_minute c d) (bool_decide (is_Some (parseHHMM [a; b; 58; c; d]))).

Lemma hhmm_table :
  forallb (λ a, forallb (λ b, forallb (λ c, forallb (λ d, hhmm_parses a b c d) (Zs 48 58)) (Zs 48 54)) (Zs 48 58)) (Zs 48 51) = true.
Proof. vm_compute. reflexivity. Qed.

Lemma hour_range a b : PluginConfig.is_hour a b = true → 48 <= a < 51 ∧ 48 <= b < 58.
Proof. unfold PluginConfig.is_hour, PluginConfig.is_digit. lia. Qed.

Lemma minute_range c d : PluginConfig.is_minute c d = true → 48 <= c < 54 ∧ 48 <= d < 58.
Proof. unfold PluginConfig.is_minute, PluginConfig.is_digit. lia. Qed.

Lemma hhmm_ok a b c d :
  PluginConfig.is_hour a b = true → PluginConfig.is_minute c d = true → is_Some (parseHHMM [a; b; 58; c; d]).
Proof.
  intros H1 H2. pose proof (hour_range _ _ H1) as [Ha Hb]. pose proof (minute_range _ _ H2) as [Hc Hd].
  pose proof hhmm_table as Ht. rewrite forallb_forall in Ht. specialize (Ht a). rewrite forallb_forall in Ht.
  assert (∀ z lo hi, lo <= z < hi → In z (Zs lo hi)) as Hin by (intros; by apply list_elem_of_In, elem_of_Zs).
  specialize (Ht (Hin _ _ _ Ha) b (Hin _ _ _ Hb)). rewrite forallb_forall in Ht. specialize (Ht c (Hin _ _ _ Hc)).
  rewrite forallb_forall in Ht. specialize (Ht d (Hin _ _ _ Hd)). unfold hhmm_parses in Ht.
  rewrite H1, H2 in Ht. cbn [andb implb] in Ht. by apply bool_decide_eq_true in Ht.
Qed.

Lemma Split_none sep a : sep ∉ a → Split sep a = [a].
Proof.
  induction a as [|c a IH]; [done|]. intros [Hc Ha]%not_elem_of_cons. cbn [Split].
  destruct (Z.eqb_spec c sep); [by subst|]. by rewrite IH.
Qed.

Lemma Split_app sep a b : sep ∉ a → Split sep (a ++ sep :: b) = a :: Split sep b.
Proof.
  induction a as [|c a IH]; cbn [Split app]; [by rewrite Z.eqb_refl|]. intros [Hc Ha]%not_elem_of_cons.
  destruct (Z.eqb_spec c sep); [by subst|]. by rewrite IH.
Qed.

(** A window that validation accepts is one the idle policy can be parsed from. *)
Lemma window_parses s : PluginConfig.idleWindowRe s = true → is_Some (parseWindow s).
Proof.
  unfold PluginConfig.idleWindowRe. do 11 (destruct s as [|? s]; [done|]). destruct s; [|done].
  rewrite !andb_true_iff, !Z.eqb_eq. intros ((((((H1 & ->) & H2) & ->) & H3) & ->) & H4).
  pose proof (hhmm_ok _ _ _ _ H1 H2) as [t1 Ht1]. pose proof (hhmm_ok _ _ _ _ H3 H4) as [t2 Ht2].
  apply hour_range in H1 as [? ?], H3 as [? ?]. apply minute_range in H2 as [? ?], H4 as [? ?].
  unfold parseWindow. change (is_Some (match Split 45 ([z; z0; 58; z2; z3] ++ 45 :: [z5; z6; 58; z8; z9]) with
    | [a; b] => match parseHHMM a with
                | None => None
                | Some start => match parseHHMM b with None => None | Some end_ => Some (start, end_) end
                end
    | _ => None end)).
  rewrite Split_app, Split_none by (rewrite !not_elem_of_cons; split_and!; try lia; apply not_elem_of_nil).
  rewrite Ht1, Ht2. by eexists.
Qed.

Lemma parse_window_ok mode window :
  mode ∈ ["scheduled"; "always_on"] →
  (mode = "scheduled" → PluginConfig.idleWindowRe (Z_of_byte <$> string_bytes window) = true) →
  is_Some (ParseIdlePolicy mode window).
Proof.
  intros Hm Hw. unfold ParseIdlePolicy. case_bool_decide; [done|].
  assert (mode = "scheduled") as -> by set_solver. rewrite bool_decide_eq_true_2 by done.
  destruct (window_parses _ (Hw eq_refl)) as [[st en] ->]. by eexists.
Qed.

Section building.
Variables (url_Parse : string → res string (string * string)) (quote : string → string).

(** A configuration that is loaded is one both coordinators start with, and with the settings that it
    says: neither constructor replaces a duration by a default of its own, the idle window can be
    parsed, and it lies within a day. *)
Lemma loaded_config_builds home Join opens parsed c :
  PluginConfig.Load url_Parse quote home Join opens parsed = Ok c →
  ∃ sc d, buildSeederFlow c = Some sc ∧ buildConsumerFlow c = Ok d ∧
    ParseIdlePolicy (PluginConfig.IdleMode (PluginConfig.IdlePolicy c))
      (PluginConfig.Window (PluginConfig.IdlePolicy c)) = Some (sc_IdlePolicy sc) ∧
    sc_ActivityGrace sc = PluginConfig.ActivityGrace (PluginConfig.IdlePolicy c) ∧
    sc_HeadroomWindow sc = PluginConfig.HeadroomWindow (PluginConfig.SeederSection c) ∧
    dp_NetworkModeTTL d = PluginConfig.NetworkModeTTL (PluginConfig.ConsumerSection c) ∧
    tod_ok (ip_WindowStart (sc_IdlePolicy sc)) ∧ tod_ok (ip_WindowEnd (sc_IdlePolicy sc)).
Proof.
  unfold PluginConfig.Load. destruct opens; [|done]. cbn [negb]. destruct parsed as [p|]; [|done].
  set (c0 := PluginConfig.ApplyDefaults home Join p). destruct (PluginConfig.Validate _ _ c0) eqn:Hv; [|done].
  intros [= <-]. apply plugin_Validate_exact in Hv as [].
  destruct (parse_window_ok _ _ vp_mode0 vp_window0) as [idle Hi].
  unfold buildSeederFlow. rewrite Hi. eexists _, _. split; [done|]. split; [done|].
  cbn [sc_IdlePolicy sc_ActivityGrace sc_HeadroomWindow seeder_config dp_NetworkModeTTL consumer_deps]. split; [done|].
  destruct (Z.eqb_spec (PluginConfig.ActivityGrace (PluginConfig.IdlePolicy c0)) 0); [lia|].
  destruct (Z.eqb_spec (PluginConfig.HeadroomWindow (PluginConfig.SeederSection c0)) 0); [lia|].
  destruct (Z.eqb_spec (PluginConfig.NetworkModeTTL (PluginConfig.ConsumerSection c0)) 0); [lia|].
  split_and!; [done..| |]; by apply ParseIdlePolicy_ok in Hi as [].
Qed.

(** Whatever tier a valid configuration asks for, the consumer asks the broker for the standard one. *)
Lemma tee_is_never_asked_for c :
  PluginConfig.Validate url_Parse quote c = [] → dp_PrivacyTier (consumer_deps c) = PRIVACY_TIER_STANDARD.
Proof.
  intros Hv%plugin_Validate_exact. pose proof (vp_tier _ _ Hv) as Ht. cbn [consumer_deps dp_PrivacyTier].
  apply elem_of_cons in Ht as [->|Ht]; [done|]. apply elem_of_cons in Ht as [->|Ht]; [done|].
  by apply list_elem_of_singleton in Ht as ->.
Qed.
End building.

(** The tracker never picks a seeder of the sidecar: what it advertises has no tier. *)
Lemma sidecar_seeder_never_picked c sc env isFrozen bcfg tried rec :
  buildSeederFlow c = Some sc → cap_Tiers (sr_Capabilities rec) = tiersFromBitmask (sc_Tiers sc) →
  eligible env isFrozen bcfg tried rec = false.
Proof.
  intros Hb Ht. unfold buildSeederFlow in Hb. destruct (ParseIdlePolicy _ _); [|done]. injection Hb as <-.
  cbn in Ht. unfold eligible. rewrite Ht. destruct (sr_Available rec); [|done]. cbn [negb].
  case_bool_decide; [done|]. destruct (negb (containsString _ _)); [done|]. done.
Qed.

(** A configuration with its defaults. *)
Definition g_url (s : string) : res string (string * string) := Ok ("https", s).
Definition g_quote (s : string) : string := s.
Definition g_join (a b : string) : string := (a ++ "/" ++ b)%string.
Definition g_config : PluginConfig.Config := {|
  PluginConfig.Role := "both"; PluginConfig.Tracker := "auto"; PluginConfig.IdentityKeyPath := "";
  PluginConfig.AuditLogPath := "";
  PluginConfig.CCBridge := {| PluginConfig.ClaudeBin := ""; PluginConfig.ExtraFlags := None;
                              PluginConfig.Sandbox := {| PluginConfig.Enabled := false; PluginConfig.Driver := "" |} |};
  PluginConfig.ConsumerSection := {| PluginConfig.NetworkModeTTL := 0 |};
  PluginConfig.SeederSection := {| PluginConfig.HeadroomWindow := 0 |};
  PluginConfig.IdlePolicy := {| PluginConfig.IdleMode := ""; PluginConfig.Window := ""; PluginConfig.ActivityGrace := 0 |};
  PluginConfig.PrivacyTier := "tee_required"; PluginConfig.MaxSpendPerHour := 0 |}.

Lemma loaded_config_builds_witness :
  ∃ c sc, PluginConfig.Load g_url g_quote (Some "/home/u") g_join true (Some g_config) = Ok c ∧
    buildSeederFlow c = Some sc ∧
    sc_IdlePolicy sc = {| ip_Mode := IdleScheduled; ip_WindowStart := {| Hour := 2; Minute := 0 |};
                          ip_WindowEnd := {| Hour := 6; Minute := 0 |} |}.
Proof.
  destruct (PluginConfig.Load g_url g_quote (Some "/home/u") g_join true (Some g_config)) as [c|e] eqn:E;
    [|vm_compute in E; discriminate E].
  destruct (loaded_config_builds g_url g_quote _ _ _ _ _ E) as (sc & d & H1 & _ & H3 & _).
  exists c, sc. split; [reflexivity|]. split; [exact H1|].
  vm_compute in E. injection E as <-. vm_compute in H3. injection H3 as H3. symmetry. exact H3.
Defined.
