(* ===== verification/Enrol.v ===== *)
(** plugin/internal/identity and the commands of plugin/cmd/token-bay-sidecar that use it: enrolling with a
    tracker, and transferring credits.

    The plugin's home directory is its four files. A file that exists can be read; a file is
    written to a temporary name and renamed, and both can fail. JSON, the text of a time and the
    derivation of a key from its seed are arguments. What the tracker answers is an argument too;
    what it does for an answer is with the api. *)
From S2P Require Import Consumer.
From S2P Require Import Prelude Proto Signing AdmQueue Wiring Builders TrackerClient Sse Proxy AuditLog PluginConfig.

#[local] Open Scope Z_scope.
#[local] Open Scope go_scope.

(** ** The account *)

Inductive IdErr :=
| ErrKeyNotFound | ErrKeyExists | ErrInvalidKey | ErrRecordNotFound | ErrInvalidRecord (what : string) | ErrIneligibleAuth
| ErrFingerprintMismatch | ErrNonce | ErrWriteTmp | ErrRename | ErrStatKey | ErrMeta (what : string).

Record AuthSnapshot := { sn_LoggedIn : bool; sn_AuthMethod : string; sn_APIProvider : string; sn_OrgID : string }.

Section account.
Context `{Crypto}.

Definition AccountFingerprint (s : AuthSnapshot) : res IdErr bytes :=
  if negb (sn_LoggedIn s) then Err ErrIneligibleAuth else
  if negb (bool_decide (sn_AuthMethod s = "claude.ai")) then Err ErrIneligibleAuth else
  if negb (bool_decide (sn_APIProvider s = "firstParty")) then Err ErrIneligibleAuth else
  if bool_decide (sn_OrgID s = "") then Err ErrIneligibleAuth else
  Ok (sha256 (string_bytes (sn_OrgID s))).

(** ** The payload *)

Definition EnrollPreimagePrefix : bytes := string_bytes "token-bay-enroll:v1".

Definition EnrollPreimage (nonce fingerprint pub : bytes) : res IdErr bytes :=
  if negb (blen pub =? PublicKeySize) then Err ErrInvalidKey
  else Ok (EnrollPreimagePrefix ++ nonce ++ fingerprint ++ pub).

Definition BuildEnrollPayload (rand : option bytes) (priv fingerprint : bytes) (role : Z) : res IdErr EnrollIntent :=
  match rand with
  | None => Err ErrNonce
  | Some r =>
    let nonce := fill 16 r in
    match EnrollPreimage nonce fingerprint (ed25519_Public priv) with
    | Err e => Err e
    | Ok pre => Ok {| ei_IdentityPubkey := ed25519_Public priv; ei_Role := role; ei_AccountFingerprint := fingerprint;
                      ei_Nonce := nonce; ei_Sig := Envelope.Signer_Sign priv pre |}
    end
  end.
End account.

(** ** Files *)

Abbreviation File := (option bytes).

Record WriteIo := { wi_stat : bool; wi_write : bool; wi_rename : bool }.

(** A temporary file, renamed. *)
Definition write_renamed (io : WriteIo) (content : bytes) : GoM File IdErr unit :=
  do! gguard (negb (wi_write io)) ErrWriteTmp in
  do! gguard (negb (wi_rename io)) ErrRename in
  λ _, (Ok tt, Some content).

Record IdRecord := {
  ir_Version : Z; ir_IdentityID : bytes; ir_AccountFingerprint : bytes; ir_Role : Z; ir_EnrolledAt : Z
}.

Record recordWire := {
  rw_Version : Z; rw_IdentityID : string; rw_AccountFingerprint : string; rw_Role : Z; rw_EnrolledAt : string
}.

Record enrollmentMeta := {
  em_Version : Z; em_TrackerID : bytes; em_Region : string; em_StarterGrantCredits : Z; em_EnrolledAt : Z
}.

Record enrollmentMetaWire := {
  mw_Version : Z; mw_TrackerID : string; mw_Region : string; mw_StarterGrantCredits : Z; mw_EnrolledAt : string
}.

(** [json.Marshal] and [json.Unmarshal] of the two. *)
Class IdJson := {
  json_record : recordWire → bytes; parse_record : bytes → option recordWire;
  json_meta : enrollmentMetaWire → bytes; parse_meta : bytes → option enrollmentMetaWire
}.

Definition recordCurrentVersion : Z := 1.
Definition enrollmentSchemaVersion : Z := 1.

Section files.
Context `{Crypto} `{AuditJson} `{IdJson}.
(** [ed25519.NewKeyFromSeed] *)
Variable NewKeyFromSeed : bytes → bytes.

Definition LoadKey (f : File) : res IdErr bytes :=
  match f with
  | None => Err ErrKeyNotFound
  | Some seed => if negb (blen seed =? 32) then Err ErrInvalidKey else Ok (NewKeyFromSeed seed)
  end.

(** The seed is the first half of the key. *)
Definition SaveKey (io : WriteIo) (priv : bytes) : GoM File IdErr unit := λ f,
  if negb (wi_stat io) then (Err ErrStatKey, f) else
  match f with
  | Some _ => (Err ErrKeyExists, f)
  | None => write_renamed io (take 32 priv) f
  end.

Definition LoadRecord (f : File) : res IdErr IdRecord :=
  match f with
  | None => Err ErrRecordNotFound
  | Some raw =>
    match parse_record raw with
    | None => Err (ErrInvalidRecord "json")
    | Some w =>
      if negb (rw_Version w =? recordCurrentVersion) then Err (ErrInvalidRecord "version") else
      match decodeHash32 (rw_IdentityID w) with
      | None => Err (ErrInvalidRecord "identity_id")
      | Some id =>
        match decodeHash32 (rw_AccountFingerprint w) with
        | None => Err (ErrInvalidRecord "account_fingerprint")
        | Some fp =>
          match parse_time (rw_EnrolledAt w) with
          | None => Err (ErrInvalidRecord "enrolled_at")
          | Some at_ => Ok {| ir_Version := rw_Version w; ir_IdentityID := id; ir_AccountFingerprint := fp;
                              ir_Role := rw_Role w; ir_EnrolledAt := at_ |}
          end
        end
      end
    end
  end.

Definition SaveRecord (io : WriteIo) (r : IdRecord) : GoM File IdErr unit :=
  write_renamed io (json_record {|
    rw_Version := if ir_Version r =? 0 then recordCurrentVersion else ir_Version r;
    rw_IdentityID := hex_EncodeToString (ir_IdentityID r);
    rw_AccountFingerprint := hex_EncodeToString (ir_AccountFingerprint r); rw_Role := ir_Role r;
    rw_EnrolledAt := timeStr (ir_EnrolledAt r) |}).

Definition saveEnrollmentMeta (io : WriteIo) (m : enrollmentMeta) : GoM File IdErr unit :=
  write_renamed io (json_meta {|
    mw_Version := em_Version m; mw_TrackerID := hex_EncodeToString (em_TrackerID m); mw_Region := em_Region m;
    mw_StarterGrantCredits := em_StarterGrantCredits m; mw_EnrolledAt := timeStr (em_EnrolledAt m) |}).

Definition loadEnrollmentMeta (f : File) : res IdErr enrollmentMeta :=
  match f with
  | None => Err (ErrMeta "read")
  | Some raw =>
    match parse_meta raw with
    | None => Err (ErrMeta "json")
    | Some w =>
      if negb (mw_Version w =? enrollmentSchemaVersion) then Err (ErrMeta "version") else
      match decodeHash32 (mw_TrackerID w) with
      | None => Err (ErrMeta "tracker_id")
      | Some id =>
        match parse_time (mw_EnrolledAt w) with
        | None => Err (ErrMeta "enrolled_at")
        | Some at_ => Ok {| em_Version := mw_Version w; em_TrackerID := id; em_Region := mw_Region w;
                            em_StarterGrantCredits := mw_StarterGrantCredits w; em_EnrolledAt := at_ |}
        end
      end
    end
  end.

(** The plugin's home. *)
Record Home := { hd_key : File; hd_record : File; hd_meta : File; hd_log : Logger }.

(** [identity.Open]: the key and the record, which are not compared. *)
Definition OpenIdentity (h : Home) : res IdErr (bytes * IdRecord) :=
  match LoadKey (hd_key h) with
  | Err e => Err e
  | Ok priv => match LoadRecord (hd_record h) with Err e => Err e | Ok r => Ok (priv, r) end
  end.

Definition VerifyBinding (r : IdRecord) (s : AuthSnapshot) : option IdErr :=
  match AccountFingerprint s with
  | Err e => Some e
  | Ok fp => if bool_decide (fp = ir_AccountFingerprint r) then None else Some ErrFingerprintMismatch
  end.

(** ** Enrolling *)

Record enrollOptions := {
  eo_ConfigDir : string; eo_AuditLogPath : string; eo_TrackerHash : bytes; eo_Region : string; eo_Role : Z;
  eo_ReEnroll : bool
}.

Inductive EnrollErr :=
| ErrOption (what : string) | ErrProbe | ErrRefused (reason : string) | ErrFingerprint (e : IdErr) | ErrIdentityExists
| ErrStat | ErrGenerate | ErrPayload (e : IdErr) | ErrConnect | ErrRPC (e : ClientErr) | ErrRemoveKey | ErrSave (e : IdErr)
| ErrLog (e : AuditErr) | ErrGrantOverflow | ErrOpenIdentity (e : IdErr) | ErrSameRegion | ErrBalance (e : ClientErr)
| ErrInsufficient (have need : Z) | ErrRejected (e : ClientErr).

(** What a run meets: the account as claude reports it, the new key and nonce, the connection, the
    tracker's answer, the clock, and which of the calls on files fail. *)
Record EnrollIo := {
  nr_probe : option (AuthState * string); nr_stat : bool; nr_generate : option bytes; nr_nonce : option bytes;
  nr_connect : bool; nr_answer : EnrollIntent → res ClientErr EnrollResult; nr_now : Z; nr_remove : bool;
  nr_key : WriteIo; nr_record : WriteIo; nr_meta : WriteIo; nr_log_open : bool; nr_log : AppendIo
}.

Definition snapshot (state : AuthState) (orgID : string) : AuthSnapshot := {|
  sn_LoggedIn := au_LoggedIn state; sn_AuthMethod := au_AuthMethod state; sn_APIProvider := au_APIProvider state;
  sn_OrgID := orgID |}.

Definition validateEnrollOptions (o : enrollOptions) : option EnrollErr :=
  return_if bool_decide (eo_ConfigDir o = ""), ErrOption "ConfigDir" ;;
  return_if bool_decide (eo_AuditLogPath o = ""), ErrOption "AuditLogPath" ;;
  None.

Definition preflightKeyPath (stat reEnroll : bool) (key : File) : option EnrollErr :=
  return_if negb stat, ErrStat ;;
  match key with
  | Some _ => return_if negb reEnroll, ErrIdentityExists ;; None
  | None => None
  end.

(** The part of [runEnroll] before the connection: the new key, the account and what is sent. *)
Definition prepare_enroll (o : enrollOptions) (io : EnrollIo) (h : Home) : res EnrollErr (bytes * bytes * EnrollIntent) :=
  match validateEnrollOptions o with
  | Some e => Err e
  | None =>
    match nr_probe io with
    | None => Err ErrProbe
    | Some (state, orgID) =>
      let '(ok, reason) := IsCompatible state in
      if negb ok then Err (ErrRefused reason) else
      match AccountFingerprint (snapshot state orgID) with
      | Err e => Err (ErrFingerprint e)
      | Ok fp =>
        match preflightKeyPath (nr_stat io) (eo_ReEnroll o) (hd_key h) with
        | Some e => Err e
        | None =>
          match nr_generate io with
          | None => Err ErrGenerate
          | Some priv =>
            match BuildEnrollPayload (nr_nonce io) priv fp (eo_Role o) with
            | Err e => Err (ErrPayload e)
            | Ok payload => Ok (priv, fp, payload)
            end
          end
        end
      end
    end
  end.

Definition on_key (f : GoM File IdErr unit) : GoM Home EnrollErr unit := λ h,
  let '(r, k) := f (hd_key h) in
  (match r with Ok a => Ok a | Err e => Err (ErrSave e) end,
   {| hd_key := k; hd_record := hd_record h; hd_meta := hd_meta h; hd_log := hd_log h |}).
Definition on_record (f : GoM File IdErr unit) : GoM Home EnrollErr unit := λ h,
  let '(r, k) := f (hd_record h) in
  (match r with Ok a => Ok a | Err e => Err (ErrSave e) end,
   {| hd_key := hd_key h; hd_record := k; hd_meta := hd_meta h; hd_log := hd_log h |}).
Definition on_meta (f : GoM File IdErr unit) : GoM Home EnrollErr unit := λ h,
  let '(r, k) := f (hd_meta h) in
  (match r with Ok a => Ok a | Err e => Err (ErrSave e) end,
   {| hd_key := hd_key h; hd_record := hd_record h; hd_meta := k; hd_log := hd_log h |}).
Definition set_log (l : Logger) (h : Home) : Home :=
  {| hd_key := hd_key h; hd_record := hd_record h; hd_meta := hd_meta h; hd_log := l |}.

(** One record, in a logger that is opened for it. *)
Definition log_one (opens : bool) (io : AppendIo) (rec : AuditRecord) : GoM Home EnrollErr unit := λ h,
  match Open opens (hd_log h) with
  | (Err e, l) => (Err (ErrLog e), set_log l h)
  | (Ok _, l) =>
    let '(r, l) := append io rec l in
    (match r with Ok a => Ok a | Err e => Err (ErrLog e) end, set_log (CloseLog l) h)
  end.

(** A grant is logged as a negative cost. *)
Definition appendStarterGrant (opens : bool) (io : AppendIo) (id : bytes) (credits ts : Z) : GoM Home EnrollErr unit := λ h,
  if Z.shiftl 1 62 <? credits
  then match Open opens (hd_log h) with
       | (Err e, l) => (Err (ErrLog e), set_log l h)
       | (Ok _, l) => (Err ErrGrantOverflow, set_log (CloseLog l) h)
       end
  else log_one opens io (RConsumer {| cr_RequestID := "starter-grant:" ++ hex_EncodeToString id;
         cr_ServedLocally := true; cr_SeederID := ""; cr_CostCredits := - i64 credits; cr_Timestamp := ts |}) h.

Definition enrolled_record (o : enrollOptions) (io : EnrollIo) (fp : bytes) (resp : EnrollResult) : IdRecord := {|
  ir_Version := 1; ir_IdentityID := ex_IdentityID resp; ir_AccountFingerprint := fp; ir_Role := eo_Role o;
  ir_EnrolledAt := nr_now io |}.

Definition enrolled_meta (o : enrollOptions) (io : EnrollIo) (resp : EnrollResult) : enrollmentMeta := {|
  em_Version := enrollmentSchemaVersion; em_TrackerID := eo_TrackerHash o; em_Region := eo_Region o;
  em_StarterGrantCredits := ex_StarterGrantCredits resp; em_EnrolledAt := nr_now io |}.

(** What follows the tracker's answer. *)
Definition persist_enroll (o : enrollOptions) (io : EnrollIo) (priv fp : bytes) (resp : EnrollResult) : GoM Home EnrollErr unit :=
  do! (if eo_ReEnroll o then
         do! gguard (negb (nr_remove io)) ErrRemoveKey in on_key (λ _, (Ok tt, None))
       else gret tt) in
  do! on_key (SaveKey (nr_key io) priv) in
  do! on_record (SaveRecord (nr_record io) (enrolled_record o io fp resp)) in
  do! on_meta (saveEnrollmentMeta (nr_meta io) (enrolled_meta o io resp)) in
  appendStarterGrant (nr_log_open io) (nr_log io) (ex_IdentityID resp) (ex_StarterGrantCredits resp) (nr_now io).

(** The home, and what the tracker has answered. *)
Record EnrollWorld := { ew_home : Home; ew_enrolled : list (EnrollIntent * EnrollResult) }.

Definition runEnroll (o : enrollOptions) (io : EnrollIo) : GoM EnrollWorld EnrollErr unit := λ w,
  match prepare_enroll o io (ew_home w) with
  | Err e => (Err e, w)
  | Ok (priv, fp, payload) =>
    if negb (nr_connect io) then (Err ErrConnect, w) else
    match nr_answer io payload with
    | Err e => (Err (ErrRPC e), w)
    | Ok resp =>
      let '(r, h) := persist_enroll o io priv fp resp (ew_home w) in
      (r, {| ew_home := h; ew_enrolled := ew_enrolled w ++ [(payload, resp)] |})
    end
  end.

(** ** Transferring *)

Record transferOptions := {
  xo_ConfigDir : string; xo_AuditLogPath : string; xo_DestRegion : string; xo_Amount : Z; xo_DryRun : bool
}.

(** [xi_balance] is the credits of the snapshot, [None] without a body. *)
Record TransferIo := {
  xt_nonce : option bytes; xt_now : Z; xt_connect : bool; xt_balance : res ClientErr (option Z);
  xt_answer : TransferIntent → res ClientErr Api.TransferProof; xt_errText : ClientErr → string;
  xt_log_open : bool; xt_log : AppendIo
}.

Definition transferSafetyOverhead : Z := 100.

Definition validateTransferOptions (o : transferOptions) : option EnrollErr :=
  return_if bool_decide (xo_ConfigDir o = ""), ErrOption "ConfigDir" ;;
  return_if bool_decide (xo_AuditLogPath o = ""), ErrOption "AuditLogPath" ;;
  return_if bool_decide (xo_DestRegion o = ""), ErrOption "--to" ;;
  return_if xo_Amount o =? 0, ErrOption "--amount" ;;
  None.

Definition transfer_intent (o : transferOptions) (rec : IdRecord) (em : enrollmentMeta) (nonce : bytes) (now : Z)
    : TransferIntent := {|
  ti_IdentityID := ir_IdentityID rec; ti_Amount := xo_Amount o; ti_DestRegion := xo_DestRegion o; ti_Nonce := nonce;
  ti_SourceTrackerID := em_TrackerID em; ti_DestTrackerID := em_TrackerID em; ti_Timestamp := u64 (Unix now) |}.

Definition transfer_record (o : transferOptions) (em : enrollmentMeta) (nonce : bytes) (now : Z)
    (outcome reason : string) (tip : option bytes) (seq : Z) : AuditRecord :=
  RTransfer {| lt_RequestID := "transfer:" ++ hex_EncodeToString (take 16 nonce); lt_SourceRegion := em_Region em;
    lt_DestRegion := xo_DestRegion o; lt_Amount := xo_Amount o; lt_Outcome := outcome; lt_OutcomeReason := reason;
    lt_SourceChainTipHash := tip; lt_SourceSeq := seq; lt_Timestamp := now |}.

(** The credits of a snapshot, as the check reads them. *)
Definition spendable (credits : option Z) : Z := Z.max 0 (default 0 credits).

(** The intent that was sent, if one was. *)
Definition runTransfer (o : transferOptions) (io : TransferIo) : GoM Home EnrollErr (option TransferIntent) := λ h,
  match validateTransferOptions o with
  | Some e => (Err e, h)
  | None =>
    match OpenIdentity h with
    | Err e => (Err (ErrOpenIdentity e), h)
    | Ok (priv, rec) =>
      match loadEnrollmentMeta (hd_meta h) with
      | Err e => (Err (ErrOpenIdentity e), h)
      | Ok em =>
        if bool_decide (em_Region em = xo_DestRegion o) then (Err ErrSameRegion, h) else
        match xt_nonce io with
        | None => (Err (ErrPayload ErrNonce), h)
        | Some r =>
          let nonce := fill 32 r in
          let tr := transfer_intent o rec em nonce (xt_now io) in
          if xo_DryRun o then (Ok None, h) else
          if negb (xt_connect io) then (Err ErrConnect, h) else
          match xt_balance io with
          | Err e => (Err (ErrBalance e), h)
          | Ok credits =>
            let required := u64 (xo_Amount o + transferSafetyOverhead) in
            if spendable credits <? required then (Err (ErrInsufficient (spendable credits) required), h) else
            match xt_answer io tr with
            | Err e =>
              let '(_, h) := log_one (xt_log_open io) (xt_log io)
                (transfer_record o em nonce (xt_now io) "rejected" (xt_errText io e) None 0) h in
              (Err (ErrRejected e), h)
            | Ok proof =>
              let '(r, h) := log_one (xt_log_open io) (xt_log io)
                (transfer_record o em nonce (xt_now io) "success" "" (Some (Api.tp_SourceChainTipHash proof))
                   (Api.tp_SourceSeq proof)) h in
              (match r with Ok _ => Ok (Some tr) | Err e => Err e end, h)
            end
          end
        end
      end
    end
  end.
End files.

(** ** What the codecs promise *)

Class IdJsonLaws `{IdJson} := {
  record_law w : ValidString (rw_IdentityID w) = true → ValidString (rw_AccountFingerprint w) = true →
    ValidString (rw_EnrolledAt w) = true → is_i64 (rw_Version w) → 0 <= rw_Role w < 2 ^ 32 →
    parse_record (json_record w) = Some w;
  meta_law w : ValidString (mw_TrackerID w) = true → ValidString (mw_Region w) = true →
    ValidString (mw_EnrolledAt w) = true → is_i64 (mw_Version w) → is_u64 (mw_StarterGrantCredits w) →
    parse_meta (json_meta w) = Some w
}.

Section laws.
Context `{CryptoLaws} `{AuditJsonLaws} `{IdJsonLaws}.
Variable NewKeyFromSeed : bytes → bytes.

(** A key that the library generated: the seed is its first half, and gives it back. *)
Definition key_ok (priv : bytes) : Prop := length priv = 64%nat ∧ NewKeyFromSeed (take 32 priv) = priv.

Lemma write_renamed_Ok io content f x f' : write_renamed io content f = (Ok x, f') → f' = Some content.
Proof. unfold write_renamed, gbind, gguard, gfail, gret. destruct (wi_write io), (wi_rename io); cbn; congruence. Qed.

Lemma key_roundtrip io priv f x f' :
  key_ok priv → SaveKey io priv f = (Ok x, f') → f = None ∧ LoadKey NewKeyFromSeed f' = Ok priv.
Proof.
  intros [Hl Hk] Hs. unfold SaveKey in Hs. destruct (wi_stat io); [|done]. cbn [negb] in Hs. destruct f; [done|].
  apply write_renamed_Ok in Hs as ->. split; [done|]. unfold LoadKey, blen. rewrite length_take, Hl. cbn. by rewrite Hk.
Qed.

Lemma record_roundtrip io r f x f' :
  length (ir_IdentityID r) = 32%nat → length (ir_AccountFingerprint r) = 32%nat → year_ok (ir_EnrolledAt r) →
  0 <= ir_Role r < 2 ^ 32 → ir_Version r = 1 → SaveRecord io r f = (Ok x, f') → LoadRecord f' = Ok r.
Proof.
  intros Hi Hf Ht Hr Hv Hs. apply write_renamed_Ok in Hs as ->. unfold LoadRecord. rewrite record_law; cbn;
    try apply ValidString_hex; try apply time_text; [|by rewrite Hv|done].
  rewrite Hv. cbn. rewrite !decodeHash32_hex by done. rewrite time_law by done. destruct r; cbn in *. by subst.
Qed.

Lemma meta_roundtrip io m f x f' :
  length (em_TrackerID m) = 32%nat → ValidString (em_Region m) = true → year_ok (em_EnrolledAt m) →
  is_u64 (em_StarterGrantCredits m) → em_Version m = 1 → saveEnrollmentMeta io m f = (Ok x, f') →
  loadEnrollmentMeta f' = Ok m.
Proof.
  intros Hi Hg Ht Hc Hv Hs. apply write_renamed_Ok in Hs as ->. unfold loadEnrollmentMeta. rewrite meta_law; cbn;
    try apply ValidString_hex; try apply time_text; [|done|by rewrite Hv|done].
  rewrite Hv. cbn. rewrite decodeHash32_hex by done. rewrite time_law by done. destruct m; cbn in *. by subst.
Qed.

Lemma length_fingerprint s fp : AccountFingerprint s = Ok fp → length fp = 32%nat.
Proof.
  unfold AccountFingerprint. do 3 (destruct (negb _); [done|]). case_bool_decide; [done|]. intros [= <-].
  apply sha256_length.
Qed.

(** What [runEnroll] is given: the tracker's hash and region, and the role the flag gives. *)
Record enroll_inputs_ok (o : enrollOptions) (io : EnrollIo) : Prop := {
  ok_key : ∀ priv, nr_generate io = Some priv → key_ok priv;
  ok_answer : ∀ p resp, nr_answer io p = Ok resp →
    length (ex_IdentityID resp) = 32%nat ∧ is_u64 (ex_StarterGrantCredits resp);
  ok_now : year_ok (nr_now io);
  ok_role : 0 <= eo_Role o < 2 ^ 32;
  ok_hash : length (eo_TrackerHash o) = 32%nat;
  ok_region : ValidString (eo_Region o) = true
}.

(** The payload is signed with the key that it names, over the account it is for. *)
Lemma payload_signed o io h priv fp payload :
  (∀ priv, nr_generate io = Some priv → key_ok priv) → prepare_enroll o io h = Ok (priv, fp, payload) →
  nr_generate io = Some priv ∧ ei_IdentityPubkey payload = ed25519_Public priv ∧
  (∃ state orgID, nr_probe io = Some (state, orgID) ∧ AccountFingerprint (snapshot state orgID) = Ok fp) ∧
  preflightKeyPath (nr_stat io) (eo_ReEnroll o) (hd_key h) = None ∧
  ∃ pre, EnrollPreimage (ei_Nonce payload) fp (ei_IdentityPubkey payload) = Ok pre ∧
    Verify (ei_IdentityPubkey payload) pre (ei_Sig payload) = true.
Proof.
  intros Hgen. unfold prepare_enroll. destruct (validateEnrollOptions o); [done|].
  destruct (nr_probe io) as [[state orgID]|]; [|done]. destruct (IsCompatible state) as [ok reason].
  destruct (negb ok); [done|]. destruct (AccountFingerprint _) as [f|] eqn:Hf; [|done].
  destruct (preflightKeyPath _ _ _) eqn:Hp; [done|]. destruct (nr_generate io) as [pr|] eqn:Hg; [|done].
  unfold BuildEnrollPayload. destruct (nr_nonce io) as [rnd|]; [|done].
  destruct (EnrollPreimage _ _ _) as [pre|] eqn:Hpre; [|done]. intros [= -> -> <-]. cbn.
  destruct (Hgen priv eq_refl) as [Hl _].
  split_and!; [done|done|by eexists _, _|done|]. exists pre. split; [done|].
  unfold Verify, Envelope.Signer_Sign, blen. rewrite Public_length, Sign_length by done. cbn. by apply Verify_Sign.
Qed.

Lemma log_one_files opens io rec h r h' :
  log_one opens io rec h = (r, h') → hd_key h' = hd_key h ∧ hd_record h' = hd_record h ∧ hd_meta h' = hd_meta h.
Proof.
  unfold log_one. destruct (Open _ _) as [[] l]; [destruct (append _ _ _)|]; by intros [= _ <-].
Qed.

Lemma grant_files opens io id credits ts h r h' :
  appendStarterGrant opens io id credits ts h = (r, h') →
  hd_key h' = hd_key h ∧ hd_record h' = hd_record h ∧ hd_meta h' = hd_meta h.
Proof.
  unfold appendStarterGrant. destruct (_ <? credits); [|apply log_one_files].
  destruct (Open _ _) as [[] l]; by intros [= _ <-].
Qed.

(** A run that persisted everything can be opened. *)
Lemma persisted o io priv fp resp h x h' :
  key_ok priv → length fp = 32%nat → length (ex_IdentityID resp) = 32%nat → is_u64 (ex_StarterGrantCredits resp) →
  year_ok (nr_now io) → 0 <= eo_Role o < 2 ^ 32 → length (eo_TrackerHash o) = 32%nat →
  ValidString (eo_Region o) = true → persist_enroll o io priv fp resp h = (Ok x, h') →
  OpenIdentity NewKeyFromSeed h' = Ok (priv, enrolled_record o io fp resp) ∧
  loadEnrollmentMeta (hd_meta h') = Ok (enrolled_meta o io resp) ∧
  (eo_ReEnroll o = false → hd_key h = None).
Proof.
  intros Hk Hfp Hid Hc Ht Hr Hth Hrg Hp. unfold persist_enroll in Hp.
  apply gbind_Ok in Hp as (u & h1 & Hrem & Hp). apply gbind_Ok in Hp as (u2 & h2 & Hkey & Hp).
  apply gbind_Ok in Hp as (u3 & h3 & Hrec & Hp). apply gbind_Ok in Hp as (u4 & h4 & Hmeta & Hp).
  apply grant_files in Hp as (Ek & Er & Em).
  unfold on_key in Hkey. destruct (SaveKey _ _ _) as [[y|] k] eqn:Hsk; [|done]. injection Hkey as <- <-.
  unfold on_record in Hrec. destruct (SaveRecord _ _ _) as [[z|] rc] eqn:Hsr; [|done]. injection Hrec as <- <-.
  unfold on_meta in Hmeta. destruct (saveEnrollmentMeta _ _ _) as [[v|] mt] eqn:Hsm; [|done]. injection Hmeta as <- <-.
  cbn in Ek, Er, Em. apply (key_roundtrip _ _ _ _ _ Hk) in Hsk as [Hnone Hlk].
  apply record_roundtrip in Hsr; [|done..]. apply meta_roundtrip in Hsm; [|done..].
  split_and!.
  - unfold OpenIdentity. by rewrite Ek, Er, Hlk, Hsr.
  - by rewrite Em.
  - intros Hre. rewrite Hre in Hrem. injection Hrem as _ <-. done.
Qed.

(** C21: enrolling. A run that succeeds has sent one payload, signed with the key it names; the key is
    on disk and is that one, the record next to it has the identity that the tracker answered and
    is bound to the account that was probed, and the metadata names the tracker. A run that fails
    has changed nothing unless the tracker had answered; and without --re-enroll a key that is
    there stays, and is never enrolled over. *)
Theorem enrolment_binds o io w r w' :
  enroll_inputs_ok o io → runEnroll o io w = (r, w') →
  match r with
  | Ok _ => ∃ priv fp payload resp,
      nr_answer io payload = Ok resp ∧ ew_enrolled w' = ew_enrolled w ++ [(payload, resp)] ∧
      ei_IdentityPubkey payload = ed25519_Public priv ∧
      (∃ pre, EnrollPreimage (ei_Nonce payload) fp (ei_IdentityPubkey payload) = Ok pre ∧
         Verify (ei_IdentityPubkey payload) pre (ei_Sig payload) = true) ∧
      OpenIdentity NewKeyFromSeed (ew_home w') = Ok (priv, enrolled_record o io fp resp) ∧
      (∃ state orgID, nr_probe io = Some (state, orgID) ∧
         VerifyBinding (enrolled_record o io fp resp) (snapshot state orgID) = None) ∧
      loadEnrollmentMeta (hd_meta (ew_home w')) = Ok (enrolled_meta o io resp)
  | Err _ => w' = w ∨ ∃ p, ew_enrolled w' = ew_enrolled w ++ [p]
  end ∧
  (eo_ReEnroll o = false → is_Some (hd_key (ew_home w)) → w' = w ∧ ∃ e, r = Err e).
Proof.
  intros [Hgen Hans Hnow Hrole Hhash Hreg] Hrun. unfold runEnroll in Hrun.
  destruct (prepare_enroll o io (ew_home w)) as [[[priv fp] payload]|e] eqn:Hp;
    [|injection Hrun as <- <-; split; [by left|by eauto]].
  apply payload_signed in Hp as (Hg & Hpub & (state & orgID & Hprobe & Hfp) & Hpre & Hsig); [|done].
  assert (eo_ReEnroll o = false → is_Some (hd_key (ew_home w)) → False) as Hno.
  { intros Hre [k Hk]. unfold preflightKeyPath in Hpre. rewrite Hk, Hre in Hpre. by destruct (nr_stat io). }
  split; [|intros Hre Hk; by destruct (Hno Hre Hk)].
  destruct (nr_connect io); [|injection Hrun as <- <-; by left]. cbn [negb] in Hrun.
  destruct (nr_answer io payload) as [resp|e] eqn:Ha; [|injection Hrun as <- <-; by left].
  destruct (persist_enroll _ _ _ _ _ _) as [r1 h1] eqn:Hper. injection Hrun as <- <-. cbn [ew_enrolled ew_home].
  destruct (Hans _ _ Ha) as [Hid Hc]. destruct r1 as [x|e]; [|right; by eexists].
  apply persisted in Hper as (Ho & Hm & _); try done; [|by apply Hgen|by eapply length_fingerprint].
  exists priv, fp, payload, resp. split_and!; try done. exists state, orgID. split; [done|].
  unfold VerifyBinding. rewrite Hfp. cbn [enrolled_record ir_AccountFingerprint]. by rewrite bool_decide_eq_true_2.
Qed.

(** A re-enrolment whose key cannot be written leaves no key at all: the old one, which owns the old
    credits, is removed before the new one is on disk, and the tracker has granted to the new one. *)
Lemma reenrolment_can_lose_both o io w priv fp payload resp :
  prepare_enroll o io (ew_home w) = Ok (priv, fp, payload) → nr_connect io = true → nr_answer io payload = Ok resp →
  eo_ReEnroll o = true → nr_remove io = true → wi_stat (nr_key io) = true → wi_write (nr_key io) = false →
  ∃ w', runEnroll o io w = (Err (ErrSave ErrWriteTmp), w') ∧ hd_key (ew_home w') = None ∧
    ew_enrolled w' = ew_enrolled w ++ [(payload, resp)].
Proof.
  intros Hp Hc Ha Hre Hrm Hs Hw. unfold runEnroll. rewrite Hp, Hc, Ha. cbn [negb].
  unfold persist_enroll, gbind, on_key, SaveKey, write_renamed, gguard, gfail, gret. rewrite Hre, Hrm, Hs. cbn.
  unfold gbind. rewrite Hw. cbn. by eexists.
Qed.

(** A run that saved the key and not the record cannot be repeated: the plugin does not start for want of
    the record, and enrolling again is refused for the key, which has the grant. *)
Lemma half_enrolled_is_stuck o io w k :
  validateEnrollOptions o = None → eo_ReEnroll o = false → hd_key (ew_home w) = Some k →
  hd_record (ew_home w) = None → length k = 32%nat →
  OpenIdentity NewKeyFromSeed (ew_home w) = Err ErrRecordNotFound ∧ ∃ e, runEnroll o io w = (Err e, w).
Proof.
  intros Hv Hre Hk Hr Hl. split.
  - unfold OpenIdentity, LoadKey, blen. rewrite Hk, Hl. cbn. by rewrite Hr.
  - unfold runEnroll. destruct (prepare_enroll o io (ew_home w)) as [[[priv fp] payload]|e] eqn:Hp; [|by eexists].
    exfalso. unfold prepare_enroll in Hp. rewrite Hv in Hp. destruct (nr_probe io) as [[st org]|]; [|done].
    destruct (IsCompatible st) as [ok reason]. destruct (negb ok); [done|]. destruct (AccountFingerprint _); [|done].
    unfold preflightKeyPath in Hp. rewrite Hk, Hre in Hp. by destruct (nr_stat io).
Qed.

(** ** Transfers *)

(** A transfer is sent to another region only, for the enrolled identity, and after the check of the
    balance; nothing but the log changes. *)
Lemma transfer_checked o io h tr h' :
  runTransfer NewKeyFromSeed o io h = (Ok (Some tr), h') →
  ∃ priv rec em credits, OpenIdentity NewKeyFromSeed h = Ok (priv, rec) ∧ loadEnrollmentMeta (hd_meta h) = Ok em ∧
    em_Region em ≠ xo_DestRegion o ∧ ti_IdentityID tr = ir_IdentityID rec ∧ ti_Amount tr = xo_Amount o ∧
    xt_balance io = Ok credits ∧ u64 (xo_Amount o + transferSafetyOverhead) <= spendable credits ∧
    OpenIdentity NewKeyFromSeed h' = Ok (priv, rec).
Proof.
  intros Hr. unfold runTransfer in Hr. destruct (validateTransferOptions o); [done|].
  destruct (OpenIdentity NewKeyFromSeed h) as [[priv rec]|] eqn:Ho; [|done].
  destruct (loadEnrollmentMeta (hd_meta h)) as [em|] eqn:Hm; [|done]. case_bool_decide as Hreg; [done|].
  destruct (xt_nonce io) as [rnd|]; [|done]. destruct (xo_DryRun o); [done|]. destruct (negb _); [done|].
  destruct (xt_balance io) as [credits|]; [|done].
  destruct (Z.ltb_spec (spendable credits) (u64 (xo_Amount o + transferSafetyOverhead))); [done|].
  destruct (xt_answer io _) as [proof|e].
  - destruct (log_one _ _ _ _) as [lr h1] eqn:Hl. apply log_one_files in Hl as (E1 & E2 & _).
    destruct lr; [|done]. injection Hr as <- <-. exists priv, rec, em, credits. split_and!; try done.
    unfold OpenIdentity in *. by rewrite E1, E2.
  - by destruct (log_one _ _ _ _).
Qed.

(** The check of the balance wraps: an amount close to 2^64 passes with no credits. *)
Lemma overhead_wraps amount : 2 ^ 64 - transferSafetyOverhead <= amount < 2 ^ 64 → u64 (amount + transferSafetyOverhead) < 100.
Proof.
  unfold transferSafetyOverhead, u64. intros Ha. replace (amount + 100) with (amount + 100 - 2 ^ 64 + 1 * 2 ^ 64) by lia.
  rewrite Z.mod_add by lia. rewrite Z.mod_small; lia.
Qed.

(** The transfer that is sent names one tracker as the source and the destination. *)
Lemma transfer_names_one_tracker o rec em nonce now :
  let tr := transfer_intent o rec em nonce now in ti_SourceTrackerID tr = ti_DestTrackerID tr.
Proof. done. Qed.
End laws.

(** ** An enrolment *)

Definition e_json : IdJson := {|
  json_record w := pack [inr (rw_Version w); inl (rw_IdentityID w); inl (rw_AccountFingerprint w); inr (rw_Role w);
    inl (rw_EnrolledAt w)];
  parse_record b :=
    match unpack b with
    | Some [inr v; inl i; inl f; inr r; inl t] => Some {| rw_Version := v; rw_IdentityID := i;
        rw_AccountFingerprint := f; rw_Role := r; rw_EnrolledAt := t |}
    | _ => None
    end;
  json_meta w := pack [inr (mw_Version w); inl (mw_TrackerID w); inl (mw_Region w); inr (mw_StarterGrantCredits w);
    inl (mw_EnrolledAt w)];
  parse_meta b :=
    match unpack b with
    | Some [inr v; inl i; inl g; inr c; inl t] => Some {| mw_Version := v; mw_TrackerID := i; mw_Region := g;
        mw_StarterGrantCredits := c; mw_EnrolledAt := t |}
    | _ => None
    end |}.

Lemma e_json_laws : @IdJsonLaws e_json.
Proof.
  split; intros w *; unfold e_json, parse_record, json_record, parse_meta, json_meta; rewrite unpack_pack; by destruct w.
Qed.

Definition e_new (seed : bytes) : bytes := seed ++ seed.
Definition e_seed : bytes := replicate 32 Byte.x61.
Definition e_answer : EnrollResult := {|
  ex_IdentityID := replicate 32 Byte.x62; ex_StarterGrantCredits := 1000; ex_StarterGrantEntryBlob := [] |}.
Definition e_write (ok : bool) : WriteIo := {| wi_stat := true; wi_write := ok; wi_rename := true |}.
Definition e_options : enrollOptions := {|
  eo_ConfigDir := "/home/u/.token-bay"; eo_AuditLogPath := "/home/u/.token-bay/audit.log";
  eo_TrackerHash := replicate 32 Byte.x63; eo_Region := "eu"; eo_Role := 1; eo_ReEnroll := false |}.
Definition e_io : EnrollIo := {|
  nr_probe := Some ({| au_LoggedIn := true; au_AuthMethod := "claude.ai"; au_APIProvider := "firstParty" |}, "org");
  nr_stat := true; nr_generate := Some (e_new e_seed); nr_nonce := Some (replicate 16 Byte.x64); nr_connect := true;
  nr_answer _ := Ok e_answer; nr_now := 1700000000 * Second; nr_remove := true; nr_key := e_write true;
  nr_record := e_write true; nr_meta := e_write true; nr_log_open := true; nr_log := l_good |}.
Definition e_world : EnrollWorld := {|
  ew_home := {| hd_key := None; hd_record := None; hd_meta := None; hd_log := no_log |}; ew_enrolled := [] |}.

Lemma enrolment_binds_witness :
  ∃ w rec, @runEnroll ToyCrypto a_json e_json e_options e_io e_world = (Ok tt, w) ∧
    @OpenIdentity a_json e_json e_new (ew_home w) = Ok (e_new e_seed, rec) ∧ ir_IdentityID rec = replicate 32 Byte.x62.
Proof.
  assert (enroll_inputs_ok e_new e_options e_io) as Hok.
  { split; [|intros p resp [= <-]; split; [reflexivity|split; cbn; lia]|split; vm_compute; congruence|cbn; lia|reflexivity|reflexivity].
    intros priv [= <-]. split; reflexivity. }
  destruct (runEnroll e_options e_io e_world) as [r w] eqn:E.
  assert (r = Ok tt) as -> by (vm_compute in E; injection E as <- _; reflexivity).
  destruct (@enrolment_binds ToyCrypto ToyCryptoLaws a_json a_json_laws e_json e_json_laws e_new e_options e_io e_world
              (Ok tt) w Hok E) as [(priv & fp & payload & resp & Ha & _ & _ & _ & Ho & _) _].
  exists w, (enrolled_record e_options e_io fp resp). split; [reflexivity|].
  injection Ha as <-. split; [|reflexivity]. rewrite Ho. f_equal. f_equal.
  vm_compute in E. injection E as <-. vm_compute in Ho. injection Ho as <- _. vm_compute. reflexivity.
Defined.
