(* ===== verification/Http.v ===== *)
(** What the tracker's operator interface uses of [net/http] and [encoding/json]: requests,
    responses, JSON values and the routing of [ServeMux].

    A path is the list of its segments, already unescaped and clean ([ServeMux] redirects
    any other). A handler takes the wildcards of its pattern and a state; it replies, or
    panics, and then the server aborts the connection. *)
From S2P Require Import Prelude.
From Stdlib Require Import Floats.SpecFloat.

(** ** Responses *)

Inductive Jv :=
| JvNull | JvBool (b : bool) | JvInt (n : Z) | JvFloat (x : spec_float) | JvStr (s : string)
| JvArr (l : list Jv) | JvObj (fields : list (string * Jv)).

Definition finite (x : spec_float) : bool :=
  match x with S754_zero _ | S754_finite _ _ _ => true | _ => false end.

(** [encoding/json] refuses a float that is no number, wherever it stands. *)
Fixpoint encodable (v : Jv) : bool :=
  match v with
  | JvFloat x => finite x
  | JvArr l => forallb encodable l
  | JvObj fields => forallb (λ kv, encodable kv.2) fields
  | _ => true
  end.

Inductive Body := BText (msg : string) | BJson (v : Jv) | BEmpty.

(** The status, the [WWW-Authenticate] header and the body. *)
Record Resp := { rs_Code : Z; rs_Challenge : option string; rs_Body : Body }.

Definition StatusOK : Z := 200.
Definition StatusAccepted : Z := 202.
Definition StatusBadRequest : Z := 400.
Definition StatusUnauthorized : Z := 401.
Definition StatusNotFound : Z := 404.
Definition StatusMethodNotAllowed : Z := 405.
Definition StatusConflict : Z := 409.
Definition StatusInternalServerError : Z := 500.
Definition StatusNotImplemented : Z := 501.

(** [http.Error] *)
Definition http_Error (msg : string) (code : Z) : Resp :=
  {| rs_Code := code; rs_Challenge := None; rs_Body := BText msg |}.

(** The status goes out first; an encoding error is dropped and leaves the body empty. *)
Definition write_json (code : Z) (v : Jv) : Resp :=
  {| rs_Code := code; rs_Challenge := None; rs_Body := if encodable v then BJson v else BEmpty |}.

Inductive Outcome := Replied (r : Resp) | Aborted.

Definition code_of (o : Outcome) : option Z := match o with Replied r => Some (rs_Code r) | Aborted => None end.

(** ** Requests *)

(** [rq_Operator] is what the context holds under admission's operator key. *)
Record HttpRequest := {
  rq_Method : string; rq_Path : list string; rq_Authorization : string; rq_Body : bytes;
  rq_Now : Z; rq_Operator : option string
}.

Definition Handler (W : Type) : Type := HttpRequest → list string → W → Outcome * W.

(** ** [ServeMux] *)

Inductive Seg := Lit (s : string) | Wild.

(** A pattern ends with its last segment, or with a slash and then matches the subtree; an
    empty method is any method. *)
Record Route (W : Type) := {
  rt_Method : string; rt_Segs : list Seg; rt_Subtree : bool; rt_Handler : Handler W
}.

#[global] Arguments Build_Route {_} _ _ _ _.
#[global] Arguments rt_Method {_} _.
#[global] Arguments rt_Segs {_} _.
#[global] Arguments rt_Subtree {_} _.
#[global] Arguments rt_Handler {_} _ _ _ _.

Fixpoint match_segs (segs : list Seg) (subtree : bool) (path : list string) : option (list string) :=
  match segs, path with
  | [], [] => if subtree then None else Some []
  | [], _ :: _ => if subtree then Some [] else None
  | Lit s :: segs', p :: path' => if String.eqb s p then match_segs segs' subtree path' else None
  | Wild :: segs', p :: path' =>
      if String.eqb p "" then None else cons p <$> match_segs segs' subtree path'
  | _ :: _, [] => None
  end.

(** GET stands for HEAD too. *)
Definition match_method (m : string) (req : string) : bool :=
  String.eqb m "" || String.eqb m req || (String.eqb m "GET" && String.eqb req "HEAD").

Section mux.
Context {W : Type}.

Definition route_matches (req : HttpRequest) (rt : Route W) : option (Handler W * list string) :=
  if match_method (rt_Method rt) (rq_Method req)
  then pair (rt_Handler rt) <$> match_segs (rt_Segs rt) (rt_Subtree rt) (rq_Path req)
  else None.

Definition path_matches (req : HttpRequest) (rt : Route W) : bool :=
  bool_decide (is_Some (match_segs (rt_Segs rt) (rt_Subtree rt) (rq_Path req))).

(** No request matches two of the patterns registered here, so the first is the one. *)
Definition find_route (routes : list (Route W)) (req : HttpRequest) : option (Handler W * list string) :=
  head (omap (route_matches req) routes).

Definition ServeHTTP (routes : list (Route W)) (req : HttpRequest) (w : W) : Outcome * W :=
  match find_route routes req with
  | Some (h, vals) => h req vals w
  | None =>
    (Replied (if existsb (path_matches req) routes
              then http_Error "Method Not Allowed" StatusMethodNotAllowed
              else http_Error "404 page not found" StatusNotFound), w)
  end.

Lemma find_route_in routes req h vals :
  find_route routes req = Some (h, vals) → ∃ rt, rt ∈ routes ∧ h = rt_Handler rt.
Proof.
  unfold find_route. intros Hh. apply head_Some_elem_of in Hh.
  apply list_elem_of_omap in Hh as (rt & Hin & Hm).
  exists rt. split; [done|]. unfold route_matches in Hm. destruct (match_method _ _); [|done].
  destruct (match_segs _ _ _); cbn in Hm; [by injection Hm as <- <-|done].
Qed.
End mux.

(** The first path value, for the patterns with one wildcard. *)
Definition path_value (vals : list string) : string := default "" (head vals).
