(* ===== verification/BrokerAdmin.v ===== *)
(** tracker/internal/broker/admin.go: the operator's view of the broker and the two ways an
    operator overrides it.

    A handler calls the session manager and the registry several times, and each call takes
    a lock of its own; between two calls of [handleForceFailInflight] the rest of the
    tracker may run, so what runs there is an argument. The other handlers read or make
    one change. The audit lines of the log are left out. *)
From S2P Require Import Prelude Proto Signing Float Storage Session Registry Broker BrokerSpec Settlement AdmQueue Wiring Http.
From Stdlib Require Import Floats.SpecFloat.

(** ** Handlers *)

Definition adminWriteJSON (code : Z) (v : Jv) : Resp := write_json code v.

Definition parseHex16 (s : string) : option bytes :=
  match hex_DecodeString s with
  | Some b => if blen b =? 16 then Some b else None
  | None => None
  end.

Definition bad_request_id : Resp := http_Error "bad request_id" StatusBadRequest.
Definition not_found : Resp := http_Error "not found" StatusNotFound.

(** ** What an operator can see *)

Definition handleListInflight (now : Z) (s : BState) : Resp :=
  adminWriteJSON StatusOK (JvArr ((λ sum, JvObj [
    ("request_id", JvStr (hex_EncodeToString (is_RequestID sum)));
    ("consumer_id", JvStr (hex_EncodeToString (is_ConsumerID sum)));
    ("state", JvStr (State_String (is_State sum)));
    ("age_seconds", JvFloat (Seconds (time_Sub now (is_StartedAt sum))))])
    <$> Inflight_Snapshot (inflight s))).

Definition handleGetInflight (request_id : string) (s : BState) : Resp :=
  match parseHex16 request_id with
  | None => bad_request_id
  | Some reqID =>
    match Session.Get reqID (inflight s) with
    | None => not_found
    | Some req =>
      let seederHex := if bool_decide (AssignedSeeder req = zeroID) then ""
                       else hex_EncodeToString (AssignedSeeder req) in
      adminWriteJSON StatusOK (JvObj (
        [("request_id", JvStr (hex_EncodeToString (RequestID req)));
         ("consumer_id", JvStr (hex_EncodeToString (ConsumerID req)));
         ("state", JvStr (State_String (rq_State req))); ("seeder_id", JvStr seederHex)]
        ++ match Reservations_Get reqID (reservations s) with
           | Some slot => [("reservation_amount", JvInt (rs_Amount slot))]
           | None => []
           end))
    end
  end.

Record slotDTO := { sd_RequestID : string; sd_Amount : Z; sd_ExpiresAt : Z }.
Record consumerDTO := { cd_ConsumerID : string; cd_Total : Z; cd_Slots : list slotDTO }.

Definition slot_dto (slot : Reservation) : slotDTO := {|
  sd_RequestID := hex_EncodeToString (rs_ReqID slot); sd_Amount := rs_Amount slot;
  sd_ExpiresAt := Unix (rs_ExpiresAt slot) |}.

(** One turn of the loop of [handleListReservations]. *)
Definition add_slot (r : Reservations) (byConsumer : gmap bytes consumerDTO) (slot : Reservation)
    : gmap bytes consumerDTO :=
  let cid := rs_ConsumerID slot in
  let dto := default {| cd_ConsumerID := hex_EncodeToString cid; cd_Total := Reserved cid r; cd_Slots := [] |}
                     (byConsumer !! cid) in
  <[cid := {| cd_ConsumerID := cd_ConsumerID dto; cd_Total := cd_Total dto;
              cd_Slots := cd_Slots dto ++ [slot_dto slot] |}]> byConsumer.

Definition consumers_of (r : Reservations) : gmap bytes consumerDTO :=
  foldl (add_slot r) ∅ (Reservations_Snapshot r).

Definition consumer_json (d : consumerDTO) : Jv := JvObj [
  ("consumer_id", JvStr (cd_ConsumerID d)); ("total", JvInt (cd_Total d));
  ("slots", match cd_Slots d with
            | [] => JvNull
            | l => JvArr ((λ x, JvObj [("request_id", JvStr (sd_RequestID x)); ("amount", JvInt (sd_Amount x));
                                       ("expires_at", JvInt (sd_ExpiresAt x))]) <$> l)
            end)].

(** The totals are read from the same instant as the slots. *)
Definition handleListReservations (s : BState) : Resp :=
  adminWriteJSON StatusOK
    (JvArr ((λ kv, consumer_json kv.2) <$> map_to_list (consumers_of (reservations s)))).

(** ** What an operator can do *)

Definition handleForceReleaseReservation (request_id : string) (s : BState) : Resp * BState :=
  match parseHex16 request_id with
  | None => (bad_request_id, s)
  | Some reqID =>
    match Release reqID (reservations s) with
    | (None, _) => (not_found, s)
    | (Some _, r) =>
      (adminWriteJSON StatusOK (JvObj [("released", JvBool true);
                                       ("request_id", JvStr (hex_EncodeToString reqID))]),
       set_reservations r s)
    end
  end.

(** [e1] runs between [LookupAssignment] and [ForceFail], [e2] between [ForceFail] and [DecLoad]. *)
Definition handleForceFailInflight (now : Z) (e1 e2 : BState → BState) (request_id : string) (s : BState)
    : Resp * BState :=
  match parseHex16 request_id with
  | None => (bad_request_id, s)
  | Some reqID =>
    let assigned := LookupAssignment reqID (inflight s) in
    let s := e1 s in
    match ForceFail reqID now (inflight s) with
    | (None, _) => (not_found, s)
    | (Some prev, f) =>
      let s := e2 (set_inflight f s) in
      let s := match assigned with
               | Some (_, seeder) => if bool_decide (prev = StateAssigned) then dec_load seeder s else s
               | None => s
               end in
      (adminWriteJSON StatusOK (JvObj [("failed", JvBool true);
                                       ("request_id", JvStr (hex_EncodeToString reqID))]), s)
    end
  end.

Definition reads {W} (h : HttpRequest → list string → W → Resp) : Handler W :=
  λ req vals w, (Replied (h req vals w), w).

Definition writes {W} (h : HttpRequest → list string → W → Resp * W) : Handler W :=
  λ req vals w, let '(resp, w) := h req vals w in (Replied resp, w).

(** The broker's own [ServeMux]; the admin server mounts it under /broker/. *)
Definition AdminHandler (e1 e2 : BState → BState) : Handler BState := λ req _ s,
  ServeHTTP [
    {| rt_Method := "GET"; rt_Segs := [Lit "broker"; Lit "inflight"]; rt_Subtree := false;
       rt_Handler := reads (λ req _ s, handleListInflight (rq_Now req) s) |};
    {| rt_Method := "GET"; rt_Segs := [Lit "broker"; Lit "inflight"; Wild]; rt_Subtree := false;
       rt_Handler := reads (λ _ vals s, handleGetInflight (path_value vals) s) |};
    {| rt_Method := "GET"; rt_Segs := [Lit "broker"; Lit "reservations"]; rt_Subtree := false;
       rt_Handler := reads (λ _ _ s, handleListReservations s) |};
    {| rt_Method := "POST"; rt_Segs := [Lit "broker"; Lit "reservations"; Lit "release"; Wild];
       rt_Subtree := false;
       rt_Handler := writes (λ _ vals s, handleForceReleaseReservation (path_value vals) s) |};
    {| rt_Method := "POST"; rt_Segs := [Lit "broker"; Lit "inflight"; Lit "fail"; Wild]; rt_Subtree := false;
       rt_Handler := writes (λ req vals s, handleForceFailInflight (rq_Now req) e1 e2 (path_value vals) s) |}]
    req s.

(** ** The handler as three steps *)

(** Where a call of [handleForceFailInflight] stands: before [LookupAssignment], before
    [ForceFail], before the load is given back, answered. *)
Inductive FFPhase :=
| FFStart | FFLooked (seeder : option bytes) | FFForced (owed : option bytes) | FFAnswered (found : bool).

Definition ff_step (reqID : bytes) (now : Z) (ph : FFPhase) (s : BState) : FFPhase * BState :=
  match ph with
  | FFStart => (FFLooked (snd <$> LookupAssignment reqID (inflight s)), s)
  | FFLooked seeder =>
    match ForceFail reqID now (inflight s) with
    | (None, _) => (FFAnswered false, s)
    | (Some prev, f) =>
      (FFForced (if bool_decide (prev = StateAssigned) then seeder else None), set_inflight f s)
    end
  | FFForced (Some seeder) => (FFAnswered true, dec_load seeder s)
  | FFForced None => (FFAnswered true, s)
  | FFAnswered found => (FFAnswered found, s)
  end.

(** The steps in a row are the handler. *)
Lemma handler_is_its_steps now e1 e2 id reqID s :
  parseHex16 id = Some reqID →
  (handleForceFailInflight now e1 e2 id s).2 =
    (let '(p1, s1) := ff_step reqID now FFStart s in
     let '(p2, s2) := ff_step reqID now p1 (e1 s1) in
     match p2 with
     | FFAnswered _ => s2
     | _ => (ff_step reqID now p2 (e2 s2)).2
     end).
Proof.
  intros Hid. unfold handleForceFailInflight. rewrite Hid. cbn [ff_step].
  destruct (ForceFail reqID now (inflight (e1 s))) as [[prev|] f]; [|done].
  destruct (LookupAssignment reqID (inflight s)) as [[c sd]|]; cbn.
  - by case_bool_decide.
  - by destruct (bool_decide (prev = StateAssigned)).
Qed.

(** ** Several operators at once, the reaper, reports and the rest *)

(** The reaper's debts for one request: the seeders [reap_one] gives a load back to. *)
Definition reaped_for (reqID : bytes) (es : list Expiry) : list bytes :=
  ex_AssignedSeeder <$> List.filter (λ e, bool_decide (ex_ReqID e = reqID)
    && (bool_decide (ex_PriorState e = StateAssigned)
        && negb (bool_decide (ex_AssignedSeeder e = zeroID)))) es.

Record FFSys := {
  fs_state : BState; fs_handlers : list FFPhase; fs_given : list bytes; fs_taken : nat
}.

(** What the next step of a handler gives back. *)
Definition owed_by (ph : FFPhase) : list bytes :=
  match ph with FFForced (Some seeder) => [seeder] | _ => [] end.

(** What all other code may do to the request: sweep it once it is terminal, or end it when
    it is being served. *)
Definition leaves_request (reqID : bytes) (s s' : BState) : Prop :=
  session_ok s' ∧
  match Session.Get reqID (inflight s), Session.Get reqID (inflight s') with
  | Some r, Some r' =>
      AssignedSeeder r' = AssignedSeeder r ∧
      (rq_State r' = rq_State r ∨ (rq_State r = StateServing ∧ terminal (rq_State r') = true))
  | Some r, None => terminal (rq_State r) = true
  | None, None => True
  | None, Some _ => False
  end.

(** One step: a handler starts or takes a step, the reaper runs, a usage report takes the
    request to SERVING (its settlement then gives the load back), or something else runs.
    [fs_given] lists the seeders whose load was given back for the request, and [fs_taken]
    counts the hand-overs to a settlement. *)
Inductive ff_move (reqID : bytes) (y : FFSys) : FFSys → Prop :=
| ff_arrive :
    ff_move reqID y {| fs_state := fs_state y; fs_handlers := fs_handlers y ++ [FFStart];
                       fs_given := fs_given y; fs_taken := fs_taken y |}
| ff_handler i ph now :
    fs_handlers y !! i = Some ph →
    ff_move reqID y {| fs_state := (ff_step reqID now ph (fs_state y)).2;
                       fs_handlers := <[i := (ff_step reqID now ph (fs_state y)).1]> (fs_handlers y);
                       fs_given := fs_given y ++ owed_by ph; fs_taken := fs_taken y |}
| ff_reap now :
    ff_move reqID y {| fs_state := runReap now (fs_state y); fs_handlers := fs_handlers y;
                       fs_given := fs_given y
                         ++ reaped_for reqID (SweepExpiredAndFail now (w_mgr (fs_state y))).1;
                       fs_taken := fs_taken y |}
| ff_report now f :
    Transition reqID StateAssigned StateServing now (inflight (fs_state y)) = (Ok tt, f) →
    ff_move reqID y {| fs_state := set_inflight f (fs_state y); fs_handlers := fs_handlers y;
                       fs_given := fs_given y; fs_taken := S (fs_taken y) |}
| ff_other s' :
    leaves_request reqID (fs_state y) s' →
    ff_move reqID y {| fs_state := s'; fs_handlers := fs_handlers y;
                       fs_given := fs_given y; fs_taken := fs_taken y |}.

(** ** Lemmas *)

Lemma ForceFail_None id now f : Session.Get id f = None → ForceFail id now f = (None, f).
Proof.
  unfold Session.Get, lookup_loc, ForceFail. destruct (if_byID f !! id) as [l|]; [|done]. cbn.
  by intros ->.
Qed.

Lemma ForceFail_Some id now f r :
  inflight_wf f → Session.Get id f = Some r →
  ∃ f', ForceFail id now f = (Some (rq_State r), f') ∧ inflight_wf f' ∧
    ∀ id', Session.Get id' f' =
      if decide (id' = id)
      then Some (set_state StateFailed (if TerminatedAt r =? zeroTime then now else TerminatedAt r) r)
      else Session.Get id' f.
Proof.
  intros Hwf Hg. pose proof Hg as Hl. apply Get_Some in Hl as (l & Hl & Hr).
  unfold ForceFail. rewrite Hl, Hr. eexists. split; [done|].
  split; [by apply update_at_wf|]. intros id'. rewrite (Get_update_at id) by done. by rewrite Hg.
Qed.

Lemma LookupAssignment_seeder id f :
  snd <$> LookupAssignment id f =
    match Session.Get id f with
    | Some r => if bool_decide (AssignedSeeder r = zeroID) then None else Some (AssignedSeeder r)
    | None => None
    end.
Proof. unfold LookupAssignment. destruct (Session.Get id f) as [r|]; [|done]. by case_bool_decide. Qed.

Lemma reaped_for_spec f slots es reqID :
  NoDup (rs_ReqID <$> slots) → Forall2 (expiry_of f) slots es →
  reaped_for reqID es =
    match Session.Get reqID f with
    | Some r => if decide (reqID ∈ rs_ReqID <$> slots ∧ rq_State r = StateAssigned ∧ AssignedSeeder r ≠ zeroID)
                then [AssignedSeeder r] else []
    | None => []
    end.
Proof.
  intros Hnd Hes. induction Hes as [|slot e slots es He Hes IH].
  { destruct (Session.Get reqID f); [|done]. rewrite decide_False; [done|]. intros [Hin _]. inv Hin. }
  rewrite fmap_cons in *. apply NoDup_cons in Hnd as [Hni Hnd]. specialize (IH Hnd).
  destruct He as (Hid & _ & _ & Hst & Hsd). unfold reaped_for in *. cbn [List.filter].
  destruct (decide (rs_ReqID slot = reqID)) as [<-|Hne].
  - rewrite (bool_decide_eq_true_2 (ex_ReqID e = _)) by done. cbn [andb].
    destruct (Session.Get (rs_ReqID slot) f) as [r|]; cbn in Hst; cbn [decide].
    2:{ by rewrite Hst, bool_decide_eq_false_2. }
    rewrite (decide_False (P := rs_ReqID slot ∈ rs_ReqID <$> slots ∧ _)) in IH by tauto.
    destruct (decide (rq_State r = StateAssigned)) as [Ha|Ha].
    + rewrite Hst, bool_decide_eq_true_2 by done. rewrite Hsd. cbn [andb].
      destruct (decide (AssignedSeeder r = zeroID)) as [Hz|Hz].
      * rewrite bool_decide_eq_true_2 by done. cbn [negb]. rewrite IH, decide_False by tauto. done.
      * rewrite bool_decide_eq_false_2 by done. cbn [negb]. rewrite fmap_cons, IH, Hsd.
        rewrite decide_True; [done|]. split; [by left|done].
    + rewrite Hst, bool_decide_eq_false_2 by done. cbn [andb]. rewrite IH, decide_False by tauto. done.
  - rewrite bool_decide_eq_false_2 by congruence. cbn [andb]. rewrite IH.
    destruct (Session.Get reqID f) as [r|]; [|done].
    apply decide_ext. rewrite elem_of_cons. split; [tauto|]. intros [[Heq|?] ?]; [by subst|done].
Qed.

Lemma runReap_request reqID now s :
  session_ok s →
  session_ok (runReap now s) ∧
  ∃ hit : bool,
    Session.Get reqID (inflight (runReap now s)) =
      (if hit then expire_req now else id) <$> Session.Get reqID (inflight s) ∧
    reaped_for reqID (SweepExpiredAndFail now (w_mgr s)).1 =
      match Session.Get reqID (inflight s) with
      | Some r => if decide (hit = true ∧ rq_State r = StateAssigned ∧ AssignedSeeder r ≠ zeroID)
                  then [AssignedSeeder r] else []
      | None => []
      end.
Proof.
  intros Hok. destruct (runReap_interferes reqID now s Hok) as [Hok' _]. split; [done|].
  destruct Hok as [Hwf Hi]. unfold runReap.
  pose proof (SweepExpiredAndFail_sweeps now (w_mgr s) Hi Hwf) as Hs. cbv zeta in Hs.
  destruct (SweepExpiredAndFail now (w_mgr s)) as [out m']. destruct Hs as (_ & _ & _ & Hreq & Hout).
  rewrite reap_all_sessions. cbn [w_mgr fst].
  assert (rs_ReqID <$> (expired_slots now (reservations s)).*2 = (expired_slots now (reservations s)).*1) as Hids.
  { rewrite <- list_fmap_compose. apply list_fmap_ext. intros i [k slot] Hin. cbn.
    apply list_elem_of_lookup_2, elem_of_expired in Hin as [Hin _]. by apply (ri_key _ Hi). }
  exists (bool_decide (reqID ∈ (expired_slots now (reservations s)).*1)). split.
  - rewrite Hreq. case_bool_decide; [by rewrite decide_True|]. rewrite decide_False by done.
    by destruct (Session.Get reqID (inflight s)).
  - rewrite (reaped_for_spec _ _ _ reqID ltac:(rewrite Hids; apply NoDup_expired) Hout), Hids.
    destruct (Session.Get reqID (inflight s)) as [r|]; [|done]. apply decide_ext.
    by rewrite bool_decide_eq_true.
Qed.

(** ** The load is given back once *)

Definition pending (hs : list FFPhase) : nat := sum_list_with (λ ph, length (owed_by ph)) hs.

Definition debts (y : FFSys) : nat := (length (fs_given y) + fs_taken y + pending (fs_handlers y))%nat.

Lemma pending_update hs i ph ph' :
  hs !! i = Some ph →
  (pending (<[i := ph']> hs) + length (owed_by ph) = pending hs + length (owed_by ph'))%nat.
Proof.
  unfold pending. revert i. induction hs as [|x hs IH]; intros [|i] Hi; [done|done| |].
  - cbn in *. simplify_eq. lia.
  - specialize (IH i Hi). change (<[S i:=ph']> (x :: hs)) with (x :: <[i:=ph']> hs).
    cbn [sum_list_with]. lia.
Qed.

Section once.
Variables (reqID seeder : bytes).

Definition looked_ok (ph : FFPhase) : Prop :=
  match ph with FFLooked x => x = Some seeder | _ => True end.

Definition owes_seeder (ph : FFPhase) : Prop := Forall (eq seeder) (owed_by ph).

(** While the request is ASSIGNED nobody owes a load and every handler that has looked knows
    the seeder; from then on exactly one debt is open or paid. *)
Record ff_inv (y : FFSys) : Prop := {
  fi_ok : session_ok (fs_state y);
  fi_given : Forall (eq seeder) (fs_given y);
  fi_owed : Forall owes_seeder (fs_handlers y);
  fi_debts :
    match Session.Get reqID (inflight (fs_state y)) with
    | Some r =>
      if decide (rq_State r = StateAssigned)
      then AssignedSeeder r = seeder ∧ Forall looked_ok (fs_handlers y) ∧ debts y = 0%nat
      else debts y = 1%nat
    | None => debts y = 1%nat
    end
}.

Hypothesis Hseeder : seeder ≠ zeroID.

(** A step of a handler in the middle of anything. *)
Lemma ff_step_spec now ph s :
  session_ok s → owes_seeder ph →
  (∀ r, Session.Get reqID (inflight s) = Some r → rq_State r = StateAssigned →
        AssignedSeeder r = seeder ∧ looked_ok ph) →
  let '(ph', s') := ff_step reqID now ph s in
  session_ok s' ∧ owes_seeder ph' ∧
  match Session.Get reqID (inflight s) with
  | Some r =>
    match Session.Get reqID (inflight s') with
    | Some r' =>
      if decide (rq_State r = StateAssigned)
      then if decide (rq_State r' = StateAssigned)
           then r' = r ∧ looked_ok ph' ∧ owed_by ph' = []
           else owed_by ph' = [seeder] ∧ owed_by ph = []
      else rq_State r' ≠ StateAssigned ∧ owed_by ph' = []
    | None => False
    end
  | None => Session.Get reqID (inflight s') = None ∧ owed_by ph' = []
  end.
Proof.
  intros Hok Howe Hass. destruct ph as [|x|[x|]|b]; cbn [ff_step].
  - split; [done|]. split; [constructor|]. rewrite LookupAssignment_seeder.
    destruct (Session.Get reqID (inflight s)) as [r|] eqn:Hg; [|done].
    destruct (decide (rq_State r = StateAssigned)) as [Ha|Ha]; [|done]. split; [done|].
    destruct (Hass r eq_refl Ha) as [-> _]. by rewrite bool_decide_eq_false_2.
  - destruct (Session.Get reqID (inflight s)) as [r|] eqn:Hg.
    2:{ rewrite ForceFail_None by done. by split_and!; [|constructor| |]. }
    destruct (ForceFail_Some reqID now _ r (so_inflight _ Hok) Hg) as (f' & -> & Hwf' & Hg').
    split; [constructor; [done|apply Hok]|]. cbn [set_inflight w_mgr mgr_Inflight].
    rewrite Hg', decide_True by done. cbn [set_state rq_State].
    rewrite (decide_False (P := StateFailed = StateAssigned)) by done.
    destruct (decide (rq_State r = StateAssigned)) as [Ha|Ha].
    + destruct (Hass r eq_refl Ha) as [_ Hl]. cbn in Hl. subst x. rewrite bool_decide_eq_true_2 by done.
      split; [by repeat constructor|done].
    + rewrite bool_decide_eq_false_2 by done. split; [constructor|done].
  - split; [by destruct Hok|]. split; [constructor|].
    change (Session.Get reqID (inflight (dec_load x s))) with (Session.Get reqID (inflight s)).
    destruct (Session.Get reqID (inflight s)) as [r|]; [|done]. by destruct (decide _).
  - split; [done|]. split; [constructor|].
    destruct (Session.Get reqID (inflight s)) as [r|]; [|done]. by destruct (decide _).
  - split; [done|]. split; [constructor|].
    destruct (Session.Get reqID (inflight s)) as [r|]; [|done]. by destruct (decide _).
Qed.

Lemma ff_inv_handler y i ph now :
  ff_inv y → fs_handlers y !! i = Some ph →
  ff_inv {| fs_state := (ff_step reqID now ph (fs_state y)).2;
            fs_handlers := <[i := (ff_step reqID now ph (fs_state y)).1]> (fs_handlers y);
            fs_given := fs_given y ++ owed_by ph; fs_taken := fs_taken y |}.
Proof.
  intros [Hok Hgv How Hd] Hi.
  pose proof (proj1 (Forall_lookup _ _) How _ _ Hi) as Hph.
  pose proof (ff_step_spec now ph (fs_state y) Hok Hph) as Hs.
  pose proof (pending_update (fs_handlers y) i ph (ff_step reqID now ph (fs_state y)).1 Hi) as Hp.
  destruct (ff_step reqID now ph (fs_state y)) as [ph' s']. cbn [fst snd] in *.
  assert (∀ r, Session.Get reqID (inflight (fs_state y)) = Some r → rq_State r = StateAssigned →
               AssignedSeeder r = seeder ∧ looked_ok ph) as Hass.
  { intros r Hg Ha. rewrite Hg, decide_True in Hd by done. destruct Hd as (? & Hl & _).
    split; [done|]. exact (proj1 (Forall_lookup _ _) Hl _ _ Hi). }
  destruct (Hs Hass) as (Hok' & Hph' & Hg'). clear Hs.
  constructor; cbn [fs_state fs_handlers fs_given fs_taken]; [done|by apply Forall_app|by apply Forall_insert|].
  unfold debts in *. cbn [fs_state fs_handlers fs_given fs_taken]. rewrite length_app.
  destruct (Session.Get reqID (inflight (fs_state y))) as [r|].
  2:{ destruct Hg' as [-> Ho]. rewrite Ho in Hp. cbn in Hp. lia. }
  destruct (Session.Get reqID (inflight s')) as [r'|]; [|done].
  destruct (decide (rq_State r = StateAssigned)) as [Ha|Ha].
  - destruct Hd as (Hsd & Hl & Hd). destruct (decide (rq_State r' = StateAssigned)).
    + destruct Hg' as (-> & Hl' & Ho). rewrite Ho in Hp. cbn in Hp.
      split; [done|]. split; [by apply Forall_insert|]. lia.
    + destruct Hg' as [Ho Ho']. rewrite Ho, Ho' in Hp. rewrite Ho'. cbn in *. lia.
  - destruct Hg' as [Hn Ho]. rewrite decide_False by done. rewrite Ho in Hp. cbn in Hp. lia.
Qed.

Lemma ff_inv_reap y now :
  ff_inv y →
  ff_inv {| fs_state := runReap now (fs_state y); fs_handlers := fs_handlers y;
            fs_given := fs_given y ++ reaped_for reqID (SweepExpiredAndFail now (w_mgr (fs_state y))).1;
            fs_taken := fs_taken y |}.
Proof.
  intros [Hok Hgv How Hd]. destruct (runReap_request reqID now _ Hok) as (Hok' & hit & Hg & Hr).
  rewrite Hr. clear Hr.
  constructor; cbn [fs_state fs_handlers fs_given fs_taken]; [done| |done|].
  - apply Forall_app. split; [done|]. destruct (Session.Get reqID (inflight (fs_state y))) as [r|]; [|constructor].
    destruct (decide (hit = true ∧ rq_State r = StateAssigned ∧ AssignedSeeder r ≠ zeroID))
      as [(_ & Ha & _)|]; [|constructor]. rewrite decide_True in Hd by done.
    destruct Hd as [-> _]. by repeat constructor.
  - rewrite Hg. unfold debts in *. cbn [fs_state fs_handlers fs_given fs_taken]. rewrite length_app.
    destruct (Session.Get reqID (inflight (fs_state y))) as [r|]; cbn.
    2:{ destruct hit; cbn; lia. }
    destruct (decide (rq_State r = StateAssigned)) as [Ha|Ha].
    + destruct Hd as (Hsd & Hl & Hd). destruct hit; cbn.
      * unfold expire_req. rewrite Ha. cbn. rewrite decide_False by done.
        rewrite decide_True by (by rewrite Hsd). cbn. lia.
      * rewrite decide_True by done. rewrite decide_False by (by intros [? _]). cbn. split_and!; [done|done|lia].
    + rewrite (decide_False (P := hit = true ∧ _)) by tauto. cbn. destruct hit; cbn.
      * rewrite decide_False; [lia|]. unfold expire_req. by destruct (rq_State r) eqn:E; cbn; rewrite ?E.
      * rewrite decide_False by done. lia.
Qed.

Lemma ff_inv_move y y' : ff_inv y → ff_move reqID y y' → ff_inv y'.
Proof.
  intros Hi Hm. destruct Hm as [|i ph now Hph|now|now f Ht|s' Hs'].
  - destruct Hi as [Hok Hgv How Hd].
    constructor; cbn [fs_state fs_handlers fs_given fs_taken]; [done|done| |].
    + apply Forall_app. split; [done|]. by repeat constructor.
    + assert (debts {| fs_state := fs_state y; fs_handlers := fs_handlers y ++ [FFStart];
                       fs_given := fs_given y; fs_taken := fs_taken y |} = debts y) as Hdb.
      { unfold debts, pending. cbn [fs_handlers fs_given fs_taken]. rewrite sum_list_with_app. cbn. lia. }
      rewrite Hdb. destruct (Session.Get _ _) as [r|]; [|done]. destruct (decide _); [|done].
      destruct Hd as (? & ? & ?). split_and!; [done| |done]. apply Forall_app. split; [done|]. by repeat constructor.
  - by apply ff_inv_handler.
  - by apply ff_inv_reap.
  - destruct Hi as [Hok Hgv How Hd].
    destruct (Session.Get reqID (inflight (fs_state y))) as [r|] eqn:Hg.
    2:{ apply Get_None in Hg; [|apply Hok]. unfold Transition, with_request in Ht. by rewrite Hg in Ht. }
    destruct (Transition_spec reqID StateAssigned StateServing now _ r (so_inflight _ Hok) Hg)
      as (f' & Ht' & Hwf' & Hg'). rewrite Ht in Ht'. destruct (decide (rq_State r = StateAssigned)) as [Ha|]; [|done].
    injection Ht' as <-. destruct Hd as (Hsd & _ & Hd).
    constructor; cbn [fs_state fs_handlers fs_given fs_taken]; [constructor; [done|apply Hok]|done|done|].
    cbn [set_inflight w_mgr mgr_Inflight]. rewrite Hg', decide_True by done. cbn [set_state rq_State].
    rewrite decide_False by done. unfold debts in *. cbn [fs_handlers fs_given fs_taken]. lia.
  - destruct Hi as [Hok Hgv How Hd]. destruct Hs' as [Hok' Hg'].
    constructor; cbn [fs_state fs_handlers fs_given fs_taken]; [done|done|done|].
    change (debts _) with (debts y).
    destruct (Session.Get reqID (inflight (fs_state y))) as [r|], (Session.Get reqID (inflight s')) as [r'|];
      [destruct Hg' as [-> Hst]| |done|done].
    + destruct (decide (rq_State r = StateAssigned)) as [Ha|Ha].
      * destruct Hst as [->|[? _]]; [by rewrite decide_True|congruence].
      * destruct Hst as [->|[_ Ht]]; [by rewrite decide_False|].
        rewrite decide_False; [done|]. intros Hb. by rewrite Hb in Ht.
    + rewrite decide_False in Hd; [done|]. intros Hb. by rewrite Hb in Hg'.
Qed.

Lemma ff_inv_reachable y y' : ff_inv y → rtc (ff_move reqID) y y' → ff_inv y'.
Proof. intros Hi Hr. induction Hr as [|y y1 y2 Hm Hr IH]; [done|]. apply IH. by eapply ff_inv_move. Qed.
End once.

Lemma single_debt (seeder : bytes) y :
  Forall (eq seeder) (fs_given y) → debts y = 1%nat → pending (fs_handlers y) = 0%nat →
  (fs_given y = [seeder] ∧ fs_taken y = 0%nat) ∨ (fs_given y = [] ∧ fs_taken y = 1%nat).
Proof.
  unfold debts. intros Hg Hd Hp. destruct (fs_given y) as [|a [|b l]]; cbn in Hd; [|inv Hg|].
  - right. split; [done|lia].
  - left. split; [done|lia].
  - lia.
Qed.


(** Two operators force-fail the assigned request at once: the second finds it FAILED. *)
Definition wo_id : bytes := replicate 16 Byte.x01.
Definition wo_seeder : bytes := replicate 32 Byte.x05.

Definition wo_state : BState := {|
  w_reg := {| shards := [∅] |};
  w_mgr := {| mgr_Inflight := Insert (witness_request Byte.x01 StateAssigned) NewInflight;
              mgr_Reservations := NewReservations |};
  w_store := empty_store; w_pending := ∅ |}.

Definition wo_forced : BState :=
  (ff_step wo_id 7 (FFForced (Some wo_seeder)) (ff_step wo_id 7 (FFLooked (Some wo_seeder)) wo_state).2).2.

Lemma wo_run :
  rtc (ff_move wo_id) {| fs_state := wo_state; fs_handlers := []; fs_given := []; fs_taken := 0 |}
    {| fs_state := (ff_step wo_id 9 (FFLooked (Some wo_seeder)) wo_forced).2;
       fs_handlers := [FFAnswered true; FFForced None]; fs_given := [wo_seeder]; fs_taken := 0 |}.
Proof.
  eapply rtc_l; [apply ff_arrive|]. eapply rtc_l; [apply ff_arrive|].
  eapply rtc_l; [apply (ff_handler _ _ 0 FFStart 7); reflexivity|].
  eapply rtc_l; [apply (ff_handler _ _ 1 FFStart 7); reflexivity|].
  eapply rtc_l; [apply (ff_handler _ _ 0 (FFLooked (Some wo_seeder)) 7); vm_compute; reflexivity|].
  eapply rtc_l; [apply (ff_handler _ _ 0 (FFForced (Some wo_seeder)) 7); vm_compute; reflexivity|].
  eapply rtc_l; [apply (ff_handler _ _ 1 (FFLooked (Some wo_seeder)) 9); vm_compute; reflexivity|].
  apply rtc_refl.
Qed.

Lemma wo_ok : session_ok wo_state.
Proof. constructor; [apply Insert_wf, NewInflight_wf|apply res_inv_new]. Qed.


(** ** One handler *)

Lemma parseHex16_Encode b : length b = 16%nat → parseHex16 (hex_EncodeToString b) = Some b.
Proof. intros Hl. unfold parseHex16, blen. by rewrite hex_DecodeString_Encode, Hl. Qed.

(** Force-failing an assigned request that nobody else touches: the request is FAILED, the
    load of its seeder is one lower, and its reservation, the ledger and any settlement are
    left as they were. *)
Lemma force_fail_effect now id reqID s r :
  session_ok s → parseHex16 id = Some reqID → Session.Get reqID (inflight s) = Some r →
  rq_State r = StateAssigned → AssignedSeeder r ≠ zeroID →
  let '(resp, s') := handleForceFailInflight now Datatypes.id Datatypes.id id s in
  rs_Code resp = StatusOK ∧ rq_State <$> Session.Get reqID (inflight s') = Some StateFailed ∧
  w_reg s' = snd (DecLoad (AssignedSeeder r) (w_reg s)) ∧
  reservations s' = reservations s ∧ w_store s' = w_store s ∧ w_pending s' = w_pending s.
Proof.
  intros Hok Hid Hg Ha Hz. unfold handleForceFailInflight. rewrite Hid. unfold Datatypes.id.
  destruct (ForceFail_Some reqID now _ r (so_inflight _ Hok) Hg) as (f' & -> & _ & Hg').
  unfold LookupAssignment. rewrite Hg, bool_decide_eq_false_2, Ha, bool_decide_eq_true_2 by done.
  cbn [fst snd rs_Code adminWriteJSON]. split; [done|].
  change (inflight (dec_load (AssignedSeeder r) (set_inflight f' s))) with f'.
  by rewrite Hg', decide_True.
Qed.

(** It undoes what placing the request did to the registry. *)
Lemma force_fail_undoes_placement now id reqID s r m rec :
  session_ok s → parseHex16 id = Some reqID → Session.Get reqID (inflight s) = Some r →
  rq_State r = StateAssigned → AssignedSeeder r ≠ zeroID →
  loads_ok m → m !! AssignedSeeder r = Some rec → reg_rel (w_reg s) (<[AssignedSeeder r := bump rec]> m) →
  reg_rel (w_reg (handleForceFailInflight now Datatypes.id Datatypes.id id s).2) m.
Proof.
  intros Hok Hid Hg Ha Hz Hl Hm Hr.
  pose proof (force_fail_effect now id reqID s r Hok Hid Hg Ha Hz) as He.
  destruct (handleForceFailInflight _ _ _ _ _) as [resp s']. destruct He as (_ & _ & He & _). cbn [snd].
  rewrite He. by eapply dec_undoes_inc.
Qed.

(** A request that is already COMPLETED is turned into a FAILED one, and keeps the time it
    ended at. *)
Lemma force_fail_overwrites_completed now id reqID s r :
  session_ok s → parseHex16 id = Some reqID → Session.Get reqID (inflight s) = Some r →
  rq_State r = StateCompleted → TerminatedAt r ≠ zeroTime →
  let '(resp, s') := handleForceFailInflight now Datatypes.id Datatypes.id id s in
  rs_Code resp = StatusOK ∧ w_reg s' = w_reg s ∧
  Session.Get reqID (inflight s') = Some (set_state StateFailed (TerminatedAt r) r).
Proof.
  intros Hok Hid Hg Ha Hz. unfold handleForceFailInflight. rewrite Hid. unfold Datatypes.id.
  destruct (ForceFail_Some reqID now _ r (so_inflight _ Hok) Hg) as (f' & -> & _ & Hg').
  rewrite Ha, bool_decide_eq_false_2 by done. split; [done|].
  rewrite (proj2 (Z.eqb_neq _ _)) in Hg' by done. specialize (Hg' reqID). rewrite decide_True in Hg' by done.
  by destruct (LookupAssignment reqID (inflight s)) as [[c sd]|].
Qed.

(** The assignment is read before the state is. If the request is placed in between, the
    handler fails an ASSIGNED request and gives nothing back; and a FAILED request is of no
    interest to the reaper or to a report. *)
Lemma early_lookup_leaks now e1 id reqID s r :
  parseHex16 id = Some reqID → LookupAssignment reqID (inflight s) = None →
  session_ok (e1 s) → Session.Get reqID (inflight (e1 s)) = Some r → rq_State r = StateAssigned →
  let s' := (handleForceFailInflight now e1 Datatypes.id id s).2 in
  w_reg s' = w_reg (e1 s) ∧ rq_State <$> Session.Get reqID (inflight s') = Some StateFailed.
Proof.
  intros Hid Hl Hok Hg Ha. unfold handleForceFailInflight. rewrite Hid, Hl. unfold Datatypes.id.
  destruct (ForceFail_Some reqID now _ r (so_inflight _ Hok) Hg) as (f' & -> & _ & Hg').
  split; [done|]. cbn [snd]. change (inflight (set_inflight f' (e1 s))) with f'. by rewrite Hg', decide_True.
Qed.

(** The broker places the request between the two calls. *)
Definition wo_placing : BState :=
  set_inflight (Insert (set_seeder zeroID [] (witness_request Byte.x01 StateSelecting)) NewInflight) wo_state.

Definition wo_place (s : BState) : BState :=
  transition wo_id StateSelecting StateAssigned 5
    (set_inflight (snd (MarkSeeder wo_id wo_seeder [] (inflight s))) s).

Example early_lookup_leaks_example :
  let s' := (handleForceFailInflight 7 wo_place Datatypes.id (hex_EncodeToString wo_id) wo_placing).2 in
  w_reg s' = w_reg wo_placing ∧
  (λ r, (rq_State r, AssignedSeeder r)) <$> Session.Get wo_id (inflight s') = Some (StateFailed, wo_seeder).
Proof. split; [reflexivity|vm_compute; reflexivity]. Qed.

(** ** What the other steps are *)

Lemma sweep_one_kept cutoff acc idl id :
  inflight_wf acc.2 → if_byID acc.2 !! idl.1 = Some idl.2 ∨ if_byID acc.2 !! idl.1 = None →
  let f' := (sweep_one cutoff acc idl).2 in
  inflight_wf f' ∧ if_heap f' = if_heap acc.2 ∧
  (if_byID f' !! id = if_byID acc.2 !! id ∨
   idl.1 = id ∧ if_byID f' !! id = None ∧ ∃ r, if_heap acc.2 !! idl.2 = Some r ∧ terminal (rq_State r) = true).
Proof.
  destruct acc as [swept f], idl as [k l]. cbn. intros Hwf Hin.
  destruct (if_heap f !! l) as [r|] eqn:Hr; [|by split_and!; [| |left]].
  destruct (terminal (rq_State r) && (TerminatedAt r <=? cutoff)) eqn:Ht; [|by split_and!; [| |left]].
  apply andb_true_iff in Ht as [Ht _]. destruct Hwf as [Hh Hi Hx]. cbn. split_and!; [|done|].
  - constructor; cbn; [done| |].
    + intros id' l' Hl. apply lookup_delete_Some in Hl as [_ Hl]. eauto.
    + intros h l' Hl. case_bool_decide; [by eapply Hx|]. apply lookup_delete_Some in Hl as [_ Hl]. by eapply Hx.
  - destruct (decide (k = id)) as [->|Hne]; [right|left; by rewrite lookup_delete_ne].
    split; [done|]. split; [apply lookup_delete_eq|]. by exists r.
Qed.

Lemma SweepTerminal_leaves reqID now ttl s :
  session_ok s → leaves_request reqID s (set_inflight (SweepTerminal now ttl (inflight s)).2 s).
Proof.
  intros Hok. unfold SweepTerminal. set (cutoff := now - ttl).
  assert (∀ l acc, inflight_wf acc.2 → if_heap acc.2 = if_heap (inflight s) →
    (∀ k, if_byID acc.2 !! k = if_byID (inflight s) !! k ∨ if_byID acc.2 !! k = None) →
    Forall (λ kl, if_byID (inflight s) !! kl.1 = Some kl.2) l →
    Session.Get reqID acc.2 = Session.Get reqID (inflight s) ∨
      (Session.Get reqID acc.2 = None ∧ ∃ r, Session.Get reqID (inflight s) = Some r ∧ terminal (rq_State r) = true) →
    let f' := (foldl (sweep_one cutoff) acc l).2 in
    inflight_wf f' ∧ (Session.Get reqID f' = Session.Get reqID (inflight s) ∨
      (Session.Get reqID f' = None ∧ ∃ r, Session.Get reqID (inflight s) = Some r ∧ terminal (rq_State r) = true)))
    as Hgen.
  { induction l as [|[k l] kls IH]; intros acc Hwf Hh Hsub Hall Hg; [done|]. cbn [foldl].
    apply Forall_cons in Hall as [Hk Hall]. cbn in Hk.
    assert (if_byID acc.2 !! k = Some l ∨ if_byID acc.2 !! k = None) as Hin
      by (destruct (Hsub k) as [->|]; [by left|by right]).
    pose proof (λ id, sweep_one_kept cutoff acc (k, l) id Hwf Hin) as Hs. cbn [fst snd] in Hs.
    destruct (Hs reqID) as (Hwf1 & Hh1 & Hid). apply IH; [done|by rewrite Hh1| |done|].
    - intros k'. destruct (Hs k') as (_ & _ & [->|(_ & -> & _)]); [apply Hsub|by right].
    - destruct Hid as [Hid|(-> & Hid & r & Hr & Ht)].
      + unfold Session.Get in *. rewrite Hid. unfold lookup_loc in *. by rewrite Hh1.
      + right. split; [unfold Session.Get; by rewrite Hid|]. exists r. split; [|done].
        unfold Session.Get, lookup_loc. rewrite Hk. cbn. by rewrite <- Hh. }
  destruct (Hgen (map_to_list (if_byID (inflight s))) ([], inflight s)) as [Hwf Hg];
    [apply Hok|done|by left| |by left|].
  { apply Forall_forall. intros [k l] Hin. by apply elem_of_map_to_list in Hin. }
  split; [constructor; [done|apply Hok]|].
  change (inflight (set_inflight ?f s)) with f.
  destruct Hg as [->|[-> (r & -> & Ht)]]; [|done].
  destruct (Session.Get reqID (inflight s)); [|done]. split; [done|by left].
Qed.

(** ** A report that comes too late *)

(** The report's check and its transition are two critical sections. If the request is
    force-failed in between, the transition fails as illegal, that error is dropped, and no
    later step looks at the state: the settlement is opened as for a request being served. *)
Lemma late_report_not_caught `{Crypto} `{Wire} io now l req rp cost s r :
  inflight_wf (inflight s) → Session.Get (rp_RequestId rp) (inflight s) = Some r → rq_State r = StateFailed →
  acceptReport io now l req rp cost s = verifyReport io now l req rp cost s.
Proof.
  intros Hwf Hg Ha. apply Get_Some in Hg as (l' & Hl & Hr).
  unfold acceptReport, Transition, with_request. rewrite Hl, Hr. unfold gbind, gguard.
  rewrite Ha, bool_decide_eq_false_2 by done. cbn. by destruct s as [reg [f res] st p].
Qed.

(** Its end gives the seeder's load back a second time and leaves the request FAILED. *)
Lemma load_given_back_twice now now' id reqID s r l rec r' :
  session_ok s → parseHex16 id = Some reqID → Session.Get reqID (inflight s) = Some r →
  rq_State r = StateAssigned → AssignedSeeder r ≠ zeroID →
  let s1 := (handleForceFailInflight now Datatypes.id Datatypes.id id s).2 in
  if_byID (inflight s1) !! reqID = Some l → if_heap (inflight s1) !! l = Some r' →
  let s2 := (finishAppend None l rec now' s1).2 in
  w_reg s2 = snd (DecLoad (AssignedSeeder r) (snd (DecLoad (AssignedSeeder r) (w_reg s)))) ∧
  rq_State <$> Session.Get reqID (inflight s2) = Some StateFailed.
Proof.
  intros Hok Hid Hg Ha Hz. unfold handleForceFailInflight. rewrite Hid. unfold Datatypes.id.
  destruct (ForceFail_Some reqID now _ r (so_inflight _ Hok) Hg) as (f' & -> & Hwf' & Hg').
  unfold LookupAssignment. rewrite Hg, bool_decide_eq_false_2, Ha, bool_decide_eq_true_2 by done.
  cbn [snd]. change (inflight (dec_load ?i (set_inflight f' s))) with f'. intros Hl Hr'.
  specialize (Hg' reqID). rewrite decide_True in Hg' by done.
  assert (Session.Get reqID f' = Some r') as Hgr by (apply Get_Some; eauto).
  rewrite Hgr in Hg'. injection Hg' as ->. unfold finishAppend.
  change (inflight (dec_load ?i (set_inflight f' s))) with f'. rewrite Hr'.
  cbn [snd AssignedSeeder set_state RequestID]. split; [done|].
  assert (RequestID r = reqID) as Hidr
    by (destruct (wf_byID f' Hwf' _ _ Hl) as (rr & Hrr & <-); rewrite Hr' in Hrr; by injection Hrr as <-).
  rewrite Hidr. set (s3 := dec_load _ (release _ _)).
  change (Session.Get reqID (inflight (transition reqID StateServing StateCompleted now' s3)))
    with (Session.Get reqID (Transition reqID StateServing StateCompleted now' f').2).
  destruct (Transition_spec reqID StateServing StateCompleted now' f' _ Hwf' Hgr) as (f2 & -> & _ & Hg2).
  cbn [snd]. rewrite Hg2, decide_False; [by rewrite Hgr|]. by intros [_ ?].
Qed.

(** ** The reservations an operator sees *)

Definition slots_for (c : bytes) (l : list Reservation) : list Reservation :=
  List.filter (λ slot, bool_decide (rs_ConsumerID slot = c)) l.

(** Every consumer with an open slot is listed once, with its running total and exactly its
    slots. *)
Lemma consumers_of_spec r c :
  consumers_of r !! c =
    match slots_for c (Reservations_Snapshot r) with
    | [] => None
    | l => Some {| cd_ConsumerID := hex_EncodeToString c; cd_Total := Reserved c r; cd_Slots := slot_dto <$> l |}
    end.
Proof.
  unfold consumers_of. induction (Reservations_Snapshot r) as [|slot l IH] using rev_ind; [done|].
  rewrite foldl_app. cbn [foldl]. unfold slots_for in *. rewrite List.filter_app. cbn [List.filter].
  unfold add_slot at 1. cbv zeta. case_bool_decide as Hc.
  - subst c. rewrite lookup_insert_eq. rewrite IH.
    destruct (List.filter _ l) as [|x xs]; cbn; [done|]. by rewrite fmap_app.
  - rewrite lookup_insert_ne by done. rewrite IH, app_nil_r. done.
Qed.

Lemma slots_for_sum c r :
  foldr Z.add 0 (rs_Amount <$> slots_for c (Reservations_Snapshot r)) = slots_sum c r.
Proof.
  unfold slots_sum, Reservations_Snapshot. induction (res_byReq r) as [|k slot m Hm IH] using map_ind.
  { by rewrite msum_empty, map_to_list_empty. }
  rewrite msum_insert_None by done. rewrite <- IH. unfold slots_for, slot_amount.
  assert (∀ l l', l ≡ₚ l' →
    foldr Z.add 0 (rs_Amount <$> List.filter (λ s, bool_decide (rs_ConsumerID s = c)) l) =
    foldr Z.add 0 (rs_Amount <$> List.filter (λ s, bool_decide (rs_ConsumerID s = c)) l')) as Hperm.
  { intros l l' Hp. induction Hp as [|x l l' Hp IHp|x y l|l l' l'' _ IH1 _ IH2]; cbn.
    - done.
    - case_bool_decide; cbn; lia.
    - repeat case_bool_decide; cbn; lia.
    - congruence. }
  erewrite (Hperm _ _ (Permutation_map snd (map_to_list_insert m k slot Hm))). cbn.
  destruct (decide (rs_ConsumerID slot = c)); [rewrite bool_decide_eq_true_2 by done|rewrite bool_decide_eq_false_2 by done]; done.
Qed.

(** Its total is the sum of the amounts shown. *)
Lemma listing_adds_up r c d :
  res_exact r → consumers_of r !! c = Some d →
  cd_ConsumerID d = hex_EncodeToString c ∧ cd_Total d = foldr Z.add 0 (sd_Amount <$> cd_Slots d).
Proof.
  intros Hx. rewrite consumers_of_spec. pose proof (slots_for_sum c r) as Hs.
  destruct (slots_for c (Reservations_Snapshot r)) as [|x l]; [done|]. intros [= <-]. split; [done|].
  cbn [cd_Total cd_Slots]. rewrite (res_exact_Reserved c r Hx), <- Hs. f_equal. cbn. f_equal.
  apply (list_fmap_compose slot_dto sd_Amount l).
Qed.
