(* ===== verification/AdmAdmin.v ===== *)
(** tracker/internal/admission/admin.go and the operator's context of operator_override.go:
    what an operator sees of admission and how each override is put on record.

    A handler's change and the record of it are separate steps of one call; nothing here
    reads a state in between, so a handler is one step. How [encoding/json] prints a value,
    and the two structs it prints by reflection, are parameters; the cause of a failed snapshot is
    left out of its message. *)
From S2P Require Import Prelude Proto Float Signing Registry Heap Credit TLog Replay ReplaySpec AdmQueue Wiring Http BrokerAdmin.
From Stdlib Require Import Floats.SpecFloat.

(** The subsystem: the queue and the supply (AdmQueue.v), the credit state and the log
    (Replay.v), and the blocklist, allocated on first use. *)
Record AdmW := { aw_adm : AdmState; aw_p : PState; aw_blocklist : option (gset bytes) }.

Definition set_adm (a : AdmState) (w : AdmW) : AdmW :=
  {| aw_adm := a; aw_p := aw_p w; aw_blocklist := aw_blocklist w |}.
Definition set_p (p : PState) (w : AdmW) : AdmW :=
  {| aw_adm := aw_adm w; aw_p := p; aw_blocklist := aw_blocklist w |}.
Definition set_blocklist (m : gset bytes) (w : AdmW) : AdmW :=
  {| aw_adm := aw_adm w; aw_p := aw_p w; aw_blocklist := Some m |}.

(** [blocklistAccessor] *)
Definition blocklist (w : AdmW) : gset bytes := default ∅ (aw_blocklist w).

(** Which calls of the operating system fail during a request. *)
Record AdmIO := { ai_tlog : TLogIO; ai_snap : SnapIO }.

Definition operatorIDFromContext (operator : option string) : string :=
  match operator with
  | Some v => if String.eqb v "" then "anonymous" else v
  | None => "anonymous"
  end.

(** The realm is admission's own; its quotes are left out. *)
Definition BasicAuthGuard {W} (next : Handler W) (validator : string → bool) : Handler W := λ req vals w,
  let hdr := rq_Authorization req in
  if negb (String.prefix "Bearer " hdr) || negb (validator (String.substring 7 (String.length hdr) hdr))
  then (Replied {| rs_Code := StatusUnauthorized; rs_Challenge := Some "Bearer realm=admission";
                   rs_Body := BText "unauthorized" |}, w)
  else next req vals w.

Definition parseHexID (s : string) : option bytes := hex32 s.

Section handlers.
Variable cfg : AdmissionConfig.
Variables (math_Exp math_Log2 : spec_float → spec_float) (conv_undef : spec_float → Z).
(** [json.Marshal], [json.Decode] into [{n int}] (no [n] is 0), and the two structs. *)
Variables (json_Marshal : Jv → bytes) (decode_n : bytes → option Z).
Variables (signals_json : Signals → Jv) (seeder_json : SeederHeartbeatState → Jv).
Variables (path : Z → bytes) (io : AdmIO).

Definition mustJSON (v : Jv) : bytes :=
  if encodable v then json_Marshal v else String.list_byte_of_string "{}".

Definition writeJSON (code : Z) (v : Jv) : Resp := write_json code v.

(** ** Reading *)

Definition handleStatus (w : AdmW) : Resp :=
  let snap := Supply (aw_adm w) in
  writeJSON StatusOK (JvObj [
    ("pressure", JvFloat (ss_Pressure snap)); ("supply_total_headroom", JvFloat (ss_TotalHeadroom snap));
    ("queue_depth", JvInt (Len (as_queue (aw_adm w))));
    ("thresholds", JvObj [("admit", JvFloat (ac_PressureAdmitThreshold cfg));
                          ("reject", JvFloat (ac_PressureRejectThreshold cfg))])]).

Definition queueSnapshot (now : Z) (w : AdmW) : list Jv :=
  (λ e, JvObj [("consumer_id", JvStr (hex_EncodeToString (qe_ConsumerID e)));
               ("score", JvFloat (qe_CreditScore e)); ("enqueued_at", JvInt (Unix (qe_EnqueuedAt e)));
               ("effective_priority", JvFloat (EffectivePriority e now (ac_AgingAlphaPerMinute cfg)))])
    <$> qh_entries (as_queue (aw_adm w)).

Definition handleQueueList (now : Z) (w : AdmW) : Resp := writeJSON StatusOK (JvArr (queueSnapshot now w)).

Definition handleConsumer (now : Z) (id : string) (w : AdmW) : Resp :=
  match parseHexID id with
  | None => http_Error "bad id" StatusBadRequest
  | Some id =>
    match sh_get id (p_consumers (aw_p w)) with
    | None => not_found
    | Some st =>
      let '(score, signals) := ComputeLocalScore math_Exp math_Log2 conv_undef cfg (Some st) now in
      writeJSON StatusOK (JvObj [("signals", signals_json signals); ("score", JvFloat score)])
    end
  end.

Definition handleSeeder (id : string) (w : AdmW) : Resp :=
  match parseHexID id with
  | None => http_Error "bad id" StatusBadRequest
  | Some id =>
    match sh_get id (p_seeders (aw_p w)) with
    | None => not_found
    | Some st => writeJSON StatusOK (seeder_json st)
    end
  end.

(** The order of [sort.Strings]. *)
Definition handleBlocklistList (w : AdmW) : Resp :=
  writeJSON StatusOK (JvArr (JvStr <$> stable_sort String.ltb (hex_EncodeToString <$> elements (blocklist w)))).

(** ** Overriding *)

(** The record of the override, and the answer that depends on it. *)
Definition on_record (req : HttpRequest) (action : string) (params : bytes) (ok : Jv) (w : AdmW)
    : Outcome * AdmW :=
  let operator := String.list_byte_of_string (operatorIDFromContext (rq_Operator req)) in
  match writeOperatorOverride (ai_tlog io) operator (String.list_byte_of_string action) params (rq_Now req) (aw_p w) with
  | (Some _, p) => (Replied (http_Error "tlog write failed" StatusInternalServerError), set_p p w)
  | (None, p) => (Replied (writeJSON StatusOK ok), set_p p w)
  end.

Definition handleQueueDrain : Handler AdmW := λ req _ w,
  match decode_n (rq_Body req) with
  | None => (Replied (http_Error "bad body" StatusBadRequest), w)
  | Some n =>
    match drainTopN n (as_queue (aw_adm w)) with
    | None => (Aborted, w)
    | Some (drained, q) =>
      on_record req "queue/drain" (mustJSON (JvObj [("n", JvInt n)]))
        (JvObj [("drained", JvArr ((λ e, JvStr (hex_EncodeToString (qe_ConsumerID e))) <$> drained))])
        (set_adm (set_queue q (aw_adm w)) w)
    end
  end.

Definition handleQueueEject : Handler AdmW := λ req vals w,
  let reqID := path_value vals in
  let '(ejected, q) := ejectQueue reqID (as_queue (aw_adm w)) in
  on_record req "queue/eject" (mustJSON (JvObj [("request_id", JvStr reqID)]))
    (JvObj [("ejected", JvInt ejected)]) (set_adm (set_queue q (aw_adm w)) w).

Definition handleSnapshotForce : Handler AdmW := λ req _ w,
  match runSnapshotEmitOnce (ac_SnapshotsRetained cfg) path (ai_snap io) (ai_tlog io) (rq_Now req) (aw_p w) with
  | (Some _, p) => (Replied (http_Error "snapshot emit failed" StatusInternalServerError), set_p p w)
  | (None, p) =>
    on_record req "snapshot" (String.list_byte_of_string "{}") (JvObj [("ok", JvBool true)]) (set_p p w)
  end.

Definition handleRecompute : Handler AdmW := λ req vals w,
  let cid := path_value vals in
  match parseHexID cid with
  | None => (Replied (http_Error "bad consumer_id" StatusBadRequest), w)
  | Some id =>
    match sh_get id (p_consumers (aw_p w)) with
    | None => (Replied not_found, w)
    | Some _ =>
      on_record req "recompute" (mustJSON (JvObj [("consumer_id", JvStr cid)])) (JvObj [("queued", JvBool true)]) w
    end
  end.

Definition handleBlocklistAdd : Handler AdmW := λ req vals w,
  let pid := path_value vals in
  match parseHexID pid with
  | None => (Replied (http_Error "bad peer_id" StatusBadRequest), w)
  | Some id =>
    on_record req "peers/blocklist/add" (mustJSON (JvObj [("peer_id", JvStr pid)])) (JvObj [("ok", JvBool true)])
      (set_blocklist ({[id]} ∪ blocklist w) w)
  end.

Definition handleBlocklistRemove : Handler AdmW := λ req vals w,
  let pid := path_value vals in
  match parseHexID pid with
  | None => (Replied (http_Error "bad peer_id" StatusBadRequest), w)
  | Some id =>
    on_record req "peers/blocklist/remove" (mustJSON (JvObj [("peer_id", JvStr pid)])) (JvObj [("ok", JvBool true)])
      (set_blocklist (blocklist w ∖ {[id]}) w)
  end.

(** [RegisterMux], behind a guard; no guard lets everything through. The handlers are methods
    of a subsystem that is part of a larger state, [W]. *)
Definition RegisterMux {W} (part : Handler AdmW → Handler W) (guard : option (Handler W → Handler W))
    : list (Route W) :=
  let guard h := default (λ h, h) guard (part h) in
  let adm segs := Lit "admission" :: segs in
  [ {| rt_Method := "GET"; rt_Segs := adm [Lit "status"]; rt_Subtree := false;
       rt_Handler := guard (reads (λ _ _ w, handleStatus w)) |};
    {| rt_Method := "GET"; rt_Segs := adm [Lit "queue"]; rt_Subtree := false;
       rt_Handler := guard (reads (λ req _ w, handleQueueList (rq_Now req) w)) |};
    {| rt_Method := "GET"; rt_Segs := adm [Lit "consumer"; Wild]; rt_Subtree := false;
       rt_Handler := guard (reads (λ req vals w, handleConsumer (rq_Now req) (path_value vals) w)) |};
    {| rt_Method := "GET"; rt_Segs := adm [Lit "seeder"; Wild]; rt_Subtree := false;
       rt_Handler := guard (reads (λ _ vals w, handleSeeder (path_value vals) w)) |};
    {| rt_Method := "POST"; rt_Segs := adm [Lit "queue"; Lit "drain"]; rt_Subtree := false;
       rt_Handler := guard handleQueueDrain |};
    {| rt_Method := "POST"; rt_Segs := adm [Lit "queue"; Lit "eject"; Wild]; rt_Subtree := false;
       rt_Handler := guard handleQueueEject |};
    {| rt_Method := "POST"; rt_Segs := adm [Lit "snapshot"]; rt_Subtree := false;
       rt_Handler := guard handleSnapshotForce |};
    {| rt_Method := "POST"; rt_Segs := adm [Lit "recompute"; Wild]; rt_Subtree := false;
       rt_Handler := guard handleRecompute |};
    {| rt_Method := "GET"; rt_Segs := adm [Lit "peers"; Lit "blocklist"]; rt_Subtree := false;
       rt_Handler := guard (reads (λ _ _ w, handleBlocklistList w)) |};
    {| rt_Method := "POST"; rt_Segs := adm [Lit "peers"; Lit "blocklist"; Wild]; rt_Subtree := false;
       rt_Handler := guard handleBlocklistAdd |};
    {| rt_Method := "DELETE"; rt_Segs := adm [Lit "peers"; Lit "blocklist"; Wild]; rt_Subtree := false;
       rt_Handler := guard handleBlocklistRemove |} ].
End handlers.

(** ** Properties *)

Section audit.
Variable cfg : AdmissionConfig.
Variables (json_Marshal : Jv → bytes) (decode_n : bytes → option Z) (path : Z → bytes) (io : AdmIO).

(** From [p] to [p'], one record of an operator's override went through the log's writer,
    with the next number. *)
Definition recorded (req : HttpRequest) (action : string) (params : bytes) (p p' : PState) : Prop :=
  ∃ wr wr', p_tlog p = Some wr ∧
    Append tlogRotationBytes (ai_tlog io)
      {| tl_Seq := u64 (p_nextSeq p + 1); tl_Ts := u64 (Unix (rq_Now req)); tl_Kind := TLogKindOperatorOverride;
         tl_Payload := marshalOperatorOverridePayload {|
           oo_OperatorID := String.list_byte_of_string (operatorIDFromContext (rq_Operator req));
           oo_Action := String.list_byte_of_string action; oo_Params := params; oo_Ts := Unix (rq_Now req) |} |} wr
      = (Ok tt, wr') ∧
    p_tlog p' = Some wr' ∧ p_nextSeq p' = u64 (p_nextSeq p + 1).

Lemma on_record_spec req action params ok w :
  let '(out, w') := on_record io req action params ok w in
  aw_adm w' = aw_adm w ∧ aw_blocklist w' = aw_blocklist w ∧
  (out = Replied (writeJSON StatusOK ok) ∨
   out = Replied (http_Error "tlog write failed" StatusInternalServerError)) ∧
  (code_of out = Some StatusOK → is_Some (p_tlog (aw_p w)) → recorded req action params (aw_p w) (aw_p w')).
Proof.
  unfold on_record, writeOperatorOverride.
  destruct (p_tlog (aw_p w)) as [wr|] eqn:Ew.
  2:{ split_and!; [done|done|by left|]. intros _ [x Hx]. done. }
  unfold tlogAppend. change (p_tlog (set_nextSeq _ (aw_p w))) with (p_tlog (aw_p w)). rewrite Ew.
  destruct (Append _ _ _ _) as [[[]|e] wr'] eqn:Ea; cbn [fst snd].
  - split_and!; [done|done|by left|]. intros _ _. by exists wr, wr'.
  - split_and!; [done|done|by right|]. cbn. discriminate.
Qed.

(** An override is answered with success only once it is on record, and the record says
    what was asked. *)
Lemma drain_on_record req vals w :
  let '(out, w') := handleQueueDrain json_Marshal decode_n io req vals w in
  code_of out = Some StatusOK → is_Some (p_tlog (aw_p w)) →
  ∃ n es q, decode_n (rq_Body req) = Some n ∧ drainTopN n (as_queue (aw_adm w)) = Some (es, q) ∧
    aw_adm w' = set_queue q (aw_adm w) ∧
    out = Replied (writeJSON StatusOK
      (JvObj [("drained", JvArr ((λ e, JvStr (hex_EncodeToString (qe_ConsumerID e))) <$> es))])) ∧
    recorded req "queue/drain" (mustJSON json_Marshal (JvObj [("n", JvInt n)])) (aw_p w) (aw_p w').
Proof.
  unfold handleQueueDrain. destruct (decode_n (rq_Body req)) as [n|]; [|done].
  destruct (drainTopN n _) as [[es q]|] eqn:Ed; [|done].
  pose proof (on_record_spec req "queue/drain" (mustJSON json_Marshal (JvObj [("n", JvInt n)]))
    (JvObj [("drained", JvArr ((λ e, JvStr (hex_EncodeToString (qe_ConsumerID e))) <$> es))])
    (set_adm (set_queue q (aw_adm w)) w)) as Hs.
  destruct (on_record _ _ _ _ _ _) as [out w']. destruct Hs as (Ha & _ & Ho & Hr). intros Hc Ht.
  exists n, es, q. split_and!; [done|done|done| |by apply Hr]. destruct Ho as [->| ->]; [done|discriminate Hc].
Qed.

(** If the record cannot be written the requests are gone all the same: the answer is an
    error that names none of them. *)
Lemma drain_unrecorded_still_drains req vals w wr n es q e :
  decode_n (rq_Body req) = Some n → drainTopN n (as_queue (aw_adm w)) = Some (es, q) →
  p_tlog (aw_p w) = Some wr → (∀ r, (Append tlogRotationBytes (ai_tlog io) r wr).1 = Err e) →
  let '(out, w') := handleQueueDrain json_Marshal decode_n io req vals w in
  out = Replied (http_Error "tlog write failed" StatusInternalServerError) ∧
  as_queue (aw_adm w') = q ∧ qh_entries (as_queue (aw_adm w)) ≡ₚ es ++ qh_entries q.
Proof.
  intros Hn Hd Hw He. unfold handleQueueDrain. rewrite Hn, Hd. unfold on_record, writeOperatorOverride.
  cbn [set_adm aw_p]. rewrite Hw. unfold tlogAppend.
  change (p_tlog (set_nextSeq _ (aw_p w))) with (p_tlog (aw_p w)). rewrite Hw.
  specialize (He {| tl_Seq := u64 (p_nextSeq (aw_p w) + 1); tl_Ts := u64 (Unix (rq_Now req));
    tl_Kind := TLogKindOperatorOverride;
    tl_Payload := marshalOperatorOverridePayload {|
      oo_OperatorID := String.list_byte_of_string (operatorIDFromContext (rq_Operator req));
      oo_Action := String.list_byte_of_string "queue/drain";
      oo_Params := mustJSON json_Marshal (JvObj [("n", JvInt n)]); oo_Ts := Unix (rq_Now req) |} |}).
  destruct (Append _ _ _ _) as [r wr']. cbn in He. subst r. split; [done|]. split; [done|].
  unfold drainTopN in Hd. destruct (n <? 0); [done|]. injection Hd as Hd. by apply drain_perm in Hd.
Qed.

(** A body with a negative [n] aborts the connection and changes nothing. *)
Lemma drain_negative_aborts req vals w n :
  decode_n (rq_Body req) = Some n → n < 0 →
  handleQueueDrain json_Marshal decode_n io req vals w = (Aborted, w).
Proof.
  intros Hn Hneg. unfold handleQueueDrain, drainTopN. rewrite Hn. by rewrite (proj2 (Z.ltb_lt _ _)).
Qed.

(** The two handlers of the queue are the steps [admission_queue_accounted] ranges over. *)
Lemma drain_is_a_queue_step req vals w n :
  decode_n (rq_Body req) = Some n →
  aw_adm (handleQueueDrain json_Marshal decode_n io req vals w).2 = (queue_step cfg (OpDrain n) (aw_adm w)).2.
Proof.
  intros Hn. unfold handleQueueDrain. rewrite Hn. cbn [queue_step].
  destruct (drainTopN n _) as [[es q]|]; [|done].
  match goal with |- aw_adm (on_record io req ?a ?p ?o ?x).2 = _ => pose proof (on_record_spec req a p o x) as Hs end.
  destruct (on_record _ _ _ _ _ _) as [out w']. destruct Hs as (Hs & _). exact Hs.
Qed.

Lemma eject_is_a_queue_step req vals w :
  aw_adm (handleQueueEject json_Marshal io req vals w).2 =
    (queue_step cfg (OpEject (path_value vals)) (aw_adm w)).2.
Proof.
  unfold handleQueueEject. cbn [queue_step]. destruct (ejectQueue _ _) as [k q].
  match goal with |- aw_adm (on_record io req ?a ?p ?o ?x).2 = _ => pose proof (on_record_spec req a p o x) as Hs end.
  destruct (on_record _ _ _ _ _ _) as [out w']. destruct Hs as (Hs & _). exact Hs.
Qed.

(** The blocklist shows the peers added and not removed since. *)
Lemma blocklist_after req vals w id :
  parseHexID (path_value vals) = Some id →
  blocklist (handleBlocklistAdd json_Marshal io req vals w).2 = {[id]} ∪ blocklist w ∧
  blocklist (handleBlocklistRemove json_Marshal io req vals w).2 = blocklist w ∖ {[id]}.
Proof.
  intros Hid. assert (∀ a p o x, blocklist (on_record io req a p o x).2 = blocklist x) as Hb.
  { intros a p o x. pose proof (on_record_spec req a p o x) as Hs.
    destruct (on_record _ _ _ _ _ _) as [out w']. destruct Hs as (_ & Hs & _). unfold blocklist. by rewrite <- Hs. }
  unfold handleBlocklistAdd, handleBlocklistRemove. rewrite Hid, !Hb. done.
Qed.

(** An override takes its place among the events: what a restart reads back is unchanged. *)
Lemma on_record_prun s0 logged acked req action params ok w wr :
  let p := {| oo_OperatorID := String.list_byte_of_string (operatorIDFromContext (rq_Operator req));
              oo_Action := String.list_byte_of_string action; oo_Params := params; oo_Ts := Unix (rq_Now req) |} in
  let rec := {| tl_Seq := p_nextSeq (aw_p w) + 1; tl_Ts := u64 (Unix (rq_Now req));
                tl_Kind := TLogKindOperatorOverride; tl_Payload := marshalOperatorOverridePayload p |} in
  prun s0 (aw_p w) logged acked → p_tlog (aw_p w) = Some wr → p_nextSeq (aw_p w) + 1 < 2 ^ 64 →
  time_ok (rq_Now req) → rec_ok_cut (ai_tlog io) rec → blen (tl_Payload rec) + 21 < 2 ^ 32 →
  prun s0 (aw_p (on_record io req action params ok w).2) logged acked.
Proof.
  intros p rec Hr Hw Hn Ht Hc Hb. unfold on_record.
  pose proof (prun_override s0 (aw_p w) wr logged acked (ai_tlog io)
    (String.list_byte_of_string (operatorIDFromContext (rq_Operator req)))
    (String.list_byte_of_string action) params (rq_Now req) Hr Hw Hn Ht Hc Hb) as Hp.
  by destruct (writeOperatorOverride _ _ _ _ _ _) as [[e|] p'].
Qed.
End audit.

(** The reading handlers print what they find, and a pressure that is not a number leaves
    the answer without a body. *)
Lemma status_without_body cfg w :
  finite (ss_Pressure (Supply (aw_adm w))) = false →
  handleStatus cfg w = {| rs_Code := StatusOK; rs_Challenge := None; rs_Body := BEmpty |}.
Proof. intros Hf. unfold handleStatus, writeJSON, write_json. cbn. by rewrite Hf. Qed.
