(* ===== verification/Admin.v ===== *)
(** tracker/internal/admin, with the admin half of cmd/token-bay-tracker: the bearer guard,
    the routes, the core handlers and how the composition root connects them to the
    subsystems.

    The handlers see the subsystems through interfaces ([PeerCounter], [LedgerView],
    [FederationView] and the others), which are records of functions on a state [W]; the
    interfaces the code may leave nil are options. A nil slice prints as null and an empty one
    as []; the two are not told apart.
    The messages leave out byte counts and the text of [encoding/hex]'s errors. [encoding/json]'s decoding into the
    three request structs and RFC 3339 are parameters. *)
From S2P Require Import Prelude Proto Signing Float Storage Ledger Session Registry Credit TLog Replay AdmQueue.
From S2P Require Import Reputation ReputationSpec EvaluatorSpec FreezeSpec Broker Wiring Http BrokerAdmin AdmAdmin.
From Stdlib Require Import Floats.SpecFloat.

(** ** The guard: auth.go *)

Definition HasPrefix (s prefix : string) : bool := String.prefix prefix s.
Definition TrimPrefix (s prefix : string) : string :=
  if String.prefix prefix s then String.substring (String.length prefix) (String.length s) s else s.

(** The realm's quotes are left out. *)
Definition unauthorized : Resp := {|
  rs_Code := StatusUnauthorized; rs_Challenge := Some "Bearer realm=tracker-admin"; rs_Body := BText "unauthorized" |}.

Definition authorized (validate : option (string → bool)) (req : HttpRequest) : bool :=
  match validate with
  | None => false
  | Some f => HasPrefix (rq_Authorization req) "Bearer " && f (TrimPrefix (rq_Authorization req) "Bearer ")
  end.

Definition bearerGuard {W} (validate : option (string → bool)) (next : Handler W) : Handler W := λ req vals w,
  if negb (authorized validate req) then (Replied unauthorized, w) else next req vals w.

(** ** Interfaces: server.go, federation.go *)

Record PeerSummary := {
  ps_TrackerID : bytes; ps_PubKey : bytes; ps_Addr : string; ps_Region : string; ps_State : string;
  ps_Since : Z; ps_HealthScore : spec_float
}.

Record PeerAddRequest := { pa_TrackerID : bytes; pa_PubKey : bytes; pa_Addr : string; pa_Region : string }.

Inductive FedViewErr := ErrPeerExists | ErrPeerUnknown | ErrFedOther (msg : string).

Record FederationView (W : Type) := {
  fv_Peers : W → list PeerSummary;
  fv_AddPeer : PeerAddRequest → W → option FedViewErr * W;
  fv_Depeer : bytes → W → option FedViewErr * W;
  fv_ListenAddr : W → string
}.

Record FederationActions (W : Type) := {
  fa_ClearEquivocation : string → W → (bool + string) * W;
  fa_IssueTransferReversal : string → string → string → W → (bytes + string) * W
}.

Record ReputationActions (W : Type) := {
  ra_Freeze : Z → string → string → W → error * W;
  ra_Unfreeze : Z → string → string → W → error * W
}.

#[global] Arguments fv_Peers {_} _ _.
#[global] Arguments fv_AddPeer {_} _ _ _.
#[global] Arguments fv_Depeer {_} _ _ _.
#[global] Arguments fv_ListenAddr {_} _ _.
#[global] Arguments fa_ClearEquivocation {_} _ _ _.
#[global] Arguments fa_IssueTransferReversal {_} _ _ _ _ _.
#[global] Arguments ra_Freeze {_} _ _ _ _ _.
#[global] Arguments ra_Unfreeze {_} _ _ _ _ _.

(** What [New] asks for is not an option; the clock of a request is its [rq_Now]. *)
Record Deps (W : Type) := {
  d_MerkleRootIntervalMin : Z;
  d_Version : string;
  d_TokenValidator : option (string → bool);
  d_PeerCount : W → Z;
  d_RegistryGet : bytes → W → option SeederRecord;
  d_Tip : W → res string (option (Z * bytes));
  d_SignedBalance : bytes → Z → W → res string (option SignedBalanceSnapshot);
  d_Federation : option (FederationView W);
  d_BrokerMux : option (Handler W);
  d_AdmissionMount : option ((Handler W → Handler W) → list (Route W));
  d_TriggerMaintenance : W → W;
  d_FederationActions : option (FederationActions W);
  d_Reputation : option (ReputationActions W)
}.

#[global] Arguments d_MerkleRootIntervalMin {_} _.
#[global] Arguments d_Version {_} _.
#[global] Arguments d_TokenValidator {_} _.
#[global] Arguments d_PeerCount {_} _ _.
#[global] Arguments d_RegistryGet {_} _ _ _.
#[global] Arguments d_Tip {_} _ _.
#[global] Arguments d_SignedBalance {_} _ _ _ _.
#[global] Arguments d_Federation {_} _.
#[global] Arguments d_BrokerMux {_} _.
#[global] Arguments d_AdmissionMount {_} _.
#[global] Arguments d_TriggerMaintenance {_} _ _.
#[global] Arguments d_FederationActions {_} _.
#[global] Arguments d_Reputation {_} _.

(** ** Request bodies *)

Record peersAddBody := { pb_TrackerID : string; pb_PubKey : string; pb_Addr : string; pb_Region : string }.
Record peersRemoveBody := { pr_TrackerID : string }.
Record reversalBody := { rv_SourceTrackerID : string; rv_Nonce : string; rv_Evidence : string }.

(** [json.NewDecoder(r.Body).Decode], and [time.Format] of the UTC time. *)
Class AdminText := {
  decode_add : bytes → res string peersAddBody;
  decode_remove : bytes → res string peersRemoveBody;
  decode_reversal : bytes → res string reversalBody;
  rfc3339 : Z → string
}.

(** ** Helpers: helpers.go *)

Definition adm_writeJSON (code : Z) (v : Jv) : Resp := write_json code v.

Definition writeError (code : Z) (msg : string) : Resp := write_json code (JvObj [("error", JvStr msg)]).

Definition parseHexID (s : string) : res string bytes :=
  match hex_DecodeString s with
  | None => Err "encoding/hex"
  | Some b => if negb (blen b =? 32) then Err "expected 32 bytes" else Ok b
  end.

Definition parseHexTrackerID (s : string) : res string bytes :=
  if String.eqb s "" then Err "required" else parseHexID s.

(** ** The core handlers: handlers.go *)

Section handlers.
Context `{AdminText} {W : Type}.
Variable d : Deps W.

Definition handleHealth (req : HttpRequest) : Resp :=
  adm_writeJSON StatusOK (JvObj [("status", JvStr "ok"); ("version", JvStr (d_Version d));
                                 ("time", JvStr (rfc3339 (rq_Now req)))]).

Definition handleStats (w : W) : Resp :=
  match d_Tip d w with
  | Err e => writeError StatusInternalServerError ("ledger tip: " +:+ e)
  | Ok tip =>
    let ledger := match tip with
                  | Some (tipSeq, tipHash) => [("tip_seq", JvInt tipSeq); ("tip_hash", JvStr (hex_EncodeToString tipHash))]
                  | None => [("tip_seq", JvNull); ("tip_hash", JvNull)]
                  end in
    adm_writeJSON StatusOK (JvObj [
      ("connections", JvInt (d_PeerCount d w)); ("ledger", JvObj ledger);
      ("merkle_root_minutes", JvInt (d_MerkleRootIntervalMin d)); ("broker_reqs_per_sec", JvNull)])
  end.

Definition peer_row (p : PeerSummary) : Jv := JvObj (
  [("tracker_id", JvStr (hex_EncodeToString (ps_TrackerID p))); ("pubkey", JvStr (hex_EncodeToString (ps_PubKey p)));
   ("addr", JvStr (ps_Addr p)); ("region", JvStr (ps_Region p)); ("state", JvStr (ps_State p));
   ("health_score", JvFloat (ps_HealthScore p))]
  ++ if ps_Since p =? zeroTime then [] else [("since", JvStr (rfc3339 (ps_Since p)))]).

Definition handlePeers (w : W) : Resp :=
  match d_Federation d with
  | None =>
    adm_writeJSON StatusOK (JvObj [("peers", JvArr []); ("connected_quic", JvInt (d_PeerCount d w));
                                   ("federation_state", JvStr "disabled")])
  | Some fed =>
    adm_writeJSON StatusOK (JvObj [("peers", JvArr (peer_row <$> fv_Peers fed w));
                                   ("connected_quic", JvInt (d_PeerCount d w));
                                   ("federation_state", JvStr "enabled");
                                   ("listen_addr", JvStr (fv_ListenAddr fed w))])
  end.

Definition federation_not_configured : Resp := writeError StatusNotImplemented "federation subsystem not configured".

(** The text of an error of the federation. *)
Definition fed_text (e : FedViewErr) : string :=
  match e with
  | ErrPeerExists => "admin: peer already registered"
  | ErrPeerUnknown => "admin: peer unknown"
  | ErrFedOther msg => msg
  end.

Definition handlePeersAdd (req : HttpRequest) (w : W) : Resp * W :=
  match d_Federation d with
  | None => (federation_not_configured, w)
  | Some fed =>
    match decode_add (rq_Body req) with
    | Err e => (writeError StatusBadRequest ("bad json: " +:+ e), w)
    | Ok body =>
      match parseHexTrackerID (pb_TrackerID body) with
      | Err e => (writeError StatusBadRequest ("tracker_id: " +:+ e), w)
      | Ok tid =>
        match hex_DecodeString (pb_PubKey body) with
        | None => (writeError StatusBadRequest "pubkey: encoding/hex", w)
        | Some pk =>
          if negb (blen pk =? 32) then (writeError StatusBadRequest "pubkey must be 32 bytes", w)
          else if String.eqb (pb_Addr body) "" then (writeError StatusBadRequest "addr required", w)
          else
            match fv_AddPeer fed {| pa_TrackerID := tid; pa_PubKey := pk; pa_Addr := pb_Addr body;
                                    pa_Region := pb_Region body |} w with
            | (Some ErrPeerExists, w) => (writeError StatusConflict "peer already registered", w)
            | (Some e, w) => (writeError StatusInternalServerError ("add peer: " +:+ fed_text e), w)
            | (None, w) =>
              (adm_writeJSON StatusAccepted (JvObj [("tracker_id", JvStr (pb_TrackerID body));
                                                    ("state", JvStr "pending")]), w)
            end
        end
      end
    end
  end.

Definition handlePeersRemove (req : HttpRequest) (w : W) : Resp * W :=
  match d_Federation d with
  | None => (federation_not_configured, w)
  | Some fed =>
    match decode_remove (rq_Body req) with
    | Err e => (writeError StatusBadRequest ("bad json: " +:+ e), w)
    | Ok body =>
      match parseHexTrackerID (pr_TrackerID body) with
      | Err e => (writeError StatusBadRequest ("tracker_id: " +:+ e), w)
      | Ok tid =>
        match fv_Depeer fed tid w with
        | (Some ErrPeerUnknown, w) => (writeError StatusNotFound "peer unknown", w)
        | (Some e, w) => (writeError StatusInternalServerError ("depeer: " +:+ fed_text e), w)
        | (None, w) =>
          (adm_writeJSON StatusOK (JvObj [("tracker_id", JvStr (pr_TrackerID body)); ("depeered", JvBool true)]), w)
        end
      end
    end
  end.

Definition seeder_info (rec : SeederRecord) : Jv := JvObj [
  ("available", JvBool (sr_Available rec)); ("headroom_estimate", JvFloat (sr_HeadroomEstimate rec));
  ("reputation_score", JvFloat (sr_ReputationScore rec)); ("load", JvInt (sr_Load rec));
  ("last_heartbeat", JvStr (rfc3339 (sr_LastHeartbeat rec)));
  ("models", JvArr (JvStr <$> cap_Models (sr_Capabilities rec)))].

Definition balance_info (b : BalanceSnapshotBody) : Jv := JvObj [
  ("credits", JvInt (bs_Credits b)); ("chain_tip_seq", JvInt (bs_ChainTipSeq b));
  ("issued_at", JvInt (bs_IssuedAt b)); ("expires_at", JvInt (bs_ExpiresAt b))].

Definition handleIdentity (req : HttpRequest) (vals : list string) (w : W) : Resp :=
  match parseHexID (path_value vals) with
  | Err e => writeError StatusBadRequest ("bad id: " +:+ e)
  | Ok id =>
    let out := [("identity_id", JvStr (hex_EncodeToString id))] in
    let '(known, out) := match d_RegistryGet d id w with
                         | Some rec => (true, out ++ [("seeder", seeder_info rec)])
                         | None => (false, out)
                         end in
    let '(known, out) := match d_SignedBalance d id (rq_Now req) w with
                         | Ok (Some bal) =>
                           match sbs_Body bal with
                           | Some b => (true, out ++ [("balance", balance_info b)])
                           | None => (known, out)
                           end
                         | Ok None => (known, out)
                         | Err e => (known, if known : bool then out ++ [("balance_error", JvStr e)] else out)
                         end in
    if negb known then writeError StatusNotFound "identity not found"
    else adm_writeJSON StatusOK (JvObj out)
  end.

Definition reputation_not_configured : Resp := writeError StatusNotImplemented "reputation subsystem not configured".

Definition handleFreeze (req : HttpRequest) (vals : list string) (w : W) : Resp * W :=
  match d_Reputation d with
  | None => (reputation_not_configured, w)
  | Some rep =>
    let idHex := path_value vals in
    if String.eqb idHex "" then (writeError StatusBadRequest "missing identity id", w) else
    match ra_Freeze rep (rq_Now req) idHex "admin" w with
    | (Some e, w) => (writeError StatusBadRequest ("freeze: " +:+ e), w)
    | (None, w) => (adm_writeJSON StatusAccepted (JvObj [("identity_id", JvStr idHex); ("frozen", JvBool true)]), w)
    end
  end.

Definition handleUnfreeze (req : HttpRequest) (vals : list string) (w : W) : Resp * W :=
  match d_Reputation d with
  | None => (reputation_not_configured, w)
  | Some rep =>
    let idHex := path_value vals in
    if String.eqb idHex "" then (writeError StatusBadRequest "missing identity id", w) else
    match ra_Unfreeze rep (rq_Now req) idHex "admin" w with
    | (Some e, w) => (writeError StatusBadRequest ("unfreeze: " +:+ e), w)
    | (None, w) => (adm_writeJSON StatusAccepted (JvObj [("identity_id", JvStr idHex); ("frozen", JvBool false)]), w)
    end
  end.

(** [TriggerMaintenance] runs in a goroutine of its own; it is taken to run at once. *)
Definition handleMaintenance (w : W) : Resp * W :=
  (adm_writeJSON StatusAccepted (JvObj [("draining", JvBool true)]), d_TriggerMaintenance d w).

Definition handleClearEquivocation (fa : FederationActions W) (vals : list string) (w : W) : Resp * W :=
  let idHex := path_value vals in
  if String.eqb idHex "" then (writeError StatusBadRequest "missing tracker id", w) else
  match fa_ClearEquivocation fa idHex w with
  | (inr e, w) => (writeError StatusBadRequest ("clear equivocation: " +:+ e), w)
  | (inl cleared, w) =>
    (adm_writeJSON StatusOK (JvObj [("cleared", JvBool cleared); ("tracker_id", JvStr idHex)]), w)
  end.

Definition handleTransferReversal (fa : FederationActions W) (req : HttpRequest) (w : W) : Resp * W :=
  match decode_reversal (rq_Body req) with
  | Err e => (writeError StatusBadRequest ("decode body: " +:+ e), w)
  | Ok body =>
    if String.eqb (rv_SourceTrackerID body) "" || String.eqb (rv_Nonce body) ""
    then (writeError StatusBadRequest "source_tracker_id and nonce required", w)
    else
      match fa_IssueTransferReversal fa (rv_SourceTrackerID body) (rv_Nonce body) (rv_Evidence body) w with
      | (inr e, w) => (writeError StatusBadRequest ("issue reversal: " +:+ e), w)
      | (inl payload, w) =>
        (adm_writeJSON StatusAccepted (JvObj [
           ("issued", JvBool true); ("source_tracker_id", JvStr (rv_SourceTrackerID body));
           ("nonce", JvStr (rv_Nonce body)); ("payload_bytes", JvInt (blen payload))]), w)
      end
  end.

(** ** The routes *)

Definition guard : Handler W → Handler W := bearerGuard (d_TokenValidator d).

Definition route (method : string) (segs : list Seg) (h : Handler W) : Route W :=
  {| rt_Method := method; rt_Segs := segs; rt_Subtree := false; rt_Handler := guard h |}.

Definition buildMux : list (Route W) :=
  [ route "GET" [Lit "health"] (reads (λ req _ _, handleHealth req));
    route "GET" [Lit "stats"] (reads (λ _ _ w, handleStats w));
    route "GET" [Lit "peers"] (reads (λ _ _ w, handlePeers w));
    route "POST" [Lit "peers"; Lit "add"] (writes (λ req _ w, handlePeersAdd req w));
    route "POST" [Lit "peers"; Lit "remove"] (writes (λ req _ w, handlePeersRemove req w));
    route "GET" [Lit "identity"; Wild] (reads handleIdentity);
    route "POST" [Lit "identity"; Wild; Lit "freeze"] (writes handleFreeze);
    route "POST" [Lit "identity"; Wild; Lit "unfreeze"] (writes handleUnfreeze);
    route "POST" [Lit "maintenance"] (writes (λ _ _ w, handleMaintenance w)) ]
  ++ match d_BrokerMux d with
     | Some h => [ {| rt_Method := ""; rt_Segs := [Lit "broker"]; rt_Subtree := true; rt_Handler := guard h |} ]
     | None => []
     end
  ++ match d_AdmissionMount d with Some mount => mount guard | None => [] end
  ++ match d_FederationActions d with
     | Some fa =>
       [ route "POST" [Lit "federation"; Lit "peers"; Wild; Lit "clear_equivocation"]
           (writes (λ _ vals w, handleClearEquivocation fa vals w));
         route "POST" [Lit "federation"; Lit "transfer_reversal"]
           (writes (λ req _ w, handleTransferReversal fa req w)) ]
     | None => []
     end.

(** One request, as [net/http] hands it to the server: its context holds nothing. *)
Definition serve (req : HttpRequest) (w : W) : Outcome * W :=
  ServeHTTP buildMux {| rq_Method := rq_Method req; rq_Path := rq_Path req; rq_Authorization := rq_Authorization req;
                        rq_Body := rq_Body req; rq_Now := rq_Now req; rq_Operator := None |} w.
End handlers.

(** ** The server: server.go *)

(** The fields [New] checks, in its order; true is nil or empty. *)
Record DepsNil := {
  n_Config : bool; n_ListenAddr : bool; n_TokenValidator : bool; n_PeerCounter : bool; n_Registry : bool;
  n_Ledger : bool; n_TriggerMaintenance : bool
}.

Definition New_check (n : DepsNil) : error :=
  if n_Config n then Some "admin: Config required"
  else if n_ListenAddr n then Some "admin: Config.Admin.ListenAddr required"
  else if n_TokenValidator n then Some "admin: TokenValidator required"
  else if n_PeerCounter n then Some "admin: PeerCounter required"
  else if n_Registry n then Some "admin: Registry required"
  else if n_Ledger n then Some "admin: Ledger required"
  else if n_TriggerMaintenance n then Some "admin: TriggerMaintenance required"
  else None.

(** The fields under the server's mutex; [sv_open] says whether its listener takes requests. *)
Record Server := { sv_running : bool; sv_stopped : bool; sv_listenAddr : string; sv_httpSrv : bool; sv_open : bool }.

Definition new_server : Server :=
  {| sv_running := false; sv_stopped := false; sv_listenAddr := ""; sv_httpSrv := false; sv_open := false |}.

(** [Run] up to [net.Listen]: false is [ErrAlreadyRunning]. *)
Definition Run_enter (s : Server) : bool * Server :=
  if sv_running s then (false, s)
  else (true, {| sv_running := true; sv_stopped := sv_stopped s; sv_listenAddr := sv_listenAddr s;
                 sv_httpSrv := sv_httpSrv s; sv_open := sv_open s |}).

(** [net.Listen] has bound [addr]; [Serve] begins. *)
Definition Run_serve (addr : string) (s : Server) : Server :=
  {| sv_running := sv_running s; sv_stopped := sv_stopped s; sv_listenAddr := addr; sv_httpSrv := true; sv_open := true |}.

(** [Shutdown] always returns what [http.Server.Shutdown] does, or nil. *)
Definition Shutdown (s : Server) : Server :=
  if negb (sv_running s) || sv_stopped s then s
  else {| sv_running := true; sv_stopped := true; sv_listenAddr := sv_listenAddr s;
          sv_httpSrv := sv_httpSrv s; sv_open := sv_open s && negb (sv_httpSrv s) |}.

Definition ListenAddr (s : Server) : string := sv_listenAddr s.

(** A second [Run] is refused. *)
Lemma second_run_refused s s1 : Run_enter s = (true, s1) → (Run_enter s1).1 = false.
Proof. unfold Run_enter. destruct (sv_running s); [done|]. by intros [= <-]. Qed.

(** A [Shutdown] that finds the server listening closes it, and a second changes nothing. *)
Lemma Shutdown_closes s :
  sv_running s = true → sv_stopped s = false → sv_httpSrv s = true →
  sv_open (Shutdown s) = false ∧ Shutdown (Shutdown s) = Shutdown s.
Proof.
  intros Hr Hs Hh. unfold Shutdown at 1. rewrite Hr, Hs, Hh. cbn [negb orb sv_open].
  split; [apply andb_false_r|]. unfold Shutdown. rewrite Hr, Hs. done.
Qed.

(** A [Shutdown] that comes between the two critical sections of [Run] is lost: the server
    goes on to listen, and no later [Shutdown] closes it. *)
Lemma Shutdown_while_starting_lost addr :
  let s := Run_serve addr (Shutdown (Run_enter new_server).2) in
  sv_open s = true ∧ Shutdown s = s.
Proof. done. Qed.

(** The address outlives the listener. *)
Lemma ListenAddr_survives addr :
  let s := Shutdown (Run_serve addr (Run_enter new_server).2) in sv_open s = false ∧ ListenAddr s = addr.
Proof. done. Qed.

(** ** The composition root: admin_reputation_adapter.go and [buildAdminServer] *)

(** The parts of the tracker the interface reaches; [tw_stopping] is the cancelled signal context. *)
Record TW := { tw_b : BState; tw_adm : AdmW; tw_rep : RepSub; tw_stopping : bool }.

Definition set_tb (b : BState) (w : TW) : TW :=
  {| tw_b := b; tw_adm := tw_adm w; tw_rep := tw_rep w; tw_stopping := tw_stopping w |}.
Definition set_tadm (a : AdmW) (w : TW) : TW :=
  {| tw_b := tw_b w; tw_adm := a; tw_rep := tw_rep w; tw_stopping := tw_stopping w |}.
Definition set_trep (r : RepSub) (w : TW) : TW :=
  {| tw_b := tw_b w; tw_adm := tw_adm w; tw_rep := r; tw_stopping := tw_stopping w |}.
Definition set_stopping (w : TW) : TW :=
  {| tw_b := tw_b w; tw_adm := tw_adm w; tw_rep := tw_rep w; tw_stopping := true |}.

(** A handler of a part, as a handler of the whole. *)
Definition on_part {P} (get : TW → P) (set : P → TW → TW) (h : Handler P) : Handler TW := λ req vals w,
  let '(out, p) := h req vals (get w) in (out, set p w).

Section compose.
Context `{Crypto} `{Wire} `{AdminText}.
(** What the operating system does during a request, what runs in the gaps of the broker's
    handler, and the parameters of the parts. *)
Variables (faults : Faults) (io : AdmIO) (e1 e2 : BState → BState).
Variables (trackerKey : bytes) (acfg : AdmissionConfig) (rcfg : ReputationConfig) (has_listener : bool).
Variables (math_Exp math_Log2 : spec_float → spec_float) (conv_undef : spec_float → Z).
Variables (json_Marshal : Jv → bytes) (decode_n : bytes → option Z).
Variables (signals_json : Signals → Jv) (seeder_json : SeederHeartbeatState → Jv) (path : Z → bytes).
(** How an error prints. *)
Variables (rep_text : RepErr → string) (store_text : SErr → string) (ledger_text : LErr → string).
Variables (version : string) (merkleMin : Z) (peerCount : TW → Z).
Variables (fed : option (FederationView TW)) (fedActions : FederationActions TW).

Definition rep_call (idHex : string) (call : bytes → RepM unit) (w : TW) : error * TW :=
  match hexToIdentityID idHex with
  | None => (Some "identity id: identity id must be 32 hex bytes", w)
  | Some id =>
    match call id (tw_rep w) with
    | (Ok _, r) => (None, set_trep r w)
    | (Err e, r) => (Some (rep_text e), set_trep r w)
    end
  end.

Definition reputationAdminActions : ReputationActions TW := {|
  ra_Freeze now idHex operator := rep_call idHex (λ id, Freeze rcfg has_listener id operator now);
  ra_Unfreeze now idHex operator := rep_call idHex (λ id, Unfreeze rcfg id operator now) |}.

(** The token of the environment; an unset one is empty and rejects everything. *)
Definition validator (token : string) : string → bool := λ t, negb (String.eqb token "") && String.eqb t token.

Definition admissionMount (guard : Handler TW → Handler TW) : list (Route TW) :=
  RegisterMux acfg math_Exp math_Log2 conv_undef json_Marshal decode_n signals_json seeder_json path io
    (on_part tw_adm set_tadm) (Some guard).

Definition buildAdminServer (token : string) : Deps TW := {|
  d_MerkleRootIntervalMin := merkleMin; d_Version := version; d_TokenValidator := Some (validator token);
  d_PeerCount := peerCount;
  d_RegistryGet := λ id w, Registry.Get id (w_reg (tw_b w));
  d_Tip := λ w, match Tip faults (w_store (tw_b w)) with Ok t => Ok t | Err e => Err (store_text e) end;
  d_SignedBalance := λ id now w,
    match SignedBalance trackerKey faults now id (w_store (tw_b w)) with
    | Ok b => Ok (Some b)
    | Err e => Err (ledger_text e)
    end;
  d_Federation := fed;
  d_BrokerMux := Some (on_part tw_b set_tb (AdminHandler e1 e2));
  d_AdmissionMount := Some admissionMount;
  d_TriggerMaintenance := set_stopping;
  d_FederationActions := Some fedActions;
  d_Reputation := Some reputationAdminActions |}.

Definition admin_serve (token : string) : HttpRequest → TW → Outcome * TW := serve (buildAdminServer token).

(** ** Properties *)

Lemma substring_all s n : (String.length s ≤ n)%nat → String.substring 0 n s = s.
Proof.
  revert n. induction s as [|c s IH]; intros [|n] Hn; cbn in *; [done|done|lia|]. by rewrite IH by lia.
Qed.

Lemma prefix_split_n p s n :
  String.prefix p s = true → (String.length s ≤ n)%nat → s = p +:+ String.substring (String.length p) n s.
Proof.
  revert s. induction p as [|c p IH]; intros s Hp Hn.
  - cbn. by rewrite substring_all.
  - destruct s as [|c' s]; [done|]. cbn in Hp, Hn. destruct (Ascii.ascii_dec c c') as [<-|]; [|done].
    change (String c s = String c (p +:+ String.substring (String.length p) n s)). f_equal. apply IH; [done|lia].
Qed.

Lemma prefix_split p s : String.prefix p s = true → s = p +:+ String.substring (String.length p) (String.length s) s.
Proof. intros Hp. by apply prefix_split_n. Qed.

Definition guarded {W} (d : Deps W) (rt : Route W) : Prop := ∃ h, rt_Handler rt = guard d h.

Lemma buildMux_guarded {W} (d : Deps W) :
  match d_AdmissionMount d with Some mount => Forall (guarded d) (mount (guard d)) | None => True end →
  Forall (guarded d) (buildMux d).
Proof.
  intros Hm. unfold buildMux. rewrite !Forall_app. split_and!.
  - repeat constructor; eexists; reflexivity.
  - destruct (d_BrokerMux d); repeat constructor. eexists; reflexivity.
  - destruct (d_AdmissionMount d); [exact Hm|constructor].
  - destruct (d_FederationActions d); repeat constructor; eexists; reflexivity.
Qed.

Lemma admin_routes_guarded token : Forall (guarded (buildAdminServer token)) (buildMux (buildAdminServer token)).
Proof. apply buildMux_guarded. cbn. repeat constructor; eexists; reflexivity. Qed.

Lemma guarded_refuses {W} (d : Deps W) routes req w :
  Forall (guarded d) routes → authorized (d_TokenValidator d) req = false →
  (ServeHTTP routes req w).2 = w ∧
  ((ServeHTTP routes req w).1 = Replied unauthorized ∨
   code_of (ServeHTTP routes req w).1 ∈ [Some StatusNotFound; Some StatusMethodNotAllowed]).
Proof.
  intros Hg Ha. unfold ServeHTTP. destruct (find_route routes req) as [[h vals]|] eqn:Hf.
  - apply find_route_in in Hf as (rt & Hin & ->). rewrite Forall_forall in Hg.
    destruct (Hg rt Hin) as [h ->]. unfold guard, bearerGuard. rewrite Ha. by split; [|left].
  - split; [done|]. right. destruct (existsb _ _); cbn; set_solver.
Qed.

(** Nobody gets past the guard without the token. Whatever is asked for, of the core, the
    broker, admission or the federation, a request that does not carry exactly the token
    of the environment changes nothing in the tracker and is told only that it is
    unauthorized or that there is no such route; and without a token in the environment
    that is every request. *)
Lemma operators_only token req w :
  token = "" ∨ rq_Authorization req ≠ "Bearer " +:+ token →
  (admin_serve token req w).2 = w ∧
  ((admin_serve token req w).1 = Replied unauthorized ∨
   code_of (admin_serve token req w).1 ∈ [Some StatusNotFound; Some StatusMethodNotAllowed]).
Proof.
  intros Hno. unfold admin_serve, serve. apply (guarded_refuses (buildAdminServer token)); [apply admin_routes_guarded|].
  cbn [authorized buildAdminServer d_TokenValidator rq_Authorization]. unfold validator.
  destruct (String.eqb token "") eqn:Et; [apply andb_false_r|]. cbn [negb andb].
  destruct Hno as [->|Hno]; [done|]. apply andb_false_iff.
  destruct (HasPrefix (rq_Authorization req) "Bearer ") eqn:Hp; [right|by left].
  unfold TrimPrefix, HasPrefix in *. rewrite Hp. apply String.eqb_neq. intros He. apply Hno.
  rewrite <- He. by apply prefix_split.
Qed.

(** The request an operator's client sends. *)
Definition op_request (token method : string) (segs : list string) (body : bytes) (now : Z) : HttpRequest := {|
  rq_Method := method; rq_Path := segs; rq_Authorization := "Bearer " +:+ token; rq_Body := body;
  rq_Now := now; rq_Operator := None |}.

Lemma parseHexID_Encode b : length b = 32%nat → parseHexID (hex_EncodeToString b) = Ok b.
Proof. intros Hl. unfold parseHexID, blen. by rewrite hex_DecodeString_Encode, Hl. Qed.

Lemma authorized_token token req :
  token ≠ "" → rq_Authorization req = "Bearer " +:+ token → authorized (Some (validator token)) req = true.
Proof.
  intros Ht Ha. cbn [authorized]. rewrite Ha. unfold HasPrefix, TrimPrefix, validator.
  assert (String.prefix "Bearer " ("Bearer " +:+ token) = true) as Hp by (cbn; by destruct token).
  rewrite Hp. cbn [andb].
  change (String.substring (String.length "Bearer ") (String.length ("Bearer " +:+ token)) ("Bearer " +:+ token))
    with (String.substring 0 (String.length ("Bearer " +:+ token)) token).
  rewrite substring_all by (change (String.length ("Bearer " +:+ token)) with (7 + String.length token)%nat; lia).
  rewrite String.eqb_refl, andb_true_r. by rewrite (proj2 (String.eqb_neq _ _) Ht).
Qed.

Lemma serve_route token method segs body now w h vals :
  token ≠ "" →
  find_route (buildMux (buildAdminServer token)) (op_request token method segs body now)
    = Some (guard (buildAdminServer token) h, vals) →
  admin_serve token (op_request token method segs body now) w =
    h (op_request token method segs body now) vals w.
Proof.
  intros Ht Hf. unfold admin_serve, serve. cbn [op_request rq_Method rq_Path rq_Authorization rq_Body rq_Now].
  change (Build_HttpRequest method segs _ body now None) with (op_request token method segs body now).
  unfold ServeHTTP. rewrite Hf. unfold guard, bearerGuard. cbn [buildAdminServer d_TokenValidator].
  by rewrite authorized_token.
Qed.

(** An operator's freeze takes effect. The request is accepted, the identity is frozen and
    the listener is told, nothing else of the tracker changes, and from then on the broker
    refuses the identity's requests. *)
Lemma operator_freezes token id body now w :
  token ≠ "" → length id = 32%nat → has_listener = true →
  rp_oracle (tw_rep w) = [] → rp_closed (tw_rep w) = false →
  (let r := default (freshRow now) (rep_state (rp_tables (tw_rep w)) !! id) in
   sw_State r ≠ StateFrozen ∧ row_encodes r = true) →
  let '(out, w') := admin_serve token
    (op_request token "POST" ["identity"; hex_EncodeToString id; "freeze"] body now) w in
  code_of out = Some StatusAccepted ∧ IsFrozen id (tw_rep w') = true ∧
  rp_notified (tw_rep w') = rp_notified (tw_rep w) ++ [ {| fz_id := id; fz_reason := "operator"; fz_revokedAt := now |} ] ∧
  tw_b w' = tw_b w ∧ tw_adm w' = tw_adm w ∧ tw_stopping w' = tw_stopping w ∧
  ∀ cfg pricing ttl archive reqID atts now' env b,
    copy32 (env_ConsumerId env) = id →
    Submit cfg pricing ttl (λ i, IsFrozen i (tw_rep w')) archive reqID atts now' (Some (Some env)) b
    = (Err ErrIdentityFrozen, b).
Proof.
  intros Ht Hl Hn Ho Hc [Hs He].
  assert (String.eqb (hex_EncodeToString id) "" = false) as Hne by (by destruct id).
  rewrite (serve_route _ _ _ _ _ _ (writes (handleFreeze (buildAdminServer token))) [hex_EncodeToString id]); [|done|].
  2:{ unfold find_route, buildMux. cbn. by rewrite Hne. }
  unfold writes, handleFreeze. cbn [buildAdminServer d_Reputation path_value head default].
  unfold path_value. cbn [head default from_option]. unfold Datatypes.id. rewrite Hne.
  cbn [reputationAdminActions ra_Freeze op_request rq_Now]. unfold rep_call, hexToIdentityID.
  rewrite hex32_Encode by done. rewrite Hn.
  destruct (Freeze_ok rcfg id "admin" now (tw_rep w) Ho Hc Hs He) as (s' & -> & Hf & _ & Hno).
  cbn [set_trep tw_rep tw_b tw_adm tw_stopping]. split_and!; try done.
  intros * <-. by apply Submit_frozen.
Qed.

(** An operator's drain, from the request to the record: the requests popped are those the
    queue gives first, the answer names their consumers, and the log has the override, under
    the name of nobody in particular. *)
Lemma operator_drains token body now w :
  token ≠ "" →
  let req := op_request token "POST" ["admission"; "queue"; "drain"] body now in
  let '(out, w') := admin_serve token req w in
  code_of out = Some StatusOK → is_Some (p_tlog (aw_p (tw_adm w))) →
  ∃ n es q, decode_n body = Some n ∧ drainTopN n (as_queue (aw_adm (tw_adm w))) = Some (es, q) ∧
    aw_adm (tw_adm w') = set_queue q (aw_adm (tw_adm w)) ∧ tw_b w' = tw_b w ∧ tw_rep w' = tw_rep w ∧
    out = Replied (write_json StatusOK
      (JvObj [("drained", JvArr ((λ e, JvStr (hex_EncodeToString (qe_ConsumerID e))) <$> es))])) ∧
    recorded io req "queue/drain" (mustJSON json_Marshal (JvObj [("n", JvInt n)])) (aw_p (tw_adm w)) (aw_p (tw_adm w')) ∧
    operatorIDFromContext (rq_Operator req) = "anonymous".
Proof.
  intros Ht req. subst req.
  rewrite (serve_route _ _ _ _ _ _ (on_part tw_adm set_tadm (handleQueueDrain json_Marshal decode_n io)) []); [|done|done].
  unfold on_part. set (req := op_request _ _ _ _ _).
  pose proof (drain_on_record json_Marshal decode_n io req [] (tw_adm w)) as Hd.
  destruct (handleQueueDrain _ _ _ _ _ _) as [out a']. intros Hc Hl.
  destruct (Hd Hc Hl) as (n & es & q & ? & ? & ? & ? & ?). exists n, es, q. by split_and!.
Qed.

(** [GET /identity]: the ledger answers for every identity, so none is unknown, and what
    reads as one is a failing database. *)
Lemma no_identity_is_unknown token id body now w bal b :
  token ≠ "" → length id = 32%nat →
  SignedBalance trackerKey faults now id (w_store (tw_b w)) = Ok bal → sbs_Body bal = Some b →
  ∃ fields, admin_serve token (op_request token "GET" ["identity"; hex_EncodeToString id] body now) w
    = (Replied (write_json StatusOK (JvObj (fields ++ [("balance", balance_info b)]))), w).
Proof.
  intros Ht Hl Hb Hs. assert (String.eqb (hex_EncodeToString id) "" = false) as Hne by (by destruct id).
  rewrite (serve_route _ _ _ _ _ _ (reads (handleIdentity (buildAdminServer token))) [hex_EncodeToString id]); [|done|].
  2:{ unfold find_route, buildMux. cbn. by rewrite Hne. }
  unfold reads, handleIdentity, path_value. cbn [head default from_option]. unfold Datatypes.id.
  rewrite parseHexID_Encode by done.
  cbn [buildAdminServer d_RegistryGet d_SignedBalance op_request rq_Now]. rewrite Hb, Hs.
  destruct (Registry.Get id (w_reg (tw_b w))); cbn [negb]; eexists; reflexivity.
Qed.

Lemma failing_ledger_hides_identity token id body now w e :
  token ≠ "" → length id = 32%nat →
  SignedBalance trackerKey faults now id (w_store (tw_b w)) = Err e → Registry.Get id (w_reg (tw_b w)) = None →
  admin_serve token (op_request token "GET" ["identity"; hex_EncodeToString id] body now) w
    = (Replied (writeError StatusNotFound "identity not found"), w).
Proof.
  intros Ht Hl Hb Hr. assert (String.eqb (hex_EncodeToString id) "" = false) as Hne by (by destruct id).
  rewrite (serve_route _ _ _ _ _ _ (reads (handleIdentity (buildAdminServer token))) [hex_EncodeToString id]); [|done|].
  2:{ unfold find_route, buildMux. cbn. by rewrite Hne. }
  unfold reads, handleIdentity, path_value. cbn [head default from_option]. unfold Datatypes.id.
  rewrite parseHexID_Encode by done.
  cbn [buildAdminServer d_RegistryGet d_SignedBalance op_request rq_Now]. by rewrite Hb, Hr.
Qed.

(** A force-fail through the server is the handler's, on the broker's part of the state. *)
Lemma operator_force_fails token reqID body now w :
  token ≠ "" → length reqID = 16%nat →
  admin_serve token (op_request token "POST" ["broker"; "inflight"; "fail"; hex_EncodeToString reqID] body now) w
  = let '(resp, b) := handleForceFailInflight now e1 e2 (hex_EncodeToString reqID) (tw_b w) in
    (Replied resp, set_tb b w).
Proof.
  intros Ht Hl. assert (String.eqb (hex_EncodeToString reqID) "" = false) as Hne by (by destruct reqID).
  rewrite (serve_route _ _ _ _ _ _ (on_part tw_b set_tb (AdminHandler e1 e2)) []); [|done|done].
  unfold on_part, AdminHandler, ServeHTTP, find_route. cbn [op_request]. cbn -[handleForceFailInflight hex_EncodeToString].
  rewrite Hne. cbn -[handleForceFailInflight hex_EncodeToString]. unfold writes, path_value. cbn [head default from_option].
  unfold Datatypes.id. by destruct (handleForceFailInflight _ _ _ _ _) as [resp b].
Qed.
End compose.

(** ** Peers *)

(** What an operator adds as a peer has an identity and a key of 32 bytes and an address,
    and the status tells what the federation said. *)
Lemma add_peer_validated `{AdminText} {W} (d : Deps W) req w :
  let '(resp, w') := handlePeersAdd d req w in
  rs_Code resp ∈ [StatusNotImplemented; StatusBadRequest] ∧ w' = w ∨
  ∃ fed p err, d_Federation d = Some fed ∧ length (pa_TrackerID p) = 32%nat ∧ length (pa_PubKey p) = 32%nat ∧
    pa_Addr p ≠ "" ∧ fv_AddPeer fed p w = (err, w') ∧
    rs_Code resp = match err with
                   | None => StatusAccepted
                   | Some ErrPeerExists => StatusConflict
                   | Some _ => StatusInternalServerError
                   end.
Proof.
  unfold handlePeersAdd. destruct (d_Federation d) as [fed|]; [|left; split; [set_solver|done]].
  destruct (decode_add _) as [body|e]; [|left; split; [set_solver|done]].
  destruct (parseHexTrackerID _) as [tid|e] eqn:Et; [|left; split; [set_solver|done]].
  destruct (hex_DecodeString (pb_PubKey body)) as [pk|]; [|left; split; [set_solver|done]].
  destruct (blen pk =? 32) eqn:Ep; cbn [negb]; [|left; split; [set_solver|done]].
  destruct (String.eqb (pb_Addr body) "") eqn:Ea; [left; split; [set_solver|done]|].
  assert (length tid = 32%nat) as Htid.
  { unfold parseHexTrackerID, parseHexID in Et. destruct (String.eqb _ _); [done|].
    destruct (hex_DecodeString _) as [x|]; [|done]. destruct (blen x =? 32) eqn:Ex; [|done].
    injection Et as <-. apply Z.eqb_eq in Ex. unfold blen in Ex. lia. }
  assert (length pk = 32%nat) by (apply Z.eqb_eq in Ep; unfold blen in Ep; lia).
  assert (pb_Addr body ≠ "") by (by apply String.eqb_neq).
  set (p := Build_PeerAddRequest _ _ _ _). destruct (fv_AddPeer fed p w) as [err w'] eqn:Ef.
  destruct err as [[| |msg]|]; right; exists fed, p; eexists; by split_and!.
Qed.
